(* ===== verification/_CoqProject ===== *)
-Q . S2P
Prelude.v
Bitmap.v
SlideWindow.v
IdGenerator.v
Memory.v
MsgRing.v
FlowControl.v
UmqTx.v
CreditSystem.v
TimingWheel.v
UmsCursor.v
UmsWr.v
UmsConn.v
UmsStream.v
UmsSystem.v
UmsLimits.v
Tlv.v
CpCompat.v
CpCompatParse.v
CpCompatRound.v
CpCompatBounds.v
DlockMemory.v
Dlock.v
DlockServer.v
DlockClient.v
DlockSystem.v
DlockAtomic.v
DlockReliable.v
DlockRw.v
DlockControl.v
DlockControlSafe.v
DlockFrame.v
DlockObjects.v
DlockControlInv.v
DlockSessions.v
DlockStore.v
DlockWhole.v
QbufList.v
QbufFrag.v
QbufPool.v
QbufOwn.v
QbufSystem.v
QbufHuge.v
QbufHugeInv.v
QbufApi.v
QbufShm.v
UmqIpc.v
UmqIpcSystem.v
UmqIpcSetup.v
Slab.v
UrpcPool.v
