(* ===== verification/Prelude.v ===== *)
(** * A verification of UMDK

    UMDK is a set of communication libraries for the UB interconnect.  This
    library models the parts of it that manage shared state and proves what
    they promise.  Paths below are relative to src/src.

    ** The program and the files that model it

    - Bits, identifiers and small allocators.  [Bitmap]: the bitmaps and bit
      searches of urpc/util/urpc_bitmap, urma/common (ub_bitmap, ub_util) and the
      index allocator of the bonding provider (bondp_bitmap).  [SlideWindow]: the
      receive window of the bonding provider, over the [BitArray] interface that
      [Bitmap] implements.  [IdGenerator]: urpc_id_generator and the allocator of
      umq/util_id_generator.  [Slab] and [UrpcPool]: the object slabs and the
      element pools with thread caches of urpc/util.  [TimingWheel]:
      urpc/util/urpc_timer.
    - UMQ, message queues.  [Memory] is the byte memory of a shared region and
      [MsgRing] the pair of rings in it (msg_ring.c).  [QbufList], [QbufFrag],
      [QbufPool], [QbufOwn] and [QbufSystem] are the pool of message buffers with
      thread caches (qbuf_list.h, umq_qbuf_pool); [QbufHuge] and [QbufHugeInv] the
      pools of larger blocks (umq_huge_qbuf_pool); [QbufApi] the buffer calls of
      umq_api.c, which choose among them; [QbufShm] the pool in shared memory
      (umq_shm_qbuf_pool); [UmqIpc], [UmqIpcSystem] and [UmqIpcSetup] the
      transport that composes ring and pool (umq_ipc_impl.c).  [FlowControl],
      [UmqTx] and [CreditSystem] are the credits of the UB transport and the
      handlers that move them (umq_ub/core).
    - UMS, sockets in the kernel (usock/ums/kmod/ums).  [UmsCursor]: ring cursors;
      [UmsWr]: work-request slots; [UmsConn]: the data path of a connection
      (ums_tx, ums_rx, ums_cdc); [UmsStream], [UmsSystem]: two connections with
      the hardware between them; [UmsLimits]: behaviour outside that contract.
    - URPC control path (urpc/framework/lib/control).  [Tlv]: type-length-value
      elements; [CpCompat]: the serializers and deserializers of
      cp_vers_compat.c; [CpCompatParse], [CpCompatRound], [CpCompatBounds]: their
      theorems.
    - dlock, distributed locks (ulock/dlock/lib).  [DlockMemory]: the allocator of
      lock memory; [Dlock], [DlockServer]: lock layouts and the server's handlers;
      [DlockClient]: the client's view of a lock; [DlockSystem], [DlockAtomic],
      [DlockReliable], [DlockRw]: clients, server and network together;
      [DlockControl]: the control plane of the server; [DlockControlSafe],
      [DlockFrame], [DlockObjects], [DlockControlInv], [DlockSessions]: its
      tables; [DlockStore], [DlockWhole]: control plane and data path on one
      server.

    ** How code is translated

    Integers are [Z] with the wrap-around of their C type written out ([u16],
    [u32], [s32], ...).  Functions keep their names.  Mutable structures are
    records passed along; memory that several parties see is a byte list, a map
    from addresses to headers, or a heap of objects.  A result [None] is
    undefined behaviour of the C code: an access outside a buffer, a null or
    dangling pointer.  Error returns are values of the result.  The answers of
    the operating system, malloc, the device and callbacks are arguments, with
    what is relied on as named hypotheses.  A section under a lock is one step;
    threads, processes, messages and hardware interleave between steps.  The
    lock-free loops of [FlowControl] interleave at single memory accesses,
    sequentially consistent.

    ** What the theorems show

    - Delivery.  Two processes on one region, created and bound by the code, lose,
      repeat or reorder no message ([UmqIpcSystem], [UmqIpcSetup]); an offset that a
      peer sends is checked ([QbufShm]); the rings refine bounded queues
      ([MsgRing]).  A UMS stream delivers a prefix of what was sent, and all of it
      once the queues are empty ([UmsSystem]); a completion finds its request
      ([UmsWr]).  A receive buffer is posted for every UB message in flight,
      also when posts are refused and sends fail ([CreditSystem]), and concurrent credit updates lose nothing ([FlowControl]).
      The bonding window accepts each message once ([SlideWindow]).
    - Ownership.  Blocks, objects, elements and identifiers are in one place under
      any interleaving, allocations return fresh and well-formed results or fail
      for a stated reason, and release gives everything back ([QbufSystem],
      [QbufHugeInv], [QbufApi], [Slab], [UrpcPool], [IdGenerator], [Bitmap],
      [DlockMemory]).
    - Time.  A timer runs at its deadline, and a pass always ends ([TimingWheel]).
    - Locks.  Leases exclude each other under loss and delay ([DlockAtomic]),
      writers exclude readers without loss ([DlockRw]), asynchronous calls agree
      with synchronous ones ([DlockClient]), the commands of a message act on the
      bytes of the lock memory as on separate objects ([DlockServer]), and the
      server with both threads, on messages that are proper where they arrive,
      refines a store of lock objects with consistent tables ([DlockStore],
      [DlockWhole]).
    - Messages.  Serializing and deserializing is the identity, later versions are
      read, and buffers of a peer are read within bounds when their lengths are
      well formed ([CpCompatRound], [CpCompatParse], [CpCompatBounds]).
    - Conditions.  Where a theorem asks for more than the code checks, its comment
      says so, and examples beside it evaluate calls that pass the checks of the
      code and break it ([mixed_chain_bypasses_window], [short_attach_info],
      [control_messages_fault], [rw_lost_response_two_writers] and others).

    ** Fuel and bounds

    Loops that are not structural carry fuel, and their results are proved to
    exist: list walks take one more than the number of headers ([list_fuel]),
    since a walk visits a header once; the element search takes the length of
    the buffer, since each element has a head; bit searches
    one more than the words; the search of the lock server for a free identifier
    one more than the identifiers in use; growing a pool 66 rounds, for at most 64
    regions; fetching from a shared pool two more than the need; the scan of a
    slab's free list one more than the objects; the closing of a thread visits
    the 1024 pool identifiers.  The UMS theorems bound a run by the identifiers
    of its work requests, at most twice its cost and below 2^63, and take ring
    sizes below 2^30.  The
    theorems on pools and slabs ask for sizes whose products fit the width the
    code computes them in; what happens outside is shown beside them.

    ** Not modelled

    - Work done by other code: connection set-up, link management and device
      registration of UMS (Linux kernel, ubcore), channels, queues, keepalive and
      task engine of URPC (sockets, epoll, providers), URMA commands (ioctl), the
      bonding data path and the UDMA driver (device queues), encryption
      (OpenSSL), threads, files and logs.
    - umq_ubmm and the creation of UB resources; of the UB data path, polling of
      receives around [on_rx_done], and import of memory pools.
    - dlock: the client side of control messages, batched client calls, atomic64
      calls of the client, and the replica roles of a server; the asynchronous
      calls are modelled for one client ([DlockClient]), not in the system of
      clients and server ([DlockSystem]).
    - UMS splice and sendpage, waiting and wake-ups.
    - Weak memory: a locked section, a handler or a ring operation is one step, and
      the barriers inside it have no counterpart.  In [UmqIpc] the bytes of the
      rings and the headers of the buffers are separate memories, since the layout
      keeps them apart ([UmqIpcSetup] shows a size for which it does not).
    - The CAM operators (accelerator kernels), tools, examples and tests. *)

From Stdlib Require Export ZArith Lia.
From stdpp Require Export base option numbers gmap list.

Declare Scope umdk_scope.
Delimit Scope umdk_scope with umdk.
#[global] Open Scope Z_scope.
#[global] Open Scope umdk_scope.

(** ** Fixed-width integers

    A C integer of width [w] is a [Z] kept in range; arithmetic that the
    source performs at that width is wrapped explicitly. *)

Definition u8 (x : Z) : Z := x mod 2 ^ 8.
Definition u16 (x : Z) : Z := x mod 2 ^ 16.
Definition u32 (x : Z) : Z := x mod 2 ^ 32.
Definition u64 (x : Z) : Z := x mod 2 ^ 64.

(** Conversion of an unsigned value to a signed [int] or [short]
    (two's complement). *)
Definition s16 (x : Z) : Z := (x + 2 ^ 15) mod 2 ^ 16 - 2 ^ 15.
Definition s32 (x : Z) : Z := (x + 2 ^ 31) mod 2 ^ 32 - 2 ^ 31.

Definition UINT16_MAX : Z := 65535.
Definition UINT32_MAX : Z := 4294967295.

Notation "'in_u16' x" := (0 <= x < 2 ^ 16) (at level 10, x at level 9) : umdk_scope.
Notation "'in_u32' x" := (0 <= x < 2 ^ 32) (at level 10, x at level 9) : umdk_scope.
Notation "'in_u64' x" := (0 <= x < 2 ^ 64) (at level 10, x at level 9) : umdk_scope.

Create HintDb umdk.
Create Rewrite HintDb umdk_rw.

(** ** Case analysis on the source's tests *)

Ltac split_ifs_in H :=
  repeat match type of H with
  | context [if ?b then _ else _] => let E := fresh "E" in destruct b eqn:E
  end.

Ltac split_ifs :=
  repeat match goal with
  | |- context [if ?b then _ else _] => let E := fresh "E" in destruct b eqn:E
  end.

(** Turn the boolean tests in the context into propositions for [lia]. *)
Ltac breflect :=
  repeat match goal with
  | H : (_ && _)%bool = true |- _ => apply andb_true_iff in H; destruct H
  | H : (_ || _)%bool = false |- _ => apply orb_false_iff in H; destruct H
  | H : (_ && _)%bool = false |- _ => apply andb_false_iff in H
  | H : (_ || _)%bool = true |- _ => apply orb_true_iff in H
  | H : negb _ = true |- _ => apply negb_true_iff in H
  | H : negb _ = false |- _ => apply negb_false_iff in H
  | H : (_ <? _) = true |- _ => apply Z.ltb_lt in H
  | H : (_ <? _) = false |- _ => apply Z.ltb_ge in H
  | H : (_ <=? _) = true |- _ => apply Z.leb_le in H
  | H : (_ <=? _) = false |- _ => apply Z.leb_gt in H
  | H : (_ =? _) = true |- _ => apply Z.eqb_eq in H
  | H : (_ =? _) = false |- _ => apply Z.eqb_neq in H
  end.

(** Nonlinear and modular goals: expose quotients and remainders to [lia]. *)
Ltac zmod := Z.div_mod_to_equations; lia.
Ltac znmod := Z.div_mod_to_equations; nia.

(** ** Wrapping lemmas *)

Lemma u16_small x : in_u16 x -> u16 x = x.
Proof. apply Z.mod_small. Qed.
Lemma u32_small x : in_u32 x -> u32 x = x.
Proof. apply Z.mod_small. Qed.
Lemma u64_small x : in_u64 x -> u64 x = x.
Proof. apply Z.mod_small. Qed.
Lemma u16_range x : in_u16 (u16 x).
Proof. apply Z.mod_pos_bound; lia. Qed.
Lemma u32_range x : in_u32 (u32 x).
Proof. apply Z.mod_pos_bound; lia. Qed.
Lemma u64_range x : in_u64 (u64 x).
Proof. apply Z.mod_pos_bound; lia. Qed.
#[export] Hint Resolve u16_range u32_range u64_range : umdk.
#[export] Hint Rewrite u16_small u32_small u64_small using lia : umdk_rw.

(** The offset of [x] after [b] on a circle of [n] positions, and back. *)
Lemma mod_offset_inj n b i j :
  0 < n -> 0 <= i < n -> 0 <= j < n ->
  (b + i) mod n = (b + j) mod n -> i = j.
Proof.
  intros Hn Hi Hj H.
  pose proof (Z.div_mod (b + i) n ltac:(lia)) as E1.
  pose proof (Z.div_mod (b + j) n ltac:(lia)) as E2.
  rewrite H in E1. remember ((b + i) / n) as q1. remember ((b + j) / n) as q2.
  assert (i - j = n * (q1 - q2)) by lia.
  assert (q1 - q2 = 0) by nia. lia.
Qed.

Lemma mod_offset_recover n b x :
  0 < n -> 0 <= x < n -> (b + (x - b) mod n) mod n = x.
Proof.
  intros Hn Hx. rewrite Zplus_mod_idemp_r.
  replace (b + (x - b)) with x by lia. apply Z.mod_small; lia.
Qed.

(** ** Arrays

    [zget]/[zset] are array accesses: [None] is an access outside the
    allocation, so a result [Some _] also says the access was legal. *)

Section arrays.
Context {A : Type}.
Implicit Types (l : list A) (x : A) (i j : Z).

Definition zlen l : Z := Z.of_nat (length l).

Definition zget l i : option A :=
  if 0 <=? i then l !! Z.to_nat i else None.

Definition zset l i x : option (list A) :=
  if (0 <=? i) && (i <? zlen l) then Some (<[Z.to_nat i := x]> l) else None.

Lemma zlen_nonneg l : 0 <= zlen l.
Proof. unfold zlen; lia. Qed.

Lemma zlen_app l k : zlen (l ++ k) = zlen l + zlen k.
Proof. unfold zlen. rewrite length_app. lia. Qed.

Lemma zget_Some_range l i x : zget l i = Some x -> 0 <= i < zlen l.
Proof.
  unfold zget, zlen. case_match; [|done]. breflect.
  intros H2%lookup_lt_Some. lia.
Qed.

Lemma zget_in_range l i : 0 <= i < zlen l -> exists x, zget l i = Some x.
Proof.
  unfold zget, zlen. intros H. rewrite (proj2 (Z.leb_le 0 i)) by lia.
  apply lookup_lt_is_Some_2. lia.
Qed.

Lemma zset_Some l i x l' :
  zset l i x = Some l' <-> 0 <= i < zlen l /\ l' = <[Z.to_nat i := x]> l.
Proof.
  unfold zset. case_match; breflect; split.
  - intros [= <-]. split; [lia|done].
  - by intros [_ ->].
  - done.
  - intros [? _]. destruct_or?; breflect; lia.
Qed.

Lemma zset_in_range l i x : 0 <= i < zlen l -> exists l', zset l i x = Some l'.
Proof. intros H. eexists. by apply zset_Some. Qed.

Lemma zset_len l i x l' : zset l i x = Some l' -> zlen l' = zlen l.
Proof. intros [_ ->]%zset_Some. unfold zlen. by rewrite length_insert. Qed.

Lemma zget_zset_eq l i x l' : zset l i x = Some l' -> zget l' i = Some x.
Proof.
  intros [? ->]%zset_Some. unfold zget, zlen in *.
  rewrite (proj2 (Z.leb_le 0 i)) by lia.
  apply list_lookup_insert_eq. lia.
Qed.

Lemma zget_zset_ne l i j x l' : zset l i x = Some l' -> i <> j -> zget l' j = zget l j.
Proof.
  intros [? ->]%zset_Some Hne. unfold zget, zlen in *.
  case_match; [|done]. breflect. apply list_lookup_insert_ne. lia.
Qed.

Lemma zget_replicate (n : nat) x i :
  0 <= i < Z.of_nat n -> zget (replicate n x) i = Some x.
Proof.
  intros H. unfold zget. rewrite (proj2 (Z.leb_le 0 i)) by lia.
  apply lookup_replicate_2. lia.
Qed.

Lemma zlen_replicate (n : nat) x : zlen (replicate n x) = Z.of_nat n.
Proof. unfold zlen. by rewrite length_replicate. Qed.
End arrays.

#[export] Hint Resolve zlen_nonneg : umdk.

(** ** Bits of machine words *)

Lemma testbit_u64 x i : 0 <= i < 64 -> Z.testbit (u64 x) i = Z.testbit x i.
Proof. intros. apply Z.mod_pow2_bits_low. lia. Qed.

Lemma testbit_u64_high x i : 64 <= i -> Z.testbit (u64 x) i = false.
Proof. intros. apply Z.mod_pow2_bits_high. lia. Qed.

Lemma testbit_in_u64_high x i : in_u64 x -> 64 <= i -> Z.testbit x i = false.
Proof. intros Hx Hi. rewrite <- (u64_small x Hx). by apply testbit_u64_high. Qed.

(** A word is zero exactly when all its 64 bits are. *)
Lemma word_zero_bits x :
  in_u64 x -> (forall i, 0 <= i < 64 -> Z.testbit x i = false) -> x = 0.
Proof.
  intros Hx Hb. apply Z.bits_inj_0. intros i.
  destruct (Z.lt_ge_cases i 0); [by apply Z.testbit_neg_r|].
  destruct (Z.lt_ge_cases i 64); [by apply Hb; lia|].
  by apply testbit_in_u64_high.
Qed.

Lemma land_in_u64 x y : in_u64 x -> in_u64 (Z.land x y).
Proof.
  intros Hx. replace x with (Z.land x (Z.ones 64)).
  2: { rewrite Z.land_ones by lia. by apply Z.mod_small. }
  rewrite <- Z.land_assoc, (Z.land_comm (Z.ones 64)), Z.land_assoc, Z.land_ones by lia.
  apply Z.mod_pos_bound. lia.
Qed.

Lemma in_u64_bits x :
  0 <= x -> (forall i, 64 <= i -> Z.testbit x i = false) -> in_u64 x.
Proof.
  intros Hx Hb. replace x with (u64 x); [apply u64_range|].
  apply Z.bits_inj'. intros i Hi. destruct (Z.lt_ge_cases i 64).
  - by apply testbit_u64.
  - rewrite testbit_u64_high by lia. by rewrite Hb.
Qed.

Lemma lor_in_u64 x y : in_u64 x -> in_u64 y -> in_u64 (Z.lor x y).
Proof.
  intros Hx Hy. apply in_u64_bits; [apply Z.lor_nonneg; lia|].
  intros i Hi. rewrite Z.lor_spec, !testbit_in_u64_high by done. done.
Qed.

Lemma lxor_in_u64 x y : in_u64 x -> in_u64 y -> in_u64 (Z.lxor x y).
Proof.
  intros Hx Hy. apply in_u64_bits; [apply Z.lxor_nonneg; lia|].
  intros i Hi. rewrite Z.lxor_spec, !testbit_in_u64_high by done. done.
Qed.

(** [__builtin_ctzll]: the number of trailing zeros (meaningful for [x <> 0]). *)
Fixpoint pos_ctz (p : positive) : Z :=
  match p with
  | xO q => 1 + pos_ctz q
  | _ => 0
  end.

Definition ctz (x : Z) : Z :=
  match x with
  | Zpos p => pos_ctz p
  | _ => 0
  end.

Lemma pos_ctz_nonneg p : 0 <= pos_ctz p.
Proof. induction p; simpl; lia. Qed.

Lemma ctz_set x : 0 < x -> Z.testbit x (ctz x) = true.
Proof.
  destruct x as [|p|p]; [lia| |lia]. intros _. simpl ctz.
  induction p as [p IH|p IH|]; [done| |done].
  simpl pos_ctz. pose proof (pos_ctz_nonneg p).
  replace (1 + pos_ctz p) with (Z.succ (pos_ctz p)) by lia.
  by rewrite Pos2Z.inj_xO, Z.double_bits_succ.
Qed.

Lemma ctz_least x i : 0 < x -> 0 <= i < ctz x -> Z.testbit x i = false.
Proof.
  destruct x as [|p|p]; [lia| |lia]. intros _. simpl ctz. revert i.
  induction p as [p IH|p IH|]; simpl; intros i Hi; [lia| |lia].
  destruct (decide (i = 0)) as [->|]; [done|].
  replace i with (Z.succ (i - 1)) by lia.
  rewrite Pos2Z.inj_xO, Z.double_bits_succ. apply IH. lia.
Qed.

Lemma ctz_range x : 0 < x < 2 ^ 64 -> 0 <= ctz x < 64.
Proof.
  intros Hx. assert (0 <= ctz x) by (destruct x; simpl; [lia|apply pos_ctz_nonneg|lia]).
  split; [done|]. destruct (Z.lt_ge_cases (ctz x) 64); [done|].
  pose proof (ctz_set x ltac:(lia)) as Hs.
  rewrite testbit_in_u64_high in Hs by lia. done.
Qed.
