(* ===== verification/Bitmap.v ===== *)
(** * Bitmaps: [ub_bitmap], [ub_util] searches, [urpc_bitmap], [bondp_bitmap]

    The two C libraries of the repository (urma/common and urpc/util) carry
    the same bitmap: an array of 64-bit words, with bit [i] at bit [i mod 64]
    of word [i / 64].  A bitmap is modelled as the list of its words; an
    access outside the list is [None].  The theorems relate every operation
    to the flat view [bit_of]. *)

From S2P Require Import Prelude.

Definition URPC_ULONG_BITS : Z := 64.
Definition BITS_PER_LONG : Z := 64.
Definition BITS_PER_LONG_SHIFT : Z := 6.
Definition ULONG_MAX : Z := 2 ^ 64 - 1.
Definition CHAR_BIT : Z := 8.

Definition DIV_ROUND_UP (n d : Z) : Z := u64 (u64 (n + d) - 1) / d.

(** ** Accessors (urpc_bitmap.h) *)

Definition urpc_bitmap_n_ulongs (n_bits : Z) : Z := DIV_ROUND_UP n_bits URPC_ULONG_BITS.

Definition urpc_bitmap_nbytes (n_bits : Z) : Z := u64 (DIV_ROUND_UP n_bits URPC_ULONG_BITS * 8).

Definition urpc_bitmap_offset_bit (offset : Z) : Z := Z.shiftl 1 (offset mod URPC_ULONG_BITS).

(** [calloc] either fails or returns zeroed words. *)
Definition urpc_bitmap_alloc (alloc_ok : bool) (n_bits : Z) : option (list Z) :=
  if alloc_ok then Some (replicate (Z.to_nat (urpc_bitmap_nbytes n_bits / 8)) 0) else None.

Definition urpc_bitmap_alloc_1 (alloc_ok : bool) (n_bits : Z) : option (list Z) :=
  bitmap ← urpc_bitmap_alloc alloc_ok n_bits;
  let bitmap := replicate (length bitmap) ULONG_MAX in
  if negb (n_bits mod URPC_ULONG_BITS =? 0) then
    w ← zget bitmap (urpc_bitmap_n_ulongs n_bits - 1);
    zset bitmap (urpc_bitmap_n_ulongs n_bits - 1)
      (Z.shiftr w (URPC_ULONG_BITS - n_bits mod URPC_ULONG_BITS))
  else Some bitmap.

Definition urpc_bitmap_is_set (bitmap : list Z) (offset : Z) : option bool :=
  w ← zget bitmap (offset / URPC_ULONG_BITS);
  Some (negb (Z.land w (urpc_bitmap_offset_bit offset) =? 0)).

Definition urpc_bitmap_set1 (bitmap : list Z) (offset : Z) : option (list Z) :=
  w ← zget bitmap (offset / URPC_ULONG_BITS);
  zset bitmap (offset / URPC_ULONG_BITS) (Z.lor w (urpc_bitmap_offset_bit offset)).

Definition urpc_bitmap_set0 (bitmap : list Z) (offset : Z) : option (list Z) :=
  w ← zget bitmap (offset / URPC_ULONG_BITS);
  zset bitmap (offset / URPC_ULONG_BITS)
    (Z.land w (u64 (Z.lnot (urpc_bitmap_offset_bit offset)))).

Definition urpc_bitmap_set (bitmap : list Z) (offset : Z) (value : bool) : option (list Z) :=
  if value then urpc_bitmap_set1 bitmap offset else urpc_bitmap_set0 bitmap offset.

(** The word loops of [urpc_bitmap_and] and [urpc_bitmap_or]: one pass over
    the first [n_ulongs n] words of the destination. *)
Fixpoint bitmap_word_loop (f : Z -> Z -> Z) (k : nat) (i : Z) (dst src : list Z) : option (list Z) :=
  match k with
  | O => Some dst
  | S k =>
      d ← zget dst i; s ← zget src i;
      dst' ← zset dst i (f d s);
      bitmap_word_loop f k (i + 1) dst' src
  end.

Definition urpc_bitmap_and (dst src : list Z) (n : Z) : option (list Z) :=
  bitmap_word_loop Z.land (Z.to_nat (urpc_bitmap_n_ulongs n)) 0 dst src.

Definition urpc_bitmap_or (dst src : list Z) (n : Z) : option (list Z) :=
  bitmap_word_loop Z.lor (Z.to_nat (urpc_bitmap_n_ulongs n)) 0 dst src.

(** ** Comparison and searches (urpc_bitmap.c) *)

(** Byte [k] of the word array, as seen through [(unsigned char * )] on the
    little-endian targets of the library. *)
Definition bitmap_byte (bitmap : list Z) (k : Z) : option Z :=
  w ← zget bitmap (k / 8);
  Some (Z.land (Z.shiftr w (8 * (k mod 8))) 255).

Fixpoint bitmap_memcmp_eq (n : nat) (k : Z) (a b : list Z) : option bool :=
  match n with
  | O => Some true
  | S n =>
      x ← bitmap_byte a k; y ← bitmap_byte b k;
      if x =? y then bitmap_memcmp_eq n (k + 1) a b else Some false
  end.

Definition urpc_bitmap_equal (a b : list Z) (n : Z) : option bool :=
  let offset_bytes := n / CHAR_BIT in
  let last_bits := n mod CHAR_BIT in
  same ← bitmap_memcmp_eq (Z.to_nat offset_bytes) 0 a b;
  if negb same then Some false
  else if negb (last_bits =? 0) then
    x ← bitmap_byte a offset_bytes; y ← bitmap_byte b offset_bytes;
    let _xor := Z.lxor x y in
    let mask := u8 (Z.shiftl 1 last_bits - 1) in
    Some (Z.land _xor mask =? 0)
  else Some true.

Definition scan_word (target : bool) (w : Z) : Z := if target then w else u64 (Z.lnot w).

(** The [for] loop of [urpc_bitmap_scan]; every iteration reads one more
    word, so one unit of fuel per word and one for the exit test suffice. *)
Fixpoint urpc_bitmap_scan_loop (fuel : nat) (bitmap : list Z) (target : bool)
    (offset i end_ bits : Z) : option (Z * Z) :=
  match fuel with
  | O => None
  | S fuel =>
      if i <? end_ then
        w ← zget bitmap (offset + 1);
        let bits := scan_word target w in
        if negb (bits =? 0) then Some (i, bits)
        else urpc_bitmap_scan_loop fuel bitmap target (offset + 1)
               (u64 (i + URPC_ULONG_BITS)) end_ bits
      else Some (i, bits)
  end.

Definition urpc_bitmap_scan (bitmap : list Z) (target : bool) (begin end_ : Z) : option Z :=
  if end_ <=? begin then Some end_
  else
    w ← zget bitmap (begin / URPC_ULONG_BITS);
    let bits := Z.shiftr (scan_word target w) (begin mod URPC_ULONG_BITS) in
    '(i, bits) ←
      (if bits =? 0 then
         urpc_bitmap_scan_loop (S (length bitmap)) bitmap target (begin / URPC_ULONG_BITS)
           (u64 (begin - begin mod URPC_ULONG_BITS + URPC_ULONG_BITS)) end_ bits
       else Some (begin, bits));
    if bits =? 0 then Some end_
    else
      let i := u64 (i + ctz bits) in
      Some (if i <? end_ then i else end_).

Definition urpc_ffs (word : Z) : Z := ctz word.

Fixpoint find_next_bit_loop (fuel : nat) (array : list Z) (size i ret invert array_size : Z) : option Z :=
  match fuel with
  | O => None
  | S fuel =>
      if i <? array_size then
        w ← zget array i;
        let tmp := Z.lxor w invert in
        if negb (tmp =? 0) then Some (u64 (ret + urpc_ffs tmp))
        else find_next_bit_loop fuel array size (u64 (i + 1)) (u64 (ret + BITS_PER_LONG)) invert array_size
      else Some size
  end.

Definition find_next_bit (array : list Z) (size offset invert : Z) : option Z :=
  if (size <=? offset) || (size =? 0) then Some size
  else
    let i := Z.shiftr offset BITS_PER_LONG_SHIFT in
    let ret := u64 (i * BITS_PER_LONG) in
    let long_offset := offset mod BITS_PER_LONG in
    w ← zget array i;
    let tmp := Z.land (Z.lxor w invert) (u64 (Z.shiftl ULONG_MAX long_offset)) in
    if negb (tmp =? 0) then Some (u64 (ret + urpc_ffs tmp))
    else
      find_next_bit_loop (S (length array)) array size (u64 (i + 1)) (u64 (ret + BITS_PER_LONG))
        invert (DIV_ROUND_UP size BITS_PER_LONG).

Definition urpc_bitmap_find_next_bit (b : list Z) (size offset : Z) : option Z :=
  find_next_bit b size offset 0.

Definition urpc_bitmap_find_next_zero_bit (b : list Z) (size offset : Z) : option Z :=
  find_next_bit b size offset ULONG_MAX.

(** ** The urma/common copy (ub_bitmap.h, ub_bitmap.c)

    [ub_bitmap] is the same code as [urpc_bitmap] under another prefix and
    with a plain [calloc]; its operations are the same functions. *)

Definition ub_bitmap_n_ulongs (n_bits : Z) : Z := urpc_bitmap_n_ulongs n_bits.
Definition ub_bitmap_alloc (alloc_ok : bool) (n_bits : Z) : option (list Z) :=
  urpc_bitmap_alloc alloc_ok n_bits.
Definition ub_bitmap_alloc_1 (alloc_ok : bool) (n_bits : Z) : option (list Z) :=
  urpc_bitmap_alloc_1 alloc_ok n_bits.
Definition ub_bitmap_is_set (bitmap : list Z) (offset : Z) : option bool :=
  urpc_bitmap_is_set bitmap offset.
Definition ub_bitmap_set1 (bitmap : list Z) (offset : Z) : option (list Z) :=
  urpc_bitmap_set1 bitmap offset.
Definition ub_bitmap_set0 (bitmap : list Z) (offset : Z) : option (list Z) :=
  urpc_bitmap_set0 bitmap offset.
Definition ub_bitmap_and (dst src : list Z) (n : Z) : option (list Z) := urpc_bitmap_and dst src n.
Definition ub_bitmap_or (dst src : list Z) (n : Z) : option (list Z) := urpc_bitmap_or dst src n.
Definition ub_bitmap_equal (a b : list Z) (n : Z) : option bool := urpc_bitmap_equal a b n.
Definition ub_bitmap_scan (bitmap : list Z) (target : bool) (begin end_ : Z) : option Z :=
  urpc_bitmap_scan bitmap target begin end_.

(** ** Searches from the start of the array (ub_util.c) *)

Definition ub_ffs (word : Z) : Z := ctz word.
Definition ffz (word : Z) : Z := ctz (u64 (Z.lnot word)).

Fixpoint ub_find_first_bit_loop (fuel : nat) (array : list Z) (size i ret array_size : Z) : option Z :=
  match fuel with
  | O => None
  | S fuel =>
      if i <? array_size then
        w ← zget array i;
        if negb (w =? 0) then Some (u64 (ret + ub_ffs w))
        else ub_find_first_bit_loop fuel array size (u64 (i + 1)) (u64 (ret + BITS_PER_LONG)) array_size
      else Some size
  end.

Definition ub_find_first_bit (array : list Z) (size : Z) : option Z :=
  if size =? 0 then Some size
  else ub_find_first_bit_loop (S (length array)) array size 0 0 (DIV_ROUND_UP size BITS_PER_LONG).

Definition ub_find_next_bit (array : list Z) (size offset : Z) : option Z :=
  find_next_bit array size offset 0.

Definition ub_find_next_zero_bit (array : list Z) (size offset : Z) : option Z :=
  find_next_bit array size offset ULONG_MAX.

Fixpoint ub_find_first_zero_bit_loop (fuel : nat) (array : list Z) (size i ret array_size : Z) : option Z :=
  match fuel with
  | O => None
  | S fuel =>
      if i <? array_size then
        w ← zget array i;
        if negb (w =? ULONG_MAX) then
          let pos := ffz w in
          let pos := if BITS_PER_LONG <=? pos then BITS_PER_LONG - 1 else pos in
          if u64 (ret + pos) <? size then Some (u64 (ret + pos)) else Some size
        else ub_find_first_zero_bit_loop fuel array size (u64 (i + 1)) (u64 (ret + BITS_PER_LONG)) array_size
      else Some size
  end.

Definition ub_find_first_zero_bit (array : list Z) (size : Z) : option Z :=
  if size =? 0 then Some size
  else ub_find_first_zero_bit_loop (S (length array)) array size 0 0 (DIV_ROUND_UP size BITS_PER_LONG).

(** ** The bonding provider's index allocator (bondp_bitmap.c) *)

Record bondp_bitmap := { bm_bits : list Z; bm_size : Z }.

Definition EINVAL : Z := 22.

Definition bondp_bitmap_init (alloc_ok : bool) (size : Z) : option bondp_bitmap :=
  b ← ub_bitmap_alloc alloc_ok size;
  Some {| bm_bits := b; bm_size := size |}.

Fixpoint bondp_find_first_zero_bit_loop (fuel : nat) (array : list Z) (size i ret array_size : Z) : option Z :=
  match fuel with
  | O => None
  | S fuel =>
      if i <? array_size then
        w ← zget array i;
        if w =? ULONG_MAX then
          bondp_find_first_zero_bit_loop fuel array size (u64 (i + 1)) (u64 (ret + URPC_ULONG_BITS)) array_size
        else Some (u64 (ret + ffz w))
      else Some size
  end.

Definition bondp_find_first_zero_bit (array : list Z) (size : Z) : option Z :=
  if size =? 0 then Some size
  else bondp_find_first_zero_bit_loop (S (length array)) array size 0 0 (ub_bitmap_n_ulongs size).

(** The result is the return code with the written-back index and bitmap. *)
Definition bondp_bitmap_alloc_idx (bitmap : bondp_bitmap) : option (Z * option Z * bondp_bitmap) :=
  idx ← bondp_find_first_zero_bit (bm_bits bitmap) (bm_size bitmap);
  let idx := u32 idx in
  if bm_size bitmap <=? idx then Some (-1, None, bitmap)
  else
    b ← ub_bitmap_set1 (bm_bits bitmap) idx;
    Some (0, Some idx, {| bm_bits := b; bm_size := bm_size bitmap |}).

(** [bits + n] as a pointer: the words from [n] on. *)
Definition bondp_bitmap_alloc_idx_from_offset (bitmap : bondp_bitmap) (offset : Z) :
    option (Z * option Z * bondp_bitmap) :=
  if bm_size bitmap <=? offset then Some (-1, None, bitmap)
  else
    let offset_n_ulongs := u32 (ub_bitmap_n_ulongs offset) in
    let tail := drop (Z.to_nat offset_n_ulongs) (bm_bits bitmap) in
    idx ← bondp_find_first_zero_bit tail (u32 (bm_size bitmap - offset));
    let idx := u32 idx in
    if u32 (bm_size bitmap - offset_n_ulongs) <=? idx then Some (-1, None, bitmap)
    else
      tail' ← ub_bitmap_set1 tail idx;
      Some (0, Some (u32 (idx + offset_n_ulongs * 8 * CHAR_BIT)),
            {| bm_bits := take (Z.to_nat offset_n_ulongs) (bm_bits bitmap) ++ tail'; bm_size := bm_size bitmap |}).

Definition bondp_bitmap_use_id (bitmap : bondp_bitmap) (id : Z) : option (Z * bondp_bitmap) :=
  b ← ub_bitmap_is_set (bm_bits bitmap) id;
  if (b : bool) then Some (-1, bitmap)
  else
    b' ← ub_bitmap_set1 (bm_bits bitmap) id;
    Some (0, {| bm_bits := b'; bm_size := bm_size bitmap |}).

Definition bondp_bitmap_free_idx (bitmap : bondp_bitmap) (idx : Z) : option (Z * bondp_bitmap) :=
  b ← ub_bitmap_is_set (bm_bits bitmap) idx;
  if negb b then Some (- EINVAL, bitmap)
  else
    b' ← ub_bitmap_set0 (bm_bits bitmap) idx;
    Some (0, {| bm_bits := b'; bm_size := bm_size bitmap |}).

(** ** The flat view *)

Definition bit_of (bitmap : list Z) (i : Z) : bool :=
  match zget bitmap (i / 64) with
  | Some w => Z.testbit w (i mod 64)
  | None => false
  end.

(** Well-formed words, and an allocation the address space can hold. *)
Definition bitmap_wf (bitmap : list Z) : Prop :=
  Forall (fun w => in_u64 w) bitmap /\ 64 * zlen bitmap < 2 ^ 63.

(** [r] is the first index of [[lo, hi)] where [P] holds, or [hi]. *)
Definition first_match (P : Z -> bool) (lo hi r : Z) : Prop :=
  lo <= r <= hi /\ (forall j, lo <= j < r -> P j = false) /\ (r < hi -> P r = true).

Lemma first_match_unique P lo hi r r' :
  first_match P lo hi r -> first_match P lo hi r' -> r = r'.
Proof.
  intros (H1 & H2 & H3) (H1' & H2' & H3').
  destruct (Z.lt_trichotomy r r') as [Hlt|[->|Hlt]]; [|done|].
  - rewrite H2' in H3 by lia. assert (false = true) by (apply H3; lia). done.
  - rewrite H2 in H3' by lia. assert (false = true) by (apply H3'; lia). done.
Qed.

(** A prefix without a match can be dropped. *)
Lemma first_match_skip P lo mid hi r :
  lo <= mid -> (forall j, lo <= j < mid -> P j = false) ->
  first_match P mid hi r -> first_match P lo hi r.
Proof.
  intros Hm Hn (H1 & H2 & H3). split; [lia|]. split; [|done].
  intros j Hj. destruct (Z.lt_ge_cases j mid); [apply Hn|apply H2]; lia.
Qed.

Lemma bitmap_wf_word bitmap i w : bitmap_wf bitmap -> zget bitmap i = Some w -> in_u64 w.
Proof.
  intros [Hf _]. unfold zget. case_match; [|done].
  intros Hl. by eapply Forall_lookup_1 in Hf.
Qed.

Lemma bitmap_wf_zset bitmap i w bitmap' :
  bitmap_wf bitmap -> in_u64 w -> zset bitmap i w = Some bitmap' -> bitmap_wf bitmap'.
Proof.
  intros [Hf Hl] Hw Hs. split.
  - apply zset_Some in Hs as [_ ->]. by apply Forall_insert.
  - by rewrite (zset_len _ _ _ _ Hs).
Qed.

Lemma word_index (bitmap : list Z) off : 0 <= off < 64 * zlen bitmap -> 0 <= off / 64 < zlen bitmap.
Proof. intros. zmod. Qed.

Lemma offset_bit_in_u64 off : in_u64 (urpc_bitmap_offset_bit off).
Proof.
  unfold urpc_bitmap_offset_bit, URPC_ULONG_BITS. rewrite Z.shiftl_1_l.
  pose proof (Z.mod_pos_bound off 64 ltac:(lia)). split; [lia|].
  apply Z.pow_lt_mono_r; lia.
Qed.

Lemma offset_bit_testbit off i :
  0 <= i -> Z.testbit (urpc_bitmap_offset_bit off) i = (i =? off mod 64).
Proof.
  intros Hi. unfold urpc_bitmap_offset_bit, URPC_ULONG_BITS. rewrite Z.shiftl_1_l.
  pose proof (Z.mod_pos_bound off 64 ltac:(lia)).
  rewrite Z.pow2_bits_eqb by lia. apply Z.eqb_sym.
Qed.

(** Bits [i] and [off] are the same bit exactly when word and position agree. *)
Lemma same_bit_eqb off i : off / 64 = i / 64 -> (i mod 64 =? off mod 64) = (i =? off).
Proof.
  intros Hq. destruct (Z.eqb_spec i off) as [->|Hne]; [apply Z.eqb_refl|].
  apply Z.eqb_neq. intros Hm. apply Hne.
  rewrite (Z.div_mod i 64), (Z.div_mod off 64) by lia. by rewrite Hq, Hm.
Qed.

Lemma bit_of_word bitmap i w : zget bitmap (i / 64) = Some w -> bit_of bitmap i = Z.testbit w (i mod 64).
Proof. unfold bit_of. by intros ->. Qed.

Lemma urpc_bitmap_is_set_bit bitmap off :
  bitmap_wf bitmap -> 0 <= off < 64 * zlen bitmap ->
  urpc_bitmap_is_set bitmap off = Some (bit_of bitmap off).
Proof.
  intros Hwf Hoff. unfold urpc_bitmap_is_set, URPC_ULONG_BITS.
  destruct (zget_in_range bitmap (off / 64)) as [w Hw]; [by apply word_index|].
  rewrite Hw. simpl. f_equal. rewrite (bit_of_word _ _ w) by done.
  pose proof (Z.mod_pos_bound off 64 ltac:(lia)) as Hm.
  destruct (Z.testbit w (off mod 64)) eqn:Hb.
  - apply negb_true_iff, Z.eqb_neq. intros H0.
    assert (Hc : Z.testbit (Z.land w (urpc_bitmap_offset_bit off)) (off mod 64) = true).
    { rewrite Z.land_spec, offset_bit_testbit, Hb, Z.eqb_refl by lia. done. }
    by rewrite H0, Z.testbit_0_l in Hc.
  - apply negb_false_iff, Z.eqb_eq. apply word_zero_bits.
    + by apply land_in_u64, (bitmap_wf_word bitmap (off / 64)).
    + intros i Hi. rewrite Z.land_spec, offset_bit_testbit by lia.
      destruct (Z.eqb_spec i (off mod 64)) as [->|]; [by rewrite Hb|by rewrite andb_false_r].
Qed.

(** Every setter changes exactly the addressed bit. *)
Definition bit_updated (bitmap bitmap' : list Z) (off : Z) (v : bool) : Prop :=
  bitmap_wf bitmap' /\ zlen bitmap' = zlen bitmap /\
  forall i, 0 <= i -> bit_of bitmap' i = if i =? off then v else bit_of bitmap i.

Lemma bit_updated_intro bitmap off w w' v bitmap' :
  bitmap_wf bitmap -> 0 <= off -> zget bitmap (off / 64) = Some w -> in_u64 w' ->
  (forall b, 0 <= b < 64 -> Z.testbit w' b = if b =? off mod 64 then v else Z.testbit w b) ->
  zset bitmap (off / 64) w' = Some bitmap' ->
  bit_updated bitmap bitmap' off v.
Proof.
  intros Hwf Hoff Hw Hw' Hb Hs. split_and!.
  - by eapply bitmap_wf_zset.
  - by eapply zset_len.
  - intros i Hi. unfold bit_of.
    pose proof (Z.mod_pos_bound i 64 ltac:(lia)).
    destruct (Z.eq_dec (off / 64) (i / 64)) as [Heq|Hne].
    + rewrite <- Heq, (zget_zset_eq _ _ _ _ Hs), Hw, Hb, same_bit_eqb by done. done.
    + rewrite (zget_zset_ne _ _ _ _ _ Hs) by done.
      destruct (Z.eqb_spec i off) as [->|]; [done|done].
Qed.

Lemma urpc_bitmap_set_spec bitmap off v :
  bitmap_wf bitmap -> 0 <= off < 64 * zlen bitmap ->
  exists bitmap', urpc_bitmap_set bitmap off v = Some bitmap' /\ bit_updated bitmap bitmap' off v.
Proof.
  intros Hwf Hoff. pose proof (word_index _ _ Hoff) as Hi.
  destruct (zget_in_range bitmap (off / 64)) as [w Hw]; [done|].
  pose proof (bitmap_wf_word _ _ _ Hwf Hw) as Hw64.
  assert (Hgen : forall w', in_u64 w' ->
    (forall b, 0 <= b < 64 -> Z.testbit w' b = if b =? off mod 64 then v else Z.testbit w b) ->
    exists bitmap', zset bitmap (off / 64) w' = Some bitmap' /\ bit_updated bitmap bitmap' off v).
  { intros w' H1 H2. destruct (zset_in_range bitmap (off / 64) w') as [bm' Hs]; [done|].
    exists bm'. split; [done|]. eapply bit_updated_intro; eauto. lia. }
  destruct v; unfold urpc_bitmap_set, urpc_bitmap_set1, urpc_bitmap_set0, URPC_ULONG_BITS; rewrite Hw; simpl.
  - apply Hgen; [by apply lor_in_u64, offset_bit_in_u64|].
    intros b Hb. rewrite Z.lor_spec, offset_bit_testbit by lia.
    destruct (b =? off mod 64); [apply orb_true_r|apply orb_false_r].
  - apply Hgen; [by apply land_in_u64|].
    intros b Hb. rewrite Z.land_spec, testbit_u64, Z.lnot_spec, offset_bit_testbit by lia.
    destruct (b =? off mod 64); simpl; [apply andb_false_r|apply andb_true_r].
Qed.

(** ** Searches *)

(** [r] reports the first match of [[lo, hi)] (any [r >= hi] reports none). *)
Definition search_result (P : Z -> bool) (lo hi r : Z) : Prop :=
  (forall j, lo <= j < hi -> j < r -> P j = false) /\ (r < hi -> lo <= r /\ P r = true).

Lemma search_result_first_match P lo hi r :
  lo < hi -> search_result P lo hi r -> first_match P lo hi (Z.min r hi).
Proof.
  intros Hlt [H1 H2]. destruct (Z.lt_ge_cases r hi) as [Hr|Hr].
  - rewrite Z.min_l by lia. destruct (H2 Hr). split_and!; [lia|lia| |done].
    intros j Hj. apply H1; lia.
  - rewrite Z.min_r by lia. split_and!; [lia|lia| |lia]. intros j Hj. apply H1; lia.
Qed.

Lemma search_result_skip P lo mid hi r :
  lo <= mid -> (forall j, lo <= j < mid -> j < hi -> P j = false) ->
  search_result P mid hi r -> search_result P lo hi r.
Proof.
  intros Hm Hn [H1 H2]. split.
  - intros j Hj Hr. destruct (Z.lt_ge_cases j mid); [apply Hn|apply H1]; lia.
  - intros Hr. destruct (H2 Hr). split; [lia|done].
Qed.

(** A word whose low [n] bits are the values of [P] from [i] on, and whose
    other bits are clear, decides the search. *)
Lemma search_result_part P x i hi n :
  0 <= n <= 64 -> in_u64 x -> x <> 0 ->
  (forall b, 0 <= b < n -> i + b < hi -> P (i + b) = Z.testbit x b) ->
  (forall b, n <= b -> Z.testbit x b = false) ->
  search_result P i hi (i + ctz x).
Proof.
  intros Hn Hx Hnz HP Hhigh. pose proof (ctz_range x ltac:(lia)) as Hc.
  assert (Hlow : ctz x < n).
  { destruct (Z.lt_ge_cases (ctz x) n); [done|].
    pose proof (ctz_set x ltac:(lia)) as Hs. by rewrite Hhigh in Hs. }
  split.
  - intros j Hj Hr. replace j with (i + (j - i)) by lia.
    rewrite HP by lia. apply ctz_least; lia.
  - intros Hr. split; [lia|]. rewrite HP by lia. apply ctz_set; lia.
Qed.

Lemma search_result_word P x i hi :
  in_u64 x -> x <> 0 -> (forall b, 0 <= b < 64 -> i + b < hi -> P (i + b) = Z.testbit x b) ->
  search_result P i hi (i + ctz x).
Proof.
  intros. apply (search_result_part P x i hi 64); [lia|done..|].
  intros. by apply testbit_in_u64_high.
Qed.

Lemma search_result_zero_word (P : Z -> bool) i (hi : Z) :
  (forall b, 0 <= b < 64 -> i + b < hi -> P (i + b) = Z.testbit 0 b) ->
  forall j, i <= j < i + 64 -> j < hi -> P j = false.
Proof.
  intros HP j Hj Hh. replace j with (i + (j - i)) by lia.
  rewrite HP by lia. apply Z.testbit_0_l.
Qed.

Definition bit_is (bitmap : list Z) (target : bool) (j : Z) : bool :=
  Bool.eqb (bit_of bitmap j) target.

Lemma scan_word_in_u64 target w : in_u64 w -> in_u64 (scan_word target w).
Proof. destruct target; [done|]. intros _. apply u64_range. Qed.

Lemma scan_word_testbit target w b :
  0 <= b < 64 -> Z.testbit (scan_word target w) b = Bool.eqb (Z.testbit w b) target.
Proof.
  intros Hb. destruct target; simpl.
  - by destruct (Z.testbit w b).
  - rewrite testbit_u64, Z.lnot_spec by lia. by destruct (Z.testbit w b).
Qed.

(** The bits of word [k], read through [scan_word], are [bit_is] from [64 * k]. *)
Lemma bit_is_word bitmap target k w b :
  zget bitmap k = Some w -> 0 <= b < 64 ->
  bit_is bitmap target (64 * k + b) = Z.testbit (scan_word target w) b.
Proof.
  intros Hw Hb. rewrite scan_word_testbit by done. unfold bit_is.
  rewrite (bit_of_word _ _ w).
  - do 2 f_equal. zmod.
  - replace ((64 * k + b) / 64) with k by zmod. done.
Qed.

Lemma scan_loop_spec bitmap target fuel k end_ :
  bitmap_wf bitmap -> 0 <= k -> end_ <= 64 * zlen bitmap ->
  zlen bitmap - (k + 1) < Z.of_nat fuel -> k + 1 <= zlen bitmap -> 
  exists i' bits', urpc_bitmap_scan_loop fuel bitmap target k (64 * (k + 1)) end_ 0 = Some (i', bits')
    /\ in_u64 bits' /\ 64 * (k + 1) <= i' <= 64 * zlen bitmap
    /\ (bits' = 0 -> forall j, 64 * (k + 1) <= j < end_ -> bit_is bitmap target j = false)
    /\ (bits' <> 0 -> search_result (bit_is bitmap target) (64 * (k + 1)) end_ (i' + ctz bits')).
Proof.
  intros Hwf. revert k. induction fuel as [|fuel IH]; intros k Hk Hend Hfuel Hle; [lia|].
  simpl. destruct (Z.ltb_spec (64 * (k + 1)) end_) as [Hlt|Hge].
  2: { eexists _, 0. split; [done|]. split_and!; [lia|lia|lia|lia| |done]. intros _ j Hj. lia. }
  destruct (zget_in_range bitmap (k + 1)) as [w Hw]; [lia|]. rewrite Hw. simpl.
  pose proof (scan_word_in_u64 target w (bitmap_wf_word _ _ _ Hwf Hw)) as Hx.
  assert (HP : forall b, 0 <= b < 64 -> 64 * (k + 1) + b < end_ ->
    bit_is bitmap target (64 * (k + 1) + b) = Z.testbit (scan_word target w) b)
    by (intros; by apply bit_is_word).
  destruct (Z.eqb_spec (scan_word target w) 0) as [Hz|Hnz]; simpl.
  - destruct Hwf as [? Hsz]. unfold URPC_ULONG_BITS. rewrite u64_small by lia.
    replace (64 * (k + 1) + 64) with (64 * (k + 1 + 1)) by lia.
    rewrite Hz in *. pose proof (search_result_zero_word _ _ _ HP) as Hno.
    destruct (IH (k + 1)) as (i' & bits' & Heq & Hb & Hi & H0 & H1); [lia..|].
    exists i', bits'. split; [done|]. split_and!; [lia|lia|lia|lia| |].
    + intros ? j Hj. destruct (Z.lt_ge_cases j (64 * (k + 1 + 1))); [apply Hno|apply H0]; lia.
    + intros Hnz. apply (search_result_skip _ _ (64 * (k + 1 + 1))); [lia| |by apply H1].
      intros j Hj Hj'. apply Hno; lia.
  - eexists _, _. split; [done|]. split_and!; [lia|lia|lia|lia|done|].
    intros _. by apply search_result_word.
Qed.

(** The first, partial word of a scan from [begin]. *)
Lemma scan_partial_word bitmap target begin w :
  bitmap_wf bitmap -> 0 <= begin -> zget bitmap (begin / 64) = Some w ->
  let x := Z.shiftr (scan_word target w) (begin mod 64) in
  in_u64 x
  /\ (forall b, 0 <= b < 64 - begin mod 64 -> bit_is bitmap target (begin + b) = Z.testbit x b)
  /\ (forall b, 64 - begin mod 64 <= b -> Z.testbit x b = false).
Proof.
  intros Hwf Hb Hw x. pose proof (bitmap_wf_word _ _ _ Hwf Hw) as Hw64.
  pose proof (scan_word_in_u64 target w Hw64) as Hx.
  pose proof (Z.mod_pos_bound begin 64 ltac:(lia)) as Hm.
  pose proof (Z.div_mod begin 64 ltac:(lia)) as Hdm. split_and!.
  - unfold x. rewrite Z.shiftr_div_pow2 by lia. apply Z.div_pos; lia.
  - unfold x. rewrite Z.shiftr_div_pow2 by lia.
    pose proof (Z.pow_pos_nonneg 2 (begin mod 64)). apply Z.div_lt_upper_bound; [lia|nia].
  - intros b Hbb. unfold x. rewrite Z.shiftr_spec by lia.
    replace (begin + b) with (64 * (begin / 64) + (b + begin mod 64)) by lia.
    apply bit_is_word; [done|lia].
  - intros b Hbb. unfold x. rewrite Z.shiftr_spec by lia. apply testbit_in_u64_high; [done|lia].
Qed.

Lemma if_ltb_min a b : (if a <? b then a else b) = Z.min a b.
Proof. destruct (Z.ltb_spec a b); lia. Qed.

Lemma urpc_bitmap_scan_first bitmap target begin end_ :
  bitmap_wf bitmap -> 0 <= begin < end_ -> end_ <= 64 * zlen bitmap ->
  exists r, urpc_bitmap_scan bitmap target begin end_ = Some r
    /\ first_match (bit_is bitmap target) begin end_ r.
Proof.
  intros Hwf Hb Hend. unfold urpc_bitmap_scan, URPC_ULONG_BITS.
  rewrite (proj2 (Z.leb_gt end_ begin)) by lia.
  pose proof (word_index bitmap begin ltac:(lia)) as Hwi.
  destruct (zget_in_range bitmap (begin / 64)) as [w Hw]; [done|].
  rewrite Hw. cbn [mbind option_bind].
  destruct (scan_partial_word bitmap target begin w) as (Hx64 & HP & Hhigh); [done|lia|done|].
  pose proof (Z.mod_pos_bound begin 64 ltac:(lia)) as Hm.
  pose proof (Z.div_mod begin 64 ltac:(lia)) as Hdm.
  set (k := begin / 64) in *. set (m := begin mod 64) in *.
  set (x := Z.shiftr (scan_word target w) m) in *.
  assert (Hsz : 64 * zlen bitmap < 2 ^ 63) by apply Hwf.
  destruct (Z.eqb_spec x 0) as [Hz|Hnz]; cbn [mbind option_bind].
  - replace (begin - m + 64) with (64 * (k + 1)) by lia. rewrite u64_small, Hz by lia.
    destruct (scan_loop_spec bitmap target (S (length bitmap)) k end_)
      as (i' & bits' & Heq & Hb64 & Hi & H0 & H1); [done|lia|lia|unfold zlen; lia|lia|].
    rewrite Heq. cbn [mbind option_bind].
    assert (Hno : forall j, begin <= j < 64 * (k + 1) -> bit_is bitmap target j = false).
    { intros j Hj. replace j with (begin + (j - begin)) by lia. rewrite HP, Hz by lia.
      apply Z.testbit_0_l. }
    destruct (Z.eqb_spec bits' 0) as [Hbz|Hbnz]; eexists; (split; [done|]).
    + split_and!; [lia|lia| |lia].
      intros j Hj. destruct (Z.lt_ge_cases j (64 * (k + 1))); [apply Hno|apply H0]; lia.
    + pose proof (ctz_range bits' ltac:(lia)). rewrite u64_small, if_ltb_min by lia.
      apply search_result_first_match; [lia|].
      apply (search_result_skip _ _ (64 * (k + 1))); [lia| |by apply H1]. intros; apply Hno; lia.
  - rewrite (proj2 (Z.eqb_neq x 0)) by done. pose proof (ctz_range x ltac:(lia)).
    rewrite u64_small, if_ltb_min by lia. eexists. split; [done|].
    apply search_result_first_match; [lia|].
    apply (search_result_part _ x _ _ (64 - m)); [lia|done|done| |done]. intros; apply HP; lia.
Qed.

(** [array[i] ^ invert] is the word the scan looks at. *)
Definition invert_of (target : bool) : Z := if target then 0 else ULONG_MAX.

Lemma lxor_invert target w : in_u64 w -> Z.lxor w (invert_of target) = scan_word target w.
Proof.
  intros Hw. destruct target; unfold invert_of, scan_word, ULONG_MAX; [apply Z.lxor_0_r|].
  apply Z.bits_inj'. intros i Hi. change (2 ^ 64 - 1) with (Z.ones 64). rewrite Z.lxor_spec.
  destruct (Z.lt_ge_cases i 64).
  - rewrite testbit_u64, Z.lnot_spec, Z.ones_spec_low by lia. by destruct (Z.testbit w i).
  - by rewrite testbit_u64_high, Z.ones_spec_high, testbit_in_u64_high by lia.
Qed.

Lemma n_ulongs_bound size : 0 <= size < 2 ^ 63 -> DIV_ROUND_UP size 64 = (size + 63) / 64.
Proof. intros. unfold DIV_ROUND_UP. rewrite !u64_small by (rewrite ?u64_small; lia). f_equal. lia. Qed.

Lemma find_next_bit_loop_spec bitmap target fuel i size :
  bitmap_wf bitmap -> 0 <= i -> 0 <= size <= 64 * zlen bitmap ->
  zlen bitmap - i < Z.of_nat fuel -> i <= zlen bitmap ->
  exists r, find_next_bit_loop fuel bitmap size i (64 * i) (invert_of target) (DIV_ROUND_UP size 64) = Some r
    /\ 0 <= r /\ (r = size \/ r < 64 * zlen bitmap)
    /\ search_result (bit_is bitmap target) (64 * i) size r.
Proof.
  intros Hwf. assert (Hsz : 64 * zlen bitmap < 2 ^ 63) by apply Hwf. revert i.
  induction fuel as [|fuel IH]; intros i Hi Hsize Hfuel Hle; [lia|]. simpl.
  rewrite n_ulongs_bound by lia. destruct (Z.ltb_spec i ((size + 63) / 64)) as [Hlt|Hge].
  2: { eexists. split; [done|]. split_and!; [lia|lia|split; [|lia]]. intros j Hj. zmod. }
  assert (i < zlen bitmap) by zmod.
  destruct (zget_in_range bitmap i) as [w Hw]; [lia|]. rewrite Hw. cbn [mbind option_bind].
  pose proof (bitmap_wf_word _ _ _ Hwf Hw) as Hw64. rewrite lxor_invert by done.
  pose proof (scan_word_in_u64 target w Hw64) as Hx.
  assert (HP : forall b, 0 <= b < 64 -> 64 * i + b < size ->
    bit_is bitmap target (64 * i + b) = Z.testbit (scan_word target w) b)
    by (intros; by apply bit_is_word).
  destruct (Z.eqb_spec (scan_word target w) 0) as [Hz|Hnz]; simpl.
  - unfold BITS_PER_LONG. rewrite !u64_small by lia.
    replace (64 * i + 64) with (64 * (i + 1)) by lia. rewrite <- n_ulongs_bound by lia.
    destruct (IH (i + 1)) as (r & Heq & Hr & Hr' & Hs); [lia..|]. exists r. split_and!; [done|lia|done|].
    apply (search_result_skip _ _ (64 * (i + 1))); [lia| |done].
    rewrite Hz in HP. pose proof (search_result_zero_word _ _ _ HP) as Hno. intros. apply Hno; lia.
  - unfold urpc_ffs. pose proof (ctz_range (scan_word target w) ltac:(lia)).
    rewrite u64_small by lia. eexists. split_and!; [done|lia|lia|]. by apply search_result_word.
Qed.

(** The mask [~0UL << m] keeps the bits from [m] on. *)
Lemma high_mask_testbit m b :
  0 <= m < 64 -> 0 <= b < 64 -> Z.testbit (u64 (Z.shiftl ULONG_MAX m)) b = (m <=? b).
Proof.
  intros Hm Hb. rewrite testbit_u64, Z.shiftl_spec by lia.
  change ULONG_MAX with (Z.ones 64). destruct (Z.leb_spec m b).
  - apply Z.ones_spec_low. lia.
  - apply Z.testbit_neg_r. lia.
Qed.

Lemma find_next_bit_search bitmap target size offset :
  bitmap_wf bitmap -> 0 <= offset < size -> size <= 64 * zlen bitmap ->
  exists r, find_next_bit bitmap size offset (invert_of target) = Some r
    /\ 0 <= r /\ (r = size \/ r < 64 * zlen bitmap)
    /\ first_match (bit_is bitmap target) offset size (Z.min r size).
Proof.
  intros Hwf Hoff Hsize. assert (Hsz : 64 * zlen bitmap < 2 ^ 63) by apply Hwf.
  unfold find_next_bit, BITS_PER_LONG, BITS_PER_LONG_SHIFT.
  rewrite (proj2 (Z.leb_gt size offset)), (proj2 (Z.eqb_neq size 0)) by lia. simpl orb.
  rewrite Z.shiftr_div_pow2 by lia. change (2 ^ 6) with 64.
  pose proof (word_index bitmap offset ltac:(lia)) as Hwi.
  pose proof (Z.mod_pos_bound offset 64 ltac:(lia)) as Hm.
  pose proof (Z.div_mod offset 64 ltac:(lia)) as Hdm.
  destruct (zget_in_range bitmap (offset / 64)) as [w Hw]; [done|]. rewrite Hw. cbn [mbind option_bind].
  pose proof (bitmap_wf_word _ _ _ Hwf Hw) as Hw64. rewrite lxor_invert by done.
  set (k := offset / 64) in *. set (m := offset mod 64) in *.
  set (x := Z.land _ _).
  assert (Hx : in_u64 x) by (by apply land_in_u64, scan_word_in_u64).
  assert (HP : forall b, 0 <= b < 64 -> ((m <=? b) && bit_is bitmap target (64 * k + b))%bool = Z.testbit x b).
  { intros b Hb. unfold x. rewrite Z.land_spec, high_mask_testbit, andb_comm by done.
    f_equal. by apply bit_is_word. }
  rewrite (u64_small (k * 64)), ?(u64_small (k + 1)), ?(u64_small (k * 64 + 64)) by lia.
  destruct (Z.eqb_spec x 0) as [Hz|Hnz]; cbn [negb].
  - replace (k * 64 + 64) with (64 * (k + 1)) by lia.
    destruct (find_next_bit_loop_spec bitmap target (S (length bitmap)) (k + 1) size) as (r & Heq & Hr & Hr' & Hs);
      [done|lia|lia|unfold zlen; lia|lia|].
    exists r. split_and!; [exact Heq|lia|done|]. apply search_result_first_match; [lia|].
    apply (search_result_skip _ _ (64 * (k + 1))); [lia| |done].
    intros j Hj _. specialize (HP (j - 64 * k) ltac:(lia)).
    replace (64 * k + (j - 64 * k)) with j in HP by lia.
    rewrite Hz, Z.testbit_0_l, (proj2 (Z.leb_le m _)) in HP by lia. done.
  - unfold urpc_ffs. pose proof (ctz_range x ltac:(lia)). rewrite u64_small by lia.
    eexists. split_and!; [done|lia|lia|]. apply search_result_first_match; [lia|].
    pose proof (ctz_set x ltac:(lia)) as Hs. rewrite <- HP in Hs by lia. breflect. split.
    + intros j Hj Hr. pose proof (ctz_least x (j - 64 * k) ltac:(lia) ltac:(lia)) as Hl.
      rewrite <- HP in Hl by lia. rewrite (proj2 (Z.leb_le m _)) in Hl by lia.
      by replace (64 * k + (j - 64 * k)) with j in Hl by lia.
    + intros _. replace (k * 64 + ctz x) with (64 * k + ctz x) by lia. split; [lia|done].
Qed.

(** ** Comparison *)

Definition bits_agree (a b : list Z) (lo hi : Z) : Prop :=
  forall j, lo <= j < hi -> bit_of a j = bit_of b j.

Lemma bitmap_byte_bits a k :
  0 <= k < 8 * zlen a ->
  exists x, bitmap_byte a k = Some x /\
    forall b, 0 <= b -> Z.testbit x b = ((b <? 8) && bit_of a (8 * k + b))%bool.
Proof.
  intros Hk. unfold bitmap_byte. destruct (zget_in_range a (k / 8)) as [w Hw]; [zmod|].
  rewrite Hw. eexists. split; [done|]. intros b Hb.
  change 255 with (Z.ones 8). rewrite Z.land_spec, Z.shiftr_spec by lia.
  destruct (Z.ltb_spec b 8).
  - rewrite Z.ones_spec_low, andb_true_r by lia. simpl andb. rewrite (bit_of_word _ _ w).
    + f_equal. zmod.
    + by replace ((8 * k + b) / 64) with (k / 8) by zmod.
  - by rewrite Z.ones_spec_high, andb_false_r by lia.
Qed.

Lemma byte_eq_bits x y n (f g : Z -> bool) :
  (forall b, 0 <= b -> Z.testbit x b = ((b <? n) && f b)%bool) ->
  (forall b, 0 <= b -> Z.testbit y b = ((b <? n) && g b)%bool) ->
  x = y <-> (forall b, 0 <= b < n -> f b = g b).
Proof.
  intros Hx Hy. split.
  - intros -> b Hb. specialize (Hx b ltac:(lia)). rewrite Hy in Hx by lia.
    by rewrite (proj2 (Z.ltb_lt b n)) in Hx by lia.
  - intros H. apply Z.bits_inj'. intros b Hb. rewrite Hx, Hy by done.
    destruct (Z.ltb_spec b n); [|done]. simpl. apply H. lia.
Qed.

Lemma bitmap_memcmp_eq_spec n k a b :
  0 <= k -> k + Z.of_nat n <= 8 * zlen a -> k + Z.of_nat n <= 8 * zlen b ->
  exists r, bitmap_memcmp_eq n k a b = Some r /\
    (r = true <-> bits_agree a b (8 * k) (8 * (k + Z.of_nat n))).
Proof.
  revert k. induction n as [|n IH]; intros k Hk Ha Hb; simpl.
  { eexists. split; [done|]. split; [|done]. intros _ j Hj. lia. }
  destruct (bitmap_byte_bits a k) as (x & Hx & Hxb); [lia|].
  destruct (bitmap_byte_bits b k) as (y & Hy & Hyb); [lia|].
  rewrite Hx, Hy. cbn [mbind option_bind].
  pose proof (byte_eq_bits _ _ _ _ _ Hxb Hyb) as Hxy.
  destruct (IH (k + 1)) as (r & Hr & Hiff); [lia..|].
  destruct (Z.eqb_spec x y) as [Heq|Hne].
  - exists r. split; [done|]. rewrite Hiff. pose proof (proj1 Hxy Heq) as Hlow. split.
    + intros Hag j Hj. destruct (Z.lt_ge_cases j (8 * (k + 1))); [|apply Hag; lia].
      replace j with (8 * k + (j - 8 * k)) by lia. apply Hlow. lia.
    + intros Hag j Hj. apply Hag. lia.
  - exists false. split; [done|]. split; [done|]. intros Hag. exfalso. apply Hne, Hxy.
    intros c Hc. apply Hag. lia.
Qed.

Lemma urpc_bitmap_equal_bits a b n :
  0 <= n <= 64 * zlen a -> n <= 64 * zlen b ->
  exists r, urpc_bitmap_equal a b n = Some r /\ (r = true <-> bits_agree a b 0 n).
Proof.
  intros Ha Hb. unfold urpc_bitmap_equal, CHAR_BIT.
  pose proof (Z.div_mod n 8 ltac:(lia)) as Hdm.
  pose proof (Z.mod_pos_bound n 8 ltac:(lia)) as Hm.
  destruct (bitmap_memcmp_eq_spec (Z.to_nat (n / 8)) 0 a b) as (r & Hr & Hiff); [lia..|].
  rewrite Hr. cbn [mbind option_bind]. rewrite Z.add_0_l, Z2Nat.id in Hiff by lia.
  destruct r; simpl negb; cbv iota.
  2: { eexists. split; [done|]. split; [done|]. intros H. apply Hiff. intros j Hj. apply H. lia. }
  destruct (Z.eqb_spec (n mod 8) 0) as [Hz|Hnz]; simpl negb; cbv iota.
  { eexists. split; [done|]. rewrite Hiff. replace (8 * (n / 8)) with n by lia. done. }
  destruct (bitmap_byte_bits a (n / 8)) as (x & Hx & Hxb); [lia|].
  destruct (bitmap_byte_bits b (n / 8)) as (y & Hy & Hyb); [lia|].
  rewrite Hx, Hy. cbn [mbind option_bind]. eexists. split; [done|].
  assert (Hmask : u8 (Z.shiftl 1 (n mod 8) - 1) = Z.ones (n mod 8)).
  { rewrite Z.ones_equiv, Z.shiftl_1_l. unfold u8. rewrite Z.mod_small; [lia|].
    pose proof (Z.pow_pos_nonneg 2 (n mod 8)).
    pose proof (Z.pow_lt_mono_r 2 (n mod 8) 8). lia. }
  rewrite Hmask, Z.eqb_eq. assert (Hlow := proj1 Hiff eq_refl). split.
  - intros H0 j Hj. destruct (Z.lt_ge_cases j (8 * (n / 8))); [apply Hlow; lia|].
    assert (Hbit := f_equal (fun z => Z.testbit z (j - 8 * (n / 8))) H0). simpl in Hbit.
    rewrite Z.land_spec, Z.lxor_spec, Z.ones_spec_low, Z.testbit_0_l, Hxb, Hyb in Hbit by lia.
    replace (8 * (n / 8) + (j - 8 * (n / 8))) with j in Hbit by lia.
    rewrite (proj2 (Z.ltb_lt _ 8)) in Hbit by lia. by destruct (bit_of a j), (bit_of b j).
  - intros Hag. apply Z.bits_inj'. intros c Hc. rewrite Z.testbit_0_l, Z.land_spec, Z.lxor_spec.
    destruct (Z.lt_ge_cases c (n mod 8)).
    + rewrite Hxb, Hyb, Hag by lia. by rewrite xorb_nilpotent.
    + by rewrite Z.ones_spec_high, andb_false_r by lia.
Qed.

(** ** Allocation and word-wise combination *)

Lemma urpc_bitmap_alloc_spec n_bits :
  0 <= n_bits < 2 ^ 62 ->
  exists bitmap, urpc_bitmap_alloc true n_bits = Some bitmap /\ bitmap_wf bitmap
    /\ n_bits <= 64 * zlen bitmap < n_bits + 64 /\ forall i, bit_of bitmap i = false.
Proof.
  intros Hn. unfold urpc_bitmap_alloc, urpc_bitmap_nbytes, URPC_ULONG_BITS. eexists. split; [done|].
  rewrite n_ulongs_bound by lia. rewrite u64_small by zmod. rewrite Z.div_mul by lia.
  assert (0 <= (n_bits + 63) / 64) by zmod.
  split_and!.
  - split; [by apply Forall_replicate|]. rewrite zlen_replicate, Z2Nat.id by done. zmod.
  - rewrite zlen_replicate, Z2Nat.id by done. zmod.
  - rewrite zlen_replicate, Z2Nat.id by done. zmod.
  - intros i. unfold bit_of. destruct (zget _ _) as [w|] eqn:Hw; [|done].
    pose proof (zget_Some_range _ _ _ Hw) as Hr. rewrite zlen_replicate in Hr.
    rewrite zget_replicate in Hw by done. injection Hw as <-. apply Z.testbit_0_l.
Qed.

Lemma urpc_bitmap_alloc_1_spec n_bits :
  0 <= n_bits < 2 ^ 62 ->
  exists bitmap, urpc_bitmap_alloc_1 true n_bits = Some bitmap
    /\ forall i, 0 <= i -> bit_of bitmap i = (i <? n_bits).
Proof.
  intros Hn. unfold urpc_bitmap_alloc_1, urpc_bitmap_n_ulongs.
  destruct (urpc_bitmap_alloc_spec n_bits Hn) as (b0 & -> & Hwf & Hlen & _).
  cbn [mbind option_bind]. unfold URPC_ULONG_BITS. rewrite n_ulongs_bound by lia.
  set (full := replicate (length b0) ULONG_MAX).
  assert (Hfl : zlen full = zlen b0) by apply zlen_replicate.
  assert (Hfull : forall i, 0 <= i < zlen b0 -> zget full i = Some ULONG_MAX)
    by (intros; by apply zget_replicate).
  assert (Hones : forall i, 0 <= i < 64 * zlen b0 -> bit_of full i = true).
  { intros i Hi. rewrite (bit_of_word _ _ ULONG_MAX) by (apply Hfull; zmod).
    change ULONG_MAX with (Z.ones 64). apply Z.ones_spec_low. zmod. }
  assert (Hout : forall bm i, zlen bm = zlen b0 -> 64 * zlen b0 <= i -> bit_of bm i = false).
  { intros bm i Hz Hi. unfold bit_of. destruct (zget bm (i / 64)) eqn:Hg; [|done].
    apply zget_Some_range in Hg. zmod. }
  destruct (Z.eqb_spec (n_bits mod 64) 0) as [Hz|Hnz]; simpl negb; cbv iota.
  - exists full. split; [done|]. intros i Hi. assert (64 * zlen b0 = n_bits) by zmod.
    destruct (Z.ltb_spec i n_bits); [apply Hones; lia|]. apply Hout; [done|lia].
  - set (k := (n_bits + 63) / 64 - 1). pose proof (Z.mod_pos_bound n_bits 64 ltac:(lia)).
    assert (Hk : k = n_bits / 64) by (unfold k; zmod). assert (Hkr : zlen b0 = k + 1) by zmod.
    rewrite Hfull by zmod. cbn [mbind option_bind].
    destruct (zset_in_range full k (Z.shiftr ULONG_MAX (64 - n_bits mod 64))) as [bm Hbm]; [zmod|].
    exists bm. split; [done|]. intros i Hi. pose proof (zset_len _ _ _ _ Hbm) as Hbl.
    destruct (Z.lt_ge_cases i (64 * zlen b0)) as [Hin|Hge].
    2: { rewrite (Hout bm i) by lia. symmetry. apply Z.ltb_ge. lia. }
    destruct (Z.eq_dec (i / 64) k) as [Hik|Hik].
    + rewrite (bit_of_word _ _ (Z.shiftr ULONG_MAX (64 - n_bits mod 64)))
        by (rewrite Hik; by eapply zget_zset_eq).
      rewrite Z.shiftr_spec by zmod. change ULONG_MAX with (Z.ones 64).
      destruct (Z.ltb_spec i n_bits); [apply Z.ones_spec_low|apply Z.ones_spec_high]; zmod.
    + unfold bit_of. rewrite (zget_zset_ne _ _ _ _ _ Hbm) by done.
      change (bit_of full i = (i <? n_bits)). rewrite Hones by lia.
      symmetry. apply Z.ltb_lt. zmod.
Qed.

Lemma bitmap_word_loop_spec f (g : bool -> bool -> bool) k i dst src :
  (forall x y b, 0 <= b -> Z.testbit (f x y) b = g (Z.testbit x b) (Z.testbit y b)) ->
  0 <= i -> i + Z.of_nat k <= zlen dst -> i + Z.of_nat k <= zlen src ->
  exists dst', bitmap_word_loop f k i dst src = Some dst' /\ zlen dst' = zlen dst /\
    forall j, 0 <= j -> bit_of dst' j =
      if (64 * i <=? j) && (j <? 64 * (i + Z.of_nat k)) then g (bit_of dst j) (bit_of src j)
      else bit_of dst j.
Proof.
  intros Hf. revert i dst. induction k as [|k IH]; intros i dst Hi Hd Hs; simpl bitmap_word_loop.
  { exists dst. split_and!; [done..|]. intros j Hj.
    destruct (_ && _)%bool eqn:E; [|done]. breflect. lia. }
  destruct (zget_in_range dst i) as [d Hgd]; [lia|].
  destruct (zget_in_range src i) as [s Hgs]; [lia|]. rewrite Hgd, Hgs. cbn [mbind option_bind].
  destruct (zset_in_range dst i (f d s)) as [dst1 Hset]; [lia|]. rewrite Hset. cbn [mbind option_bind].
  pose proof (zset_len _ _ _ _ Hset) as Hlen.
  destruct (IH (i + 1) dst1) as (dst' & Hl & Hlen' & Hb); [lia..|].
  exists dst'. split_and!; [done|lia|]. intros j Hj. rewrite Hb by done.
  assert (Hj1 : bit_of dst1 j = if j / 64 =? i then g (bit_of dst j) (bit_of src j) else bit_of dst j).
  { unfold bit_of at 1. destruct (Z.eqb_spec (j / 64) i) as [Hji|Hji].
    - rewrite Hji, (zget_zset_eq _ _ _ _ Hset). rewrite Hf by zmod.
      by rewrite (bit_of_word dst j d), (bit_of_word src j s) by (by rewrite Hji).
    - by rewrite (zget_zset_ne _ _ _ _ _ Hset) by congruence. }
  rewrite Hj1. destruct (Z.eqb_spec (j / 64) i);
    destruct (Z.leb_spec (64 * (i + 1)) j), (Z.leb_spec (64 * i) j),
      (Z.ltb_spec j (64 * (i + 1 + Z.of_nat k))), (Z.ltb_spec j (64 * (i + Z.of_nat (S k))));
    simpl; first [done | zmod].
Qed.

(** ** Searches from the start, and the bonding index allocator *)

Lemma ones_lnot_zero w : in_u64 w -> u64 (Z.lnot w) = 0 <-> w = ULONG_MAX.
Proof.
  intros Hw. assert (E : u64 (Z.lnot w) = ULONG_MAX - w).
  { unfold u64, ULONG_MAX, Z.lnot. replace (Z.pred (- w)) with (2 ^ 64 - 1 - w + (-1) * 2 ^ 64) by lia.
    rewrite Z.mod_add by lia. apply Z.mod_small. lia. }
  rewrite E. lia.
Qed.

Lemma bondp_find_first_zero_bit_loop_spec bitmap fuel i size :
  bitmap_wf bitmap -> 0 <= i -> 0 <= size <= 64 * zlen bitmap ->
  zlen bitmap - i < Z.of_nat fuel -> i <= zlen bitmap ->
  exists r, bondp_find_first_zero_bit_loop fuel bitmap size i (64 * i) (DIV_ROUND_UP size 64) = Some r
    /\ 0 <= r /\ (r = size \/ r < 64 * ((size + 63) / 64))
    /\ search_result (bit_is bitmap false) (64 * i) size r.
Proof.
  intros Hwf. assert (Hsz : 64 * zlen bitmap < 2 ^ 63) by apply Hwf. revert i.
  induction fuel as [|fuel IH]; intros i Hi Hsize Hfuel Hle; [lia|]. simpl.
  pose proof (n_ulongs_bound size ltac:(lia)) as Hn.
  destruct (Z.ltb_spec i (DIV_ROUND_UP size 64)) as [Hlt|Hge]; rewrite Hn in *.
  2: { eexists. split; [done|]. split_and!; [lia|lia|split; [|lia]]. intros j Hj. zmod. }
  assert (i < zlen bitmap) by zmod.
  destruct (zget_in_range bitmap i) as [w Hw]; [lia|]. rewrite Hw. cbn [mbind option_bind].
  pose proof (bitmap_wf_word _ _ _ Hwf Hw) as Hw64. pose proof (ones_lnot_zero w Hw64) as Hiff.
  pose proof (scan_word_in_u64 false w Hw64) as Hx.
  assert (HP : forall b, 0 <= b < 64 -> 64 * i + b < size ->
    bit_is bitmap false (64 * i + b) = Z.testbit (scan_word false w) b)
    by (intros; by apply bit_is_word).
  unfold URPC_ULONG_BITS, ffz. change (u64 (Z.lnot w)) with (scan_word false w) in *.
  destruct (Z.eqb_spec w ULONG_MAX) as [Hz|Hnz].
  - rewrite !u64_small by lia. replace (64 * i + 64) with (64 * (i + 1)) by lia.
    destruct (IH (i + 1)) as (r & Heq & Hr & Hr' & Hs); [lia..|].
    exists r. split_and!; [done|lia|done|].
    apply (search_result_skip _ _ (64 * (i + 1))); [lia| |done].
    rewrite (proj2 Hiff) in HP by done.
    pose proof (search_result_zero_word _ _ _ HP) as Hno. intros. apply Hno; lia.
  - assert (Hne : scan_word false w <> 0) by (intros Hc; by apply Hnz, Hiff).
    pose proof (ctz_range (scan_word false w) ltac:(lia)).
    rewrite u64_small by lia. eexists. split_and!; [done|lia|lia|]. by apply search_result_word.
Qed.

Lemma bondp_find_first_zero_bit_spec bitmap size :
  bitmap_wf bitmap -> 0 <= size <= 64 * zlen bitmap ->
  exists r, bondp_find_first_zero_bit bitmap size = Some r
    /\ 0 <= r /\ (r = size \/ r < 64 * ((size + 63) / 64))
    /\ search_result (bit_is bitmap false) 0 size r.
Proof.
  intros Hwf Hs. assert (Hsz : 64 * zlen bitmap < 2 ^ 63) by apply Hwf.
  unfold bondp_find_first_zero_bit. destruct (Z.eqb_spec size 0) as [->|].
  - exists 0. split_and!; [done|lia|lia|split; lia].
  - apply (bondp_find_first_zero_bit_loop_spec bitmap (S (length bitmap)) 0 size); unfold zlen in *; [done|lia..].
Qed.

(** The capped search of [ub_find_first_zero_bit] returns the same index
    clipped to [size]. *)
Lemma ub_find_first_zero_bit_loop_bondp bitmap fuel size i ret n r :
  bitmap_wf bitmap -> 0 <= ret ->
  bondp_find_first_zero_bit_loop fuel bitmap size i ret n = Some r ->
  ub_find_first_zero_bit_loop fuel bitmap size i ret n = Some (Z.min r size).
Proof.
  intros Hwf. revert i ret. induction fuel as [|fuel IH]; intros i ret Hret; simpl; [done|].
  destruct (i <? n); [|by intros [= <-]; rewrite Z.min_id].
  destruct (zget bitmap i) as [w|] eqn:Hw; [|done]. cbn [mbind option_bind].
  pose proof (bitmap_wf_word _ _ _ Hwf Hw) as Hw64. pose proof (ones_lnot_zero w Hw64) as Hiff.
  destruct (Z.eqb_spec w ULONG_MAX) as [Hz|Hnz]; cbn [negb].
  - apply IH. apply u64_range.
  - intros [= <-]. unfold ffz, BITS_PER_LONG.
    pose proof (u64_range (Z.lnot w)) as Hx.
    assert (u64 (Z.lnot w) <> 0) by (intros H0; by apply Hnz, Hiff).
    pose proof (ctz_range (u64 (Z.lnot w)) ltac:(lia)) as Hc.
    rewrite (proj2 (Z.leb_gt 64 _)) by lia. rewrite <- if_ltb_min. by destruct (_ <? _).
Qed.

Lemma ub_find_first_zero_bit_spec bitmap size :
  bitmap_wf bitmap -> 0 < size <= 64 * zlen bitmap ->
  exists r, ub_find_first_zero_bit bitmap size = Some r /\ first_match (bit_is bitmap false) 0 size r.
Proof.
  intros Hwf Hs. destruct (bondp_find_first_zero_bit_spec bitmap size) as (r & Hr & _ & _ & Hsr); [done|lia|].
  exists (Z.min r size). split; [|apply search_result_first_match; [lia|done]].
  unfold ub_find_first_zero_bit. unfold bondp_find_first_zero_bit in Hr.
  rewrite (proj2 (Z.eqb_neq size 0)) in * by lia.
  by apply ub_find_first_zero_bit_loop_bondp.
Qed.

(** [ub_find_first_bit] is [ub_find_next_bit] from index 0. *)
Lemma ub_find_first_bit_loop_next bitmap fuel size i ret n :
  ub_find_first_bit_loop fuel bitmap size i ret n = find_next_bit_loop fuel bitmap size i ret 0 n.
Proof.
  revert i ret. induction fuel as [|fuel IH]; intros i ret; simpl; [done|].
  destruct (i <? n); [|done]. destruct (zget bitmap i) as [w|]; [|done]. cbn [mbind option_bind].
  rewrite Z.lxor_0_r. destruct (negb _); [done|]. apply IH.
Qed.

Lemma ub_find_first_bit_spec bitmap size :
  bitmap_wf bitmap -> 0 < size <= 64 * zlen bitmap ->
  exists r, ub_find_first_bit bitmap size = Some r
    /\ first_match (bit_is bitmap true) 0 size (Z.min r size).
Proof.
  intros Hwf Hs. unfold ub_find_first_bit. rewrite (proj2 (Z.eqb_neq size 0)) by lia.
  rewrite ub_find_first_bit_loop_next.
  destruct (find_next_bit_loop_spec bitmap true (S (length bitmap)) 0 size) as (r & Hr & _ & _ & Hsr);
    [done|lia|lia|unfold zlen; lia|apply zlen_nonneg|].
  exists r. split; [exact Hr|]. by apply search_result_first_match; [lia|].
Qed.

(** Invariant of the bonding provider's bitmap: the words cover its size and
    sizes are [uint32_t]. *)
Definition bondp_bitmap_wf (b : bondp_bitmap) : Prop :=
  bitmap_wf (bm_bits b) /\ 0 <= bm_size b <= 64 * zlen (bm_bits b) /\ in_u32 (bm_size b).

Definition bondp_used (b : bondp_bitmap) (i : Z) : Prop := bit_of (bm_bits b) i = true.

Lemma ub_bitmap_set1_spec bitmap off :
  bitmap_wf bitmap -> 0 <= off < 64 * zlen bitmap ->
  exists bitmap', ub_bitmap_set1 bitmap off = Some bitmap' /\ bit_updated bitmap bitmap' off true.
Proof. apply (urpc_bitmap_set_spec bitmap off true). Qed.

Lemma ub_bitmap_set0_spec bitmap off :
  bitmap_wf bitmap -> 0 <= off < 64 * zlen bitmap ->
  exists bitmap', ub_bitmap_set0 bitmap off = Some bitmap' /\ bit_updated bitmap bitmap' off false.
Proof. apply (urpc_bitmap_set_spec bitmap off false). Qed.

Lemma bondp_alloc_idx_outcome b :
  bondp_bitmap_wf b ->
  exists rc out b', bondp_bitmap_alloc_idx b = Some (rc, out, b') /\ bondp_bitmap_wf b' /\
    ((rc = -1 /\ out = None /\ b' = b /\ forall j, 0 <= j < bm_size b -> bondp_used b j)
     \/ exists i, rc = 0 /\ out = Some i /\ first_match (bit_is (bm_bits b) false) 0 (bm_size b) i
          /\ i < bm_size b /\ bm_size b' = bm_size b
          /\ bit_updated (bm_bits b) (bm_bits b') i true).
Proof.
  intros (Hwf & Hsz & Hu). unfold bondp_bitmap_alloc_idx.
  destruct (bondp_find_first_zero_bit_spec (bm_bits b) (bm_size b)) as (r & Hr & Hr0 & Hrb & Hs); [done..|].
  rewrite Hr. cbn [mbind option_bind]. rewrite u32_small by (split; [lia|zmod]).
  destruct (Z.leb_spec (bm_size b) r) as [Hge|Hlt].
  - exists (-1), None, b. split; [done|]. split; [split; [done|lia]|]. left. split_and!; [done..|].
    intros j Hj. destruct Hs as [Hs _]. specialize (Hs j Hj ltac:(lia)).
    unfold bondp_used, bit_is in *. by destruct (bit_of _ _).
  - destruct (ub_bitmap_set1_spec (bm_bits b) r) as (b' & Hb' & Hup); [done|lia|].
    rewrite Hb'. eexists 0, (Some r), _. split; [done|]. split.
    { destruct Hup as (? & Hl & _). split; [done|]. simpl. lia. }
    right. exists r. apply search_result_first_match in Hs; [|lia].
    rewrite Z.min_l in Hs by lia. by split_and!.
Qed.

Lemma bondp_release_outcome b i :
  bondp_bitmap_wf b -> 0 <= i < bm_size b ->
  exists rc b', bondp_bitmap_free_idx b i = Some (rc, b') /\ bondp_bitmap_wf b' /\
    if bit_of (bm_bits b) i
    then rc = 0 /\ bm_size b' = bm_size b /\ bit_updated (bm_bits b) (bm_bits b') i false
    else rc = - EINVAL /\ b' = b.
Proof.
  intros (Hwf & Hsz & Hu) Hi. unfold bondp_bitmap_free_idx, ub_bitmap_is_set.
  rewrite urpc_bitmap_is_set_bit by (done || lia). cbn [mbind option_bind].
  destruct (bit_of (bm_bits b) i); cbn [negb].
  - destruct (ub_bitmap_set0_spec (bm_bits b) i) as (b' & Hb' & Hup); [done|lia|].
    rewrite Hb'. eexists _, _. split; [done|]. split; [|done].
    destruct Hup as (? & Hl & _). split; [done|]. simpl. lia.
  - eexists _, _. split; [done|]. split; [split; [done|lia]|done].
Qed.

(** ** The interface the other components use

    A bit array of a given capacity: reading and writing inside the capacity
    succeeds, a write changes exactly the addressed bit. *)

Class BitArray (B : Type) := {
  ba_is_set : B -> Z -> option bool;
  ba_set1 : B -> Z -> option B;
  ba_set0 : B -> Z -> option B;
  ba_bit : B -> Z -> bool;
  ba_ok : Z -> B -> Prop;
  ba_is_set_ok n b i : ba_ok n b -> 0 <= i < n -> ba_is_set b i = Some (ba_bit b i);
  ba_set1_ok n b i : ba_ok n b -> 0 <= i < n ->
    exists b', ba_set1 b i = Some b' /\ ba_ok n b' /\
      forall j, 0 <= j -> ba_bit b' j = if j =? i then true else ba_bit b j;
  ba_set0_ok n b i : ba_ok n b -> 0 <= i < n ->
    exists b', ba_set0 b i = Some b' /\ ba_ok n b' /\
      forall j, 0 <= j -> ba_bit b' j = if j =? i then false else ba_bit b j
}.

(** The word-array bitmap implements it. *)
#[export] Program Instance ub_bit_array : BitArray (list Z) := {|
  ba_is_set := ub_bitmap_is_set;
  ba_set1 := ub_bitmap_set1;
  ba_set0 := ub_bitmap_set0;
  ba_bit := bit_of;
  ba_ok := fun n b => bitmap_wf b /\ n <= 64 * zlen b
|}.
Next Obligation. intros n b i [] Hi. apply urpc_bitmap_is_set_bit; [done|lia]. Qed.
Next Obligation.
  intros n b i [] Hi. destruct (ub_bitmap_set1_spec b i) as (b' & ? & ? & ? & ?); [done|lia|].
  exists b'. split; [done|]. split; [split; [done|lia]|done].
Qed.
Next Obligation.
  intros n b i [] Hi. destruct (ub_bitmap_set0_spec b i) as (b' & ? & ? & ? & ?); [done|lia|].
  exists b'. split; [done|]. split; [split; [done|lia]|done].
Qed.

(** ** Properties *)

(** [urpc_bitmap_scan] returns the first index of [[begin, end)] whose bit
    equals [target], and [end] when there is none; it never reads outside a
    bitmap of at least [end] bits. *)
Theorem urpc_bitmap_scan_correct bitmap target begin end_ :
  bitmap_wf bitmap -> 0 <= begin <= end_ -> end_ <= 64 * zlen bitmap ->
  exists r, urpc_bitmap_scan bitmap target begin end_ = Some r
    /\ begin <= r <= end_
    /\ (forall j, begin <= j < r -> bit_of bitmap j = negb target)
    /\ (r < end_ -> bit_of bitmap r = target).
Proof.
  intros Hwf Hb He. destruct (Z.eq_dec begin end_) as [->|Hne].
  - exists end_. unfold urpc_bitmap_scan. rewrite (proj2 (Z.leb_le end_ end_)) by lia.
    split_and!; [done|lia|lia| |lia]. intros. lia.
  - destruct (urpc_bitmap_scan_first bitmap target begin end_) as (r & Hr & H1 & H2 & H3); [done|lia|lia|].
    exists r. split_and!; [done|lia|lia| |].
    + intros j Hj. specialize (H2 j Hj). unfold bit_is in H2. by destruct (bit_of _ _), target.
    + intros Hlt. specialize (H3 Hlt). unfold bit_is in H3. by destruct (bit_of _ _), target.
Qed.

Example urpc_bitmap_scan_correct_witness :
  exists r, urpc_bitmap_scan [0; 5] true 1 100 = Some r
    /\ 1 <= r <= 100
    /\ (forall j, 1 <= j < r -> bit_of [0; 5] j = negb true)
    /\ (r < 100 -> bit_of [0; 5] r = true).
Proof.
  apply (urpc_bitmap_scan_correct [0; 5] true 1 100).
  - split; [repeat constructor; lia|unfold zlen; simpl; lia].
  - lia.
  - unfold zlen; simpl; lia.
Defined.

(** [urpc_bitmap_find_next_bit] and [urpc_bitmap_find_next_zero_bit] report
    the first set (clear) bit of [[offset, size)]; any result [>= size] means
    there is none, also when the last word has bits beyond [size]. *)
Theorem urpc_bitmap_find_next_correct bitmap size offset :
  bitmap_wf bitmap -> 0 <= offset < size -> size <= 64 * zlen bitmap ->
  (exists r, urpc_bitmap_find_next_bit bitmap size offset = Some r
     /\ first_match (bit_of bitmap) offset size (Z.min r size))
  /\ (exists r, urpc_bitmap_find_next_zero_bit bitmap size offset = Some r
     /\ first_match (fun i => negb (bit_of bitmap i)) offset size (Z.min r size)).
Proof.
  intros Hwf Ho Hs. split.
  - destruct (find_next_bit_search bitmap true size offset) as (r & Hr & _ & _ & H1 & H2 & H3); [done..|].
    exists r. split; [done|]. split_and!; [lia|lia| |].
    + intros j Hj. specialize (H2 j Hj). unfold bit_is in H2. by destruct (bit_of _ _).
    + intros Hj. specialize (H3 Hj). unfold bit_is in H3. by destruct (bit_of _ _).
  - destruct (find_next_bit_search bitmap false size offset) as (r & Hr & _ & _ & H1 & H2 & H3); [done..|].
    exists r. split; [done|]. split_and!; [lia|lia| |].
    + intros j Hj. specialize (H2 j Hj). unfold bit_is in H2. by destruct (bit_of _ _).
    + intros Hj. specialize (H3 Hj). unfold bit_is in H3. by destruct (bit_of _ _).
Qed.

Example urpc_bitmap_find_next_correct_witness :
  (exists r, urpc_bitmap_find_next_bit [ULONG_MAX; 6] 70 64 = Some r
     /\ first_match (bit_of [ULONG_MAX; 6]) 64 70 (Z.min r 70))
  /\ (exists r, urpc_bitmap_find_next_zero_bit [ULONG_MAX; 6] 70 64 = Some r
     /\ first_match (fun i => negb (bit_of [ULONG_MAX; 6] i)) 64 70 (Z.min r 70)).
Proof.
  apply (urpc_bitmap_find_next_correct [ULONG_MAX; 6] 70 64).
  - split; [repeat constructor; unfold ULONG_MAX; lia|unfold zlen; simpl; lia].
  - lia.
  - unfold zlen; simpl; lia.
Defined.

(** [urpc_bitmap_equal] compares exactly the first [n] bits, whatever the
    alignment of [n] to bytes and words. *)
Theorem urpc_bitmap_equal_correct a b n :
  0 <= n <= 64 * zlen a -> n <= 64 * zlen b ->
  exists r, urpc_bitmap_equal a b n = Some r
    /\ (r = true <-> forall j, 0 <= j < n -> bit_of a j = bit_of b j).
Proof. apply urpc_bitmap_equal_bits. Qed.

Example urpc_bitmap_equal_correct_witness :
  exists r, urpc_bitmap_equal [7; 9] [7; 1] 67 = Some r
    /\ (r = true <-> forall j, 0 <= j < 67 -> bit_of [7; 9] j = bit_of [7; 1] j).
Proof. apply (urpc_bitmap_equal_correct [7; 9] [7; 1] 67); unfold zlen; simpl; lia. Defined.

(** Writing a bit with [urpc_bitmap_set] and reading any bit back with
    [urpc_bitmap_is_set]: the written bit has the new value, every other bit of
    the bitmap the old one. *)
Theorem urpc_bitmap_set_is_set bitmap off v :
  bitmap_wf bitmap -> 0 <= off < 64 * zlen bitmap ->
  exists bitmap', urpc_bitmap_set bitmap off v = Some bitmap' /\ bitmap_wf bitmap'
    /\ urpc_bitmap_is_set bitmap' off = Some v
    /\ forall i, 0 <= i < 64 * zlen bitmap -> i <> off ->
         urpc_bitmap_is_set bitmap' i = urpc_bitmap_is_set bitmap i.
Proof.
  intros Hwf Ho. destruct (urpc_bitmap_set_spec bitmap off v) as (b' & Hb' & Hwf' & Hl & Hbit); [done..|].
  exists b'. split; [done|]. split; [done|]. split.
  - rewrite urpc_bitmap_is_set_bit, Hbit, Z.eqb_refl by (done || lia). done.
  - intros i Hi Hne. rewrite !urpc_bitmap_is_set_bit, Hbit by (done || lia).
    by rewrite (proj2 (Z.eqb_neq i off)).
Qed.

Example urpc_bitmap_set_is_set_witness :
  exists bitmap', urpc_bitmap_set [0; 0] 70 true = Some bitmap' /\ bitmap_wf bitmap'
    /\ urpc_bitmap_is_set bitmap' 70 = Some true
    /\ forall i, 0 <= i < 64 * zlen [0; 0] -> i <> 70 ->
         urpc_bitmap_is_set bitmap' i = urpc_bitmap_is_set [0; 0] i.
Proof.
  apply (urpc_bitmap_set_is_set [0; 0] 70 true).
  - split; [repeat constructor; lia|unfold zlen; simpl; lia].
  - unfold zlen; simpl; lia.
Defined.

(** C37: the bonding provider's [bondp_bitmap_alloc_idx] hands out the smallest
    free index below [size] and marks exactly that index used; it fails, and
    changes nothing, exactly when all [size] indices are in use; freeing the
    index it returned restores the previous set of used indices.  The bitmap has
    a word for every index below [size] ([bondp_bitmap_wf]). *)
Theorem bondp_alloc_idx_correct b :
  bondp_bitmap_wf b ->
  (exists b1, bondp_bitmap_alloc_idx b = Some (-1, None, b1) /\ b1 = b
     /\ forall j, 0 <= j < bm_size b -> bondp_used b j)
  \/ (exists i b1 b2, bondp_bitmap_alloc_idx b = Some (0, Some i, b1)
     /\ 0 <= i < bm_size b /\ ~ bondp_used b i /\ (forall j, 0 <= j < i -> bondp_used b j)
     /\ (forall j, 0 <= j -> bondp_used b1 j <-> j = i \/ bondp_used b j)
     /\ bondp_bitmap_free_idx b1 i = Some (0, b2) /\ bondp_bitmap_wf b2
     /\ forall j, 0 <= j -> bondp_used b2 j <-> bondp_used b j).
Proof.
  intros Hb. destruct (bondp_alloc_idx_outcome b Hb) as (rc & out & b1 & Heq & Hb1 & Hcase).
  destruct Hcase as [(-> & -> & -> & Hfull)|(i & -> & -> & Hfm & Hi & Hsz & Hup)]; [left; eauto|].
  right. destruct Hfm as (H1 & H2 & H3). destruct Hup as (Hw & Hl & Hbit).
  destruct (bondp_release_outcome b1 i Hb1) as (rc & b2 & Hf & Hb2 & Hcase); [lia|].
  rewrite Hbit, Z.eqb_refl in Hcase by lia. destruct Hcase as (-> & Hsz2 & _ & _ & Hbit2).
  exists i, b1, b2. specialize (H3 Hi). unfold bit_is in *.
  assert (Hfree : bit_of (bm_bits b) i = false) by (by destruct (bit_of _ _)).
  split; [done|]. split; [lia|]. split; [unfold bondp_used; congruence|]. split_and!.
  - intros j Hj. specialize (H2 j Hj). unfold bondp_used. by destruct (bit_of _ j).
  - intros j Hj. unfold bondp_used. rewrite Hbit by done.
    destruct (Z.eqb_spec j i); naive_solver.
  - done.
  - done.
  - intros j Hj. unfold bondp_used. rewrite Hbit2, Hbit by done.
    destruct (Z.eqb_spec j i) as [->|]; [|done]. rewrite Hfree. done.
Qed.

Example bondp_alloc_idx_correct_witness :
  let b := {| bm_bits := [3]; bm_size := 5 |} in
  (exists b1, bondp_bitmap_alloc_idx b = Some (-1, None, b1) /\ b1 = b
     /\ forall j, 0 <= j < bm_size b -> bondp_used b j)
  \/ (exists i b1 b2, bondp_bitmap_alloc_idx b = Some (0, Some i, b1)
     /\ 0 <= i < bm_size b /\ ~ bondp_used b i /\ (forall j, 0 <= j < i -> bondp_used b j)
     /\ (forall j, 0 <= j -> bondp_used b1 j <-> j = i \/ bondp_used b j)
     /\ bondp_bitmap_free_idx b1 i = Some (0, b2) /\ bondp_bitmap_wf b2
     /\ forall j, 0 <= j -> bondp_used b2 j <-> bondp_used b j).
Proof.
  intros b. apply (bondp_alloc_idx_correct b).
  split; [split; [repeat constructor; lia|]|]; unfold b, zlen; simpl; lia.
Defined.

(** [bondp_bitmap_alloc_idx_from_offset] mixes bit and word units: with 128
    indices, offset 1 and indices 64..127 in use, it searches one word more than
    the bitmap has and reads outside the allocation, although indices 1..63 are
    free. *)
Theorem bondp_alloc_from_offset_overread :
  let b := {| bm_bits := [0; ULONG_MAX]; bm_size := 128 |} in
  bondp_bitmap_wf b /\ (forall j, 1 <= j < 64 -> ~ bondp_used b j)
  /\ bondp_bitmap_alloc_idx_from_offset b 1 = None.
Proof.
  intros b. split; [|split].
  - split; [split; [repeat constructor; unfold ULONG_MAX; lia|]|]; unfold b, zlen; simpl; lia.
  - intros j Hj. unfold bondp_used. rewrite (bit_of_word _ _ 0).
    + rewrite Z.testbit_0_l. done.
    + by replace (j / 64) with 0 by zmod.
  - vm_compute. reflexivity.
Qed.
