(* ===== verification/SlideWindow.v ===== *)
(** * The bonding provider's sliding receive window (bondp_slide_window.c)

    A window of [window_size] sequence numbers over a cyclic space of
    [total_size], one bit per number.  The bonding data path uses it on both
    ends of a virtual connection to deliver every message exactly once over
    several links.  The model is stated over the [BitArray] interface of
    Bitmap.v.  The theorems relate the cyclic window to unbounded message
    numbers: a message is accepted exactly once, duplicates and stragglers
    are refused, and the head is the first number not yet received. *)

From S2P Require Import Prelude Bitmap.

Definition BDP_SLIDE_WND_OUT_OF_WND : Z := -2.
Definition BDP_SLIDE_WND_DUPLICATE : Z := -3.

Record bdp_slide_wnd (B : Type) := {
  wnd_bits : B;
  total_size : Z;
  window_size : Z;
  head : Z
}.
Arguments wnd_bits {B}. Arguments total_size {B}. Arguments window_size {B}. Arguments head {B}.

Definition is_seq_in_loop_range (head len max_size seq : Z) : bool :=
  let tail := u32 (head + len) mod max_size in
  if tail <? head then (head <=? seq) || (seq <? tail)
  else (head <=? seq) && (seq <? tail).

(** A window pointer is [None] for the C [NULL]; the bitmap of a new window
    comes from [ub_bitmap_alloc]. *)
Definition bdp_slide_wnd_init (wnd : option (bdp_slide_wnd (list Z))) (alloc_ok : bool)
    (total_size window_size head : Z) : Z * option (bdp_slide_wnd (list Z)) :=
  match wnd with
  | None => (-1, wnd)
  | Some _ =>
      if total_size <=? window_size then (-1, wnd)
      else
        match ub_bitmap_alloc alloc_ok total_size with
        | None => (-1, wnd)
        | Some b =>
            (0, Some {| wnd_bits := b; total_size := total_size; window_size := window_size;
                        head := head mod total_size |})
        end
  end.

Section window.
Context {B : Type} {BA : BitArray B}.
Implicit Types (w : bdp_slide_wnd B) (wnd : option (bdp_slide_wnd B)).

(** The out-of-range branch returns [-1] from a [bool] function, which is
    [true]. *)
Definition bdp_slide_wnd_seq_in_window wnd (seq : Z) : bool :=
  match wnd with
  | None => false
  | Some w =>
      if total_size w <=? seq then true
      else is_seq_in_loop_range (head w) (window_size w) (total_size w) seq
  end.

Definition bdp_slide_wnd_has wnd (seq : Z) : option bool :=
  match wnd with
  | None => Some true
  | Some w =>
      if total_size w <=? seq then Some true
      else if is_seq_in_loop_range (head w) (window_size w) (total_size w) seq
      then ba_is_set (wnd_bits w) seq
      else Some false
  end.

Definition set_bits w b : bdp_slide_wnd B :=
  {| wnd_bits := b; total_size := total_size w; window_size := window_size w; head := head w |}.

Definition set_head w h : bdp_slide_wnd B :=
  {| wnd_bits := wnd_bits w; total_size := total_size w; window_size := window_size w; head := h |}.

(** The [while] loop that slides the head over received numbers. *)
Fixpoint slide_loop (fuel : nat) w : option (bdp_slide_wnd B) :=
  match fuel with
  | O => None
  | S fuel =>
      set ← ba_is_set (wnd_bits w) (head w);
      if (set : bool) then
        b ← ba_set0 (wnd_bits w) (u32 (head w + window_size w) mod total_size w);
        slide_loop fuel (set_head (set_bits w b) (u32 (head w + 1) mod total_size w))
      else Some w
  end.

(** Fuel for one test per number of the window and the failing one: the
    loop clears the bit that enters the window at each step. *)
Definition bdp_slide_wnd_add wnd (seq : Z) : option (Z * option (bdp_slide_wnd B)) :=
  match wnd with
  | None => Some (-1, wnd)
  | Some w =>
      if negb (bdp_slide_wnd_seq_in_window wnd seq) then Some (BDP_SLIDE_WND_OUT_OF_WND, wnd)
      else
        dup ← ba_is_set (wnd_bits w) seq;
        if (dup : bool) then Some (BDP_SLIDE_WND_DUPLICATE, wnd)
        else
          b ← ba_set1 (wnd_bits w) seq;
          w' ← slide_loop (S (Z.to_nat (window_size w))) (set_bits w b);
          Some (0, Some w')
  end.

(** ** Unbounded message numbers

    [H0] is the number of the first message, [acc] the set of accepted
    numbers (everything below [H0] counts as accepted), [H] the first number
    not accepted.  The concrete window holds the residues of [[H, H + W)]. *)

Record window_inv (T W : Z) w (H : Z) (acc : Z -> Prop) : Prop := {
  wi_total : total_size w = T;
  wi_window : window_size w = W;
  wi_ok : ba_ok T (wnd_bits w);
  wi_head : head w = H mod T;
  wi_bits : forall n, H <= n < H + W -> ba_bit (wnd_bits w) (n mod T) = true <-> acc n;
  wi_upper : forall n, acc n -> n < H + W;
  wi_lower : forall n, n < H -> acc n
}.

Context (T W : Z) (HW : 0 < W < T) (HT : T + W <= 2 ^ 32).

Lemma loop_range_offset h s :
  0 <= h < T -> 0 <= s < T -> is_seq_in_loop_range h W T s = ((s - h) mod T <? W).
Proof.
  intros Hh Hs. unfold is_seq_in_loop_range. rewrite u32_small by lia.
  assert (E1 : (h + W) mod T = if h + W <? T then h + W else h + W - T).
  { destruct (Z.ltb_spec (h + W) T); [apply Z.mod_small; lia|].
    rewrite <- (Z.mod_small (h + W - T) T) by lia. by rewrite Zminus_mod, Z.mod_same, Z.sub_0_r, Z.mod_mod by lia. }
  assert (E2 : (s - h) mod T = if h <=? s then s - h else s - h + T).
  { destruct (Z.leb_spec h s); [apply Z.mod_small; lia|].
    rewrite <- (Z.mod_small (s - h + T) T) by lia. by rewrite <- Zplus_mod_idemp_r, Z.mod_same, Z.add_0_r by lia. }
  rewrite E1, E2.
  destruct (Z.ltb_spec (h + W) T), (Z.leb_spec h s);
    destruct (Z.ltb_spec (h + W) h), (Z.ltb_spec (h + W - T) h); simpl;
    apply eq_true_iff_eq; rewrite ?orb_true_iff, ?andb_true_iff, ?Z.ltb_lt; lia.
Qed.

Lemma in_window_number H n :
  H - (T - W) <= n < H + W ->
  is_seq_in_loop_range (H mod T) W T (n mod T) = (H <=? n).
Proof.
  intros Hn. rewrite loop_range_offset by (apply Z.mod_pos_bound; lia).
  rewrite <- Zminus_mod. destruct (Z.leb_spec H n).
  - rewrite Z.mod_small by lia. apply Z.ltb_lt. lia.
  - replace (n - H) with (n - H + T + (-1) * T) by lia. rewrite Z.mod_add, Z.mod_small by lia.
    apply Z.ltb_ge. lia.
Qed.

Lemma slide_loop_spec fuel w H (acc : Z -> Prop) top :
  window_inv T W w H acc -> (forall n, acc n -> n < top) -> H <= top -> top - H < Z.of_nat fuel ->
  exists w' H', slide_loop fuel w = Some w' /\ window_inv T W w' H' acc /\ H <= H' /\ ~ acc H'.
Proof.
  revert w H. induction fuel as [|fuel IH]; intros w H Hinv Htop Hle Hf; [lia|].
  destruct Hinv as [Ht Hw Hok Hh Hb Hu Hl]. simpl.
  pose proof (Z.mod_pos_bound H T ltac:(lia)) as Hm.
  rewrite (ba_is_set_ok T) by (done || lia). cbn [mbind option_bind].
  pose proof (Hb H ltac:(lia)) as HbH. rewrite <- Hh in HbH.
  destruct (ba_bit (wnd_bits w) (head w)) eqn:Hbit.
  2: { exists w, H. split; [done|]. split; [done|]. split; [lia|].
       by intros ?%HbH. }
  assert (HaccH : acc H) by (by apply HbH). pose proof (Htop H HaccH).
  rewrite Ht, Hw, Hh, !u32_small, !Zplus_mod_idemp_l by lia.
  destruct (ba_set0_ok T (wnd_bits w) ((H + W) mod T)) as (b & Hs0 & Hokb & Hbb);
    [done|apply Z.mod_pos_bound; lia|].
  rewrite Hs0. cbn [mbind option_bind].
  destruct (IH (set_head (set_bits w b) ((H + 1) mod T)) (H + 1)) as (w' & H' & HH); [|done|lia|lia|].
  2: { exists w', H'. destruct HH as (? & ? & ? & ?). split_and!; [done|done|lia|done]. }
  split; simpl; [done|done|done|done| | |].
  - intros n Hn. rewrite Hbb by (apply Z.mod_pos_bound; lia).
    destruct (Z.eqb_spec (n mod T) ((H + W) mod T)) as [Heq|Hne].
    + replace n with (H + (n - H)) in Heq by lia.
      apply mod_offset_inj in Heq; [|lia..]. split; [done|]. intros Ha%Hu. lia.
    + apply Hb. split; [lia|]. destruct (Z.eq_dec n (H + W)); [subst; done|lia].
  - intros n Ha%Hu. lia.
  - intros n Hn. destruct (Z.eq_dec n H); [by subst|]. apply Hl. lia.
Qed.

(** One arrival: [n] not more than a window ahead and not further behind
    than the residues can tell apart. *)
Lemma add_number w H acc n :
  window_inv T W w H acc -> H - (T - W) <= n < H + W -> ~ acc H ->
  exists rc w', bdp_slide_wnd_add (Some w) (n mod T) = Some (rc, Some w') /\
    ((n < H /\ rc = BDP_SLIDE_WND_OUT_OF_WND /\ w' = w)
     \/ (H <= n /\ acc n /\ rc = BDP_SLIDE_WND_DUPLICATE /\ w' = w)
     \/ (H <= n /\ ~ acc n /\ rc = 0 /\ exists H', H <= H' /\ ~ acc H' /\ H' <> n
          /\ window_inv T W w' H' (fun k => k = n \/ acc k))).
Proof.
  intros Hinv Hn Hfirst. pose proof Hinv as [Ht Hw Hok Hh Hb Hu Hl].
  pose proof (Z.mod_pos_bound n T ltac:(lia)) as Hm.
  unfold bdp_slide_wnd_add, bdp_slide_wnd_seq_in_window. rewrite Ht, Hw, Hh.
  rewrite (proj2 (Z.leb_gt T (n mod T))), in_window_number by lia.
  destruct (Z.leb_spec H n) as [Hge|Hlt]; cbn [negb].
  2: { eexists _, w. split; [done|]. by left. }
  rewrite (ba_is_set_ok T) by done. cbn [mbind option_bind].
  pose proof (Hb n ltac:(lia)) as Hbn. destruct (ba_bit (wnd_bits w) (n mod T)) eqn:Hbit.
  { eexists _, w. split; [done|]. right. left.
    split_and!; [done|by apply Hbn|done..]. }
  assert (Hna : ~ acc n) by (by intros ?%Hbn).
  destruct (ba_set1_ok T (wnd_bits w) (n mod T)) as (b & Hs1 & Hokb & Hbb); [done..|].
  rewrite Hs1. cbn [mbind option_bind].
  destruct (slide_loop_spec (S (Z.to_nat W)) (set_bits w b) H (fun k => k = n \/ acc k) (H + W))
    as (w' & H' & Hsl & Hinv' & Hle & Hna').
  - split; simpl; [done..| | |].
    + intros k Hk. rewrite Hbb by (apply Z.mod_pos_bound; lia).
      destruct (Z.eqb_spec (k mod T) (n mod T)) as [Heq|Hne].
      * replace k with (H + (k - H)) in Heq by lia. replace n with (H + (n - H)) in Heq by lia.
        apply mod_offset_inj in Heq; [|lia..]. split; [|done]. intros _. left. lia.
      * rewrite Hb by done. split; [by right|]. intros [->|]; done.
    + intros k [->|Ha%Hu]; lia.
    + intros k Hk. right. by apply Hl.
  - intros k [->|Ha%Hu]; lia.
  - lia.
  - lia.
  - rewrite Hsl. eexists _, w'. split; [done|]. right. right. split_and!; [done..|].
    exists H'. split_and!; [lia| | |done].
    + intros ?. apply Hna'. by right.
    + intros ->. apply Hna'. by left.
Qed.
End window.

(** The invariant only depends on which numbers are accepted. *)
#[export] Instance window_inv_proper {B} {BA : BitArray B} T W (w : bdp_slide_wnd B) H :
  Proper (pointwise_relation Z iff ==> iff) (window_inv T W w H).
Proof.
  intros acc acc' Hacc. split; intros [Ht Hw Hok Hh Hb Hu Hl]; split; try done.
  - intros n Hn. rewrite <- (Hacc n). by apply Hb.
  - intros n Hn. apply Hu, Hacc, Hn.
  - intros n Hn. apply Hacc, Hl, Hn.
  - intros n Hn. rewrite (Hacc n). by apply Hb.
  - intros n Hn. apply Hu, Hacc, Hn.
  - intros n Hn. apply Hacc, Hl, Hn.
Qed.

(** ** A connection's receive history

    [arrivals T W H0 w L]: the window was initialised at number [H0], messages
    arrived in any order, [L] lists the numbers [bdp_slide_wnd_add] accepted,
    latest first.  [near]: an arriving number is less than a window ahead of
    the first missing one and at most [T - W] behind it. *)

Definition first_missing (H0 : Z) (L : list Z) (H : Z) : Prop :=
  H0 <= H /\ ~ In H L /\ forall k, H0 <= k < H -> In k L.

Definition near (T W H0 : Z) (L : list Z) (n : Z) : Prop :=
  forall H, first_missing H0 L H -> H - (T - W) <= n < H + W.

Inductive arrivals (T W H0 : Z) : bdp_slide_wnd (list Z) -> list Z -> Prop :=
| arr_init w0 w :
    bdp_slide_wnd_init (Some w0) true T W H0 = (0, Some w) -> arrivals T W H0 w []
| arr_accept w L n w' :
    arrivals T W H0 w L -> near T W H0 L n ->
    bdp_slide_wnd_add (Some w) (n mod T) = Some (0, Some w') -> arrivals T W H0 w' (n :: L)
| arr_refuse w L n rc w' :
    arrivals T W H0 w L -> near T W H0 L n -> rc <> 0 ->
    bdp_slide_wnd_add (Some w) (n mod T) = Some (rc, Some w') -> arrivals T W H0 w' L.

Definition accepted (H0 : Z) (L : list Z) (k : Z) : Prop := k < H0 \/ In k L.

Section history.
Context (T W H0 : Z) (HW : 0 < W < T) (HT : T + W <= 2 ^ 32).

Definition history_inv (w : bdp_slide_wnd (list Z)) (L : list Z) : Prop :=
  NoDup L /\ exists H, first_missing H0 L H /\ window_inv T W w H (accepted H0 L).

Lemma history_init w0 w :
  bdp_slide_wnd_init (Some w0) true T W H0 = (0, Some w) -> history_inv w [].
Proof.
  unfold bdp_slide_wnd_init. rewrite (proj2 (Z.leb_gt T W)) by lia.
  unfold ub_bitmap_alloc. destruct (urpc_bitmap_alloc_spec T) as (b & Hb & Hwf & Hl & Hz); [lia|].
  rewrite Hb. intros [= <-]. split; [constructor|]. exists H0. split.
  { split; [lia|]. split; [by intros []|]. lia. }
  split; simpl; [done|done|split; [done|lia]|done| | |].
  - intros n Hn. rewrite Hz. unfold accepted. simpl. split; [done|lia].
  - unfold accepted. simpl. lia.
  - unfold accepted. lia.
Qed.

Lemma first_missing_accepted L H : first_missing H0 L H -> ~ accepted H0 L H.
Proof. intros (? & ? & _) [?|?]; [lia|done]. Qed.

Lemma first_missing_unique L H H' : first_missing H0 L H -> first_missing H0 L H' -> H = H'.
Proof.
  intros (A & B & C) (A' & B' & C'). destruct (Z.lt_trichotomy H H') as [?|[?|?]]; [|done|].
  - destruct B. apply C'. lia.
  - destruct B'. apply C. lia.
Qed.

Lemma accepted_cons L n k : accepted H0 (n :: L) k <-> k = n \/ accepted H0 L k.
Proof. unfold accepted. simpl. intuition congruence. Qed.

Lemma history_step w L n rc w' :
  history_inv w L -> near T W H0 L n ->
  bdp_slide_wnd_add (Some w) (n mod T) = Some (rc, Some w') ->
  if rc =? 0 then history_inv w' (n :: L) else w' = w.
Proof.
  intros (Hnd & H & Hfm & Hinv) Hnear Hadd. pose proof (first_missing_accepted _ _ Hfm) as Hna.
  destruct (add_number T W HW HT w H _ n Hinv (Hnear H Hfm) Hna) as (rc' & w'' & Heq & Hcase).
  rewrite Hadd in Heq. injection Heq as <- <-.
  destruct Hcase as [(? & -> & ->)|[(? & ? & -> & ->)|(? & Hn & -> & H' & Hle & Hna' & Hne & Hinv')]]; simpl;
    [done|done|].
  split. { constructor; [|done]. rewrite list_elem_of_In. intros Hin. apply Hn. by right. }
  exists H'. split; [split; [destruct Hfm; lia|]; split|].
  - simpl. intros [->|Hin]; [done|]. apply Hna'. by right.
  - intros k Hk. pose proof (wi_lower _ _ _ _ _ Hinv' k ltac:(lia)) as [->|[?|?]]; simpl; auto. lia.
  - eapply window_inv_proper; [|exact Hinv']. intros k. apply accepted_cons.
Qed.

Lemma arrivals_history w L : arrivals T W H0 w L -> history_inv w L.
Proof.
  induction 1 as [w0 w Hi|w L n w' _ IH Hn Ha|w L n rc w' _ IH Hn Hrc Ha].
  - by eapply history_init.
  - apply (history_step _ _ _ _ _ IH Hn Ha).
  - pose proof (history_step _ _ _ _ _ IH Hn Ha) as Hs.
    rewrite (proj2 (Z.eqb_neq rc 0)) in Hs by done. by subst.
Qed.
End history.

(** ** Properties *)

(** C19: exactly-once delivery.  Whatever the arrival order, no number is
    accepted twice; the head is the first number not yet accepted; and every
    arrival is decided by [bdp_slide_wnd_add] according to its unbounded number:
    below the first missing one [BDP_SLIDE_WND_OUT_OF_WND], already accepted
    [BDP_SLIDE_WND_DUPLICATE], otherwise accepted with 0 (so the sliding loop
    always terminates and no bit outside the bitmap is touched). *)
Theorem slide_window_exactly_once T W H0 w L :
  0 < W < T -> T + W <= 2 ^ 32 -> arrivals T W H0 w L ->
  NoDup L /\ exists H, first_missing H0 L H /\ head w = H mod T /\
    forall n, H - (T - W) <= n < H + W -> exists w',
      bdp_slide_wnd_add (Some w) (n mod T) =
        Some (if n <? H then BDP_SLIDE_WND_OUT_OF_WND
              else if bool_decide (n ∈ L) then BDP_SLIDE_WND_DUPLICATE else 0, Some w').
Proof.
  intros HW HT Harr. destruct (arrivals_history T W H0 HW HT w L Harr) as (Hnd & H & Hfm & Hinv).
  split; [done|]. exists H. split; [done|]. split; [apply Hinv|]. intros n Hn.
  destruct (add_number T W HW HT w H _ n Hinv Hn (first_missing_accepted _ _ _ Hfm))
    as (rc & w' & Heq & Hcase).
  exists w'. rewrite Heq. destruct Hfm as (Hge & _ & _).
  destruct Hcase as [(? & -> & _)|[(? & [?|Hin] & -> & _)|(? & Hna & -> & _)]].
  - by rewrite (proj2 (Z.ltb_lt n H)).
  - lia.
  - rewrite (proj2 (Z.ltb_ge n H)), bool_decide_eq_true_2 by (by rewrite ?list_elem_of_In). done.
  - rewrite (proj2 (Z.ltb_ge n H)), bool_decide_eq_false_2; [done| |done].
    rewrite list_elem_of_In. intros Hin. apply Hna. by right.
Qed.

(** A window of 3 over 8 numbers, in which number 1 arrived before 0. *)
Definition demo_wnd : bdp_slide_wnd (list Z) :=
  {| wnd_bits := [0]; total_size := 8; window_size := 3; head := 0 |}.
Definition demo_wnd1 : bdp_slide_wnd (list Z) :=
  {| wnd_bits := [2]; total_size := 8; window_size := 3; head := 0 |}.

Lemma demo_arrivals : arrivals 8 3 0 demo_wnd1 [1].
Proof.
  apply (arr_accept 8 3 0 demo_wnd [] 1 demo_wnd1); [by apply (arr_init 8 3 0 demo_wnd)| |reflexivity].
  intros H (H1 & _ & H2). destruct (Z.eq_dec H 0) as [->|]; [lia|]. destruct (H2 0). lia.
Qed.

Example slide_window_exactly_once_witness :
  NoDup [1] /\ exists H, first_missing 0 [1] H /\ head demo_wnd1 = H mod 8 /\
    forall n, H - (8 - 3) <= n < H + 3 -> exists w',
      bdp_slide_wnd_add (Some demo_wnd1) (n mod 8) =
        Some (if n <? H then BDP_SLIDE_WND_OUT_OF_WND
              else if bool_decide (n ∈ [1]) then BDP_SLIDE_WND_DUPLICATE else 0, Some w').
Proof.
  apply (slide_window_exactly_once 8 3 0 demo_wnd1 [1]); [lia|lia|apply demo_arrivals].
Defined.

(** C39: [bdp_slide_wnd_has] and [bdp_slide_wnd_seq_in_window], the two tests the
    receive path makes before it accepts a message, answer for the unbounded
    number: in the window exactly from the first missing number on, present
    exactly when already accepted and not yet slid over. *)
Theorem slide_window_has_correct T W H0 w L H n :
  0 < W < T -> T + W <= 2 ^ 32 -> arrivals T W H0 w L ->
  first_missing H0 L H -> H - (T - W) <= n < H + W ->
  bdp_slide_wnd_seq_in_window (Some w) (n mod T) = (H <=? n)
  /\ bdp_slide_wnd_has (Some w) (n mod T) = Some ((H <=? n) && bool_decide (n ∈ L)).
Proof.
  intros HW HT Harr Hfm Hn. destruct (arrivals_history T W H0 HW HT w L Harr) as (_ & H' & Hfm' & Hinv).
  rewrite (first_missing_unique _ _ _ _ Hfm' Hfm) in Hinv. destruct Hinv as [Ht Hw Hok Hh Hb Hu Hl].
  pose proof (Z.mod_pos_bound n T ltac:(lia)) as Hm.
  unfold bdp_slide_wnd_seq_in_window, bdp_slide_wnd_has. rewrite Ht, Hw, Hh.
  rewrite (proj2 (Z.leb_gt T (n mod T))), in_window_number by lia. split; [done|].
  destruct (Z.leb_spec H n) as [Hge|Hlt]; simpl andb; [|done].
  rewrite (ba_is_set_ok T) by done. f_equal. specialize (Hb n ltac:(lia)).
  apply eq_true_iff_eq. rewrite Hb, bool_decide_eq_true, list_elem_of_In. unfold accepted.
  destruct Hfm as (? & _ & _). split; [|by right]. intros [?|?]; [lia|done].
Qed.

Example slide_window_has_correct_witness :
  bdp_slide_wnd_seq_in_window (Some demo_wnd1) (1 mod 8) = (0 <=? 1)
  /\ bdp_slide_wnd_has (Some demo_wnd1) (1 mod 8) = Some ((0 <=? 1) && bool_decide (1 ∈ [1])).
Proof.
  apply (slide_window_has_correct 8 3 0 demo_wnd1 [1] 0 1); [lia|lia|apply demo_arrivals| |lia].
  split; [lia|]. split; [intros [?|[]]; lia|lia].
Defined.

(** A sequence number at or above [total_size] is not rejected: the error
    branch of [bdp_slide_wnd_seq_in_window] returns -1 from a [bool] function,
    so the number counts as inside the window and [bdp_slide_wnd_add] accesses
    the bitmap at that index, outside the allocation when the number is past
    its last word. *)
Theorem slide_window_out_of_range_seq_accepted (w : bdp_slide_wnd (list Z)) seq :
  total_size w <= seq -> 64 * zlen (wnd_bits w) <= seq ->
  bdp_slide_wnd_seq_in_window (Some w) seq = true /\ bdp_slide_wnd_add (Some w) seq = None.
Proof.
  intros H1 H2. unfold bdp_slide_wnd_add, bdp_slide_wnd_seq_in_window.
  rewrite (proj2 (Z.leb_le _ seq)) by lia. split; [done|]. simpl negb. cbv iota.
  simpl ba_is_set. unfold ub_bitmap_is_set, urpc_bitmap_is_set, URPC_ULONG_BITS.
  destruct (zget (wnd_bits w) (seq / 64)) eqn:Hg; [|done].
  apply zget_Some_range in Hg. zmod.
Qed.

Example slide_window_out_of_range_seq_accepted_witness :
  bdp_slide_wnd_seq_in_window (Some demo_wnd1) 100 = true /\ bdp_slide_wnd_add (Some demo_wnd1) 100 = None.
Proof.
  apply (slide_window_out_of_range_seq_accepted demo_wnd1 100); unfold zlen; simpl; lia.
Defined.

(** The header suggests [total_size = UINT32_MAX]; there [head + window_size]
    wraps at 32 bits and the last number of the window is refused: with the head
    one before the end of the space and a window of 4096, the number 4094 is
    inside the window [[head, head + 4096)] but tests as outside. *)
Theorem slide_window_u32_max_wraps :
  let T := UINT32_MAX in let h := T - 1 in
  (4094 - h) mod T < 4096 /\ is_seq_in_loop_range h 4096 T 4094 = false.
Proof. split; vm_compute; reflexivity. Qed.
