(* ===== verification/IdGenerator.v ===== *)
(** * Identifier allocators

    - [urpc_id_generator] (urpc/util/urpc_id_generator.c): a bitmap of used
      identifiers behind a table of operations, in two policies: first free
      identifier from a minimum, and first free identifier after the last one
      handed out.
    - [util_id_allocator] (urpc/umq/util_id_generator.c): a counter with a stack
      of released identifiers.

    Each operation runs under the allocator's lock and is one step of the model.
    The theorems give the identifier each operation returns and show that
    outstanding identifiers are always distinct. *)

From S2P Require Import Prelude Bitmap.

Definition ENOSPC : Z := 28.
Definition URPC_SUCCESS : Z := 0.
Definition URPC_ERR_ENOMEM : Z := 690.

(** ** urpc_id_generator *)

(** [gen_bitmap = None] is the [NULL] bitmap of a generator whose
    initialisation failed half-way. *)
Record urpc_bitmap_id_generator := {
  gen_bitmap : option (list Z);
  cur : Z;
  total : Z
}.

Definition urpc_bitmap_id_generator_init (alloc_ok bitmap_ok : bool) (size : Z) :
    Z * option urpc_bitmap_id_generator :=
  if negb alloc_ok then (- URPC_ERR_ENOMEM, None)
  else
    match urpc_bitmap_alloc bitmap_ok size with
    | None => (- URPC_ERR_ENOMEM, Some {| gen_bitmap := None; cur := 0; total := 0 |})
    | Some b => (URPC_SUCCESS, Some {| gen_bitmap := Some b; cur := 0; total := size |})
    end.

(** [min % total] traps for [total = 0]. *)
Definition umod (x d : Z) : option Z := if d =? 0 then None else Some (x mod d).

Definition urpc_bitmap_id_generator_uninit (p : option urpc_bitmap_id_generator) :
    option urpc_bitmap_id_generator :=
  match p with
  | Some {| gen_bitmap := Some _ |} => None
  | _ => p
  end.

Definition urpc_bitmap_id_generator_alloc (g : urpc_bitmap_id_generator) (min : Z) :
    option (Z * option Z * urpc_bitmap_id_generator) :=
  if s32 min <? 0 then Some (- ENOSPC, None, g)
  else
    bit ← umod min (total g);
    bm ← gen_bitmap g;
    bit ← urpc_bitmap_find_next_zero_bit bm (total g) bit;
    let bit := u32 bit in
    if total g <=? bit then Some (- ENOSPC, None, g)
    else
      b ← urpc_bitmap_set bm bit true;
      Some (0, Some bit, {| gen_bitmap := Some b; cur := bit; total := total g |}).

Definition urpc_bitmap_id_generator_alloc_auto_inc (g : urpc_bitmap_id_generator) (min : Z) :
    option (Z * option Z * urpc_bitmap_id_generator) :=
  if s32 min <? 0 then Some (- ENOSPC, None, g)
  else
    min_bit ← umod min (total g);
    bm ← gen_bitmap g;
    let bit := if min_bit <? cur g then cur g else min_bit in
    bit ← urpc_bitmap_find_next_zero_bit bm (total g) bit;
    let bit := u32 bit in
    if total g <=? bit then
      let g := {| gen_bitmap := gen_bitmap g; cur := min_bit; total := total g |} in
      bit ← urpc_bitmap_find_next_zero_bit bm (total g) (cur g);
      let bit := u32 bit in
      if total g <=? bit then Some (- ENOSPC, None, g)
      else
        b ← urpc_bitmap_set bm bit true;
        Some (0, Some bit, {| gen_bitmap := Some b; cur := bit; total := total g |})
    else
      b ← urpc_bitmap_set bm bit true;
      Some (0, Some bit, {| gen_bitmap := Some b; cur := bit; total := total g |}).

Definition urpc_bitmap_id_generator_free (g : urpc_bitmap_id_generator) (id : Z) :
    option urpc_bitmap_id_generator :=
  bm ← gen_bitmap g;
  b ← urpc_bitmap_set bm id false;
  Some {| gen_bitmap := Some b; cur := cur g; total := total g |}.

(** The operations table: the two bitmap policies differ in [alloc] only; a
    generator whose type is unknown keeps its (zeroed) table. *)
Inductive urpc_id_generator_type :=
| URPC_ID_GENERATOR_TYPE_BITMAP
| URPC_ID_GENERATOR_TYPE_BITMAP_AUTO_INC
| URPC_ID_GENERATOR_TYPE_NUM.

#[export] Instance urpc_id_generator_type_eq : EqDecision urpc_id_generator_type.
Proof. solve_decision. Defined.

Record urpc_id_generator := {
  ops : option urpc_id_generator_type;
  private_data : option urpc_bitmap_id_generator
}.

Definition set_id_generator_ops (generator : urpc_id_generator) (type : urpc_id_generator_type) :
    urpc_id_generator :=
  match type with
  | URPC_ID_GENERATOR_TYPE_NUM => generator
  | _ => {| ops := Some type; private_data := private_data generator |}
  end.

Definition urpc_id_generator_init (generator : urpc_id_generator) (alloc_ok bitmap_ok : bool)
    (type : urpc_id_generator_type) (size : Z) : Z * urpc_id_generator :=
  let generator := set_id_generator_ops generator type in
  match ops generator with
  | None => (-1, generator)
  | Some _ =>
      let '(rc, p) := urpc_bitmap_id_generator_init alloc_ok bitmap_ok size in
      (rc, {| ops := ops generator; private_data := p |})
  end.

Definition urpc_id_generator_uninit (generator : urpc_id_generator) : urpc_id_generator :=
  match ops generator with
  | None => generator
  | Some _ =>
      {| ops := ops generator;
         private_data := urpc_bitmap_id_generator_uninit (private_data generator) |}
  end.

Definition urpc_id_generator_alloc (generator : urpc_id_generator) (min : Z) :
    option (Z * option Z * urpc_id_generator) :=
  match ops generator with
  | None => Some (-1, None, generator)
  | Some type =>
      g ← private_data generator;
      '(rc, id, g) ←
        (match type with
         | URPC_ID_GENERATOR_TYPE_BITMAP_AUTO_INC => urpc_bitmap_id_generator_alloc_auto_inc g min
         | _ => urpc_bitmap_id_generator_alloc g min
         end);
      Some (rc, id, {| ops := ops generator; private_data := Some g |})
  end.

Definition urpc_id_generator_free (generator : urpc_id_generator) (id : Z) : option urpc_id_generator :=
  match ops generator with
  | None => Some generator
  | Some _ =>
      g ← private_data generator;
      g ← urpc_bitmap_id_generator_free g id;
      Some {| ops := ops generator; private_data := Some g |}
  end.

(** ** util_id_allocator *)

Record util_id_allocator := {
  available_ids : option (list Z);
  num_available : Z;
  next_id : Z;
  max_num : Z
}.

Definition util_id_allocator_init (a : util_id_allocator) (alloc_ok : bool) (max_num start_id : Z) :
    Z * util_id_allocator :=
  match available_ids a with
  | Some _ => (-1, a)
  | None =>
      if negb alloc_ok then (-1, a)
      else (0, {| available_ids := Some (replicate (Z.to_nat max_num) 0);
                  num_available := 0; next_id := start_id; max_num := max_num |})
  end.

Definition util_id_allocator_uninit (a : util_id_allocator) : util_id_allocator :=
  {| available_ids := None; num_available := num_available a; next_id := next_id a; max_num := max_num a |}.

Definition util_id_allocator_get (a : util_id_allocator) : option (Z * util_id_allocator) :=
  if 0 <? num_available a then
    let n := u32 (num_available a - 1) in
    ids ← available_ids a;
    id ← zget ids n;
    Some (id, {| available_ids := available_ids a; num_available := n;
                 next_id := next_id a; max_num := max_num a |})
  else
    let id := next_id a in
    let next := u32 (next_id a + 1) in
    let next := if max_num a <=? id then u32 (next - 1) else next in
    Some (id, {| available_ids := available_ids a; num_available := num_available a;
                 next_id := next; max_num := max_num a |}).

Definition util_id_allocator_release (a : util_id_allocator) (util_id : Z) : option util_id_allocator :=
  match available_ids a with
  | None => Some a
  | Some ids =>
      if num_available a <? max_num a then
        ids ← zset ids (num_available a) util_id;
        Some {| available_ids := Some ids; num_available := u32 (num_available a + 1);
                next_id := next_id a; max_num := max_num a |}
      else Some a
  end.

(** ** Correctness of the bitmap generators *)

Definition used (g : urpc_bitmap_id_generator) (i : Z) : bool :=
  match gen_bitmap g with Some bm => bit_of bm i | None => false end.

Definition gen_wf (g : urpc_bitmap_id_generator) : Prop :=
  0 < total g < 2 ^ 32 /\ 0 <= cur g < total g /\
  exists bm, gen_bitmap g = Some bm /\ bitmap_wf bm /\ zlen bm = (total g + 63) / 64.

Definition free_id (g : urpc_bitmap_id_generator) (i : Z) : bool := negb (used g i).

(** [g'] is [g] with [i] newly handed out. *)
Definition handed_out (g g' : urpc_bitmap_id_generator) (i : Z) : Prop :=
  gen_wf g' /\ total g' = total g /\ cur g' = i /\
  forall j, 0 <= j -> used g' j = if j =? i then true else used g j.

Lemma s32_sign min : in_u32 min -> (s32 min <? 0) = (2 ^ 31 <=? min).
Proof.
  intros Hm. unfold s32. apply eq_true_iff_eq. rewrite Z.ltb_lt, Z.leb_le.
  destruct (Z.lt_ge_cases min (2 ^ 31)).
  - rewrite Z.mod_small by lia. lia.
  - replace (min + 2 ^ 31) with (min - 2 ^ 31 + 1 * 2 ^ 32) by lia. rewrite Z.mod_add, Z.mod_small by lia. lia.
Qed.

Lemma find_free g bm lo :
  gen_wf g -> gen_bitmap g = Some bm -> 0 <= lo < total g ->
  exists r, urpc_bitmap_find_next_zero_bit bm (total g) lo = Some r /\ u32 r = r
    /\ first_match (free_id g) lo (total g) (Z.min r (total g)).
Proof.
  intros (Ht & _ & bm' & Hbm' & Hwf & Hlen) Hbm Hlo. rewrite Hbm in Hbm'. injection Hbm' as <-.
  destruct (find_next_bit_search bm false (total g) lo) as (r & Hr & Hr0 & Hrb & H1 & H2 & H3); [done|lia|zmod|].
  exists r. split; [done|]. split; [apply u32_small; zmod|].
  unfold free_id, used. rewrite Hbm. split_and!; [lia|lia| |].
  - intros j Hj. specialize (H2 j Hj). unfold bit_is in H2. by destruct (bit_of bm j).
  - intros Hlt. specialize (H3 Hlt). unfold bit_is in H3. by destruct (bit_of bm _).
Qed.

Lemma hand_out g bm i :
  gen_wf g -> gen_bitmap g = Some bm -> 0 <= i < total g ->
  exists b, urpc_bitmap_set bm i true = Some b
    /\ handed_out g {| gen_bitmap := Some b; cur := i; total := total g |} i.
Proof.
  intros (Ht & Hc & bm' & Hbm' & Hwf & Hlen) Hbm Hi. rewrite Hbm in Hbm'. injection Hbm' as <-.
  destruct (urpc_bitmap_set_spec bm i true) as (b & Hb & Hwf' & Hl & Hbit); [done|zmod|].
  exists b. split; [done|]. split_and!; simpl; [|done|done|].
  - split_and!; simpl; [lia|lia|lia|lia|]. exists b. split_and!; [done|done|lia].
  - unfold used. simpl. by rewrite Hbm.
Qed.

Lemma first_match_min_lt P lo hi r : first_match P lo hi (Z.min r hi) -> r < hi -> first_match P lo hi r.
Proof. intros H ?. by rewrite Z.min_l in H by lia. Qed.

Lemma first_match_min_ge P lo hi r :
  first_match P lo hi (Z.min r hi) -> hi <= r -> forall j, lo <= j < hi -> P j = false.
Proof. intros (_ & H & _) ? j Hj. apply H. lia. Qed.

Lemma alloc_outcome g min :
  gen_wf g -> 0 <= min < 2 ^ 31 ->
  exists rc id g', urpc_bitmap_id_generator_alloc g min = Some (rc, id, g') /\
    ((rc = - ENOSPC /\ id = None /\ g' = g
      /\ forall j, min mod total g <= j < total g -> used g j = true)
     \/ exists i, rc = 0 /\ id = Some i /\ i < total g
          /\ first_match (free_id g) (min mod total g) (total g) i /\ handed_out g g' i).
Proof.
  intros Hwf Hmin. pose proof Hwf as (Ht & Hc & bm & Hbm & _).
  unfold urpc_bitmap_id_generator_alloc. rewrite s32_sign, (proj2 (Z.leb_gt _ _)) by lia.
  unfold umod. rewrite (proj2 (Z.eqb_neq (total g) 0)) by lia. cbn [mbind option_bind]. rewrite Hbm.
  pose proof (Z.mod_pos_bound min (total g) ltac:(lia)) as Hm.
  destruct (find_free g bm (min mod total g)) as (r & Hr & Hu & Hfm); [done..|].
  cbn [mbind option_bind]. rewrite Hr. cbn [mbind option_bind]. rewrite Hu.
  destruct (Z.leb_spec (total g) r) as [Hge|Hlt].
  - eexists _, _, _. split; [done|]. left. split_and!; [done..|]. intros j Hj.
    pose proof (first_match_min_ge _ _ _ _ Hfm Hge j Hj) as Hf. unfold free_id in Hf. by destruct (used g j).
  - apply first_match_min_lt in Hfm; [|done].
    destruct (hand_out g bm r) as (b & Hb & Hho); [done|done|destruct Hfm; lia|].
    rewrite Hb. eexists _, _, _. split; [done|]. right. exists r. by split_and!.
Qed.

(** The cyclic policy searches from the last identifier and starts over from
    the minimum. *)
Definition cyclic_choice (g : urpc_bitmap_id_generator) (lo i : Z) : Prop :=
  first_match (free_id g) (Z.max lo (cur g)) (total g) i
  \/ ((forall j, Z.max lo (cur g) <= j < total g -> used g j = true)
      /\ first_match (free_id g) lo (total g) i).

Lemma alloc_auto_inc_outcome g min :
  gen_wf g -> 0 <= min < 2 ^ 31 ->
  exists rc id g', urpc_bitmap_id_generator_alloc_auto_inc g min = Some (rc, id, g') /\
    ((rc = - ENOSPC /\ id = None /\ gen_wf g' /\ gen_bitmap g' = gen_bitmap g /\ total g' = total g
      /\ forall j, min mod total g <= j < total g -> used g j = true)
     \/ exists i, rc = 0 /\ id = Some i /\ i < total g
          /\ cyclic_choice g (min mod total g) i /\ handed_out g g' i).
Proof.
  intros Hwf Hmin. pose proof Hwf as (Ht & Hc & bm & Hbm & Hbwf).
  unfold urpc_bitmap_id_generator_alloc_auto_inc. rewrite s32_sign, (proj2 (Z.leb_gt _ _)) by lia.
  unfold umod. rewrite (proj2 (Z.eqb_neq (total g) 0)) by lia. cbn [mbind option_bind]. rewrite Hbm.
  cbn [mbind option_bind]. pose proof (Z.mod_pos_bound min (total g) ltac:(lia)) as Hm.
  replace (if min mod total g <? cur g then cur g else min mod total g)
    with (Z.max (min mod total g) (cur g)) by (destruct (Z.ltb_spec (min mod total g) (cur g)); lia).
  destruct (find_free g bm (Z.max (min mod total g) (cur g))) as (r & Hr & Hu & Hfm); [done|done|lia|].
  rewrite Hr. cbn [mbind option_bind]. rewrite Hu.
  destruct (Z.leb_spec (total g) r) as [Hge|Hlt].
  - assert (Hfull : forall j, Z.max (min mod total g) (cur g) <= j < total g -> used g j = true).
    { intros j Hj. pose proof (first_match_min_ge _ _ _ _ Hfm Hge j Hj) as Hf.
      unfold free_id in Hf. by destruct (used g j). }
    destruct (find_free g bm (min mod total g)) as (r' & Hr' & Hu' & Hfm'); [done|done|lia|].
    cbn [cur total]. rewrite Hr'. cbn [mbind option_bind]. rewrite Hu'.
    destruct (Z.leb_spec (total g) r') as [Hge'|Hlt'].
    + eexists _, _, _. split; [done|]. left. split_and!; try done.
      * split; simpl; [lia|]. split; [lia|]. exists bm. by destruct Hbwf.
      * intros j Hj. pose proof (first_match_min_ge _ _ _ _ Hfm' Hge' j Hj) as Hf.
        unfold free_id in Hf. by destruct (used g j).
    + apply first_match_min_lt in Hfm'; [|done].
      destruct (hand_out g bm r') as (b & Hb & Hho); [done|done|destruct Hfm'; lia|].
      rewrite Hb. eexists _, _, _. split; [done|]. right. exists r'. split_and!; [done..| |done].
      by right.
  - apply first_match_min_lt in Hfm; [|done].
    destruct (hand_out g bm r) as (b & Hb & Hho); [done|done|destruct Hfm; lia|].
    rewrite Hb. eexists _, _, _. split; [done|]. right. exists r. split_and!; [done..| |done].
    by left.
Qed.

(** ** Distinct identifiers *)

(** [gen_run g L]: a generator initialised for [size] identifiers was used by
    any sequence of allocations and frees; [L] are the identifiers in use. *)
Inductive gen_run (type : urpc_id_generator_type) (size : Z) : urpc_id_generator -> list Z -> Prop :=
| run_init g0 g :
    urpc_id_generator_init g0 true true type size = (URPC_SUCCESS, g) -> gen_run type size g []
| run_alloc g L min id g' :
    gen_run type size g L -> in_u32 min ->
    urpc_id_generator_alloc g min = Some (0, Some id, g') -> gen_run type size g' (id :: L)
| run_alloc_fail g L min rc id g' :
    gen_run type size g L -> in_u32 min -> rc <> 0 ->
    urpc_id_generator_alloc g min = Some (rc, id, g') -> gen_run type size g' L
| run_free g L id L' g' :
    gen_run type size g L -> L ≡ₚ id :: L' ->
    urpc_id_generator_free g id = Some g' -> gen_run type size g' L'.

(** The bitmap marks exactly the identifiers in use. *)
Definition gen_inv (type : urpc_id_generator_type) (size : Z) (g : urpc_id_generator) (L : list Z) : Prop :=
  ops g = Some type /\ NoDup L /\ exists p, private_data g = Some p /\ gen_wf p /\ total p = size
    /\ (forall j, 0 <= j -> used p j = true <-> j ∈ L) /\ Forall (fun j => 0 <= j < size) L.

Lemma negative_min_refused min : in_u32 min -> 2 ^ 31 <= min -> (s32 min <? 0) = true.
Proof. intros Hm Hn. rewrite s32_sign by done. by apply Z.leb_le. Qed.

Lemma bitmap_alloc_cases type p min :
  gen_wf p -> in_u32 min ->
  exists rc id p', (match type with
      | URPC_ID_GENERATOR_TYPE_BITMAP_AUTO_INC => urpc_bitmap_id_generator_alloc_auto_inc p min
      | _ => urpc_bitmap_id_generator_alloc p min end) = Some (rc, id, p') /\
    ((rc = - ENOSPC /\ id = None /\ gen_wf p' /\ gen_bitmap p' = gen_bitmap p /\ total p' = total p)
     \/ exists i, rc = 0 /\ id = Some i /\ 0 <= i < total p /\ used p i = false /\ handed_out p p' i).
Proof.
  intros Hwf Hm. assert (Hfree : forall lo hi i, 0 <= lo -> first_match (free_id p) lo hi i -> i < hi ->
    0 <= i /\ used p i = false).
  { intros lo hi i Hlo (H1 & _ & H3) Hi. specialize (H3 Hi). unfold free_id in H3.
    split; [lia|]. by destruct (used p i). }
  destruct (Z.lt_ge_cases min (2 ^ 31)) as [Hlt|Hge].
  - pose proof Hwf as (Ht & Hc & _). pose proof (Z.mod_pos_bound min (total p) ltac:(lia)).
    destruct (alloc_outcome p min) as (rc1 & id1 & p1 & E1 & H1); [done|lia|].
    destruct (alloc_auto_inc_outcome p min) as (rc2 & id2 & p2 & E2 & H2); [done|lia|].
    destruct type; [exists rc1, id1, p1|exists rc2, id2, p2|exists rc1, id1, p1]; split; [done| |done| |done|].
    1,3: destruct H1 as [(-> & -> & -> & _)|(i & -> & -> & Hi & Hfm & Hho)]; [by left|].
    1,2: right; exists i; destruct (Hfree (min mod total p) (total p) i) as [? ?]; [lia|done|done|];
      split_and!; (done || lia).
    destruct H2 as [(-> & -> & ? & ? & ? & _)|(i & -> & -> & Hi & Hcc & Hho)]; [by left|].
    right. exists i. assert (0 <= i /\ used p i = false) as [? ?].
    { destruct Hcc as [Hfm|[_ Hfm]]; (eapply Hfree; [|exact Hfm|exact Hi]; lia). }
    split_and!; (done || lia).
  - exists (- ENOSPC), None, p. split; [|by left].
    unfold urpc_bitmap_id_generator_alloc_auto_inc, urpc_bitmap_id_generator_alloc.
    rewrite negative_min_refused by done. by destruct type.
Qed.

Lemma urpc_id_generator_alloc_inv type size g L min :
  gen_inv type size g L -> in_u32 min ->
  exists rc id g', urpc_id_generator_alloc g min = Some (rc, id, g') /\
    ((rc = - ENOSPC /\ id = None /\ gen_inv type size g' L)
     \/ exists i, rc = 0 /\ id = Some i /\ gen_inv type size g' (i :: L)).
Proof.
  intros (Hops & Hnd & p & Hp & Hwf & Htot & Hused & Hall) Hm. unfold urpc_id_generator_alloc.
  rewrite Hops, Hp. cbn [mbind option_bind].
  destruct (bitmap_alloc_cases type p min Hwf Hm) as (rc & id & p' & E & Hcase).
  rewrite E. cbn [mbind option_bind]. eexists _, _, _. split; [done|].
  destruct Hcase as [(-> & -> & Hwf' & Hbm & Ht')|(i & -> & -> & Hi & Hfree & Hwf' & Ht' & _ & Hu')].
  - left. split_and!; [done..|]. split; [done|]. split; [done|]. exists p'. simpl.
    split_and!; [done|done|lia| |done]. intros j Hj. unfold used. rewrite Hbm. by apply Hused.
  - right. exists i. split_and!; [done..|]. split; [done|]. split.
    { constructor; [|done]. rewrite <- Hused by lia. by rewrite Hfree. }
    exists p'. simpl. split_and!; [done|done|lia| |].
    + intros j Hj. rewrite Hu' by done. rewrite elem_of_cons, <- Hused by done.
      destruct (Z.eqb_spec j i); intuition congruence.
    + constructor; [lia|done].
Qed.

Lemma urpc_id_generator_free_inv type size g L id L' :
  gen_inv type size g L -> L ≡ₚ id :: L' ->
  exists g', urpc_id_generator_free g id = Some g' /\ gen_inv type size g' L'.
Proof.
  intros (Hops & Hnd & p & Hp & (Ht & Hc & bm & Hbm & Hbwf & Hlen) & Htot & Hused & Hall) Hperm.
  rewrite Hperm in Hnd, Hall. apply NoDup_cons in Hnd as [Hni Hnd]. apply Forall_cons in Hall as [Hid Hall].
  unfold urpc_id_generator_free, urpc_bitmap_id_generator_free. rewrite Hops, Hp. cbn [mbind option_bind].
  rewrite Hbm. cbn [mbind option_bind].
  destruct (urpc_bitmap_set_spec bm id false) as (b & Hb & Hwf' & Hl & Hbit); [done|zmod|].
  rewrite Hb. eexists. split; [done|]. split; [done|]. split; [done|]. eexists. split; [done|]. simpl.
  split_and!; [split; [simpl; lia|split; [simpl; lia|]]|done| |done].
  - exists b. split_and!; [done|done|simpl; lia].
  - intros j Hj. unfold used. simpl. rewrite Hbit by done.
    assert (Hj' : bit_of bm j = true <-> j ∈ id :: L').
    { rewrite <- Hperm, <- Hused by done. unfold used. by rewrite Hbm. }
    rewrite elem_of_cons in Hj'. destruct (Z.eqb_spec j id) as [->|]; [|intuition congruence].
    split; [done|]. intros Hin. done.
Qed.

Lemma gen_run_inv type size g L :
  type <> URPC_ID_GENERATOR_TYPE_NUM -> 0 < size < 2 ^ 32 -> gen_run type size g L -> gen_inv type size g L.
Proof.
  intros Hty Hsz. induction 1 as [g0 g Hi|g L min id g' _ IH Hm Ha|g L min rc id g' _ IH Hm Hrc Ha|g L id L' g' _ IH Hp Hf].
  - unfold urpc_id_generator_init, urpc_bitmap_id_generator_init in Hi.
    destruct (urpc_bitmap_alloc_spec size) as (b & Hb & Hwf & Hl & Hz); [lia|].
    assert (Hops : ops (set_id_generator_ops g0 type) = Some type) by (by destruct type).
    rewrite Hops in Hi. simpl negb in Hi. cbv iota in Hi. rewrite Hb in Hi. injection Hi as <-.
    split; [done|]. split; [constructor|]. eexists. split; [done|].
    split; [split; [simpl; lia|split; [simpl; lia|]]; exists b; split_and!; [done|done|simpl; zmod]|].
    split; [done|]. split; [|constructor]. intros j _. unfold used. simpl. rewrite Hz.
    split; [done|]. by intros ?%elem_of_nil.
  - destruct (urpc_id_generator_alloc_inv _ _ _ _ min IH Hm) as (rc & id' & g'' & E & Hcase).
    rewrite Ha in E. injection E as <- <- <-. destruct Hcase as [(? & ? & _)|(i & _ & [= <-] & Hinv)]; done.
  - destruct (urpc_id_generator_alloc_inv _ _ _ _ min IH Hm) as (rc' & id' & g'' & E & Hcase).
    rewrite Ha in E. injection E as <- <- <-. destruct Hcase as [(? & ? & ?)|(i & ? & _)]; done.
  - destruct (urpc_id_generator_free_inv _ _ _ _ _ _ IH Hp) as (g'' & E & Hinv).
    rewrite Hf in E. by injection E as <-.
Qed.

(** ** Correctness of [util_id_allocator] *)

Inductive uid_run (max start : Z) : util_id_allocator -> list Z -> Prop :=
| uid_init a0 a :
    util_id_allocator_init a0 true max start = (0, a) -> uid_run max start a []
| uid_get a L id a' :
    uid_run max start a L -> util_id_allocator_get a = Some (id, a') -> id < max ->
    uid_run max start a' (id :: L)
| uid_get_exhausted a L id a' :
    uid_run max start a L -> util_id_allocator_get a = Some (id, a') -> max <= id ->
    uid_run max start a' L
| uid_release a L id L' a' :
    uid_run max start a L -> L ≡ₚ id :: L' -> util_id_allocator_release a id = Some a' ->
    uid_run max start a' L'.

(** The stack holds the first [num_available] entries; every identifier ever
    issued is either outstanding or on the stack, once. *)
Definition uid_inv (max start : Z) (a : util_id_allocator) (L : list Z) : Prop :=
  exists ids n, available_ids a = Some ids /\ zlen ids = max /\ max_num a = max
    /\ num_available a = Z.of_nat n /\ (n <= length ids)%nat
    /\ start <= next_id a <= max /\ NoDup (L ++ take n ids)
    /\ Forall (fun i => start <= i < next_id a) (L ++ take n ids)
    /\ zlen L + Z.of_nat n = next_id a - start.

Section uid.
Context (max start : Z) (Hb : 0 <= start <= max) (Hmax : max < 2 ^ 32).

Lemma uid_get_inv a L :
  uid_inv max start a L ->
  exists id a', util_id_allocator_get a = Some (id, a') /\
    ((start <= id < max /\ uid_inv max start a' (id :: L))
     \/ (id = max /\ uid_inv max start a' L /\ zlen L = max - start)).
Proof.
  intros (ids & n & Hids & Hlen & Hmx & Hn & Hle & Hnext & Hnd & Hall & Hcnt).
  unfold util_id_allocator_get, zlen in *. rewrite Hn. destruct n as [|n].
  - simpl. rewrite take_0, app_nil_r in *. eexists _, _. split; [done|]. rewrite Hmx.
    destruct (Z.leb_spec max (next_id a)) as [Hge|Hlt].
    + right. split_and!; [lia| |lia]. exists ids, 0%nat. simpl. rewrite take_0, app_nil_r.
      assert (E : u32 (u32 (next_id a + 1) - 1) = next_id a).
      { unfold u32. rewrite Zminus_mod_idemp_l. replace (next_id a + 1 - 1) with (next_id a) by lia.
        apply Z.mod_small. lia. }
      rewrite E. split_and!; try done; lia.
    + left. split; [lia|]. exists ids, 0%nat. simpl. rewrite take_0, app_nil_r.
      rewrite u32_small by lia. split_and!; try done; try lia.
      * constructor; [|done]. intros Hin. rewrite Forall_forall in Hall. specialize (Hall _ Hin). lia.
      * constructor; [lia|]. eapply Forall_impl; [exact Hall|]. simpl. lia.
      * unfold zlen. simpl. lia.
  - rewrite (proj2 (Z.ltb_lt 0 _)) by lia. rewrite u32_small by lia. rewrite Hids. cbn [mbind option_bind].
    replace (Z.of_nat (S n) - 1) with (Z.of_nat n) by lia.
    destruct (zget_in_range ids (Z.of_nat n)) as [id Hid]; [unfold zlen; lia|].
    rewrite Hid. eexists _, _. split; [done|]. left.
    assert (Ht : take (S n) ids = take n ids ++ [id]).
    { apply take_S_r. unfold zget in Hid. rewrite (proj2 (Z.leb_le 0 _)), Nat2Z.id in Hid by lia. done. }
    assert (Hp : L ++ take (S n) ids ≡ₚ (id :: L) ++ take n ids).
    { rewrite Ht, app_assoc, Permutation_app_comm. done. }
    rewrite Hp in Hnd, Hall. split.
    { apply Forall_cons in Hall as [? _]. lia. }
    exists ids, n. simpl. split_and!; try done; try lia. unfold zlen. simpl. lia.
Qed.

Lemma uid_release_inv a L id L' :
  uid_inv max start a L -> L ≡ₚ id :: L' ->
  exists a', util_id_allocator_release a id = Some a' /\ uid_inv max start a' L'.
Proof.
  intros (ids & n & Hids & Hlen & Hmx & Hn & Hle & Hnext & Hnd & Hall & Hcnt) Hp.
  assert (HL : zlen L = 1 + zlen L') by (unfold zlen; rewrite Hp; simpl; lia).
  unfold util_id_allocator_release. rewrite Hids, Hmx, Hn.
  pose proof (zlen_nonneg L'). rewrite (proj2 (Z.ltb_lt _ max)) by lia.
  destruct (zset_in_range ids (Z.of_nat n) id) as [ids' Hs]; [lia|]. rewrite Hs. cbn [mbind option_bind].
  eexists. split; [done|]. exists ids', (S n). simpl.
  pose proof (zset_len _ _ _ _ Hs) as Hl'. apply zset_Some in Hs as [_ Hs]. rewrite Nat2Z.id in Hs.
  assert (Ht : take (S n) ids' = take n ids ++ [id]).
  { subst ids'. rewrite (take_S_r _ _ id).
    - by rewrite take_insert_ge.
    - apply list_lookup_insert_eq. unfold zlen in *. lia. }
  assert (Hp' : L ++ take n ids ≡ₚ L' ++ take (S n) ids').
  { rewrite Ht, Hp, app_assoc, (Permutation_app_comm (L' ++ take n ids)). done. }
  rewrite u32_small by (unfold zlen in *; lia).
  rewrite Hp' in Hnd, Hall. split_and!; try done; try lia.
  unfold zlen in *. lia.
Qed.

Lemma uid_run_inv a L : uid_run max start a L -> uid_inv max start a L.
Proof.
  induction 1 as [a0 a Hi|a L id a' _ IH Hg Hlt|a L id a' _ IH Hg Hge|a L id L' a' _ IH Hp Hr].
  - unfold util_id_allocator_init in Hi. destruct (available_ids a0); [done|]. injection Hi as <-.
    eexists _, 0%nat. simpl. split_and!; try done; try lia.
    + rewrite zlen_replicate. lia.
    + constructor.
    + unfold zlen. simpl. lia.
  - destruct (uid_get_inv a L IH) as (id' & a'' & E & Hcase). rewrite Hg in E. injection E as <- <-.
    destruct Hcase as [[_ ?]|(-> & _)]; [done|lia].
  - destruct (uid_get_inv a L IH) as (id' & a'' & E & Hcase). rewrite Hg in E. injection E as <- <-.
    destruct Hcase as [[? _]|(_ & ? & _)]; [lia|done].
  - destruct (uid_release_inv a L id L' IH Hp) as (a'' & E & Hinv). rewrite Hr in E. by injection E as <-.
Qed.
End uid.

(** ** Properties *)

(** [urpc_bitmap_id_generator_alloc] returns the smallest free identifier
    from [min mod total] on and marks exactly it; it returns -ENOSPC, leaving the
    generator as it is, exactly when none is free from there on, or when [min]
    is negative as an [int]. *)
Theorem bitmap_generator_alloc_correct g min :
  gen_wf g -> in_u32 min ->
  if 2 ^ 31 <=? min then urpc_bitmap_id_generator_alloc g min = Some (- ENOSPC, None, g)
  else
    (urpc_bitmap_id_generator_alloc g min = Some (- ENOSPC, None, g)
     /\ forall j, min mod total g <= j < total g -> used g j = true)
    \/ exists i g', urpc_bitmap_id_generator_alloc g min = Some (0, Some i, g') /\ i < total g
         /\ first_match (free_id g) (min mod total g) (total g) i /\ handed_out g g' i.
Proof.
  intros Hwf Hm. destruct (Z.leb_spec (2 ^ 31) min) as [Hge|Hlt].
  - unfold urpc_bitmap_id_generator_alloc. by rewrite negative_min_refused by done.
  - destruct (alloc_outcome g min) as (rc & id & g' & E & Hcase); [done|lia|].
    destruct Hcase as [(-> & -> & -> & H)|(i & -> & -> & H)]; [left|right]; eauto.
Qed.

Definition demo_gen : urpc_bitmap_id_generator :=
  {| gen_bitmap := Some [11]; cur := 3; total := 5 |}.

Lemma demo_gen_wf : gen_wf demo_gen.
Proof.
  split; simpl; [lia|]. split; [lia|]. exists [11]. split; [done|].
  split; [split; [repeat constructor; lia|unfold zlen; simpl; lia]|reflexivity].
Qed.

Example bitmap_generator_alloc_correct_witness :
  if 2 ^ 31 <=? 1 then urpc_bitmap_id_generator_alloc demo_gen 1 = Some (- ENOSPC, None, demo_gen)
  else
    (urpc_bitmap_id_generator_alloc demo_gen 1 = Some (- ENOSPC, None, demo_gen)
     /\ forall j, 1 mod total demo_gen <= j < total demo_gen -> used demo_gen j = true)
    \/ exists i g', urpc_bitmap_id_generator_alloc demo_gen 1 = Some (0, Some i, g') /\ i < total demo_gen
         /\ first_match (free_id demo_gen) (1 mod total demo_gen) (total demo_gen) i /\ handed_out demo_gen g' i.
Proof. apply (bitmap_generator_alloc_correct demo_gen 1); [apply demo_gen_wf|lia]. Defined.

(** [urpc_bitmap_id_generator_alloc_auto_inc] returns the first free
    identifier from the larger of the minimum and the last identifier handed out,
    and if there is none the first free one from the minimum; -ENOSPC means every
    identifier from the minimum on is in use. *)
Theorem bitmap_generator_alloc_auto_inc_correct g min :
  gen_wf g -> 0 <= min < 2 ^ 31 ->
  (exists g', urpc_bitmap_id_generator_alloc_auto_inc g min = Some (- ENOSPC, None, g')
     /\ gen_wf g' /\ gen_bitmap g' = gen_bitmap g
     /\ forall j, min mod total g <= j < total g -> used g j = true)
  \/ exists i g', urpc_bitmap_id_generator_alloc_auto_inc g min = Some (0, Some i, g') /\ i < total g
       /\ cyclic_choice g (min mod total g) i /\ handed_out g g' i.
Proof.
  intros Hwf Hm. destruct (alloc_auto_inc_outcome g min) as (rc & id & g' & E & Hcase); [done|lia|].
  destruct Hcase as [(-> & -> & ? & ? & ? & ?)|(i & -> & -> & H)]; [left|right]; eauto 10.
Qed.

Example bitmap_generator_alloc_auto_inc_correct_witness :
  (exists g', urpc_bitmap_id_generator_alloc_auto_inc demo_gen 0 = Some (- ENOSPC, None, g')
     /\ gen_wf g' /\ gen_bitmap g' = gen_bitmap demo_gen
     /\ forall j, 0 mod total demo_gen <= j < total demo_gen -> used demo_gen j = true)
  \/ exists i g', urpc_bitmap_id_generator_alloc_auto_inc demo_gen 0 = Some (0, Some i, g') /\ i < total demo_gen
       /\ cyclic_choice demo_gen (0 mod total demo_gen) i /\ handed_out demo_gen g' i.
Proof. apply (bitmap_generator_alloc_auto_inc_correct demo_gen 0); [apply demo_gen_wf|lia]. Defined.

(** C30: under any sequence of [urpc_id_generator_alloc] and
    [urpc_id_generator_free] calls, in either policy, the identifiers in use are
    pairwise distinct and below the configured size, and a further allocation
    always returns: a new identifier, or -ENOSPC. *)
Theorem id_generator_ids_distinct type size g L :
  type <> URPC_ID_GENERATOR_TYPE_NUM -> 0 < size < 2 ^ 32 -> gen_run type size g L ->
  NoDup L /\ Forall (fun id => 0 <= id < size) L
  /\ forall min, in_u32 min ->
       (exists g', urpc_id_generator_alloc g min = Some (- ENOSPC, None, g'))
       \/ exists id g', urpc_id_generator_alloc g min = Some (0, Some id, g') /\ 0 <= id < size /\ id ∉ L.
Proof.
  intros Hty Hsz Hrun. pose proof (gen_run_inv _ _ _ _ Hty Hsz Hrun) as Hinv.
  pose proof Hinv as (_ & Hnd & p & _ & _ & _ & _ & Hall). split; [done|]. split; [done|].
  intros min Hm. destruct (urpc_id_generator_alloc_inv _ _ _ _ min Hinv Hm) as (rc & id & g' & E & Hcase).
  destruct Hcase as [(-> & -> & _)|(i & -> & -> & _ & Hnd' & p' & _ & _ & _ & _ & Hall')]; [left; eauto|].
  right. exists i, g'. apply NoDup_cons in Hnd' as [? _]. apply Forall_cons in Hall' as [? _]. done.
Qed.

Example id_generator_ids_distinct_witness :
  let g := {| ops := Some URPC_ID_GENERATOR_TYPE_BITMAP_AUTO_INC;
              private_data := Some {| gen_bitmap := Some [1]; cur := 0; total := 2 |} |} in
  NoDup [0] /\ Forall (fun id => 0 <= id < 2) [0]
  /\ forall min, in_u32 min ->
       (exists g', urpc_id_generator_alloc g min = Some (- ENOSPC, None, g'))
       \/ exists id g', urpc_id_generator_alloc g min = Some (0, Some id, g') /\ 0 <= id < 2 /\ id ∉ [0].
Proof.
  intros g. apply (id_generator_ids_distinct URPC_ID_GENERATOR_TYPE_BITMAP_AUTO_INC 2 g [0]); [done|lia|].
  apply (run_alloc _ _ {| ops := Some URPC_ID_GENERATOR_TYPE_BITMAP_AUTO_INC;
    private_data := Some {| gen_bitmap := Some [0]; cur := 0; total := 2 |} |} [] 0 0); [|lia|reflexivity].
  apply (run_init _ _ {| ops := None; private_data := None |}). reflexivity.
Defined.

(** C38: [util_id_allocator]: the identifiers handed out and not yet released are
    pairwise distinct and in [[start_id, max_num)], in any sequence of calls that
    releases only identifiers handed out; an identifier [max_num] is returned
    only when all of them are handed out. *)
Theorem util_id_allocator_ids_distinct max start a L :
  0 <= start <= max -> max < 2 ^ 32 -> uid_run max start a L ->
  NoDup L /\ Forall (fun id => start <= id < max) L
  /\ exists id a', util_id_allocator_get a = Some (id, a')
       /\ ((start <= id < max /\ id ∉ L) \/ (id = max /\ zlen L = max - start)).
Proof.
  intros Hb Hmax Hrun. pose proof (uid_run_inv _ _ Hb Hmax _ _ Hrun) as Hinv.
  pose proof Hinv as (ids & n & _ & _ & _ & _ & _ & Hnext & Hnd & Hall & _).
  apply NoDup_app in Hnd as (Hnd & _ & _). apply Forall_app in Hall as [Hall _].
  split; [done|]. split; [eapply Forall_impl; [exact Hall|simpl; lia]|].
  destruct (uid_get_inv _ _ Hb Hmax a L Hinv) as (id & a' & E & Hcase). exists id, a'. split; [done|].
  destruct Hcase as [[Hid (ids' & n' & _ & _ & _ & _ & _ & _ & Hnd' & _)]|(-> & _ & ?)]; [left|right; done].
  split; [done|]. simpl in Hnd'. apply NoDup_cons in Hnd' as [Hni _].
  rewrite elem_of_app in Hni. naive_solver.
Qed.

Example util_id_allocator_ids_distinct_witness :
  let a := {| available_ids := Some [0; 0]; num_available := 0; next_id := 1; max_num := 2 |} in
  NoDup [0] /\ Forall (fun id => 0 <= id < 2) [0]
  /\ exists id a', util_id_allocator_get a = Some (id, a')
       /\ ((0 <= id < 2 /\ id ∉ [0]) \/ (id = 2 /\ zlen [0] = 2 - 0)).
Proof.
  intros a. apply (util_id_allocator_ids_distinct 2 0 a [0]); [lia|lia|].
  apply (uid_get 2 0 {| available_ids := Some [0; 0]; num_available := 0; next_id := 0; max_num := 2 |} [] 0);
    [|reflexivity|lia].
  apply (uid_init 2 0 {| available_ids := None; num_available := 0; next_id := 0; max_num := 0 |}). reflexivity.
Defined.
