(* ===== verification/Memory.v ===== *)
(** * Byte memory

    A shared-memory region as the list of its bytes, with bounds-checked block
    access and 32-bit little-endian words.  [None] is an access outside the
    region.  Used by the components that lay out structures in shared memory. *)

From S2P Require Import Prelude.

Definition read_bytes (m : list Z) (off n : Z) : option (list Z) :=
  if (0 <=? off) && (0 <=? n) && (off + n <=? zlen m)
  then Some (take (Z.to_nat n) (drop (Z.to_nat off) m)) else None.

Definition write_bytes (m : list Z) (off : Z) (bs : list Z) : option (list Z) :=
  if (0 <=? off) && (off + zlen bs <=? zlen m)
  then Some (take (Z.to_nat off) m ++ bs ++ drop (Z.to_nat off + length bs) m) else None.

Definition le32 (v : Z) : list Z :=
  [v mod 256; (v / 256) mod 256; (v / 65536) mod 256; (v / 16777216) mod 256].

Definition of_le32 (bs : list Z) : Z :=
  match bs with
  | [a; b; c; d] => a + 256 * b + 65536 * c + 16777216 * d
  | _ => 0
  end.

Definition load32 (m : list Z) (off : Z) : option Z :=
  bs ← read_bytes m off 4; Some (of_le32 bs).

Definition store32 (m : list Z) (off v : Z) : option (list Z) :=
  write_bytes m off (le32 (u32 v)).

Definition le64 (v : Z) : list Z := le32 (v mod 2 ^ 32) ++ le32 (v / 2 ^ 32).

Definition store64 (m : list Z) (off v : Z) : option (list Z) := write_bytes m off (le64 v).

Definition load64 (m : list Z) (off : Z) : option Z :=
  lo ← load32 m off; hi ← load32 m (off + 4); Some (lo + 2 ^ 32 * hi).

Lemma of_le32_le32 v : in_u32 v -> of_le32 (le32 v) = v.
Proof. intros Hv. unfold of_le32, le32. zmod. Qed.

Lemma zlen_cons {A} (x : A) l : zlen (x :: l) = 1 + zlen l.
Proof. unfold zlen. simpl. lia. Qed.

(** reading back a 64-bit word *)
Lemma load64_le64 v : in_u64 v -> load64 (le64 v) 0 = Some v.
Proof.
  intros Hv. transitivity (Some (of_le32 (le32 (v mod 2 ^ 32)) + 2 ^ 32 * of_le32 (le32 (v / 2 ^ 32)))); [done|].
  assert (0 <= v / 2 ^ 32 < 2 ^ 32) by (split; [apply Z.div_pos; lia|apply Z.div_lt_upper_bound; lia]).
  rewrite !of_le32_le32 by (done || apply Z.mod_pos_bound; lia). f_equal.
  rewrite (Z.div_mod v (2 ^ 32)) at 3 by lia. lia.
Qed.

#[export] Hint Rewrite @zlen_app @zlen_cons : umdk_rw.

(** ** Bytewise view *)

Lemma read_bytes_Some m off n bs :
  read_bytes m off n = Some bs <->
  0 <= off /\ 0 <= n /\ off + n <= zlen m /\ zlen bs = n /\
  forall i, 0 <= i < n -> zget bs i = zget m (off + i).
Proof.
  unfold read_bytes. destruct (_ && _)%bool eqn:E.
  - breflect. split.
    + intros [= <-]. split_and!; [done..| |].
      * unfold zlen in *. rewrite length_take, length_drop. lia.
      * intros i Hi. unfold zget. rewrite !(proj2 (Z.leb_le 0 _)) by lia.
        rewrite lookup_take_lt by lia. rewrite lookup_drop. f_equal. lia.
    + intros (_ & _ & _ & Hl & Hi). f_equal. apply list_eq. intros k.
      unfold zlen in *. destruct (decide (k < Z.to_nat n)%nat) as [Hk|Hk].
      * specialize (Hi (Z.of_nat k) ltac:(lia)). unfold zget in Hi.
        rewrite !(proj2 (Z.leb_le 0 _)), Nat2Z.id in Hi by lia. rewrite Hi.
        rewrite lookup_take_lt by lia. rewrite lookup_drop. f_equal. lia.
      * rewrite !lookup_ge_None_2; [done|lia|rewrite length_take; lia].
  - split; [done|]. intros (? & ? & ? & _). exfalso. breflect.
    destruct_or?; breflect; destruct_or?; breflect; lia.
Qed.

Lemma read_bytes_in m off n :
  0 <= off -> 0 <= n -> off + n <= zlen m -> exists bs, read_bytes m off n = Some bs /\ zlen bs = n.
Proof.
  intros. unfold read_bytes. rewrite !(proj2 (Z.leb_le _ _)) by done. simpl.
  eexists. split; [done|]. unfold zlen in *. rewrite length_take, length_drop. lia.
Qed.

Lemma write_bytes_Some m off bs m' :
  write_bytes m off bs = Some m' ->
  0 <= off /\ off + zlen bs <= zlen m /\ zlen m' = zlen m /\
  forall i, zget m' i = if (off <=? i) && (i <? off + zlen bs) then zget bs (i - off) else zget m i.
Proof.
  unfold write_bytes. destruct (_ && _)%bool eqn:E; [|done]. breflect. intros [= <-].
  pose proof (zlen_nonneg bs). split_and!; [done|done| |].
  - unfold zlen in *. rewrite !length_app, length_take, length_drop. lia.
  - intros i. unfold zget, zlen in *.
    destruct (Z.leb_spec 0 i) as [Hi|Hi].
    2: { destruct (Z.leb_spec off i); [lia|]. done. }
    destruct (Z.leb_spec off i) as [Ho|Ho]; simpl.
    + rewrite lookup_app_r by (rewrite length_take; lia). rewrite length_take_le by lia.
      destruct (Z.ltb_spec i (off + Z.of_nat (length bs))).
      * rewrite (proj2 (Z.leb_le 0 _)) by lia. rewrite lookup_app_l by lia. f_equal. lia.
      * rewrite lookup_app_r by lia. rewrite lookup_drop. f_equal. lia.
    + rewrite lookup_app_l by (rewrite length_take; lia). apply lookup_take_lt. lia.
Qed.

Lemma write_bytes_in m off bs :
  0 <= off -> off + zlen bs <= zlen m -> exists m', write_bytes m off bs = Some m'.
Proof. intros. unfold write_bytes. rewrite !(proj2 (Z.leb_le _ _)) by done. by eexists. Qed.

(** Reading back what was written, and reading elsewhere. *)
Lemma read_write_same m off bs m' :
  write_bytes m off bs = Some m' -> read_bytes m' off (zlen bs) = Some bs.
Proof.
  intros (H1 & H2 & H3 & H4)%write_bytes_Some. apply read_bytes_Some.
  pose proof (zlen_nonneg bs). split_and!; [lia..|done|]. intros i Hi. rewrite H4.
  rewrite (proj2 (Z.leb_le _ _)), (proj2 (Z.ltb_lt _ _)) by lia. simpl. f_equal. lia.
Qed.

Lemma read_write_disjoint m off bs m' off' n :
  write_bytes m off bs = Some m' -> off' + n <= off \/ off + zlen bs <= off' ->
  read_bytes m' off' n = read_bytes m off' n.
Proof.
  intros (H1 & H2 & H3 & H4)%write_bytes_Some Hd.
  destruct (read_bytes m off' n) as [bs'|] eqn:Hr.
  - apply read_bytes_Some in Hr as (? & ? & ? & ? & Hi). apply read_bytes_Some.
    split_and!; [done|done|lia|done|]. intros i Hir. rewrite Hi, H4 by done.
    destruct (Z.leb_spec off (off' + i)), (Z.ltb_spec (off' + i) (off + zlen bs)); simpl; (done || lia).
  - unfold read_bytes in *. by rewrite H3; destruct (_ && _)%bool.
Qed.

Lemma read_bytes_sub m off n bs k l :
  read_bytes m off n = Some bs -> 0 <= k -> 0 <= l -> k + l <= n ->
  read_bytes m (off + k) l = read_bytes bs k l.
Proof.
  intros (? & ? & ? & Hl & Hi)%read_bytes_Some ? ? ?.
  destruct (read_bytes_in bs k l) as (bs' & Hbs' & Hlen); [lia..|]. rewrite Hbs'.
  apply read_bytes_Some in Hbs' as (_ & _ & _ & _ & Hi'). apply read_bytes_Some.
  split_and!; [lia..|done|]. intros i Hir. rewrite Hi', Hi by lia. f_equal. lia.
Qed.

Lemma load_store32 m off v m' : in_u32 v -> store32 m off v = Some m' -> load32 m' off = Some v.
Proof.
  intros Hv Hs. unfold load32. unfold store32 in Hs. rewrite u32_small in Hs by done.
  apply read_write_same in Hs. change (zlen (le32 v)) with 4 in Hs. rewrite Hs. simpl.
  f_equal. by apply of_le32_le32.
Qed.

Lemma store32_in m off v : 0 <= off -> off + 4 <= zlen m -> exists m', store32 m off v = Some m'.
Proof. intros. by apply write_bytes_in. Qed.

Lemma store32_len m off v m' : store32 m off v = Some m' -> zlen m' = zlen m.
Proof. intros (_ & _ & ? & _)%write_bytes_Some. done. Qed.

Lemma write_bytes_len m off bs m' : write_bytes m off bs = Some m' -> zlen m' = zlen m.
Proof. intros (_ & _ & ? & _)%write_bytes_Some. done. Qed.

Lemma load_write_disjoint m off bs m' off' :
  write_bytes m off bs = Some m' -> off' + 4 <= off \/ off + zlen bs <= off' -> load32 m' off' = load32 m off'.
Proof. intros Hw Hd. unfold load32. by erewrite read_write_disjoint. Qed.

Lemma read_store_disjoint m off v m' off' n :
  store32 m off v = Some m' -> off' + n <= off \/ off + 4 <= off' -> read_bytes m' off' n = read_bytes m off' n.
Proof. intros. by eapply read_write_disjoint. Qed.

Lemma load_store_disjoint m off v m' off' :
  store32 m off v = Some m' -> off' + 4 <= off \/ off + 4 <= off' -> load32 m' off' = load32 m off'.
Proof. intros. by eapply load_write_disjoint. Qed.

(** ** Indexing of concatenations and suffixes *)

Lemma zget_drop {A} (l : list A) n k : 0 <= n -> 0 <= k -> zget (drop (Z.to_nat n) l) k = zget l (n + k).
Proof. intros. unfold zget. rewrite !(proj2 (Z.leb_le 0 _)) by lia. rewrite lookup_drop. f_equal. lia. Qed.

Lemma zget_app_l {A} (l k : list A) i : i < zlen l -> zget (l ++ k) i = zget l i.
Proof.
  intros. unfold zget, zlen in *. destruct (Z.leb_spec 0 i); [|done]. apply lookup_app_l. lia.
Qed.

Lemma zget_app_r {A} (l k : list A) i : zlen l <= i -> zget (l ++ k) i = zget k (i - zlen l).
Proof.
  intros. unfold zget, zlen in *. rewrite !(proj2 (Z.leb_le 0 _)) by lia.
  rewrite lookup_app_r by lia. f_equal. lia.
Qed.

Lemma zget_nil {A} i : zget (@nil A) i = None.
Proof. unfold zget. by destruct (0 <=? i). Qed.

Lemma store32_out m off v : zlen m < off + 4 -> store32 m off v = None.
Proof.
  intros. unfold store32, write_bytes. change (zlen (le32 (u32 v))) with 4.
  rewrite (proj2 (Z.leb_gt (off + 4) _)) by done. by rewrite andb_false_r.
Qed.
