(* ===== verification/MsgRing.v ===== *)
(** * Shared-memory message ring (src/urpc/umq/msg_ring.c)

    Two processes exchange messages through a pair of rings laid out in one
    shared-memory region: [tx ring | rx ring | tx header | rx header].  A ring is
    an array of fixed-size slots, each a 32-bit length followed by the payload;
    its header holds the producer index [pi] and the consumer index [ci].

    The region is a byte list ([Memory]), the pointers of [msg_ring_t] are
    offsets in it, and every access is bounds checked.  The [tx] and [rx]
    functions of the source have the same text with the direction's pointers;
    they are the same definition applied to [tx_view] and [rx_view].

    The theorems: the two rings refine two independent bounded FIFO queues under
    any sequence of operations, batch operations equal their unbatched
    sequences, and two places where the code leaves that contract. *)

From S2P Require Import Prelude Memory.

Definition MAX_MSG_RING_NAME : Z := 31.
Definition NUM_RING_HEADERS : Z := 2.
(** [sizeof(shm_ring_hdr_t)]: pi, ci, cq_event_flag, pending_events. *)
Definition SHM_RING_HDR_SIZE : Z := 16.
(** [sizeof(shm_ring_buf_hdr_t)]: avail_buf_size. *)
Definition SHM_RING_BUF_HDR_SIZE : Z := 4.
Definition EAGAIN : Z := 11.

Record msg_ring_option := {
  opt_owner : bool;
  opt_tx_max_buf_size : Z;
  opt_tx_depth : Z;
  opt_rx_max_buf_size : Z;
  opt_rx_depth : Z;
  opt_addr : option (list Z)   (* caller-provided memory; None is NULL *)
}.

Record msg_ring := {
  msg_ring_name : list Z;
  shm_fd : Z;
  shm_size : Z;
  owner : bool;
  shm_tx_ring : Z;
  shm_tx_ring_hdr : Z;
  tx_max_buf_size : Z;
  tx_depth : Z;
  shm_rx_ring : Z;
  shm_rx_ring_hdr : Z;
  rx_max_buf_size : Z;
  rx_depth : Z
}.

(** One direction of the ring: the pointers and sizes a [tx] or [rx] function reads. *)
Record ring_view := { rv_ring : Z; rv_hdr : Z; rv_max : Z; rv_depth : Z }.

Definition tx_view (h : msg_ring) : ring_view :=
  {| rv_ring := shm_tx_ring h; rv_hdr := shm_tx_ring_hdr h; rv_max := tx_max_buf_size h; rv_depth := tx_depth h |}.

Definition rx_view (h : msg_ring) : ring_view :=
  {| rv_ring := shm_rx_ring h; rv_hdr := shm_rx_ring_hdr h; rv_max := rx_max_buf_size h; rv_depth := rx_depth h |}.

(** ** Creation

    The operating system's answers are arguments; [os_call] records what the
    function asks it to release. *)
Record os_answers := {
  os_calloc : bool;
  os_shm_open : Z;
  os_ftruncate : Z;
  os_mmap : option (list Z)    (* the mapped bytes; None is MAP_FAILED *)
}.

Inductive os_call := OsMunmap (size : Z) | OsClose (fd : Z) | OsUnlink (name : list Z).

Definition layout_size (opt : msg_ring_option) : Z :=
  u32 (opt_tx_depth opt * opt_tx_max_buf_size opt + opt_rx_depth opt * opt_rx_max_buf_size opt
       + NUM_RING_HEADERS * SHM_RING_HDR_SIZE).

(** The pointers set at the end of [msg_ring_create].  The rx header pointer is
    [shm_tx_ring_hdr + sizeof(shm_ring_hdr_t)] on a [shm_ring_hdr_t] pointer,
    so the offset is scaled by the size of the structure. *)
Definition ring_layout (name : list Z) (fd size : Z) (own : bool) (opt : msg_ring_option) : msg_ring :=
  let rx := u32 (opt_tx_depth opt * opt_tx_max_buf_size opt) in
  let txh := rx + u32 (opt_rx_depth opt * opt_rx_max_buf_size opt) in
  {| msg_ring_name := name; shm_fd := fd; shm_size := size; owner := own;
     shm_tx_ring := 0; shm_rx_ring := rx; shm_tx_ring_hdr := txh;
     shm_rx_ring_hdr := txh + SHM_RING_HDR_SIZE * SHM_RING_HDR_SIZE;
     tx_max_buf_size := opt_tx_max_buf_size opt; tx_depth := opt_tx_depth opt;
     rx_max_buf_size := opt_rx_max_buf_size opt; rx_depth := opt_rx_depth opt |}.

Definition init_ring_hdr (m : list Z) (hdr : Z) : option (list Z) :=
  m ← store32 m (hdr + 4) 0;
  m ← store32 m hdr 0;
  m ← store32 m (hdr + 8) 0;
  store32 m (hdr + 12) 0.

Definition init_ring_hdrs (h : msg_ring) (own : bool) (m : list Z) : option (list Z) :=
  if own then m ← init_ring_hdr m (shm_tx_ring_hdr h); init_ring_hdr m (shm_rx_ring_hdr h)
  else Some m.

(** Result: the handle and its memory (None for a NULL return) and the calls
    that release resources; [None] overall is an access outside the region. *)
Definition msg_ring_create (os : os_answers) (name : list Z) (name_len : Z) (opt : msg_ring_option)
  : option (option (msg_ring * list Z) * list os_call) :=
  if MAX_MSG_RING_NAME <? name_len then Some (None, [])
  else if negb (os_calloc os) then Some (None, [])
  else
    name ← read_bytes name 0 name_len;
    match opt_addr opt with
    | Some m =>
        let h := ring_layout name (-1) 0 false opt in
        m ← init_ring_hdrs h (opt_owner opt) m; Some (Some (h, m), [])
    | None =>
        let size := layout_size opt in
        let fd := os_shm_open os in
        let undo := OsClose fd :: (if opt_owner opt then [OsUnlink name] else []) in
        if fd =? -1 then Some (None, [])
        else if opt_owner opt && negb (os_ftruncate os =? 0) then Some (None, undo)
        else match os_mmap os with
             | None => Some (None, undo)
             | Some m =>
                 let h := ring_layout name fd size (opt_owner opt) opt in
                 m ← init_ring_hdrs h (opt_owner opt) m; Some (Some (h, m), [])
             end
    end.

Definition msg_ring_destroy (h : msg_ring) : list os_call :=
  if shm_fd h =? -1 then []
  else [OsMunmap (shm_size h); OsClose (shm_fd h)] ++ (if owner h then [OsUnlink (msg_ring_name h)] else []).

(** ** Producer side *)

(** The copy into a slot: memcpy of the payload, then the length. *)
Definition slot_write (v : ring_view) (m : list Z) (idx : Z) (buf : list Z) (size : Z) : option (list Z) :=
  let slot := rv_ring v + u32 (idx * rv_max v) in
  payload ← read_bytes buf 0 size;
  m ← write_bytes m (slot + SHM_RING_BUF_HDR_SIZE) payload;
  store32 m slot size.

Definition ring_post (v : ring_view) (m : list Z) (buf : list Z) (size : Z) : option (Z * list Z) :=
  let payload_size := u32 (rv_max v - SHM_RING_BUF_HDR_SIZE) in
  if payload_size <? size then Some (-1, m)
  else
    pi ← load32 m (rv_hdr v);
    ci ← load32 m (rv_hdr v + 4);
    if rv_depth v =? 0 then None
    else if u32 (pi + 1) mod rv_depth v =? ci then Some (- EAGAIN, m)
    else
      m ← slot_write v m pi buf size;
      pi ← load32 m (rv_hdr v);
      m ← store32 m (rv_hdr v) (u32 (pi + 1) mod rv_depth v);
      Some (0, m).

(** The copy loop of the batch, from index [i] on; [pi] is re-read from the
    shared header on every turn, as the source does. *)
Fixpoint post_batch_loop (v : ring_view) (m : list Z) (i : Z) (bufs : list (list Z * Z)) : option (list Z) :=
  match bufs with
  | [] => Some m
  | (buf, size) :: rest =>
      pi ← load32 m (rv_hdr v);
      m ← slot_write v m (u32 (pi + i) mod rv_depth v) buf size;
      post_batch_loop v m (u32 (i + 1)) rest
  end.

(** [tx_buf], [tx_buf_size] and [tx_buf_cnt] are one list of buffers with sizes. *)
Definition ring_post_batch (v : ring_view) (m : list Z) (bufs : list (list Z * Z)) : option (Z * list Z) :=
  pi ← load32 m (rv_hdr v);
  ci ← load32 m (rv_hdr v + 4);
  if rv_depth v =? 0 then None
  else
    let left_cnt := u32 (ci + rv_depth v - pi - 1) mod rv_depth v in
    if left_cnt <? zlen bufs then Some (-1, m)
    else
      m ← post_batch_loop v m 0 bufs;
      pi ← load32 m (rv_hdr v);
      m ← store32 m (rv_hdr v) (u32 (pi + zlen bufs) mod rv_depth v);
      Some (0, m).

(** ** Consumer side: the bytes copied out are returned. *)

(** Reading one slot: [Some None] when the caller's buffer is too small. *)
Definition slot_read (v : ring_view) (m : list Z) (idx : Z) (max_buf_size : Z) : option (option (list Z)) :=
  let slot := rv_ring v + u32 (idx * rv_max v) in
  avail ← load32 m slot;
  if max_buf_size <? avail then Some None
  else bs ← read_bytes m (slot + SHM_RING_BUF_HDR_SIZE) avail; Some (Some bs).

Definition ring_poll (v : ring_view) (m : list Z) (max_buf_size : Z) : option (Z * list Z * list Z) :=
  pi ← load32 m (rv_hdr v);
  ci ← load32 m (rv_hdr v + 4);
  if pi =? ci then Some (-1, [], m)
  else
    r ← slot_read v m ci max_buf_size;
    match r with
    | None => Some (-1, [], m)
    | Some bs =>
        if rv_depth v =? 0 then None
        else m ← store32 m (rv_hdr v + 4) (u32 (ci + 1) mod rv_depth v); Some (0, bs, m)
    end.

(** [n] turns of the copy loop from index [i]; the messages copied, and whether
    the loop ran to its end. *)
Fixpoint poll_batch_loop (v : ring_view) (m : list Z) (max_buf_size i : Z) (n : nat) : option (list (list Z) * bool) :=
  match n with
  | O => Some ([], true)
  | S n =>
      ci ← load32 m (rv_hdr v + 4);
      r ← slot_read v m (u32 (ci + i) mod rv_depth v) max_buf_size;
      match r with
      | None => Some ([], false)
      | Some bs => '(l, ok) ← poll_batch_loop v m max_buf_size (u32 (i + 1)) n; Some (bs :: l, ok)
      end
  end.

Definition ring_poll_batch (v : ring_view) (m : list Z) (max_buf_size max_cnt : Z)
  : option (Z * list (list Z) * list Z) :=
  pi ← load32 m (rv_hdr v);
  ci ← load32 m (rv_hdr v + 4);
  if pi =? ci then Some (0, [], m)
  else if rv_depth v =? 0 then None
  else
    let left_cnt := u32 (pi + rv_depth v - ci) mod rv_depth v in
    let cnt := if left_cnt <? max_cnt then left_cnt else max_cnt in
    '(l, ok) ← poll_batch_loop v m max_buf_size 0 (Z.to_nat cnt);
    if ok : bool then m ← store32 m (rv_hdr v + 4) (u32 (ci + cnt) mod rv_depth v); Some (cnt, l, m)
    else Some (-1, l, m).

Definition msg_ring_post_tx (h : msg_ring) := ring_post (tx_view h).
Definition msg_ring_post_tx_batch (h : msg_ring) := ring_post_batch (tx_view h).
Definition msg_ring_poll_tx (h : msg_ring) := ring_poll (tx_view h).
Definition msg_ring_poll_tx_batch (h : msg_ring) := ring_poll_batch (tx_view h).
Definition msg_ring_post_rx (h : msg_ring) := ring_post (rx_view h).
Definition msg_ring_poll_rx (h : msg_ring) := ring_poll (rx_view h).
Definition msg_ring_poll_rx_batch (h : msg_ring) := ring_poll_batch (rx_view h).

(** ** Specification: a bounded FIFO queue of messages *)

Definition bq_post (cap limit : Z) (q : list (list Z)) (buf : list Z) : Z * list (list Z) :=
  if limit <? zlen buf then (-1, q)
  else if zlen q =? cap then (- EAGAIN, q)
  else (0, q ++ [buf]).

Definition bq_post_batch (cap : Z) (q bufs : list (list Z)) : Z * list (list Z) :=
  if cap - zlen q <? zlen bufs then (-1, q) else (0, q ++ bufs).

Definition bq_poll (q : list (list Z)) (max_buf_size : Z) : Z * list Z * list (list Z) :=
  match q with
  | [] => (-1, [], [])
  | x :: q' => if max_buf_size <? zlen x then (-1, [], q) else (0, x, q')
  end.

(** The messages of [l] before the first that does not fit, and whether all fit. *)
Fixpoint fitting (max_buf_size : Z) (l : list (list Z)) : list (list Z) * bool :=
  match l with
  | [] => ([], true)
  | x :: l => if max_buf_size <? zlen x then ([], false)
              else let '(r, ok) := fitting max_buf_size l in (x :: r, ok)
  end.

Definition bq_poll_batch (q : list (list Z)) (max_buf_size max_cnt : Z) : Z * list (list Z) * list (list Z) :=
  let cnt := Z.min (zlen q) max_cnt in
  let '(l, ok) := fitting max_buf_size (take (Z.to_nat cnt) q) in
  if ok then (cnt, l, drop (Z.to_nat cnt) q) else (-1, l, q).

(** ** Representation of a queue by a ring *)

Definition view_ok (v : ring_view) : Prop :=
  0 <= rv_ring v /\ 4 <= rv_max v /\ 1 <= rv_depth v /\ rv_depth v * rv_max v < 2 ^ 32 /\
  rv_ring v + rv_depth v * rv_max v <= rv_hdr v.

Definition slot_off (v : ring_view) (idx : Z) : Z := rv_ring v + idx * rv_max v.

Definition slot_holds (v : ring_view) (m : list Z) (idx : Z) (msg : list Z) : Prop :=
  zlen msg <= rv_max v - 4 /\ load32 m (slot_off v idx) = Some (zlen msg) /\
  read_bytes m (slot_off v idx + 4) (zlen msg) = Some msg.

Definition slots_hold (v : ring_view) (m : list Z) (ci : Z) (q : list (list Z)) : Prop :=
  forall k msg, zget q k = Some msg -> slot_holds v m ((ci + k) mod rv_depth v) msg.

Definition hdr_holds (v : ring_view) (m : list Z) (pi ci : Z) : Prop :=
  load32 m (rv_hdr v) = Some pi /\ load32 m (rv_hdr v + 4) = Some ci /\
  0 <= pi < rv_depth v /\ 0 <= ci < rv_depth v /\ rv_hdr v + 8 <= zlen m.

Definition ring_rep (v : ring_view) (m : list Z) (q : list (list Z)) : Prop :=
  exists pi ci, hdr_holds v m pi ci /\ zlen q < rv_depth v /\ pi = (ci + zlen q) mod rv_depth v /\
                slots_hold v m ci q.

(** [m'] differs from [m] at most inside the ring and the indices of [v]. *)
Definition frame (v : ring_view) (m m' : list Z) : Prop :=
  zlen m' = zlen m /\
  forall off n, 0 <= n ->
    off + n <= rv_ring v \/ rv_ring v + rv_depth v * rv_max v <= off ->
    off + n <= rv_hdr v \/ rv_hdr v + 8 <= off ->
    read_bytes m' off n = read_bytes m off n.

(** The regions of two views do not meet. *)
Definition views_disjoint (v w : ring_view) : Prop :=
  (rv_ring v + rv_depth v * rv_max v <= rv_ring w \/ rv_ring w + rv_depth w * rv_max w <= rv_ring v) /\
  (rv_hdr v + 8 <= rv_hdr w \/ rv_hdr w + 8 <= rv_hdr v) /\
  (rv_ring v + rv_depth v * rv_max v <= rv_hdr w \/ rv_hdr w + 8 <= rv_ring v) /\
  (rv_ring w + rv_depth w * rv_max w <= rv_hdr v \/ rv_hdr v + 8 <= rv_ring w).

Lemma frame_refl v m : frame v m m.
Proof. by split. Qed.

Lemma frame_trans v m1 m2 m3 : frame v m1 m2 -> frame v m2 m3 -> frame v m1 m3.
Proof.
  intros [L1 F1] [L2 F2]. split; [congruence|]. intros off n Hn Hr Hh.
  rewrite F2 by done. by apply F1.
Qed.

#[export] Instance frame_preorder v : PreOrder (frame v).
Proof. split; [intros m; apply frame_refl | intros m1 m2 m3; apply frame_trans]. Qed.

Section view.
Context (v : ring_view) (Hv : view_ok v).

Lemma view_facts :
  0 <= rv_ring v /\ 4 <= rv_max v < 2 ^ 32 /\ 1 <= rv_depth v < 2 ^ 30 /\
  rv_depth v * rv_max v < 2 ^ 32 /\ rv_ring v + rv_depth v * rv_max v <= rv_hdr v.
Proof. destruct Hv as (?&?&?&?&?). split_and!; try done; nia. Qed.

Lemma slot_bounds idx : 0 <= idx < rv_depth v ->
  rv_ring v <= slot_off v idx /\ slot_off v idx + rv_max v <= rv_ring v + rv_depth v * rv_max v /\
  u32 (idx * rv_max v) = idx * rv_max v.
Proof.
  intros Hi. destruct Hv as (?&?&?&?&?). unfold slot_off.
  split_and!; [nia..|]. apply u32_small. split; nia.
Qed.

Lemma slots_apart i j : 0 <= i < rv_depth v -> 0 <= j < rv_depth v -> i <> j ->
  slot_off v i + rv_max v <= slot_off v j \/ slot_off v j + rv_max v <= slot_off v i.
Proof.
  intros Hi Hj Hne. destruct Hv as (?&?&?&?&?). unfold slot_off.
  destruct (Z.lt_ge_cases i j); [left|right]; nia.
Qed.

Lemma idx_range i : 0 <= i mod rv_depth v < rv_depth v.
Proof. destruct Hv as (?&?&?&?&?). apply Z.mod_pos_bound. lia. Qed.

Lemma frame_store_hdr m off x m' :
  store32 m off x = Some m' -> off = rv_hdr v \/ off = rv_hdr v + 4 -> frame v m m'.
Proof.
  intros Hs Ho. split; [by eapply store32_len|]. intros o n Hn Hr Hh.
  eapply read_store_disjoint; [done|]. lia.
Qed.

(** Writing a slot: it holds the message, the others keep theirs. *)
Lemma slot_write_spec m idx buf :
  0 <= idx < rv_depth v -> zlen buf <= rv_max v - 4 -> rv_hdr v + 8 <= zlen m ->
  exists m', slot_write v m idx buf (zlen buf) = Some m' /\ slot_holds v m' idx buf /\ frame v m m' /\
    load32 m' (rv_hdr v) = load32 m (rv_hdr v) /\ load32 m' (rv_hdr v + 4) = load32 m (rv_hdr v + 4) /\
    forall j msg, 0 <= j < rv_depth v -> j <> idx -> slot_holds v m j msg -> slot_holds v m' j msg.
Proof.
  intros Hi Hl Hm. pose proof (slot_bounds idx Hi) as (Hb1 & Hb2 & Hu). pose proof (zlen_nonneg buf) as Hp.
  pose proof view_facts as (?&?&?&?&?).
  unfold slot_write. rewrite Hu. fold (slot_off v idx). unfold SHM_RING_BUF_HDR_SIZE.
  replace (read_bytes buf 0 (zlen buf)) with (Some buf)
    by (symmetry; apply read_bytes_Some; split_and!; [lia..|done|done]).
  cbn [mbind option_bind].
  destruct (write_bytes_in m (slot_off v idx + 4) buf) as [m1 Hm1]; [lia..|].
  rewrite Hm1. cbn [mbind option_bind]. pose proof (write_bytes_len _ _ _ _ Hm1) as Hl1.
  destruct (store32_in m1 (slot_off v idx) (zlen buf)) as [m2 Hm2]; [lia..|].
  exists m2. split; [done|]. split; [|split; [|split; [|split]]].
  - split; [done|]. split; [eapply load_store32; [|done]; lia|].
    rewrite (read_store_disjoint _ _ _ _ _ _ Hm2) by lia. by eapply read_write_same.
  - split; [rewrite (store32_len _ _ _ _ Hm2); done|]. intros off n Hn Hr Hh.
    rewrite (read_store_disjoint _ _ _ _ _ _ Hm2) by lia. eapply read_write_disjoint; [done|lia].
  - rewrite (load_store_disjoint _ _ _ _ _ Hm2) by lia. eapply load_write_disjoint; [done|lia].
  - rewrite (load_store_disjoint _ _ _ _ _ Hm2) by lia. eapply load_write_disjoint; [done|lia].
  - intros j msg Hj Hne (Hg1 & Hg2 & Hg3). pose proof (slots_apart j idx Hj Hi Hne).
    pose proof (zlen_nonneg msg). split; [done|]. split.
    + rewrite (load_store_disjoint _ _ _ _ _ Hm2) by lia. rewrite <- Hg2. eapply load_write_disjoint; [done|lia].
    + rewrite (read_store_disjoint _ _ _ _ _ _ Hm2) by lia. rewrite <- Hg3. eapply read_write_disjoint; [done|lia].
Qed.

(** Appending at the slot after the last message. *)
Lemma slots_append m ci q buf :
  0 <= ci < rv_depth v -> zlen q < rv_depth v -> zlen buf <= rv_max v - 4 -> rv_hdr v + 8 <= zlen m ->
  slots_hold v m ci q ->
  exists m', slot_write v m ((ci + zlen q) mod rv_depth v) buf (zlen buf) = Some m' /\
    slots_hold v m' ci (q ++ [buf]) /\ frame v m m' /\
    load32 m' (rv_hdr v) = load32 m (rv_hdr v) /\ load32 m' (rv_hdr v + 4) = load32 m (rv_hdr v + 4).
Proof.
  intros Hci Hq Hl Hm Hs. pose proof view_facts as (?&?&?&?&?).
  destruct (slot_write_spec m ((ci + zlen q) mod rv_depth v) buf) as (m' & Hw & Hh & Hf & Hp & Hc & Ho);
    [apply idx_range|done|done|].
  exists m'. split_and!; try done. intros k msg Hk.
  pose proof (zget_Some_range _ _ _ Hk) as Hr. rewrite zlen_app in Hr. change (zlen [buf]) with 1 in Hr.
  destruct (decide (k = zlen q)) as [->|Hne].
  - assert (msg = buf) as ->; [|done].
    rewrite zget_app_r, Z.sub_diag in Hk by lia. by injection Hk.
  - apply Ho; [apply idx_range| |].
    + intros E. apply Hne. eapply (mod_offset_inj (rv_depth v) ci); [lia..|exact E].
    + apply Hs. rewrite zget_app_l in Hk by lia. done.
Qed.

Lemma slots_hold_hdr m m' off x ci q :
  store32 m off x = Some m' -> rv_hdr v <= off -> slots_hold v m ci q -> slots_hold v m' ci q.
Proof.
  intros Hs Ho Hq k msg Hk. destruct (Hq k msg Hk) as (H1 & H2 & H3).
  pose proof (slot_bounds _ (idx_range (ci + k))) as (? & ? & _). pose proof (zlen_nonneg msg).
  pose proof view_facts as (?&?&?&?&?).
  split; [done|]. split.
  - rewrite <- H2. eapply load_store_disjoint; [done|lia].
  - rewrite <- H3. eapply read_store_disjoint; [done|lia].
Qed.

(** Storing the producer index publishes [n] more messages. *)
Lemma publish m pi ci q :
  hdr_holds v m pi ci -> zlen q < rv_depth v -> slots_hold v m ci q ->
  exists m', store32 m (rv_hdr v) ((ci + zlen q) mod rv_depth v) = Some m' /\ frame v m m' /\ ring_rep v m' q.
Proof.
  intros (H1 & H2 & H3 & H4 & H5) Hq Hs. pose proof view_facts as (?&?&?&?&?).
  pose proof (idx_range (ci + zlen q)).
  destruct (store32_in m (rv_hdr v) ((ci + zlen q) mod rv_depth v)) as [m' Hm']; [lia..|].
  exists m'. split_and!; [done|eapply frame_store_hdr; [done|by left]|].
  exists ((ci + zlen q) mod rv_depth v), ci. split_and!; [|done|done|eapply slots_hold_hdr; [done|lia|done]].
  split_and!; try (done || lia).
  - eapply load_store32; [lia|done].
  - rewrite <- H2. eapply load_store_disjoint; [done|lia].
  - rewrite (store32_len _ _ _ _ Hm'). lia.
Qed.

(** Storing the consumer index drops the first [n] messages. *)
Lemma consume m ci q n :
  hdr_holds v m ((ci + zlen q) mod rv_depth v) ci -> zlen q < rv_depth v -> slots_hold v m ci q -> 0 <= n <= zlen q ->
  exists m', store32 m (rv_hdr v + 4) ((ci + n) mod rv_depth v) = Some m' /\ frame v m m' /\ ring_rep v m' (drop (Z.to_nat n) q).
Proof.
  intros (H1 & H2 & H3 & H4 & H5) Hq Hs Hn. pose proof view_facts as (?&?&?&?&?).
  pose proof (idx_range (ci + n)).
  destruct (store32_in m (rv_hdr v + 4) ((ci + n) mod rv_depth v)) as [m' Hm']; [lia..|].
  exists m'. split_and!; [done|eapply frame_store_hdr; [done|by right]|].
  assert (zlen (drop (Z.to_nat n) q) = zlen q - n) as Hlen by (unfold zlen in *; rewrite length_drop; lia).
  exists ((ci + zlen q) mod rv_depth v), ((ci + n) mod rv_depth v). split_and!.
  - split_and!; try (done || lia).
    + rewrite <- H1. eapply load_store_disjoint; [done|lia].
    + eapply load_store32; [lia|done].
    + rewrite (store32_len _ _ _ _ Hm'). lia.
  - lia.
  - rewrite Hlen, Zplus_mod_idemp_l. f_equal. lia.
  - eapply (slots_hold_hdr m) in Hs; [|done|lia]. intros k msg Hk.
    rewrite Zplus_mod_idemp_l. rewrite <- Z.add_assoc. apply Hs.
    pose proof (zget_Some_range _ _ _ Hk). rewrite zget_drop in Hk by lia. done.
Qed.

Lemma next_idx ci n : 0 <= ci < rv_depth v -> 0 <= n < 2 ^ 31 ->
  u32 ((ci + n) mod rv_depth v + 1) mod rv_depth v = (ci + (n + 1)) mod rv_depth v.
Proof.
  intros. pose proof (idx_range (ci + n)). pose proof view_facts as (?&?&?&?&?).
  rewrite u32_small by lia. rewrite Zplus_mod_idemp_l. f_equal. lia.
Qed.

Lemma ring_post_refines m q buf :
  ring_rep v m q ->
  exists m', ring_post v m buf (zlen buf) = Some ((bq_post (rv_depth v - 1) (rv_max v - 4) q buf).1, m') /\ ring_rep v m' (bq_post (rv_depth v - 1) (rv_max v - 4) q buf).2 /\ frame v m m'.
Proof.
  intros (pi & ci & Hh & Hq & Hpi & Hs).
  pose proof Hh as (H1 & H2 & H3 & H4 & H5). pose proof view_facts as (?&?&?&?&?). pose proof (zlen_nonneg q).
  assert (ring_rep v m q) as Hrep by (exists pi, ci; done).
  unfold ring_post, bq_post, SHM_RING_BUF_HDR_SIZE. rewrite u32_small by lia.
  destruct (Z.ltb_spec (rv_max v - 4) (zlen buf)); [exists m; done|].
  rewrite H1, H2. cbn [mbind option_bind]. rewrite (proj2 (Z.eqb_neq _ _)) by lia.
  subst pi. rewrite next_idx by lia.
  destruct (Z.eqb_spec ((ci + (zlen q + 1)) mod rv_depth v) ci) as [E|E];
    destruct (Z.eqb_spec (zlen q) (rv_depth v - 1)) as [E'|E'].
  - exists m. done.
  - exfalso. rewrite <- (Z.mod_small ci (rv_depth v)) in E at 2 by lia.
    rewrite <- (Z.add_0_r ci) in E at 2. apply mod_offset_inj in E; lia.
  - exfalso. apply E. rewrite E'. replace (ci + (rv_depth v - 1 + 1)) with (ci + 1 * rv_depth v) by lia.
    rewrite Z.mod_add by lia. apply Z.mod_small. lia.
  - destruct (slots_append m ci q buf) as (m1 & Hw & Hs1 & Hf & Hp1 & Hc1); try done.
    rewrite Hw. cbn [mbind option_bind]. rewrite Hp1, H1. cbn [mbind option_bind]. rewrite next_idx by lia.
    destruct (publish m1 ((ci + zlen q) mod rv_depth v) ci (q ++ [buf])) as (m2 & Hst & Hf2 & Hr); [|rewrite zlen_app|done|].
    { split_and!; try (congruence || lia). destruct Hf as [-> _]. lia. }
    { change (zlen [buf]) with 1. lia. }
    rewrite zlen_app in Hst. change (zlen [buf]) with 1 in Hst. rewrite Hst. cbn [mbind option_bind].
    exists m2. split_and!; [done|done|]. by etrans.
Qed.

Lemma slot_read_spec m idx msg max :
  0 <= idx < rv_depth v -> slot_holds v m idx msg ->
  slot_read v m idx max = Some (if max <? zlen msg then None else Some msg).
Proof.
  intros Hi (H1 & H2 & H3). unfold slot_read. destruct (slot_bounds idx Hi) as (_ & _ & ->).
  fold (slot_off v idx). rewrite H2. cbn [mbind option_bind].
  destruct (max <? zlen msg); [done|]. unfold SHM_RING_BUF_HDR_SIZE. by rewrite H3.
Qed.

Lemma empty_iff ci (q : list (list Z)) : 0 <= ci < rv_depth v -> zlen q < rv_depth v ->
  (ci + zlen q) mod rv_depth v = ci <-> q = [].
Proof.
  intros Hci Hq. pose proof (zlen_nonneg q). split.
  - intros E. rewrite <- (Z.mod_small ci (rv_depth v)) in E at 2 by lia.
    rewrite <- (Z.add_0_r ci) in E at 2. apply mod_offset_inj in E; [|lia..].
    destruct q; [done|]. rewrite zlen_cons in E. pose proof (zlen_nonneg q). lia.
  - intros ->. change (zlen []) with 0. rewrite Z.add_0_r. apply Z.mod_small. lia.
Qed.

Lemma ring_poll_refines m q max :
  ring_rep v m q ->
  exists m', ring_poll v m max = Some ((bq_poll q max).1, m') /\ ring_rep v m' (bq_poll q max).2 /\ frame v m m'.
Proof.
  intros (pi & ci & Hh & Hq & Hpi & Hs).
  pose proof Hh as (H1 & H2 & H3 & H4 & H5). pose proof view_facts as (?&?&?&?&?).
  assert (ring_rep v m q) as Hrep by (exists pi, ci; done).
  unfold ring_poll. rewrite H1, H2. cbn [mbind option_bind]. subst pi.
  destruct (Z.eqb_spec ((ci + zlen q) mod rv_depth v) ci) as [E|E]; rewrite empty_iff in E by done.
  { subst q. exists m. done. }
  destruct q as [|x q]; [done|].
  rewrite (slot_read_spec m ci x max); [|done|].
  2: { specialize (Hs 0 x eq_refl). rewrite Z.add_0_r, Z.mod_small in Hs by lia. done. }
  cbn [mbind option_bind bq_poll]. destruct (max <? zlen x); [exists m; done|].
  rewrite (proj2 (Z.eqb_neq _ _)) by lia. rewrite u32_small by lia.
  destruct (consume m ci (x :: q) 1) as (m' & Hst & Hf & Hr); try done.
  { rewrite zlen_cons. pose proof (zlen_nonneg q). lia. }
  rewrite Hst. cbn [mbind option_bind]. exists m'. done.
Qed.

Lemma post_batch_loop_spec bufs : forall m ci q pre,
  0 <= ci < rv_depth v -> rv_hdr v + 8 <= zlen m ->
  load32 m (rv_hdr v) = Some ((ci + zlen q) mod rv_depth v) ->
  zlen q + zlen pre + zlen bufs < rv_depth v ->
  Forall (fun b => zlen b <= rv_max v - 4) bufs -> slots_hold v m ci (q ++ pre) ->
  exists m', post_batch_loop v m (zlen pre) (map (fun b => (b, zlen b)) bufs) = Some m' /\
    slots_hold v m' ci (q ++ pre ++ bufs) /\ frame v m m' /\
    load32 m' (rv_hdr v) = load32 m (rv_hdr v) /\ load32 m' (rv_hdr v + 4) = load32 m (rv_hdr v + 4).
Proof.
  induction bufs as [|b bufs IH]; intros m ci q pre Hci Hm Hpi Hlen Hall Hs; simpl.
  { exists m. rewrite app_nil_r. done. }
  apply Forall_cons in Hall as [Hb Hall]. rewrite zlen_cons in Hlen. pose proof view_facts as (?&?&?&?&?).
  pose proof (zlen_nonneg bufs). pose proof (zlen_nonneg pre). pose proof (zlen_nonneg q).
  rewrite Hpi. cbn [mbind option_bind]. pose proof (idx_range (ci + zlen q)).
  rewrite (u32_small (_ mod _ + _)), Zplus_mod_idemp_l, <- Z.add_assoc, <- zlen_app by lia.
  destruct (slots_append m ci (q ++ pre) b) as (m1 & Hw & Hs1 & Hf & Hp & Hc); try (done || rewrite zlen_app; lia).
  rewrite Hw. cbn [mbind option_bind]. rewrite u32_small by lia.
  replace (zlen pre + 1) with (zlen (pre ++ [b])) by (rewrite zlen_app; done).
  rewrite <- app_assoc in Hs1.
  destruct (IH m1 ci q (pre ++ [b])) as (m2 & Hl & Hs2 & Hf2 & Hp2 & Hc2); try done.
  { destruct Hf as [-> _]. done. }
  { by rewrite Hp. }
  { rewrite zlen_app. change (zlen [b]) with 1. lia. }
  exists m2. rewrite <- app_assoc in Hs2. split_and!; [done|done|by etrans|congruence|congruence].
Qed.

Lemma ring_post_batch_refines m q bufs :
  ring_rep v m q -> Forall (fun b => zlen b <= rv_max v - 4) bufs ->
  exists m', ring_post_batch v m (map (fun b => (b, zlen b)) bufs) = Some ((bq_post_batch (rv_depth v - 1) q bufs).1, m') /\
    ring_rep v m' (bq_post_batch (rv_depth v - 1) q bufs).2 /\ frame v m m'.
Proof.
  intros (pi & ci & Hh & Hq & Hpi & Hs) Hall.
  pose proof Hh as (H1 & H2 & H3 & H4 & H5). pose proof view_facts as (?&?&?&?&?).
  assert (ring_rep v m q) as Hrep by (exists pi, ci; done).
  pose proof (zlen_nonneg q). pose proof (zlen_nonneg bufs).
  unfold ring_post_batch, bq_post_batch. rewrite H1, H2. cbn [mbind option_bind].
  replace (zlen (map _ bufs)) with (zlen bufs) by (unfold zlen; by rewrite length_map).
  rewrite (proj2 (Z.eqb_neq _ _)) by lia. rewrite (u32_small (_ - 1)) by lia.
  assert ((ci + rv_depth v - pi - 1) mod rv_depth v = rv_depth v - 1 - zlen q) as ->.
  { subst pi. rewrite <- (Z.mod_small (rv_depth v - 1 - zlen q) (rv_depth v)) by lia.
    pose proof (Z.div_mod (ci + zlen q) (rv_depth v) ltac:(lia)) as E.
    replace (ci + rv_depth v - _ - 1) with ((rv_depth v - 1 - zlen q) + ((ci + zlen q) / rv_depth v) * rv_depth v) by lia.
    by apply Z.mod_add; lia. }
  destruct (Z.ltb_spec (rv_depth v - 1 - zlen q) (zlen bufs)); [exists m; done|]. subst pi.
  destruct (post_batch_loop_spec bufs m ci q []) as (m1 & Hl & Hs1 & Hf & Hp & Hc); try done.
  { change (zlen []) with 0. lia. }
  { by rewrite app_nil_r. }
  change (zlen []) with 0 in Hl. rewrite Hl. cbn [mbind option_bind]. rewrite Hp, H1. cbn [mbind option_bind].
  rewrite (u32_small (_ mod _ + _)), Zplus_mod_idemp_l, <- Z.add_assoc, <- zlen_app by lia.
  destruct (publish m1 ((ci + zlen q) mod rv_depth v) ci (q ++ bufs)) as (m2 & Hst & Hf2 & Hr); [|rewrite zlen_app; lia|done|].
  { split_and!; try (congruence || lia). destruct Hf as [-> _]. lia. }
  rewrite Hst. cbn [mbind option_bind]. exists m2. split_and!; [done|done|by etrans].
Qed.

Lemma poll_batch_loop_spec n : forall m ci q max i,
  0 <= ci < rv_depth v -> load32 m (rv_hdr v + 4) = Some ci -> slots_hold v m ci q ->
  0 <= i -> i + Z.of_nat n <= zlen q -> zlen q < rv_depth v ->
  poll_batch_loop v m max i n = Some (fitting max (take n (drop (Z.to_nat i) q))).
Proof.
  induction n as [|n IH]; intros m ci q max i Hci Hl Hs Hi Hn Hq; [done|].
  pose proof view_facts as (?&?&?&?&?). cbn [poll_batch_loop]. rewrite Hl. cbn [mbind option_bind].
  rewrite (u32_small (ci + i)) by lia.
  destruct (zget q i) as [x|] eqn:Hx; [|unfold zget, zlen in *; rewrite (proj2 (Z.leb_le 0 i)) in Hx by lia; apply lookup_ge_None in Hx; lia].
  assert (drop (Z.to_nat i) q = x :: drop (Z.to_nat (i + 1)) q) as ->.
  { unfold zget in Hx. rewrite (proj2 (Z.leb_le 0 i)) in Hx by lia.
    rewrite (drop_S q x) by done. by replace (Z.to_nat (i + 1)) with (S (Z.to_nat i)) by lia. }
  rewrite (slot_read_spec m _ x); [|apply idx_range|by apply Hs]. cbn [mbind option_bind take fitting].
  destruct (max <? zlen x); [done|]. rewrite u32_small by lia.
  rewrite (IH m ci q) by (done || lia). by destruct (fitting _ _).
Qed.

Lemma ring_poll_batch_refines m q max max_cnt :
  ring_rep v m q -> 0 <= max_cnt ->
  exists m', ring_poll_batch v m max max_cnt = Some ((bq_poll_batch q max max_cnt).1, m') /\
    ring_rep v m' (bq_poll_batch q max max_cnt).2 /\ frame v m m'.
Proof.
  intros (pi & ci & Hh & Hq & Hpi & Hs) Hcnt.
  pose proof Hh as (H1 & H2 & H3 & H4 & H5). pose proof view_facts as (?&?&?&?&?).
  assert (ring_rep v m q) as Hrep by (exists pi, ci; done). pose proof (zlen_nonneg q).
  unfold ring_poll_batch. rewrite H1, H2. cbn [mbind option_bind]. subst pi.
  destruct (Z.eqb_spec ((ci + zlen q) mod rv_depth v) ci) as [E|E]; rewrite empty_iff in E by done.
  { subst q. exists m. unfold bq_poll_batch. change (zlen []) with 0. rewrite Z.min_l by lia. done. }
  rewrite (proj2 (Z.eqb_neq _ _)) by lia. rewrite (u32_small (_ - ci)) by lia.
  assert (((ci + zlen q) mod rv_depth v + rv_depth v - ci) mod rv_depth v = zlen q) as ->.
  { rewrite <- (Z.mod_small (zlen q) (rv_depth v)) at 2 by lia.
    pose proof (Z.div_mod (ci + zlen q) (rv_depth v) ltac:(lia)) as E'.
    replace (_ + rv_depth v - ci) with (zlen q + (1 - (ci + zlen q) / rv_depth v) * rv_depth v) by lia.
    apply Z.mod_add. lia. }
  assert ((if zlen q <? max_cnt then zlen q else max_cnt) = Z.min (zlen q) max_cnt) as ->
    by (destruct (Z.ltb_spec (zlen q) max_cnt); lia).
  unfold bq_poll_batch. rewrite (poll_batch_loop_spec _ m ci q) by (done || lia).
  cbn [mbind option_bind]. change (Z.to_nat 0) with 0%nat. rewrite drop_0.
  destruct (fitting max _) as [l ok]. cbn [mbind option_bind]. destruct ok; [|exists m; done].
  rewrite u32_small by lia.
  destruct (consume m ci q (Z.min (zlen q) max_cnt)) as (m' & Hst & Hf & Hr); try (done || lia).
  rewrite Hst. cbn [mbind option_bind]. exists m'. done.
Qed.
End view.

(** A ring outside the footprint of an operation is untouched. *)
Lemma ring_rep_frame v w m m' q :
  view_ok v -> view_ok w -> views_disjoint v w -> frame v m m' -> ring_rep w m q -> ring_rep w m' q.
Proof.
  intros Hv Hw (D1 & D2 & D3 & D4) [Hlen Hf] (pi & ci & (H1 & H2 & H3 & H4 & H5) & Hq & Hpi & Hs).
  assert (forall off, rv_hdr w <= off <= rv_hdr w + 4 -> load32 m' off = load32 m off) as Hld.
  { intros off Ho. unfold load32. rewrite Hf; [done|lia..]. }
  exists pi, ci. split_and!; try done.
  - split_and!; try lia; rewrite Hld by lia; done.
  - intros k msg Hk. destruct (Hs k msg Hk) as (G1 & G2 & G3). pose proof (zlen_nonneg msg).
    pose proof (slot_bounds w Hw _ (idx_range w Hw (ci + k))) as (? & ? & _). destruct Hw as (?&?&?&?&?).
    split; [done|]. unfold load32 in *. rewrite !Hf; try (done || lia).
Qed.

Lemma views_disjoint_sym v w : views_disjoint v w -> views_disjoint w v.
Proof. unfold views_disjoint. tauto. Qed.

(** ** The whole ring: sequences of operations *)

Inductive ring_op :=
| PostTx (buf : list Z) | PostTxBatch (bufs : list (list Z))
| PollTx (max : Z) | PollTxBatch (max cnt : Z)
| PostRx (buf : list Z) | PollRx (max : Z) | PollRxBatch (max cnt : Z).

(** One call: the returned code, the messages copied out, and the memory. *)
Definition ring_step (h : msg_ring) (m : list Z) (op : ring_op) : option (Z * list (list Z) * list Z) :=
  match op with
  | PostTx b => '(r, m) ← msg_ring_post_tx h m b (zlen b); Some (r, [], m)
  | PostTxBatch bs => '(r, m) ← msg_ring_post_tx_batch h m (map (fun b => (b, zlen b)) bs); Some (r, [], m)
  | PollTx max => '(r, b, m) ← msg_ring_poll_tx h m max; Some (r, [b], m)
  | PollTxBatch max cnt => msg_ring_poll_tx_batch h m max cnt
  | PostRx b => '(r, m) ← msg_ring_post_rx h m b (zlen b); Some (r, [], m)
  | PollRx max => '(r, b, m) ← msg_ring_poll_rx h m max; Some (r, [b], m)
  | PollRxBatch max cnt => msg_ring_poll_rx_batch h m max cnt
  end.

(** The same call on two bounded queues. *)
Definition spec_step (h : msg_ring) (s : list (list Z) * list (list Z)) (op : ring_op)
  : Z * list (list Z) * (list (list Z) * list (list Z)) :=
  let '(t, r) := s in
  match op with
  | PostTx b => let '(z, t) := bq_post (tx_depth h - 1) (tx_max_buf_size h - 4) t b in (z, [], (t, r))
  | PostTxBatch bs => let '(z, t) := bq_post_batch (tx_depth h - 1) t bs in (z, [], (t, r))
  | PollTx max => let '(z, b, t) := bq_poll t max in (z, [b], (t, r))
  | PollTxBatch max cnt => let '(z, l, t) := bq_poll_batch t max cnt in (z, l, (t, r))
  | PostRx b => let '(z, r) := bq_post (rx_depth h - 1) (rx_max_buf_size h - 4) r b in (z, [], (t, r))
  | PollRx max => let '(z, b, r) := bq_poll r max in (z, [b], (t, r))
  | PollRxBatch max cnt => let '(z, l, r) := bq_poll_batch r max cnt in (z, l, (t, r))
  end.

Fixpoint ring_run (h : msg_ring) (m : list Z) (ops : list ring_op) : option (list (Z * list (list Z)) * list Z) :=
  match ops with
  | [] => Some ([], m)
  | op :: ops =>
      '(z, l, m) ← ring_step h m op;
      '(rs, m) ← ring_run h m ops; Some ((z, l) :: rs, m)
  end.

Fixpoint spec_run (h : msg_ring) (s : list (list Z) * list (list Z)) (ops : list ring_op) : list (Z * list (list Z)) :=
  match ops with
  | [] => []
  | op :: ops => let '(z, l, s) := spec_step h s op in (z, l) :: spec_run h s ops
  end.

(** What callers keep to: every message of a batch fits the payload of a slot of
    [max] bytes, which the batch post does not check; counts are unsigned. *)
Definition op_ok (max : Z) (op : ring_op) : Prop :=
  match op with
  | PostTxBatch bs => Forall (fun b => zlen b <= max - 4) bs
  | PollTxBatch _ cnt | PollRxBatch _ cnt => 0 <= cnt
  | _ => True
  end.

Record ring_pair (h : msg_ring) (m : list Z) (s : list (list Z) * list (list Z)) : Prop := {
  rp_tx_ok : view_ok (tx_view h);
  rp_rx_ok : view_ok (rx_view h);
  rp_disjoint : views_disjoint (tx_view h) (rx_view h);
  rp_tx : ring_rep (tx_view h) m s.1;
  rp_rx : ring_rep (rx_view h) m s.2
}.

Lemma ring_pair_tx h m m' s t :
  ring_pair h m s -> ring_rep (tx_view h) m' t -> frame (tx_view h) m m' -> ring_pair h m' (t, s.2).
Proof. intros [] ? ?. split; try done. by eapply (ring_rep_frame (tx_view h)). Qed.

Lemma ring_pair_rx h m m' s r :
  ring_pair h m s -> ring_rep (rx_view h) m' r -> frame (rx_view h) m m' -> ring_pair h m' (s.1, r).
Proof. intros [] ? ?. split; try done. eapply (ring_rep_frame (rx_view h)); eauto using views_disjoint_sym. Qed.

Ltac ring_case lem pair :=
  let m' := fresh "m" in let E := fresh "E" in let R := fresh "R" in
  destruct lem as (m' & E & R & ?); [done..|];
  cbn [rv_depth rv_max tx_view rx_view] in E, R; exists m'; revert E R;
  unfold msg_ring_post_tx, msg_ring_post_tx_batch, msg_ring_poll_tx, msg_ring_poll_tx_batch,
    msg_ring_post_rx, msg_ring_poll_rx, msg_ring_poll_rx_batch;
  repeat match goal with
    | |- context [bq_post ?a ?b ?c ?d] => destruct (bq_post a b c d) as [? ?]
    | |- context [bq_post_batch ?a ?b ?c] => destruct (bq_post_batch a b c) as [? ?]
    | |- context [bq_poll_batch ?a ?b ?c] => destruct (bq_poll_batch a b c) as [[? ?] ?]
    | |- context [bq_poll ?a ?b] => destruct (bq_poll a b) as [[? ?] ?]
    end;
  intros E R; cbn [fst snd] in E, R; rewrite E; split; [done|by eapply (pair _ _ m' (_, _))].

Lemma ring_step_refines h m s op :
  ring_pair h m s -> op_ok (tx_max_buf_size h) op ->
  exists m', ring_step h m op = Some ((spec_step h s op).1, m') /\ ring_pair h m' (spec_step h s op).2.
Proof.
  intros Hp Hop. pose proof Hp as [Ht Hr Hd Htx Hrx]. destruct s as [t r]. destruct op; simpl in *.
  - ring_case (ring_post_refines (tx_view h) Ht m t buf Htx) ring_pair_tx.
  - ring_case (ring_post_batch_refines (tx_view h) Ht m t bufs Htx Hop) ring_pair_tx.
  - ring_case (ring_poll_refines (tx_view h) Ht m t max Htx) ring_pair_tx.
  - ring_case (ring_poll_batch_refines (tx_view h) Ht m t max cnt Htx Hop) ring_pair_tx.
  - ring_case (ring_post_refines (rx_view h) Hr m r buf Hrx) ring_pair_rx.
  - ring_case (ring_poll_refines (rx_view h) Hr m r max Hrx) ring_pair_rx.
  - ring_case (ring_poll_batch_refines (rx_view h) Hr m r max cnt Hrx Hop) ring_pair_rx.
Qed.

(** ** Creation and claims *)

Definition opt_ok (opt : msg_ring_option) : Prop :=
  4 <= opt_tx_max_buf_size opt /\ 1 <= opt_tx_depth opt /\
  4 <= opt_rx_max_buf_size opt /\ 1 <= opt_rx_depth opt /\
  opt_tx_depth opt * opt_tx_max_buf_size opt + opt_rx_depth opt * opt_rx_max_buf_size opt
    + NUM_RING_HEADERS * SHM_RING_HDR_SIZE < 2 ^ 32.

Lemma init_ring_hdr_spec m hdr :
  0 <= hdr -> hdr + 16 <= zlen m ->
  exists m', init_ring_hdr m hdr = Some m' /\ zlen m' = zlen m /\
    load32 m' hdr = Some 0 /\ load32 m' (hdr + 4) = Some 0 /\
    forall off, off + 4 <= hdr \/ hdr + 16 <= off -> load32 m' off = load32 m off.
Proof.
  intros H0 Hl. unfold init_ring_hdr.
  destruct (store32_in m (hdr + 4) 0) as [m1 E1]; [lia..|]. pose proof (store32_len _ _ _ _ E1).
  destruct (store32_in m1 hdr 0) as [m2 E2]; [lia..|]. pose proof (store32_len _ _ _ _ E2).
  destruct (store32_in m2 (hdr + 8) 0) as [m3 E3]; [lia..|]. pose proof (store32_len _ _ _ _ E3).
  destruct (store32_in m3 (hdr + 12) 0) as [m4 E4]; [lia..|]. pose proof (store32_len _ _ _ _ E4).
  rewrite E1. cbn [mbind option_bind]. rewrite E2. cbn [mbind option_bind]. rewrite E3. cbn [mbind option_bind].
  exists m4. split_and!; [done|lia|..].
  - rewrite (load_store_disjoint _ _ _ _ _ E4), (load_store_disjoint _ _ _ _ _ E3) by lia.
    by eapply load_store32.
  - rewrite (load_store_disjoint _ _ _ _ _ E4), (load_store_disjoint _ _ _ _ _ E3),
      (load_store_disjoint _ _ _ _ _ E2) by lia. by eapply load_store32.
  - intros off Ho. rewrite (load_store_disjoint _ _ _ _ _ E4), (load_store_disjoint _ _ _ _ _ E3),
      (load_store_disjoint _ _ _ _ _ E2), (load_store_disjoint _ _ _ _ _ E1) by lia. done.
Qed.

Lemma layout_offsets name fd size own opt :
  opt_ok opt ->
  let h := ring_layout name fd size own opt in
  shm_rx_ring h = opt_tx_depth opt * opt_tx_max_buf_size opt /\
  shm_tx_ring_hdr h = shm_rx_ring h + opt_rx_depth opt * opt_rx_max_buf_size opt /\
  shm_rx_ring_hdr h = shm_tx_ring_hdr h + 256 /\
  layout_size opt = shm_tx_ring_hdr h + 32 /\
  view_ok (tx_view h) /\ view_ok (rx_view h) /\ views_disjoint (tx_view h) (rx_view h).
Proof.
  intros (?&?&?&?&Hsum). unfold layout_size, NUM_RING_HEADERS, SHM_RING_HDR_SIZE in *.
  unfold ring_layout, view_ok, views_disjoint, tx_view, rx_view. simpl.
  assert (0 < opt_tx_depth opt * opt_tx_max_buf_size opt) by nia.
  assert (0 < opt_rx_depth opt * opt_rx_max_buf_size opt) by nia.
  rewrite !(u32_small (_ * _)) by lia. rewrite (u32_small (_ + _ + _)) by lia.
  unfold SHM_RING_HDR_SIZE. split_and!; lia.
Qed.

Lemma init_ring_hdrs_pair name fd size own opt m :
  opt_ok opt -> let h := ring_layout name fd size own opt in
  shm_rx_ring_hdr h + 16 <= zlen m ->
  exists m', init_ring_hdrs h true m = Some m' /\ ring_pair h m' ([], []).
Proof.
  intros Hopt h Hm. destruct (layout_offsets name fd size own opt Hopt) as (E1 & E2 & E3 & _ & V1 & V2 & D).
  fold h in E1, E2, E3, V1, V2, D. clearbody h. pose proof V1 as (?&?&?&?&?). pose proof V2 as (?&?&?&?&?).
  cbn [rv_ring rv_hdr rv_max rv_depth tx_view rx_view] in *.
  destruct (init_ring_hdr_spec m (shm_tx_ring_hdr h)) as (m1 & I1 & L1 & P1 & C1 & O1); [lia..|].
  destruct (init_ring_hdr_spec m1 (shm_rx_ring_hdr h)) as (m2 & I2 & L2 & P2 & C2 & O2); [lia..|].
  unfold init_ring_hdrs. rewrite I1. cbn [mbind option_bind]. exists m2. split; [done|].
  assert (forall v, view_ok v -> load32 m2 (rv_hdr v) = Some 0 -> load32 m2 (rv_hdr v + 4) = Some 0 ->
                    rv_hdr v + 8 <= zlen m2 -> ring_rep v m2 []) as Hempty.
  { intros v (?&?&?&?&?) ? ? ?. exists 0, 0. split_and!; [split_and!; (done || lia)|change (zlen []) with 0; lia|done|].
    intros k msg Hk. by rewrite zget_nil in Hk. }
  split; try done; apply Hempty; try done; simpl; try lia; by rewrite O2 by lia.
Qed.

(** The mapping succeeds when the region reaches the rx header the code uses. *)
Definition region_of (os : os_answers) (opt : msg_ring_option) : option (list Z) :=
  match opt_addr opt with
  | Some m => Some m
  | None => if (os_shm_open os =? -1) || (opt_owner opt && negb (os_ftruncate os =? 0)) then None else os_mmap os
  end.

Lemma msg_ring_create_owner os name name_len opt m :
  opt_ok opt -> opt_owner opt = true -> os_calloc os = true ->
  0 <= name_len <= MAX_MSG_RING_NAME -> name_len <= zlen name ->
  region_of os opt = Some m ->
  layout_size opt + 240 <= zlen m ->
  exists h m', msg_ring_create os name name_len opt = Some (Some (h, m'), []) /\ ring_pair h m' ([], []) /\
    tx_depth h = opt_tx_depth opt /\ tx_max_buf_size h = opt_tx_max_buf_size opt /\
    rx_depth h = opt_rx_depth opt /\ rx_max_buf_size h = opt_rx_max_buf_size opt.
Proof.
  intros Hopt Hown Hcal Hn Hnl Hr Hm. unfold msg_ring_create.
  destruct (Z.ltb_spec MAX_MSG_RING_NAME name_len); [lia|]. rewrite Hcal. cbn [negb].
  destruct (read_bytes_in name 0 name_len) as (nm & -> & _); [lia..|]. cbn [mbind option_bind].
  unfold region_of in Hr. rewrite Hown in *.
  destruct (opt_addr opt) as [ma|] eqn:Ha.
  - injection Hr as ->.
    destruct (layout_offsets nm (-1) 0 false opt Hopt) as (_ & _ & E3 & E4 & _).
    destruct (init_ring_hdrs_pair nm (-1) 0 false opt m Hopt) as (m' & -> & Hp); [rewrite E3; lia|].
    cbn [mbind option_bind]. eexists _, m'. split; [done|]. done.
  - destruct (os_shm_open os =? -1) eqn:Hfd; [done|]. cbn [orb andb] in *.
    destruct (negb (os_ftruncate os =? 0)); [done|]. rewrite Hr.
    destruct (layout_offsets nm (os_shm_open os) (layout_size opt) true opt Hopt) as (_ & _ & E3 & E4 & _).
    destruct (init_ring_hdrs_pair nm (os_shm_open os) (layout_size opt) true opt m Hopt) as (m' & -> & Hp); [rewrite E3; lia|].
    cbn [mbind option_bind]. eexists _, m'. split; [done|]. done.
Qed.

Lemma ring_run_refines h ops : forall m s,
  ring_pair h m s -> Forall (op_ok (tx_max_buf_size h)) ops ->
  exists m', ring_run h m ops = Some (spec_run h s ops, m').
Proof.
  induction ops as [|op ops IH]; intros m s Hp Hops; simpl; [by eexists|].
  apply Forall_cons in Hops as [Hop Hops].
  destruct (ring_step_refines h m s op Hp Hop) as (m1 & -> & Hp1).
  destruct (spec_step h s op) as [[z l] s1]. cbn [mbind option_bind fst snd] in *.
  destruct (IH m1 s1 Hp1 Hops) as (m2 & ->). by eexists.
Qed.

(** C29: a ring created by its owner in a region that reaches the rx header behaves
    as two independent bounded FIFO queues of capacity [depth - 1]: every sequence
    of post and poll calls, single or batched, on either direction, in which every
    message of a batched post fits a slot ([op_ok]), runs without leaving the
    region, and returns the codes and messages the two queues return. A single
    post of a message that does not fit is part of such sequences and refused;
    [msg_ring_post_tx_batch_overflow] shows a batch outside the condition. *)
Theorem msg_ring_refines_queues os name name_len opt m ops :
  opt_ok opt -> opt_owner opt = true -> os_calloc os = true ->
  0 <= name_len <= MAX_MSG_RING_NAME -> name_len <= zlen name ->
  region_of os opt = Some m -> layout_size opt + 240 <= zlen m ->
  Forall (op_ok (opt_tx_max_buf_size opt)) ops ->
  exists h m0 m', msg_ring_create os name name_len opt = Some (Some (h, m0), []) /\
    tx_depth h = opt_tx_depth opt /\ tx_max_buf_size h = opt_tx_max_buf_size opt /\
    rx_depth h = opt_rx_depth opt /\ rx_max_buf_size h = opt_rx_max_buf_size opt /\
    ring_run h m0 ops = Some (spec_run h ([], []) ops, m').
Proof.
  intros H1 H2 H3 H4 H5 H6 H7 Hops.
  destruct (msg_ring_create_owner os name name_len opt m H1 H2 H3 H4 H5 H6 H7)
    as (h & m0 & Hc & Hp & E1 & E2 & E3 & E4). rewrite <- E2 in Hops.
  destruct (ring_run_refines h ops m0 ([], []) Hp Hops) as [m' E]. by exists h, m0, m'.
Qed.

Definition sample_opt (addr : option (list Z)) : msg_ring_option :=
  {| opt_owner := true; opt_tx_max_buf_size := 8; opt_tx_depth := 3;
     opt_rx_max_buf_size := 8; opt_rx_depth := 3; opt_addr := addr |}.

Definition sample_os (mm : option (list Z)) : os_answers :=
  {| os_calloc := true; os_shm_open := 5; os_ftruncate := 0; os_mmap := mm |}.

(** a batch of two that fills the tx ring, a third message and a long one refused,
    the rx direction, and the polls *)
Definition sample_ops : list ring_op :=
  [PostTxBatch [[1; 2]; [3]]; PostTx [4]; PostTx [1; 2; 3; 4; 5]; PostRx [9]; PollTxBatch 8 4; PollRxBatch 8 4; PollRx 8].

Lemma msg_ring_refines_queues_witness :
  exists h m0 m', msg_ring_create (sample_os None) [114; 49] 2 (sample_opt (Some (replicate 400 0))) = Some (Some (h, m0), []) /\
    tx_depth h = 3 /\ tx_max_buf_size h = 8 /\ rx_depth h = 3 /\ rx_max_buf_size h = 8 /\
    ring_run h m0 sample_ops = Some (spec_run h ([], []) sample_ops, m').
Proof.
  apply (msg_ring_refines_queues (sample_os None) [114; 49] 2 (sample_opt (Some (replicate 400 0))) (replicate 400 0));
    try done; try (vm_compute; intuition discriminate).
  repeat constructor; vm_compute; discriminate.
Defined.

(** The rx ring header lies 240 bytes past the end of the region the code sizes
    and maps: creating a ring as owner writes outside a mapping of exactly
    [shm_size] bytes (the page granularity of mmap hides it for most sizes). *)
Theorem msg_ring_create_overruns os name name_len opt m :
  opt_ok opt -> opt_owner opt = true -> os_calloc os = true ->
  0 <= name_len <= MAX_MSG_RING_NAME -> name_len <= zlen name ->
  opt_addr opt = None -> os_shm_open os <> -1 -> os_ftruncate os = 0 -> os_mmap os = Some m ->
  zlen m = layout_size opt ->
  msg_ring_create os name name_len opt = None.
Proof.
  intros Hopt Hown Hcal Hn Hnl Ha Hfd Hft Hmm Hm. unfold msg_ring_create.
  destruct (Z.ltb_spec MAX_MSG_RING_NAME name_len); [lia|]. rewrite Hcal, Ha, Hown, Hft, Hmm. cbn [negb].
  destruct (read_bytes_in name 0 name_len) as (nm & -> & _); [lia..|]. cbn [mbind option_bind].
  rewrite (proj2 (Z.eqb_neq _ _)) by done. cbn [andb negb Z.eqb].
  destruct (layout_offsets nm (os_shm_open os) (layout_size opt) true opt Hopt) as (E1 & E2 & E3 & E4 & V1 & _).
  set (h := ring_layout _ _ _ _ _) in *. clearbody h. destruct V1 as (?&?&?&?&?).
  cbn [rv_ring rv_hdr rv_max rv_depth tx_view rx_view] in *. unfold init_ring_hdrs.
  destruct (init_ring_hdr_spec m (shm_tx_ring_hdr h)) as (m1 & -> & L1 & _); [simpl; nia|lia|].
  cbn [mbind option_bind]. unfold init_ring_hdr. rewrite store32_out by lia. done.
Qed.

Lemma msg_ring_create_overruns_witness :
  msg_ring_create (sample_os (Some (replicate 80 0))) [114; 49] 2 (sample_opt None) = None.
Proof.
  apply (msg_ring_create_overruns (sample_os (Some (replicate 80 0))) [114; 49] 2 (sample_opt None) (replicate 80 0));
    try done; vm_compute; intuition discriminate.
Defined.

(** The batch post does not check message sizes: where the single post refuses
    a message longer than a slot's payload with -1, the batch accepts it, writes
    into the following slot, and the consumer receives other bytes. *)
Theorem msg_ring_post_tx_batch_overflow :
  exists h m0 m1,
    msg_ring_create (sample_os None) [114] 1 (sample_opt (Some (replicate 400 0))) = Some (Some (h, m0), []) /\
    msg_ring_post_tx h m0 [1; 2; 3; 4; 5; 6] 6 = Some (-1, m0) /\
    msg_ring_post_tx_batch h m0 [([1; 2; 3; 4; 5; 6], 6); ([7], 1)] = Some (0, m1) /\
    exists m2, msg_ring_poll_tx h m1 8 = Some (0, [1; 2; 3; 4; 1; 0], m2).
Proof. do 3 eexists. split_and!; [vm_compute; reflexivity..|]. eexists. vm_compute. reflexivity. Qed.
