(* ===== verification/FlowControl.v ===== *)
(** * Credit-based flow control of the UB transport
      (src/urpc/umq/umq_ub/core/flow_control)

    A receiver counts the receive buffers it has posted and notifies them to its
    peer in batches; the sender keeps the notified credits in
    [remote_rx_window] and takes from it for every message that consumes a
    receive buffer.  Both counters are 16 bits wide and exist in two variants,
    plain and lock-free (compare-and-swap loops).

    This file models the structure, both families of window operations, the
    lock-free loops as a step relation of interleaved threads, and proves the
    conservation of credits.  The handlers that call them are in [UmqTx]. *)

From S2P Require Import Prelude Memory.

Definition UMQ_FEATURE_ENABLE_FLOW_CONTROL : Z := 16.
Definition UMQ_UB_FLOW_CONTROL_NOTIFY_THR : Z := 4.
Definition UMQ_SUCCESS : Z := 0.
Definition UMQ_FAIL : Z := -1.

(** The function table: cleared by memset, or one of the two families. *)
Inductive window_ops := OpsNull | OpsNonAtomic | OpsAtomic.

Record ub_flow_control := {
  ops : window_ops;
  total_local_rx_posted : Z;
  total_local_rx_notified : Z;
  total_local_rx_posted_error : Z;
  total_remote_rx_received : Z;
  total_remote_rx_consumed : Z;
  total_remote_rx_received_error : Z;
  total_flow_controlled_wr : Z;
  remote_win_buf_addr : Z;
  remote_win_buf_len : Z;
  local_rx_posted : Z;
  remote_rx_window : Z;
  initial_window : Z;
  notify_interval : Z;
  local_tx_depth : Z;
  local_rx_depth : Z;
  remote_tx_depth : Z;
  remote_rx_depth : Z;
  local_set : bool;
  remote_get : bool;
  enabled : bool
}.

Definition set_ops (v : window_ops) (fc : ub_flow_control) : ub_flow_control :=
  {| ops := v; total_local_rx_posted := total_local_rx_posted fc; total_local_rx_notified :=
     total_local_rx_notified fc; total_local_rx_posted_error := total_local_rx_posted_error fc;
     total_remote_rx_received := total_remote_rx_received fc; total_remote_rx_consumed :=
     total_remote_rx_consumed fc; total_remote_rx_received_error := total_remote_rx_received_error fc;
     total_flow_controlled_wr := total_flow_controlled_wr fc; remote_win_buf_addr := remote_win_buf_addr fc;
     remote_win_buf_len := remote_win_buf_len fc; local_rx_posted := local_rx_posted fc; remote_rx_window :=
     remote_rx_window fc; initial_window := initial_window fc; notify_interval := notify_interval fc;
     local_tx_depth := local_tx_depth fc; local_rx_depth := local_rx_depth fc; remote_tx_depth :=
     remote_tx_depth fc; remote_rx_depth := remote_rx_depth fc; local_set := local_set fc; remote_get :=
     remote_get fc; enabled := enabled fc |}.
Definition set_total_local_rx_posted (v : Z) (fc : ub_flow_control) : ub_flow_control :=
  {| ops := ops fc; total_local_rx_posted := v; total_local_rx_notified := total_local_rx_notified fc;
     total_local_rx_posted_error := total_local_rx_posted_error fc; total_remote_rx_received :=
     total_remote_rx_received fc; total_remote_rx_consumed := total_remote_rx_consumed fc;
     total_remote_rx_received_error := total_remote_rx_received_error fc; total_flow_controlled_wr :=
     total_flow_controlled_wr fc; remote_win_buf_addr := remote_win_buf_addr fc; remote_win_buf_len :=
     remote_win_buf_len fc; local_rx_posted := local_rx_posted fc; remote_rx_window := remote_rx_window fc;
     initial_window := initial_window fc; notify_interval := notify_interval fc; local_tx_depth :=
     local_tx_depth fc; local_rx_depth := local_rx_depth fc; remote_tx_depth := remote_tx_depth fc;
     remote_rx_depth := remote_rx_depth fc; local_set := local_set fc; remote_get := remote_get fc; enabled :=
     enabled fc |}.
Definition set_total_local_rx_notified (v : Z) (fc : ub_flow_control) : ub_flow_control :=
  {| ops := ops fc; total_local_rx_posted := total_local_rx_posted fc; total_local_rx_notified := v;
     total_local_rx_posted_error := total_local_rx_posted_error fc; total_remote_rx_received :=
     total_remote_rx_received fc; total_remote_rx_consumed := total_remote_rx_consumed fc;
     total_remote_rx_received_error := total_remote_rx_received_error fc; total_flow_controlled_wr :=
     total_flow_controlled_wr fc; remote_win_buf_addr := remote_win_buf_addr fc; remote_win_buf_len :=
     remote_win_buf_len fc; local_rx_posted := local_rx_posted fc; remote_rx_window := remote_rx_window fc;
     initial_window := initial_window fc; notify_interval := notify_interval fc; local_tx_depth :=
     local_tx_depth fc; local_rx_depth := local_rx_depth fc; remote_tx_depth := remote_tx_depth fc;
     remote_rx_depth := remote_rx_depth fc; local_set := local_set fc; remote_get := remote_get fc; enabled :=
     enabled fc |}.
Definition set_total_local_rx_posted_error (v : Z) (fc : ub_flow_control) : ub_flow_control :=
  {| ops := ops fc; total_local_rx_posted := total_local_rx_posted fc; total_local_rx_notified :=
     total_local_rx_notified fc; total_local_rx_posted_error := v; total_remote_rx_received :=
     total_remote_rx_received fc; total_remote_rx_consumed := total_remote_rx_consumed fc;
     total_remote_rx_received_error := total_remote_rx_received_error fc; total_flow_controlled_wr :=
     total_flow_controlled_wr fc; remote_win_buf_addr := remote_win_buf_addr fc; remote_win_buf_len :=
     remote_win_buf_len fc; local_rx_posted := local_rx_posted fc; remote_rx_window := remote_rx_window fc;
     initial_window := initial_window fc; notify_interval := notify_interval fc; local_tx_depth :=
     local_tx_depth fc; local_rx_depth := local_rx_depth fc; remote_tx_depth := remote_tx_depth fc;
     remote_rx_depth := remote_rx_depth fc; local_set := local_set fc; remote_get := remote_get fc; enabled :=
     enabled fc |}.
Definition set_total_remote_rx_received (v : Z) (fc : ub_flow_control) : ub_flow_control :=
  {| ops := ops fc; total_local_rx_posted := total_local_rx_posted fc; total_local_rx_notified :=
     total_local_rx_notified fc; total_local_rx_posted_error := total_local_rx_posted_error fc;
     total_remote_rx_received := v; total_remote_rx_consumed := total_remote_rx_consumed fc;
     total_remote_rx_received_error := total_remote_rx_received_error fc; total_flow_controlled_wr :=
     total_flow_controlled_wr fc; remote_win_buf_addr := remote_win_buf_addr fc; remote_win_buf_len :=
     remote_win_buf_len fc; local_rx_posted := local_rx_posted fc; remote_rx_window := remote_rx_window fc;
     initial_window := initial_window fc; notify_interval := notify_interval fc; local_tx_depth :=
     local_tx_depth fc; local_rx_depth := local_rx_depth fc; remote_tx_depth := remote_tx_depth fc;
     remote_rx_depth := remote_rx_depth fc; local_set := local_set fc; remote_get := remote_get fc; enabled :=
     enabled fc |}.
Definition set_total_remote_rx_consumed (v : Z) (fc : ub_flow_control) : ub_flow_control :=
  {| ops := ops fc; total_local_rx_posted := total_local_rx_posted fc; total_local_rx_notified :=
     total_local_rx_notified fc; total_local_rx_posted_error := total_local_rx_posted_error fc;
     total_remote_rx_received := total_remote_rx_received fc; total_remote_rx_consumed := v;
     total_remote_rx_received_error := total_remote_rx_received_error fc; total_flow_controlled_wr :=
     total_flow_controlled_wr fc; remote_win_buf_addr := remote_win_buf_addr fc; remote_win_buf_len :=
     remote_win_buf_len fc; local_rx_posted := local_rx_posted fc; remote_rx_window := remote_rx_window fc;
     initial_window := initial_window fc; notify_interval := notify_interval fc; local_tx_depth :=
     local_tx_depth fc; local_rx_depth := local_rx_depth fc; remote_tx_depth := remote_tx_depth fc;
     remote_rx_depth := remote_rx_depth fc; local_set := local_set fc; remote_get := remote_get fc; enabled :=
     enabled fc |}.
Definition set_total_remote_rx_received_error (v : Z) (fc : ub_flow_control) : ub_flow_control :=
  {| ops := ops fc; total_local_rx_posted := total_local_rx_posted fc; total_local_rx_notified :=
     total_local_rx_notified fc; total_local_rx_posted_error := total_local_rx_posted_error fc;
     total_remote_rx_received := total_remote_rx_received fc; total_remote_rx_consumed :=
     total_remote_rx_consumed fc; total_remote_rx_received_error := v; total_flow_controlled_wr :=
     total_flow_controlled_wr fc; remote_win_buf_addr := remote_win_buf_addr fc; remote_win_buf_len :=
     remote_win_buf_len fc; local_rx_posted := local_rx_posted fc; remote_rx_window := remote_rx_window fc;
     initial_window := initial_window fc; notify_interval := notify_interval fc; local_tx_depth :=
     local_tx_depth fc; local_rx_depth := local_rx_depth fc; remote_tx_depth := remote_tx_depth fc;
     remote_rx_depth := remote_rx_depth fc; local_set := local_set fc; remote_get := remote_get fc; enabled :=
     enabled fc |}.
Definition set_total_flow_controlled_wr (v : Z) (fc : ub_flow_control) : ub_flow_control :=
  {| ops := ops fc; total_local_rx_posted := total_local_rx_posted fc; total_local_rx_notified :=
     total_local_rx_notified fc; total_local_rx_posted_error := total_local_rx_posted_error fc;
     total_remote_rx_received := total_remote_rx_received fc; total_remote_rx_consumed :=
     total_remote_rx_consumed fc; total_remote_rx_received_error := total_remote_rx_received_error fc;
     total_flow_controlled_wr := v; remote_win_buf_addr := remote_win_buf_addr fc; remote_win_buf_len :=
     remote_win_buf_len fc; local_rx_posted := local_rx_posted fc; remote_rx_window := remote_rx_window fc;
     initial_window := initial_window fc; notify_interval := notify_interval fc; local_tx_depth :=
     local_tx_depth fc; local_rx_depth := local_rx_depth fc; remote_tx_depth := remote_tx_depth fc;
     remote_rx_depth := remote_rx_depth fc; local_set := local_set fc; remote_get := remote_get fc; enabled :=
     enabled fc |}.
Definition set_remote_win_buf_addr (v : Z) (fc : ub_flow_control) : ub_flow_control :=
  {| ops := ops fc; total_local_rx_posted := total_local_rx_posted fc; total_local_rx_notified :=
     total_local_rx_notified fc; total_local_rx_posted_error := total_local_rx_posted_error fc;
     total_remote_rx_received := total_remote_rx_received fc; total_remote_rx_consumed :=
     total_remote_rx_consumed fc; total_remote_rx_received_error := total_remote_rx_received_error fc;
     total_flow_controlled_wr := total_flow_controlled_wr fc; remote_win_buf_addr := v; remote_win_buf_len :=
     remote_win_buf_len fc; local_rx_posted := local_rx_posted fc; remote_rx_window := remote_rx_window fc;
     initial_window := initial_window fc; notify_interval := notify_interval fc; local_tx_depth :=
     local_tx_depth fc; local_rx_depth := local_rx_depth fc; remote_tx_depth := remote_tx_depth fc;
     remote_rx_depth := remote_rx_depth fc; local_set := local_set fc; remote_get := remote_get fc; enabled :=
     enabled fc |}.
Definition set_remote_win_buf_len (v : Z) (fc : ub_flow_control) : ub_flow_control :=
  {| ops := ops fc; total_local_rx_posted := total_local_rx_posted fc; total_local_rx_notified :=
     total_local_rx_notified fc; total_local_rx_posted_error := total_local_rx_posted_error fc;
     total_remote_rx_received := total_remote_rx_received fc; total_remote_rx_consumed :=
     total_remote_rx_consumed fc; total_remote_rx_received_error := total_remote_rx_received_error fc;
     total_flow_controlled_wr := total_flow_controlled_wr fc; remote_win_buf_addr := remote_win_buf_addr fc;
     remote_win_buf_len := v; local_rx_posted := local_rx_posted fc; remote_rx_window := remote_rx_window fc;
     initial_window := initial_window fc; notify_interval := notify_interval fc; local_tx_depth :=
     local_tx_depth fc; local_rx_depth := local_rx_depth fc; remote_tx_depth := remote_tx_depth fc;
     remote_rx_depth := remote_rx_depth fc; local_set := local_set fc; remote_get := remote_get fc; enabled :=
     enabled fc |}.
Definition set_local_rx_posted (v : Z) (fc : ub_flow_control) : ub_flow_control :=
  {| ops := ops fc; total_local_rx_posted := total_local_rx_posted fc; total_local_rx_notified :=
     total_local_rx_notified fc; total_local_rx_posted_error := total_local_rx_posted_error fc;
     total_remote_rx_received := total_remote_rx_received fc; total_remote_rx_consumed :=
     total_remote_rx_consumed fc; total_remote_rx_received_error := total_remote_rx_received_error fc;
     total_flow_controlled_wr := total_flow_controlled_wr fc; remote_win_buf_addr := remote_win_buf_addr fc;
     remote_win_buf_len := remote_win_buf_len fc; local_rx_posted := v; remote_rx_window := remote_rx_window
     fc; initial_window := initial_window fc; notify_interval := notify_interval fc; local_tx_depth :=
     local_tx_depth fc; local_rx_depth := local_rx_depth fc; remote_tx_depth := remote_tx_depth fc;
     remote_rx_depth := remote_rx_depth fc; local_set := local_set fc; remote_get := remote_get fc; enabled :=
     enabled fc |}.
Definition set_remote_rx_window (v : Z) (fc : ub_flow_control) : ub_flow_control :=
  {| ops := ops fc; total_local_rx_posted := total_local_rx_posted fc; total_local_rx_notified :=
     total_local_rx_notified fc; total_local_rx_posted_error := total_local_rx_posted_error fc;
     total_remote_rx_received := total_remote_rx_received fc; total_remote_rx_consumed :=
     total_remote_rx_consumed fc; total_remote_rx_received_error := total_remote_rx_received_error fc;
     total_flow_controlled_wr := total_flow_controlled_wr fc; remote_win_buf_addr := remote_win_buf_addr fc;
     remote_win_buf_len := remote_win_buf_len fc; local_rx_posted := local_rx_posted fc; remote_rx_window :=
     v; initial_window := initial_window fc; notify_interval := notify_interval fc; local_tx_depth :=
     local_tx_depth fc; local_rx_depth := local_rx_depth fc; remote_tx_depth := remote_tx_depth fc;
     remote_rx_depth := remote_rx_depth fc; local_set := local_set fc; remote_get := remote_get fc; enabled :=
     enabled fc |}.
Definition set_initial_window (v : Z) (fc : ub_flow_control) : ub_flow_control :=
  {| ops := ops fc; total_local_rx_posted := total_local_rx_posted fc; total_local_rx_notified :=
     total_local_rx_notified fc; total_local_rx_posted_error := total_local_rx_posted_error fc;
     total_remote_rx_received := total_remote_rx_received fc; total_remote_rx_consumed :=
     total_remote_rx_consumed fc; total_remote_rx_received_error := total_remote_rx_received_error fc;
     total_flow_controlled_wr := total_flow_controlled_wr fc; remote_win_buf_addr := remote_win_buf_addr fc;
     remote_win_buf_len := remote_win_buf_len fc; local_rx_posted := local_rx_posted fc; remote_rx_window :=
     remote_rx_window fc; initial_window := v; notify_interval := notify_interval fc; local_tx_depth :=
     local_tx_depth fc; local_rx_depth := local_rx_depth fc; remote_tx_depth := remote_tx_depth fc;
     remote_rx_depth := remote_rx_depth fc; local_set := local_set fc; remote_get := remote_get fc; enabled :=
     enabled fc |}.
Definition set_notify_interval (v : Z) (fc : ub_flow_control) : ub_flow_control :=
  {| ops := ops fc; total_local_rx_posted := total_local_rx_posted fc; total_local_rx_notified :=
     total_local_rx_notified fc; total_local_rx_posted_error := total_local_rx_posted_error fc;
     total_remote_rx_received := total_remote_rx_received fc; total_remote_rx_consumed :=
     total_remote_rx_consumed fc; total_remote_rx_received_error := total_remote_rx_received_error fc;
     total_flow_controlled_wr := total_flow_controlled_wr fc; remote_win_buf_addr := remote_win_buf_addr fc;
     remote_win_buf_len := remote_win_buf_len fc; local_rx_posted := local_rx_posted fc; remote_rx_window :=
     remote_rx_window fc; initial_window := initial_window fc; notify_interval := v; local_tx_depth :=
     local_tx_depth fc; local_rx_depth := local_rx_depth fc; remote_tx_depth := remote_tx_depth fc;
     remote_rx_depth := remote_rx_depth fc; local_set := local_set fc; remote_get := remote_get fc; enabled :=
     enabled fc |}.
Definition set_local_tx_depth (v : Z) (fc : ub_flow_control) : ub_flow_control :=
  {| ops := ops fc; total_local_rx_posted := total_local_rx_posted fc; total_local_rx_notified :=
     total_local_rx_notified fc; total_local_rx_posted_error := total_local_rx_posted_error fc;
     total_remote_rx_received := total_remote_rx_received fc; total_remote_rx_consumed :=
     total_remote_rx_consumed fc; total_remote_rx_received_error := total_remote_rx_received_error fc;
     total_flow_controlled_wr := total_flow_controlled_wr fc; remote_win_buf_addr := remote_win_buf_addr fc;
     remote_win_buf_len := remote_win_buf_len fc; local_rx_posted := local_rx_posted fc; remote_rx_window :=
     remote_rx_window fc; initial_window := initial_window fc; notify_interval := notify_interval fc;
     local_tx_depth := v; local_rx_depth := local_rx_depth fc; remote_tx_depth := remote_tx_depth fc;
     remote_rx_depth := remote_rx_depth fc; local_set := local_set fc; remote_get := remote_get fc; enabled :=
     enabled fc |}.
Definition set_local_rx_depth (v : Z) (fc : ub_flow_control) : ub_flow_control :=
  {| ops := ops fc; total_local_rx_posted := total_local_rx_posted fc; total_local_rx_notified :=
     total_local_rx_notified fc; total_local_rx_posted_error := total_local_rx_posted_error fc;
     total_remote_rx_received := total_remote_rx_received fc; total_remote_rx_consumed :=
     total_remote_rx_consumed fc; total_remote_rx_received_error := total_remote_rx_received_error fc;
     total_flow_controlled_wr := total_flow_controlled_wr fc; remote_win_buf_addr := remote_win_buf_addr fc;
     remote_win_buf_len := remote_win_buf_len fc; local_rx_posted := local_rx_posted fc; remote_rx_window :=
     remote_rx_window fc; initial_window := initial_window fc; notify_interval := notify_interval fc;
     local_tx_depth := local_tx_depth fc; local_rx_depth := v; remote_tx_depth := remote_tx_depth fc;
     remote_rx_depth := remote_rx_depth fc; local_set := local_set fc; remote_get := remote_get fc; enabled :=
     enabled fc |}.
Definition set_remote_tx_depth (v : Z) (fc : ub_flow_control) : ub_flow_control :=
  {| ops := ops fc; total_local_rx_posted := total_local_rx_posted fc; total_local_rx_notified :=
     total_local_rx_notified fc; total_local_rx_posted_error := total_local_rx_posted_error fc;
     total_remote_rx_received := total_remote_rx_received fc; total_remote_rx_consumed :=
     total_remote_rx_consumed fc; total_remote_rx_received_error := total_remote_rx_received_error fc;
     total_flow_controlled_wr := total_flow_controlled_wr fc; remote_win_buf_addr := remote_win_buf_addr fc;
     remote_win_buf_len := remote_win_buf_len fc; local_rx_posted := local_rx_posted fc; remote_rx_window :=
     remote_rx_window fc; initial_window := initial_window fc; notify_interval := notify_interval fc;
     local_tx_depth := local_tx_depth fc; local_rx_depth := local_rx_depth fc; remote_tx_depth := v;
     remote_rx_depth := remote_rx_depth fc; local_set := local_set fc; remote_get := remote_get fc; enabled :=
     enabled fc |}.
Definition set_remote_rx_depth (v : Z) (fc : ub_flow_control) : ub_flow_control :=
  {| ops := ops fc; total_local_rx_posted := total_local_rx_posted fc; total_local_rx_notified :=
     total_local_rx_notified fc; total_local_rx_posted_error := total_local_rx_posted_error fc;
     total_remote_rx_received := total_remote_rx_received fc; total_remote_rx_consumed :=
     total_remote_rx_consumed fc; total_remote_rx_received_error := total_remote_rx_received_error fc;
     total_flow_controlled_wr := total_flow_controlled_wr fc; remote_win_buf_addr := remote_win_buf_addr fc;
     remote_win_buf_len := remote_win_buf_len fc; local_rx_posted := local_rx_posted fc; remote_rx_window :=
     remote_rx_window fc; initial_window := initial_window fc; notify_interval := notify_interval fc;
     local_tx_depth := local_tx_depth fc; local_rx_depth := local_rx_depth fc; remote_tx_depth :=
     remote_tx_depth fc; remote_rx_depth := v; local_set := local_set fc; remote_get := remote_get fc; enabled
     := enabled fc |}.
Definition set_local_set (v : bool) (fc : ub_flow_control) : ub_flow_control :=
  {| ops := ops fc; total_local_rx_posted := total_local_rx_posted fc; total_local_rx_notified :=
     total_local_rx_notified fc; total_local_rx_posted_error := total_local_rx_posted_error fc;
     total_remote_rx_received := total_remote_rx_received fc; total_remote_rx_consumed :=
     total_remote_rx_consumed fc; total_remote_rx_received_error := total_remote_rx_received_error fc;
     total_flow_controlled_wr := total_flow_controlled_wr fc; remote_win_buf_addr := remote_win_buf_addr fc;
     remote_win_buf_len := remote_win_buf_len fc; local_rx_posted := local_rx_posted fc; remote_rx_window :=
     remote_rx_window fc; initial_window := initial_window fc; notify_interval := notify_interval fc;
     local_tx_depth := local_tx_depth fc; local_rx_depth := local_rx_depth fc; remote_tx_depth :=
     remote_tx_depth fc; remote_rx_depth := remote_rx_depth fc; local_set := v; remote_get := remote_get fc;
     enabled := enabled fc |}.
Definition set_remote_get (v : bool) (fc : ub_flow_control) : ub_flow_control :=
  {| ops := ops fc; total_local_rx_posted := total_local_rx_posted fc; total_local_rx_notified :=
     total_local_rx_notified fc; total_local_rx_posted_error := total_local_rx_posted_error fc;
     total_remote_rx_received := total_remote_rx_received fc; total_remote_rx_consumed :=
     total_remote_rx_consumed fc; total_remote_rx_received_error := total_remote_rx_received_error fc;
     total_flow_controlled_wr := total_flow_controlled_wr fc; remote_win_buf_addr := remote_win_buf_addr fc;
     remote_win_buf_len := remote_win_buf_len fc; local_rx_posted := local_rx_posted fc; remote_rx_window :=
     remote_rx_window fc; initial_window := initial_window fc; notify_interval := notify_interval fc;
     local_tx_depth := local_tx_depth fc; local_rx_depth := local_rx_depth fc; remote_tx_depth :=
     remote_tx_depth fc; remote_rx_depth := remote_rx_depth fc; local_set := local_set fc; remote_get := v;
     enabled := enabled fc |}.
Definition set_enabled (v : bool) (fc : ub_flow_control) : ub_flow_control :=
  {| ops := ops fc; total_local_rx_posted := total_local_rx_posted fc; total_local_rx_notified :=
     total_local_rx_notified fc; total_local_rx_posted_error := total_local_rx_posted_error fc;
     total_remote_rx_received := total_remote_rx_received fc; total_remote_rx_consumed :=
     total_remote_rx_consumed fc; total_remote_rx_received_error := total_remote_rx_received_error fc;
     total_flow_controlled_wr := total_flow_controlled_wr fc; remote_win_buf_addr := remote_win_buf_addr fc;
     remote_win_buf_len := remote_win_buf_len fc; local_rx_posted := local_rx_posted fc; remote_rx_window :=
     remote_rx_window fc; initial_window := initial_window fc; notify_interval := notify_interval fc;
     local_tx_depth := local_tx_depth fc; local_rx_depth := local_rx_depth fc; remote_tx_depth :=
     remote_tx_depth fc; remote_rx_depth := remote_rx_depth fc; local_set := local_set fc; remote_get :=
     remote_get fc; enabled := v |}.

(** ** Plain operations: the returned value and the new state. *)

Definition remote_rx_window_inc_non_atomic (fc : ub_flow_control) (new_win : Z) : Z * ub_flow_control :=
  let win_sum := remote_rx_window fc + new_win in
  if UINT16_MAX <? win_sum then
    (remote_rx_window fc, set_total_remote_rx_received_error (u64 (total_remote_rx_received_error fc + new_win)) fc)
  else
    let fc := set_total_remote_rx_received (u64 (total_remote_rx_received fc + new_win)) fc in
    let fc := set_remote_rx_window (u16 win_sum) fc in
    (remote_rx_window fc, fc).

Definition remote_rx_window_exchange_non_atomic (fc : ub_flow_control) : Z * ub_flow_control :=
  let win := remote_rx_window fc in
  let fc := set_total_remote_rx_consumed (u64 (total_remote_rx_consumed fc + win)) fc in
  (win, set_remote_rx_window 0 fc).

Definition remote_rx_window_dec_non_atomic (fc : ub_flow_control) (required_win : Z) : Z * ub_flow_control :=
  if required_win <=? remote_rx_window fc then
    let fc := set_remote_rx_window (u16 (remote_rx_window fc - required_win)) fc in
    (required_win, set_total_remote_rx_consumed (u64 (total_remote_rx_consumed fc + required_win)) fc)
  else
    remote_rx_window_exchange_non_atomic
      (set_total_flow_controlled_wr
         (u64 (total_flow_controlled_wr fc + (required_win - remote_rx_window fc))) fc).

Definition local_rx_posted_inc_non_atomic (fc : ub_flow_control) (rx_posted : Z) : Z * ub_flow_control :=
  let rx_sum := local_rx_posted fc + rx_posted in
  if UINT16_MAX <? rx_sum then
    (local_rx_posted fc, set_total_local_rx_posted_error (u64 (total_local_rx_posted_error fc + rx_posted)) fc)
  else
    let fc := set_total_local_rx_posted (u64 (total_local_rx_posted fc + rx_posted)) fc in
    let fc := set_local_rx_posted (u16 rx_sum) fc in
    (local_rx_posted fc, fc).

Definition local_rx_posted_exchange_non_atomic (fc : ub_flow_control) : Z * ub_flow_control :=
  let posted := local_rx_posted fc in
  let fc := set_total_local_rx_notified (u64 (total_local_rx_notified fc + posted)) fc in
  (posted, set_local_rx_posted 0 fc).

(** ** Lock-free operations run by one thread alone (the compare-and-swap
    succeeds the first time).  [fc_step] below has the general case. *)

Definition remote_rx_window_inc_atomic (fc : ub_flow_control) (new_win : Z) : Z * ub_flow_control :=
  let before := remote_rx_window fc in
  let win_sum := before + new_win in
  let '(ret, fc) := if UINT16_MAX <? win_sum then (before, fc)
                    else (u16 win_sum, set_remote_rx_window (u16 win_sum) fc) in
  if ret =? before then
    (ret, set_total_remote_rx_received_error (u64 (total_remote_rx_received_error fc + new_win)) fc)
  else (ret, set_total_remote_rx_received (u64 (total_remote_rx_received fc + new_win)) fc).

Definition remote_rx_window_exchange_atomic (fc : ub_flow_control) : Z * ub_flow_control :=
  (remote_rx_window fc, set_remote_rx_window 0 fc).

Definition dec_after (before required_win : Z) : Z :=
  if required_win <? before then u16 (before - required_win) else 0.

Definition remote_rx_window_dec_atomic (fc : ub_flow_control) (required_win : Z) : Z * ub_flow_control :=
  let before := remote_rx_window fc in
  let '(ret, fc) := if before =? 0 then (0, fc)
                    else let after := dec_after before required_win in
                         (u16 (before - after), set_remote_rx_window after fc) in
  let fc := if ret <? required_win
            then set_total_flow_controlled_wr (u64 (total_flow_controlled_wr fc + (required_win - ret))) fc else fc in
  let fc := if 0 <? ret then set_total_remote_rx_consumed (u64 (total_remote_rx_consumed fc + ret)) fc else fc in
  (ret, fc).

Definition local_rx_posted_inc_atomic (fc : ub_flow_control) (rx_posted : Z) : Z * ub_flow_control :=
  let before := local_rx_posted fc in
  let rx_sum := before + rx_posted in
  let '(ret, fc) := if UINT16_MAX <? rx_sum then (before, fc)
                    else (u16 rx_sum, set_local_rx_posted (u16 rx_sum) fc) in
  if ret =? before then
    (ret, set_total_local_rx_posted_error (u64 (total_local_rx_posted_error fc + rx_posted)) fc)
  else (ret, set_total_local_rx_posted (u64 (total_local_rx_posted fc + rx_posted)) fc).

Definition local_rx_posted_exchange_atomic (fc : ub_flow_control) : Z * ub_flow_control :=
  let posted := local_rx_posted fc in
  let fc := set_local_rx_posted 0 fc in
  (posted, if 0 <? posted then set_total_local_rx_notified (u64 (total_local_rx_notified fc + posted)) fc else fc).

(** ** Calls through the table; [None] is a call of a null pointer. *)

Definition call_op {A} (fc : ub_flow_control) (plain atomic : A) : option A :=
  match ops fc with OpsNull => None | OpsNonAtomic => Some plain | OpsAtomic => Some atomic end.

Definition ops_remote_rx_window_inc (fc : ub_flow_control) (win : Z) :=
  call_op fc (remote_rx_window_inc_non_atomic fc win) (remote_rx_window_inc_atomic fc win).
Definition ops_remote_rx_window_dec (fc : ub_flow_control) (win : Z) :=
  call_op fc (remote_rx_window_dec_non_atomic fc win) (remote_rx_window_dec_atomic fc win).
Definition ops_local_rx_posted_inc (fc : ub_flow_control) (n : Z) :=
  call_op fc (local_rx_posted_inc_non_atomic fc n) (local_rx_posted_inc_atomic fc n).
Definition ops_local_rx_posted_exchange (fc : ub_flow_control) :=
  call_op fc (local_rx_posted_exchange_non_atomic fc) (local_rx_posted_exchange_atomic fc).
Definition ops_local_rx_posted_load (fc : ub_flow_control) : option Z :=
  call_op fc (local_rx_posted fc) (local_rx_posted fc).

(** ** Initialisation *)

Record umq_flow_control_cfg := { cfg_initial_window : Z; cfg_notify_interval : Z; cfg_use_atomic_window : bool }.

Definition fc_zero : ub_flow_control :=
  Build_ub_flow_control OpsNull 0 0 0 0 0 0 0 0 0 0 0 0 0 0 0 0 0 false false false.

Definition umq_ub_flow_control_init (queue_rx_depth queue_tx_depth feature : Z) (cfg : umq_flow_control_cfg)
  : Z * ub_flow_control :=
  let fc := set_enabled (negb (Z.land feature UMQ_FEATURE_ENABLE_FLOW_CONTROL =? 0)) fc_zero in
  if negb (enabled fc) then (UMQ_SUCCESS, fc)
  else
    let fc := set_local_rx_depth (u16 queue_rx_depth) fc in
    let fc := set_local_tx_depth (u16 queue_tx_depth) fc in
    let fc := set_initial_window (cfg_initial_window cfg) fc in
    let fc := set_notify_interval (cfg_notify_interval cfg) fc in
    let fc := if (cfg_initial_window cfg =? 0) || (queue_rx_depth <? cfg_initial_window cfg)
              then set_initial_window (Z.shiftr (local_rx_depth fc) 1) fc else fc in
    let fc := if initial_window fc =? 0 then set_initial_window 1 fc else fc in
    let fc := if (cfg_notify_interval cfg =? 0) || (queue_rx_depth <? cfg_notify_interval cfg)
              then set_notify_interval (Z.shiftr (local_rx_depth fc) UMQ_UB_FLOW_CONTROL_NOTIFY_THR) fc else fc in
    let fc := if notify_interval fc =? 0 then set_notify_interval 1 fc else fc in
    (UMQ_SUCCESS, set_ops (if cfg_use_atomic_window cfg then OpsAtomic else OpsNonAtomic) fc).

(** The peer's parameters exchanged at bind time ([umq_ub_bind_info_t]). *)
Record bind_window_info := { win_buf_addr : Z; win_buf_len : Z; info_rx_depth : Z; info_tx_depth : Z }.

Definition umq_ub_window_init (fc : ub_flow_control) (info : bind_window_info) : Z * ub_flow_control :=
  if negb (enabled fc) then (UMQ_SUCCESS, fc)
  else if (win_buf_addr info =? 0) || (win_buf_len info <? 2) then (UMQ_FAIL, fc)
  else
    let fc := set_remote_win_buf_addr (win_buf_addr info) fc in
    let fc := set_remote_win_buf_len (win_buf_len info) fc in
    let fc := set_remote_rx_depth (u16 (info_rx_depth info)) fc in
    let fc := set_remote_tx_depth (u16 (info_tx_depth info)) fc in
    (UMQ_SUCCESS, set_remote_rx_window 0 fc).

(** ** Statistics *)
Record umq_flow_control_stats := {
  st_local_rx_posted : Z; st_remote_rx_window : Z; st_total_local_rx_posted : Z; st_total_local_rx_notified : Z;
  st_total_local_rx_posted_error : Z; st_total_remote_rx_received : Z; st_total_remote_rx_consumed : Z;
  st_total_remote_rx_received_error : Z; st_total_flow_controlled_wr : Z
}.

Definition flow_control_stats_query (fc : ub_flow_control) : umq_flow_control_stats :=
  {| st_local_rx_posted := local_rx_posted fc; st_remote_rx_window := remote_rx_window fc;
     st_total_local_rx_posted := total_local_rx_posted fc; st_total_local_rx_notified := total_local_rx_notified fc;
     st_total_local_rx_posted_error := total_local_rx_posted_error fc;
     st_total_remote_rx_received := total_remote_rx_received fc;
     st_total_remote_rx_consumed := total_remote_rx_consumed fc;
     st_total_remote_rx_received_error := total_remote_rx_received_error fc;
     st_total_flow_controlled_wr := total_flow_controlled_wr fc |}.

(** ** Interleaved lock-free operations

    Each thread executes one operation; a step is one access to the shared
    structure.  The weak compare-and-swap may fail even on equal values, and
    every failure reloads [before]. *)

Inductive fc_thread :=
| TInc (n : Z) | TIncLoop (n before : Z) | TIncStat (n before ret : Z) | TIncDone (n : Z) (accepted : bool)
| TDec (n : Z) | TDecLoop (n before : Z) | TDecStat (n ret : Z) | TDecCount (n ret : Z) | TDecDone (n ret : Z)
| TPost (n : Z) | TPostLoop (n before : Z) | TPostStat (n before ret : Z) | TPostDone (n : Z) (accepted : bool)
| TXchg | TXchgCount (posted : Z) | TXchgDone (posted : Z).

Inductive fc_step : ub_flow_control * fc_thread -> ub_flow_control * fc_thread -> Prop :=
(* remote_rx_window_inc_atomic *)
| step_inc_load fc n : fc_step (fc, TInc n) (fc, TIncLoop n (remote_rx_window fc))
| step_inc_break fc n before :
    (UINT16_MAX <? before + n) = true -> fc_step (fc, TIncLoop n before) (fc, TIncStat n before before)
| step_inc_retry fc n before :
    (UINT16_MAX <? before + n) = false -> fc_step (fc, TIncLoop n before) (fc, TIncLoop n (remote_rx_window fc))
| step_inc_cas fc n before :
    (UINT16_MAX <? before + n) = false -> remote_rx_window fc = before ->
    fc_step (fc, TIncLoop n before)
            (set_remote_rx_window (u16 (before + n)) fc, TIncStat n before (u16 (before + n)))
| step_inc_stat_err fc n before ret : ret = before ->
    fc_step (fc, TIncStat n before ret)
            (set_total_remote_rx_received_error (u64 (total_remote_rx_received_error fc + n)) fc, TIncDone n false)
| step_inc_stat_ok fc n before ret : ret <> before ->
    fc_step (fc, TIncStat n before ret)
            (set_total_remote_rx_received (u64 (total_remote_rx_received fc + n)) fc, TIncDone n true)
(* remote_rx_window_dec_atomic *)
| step_dec_load fc n : fc_step (fc, TDec n) (fc, TDecLoop n (remote_rx_window fc))
| step_dec_zero fc n : fc_step (fc, TDecLoop n 0) (fc, TDecStat n 0)
| step_dec_retry fc n before : before <> 0 -> fc_step (fc, TDecLoop n before) (fc, TDecLoop n (remote_rx_window fc))
| step_dec_cas fc n before : before <> 0 -> remote_rx_window fc = before ->
    fc_step (fc, TDecLoop n before)
            (set_remote_rx_window (dec_after before n) fc, TDecStat n (u16 (before - dec_after before n)))
| step_dec_stat fc n ret :
    fc_step (fc, TDecStat n ret)
            (if ret <? n then set_total_flow_controlled_wr (u64 (total_flow_controlled_wr fc + (n - ret))) fc else fc,
             TDecCount n ret)
| step_dec_count fc n ret :
    fc_step (fc, TDecCount n ret)
            (if 0 <? ret then set_total_remote_rx_consumed (u64 (total_remote_rx_consumed fc + ret)) fc else fc,
             TDecDone n ret)
(* local_rx_posted_inc_atomic *)
| step_post_load fc n : fc_step (fc, TPost n) (fc, TPostLoop n (local_rx_posted fc))
| step_post_break fc n before :
    (UINT16_MAX <? before + n) = true -> fc_step (fc, TPostLoop n before) (fc, TPostStat n before before)
| step_post_retry fc n before :
    (UINT16_MAX <? before + n) = false -> fc_step (fc, TPostLoop n before) (fc, TPostLoop n (local_rx_posted fc))
| step_post_cas fc n before :
    (UINT16_MAX <? before + n) = false -> local_rx_posted fc = before ->
    fc_step (fc, TPostLoop n before)
            (set_local_rx_posted (u16 (before + n)) fc, TPostStat n before (u16 (before + n)))
| step_post_stat_err fc n before ret : ret = before ->
    fc_step (fc, TPostStat n before ret)
            (set_total_local_rx_posted_error (u64 (total_local_rx_posted_error fc + n)) fc, TPostDone n false)
| step_post_stat_ok fc n before ret : ret <> before ->
    fc_step (fc, TPostStat n before ret)
            (set_total_local_rx_posted (u64 (total_local_rx_posted fc + n)) fc, TPostDone n true)
(* local_rx_posted_exchange_atomic *)
| step_xchg fc : fc_step (fc, TXchg) (set_local_rx_posted 0 fc, TXchgCount (local_rx_posted fc))
| step_xchg_count fc posted :
    fc_step (fc, TXchgCount posted)
            (if 0 <? posted then set_total_local_rx_notified (u64 (total_local_rx_notified fc + posted)) fc else fc,
             TXchgDone posted).

(** One thread of the pool takes a step. *)
Inductive pool_step : ub_flow_control * list fc_thread -> ub_flow_control * list fc_thread -> Prop :=
| pool_one fc fc' pre t t' post :
    fc_step (fc, t) (fc', t') -> pool_step (fc, pre ++ t :: post) (fc', pre ++ t' :: post).

(** ** Credit accounts *)

Definition fc_wf (fc : ub_flow_control) : Prop :=
  in_u16 (remote_rx_window fc) /\ in_u16 (local_rx_posted fc) /\
  in_u64 (total_remote_rx_received fc) /\ in_u64 (total_remote_rx_consumed fc) /\
  in_u64 (total_remote_rx_received_error fc) /\ in_u64 (total_flow_controlled_wr fc) /\
  in_u64 (total_local_rx_posted fc) /\ in_u64 (total_local_rx_notified fc) /\ in_u64 (total_local_rx_posted_error fc).

(** What a thread has added to (taken from) the window, and what it has recorded. *)
Definition win_added (t : fc_thread) : Z :=
  match t with TIncStat n before ret => if ret =? before then 0 else n | TIncDone n true => n | _ => 0 end.
Definition win_taken (t : fc_thread) : Z :=
  match t with TDecStat _ ret | TDecCount _ ret | TDecDone _ ret => ret | _ => 0 end.
Definition win_added_rec (t : fc_thread) : Z := match t with TIncDone n true => n | _ => 0 end.
Definition win_taken_rec (t : fc_thread) : Z := match t with TDecDone _ ret => ret | _ => 0 end.
Definition rx_added (t : fc_thread) : Z :=
  match t with TPostStat n before ret => if ret =? before then 0 else n | TPostDone n true => n | _ => 0 end.
Definition rx_taken (t : fc_thread) : Z := match t with TXchgCount n | TXchgDone n => n | _ => 0 end.
Definition rx_added_rec (t : fc_thread) : Z := match t with TPostDone n true => n | _ => 0 end.
Definition rx_taken_rec (t : fc_thread) : Z := match t with TXchgDone n => n | _ => 0 end.

Definition zsum {A} (f : A -> Z) (l : list A) : Z := foldr (fun x acc => f x + acc) 0 l.

Lemma zsum_app {A} (f : A -> Z) l k : zsum f (l ++ k) = zsum f l + zsum f k.
Proof. induction l as [|x l IH]; simpl; [done|]. unfold zsum in *. simpl. rewrite IH. lia. Qed.

Lemma zsum_cons {A} (f : A -> Z) x l : zsum f (x :: l) = f x + zsum f l.
Proof. done. Qed.

#[export] Hint Rewrite @zsum_app @zsum_cons : umdk_rw.

(** Local well-formedness of a thread: operands are 16-bit, grants are within the request. *)
Definition thread_ok (t : fc_thread) : Prop :=
  match t with
  | TInc n | TDec n | TPost n => in_u16 n
  | TIncLoop n before | TDecLoop n before | TPostLoop n before => in_u16 n /\ in_u16 before
  | TIncStat n before ret | TPostStat n before ret => in_u16 n /\ in_u16 before /\ (ret = before \/ ret = before + n)
  | TIncDone n _ | TPostDone n _ => in_u16 n
  | TDecStat n ret | TDecCount n ret | TDecDone n ret => in_u16 n /\ 0 <= ret <= n
  | TXchg => True
  | TXchgCount n | TXchgDone n => in_u16 n
  end.

Definition thread_done (t : fc_thread) : Prop :=
  match t with TIncDone _ _ | TDecDone _ _ | TPostDone _ _ | TXchgDone _ => True | _ => False end.

Definition thread_start (t : fc_thread) : Prop :=
  match t with TInc n | TDec n | TPost n => in_u16 n | TXchg => True | _ => False end.

Record pool_inv (fc0 : ub_flow_control) (s : ub_flow_control * list fc_thread) : Prop := {
  pi_wf : fc_wf s.1;
  pi_threads : Forall thread_ok s.2;
  pi_window : remote_rx_window s.1 = remote_rx_window fc0 + zsum win_added s.2 - zsum win_taken s.2;
  pi_posted : local_rx_posted s.1 = local_rx_posted fc0 + zsum rx_added s.2 - zsum rx_taken s.2;
  pi_received : total_remote_rx_received s.1 = u64 (total_remote_rx_received fc0 + zsum win_added_rec s.2);
  pi_consumed : total_remote_rx_consumed s.1 = u64 (total_remote_rx_consumed fc0 + zsum win_taken_rec s.2);
  pi_rx_posted : total_local_rx_posted s.1 = u64 (total_local_rx_posted fc0 + zsum rx_added_rec s.2);
  pi_rx_notified : total_local_rx_notified s.1 = u64 (total_local_rx_notified fc0 + zsum rx_taken_rec s.2)
}.

Lemma u64_add_l a b : u64 (u64 a + b) = u64 (a + b).
Proof. unfold u64. by rewrite Zplus_mod_idemp_l. Qed.

Lemma dec_after_range before n : in_u16 before -> in_u16 n -> 
  0 <= dec_after before n <= before /\ before - dec_after before n = Z.min before n.
Proof. intros Hb Hn. unfold dec_after. destruct (Z.ltb_spec n before); [rewrite u16_small by lia|]; lia. Qed.

Ltac fc_simpl := cbn [set_remote_rx_window set_local_rx_posted set_total_remote_rx_received
  set_total_remote_rx_received_error set_total_remote_rx_consumed set_total_flow_controlled_wr set_total_local_rx_posted
  set_total_local_rx_posted_error set_total_local_rx_notified remote_rx_window local_rx_posted
  total_remote_rx_received total_remote_rx_received_error total_remote_rx_consumed total_flow_controlled_wr
  total_local_rx_posted total_local_rx_posted_error total_local_rx_notified enabled ops local_set remote_get
  initial_window notify_interval fst snd] in *.

(** Effect of one step on every account. *)
Record step_effect (fc : ub_flow_control) (t : fc_thread) (fc' : ub_flow_control) (t' : fc_thread) : Prop := {
  se_wf : fc_wf fc';
  se_thread : thread_ok t';
  se_window : remote_rx_window fc' = remote_rx_window fc + (win_added t' - win_added t) - (win_taken t' - win_taken t);
  se_posted : local_rx_posted fc' = local_rx_posted fc + (rx_added t' - rx_added t) - (rx_taken t' - rx_taken t);
  se_received : total_remote_rx_received fc' = u64 (total_remote_rx_received fc + (win_added_rec t' - win_added_rec t));
  se_consumed : total_remote_rx_consumed fc' = u64 (total_remote_rx_consumed fc + (win_taken_rec t' - win_taken_rec t));
  se_rx_posted : total_local_rx_posted fc' = u64 (total_local_rx_posted fc + (rx_added_rec t' - rx_added_rec t));
  se_rx_notified : total_local_rx_notified fc' = u64 (total_local_rx_notified fc + (rx_taken_rec t' - rx_taken_rec t))
}.

Ltac fc_arith := first
  [ lia | exact I
  | match goal with |- _ = u64 _ => symmetry; rewrite u64_small; lia end
  | match goal with |- u64 _ = u64 _ => f_equal; lia end
  | match goal with |- context [u64 ?x] => pose proof (u64_range x); lia end ].

Lemma fc_step_effect fc t fc' t' :
  fc_step (fc, t) (fc', t') -> fc_wf fc -> thread_ok t -> step_effect fc t fc' t'.
Proof.
  intros Hs Hwf Hok. pose proof Hwf as (?&?&?&?&?&?&?&?&?).
  inversion Hs; subst; clear Hs; breflect; simpl in Hok; destruct_and?; unfold UINT16_MAX in *;
    try match goal with |- context [u16 (?b + ?n)] => rewrite (u16_small (b + n)) by lia end;
    try match goal with |- context [dec_after ?b ?n] =>
      destruct (dec_after_range b n) as [? ?]; [lia..|]; rewrite (u16_small (b - _)) by lia end;
    try match goal with |- context [if ?b then _ else _] => destruct b eqn:?; breflect end;
    (split; [unfold fc_wf; fc_simpl; split_and!; fc_arith | simpl; split_and?; try lia; auto with umdk | ..]);
    simpl; split_ifs; breflect; fc_simpl; fc_arith.
Qed.

Lemma pool_inv_start fc ts : fc_wf fc -> Forall thread_start ts -> pool_inv fc (fc, ts).
Proof.
  intros Hwf Hts.
  assert (forall f, (forall t, thread_start t -> f t = 0) -> zsum f ts = 0) as Hz.
  { intros f Hf. induction Hts as [|t ts Ht _ IH]; [done|]. rewrite zsum_cons, IH, Hf by done. lia. }
  pose proof Hwf as (?&?&?&?&?&?&?&?&?).
  split; simpl; rewrite ?Hz by (intros []; simpl; try done; tauto); try lia;
    try (symmetry; rewrite u64_small; lia); [done|].
  eapply Forall_impl; [done|]. intros []; simpl; try done; tauto.
Qed.

Lemma pool_inv_step fc0 s s' : pool_step s s' -> pool_inv fc0 s -> pool_inv fc0 s'.
Proof.
  intros [fc fc' pre t t' post Hs] [Hwf Hok Hw Hp H1 H2 H3 H4]. simpl in *.
  apply Forall_app in Hok as [Hpre [Ht Hpost]%Forall_cons].
  apply fc_step_effect in Hs as [Hwf' Ht' E1 E2 E3 E4 E5 E6]; [|done..].
  split; simpl; autorewrite with umdk_rw in *; [done| |lia|lia|..].
  - apply Forall_app. split; [done|]. by apply Forall_cons.
  - rewrite E3, H1, u64_add_l. f_equal. lia.
  - rewrite E4, H2, u64_add_l. f_equal. lia.
  - rewrite E5, H3, u64_add_l. f_equal. lia.
  - rewrite E6, H4, u64_add_l. f_equal. lia.
Qed.

Lemma pool_inv_run fc0 s s' : rtc pool_step s s' -> pool_inv fc0 s -> pool_inv fc0 s'.
Proof. induction 1; eauto using pool_inv_step. Qed.

Lemma done_accounts ts : Forall thread_done ts ->
  zsum win_added ts = zsum win_added_rec ts /\ zsum win_taken ts = zsum win_taken_rec ts /\
  zsum rx_added ts = zsum rx_added_rec ts /\ zsum rx_taken ts = zsum rx_taken_rec ts.
Proof.
  induction 1 as [|t ts Ht _ (E1 & E2 & E3 & E4)]; [done|]. rewrite !zsum_cons, E1, E2, E3, E4. by destruct t.
Qed.

(** C20: credits are neither lost nor duplicated by the lock-free window operations.
    For any number of threads that increment and decrement the window, post
    receive buffers and take the posted count, under every interleaving and with
    any number of failed compare-and-swaps: both counters stay within 16 bits and
    equal their initial value plus what was accepted minus what was granted, no
    grant exceeds its request, and when all threads have finished the 64-bit
    statistics account for exactly the same amounts. *)
Theorem flow_control_credits_conserved fc0 ts fc ts' :
  fc_wf fc0 -> Forall thread_start ts -> rtc pool_step (fc0, ts) (fc, ts') ->
  in_u16 (remote_rx_window fc) /\ in_u16 (local_rx_posted fc) /\
  remote_rx_window fc = remote_rx_window fc0 + zsum win_added ts' - zsum win_taken ts' /\
  local_rx_posted fc = local_rx_posted fc0 + zsum rx_added ts' - zsum rx_taken ts' /\
  Forall thread_ok ts' /\
  (Forall thread_done ts' ->
   u64 (total_remote_rx_received fc - total_remote_rx_consumed fc - remote_rx_window fc) =
     u64 (total_remote_rx_received fc0 - total_remote_rx_consumed fc0 - remote_rx_window fc0) /\
   u64 (total_local_rx_posted fc - total_local_rx_notified fc - local_rx_posted fc) =
     u64 (total_local_rx_posted fc0 - total_local_rx_notified fc0 - local_rx_posted fc0)).
Proof.
  intros Hwf Hts Hrun. eapply pool_inv_run in Hrun; [|by apply pool_inv_start].
  destruct Hrun as [(?&?&_) Hok Hw Hp H1 H2 H3 H4]. simpl in *. split_and!; try done; try lia.
  intros (E1 & E2 & E3 & E4)%done_accounts. rewrite H1, H2, H3, H4, Hw, Hp, E1, E2, E3, E4.
  unfold u64. split; rewrite <- (Zminus_mod_idemp_l (_ mod _ - _ mod _)), <- Zminus_mod, Zminus_mod_idemp_l; f_equal; lia.
Qed.

Lemma flow_control_credits_conserved_witness :
  let fc0 := set_remote_rx_window 3 (set_total_remote_rx_received 3 fc_zero) in
  let fc := set_total_remote_rx_consumed 2 (set_remote_rx_window 1 fc0) in
  in_u16 (remote_rx_window fc) /\ in_u16 (local_rx_posted fc) /\
  remote_rx_window fc = remote_rx_window fc0 + zsum win_added [TDecDone 2 2] - zsum win_taken [TDecDone 2 2] /\
  local_rx_posted fc = local_rx_posted fc0 + zsum rx_added [TDecDone 2 2] - zsum rx_taken [TDecDone 2 2] /\
  Forall thread_ok [TDecDone 2 2] /\
  (Forall thread_done [TDecDone 2 2] ->
   u64 (total_remote_rx_received fc - total_remote_rx_consumed fc - remote_rx_window fc) =
     u64 (total_remote_rx_received fc0 - total_remote_rx_consumed fc0 - remote_rx_window fc0) /\
   u64 (total_local_rx_posted fc - total_local_rx_notified fc - local_rx_posted fc) =
     u64 (total_local_rx_posted fc0 - total_local_rx_notified fc0 - local_rx_posted fc0)).
Proof.
  cbv zeta. apply (flow_control_credits_conserved _ [TDec 2]).
  - unfold fc_wf. simpl. lia.
  - repeat constructor; simpl; lia.
  - eapply rtc_l; [eapply (pool_one _ _ [] _ _ []); apply step_dec_load|].
    eapply rtc_l; [eapply (pool_one _ _ [] _ _ []); apply step_dec_retry; simpl; lia|].
    eapply rtc_l; [eapply (pool_one _ _ [] _ _ []); apply step_dec_cas; simpl; lia|].
    eapply rtc_l; [eapply (pool_one _ _ [] _ _ []); apply step_dec_stat|].
    eapply rtc_l; [eapply (pool_one _ _ [] _ _ []); apply step_dec_count|].
    apply rtc_refl.
Defined.

(** ** The two families agree *)

Ltac fc_equal :=
  unfold fc_wf in *; match goal with fc : ub_flow_control |- _ => destruct fc end; simpl in *;
  unfold set_remote_rx_window, set_local_rx_posted, set_total_remote_rx_received, set_total_remote_rx_received_error,
    set_total_remote_rx_consumed, set_total_flow_controlled_wr, set_total_local_rx_posted,
    set_total_local_rx_posted_error, set_total_local_rx_notified; simpl.

Lemma remote_rx_window_inc_agree fc n : fc_wf fc -> in_u16 n ->
  remote_rx_window_inc_atomic fc n = remote_rx_window_inc_non_atomic fc n.
Proof.
  intros Hwf Hn. unfold remote_rx_window_inc_atomic, remote_rx_window_inc_non_atomic. fc_equal.
  unfold UINT16_MAX. destruct (Z.ltb_spec 65535 (remote_rx_window0 + n)).
  - by rewrite Z.eqb_refl.
  - rewrite u16_small by lia. destruct (Z.eqb_spec (remote_rx_window0 + n) remote_rx_window0); simpl; [|done].
    replace n with 0 by lia. rewrite !Z.add_0_r, !u64_small by lia. done.
Qed.

Lemma remote_rx_window_dec_agree fc n : fc_wf fc -> in_u16 n ->
  remote_rx_window_dec_atomic fc n = remote_rx_window_dec_non_atomic fc n.
Proof.
  intros Hwf Hn. unfold remote_rx_window_dec_atomic, remote_rx_window_dec_non_atomic,
    remote_rx_window_exchange_non_atomic, dec_after. fc_equal.
  assert (forall a b, in_u64 a -> b = 0 -> u64 (a + b) = a) as Hz by (intros; rewrite u64_small; lia).
  destruct (Z.leb_spec n remote_rx_window0), (Z.eqb_spec remote_rx_window0 0); simpl;
    [|destruct (Z.ltb_spec n remote_rx_window0); simpl..].
  - replace n with 0 by lia. subst. simpl. rewrite (Hz total_remote_rx_consumed0) by lia. done.
  - rewrite (u16_small (remote_rx_window0 - n)) by lia. replace (remote_rx_window0 - _) with n by lia.
    rewrite (u16_small n) by lia. split_ifs; breflect; simpl; try lia; try done.
    rewrite Hz by lia. done.
  - replace n with remote_rx_window0 by lia. rewrite Z.sub_0_r, Z.sub_diag, !u16_small by lia.
    split_ifs; breflect; simpl; try lia. done.
  - lia.
  - split_ifs; breflect; simpl; try lia. rewrite (Hz total_remote_rx_consumed0) by lia. subst. done.
  - lia.
  - rewrite Z.sub_0_r, u16_small by lia. split_ifs; breflect; simpl; try lia. done.
Qed.

Lemma local_rx_posted_inc_agree fc n : fc_wf fc -> in_u16 n ->
  local_rx_posted_inc_atomic fc n = local_rx_posted_inc_non_atomic fc n.
Proof.
  intros Hwf Hn. unfold local_rx_posted_inc_atomic, local_rx_posted_inc_non_atomic. fc_equal.
  unfold UINT16_MAX. destruct (Z.ltb_spec 65535 (local_rx_posted0 + n)).
  - by rewrite Z.eqb_refl.
  - rewrite u16_small by lia. destruct (Z.eqb_spec (local_rx_posted0 + n) local_rx_posted0); simpl; [|done].
    replace n with 0 by lia. rewrite !Z.add_0_r, !u64_small by lia. done.
Qed.

Lemma local_rx_posted_exchange_agree fc : fc_wf fc ->
  local_rx_posted_exchange_atomic fc = local_rx_posted_exchange_non_atomic fc.
Proof.
  intros Hwf. unfold local_rx_posted_exchange_atomic, local_rx_posted_exchange_non_atomic. fc_equal.
  destruct (Z.ltb_spec 0 local_rx_posted0); simpl; [done|]. replace local_rx_posted0 with 0 by lia.
  rewrite Z.add_0_r, u64_small by lia. done.
Qed.

(** A thread that runs alone ends in the state of the sequential definition. *)
Lemma inc_solo fc n : exists b,
  rtc fc_step (fc, TInc n) ((remote_rx_window_inc_atomic fc n).2, TIncDone n b).
Proof.
  unfold remote_rx_window_inc_atomic. destruct (UINT16_MAX <? remote_rx_window fc + n) eqn:E; cbn [fst snd].
  - rewrite Z.eqb_refl. exists false. eapply rtc_l; [apply step_inc_load|].
    eapply rtc_l; [by apply step_inc_break|]. by eapply rtc_once, step_inc_stat_err.
  - destruct (Z.eqb_spec (u16 (remote_rx_window fc + n)) (remote_rx_window fc)) as [E'|E']; eexists;
      (eapply rtc_l; [apply step_inc_load|]); (eapply rtc_l; [by apply step_inc_cas|]); eapply rtc_once.
    + by apply step_inc_stat_err.
    + by apply step_inc_stat_ok.
Qed.

Lemma dec_solo fc n :
  rtc fc_step (fc, TDec n)
    ((remote_rx_window_dec_atomic fc n).2, TDecDone n (remote_rx_window_dec_atomic fc n).1).
Proof.
  unfold remote_rx_window_dec_atomic. eapply rtc_l; [apply step_dec_load|].
  destruct (Z.eqb_spec (remote_rx_window fc) 0) as [E|E].
  - rewrite E. eapply rtc_l; [apply step_dec_zero|]. eapply rtc_l; [apply step_dec_stat|].
    apply rtc_once. apply step_dec_count.
  - eapply rtc_l; [by apply step_dec_cas|]. eapply rtc_l; [apply step_dec_stat|].
    apply rtc_once. apply step_dec_count.
Qed.

Lemma post_solo fc n : exists b,
  rtc fc_step (fc, TPost n) ((local_rx_posted_inc_atomic fc n).2, TPostDone n b).
Proof.
  unfold local_rx_posted_inc_atomic. destruct (UINT16_MAX <? local_rx_posted fc + n) eqn:E; cbn [fst snd].
  - rewrite Z.eqb_refl. exists false. eapply rtc_l; [apply step_post_load|].
    eapply rtc_l; [by apply step_post_break|]. by eapply rtc_once, step_post_stat_err.
  - destruct (Z.eqb_spec (u16 (local_rx_posted fc + n)) (local_rx_posted fc)) as [E'|E']; eexists;
      (eapply rtc_l; [apply step_post_load|]); (eapply rtc_l; [by apply step_post_cas|]); eapply rtc_once.
    + by apply step_post_stat_err.
    + by apply step_post_stat_ok.
Qed.

Lemma xchg_solo fc :
  rtc fc_step (fc, TXchg)
    ((local_rx_posted_exchange_atomic fc).2, TXchgDone (local_rx_posted_exchange_atomic fc).1).
Proof. eapply rtc_l; [apply step_xchg|]. apply rtc_once. apply step_xchg_count. Qed.

(** The lock-free window operations are equivalent to the plain ones: a thread
    that is not interfered with completes, with the result and the state
    (counters and statistics included) that the plain operation produces. *)
Theorem lock_free_ops_agree fc n :
  fc_wf fc -> in_u16 n ->
  (exists b, rtc fc_step (fc, TInc n) ((remote_rx_window_inc_non_atomic fc n).2, TIncDone n b)) /\
  rtc fc_step (fc, TDec n)
    ((remote_rx_window_dec_non_atomic fc n).2, TDecDone n (remote_rx_window_dec_non_atomic fc n).1) /\
  (exists b, rtc fc_step (fc, TPost n) ((local_rx_posted_inc_non_atomic fc n).2, TPostDone n b)) /\
  rtc fc_step (fc, TXchg)
    ((local_rx_posted_exchange_non_atomic fc).2, TXchgDone (local_rx_posted_exchange_non_atomic fc).1) /\
  remote_rx_window_inc_atomic fc n = remote_rx_window_inc_non_atomic fc n /\
  local_rx_posted_inc_atomic fc n = local_rx_posted_inc_non_atomic fc n.
Proof.
  intros Hwf Hn. rewrite <- remote_rx_window_inc_agree, <- remote_rx_window_dec_agree,
    <- local_rx_posted_inc_agree, <- local_rx_posted_exchange_agree by done.
  split_and!; auto using inc_solo, dec_solo, post_solo, xchg_solo.
Qed.

Lemma lock_free_ops_agree_witness :
  let fc := set_remote_rx_window 65530 (set_local_rx_posted 7 fc_zero) in
  (exists b, rtc fc_step (fc, TInc 9) ((remote_rx_window_inc_non_atomic fc 9).2, TIncDone 9 b)) /\
  rtc fc_step (fc, TDec 9)
    ((remote_rx_window_dec_non_atomic fc 9).2, TDecDone 9 (remote_rx_window_dec_non_atomic fc 9).1) /\
  (exists b, rtc fc_step (fc, TPost 9) ((local_rx_posted_inc_non_atomic fc 9).2, TPostDone 9 b)) /\
  rtc fc_step (fc, TXchg)
    ((local_rx_posted_exchange_non_atomic fc).2, TXchgDone (local_rx_posted_exchange_non_atomic fc).1) /\
  remote_rx_window_inc_atomic fc 9 = remote_rx_window_inc_non_atomic fc 9 /\
  local_rx_posted_inc_atomic fc 9 = local_rx_posted_inc_non_atomic fc 9.
Proof. apply lock_free_ops_agree; [unfold fc_wf; simpl; lia|lia]. Defined.

(** ** Contracts of the table calls *)

(** [fc'] has the configuration and flags of [fc]. *)
Definition same_config (fc fc' : ub_flow_control) : Prop :=
  ops fc' = ops fc /\ enabled fc' = enabled fc /\ initial_window fc' = initial_window fc /\
  notify_interval fc' = notify_interval fc /\ local_set fc' = local_set fc /\ remote_get fc' = remote_get fc.

#[export] Instance same_config_preorder : PreOrder same_config.
Proof. split; [done|]. intros x y z (?&?&?&?&?&?) (?&?&?&?&?&?). split_and!; congruence. Qed.

Section contracts.
Context (fc : ub_flow_control) (Hwf : fc_wf fc) (Hops : ops fc <> OpsNull).

Lemma ops_window_inc_spec n : in_u16 n ->
  exists fc', ops_remote_rx_window_inc fc n = Some (remote_rx_window fc', fc') /\ fc_wf fc' /\ same_config fc fc' /\
    local_rx_posted fc' = local_rx_posted fc /\
    remote_rx_window fc' = if UINT16_MAX <? remote_rx_window fc + n then remote_rx_window fc else remote_rx_window fc + n.
Proof using Hwf Hops.
  intros Hn. exists (remote_rx_window_inc_non_atomic fc n).2.
  assert (ops_remote_rx_window_inc fc n = Some (remote_rx_window_inc_non_atomic fc n)) as ->.
  { unfold ops_remote_rx_window_inc, call_op. rewrite remote_rx_window_inc_agree by done. by destruct (ops fc). }
  pose proof Hwf as (?&?&?&?&?&?&?&?&?). unfold remote_rx_window_inc_non_atomic.
  destruct (Z.ltb_spec UINT16_MAX (remote_rx_window fc + n)); fc_simpl.
  - split_and!; try done. unfold fc_wf. fc_simpl. split_and!; fc_arith.
  - unfold UINT16_MAX in *. rewrite u16_small by lia. split_and!; try done. unfold fc_wf. fc_simpl. split_and!; fc_arith.
Qed.

Lemma ops_window_dec_spec n : in_u16 n ->
  exists fc', ops_remote_rx_window_dec fc n = Some (Z.min n (remote_rx_window fc), fc') /\ fc_wf fc' /\
    same_config fc fc' /\ local_rx_posted fc' = local_rx_posted fc /\
    remote_rx_window fc' = remote_rx_window fc - Z.min n (remote_rx_window fc).
Proof using Hwf Hops.
  intros Hn. exists (remote_rx_window_dec_non_atomic fc n).2.
  assert (ops_remote_rx_window_dec fc n = Some (remote_rx_window_dec_non_atomic fc n)) as ->.
  { unfold ops_remote_rx_window_dec, call_op. rewrite remote_rx_window_dec_agree by done. by destruct (ops fc). }
  pose proof Hwf as (?&?&?&?&?&?&?&?&?). unfold remote_rx_window_dec_non_atomic, remote_rx_window_exchange_non_atomic.
  destruct (Z.leb_spec n (remote_rx_window fc)); fc_simpl.
  - rewrite Z.min_l by lia. rewrite u16_small by lia. split_and!; try done. unfold fc_wf. fc_simpl. split_and!; fc_arith.
  - rewrite Z.min_r by lia. split_and!; try done; [|lia]. unfold fc_wf. fc_simpl. split_and!; fc_arith.
Qed.

Lemma ops_posted_inc_spec n : in_u16 n ->
  exists fc', ops_local_rx_posted_inc fc n = Some (local_rx_posted fc', fc') /\ fc_wf fc' /\ same_config fc fc' /\
    remote_rx_window fc' = remote_rx_window fc /\
    local_rx_posted fc' = if UINT16_MAX <? local_rx_posted fc + n then local_rx_posted fc else local_rx_posted fc + n.
Proof using Hwf Hops.
  intros Hn. exists (local_rx_posted_inc_non_atomic fc n).2.
  assert (ops_local_rx_posted_inc fc n = Some (local_rx_posted_inc_non_atomic fc n)) as ->.
  { unfold ops_local_rx_posted_inc, call_op. rewrite local_rx_posted_inc_agree by done. by destruct (ops fc). }
  pose proof Hwf as (?&?&?&?&?&?&?&?&?). unfold local_rx_posted_inc_non_atomic.
  destruct (Z.ltb_spec UINT16_MAX (local_rx_posted fc + n)); fc_simpl.
  - split_and!; try done. unfold fc_wf. fc_simpl. split_and!; fc_arith.
  - unfold UINT16_MAX in *. rewrite u16_small by lia. split_and!; try done. unfold fc_wf. fc_simpl. split_and!; fc_arith.
Qed.

Lemma ops_posted_exchange_spec :
  exists fc', ops_local_rx_posted_exchange fc = Some (local_rx_posted fc, fc') /\ fc_wf fc' /\ same_config fc fc' /\
    remote_rx_window fc' = remote_rx_window fc /\ local_rx_posted fc' = 0.
Proof using Hwf Hops.
  exists (local_rx_posted_exchange_non_atomic fc).2.
  assert (ops_local_rx_posted_exchange fc = Some (local_rx_posted_exchange_non_atomic fc)) as ->.
  { unfold ops_local_rx_posted_exchange, call_op. rewrite local_rx_posted_exchange_agree by done. by destruct (ops fc). }
  pose proof Hwf as (?&?&?&?&?&?&?&?&?). unfold local_rx_posted_exchange_non_atomic. fc_simpl.
  split_and!; try done. unfold fc_wf. fc_simpl. split_and!; fc_arith.
Qed.
End contracts.

(** Initialisation yields a well-formed structure with positive thresholds. *)
Lemma flow_control_init_spec rx tx feature cfg :
  in_u16 (cfg_initial_window cfg) -> in_u16 (cfg_notify_interval cfg) ->
  let fc := (umq_ub_flow_control_init rx tx feature cfg).2 in
  fc_wf fc /\ remote_rx_window fc = 0 /\ local_rx_posted fc = 0 /\ local_set fc = false /\ remote_get fc = false /\
  (enabled fc = true -> ops fc <> OpsNull /\ 1 <= initial_window fc /\ 1 <= notify_interval fc).
Proof.
  intros H1 H2. unfold umq_ub_flow_control_init.
  destruct (Z.land feature UMQ_FEATURE_ENABLE_FLOW_CONTROL =? 0); simpl; [unfold fc_wf; simpl; split_and!; lia || done|].
  pose proof (u16_range rx).
  assert (0 <= Z.shiftr (u16 rx) 1) by (apply Z.shiftr_nonneg; lia).
  assert (0 <= Z.shiftr (u16 rx) UMQ_UB_FLOW_CONTROL_NOTIFY_THR) by (apply Z.shiftr_nonneg; lia).
  destruct (_ || _), (_ || _); simpl; split_ifs; breflect; simpl in *; unfold fc_wf; simpl;
    (split_and!; try (done || lia)); intros _; (split_and!; done || lia).
Qed.
