(* ===== verification/UmqTx.v ===== *)
(** * UB data path with flow control
      (src/urpc/umq/umq_ub/core: flow_control/umq_ub_flow_control.c, private/umq_pro_ub.c, umq_ub_imm_data.h)

    The handlers that move messages and credits: posting sends and receives,
    polling their completions, the credit notifications and their recovery after
    a failure.  They run in a state and failure monad over [world]: the queue,
    the transport attributes of the buffers, the answers the jetty will give and
    the work requests it has accepted.  A result [None] is undefined behaviour of
    the C code (null pointer call or dereference).

    [CreditSystem] composes two of these queues. *)

From S2P Require Import Prelude Memory FlowControl.

Definition UMQ_BATCH_SIZE : Z := 64.
Definition UMQ_MAX_TSEG_NUM : Z := 255.
Definition UMQ_ERR_EAGAIN : Z := 11.
Definition UMQ_ERR_ENOMEM : Z := 12.
Definition UMQ_ERR_ENODEV : Z := 19.
Definition UMQ_ERR_EINVAL : Z := 22.
Definition UMQ_ERR_ETSEG_NON_IMPORTED : Z := 513.
Definition URMA_SUCCESS : Z := 0.

(** [umq_opcode_t]; [urma_opcode_t] has the same values for these operations. *)
Definition UMQ_OPC_WRITE : Z := 0.
Definition UMQ_OPC_WRITE_IMM : Z := 1.
Definition UMQ_OPC_READ : Z := 16.
Definition UMQ_OPC_SEND : Z := 64.
Definition UMQ_OPC_SEND_IMM : Z := 65.
Definition UMQ_OPC_LAST : Z := 82.
Definition URMA_OPC_WRITE : Z := 0.
Definition URMA_OPC_WRITE_IMM : Z := 1.
Definition URMA_OPC_READ : Z := 16.
Definition URMA_OPC_SEND : Z := 64.
Definition URMA_OPC_SEND_IMM : Z := 65.

(** ** Immediate data (union umq_ub_imm, bit fields from the least significant bit) *)

Definition UMQ_UB_IMM_WITHOUT_PRIVATE_BITS : Z := 2 ^ 64 - 2.
Definition UMQ_UB_IMM_PRIVATE : Z := 1.
Definition UMQ_UB_IMM_IN_USER_BUF : Z := 1.
Definition IMM_TYPE_FLOW_CONTROL : Z := 1.
Definition IMM_TYPE_MEM : Z := 2.
Definition IMM_TYPE_MEM_IMPORT : Z := 0.
Definition IMM_TYPE_MEM_IMPORT_DONE : Z := 1.

Definition bits (v off width : Z) : Z := Z.land (Z.shiftr v off) (Z.ones width).

Definition imm_private (v : Z) : Z := bits v 0 1.
Definition imm_type (v : Z) : Z := bits v 1 5.
Definition imm_sub_type (v : Z) : Z := bits v 6 5.
Definition imm_in_user_buf (v : Z) : Z := bits v 6 1.
Definition imm_window (v : Z) : Z := bits v 16 16.

(** The flow_control variant with its reserved bits cleared. *)
Definition imm_flow_control (in_user_buf window : Z) : Z :=
  Z.lor UMQ_UB_IMM_PRIVATE
    (Z.lor (Z.shiftl IMM_TYPE_FLOW_CONTROL 1)
       (Z.lor (Z.shiftl in_user_buf 6) (Z.shiftl (Z.land window (Z.ones 16)) 16))).

Definition is_flow_control_imm (v : Z) : bool :=
  negb (imm_private v =? 0) && (imm_type v =? IMM_TYPE_FLOW_CONTROL).

(** ** State *)

Inductive umq_state := QUEUE_STATE_IDLE | QUEUE_STATE_READY | QUEUE_STATE_ERR.

(** The fields of [ub_queue_t] the data path reads or writes.  [notify_local] and
    [notify_remote] are the two 16-bit words at OFFSET_FLOW_CONTROL of the notify
    buffer; [rx_idle], [rx_used] and [rx_buffer] the receive context list. *)
Record ub_queue := {
  bound : bool;
  flow_control : ub_flow_control;
  max_tx_sge : Z;
  max_rx_sge : Z;
  tx_buf_size : Z;
  remote_rx_buf_size : Z;
  state : umq_state;
  tx_flush_done : bool;
  notify_local : Z;
  notify_remote : Z;
  rx_idle : list Z;
  rx_used : list Z;
  rx_buffer : gmap Z Z
}.

(** A work request for the jetty. *)
Record jfs_wr := { wr_user_ctx : Z; wr_opcode : Z; wr_imm : Z; wr_sges : list (Z * Z) }.

(** What the jetty answers to the next post: all accepted, or a status with the
    position of [bad_wr] (the requests before it are accepted; None is NULL). *)
Inductive post_answer := PostOk | PostFail (status : Z) (bad : option nat).

(** [umq_buf_pro_t] in [qbuf_ext] of a buffer. *)
Record umq_buf_pro := { opcode : Z; imm_data : Z; umq_ctx : Z }.

Record world := {
  w_queue : ub_queue;
  w_pro : gmap Z umq_buf_pro;      (* by buffer address *)
  w_answers : list post_answer;    (* exhausted: PostOk *)
  w_sent : list jfs_wr;            (* accepted by the jetty, oldest first *)
  w_rqes : Z                       (* receive requests accepted by the jetty *)
}.

Definition set_fc (fc : ub_flow_control) (q : ub_queue) : ub_queue :=
  {| bound := bound q; flow_control := fc; max_tx_sge := max_tx_sge q; max_rx_sge := max_rx_sge q;
     tx_buf_size := tx_buf_size q; remote_rx_buf_size := remote_rx_buf_size q; state := state q;
     tx_flush_done := tx_flush_done q; notify_local := notify_local q; notify_remote := notify_remote q;
     rx_idle := rx_idle q; rx_used := rx_used q; rx_buffer := rx_buffer q |}.
Definition set_notify_local (n : Z) (q : ub_queue) : ub_queue :=
  {| bound := bound q; flow_control := flow_control q; max_tx_sge := max_tx_sge q; max_rx_sge := max_rx_sge q;
     tx_buf_size := tx_buf_size q; remote_rx_buf_size := remote_rx_buf_size q; state := state q;
     tx_flush_done := tx_flush_done q; notify_local := n; notify_remote := notify_remote q;
     rx_idle := rx_idle q; rx_used := rx_used q; rx_buffer := rx_buffer q |}.
Definition set_state (s : umq_state) (flush : bool) (q : ub_queue) : ub_queue :=
  {| bound := bound q; flow_control := flow_control q; max_tx_sge := max_tx_sge q; max_rx_sge := max_rx_sge q;
     tx_buf_size := tx_buf_size q; remote_rx_buf_size := remote_rx_buf_size q; state := s;
     tx_flush_done := flush; notify_local := notify_local q; notify_remote := notify_remote q;
     rx_idle := rx_idle q; rx_used := rx_used q; rx_buffer := rx_buffer q |}.
Definition set_rx_ctx (idle used : list Z) (m : gmap Z Z) (q : ub_queue) : ub_queue :=
  {| bound := bound q; flow_control := flow_control q; max_tx_sge := max_tx_sge q; max_rx_sge := max_rx_sge q;
     tx_buf_size := tx_buf_size q; remote_rx_buf_size := remote_rx_buf_size q; state := state q;
     tx_flush_done := tx_flush_done q; notify_local := notify_local q; notify_remote := notify_remote q;
     rx_idle := idle; rx_used := used; rx_buffer := m |}.

(** ** Monad *)

Definition M (A : Type) : Type := world -> option (A * world).

#[export] Instance M_ret : MRet M := fun A x w => Some (x, w).
#[export] Instance M_bind : MBind M := fun A B f m w =>
  match m w with Some (x, w') => f x w' | None => None end.

Definition undefined {A} : M A := fun _ => None.
Definition get_queue : M ub_queue := fun w => Some (w_queue w, w).
Definition put_queue (q : ub_queue) : M unit := fun w =>
  Some (tt, {| w_queue := q; w_pro := w_pro w; w_answers := w_answers w; w_sent := w_sent w;
             w_rqes := w_rqes w |}).
Definition get_fc : M ub_flow_control := fun w => Some (flow_control (w_queue w), w).
Definition put_fc (fc : ub_flow_control) : M unit := fun w =>
  Some (tt, {| w_queue := set_fc fc (w_queue w); w_pro := w_pro w; w_answers := w_answers w; w_sent := w_sent w;
             w_rqes := w_rqes w |}).
Definition get_pro (addr : Z) : M umq_buf_pro := fun w =>
  match w_pro w !! addr with Some p => Some (p, w) | None => None end.
Definition put_pro (addr : Z) (p : umq_buf_pro) : M unit := fun w =>
  Some (tt, {| w_queue := w_queue w; w_pro := <[addr := p]> (w_pro w); w_answers := w_answers w; w_sent := w_sent w;
             w_rqes := w_rqes w |}).

(** Assignment of [opcode] and [imm_data]. *)
Definition set_pro (addr op imm : Z) : M unit :=
  p ← get_pro addr; put_pro addr {| opcode := op; imm_data := imm; umq_ctx := umq_ctx p |}.

(** A table call on the flow control structure. *)
Definition fc_call {A} (f : ub_flow_control -> option (A * ub_flow_control)) : M A :=
  fc ← get_fc;
  match f fc with
  | Some (r, fc) => put_fc fc ≫= fun _ => mret r
  | None => undefined
  end.

(** [urma_post_jetty_send_wr]: the status and [bad_wr]. *)
Definition urma_post_jetty_send_wr (wrs : list jfs_wr) : M (Z * option jfs_wr) := fun w =>
  let rest := tail (w_answers w) in
  let result st bad acc :=
    Some ((st, bad), {| w_queue := w_queue w; w_pro := w_pro w; w_answers := rest; w_sent := w_sent w ++ acc;
                       w_rqes := w_rqes w |}) in
  match w_answers w with
  | PostFail st bad :: _ =>
      match bad ≫= fun k => (fun wr => (k, wr)) <$> wrs !! k with
      | Some (k, wr) => result st (Some wr) (take k wrs)
      | None => result st None []
      end
  | PostOk :: _ | [] => result URMA_SUCCESS None wrs
  end.

(** ** Window and notification handlers *)

(** The read of the peer's initial window is a request with user_ctx 0. *)
Definition window_read_wr : jfs_wr :=
  {| wr_user_ctx := 0; wr_opcode := URMA_OPC_READ; wr_imm := 0; wr_sges := [] |}.

Definition umq_ub_window_read : M unit :=
  q ← get_queue;
  if negb (enabled (flow_control q)) || negb (bound q) then mret tt
  else
    '(status, _) ← urma_post_jetty_send_wr [window_read_wr];
    if status =? URMA_SUCCESS then fc ← get_fc; put_fc (set_remote_get true fc) else mret tt.

Definition umq_ub_window_inc (win : Z) : M unit :=
  fc ← get_fc;
  if (win =? 0) || negb (enabled fc) then mret tt
  else _ ← fc_call (fun fc => ops_remote_rx_window_inc fc win); mret tt.

Definition umq_ub_window_dec (win : Z) : M Z :=
  fc ← get_fc;
  if (win =? 0) || negb (enabled fc) then mret win
  else if negb (remote_get fc) then _ ← umq_ub_window_read; mret 0
  else fc_call (fun fc => ops_remote_rx_window_dec fc win).

Definition umq_ub_rq_posted_notifier_inc (rx_posted : Z) : M unit :=
  fc ← get_fc;
  if (rx_posted =? 0) || negb (enabled fc) then mret tt
  else _ ← fc_call (fun fc => ops_local_rx_posted_inc fc rx_posted); mret tt.

(** The stand-alone credit message; its user_ctx is the number of credits. *)
Definition notify_wr (notify : Z) : jfs_wr :=
  {| wr_user_ctx := notify; wr_opcode := URMA_OPC_SEND_IMM; wr_imm := imm_flow_control 0 notify; wr_sges := [] |}.

(** First notification: publish the initial window in the notify buffer. *)
Definition notifier_set_initial (notify : Z) : M unit :=
  fc ← get_fc;
  if notify <? initial_window fc then mret tt
  else
    notify ← fc_call ops_local_rx_posted_exchange;
    if notify =? 0 then mret tt
    else
      q ← get_queue;
      _ ← put_queue (set_notify_local notify q);
      fc ← get_fc;
      _ ← put_fc (set_local_set true fc);
      if negb (remote_get fc) then umq_ub_window_read else mret tt.

(** Later notifications: a message that itself takes one credit of the peer. *)
Definition notifier_send (notify : Z) : M unit :=
  fc ← get_fc;
  if notify <? notify_interval fc then mret tt
  else
    got ← umq_ub_window_dec 1;
    if negb (got =? 1) then mret tt
    else
      notify ← fc_call ops_local_rx_posted_exchange;
      if notify =? 0 then umq_ub_window_inc 1
      else
        '(status, _) ← urma_post_jetty_send_wr [notify_wr notify];
        if status =? URMA_SUCCESS then mret tt
        else _ ← umq_ub_window_inc 1; umq_ub_rq_posted_notifier_inc notify.

Definition umq_ub_rq_posted_notifier_update (rx_posted : Z) : M unit :=
  fc ← get_fc;
  if (rx_posted =? 0) || negb (enabled fc) then mret tt
  else
    notify ← fc_call (fun fc => ops_local_rx_posted_inc fc rx_posted);
    q ← get_queue;
    if negb (bound q) then mret tt
    else if negb (local_set (flow_control q)) then notifier_set_initial notify
    else notifier_send notify.

(** Piggyback the posted count on a user send; the request and the buffer's
    transport attributes become SEND_IMM. *)
Definition umq_ub_fill_tx_imm (wr : jfs_wr) : M jfs_wr :=
  fc ← get_fc;
  if negb (enabled fc) || negb (wr_opcode wr =? URMA_OPC_SEND) then mret wr
  else
    match ops_local_rx_posted_load fc with
    | None => undefined
    | Some notify =>
        if notify <? notify_interval fc then mret wr
        else
          notify ← fc_call ops_local_rx_posted_exchange;
          if notify =? 0 then mret wr
          else
            let imm := imm_flow_control UMQ_UB_IMM_IN_USER_BUF notify in
            _ ← set_pro (wr_user_ctx wr) UMQ_OPC_SEND_IMM imm;
            mret {| wr_user_ctx := wr_user_ctx wr; wr_opcode := URMA_OPC_SEND_IMM; wr_imm := imm; wr_sges := wr_sges wr |}
    end.

(** The loop of [umq_ub_recover_tx_imm]: from the failed buffer on, take back the
    piggybacked credits. *)
Fixpoint recover_loop (found : bool) (bad : Z) (wrs : list jfs_wr) : M unit :=
  match wrs with
  | [] => mret tt
  | wr :: rest =>
      let found := found || (wr_user_ctx wr =? bad) in
      if found && (wr_opcode wr =? URMA_OPC_SEND_IMM) && is_flow_control_imm (wr_imm wr) then
        _ ← umq_ub_rq_posted_notifier_update (imm_window (wr_imm wr));
        _ ← set_pro (wr_user_ctx wr) UMQ_OPC_SEND 0;
        recover_loop found bad rest
      else recover_loop found bad rest
  end.

Definition umq_ub_recover_tx_imm (wrs : list jfs_wr) (bad : Z) : M unit :=
  fc ← get_fc;
  if negb (enabled fc) then mret tt else recover_loop false bad wrs.

(** ** Posting sends *)

(** A buffer of the chain: the part a send reads ([qbuf_next] is the list order). *)
Record umq_buf := {
  buf_addr : Z;
  total_data_size : Z;
  data_size : Z;
  remote_length : Z;
  remote_mempool_id : Z
}.

Definition opcode_index_map (op : Z) : Z :=
  if op =? UMQ_OPC_WRITE then URMA_OPC_WRITE
  else if op =? UMQ_OPC_WRITE_IMM then URMA_OPC_WRITE_IMM
  else if op =? UMQ_OPC_READ then URMA_OPC_READ
  else if op =? UMQ_OPC_SEND then URMA_OPC_SEND
  else if op =? UMQ_OPC_SEND_IMM then URMA_OPC_SEND_IMM
  else 0.

Definition transform_op_code (op : Z) : Z :=
  let opcode_index := u32 op in
  if opcode_index <? UMQ_OPC_LAST then
    let code := opcode_index_map opcode_index in
    if (code =? 0) && negb (opcode_index =? UMQ_OPC_WRITE) then URMA_OPC_SEND else code
  else URMA_OPC_SEND.

Definition consumes_rqe (op : Z) : bool :=
  (op =? UMQ_OPC_SEND) || (op =? UMQ_OPC_SEND_IMM) || (op =? UMQ_OPC_WRITE_IMM).

Section tx.
(** [queue->imported_tseg_list[id] != NULL] for an id below UMQ_MAX_TSEG_NUM. *)
Context (imported : Z -> bool).

(** The checks of [umq_ub_fill_wr] and the immediate data it sets. *)
Definition umq_ub_fill_wr (buf : umq_buf) (op imm : Z) : Z * Z :=
  let tseg_bad := (UMQ_MAX_TSEG_NUM <=? remote_mempool_id buf) || negb (imported (remote_mempool_id buf)) in
  let user_imm := Z.land imm UMQ_UB_IMM_WITHOUT_PRIVATE_BITS in
  if op =? UMQ_OPC_READ then
    if total_data_size buf <? remote_length buf then (- UMQ_ERR_EINVAL, 0)
    else if tseg_bad then (- UMQ_ERR_ETSEG_NON_IMPORTED, 0) else (UMQ_SUCCESS, 0)
  else if (op =? UMQ_OPC_WRITE_IMM) || (op =? UMQ_OPC_WRITE) then
    if remote_length buf <? total_data_size buf then (- UMQ_ERR_EINVAL, 0)
    else if tseg_bad then (- UMQ_ERR_ETSEG_NON_IMPORTED, 0)
    else (UMQ_SUCCESS, if op =? UMQ_OPC_WRITE_IMM then user_imm else 0)
  else if op =? UMQ_OPC_SEND_IMM then (UMQ_SUCCESS, user_imm)
  else (UMQ_SUCCESS, 0).

(** Collect buffers up to [rest] bytes: the scatter list and the remaining chain. *)
Fixpoint gather_sges (max_sge rest sge_num : Z) (bufs : list umq_buf) : Z + (list (Z * Z) * list umq_buf) :=
  match bufs with
  | [] => if rest =? 0 then inr ([], []) else inl (- UMQ_ERR_ENOMEM)
  | b :: tl =>
      if 0 <? rest then
        if max_sge <=? sge_num then inl (- UMQ_ERR_EINVAL)
        else if rest <? data_size b then inl (- UMQ_ERR_EINVAL)
        else match gather_sges max_sge (rest - data_size b) (sge_num + 1) tl with
             | inl e => inl e
             | inr (sges, chain) => inr ((buf_addr b, data_size b) :: sges, chain)
             end
      else inr ([], bufs)
  end.

(** The outer loop of [umq_ub_post_tx] with [n] requests left before
    UMQ_BATCH_SIZE: the code, the requests built, and whether the last opcode
    consumes a receive buffer. *)
Fixpoint build_wrs (n : nat) (bufs : list umq_buf) (consume : bool) : M (Z * list jfs_wr * bool) :=
  match bufs with
  | [] => mret (UMQ_SUCCESS, [], consume)
  | b :: _ =>
      match n with
      | O => mret (- UMQ_ERR_EINVAL, [], consume)
      | S n =>
          q ← get_queue;
          pro ← get_pro (buf_addr b);
          let op := opcode pro in
          let max_send_size := Z.min (tx_buf_size q) (remote_rx_buf_size q) in
          if (max_send_size <? total_data_size b) && ((op =? UMQ_OPC_SEND) || (op =? UMQ_OPC_SEND_IMM))
          then mret (- UMQ_ERR_EINVAL, [], consume)
          else
            match gather_sges (max_tx_sge q) (total_data_size b) 0 bufs with
            | inl e => mret (e, [], consume)
            | inr (sges, chain) =>
                let '(ret, wimm) := umq_ub_fill_wr b op (imm_data pro) in
                if negb (ret =? UMQ_SUCCESS) then mret (ret, [], consume)
                else
                  wr ← umq_ub_fill_tx_imm {| wr_user_ctx := buf_addr b; wr_opcode := transform_op_code op;
                                             wr_imm := wimm; wr_sges := sges |};
                  '(ret, wrs, c) ← build_wrs n chain (consumes_rqe op);
                  mret (ret, wr :: wrs, c)
            end
      end
  end.

Fixpoint umq_ub_tx_failed_num (wrs : list jfs_wr) (bad : Z) : Z :=
  match wrs with
  | [] => 0
  | wr :: rest => if wr_user_ctx wr =? bad then zlen wrs else umq_ub_tx_failed_num rest bad
  end.

(** [umq_ub_post_tx]: the return value and [bad_qbuf] (0 is NULL). *)
Definition umq_ub_post_tx (bufs : list umq_buf) : M (Z * Z) :=
  match bufs with
  | [] => undefined
  | b0 :: _ =>
      let qbuf := buf_addr b0 in
      q ← get_queue;
      if negb (bound q) then mret (- UMQ_ERR_ENODEV, qbuf)
      else
        built ← build_wrs (Z.to_nat UMQ_BATCH_SIZE) bufs false;
        let '(ret, wrs, consume) := built : Z * list jfs_wr * bool in
        if negb (ret =? UMQ_SUCCESS) then _ ← umq_ub_recover_tx_imm wrs qbuf; mret (ret, qbuf)
        else
          max_tx ← (if consume then umq_ub_window_dec (zlen wrs) else mret (zlen wrs));
          if max_tx =? 0 then _ ← umq_ub_recover_tx_imm wrs qbuf; mret (- UMQ_ERR_EAGAIN, qbuf)
          else
            let posted := take (Z.to_nat max_tx) wrs in
            '(status, bad_wr) ← urma_post_jetty_send_wr posted;
            if negb (status =? URMA_SUCCESS) then
              let bad := match bad_wr with Some wr => wr_user_ctx wr | None => qbuf end in
              _ ← (if consume then umq_ub_window_inc (umq_ub_tx_failed_num posted bad) else mret tt);
              _ ← umq_ub_recover_tx_imm wrs bad;
              mret (- status, bad)
            else if max_tx <? zlen wrs then
              match wrs !! Z.to_nat max_tx with
              | None => undefined
              | Some wr => _ ← umq_ub_recover_tx_imm wrs (wr_user_ctx wr); mret (- UMQ_ERR_EAGAIN, wr_user_ctx wr)
              end
            else mret (UMQ_SUCCESS, 0)
  end.
End tx.

(** ** Posting receives *)

Definition queue_rx_buf_ctx_get : M (option Z) :=
  q ← get_queue;
  match rx_idle q with
  | [] => mret None
  | ctx :: idle => _ ← put_queue (set_rx_ctx idle (rx_used q ++ [ctx]) (rx_buffer q) q); mret (Some ctx)
  end.

(** The node leaves the list it is in and goes to the end of the idle list. *)
Definition queue_rx_buf_ctx_put (ctx : Z) : M unit :=
  q ← get_queue;
  put_queue (set_rx_ctx (filter (.≠ ctx) (rx_idle q) ++ [ctx]) (filter (.≠ ctx) (rx_used q)) (rx_buffer q) q).

Definition set_ctx_buffer (ctx buf : Z) : M unit :=
  q ← get_queue; put_queue (set_rx_ctx (rx_idle q) (rx_used q) (<[ctx := buf]> (rx_buffer q)) q).

(** A receive request: its context and the segment of the chain it holds. *)
Abbreviation recv_wr := (Z * list umq_buf)%type.

(** Collect a segment of [rest] bytes; None when the sizes do not add up. *)
Fixpoint gather_segment (max_sge rest sge_num : Z) (bufs : list umq_buf) : option (list umq_buf * list umq_buf) :=
  match bufs with
  | [] => if rest =? 0 then Some ([], []) else None
  | b :: tl =>
      if 0 <? rest then
        if max_sge <=? sge_num then None
        else if rest <? data_size b then None
        else match gather_segment max_sge (rest - data_size b) (sge_num + 1) tl with
             | None => None
             | Some (seg, chain) => Some (b :: seg, chain)
             end
      else Some ([], bufs)
  end.

(** The loop of [umq_ub_post_rx_inner_impl]: whether it completed, the requests
    built and the chain not yet in a request.  [last] is [wr_last_buf != NULL]. *)
Fixpoint build_recv (n : nat) (bufs : list umq_buf) (last : bool) : M (bool * list recv_wr * list umq_buf) :=
  match bufs with
  | [] => mret (true, [], [])
  | b :: _ =>
      match n with
      | O => mret (false, [], bufs)
      | S n =>
          r ← queue_rx_buf_ctx_get;
          match r with
          | None => mret (false, [], bufs)
          | Some ctx =>
              _ ← set_ctx_buffer ctx (buf_addr b);
              q ← get_queue;
              match gather_segment (max_rx_sge q) (total_data_size b) 0 bufs with
              | None => _ ← queue_rx_buf_ctx_put ctx; mret (false, [], bufs)
              | Some (seg, chain) =>
                  let last := last || (0 <? total_data_size b) in
                  if negb last then undefined
                  else '(ok, wrs, rest) ← build_recv n chain last; mret (ok, (ctx, seg) :: wrs, rest)
              end
          end
      end
  end.

(** Put the contexts back and relink the segments in front of [end_buf]. *)
Fixpoint process_bad_wr (wrs : list recv_wr) (end_buf : list umq_buf) : M (list umq_buf) :=
  match wrs with
  | [] => mret end_buf
  | (ctx, seg) :: rest => _ ← queue_rx_buf_ctx_put ctx; chain ← process_bad_wr rest end_buf; mret (seg ++ chain)
  end.

Fixpoint umq_ub_post_rx_failed_num (wrs : list recv_wr) (bad : Z) : Z :=
  match wrs with
  | [] => 0
  | (ctx, _) :: rest => if ctx =? bad then zlen wrs else umq_ub_post_rx_failed_num rest bad
  end.

(** [urma_post_jetty_recv_wr]: the status and the requests from [bad_wr] on. *)
Definition urma_post_jetty_recv_wr (wrs : list recv_wr) : M (Z * list recv_wr) := fun w =>
  let result st bad n :=
    Some ((st, bad), {| w_queue := w_queue w; w_pro := w_pro w; w_answers := tail (w_answers w); w_sent := w_sent w;
                       w_rqes := w_rqes w + n |}) in
  match w_answers w with
  | PostFail st bad :: _ =>
      match bad ≫= fun k => (fun _ => k) <$> wrs !! k with
      | Some k => result st (drop k wrs) (Z.of_nat k)
      | None => result st [] 0
      end
  | PostOk :: _ | [] => result URMA_SUCCESS [] (zlen wrs)
  end.

(** The return value, [bad_qbuf] and the chain handed back to the caller. *)
Definition umq_ub_post_rx_inner_impl (bufs : list umq_buf) : M (Z * Z * list umq_buf) :=
  match bufs with
  | [] => undefined
  | b0 :: _ =>
      '(ok, wrs, rest) ← build_recv (Z.to_nat UMQ_BATCH_SIZE) bufs false;
      if negb ok then
        match wrs with
        | [] => mret (UMQ_FAIL, buf_addr b0, bufs)
        | (ctx, _) :: _ =>
            q ← get_queue;
            match rx_buffer q !! ctx with
            | None => undefined
            | Some first => chain ← process_bad_wr wrs rest; mret (UMQ_FAIL, first, chain)
            end
        end
      else
        '(status, bad_wrs) ← urma_post_jetty_recv_wr wrs;
        if negb (status =? URMA_SUCCESS) then
          let bad := match bad_wrs with (ctx, _) :: _ => ctx | [] => buf_addr b0 end in
          _ ← umq_ub_rq_posted_notifier_update (umq_ub_post_rx_failed_num wrs bad);
          chain ← process_bad_wr bad_wrs [];
          mret (- UMQ_ERR_EAGAIN, bad, chain)
        else _ ← umq_ub_rq_posted_notifier_update (zlen wrs); mret (UMQ_SUCCESS, 0, [])
  end.

(** ** Completions *)

Record urma_cr := { cr_status : Z; cr_user_ctx : Z; cr_opcode : Z; cr_imm : Z; cr_local_id : Z }.

Definition URMA_CR_SUCCESS : Z := 0.
Definition URMA_CR_WR_SUSPEND_DONE : Z := 12.
Definition URMA_CR_WR_FLUSH_ERR_DONE : Z := 13.
Definition URMA_CR_OPC_SEND_WITH_IMM : Z := 1.
Definition UMQ_BUF_FLOW_CONTROL_UPDATE : Z := 128.
Definition UMQ_MEMPOOL_UPDATE_SUCCESS : Z := 129.
Definition UMQ_MEMPOOL_UPDATE_FAILED : Z := 130.
Definition UMQ_CONTINUE_FLAG : Z := 1.

Section completions.
(** [umq_ctx_jetty_table], and the import of a memory pool announced by the peer
    ([umq_ub_data_plan_import_mem]), which returns whether it succeeded. *)
Context (jetty_table : Z -> Z) (import_mem : Z -> M bool).

(** The buffer status after an arriving message ([qbuf_status]). *)
Definition umq_ub_on_rx_done (cr : urma_cr) (rx_buf status : Z) : M Z :=
  if negb (cr_opcode cr =? URMA_CR_OPC_SEND_WITH_IMM) then mret status
  else
    p ← get_pro rx_buf;
    _ ← put_pro rx_buf {| opcode := opcode p; imm_data := imm_data p; umq_ctx := jetty_table (cr_local_id cr) |};
    let imm := cr_imm cr in
    if imm_private imm =? 0 then _ ← set_pro rx_buf (opcode p) imm; mret status
    else if imm_type imm =? IMM_TYPE_FLOW_CONTROL then
      _ ← umq_ub_window_inc (imm_window imm);
      if imm_in_user_buf imm =? UMQ_UB_IMM_IN_USER_BUF
      then _ ← set_pro rx_buf UMQ_OPC_SEND 0; mret UMQ_BUF_FLOW_CONTROL_UPDATE
      else mret UMQ_BUF_FLOW_CONTROL_UPDATE
    else if (imm_type imm =? IMM_TYPE_MEM) && (imm_sub_type imm =? IMM_TYPE_MEM_IMPORT) then
      ok ← import_mem rx_buf;
      mret (if ok : bool then UMQ_MEMPOOL_UPDATE_SUCCESS else UMQ_MEMPOOL_UPDATE_FAILED)
    else mret status.

Definition umq_ub_on_tx_done (buf : Z) (failed : bool) : M unit :=
  p ← get_pro buf;
  _ ← (if failed && consumes_rqe (opcode p) then umq_ub_window_inc 1 else mret tt);
  if negb (opcode p =? UMQ_OPC_SEND_IMM) then mret tt
  else if negb (is_flow_control_imm (imm_data p)) then mret tt
  else
    _ ← (if failed then umq_ub_rq_posted_notifier_inc (imm_window (imm_data p)) else mret tt);
    set_pro buf UMQ_OPC_SEND 0.

(** Whether the completion is consumed by the library (UMQ_CONTINUE_FLAG). *)
Definition process_tx_msg (buf : Z) : M Z :=
  p ← get_pro buf;
  let imm := imm_data p in
  if imm_private imm =? 0 then mret UMQ_SUCCESS
  else if (opcode p =? UMQ_OPC_WRITE_IMM) && (imm_type imm =? IMM_TYPE_MEM) &&
          (imm_sub_type imm =? IMM_TYPE_MEM_IMPORT_DONE) then mret UMQ_CONTINUE_FLAG
  else if (opcode p =? UMQ_OPC_SEND_IMM) && (imm_type imm =? IMM_TYPE_MEM) &&
          (imm_sub_type imm =? IMM_TYPE_MEM_IMPORT) then mret UMQ_CONTINUE_FLAG
  else mret UMQ_SUCCESS.

(** One turn of the loop of [umq_ub_poll_tx]: the buffer and status reported, if any. *)
Definition poll_tx_one (cr : urma_cr) : M (option (Z * Z)) :=
  let ok := cr_status cr =? URMA_CR_SUCCESS in
  if negb ok && (cr_status cr =? URMA_CR_WR_FLUSH_ERR_DONE) then
    q ← get_queue;
    _ ← (match state q with QUEUE_STATE_ERR => put_queue (set_state (state q) true q) | _ => mret tt end);
    mret None
  else if negb ok && (cr_status cr =? URMA_CR_WR_SUSPEND_DONE) then mret None
  else if negb ok && (cr_user_ctx cr =? 0) then
    fc ← get_fc; _ ← put_fc (set_remote_get false fc); mret None
  else if negb ok && (cr_user_ctx cr <=? UINT16_MAX) then
    _ ← umq_ub_window_inc 1;
    _ ← umq_ub_rq_posted_notifier_inc (u16 (cr_user_ctx cr)); mret None
  else if cr_user_ctx cr =? 0 then
    q ← get_queue;
    if notify_remote q =? 0 then
      fc ← get_fc; _ ← put_fc (set_remote_get false fc); _ ← umq_ub_window_read; mret None
    else
      _ ← umq_ub_window_inc (notify_remote q);
      q ← get_queue; _ ← put_queue (set_state QUEUE_STATE_READY (tx_flush_done q) q); mret None
  else if cr_user_ctx cr <=? UINT16_MAX then mret None
  else
    let buf := cr_user_ctx cr in
    _ ← umq_ub_on_tx_done buf (negb ok);
    r ← process_tx_msg buf;
    mret (if r =? UMQ_SUCCESS then Some (buf, cr_status cr) else None).

Fixpoint poll_tx_loop (crs : list urma_cr) : M (list (Z * Z)) :=
  match crs with
  | [] => mret []
  | cr :: rest =>
      r ← poll_tx_one cr;
      out ← poll_tx_loop rest;
      mret (match r with Some x => x :: out | None => out end)
  end.

(** [umq_ub_flush_sqe] on the completions [urma_flush_jetty] returned. *)
Fixpoint umq_ub_flush_sqe (crs : list urma_cr) : list (Z * Z) :=
  match crs with
  | [] => []
  | cr :: rest =>
      if (cr_status cr =? URMA_CR_WR_SUSPEND_DONE) || (cr_status cr =? URMA_CR_WR_FLUSH_ERR_DONE) ||
         (cr_user_ctx cr <=? UINT16_MAX)
      then umq_ub_flush_sqe rest else (cr_user_ctx cr, cr_status cr) :: umq_ub_flush_sqe rest
  end.

(** [polled] are the completions of [urma_poll_jfc] (or its error), [flushed]
    those of [urma_flush_jetty]; the buffers reported, or the error. *)
Definition umq_ub_poll_tx (buf_count : Z) (polled : Z + list urma_cr) (flushed : list urma_cr) : M (Z + list (Z * Z)) :=
  if buf_count =? 0 then mret (inr [])
  else
    match polled with
    | inl err => mret (inl err)
    | inr crs =>
        out ← poll_tx_loop crs;
        q ← get_queue;
        match state q with
        | QUEUE_STATE_ERR =>
            if tx_flush_done q && (zlen out <? buf_count) then mret (inr (out ++ umq_ub_flush_sqe flushed))
            else mret (inr out)
        | _ => mret (inr out)
        end
    end.
End completions.
