(* ===== verification/CreditSystem.v ===== *)
(** * Two queues under flow control: no message without a receive buffer

    Total-correctness triples for the handlers of [UmqTx] with respect to the
    credit accounts of a queue, and a transition system of two bound queues whose
    steps are those handlers, with refused posts, failed sends and their
    recovery.  The theorem: at every reachable state the messages in flight that
    consume a receive buffer are at most the receive buffers the peer has posted
    and not used, so the transport never meets an empty receive queue.  The
    examples at the end are the calls the steps leave out, for which this does
    not hold. *)

From S2P Require Import Prelude Memory FlowControl UmqTx.

(** ** Triples *)

Definition triple {A} (P : world -> Prop) (m : M A) (Q : A -> world -> Prop) : Prop :=
  forall w, P w -> exists a w', m w = Some (a, w') /\ Q a w'.

Lemma triple_ret {A} (P : world -> Prop) (a : A) Q : (forall w, P w -> Q a w) -> triple P (mret a) Q.
Proof. intros H w HP. exists a, w. split; [done|]. by apply H. Qed.

Lemma triple_bind {A B} P (m : M A) Q (f : A -> M B) R :
  triple P m Q -> (forall a, triple (Q a) (f a) R) -> triple P (m ≫= f) R.
Proof.
  intros Hm Hf w HP. destruct (Hm w HP) as (a & w1 & E1 & HQ). destruct (Hf a w1 HQ) as (b & w2 & E2 & HR).
  exists b, w2. split; [|done]. unfold mbind, M_bind. by rewrite E1.
Qed.

Lemma triple_weaken {A} (P P' : world -> Prop) (m : M A) (Q Q' : A -> world -> Prop) :
  triple P m Q -> (forall w, P' w -> P w) -> (forall a w, Q a w -> Q' a w) -> triple P' m Q'.
Proof. intros Hm HP HQ w Hw. destruct (Hm w (HP w Hw)) as (a & w' & E & H). eauto. Qed.

Lemma triple_pre {A} (P P' : world -> Prop) (m : M A) Q :
  triple P m Q -> (forall w, P' w -> P w) -> triple P' m Q.
Proof. intros Hm HP. by eapply triple_weaken. Qed.

Lemma triple_pure {A} (P : world -> Prop) (phi : Prop) (m : M A) Q :
  (phi -> triple P m Q) -> triple (fun w => phi /\ P w) m Q.
Proof. intros H w [Hphi HP]. by apply (H Hphi w). Qed.

(** Reading the state gives the rest of the program a fixed copy of it. *)
Lemma triple_get_queue {B} P (f : ub_queue -> M B) R :
  (forall q, triple (fun w => w_queue w = q /\ P w) (f q) R) -> triple P (get_queue ≫= f) R.
Proof. intros H w HP. destruct (H (w_queue w) w (conj eq_refl HP)) as (b & w' & E & HR). by exists b, w'. Qed.

Lemma triple_get_fc {B} P (f : ub_flow_control -> M B) R :
  (forall fc, triple (fun w => flow_control (w_queue w) = fc /\ P w) (f fc) R) -> triple P (get_fc ≫= f) R.
Proof. intros H w HP. destruct (H _ w (conj eq_refl HP)) as (b & w' & E & HR). by exists b, w'. Qed.

(** ** Credit accounts *)

Definition b2z (b : bool) : Z := if b then 1 else 0.

(** What a request in flight carries: a use of the peer's receive buffer, credits
    for the peer, or a read of the peer's initial window. *)
Definition wr_uses (wr : jfs_wr) : Z := b2z (consumes_rqe (wr_opcode wr)).
Definition wr_credits (wr : jfs_wr) : Z :=
  if (wr_opcode wr =? URMA_OPC_SEND_IMM) && is_flow_control_imm (wr_imm wr) then imm_window (wr_imm wr) else 0.
Definition wr_reads (wr : jfs_wr) : Z := b2z ((wr_opcode wr =? URMA_OPC_READ) && (wr_user_ctx wr =? 0)).

Definition fc_of (w : world) : ub_flow_control := flow_control (w_queue w).

(** Credits the queue holds or has in use towards its peer. *)
Definition out_use (w : world) : Z := remote_rx_window (fc_of w) + zsum wr_uses (w_sent w).

(** Receive buffers of the queue that the peer does not yet know: not notified, in
    a message in flight, or in the notify word the peer has not [taken]. *)
Definition in_use (taken : bool) (w : world) : Z :=
  local_rx_posted (fc_of w) + zsum wr_credits (w_sent w) + (if taken then 0 else notify_local (w_queue w)).

(** What the pair of queues knows about one of them: [g_taken], the peer has added
    this queue's initial window to its own; [g_pub], the initial window already
    read by the peer (0 when none); [g_remote], the last value read from the
    peer; [g_reads], completed reads of the peer's initial window not undone.
    [g_avoid] are buffers that no request in flight names. *)
Record ghost := { g_taken : bool; g_pub : Z; g_remote : Z; g_reads : Z; g_avoid : gset Z }.

Definition set_avoid (D : gset Z) (g : ghost) : ghost :=
  {| g_taken := g_taken g; g_pub := g_pub g; g_remote := g_remote g; g_reads := g_reads g; g_avoid := D |}.

(** The credits a failed send of a buffer gives back. *)
Definition pro_credits (p : umq_buf_pro) : Z :=
  if (opcode p =? UMQ_OPC_SEND_IMM) && is_flow_control_imm (imm_data p) then imm_window (imm_data p) else 0.

(** What the completion of a failed request takes back is what the request
    carries: by its [user_ctx] for the requests of the library, by the attributes
    of the buffer for the others. *)
Definition matches (m : gmap Z umq_buf_pro) (wr : jfs_wr) : Prop :=
  if wr_user_ctx wr <=? UINT16_MAX
  then wr_reads wr = 1 \/ (wr_user_ctx wr <> 0 /\ 0 <= wr_user_ctx wr /\ wr_uses wr = 1 /\ wr_credits wr = wr_user_ctx wr)
  else exists p, m !! wr_user_ctx wr = Some p /\
    b2z (consumes_rqe (opcode p)) <= wr_uses wr /\ pro_credits p <= wr_credits wr.

(** Immediate data of a message in flight: the user's, or credits. *)
Definition clean (wr : jfs_wr) : Prop :=
  wr_opcode wr = URMA_OPC_SEND_IMM -> imm_private (wr_imm wr) = 0 \/ is_flow_control_imm (wr_imm wr) = true.

(** [a] bounds the credits used, [b] the receive buffers owed to the peer. *)
Record inv (g : ghost) (a b : Z) (w : world) : Prop := {
  inv_fc : fc_wf (fc_of w);
  inv_ops : ops (fc_of w) <> OpsNull;
  inv_enabled : enabled (fc_of w) = true;
  inv_bound : bound (w_queue w) = true;
  inv_notify : in_u16 (notify_local (w_queue w));
  inv_unset : local_set (fc_of w) = false -> notify_local (w_queue w) = 0 /\ g_taken g = false /\ g_pub g = 0;
  inv_pub : g_pub g <> 0 -> notify_local (w_queue w) = g_pub g;
  inv_remote : notify_remote (w_queue w) = g_remote g;
  inv_reads : zsum wr_reads (w_sent w) + g_reads g <= 1;
  inv_get : remote_get (fc_of w) = false -> zsum wr_reads (w_sent w) + g_reads g = 0;
  inv_clean : Forall clean (w_sent w);
  inv_match : Forall (matches (w_pro w)) (w_sent w);
  inv_avoid : Forall (fun wr => wr_user_ctx wr ∉ g_avoid g) (w_sent w);
  inv_big : forall addr, addr ∈ g_avoid g -> UINT16_MAX < addr;
  inv_out : out_use w <= a;
  inv_in : in_use (g_taken g) w <= b
}.

Lemma inv_mono g a b a' b' w : inv g a b w -> a <= a' -> b <= b' -> inv g a' b' w.
Proof. intros [] ? ?. split; try done; lia. Qed.

(** Fewer buffers are kept out of flight. *)
Lemma inv_fewer g D a b w : D ⊆ g_avoid g -> inv g a b w -> inv (set_avoid D g) a b w.
Proof.
  intros HD []. split; simpl; try done; [|by auto].
  eapply Forall_impl; [exact inv_avoid0|]. intros wr Hwr Hin. by apply Hwr, HD.
Qed.

(** Buffers that no request in flight names are kept out of flight. *)
Lemma inv_more g D a b w :
  (forall addr, addr ∈ D -> UINT16_MAX < addr) -> Forall (fun wr => wr_user_ctx wr ∉ D) (w_sent w) ->
  inv g a b w -> inv (set_avoid D g) a b w.
Proof. intros H1 H2 []. by split. Qed.

Lemma set_avoid_id g : set_avoid (g_avoid g) g = g.
Proof. by destruct g. Qed.

Ltac inv_weaken := cbv beta in *; eapply inv_mono; [eassumption|lia|lia].

(** ** Immediate data *)

Lemma bits_mod v off width : 0 <= off -> 0 <= width -> bits v off width = (v / 2 ^ off) mod 2 ^ width.
Proof. intros. unfold bits. rewrite Z.land_ones, Z.shiftr_div_pow2 by done. done. Qed.

Lemma lor_add a b : Z.land a b = 0 -> Z.lor a b = a + b.
Proof. intros H. pose proof (Z.add_lor_land a b). lia. Qed.

Lemma imm_flow_control_value u n : u = 0 \/ u = 1 -> in_u16 n -> imm_flow_control u n = 3 + 64 * u + 65536 * n.
Proof.
  intros Hu Hn. unfold imm_flow_control, UMQ_UB_IMM_PRIVATE, IMM_TYPE_FLOW_CONTROL.
  rewrite Z.land_ones by lia. rewrite (Z.mod_small n) by lia.
  change (Z.shiftl 1 1) with 2. rewrite !Z.shiftl_mul_pow2 by lia.
  assert (Z.lor (u * 2 ^ 6) (n * 2 ^ 16) = u * 2 ^ 6 + n * 2 ^ 16) as ->.
  { apply lor_add. apply Z.bits_inj'. intros i Hi. rewrite Z.land_spec, Z.bits_0.
    destruct (Z.lt_ge_cases i 16); [rewrite (Z.mul_pow2_bits_low n) by lia; apply andb_false_r|].
    destruct Hu as [->| ->]; [by rewrite Z.bits_0|]. change (1 * 2 ^ 6) with (2 ^ 6).
    rewrite Z.pow2_bits_eqb by lia. rewrite (proj2 (Z.eqb_neq _ _)) by lia. done. }
  assert (Z.lor 2 (u * 2 ^ 6 + n * 2 ^ 16) = 2 + (u * 2 ^ 6 + n * 2 ^ 16)) as ->.
  { apply lor_add. replace (u * 2 ^ 6 + n * 2 ^ 16) with ((u + n * 2 ^ 10) * 2 ^ 6) by lia.
    apply Z.bits_inj'. intros i Hi. rewrite Z.land_spec, Z.bits_0. change 2 with (2 ^ 1).
    rewrite Z.pow2_bits_eqb by lia. destruct (Z.eqb_spec 1 i) as [<-|]; [|done].
    rewrite Z.mul_pow2_bits_low by lia. done. }
  rewrite lor_add; [lia|].
  replace (2 + (u * 2 ^ 6 + n * 2 ^ 16)) with ((1 + u * 2 ^ 5 + n * 2 ^ 15) * 2 ^ 1) by lia.
  apply Z.bits_inj'. intros i Hi. rewrite Z.land_spec, Z.bits_0. change 1 with (2 ^ 0) at 1.
  rewrite Z.pow2_bits_eqb by lia. destruct (Z.eqb_spec 0 i) as [<-|]; [|done].
  rewrite Z.mul_pow2_bits_low by lia. done.
Qed.

(** The fields of an encoded credit message read back. *)
Lemma imm_flow_control_fields u n : u = 0 \/ u = 1 -> in_u16 n ->
  is_flow_control_imm (imm_flow_control u n) = true /\ imm_window (imm_flow_control u n) = n /\
  imm_in_user_buf (imm_flow_control u n) = u.
Proof.
  intros Hu Hn. unfold is_flow_control_imm, imm_private, imm_type, imm_window, imm_in_user_buf.
  rewrite !bits_mod by lia. rewrite imm_flow_control_value by done.
  change (2 ^ 0) with 1. change (2 ^ 1) with 2. change (2 ^ 5) with 32. change (2 ^ 6) with 64. change (2 ^ 16) with 65536.
  rewrite Z.div_1_r.
  assert ((3 + 64 * u + 65536 * n) mod 2 = 1) as -> by (destruct Hu; subst; zmod).
  assert ((3 + 64 * u + 65536 * n) / 2 mod 32 = 1) as -> by (destruct Hu; subst; zmod).
  split_and!; [done|destruct Hu; subst; zmod|destruct Hu; subst; zmod].
Qed.

Lemma imm_window_range v : in_u16 (imm_window v).
Proof. unfold imm_window. rewrite bits_mod by lia. apply Z.mod_pos_bound. lia. Qed.

(** User immediate data never looks like a credit message. *)
Lemma masked_imm_not_private v : imm_private (Z.land v UMQ_UB_IMM_WITHOUT_PRIVATE_BITS) = 0.
Proof.
  unfold imm_private. rewrite bits_mod by lia.
  change (2 ^ 0) with 1. change (2 ^ 1) with 2. rewrite Z.div_1_r.
  rewrite Zmod_even, <- Z.negb_odd, <- Z.bit0_odd, Z.land_spec.
  change (Z.testbit UMQ_UB_IMM_WITHOUT_PRIVATE_BITS 0) with false. by rewrite andb_false_r.
Qed.

(** ** Flow control calls *)

Definition upd_fc (fc : ub_flow_control) (w : world) : world :=
  {| w_queue := set_fc fc (w_queue w); w_pro := w_pro w; w_answers := w_answers w; w_sent := w_sent w; w_rqes := w_rqes w |}.

Lemma inv_upd_fc g a b a' b' w fc :
  inv g a b w -> fc_wf fc -> same_config (fc_of w) fc ->
  remote_rx_window fc - remote_rx_window (fc_of w) <= a' - a ->
  local_rx_posted fc - local_rx_posted (fc_of w) <= b' - b ->
  inv g a' b' (upd_fc fc w).
Proof.
  intros [] Hwf (?&?&?&?&?&?) Ha Hb. unfold out_use, in_use in *.
  split; unfold out_use, in_use, fc_of, upd_fc in *; simpl in *; try done; try congruence; try lia.
  - intros. apply inv_unset0. congruence.
  - intros. apply inv_get0. congruence.
Qed.

Lemma fc_call_spec {A} g a b (f : ub_flow_control -> option (A * ub_flow_control)) (Q : A -> world -> Prop) :
  (forall w, inv g a b w -> exists r fc, f (fc_of w) = Some (r, fc) /\ Q r (upd_fc fc w)) ->
  triple (inv g a b) (fc_call f) Q.
Proof.
  intros H w Hw. destruct (H w Hw) as (r & fc & E & HQ). exists r, (upd_fc fc w).
  unfold fc_call, get_fc, mbind, M_bind, fc_of in *. by rewrite E.
Qed.

Section triples.
Context (g : ghost).

Lemma window_inc_call a b n : in_u16 n ->
  triple (inv g a b) (fc_call (fun fc => ops_remote_rx_window_inc fc n)) (fun _ => inv g (a + n) b).
Proof.
  intros Hn. apply fc_call_spec. intros w Hw. pose proof (inv_fc _ _ _ _ Hw) as inv_fc0. pose proof (inv_ops _ _ _ _ Hw) as inv_ops0.
  destruct (ops_window_inc_spec (fc_of w) inv_fc0 inv_ops0 n Hn) as (fc & -> & Hwf & Hs & Hp & Hr).
  eexists _, fc. split; [done|]. eapply inv_upd_fc; [done..| |lia]. rewrite Hr. split_ifs; lia.
Qed.

Lemma window_dec_call a b n : in_u16 n ->
  triple (inv g a b) (fc_call (fun fc => ops_remote_rx_window_dec fc n))
    (fun k w => 0 <= k <= n /\ inv g (a - k) b w).
Proof.
  intros Hn. apply fc_call_spec. intros w Hw. pose proof (inv_fc _ _ _ _ Hw) as inv_fc0. pose proof (inv_ops _ _ _ _ Hw) as inv_ops0.
  destruct (ops_window_dec_spec (fc_of w) inv_fc0 inv_ops0 n Hn) as (fc & -> & Hwf & Hs & Hp & Hr).
  eexists _, fc. split; [done|]. destruct inv_fc0 as (?&_). split; [lia|].
  eapply inv_upd_fc; [done..| |lia]. lia.
Qed.

Lemma posted_inc_call a b n : in_u16 n ->
  triple (inv g a b) (fc_call (fun fc => ops_local_rx_posted_inc fc n))
    (fun _ => inv g a (b + n)).
Proof.
  intros Hn. apply fc_call_spec. intros w Hw. pose proof (inv_fc _ _ _ _ Hw) as inv_fc0. pose proof (inv_ops _ _ _ _ Hw) as inv_ops0.
  destruct (ops_posted_inc_spec (fc_of w) inv_fc0 inv_ops0 n Hn) as (fc & -> & Hwf & Hs & Hp & Hr).
  eexists _, fc. split; [done|]. eapply inv_upd_fc; [done..|lia|]. rewrite Hr. split_ifs; lia.
Qed.

(** Taking the posted count: it is owed to the peer until it is sent. *)
Lemma posted_exchange_call a b (R : world -> Prop) :
  (forall w fc, R w -> same_config (fc_of w) fc -> R (upd_fc fc w)) ->
  triple (fun w => R w /\ inv g a b w) (fc_call ops_local_rx_posted_exchange)
    (fun n w => R w /\ in_u16 n /\ inv g a (b - n) w).
Proof.
  intros HR w [HRw Hw]. pose proof (inv_fc _ _ _ _ Hw) as inv_fc0. pose proof (inv_ops _ _ _ _ Hw) as inv_ops0.
  destruct (ops_posted_exchange_spec (fc_of w) inv_fc0 inv_ops0) as (fc & E & Hwf & Hs & Hp & Hr).
  exists (local_rx_posted (fc_of w)), (upd_fc fc w). split.
  - unfold fc_call, get_fc, mbind, M_bind, fc_of in *. by rewrite E.
  - split; [by apply HR|]. split; [apply inv_fc0|]. eapply inv_upd_fc; [done..|lia|lia].
Qed.

(** ** Posting to the jetty *)

(** The requests accepted by a post that returned [r]. *)
Definition accepted (wrs : list jfs_wr) (r : Z * option jfs_wr) (acc : list jfs_wr) : Prop :=
  match r with
  | (_, Some wr) => exists k, wrs !! k = Some wr /\ acc = take k wrs
  | (st, None) => acc = [] \/ (st = URMA_SUCCESS /\ acc = wrs)
  end.

Lemma accepted_prefix wrs r acc : accepted wrs r acc -> acc `prefix_of` wrs.
Proof.
  destruct r as [st [wr|]]; simpl; [intros (k & _ & ->); apply prefix_take|].
  intros [-> | [_ ->]]; [apply prefix_nil|done].
Qed.

Definition upd_sent (ans : list post_answer) (acc : list jfs_wr) (w : world) : world :=
  {| w_queue := w_queue w; w_pro := w_pro w; w_answers := ans; w_sent := w_sent w ++ acc; w_rqes := w_rqes w |}.

Lemma post_result wrs w : exists r acc,
  urma_post_jetty_send_wr wrs w = Some (r, upd_sent (tail (w_answers w)) acc w) /\ accepted wrs r acc.
Proof.
  unfold urma_post_jetty_send_wr. destruct (w_answers w) as [|[|st [k|]] ans]; simpl.
  - eexists _, wrs. split; [done|]. by right.
  - eexists _, wrs. split; [done|]. by right.
  - destruct (wrs !! k) as [wr|] eqn:E; simpl.
    + eexists _, (take k wrs). split; [done|]. by exists k.
    + eexists _, []. split; [done|]. by left.
  - eexists _, []. split; [done|]. by left.
Qed.

(** The buffers that stay out of flight. *)
Definition avoid_less (acc : list jfs_wr) (g : ghost) : ghost :=
  set_avoid (g_avoid g ∖ list_to_set (map wr_user_ctx acc)) g.

Definition postable (m : gmap Z umq_buf_pro) (wr : jfs_wr) : Prop := wr_reads wr = 0 /\ clean wr /\ matches m wr.

Lemma postable_reads m acc : Forall (postable m) acc -> zsum wr_reads acc = 0.
Proof. induction 1 as [|wr acc (Hr & _) _ IH]; [done|]. rewrite zsum_cons. lia. Qed.

Lemma inv_upd_sent a b w ans acc : Forall (postable (w_pro w)) acc ->
  inv g a b w -> inv (avoid_less acc g) (a + zsum wr_uses acc) (b + zsum wr_credits acc) (upd_sent ans acc w).
Proof.
  intros Hpost []. pose proof (postable_reads _ _ Hpost) as Hr. unfold out_use, in_use in *.
  split; unfold out_use, in_use, fc_of, upd_sent in *; simpl in *; try done; rewrite ?zsum_app; try lia.
  - rewrite Hr, Z.add_0_r. done.
  - apply Forall_app. split; [done|]. eapply Forall_impl; [exact Hpost|]. by intros wr (_ & ? & _).
  - apply Forall_app. split; [done|]. eapply Forall_impl; [exact Hpost|]. by intros wr (_ & _ & ?).
  - apply Forall_app. split; [eapply Forall_impl; [exact inv_avoid0|]; by intros wr Hwr [? _]%elem_of_difference|]. apply Forall_forall.
    intros wr Hwr. rewrite elem_of_difference, elem_of_list_to_set. intros [_ Hn]. apply Hn. apply list_elem_of_fmap. by exists wr.
  - intros addr [? _]%elem_of_difference. by apply inv_big0.
Qed.

Lemma post_spec a b wrs :
  triple (fun w => Forall (postable (w_pro w)) wrs /\ inv g a b w) (urma_post_jetty_send_wr wrs)
    (fun r w => exists acc, accepted wrs r acc /\ inv (avoid_less acc g) (a + zsum wr_uses acc) (b + zsum wr_credits acc) w).
Proof.
  intros w [Hr Hw]. destruct (post_result wrs w) as (r & acc & E & Ha). eexists r, _. split; [done|].
  apply accepted_prefix in Ha as Hpre. exists acc. split; [done|]. apply inv_upd_sent; [|done].
  destruct Hpre as [k ->]. by apply Forall_app in Hr as [? _].
Qed.

(** Requests of the library name no buffer. *)
Lemma avoid_less_small acc :
  (forall addr, addr ∈ g_avoid g -> UINT16_MAX < addr) -> Forall (fun wr => wr_user_ctx wr <= UINT16_MAX) acc ->
  avoid_less acc g = g.
Proof.
  intros Hbig Hs. unfold avoid_less. transitivity (set_avoid (g_avoid g) g); [|apply set_avoid_id]. f_equal. apply set_eq. intros addr.
  rewrite elem_of_difference, elem_of_list_to_set. split; [tauto|]. intros Ha. split; [done|].
  intros (wr & -> & Hwr)%list_elem_of_fmap. rewrite Forall_forall in Hs. specialize (Hs _ Hwr). apply Hbig in Ha. lia.
Qed.

Lemma post_own_spec a b wrs :
  Forall (fun wr => wr_user_ctx wr <= UINT16_MAX) wrs -> (forall m, Forall (postable m) wrs) ->
  triple (inv g a b) (urma_post_jetty_send_wr wrs)
    (fun r w => exists acc, accepted wrs r acc /\ inv g (a + zsum wr_uses acc) (b + zsum wr_credits acc) w).
Proof.
  intros Hs Hp w Hw. destruct (post_spec a b wrs w (conj (Hp _) Hw)) as (r & w' & E & acc & Ha & Hw').
  exists r, w'. split; [done|]. exists acc. split; [done|]. rewrite avoid_less_small in Hw'; [done|apply Hw|].
  apply accepted_prefix in Ha as [k ->]. by apply Forall_app in Hs as [? _].
Qed.

(** ** Handlers *)

Lemma window_read_matches m : matches m window_read_wr.
Proof. by left. Qed.

Lemma window_read_spec a b :
  triple (fun w => remote_get (fc_of w) = false /\ inv g a b w) umq_ub_window_read (fun _ => inv g a b).
Proof.
  intros w [Hg Hw]. pose proof Hw as [? ? Hen Hbd ? ? ? ? ? Hreads ? ? ? Hbig ? ?]. specialize (Hreads Hg).
  destruct (post_result [window_read_wr] w) as ([st bad] & acc & E & Ha).
  unfold umq_ub_window_read, get_queue, get_fc, mbind, M_bind. fold (fc_of w). rewrite Hen, Hbd. simpl. rewrite E.
  assert (acc = [] \/ st = URMA_SUCCESS /\ acc = [window_read_wr]) as Hacc.
  { destruct bad as [wr|]; simpl in Ha; [|done]. destruct Ha as (k & Hk & ->). destruct k; [by left|by destruct k]. }
  unfold mret, M_ret, put_fc.
  destruct (Z.eqb_spec st URMA_SUCCESS) as [->|Hst]; eexists tt, _; (split; [done|]).
  - unfold out_use, in_use in *. split; unfold out_use, in_use, fc_of, upd_sent in *; simpl in *; try done.
    all: assert (zsum wr_reads acc <= 1 /\ zsum wr_uses acc = 0 /\ zsum wr_credits acc = 0) as (?&?&?)
      by (destruct Hacc as [->|[_ ->]]; vm_compute; split_and!; congruence); rewrite ?zsum_app; try lia.
    all: apply Forall_app; split; [done|]; destruct Hacc as [->|[_ ->]]; [done|]; apply Forall_singleton.
    + done.
    + apply window_read_matches.
    + intros Hz%Hbig. done.
  - destruct Hacc as [->|[? _]]; [|done].
    destruct Hw. unfold out_use, in_use in *. split; unfold out_use, in_use, fc_of, upd_sent in *; simpl in *; rewrite ?app_nil_r; done.
Qed.

Lemma window_inc_spec a b n : in_u16 n -> triple (inv g a b) (umq_ub_window_inc n) (fun _ => inv g (a + n) b).
Proof.
  intros Hn. unfold umq_ub_window_inc. apply triple_get_fc. intros fc.
  destruct (Z.eqb_spec n 0) as [->|]; simpl.
  { apply triple_ret. intros w [_ Hw]. inv_weaken. }
  intros w [<- Hw]. pose proof (inv_enabled _ _ _ _ Hw) as Hen. fold (fc_of w). rewrite Hen. simpl.
  eapply triple_bind; [by apply window_inc_call| |done]. intros ?. by apply triple_ret.
Qed.

Lemma notifier_inc_spec a b n : in_u16 n ->
  triple (inv g a b) (umq_ub_rq_posted_notifier_inc n) (fun _ => inv g a (b + n)).
Proof.
  intros Hn. unfold umq_ub_rq_posted_notifier_inc. apply triple_get_fc. intros fc.
  destruct (Z.eqb_spec n 0) as [->|]; simpl.
  { apply triple_ret. intros w [_ Hw]. inv_weaken. }
  intros w [<- Hw]. pose proof (inv_enabled _ _ _ _ Hw) as Hen. fold (fc_of w). rewrite Hen. simpl.
  eapply triple_bind; [by apply posted_inc_call| |done]. intros ?. by apply triple_ret.
Qed.

Lemma window_dec_spec a b n : in_u16 n ->
  triple (inv g a b) (umq_ub_window_dec n) (fun k w => 0 <= k <= n /\ inv g (a - k) b w).
Proof.
  intros Hn. unfold umq_ub_window_dec. apply triple_get_fc. intros fc.
  destruct (Z.eqb_spec n 0) as [->|]; simpl.
  { apply triple_ret. intros w [_ Hw]. split; [lia|]. inv_weaken. }
  intros w [<- Hw]. pose proof (inv_enabled _ _ _ _ Hw) as Hen. fold (fc_of w). rewrite Hen. simpl.
  destruct (remote_get (fc_of w)) eqn:Hg; simpl.
  - by apply (window_dec_call a b n Hn w).
  - apply (triple_bind (fun w => remote_get (fc_of w) = false /\ inv g a b w) umq_ub_window_read
             (fun _ => inv g a b)); [apply window_read_spec| |done].
    intros ?. apply triple_ret. intros w' Hw'. split; [lia|]. inv_weaken.
Qed.

Lemma inv_set_initial a b w n :
  in_u16 n -> local_set (fc_of w) = false -> inv g a (b - n) w ->
  inv g a b
    (upd_fc (set_local_set true (fc_of w))
       {| w_queue := set_notify_local n (w_queue w); w_pro := w_pro w; w_answers := w_answers w; w_sent := w_sent w;
          w_rqes := w_rqes w |}).
Proof.
  intros Hn Hs []. destruct (inv_unset0 Hs) as (Hz & Ht & Hpb). unfold out_use, in_use in *.
  split; unfold out_use, in_use, fc_of, upd_fc in *; simpl in *; try done; try lia.
  rewrite Ht in *. lia.
Qed.

Lemma notifier_set_initial_spec a b n :
  triple (fun w => local_set (fc_of w) = false /\ inv g a b w) (notifier_set_initial n) (fun _ => inv g a b).
Proof.
  unfold notifier_set_initial. apply triple_get_fc. intros fc.
  destruct (n <? initial_window fc); [apply triple_ret; tauto|].
  apply (triple_pre (fun w => local_set (fc_of w) = false /\ inv g a b w)); [|tauto].
  eapply triple_bind.
  { apply (posted_exchange_call a b (fun w => local_set (fc_of w) = false)).
    intros w fc' Hw (?&?&?&?&Hs&?). unfold fc_of, upd_fc in *. simpl. congruence. }
  intros m. simpl. destruct (Z.eqb_spec m 0) as [->|Hm].
  { apply triple_ret. intros w (_ & _ & Hw). inv_weaken. }
  intros w (Hs & Hn & Hw). pose proof (inv_set_initial a b w m Hn Hs Hw) as Hw'.
  unfold get_queue, put_queue, get_fc, put_fc, mbind, M_bind. simpl.
  destruct (remote_get (flow_control (w_queue w))) eqn:Hg; simpl.
  - eexists tt, _. split; [done|]. exact Hw'.
  - apply (window_read_spec a b). split; [|exact Hw']. done.
Qed.

Lemma notify_wr_credits n : in_u16 n -> wr_credits (notify_wr n) = n /\ wr_uses (notify_wr n) = 1 /\ wr_reads (notify_wr n) = 0.
Proof.
  intros Hn. unfold wr_credits, wr_uses, wr_reads, notify_wr. simpl.
  destruct (imm_flow_control_fields 0 n) as (-> & -> & _); auto.
Qed.

Lemma notify_wr_postable m n : in_u16 n -> n <> 0 -> postable m (notify_wr n).
Proof.
  intros Hn H0. destruct (notify_wr_credits n Hn) as (Hc & Hu & Hr). split_and!; [done|intros _; right; apply imm_flow_control_fields; auto|].
  unfold matches. rewrite Hc, Hu. simpl. rewrite (proj2 (Z.leb_le _ _)) by (unfold UINT16_MAX; lia). right. split_and!; lia || done.
Qed.

Lemma notifier_send_spec a b n : triple (inv g a b) (notifier_send n) (fun _ => inv g a b).
Proof.
  unfold notifier_send. apply triple_get_fc. intros fc. destruct (n <? notify_interval fc); [apply triple_ret; tauto|].
  apply (triple_pre (inv g a b)); [|tauto].
  eapply triple_bind; [apply (window_dec_spec a b 1); lia|]. intros k. simpl. apply triple_pure. intros Hg.
  destruct (Z.eqb_spec k 1) as [->|]; simpl.
  2: { apply triple_ret. intros w Hw. inv_weaken. }
  eapply triple_bind.
  { eapply triple_pre; [by apply (posted_exchange_call (a - 1) b (fun _ => True))|]. done. }
  intros m. simpl. apply triple_pure. intros _. apply triple_pure. intros Hm.
  destruct (Z.eqb_spec m 0) as [->|].
  { eapply triple_weaken; [apply (window_inc_spec (a - 1) (b - 0) 1); lia|done|].
    intros ? w Hw. inv_weaken. }
  destruct (notify_wr_credits m Hm) as (Hc & Hu & Hr).
  eapply triple_bind.
  { apply (post_own_spec (a - 1) (b - m) [notify_wr m]); [apply Forall_singleton; simpl; unfold UINT16_MAX; lia|].
    intros ?. apply Forall_singleton. by apply notify_wr_postable. }
  intros [st bad]. simpl. intros w (acc & Ha & Hw).
  assert (0 <= zsum wr_uses acc <= 1 /\ 0 <= zsum wr_credits acc <= m /\ (st <> URMA_SUCCESS -> acc = [])) as (Hua & Hca & Hst).
  { destruct bad as [wr|]; simpl in Ha.
    - destruct Ha as ([|k] & Hk & ->); [|by destruct k]. change (zsum _ (take 0 _)) with 0. split_and!; (lia || done).
    - destruct Ha as [-> | [-> ->]]; rewrite ?zsum_cons, ?Hc, ?Hu; change (zsum _ []) with 0; split_and!; (lia || done). }
  destruct (Z.eqb_spec st URMA_SUCCESS) as [->|E].
  - eexists tt, w. split; [done|]. inv_weaken.
  - rewrite Hst in Hw by done. change (zsum _ []) with 0 in Hw. rewrite !Z.add_0_r in Hw.
    eapply triple_bind; [apply (window_inc_spec (a - 1) (b - m) 1); lia| |done]. intros ?. simpl.
    eapply triple_weaken; [by apply notifier_inc_spec|done|]. intros ? w' Hw'. inv_weaken.
Qed.

Lemma notifier_update_spec a b n : in_u16 n ->
  triple (inv g a b) (umq_ub_rq_posted_notifier_update n) (fun _ => inv g a (b + n)).
Proof.
  intros Hn. unfold umq_ub_rq_posted_notifier_update. apply triple_get_fc. intros fc.
  destruct (Z.eqb_spec n 0) as [->|]; simpl.
  { apply triple_ret. intros w [_ Hw]. inv_weaken. }
  intros w [<- Hw]. pose proof (inv_enabled _ _ _ _ Hw) as Hen. fold (fc_of w). rewrite Hen. simpl.
  eapply triple_bind; [by apply (posted_inc_call a b n)| |done]. intros m. simpl.
  apply triple_get_queue. intros q. intros w' [<- Hw']. rewrite (inv_bound _ _ _ _ Hw'). simpl.
  fold (fc_of w'). destruct (local_set (fc_of w')) eqn:Hs; simpl.
  - by apply (notifier_send_spec a (b + n) m).
  - by apply (notifier_set_initial_spec a (b + n) m).
Qed.
End triples.

(** ** Buffer attributes and receive requests are untouched by the credit handlers *)

Definition keeps_pro {A} (m : M A) : Prop :=
  forall w r w', m w = Some (r, w') -> w_pro w' = w_pro w /\ w_rqes w' = w_rqes w.

Lemma keeps_ret {A} (x : A) : keeps_pro (mret x).
Proof. by intros w r w' [= _ <-]. Qed.

Lemma keeps_bind {A B} (m : M A) (f : A -> M B) : keeps_pro m -> (forall a, keeps_pro (f a)) -> keeps_pro (m ≫= f).
Proof.
  intros Hm Hf w r w'. unfold mbind, M_bind. destruct (m w) as [[x w1]|] eqn:E; [|done].
  intros E2. destruct (Hf _ _ _ _ E2), (Hm _ _ _ E). split; congruence.
Qed.

Lemma keeps_if {A} (c : bool) (m1 m2 : M A) : keeps_pro m1 -> keeps_pro m2 -> keeps_pro (if c then m1 else m2).
Proof. by destruct c. Qed.

Lemma keeps_get_queue : keeps_pro get_queue. Proof. by intros w r w' [= _ <-]. Qed.
Lemma keeps_get_fc : keeps_pro get_fc. Proof. by intros w r w' [= _ <-]. Qed.
Lemma keeps_put_queue q : keeps_pro (put_queue q). Proof. by intros w r w' [= _ <-]. Qed.
Lemma keeps_put_fc fc : keeps_pro (put_fc fc). Proof. by intros w r w' [= _ <-]. Qed.

Lemma keeps_fc_call {A} (f : ub_flow_control -> option (A * ub_flow_control)) : keeps_pro (fc_call f).
Proof.
  apply keeps_bind; [apply keeps_get_fc|]. intros fc. destruct (f fc) as [[r fc']|]; [|by intros w x w'].
  apply keeps_bind; [apply keeps_put_fc|]. intros ?. apply keeps_ret.
Qed.

Lemma keeps_post wrs : keeps_pro (urma_post_jetty_send_wr wrs).
Proof.
  intros w r w' E. destruct (post_result wrs w) as (r0 & acc & E0 & _). rewrite E0 in E. by injection E as <- <-.
Qed.

Create HintDb keeps.
#[export] Hint Resolve keeps_ret keeps_get_queue keeps_get_fc keeps_put_queue keeps_put_fc keeps_fc_call keeps_post
  keeps_if : keeps.

Ltac keeps := repeat first
  [ progress auto with keeps
  | apply keeps_if
  | apply keeps_bind; [|intros]
  | match goal with |- keeps_pro (let '(_, _) := ?p in _) => destruct p end ].

Lemma keeps_window_read : keeps_pro umq_ub_window_read.
Proof. unfold umq_ub_window_read. keeps. Qed.
#[export] Hint Resolve keeps_window_read : keeps.
Lemma keeps_window_inc n : keeps_pro (umq_ub_window_inc n).
Proof. unfold umq_ub_window_inc. keeps. Qed.
Lemma keeps_window_dec n : keeps_pro (umq_ub_window_dec n).
Proof. unfold umq_ub_window_dec. keeps. Qed.
Lemma keeps_notifier_inc n : keeps_pro (umq_ub_rq_posted_notifier_inc n).
Proof. unfold umq_ub_rq_posted_notifier_inc. keeps. Qed.
#[export] Hint Resolve keeps_window_inc keeps_window_dec keeps_notifier_inc : keeps.
Lemma keeps_notifier_update n : keeps_pro (umq_ub_rq_posted_notifier_update n).
Proof. unfold umq_ub_rq_posted_notifier_update, notifier_set_initial, notifier_send. keeps. Qed.
#[export] Hint Resolve keeps_notifier_update : keeps.

Lemma triple_keeps {A} (F : gmap Z umq_buf_pro -> Prop) P (m : M A) Q :
  keeps_pro m -> triple P m Q -> triple (fun w => F (w_pro w) /\ P w) m (fun a w => F (w_pro w) /\ Q a w).
Proof.
  intros Hk Hm w [HF HP]. destruct (Hm w HP) as (a & w' & E & HQ). exists a, w'.
  split; [done|]. by rewrite (proj1 (Hk _ _ _ E)).
Qed.

Lemma wr_reads_nonneg l : 0 <= zsum wr_reads l.
Proof.
  induction l as [|wr l IH]; [done|]. rewrite zsum_cons. unfold wr_reads at 1. destruct (_ && _); simpl; lia.
Qed.

Lemma wr_uses_nonneg l : 0 <= zsum wr_uses l.
Proof. induction l as [|wr l IH]; [done|]. rewrite zsum_cons. unfold wr_uses at 1. destruct (consumes_rqe _); simpl; lia. Qed.

Lemma wr_credits_pos wr : 0 <= wr_credits wr.
Proof. unfold wr_credits. pose proof (imm_window_range (wr_imm wr)). destruct (_ && _); lia. Qed.

Lemma wr_credits_nonneg l : 0 <= zsum wr_credits l.
Proof. induction l as [|wr l IH]; [done|]. rewrite zsum_cons. pose proof (wr_credits_pos wr). lia. Qed.

(** ** Sends *)

Definition valid_opcode (op : Z) : bool :=
  (op =? UMQ_OPC_WRITE) || (op =? UMQ_OPC_WRITE_IMM) || (op =? UMQ_OPC_READ) || (op =? UMQ_OPC_SEND) ||
  (op =? UMQ_OPC_SEND_IMM).

(** [cls] says, for the buffers at hand, whether their operations may consume a
    receive buffer of the peer. *)
Definition pro_ok (cls : gmap Z bool) (m : gmap Z umq_buf_pro) : Prop :=
  forall addr c, cls !! addr = Some c ->
    exists p, m !! addr = Some p /\ valid_opcode (opcode p) = true /\ (consumes_rqe (opcode p) = true -> c = true).

Lemma transform_valid op : valid_opcode op = true -> transform_op_code op = op.
Proof.
  unfold valid_opcode. intros H. repeat (apply orb_prop in H as [H|H]); apply Z.eqb_eq in H; subst; done.
Qed.

Lemma pro_ok_set cls m addr p op imm :
  pro_ok cls m -> m !! addr = Some p -> valid_opcode op = true -> cls !! addr = Some true ->
  pro_ok cls (<[addr := {| opcode := op; imm_data := imm; umq_ctx := umq_ctx p |}]> m).
Proof.
  intros H Hp Hv Hc a c Ha. destruct (decide (a = addr)) as [->|Hne].
  - eexists. split; [apply lookup_insert_eq|]. split; [done|]. simpl. congruence.
  - rewrite lookup_insert_ne by done. by apply H.
Qed.

(** The attributes of a buffer that no request in flight names change. *)
Lemma inv_put_pro g a b w addr p : addr ∈ g_avoid g -> inv g a b w ->
  inv g a b {| w_queue := w_queue w; w_pro := <[addr := p]> (w_pro w); w_answers := w_answers w; w_sent := w_sent w; w_rqes := w_rqes w |}.
Proof.
  intros Ha []. split; simpl; try done. rewrite Forall_forall in inv_match0, inv_avoid0 |- *. intros wr Hwr.
  specialize (inv_match0 _ Hwr). specialize (inv_avoid0 _ Hwr). unfold matches in *. destruct (_ <=? _); [done|].
  rewrite lookup_insert_ne; [done|]. by intros ->.
Qed.

Section sends.
Context (cls : gmap Z bool) (imported : Z -> bool).

Definition invp (g : ghost) (a b : Z) (w : world) : Prop := pro_ok cls (w_pro w) /\ inv g a b w.

Lemma invp_mono g a b a' b' w : invp g a b w -> a <= a' -> b <= b' -> invp g a' b' w.
Proof. intros [? ?] ? ?. split; [done|]. inv_weaken. Qed.

Lemma keeps_invp {A} g a b (m : M A) Q : keeps_pro m -> triple (inv g a b) m Q ->
  triple (invp g a b) m (fun r w => pro_ok cls (w_pro w) /\ Q r w).
Proof. intros. by apply triple_keeps. Qed.

(** A request as [umq_ub_post_tx] builds it for a buffer of class [c]. *)
Record wr_good (c : bool) (wr : jfs_wr) : Prop := {
  wg_uses : wr_uses wr <= b2z c;
  wg_reads : wr_reads wr = 0;
  wg_credits : in_u16 (wr_credits wr);
  wg_clean : clean wr;
  wg_class : (wr_opcode wr =? URMA_OPC_SEND_IMM) && is_flow_control_imm (wr_imm wr) = true ->
             cls !! wr_user_ctx wr = Some true;
  wg_buffer : is_Some (cls !! wr_user_ctx wr)
}.

Lemma set_pro_spec g a b addr op imm : valid_opcode op = true -> cls !! addr = Some true -> addr ∈ g_avoid g ->
  triple (invp g a b) (set_pro addr op imm) (fun _ => invp g a b).
Proof.
  intros Hv Hc Ha w [Hp Hw]. destruct (Hp _ _ Hc) as (p & Ep & _). unfold set_pro, get_pro, put_pro, mbind, M_bind.
  rewrite Ep. eexists tt, _. split; [done|]. split; [by apply pro_ok_set|]. by apply inv_put_pro.
Qed.

Lemma fill_tx_imm_spec g a b c wr :
  wr_good c wr -> wr_credits wr = 0 -> wr_user_ctx wr <> 0 -> wr_user_ctx wr ∈ g_avoid g ->
  (wr_opcode wr = URMA_OPC_SEND -> cls !! wr_user_ctx wr = Some true) ->
  triple (invp g a b) (umq_ub_fill_tx_imm wr)
    (fun wr' w => (wr_good c wr' /\ wr_user_ctx wr' = wr_user_ctx wr) /\ invp g a (b - wr_credits wr') w).
Proof.
  intros Hg Hz Hctx Hav Hcls. unfold umq_ub_fill_tx_imm. apply triple_get_fc. intros fc.
  assert (triple (fun w => flow_control (w_queue w) = fc /\ invp g a b w) (mret wr)
    (fun wr' w => (wr_good c wr' /\ wr_user_ctx wr' = wr_user_ctx wr) /\ invp g a (b - wr_credits wr') w)) as Hret.
  { apply triple_ret. intros w [_ Hw]. split; [done|]. eapply invp_mono; [done|lia|lia]. }
  destruct (Z.eqb_spec (wr_opcode wr) URMA_OPC_SEND) as [Hop|Hop]; rewrite ?orb_true_r; simpl; [|done].
  destruct (enabled fc); simpl; [|done]. specialize (Hcls Hop).
  intros w [<- Hw]. unfold ops_local_rx_posted_load, call_op.
  pose proof (inv_ops _ _ _ _ (proj2 Hw)) as Hops. fold (fc_of w).
  assert (match ops (fc_of w) with OpsNull => None | OpsNonAtomic | OpsAtomic => Some (local_rx_posted (fc_of w)) end
    = Some (local_rx_posted (fc_of w))) as -> by (destruct (ops (fc_of w)); done).
  destruct (local_rx_posted (fc_of w) <? notify_interval (fc_of w)); [by apply Hret|].
  eapply triple_bind; [|intros n|exact Hw].
  { apply (keeps_invp g a b); [auto with keeps|]. eapply triple_pre; [by apply (posted_exchange_call g a b (fun _ => True))|done]. }
  cbv beta. destruct (Z.eqb_spec n 0) as [->|Hn].
  { apply triple_ret. intros w' (Hp & _ & _ & Hw'). split; [done|]. split; [done|]. inv_weaken. }
  apply (triple_pre (fun w => in_u16 n /\ invp g a (b - n) w)); [|unfold invp; tauto]. apply triple_pure. intros Hr.
  eapply triple_bind; [by apply set_pro_spec|]. intros ?. apply triple_ret. intros w' Hw'.
  destruct (imm_flow_control_fields 1 n) as (E1 & E2 & _); [by right|done|].
  assert (forall x, wr_credits {| wr_user_ctx := wr_user_ctx wr; wr_opcode := URMA_OPC_SEND_IMM;
                          wr_imm := imm_flow_control UMQ_UB_IMM_IN_USER_BUF n; wr_sges := x |} = n) as Hc.
  { intros x. unfold wr_credits. cbn [wr_opcode wr_imm]. change UMQ_UB_IMM_IN_USER_BUF with 1. by rewrite E1, E2. }
  rewrite Hc. split; [|done]. split; [|done]. destruct Hg as [Hu _ _ _ _ Hb].
  split; [|done|by rewrite Hc|by intros _; right|done|done].
  revert Hu. unfold wr_uses. by rewrite Hop.
Qed.

(** The requests from the failed buffer on. *)
Fixpoint from_bad (bad : Z) (wrs : list jfs_wr) : list jfs_wr :=
  match wrs with
  | [] => []
  | wr :: rest => if wr_user_ctx wr =? bad then wrs else from_bad bad rest
  end.

Lemma recover_loop_spec g c bad wrs : forall (found : bool) a b, Forall (wr_good c) wrs ->
  Forall (fun wr => wr_user_ctx wr ∈ g_avoid g) (if found then wrs else from_bad bad wrs) ->
  triple (invp g a b) (recover_loop found bad wrs)
    (fun _ => invp g a (b + zsum wr_credits (if found then wrs else from_bad bad wrs))).
Proof.
  induction wrs as [|wr wrs IH]; intros found a b Hg.
  { intros _. apply triple_ret. intros w Hw. eapply invp_mono; [done|lia|]. destruct found; simpl; lia. }
  apply Forall_cons in Hg as [Hwr Hg]. destruct Hwr as [_ _ Hc _ Hcls _]. cbn [recover_loop from_bad].
  set (f := found || (wr_user_ctx wr =? bad)).
  assert ((if found then wr :: wrs else if wr_user_ctx wr =? bad then wr :: wrs else from_bad bad wrs)
    = if f then wr :: wrs else from_bad bad wrs) as -> by (unfold f; by destruct found, (wr_user_ctx wr =? bad)).
  intros Hav.
  assert (Hav' : Forall (fun wr => wr_user_ctx wr ∈ g_avoid g) (if f then wrs else from_bad bad wrs)).
  { destruct f; [|done]. by apply Forall_cons in Hav as [_ ?]. }
  destruct ((wr_opcode wr =? URMA_OPC_SEND_IMM) && is_flow_control_imm (wr_imm wr)) eqn:E; rewrite <- andb_assoc, E.
  - destruct f; cbn [andb].
    + apply Forall_cons in Hav as [Hx _]. eapply triple_bind.
      { apply (keeps_invp g a b); [auto with keeps|]. apply notifier_update_spec. apply imm_window_range. }
      intros ?. cbv beta. eapply triple_bind; [apply (set_pro_spec g a (b + imm_window (wr_imm wr))); [done|by apply Hcls|done]|].
      intros ?. cbv beta. eapply triple_weaken; [by apply (IH true)|done|]. intros ? w Hw. cbv beta in Hw.
      eapply invp_mono; [done|lia|]. rewrite zsum_cons. unfold wr_credits at 2. rewrite E. lia.
    + eapply triple_weaken; [by apply (IH false)|done|]. done.
  - rewrite andb_false_r. assert (wr_credits wr = 0) as Hz by (unfold wr_credits; by rewrite E).
    eapply triple_weaken; [by apply (IH f)|done|]. intros ? w Hw. cbv beta in Hw.
    eapply invp_mono; [done|lia|]. destruct f; [rewrite zsum_cons|]; lia.
Qed.

Lemma recover_spec g c a b wrs bad : Forall (wr_good c) wrs -> Forall (fun wr => wr_user_ctx wr ∈ g_avoid g) (from_bad bad wrs) ->
  triple (invp g a b) (umq_ub_recover_tx_imm wrs bad) (fun _ => invp g a (b + zsum wr_credits (from_bad bad wrs))).
Proof.
  intros Hg Hav. unfold umq_ub_recover_tx_imm. apply triple_get_fc. intros fc w [<- Hw].
  fold (fc_of w). rewrite (inv_enabled _ _ _ _ (proj2 Hw)). by apply (recover_loop_spec g c bad wrs false).
Qed.

Lemma gather_suffix max bufs : forall rest k sges chain,
  gather_sges max rest k bufs = inr (sges, chain) -> exists pre, bufs = pre ++ chain.
Proof.
  induction bufs as [|b tl IH]; intros rest k sges chain; simpl.
  { destruct (rest =? 0); intros [= <- <-]. by exists []. }
  destruct (0 <? rest); [|intros [= <- <-]; by exists []].
  destruct (max <=? k); [done|]. destruct (rest <? data_size b); [done|].
  destruct (gather_sges max _ _ tl) as [e|[s ch]] eqn:E; [done|]. intros [= <- <-].
  destruct (IH _ _ _ _ E) as [pre ->]. by exists (b :: pre).
Qed.

Lemma gather_head max b tl k sges chain :
  gather_sges max (total_data_size b) k (b :: tl) = inr (sges, chain) ->
  (0 < total_data_size b /\ exists pre, tl = pre ++ chain) \/ (total_data_size b <= 0 /\ chain = b :: tl).
Proof.
  simpl. destruct (Z.ltb_spec 0 (total_data_size b)); [|intros [= <- <-]; by right].
  destruct (max <=? k); [done|]. destruct (_ <? data_size b); [done|].
  destruct (gather_sges max _ _ tl) as [e|[s ch]] eqn:E; [done|]. intros [= <- <-].
  left. split; [done|]. by eapply gather_suffix.
Qed.

Lemma gather_err max bufs : forall rest k e, gather_sges max rest k bufs = inl e -> e <> UMQ_SUCCESS.
Proof.
  induction bufs as [|b tl IH]; intros rest k e; simpl.
  { destruct (rest =? 0); [done|]. by intros [= <-]. }
  destruct (0 <? rest); [|done]. destruct (max <=? k); [by intros [= <-]|].
  destruct (rest <? data_size b); [by intros [= <-]|].
  destruct (gather_sges max _ _ tl) as [e'|[s ch]] eqn:E; [|done]. intros [= <-]. by eapply IH.
Qed.

(** What the build loop leaves, for a chain of buffers of class [c]. *)
Record built (n : nat) (c c0 : bool) (bufs : list umq_buf) (ret : Z) (wrs : list jfs_wr) (c' : bool) : Prop := {
  bt_good : Forall (wr_good c) wrs;
  bt_head : forall wr, head wrs = Some wr -> buf_addr <$> head bufs = Some (wr_user_ctx wr);
  bt_ok : ret = UMQ_SUCCESS -> map wr_user_ctx wrs `sublist_of` map buf_addr bufs;
  bt_total : ret = UMQ_SUCCESS -> forall b, head bufs = Some b -> 0 < total_data_size b;
  bt_class : ret = UMQ_SUCCESS -> bufs <> [] -> (c = false -> c' = false) /\ wrs <> [];
  bt_nil : bufs = [] -> c' = c0;
  bt_len : (length wrs <= n)%nat
}.

Lemma fill_wr_good c b p wimm sges :
  valid_opcode (opcode p) = true -> (consumes_rqe (opcode p) = true -> c = true) -> buf_addr b <> 0 ->
  is_Some (cls !! buf_addr b) ->
  umq_ub_fill_wr imported b (opcode p) (imm_data p) = (UMQ_SUCCESS, wimm) ->
  let wr := {| wr_user_ctx := buf_addr b; wr_opcode := transform_op_code (opcode p); wr_imm := wimm; wr_sges := sges |} in
  wr_good c wr /\ wr_credits wr = 0 /\ (wr_opcode wr = URMA_OPC_SEND -> c = true).
Proof.
  intros Hv Hc Hb Hcl Hf wr. unfold wr. rewrite transform_valid by done.
  assert (opcode p = URMA_OPC_SEND_IMM -> imm_private wimm = 0) as Hpr.
  { intros E. revert Hf. unfold umq_ub_fill_wr. rewrite E. simpl. intros [= <-]. apply masked_imm_not_private. }
  assert ((opcode p =? URMA_OPC_SEND_IMM) && is_flow_control_imm wimm = false) as Hfc.
  { destruct (Z.eqb_spec (opcode p) URMA_OPC_SEND_IMM) as [E|]; [|done].
    unfold is_flow_control_imm. by rewrite (Hpr E). }
  assert (wr_credits {| wr_user_ctx := buf_addr b; wr_opcode := opcode p; wr_imm := wimm; wr_sges := sges |} = 0) as Hz
    by (unfold wr_credits; simpl; by rewrite Hfc).
  split_and!; [|done|simpl; intros E; apply Hc; by rewrite E].
  split; rewrite ?Hz; [unfold wr_uses; simpl|unfold wr_reads; simpl|lia|intros E; left; by apply Hpr|simpl; by rewrite Hfc|done].
  { destruct (consumes_rqe (opcode p)); [by rewrite Hc|by destruct c]. }
  rewrite (proj2 (Z.eqb_neq (buf_addr b) 0)) by done. by rewrite andb_false_r.
Qed.

Lemma build_wrs_spec g c n : forall bufs c0 a b,
  Forall (fun x => cls !! buf_addr x = Some c /\ buf_addr x <> 0 /\ buf_addr x ∈ g_avoid g) bufs ->
  triple (invp g a b) (build_wrs imported n bufs c0)
    (fun r w => built n c c0 bufs r.1.1 r.1.2 r.2 /\ invp g a (b - zsum wr_credits r.1.2) w).
Proof.
  assert (forall n bufs ret c0, ret <> UMQ_SUCCESS -> built n c c0 bufs ret [] c0) as Hfail by (intros; split; try done; apply Nat.le_0_l).
  assert (forall n bufs ret c0 a b, ret <> UMQ_SUCCESS -> triple (invp g a b) (mret (ret, [], c0))
    (fun r w => built n c c0 bufs r.1.1 r.1.2 r.2 /\ invp g a (b - zsum wr_credits r.1.2) w)) as Hret.
  { intros. apply triple_ret. intros w Hw. split; [by apply Hfail|]. eapply invp_mono; [done|lia|simpl; lia]. }
  induction n as [|n IH]; intros bufs c0 a b Hall; destruct bufs as [|x tl]; cbn [build_wrs].
  1, 3: apply triple_ret; intros w Hw; split; [split; try done; apply Nat.le_0_l|eapply invp_mono; [done|lia|simpl; lia]].
  { by apply Hret. }
  pose proof Hall as [(Hcls & Hx & Hav) _]%Forall_cons.
  apply triple_get_queue. intros q. apply (triple_pre (invp g a b)); [|tauto].
  intros w Hw. pose proof Hw as [Hp _]. destruct (Hp _ _ Hcls) as (p & Ep & Hv & Hc).
  unfold get_pro at 1, mbind at 1, M_bind at 1. rewrite Ep. cbv zeta.
  destruct (_ && _); [by apply Hret|].
  destruct (gather_sges (max_tx_sge q) (total_data_size x) 0 (x :: tl)) as [e|[sges chain]] eqn:Eg.
  { apply Hret; [|done]. by eapply gather_err. }
  destruct (umq_ub_fill_wr imported x (opcode p) (imm_data p)) as [ret wimm] eqn:Ef.
  destruct (Z.eqb_spec ret UMQ_SUCCESS) as [->|Hne]; simpl negb; cbv iota; [|by apply Hret].
  destruct (fill_wr_good c x p wimm sges Hv Hc Hx (mk_is_Some _ _ Hcls) Ef) as (Hgood & Hzero & Hsend).
  eapply triple_bind; [eapply (fill_tx_imm_spec g a b c); [done..|simpl; intros E; rewrite <- (Hsend E); done]| |exact Hw].
  intros wr. cbv beta. apply triple_pure. intros [Hwr Hctx]. simpl in Hctx.
  assert (exists pre, x :: tl = pre ++ chain) as [pre Hpre] by (by eapply gather_suffix).
  eapply triple_bind.
  { apply IH. rewrite Hpre in Hall. by apply Forall_app in Hall as [_ ?]. }
  intros [[ret wrs] c']. apply triple_ret. intros w' [Hb Hw']. cbn [fst snd] in *. split.
  2: { eapply invp_mono; [done|lia|]. rewrite zsum_cons. lia. }
  destruct Hb as [B1 B2 B3 B4 B5 B6 B7]. split; [..|done|simpl; lia].
  - by apply Forall_cons.
  - intros wr0 [= <-]. simpl. by rewrite Hctx.
  - intros Hok. destruct (gather_head _ _ _ _ _ _ Eg) as [[Ht [pre' ->]]|[Ht ->]].
    + simpl. rewrite Hctx. apply sublist_skip. rewrite map_app. apply sublist_inserts_l. by apply B3.
    + exfalso. specialize (B4 Hok x eq_refl). lia.
  - intros Hok b0 [= <-]. destruct (gather_head _ _ _ _ _ _ Eg) as [[Ht _]|[Ht ->]]; [done|]. by apply B4.
  - intros Hok _. split; [|done]. intros ->. destruct (decide (chain = [])) as [->|Hch]; [|by apply B5].
    rewrite B6 by done. destruct (consumes_rqe (opcode p)) eqn:Ec; [by discriminate (Hc eq_refl)|done].
Qed.

(** Building requests changes the attributes of the buffers of the chain only,
    and those of a request that is built agree with it. *)
Lemma fill_tx_imm_frame wr w wr' w' : umq_ub_fill_tx_imm wr w = Some (wr', w') ->
  wr_user_ctx wr' = wr_user_ctx wr /\
  ((wr' = wr /\ w_pro w' = w_pro w) \/
   exists p n, let imm := imm_flow_control UMQ_UB_IMM_IN_USER_BUF n in
     wr_opcode wr = URMA_OPC_SEND /\ wr_opcode wr' = URMA_OPC_SEND_IMM /\ wr_imm wr' = imm /\
     w_pro w' = <[wr_user_ctx wr := {| opcode := UMQ_OPC_SEND_IMM; imm_data := imm; umq_ctx := p |}]> (w_pro w)).
Proof.
  unfold umq_ub_fill_tx_imm, get_fc, mbind, M_bind. destruct (_ || _) eqn:Eo; [intros [= <- <-]; auto|].
  destruct (ops_local_rx_posted_load _) as [n|]; [|done]. destruct (n <? _); [intros [= <- <-]; auto|].
  destruct (fc_call _ w) as [[m w1]|] eqn:Ec; [|done]. apply keeps_fc_call in Ec as [Hp _].
  destruct (m =? 0); [intros [= <- <-]; auto|]. unfold set_pro, get_pro, put_pro, mbind, M_bind.
  destruct (w_pro w1 !! _) as [p|]; [|done]. intros [= <- <-]. split; [done|]. right. exists (umq_ctx p), m. simpl. rewrite Hp.
  split_and!; try done. apply orb_false_iff in Eo as [_ Eo]. by apply negb_false_iff, Z.eqb_eq in Eo.
Qed.

Lemma build_cons n x tl c0 w r w' : build_wrs imported (S n) (x :: tl) c0 w = Some (r, w') ->
  (r.1.1 <> UMQ_SUCCESS /\ r.1.2 = [] /\ w_pro w' = w_pro w) \/
  exists p wimm sges chain wr w1 ret wrs c,
    w_pro w !! buf_addr x = Some p /\
    gather_sges (max_tx_sge (w_queue w)) (total_data_size x) 0 (x :: tl) = inr (sges, chain) /\
    umq_ub_fill_wr imported x (opcode p) (imm_data p) = (UMQ_SUCCESS, wimm) /\
    umq_ub_fill_tx_imm {| wr_user_ctx := buf_addr x; wr_opcode := transform_op_code (opcode p); wr_imm := wimm; wr_sges := sges |} w
      = Some (wr, w1) /\
    build_wrs imported n chain (consumes_rqe (opcode p)) w1 = Some ((ret, wrs, c), w') /\ r = (ret, wr :: wrs, c).
Proof.
  cbn [build_wrs]. unfold get_queue, get_pro, mbind, M_bind, mret, M_ret.
  destruct (w_pro w !! buf_addr x) as [p|] eqn:Ep; [|done]. cbv zeta.
  destruct (_ && _); [intros [= <- <-]; by left|].
  destruct (gather_sges _ _ _ _) as [e|[sges chain]] eqn:Eg.
  { intros [= <- <-]. left. split; [by eapply gather_err|done]. }
  destruct (umq_ub_fill_wr _ _ _ _) as [ret wimm] eqn:Ef.
  destruct (Z.eqb_spec ret UMQ_SUCCESS) as [->|]; [|intros [= <- <-]; by left]. cbn [negb].
  destruct (umq_ub_fill_tx_imm _ w) as [[wr w1]|] eqn:Et; [|done].
  destruct (build_wrs _ _ chain _ w1) as [[[[ret2 wrs] c] w2]|] eqn:Eb; [|done].
  intros [= <- <-]. right. by exists p, wimm, sges, chain, wr, w1, ret2, wrs, c.
Qed.

Lemma build_frame n : forall bufs c0 w r w' addr, build_wrs imported n bufs c0 w = Some (r, w') ->
  addr ∉ map buf_addr bufs -> w_pro w' !! addr = w_pro w !! addr.
Proof.
  induction n as [|n IH]; intros [|x tl] c0 w r w' addr; try by intros [= _ <-].
  intros [(_ & _ & ->)|(p & wimm & sges & chain & wr & w1 & ret & wrs & c & _ & Eg & _ & Et & Eb & _)]%build_cons Ha; [done|].
  apply gather_suffix in Eg as [pre Hpre].
  rewrite (IH _ _ _ _ _ addr Eb).
  - apply fill_tx_imm_frame in Et as [_ [[_ ->]|(q & k & _ & _ & _ & ->)]]; [done|]. rewrite lookup_insert_ne; [done|].
    simpl. intros <-. apply Ha. by left.
  - intros H. apply Ha. rewrite Hpre, map_app. apply elem_of_app. by right.
Qed.

Lemma build_total n : forall bufs c0 w wrs c w', build_wrs imported n bufs c0 w = Some ((UMQ_SUCCESS, wrs, c), w') ->
  forall x, head bufs = Some x -> 0 < total_data_size x.
Proof.
  induction n as [|n IH]; intros [|x tl] c0 w wrs c w' E y; try done.
  intros [= <-]. apply build_cons in E as [(? & _)|(p & wimm & sges & chain & wr & w1 & ret & wrs' & c' & _ & Eg & _ & _ & Eb & [= <- _ _])]; [done|].
  destruct (gather_head _ _ _ _ _ _ Eg) as [[Ht _]|[Ht ->]]; [done|]. by apply (IH _ _ _ _ _ _ Eb).
Qed.

(** Attributes an application may give to a buffer it sends. *)
Definition pro_fresh (p : umq_buf_pro) : Prop := valid_opcode (opcode p) = true /\ pro_credits p = 0.

Lemma build_match n : forall bufs c0 w wrs c w', build_wrs imported n bufs c0 w = Some ((UMQ_SUCCESS, wrs, c), w') ->
  NoDup (map buf_addr bufs) ->
  (forall x, x ∈ bufs -> UINT16_MAX < buf_addr x /\ forall p, w_pro w !! buf_addr x = Some p -> pro_fresh p) ->
  Forall (matches (w_pro w')) wrs.
Proof.
  induction n as [|n IH]; intros [|x tl] c0 w wrs c w' E Hnd Hok; try (by injection E as <- _ _; constructor).
  1: by injection E.
  pose proof (build_total _ _ _ _ _ _ _ E x eq_refl) as Htot.
  apply build_cons in E as [(? & _)|(p & wimm & sges & chain & wr & w1 & ret & wrs' & c' & Ep & Eg & _ & Et & Eb & [= <- -> ->])]; [done|].
  destruct (gather_head _ _ _ _ _ _ Eg) as [[_ [pre ->]]|[Ht _]]; [|lia].
  simpl in Hnd. apply NoDup_cons in Hnd as [Hx Hnd]. rewrite map_app in Hx, Hnd.
  assert (Hxc : buf_addr x ∉ map buf_addr chain) by (intros H; apply Hx, elem_of_app; by right).
  destruct (Hok x ltac:(by left)) as [Hbig Hfr]. destruct (Hfr p Ep) as [Hv Hcr].
  pose proof (fill_tx_imm_frame _ _ _ _ Et) as [Hctx Hcase]. simpl in Hctx. apply Forall_cons. split.
  - unfold matches. rewrite Hctx, (proj2 (Z.leb_gt _ _)) by lia. rewrite (build_frame _ _ _ _ _ _ _ Eb Hxc).
    destruct Hcase as [[-> ->]|(q & k & Hs & Ho & Hi & ->)].
    + exists p. split; [done|]. unfold wr_uses. simpl. rewrite transform_valid, Hcr by done. split; [lia|].
      apply wr_credits_pos.
    + rewrite lookup_insert_eq. eexists. split; [done|]. unfold wr_uses, wr_credits, pro_credits. rewrite Ho, Hi. done.
  - apply (IH _ _ _ _ _ _ Eb); [by apply NoDup_app in Hnd as (_ & _ & ?)|]. intros y Hy. destruct (Hok y) as [Hy1 Hy2]; [right; apply elem_of_app; by right|].
    split; [done|]. intros py Epy. apply Hy2. rewrite <- Epy.
    assert (buf_addr y <> buf_addr x) by (intros Exy; apply Hxc; rewrite <- Exy; apply list_elem_of_fmap; by exists y).
    destruct Hcase as [[_ ->]|(q & k & _ & _ & _ & ->)]; [done|]. simpl. by rewrite lookup_insert_ne.
Qed.

Lemma from_bad_nth wrs k wr : NoDup (map wr_user_ctx wrs) -> wrs !! k = Some wr -> from_bad (wr_user_ctx wr) wrs = drop k wrs.
Proof.
  revert k. induction wrs as [|x wrs IH]; intros [|k] Hnd Hk; simpl in *; try done.
  - injection Hk as ->. by rewrite Z.eqb_refl.
  - apply NoDup_cons in Hnd as [Hx Hnd]. destruct (Z.eqb_spec (wr_user_ctx x) (wr_user_ctx wr)) as [E|]; [|by apply IH].
    exfalso. apply Hx. rewrite E. apply list_elem_of_fmap. exists wr. split; [done|]. by eapply list_elem_of_lookup_2.
Qed.

Lemma failed_num_len wrs bad : umq_ub_tx_failed_num wrs bad = zlen (from_bad bad wrs).
Proof. induction wrs as [|wr wrs IH]; simpl; [done|]. by destruct (wr_user_ctx wr =? bad). Qed.

Lemma good_uses c wrs : Forall (wr_good c) wrs -> zsum wr_uses wrs <= b2z c * zlen wrs.
Proof.
  induction 1 as [|wr wrs Hwr _ IH]; [change (zlen []) with 0; simpl; lia|].
  rewrite zsum_cons, zlen_cons. pose proof (wg_uses _ _ Hwr). lia.
Qed.

Lemma good_credits c wrs : Forall (wr_good c) wrs -> 0 <= zsum wr_credits wrs.
Proof. induction 1 as [|wr wrs Hwr _ IH]; [done|]. rewrite zsum_cons. pose proof (wg_credits _ _ Hwr). lia. Qed.

Lemma Forall_prefix {A} (P : A -> Prop) l k : l `prefix_of` k -> Forall P k -> Forall P l.
Proof. intros [m ->] H. by apply Forall_app in H as [? _]. Qed.

Lemma zlen_take {A} (l : list A) t : 0 <= t <= zlen l -> zlen (take (Z.to_nat t) l) = t.
Proof. unfold zlen. intros. rewrite length_take. lia. Qed.

Lemma zsum_take_drop {A} (f : A -> Z) n l : zsum f (take n l) + zsum f (drop n l) = zsum f l.
Proof. rewrite <- zsum_app. by rewrite take_drop. Qed.

(** A refused post accepted the requests before the one the code calls bad. *)
Lemma refused_suffix wrs t qbuf st bad_wr acc :
  NoDup (map wr_user_ctx wrs) -> 0 < t <= zlen wrs -> wr_user_ctx <$> head wrs = Some qbuf ->
  accepted (take (Z.to_nat t) wrs) (st, bad_wr) acc -> st <> URMA_SUCCESS ->
  let bad := match bad_wr with Some wr => wr_user_ctx wr | None => qbuf end in
  exists k, (k < Z.to_nat t)%nat /\ acc = take k wrs /\ from_bad bad wrs = drop k wrs /\
            umq_ub_tx_failed_num (take (Z.to_nat t) wrs) bad = t - Z.of_nat k.
Proof.
  intros Hnd Hg Hhead Hacc Hst.
  assert (forall k wr, take (Z.to_nat t) wrs !! k = Some wr ->
    (k < Z.to_nat t)%nat /\ from_bad (wr_user_ctx wr) wrs = drop k wrs /\
    umq_ub_tx_failed_num (take (Z.to_nat t) wrs) (wr_user_ctx wr) = t - Z.of_nat k) as Hnth.
  { intros k wr Hk. pose proof Hk as [Hk' Hlt]%lookup_take_Some. split_and!; [done|by apply from_bad_nth|].
    rewrite failed_num_len, (from_bad_nth _ k) by (done || (eapply sublist_NoDup; [exact Hnd|]; apply (fmap_sublist wr_user_ctx), sublist_take)).
    unfold zlen in *. rewrite length_drop, length_take. lia. }
  destruct bad_wr as [wr|]; simpl in Hacc.
  - destruct Hacc as (k & Hk & ->). destruct (Hnth k wr Hk) as (? & ? & ?). exists k. split_and!; try done.
    rewrite take_take. f_equal. lia.
  - destruct Hacc as [->|[? _]]; [|done]. destruct wrs as [|wr0 rest]; [done|]. injection Hhead as <-.
    destruct (Hnth 0%nat wr0) as (? & ? & ?); [destruct (Z.to_nat t) eqn:Eg; [lia|done]|].
    by exists 0%nat.
Qed.

Lemma avoid_drop g k wrs acc :
  NoDup (map wr_user_ctx wrs) -> Forall (fun wr => wr_user_ctx wr ∈ g_avoid g) wrs ->
  acc `prefix_of` take k wrs -> Forall (fun wr => wr_user_ctx wr ∈ g_avoid (avoid_less acc g)) (drop k wrs).
Proof.
  intros Hnd Hav Hpre. rewrite <- (take_drop k wrs), map_app in Hnd. apply NoDup_app in Hnd as (_ & Hd & _).
  rewrite Forall_forall in Hav |- *. intros wr Hwr. simpl. rewrite elem_of_difference, elem_of_list_to_set. split.
  - apply Hav. rewrite <- (take_drop k wrs). apply elem_of_app. by right.
  - intros (y & Ey & Hy)%list_elem_of_fmap. destruct Hpre as [l Hl]. apply (Hd (wr_user_ctx wr)); apply list_elem_of_fmap.
    + exists y. split; [done|]. rewrite Hl. apply elem_of_app. by left.
    + by exists wr.
Qed.

(** The part of [umq_ub_post_tx] after the window was taken. *)
Lemma post_tail_spec g c a b wrs t qbuf :
  Forall (wr_good c) wrs -> NoDup (map wr_user_ctx wrs) -> Forall (fun wr => wr_user_ctx wr ∈ g_avoid g) wrs ->
  0 < t <= zlen wrs -> t < 2 ^ 16 -> wr_user_ctx <$> head wrs = Some qbuf ->
  triple (fun w => Forall (matches (w_pro w)) wrs /\ invp g (a - b2z c * t) (b - zsum wr_credits wrs) w)
    ('(status, bad_wr) ← urma_post_jetty_send_wr (take (Z.to_nat t) wrs);
     if negb (status =? URMA_SUCCESS) then
       let bad := match bad_wr with Some wr => wr_user_ctx wr | None => qbuf end in
       _ ← (if c then umq_ub_window_inc (umq_ub_tx_failed_num (take (Z.to_nat t) wrs) bad) else mret tt);
       _ ← umq_ub_recover_tx_imm wrs bad;
       mret (- status, bad)
     else if t <? zlen wrs then
       match wrs !! Z.to_nat t with
       | None => undefined
       | Some wr => _ ← umq_ub_recover_tx_imm wrs (wr_user_ctx wr); mret (- UMQ_ERR_EAGAIN, wr_user_ctx wr)
       end
     else mret (UMQ_SUCCESS, 0))
    (fun _ => inv (set_avoid ∅ g) a b).
Proof.
  intros Hg Hnd Hav Hgr Hg16 Hhead. set (posted := take (Z.to_nat t) wrs).
  assert (Forall (wr_good c) posted) as Hgp by (eapply Forall_prefix; [apply prefix_take|done]).
  assert (zlen posted = t) as Hlp by (apply zlen_take; lia).
  assert (Hend : forall acc w, inv (avoid_less acc g) a b w -> inv (set_avoid ∅ g) a b w).
  { intros acc w Hw. by apply (inv_fewer _ ∅) in Hw. }
  apply (triple_bind _ _ (fun r w => pro_ok cls (w_pro w) /\ exists acc, accepted posted r acc /\
    inv (avoid_less acc g) (a - b2z c * t + zsum wr_uses acc) (b - zsum wr_credits wrs + zsum wr_credits acc) w)).
  { intros w (Hm & Hp & Hw). destruct (post_spec g (a - b2z c * t) (b - zsum wr_credits wrs) posted w) as (r & w' & E & H).
    - split; [|done]. apply (Forall_prefix _ _ wrs); [apply prefix_take|]. apply Forall_forall. intros wr Hwr.
      rewrite Forall_forall in Hm, Hg. destruct (Hg _ Hwr). split_and!; auto.
    - exists r, w'. split; [done|]. split; [|done]. by rewrite (proj1 (keeps_post _ _ _ _ E)). }
  intros [st bad_wr]. cbv beta. destruct (Z.eqb_spec st URMA_SUCCESS) as [->|Hst]; cbn [negb].
  - intros w (Hp & acc & Hacc & Hw). pose proof (accepted_prefix _ _ _ Hacc) as Hpre.
    assert (invp (avoid_less acc g) a (b - zsum wr_credits (drop (Z.to_nat t) wrs)) w) as Hw'.
    { split; [done|]. eapply inv_mono; [exact Hw| |].
      - pose proof (good_uses c acc ltac:(by eapply Forall_prefix)). apply prefix_length in Hpre.
        unfold zlen in *. destruct c; simpl in *; nia.
      - rewrite <- (zsum_take_drop wr_credits (Z.to_nat t) wrs). fold posted. destruct Hpre as [k Hk].
        rewrite Hk in Hgp |- *. apply Forall_app in Hgp as [_ Hgk]. rewrite zsum_app. pose proof (good_credits c k Hgk). lia. }
    destruct (Z.ltb_spec t (zlen wrs)).
    + destruct (wrs !! Z.to_nat t) as [wr|] eqn:Ek; [|apply lookup_ge_None in Ek; unfold zlen in *; lia].
      eapply triple_bind; [apply (recover_spec (avoid_less acc g) c); [done|]| |exact Hw'].
      { rewrite (from_bad_nth wrs _ wr Hnd Ek). by apply avoid_drop. }
      intros ?. apply triple_ret. intros w2 Hw2. cbv beta in Hw2. rewrite (from_bad_nth wrs _ wr Hnd Ek) in Hw2.
      apply (Hend acc). eapply inv_mono; [apply Hw2|lia|lia].
    + eexists _, w. split; [done|]. apply (Hend acc). eapply inv_mono; [apply Hw'|lia|].
      rewrite drop_ge by (unfold zlen in *; lia). simpl. lia.
  - cbv zeta. set (bad := match bad_wr with Some wr => wr_user_ctx wr | None => qbuf end).
    intros w (Hp & acc & Hacc & Hw).
    destruct (refused_suffix wrs t qbuf st bad_wr acc) as (k & Hk & Ha & Hb1 & Hb2); try done.
    fold posted bad in Hb1, Hb2.
    apply (triple_bind (invp (avoid_less acc g) (a - b2z c * (t - Z.of_nat k)) (b - zsum wr_credits (drop k wrs))) _
             (fun _ => invp (avoid_less acc g) a (b - zsum wr_credits (drop k wrs)))).
    + destruct c; [|apply triple_ret; intros w' Hw'; eapply invp_mono; [done|simpl; lia|lia]].
      rewrite Hb2.
      eapply triple_weaken; [apply (keeps_invp (avoid_less acc g) (a - b2z true * (t - Z.of_nat k)) (b - zsum wr_credits (drop k wrs)));
        [auto with keeps|apply window_inc_spec; lia]|done|].
      intros ? w' [? Hw']. split; [done|]. eapply inv_mono; [exact Hw'|simpl; lia|lia].
    + intros ?. eapply triple_bind; [apply (recover_spec (avoid_less acc g) c); [done|]|].
      { rewrite Hb1. apply avoid_drop; try done. by rewrite Ha. }
      intros ?. apply triple_ret. intros w' Hw'. cbv beta in Hw'. rewrite Hb1 in Hw'.
      apply (Hend acc). eapply inv_mono; [apply Hw'|lia|lia].
    + split; [done|]. eapply inv_mono; [exact Hw| |].
      * rewrite Ha. pose proof (good_uses c (take k wrs) ltac:(eapply Forall_prefix; [apply prefix_take|done])).
        unfold zlen in *. rewrite length_take in *. destruct c; simpl in *; lia.
      * rewrite Ha, <- (zsum_take_drop wr_credits k wrs). lia.
Qed.

(** The window is charged for a chain in which some operation uses a receive
    buffer: the last request uses one. *)
Definition charged (c : bool) (bufs : list umq_buf) (w : world) : Prop :=
  c = true -> forall wrs c' w', build_wrs imported (Z.to_nat UMQ_BATCH_SIZE) bufs false w = Some ((UMQ_SUCCESS, wrs, c'), w') -> c' = true.

(** [umq_ub_post_tx] keeps both accounts, whatever the jetty answers. *)
Lemma post_tx_spec g c a b bufs w :
  bufs <> [] -> NoDup (map buf_addr bufs) ->
  Forall (fun x => cls !! buf_addr x = Some c) bufs -> (forall addr, is_Some (cls !! addr) -> addr ∈ g_avoid g) ->
  (forall x p, x ∈ bufs -> w_pro w !! buf_addr x = Some p -> pro_fresh p) -> charged c bufs w ->
  invp g a b w -> exists r w', umq_ub_post_tx imported bufs w = Some (r, w') /\ inv (set_avoid ∅ g) a b w'.
Proof.
  intros Hne Hnd Hall Hdom Hfr Hch Hw. destruct bufs as [|b0 tl]; [done|]. unfold umq_ub_post_tx.
  pose proof (inv_big _ _ _ _ (proj2 Hw)) as Hbig. rewrite Forall_forall in Hall.
  assert (Hin : forall x, x ∈ b0 :: tl -> buf_addr x ∈ g_avoid g) by (intros x Hx; apply Hdom; rewrite (Hall x Hx); by eexists).
  unfold get_queue, mbind at 1, M_bind at 1. rewrite (inv_bound _ _ _ _ (proj2 Hw)). cbn [negb].
  destruct (build_wrs_spec g c (Z.to_nat UMQ_BATCH_SIZE) (b0 :: tl) false a b) with (w := w) as ([[ret wrs] c'] & w1 & E & Hb & Hw1); [|done|].
  { apply Forall_forall. intros x Hx. pose proof (Hbig _ (Hin x Hx)). split_and!; [by apply Hall| |by apply Hin]. unfold UINT16_MAX in *. lia. }
  unfold mbind at 1, M_bind at 1. rewrite E. cbn [fst snd] in *. destruct Hb as [Hgood Hhead Hsub _ Hcls _ Hlen]. set (qbuf := buf_addr b0).
  assert (Hav : Forall (fun wr => wr_user_ctx wr ∈ g_avoid g) wrs).
  { eapply Forall_impl; [exact Hgood|]. intros wr Hwr. apply Hdom, Hwr. }
  assert (triple (invp g a (b - zsum wr_credits wrs)) (umq_ub_recover_tx_imm wrs qbuf) (fun _ => inv (set_avoid ∅ g) a b)) as Hrec.
  { eapply triple_weaken; [apply (recover_spec g c); [done|]|done|].
    - destruct wrs as [|wr wrs]; [done|]. specialize (Hhead wr eq_refl). injection Hhead as Hq. cbn [from_bad]. fold qbuf in Hq. by rewrite <- Hq, Z.eqb_refl.
    - intros ? w' [_ Hw']. apply inv_fewer; [apply empty_subseteq|]. eapply inv_mono; [exact Hw'|lia|].
      destruct wrs as [|wr wrs]; [simpl; lia|].
      specialize (Hhead wr eq_refl). injection Hhead as Hq. cbn [from_bad]. fold qbuf in Hq. rewrite <- Hq, Z.eqb_refl. lia. }
  destruct (Z.eqb_spec ret UMQ_SUCCESS) as [->|Hret]; simpl negb; cbv iota.
  2: { eapply triple_bind; [exact Hrec| |exact Hw1]. intros ?. by apply triple_ret. }
  destruct (Hcls eq_refl) as [Hc0 Hwne]; [done|]. specialize (Hsub eq_refl).
  assert (c' = c) as -> by (destruct c; [by apply (Hch eq_refl _ _ _ E)|by apply Hc0]).
  assert (0 < zlen wrs <= 64) as Hl.
  { unfold zlen. change (Z.to_nat UMQ_BATCH_SIZE) with 64%nat in Hlen. destruct wrs; [done|]. simpl in *. lia. }
  assert (Forall (matches (w_pro w1)) wrs) as Hm.
  { apply (build_match _ _ _ _ _ _ _ E Hnd). intros x Hx. split; [by apply Hbig, Hin|]. intros p. by apply Hfr. }
  eapply (triple_bind (fun w => Forall (matches (w_pro w)) wrs /\ invp g a (b - zsum wr_credits wrs) w) _
    (fun t w => 0 <= t <= zlen wrs /\ Forall (matches (w_pro w)) wrs /\ invp g (a - b2z c * t) (b - zsum wr_credits wrs) w)); [| |done].
  { destruct c; simpl b2z.
    - eapply triple_weaken; [apply (triple_keeps (fun m => Forall (matches m) wrs)); [auto with keeps|];
        apply (keeps_invp g a (b - zsum wr_credits wrs)); [auto with keeps|apply (window_dec_spec _ a _ (zlen wrs)); lia]|done|].
      intros t w' (? & ? & ? & ?). split; [done|]. split; [done|]. split; [done|]. inv_weaken.
    - apply triple_ret. intros w' [? Hw']. split; [lia|]. split; [done|]. eapply invp_mono; [done|lia|lia]. }
  intros t. cbv beta. apply triple_pure. intros Ht.
  destruct (Z.eqb_spec t 0) as [->|Ht0].
  - eapply triple_bind; [eapply triple_pre; [exact Hrec|]|intros ?; by apply triple_ret].
    intros w' [_ Hw']. eapply invp_mono; [done|lia|lia].
  - apply (post_tail_spec g c a b wrs t qbuf); [done| |done|lia|lia|].
    + by eapply sublist_NoDup.
    + destruct wrs as [|wr wrs]; [done|]. specialize (Hhead wr eq_refl). injection Hhead as E'. simpl. unfold qbuf. by rewrite E'.
Qed.
End sends.

(** ** Receives *)

Lemma gather_segment_suffix max bufs : forall rest k seg chain,
  gather_segment max rest k bufs = Some (seg, chain) -> exists pre, bufs = pre ++ chain.
Proof.
  induction bufs as [|b tl IH]; intros rest k seg chain; simpl.
  { destruct (rest =? 0); intros [= <- <-]. by exists []. }
  destruct (0 <? rest); [|intros [= <- <-]; by exists []].
  destruct (max <=? k); [done|]. destruct (rest <? data_size b); [done|].
  destruct (gather_segment max _ _ tl) as [[s ch]|] eqn:E; [|done]. intros [= <- <-].
  destruct (IH _ _ _ _ E) as [pre ->]. by exists (b :: pre).
Qed.

Section receives.
Context (g : ghost).

Definition invr (S : list Z) (r a b : Z) (w : world) : Prop :=
  Forall (fun ctx => is_Some (rx_buffer (w_queue w) !! ctx)) S /\ w_rqes w = r /\ inv g a b w.

Definition upd_rx (idle used : list Z) (m : gmap Z Z) (w : world) : world :=
  {| w_queue := set_rx_ctx idle used m (w_queue w); w_pro := w_pro w; w_answers := w_answers w; w_sent := w_sent w;
     w_rqes := w_rqes w |}.

Lemma invr_upd_rx S S' r a b w idle used m :
  invr S r a b w -> Forall (fun ctx => is_Some (m !! ctx)) S' -> invr S' r a b (upd_rx idle used m w).
Proof. intros (HS & Hr & Hw) HS'. split_and!; try done. destruct Hw; by split. Qed.

Lemma ctx_put_spec S r a b ctx : triple (invr S r a b) (queue_rx_buf_ctx_put ctx) (fun _ => invr S r a b).
Proof. intros w Hw. eexists tt, _. split; [done|]. eapply (invr_upd_rx S S); [done|]. apply Hw. Qed.

Lemma set_ctx_buffer_spec S r a b ctx buf :
  triple (invr S r a b) (set_ctx_buffer ctx buf) (fun _ => invr (ctx :: S) r a b).
Proof.
  intros w Hw. eexists tt, _. split; [done|]. eapply (invr_upd_rx S); [done|]. destruct Hw as (HS & _).
  apply Forall_cons. split; [rewrite lookup_insert_eq; by eexists|]. eapply Forall_impl; [done|]. intros c Hc.
  destruct (decide (c = ctx)) as [->|]; [rewrite lookup_insert_eq; by eexists|]. by rewrite lookup_insert_ne.
Qed.

Lemma ctx_get_spec S r a b : triple (invr S r a b) queue_rx_buf_ctx_get (fun _ => invr S r a b).
Proof.
  intros w Hw. unfold queue_rx_buf_ctx_get, get_queue, mbind, M_bind. destruct (rx_idle (w_queue w)) as [|c idle].
  - eexists None, w. done.
  - eexists (Some c), _. split; [done|]. eapply (invr_upd_rx S S); [done|]. apply Hw.
Qed.

Lemma build_recv_spec n : forall bufs last S r a b,
  Forall (fun x => 0 < total_data_size x) bufs ->
  triple (invr S r a b) (build_recv n bufs last)
    (fun x w => (length x.1.2 <= n)%nat /\ invr (S ++ map fst x.1.2) r a b w).
Proof.
  assert (forall n ok rest S r a b, triple (invr S r a b) (mret (ok, [], rest))
    (fun (x : bool * list recv_wr * list umq_buf) w => (length x.1.2 <= n)%nat /\ invr (S ++ map fst x.1.2) r a b w)) as Hret.
  { intros. apply triple_ret. intros w Hw. simpl. rewrite app_nil_r. split; [lia|done]. }
  induction n as [|n IH]; intros bufs last S r a b Hall; destruct bufs as [|x tl]; cbn [build_recv]; try apply Hret.
  pose proof Hall as [Hx _]%Forall_cons.
  eapply triple_bind; [apply ctx_get_spec|]. intros [ctx|]; cbv beta; [|apply Hret].
  eapply triple_bind; [apply set_ctx_buffer_spec|]. intros ?. cbv beta. apply triple_get_queue. intros q.
  apply (triple_pre (invr (ctx :: S) r a b)); [|tauto].
  destruct (gather_segment (max_rx_sge q) (total_data_size x) 0 (x :: tl)) as [[seg chain]|] eqn:Eg.
  - rewrite (proj2 (Z.ltb_lt _ _) Hx), orb_true_r. simpl negb. cbv iota.
    eapply triple_bind; [apply (IH chain)|].
    { apply gather_segment_suffix in Eg as [pre Hpre]. rewrite Hpre in Hall. by apply Forall_app in Hall as [_ ?]. }
    intros [[ok wrs] rest]. apply triple_ret. intros w [Hl (HS & Hw)]. simpl in *. split; [lia|].
    split; [|done]. apply Forall_cons in HS as [? [? ?]%Forall_app]. apply Forall_app. split; [done|]. by apply Forall_cons.
  - eapply triple_bind; [apply ctx_put_spec|]. intros ?. cbv beta.
    eapply triple_pre; [apply Hret|]. intros w (HS & Hw). split; [|done]. by apply Forall_cons in HS as [_ ?].
Qed.

Lemma process_bad_wr_spec wrs : forall S r a b rest, triple (invr S r a b) (process_bad_wr wrs rest) (fun _ => invr S r a b).
Proof.
  induction wrs as [|[ctx seg] wrs IH]; intros S r a b rest; cbn [process_bad_wr]; [by apply triple_ret|].
  eapply triple_bind; [apply ctx_put_spec|]. intros ?. eapply triple_bind; [apply IH|]. intros ?. by apply triple_ret.
Qed.

Lemma post_recv_result wrs w : exists st bad n,
  urma_post_jetty_recv_wr wrs w = Some ((st, bad), {| w_queue := w_queue w; w_pro := w_pro w; w_answers := tail (w_answers w);
                                                   w_sent := w_sent w; w_rqes := w_rqes w + n |}) /\ 0 <= n.
Proof.
  unfold urma_post_jetty_recv_wr. destruct (w_answers w) as [|[|st [k|]] ans]; simpl;
    [eexists _, _, (zlen wrs); split; [done|unfold zlen; lia]..| |eexists _, _, 0; by rewrite Z.add_0_r].
  destruct (wrs !! k); simpl; [eexists _, _, (Z.of_nat k); split; [done|lia]|eexists _, _, 0; by rewrite Z.add_0_r].
Qed.

Lemma recv_failed_num_range wrs bad : 0 <= umq_ub_post_rx_failed_num wrs bad <= zlen wrs.
Proof.
  induction wrs as [|[ctx seg] wrs IH]; simpl; [done|]. destruct (ctx =? bad); rewrite !zlen_cons; unfold zlen in *; lia.
Qed.

(** The receive requests the code counts for the peer are at most those the
    jetty accepted.  When the jetty refuses some, the code counts the refused. *)
Definition rx_covered (bufs : list umq_buf) (w : world) : Prop :=
  forall wrs rest w1 st bad w2,
    build_recv (Z.to_nat UMQ_BATCH_SIZE) bufs false w = Some ((true, wrs, rest), w1) ->
    urma_post_jetty_recv_wr wrs w1 = Some ((st, bad), w2) ->
    (if st =? URMA_SUCCESS then zlen wrs
     else umq_ub_post_rx_failed_num wrs (match bad, bufs with (ctx, _) :: _, _ => ctx | [], b :: _ => buf_addr b | [], [] => 0 end))
    <= w_rqes w2 - w_rqes w1.

(** Posting receives: the receive buffers owed to the peer grow by at most the
    requests accepted. *)
Lemma post_rx_spec r a b bufs w :
  bufs <> [] -> Forall (fun x => 0 < total_data_size x) bufs -> rx_covered bufs w -> invr [] r a b w ->
  exists x w', umq_ub_post_rx_inner_impl bufs w = Some (x, w') /\ r <= w_rqes w' /\ inv g a (b + (w_rqes w' - r)) w'.
Proof.
  intros Hne Hall Hcov Hw. destruct bufs as [|b0 tl]; [done|]. unfold umq_ub_post_rx_inner_impl.
  destruct (build_recv_spec (Z.to_nat UMQ_BATCH_SIZE) (b0 :: tl) false [] r a b Hall w Hw) as ([[ok wrs] rest] & w1 & E & Hlen & Hw1).
  unfold mbind at 1, M_bind at 1. rewrite E. cbn [fst snd] in *. pose proof Hw1 as (HS & Hr & Hi).
  destruct ok; cbn [negb].
  - destruct (post_recv_result wrs w1) as (st & bad & n & Ep & Hn). specialize (Hcov _ _ _ _ _ _ E Ep). cbn [w_rqes] in Hcov.
    unfold mbind at 1, M_bind at 1. rewrite Ep. set (w2 := {| w_queue := _ |}) in *.
    assert (inv g a b w2) as Hi2 by (destruct Hi; by split).
    assert (zlen wrs <= 64) as Hz by (unfold zlen; change (Z.to_nat UMQ_BATCH_SIZE) with 64%nat in Hlen; lia).
    pose proof (recv_failed_num_range wrs) as Hf.
    assert (Hup : forall m, 0 <= m <= zlen wrs -> m <= n -> exists w3, umq_ub_rq_posted_notifier_update m w2 = Some (tt, w3) /\
      w_rqes w3 = r + n /\ inv g a (b + n) w3).
    { intros m Hm Hmn. destruct (notifier_update_spec g a b m ltac:(lia) w2 Hi2) as ([] & w3 & E3 & Hw3). exists w3.
      split; [done|]. rewrite (proj2 (keeps_notifier_update _ _ _ _ E3)). split; [simpl; lia|]. inv_weaken. }
    destruct (Z.eqb_spec st URMA_SUCCESS) as [->|Hst]; cbn [negb].
    + destruct (Hup (zlen wrs)) as (w3 & E3 & Hr3 & Hi3); [unfold zlen; lia|lia|].
      unfold mbind, M_bind. rewrite E3. eexists _, w3. split; [done|]. rewrite Hr3. split; [lia|]. inv_weaken.
    + cbv zeta. set (ctx := match bad with (c, _) :: _ => c | [] => buf_addr b0 end).
      assert (umq_ub_post_rx_failed_num wrs ctx <= n) as Hle by (unfold ctx; destruct bad as [|[? ?] ?]; lia).
      destruct (Hup _ (Hf ctx) Hle) as (w3 & E3 & Hr3 & Hi3). unfold mbind at 1, M_bind at 1. rewrite E3.
      eapply triple_bind; [apply (process_bad_wr_spec bad [] (r + n) a (b + n))|intros ?; apply triple_ret|by split_and!].
      intros w4 (_ & Hr4 & Hi4). rewrite Hr4. split; [lia|]. inv_weaken.
  - assert (forall w' S, invr S r a b w' -> r <= w_rqes w' /\ inv g a (b + (w_rqes w' - r)) w') as Hfin.
    { intros w' S (_ & Hr' & Hw'). rewrite Hr'. split; [lia|]. inv_weaken. }
    destruct wrs as [|[ctx seg] wrs]; [eexists _, w1; split; [done|]; by apply (Hfin w1 [])|].
    unfold get_queue, mbind at 1, M_bind at 1. pose proof HS as [[first Ef] _]%Forall_cons. simpl in Ef. rewrite Ef.
    eapply triple_bind; [apply process_bad_wr_spec|intros ?; apply triple_ret|exact Hw1].
    intros w' Hw'. by eapply Hfin.
Qed.
End receives.

(** ** Arrival of a message and of the initial window *)

Lemma set_pro_total g a b w addr op imm : is_Some (w_pro w !! addr) -> addr ∈ g_avoid g -> inv g a b w ->
  exists w', set_pro addr op imm w = Some (tt, w') /\ inv g a b w'.
Proof.
  intros [p E] Ha Hw. unfold set_pro, get_pro, put_pro, mbind, M_bind. rewrite E. eexists. split; [done|]. by apply inv_put_pro.
Qed.

(** The completion the receiver polls for a message sent with [wr]. *)
Definition rx_cr (wr : jfs_wr) (ctx local_id : Z) : urma_cr :=
  {| cr_status := URMA_CR_SUCCESS; cr_user_ctx := ctx;
     cr_opcode := if wr_opcode wr =? URMA_OPC_SEND_IMM then URMA_CR_OPC_SEND_WITH_IMM else 0;
     cr_imm := wr_imm wr; cr_local_id := local_id |}.

Lemma on_rx_done_spec g a b w jt im wr ctx lid rx st :
  clean wr -> is_Some (w_pro w !! rx) -> rx ∈ g_avoid g -> inv g a b w ->
  exists st' w', umq_ub_on_rx_done jt im (rx_cr wr ctx lid) rx st w = Some (st', w') /\ inv g (a + wr_credits wr) b w'.
Proof.
  intros Hcl [p Hp] Hav Hw. unfold umq_ub_on_rx_done, rx_cr, wr_credits. cbn [cr_opcode cr_imm cr_local_id].
  destruct (Z.eqb_spec (wr_opcode wr) URMA_OPC_SEND_IMM) as [Hop|Hop].
  2: { eexists st, w. split; [done|]. simpl. inv_weaken. }
  rewrite Z.eqb_refl. cbn [negb andb]. unfold get_pro, put_pro, mbind, M_bind. rewrite Hp.
  set (w1 := {| w_queue := w_queue w |}). assert (inv g a b w1) as Hw1 by (by apply inv_put_pro).
  assert (is_Some (w_pro w1 !! rx)) as Hp1 by (unfold w1; simpl; rewrite lookup_insert_eq; by eexists).
  specialize (Hcl Hop). unfold is_flow_control_imm in *.
  destruct (Z.eqb_spec (imm_private (wr_imm wr)) 0) as [E|E]; cbn [negb andb].
  { destruct (set_pro_total g a b w1 rx (opcode p) (wr_imm wr) Hp1 Hav Hw1) as (w2 & -> & Hw2). eexists st, _. split; [done|]. inv_weaken. }
  destruct Hcl as [?|Hcl]; [done|]. cbn [negb andb] in Hcl. rewrite Hcl.
  destruct (window_inc_spec g a b (imm_window (wr_imm wr)) (imm_window_range _) w1 Hw1) as ([] & w2 & E2 & Hw2).
  rewrite E2. destruct (imm_in_user_buf (wr_imm wr) =? UMQ_UB_IMM_IN_USER_BUF); [|by eexists _, w2].
  assert (is_Some (w_pro w2 !! rx)) as Hp2 by (by rewrite (proj1 (keeps_window_inc _ _ _ _ E2))).
  destruct (set_pro_total _ _ _ w2 rx UMQ_OPC_SEND 0 Hp2 Hav Hw2) as (w3 & -> & Hw3). by eexists _, _.
Qed.

(** ** Completions of sends *)

Definition tx_cr (status ctx : Z) : urma_cr :=
  {| cr_status := status; cr_user_ctx := ctx; cr_opcode := 0; cr_imm := 0; cr_local_id := 0 |}.

(** A completion that reports an error of its request. *)
Definition error_status (st : Z) : Prop :=
  st <> URMA_CR_SUCCESS /\ st <> URMA_CR_WR_FLUSH_ERR_DONE /\ st <> URMA_CR_WR_SUSPEND_DONE.

(** A send with credits is turned back into a plain send. *)
Lemma reset_pro g a b w buf p : w_pro w !! buf = Some p -> opcode p = UMQ_OPC_SEND_IMM -> inv g a b w ->
  exists w', set_pro buf UMQ_OPC_SEND 0 w = Some (tt, w') /\ inv g a b w' /\ is_Some (w_pro w' !! buf).
Proof.
  intros E Ho []. unfold set_pro, get_pro, put_pro, mbind, M_bind. rewrite E. eexists. split; [done|].
  split; [|simpl; rewrite lookup_insert_eq; by eexists]. split; simpl; try done.
  eapply Forall_impl; [exact inv_match0|]. intros wr. unfold matches. destruct (_ <=? _); [done|].
  intros (q & Eq & Hu & Hc). destruct (decide (wr_user_ctx wr = buf)) as [Eb|Hne]; [|rewrite lookup_insert_ne by done; by exists q].
  rewrite Eb in *. rewrite lookup_insert_eq. eexists. split; [done|]. assert (q = p) as -> by congruence. rewrite Ho in Hu. split; [done|]. apply wr_credits_pos.
Qed.

Lemma on_tx_done_spec g a b w buf (failed : bool) p : w_pro w !! buf = Some p -> inv g a b w ->
  exists w', umq_ub_on_tx_done buf failed w = Some (tt, w') /\ is_Some (w_pro w' !! buf) /\
    inv g (a + if failed then b2z (consumes_rqe (opcode p)) else 0) (b + if failed then pro_credits p else 0) w'.
Proof.
  intros E Hw. unfold umq_ub_on_tx_done, get_pro. unfold mbind at 1, M_bind at 1. rewrite E.
  set (a' := a + if failed then b2z (consumes_rqe (opcode p)) else 0).
  assert (exists w1, (if failed && consumes_rqe (opcode p) then umq_ub_window_inc 1 else mret tt) w = Some (tt, w1) /\
    w_pro w1 = w_pro w /\ inv g a' b w1) as (w1 & E1 & Hp1 & Hw1).
  { unfold a'. destruct failed, (consumes_rqe (opcode p)); simpl; try (exists w; split_and!; [done..|inv_weaken]).
    destruct (window_inc_spec g a b 1 ltac:(lia) w Hw) as ([] & w1 & E1 & Hw1). exists w1. split_and!; [done|by apply (keeps_window_inc _ _ _ _ E1)|inv_weaken]. }
  unfold mbind at 1, M_bind at 1. rewrite E1. rewrite <- Hp1 in E. unfold pro_credits.
  destruct (Z.eqb_spec (opcode p) UMQ_OPC_SEND_IMM) as [Ho|Ho]; cbn [negb andb].
  2: { exists w1. split_and!; [done|by rewrite E|]. destruct failed; inv_weaken. }
  destruct (is_flow_control_imm (imm_data p)); cbn [negb].
  2: { exists w1. split_and!; [done|by rewrite E|]. destruct failed; inv_weaken. }
  assert (exists w2, (if failed then umq_ub_rq_posted_notifier_inc (imm_window (imm_data p)) else mret tt) w1 = Some (tt, w2) /\
    w_pro w2 = w_pro w1 /\ inv g a' (b + if failed then imm_window (imm_data p) else 0) w2) as (w2 & E2 & Hp2 & Hw2).
  { destruct failed; [|exists w1; split_and!; [done..|inv_weaken]].
    destruct (notifier_inc_spec g a' b _ (imm_window_range (imm_data p)) w1 Hw1) as ([] & w2 & E2 & Hw2).
    exists w2. split_and!; [done|by apply (keeps_notifier_inc _ _ _ _ E2)|done]. }
  unfold mbind at 1, M_bind at 1. rewrite E2. rewrite <- Hp2 in E.
  destruct (reset_pro _ _ _ w2 buf p E Ho Hw2) as (w3 & E3 & Hw3 & Hp3). by exists w3.
Qed.

Lemma process_tx_total buf w : is_Some (w_pro w !! buf) -> exists r, process_tx_msg buf w = Some (r, w).
Proof. intros [p E]. unfold process_tx_msg, get_pro, mbind, M_bind. rewrite E. repeat case_match; by eexists. Qed.

(** The completion of a send of a buffer. *)
Lemma poll_buffer_spec g a b w st buf p :
  UINT16_MAX < buf -> st = URMA_CR_SUCCESS \/ error_status st -> w_pro w !! buf = Some p -> inv g a b w ->
  let failed := negb (st =? URMA_CR_SUCCESS) in
  exists r w', poll_tx_one (tx_cr st buf) w = Some (r, w') /\
    inv g (a + if failed then b2z (consumes_rqe (opcode p)) else 0) (b + if failed then pro_credits p else 0) w'.
Proof.
  intros Hb Hst E Hw failed. unfold poll_tx_one, tx_cr. cbn [cr_status cr_user_ctx]. cbv zeta. fold failed.
  assert (failed && (st =? URMA_CR_WR_FLUSH_ERR_DONE) = false /\ failed && (st =? URMA_CR_WR_SUSPEND_DONE) = false) as [-> ->].
  { unfold failed. destruct Hst as [->|(H1 & H2 & H3)]; [done|]. by rewrite (proj2 (Z.eqb_neq _ _) H2), (proj2 (Z.eqb_neq _ _) H3), !andb_false_r. }
  unfold UINT16_MAX in *. rewrite (proj2 (Z.eqb_neq buf 0)), (proj2 (Z.leb_gt buf _)), !andb_false_r by lia.
  destruct (on_tx_done_spec g a b w buf failed p E Hw) as (w1 & E1 & Hp1 & Hw1). unfold mbind at 1, M_bind at 1. rewrite E1.
  destruct (process_tx_total buf w1 Hp1) as (r & E2). unfold mbind, M_bind. rewrite E2. by eexists _, w1.
Qed.

(** A request that failed: its completion takes back what it carried. *)
Lemma poll_failed_spec g a b w wr st : error_status st -> wr_reads wr = 0 -> matches (w_pro w) wr -> inv g a b w ->
  exists r w', poll_tx_one (tx_cr st (wr_user_ctx wr)) w = Some (r, w') /\ inv g (a + wr_uses wr) (b + wr_credits wr) w'.
Proof.
  intros Hst Hr Hm Hw. unfold matches in Hm. destruct (Z.leb_spec (wr_user_ctx wr) UINT16_MAX) as [Hs|Hb].
  - destruct Hm as [?|(H0 & Hp & Hu & Hc)]; [lia|]. destruct Hst as (H1 & H2 & H3). unfold poll_tx_one, tx_cr. cbn [cr_status cr_user_ctx].
    rewrite (proj2 (Z.eqb_neq _ _) H1), (proj2 (Z.eqb_neq _ _) H2), (proj2 (Z.eqb_neq _ _) H3), (proj2 (Z.eqb_neq _ _) H0). cbn [negb andb].
    rewrite (proj2 (Z.leb_le _ _) Hs). unfold UINT16_MAX in Hs. rewrite u16_small, Hu, Hc by lia.
    destruct (window_inc_spec g a b 1 ltac:(lia) w Hw) as ([] & w1 & E1 & Hw1). unfold mbind at 1, M_bind at 1. rewrite E1.
    destruct (notifier_inc_spec g (a + 1) b (wr_user_ctx wr) ltac:(lia) w1 Hw1) as ([] & w2 & E2 & Hw2). unfold mbind, M_bind. rewrite E2.
    by eexists _, w2.
  - destruct Hm as (p & Ep & Hu & Hc). destruct (poll_buffer_spec g a b w st (wr_user_ctx wr) p) as (r & w' & E & Hw'); [done|by right|done..|].
    exists r, w'. split; [done|]. rewrite (proj2 (Z.eqb_neq _ _)) in Hw' by apply Hst. cbn [negb] in Hw'. inv_weaken.
Qed.

(** A request that succeeded. *)
Lemma poll_sent_spec g a b w ctx : ctx <> 0 -> (UINT16_MAX < ctx -> is_Some (w_pro w !! ctx)) -> inv g a b w ->
  exists r w', poll_tx_one (tx_cr URMA_CR_SUCCESS ctx) w = Some (r, w') /\ inv g a b w'.
Proof.
  intros H0 Hp Hw. destruct (Z.leb_spec ctx UINT16_MAX) as [Hs|Hb].
  - unfold poll_tx_one, tx_cr. cbn [cr_status cr_user_ctx]. rewrite Z.eqb_refl, (proj2 (Z.eqb_neq _ _) H0), (proj2 (Z.leb_le _ _) Hs).
    cbn [negb andb]. by eexists _, w.
  - destruct (Hp Hb) as [p Ep]. destruct (poll_buffer_spec g a b w URMA_CR_SUCCESS ctx p) as (r & w' & E & Hw'); [done|by left|done..|].
    exists r, w'. split; [done|]. simpl in Hw'. inv_weaken.
Qed.

(** The marks a flushed or suspended jetty leaves. *)
Lemma poll_mark_spec g a b w st ctx : st = URMA_CR_WR_FLUSH_ERR_DONE \/ st = URMA_CR_WR_SUSPEND_DONE -> inv g a b w ->
  exists r w', poll_tx_one (tx_cr st ctx) w = Some (r, w') /\ inv g a b w'.
Proof.
  intros [->| ->] Hw; unfold poll_tx_one, tx_cr; cbn [cr_status cr_user_ctx]; cbn [Z.eqb negb andb].
  - unfold get_queue, put_queue, mbind, M_bind. simpl. destruct (state (w_queue w)); eexists _, _; (split; [done|]); try done.
    destruct Hw. by split.
  - by eexists _, w.
Qed.

(** The completion of a window read. *)
Definition read_cr (status : Z) : urma_cr := tx_cr status 0.

Definition add_reads (n : Z) (g : ghost) : ghost :=
  {| g_taken := g_taken g; g_pub := g_pub g; g_remote := g_remote g; g_reads := g_reads g + n; g_avoid := g_avoid g |}.

Lemma inv_read_reset g a b w : 1 <= g_reads g -> inv g a b w ->
  inv (add_reads (-1) g) a b (upd_fc (set_remote_get false (fc_of w)) w).
Proof.
  intros Hd []. assert (0 <= zsum wr_reads (w_sent w)) as Hr.
  { clear. induction (w_sent w) as [|wr l IH]; [done|]. rewrite zsum_cons. unfold wr_reads at 1. destruct (_ && _); simpl; lia. }
  unfold out_use, in_use in *. split; unfold out_use, in_use, fc_of, upd_fc in *; simpl in *; try done; lia.
Qed.

(** A window read that returned 0 is repeated; a positive one adds the window. *)
Lemma read_done_spec g a b w : 1 <= g_reads g -> in_u16 (g_remote g) -> inv g a b w ->
  exists r w', poll_tx_one (read_cr URMA_CR_SUCCESS) w = Some (r, w') /\
    if g_remote g =? 0 then inv (add_reads (-1) g) a b w' else inv g (a + g_remote g) b w'.
Proof.
  intros Hd Hr Hw. unfold poll_tx_one, read_cr. simpl.
  unfold get_queue, get_fc, put_fc, put_queue, mbind, M_bind. rewrite (inv_remote _ _ _ _ Hw).
  destruct (Z.eqb_spec (g_remote g) 0) as [E|E].
  - pose proof (inv_read_reset g a b w Hd Hw) as Hw1.
    destruct (window_read_spec (add_reads (-1) g) a b (upd_fc (set_remote_get false (fc_of w)) w) (conj eq_refl Hw1)) as ([] & w2 & E2 & Hw2).
    unfold upd_fc, fc_of in E2. rewrite E2. eexists _, w2. split; [done|]. done.
  - destruct (window_inc_spec g a b (g_remote g) Hr w Hw) as ([] & w2 & E2 & Hw2). rewrite E2.
    eexists _, _. split; [done|]. destruct Hw2. by split.
Qed.

Lemma read_failed_spec g a b w st : 1 <= g_reads g -> inv g a b w ->
  error_status st ->
  exists r w', poll_tx_one (read_cr st) w = Some (r, w') /\ inv (add_reads (-1) g) a b w'.
Proof.
  intros Hd Hw (H1 & H2 & H3). unfold poll_tx_one, read_cr. simpl.
  rewrite (proj2 (Z.eqb_neq _ _) H1), (proj2 (Z.eqb_neq _ _) H2), (proj2 (Z.eqb_neq _ _) H3). simpl.
  eexists _, _. split; [done|]. by apply inv_read_reset.
Qed.

(** ** Two bound queues *)

(** A side: its queue with the requests in flight towards the peer ([w_sent]),
    the receive buffers it has posted and that no message has used, and the
    window reads that completed and were not polled yet.  [s_absorbed] records
    that the peer's initial window was added; no step depends on it. *)
Record side := { s_world : world; s_rq : Z; s_done : Z; s_absorbed : bool }.

Definition with_answers (ans : list post_answer) (w : world) : world :=
  {| w_queue := w_queue w; w_pro := w_pro w; w_answers := ans; w_sent := w_sent w; w_rqes := w_rqes w |}.
Definition with_sent (l : list jfs_wr) (w : world) : world :=
  {| w_queue := w_queue w; w_pro := w_pro w; w_answers := w_answers w; w_sent := l; w_rqes := w_rqes w |}.
Definition with_notify_remote (n : Z) (w : world) : world :=
  let q := w_queue w in
  {| w_queue :=
       {| bound := bound q; flow_control := flow_control q; max_tx_sge := max_tx_sge q; max_rx_sge := max_rx_sge q;
          tx_buf_size := tx_buf_size q; remote_rx_buf_size := remote_rx_buf_size q; state := state q;
          tx_flush_done := tx_flush_done q; notify_local := notify_local q; notify_remote := n;
          rx_idle := rx_idle q; rx_used := rx_used q; rx_buffer := rx_buffer q |};
     w_pro := w_pro w; w_answers := w_answers w; w_sent := w_sent w; w_rqes := w_rqes w |}.

Definition with_pro (m : gmap Z umq_buf_pro) (w : world) : world :=
  {| w_queue := w_queue w; w_pro := m; w_answers := w_answers w; w_sent := w_sent w; w_rqes := w_rqes w |}.

Definition set_world (w : world) (x : side) : side :=
  {| s_world := w; s_rq := s_rq x; s_done := s_done x; s_absorbed := s_absorbed x |}.

(** Receive requests are accepted; a message uses one; the hardware fetches the
    initial window of [y]; the completion of that read is polled. *)
Definition rx_posted (w' : world) (x : side) : side :=
  {| s_world := w'; s_rq := s_rq x + (w_rqes w' - w_rqes (s_world x)); s_done := s_done x; s_absorbed := s_absorbed x |}.
Definition rqe_used (wr : jfs_wr) (w' : world) (y : side) : side :=
  {| s_world := w'; s_rq := s_rq y - wr_uses wr; s_done := s_done y; s_absorbed := s_absorbed y |}.
Definition window_fetched (sent : list jfs_wr) (y x : side) : side :=
  {| s_world := with_notify_remote (notify_local (w_queue (s_world y))) (with_sent sent (s_world x));
     s_rq := s_rq x; s_done := s_done x + 1; s_absorbed := s_absorbed x |}.
Definition window_polled (w' : world) (x : side) : side :=
  {| s_world := w'; s_rq := s_rq x; s_done := s_done x - 1;
     s_absorbed := s_absorbed x || negb (notify_remote (w_queue (s_world x)) =? 0) |}.

(** No request of the side that is in flight names the buffer. *)
Definition not_in_flight (x : side) (addr : Z) : Prop := Forall (fun wr => wr_user_ctx wr <> addr) (w_sent (s_world x)).

(** What the application must keep to when it sends a chain: the buffers are its
    own, their addresses are above the small numbers the library uses as user
    contexts, the operations are known ones, a SEND_IMM does not carry immediate
    data that looks like a credit message. *)
Definition sendable (x : side) (b : umq_buf) : Prop :=
  UINT16_MAX < buf_addr b /\ not_in_flight x (buf_addr b) /\
  exists p, w_pro (s_world x) !! buf_addr b = Some p /\ pro_fresh p.

(** The active side is the first of the pair.  Every step runs a handler of
    [UmqTx], with arbitrary answers of the jetty.  A request is in flight from
    its post until the peer polls its message or its failure is polled, in any
    order. *)
Inductive half_step : side * side -> side * side -> Prop :=
(* the application sets the attributes of a buffer it owns *)
| hs_app x y addr p :
    not_in_flight x addr ->
    half_step (x, y) (set_world (with_pro (<[addr := p]> (w_pro (s_world x))) (s_world x)) x, y)
(* post sends; if any operation of the chain uses a receive buffer the last does *)
| hs_post_tx x y imported bufs ans c r w' :
    bufs <> [] -> NoDup (map buf_addr bufs) -> Forall (sendable x) bufs ->
    (forall b p, b ∈ bufs -> w_pro (s_world x) !! buf_addr b = Some p -> consumes_rqe (opcode p) = true -> c = true) ->
    charged imported c bufs (with_answers ans (s_world x)) ->
    umq_ub_post_tx imported bufs (with_answers ans (s_world x)) = Some (r, w') ->
    half_step (x, y) (set_world w' x, y)
(* post receives; the code counts no more for the peer than the jetty accepts *)
| hs_post_rx x y bufs ans r w' :
    bufs <> [] -> Forall (fun b => 0 < total_data_size b) bufs -> rx_covered bufs (with_answers ans (s_world x)) ->
    umq_ub_post_rx_inner_impl bufs (with_answers ans (s_world x)) = Some (r, w') ->
    half_step (x, y) (rx_posted w' x, y)
(* a message in flight has arrived in a receive buffer [rx] and is polled *)
| hs_deliver x y pre wr post jt im ctx lid rx st st' w' :
    w_sent (s_world x) = pre ++ wr :: post -> wr_reads wr = 0 ->
    UINT16_MAX < rx -> is_Some (w_pro (s_world y) !! rx) -> not_in_flight y rx ->
    umq_ub_on_rx_done jt im (rx_cr wr ctx lid) rx st (s_world y) = Some (st', w') ->
    half_step (x, y)
      (set_world (with_sent (pre ++ post) (s_world x)) x,
       rqe_used wr w' y)
(* a request has failed and its completion is polled *)
| hs_failed x y pre wr post st r w' :
    w_sent (s_world x) = pre ++ wr :: post -> wr_reads wr = 0 -> error_status st ->
    poll_tx_one (tx_cr st (wr_user_ctx wr)) (with_sent (pre ++ post) (s_world x)) = Some (r, w') ->
    half_step (x, y) (set_world w' x, y)
(* the completion of a request that succeeded is polled *)
| hs_sent x y ctx r w' :
    ctx <> 0 -> (UINT16_MAX < ctx -> is_Some (w_pro (s_world x) !! ctx)) ->
    poll_tx_one (tx_cr URMA_CR_SUCCESS ctx) (s_world x) = Some (r, w') ->
    half_step (x, y) (set_world w' x, y)
(* the mark of a flushed or suspended jetty is polled *)
| hs_mark x y st ctx r w' :
    st = URMA_CR_WR_FLUSH_ERR_DONE \/ st = URMA_CR_WR_SUSPEND_DONE ->
    poll_tx_one (tx_cr st ctx) (s_world x) = Some (r, w') ->
    half_step (x, y) (set_world w' x, y)
(* the hardware reads the peer's initial window *)
| hs_read x y pre wr post :
    w_sent (s_world x) = pre ++ wr :: post -> wr_reads wr = 1 ->
    half_step (x, y)
      (window_fetched (pre ++ post) y x, y)
(* the read fails *)
| hs_read_failed x y pre wr post st r w' :
    w_sent (s_world x) = pre ++ wr :: post -> wr_reads wr = 1 -> error_status st ->
    poll_tx_one (read_cr st) (with_sent (pre ++ post) (s_world x)) = Some (r, w') ->
    half_step (x, y) (set_world w' x, y)
(* its completion is polled *)
| hs_read_done x y ans r w' :
    0 < s_done x ->
    poll_tx_one (read_cr URMA_CR_SUCCESS) (with_answers ans (s_world x)) = Some (r, w') ->
    half_step (x, y)
      (window_polled w' x, y).

Definition sys_step (s s' : side * side) : Prop := half_step s s' \/ half_step (s.2, s.1) (s'.2, s'.1).

(** Side [x] with peer [y], and what is known of each. *)
Record side_ok (x y : side) (gx gy : ghost) (a b : Z) : Prop := {
  so_inv : inv gx a b (s_world x);
  so_taken : g_taken gx = s_absorbed y;
  so_done : 0 <= s_done x;
  so_reads : g_reads gx = s_done x + b2z (s_absorbed x);
  so_remote : in_u16 (g_remote gx);
  so_pub : g_remote gx <> 0 -> g_pub gy = g_remote gx;
  so_avoid : g_avoid gx = ∅
}.

Definition sys_inv (s : side * side) : Prop :=
  exists gx gy ax bx ay by_,
    side_ok s.1 s.2 gx gy ax bx /\ side_ok s.2 s.1 gy gx ay by_ /\ ax + by_ <= s_rq s.2 /\ ay + bx <= s_rq s.1.

Lemma sys_inv_swap x y : sys_inv (x, y) -> sys_inv (y, x).
Proof. intros (gx & gy & ax & bx & ay & by_ & ?). exists gy, gx, ay, by_, ax, bx. simpl in *. tauto. Qed.

Lemma inv_answers g a b ans w : inv g a b w -> inv g a b (with_answers ans w).
Proof. intros []. by split. Qed.

(** A step of [x] that keeps what is known and moves the accounts. *)
Lemma sys_inv_active x y gx gy ax bx ay by_ w' rq :
  side_ok x y gx gy ax bx -> side_ok y x gy gx ay by_ -> ax + by_ <= s_rq y -> ay + bx <= s_rq x ->
  inv gx ax (bx + (rq - s_rq x)) w' ->
  sys_inv ({| s_world := w'; s_rq := rq; s_done := s_done x; s_absorbed := s_absorbed x |}, y).
Proof.
  intros [] [] H1 H2 Hw. exists gx, gy, ax, (bx + (rq - s_rq x)), ay, by_. simpl. split_and!; [by split|by split|lia|lia].
Qed.

Lemma side_active x y gx gy ax bx ay by_ w' :
  side_ok x y gx gy ax bx -> side_ok y x gy gx ay by_ -> ax + by_ <= s_rq y -> ay + bx <= s_rq x ->
  inv gx ax bx w' -> sys_inv (set_world w' x, y).
Proof. intros. eapply (sys_inv_active x y gx gy ax bx ay by_ w' (s_rq x)); [done..|]. inv_weaken. Qed.

(** Buffers kept out of flight for the time of a step. *)
Lemma inv_borrow g D a b w : g_avoid g = ∅ -> inv (set_avoid ∅ (set_avoid D g)) a b w -> inv g a b w.
Proof. destruct g. simpl. by intros ->. Qed.

Lemma sys_inv_app x y addr p : sys_inv (x, y) -> not_in_flight x addr ->
  sys_inv (set_world (with_pro (<[addr := p]> (w_pro (s_world x))) (s_world x)) x, y).
Proof.
  intros (gx & gy & ax & bx & ay & by_ & Hx & Hy & H1 & H2) Hn. eapply side_active; [done..|].
  destruct (so_inv _ _ _ _ _ _ Hx). split; simpl; try done. unfold not_in_flight in Hn. simpl in *.
  rewrite Forall_forall in Hn, inv_match0 |- *. intros wr Hwr. specialize (inv_match0 _ Hwr). unfold matches in *.
  destruct (_ <=? _); [done|]. rewrite lookup_insert_ne; [done|]. intros E. by apply (Hn wr Hwr).
Qed.

Lemma sys_inv_post_tx x y imported bufs ans c r w' :
  sys_inv (x, y) -> bufs <> [] -> NoDup (map buf_addr bufs) -> Forall (sendable x) bufs ->
  (forall b p, b ∈ bufs -> w_pro (s_world x) !! buf_addr b = Some p -> consumes_rqe (opcode p) = true -> c = true) ->
  charged imported c bufs (with_answers ans (s_world x)) ->
  umq_ub_post_tx imported bufs (with_answers ans (s_world x)) = Some (r, w') ->
  sys_inv (set_world w' x, y).
Proof.
  intros (gx & gy & ax & bx & ay & by_ & Hx & Hy & H1 & H2) Hne Hnd Hok Hc Hch E. simpl in *. rewrite Forall_forall in Hok.
  set (cls := list_to_map (map (fun b => (buf_addr b, c)) bufs) : gmap Z bool).
  assert (forall addr c', cls !! addr = Some c' -> c' = c /\ exists b, b ∈ bufs /\ buf_addr b = addr) as Hcls.
  { intros addr c' H. apply elem_of_list_to_map_2, list_elem_of_fmap in H as (b & [= -> ->] & Hb). eauto. }
  set (D := list_to_set (map buf_addr bufs) : gset Z).
  assert (HD : forall addr, addr ∈ D <-> exists b, b ∈ bufs /\ buf_addr b = addr).
  { intros addr. unfold D. rewrite elem_of_list_to_set, list_elem_of_fmap. naive_solver. }
  destruct (post_tx_spec cls imported (set_avoid D gx) c ax bx bufs (with_answers ans (s_world x))) as (r0 & w0 & E0 & Hw0); try done.
  - apply Forall_forall. intros b Hb. apply elem_of_list_to_map_1'; [|apply list_elem_of_fmap; by exists b].
    intros c' Hc'. apply list_elem_of_fmap in Hc' as (? & [= _ ->] & _). done.
  - intros addr [c' Ha]. destruct (Hcls _ _ Ha) as [_ H]. by apply HD.
  - intros b p Hb Ep. destruct (Hok b Hb) as (_ & _ & q & Eq & Hq). simpl in *. by simplify_eq.
  - split.
    + intros addr c' H. destruct (Hcls addr c' H) as (-> & b & Hb & <-). destruct (Hok b Hb) as (_ & _ & p & Ep & [Hv _]).
      exists p. split_and!; [done..|]. by apply (Hc b p).
    + apply inv_more; [|simpl; apply Forall_forall; intros wr Hwr|by apply inv_answers, Hx].
      * intros addr (b & Hb & <-)%HD. by apply Hok.
      * intros (b & Hb & Eb)%HD. destruct (Hok b Hb) as (_ & Hn & _). unfold not_in_flight in Hn. rewrite Forall_forall in Hn. by apply (Hn wr Hwr).
  - rewrite E in E0. injection E0 as <- <-. eapply side_active; [done..|]. apply (inv_borrow gx D); [by apply Hx|done].
Qed.

Lemma sys_inv_post_rx x y bufs ans r w' :
  sys_inv (x, y) -> bufs <> [] -> Forall (fun b => 0 < total_data_size b) bufs -> rx_covered bufs (with_answers ans (s_world x)) ->
  umq_ub_post_rx_inner_impl bufs (with_answers ans (s_world x)) = Some (r, w') ->
  sys_inv (rx_posted w' x, y).
Proof.
  intros (gx & gy & ax & bx & ay & by_ & Hx & Hy & H1 & H2) Hne Hall Ha E. simpl in *.
  destruct (post_rx_spec gx (w_rqes (s_world x)) ax bx bufs (with_answers ans (s_world x)) Hne Hall Ha)
    as (r0 & w0 & E0 & Hr & Hw0).
  { split_and!; try done. apply inv_answers, Hx. }
  rewrite E in E0. injection E0 as <- <-. eapply sys_inv_active; [done..|]. inv_weaken.
Qed.

(** A request leaves the list of those in flight. *)
Lemma inv_pop g a b w pre wr post : w_sent w = pre ++ wr :: post -> inv g a b w ->
  inv (add_reads (wr_reads wr) g) (a - wr_uses wr) (b - wr_credits wr) (with_sent (pre ++ post) w) /\
  clean wr /\ matches (w_pro w) wr.
Proof.
  intros E []. unfold out_use, in_use in *. rewrite E, ?zsum_app, ?zsum_cons in *.
  apply Forall_app in inv_clean0 as [? [? ?]%Forall_cons]. apply Forall_app in inv_match0 as [? [? ?]%Forall_cons].
  apply Forall_app in inv_avoid0 as [? [? ?]%Forall_cons]. split; [|done].
  split; unfold out_use, in_use, fc_of, with_sent in *; simpl in *; rewrite ?zsum_app; try done; try lia; try by apply Forall_app.
  intros Hg. specialize (inv_get0 Hg). lia.
Qed.

Lemma add_reads_0 g n : n = 0 -> add_reads n g = g.
Proof. intros ->. unfold add_reads. rewrite Z.add_0_r. by destruct g. Qed.

Lemma sys_inv_deliver x y pre wr post jt im ctx lid rx st st' w' :
  sys_inv (x, y) -> w_sent (s_world x) = pre ++ wr :: post -> wr_reads wr = 0 ->
  UINT16_MAX < rx -> is_Some (w_pro (s_world y) !! rx) -> not_in_flight y rx ->
  umq_ub_on_rx_done jt im (rx_cr wr ctx lid) rx st (s_world y) = Some (st', w') ->
  sys_inv (set_world (with_sent (pre ++ post) (s_world x)) x,
           rqe_used wr w' y).
Proof.
  intros (gx & gy & ax & bx & ay & by_ & Hx & Hy & H1 & H2) Es Hr Hbig Hrx Hn E. simpl in *.
  destruct (inv_pop gx ax bx _ pre wr post Es (so_inv _ _ _ _ _ _ Hx)) as (Hpop & Hcl & _). rewrite add_reads_0 in Hpop by done.
  destruct (on_rx_done_spec (set_avoid {[rx]} gy) ay by_ (s_world y) jt im wr ctx lid rx st Hcl Hrx) as (st0 & w0 & E0 & Hw0).
  { simpl. by apply elem_of_singleton. }
  { apply inv_more; [by intros addr ->%elem_of_singleton| |apply Hy]. eapply Forall_impl; [exact Hn|]. intros q Hq Hin. by apply elem_of_singleton in Hin. }
  rewrite E in E0. injection E0 as <- <-. apply (inv_fewer _ ∅) in Hw0; [|apply empty_subseteq]. apply inv_borrow in Hw0; [|apply Hy].
  destruct Hx, Hy. exists gx, gy, (ax - wr_uses wr), (bx - wr_credits wr), (ay + wr_credits wr), by_. simpl.
  split_and!; [by split|by split|lia|lia].
Qed.

Lemma sys_inv_failed x y pre wr post st r w' :
  sys_inv (x, y) -> w_sent (s_world x) = pre ++ wr :: post -> wr_reads wr = 0 -> error_status st ->
  poll_tx_one (tx_cr st (wr_user_ctx wr)) (with_sent (pre ++ post) (s_world x)) = Some (r, w') ->
  sys_inv (set_world w' x, y).
Proof.
  intros (gx & gy & ax & bx & ay & by_ & Hx & Hy & H1 & H2) Es Hr Hst E. simpl in *.
  destruct (inv_pop gx ax bx _ pre wr post Es (so_inv _ _ _ _ _ _ Hx)) as (Hpop & _ & Hm). rewrite add_reads_0 in Hpop by done.
  destruct (poll_failed_spec _ _ _ (with_sent (pre ++ post) (s_world x)) wr st Hst Hr Hm Hpop) as (r0 & w0 & E0 & Hw0). rewrite E in E0. injection E0 as <- <-.
  eapply side_active; [done..|]. inv_weaken.
Qed.

Lemma sys_inv_sent x y ctx r w' :
  sys_inv (x, y) -> ctx <> 0 -> (UINT16_MAX < ctx -> is_Some (w_pro (s_world x) !! ctx)) ->
  poll_tx_one (tx_cr URMA_CR_SUCCESS ctx) (s_world x) = Some (r, w') -> sys_inv (set_world w' x, y).
Proof.
  intros (gx & gy & ax & bx & ay & by_ & Hx & Hy & H1 & H2) H0 Hp E. simpl in *.
  destruct (poll_sent_spec _ _ _ _ ctx H0 Hp (so_inv _ _ _ _ _ _ Hx)) as (r0 & w0 & E0 & Hw0). rewrite E in E0. injection E0 as <- <-.
  by eapply side_active.
Qed.

Lemma sys_inv_mark x y st ctx r w' :
  sys_inv (x, y) -> st = URMA_CR_WR_FLUSH_ERR_DONE \/ st = URMA_CR_WR_SUSPEND_DONE ->
  poll_tx_one (tx_cr st ctx) (s_world x) = Some (r, w') -> sys_inv (set_world w' x, y).
Proof.
  intros (gx & gy & ax & bx & ay & by_ & Hx & Hy & H1 & H2) Hst E. simpl in *.
  destruct (poll_mark_spec _ _ _ _ st ctx Hst (so_inv _ _ _ _ _ _ Hx)) as (r0 & w0 & E0 & Hw0). rewrite E in E0. injection E0 as <- <-.
  by eapply side_active.
Qed.

Lemma sys_inv_read x y pre wr post :
  sys_inv (x, y) -> w_sent (s_world x) = pre ++ wr :: post -> wr_reads wr = 1 ->
  sys_inv (window_fetched (pre ++ post) y x, y).
Proof.
  intros (gx & gy & ax & bx & ay & by_ & Hx & Hy & H1 & H2) Es Hr. simpl in *.
  set (nr := notify_local (w_queue (s_world y))).
  destruct (inv_pop gx ax bx _ pre wr post Es (so_inv _ _ _ _ _ _ Hx)) as (Hpop & _).
  pose proof (wr_uses_nonneg [wr]). pose proof (wr_credits_pos wr). unfold zsum in *. simpl in *.
  destruct Hx as [_ X1 X2 X3 X4 X5 X6], Hy as [Yi Y1 Y2 Y3 Y4 Y5 Y6].
  exists {| g_taken := g_taken gx; g_pub := g_pub gx; g_remote := nr; g_reads := g_reads gx + 1; g_avoid := g_avoid gx |},
    {| g_taken := g_taken gy; g_pub := if nr =? 0 then g_pub gy else nr; g_remote := g_remote gy; g_reads := g_reads gy;
       g_avoid := g_avoid gy |},
    ax, bx, ay, by_.
  assert (in_u16 nr) as Hnr by apply (inv_notify _ _ _ _ Yi). simpl. split_and!; [| |done|done].
  - split; simpl; try done; try lia.
    + rewrite Hr in Hpop. destruct Hpop. unfold out_use, in_use, fc_of in *.
      split; unfold out_use, in_use, fc_of in *; simpl in *; try done; lia.
    + intros Hne. by rewrite (proj2 (Z.eqb_neq _ _) Hne).
  - split; simpl; try done. destruct Yi. fold nr in inv_unset0, inv_pub0.
    split; simpl; fold nr; try done; destruct (Z.eqb_spec nr 0); try done.
    intros Hs. destruct (inv_unset0 Hs). lia.
Qed.

Lemma sys_inv_read_failed x y pre wr post st r w' :
  sys_inv (x, y) -> w_sent (s_world x) = pre ++ wr :: post -> wr_reads wr = 1 -> error_status st ->
  poll_tx_one (read_cr st) (with_sent (pre ++ post) (s_world x)) = Some (r, w') ->
  sys_inv (set_world w' x, y).
Proof.
  intros (gx & gy & ax & bx & ay & by_ & Hx & Hy & H1 & H2) Es Hr Hst E. simpl in *.
  destruct (inv_pop gx ax bx _ pre wr post Es (so_inv _ _ _ _ _ _ Hx)) as (Hpop & _).
  pose proof (wr_uses_nonneg [wr]). pose proof (wr_credits_pos wr). unfold zsum in *. simpl in *.
  assert (0 <= g_reads gx). { rewrite (so_reads _ _ _ _ _ _ Hx). pose proof (so_done _ _ _ _ _ _ Hx). destruct (s_absorbed x); simpl; lia. }
  eapply read_failed_spec in Hpop as (r0 & w0 & E0 & Hw0); [|simpl; lia|done].
  rewrite E in E0. injection E0 as <- <-.
  replace (add_reads (-1) (add_reads (wr_reads wr) gx)) with gx in Hw0
    by (destruct gx; unfold add_reads; simpl; f_equal; lia).
  eapply side_active; [done..|]. eapply inv_mono; [exact Hw0|lia|lia].
Qed.

Lemma inv_take g a b w : g_taken g = false -> g_pub g <> 0 -> inv g a b w ->
  inv {| g_taken := true; g_pub := g_pub g; g_remote := g_remote g; g_reads := g_reads g; g_avoid := g_avoid g |} a (b - g_pub g) w.
Proof.
  intros Ht Hp []. unfold in_use in *. rewrite Ht in *. specialize (inv_pub0 Hp).
  split; simpl; try done; [|unfold in_use; simpl; lia].
  intros Hs. destruct (inv_unset0 Hs) as (? & ? & ?). done.
Qed.

Lemma sys_inv_read_done x y ans r w' :
  sys_inv (x, y) -> 0 < s_done x ->
  poll_tx_one (read_cr URMA_CR_SUCCESS) (with_answers ans (s_world x)) = Some (r, w') ->
  sys_inv (window_polled w' x, y).
Proof.
  intros (gx & gy & ax & bx & ay & by_ & Hx & Hy & H1 & H2) Hd E. simpl in *.
  destruct Hx as [Xi X1 X2 X3 X4 X5 X6], Hy as [Yi Y1 Y2 Y3 Y4 Y5 Y6].
  pose proof (inv_reads _ _ _ _ Xi) as Hrd. pose proof (wr_reads_nonneg (w_sent (s_world x))).
  assert (s_absorbed x = false) as Habs by (destruct (s_absorbed x); simpl in *; [lia|done]).
  unfold window_polled. rewrite Habs in *. simpl in *. rewrite (inv_remote _ _ _ _ Xi).
  destruct (read_done_spec gx ax bx (with_answers ans (s_world x))) as (r0 & w0 & E0 & Hw0);
    [lia|done|by apply inv_answers|]. rewrite E in E0. injection E0 as <- <-.
  destruct (Z.eqb_spec (g_remote gx) 0) as [Hz|Hz]; simpl.
  - exists (add_reads (-1) gx), gy, ax, bx, ay, by_. simpl. split_and!; [|by split|done|done].
    split; simpl; try done; lia.
  - pose proof (X5 Hz) as Hpub. rewrite <- Hpub in Hz.
    exists gx, {| g_taken := true; g_pub := g_pub gy; g_remote := g_remote gy; g_reads := g_reads gy; g_avoid := g_avoid gy |},
      (ax + g_remote gx), bx, ay, (by_ - g_pub gy). simpl. split_and!; [| |lia|lia].
    + split; simpl; try done; lia.
    + split; simpl; try done. by apply inv_take.
Qed.

Lemma half_step_inv s s' : half_step s s' -> sys_inv s -> sys_inv s'.
Proof.
  destruct 1; intros Hinv; eauto using sys_inv_app, sys_inv_post_tx, sys_inv_post_rx, sys_inv_deliver, sys_inv_failed, sys_inv_sent,
    sys_inv_mark, sys_inv_read, sys_inv_read_failed, sys_inv_read_done.
Qed.

Lemma sys_step_inv s s' : sys_step s s' -> sys_inv s -> sys_inv s'.
Proof.
  destruct s as [x y], s' as [x' y']. intros [H|H] Hinv; [by eapply half_step_inv|].
  apply sys_inv_swap. eapply half_step_inv; [exact H|]. by apply sys_inv_swap.
Qed.

(** ** Theorems *)

(** A side after [umq_ub_flow_control_init] with flow control enabled and a bind
    ([umq_ub_window_init]), before any operation. *)
Definition started (x : side) : Prop :=
  (exists rx tx feature cfg info,
    in_u16 (cfg_initial_window cfg) /\ in_u16 (cfg_notify_interval cfg) /\
    Z.land feature UMQ_FEATURE_ENABLE_FLOW_CONTROL <> 0 /\
    umq_ub_window_init (umq_ub_flow_control_init rx tx feature cfg).2 info = (UMQ_SUCCESS, fc_of (s_world x))) /\
  bound (w_queue (s_world x)) = true /\ notify_local (w_queue (s_world x)) = 0 /\
  notify_remote (w_queue (s_world x)) = 0 /\ w_sent (s_world x) = [] /\
  0 <= s_rq x /\ s_done x = 0 /\ s_absorbed x = false.

Definition ghost0 : ghost := {| g_taken := false; g_pub := 0; g_remote := 0; g_reads := 0; g_avoid := ∅ |}.

Lemma started_inv x : started x -> inv ghost0 0 0 (s_world x).
Proof.
  intros ((rx & tx & feature & cfg & info & H1 & H2 & H3 & Hi) & Hb & Hl & Hr & Hs & _).
  destruct (flow_control_init_spec rx tx feature cfg H1 H2) as (Hwf & Hw & Hp & Hls & Hrg & Hen).
  assert (enabled (umq_ub_flow_control_init rx tx feature cfg).2 = true) as Henab.
  { unfold umq_ub_flow_control_init. apply Z.eqb_neq in H3. rewrite H3. simpl.
    destruct (_ || _), (_ || _); split_ifs; done. }
  destruct (Hen Henab) as (Hops & _). revert Hi. set (fc := (umq_ub_flow_control_init _ _ _ _).2) in *. clearbody fc.
  unfold umq_ub_window_init. rewrite Henab. simpl. destruct (_ || _); [done|]. intros [= Hfc].
  split; unfold out_use, in_use; rewrite <- ?Hfc, ?Hs, ?Hl; simpl; try done; try lia.
  unfold fc_wf in *. simpl. destruct Hwf as (_ & ?). split; [lia|done].
Qed.

(** C5: no receiver-not-ready.  Two bound queues with flow control run any
    interleaving of the steps of [half_step] on either side: the application sets
    the attributes of its buffers, sends and receives are posted with the jetty
    accepting or refusing them in whole or in part, messages arrive, sends fail
    and their credits are recovered when the completion is polled, completions of
    sends are polled, the initial windows are read, and the reads fail or are
    repeated.  At every reachable state the credits a side holds plus its messages
    in flight that consume a receive buffer are at most the receive buffers its
    peer has posted and not used.

    The steps leave out, because the code then gives out credits that do not
    exist: a chain in which some operation uses a receive buffer and the last one
    does not ([mixed_chain_bypasses_window]); a refused post of receives of which
    more are refused than accepted ([post_rx_failure_credits_refused]); a SEND_IMM
    whose immediate data looks like a credit message ([user_imm_forges_credits]).
    Applications leave the buffers of requests in flight alone, and no buffer has
    an address up to 65535 ([sendable], [not_in_flight]).  Also outside are
    messages of the memory import, failed receive completions and unbinding. *)
Theorem no_receiver_not_ready x0 y0 x y :
  started x0 -> started y0 -> rtc sys_step (x0, y0) (x, y) ->
  remote_rx_window (fc_of (s_world x)) + zsum wr_uses (w_sent (s_world x)) <= s_rq y /\
  remote_rx_window (fc_of (s_world y)) + zsum wr_uses (w_sent (s_world y)) <= s_rq x.
Proof.
  intros Hx Hy Hrun. assert (sys_inv (x, y)) as (gx & gy & ax & bx & ay & by_ & [[] _ _ _ _ _] & [[] _ _ _ _ _] & H1 & H2).
  { assert (sys_inv (x0, y0)) as Hinv.
    { pose proof (started_inv x0 Hx). pose proof (started_inv y0 Hy).
      destruct Hx as (_ & _ & _ & _ & _ & ? & Ed & Ea), Hy as (_ & _ & _ & _ & _ & ? & Ed' & Ea').
      exists ghost0, ghost0, 0, 0, 0, 0. simpl. split_and!; [| |lia|lia]; split; simpl; rewrite ?Ed, ?Ea, ?Ed', ?Ea'; done || lia. }
    remember (x0, y0) as s eqn:E1. remember (x, y) as s' eqn:E2. clear E1 E2 Hx Hy.
    induction Hrun; eauto using sys_step_inv. }
  simpl in *. unfold out_use, in_use in *.
  pose proof (wr_credits_nonneg (w_sent (s_world x))). pose proof (wr_credits_nonneg (w_sent (s_world y))).
  destruct inv_fc0 as (_&?&_), inv_fc1 as (_&?&_). destruct (g_taken gx), (g_taken gy); lia.
Qed.

Definition sample_cfg : umq_flow_control_cfg :=
  {| cfg_initial_window := 1; cfg_notify_interval := 1; cfg_use_atomic_window := true |}.

Definition sample_fc : ub_flow_control :=
  (umq_ub_window_init (umq_ub_flow_control_init 16 16 17 sample_cfg).2
     {| win_buf_addr := 4096; win_buf_len := 64; info_rx_depth := 16; info_tx_depth := 16 |}).2.

Definition sample_queue (fc : ub_flow_control) : ub_queue :=
  {| bound := true; flow_control := fc; max_tx_sge := 4; max_rx_sge := 4; tx_buf_size := 4096;
     remote_rx_buf_size := 4096; state := QUEUE_STATE_READY; tx_flush_done := false; notify_local := 0;
     notify_remote := 0; rx_idle := [100001; 100002; 100003; 100004]; rx_used := []; rx_buffer := ∅ |}.

Definition sample_world (fc : ub_flow_control) (pro : gmap Z umq_buf_pro) (ans : list post_answer) : world :=
  {| w_queue := sample_queue fc; w_pro := pro; w_answers := ans; w_sent := []; w_rqes := 0 |}.

Definition sample_buf (addr : Z) : umq_buf :=
  {| buf_addr := addr; total_data_size := 8; data_size := 8; remote_length := 8; remote_mempool_id := 0 |}.

Definition sample_side : side :=
  {| s_world := sample_world sample_fc ∅ []; s_rq := 0; s_done := 0; s_absorbed := false |}.

(** The state a call leaves. *)
Definition after {A} (d : world) (o : option (A * world)) : world := match o with Some (_, w) => w | None => d end.

Lemma after_eq {A} d (o : option (A * world)) : match o with Some _ => true | None => false end = true -> exists r, o = Some (r, after d o).
Proof. destruct o as [[r w]|]; [by exists r|done]. Qed.

(** Both sides post receives, [sample_y] reads the window of [sample_x], sends a
    buffer, and the send fails. *)
Definition sample_x : side :=
  rx_posted (after (s_world sample_side) (umq_ub_post_rx_inner_impl [sample_buf 70000; sample_buf 70001] (with_answers [] (s_world sample_side))))
    sample_side.
Definition sample_y1 : side :=
  rx_posted (after (s_world sample_side) (umq_ub_post_rx_inner_impl [sample_buf 70000] (with_answers [] (s_world sample_side)))) sample_side.
Definition sample_y2 : side := window_fetched ([] ++ []) sample_x sample_y1.
Definition sample_y3 : side :=
  window_polled (after (s_world sample_y2) (poll_tx_one (read_cr URMA_CR_SUCCESS) (with_answers [] (s_world sample_y2)))) sample_y2.
Definition sample_y4 : side :=
  set_world (with_pro (<[70005 := {| opcode := UMQ_OPC_SEND; imm_data := 0; umq_ctx := 0 |}]> (w_pro (s_world sample_y3))) (s_world sample_y3)) sample_y3.
Definition sample_y5 : side :=
  set_world (after (s_world sample_y4) (umq_ub_post_tx (fun _ => true) [sample_buf 70005] (with_answers [] (s_world sample_y4)))) sample_y4.
Definition sample_wr : jfs_wr := {| wr_user_ctx := 70005; wr_opcode := URMA_OPC_SEND; wr_imm := 0; wr_sges := [(70005, 8)] |}.
Definition sample_y6 : side :=
  set_world (after (s_world sample_y5) (poll_tx_one (tx_cr 5 70005) (with_sent ([] ++ []) (s_world sample_y5)))) sample_y5.

Lemma sample_post_rx : sys_step (sample_side, sample_side) (sample_x, sample_side) /\ sys_step (sample_x, sample_side) (sample_x, sample_y1).
Proof.
  split; [left|right].
  - destruct (after_eq (s_world sample_side) (umq_ub_post_rx_inner_impl [sample_buf 70000; sample_buf 70001] (with_answers [] (s_world sample_side))) eq_refl) as [r E].
    apply (hs_post_rx sample_side sample_side [sample_buf 70000; sample_buf 70001] [] r _); [done|by repeat constructor| |exact E].
    intros wrs rest w1 st bad w2. vm_compute build_recv. intros [= <- _ <-]. vm_compute urma_post_jetty_recv_wr. intros [= <- _ <-]. by compute.
  - destruct (after_eq (s_world sample_side) (umq_ub_post_rx_inner_impl [sample_buf 70000] (with_answers [] (s_world sample_side))) eq_refl) as [r E].
    apply (hs_post_rx sample_side sample_x [sample_buf 70000] [] r _); [done|by repeat constructor| |exact E].
    intros wrs rest w1 st bad w2. vm_compute build_recv. intros [= <- _ <-]. vm_compute urma_post_jetty_recv_wr. intros [= <- _ <-]. by compute.
Qed.

Lemma sample_read : sys_step (sample_x, sample_y1) (sample_x, sample_y2) /\ sys_step (sample_x, sample_y2) (sample_x, sample_y3).
Proof.
  split; right.
  - apply (hs_read sample_y1 sample_x [] window_read_wr []); [vm_compute; reflexivity|done].
  - destruct (after_eq (s_world sample_y2) (poll_tx_one (read_cr URMA_CR_SUCCESS) (with_answers [] (s_world sample_y2))) eq_refl) as [r E].
    by apply (hs_read_done sample_y2 sample_x [] r _).
Qed.

Lemma sample_send : sys_step (sample_x, sample_y3) (sample_x, sample_y4) /\ sys_step (sample_x, sample_y4) (sample_x, sample_y5) /\
  sys_step (sample_x, sample_y5) (sample_x, sample_y6).
Proof.
  split_and!; right.
  - apply (hs_app sample_y3 sample_x 70005). unfold not_in_flight. by vm_compute w_sent.
  - destruct (after_eq (s_world sample_y4) (umq_ub_post_tx (fun _ => true) [sample_buf 70005] (with_answers [] (s_world sample_y4))) ltac:(vm_compute; reflexivity)) as [r E].
    unfold sample_y5. eapply (hs_post_tx sample_y4 sample_x (fun _ => true) [sample_buf 70005] [] true r).
    + discriminate.
    + apply NoDup_singleton.
    + apply Forall_singleton. split; [done|]. split; [unfold not_in_flight; by vm_compute w_sent|]. eexists. split; [reflexivity|]. by split.
    + reflexivity.
    + intros _ wrs c w'. vm_compute build_wrs. by intros [= _ <- _].
    + exact E.
  - destruct (after_eq (s_world sample_y5) (poll_tx_one (tx_cr 5 70005) (with_sent ([] ++ []) (s_world sample_y5))) ltac:(vm_compute; reflexivity)) as [r E].
    unfold sample_y6. apply (hs_failed sample_y5 sample_x [] sample_wr [] 5 r); [vm_compute; reflexivity|reflexivity|repeat split; discriminate|exact E].
Qed.

Lemma no_receiver_not_ready_witness :
  zsum wr_uses (w_sent (s_world sample_y5)) = 1 /\ remote_rx_window (fc_of (s_world sample_y5)) = 1 /\
  remote_rx_window (fc_of (s_world sample_y6)) = 2 /\
  remote_rx_window (fc_of (s_world sample_x)) + zsum wr_uses (w_sent (s_world sample_x)) <= s_rq sample_y6 /\
  remote_rx_window (fc_of (s_world sample_y6)) + zsum wr_uses (w_sent (s_world sample_y6)) <= s_rq sample_x.
Proof.
  assert (started sample_side) as Hs.
  { split_and!; try done. exists 16, 16, 17, sample_cfg, {| win_buf_addr := 4096; win_buf_len := 64; info_rx_depth := 16; info_tx_depth := 16 |}.
    do 2 (split; [cbn; lia|]). split; [vm_compute; congruence|vm_compute; reflexivity]. }
  do 3 (split; [vm_compute; reflexivity|]).
  apply (no_receiver_not_ready sample_side sample_side); [done..|].
  exact (rtc_l _ _ _ _ (proj1 sample_post_rx) (rtc_l _ _ _ _ (proj2 sample_post_rx)
    (rtc_l _ _ _ _ (proj1 sample_read) (rtc_l _ _ _ _ (proj2 sample_read)
    (rtc_l _ _ _ _ (proj1 sample_send) (rtc_l _ _ _ _ (proj1 (proj2 sample_send)) (rtc_once _ _ (proj2 (proj2 sample_send))))))))).
Defined.

(** When the jetty refuses part of a batch of receives, the code credits the
    refused requests instead of the accepted ones: of four receives with the last
    three refused, one buffer is posted and three are counted for the peer. *)
Theorem post_rx_failure_credits_refused :
  exists w', umq_ub_post_rx_inner_impl (map sample_buf [70000; 70001; 70002; 70003])
      (sample_world (set_initial_window 16 sample_fc) ∅ [PostFail 11 (Some 1%nat)])
    = Some ((- UMQ_ERR_EAGAIN, 100002, map sample_buf [70001; 70002; 70003]), w') /\
    w_rqes w' = 1 /\ local_rx_posted (fc_of w') = 3.
Proof. eexists. split_and!; [vm_compute; reflexivity|vm_compute; reflexivity..]. Qed.

(** The window is taken according to the operation of the last buffer of the
    chain only: a send followed by a write is posted although the peer has no
    receive buffer (window 0). *)
Theorem mixed_chain_bypasses_window :
  let fc := set_remote_get true sample_fc in
  let pro := <[70000 := {| opcode := UMQ_OPC_SEND; imm_data := 0; umq_ctx := 0 |}]>
             (<[70001 := {| opcode := UMQ_OPC_WRITE; imm_data := 0; umq_ctx := 0 |}]> ∅) in
  remote_rx_window fc = 0 /\
  exists w', umq_ub_post_tx (fun _ => true) [sample_buf 70000; sample_buf 70001] (sample_world fc pro [])
      = Some ((UMQ_SUCCESS, 0), w') /\
    zsum wr_uses (w_sent w') = 1 /\ remote_rx_window (fc_of w') = 0.
Proof. split; [done|]. eexists. split_and!; [vm_compute; reflexivity|vm_compute; reflexivity..]. Qed.

(** The private bit is masked in the work request but not in the buffer, so a
    user's immediate value that looks like a credit message is believed when the
    send fails: credits appear for receive buffers that were never posted. *)
Theorem user_imm_forges_credits :
  let pro := <[70000 := {| opcode := UMQ_OPC_SEND_IMM; imm_data := imm_flow_control 0 5; umq_ctx := 0 |}]> ∅ in
  let fc := set_remote_rx_window 1 (set_remote_get true sample_fc) in
  exists w1 w2,
    umq_ub_post_tx (fun _ => true) [sample_buf 70000] (sample_world fc pro []) = Some ((UMQ_SUCCESS, 0), w1) /\
    zsum wr_credits (w_sent w1) = 0 /\ local_rx_posted (fc_of w1) = 0 /\
    umq_ub_on_tx_done 70000 true w1 = Some (tt, w2) /\ local_rx_posted (fc_of w2) = 5 /\ w_rqes w2 = 0.
Proof. do 2 eexists. split_and!; [vm_compute; reflexivity|vm_compute; reflexivity..]. Qed.
