(* ===== verification/TimingWheel.v ===== *)
(** * Timing wheel (src/urpc/util/urpc_timer.c)

    A two-level hierarchical timing wheel drives the timeouts of uRPC.  Timers
    come from per-channel pools; a started timer is linked in the slot given by
    the ticks that remain until its [end_ticks]; every tick of the timer file
    descriptor runs the current slot and advances the cursors, and a full turn of
    level 0 redistributes one slot of level 1.

    The intrusive lists are lists of timer addresses; a timer records the list
    its [entry] node is linked in.  [None] is undefined behaviour (a missing
    timer, or linking a node that is already linked, which corrupts the lists).
    The spin locks make each operation one step; a callback runs unlocked and is
    a sequence of API calls.  [fired] records the callbacks with the tick and the
    deadline of the timer.

    The theorems: a started timer runs exactly at its deadline, whatever else the
    client and the callbacks do with other timers; a pass of the event loop
    completes and catches up; and two misuses the code does not protect against,
    a stale timer after it was freed and a callback that re-arms its own timer. *)

From S2P Require Import Prelude Memory.

Definition URPC_TIMING_WHEEL_HZ : Z := 500.
Definition MS_PER_SEC : Z := 1000.
Definition URPC_WHEEL_LEVEL_MAX : Z := 2.
Definition URPC_WHEEL_LEVEL_BITS : Z := 14.
Definition URPC_WHEEL_LEVEL_SIZE : Z := 16384.
Definition URPC_WHEEL_LEVEL_MASK : Z := URPC_WHEEL_LEVEL_SIZE - 1.
Definition URPC_TIMER_MAGIC_NUM : Z := 860116343.
Definition URPC_TIMER_MIN_DELAY : Z := 10.
Definition URPC_TIMER_MAX_DELAY : Z := 268435455.
Definition URPC_TIMER_MAX_JOB : Z := 1000.
Definition URPC_TIMER_DEFAULT_NUM : Z := 8192.
Definition URPC_INVALID_ID_U32 : Z := 4294967295.
Definition URPC_SUCCESS : Z := 0.
Definition URPC_FAIL : Z := -1.
Definition URPC_ERR_EEXIST : Z := 692.

Inductive timer_status := STAT_INVALID | STAT_INITED | STAT_PENDING | STAT_RUNNING | STAT_FINISH.

#[export] Instance timer_status_eq_dec : EqDecision timer_status.
Proof. solve_decision. Defined.

(** Level and position of a slot. *)
Definition slot_id : Type := Z * Z.

Record urpc_timer := {
  magic : Z;
  entry : option slot_id;      (* the wheel list the node is linked in *)
  in_pool : bool;              (* pool_entry is linked *)
  key : Z * Z;                 (* client_chid, server_chid *)
  func : Z;                    (* 0 is NULL *)
  args : Z;
  t_ticks : Z;
  timeout : Z;
  end_ticks : Z;
  periodic : bool;
  status : timer_status
}.

Record urpc_timer_pool_entry := {
  head : list Z;
  timer_num : Z;
  owned : list Z;              (* the timer array *)
  stat_total : Z;
  stat_free : Z
}.

Record timing_wheel := {
  cursor0 : Z;
  cursor1 : Z;
  slots : gmap slot_id (list Z);
  ticks : Z;
  ticks_pending : Z;
  version : Z;
  timers : gmap Z urpc_timer;
  pool : gmap (Z * Z) urpc_timer_pool_entry;
  fired : list (Z * Z * Z)     (* timer, tick, deadline; newest first *)
}.

Definition set_slots m (s : timing_wheel) : timing_wheel :=
  {| cursor0 := cursor0 s; cursor1 := cursor1 s; slots := m; ticks := ticks s; ticks_pending := ticks_pending s;
     version := version s; timers := timers s; pool := pool s; fired := fired s |}.
Definition set_timers m (s : timing_wheel) : timing_wheel :=
  {| cursor0 := cursor0 s; cursor1 := cursor1 s; slots := slots s; ticks := ticks s; ticks_pending := ticks_pending s;
     version := version s; timers := m; pool := pool s; fired := fired s |}.
Definition set_pool m (s : timing_wheel) : timing_wheel :=
  {| cursor0 := cursor0 s; cursor1 := cursor1 s; slots := slots s; ticks := ticks s; ticks_pending := ticks_pending s;
     version := version s; timers := timers s; pool := m; fired := fired s |}.
Definition set_fired l (s : timing_wheel) : timing_wheel :=
  {| cursor0 := cursor0 s; cursor1 := cursor1 s; slots := slots s; ticks := ticks s; ticks_pending := ticks_pending s;
     version := version s; timers := timers s; pool := pool s; fired := l |}.
Definition set_clock c0 c1 t (s : timing_wheel) : timing_wheel :=
  {| cursor0 := c0; cursor1 := c1; slots := slots s; ticks := t; ticks_pending := ticks_pending s;
     version := version s; timers := timers s; pool := pool s; fired := fired s |}.
Definition set_pending p (s : timing_wheel) : timing_wheel :=
  {| cursor0 := cursor0 s; cursor1 := cursor1 s; slots := slots s; ticks := ticks s; ticks_pending := p;
     version := version s; timers := timers s; pool := pool s; fired := fired s |}.
Definition set_version v (s : timing_wheel) : timing_wheel :=
  {| cursor0 := cursor0 s; cursor1 := cursor1 s; slots := slots s; ticks := ticks s; ticks_pending := ticks_pending s;
     version := v; timers := timers s; pool := pool s; fired := fired s |}.

Definition upd_timer (id : Z) (t : urpc_timer) (s : timing_wheel) : timing_wheel := set_timers (<[id := t]> (timers s)) s.

Definition set_entry e (t : urpc_timer) : urpc_timer :=
  {| magic := magic t; entry := e; in_pool := in_pool t; key := key t; func := func t; args := args t;
     t_ticks := t_ticks t; timeout := timeout t; end_ticks := end_ticks t; periodic := periodic t; status := status t |}.
Definition set_status st (t : urpc_timer) : urpc_timer :=
  {| magic := magic t; entry := entry t; in_pool := in_pool t; key := key t; func := func t; args := args t;
     t_ticks := t_ticks t; timeout := timeout t; end_ticks := end_ticks t; periodic := periodic t; status := st |}.
Definition set_end_ticks e (t : urpc_timer) : urpc_timer :=
  {| magic := magic t; entry := entry t; in_pool := in_pool t; key := key t; func := func t; args := args t;
     t_ticks := t_ticks t; timeout := timeout t; end_ticks := e; periodic := periodic t; status := status t |}.
Definition set_periodic p (t : urpc_timer) : urpc_timer :=
  {| magic := magic t; entry := entry t; in_pool := in_pool t; key := key t; func := func t; args := args t;
     t_ticks := t_ticks t; timeout := timeout t; end_ticks := end_ticks t; periodic := p; status := status t |}.
Definition set_magic m (t : urpc_timer) : urpc_timer :=
  {| magic := m; entry := entry t; in_pool := in_pool t; key := key t; func := func t; args := args t;
     t_ticks := t_ticks t; timeout := timeout t; end_ticks := end_ticks t; periodic := periodic t; status := status t |}.
Definition set_in_pool b (t : urpc_timer) : urpc_timer :=
  {| magic := magic t; entry := entry t; in_pool := b; key := key t; func := func t; args := args t;
     t_ticks := t_ticks t; timeout := timeout t; end_ticks := end_ticks t; periodic := periodic t; status := status t |}.

(** ** Lists *)

Definition get_slot (s : timing_wheel) (lp : slot_id) : list Z := default [] (slots s !! lp).

Definition list_push_back (lp : slot_id) (id : Z) (s : timing_wheel) : option timing_wheel :=
  t ← timers s !! id;
  match entry t with
  | Some _ => None
  | None => Some (upd_timer id (set_entry (Some lp) t) (set_slots (<[lp := get_slot s lp ++ [id]]> (slots s)) s))
  end.

Definition list_remove (id : Z) (s : timing_wheel) : option timing_wheel :=
  t ← timers s !! id;
  lp ← entry t;
  Some (upd_timer id (set_entry None t) (set_slots (<[lp := filter (.≠ id) (get_slot s lp)]> (slots s)) s)).

Definition urpc_list_is_in_list (t : urpc_timer) : bool := bool_decide (is_Some (entry t)).

Definition change_timer (id : Z) (f : urpc_timer -> urpc_timer) (s : timing_wheel) : option timing_wheel :=
  t ← timers s !! id; Some (upd_timer id (f t) s).

(** ** Scheduling *)

Fixpoint urpc_get_offset_by_level (ticks : Z) (level : nat) : Z :=
  match level with O => ticks | S l => urpc_get_offset_by_level (Z.shiftr ticks URPC_WHEEL_LEVEL_BITS) l end.

Definition urpc_time_ms_to_ticks (ms : Z) : Z := u64 (ms * URPC_TIMING_WHEEL_HZ) / MS_PER_SEC.

Definition cursor (s : timing_wheel) (level : nat) : Z := match level with O => cursor0 s | _ => cursor1 s end.

(** The search for the level, from the highest: the slot, if some offset is positive. *)
Fixpoint schedule_slot (s : timing_wheel) (remain : Z) (level : nat) : option slot_id :=
  let offset := urpc_get_offset_by_level remain level in
  if 0 <? offset then Some (Z.of_nat level, Z.land (u64 (cursor s level + offset)) URPC_WHEEL_LEVEL_MASK)
  else match level with O => None | S l => schedule_slot s remain l end.

Definition urpc_schedule_timer (id : Z) (s : timing_wheel) : option timing_wheel :=
  t ← timers s !! id;
  let remain := if ticks s <? end_ticks t then end_ticks t - ticks s else 0 in
  if remain =? 0 then
    s ← list_push_back (0, cursor0 s) id s; change_timer id (set_status STAT_PENDING) s
  else
    lp ← schedule_slot s remain 1;
    s ← list_push_back lp id s; change_timer id (set_status STAT_PENDING) s.

(** ** Pools *)

Definition urpc_timer_key_fill (chid : Z) (is_server : bool) : Z * Z :=
  (if is_server then URPC_INVALID_ID_U32 else chid, if is_server then chid else URPC_INVALID_ID_U32).

Definition new_timer (k : Z * Z) : urpc_timer :=
  {| magic := 0; entry := None; in_pool := true; key := k; func := 0; args := 0; t_ticks := 0; timeout := 0;
     end_ticks := 0; periodic := false; status := STAT_INVALID |}.

(** [fresh] is the address of the timer array that was allocated, or None when the
    allocation fails; the timers of the array are at consecutive addresses. *)
Definition urpc_timer_pool_add (fresh : option Z) (chid num : Z) (is_server : bool) (s : timing_wheel) : Z * timing_wheel :=
  let k := urpc_timer_key_fill chid is_server in
  let n := if chid =? URPC_INVALID_ID_U32 then URPC_TIMER_DEFAULT_NUM else num in
  match fresh with
  | None => (URPC_FAIL, s)
  | Some base =>
      let ids := seqZ base n in
      match pool s !! k with
      | Some _ => (- URPC_ERR_EEXIST, s)
      | None =>
          let e := {| head := ids; timer_num := n; owned := ids; stat_total := n; stat_free := n |} in
          (URPC_SUCCESS,
           set_pool (<[k := e]> (pool s))
             (set_timers (foldr (fun id m => <[id := new_timer k]> m) (timers s) ids) s))
      end
  end.

(** The first free timer; [stat_free] is decremented even when there is none. *)
Definition urpc_timer_pool_get (chid : Z) (is_server : bool) (s : timing_wheel) : option (option Z * timing_wheel) :=
  let k := urpc_timer_key_fill chid is_server in
  match pool s !! k with
  | None => Some (None, s)
  | Some e =>
      let put hd := set_pool (<[k := {| head := hd; timer_num := timer_num e; owned := owned e; stat_total := stat_total e;
                                        stat_free := u64 (stat_free e - 1) |}]> (pool s)) in
      match head e with
      | [] => Some (None, put [] s)
      | id :: rest => s' ← change_timer id (set_in_pool false) s; Some (Some id, put rest s')
      end
  end.

Definition urpc_timer_pool_put (id : Z) (s : timing_wheel) : option timing_wheel :=
  t ← timers s !! id;
  match pool s !! key t with
  | None => Some s
  | Some e =>
      let put hd := set_pool (<[key t := {| head := hd; timer_num := timer_num e; owned := owned e; stat_total := stat_total e;
                                            stat_free := u64 (stat_free e + 1) |}]> (pool s)) in
      if in_pool t then Some (put (head e) s)
      else Some (upd_timer id (set_in_pool true (set_status STAT_INVALID t)) (put (id :: head e) s))
  end.

Definition urpc_free_timer := urpc_timer_pool_put.

(** ** Timer interface *)

Definition urpc_check_timer_magic (t : urpc_timer) : bool := magic t =? URPC_TIMER_MAGIC_NUM.

Definition urpc_timing_wheel_version_update (s : timing_wheel) : timing_wheel := set_version (u64 (version s + 1)) s.

Definition is_urpc_timer_running (id : option Z) (s : timing_wheel) : option bool :=
  match id with
  | None => Some false
  | Some id =>
      t ← timers s !! id;
      Some (urpc_check_timer_magic t && bool_decide (status t = STAT_RUNNING))
  end.

Definition urpc_timer_create (chid : Z) (is_server : bool) (s : timing_wheel) : option (option Z * timing_wheel) :=
  '(r, s) ← urpc_timer_pool_get chid is_server s;
  match r with
  | None => Some (None, s)
  | Some id =>
      s ← change_timer id (fun t =>
        {| magic := URPC_TIMER_MAGIC_NUM; entry := None; in_pool := in_pool t; key := key t; func := func t;
           args := args t; t_ticks := 0; timeout := 0; end_ticks := end_ticks t; periodic := periodic t;
           status := STAT_INITED |}) s;
      Some (Some id, s)
  end.

Definition unlink (id : Z) (s : timing_wheel) : option timing_wheel :=
  t ← timers s !! id; if urpc_list_is_in_list t then list_remove id s else Some s.

Definition urpc_timer_start (id : Z) (timeout_ms f a : Z) (per : bool) (s : timing_wheel) : option (Z * timing_wheel) :=
  t ← timers s !! id;
  if negb (urpc_check_timer_magic t) then Some (URPC_FAIL, s)
  else if f =? 0 then Some (URPC_FAIL, s)
  else if (timeout_ms <? URPC_TIMER_MIN_DELAY) || (URPC_TIMER_MAX_DELAY <? timeout_ms) then Some (URPC_FAIL, s)
  else
    s ← unlink id s;
    let n := urpc_time_ms_to_ticks timeout_ms in
    s ← change_timer id (fun t =>
      {| magic := magic t; entry := entry t; in_pool := in_pool t; key := key t; func := f; args := a; t_ticks := n;
         timeout := timeout_ms; end_ticks := u64 (n + ticks s + ticks_pending s + 1); periodic := per;
         status := status t |}) s;
    s ← urpc_schedule_timer id s;
    Some (URPC_SUCCESS, urpc_timing_wheel_version_update s).

Definition urpc_timer_restart (id : Z) (s : timing_wheel) : option (Z * timing_wheel) :=
  t ← timers s !! id;
  if negb (urpc_check_timer_magic t) || (t_ticks t =? 0) then Some (URPC_FAIL, s)
  else
    s ← unlink id s;
    s ← change_timer id (fun t => set_end_ticks (u64 (t_ticks t + ticks s + ticks_pending s)) t) s;
    s ← urpc_schedule_timer id s;
    Some (URPC_SUCCESS, urpc_timing_wheel_version_update s).

Definition urpc_timer_remove_from_timing_wheel (id : Z) (s : timing_wheel) : option timing_wheel :=
  s ← change_timer id (set_magic 0) s;
  t ← timers s !! id;
  if urpc_list_is_in_list t then s ← list_remove id s; Some (urpc_timing_wheel_version_update s) else Some s.

Definition urpc_timer_destroy (id : Z) (s : timing_wheel) : option timing_wheel :=
  t ← timers s !! id;
  if negb (urpc_check_timer_magic t) then Some s
  else match status t with
       | STAT_RUNNING => change_timer id (set_periodic false) s
       | _ => s ← urpc_timer_remove_from_timing_wheel id s; urpc_free_timer id s
       end.

Fixpoint pool_entry_uninit (ids : list Z) (s : timing_wheel) : option timing_wheel :=
  match ids with
  | [] => Some s
  | id :: rest =>
      t ← timers s !! id;
      s ← match status t with
          | STAT_INVALID | STAT_INITED => Some s
          | _ => urpc_timer_remove_from_timing_wheel id s
          end;
      pool_entry_uninit rest s
  end.

(** The pool's timers are freed with it. *)
Definition urpc_timer_pool_delete (chid : Z) (is_server : bool) (s : timing_wheel) : option timing_wheel :=
  let k := urpc_timer_key_fill chid is_server in
  match pool s !! k with
  | None => Some s
  | Some e =>
      s ← pool_entry_uninit (owned e) (set_pool (delete k (pool s)) s);
      Some (set_timers (foldr (fun id m => delete id m) (timers s) (owned e)) s)
  end.

(** ** Driving the wheel *)

(** What a callback may do with the timer interface. *)
Inductive timer_op :=
| OpStart (id timeout_ms f a : Z) (per : bool)
| OpRestart (id : Z)
| OpDestroy (id : Z).

Definition run_op (op : timer_op) (s : timing_wheel) : option timing_wheel :=
  match op with
  | OpStart id ms f a per => '(_, s) ← urpc_timer_start id ms f a per s; Some s
  | OpRestart id => '(_, s) ← urpc_timer_restart id s; Some s
  | OpDestroy id => urpc_timer_destroy id s
  end.

Fixpoint run_ops (ops : list timer_op) (s : timing_wheel) : option timing_wheel :=
  match ops with [] => Some s | op :: rest => s ← run_op op s; run_ops rest s end.

Section process.
(** The callbacks, and whether the time budget is spent after a callback. *)
Context (callback : Z -> list timer_op) (over_budget : timing_wheel -> bool).

(** A due timer, unlinked: run its callback, then free it or link it again. *)
Definition run_timer (id : Z) (s : timing_wheel) : option timing_wheel :=
  s ← change_timer id (set_status STAT_RUNNING) s;
  t ← timers s !! id;
  s ← run_ops (callback id) (set_fired ((id, ticks s, end_ticks t) :: fired s) s);
  s ← change_timer id (set_status STAT_FINISH) s;
  t ← timers s !! id;
  if negb (periodic t) then urpc_free_timer id s
  else
    s ← change_timer id (fun t => set_end_ticks (u64 (t_ticks t + ticks s + ticks_pending s)) t) s;
    urpc_schedule_timer id s.

(** The loop over the current slot. *)
Fixpoint process_list (version0 : Z) (ids : list Z) (remain : Z) (s : timing_wheel) : option (Z * timing_wheel) :=
  match ids with
  | [] => Some (remain, s)
  | id :: rest =>
      let remain := remain - 1 in
      if remain <? 0 then Some (0, s)
      else
        t ← timers s !! id;
        if negb (urpc_list_is_in_list t) then Some (0, s)
        else
          s ← list_remove id s;
          if ticks s <? end_ticks t then
            s ← urpc_schedule_timer id s; process_list version0 rest remain s
          else
            s ← run_timer id s;
            if negb (version s =? version0) then Some (0, s)
            else if over_budget s then Some (0, s)
            else process_list version0 rest remain s
  end.

Definition urpc_timing_wheel_process_one_slot (count : Z) (s : timing_wheel) : option (Z * timing_wheel) :=
  process_list (version s) (get_slot s (0, cursor0 s)) count s.

Fixpoint rearrange_list (ids : list Z) (s : timing_wheel) : option timing_wheel :=
  match ids with
  | [] => Some s
  | id :: rest => s ← unlink id s; s ← urpc_schedule_timer id s; rearrange_list rest s
  end.

Definition urpc_timer_rearrange (s : timing_wheel) : option timing_wheel :=
  rearrange_list (get_slot s (1, cursor1 s)) s.

Definition next_cursor (c : Z) : Z := let c := u64 (c + 1) in if URPC_WHEEL_LEVEL_SIZE <=? c then 0 else c.

(** Level 0 always advances; level 1 advances and is redistributed when level 0
    returned to 0. *)
Definition urpc_timing_wheel_step_forward (s : timing_wheel) : option timing_wheel :=
  let s := set_clock (cursor0 s) (cursor1 s) (u64 (ticks s + 1)) s in
  let s := set_clock (next_cursor (cursor0 s)) (cursor1 s) (ticks s) s in
  if negb (cursor0 s =? 0) then Some s
  else
    let s := set_clock (cursor0 s) (next_cursor (cursor1 s)) (ticks s) s in
    urpc_timer_rearrange s.

(** The loop of [urpc_timer_process]; [n] bounds the turns.  Also returned: the
    final [timers_count]. *)
Fixpoint process_loop (n : nat) (count : Z) (s : timing_wheel) : option (Z * timing_wheel) :=
  match n with
  | O => None
  | S n =>
      if 0 <? count then
        '(count, s) ← urpc_timing_wheel_process_one_slot count s;
        if (count =? 0) || (ticks_pending s =? 0) then Some (count, s)
        else
          s ← urpc_timing_wheel_step_forward (set_pending (u64 (ticks_pending s - 1)) s);
          process_loop n count s
      else Some (count, s)
  end.

(** Every turn but the last consumes a pending tick. *)
Definition urpc_timer_process (s : timing_wheel) : option (Z * timing_wheel) :=
  let s := set_pending (u64 (ticks_pending s + 1)) s in
  process_loop (S (Z.to_nat (ticks_pending s))) URPC_TIMER_MAX_JOB s.

Fixpoint timing_wheel_ticks (n : nat) (s : timing_wheel) : option timing_wheel :=
  match n with
  | O => Some s
  | S n => '(_, s) ← urpc_timer_process s; timing_wheel_ticks n s
  end.

(** The event handler: one pass per expiry of the timer file descriptor; a short
    read does nothing. *)
Definition urpc_timing_wheel_tick (readable : option Z) (s : timing_wheel) : option timing_wheel :=
  match readable with None => Some s | Some n => timing_wheel_ticks (Z.to_nat n) s end.
End process.

Definition timing_wheel_empty : timing_wheel :=
  {| cursor0 := 0; cursor1 := 0; slots := ∅; ticks := 0; ticks_pending := 0; version := 0; timers := ∅; pool := ∅;
     fired := [] |}.

(** [urpc_timing_wheel_init]: the wheel and the default pool. *)
Definition urpc_timing_wheel_init (fresh : option Z) : Z * timing_wheel :=
  urpc_timer_pool_add fresh URPC_INVALID_ID_U32 URPC_TIMER_DEFAULT_NUM false timing_wheel_empty.

Fixpoint free_all (ids : list Z) (s : timing_wheel) : option timing_wheel :=
  match ids with
  | [] => Some s
  | id :: rest => s ← list_remove id s; s ← urpc_free_timer id s; free_all rest s
  end.

Fixpoint stop_slots (n : nat) (level : Z) (s : timing_wheel) : option timing_wheel :=
  match n with
  | O => Some s
  | S n => s ← free_all (get_slot s (level, URPC_WHEEL_LEVEL_SIZE - 1 - Z.of_nat n)) s; stop_slots n level s
  end.

Definition urpc_timing_wheel_stop (s : timing_wheel) : option timing_wheel :=
  s ← stop_slots (Z.to_nat URPC_WHEEL_LEVEL_SIZE) 0 s; stop_slots (Z.to_nat URPC_WHEEL_LEVEL_SIZE) 1 s.

(** ** Invariant *)

(** Steps from cursor [c] to position [p] on a level. *)
Definition dist (p c : Z) : Z := if c <=? p then p - c else p - c + URPC_WHEEL_LEVEL_SIZE.

(** The tick at which level 1 redistributes position [p] (a full turn when [p] is
    the cursor). *)
Definition reach (s : timing_wheel) (p : Z) : Z :=
  ticks s - cursor0 s + URPC_WHEEL_LEVEL_SIZE * (if p =? cursor1 s then URPC_WHEEL_LEVEL_SIZE else dist p (cursor1 s)).

(** Where a timer with deadline [e] may be linked. *)
Definition placed (s : timing_wheel) (lp : slot_id) (e : Z) : Prop :=
  0 <= lp.2 < URPC_WHEEL_LEVEL_SIZE /\
  ((lp.1 = 0 /\ e = ticks s + dist lp.2 (cursor0 s)) \/
   (lp.1 = 1 /\ reach s lp.2 <= e <= reach s lp.2 + 2 * URPC_WHEEL_LEVEL_SIZE - 2)).

Definition MAX_TICKS : Z := 2 ^ 27.

(** The timers of [X] are exempt from the placement condition (they are being
    redistributed). *)
Record wheel_inv (X : list Z) (s : timing_wheel) : Prop := {
  wi_c0 : 0 <= cursor0 s < URPC_WHEEL_LEVEL_SIZE;
  wi_c1 : 0 <= cursor1 s < URPC_WHEEL_LEVEL_SIZE;
  wi_ticks : 0 <= ticks s;
  wi_pending : 0 <= ticks_pending s;
  wi_slot : forall lp id, id ∈ get_slot s lp -> exists t, timers s !! id = Some t /\ entry t = Some lp;
  wi_link : forall id t lp, timers s !! id = Some t -> entry t = Some lp -> id ∈ get_slot s lp /\ 0 < t_ticks t;
  wi_nodup : forall lp, NoDup (get_slot s lp);
  wi_placed : forall id t lp, id ∉ X -> timers s !! id = Some t -> entry t = Some lp -> placed s lp (end_ticks t);
  wi_range : forall id t, timers s !! id = Some t -> 0 <= t_ticks t <= MAX_TICKS;
  wi_fired : Forall (fun x => x.1.2 = x.2) (fired s)
}.

(** [s'] has the clock of [s]. *)
Definition same_clock (s s' : timing_wheel) : Prop :=
  cursor0 s' = cursor0 s /\ cursor1 s' = cursor1 s /\ ticks s' = ticks s /\ ticks_pending s' = ticks_pending s.

#[export] Instance same_clock_preorder : PreOrder same_clock.
Proof. split; [done|]. intros x y z (?&?&?&?) (?&?&?&?). split_and!; congruence. Qed.

Lemma placed_clock s s' lp e : same_clock s s' -> placed s lp e -> placed s' lp e.
Proof. intros (E0 & E1 & E2 & _). unfold placed, reach. by rewrite E0, E1, E2. Qed.

Lemma get_slot_insert s lp l lp' :
  get_slot (set_slots (<[lp := l]> (slots s)) s) lp' = if decide (lp = lp') then l else get_slot s lp'.
Proof.
  unfold get_slot, set_slots. simpl. destruct (decide (lp = lp')) as [->|Hne].
  - by rewrite lookup_insert_eq.
  - by rewrite lookup_insert_ne.
Qed.

(** ** List operations preserve the invariant *)

Lemma filter_not_in (id : Z) (l : list Z) : id ∉ l -> filter (.≠ id) l = l.
Proof.
  induction l as [|x l IH]; [done|]. intros [? ?]%not_elem_of_cons. rewrite filter_cons_True by done. by rewrite IH.
Qed.

Lemma wheel_inv_weaken X Y s : wheel_inv X s -> X ⊆ Y -> wheel_inv Y s.
Proof. intros [] HXY. split; try done. intros id t lp HX. apply wi_placed0. intros Hin. by apply HX, HXY. Qed.

Lemma push_spec X s id t lp :
  wheel_inv (id :: X) s -> timers s !! id = Some t -> entry t = None -> 0 < t_ticks t -> placed s lp (end_ticks t) ->
  exists s', list_push_back lp id s = Some s' /\ wheel_inv X s' /\ same_clock s s' /\
    timers s' = <[id := set_entry (Some lp) t]> (timers s) /\ version s' = version s /\ fired s' = fired s /\ pool s' = pool s /\
    (forall lp', get_slot s' lp' = if decide (lp = lp') then get_slot s lp ++ [id] else get_slot s lp').
Proof.
  intros [] Ht He Hpos Hpl. unfold list_push_back. rewrite Ht. cbn [mbind option_bind]. rewrite He.
  eexists. split; [done|]. unfold upd_timer.
  assert (forall lp', id ∉ get_slot s lp') as Hno.
  { intros lp' Hin. destruct (wi_slot0 _ _ Hin) as (t' & E1 & E2). congruence. }
  assert (forall lp', get_slot (set_timers (<[id := set_entry (Some lp) t]> (timers s))
            (set_slots (<[lp := get_slot s lp ++ [id]]> (slots s)) s)) lp'
          = if decide (lp = lp') then get_slot s lp ++ [id] else get_slot s lp') as Hgs by (intros; apply get_slot_insert).
  split_and!; try done. split; try done; simpl; try setoid_rewrite Hgs.
  - intros lp' id' Hin. destruct (decide (id' = id)) as [->|Hne].
    + exists (set_entry (Some lp) t). split; [apply lookup_insert_eq|]. simpl. destruct (decide (lp = lp')) as [->|]; [done|].
      exfalso. by eapply Hno.
    + rewrite lookup_insert_ne by done. apply wi_slot0. destruct (decide (lp = lp')) as [<-|]; [|done].
      apply elem_of_app in Hin as [?|Hin]; [done|]. apply list_elem_of_singleton in Hin. done.
  - intros id' t' lp' Ht' He'. destruct (decide (id' = id)) as [->|Hne].
    + rewrite lookup_insert_eq in Ht'. injection Ht' as <-. injection He' as <-. split; [|done].
      rewrite decide_True by done. apply elem_of_app. right. by apply list_elem_of_singleton.
    + rewrite lookup_insert_ne in Ht' by done. destruct (wi_link0 _ _ _ Ht' He'). split; [|done].
      destruct (decide (lp = lp')) as [<-|]; [|done]. apply elem_of_app. by left.
  - intros lp'. destruct (decide (lp = lp')) as [<-|]; [|done]. apply NoDup_app. split_and!; [done| |apply NoDup_singleton].
    intros x Hx ->%list_elem_of_singleton. by eapply Hno.
  - intros id' t' lp' HX Ht' He'. destruct (decide (id' = id)) as [->|Hne].
    + rewrite lookup_insert_eq in Ht'. injection Ht' as <-. injection He' as <-. by eapply placed_clock.
    + rewrite lookup_insert_ne in Ht' by done. eapply placed_clock; [|apply (wi_placed0 id'); [|done..]; apply not_elem_of_cons; done]. done.
  - intros id' t' Ht'. destruct (decide (id' = id)) as [->|Hne].
    + rewrite lookup_insert_eq in Ht'. injection Ht' as <-. simpl. by eapply wi_range0.
    + rewrite lookup_insert_ne in Ht' by done. by eapply wi_range0.
Qed.

Lemma remove_spec X s id t lp :
  wheel_inv X s -> timers s !! id = Some t -> entry t = Some lp ->
  exists s', list_remove id s = Some s' /\ wheel_inv X s' /\ same_clock s s' /\
    timers s' = <[id := set_entry None t]> (timers s) /\ version s' = version s /\ fired s' = fired s /\ pool s' = pool s /\
    (forall lp', get_slot s' lp' = if decide (lp = lp') then filter (.≠ id) (get_slot s lp) else get_slot s lp').
Proof.
  intros [] Ht He. unfold list_remove. rewrite Ht. cbn [mbind option_bind]. rewrite He. cbn [mbind option_bind].
  eexists. split; [done|]. unfold upd_timer.
  assert (forall lp', get_slot (set_timers (<[id := set_entry None t]> (timers s))
            (set_slots (<[lp := filter (.≠ id) (get_slot s lp)]> (slots s)) s)) lp'
          = if decide (lp = lp') then filter (.≠ id) (get_slot s lp) else get_slot s lp') as Hgs by (intros; apply get_slot_insert).
  split_and!; try done. split; try done; simpl; try setoid_rewrite Hgs.
  - intros lp' id' Hin.
    assert (id' ∈ get_slot s lp' /\ id' <> id) as [Hin' Hne].
    { destruct (decide (lp = lp')) as [<-|Hl]; [by apply list_elem_of_filter in Hin as [? ?]|]. split; [done|]. intros ->.
      destruct (wi_slot0 _ _ Hin) as (t' & E1 & E2). congruence. }
    rewrite lookup_insert_ne by done. by apply wi_slot0.
  - intros id' t' lp' Ht' He'. destruct (decide (id' = id)) as [->|Hne].
    + rewrite lookup_insert_eq in Ht'. by injection Ht' as <-.
    + rewrite lookup_insert_ne in Ht' by done. destruct (wi_link0 _ _ _ Ht' He'). split; [|done].
      destruct (decide (lp = lp')) as [<-|]; [|done]. by apply list_elem_of_filter.
  - intros lp'. destruct (decide (lp = lp')) as [<-|]; [|done]. by apply NoDup_filter.
  - intros id' t' lp' HX Ht' He'. destruct (decide (id' = id)) as [->|Hne].
    + rewrite lookup_insert_eq in Ht'. by injection Ht' as <-.
    + rewrite lookup_insert_ne in Ht' by done. eapply placed_clock; [|by eapply wi_placed0]. done.
  - intros id' t' Ht'. destruct (decide (id' = id)) as [->|Hne].
    + rewrite lookup_insert_eq in Ht'. injection Ht' as <-. simpl. by eapply wi_range0.
    + rewrite lookup_insert_ne in Ht' by done. by eapply wi_range0.
Qed.

(** Fields other than the links: a linked timer keeps its deadline. *)
Lemma upd_timer_spec X s id t t' :
  wheel_inv X s -> timers s !! id = Some t -> entry t' = entry t -> 0 <= t_ticks t' <= MAX_TICKS ->
  (entry t = None \/ (end_ticks t' = end_ticks t /\ 0 < t_ticks t')) ->
  wheel_inv X (upd_timer id t' s).
Proof.
  intros [] Ht He Hr Hend. split; try done; unfold upd_timer; simpl.
  - intros lp id' Hin. destruct (decide (id' = id)) as [->|Hne].
    + rewrite lookup_insert_eq. exists t'. split; [done|]. destruct (wi_slot0 _ _ Hin) as (t0 & E1 & E2). congruence.
    + rewrite lookup_insert_ne by done. by apply wi_slot0.
  - intros id' t0 lp Ht' He'. destruct (decide (id' = id)) as [->|Hne].
    + rewrite lookup_insert_eq in Ht'. injection Ht' as <-. rewrite He in He'.
      split; [by apply (wi_link0 _ _ _ Ht)|]. destruct Hend as [?|[_ ?]]; [congruence|done].
    + rewrite lookup_insert_ne in Ht' by done. by eapply wi_link0.
  - intros id' t0 lp HX Ht' He'. destruct (decide (id' = id)) as [->|Hne].
    + rewrite lookup_insert_eq in Ht'. injection Ht' as <-. rewrite He in He'.
      destruct Hend as [?|[-> _]]; [congruence|]. eapply placed_clock; [|by eapply wi_placed0]. done.
    + rewrite lookup_insert_ne in Ht' by done. eapply placed_clock; [|by eapply wi_placed0]. done.
  - intros id' t0 Ht'. destruct (decide (id' = id)) as [->|Hne].
    + rewrite lookup_insert_eq in Ht'. by injection Ht' as <-.
    + rewrite lookup_insert_ne in Ht' by done. by eapply wi_range0.
Qed.

(** ** Scheduling *)

Lemma land_mask x : 0 <= x < 2 ^ 64 -> Z.land (u64 x) URPC_WHEEL_LEVEL_MASK = x mod URPC_WHEEL_LEVEL_SIZE.
Proof.
  intros Hx. rewrite u64_small by lia. change URPC_WHEEL_LEVEL_MASK with (Z.ones 14). by rewrite Z.land_ones.
Qed.

Lemma wrap_cases c o : 0 <= c < 16384 -> 0 <= o < 16384 ->
  ((c + o) mod 16384 = c + o /\ c + o < 16384) \/ ((c + o) mod 16384 = c + o - 16384 /\ 16384 <= c + o).
Proof. intros. zmod. Qed.

Lemma schedule_slot_spec s r :
  0 <= cursor0 s < URPC_WHEEL_LEVEL_SIZE -> 0 <= cursor1 s < URPC_WHEEL_LEVEL_SIZE ->
  0 < r < URPC_WHEEL_LEVEL_SIZE * URPC_WHEEL_LEVEL_SIZE ->
  exists lp, schedule_slot s r 1 = Some lp /\ placed s lp (ticks s + r) /\ lp <> (0, cursor0 s) /\ lp <> (1, cursor1 s).
Proof.
  intros H0 H1 Hr. unfold URPC_WHEEL_LEVEL_SIZE in *. cbn [schedule_slot urpc_get_offset_by_level cursor].
  unfold URPC_WHEEL_LEVEL_BITS. rewrite Z.shiftr_div_pow2 by lia. change (2 ^ 14) with 16384.
  unfold placed, reach, dist, URPC_WHEEL_LEVEL_SIZE.
  assert (r / 16384 < 16384) by (apply Z.div_lt_upper_bound; lia).
  pose proof (Z.div_mod r 16384 ltac:(lia)). pose proof (Z.mod_pos_bound r 16384 ltac:(lia)).
  destruct (Z.ltb_spec 0 (r / 16384)).
  - rewrite land_mask by lia. unfold URPC_WHEEL_LEVEL_SIZE. eexists. split; [done|]. cbn [fst snd Z.of_nat].
    destruct (wrap_cases (cursor1 s) (r / 16384)) as [[-> ?]|[-> ?]]; [lia..| |].
    all: split_and!; [lia|lia| |done|intros [=]; lia]; right; split; [done|].
    all: split_ifs; breflect; lia.
  - rewrite (proj2 (Z.ltb_lt 0 r)) by lia. rewrite land_mask by lia. unfold URPC_WHEEL_LEVEL_SIZE.
    eexists. split; [done|]. cbn [fst snd Z.of_nat].
    destruct (wrap_cases (cursor0 s) r) as [[-> ?]|[-> ?]]; [lia..| |].
    all: split_and!; [lia|lia| |intros [=]; lia|done]; left; split; [done|].
    all: split_ifs; breflect; lia.
Qed.

Lemma schedule_spec X s id t :
  wheel_inv (id :: X) s -> timers s !! id = Some t -> entry t = None -> 0 < t_ticks t ->
  ticks s <= end_ticks t < ticks s + URPC_WHEEL_LEVEL_SIZE * URPC_WHEEL_LEVEL_SIZE ->
  exists s' lp, urpc_schedule_timer id s = Some s' /\ wheel_inv X s' /\ same_clock s s' /\
    version s' = version s /\ fired s' = fired s /\ pool s' = pool s /\
    timers s' = <[id := set_status STAT_PENDING (set_entry (Some lp) t)]> (timers s) /\
    (forall lp', get_slot s' lp' = if decide (lp = lp') then get_slot s lp ++ [id] else get_slot s lp') /\
    (ticks s < end_ticks t -> lp <> (0, cursor0 s)) /\ lp <> (1, cursor1 s).
Proof.
  intros Hinv Ht He Hpos Hend. unfold urpc_schedule_timer. rewrite Ht. cbn [mbind option_bind].
  pose proof Hinv as [Hc0 Hc1 _ _ _ _ _ _ _ _].
  assert (exists lp, (if (if ticks s <? end_ticks t then end_ticks t - ticks s else 0) =? 0 then Some (0, cursor0 s)
      else schedule_slot s (if ticks s <? end_ticks t then end_ticks t - ticks s else 0) 1) = Some lp /\
    placed s lp (end_ticks t) /\ (ticks s < end_ticks t -> lp <> (0, cursor0 s)) /\ lp <> (1, cursor1 s)) as (lp & Elp & Hpl & Hl0 & Hl1).
  { destruct (Z.ltb_spec (ticks s) (end_ticks t)) as [Hlt|Hge].
    - rewrite (proj2 (Z.eqb_neq _ _)) by lia.
      destruct (schedule_slot_spec s (end_ticks t - ticks s)) as (lp & E & Hp & ? & ?); [done|done|lia|].
      exists lp. split; [done|]. replace (ticks s + _) with (end_ticks t) in Hp by lia. done.
    - exists (0, cursor0 s). split; [done|]. split_and!; [|lia|done]. unfold placed, dist. simpl. split; [done|].
      left. split; [done|]. rewrite Z.leb_refl. lia. }
  destruct (push_spec X s id t lp Hinv Ht He Hpos Hpl) as (s1 & E1 & Hi1 & Hc & Hts & Hv & Hf & Hpo & Hg).
  assert (timers s1 !! id = Some (set_entry (Some lp) t)) as Ht1 by (rewrite Hts; apply lookup_insert_eq).
  exists (upd_timer id (set_status STAT_PENDING (set_entry (Some lp) t)) s1), lp. split_and!; try done.
  - destruct (_ =? 0).
    + injection Elp as <-. rewrite E1. cbn [mbind option_bind]. unfold change_timer. rewrite Ht1. done.
    + rewrite Elp. cbn [mbind option_bind]. rewrite E1. cbn [mbind option_bind]. unfold change_timer. rewrite Ht1. done.
  - eapply upd_timer_spec; [done..| |]; [simpl; apply (wi_range _ _ Hinv _ _ Ht)|]. right. done.
  - unfold upd_timer. simpl. rewrite Hts. apply insert_insert_eq.
Qed.

(** ** The timer interface *)

(** The wheel is less than [MAX_TICKS] behind, and far from the end of 64 bits. *)
Definition clock_ok (s : timing_wheel) : Prop :=
  ticks s + ticks_pending s < 2 ^ 62 /\ ticks_pending s < MAX_TICKS - 1.

Lemma clock_ok_same s s' : same_clock s s' -> clock_ok s -> clock_ok s'.
Proof. intros (_ & _ & E1 & E2). unfold clock_ok. by rewrite E1, E2. Qed.

(** The effect of an interface call on timer [id]. *)
Record api_effect (id : Z) (s s' : timing_wheel) : Prop := {
  ae_inv : wheel_inv [] s';
  ae_clock : same_clock s s';
  ae_fired : fired s' = fired s;
  ae_dom : forall i, is_Some (timers s' !! i) <-> is_Some (timers s !! i);
  ae_others : forall i, i <> id -> timers s' !! i = timers s !! i;
  ae_version : (version s' = version s /\ forall lp, get_slot s' lp = get_slot s lp) \/ version s' = u64 (version s + 1)
}.

Lemma dom_insert {A} (m : gmap Z A) id x y : m !! id = Some y -> forall i, is_Some (<[id := x]> m !! i) <-> is_Some (m !! i).
Proof.
  intros E i. destruct (decide (i = id)) as [->|Hne].
  - rewrite lookup_insert_eq, E. split; by eexists.
  - by rewrite lookup_insert_ne.
Qed.

Lemma change_spec X s id t f :
  wheel_inv X s -> timers s !! id = Some t -> entry (f t) = entry t -> end_ticks (f t) = end_ticks t -> t_ticks (f t) = t_ticks t ->
  change_timer id f s = Some (upd_timer id (f t) s) /\ wheel_inv X (upd_timer id (f t) s).
Proof.
  intros Hinv Ht E1 E2 E3. unfold change_timer. rewrite Ht. split; [done|].
  eapply upd_timer_spec; [done..|rewrite E3; by eapply wi_range|]. rewrite E2, E3.
  destruct (entry t) as [lp|] eqn:E; [right|by left]. split; [done|]. by apply (wi_link _ _ Hinv _ _ _ Ht E).
Qed.

Lemma unlink_spec s id t :
  wheel_inv [] s -> timers s !! id = Some t ->
  exists s', unlink id s = Some s' /\ wheel_inv [] s' /\ same_clock s s' /\ fired s' = fired s /\ version s' = version s /\
    pool s' = pool s /\ timers s' = <[id := set_entry None t]> (timers s).
Proof.
  intros Hinv Ht. unfold unlink, urpc_list_is_in_list. rewrite Ht. cbn [mbind option_bind].
  destruct (entry t) as [lp|] eqn:E.
  - rewrite bool_decide_true by eauto. destruct (remove_spec [] s id t lp Hinv Ht E) as (s' & -> & ? & ? & ? & ? & ? & ? & _).
    by exists s'.
  - rewrite bool_decide_false by (intros [? ?]; done). exists s. split_and!; try done.
    symmetry. rewrite insert_id; [done|]. rewrite Ht. f_equal. destruct t. simpl in *. by subst.
Qed.

(** Re-linking an unlinked timer with a new deadline. *)
Lemma relink_spec s id t t' :
  wheel_inv [] s -> timers s !! id = Some t -> entry t = None -> entry t' = None -> 0 < t_ticks t' <= MAX_TICKS ->
  ticks s <= end_ticks t' < ticks s + URPC_WHEEL_LEVEL_SIZE * URPC_WHEEL_LEVEL_SIZE ->
  exists s' lp, urpc_schedule_timer id (upd_timer id t' s) = Some s' /\ wheel_inv [] s' /\ same_clock s s' /\
    fired s' = fired s /\ version s' = version s /\ pool s' = pool s /\
    timers s' = <[id := set_status STAT_PENDING (set_entry (Some lp) t')]> (timers s) /\
    (forall lp', get_slot s' lp' = if decide (lp = lp') then get_slot s lp ++ [id] else get_slot s lp') /\
    (ticks s < end_ticks t' -> lp <> (0, cursor0 s)).
Proof.
  intros Hinv Ht He He' Hr Hend.
  assert (wheel_inv [] (upd_timer id t' s)) as Hi by (eapply upd_timer_spec; [done..|congruence|lia|by left]).
  destruct (schedule_spec [] (upd_timer id t' s) id t') as (s' & lp & E & Hi' & Hc & Hv & Hf & Hp & Hts & Hg & Hl & _).
  - eapply wheel_inv_weaken; [done|]. set_solver.
  - unfold upd_timer. simpl. apply lookup_insert_eq.
  - done.
  - lia.
  - done.
  - exists s', lp. split_and!; try done. rewrite Hts. unfold upd_timer. simpl. apply insert_insert_eq.
Qed.

Lemma ms_to_ticks_range ms : URPC_TIMER_MIN_DELAY <= ms <= URPC_TIMER_MAX_DELAY ->
  urpc_time_ms_to_ticks ms = ms / 2 /\ 0 < ms / 2 <= MAX_TICKS.
Proof.
  unfold URPC_TIMER_MIN_DELAY, URPC_TIMER_MAX_DELAY, urpc_time_ms_to_ticks, URPC_TIMING_WHEEL_HZ, MS_PER_SEC, MAX_TICKS.
  intros Hm. rewrite u64_small by lia. split; [|zmod]. change 1000 with (2 * 500).
  rewrite Z.div_mul_cancel_r by lia. done.
Qed.

(** [urpc_timer_start] on an existing timer: refused without effect, or the timer
    is linked with the deadline [ms/2 + 1] ticks after all ticks so far. *)
Lemma start_spec s id t ms f a per :
  wheel_inv [] s -> clock_ok s -> timers s !! id = Some t ->
  (urpc_timer_start id ms f a per s = Some (URPC_FAIL, s) /\
   (magic t <> URPC_TIMER_MAGIC_NUM \/ f = 0 \/ ms < URPC_TIMER_MIN_DELAY \/ URPC_TIMER_MAX_DELAY < ms)) \/
  exists s' t', urpc_timer_start id ms f a per s = Some (URPC_SUCCESS, s') /\ api_effect id s s' /\
    timers s' !! id = Some t' /\ is_Some (entry t') /\ periodic t' = per /\ func t' = f /\
    end_ticks t' = ticks s + ticks_pending s + ms / 2 + 1.
Proof.
  intros Hinv [Hck1 Hck2] Ht. unfold urpc_timer_start. rewrite Ht. cbn [mbind option_bind]. unfold urpc_check_timer_magic.
  destruct (Z.eqb_spec (magic t) URPC_TIMER_MAGIC_NUM); simpl negb; cbv iota; [|left; tauto].
  destruct (Z.eqb_spec f 0); [left; tauto|].
  destruct (Z.ltb_spec ms URPC_TIMER_MIN_DELAY); simpl orb; cbv iota; [left; tauto|].
  destruct (Z.ltb_spec URPC_TIMER_MAX_DELAY ms); cbv iota; [left; tauto|]. right.
  destruct (ms_to_ticks_range ms) as [-> Hn]; [lia|].
  destruct (unlink_spec s id t Hinv Ht) as (s1 & -> & Hi1 & Hc1 & Hf1 & Hv1 & Hp1 & Ht1). cbn [mbind option_bind].
  assert (timers s1 !! id = Some (set_entry None t)) as Ht1' by (rewrite Ht1; apply lookup_insert_eq).
  unfold change_timer. rewrite Ht1'. cbn [mbind option_bind].
  pose proof Hc1 as (_ & _ & Ek & Ep). rewrite Ek, Ep. pose proof (wi_ticks _ _ Hinv). pose proof (wi_pending _ _ Hinv).
  rewrite (u64_small (_ + _ + _ + 1)) by (unfold MAX_TICKS in *; lia).
  set (t' := {| magic := _ |}).
  destruct (relink_spec s1 id (set_entry None t) t') as (s2 & lp & -> & Hi2 & Hc2 & Hf2 & Hv2 & Hp2 & Ht2 & Hg2 & _); try done.
  { simpl. rewrite Ek. unfold URPC_WHEEL_LEVEL_SIZE, MAX_TICKS in *. lia. }
  cbn [mbind option_bind]. eexists _, _. split; [done|]. split; [|split; [simpl; rewrite Ht2; apply lookup_insert_eq|]].
  2: { simpl. split; [by eexists|]. split_and!; try done. lia. }
  split; simpl; try done.
  - destruct Hi2. by split.
  - etrans; done.
  - congruence.
  - intros i. rewrite Ht2, Ht1, insert_insert_eq. by eapply dom_insert.
  - intros i Hne. rewrite Ht2, Ht1, !lookup_insert_ne by done. done.
  - right. congruence.
Qed.

Lemma restart_spec s id t :
  wheel_inv [] s -> clock_ok s -> timers s !! id = Some t ->
  urpc_timer_restart id s = Some (URPC_FAIL, s) \/
  exists s', urpc_timer_restart id s = Some (URPC_SUCCESS, s') /\ api_effect id s s'.
Proof.
  intros Hinv [Hck1 Hck2] Ht. unfold urpc_timer_restart. rewrite Ht. cbn [mbind option_bind].
  destruct (urpc_check_timer_magic t); simpl negb; simpl orb; cbv iota; [|by left].
  destruct (Z.eqb_spec (t_ticks t) 0) as [|Hz]; [by left|]. right.
  pose proof (wi_range _ _ Hinv _ _ Ht) as Hr.
  destruct (unlink_spec s id t Hinv Ht) as (s1 & -> & Hi1 & Hc1 & Hf1 & Hv1 & Hp1 & Ht1). cbn [mbind option_bind].
  assert (timers s1 !! id = Some (set_entry None t)) as Ht1' by (rewrite Ht1; apply lookup_insert_eq).
  unfold change_timer. rewrite Ht1'. cbn [mbind option_bind].
  pose proof Hc1 as (_ & _ & Ek & Ep). rewrite Ek, Ep. pose proof (wi_ticks _ _ Hinv). pose proof (wi_pending _ _ Hinv).
  cbn [set_entry t_ticks]. rewrite (u64_small (_ + _ + _)) by (unfold MAX_TICKS in *; lia).
  set (t' := set_end_ticks _ _).
  destruct (relink_spec s1 id (set_entry None t) t') as (s2 & lp & -> & Hi2 & Hc2 & Hf2 & Hv2 & Hp2 & Ht2 & Hg2 & _); try done.
  { simpl. lia. }
  { simpl. rewrite Ek. unfold URPC_WHEEL_LEVEL_SIZE, MAX_TICKS in *. lia. }
  cbn [mbind option_bind]. eexists. split; [done|]. split; simpl; try done.
  - destruct Hi2. by split.
  - etrans; done.
  - congruence.
  - intros i. rewrite Ht2, Ht1, insert_insert_eq. by eapply dom_insert.
  - intros i Hne. rewrite Ht2, Ht1, !lookup_insert_ne by done. done.
  - right. congruence.
Qed.

Lemma wheel_inv_pool X s m : wheel_inv X s -> wheel_inv X (set_pool m s).
Proof. intros []. by split. Qed.

Lemma free_spec s id t :
  wheel_inv [] s -> timers s !! id = Some t ->
  exists s', urpc_free_timer id s = Some s' /\ api_effect id s s' /\ version s' = version s /\
    (forall lp, get_slot s' lp = get_slot s lp).
Proof.
  intros Hinv Ht. unfold urpc_free_timer, urpc_timer_pool_put. rewrite Ht. cbn [mbind option_bind].
  destruct (pool s !! key t) as [e|]; [destruct (in_pool t)|].
  - eexists. split; [done|]. split; [|done]. split; try done; [by apply wheel_inv_pool|by left].
  - eexists. split; [done|]. split; [|done].
    split; try done.
    + eapply upd_timer_spec; [by apply wheel_inv_pool|done|done|simpl; by eapply wi_range|]. simpl.
      destruct (entry t) as [lp|] eqn:E; [right|by left]. split; [done|]. by apply (wi_link _ _ Hinv _ _ _ Ht E).
    + unfold upd_timer. simpl. by eapply dom_insert.
    + intros i Hne. unfold upd_timer. simpl. by rewrite lookup_insert_ne.
    + by left.
  - exists s. split; [done|]. split; [|done]. split; try done. by left.
Qed.

Lemma api_effect_trans id s1 s2 s3 :
  api_effect id s1 s2 -> api_effect id s2 s3 -> (forall lp, get_slot s3 lp = get_slot s2 lp) -> version s3 = version s2 ->
  api_effect id s1 s3.
Proof.
  intros [I1 C1 F1 D1 O1 V1] [I2 C2 F2 D2 O2 _] Hg Hv. split; [done|by etrans|congruence|..].
  - intros i. by rewrite D2, D1.
  - intros i Hne. by rewrite O2, O1.
  - destruct V1 as [[? ?]|?]; [left|right]; [|congruence]. split; [congruence|]. intros lp. by rewrite Hg.
Qed.

Lemma destroy_spec s id t :
  wheel_inv [] s -> timers s !! id = Some t ->
  exists s', urpc_timer_destroy id s = Some s' /\ api_effect id s s' /\
    (status t = STAT_RUNNING -> exists t', timers s' !! id = Some t' /\ entry t' = entry t /\ t_ticks t' = t_ticks t /\ status t' = STAT_RUNNING).
Proof.
  intros Hinv Ht. unfold urpc_timer_destroy. rewrite Ht. cbn [mbind option_bind].
  destruct (urpc_check_timer_magic t); simpl negb; cbv iota.
  2: { exists s. split; [done|]. split; [split; try done; by left|]. intros. by exists t. }
  assert (status t <> STAT_RUNNING -> exists s', (s ← urpc_timer_remove_from_timing_wheel id s; urpc_free_timer id s) = Some s' /\ api_effect id s s') as Hrem.
  { intros _. unfold urpc_timer_remove_from_timing_wheel.
    destruct (change_spec [] s id t (set_magic 0) Hinv Ht) as [-> Hi1]; [done..|]. cbn [mbind option_bind].
    set (s1 := upd_timer id _ s) in *.
    assert (timers s1 !! id = Some (set_magic 0 t)) as Ht1 by apply lookup_insert_eq. rewrite Ht1. cbn [mbind option_bind].
    unfold urpc_list_is_in_list. change (entry (set_magic 0 t)) with (entry t).
    assert (api_effect id s s1) as He1.
    { split; try done; unfold s1, upd_timer; simpl; [by eapply dom_insert|intros; by rewrite lookup_insert_ne|by left]. }
    destruct (entry t) as [lp|] eqn:E.
    - rewrite bool_decide_true by eauto.
      destruct (remove_spec [] s1 id (set_magic 0 t) lp Hi1 Ht1 E) as (s2 & -> & Hi2 & Hc2 & Ht2 & Hv2 & Hf2 & Hp2 & _).
      cbn [mbind option_bind]. set (s3 := urpc_timing_wheel_version_update s2).
      assert (wheel_inv [] s3) as Hi3 by (destruct Hi2; by split).
      destruct (free_spec s3 id (set_entry None (set_magic 0 t))) as (s4 & E4 & He4 & Hv4 & Hg4);
        [done|unfold s3; simpl; rewrite Ht2; apply lookup_insert_eq|].
      exists s4. split; [done|]. eapply (api_effect_trans id s s3); [|done..].
      split; [done|by etrans; [apply (ae_clock _ _ _ He1)|]|..]; unfold s3; simpl.
      + rewrite Hf2. by apply (ae_fired _ _ _ He1).
      + intros i. rewrite Ht2. rewrite (dom_insert _ _ _ _ Ht1 i). by apply (ae_dom _ _ _ He1).
      + intros i Hne. rewrite Ht2, lookup_insert_ne by done. by apply (ae_others _ _ _ He1).
      + right. rewrite Hv2. done.
    - rewrite bool_decide_false by (intros [? ?]; done). cbn [mbind option_bind].
      destruct (free_spec s1 id (set_magic 0 t) Hi1 Ht1) as (s4 & E4 & He4 & Hv4 & Hg4).
      exists s4. split; [done|]. by eapply api_effect_trans. }
  destruct (status t) eqn:Est;
    try (destruct (Hrem ltac:(done)) as (s' & -> & He); exists s'; split; [done|]; split; [done|]; done).
  destruct (change_spec [] s id t (set_periodic false) Hinv Ht) as [-> Hi1]; [done..|].
  eexists. split; [done|]. split.
  - split; try done; unfold upd_timer; simpl; [by eapply dom_insert|intros; by rewrite lookup_insert_ne|by left].
  - intros _. eexists. split; [apply lookup_insert_eq|]. done.
Qed.

Definition op_id (op : timer_op) : Z := match op with OpStart id _ _ _ _ | OpRestart id | OpDestroy id => id end.

(** A callback of timer [self] does not start or restart [self]. *)
Definition op_allowed (self : Z) (op : timer_op) : Prop :=
  match op with OpDestroy _ => True | _ => op_id op <> self end.

(** The timer whose callback runs: unlinked, and only destroyed by its callback. *)
Definition self_running (self n : Z) (s : timing_wheel) : Prop :=
  exists t, timers s !! self = Some t /\ entry t = None /\ status t = STAT_RUNNING /\ t_ticks t = n.

Lemma run_op_spec self n s op :
  wheel_inv [] s -> clock_ok s -> is_Some (timers s !! op_id op) -> op_allowed self op -> self_running self n s ->
  exists s', run_op op s = Some s' /\ api_effect (op_id op) s s' /\ self_running self n s'.
Proof.
  intros Hinv Hck [t Ht] Hal (t0 & Ht0 & He0 & Hs0 & Hn0).
  assert (forall s', op_id op <> self -> api_effect (op_id op) s s' -> self_running self n s') as Hself.
  { intros s' Hne Heff. exists t0. by rewrite (ae_others _ _ _ Heff). }
  assert (api_effect (op_id op) s s) as Hrefl by (split; try done; by left).
  destruct op as [id ms f a per|id|id]; simpl in *.
  - destruct (start_spec s id t ms f a per Hinv Hck Ht) as [[-> _]|(s' & t' & -> & Heff & _)]; simpl; eauto.
  - destruct (restart_spec s id t Hinv Hck Ht) as [->|(s' & -> & Heff)]; simpl; eauto.
  - destruct (destroy_spec s id t Hinv Ht) as (s' & -> & Heff & Hrun). exists s'. split; [done|]. split; [done|].
    destruct (decide (id = self)) as [->|Hne]; [|by eauto].
    rewrite Ht0 in Ht. injection Ht as <-. destruct (Hrun Hs0) as (t' & ? & ? & ? & ?). exists t'. split_and!; congruence.
Qed.

Lemma u64_plus a b : u64 (u64 a + b) = u64 (a + b).
Proof. unfold u64. by rewrite Zplus_mod_idemp_l. Qed.

(** Timer [i] waits for its deadline [e], or ran at it. *)
Definition tracked (i e : Z) (s : timing_wheel) : Prop :=
  (exists t, timers s !! i = Some t /\ is_Some (entry t) /\ end_ticks t = e) \/ (i, e, e) ∈ fired s.

(** What every part of a pass over the wheel keeps; the timers of [U] are those no
    callback touches. *)
Record pass_kept (U : Z -> Prop) (s s' : timing_wheel) : Prop := {
  pk_inv : wheel_inv [] s';
  pk_dom : forall i, is_Some (timers s' !! i) <-> is_Some (timers s !! i);
  pk_fired : fired s ⊆ fired s';
  pk_track : forall i e, U i -> tracked i e s -> tracked i e s'
}.

Lemma pass_kept_trans U s1 s2 s3 : pass_kept U s1 s2 -> pass_kept U s2 s3 -> pass_kept U s1 s3.
Proof.
  intros [I1 D1 F1 T1] [I2 D2 F2 T2]. split; [done|intros i; by rewrite D2, D1|by etrans|]. intros i e HU H. by apply T2, T1.
Qed.

Lemma tracked_same i e s s' : timers s' !! i = timers s !! i -> fired s ⊆ fired s' -> tracked i e s -> tracked i e s'.
Proof. intros E F [H|H]; [left; by rewrite E|right; by apply F]. Qed.

Definition ops_ok (self : Z) (ops : list timer_op) (s : timing_wheel) : Prop :=
  Forall (fun op => is_Some (timers s !! op_id op) /\ op_allowed self op) ops.

Definition ops_avoid (U : Z -> Prop) (ops : list timer_op) : Prop := Forall (fun op => ~ U (op_id op)) ops.

Lemma ops_ok_dom self ops s s' :
  (forall i, is_Some (timers s' !! i) <-> is_Some (timers s !! i)) -> ops_ok self ops s -> ops_ok self ops s'.
Proof. intros D H. eapply Forall_impl; [done|]. intros op [? ?]. split; [by apply D|done]. Qed.

(** Calls that link or unlink a timer change the version. *)
Lemma run_ops_spec U self n ops : forall s,
  wheel_inv [] s -> clock_ok s -> ops_ok self ops s -> ops_avoid U ops -> self_running self n s ->
  exists s', run_ops ops s = Some s' /\ pass_kept U s s' /\ same_clock s s' /\ fired s' = fired s /\ self_running self n s' /\
    ((version s' = version s /\ forall lp, get_slot s' lp = get_slot s lp) \/
     exists m, 1 <= m <= zlen ops /\ version s' = u64 (version s + m)).
Proof.
  induction ops as [|op ops IH]; intros s Hinv Hck Hok HU Hself; simpl.
  { exists s. split_and!; try done. by left. }
  pose proof Hok as [[Hid Hal] Hrest]%Forall_cons. pose proof HU as [HU1 HU2]%Forall_cons.
  destruct (run_op_spec self n s op Hinv Hck Hid Hal Hself) as (s1 & -> & [I1 C1 F1 D1 O1 V1] & Hself1).
  cbn [mbind option_bind].
  destruct (IH s1) as (s2 & -> & K2 & C2 & F2 & Hself2 & V2);
    [done|by eapply clock_ok_same|by eapply ops_ok_dom|done..|].
  exists s2. split; [done|]. split.
  { eapply pass_kept_trans; [|done]. split; [done..|by rewrite F1|]. intros i e Hi.
    apply tracked_same; [apply O1; by intros ->|by rewrite F1]. }
  split; [by etrans|]. split; [congruence|]. split; [done|].
  rewrite zlen_cons. pose proof (zlen_nonneg ops).
  destruct V1 as [[E1 G1]|E1], V2 as [[E2 G2]|(m & Hm & E2)].
  - left. split; [congruence|]. intros lp. by rewrite G2.
  - right. exists m. rewrite E2, E1. split; [lia|done].
  - right. exists 1. rewrite E2, E1. split; [lia|done].
  - right. exists (m + 1). rewrite E2, E1, u64_plus. split; [lia|]. f_equal. lia.
Qed.

Lemma version_unchanged v m : 1 <= m < 2 ^ 64 -> u64 (v + m) <> v.
Proof.
  intros Hm E. pose proof (u64_range (v + m)). unfold u64 in *. change (2 ^ 64) with 18446744073709551616 in *. zmod.
Qed.

Section passes.
Context (callback : Z -> list timer_op) (over_budget : timing_wheel -> bool) (U : Z -> Prop).

(** Callbacks use existing timers, none of [U], and do not re-arm the timer that
    runs them. *)
Definition callbacks_ok (s : timing_wheel) : Prop :=
  forall id, is_Some (timers s !! id) ->
    ops_ok id (callback id) s /\ ops_avoid U (callback id) /\ zlen (callback id) < 2 ^ 64.

Lemma callbacks_ok_dom s s' :
  (forall i, is_Some (timers s' !! i) <-> is_Some (timers s !! i)) -> callbacks_ok s -> callbacks_ok s'.
Proof. intros D H id Hid. destruct (H id) as (? & ? & ?); [by apply D|]. split; [by eapply ops_ok_dom|done]. Qed.

(** The part of a turn after the callback: free or link again. *)
Lemma finish_timer_spec s id t :
  wheel_inv [] s -> clock_ok s -> timers s !! id = Some t -> entry t = None -> 0 < t_ticks t ->
  exists s', (if negb (periodic t) then urpc_free_timer id s
    else s ← change_timer id (fun t => set_end_ticks (u64 (t_ticks t + ticks s + ticks_pending s)) t) s;
         urpc_schedule_timer id s) = Some s' /\
    pass_kept U s s' /\ same_clock s s' /\ fired s' = fired s /\ version s' = version s /\
    get_slot s' (0, cursor0 s) = get_slot s (0, cursor0 s).
Proof.
  intros Hinv [Hc1 Hc2] Ht He Hpos.
  assert (forall i e, i = id -> tracked i e s -> (i, e, e) ∈ fired s) as Hdone.
  { intros i e -> [(t' & E1 & [lp E2] & _)|H]; [congruence|done]. }
  destruct (periodic t); simpl negb; cbv iota.
  - unfold change_timer. rewrite Ht. cbn [mbind option_bind].
    pose proof (wi_range _ _ Hinv _ _ Ht) as Hr. pose proof (wi_pending _ _ Hinv). pose proof (wi_ticks _ _ Hinv).
    rewrite u64_small by (unfold MAX_TICKS in *; lia).
    destruct (relink_spec s id t (set_end_ticks (t_ticks t + ticks s + ticks_pending s) t))
      as (s' & lp & -> & I4 & C4 & F4 & V4 & P4 & T4 & G4 & L4); try done.
    { cbn [t_ticks set_end_ticks]. lia. }
    { cbn [end_ticks set_end_ticks]. unfold URPC_WHEEL_LEVEL_SIZE, MAX_TICKS in *. lia. }
    exists s'. split_and!; try done.
    + split; [done|intros i; rewrite T4; by eapply dom_insert|by rewrite F4|]. intros i e _ H'.
      destruct (decide (i = id)) as [Hi|Hne]; [right; rewrite F4; by apply Hdone|].
      revert H'. apply tracked_same; [by rewrite T4, lookup_insert_ne|by rewrite F4].
    + rewrite G4, decide_False; [done|]. apply L4. cbn [end_ticks set_end_ticks]. lia.
  - destruct (free_spec s id t Hinv Ht) as (s' & -> & [I4 C4 F4 D4 O4 _] & V4 & G4).
    exists s'. split_and!; try done. split; [done..|by rewrite F4|]. intros i e _ H'.
    destruct (decide (i = id)) as [Hi|Hne]; [right; rewrite F4; by apply Hdone|].
    revert H'. apply tracked_same; [by apply O4|by rewrite F4].
Qed.

Lemma run_timer_spec s id t :
  wheel_inv [] s -> clock_ok s -> callbacks_ok s ->
  timers s !! id = Some t -> entry t = None -> end_ticks t = ticks s -> 0 < t_ticks t ->
  exists s', run_timer callback id s = Some s' /\ pass_kept U s s' /\ same_clock s s' /\
    fired s' = (id, ticks s, end_ticks t) :: fired s /\
    (version s' = version s -> get_slot s' (0, cursor0 s) = get_slot s (0, cursor0 s)).
Proof.
  intros Hinv Hck Hcb Ht He Hend Hpos. destruct (Hcb id) as (Hops & HU & Hlen); [by eexists|]. unfold run_timer.
  assert (forall i e, i = id -> tracked i e s -> (i, e, e) ∈ fired s) as Hdone.
  { intros i e -> [(t' & E1 & [lp E2] & _)|H]; [congruence|done]. }
  destruct (change_spec [] s id t (set_status STAT_RUNNING) Hinv Ht) as [-> Hi1]; [done..|]. cbn [mbind option_bind].
  unfold upd_timer at 1. simpl timers. rewrite lookup_insert_eq. cbn [mbind option_bind end_ticks set_status].
  set (s1 := set_fired _ _).
  assert (pass_kept U s s1) as K1.
  { split.
    - destruct Hi1. split; try done. simpl. apply Forall_cons. split; [done|]. done.
    - unfold s1; simpl; by eapply dom_insert.
    - by apply list_subseteq_cons.
    - intros i e _ H'. destruct (decide (i = id)) as [Hi|Hne]; [right; right; by apply Hdone|].
      revert H'. apply tracked_same; [unfold s1; simpl; by rewrite lookup_insert_ne|by apply list_subseteq_cons]. }
  destruct (run_ops_spec U id (t_ticks t) (callback id) s1)
    as (s2 & -> & K2 & C2 & F2 & (t2 & Ht2 & He2 & _ & Hn2) & V2).
  { apply K1. } { done. } { eapply ops_ok_dom; [apply K1|done]. } { done. } { eexists. split; [apply lookup_insert_eq|]. done. }
  cbn [mbind option_bind].
  assert (version s2 = version s -> forall lp, get_slot s2 lp = get_slot s lp) as G2.
  { intros E. destruct V2 as [[_ G]|(m & Hm & E')]; [done|]. exfalso. rewrite E' in E. revert E. apply version_unchanged. lia. }
  destruct (change_spec [] s2 id t2 (set_status STAT_FINISH) (pk_inv _ _ _ K2) Ht2) as [-> Hi3]; [done..|].
  cbn [mbind option_bind]. set (s3 := upd_timer id _ s2) in *.
  assert (timers s3 !! id = Some (set_status STAT_FINISH t2)) as Ht3 by apply lookup_insert_eq. rewrite Ht3.
  cbn [mbind option_bind].
  assert (pass_kept U s2 s3) as K3.
  { split; [done|unfold s3; simpl; by eapply dom_insert|done|]. intros i e _ [(t' & E1 & E2 & E3)|H']; [left|by right].
    destruct (decide (i = id)) as [->|Hne]; [rewrite Ht2 in E1; injection E1 as <-; rewrite He2 in E2; by destruct E2|].
    exists t'. split; [unfold s3; simpl; by rewrite lookup_insert_ne|done]. }
  destruct (finish_timer_spec s3 id (set_status STAT_FINISH t2)) as (s4 & -> & K4 & C4 & F4 & V4 & G4); try done.
  { eapply clock_ok_same; [exact C2|done]. }
  { cbn [t_ticks set_status]. lia. }
  exists s4. split; [done|]. split; [do 3 (eapply pass_kept_trans; [done|]); done|].
  assert (cursor0 s3 = cursor0 s) as Ec by apply C2.
  split; [etrans; [exact C2|done]|]. split.
  - rewrite F4. unfold s3. simpl. by rewrite F2.
  - intros E. rewrite Ec in G4. rewrite G4. unfold s3. apply G2. rewrite <- E, V4. done.
Qed.

(** The loop over the current slot: it ends, keeps the invariant, and leaves the
    slot empty unless it returns 0. *)
Lemma process_list_spec v0 ids : forall remain s,
  wheel_inv [] s -> clock_ok s -> callbacks_ok s -> get_slot s (0, cursor0 s) = ids -> 0 <= remain ->
  version s = v0 ->
  exists r s', process_list callback over_budget v0 ids remain s = Some (r, s') /\ pass_kept U s s' /\ same_clock s s' /\
    0 <= r <= remain /\ (r <> 0 -> get_slot s' (0, cursor0 s) = []).
Proof.
  induction ids as [|id ids IH]; intros remain s Hinv Hck Hcb Hslot Hrem Hv; cbn [process_list].
  { exists remain, s. split; [done|]. split; [by split|]. split; [done|]. split; [lia|]. done. }
  assert (forall s', pass_kept U s s' -> same_clock s s' ->
    exists r s'', Some (0, s') = Some (r, s'') /\ pass_kept U s s'' /\ same_clock s s'' /\ 0 <= r <= remain /\
    (r <> 0 -> get_slot s'' (0, cursor0 s) = [])) as Hexit.
  { intros s' Hk Hc. exists 0, s'. split_and!; try done; lia. }
  destruct (Z.ltb_spec (remain - 1) 0); [by apply Hexit|].
  destruct (wi_slot _ _ Hinv (0, cursor0 s) id) as (t & Ht & He); [rewrite Hslot; left|]. rewrite Ht. cbn [mbind option_bind].
  unfold urpc_list_is_in_list. rewrite bool_decide_true by eauto. simpl negb. cbv iota.
  assert (end_ticks t = ticks s) as Hend.
  { destruct (wi_placed _ _ Hinv id t _ ltac:(apply not_elem_of_nil) Ht He) as [_ [[_ E]|[E _]]]; [|done].
    simpl in E. unfold dist in E. rewrite Z.leb_refl in E. lia. }
  destruct (wi_link _ _ Hinv _ _ _ Ht He) as [_ Hpos].
  destruct (remove_spec [] s id t _ Hinv Ht He) as (s1 & -> & I1 & C1 & T1 & V1 & F1 & P1 & G1). cbn [mbind option_bind].
  pose proof C1 as (Ec & _ & Ek & Ep). rewrite Ek, (proj2 (Z.ltb_ge _ _)) by lia.
  assert (timers s1 !! id = Some (set_entry None t)) as Ht1 by (rewrite T1; apply lookup_insert_eq).
  assert (forall i, is_Some (timers s1 !! i) <-> is_Some (timers s !! i)) as D1 by (rewrite T1; by eapply dom_insert).
  destruct (run_timer_spec s1 id (set_entry None t)) as (s2 & -> & K2 & C2 & F2 & G2);
    [done|by eapply clock_ok_same|by eapply callbacks_ok_dom|done|done|simpl; congruence|done|]. cbn [mbind option_bind].
  assert (pass_kept U s s2) as Hk2.
  { split; [apply K2|intros i; rewrite (pk_dom _ _ _ K2); by apply D1|rewrite <- F1; apply K2|].
    intros i e HU Htr. destruct (decide (i = id)) as [->|Hne].
    - right. rewrite F2. destruct Htr as [(t' & E1 & E2 & E3)|H']; [|right; by rewrite F1].
      rewrite Ht in E1. injection E1 as <-. simpl. replace (ticks s1) with e by congruence. rewrite E3. left.
    - apply (pk_track _ _ _ K2); [done|]. revert Htr. apply tracked_same; [by rewrite T1, lookup_insert_ne|by rewrite F1]. }
  assert (same_clock s s2) as Hc2 by by etrans.
  destruct (Z.eqb_spec (version s2) v0) as [Hv2|]; simpl negb; cbv iota; [|by apply Hexit].
  destruct (over_budget s2); [by apply Hexit|]. pose proof Hc2 as (Ec2 & _ & _ & _).
  assert (get_slot s2 (0, cursor0 s) = ids) as Hslot2.
  { rewrite Ec in G2. rewrite G2 by congruence. rewrite G1, decide_True by done. rewrite Hslot.
    pose proof (wi_nodup _ _ Hinv (0, cursor0 s)) as Hnd. rewrite Hslot in Hnd. apply NoDup_cons in Hnd as [Hni _].
    rewrite filter_cons_False by (intros H'; by apply H'). by apply filter_not_in. }
  destruct (IH (remain - 1) s2) as (r & s3 & E3 & K3 & C3 & Hr & G3);
    [apply Hk2|by eapply clock_ok_same|eapply callbacks_ok_dom; [apply Hk2|done]|by rewrite Ec2|lia|done|].
  exists r, s3. split; [done|]. split; [by eapply pass_kept_trans|]. split; [by etrans|]. split; [lia|].
  intros Hr0. rewrite <- Ec2. by apply G3.
Qed.
End passes.

(** ** Advancing the cursors *)

Lemma rearrange_list_spec U ids : forall s,
  wheel_inv ids s -> NoDup ids ->
  Forall (fun id => exists t, timers s !! id = Some t /\ is_Some (entry t) /\
    ticks s <= end_ticks t < ticks s + URPC_WHEEL_LEVEL_SIZE * URPC_WHEEL_LEVEL_SIZE) ids ->
  exists s', rearrange_list ids s = Some s' /\ pass_kept U s s' /\ same_clock s s'.
Proof.
  induction ids as [|id ids IH]; intros s Hinv Hnd Hall; cbn [rearrange_list].
  { exists s. split; [done|]. by split. }
  pose proof Hall as [(t & Ht & [lp He] & Hr) Hrest]%Forall_cons. apply NoDup_cons in Hnd as [Hni Hnd].
  unfold unlink, urpc_list_is_in_list. rewrite Ht. cbn [mbind option_bind]. rewrite bool_decide_true by eauto.
  destruct (wi_link _ _ Hinv _ _ _ Ht He) as [_ Hpos].
  destruct (remove_spec _ s id t lp Hinv Ht He) as (s1 & -> & I1 & C1 & T1 & _ & F1 & _). cbn [mbind option_bind].
  pose proof C1 as (_ & _ & Ek & _).
  destruct (schedule_spec ids s1 id (set_entry None t)) as (s2 & lp2 & -> & I2 & C2 & _ & F2 & _ & T2 & _);
    [done|rewrite T1; apply lookup_insert_eq|done|done|by rewrite Ek|]. cbn [mbind option_bind].
  pose proof C2 as (_ & _ & Ek2 & _).
  assert (forall i, i <> id -> timers s2 !! i = timers s !! i) as Hoth.
  { intros i Hne. by rewrite T2, T1, !lookup_insert_ne by done. }
  destruct (IH s2) as (s3 & -> & K3 & C3); [done..| |].
  { apply Forall_forall. intros i Hi. eapply Forall_forall in Hrest as (t' & E1 & E2 & E3); [|done].
    exists t'. rewrite Hoth by (intros ->; done). split; [done|]. split; [done|]. by rewrite Ek2, Ek. }
  exists s3. split; [done|]. split; [|by etrans; [|etrans]].
  destruct K3 as [I3 D3 F3 T3]. split; [done|..].
  - intros i. rewrite D3, T2, T1, insert_insert_eq. by eapply dom_insert.
  - by rewrite <- F1, <- F2.
  - intros i e HU Htr. apply T3; [done|]. destruct (decide (i = id)) as [->|Hne].
    + destruct Htr as [(t' & E1 & _ & E3)|H']; [left|right; by rewrite F2, F1].
      rewrite Ht in E1. injection E1 as <-. eexists. split; [rewrite T2; apply lookup_insert_eq|]. split; [by eexists|done].
    + revert Htr. apply tracked_same; [by apply Hoth|by rewrite F2, F1].
Qed.

Lemma next_cursor_cases c : 0 <= c < URPC_WHEEL_LEVEL_SIZE ->
  (next_cursor c = c + 1 /\ c + 1 < URPC_WHEEL_LEVEL_SIZE) \/ (next_cursor c = 0 /\ c + 1 = URPC_WHEEL_LEVEL_SIZE).
Proof. unfold next_cursor, URPC_WHEEL_LEVEL_SIZE. intros H. rewrite u64_small by lia. split_ifs; lia. Qed.

(** Placement after the cursors moved, except at the slot level 1 arrives at. *)
Lemma placed_forward s lp e c0 c1 :
  0 <= cursor0 s < URPC_WHEEL_LEVEL_SIZE -> 0 <= cursor1 s < URPC_WHEEL_LEVEL_SIZE ->
  c0 = next_cursor (cursor0 s) -> c1 = (if negb (c0 =? 0) then cursor1 s else next_cursor (cursor1 s)) ->
  placed s lp e -> lp <> (0, cursor0 s) ->
  (c0 <> 0 \/ lp <> (1, c1) -> placed (set_clock c0 c1 (ticks s + 1) s) lp e) /\
  (c0 = 0 /\ lp = (1, c1) -> ticks s + 1 <= e <= ticks s + 1 + 2 * URPC_WHEEL_LEVEL_SIZE - 2).
Proof.
  intros H0 H1 E0 E1 [Hp Hpl] Hne. destruct lp as [l p]. simpl in Hp, Hpl.
  pose proof (next_cursor_cases (cursor0 s) H0) as N0. pose proof (next_cursor_cases (cursor1 s) H1) as N1.
  assert (l = 0 -> p <> cursor0 s) as Hp0 by (intros -> ->; done).
  assert (c0 <> 0 \/ (l, p) <> (1, c1) -> l = 1 -> c0 <> 0 \/ p <> c1) as Hx.
  { intros [?|Hx] ->; [by left|right]. intros ->. done. }
  unfold placed, reach, dist in *. simpl. rewrite <- E0 in N0.
  split.
  - intros Hc. specialize (Hx Hc). split; [done|]. destruct Hpl as [[-> Hpl]|[-> Hpl]]; [left|right]; (split; [done|]).
    + specialize (Hp0 eq_refl). clear Hx Hc Hne E1 N1. unfold URPC_WHEEL_LEVEL_SIZE in *. split_ifs; split_ifs_in Hpl; breflect; lia.
    + specialize (Hx eq_refl). clear Hc Hne Hp0. destruct (Z.eqb_spec c0 0) as [Hz|Hz]; simpl in E1.
      * rewrite <- E1 in N1. unfold URPC_WHEEL_LEVEL_SIZE in *. split_ifs; split_ifs_in Hpl; breflect; lia.
      * rewrite E1. unfold URPC_WHEEL_LEVEL_SIZE in *. destruct N0 as [[-> ?]|[? ?]]; [|lia]. split_ifs; split_ifs_in Hpl; breflect; lia.
  - intros [Hz [= -> ->]]. destruct Hpl as [[? _]|[_ Hpl]]; [done|]. rewrite Hz in E1. simpl in E1. rewrite <- E1 in N1.
    unfold URPC_WHEEL_LEVEL_SIZE in *. clear Hx Hne Hp0. split_ifs; split_ifs_in Hpl; breflect; lia.
Qed.

(** One step forward, once the current slot is empty: time advances by one tick,
    and the timers of a reached level-1 slot come down to level 0 or go around. *)
Lemma step_forward_spec U s :
  wheel_inv [] s -> ticks s + 1 < 2 ^ 64 -> get_slot s (0, cursor0 s) = [] ->
  exists s', urpc_timing_wheel_step_forward s = Some s' /\ pass_kept U s s' /\
    ticks s' = ticks s + 1 /\ ticks_pending s' = ticks_pending s.
Proof.
  intros Hinv Htk Hemp. pose proof Hinv as [Hc0 Hc1 Hti Hpe Hsl Hlk Hnd Hpl Hrg Hfi].
  unfold urpc_timing_wheel_step_forward. simpl. rewrite u64_small by lia.
  set (c0 := next_cursor (cursor0 s)). set (c1 := if negb (c0 =? 0) then cursor1 s else next_cursor (cursor1 s)).
  set (s1 := set_clock c0 c1 (ticks s + 1) s).
  assert (forall id t lp, timers s !! id = Some t -> entry t = Some lp ->
    (c0 <> 0 \/ lp <> (1, c1) -> placed s1 lp (end_ticks t)) /\
    (c0 = 0 /\ lp = (1, c1) -> ticks s + 1 <= end_ticks t <= ticks s + 1 + 2 * URPC_WHEEL_LEVEL_SIZE - 2)) as Hfw.
  { intros id t lp Ht He. apply placed_forward; try done; [eapply Hpl; [apply not_elem_of_nil|done..]|]. intros ->.
    destruct (Hlk _ _ _ Ht He) as [Hin _]. rewrite Hemp in Hin. by apply not_elem_of_nil in Hin. }
  pose proof (next_cursor_cases (cursor0 s) Hc0) as N0. pose proof (next_cursor_cases (cursor1 s) Hc1) as N1.
  assert (forall X, (forall id t lp, id ∉ X -> timers s !! id = Some t -> entry t = Some lp -> c0 <> 0 \/ lp <> (1, c1)) ->
    wheel_inv X s1) as Hi1.
  { intros X HX. split; try done; simpl.
    - unfold c0. lia.
    - unfold c1. split_ifs; breflect; lia.
    - lia.
    - intros id t lp Hid Ht He. by apply (Hfw _ _ _ Ht He), (HX id t). }
  fold c0. destruct (Z.eqb_spec c0 0) as [Hz|Hz]; simpl negb; cbv iota.
  - assert (c1 = next_cursor (cursor1 s)) as Ec1 by done.
    match goal with |- exists s', urpc_timer_rearrange ?s0 = _ /\ _ => replace s0 with s1 by (unfold s1; by rewrite Ec1) end.
    unfold urpc_timer_rearrange. change (get_slot s1 (1, cursor1 s1)) with (get_slot s (1, c1)).
    destruct (rearrange_list_spec U (get_slot s (1, c1)) s1) as (s2 & -> & [I2 D2 F2 T2] & (_ & _ & Ek & Ep)).
    + apply Hi1. intros id t lp Hid Ht He. right. intros ->. by apply Hid, (Hlk _ _ _ Ht He).
    + done.
    + apply Forall_forall. intros id Hid. destruct (Hsl _ _ Hid) as (t & Ht & He). exists t. split; [done|].
      split; [by eexists|]. destruct (Hfw _ _ _ Ht He) as [_ Hb]. specialize (Hb ltac:(done)).
      simpl. unfold URPC_WHEEL_LEVEL_SIZE in *. lia.
    + by exists s2.
  - assert (c1 = cursor1 s) as Ec1 by done.
    exists s1. split; [unfold s1; by rewrite Ec1|]. split; [|done]. split; [|done..]. apply Hi1. by left.
Qed.

(** ** A pass of the event loop *)

Section process_correct.
Context (callback : Z -> list timer_op) (over_budget : timing_wheel -> bool) (U : Z -> Prop).

Lemma process_loop_spec n : forall count s,
  wheel_inv [] s -> clock_ok s -> callbacks_ok callback U s -> ticks_pending s < Z.of_nat n -> 0 <= count ->
  exists c s', process_loop callback over_budget n count s = Some (c, s') /\ pass_kept U s s' /\ 0 <= c <= count /\
    ticks s' + ticks_pending s' = ticks s + ticks_pending s /\ ticks_pending s' <= ticks_pending s /\
    (c <> 0 -> ticks_pending s' = 0 /\ get_slot s' (0, cursor0 s') = []).
Proof.
  induction n as [|n IH]; intros count s Hinv Hck Hcb Hn Hcount; pose proof (wi_pending _ _ Hinv); [lia|].
  cbn [process_loop]. destruct (Z.ltb_spec 0 count).
  2: { exists count, s. split; [done|]. split; [by split|]. split_and!; try done; lia. }
  unfold urpc_timing_wheel_process_one_slot.
  destruct (process_list_spec callback over_budget U (version s) (get_slot s (0, cursor0 s)) count s)
    as (r & s1 & -> & K1 & C1 & Hr & Hemp); [done..|]. cbn [mbind option_bind].
  pose proof C1 as (Ec & _ & Ek & Ep).
  destruct (Z.eqb_spec r 0) as [->|Hr0]; simpl orb; cbv iota.
  { exists 0, s1. split; [done|]. split; [done|]. split_and!; try done; lia. }
  destruct (Z.eqb_spec (ticks_pending s1) 0) as [Hp0|Hp0].
  { exists r, s1. split; [done|]. split; [done|]. split_and!; try lia. intros _. split; [done|]. rewrite Ec. by apply Hemp. }
  pose proof (pk_inv _ _ _ K1) as I1. pose proof (wi_pending _ _ I1). destruct Hck as [Hck1 Hck2].
  unfold MAX_TICKS in *. rewrite u64_small by lia.
  set (s2 := set_pending _ s1).
  destruct (step_forward_spec U s2) as (s3 & -> & [I3 D3 F3 T3] & Ek3 & Ep3).
  { destruct I1. split; try done. simpl. lia. } { simpl. pose proof (wi_ticks _ _ I1). lia. }
  { change (get_slot s1 (0, cursor0 s1) = []). rewrite Ec. by apply Hemp. }
  cbn [mbind option_bind]. simpl in Ek3, Ep3.
  assert (pass_kept U s1 s3) as K3 by by split.
  assert (pass_kept U s s3) as K13 by by eapply pass_kept_trans.
  destruct (IH r s3) as (c & s4 & E4 & K4 & Hc & Hsum & Hle & Hfin);
    [done|split; unfold MAX_TICKS; lia|eapply callbacks_ok_dom; [apply K13|done]|lia|lia|].
  exists c, s4. split; [done|]. split; [by eapply pass_kept_trans|]. split_and!; try done; lia.
Qed.

(** Once the current slot is empty, every linked timer is in the future. *)
Lemma linked_future s id t :
  wheel_inv [] s -> get_slot s (0, cursor0 s) = [] -> timers s !! id = Some t -> is_Some (entry t) ->
  ticks s < end_ticks t.
Proof.
  intros Hinv Hemp Ht [[l p] He]. pose proof Hinv as [Hc0 Hc1 _ _ _ Hlk _ Hpl _ _].
  destruct (Hpl id t (l, p) (not_elem_of_nil _) Ht He) as [Hp [[E Hd]|[E Hd]]]; simpl in *; subst l.
  - assert (p <> cursor0 s).
    { intros ->. destruct (Hlk _ _ _ Ht He) as [Hin _]. rewrite Hemp in Hin. by apply not_elem_of_nil in Hin. }
    unfold dist, URPC_WHEEL_LEVEL_SIZE in *. split_ifs_in Hd; breflect; lia.
  - unfold reach, dist, URPC_WHEEL_LEVEL_SIZE in *. split_ifs_in Hd; breflect; lia.
Qed.
End process_correct.

(** ** Runs: client calls interleaved with passes of the event loop *)

Inductive wheel_event := EvOp (op : timer_op) | EvProcess.

Section runs.
Context (callback : Z -> list timer_op) (over_budget : timing_wheel -> bool).

Definition wheel_step (ev : wheel_event) (s : timing_wheel) : option timing_wheel :=
  match ev with
  | EvOp op => run_op op s
  | EvProcess => '(_, s) ← urpc_timer_process callback over_budget s; Some s
  end.

Fixpoint wheel_run (evs : list wheel_event) (s : timing_wheel) : option timing_wheel :=
  match evs with [] => Some s | ev :: rest => s ← wheel_step ev s; wheel_run rest s end.

Fixpoint passes (evs : list wheel_event) : Z :=
  match evs with [] => 0 | EvOp _ :: rest => passes rest | EvProcess :: rest => 1 + passes rest end.

Lemma passes_nonneg evs : 0 <= passes evs.
Proof. induction evs as [|[]]; simpl; lia. Qed.

(** The client calls of a run: on existing timers, none of [U]. *)
Definition events_ok (U : Z -> Prop) (evs : list wheel_event) (s : timing_wheel) : Prop :=
  Forall (fun ev => match ev with EvOp op => is_Some (timers s !! op_id op) /\ ~ U (op_id op) | EvProcess => True end) evs.

(** The ticks of [n] more passes stay within the wheel's range. *)
Definition clock_room (n : Z) (s : timing_wheel) : Prop :=
  ticks s + ticks_pending s + n < 2 ^ 62 /\ ticks_pending s + n < MAX_TICKS - 1.

Lemma run_op_kept U s op :
  wheel_inv [] s -> clock_ok s -> is_Some (timers s !! op_id op) -> ~ U (op_id op) ->
  exists s', run_op op s = Some s' /\ pass_kept U s s' /\ same_clock s s'.
Proof.
  intros Hinv Hck [t Ht] HU.
  assert (exists s', run_op op s = Some s' /\ api_effect (op_id op) s s') as (s' & -> & [I C F D O _]).
  { assert (api_effect (op_id op) s s) as Hrefl by (split; try done; by left).
    destruct op as [id ms f a per|id|id]; simpl in *.
    - destruct (start_spec s id t ms f a per Hinv Hck Ht) as [[-> _]|(s' & t' & -> & Heff & _)]; simpl; eauto.
    - destruct (restart_spec s id t Hinv Hck Ht) as [->|(s' & -> & Heff)]; simpl; eauto.
    - destruct (destroy_spec s id t Hinv Ht) as (s' & -> & Heff & _). eauto. }
  exists s'. split; [done|]. split; [|done]. split; [done..|by rewrite F|]. intros i e Hi.
  apply tracked_same; [apply O; by intros ->|by rewrite F].
Qed.

Lemma process_spec U s :
  wheel_inv [] s -> clock_room 1 s -> callbacks_ok callback U s ->
  exists c s', urpc_timer_process callback over_budget s = Some (c, s') /\ pass_kept U s s' /\
    ticks s' + ticks_pending s' = ticks s + ticks_pending s + 1 /\ ticks_pending s' <= ticks_pending s + 1 /\
    (c <> 0 -> ticks_pending s' = 0 /\ get_slot s' (0, cursor0 s') = []).
Proof.
  intros Hinv [Hr1 Hr2] Hcb. pose proof (wi_pending _ _ Hinv). pose proof (wi_ticks _ _ Hinv).
  unfold urpc_timer_process. unfold MAX_TICKS in *. rewrite u64_small by lia.
  set (s1 := set_pending _ s). assert (ticks_pending s1 = ticks_pending s + 1) as Ep by done.
  destruct (process_loop_spec callback over_budget U (S (Z.to_nat (ticks_pending s1))) URPC_TIMER_MAX_JOB s1)
    as (c & s' & -> & [I D F T] & _ & Hsum & Hle & Hc).
  - destruct Hinv. split; try done. rewrite Ep. lia.
  - unfold clock_ok, MAX_TICKS. rewrite Ep. change (ticks s1) with (ticks s). lia.
  - done.
  - rewrite Ep. lia.
  - done.
  - exists c, s'. split; [done|]. split; [by split|]. change (ticks s1) with (ticks s) in *. split_and!; try done; lia.
Qed.

Lemma wheel_run_spec U evs : forall s,
  wheel_inv [] s -> clock_room (passes evs) s -> callbacks_ok callback U s -> events_ok U evs s ->
  exists s', wheel_run evs s = Some s' /\ pass_kept U s s' /\
    ticks s' + ticks_pending s' = ticks s + ticks_pending s + passes evs.
Proof.
  induction evs as [|ev evs IH]; intros s Hinv Hroom Hcb Hev; cbn [wheel_run].
  { exists s. split; [done|]. split; [by split|]. simpl. lia. }
  pose proof Hev as [Hhd Htl]%Forall_cons. pose proof (passes_nonneg evs).
  assert (exists s1, wheel_step ev s = Some s1 /\ pass_kept U s s1 /\ clock_room (passes evs) s1 /\
    ticks s1 + ticks_pending s1 + passes evs = ticks s + ticks_pending s + passes (ev :: evs)) as (s1 & -> & K1 & R1 & E1).
  { destruct Hroom as [Hr1 Hr2]. destruct ev as [op|]; cbn [wheel_step passes] in *.
    - destruct Hhd as [Hid HU]. destruct (run_op_kept U s op) as (s1 & -> & K1 & (_ & _ & Ek & Ep)); [done|split; lia|done..|].
      exists s1. split; [done|]. split; [done|]. unfold clock_room. rewrite Ek, Ep. split; [lia|done].
    - destruct (process_spec U s) as (c & s1 & -> & K1 & Hsum & Hle & _); [done|split; lia|done|].
      exists s1. split; [done|]. split; [done|]. unfold clock_room. split_and!; lia. }
  cbn [mbind option_bind].
  destruct (IH s1) as (s2 & -> & K2 & E2); [apply K1|done|eapply callbacks_ok_dom; [apply K1|done]| |].
  { eapply Forall_impl; [done|]. intros [op|]; [|done]. intros [? ?]. split; [by apply K1|done]. }
  exists s2. split; [done|]. split; [by eapply pass_kept_trans|]. lia.
Qed.

(** A tracked timer whose deadline is past has run. *)
Lemma tracked_past i e s : wheel_inv [] s -> tracked i e s -> e < ticks s -> (i, e, e) ∈ fired s.
Proof.
  intros Hinv [(t & Ht & [[l p] He] & <-)|H] Hlt; [|done]. exfalso.
  pose proof (wi_c0 _ _ Hinv). pose proof (wi_c1 _ _ Hinv).
  destruct (wi_placed _ _ Hinv i t (l, p) (not_elem_of_nil _) Ht He) as [Hp [[_ Hd]|[_ Hd]]]; simpl in *;
    unfold reach, dist, URPC_WHEEL_LEVEL_SIZE in *; split_ifs_in Hd; breflect; lia.
Qed.

(** C8: A started timer runs at its deadline.  After [urpc_timer_start] with a valid
    delay of [ms] milliseconds, take any sequence of client calls and event-loop
    passes, with any callbacks and any exhaustion of the time budget, that leaves
    this timer alone.  The sequence completes, each pass accounts for one tick,
    and once the wheel is past tick [ticks + ticks_pending + ms/2 + 1] the callback has
    run at exactly that tick; before that, or while passes are pending, the timer
    is still linked with that deadline.  No callback of any timer ran at a tick
    other than its deadline. *)
Theorem started_timer_runs_at_deadline s id t ms f a per evs :
  wheel_inv [] s -> clock_room (passes evs) s -> timers s !! id = Some t ->
  magic t = URPC_TIMER_MAGIC_NUM -> f <> 0 -> URPC_TIMER_MIN_DELAY <= ms <= URPC_TIMER_MAX_DELAY ->
  callbacks_ok callback (eq id) s -> events_ok (eq id) evs s ->
  let deadline := ticks s + ticks_pending s + ms / 2 + 1 in
  exists s1 s2, urpc_timer_start id ms f a per s = Some (URPC_SUCCESS, s1) /\ wheel_run evs s1 = Some s2 /\
    ticks s2 + ticks_pending s2 = ticks s + ticks_pending s + passes evs /\
    ((id, deadline, deadline) ∈ fired s2 \/
     ticks s2 <= deadline /\ exists t2, timers s2 !! id = Some t2 /\ is_Some (entry t2) /\ end_ticks t2 = deadline) /\
    Forall (fun x => x.1.2 = x.2) (fired s2).
Proof.
  intros Hinv [Hr1 Hr2] Ht Hm Hf Hms Hcb Hev deadline. pose proof (passes_nonneg evs).
  destruct (start_spec s id t ms f a per Hinv) as [[_ Hno]|(s1 & t1 & -> & [I1 C1 F1 D1 _ _] & Ht1 & He1 & _ & _ & Hend)];
    [split; lia|done|lia|].
  pose proof C1 as (_ & _ & Ek & Ep).
  destruct (wheel_run_spec (eq id) evs s1) as (s2 & E2 & K2 & Hsum).
  - done.
  - unfold clock_room. by rewrite Ek, Ep.
  - by eapply callbacks_ok_dom.
  - eapply Forall_impl; [done|]. intros [op|]; [|done]. intros [? ?]. split; [by apply D1|done].
  - exists s1, s2. split; [done|]. split; [done|]. split; [lia|]. split; [|apply K2].
    assert (tracked id deadline s2) as Htr by (apply K2; [done|]; left; by exists t1).
    destruct (Z.ltb_spec deadline (ticks s2)); [left; apply tracked_past; [apply K2|done..]|].
    destruct Htr; [right|by left]. done.
Qed.

(** C22: One pass of the event loop ([urpc_timer_process]) always completes; unless it
    stopped early (job limit, time budget, or a wheel changed by a callback: result
    0) it has caught up: no tick is pending and every timer still linked has a
    deadline in the future. *)
Theorem urpc_timer_process_catches_up s :
  wheel_inv [] s -> clock_room 1 s -> callbacks_ok callback (fun _ => False) s ->
  exists c s', urpc_timer_process callback over_budget s = Some (c, s') /\ wheel_inv [] s' /\
    ticks s' + ticks_pending s' = ticks s + ticks_pending s + 1 /\
    (c <> 0 -> ticks s' = ticks s + ticks_pending s + 1 /\
       forall id t, timers s' !! id = Some t -> is_Some (entry t) -> ticks s' < end_ticks t).
Proof.
  intros Hinv Hroom Hcb. destruct (process_spec (fun _ => False) s Hinv Hroom Hcb) as (c & s' & E & K & Hsum & _ & Hc).
  exists c, s'. split; [done|]. split; [apply K|]. split; [done|]. intros Hc0. destruct (Hc Hc0) as [Hp Hemp].
  split; [lia|]. intros id t Ht He. eapply linked_future; [apply K|done..].
Qed.
End runs.

(** ** Concrete wheels *)

(** A wheel with the pool of channel 7: the timers 1, 2, 3, two of them created. *)
Definition example_wheel : timing_wheel :=
  let s := (urpc_timer_pool_add (Some 1) 7 3 false timing_wheel_empty).2 in
  match '(_, s) ← urpc_timer_create 7 false s; urpc_timer_create 7 false s with
  | Some (_, s) => s
  | None => s
  end.

Lemma wheel_inv_unlinked s :
  slots s = ∅ -> 0 <= cursor0 s < URPC_WHEEL_LEVEL_SIZE -> 0 <= cursor1 s < URPC_WHEEL_LEVEL_SIZE -> 0 <= ticks s ->
  0 <= ticks_pending s -> fired s = [] -> map_Forall (fun _ t => entry t = None /\ 0 <= t_ticks t <= MAX_TICKS) (timers s) ->
  wheel_inv [] s.
Proof.
  intros Hs H0 H1 Ht Hp Hf Hall.
  assert (forall lp, get_slot s lp = []) as Hg by (intros lp; unfold get_slot; by rewrite Hs, lookup_empty).
  split; try done.
  - intros lp id. rewrite Hg. by intros ?%not_elem_of_nil.
  - intros id t lp E He. destruct (Hall _ _ E) as [? _]. congruence.
  - intros lp. rewrite Hg. constructor.
  - intros id t lp _ E He. destruct (Hall _ _ E) as [? _]. congruence.
  - intros id t E. by apply (Hall _ _ E).
  - by rewrite Hf.
Qed.

Lemma example_wheel_inv : wheel_inv [] example_wheel.
Proof.
  apply wheel_inv_unlinked; try done. apply map_Forall_to_list.
  assert (forallb (fun x => bool_decide (entry x.2 = None) && ((0 <=? t_ticks x.2) && (t_ticks x.2 <=? MAX_TICKS)))
    (map_to_list (timers example_wheel)) = true) as H by (vm_compute; reflexivity).
  apply Forall_forall. intros [id t] Hin. rewrite forallb_forall in H.
  specialize (H (id, t) (proj1 (list_elem_of_In _ _) Hin)). simpl in H. breflect. by apply bool_decide_eq_true in H.
Qed.

(** Timer 2 is periodic and its callback destroys timer 3 and itself. *)
Definition example_callback (id : Z) : list timer_op := if id =? 2 then [OpDestroy 3; OpDestroy 2] else [].

Lemma example_callbacks_ok U : ~ U 3 -> ~ U 2 -> callbacks_ok example_callback U example_wheel.
Proof.
  intros H3 H2 id _. unfold example_callback. destruct (id =? 2); split_and!; repeat constructor; try done; vm_compute; eauto.
Qed.

Lemma started_timer_runs_at_deadline_witness :
  exists s1 s2, urpc_timer_start 1 11 9 0 false example_wheel = Some (URPC_SUCCESS, s1) /\
    wheel_run example_callback (fun _ => false) (EvOp (OpStart 2 10 9 0 true) :: replicate 8 EvProcess) s1 = Some s2 /\
    ticks s2 + ticks_pending s2 = 8 /\
    ((1, 6, 6) ∈ fired s2 \/
     ticks s2 <= 6 /\ exists t2, timers s2 !! 1 = Some t2 /\ is_Some (entry t2) /\ end_ticks t2 = 6) /\
    Forall (fun x => x.1.2 = x.2) (fired s2).
Proof.
  apply (started_timer_runs_at_deadline example_callback (fun _ => false) example_wheel 1
    {| magic := URPC_TIMER_MAGIC_NUM; entry := None; in_pool := false; key := (7, URPC_INVALID_ID_U32);
       func := 0; args := 0; t_ticks := 0; timeout := 0; end_ticks := 0; periodic := false; status := STAT_INITED |}
    11 9 0 false (EvOp (OpStart 2 10 9 0 true) :: replicate 8 EvProcess)).
  - apply example_wheel_inv.
  - split; vm_compute; reflexivity.
  - vm_compute. reflexivity.
  - reflexivity.
  - vm_compute. intros [=].
  - vm_compute. split; intros [=].
  - by apply example_callbacks_ok.
  - repeat constructor; done.
Defined.

Lemma urpc_timer_process_catches_up_witness :
  exists c s', urpc_timer_process example_callback (fun _ => false) example_wheel = Some (c, s') /\ wheel_inv [] s' /\
    ticks s' + ticks_pending s' = 1 /\
    (c <> 0 -> ticks s' = 1 /\ forall id t, timers s' !! id = Some t -> is_Some (entry t) -> ticks s' < end_ticks t).
Proof.
  apply (urpc_timer_process_catches_up example_callback (fun _ => false) example_wheel);
    [apply example_wheel_inv|split; vm_compute; reflexivity|apply example_callbacks_ok; tauto].
Defined.

(** The check that is to tell whether a timer was freed does not: when a one-shot
    timer has run and was returned to its pool, its magic number is still set, so
    [urpc_timer_start] accepts it, and links it while it is free; the next
    [urpc_timer_create] then hands the linked timer to another owner and forgets the
    links of its node, and the slot keeps the node. *)
Theorem freed_timer_passes_magic_check :
  let none := fun _ : Z => [] in
  exists s1 s2 s3 t,
    wheel_run none (fun _ => false) (EvOp (OpStart 1 10 9 0 false) :: replicate 6 EvProcess) example_wheel = Some s1 /\
    fired s1 = [(1, 6, 6)] /\ timers s1 !! 1 = Some t /\ in_pool t = true /\ urpc_check_timer_magic t = true /\
    urpc_timer_start 1 10 9 0 false s1 = Some (URPC_SUCCESS, s2) /\
    urpc_timer_create 7 false s2 = Some (Some 1, s3) /\
    (entry <$> timers s3 !! 1) = Some None /\ get_slot s3 (0, 12) = [1].
Proof.
  cbv zeta. eexists _, _, _, _.
  do 8 (split; [vm_compute; reflexivity|]). vm_compute; reflexivity.
Qed.

(** A callback must not re-arm its own timer.  When the callback of a periodic
    timer calls [urpc_timer_restart] on it, the processing of the slot links the
    node a second time although it is already linked. *)
Theorem rearming_callback_links_twice :
  exists s, urpc_timer_start 1 10 9 0 true example_wheel = Some (URPC_SUCCESS, s) /\
    (exists s', wheel_run (fun _ => [OpRestart 1]) (fun _ => false) (replicate 5 EvProcess) s = Some s') /\
    wheel_run (fun _ => [OpRestart 1]) (fun _ => false) (replicate 6 EvProcess) s = None.
Proof.
  eexists. split; [vm_compute; reflexivity|]. split; [eexists|]; vm_compute; reflexivity.
Qed.
