(* ===== verification/UmsCursor.v ===== *)
(** * UMS cursors (src/usock/ums/kmod/ums/io/ums_cdc.h)

    A cursor is an offset in a ring buffer with a 16-bit wrap counter.  [curs_at]
    is the cursor of an absolute stream position; on it the cursor operations are
    addition, subtraction and comparison of positions, as long as the positions
    are at most a buffer apart.  Cursors travel in network byte order. *)

From S2P Require Import Prelude Memory.

Record cursor := { wrap : Z; count : Z }.

#[export] Instance cursor_eq_dec : EqDecision cursor.
Proof. solve_decision. Defined.

(** [ums_cdc_cursor]: network byte order. *)
Record net_cursor := { net_count : Z; net_wrap : Z }.

(** Byte order of a little-endian host. *)
Definition htons (v : Z) : Z := (v mod 256) * 256 + (v / 256) mod 256.
Definition ntohs (v : Z) : Z := htons v.
Definition htonl (v : Z) : Z :=
  (v mod 256) * 16777216 + ((v / 256) mod 256) * 65536 + ((v / 65536) mod 256) * 256 + (v / 16777216) mod 256.
Definition ntohl (v : Z) : Z := htonl v.

Definition cursor_zero : cursor := {| wrap := 0; count := 0 |}.

Definition ums_curs_add (size : Z) (c : cursor) (value : Z) : cursor :=
  let n := u32 (count c + u32 value) in
  if u32 size <=? n then {| wrap := u16 (wrap c + 1); count := u32 (n - u32 size) |}
  else {| wrap := wrap c; count := n |}.

Definition ums_curs_diff (size : Z) (old new : cursor) : Z :=
  if negb (wrap old =? wrap new) then Z.max 0 (s32 (u32 (u32 (size - count old) + count new)))
  else Z.max 0 (s32 (u32 (count new - count old))).

Definition ums_curs_comp (size : Z) (old new : cursor) : Z :=
  if (wrap new <? wrap old) || ((wrap old =? wrap new) && (count new <? count old)) then - ums_curs_diff size new old
  else ums_curs_diff size old new.

Definition ums_curs_diff_large (size : Z) (old new : cursor) : Z :=
  if wrap old <? wrap new then
    Z.min (s32 (u32 (u32 (size - count old) + count new + u32 ((wrap new - wrap old - 1) * size)))) (s32 size)
  else if wrap new <? wrap old then
    Z.min (s32 (u32 (u32 (size - count old) + count new + u32 ((wrap new + 65535 - wrap old) * size)))) (s32 size)
  else Z.max 0 (s32 (u32 (count new - count old))).

Definition ums_host_cursor_to_cdc (local : cursor) : net_cursor :=
  {| net_count := htonl (count local); net_wrap := htons (wrap local) |}.

(** A cursor that seems to go back is ignored. *)
Definition ums_cdc_cursor_to_host (local : cursor) (peer : net_cursor) : cursor :=
  let temp := {| wrap := ntohs (net_wrap peer); count := ntohl (net_count peer) |} in
  if ((wrap temp <? wrap local) && negb (wrap temp =? 0)) || ((wrap local =? wrap temp) && (count temp <? count local))
  then local else temp.

Definition ums_cdc_before (seq1 seq2 : Z) : bool := s16 (seq1 - seq2) <? 0.

(** ** Positions *)

Definition curs_at (size p : Z) : cursor := {| wrap := u16 (p / size); count := p mod size |}.

(** Buffer sizes: positive C ints. *)
Definition buf_size (size : Z) : Prop := 0 < size < 2 ^ 30.

Lemma s32_small x : - 2 ^ 31 <= x < 2 ^ 31 -> s32 x = x.
Proof. unfold s32. intros H. zmod. Qed.

(** [htonl] of four bytes reverses them. *)
Lemma htonl_bytes a b c d : 0 <= a < 256 -> 0 <= b < 256 -> 0 <= c < 256 -> 0 <= d < 256 ->
  htonl (a + 256 * b + 65536 * c + 16777216 * d) = d + 256 * c + 65536 * b + 16777216 * a.
Proof.
  intros. unfold htonl. set (v := a + 256 * b + 65536 * c + 16777216 * d).
  assert (v mod 256 = a) as -> by (unfold v; zmod).
  assert (v / 256 = b + 256 * c + 65536 * d) as -> by (unfold v; zmod).
  assert (v / 65536 = c + 256 * d) as -> by (unfold v; zmod).
  assert (v / 16777216 = d) as -> by (unfold v; zmod).
  assert ((b + 256 * c + 65536 * d) mod 256 = b) as -> by zmod.
  assert ((c + 256 * d) mod 256 = c) as -> by zmod.
  assert (d mod 256 = d) as -> by zmod. lia.
Qed.

Lemma ntohl_htonl v : in_u32 v -> ntohl (htonl v) = v.
Proof.
  intros Hv. rewrite <- (of_le32_le32 v Hv). unfold of_le32, le32, ntohl.
  rewrite !htonl_bytes by (apply Z.mod_pos_bound; lia). lia.
Qed.

Lemma ntohs_htons v : in_u16 v -> ntohs (htons v) = v.
Proof. unfold ntohs, htons. intros H. zmod. Qed.

(** The quotients and remainders of positions at most [size] apart. *)
Lemma positions size p q : 0 < size -> 0 <= p <= q -> q <= p + size ->
  (q / size = p / size /\ q mod size = p mod size + (q - p) /\ q - p < size) \/
  (q / size = p / size + 1 /\ q mod size = p mod size + (q - p) - size).
Proof.
  intros Hs Hp Hq.
  pose proof (Z.div_mod p size ltac:(lia)) as Ep. pose proof (Z.mod_pos_bound p size ltac:(lia)) as Bp.
  pose proof (Z.div_mod q size ltac:(lia)) as Eq. pose proof (Z.mod_pos_bound q size ltac:(lia)) as Bq.
  assert (p / size <= q / size) by (apply Z.div_le_mono; lia).
  assert (q / size = p / size \/ q / size = p / size + 1 \/ q / size >= p / size + 2) as [E|[E|E]] by lia.
  - left. rewrite E in *. nia.
  - right. rewrite E in *. split; [done|]. nia.
  - exfalso. nia.
Qed.

Lemma curs_at_count size p : 0 < size -> 0 <= count (curs_at size p) < size.
Proof. intros. simpl. apply Z.mod_pos_bound. lia. Qed.

Lemma curs_add_at size p v : buf_size size -> 0 <= p -> 0 <= v <= size ->
  ums_curs_add size (curs_at size p) v = curs_at size (p + v).
Proof.
  unfold buf_size. intros Hs Hp Hv. unfold ums_curs_add, curs_at. simpl.
  pose proof (Z.mod_pos_bound p size ltac:(lia)).
  rewrite (u32_small v), (u32_small size), (u32_small (p mod size + v)) by lia.
  destruct (positions size p (p + v)) as [(E1 & E2 & E3)|(E1 & E2)]; [lia..| |]; rewrite E1, E2.
  - pose proof (Z.mod_pos_bound (p + v) size ltac:(lia)). rewrite (proj2 (Z.leb_gt _ _)) by lia. f_equal. lia.
  - pose proof (Z.mod_pos_bound (p + v) size ltac:(lia)). rewrite (proj2 (Z.leb_le _ _)) by lia. f_equal.
    + unfold u16. by rewrite Zplus_mod_idemp_l.
    + rewrite u32_small by lia. lia.
Qed.

Lemma wrap_succ w : u16 (w + 1) = if u16 w =? 65535 then 0 else u16 w + 1.
Proof. unfold u16. destruct (Z.eqb_spec (w mod 2 ^ 16) 65535); zmod. Qed.

Lemma curs_diff_at size p q : buf_size size -> 0 <= p <= q -> q <= p + size ->
  ums_curs_diff size (curs_at size p) (curs_at size q) = q - p.
Proof.
  unfold buf_size. intros Hs Hp Hq. unfold ums_curs_diff, curs_at. simpl.
  pose proof (Z.mod_pos_bound p size ltac:(lia)). pose proof (Z.mod_pos_bound q size ltac:(lia)).
  destruct (positions size p q) as [(E1 & E2 & E3)|(E1 & E2)]; [lia..| |]; rewrite E1.
  - rewrite Z.eqb_refl. simpl. rewrite u32_small, s32_small by lia. lia.
  - rewrite wrap_succ. pose proof (u16_range (p / size)).
    assert ((u16 (p / size) =? (if u16 (p / size) =? 65535 then 0 else u16 (p / size) + 1)) = false) as ->
      by (split_ifs; breflect; lia).
    simpl. rewrite (u32_small (size - _)), u32_small, s32_small by lia. lia.
Qed.

Lemma cursor_transfer size p q : buf_size size -> 0 <= p <= q -> q <= p + size ->
  ums_cdc_cursor_to_host (curs_at size p) (ums_host_cursor_to_cdc (curs_at size q)) = curs_at size q.
Proof.
  unfold buf_size. intros Hs Hp Hq. unfold ums_cdc_cursor_to_host, ums_host_cursor_to_cdc, curs_at. simpl.
  pose proof (Z.mod_pos_bound p size ltac:(lia)). pose proof (Z.mod_pos_bound q size ltac:(lia)).
  pose proof (u16_range (p / size)). rewrite ntohl_htonl by lia. rewrite ntohs_htons by apply u16_range.
  destruct (positions size p q) as [(E1 & E2 & E3)|(E1 & E2)]; [lia..| |]; rewrite E1.
  - rewrite Z.ltb_irrefl, Z.eqb_refl, (proj2 (Z.ltb_ge _ _)) by lia. done.
  - rewrite wrap_succ.
    destruct (_ || _) eqn:E; [|done]. exfalso. destruct (Z.eqb_spec (u16 (p / size)) 65535); breflect;
      destruct E as [E|E]; breflect; lia.
Qed.

(** Cursors in a buffer of [size] bytes. *)
Definition curs_wf (size : Z) (c : cursor) : Prop := in_u16 (wrap c) /\ 0 <= count c < size.

(** The operations on cursors keep their type: advancing by at most a buffer, and
    receiving a cursor of the peer, whether it is taken or ignored, give a 16-bit wrap
    counter and an offset inside the buffer. *)
Theorem cursor_ops_well_formed size c peer v : buf_size size -> curs_wf size c -> curs_wf size peer -> 0 <= v <= size ->
  curs_wf size (ums_curs_add size c v) /\ curs_wf size (ums_cdc_cursor_to_host c (ums_host_cursor_to_cdc peer)).
Proof.
  unfold buf_size, curs_wf. intros Hs [Hw Hc] [Hw' Hc'] Hv. split.
  - unfold ums_curs_add. rewrite (u32_small v), (u32_small size), (u32_small (_ + _)) by lia.
    destruct (Z.leb_spec size (count c + v)); cbn [wrap count].
    + split; [apply u16_range|]. rewrite u32_small; lia.
    + split; [done|lia].
  - unfold ums_cdc_cursor_to_host, ums_host_cursor_to_cdc. cbn [net_wrap net_count]. rewrite ntohs_htons by done. rewrite ntohl_htonl by lia.
    destruct (_ || _); done.
Qed.

Lemma cursor_ops_well_formed_witness :
  curs_wf 16 (ums_curs_add 16 {| wrap := 65535; count := 9 |} 16) /\
  curs_wf 16 (ums_cdc_cursor_to_host {| wrap := 65535; count := 9 |} (ums_host_cursor_to_cdc {| wrap := 0; count := 3 |})).
Proof.
  apply (cursor_ops_well_formed 16 {| wrap := 65535; count := 9 |} {| wrap := 0; count := 3 |} 16); unfold buf_size, curs_wf; simpl; lia.
Defined.

(** The wrap counter starts again after 65535, which two operations do not follow:
    the comparison takes a cursor one byte ahead across the end of the counter for 31
    bytes behind, and a cursor of the peer with wrap counter 0 is taken also when it is
    older than the local one. *)
Theorem cursor_counter_wrap_mistakes :
  ums_curs_comp 16 (curs_at 16 (65536 * 16 - 1)) (curs_at 16 (65536 * 16)) = -31 /\
  ums_cdc_cursor_to_host (curs_at 16 40) (ums_host_cursor_to_cdc (curs_at 16 3)) = curs_at 16 3.
Proof. split; reflexivity. Qed.
