(* ===== verification/UmsWr.v ===== *)
(** * UMS work requests (src/usock/ums/kmod/ums/dev/ums_wr.c, ums_wr.h)

    A link has a table of send slots: a bitmap of the slots in use and, per slot,
    the identifier of the work request, its completion handler and the handler's
    private data.  Receive credits limit the sends of the peer.

    A wait for a free slot that does not find one times out; one that finds a slot
    later is a call made later.  The theorem: a completion finds exactly the data
    that was stored for its work request, whatever other requests were started,
    given back or completed in between. *)

From S2P Require Import Prelude Memory UmsCursor.

Definition EPIPE : Z := 32.
Definition EBUSY : Z := 16.
Definition ENOLINK : Z := 67.

(** Completion handlers: [ums_cdc_tx_handler], [ums_imm_tx_handler]. *)
Inductive ums_wr_tx_handler := HandlerNone | HandlerCdc | HandlerImm.

(** The private data of the two handlers ([ums_cdc_tx_pend], [ums_imm_tx_pend]); all
    zero when unused.  [pend_conn] says whether the connection pointer is set. *)
Record ums_wr_tx_pend_priv := {
  pend_conn : bool;
  pend_cursor : cursor;
  pend_p_cursor : cursor;
  pend_ctrl_seq : Z
}.

Definition priv_zero : ums_wr_tx_pend_priv :=
  {| pend_conn := false; pend_cursor := cursor_zero; pend_p_cursor := cursor_zero; pend_ctrl_seq := 0 |}.

Record ums_wr_tx_pend := {
  wr_id : Z;
  pend_handler : ums_wr_tx_handler;
  pend_idx : nat;
  priv : ums_wr_tx_pend_priv
}.

Definition pend_zero : ums_wr_tx_pend :=
  {| wr_id := 0; pend_handler := HandlerNone; pend_idx := 0; priv := priv_zero |}.

Record ums_link := {
  sendable : bool;              (* state and jetty of [ums_link_sendable] *)
  terminating : bool;           (* of the link group *)
  credits_enable : bool;
  peer_rq_credits : Z;
  local_rq_credits : Z;
  local_cr_watermark_high : Z;
  credits_update_limit : Z;
  wr_tx_id : Z;
  wr_tx_mask : list bool;
  wr_tx_pends : list ums_wr_tx_pend;
  link_down_sched : bool        (* [ums_link_down_cond_sched] was called *)
}.

Definition set_slots (id : Z) (mask : list bool) (pends : list ums_wr_tx_pend) (l : ums_link) : ums_link :=
  {| sendable := sendable l; terminating := terminating l; credits_enable := credits_enable l;
     peer_rq_credits := peer_rq_credits l; local_rq_credits := local_rq_credits l;
     local_cr_watermark_high := local_cr_watermark_high l; credits_update_limit := credits_update_limit l;
     wr_tx_id := id; wr_tx_mask := mask; wr_tx_pends := pends; link_down_sched := link_down_sched l |}.

Definition set_credits (peer local : Z) (l : ums_link) : ums_link :=
  {| sendable := sendable l; terminating := terminating l; credits_enable := credits_enable l;
     peer_rq_credits := peer; local_rq_credits := local;
     local_cr_watermark_high := local_cr_watermark_high l; credits_update_limit := credits_update_limit l;
     wr_tx_id := wr_tx_id l; wr_tx_mask := wr_tx_mask l; wr_tx_pends := wr_tx_pends l;
     link_down_sched := link_down_sched l |}.

Definition ums_link_down_cond_sched (l : ums_link) : ums_link :=
  {| sendable := sendable l; terminating := terminating l; credits_enable := credits_enable l;
     peer_rq_credits := peer_rq_credits l; local_rq_credits := local_rq_credits l;
     local_cr_watermark_high := local_cr_watermark_high l; credits_update_limit := credits_update_limit l;
     wr_tx_id := wr_tx_id l; wr_tx_mask := wr_tx_mask l; wr_tx_pends := wr_tx_pends l;
     link_down_sched := true |}.

(** ** Credits *)

Definition ums_wr_tx_get_credit (l : ums_link) : bool * ums_link :=
  if negb (credits_enable l) then (true, l)
  else if 0 <? peer_rq_credits l then (true, set_credits (peer_rq_credits l - 1) (local_rq_credits l) l)
  else (false, l).

Definition ums_wr_tx_put_credits (credits : Z) (l : ums_link) : ums_link :=
  if credits_enable l && negb (credits =? 0) then set_credits (s32 (peer_rq_credits l + credits)) (local_rq_credits l) l else l.

Definition ums_wr_rx_get_credits (l : ums_link) : Z * ums_link :=
  if credits_enable l then (local_rq_credits l, set_credits (peer_rq_credits l) 0 l) else (0, l).

Definition ums_wr_rx_put_credits (credits : Z) (l : ums_link) : ums_link :=
  if credits_enable l && negb (credits =? 0) then set_credits (peer_rq_credits l) (s32 (local_rq_credits l + credits)) l else l.

Definition ums_wr_rx_credits_need_announce (l : ums_link) : bool :=
  credits_enable l && (local_cr_watermark_high l <=? local_rq_credits l).

Definition ums_wr_rx_credits_need_announce_frequent (l : ums_link) : bool :=
  credits_enable l && ((credits_update_limit l <=? local_rq_credits l) || (peer_rq_credits l =? 0)).

(** ** Slots *)

Definition ums_wr_tx_get_next_wr_id (l : ums_link) : Z * ums_link :=
  let id := u64 (wr_tx_id l + 2) in (id, set_slots id (wr_tx_mask l) (wr_tx_pends l) l).

(** 0 with the index of a slot that was free, or an error. *)
Definition ums_wr_tx_get_free_slot_index (l : ums_link) : (nat + Z) * ums_link :=
  if negb (sendable l) then (inr (- ENOLINK), l)
  else
    let '(ok, l) := ums_wr_tx_get_credit l in
    if negb ok then (inr (- EBUSY), l)
    else match list_find (fun b : bool => b = false) (wr_tx_mask l) with
         | Some (idx, _) => (inl idx, set_slots (wr_tx_id l) (<[idx := true]> (wr_tx_mask l)) (wr_tx_pends l) l)
         | None => (inr (- EBUSY), ums_wr_tx_put_credits 1 l)
         end.

(** Find a slot; [atomic] is the softirq context, which does not wait. *)
Definition wait_free_slot (atomic : bool) (l : ums_link) : (nat + Z) * ums_link :=
  if atomic || terminating l then ums_wr_tx_get_free_slot_index l
  else if negb (sendable l) then (inr (- EPIPE), l)
  else match ums_wr_tx_get_free_slot_index l with
       | (inl idx, l) => (inl idx, l)
       | (inr rc, l) => (inr (- EPIPE), if rc =? - EBUSY then ums_link_down_cond_sched l else l)
       end.

Definition ums_wr_tx_get_free_slot (atomic : bool) (handler : ums_wr_tx_handler) (l : ums_link) : (nat + Z) * ums_link :=
  match wait_free_slot atomic l with
  | (inr rc, l) => (inr rc, l)
  | (inl idx, l) =>
      let '(id, l) := ums_wr_tx_get_next_wr_id l in
      let p := default pend_zero (wr_tx_pends l !! idx) in
      let p := {| wr_id := id; pend_handler := handler; pend_idx := idx; priv := priv p |} in
      (inl idx, set_slots (wr_tx_id l) (wr_tx_mask l) (<[idx := p]> (wr_tx_pends l)) l)
  end.

(** The caller fills in the private data of its slot. *)
Definition set_priv (idx : nat) (f : ums_wr_tx_pend_priv -> ums_wr_tx_pend_priv) (l : ums_link) : ums_link :=
  set_slots (wr_tx_id l) (wr_tx_mask l)
    (alter (fun p => {| wr_id := wr_id p; pend_handler := pend_handler p; pend_idx := pend_idx p; priv := f (priv p) |})
       idx (wr_tx_pends l)) l.

Definition ums_wr_tx_put_slot (idx : nat) (l : ums_link) : ums_link :=
  match wr_tx_pends l !! idx with
  | None => l
  | Some p =>
      if Nat.leb (length (wr_tx_mask l)) (pend_idx p) then l
      else
        let l := set_slots (wr_tx_id l) (<[pend_idx p := false]> (wr_tx_mask l)) (<[pend_idx p := pend_zero]> (wr_tx_pends l)) l in
        ums_wr_tx_put_credits 1 l
  end.

Definition ums_wr_tx_find_pending_index (l : ums_link) (id : Z) : option nat :=
  fst <$> list_find (fun p => wr_id p = id) (wr_tx_pends l).

(** The completion of a work request: the handler to call and its data. *)
Definition ums_wr_tx_process_cqe (id : Z) (success : bool) (l : ums_link) :
    option (ums_wr_tx_handler * ums_wr_tx_pend_priv) * ums_link :=
  match ums_wr_tx_find_pending_index l id with
  | None => (None, l)
  | Some idx =>
      let p := default pend_zero (wr_tx_pends l !! idx) in
      let used := default false (wr_tx_mask l !! idx) in
      let l := set_slots (wr_tx_id l) (<[idx := false]> (wr_tx_mask l)) (<[idx := pend_zero]> (wr_tx_pends l)) l in
      if negb used then (None, l)
      else (Some (pend_handler p, priv p), if success then l else ums_link_down_cond_sched l)
  end.

(** ** The slot table is a map from work requests to their data *)

Record link_wf (l : ums_link) : Prop := {
  wf_len : length (wr_tx_pends l) = length (wr_tx_mask l);
  wf_id : 0 <= wr_tx_id l;
  wf_free : forall i, wr_tx_mask l !! i = Some false -> wr_tx_pends l !! i = Some pend_zero;
  wf_used : forall i, wr_tx_mask l !! i = Some true ->
    exists p, wr_tx_pends l !! i = Some p /\ 0 < wr_id p <= wr_tx_id l /\ pend_idx p = i;
  wf_distinct : forall i j p q, wr_tx_mask l !! i = Some true -> wr_tx_mask l !! j = Some true ->
    wr_tx_pends l !! i = Some p -> wr_tx_pends l !! j = Some q -> wr_id p = wr_id q -> i = j
}.

(** What a completion of [id] would find. *)
Definition pending (l : ums_link) (id : Z) : option ums_wr_tx_pend :=
  idx ← ums_wr_tx_find_pending_index l id; wr_tx_pends l !! idx.

Lemma pending_Some l id p : link_wf l -> id <> 0 ->
  pending l id = Some p <-> exists i, wr_tx_mask l !! i = Some true /\ wr_tx_pends l !! i = Some p /\ wr_id p = id.
Proof.
  intros [Hlen Hid Hfree Hused Hdist] Hne. unfold pending, ums_wr_tx_find_pending_index. split.
  - destruct (list_find _ _) as [[i q]|] eqn:E; [|done]. simpl. intros Hp.
    apply list_find_Some in E as (E1 & E2 & _). assert (q = p) as -> by congruence. exists i. split; [|done].
    destruct (wr_tx_mask l !! i) as [[]|] eqn:Em; [done| |].
    + apply Hfree in Em. rewrite E1 in Em. injection Em as ->. simpl in E2. lia.
    + apply lookup_ge_None in Em. apply lookup_lt_Some in E1. lia.
  - intros (i & Hm & Hp & Hw).
    destruct (list_find (fun p => wr_id p = id) (wr_tx_pends l)) as [[j q]|] eqn:E.
    + apply list_find_Some in E as (E1 & E2 & _). simpl.
      assert (wr_tx_mask l !! j = Some true) as Hj.
      { destruct (wr_tx_mask l !! j) as [[]|] eqn:Em; [done| |].
        - apply Hfree in Em. rewrite E1 in Em. injection Em as ->. simpl in E2. lia.
        - apply lookup_ge_None in Em. apply lookup_lt_Some in E1. lia. }
      replace j with i in *; [done|]. eapply Hdist; eauto. congruence.
    + exfalso. apply list_find_None in E. rewrite Forall_forall in E.
      apply (E p); [|done]. by eapply list_elem_of_lookup_2.
Qed.

Lemma pending_range l id p : link_wf l -> id <> 0 -> pending l id = Some p -> 0 < id <= wr_tx_id l.
Proof.
  intros Hwf Hne (i & Hm & Hp & <-)%pending_Some; [|done..].
  destruct (wf_used _ Hwf _ Hm) as (p' & E & ? & _). congruence.
Qed.

(** Two links with the same table. *)
Lemma link_wf_same l l' : wr_tx_mask l' = wr_tx_mask l -> wr_tx_pends l' = wr_tx_pends l -> wr_tx_id l' = wr_tx_id l ->
  link_wf l -> link_wf l'.
Proof. intros E1 E2 E3 []. split; rewrite ?E1, ?E2, ?E3; done. Qed.

Lemma pending_same l l' id : wr_tx_pends l' = wr_tx_pends l -> pending l' id = pending l id.
Proof. intros E. unfold pending, ums_wr_tx_find_pending_index. by rewrite E. Qed.

(** Tables that differ in one slot. *)
Lemma table_update l l' (i : nat) (b : bool) (p : ums_wr_tx_pend) n :
  link_wf l -> (i < length (wr_tx_mask l))%nat ->
  wr_tx_mask l' = <[i := b]> (wr_tx_mask l) -> wr_tx_pends l' = <[i := p]> (wr_tx_pends l) ->
  wr_tx_id l' = n -> wr_tx_id l <= n ->
  (if b then 0 < wr_id p <= n /\ pend_idx p = i /\ (forall q, pending l (wr_id p) = Some q -> wr_tx_pends l !! i = Some q)
   else p = pend_zero) ->
  link_wf l' /\
  forall id, id <> 0 -> (if b then id <> wr_id p else True) -> (forall q, wr_tx_mask l !! i = Some true -> wr_tx_pends l !! i = Some q -> id <> wr_id q) ->
    pending l' id = pending l id.
Proof.
  intros Hwf Hi Em Ep En Hn Hb. pose proof Hwf as [Hlen Hid Hfree Hused Hdist].
  assert (link_wf l') as Hwf'.
  { split.
    - rewrite Em, Ep, !length_insert. done.
    - lia.
    - intros j. rewrite Em, Ep. destruct (decide (i = j)) as [<-|Hne].
      + rewrite !list_lookup_insert_eq by lia. intros [= ->]. by rewrite Hb.
      + rewrite !list_lookup_insert_ne by done. apply Hfree.
    - intros j. rewrite Em, Ep, En. destruct (decide (i = j)) as [<-|Hne].
      + rewrite !list_lookup_insert_eq by lia. intros [= ->]. exists p. destruct Hb as (? & ? & _). done.
      + rewrite !list_lookup_insert_ne by done. intros Hj. destruct (Hused _ Hj) as (q & ? & ? & ?). exists q. split_and!; try done; lia.
    - intros j k q r. rewrite Em, Ep.
      assert (forall k r, i <> k -> wr_tx_mask l !! k = Some true -> wr_tx_pends l !! k = Some r -> b = true -> wr_id p <> wr_id r) as Hnew.
      { intros k' r' Hne Hk' Hr' -> Hw. destruct Hb as (Hb1 & _ & Hb3).
        specialize (Hb3 r'). rewrite pending_Some in Hb3; [|done|lia].
        specialize (Hb3 ltac:(eauto)). destruct (wr_tx_mask l !! i) as [[]|] eqn:Emi.
        - apply Hne. by eapply (Hdist i k').
        - apply Hfree in Emi. assert (r' = pend_zero) as -> by congruence. simpl in Hw. lia.
        - apply lookup_ge_None in Emi. lia. }
      destruct (decide (i = j)) as [<-|Hj], (decide (i = k)) as [<-|Hk];
        rewrite ?list_lookup_insert_eq, ?list_lookup_insert_ne by (done || lia); try done.
      + intros [= ->] Hk' [= <-] Hr Hw. by edestruct Hnew.
      + intros Hj' [= ->] Hq [= <-] Hw. by edestruct Hnew.
      + intros. by eapply Hdist. }
  split; [done|]. intros id H0 Hid1 Hid2. apply option_eq. intros q. rewrite !pending_Some by done. rewrite Em, Ep. split.
  - intros (j & H1 & H2 & H3). destruct (decide (i = j)) as [<-|Hne].
    + rewrite list_lookup_insert_eq in H1 by lia. rewrite list_lookup_insert_eq in H2 by lia. injection H1 as ->. injection H2 as <-. done.
    + rewrite list_lookup_insert_ne in H1 by done. rewrite list_lookup_insert_ne in H2 by done. eauto.
  - intros (j & H1 & H2 & H3). destruct (decide (i = j)) as [<-|Hne].
    + by edestruct Hid2.
    + exists j. rewrite !list_lookup_insert_ne by done. done.
Qed.

Lemma get_credit_same l : wr_tx_mask (ums_wr_tx_get_credit l).2 = wr_tx_mask l /\
  wr_tx_pends (ums_wr_tx_get_credit l).2 = wr_tx_pends l /\ wr_tx_id (ums_wr_tx_get_credit l).2 = wr_tx_id l.
Proof. unfold ums_wr_tx_get_credit. split_ifs; done. Qed.

Lemma put_credits_same c l : wr_tx_mask (ums_wr_tx_put_credits c l) = wr_tx_mask l /\
  wr_tx_pends (ums_wr_tx_put_credits c l) = wr_tx_pends l /\ wr_tx_id (ums_wr_tx_put_credits c l) = wr_tx_id l.
Proof. unfold ums_wr_tx_put_credits. split_ifs; done. Qed.

(** Fresh identifiers do not wrap. *)
Definition ids_left (l : ums_link) : Prop := wr_tx_id l < 2 ^ 63.

Lemma get_free_slot_index_spec l : link_wf l ->
  match ums_wr_tx_get_free_slot_index l with
  | (inl i, l') => wr_tx_mask l !! i = Some false /\ wr_tx_mask l' = <[i := true]> (wr_tx_mask l) /\
      wr_tx_pends l' = wr_tx_pends l /\ wr_tx_id l' = wr_tx_id l
  | (inr rc, l') => rc < 0 /\ wr_tx_mask l' = wr_tx_mask l /\ wr_tx_pends l' = wr_tx_pends l /\ wr_tx_id l' = wr_tx_id l
  end.
Proof.
  intros Hwf. unfold ums_wr_tx_get_free_slot_index. destruct (sendable l); simpl negb; cbv iota; [|done].
  pose proof (get_credit_same l) as (E1 & E2 & E3). destruct (ums_wr_tx_get_credit l) as [ok l1]; simpl in *.
  destruct ok; simpl negb; cbv iota; [|done].
  destruct (list_find _ _) as [[i b]|] eqn:Ef.
  - apply list_find_Some in Ef as (Hi & -> & _). rewrite E1 in Hi. simpl. by rewrite E1, E2, E3.
  - pose proof (put_credits_same 1 l1) as (F1 & F2 & F3). by rewrite F1, F2, F3.
Qed.

(** A free slot: the data of other requests is untouched, the new request's is
    zero. *)
Lemma get_free_slot_spec a h l : link_wf l -> ids_left l ->
  match ums_wr_tx_get_free_slot a h l with
  | (inl i, l') => link_wf l' /\ wr_tx_id l' = wr_tx_id l + 2 /\
      wr_tx_mask l' !! i = Some true /\
      wr_tx_pends l' !! i = Some {| wr_id := wr_tx_id l + 2; pend_handler := h; pend_idx := i; priv := priv_zero |} /\
      (forall id, 0 < id <= wr_tx_id l -> pending l' id = pending l id)
  | (inr rc, l') => rc < 0 /\ link_wf l' /\ wr_tx_id l' = wr_tx_id l /\ (forall id, pending l' id = pending l id)
  end.
Proof.
  intros Hwf Hids. unfold ums_wr_tx_get_free_slot.
  assert (match wait_free_slot a l with
    | (inl i, l') => wr_tx_mask l !! i = Some false /\ wr_tx_mask l' = <[i := true]> (wr_tx_mask l) /\
        wr_tx_pends l' = wr_tx_pends l /\ wr_tx_id l' = wr_tx_id l
    | (inr rc, l') => rc < 0 /\ wr_tx_mask l' = wr_tx_mask l /\ wr_tx_pends l' = wr_tx_pends l /\ wr_tx_id l' = wr_tx_id l
    end) as HX.
  { unfold wait_free_slot. pose proof (get_free_slot_index_spec l Hwf) as H. destruct (a || terminating l); [done|].
    destruct (sendable l); simpl negb; cbv iota; [|done].
    destruct (ums_wr_tx_get_free_slot_index l) as [[i|rc] l1]; [done|]. destruct H as (_ & H). destruct (rc =? _); done. }
  destruct (wait_free_slot a l) as [[i|rc] l1].
  - destruct HX as (Hm & E1 & E2 & E3). pose proof Hwf as [Hlen Hid Hfree Hused Hdist].
    unfold ums_wr_tx_get_next_wr_id. unfold ids_left in Hids. rewrite E3, u64_small by lia. simpl.
    rewrite E2, (Hfree _ Hm), E1. simpl. pose proof (lookup_lt_Some _ _ _ Hm) as Hi.
    set (p := {| wr_id := wr_tx_id l + 2; pend_handler := h; pend_idx := i; priv := priv_zero |}).
    match goal with |- link_wf ?l' /\ _ => destruct (table_update l l' i true p (wr_tx_id l + 2)) as [Hwf' Hp]; try done end.
    { lia. }
    { split; [simpl; lia|]. split; [done|]. intros q Hq. apply pending_range in Hq; simpl in *; [lia|done|lia]. }
    split; [done|]. split; [done|]. split; [by rewrite list_lookup_insert_eq|].
    split; [by rewrite list_lookup_insert_eq by lia|]. intros id Hr. apply Hp; simpl; [lia|lia|]. intros q Hq. congruence.
  - destruct HX as (Hrc & E1 & E2 & E3). split; [done|]. split; [by eapply link_wf_same|]. split; [done|].
    intros id. by apply pending_same.
Qed.

Lemma set_priv_spec i f l p : link_wf l -> wr_tx_mask l !! i = Some true -> wr_tx_pends l !! i = Some p ->
  let p' := {| wr_id := wr_id p; pend_handler := pend_handler p; pend_idx := pend_idx p; priv := f (priv p) |} in
  link_wf (set_priv i f l) /\ wr_tx_pends (set_priv i f l) !! i = Some p' /\
  forall id, id <> 0 -> pending (set_priv i f l) id = if decide (id = wr_id p) then Some p' else pending l id.
Proof.
  intros Hwf Hm Hp p'. pose proof (lookup_lt_Some _ _ _ Hm) as Hi. pose proof (wf_len _ Hwf) as Hlen.
  assert (wr_tx_pends (set_priv i f l) = <[i := p']> (wr_tx_pends l)) as Ep.
  { simpl. apply list_eq. intros j. destruct (decide (i = j)) as [<-|Hne].
    - rewrite list_lookup_alter_eq, list_lookup_insert_eq, Hp by lia. done.
    - by rewrite list_lookup_alter_ne, list_lookup_insert_ne. }
  destruct (wf_used _ Hwf _ Hm) as (q & Hq & Hr & Hx). assert (q = p) as -> by congruence.
  destruct (table_update l (set_priv i f l) i true p' (wr_tx_id l)) as [Hwf' Hpend]; try done.
  { simpl. by rewrite list_insert_id. }
  { split; [done|]. split; [done|]. intros q (j & H1 & H2 & H3)%pending_Some; [|done|simpl; lia].
    replace i with j; [done|]. by eapply (wf_distinct _ Hwf). }
  split; [done|]. assert (wr_tx_pends (set_priv i f l) !! i = Some p') as Hi' by (rewrite Ep; apply list_lookup_insert_eq; lia).
  split; [done|]. intros id Hne. destruct (decide (id = wr_id p)) as [->|Hid].
  - apply pending_Some; [done|done|]. exists i. split; [done|]. by split.
  - apply Hpend; [done|done|]. intros q' _ Hq'. by assert (q' = p) as -> by congruence.
Qed.

(** A slot that is given back or completed is free again, and nothing else changes. *)
Lemma release_spec i l l' p : link_wf l -> wr_tx_mask l !! i = Some true -> wr_tx_pends l !! i = Some p ->
  wr_tx_mask l' = <[i := false]> (wr_tx_mask l) -> wr_tx_pends l' = <[i := pend_zero]> (wr_tx_pends l) ->
  wr_tx_id l' = wr_tx_id l ->
  link_wf l' /\ forall id, id <> 0 -> pending l' id = if decide (id = wr_id p) then None else pending l id.
Proof.
  intros Hwf Hm Hp Em Ep En. pose proof (lookup_lt_Some _ _ _ Hm) as Hi.
  destruct (table_update l l' i false pend_zero (wr_tx_id l)) as [Hwf' Hpend]; try done.
  split; [done|]. intros id Hne. destruct (decide (id = wr_id p)) as [->|Hid].
  - destruct (pending l' (wr_id p)) as [q|] eqn:E; [|done]. exfalso.
    apply pending_Some in E as (j & H1 & H2 & H3); [|done..]. rewrite Em in H1. rewrite Ep in H2.
    destruct (decide (i = j)) as [<-|Hne']; [by rewrite list_lookup_insert_eq in H1 by lia|].
    rewrite list_lookup_insert_ne in H1 by done. rewrite list_lookup_insert_ne in H2 by done.
    by apply Hne', (wf_distinct _ Hwf i j p q).
  - apply Hpend; [done|done|]. intros q' _ Hq'. by assert (q' = p) as -> by congruence.
Qed.

Lemma put_slot_spec i l p : link_wf l -> wr_tx_mask l !! i = Some true -> wr_tx_pends l !! i = Some p ->
  link_wf (ums_wr_tx_put_slot i l) /\ wr_tx_id (ums_wr_tx_put_slot i l) = wr_tx_id l /\
  forall id, id <> 0 -> pending (ums_wr_tx_put_slot i l) id = if decide (id = wr_id p) then None else pending l id.
Proof.
  intros Hwf Hm Hp. destruct (wf_used _ Hwf _ Hm) as (q & Hq & _ & Hx). assert (q = p) as -> by congruence.
  pose proof (lookup_lt_Some _ _ _ Hm) as Hi. unfold ums_wr_tx_put_slot. rewrite Hp, Hx, (proj2 (Nat.leb_gt _ _)) by lia.
  set (l1 := set_slots _ _ _ _). pose proof (put_credits_same 1 l1) as (E1 & E2 & E3).
  destruct (release_spec i l (ums_wr_tx_put_credits 1 l1) p) as [H1 H2]; try done.
Qed.

Lemma process_cqe_spec id ok l p : link_wf l -> id <> 0 -> pending l id = Some p ->
  exists l', ums_wr_tx_process_cqe id ok l = (Some (pend_handler p, priv p), l') /\ link_wf l' /\ wr_tx_id l' = wr_tx_id l /\
    forall id', id' <> 0 -> pending l' id' = if decide (id' = id) then None else pending l id'.
Proof.
  intros Hwf Hne Hpe. pose proof Hpe as (i & Hm & Hp & Hw)%pending_Some; [|done..].
  unfold pending in Hpe. unfold ums_wr_tx_process_cqe.
  destruct (ums_wr_tx_find_pending_index l id) as [j|] eqn:Ef; [|done]. simpl in Hpe.
  assert (j = i) as ->.
  { unfold ums_wr_tx_find_pending_index in Ef. destruct (list_find _ _) as [[j' q]|] eqn:El; [|done]. injection Ef as <-.
    apply list_find_Some in El as (E1 & E2 & _). rewrite E1 in Hpe. injection Hpe as ->.
    destruct (wr_tx_mask l !! j') as [[]|] eqn:Em.
    - by apply (wf_distinct _ Hwf j' i p p).
    - apply (wf_free _ Hwf) in Em. rewrite E1 in Em. injection Em as ->. simpl in *. lia.
    - apply lookup_ge_None in Em. apply lookup_lt_Some in E1. rewrite (wf_len _ Hwf) in E1. lia. }
  rewrite Hm, Hp. simpl default. simpl negb. cbv iota. eexists. split; [done|].
  set (l1 := set_slots _ _ _ _).
  destruct (release_spec i l (if ok then l1 else ums_link_down_cond_sched l1) p) as [H1 H2]; [done..|by destruct ok|by destruct ok|by destruct ok|].
  split; [done|]. split; [by destruct ok|]. intros id' Hne'. rewrite H2 by done. by rewrite Hw.
Qed.

Lemma process_cqe_unknown id ok l : pending l id = None -> ums_wr_tx_process_cqe id ok l = (None, l).
Proof.
  unfold pending, ums_wr_tx_process_cqe, ums_wr_tx_find_pending_index.
  destruct (list_find _ _) as [[i q]|] eqn:E; [|done]. apply list_find_Some in E as (E & _). simpl. by rewrite E.
Qed.

(** ** Interleaved requests *)

(** The steps of the owners of other requests than [id], which is in slot [i]: they
    start requests, give back slots that they hold, and see completions. *)
Inductive other_step (i : nat) (id : Z) : ums_link -> ums_link -> Prop :=
| other_start l l' a h j x : ids_left l -> ums_wr_tx_get_free_slot a h l = (inl j, l') ->
    other_step i id l (set_priv j (fun _ => x) l')
| other_start_fails l l' a h rc : ids_left l -> ums_wr_tx_get_free_slot a h l = (inr rc, l') -> other_step i id l l'
| other_put l j : j <> i -> wr_tx_mask l !! j = Some true -> other_step i id l (ums_wr_tx_put_slot j l)
| other_done l id' ok : id' <> id -> id' <> 0 -> other_step i id l (ums_wr_tx_process_cqe id' ok l).2.

Lemma other_step_kept i id p l l' :
  other_step i id l l' -> link_wf l -> 0 < id <= wr_tx_id l -> wr_tx_mask l !! i = Some true -> wr_tx_pends l !! i = Some p -> wr_id p = id ->
  pending l id = Some p -> link_wf l' /\ id <= wr_tx_id l' /\ pending l' id = Some p.
Proof.
  intros Hstep Hwf Hid Hm Hp Hw Hpe. destruct Hstep as [l l' a h j x Hl E|l l' a h rc Hl E|l j Hj Hmj|l id' ok Hid' H0].
  - pose proof (get_free_slot_spec a h l Hwf Hl) as H. rewrite E in H. destruct H as (W1 & N1 & M1 & P1 & Q1).
    destruct (set_priv_spec j (fun _ => x) l' _ W1 M1 P1) as (W2 & _ & Q2). split; [done|]. split; [simpl; lia|].
    rewrite Q2 by lia. simpl. rewrite decide_False by lia. by rewrite Q1 by lia.
  - pose proof (get_free_slot_spec a h l Hwf Hl) as H. rewrite E in H. destruct H as (_ & W1 & N1 & Q1).
    split; [done|]. split; [lia|]. by rewrite Q1.
  - destruct (wf_used _ Hwf _ Hmj) as (q & Hq & Hr & _).
    destruct (put_slot_spec j l q Hwf Hmj Hq) as (W1 & N1 & Q1). split; [done|]. split; [lia|].
    rewrite Q1 by lia. rewrite decide_False; [done|]. intros ->. by apply Hj, (wf_distinct _ Hwf j i q p).
  - destruct (pending l id') as [q|] eqn:E.
    + destruct (process_cqe_spec id' ok l q Hwf H0 E) as (l1 & -> & W1 & N1 & Q1). simpl. split; [done|]. split; [lia|].
      rewrite Q1 by lia. by rewrite decide_False by done.
    + rewrite process_cqe_unknown by done. simpl. split_and!; [done|lia|done].
Qed.

Lemma other_steps_kept i id p l l' :
  rtc (other_step i id) l l' -> link_wf l -> 0 < id <= wr_tx_id l -> pending l id = Some p -> pend_idx p = i ->
  link_wf l' /\ pending l' id = Some p.
Proof.
  intros Hsteps. induction Hsteps as [l|l1 l2 l3 Hstep _ IH]; intros Hwf Hid Hpe Hx; [done|].
  pose proof Hpe as (j & Hm & Hp & Hw)%pending_Some; [|done|lia].
  destruct (wf_used _ Hwf _ Hm) as (q & Hq & _ & Hj). assert (q = p) as -> by congruence. assert (j = i) as -> by congruence.
  destruct (other_step_kept i id p l1 l2) as (W & N & Q); [done..|]. apply IH; [done|lia|done..].
Qed.

(** C21: A completion finds its own request.  After a slot is taken on a link and the
    private data is stored in it, other requests on the link are started, given back
    and completed in any order; then the completion of the request delivers its
    handler and its data, once, and the slot table stays consistent. *)
Theorem completion_finds_its_request l a h i l1 x l2 ok :
  link_wf l -> ids_left l -> ums_wr_tx_get_free_slot a h l = (inl i, l1) ->
  rtc (other_step i (wr_tx_id l1)) (set_priv i (fun _ => x) l1) l2 ->
  exists l3, ums_wr_tx_process_cqe (wr_tx_id l1) ok l2 = (Some (h, x), l3) /\ link_wf l3 /\
    ums_wr_tx_process_cqe (wr_tx_id l1) ok l3 = (None, l3).
Proof.
  intros Hwf Hids E Hsteps. pose proof (wf_id _ Hwf).
  pose proof (get_free_slot_spec a h l Hwf Hids) as H'. rewrite E in H'. destruct H' as (W1 & N1 & M1 & P1 & Q1).
  destruct (set_priv_spec i (fun _ => x) l1 _ W1 M1 P1) as (W2 & P2 & Q2). simpl in Q2.
  assert (wr_tx_id l1 <> 0) as Hne by lia.
  pose proof (Q2 (wr_tx_id l1) Hne) as Hpe. rewrite decide_True in Hpe by lia.
  edestruct (other_steps_kept i (wr_tx_id l1)) as [W3 Hpe3]; [done|done|simpl; lia|done|done|].
  destruct (process_cqe_spec _ ok l2 _ W3 Hne Hpe3) as (l3 & E3 & W4 & N4 & Q4). exists l3. split; [done|]. split; [done|].
  apply process_cqe_unknown. rewrite Q4 by done. by rewrite decide_True.
Qed.

(** A link with two slots, one in use. *)
Definition example_link : ums_link :=
  {| sendable := true; terminating := false; credits_enable := true; peer_rq_credits := 5; local_rq_credits := 0;
     local_cr_watermark_high := 4; credits_update_limit := 2; wr_tx_id := 2; wr_tx_mask := [true; false];
     wr_tx_pends := [{| wr_id := 2; pend_handler := HandlerImm; pend_idx := 0; priv := priv_zero |}; pend_zero];
     link_down_sched := false |}.

Lemma example_link_wf : link_wf example_link.
Proof.
  split; simpl; [done|lia| | |].
  - intros [|[|i]]; simpl; naive_solver.
  - intros [|[|i]]; simpl; [|done|done]. intros _. eexists. split; [done|]. simpl. lia.
  - intros [|[|i]] [|[|j]]; simpl; naive_solver.
Qed.

Lemma completion_finds_its_request_witness :
  exists l3, ums_wr_tx_process_cqe 4 true
      (ums_wr_tx_process_cqe 2 true
        (set_priv 1 (fun _ => {| pend_conn := true; pend_cursor := cursor_zero; pend_p_cursor := cursor_zero; pend_ctrl_seq := 7 |})
          (ums_wr_tx_get_free_slot true HandlerCdc example_link).2)).2
    = (Some (HandlerCdc, {| pend_conn := true; pend_cursor := cursor_zero; pend_p_cursor := cursor_zero; pend_ctrl_seq := 7 |}), l3) /\
    link_wf l3 /\ ums_wr_tx_process_cqe 4 true l3 = (None, l3).
Proof.
  apply (completion_finds_its_request example_link true HandlerCdc 1 (ums_wr_tx_get_free_slot true HandlerCdc example_link).2).
  - apply example_link_wf.
  - reflexivity.
  - reflexivity.
  - apply rtc_once. apply other_done; vm_compute; intros [=].
Defined.
