(* ===== verification/UmsConn.v ===== *)
(** * UMS connections (src/usock/ums/kmod/ums/io: ums_tx.c, ums_rx.c, ums_cdc.c)

    The data path of a UMS socket.  A sender copies user data into its send ring
    ([sndbuf]), writes it with one-sided remote writes into the receive ring of the
    peer ([rmb]), and announces it with the immediate data of the last write; the
    receiver copies data out and acknowledges it with CDC messages that carry its
    consumer cursor.  Urgent data uses a plain write followed by a CDC message.

    An [endpoint] is a connection with its socket and link.  [sq] is the send queue
    of the link: work requests that were posted and not yet executed; [post_results]
    gives the results of the next posts (a post succeeds when it is empty).
    Handlers run under the socket lock and are one step each.  [None] is an access
    outside a buffer.  Buffer sizes are positive C ints below 2^30, so the casts
    between int, u32 and size_t of lengths are identities; cursors keep their
    widths.  Reference counts, wait queues, wake-ups and counters are omitted;
    sockets are non-blocking (a blocking call is a series of non-blocking ones).
    The segment of the peer stays imported ([conn->tseg] is set), and the link carries
    one connection.  Splicing to pipes is not modelled. *)

From S2P Require Import Prelude Memory UmsCursor UmsWr.

Definition EAGAIN : Z := 11.
Definition EFAULT : Z := 14.
Definition EINVAL : Z := 22.
Definition EMSGSIZE : Z := 90.
Definition ECONNABORTED : Z := 103.
Definition ECONNRESET : Z := 104.
Definition ENOTCONN : Z := 107.
Definition INT_MAX : Z := 2147483647.
Definition UMS_CONN_ID_MASK : Z := 4194303.

(** The error of a failed post. *)
Definition POST_ERR : Z := -5.

Inductive ums_urg_state := UMS_URG_VALID | UMS_URG_NOTYET | UMS_URG_READ.

#[export] Instance ums_urg_state_eq_dec : EqDecision ums_urg_state.
Proof. solve_decision. Defined.

Inductive ums_state :=
| UMS_ACTIVE | UMS_INIT | UMS_CLOSED | UMS_LISTEN | UMS_PEERCLOSEWAIT1 | UMS_PEERCLOSEWAIT2 | UMS_APPCLOSEWAIT1
| UMS_APPCLOSEWAIT2 | UMS_APPFINCLOSEWAIT | UMS_PEERFINCLOSEWAIT | UMS_PEERABORTWAIT | UMS_PROCESSABORT.

#[export] Instance ums_state_eq_dec : EqDecision ums_state.
Proof. solve_decision. Defined.

Record ums_cdc_producer_flags := {
  urg_data_present : bool;
  urg_data_pending : bool;
  cons_curs_upd_req : bool;
  write_blocked : bool
}.

Record ums_cdc_conn_state_flags := {
  peer_conn_abort : bool;
  peer_conn_closed : bool;
  peer_done_writing : bool
}.

(** Control information of one direction, in host byte order. *)
Record ums_host_cdc_msg := {
  seqno : Z;
  token : Z;
  prod : cursor;
  cons : cursor;
  prod_flags : ums_cdc_producer_flags;
  conn_state_flags : ums_cdc_conn_state_flags
}.

(** A CDC message, in network byte order. *)
Record ums_cdc_msg := {
  net_seqno : Z;
  net_token : Z;
  net_prod : net_cursor;
  net_cons : net_cursor;
  net_prod_flags : ums_cdc_producer_flags;
  net_conn_state_flags : ums_cdc_conn_state_flags;
  net_credits : Z
}.

(** Work requests: source segments in the send ring, offset in the peer's ring. *)
Inductive ubcore_jfs_wr :=
| WrWrite (id : Z) (src : list (Z * Z)) (dst : Z)
| WrWriteImm (id : Z) (src : list (Z * Z)) (dst : Z) (imm : Z)
| WrSend (id : Z) (msg : ums_cdc_msg).

Record ums_connection := {
  sndbuf : list Z;
  rmb : list Z;
  peer_rmbe_size : Z;
  peer_rmbe_space : Z;
  sndbuf_space : Z;
  bytes_to_rcv : Z;
  rmbe_update_limit : Z;
  local_tx_ctrl : ums_host_cdc_msg;
  local_rx_ctrl : ums_host_cdc_msg;
  local_tx_ctrl_fin : cursor;
  tx_curs_prep : cursor;
  tx_curs_sent : cursor;
  tx_curs_fin : cursor;
  rx_curs_confirmed : cursor;
  tx_cdc_seq : Z;
  tx_cdc_seq_fin : Z;
  conn_pend_tx_wr : Z;
  urg_curs : cursor;
  urg_state : ums_urg_state;
  urg_tx_pend : bool;
  urg_rx_skip_pend : bool;
  urg_rx_byte : Z;
  tx_in_release_sock : bool;
  tx_work : bool;  (* tx_work is scheduled *)
  cdc_tx_work : bool;  (* cdc_tx_work is scheduled *)
  close_work : bool;  (* close_work is queued *)
  killed : bool;
  freed : bool;
  conn_id : Z
}.

Record ums_sock := {
  sk_state : ums_state;
  sk_err : Z;
  send_shutdown : bool;
  rcv_shutdown : bool;
  sock_done : bool;  (* SOCK_DONE *)
  urginline : bool;  (* SOCK_URGINLINE *)
  corked : bool;  (* TCP_NAGLE_CORK of the TCP socket *)
  autocorking_size : Z
}.

Record endpoint := {
  conn : ums_connection;
  sk : ums_sock;
  lnk : ums_link;
  sq : list ubcore_jfs_wr;
  post_results : list bool
}.

Definition set_urg_data_present (v : bool) (f : ums_cdc_producer_flags) : ums_cdc_producer_flags :=
  {| urg_data_present := v; urg_data_pending := urg_data_pending f; cons_curs_upd_req := cons_curs_upd_req f;
     write_blocked := write_blocked f |}.
Definition set_urg_data_pending (v : bool) (f : ums_cdc_producer_flags) : ums_cdc_producer_flags :=
  {| urg_data_present := urg_data_present f; urg_data_pending := v; cons_curs_upd_req := cons_curs_upd_req f;
     write_blocked := write_blocked f |}.
Definition set_cons_curs_upd_req (v : bool) (f : ums_cdc_producer_flags) : ums_cdc_producer_flags :=
  {| urg_data_present := urg_data_present f; urg_data_pending := urg_data_pending f; cons_curs_upd_req := v;
     write_blocked := write_blocked f |}.
Definition set_write_blocked (v : bool) (f : ums_cdc_producer_flags) : ums_cdc_producer_flags :=
  {| urg_data_present := urg_data_present f; urg_data_pending := urg_data_pending f; cons_curs_upd_req :=
     cons_curs_upd_req f; write_blocked := v |}.

Definition set_peer_conn_abort (v : bool) (f : ums_cdc_conn_state_flags) : ums_cdc_conn_state_flags :=
  {| peer_conn_abort := v; peer_conn_closed := peer_conn_closed f; peer_done_writing := peer_done_writing f |}.
Definition set_peer_conn_closed (v : bool) (f : ums_cdc_conn_state_flags) : ums_cdc_conn_state_flags :=
  {| peer_conn_abort := peer_conn_abort f; peer_conn_closed := v; peer_done_writing := peer_done_writing f |}.
Definition set_peer_done_writing (v : bool) (f : ums_cdc_conn_state_flags) : ums_cdc_conn_state_flags :=
  {| peer_conn_abort := peer_conn_abort f; peer_conn_closed := peer_conn_closed f; peer_done_writing := v |}.

Definition set_seqno (v : Z) (m : ums_host_cdc_msg) : ums_host_cdc_msg :=
  {| seqno := v; token := token m; prod := prod m; cons := cons m; prod_flags := prod_flags m; conn_state_flags :=
     conn_state_flags m |}.
Definition set_token (v : Z) (m : ums_host_cdc_msg) : ums_host_cdc_msg :=
  {| seqno := seqno m; token := v; prod := prod m; cons := cons m; prod_flags := prod_flags m; conn_state_flags :=
     conn_state_flags m |}.
Definition set_prod (v : cursor) (m : ums_host_cdc_msg) : ums_host_cdc_msg :=
  {| seqno := seqno m; token := token m; prod := v; cons := cons m; prod_flags := prod_flags m; conn_state_flags
     := conn_state_flags m |}.
Definition set_cons (v : cursor) (m : ums_host_cdc_msg) : ums_host_cdc_msg :=
  {| seqno := seqno m; token := token m; prod := prod m; cons := v; prod_flags := prod_flags m; conn_state_flags
     := conn_state_flags m |}.
Definition set_prod_flags (v : ums_cdc_producer_flags) (m : ums_host_cdc_msg) : ums_host_cdc_msg :=
  {| seqno := seqno m; token := token m; prod := prod m; cons := cons m; prod_flags := v; conn_state_flags :=
     conn_state_flags m |}.
Definition set_conn_state_flags (v : ums_cdc_conn_state_flags) (m : ums_host_cdc_msg) : ums_host_cdc_msg :=
  {| seqno := seqno m; token := token m; prod := prod m; cons := cons m; prod_flags := prod_flags m;
     conn_state_flags := v |}.

Definition set_sndbuf (v : list Z) (c : ums_connection) : ums_connection :=
  {| sndbuf := v; rmb := rmb c; peer_rmbe_size := peer_rmbe_size c; peer_rmbe_space := peer_rmbe_space c;
     sndbuf_space := sndbuf_space c; bytes_to_rcv := bytes_to_rcv c; rmbe_update_limit := rmbe_update_limit c;
     local_tx_ctrl := local_tx_ctrl c; local_rx_ctrl := local_rx_ctrl c; local_tx_ctrl_fin := local_tx_ctrl_fin c;
     tx_curs_prep := tx_curs_prep c; tx_curs_sent := tx_curs_sent c; tx_curs_fin := tx_curs_fin c; rx_curs_confirmed
     := rx_curs_confirmed c; tx_cdc_seq := tx_cdc_seq c; tx_cdc_seq_fin := tx_cdc_seq_fin c; conn_pend_tx_wr :=
     conn_pend_tx_wr c; urg_curs := urg_curs c; urg_state := urg_state c; urg_tx_pend := urg_tx_pend c;
     urg_rx_skip_pend := urg_rx_skip_pend c; urg_rx_byte := urg_rx_byte c; tx_in_release_sock := tx_in_release_sock
     c; tx_work := tx_work c; cdc_tx_work := cdc_tx_work c; close_work := close_work c; killed := killed c; freed :=
     freed c; conn_id := conn_id c |}.
Definition set_rmb (v : list Z) (c : ums_connection) : ums_connection :=
  {| sndbuf := sndbuf c; rmb := v; peer_rmbe_size := peer_rmbe_size c; peer_rmbe_space := peer_rmbe_space c;
     sndbuf_space := sndbuf_space c; bytes_to_rcv := bytes_to_rcv c; rmbe_update_limit := rmbe_update_limit c;
     local_tx_ctrl := local_tx_ctrl c; local_rx_ctrl := local_rx_ctrl c; local_tx_ctrl_fin := local_tx_ctrl_fin c;
     tx_curs_prep := tx_curs_prep c; tx_curs_sent := tx_curs_sent c; tx_curs_fin := tx_curs_fin c; rx_curs_confirmed
     := rx_curs_confirmed c; tx_cdc_seq := tx_cdc_seq c; tx_cdc_seq_fin := tx_cdc_seq_fin c; conn_pend_tx_wr :=
     conn_pend_tx_wr c; urg_curs := urg_curs c; urg_state := urg_state c; urg_tx_pend := urg_tx_pend c;
     urg_rx_skip_pend := urg_rx_skip_pend c; urg_rx_byte := urg_rx_byte c; tx_in_release_sock := tx_in_release_sock
     c; tx_work := tx_work c; cdc_tx_work := cdc_tx_work c; close_work := close_work c; killed := killed c; freed :=
     freed c; conn_id := conn_id c |}.
Definition set_peer_rmbe_size (v : Z) (c : ums_connection) : ums_connection :=
  {| sndbuf := sndbuf c; rmb := rmb c; peer_rmbe_size := v; peer_rmbe_space := peer_rmbe_space c; sndbuf_space :=
     sndbuf_space c; bytes_to_rcv := bytes_to_rcv c; rmbe_update_limit := rmbe_update_limit c; local_tx_ctrl :=
     local_tx_ctrl c; local_rx_ctrl := local_rx_ctrl c; local_tx_ctrl_fin := local_tx_ctrl_fin c; tx_curs_prep :=
     tx_curs_prep c; tx_curs_sent := tx_curs_sent c; tx_curs_fin := tx_curs_fin c; rx_curs_confirmed :=
     rx_curs_confirmed c; tx_cdc_seq := tx_cdc_seq c; tx_cdc_seq_fin := tx_cdc_seq_fin c; conn_pend_tx_wr :=
     conn_pend_tx_wr c; urg_curs := urg_curs c; urg_state := urg_state c; urg_tx_pend := urg_tx_pend c;
     urg_rx_skip_pend := urg_rx_skip_pend c; urg_rx_byte := urg_rx_byte c; tx_in_release_sock := tx_in_release_sock
     c; tx_work := tx_work c; cdc_tx_work := cdc_tx_work c; close_work := close_work c; killed := killed c; freed :=
     freed c; conn_id := conn_id c |}.
Definition set_peer_rmbe_space (v : Z) (c : ums_connection) : ums_connection :=
  {| sndbuf := sndbuf c; rmb := rmb c; peer_rmbe_size := peer_rmbe_size c; peer_rmbe_space := v; sndbuf_space :=
     sndbuf_space c; bytes_to_rcv := bytes_to_rcv c; rmbe_update_limit := rmbe_update_limit c; local_tx_ctrl :=
     local_tx_ctrl c; local_rx_ctrl := local_rx_ctrl c; local_tx_ctrl_fin := local_tx_ctrl_fin c; tx_curs_prep :=
     tx_curs_prep c; tx_curs_sent := tx_curs_sent c; tx_curs_fin := tx_curs_fin c; rx_curs_confirmed :=
     rx_curs_confirmed c; tx_cdc_seq := tx_cdc_seq c; tx_cdc_seq_fin := tx_cdc_seq_fin c; conn_pend_tx_wr :=
     conn_pend_tx_wr c; urg_curs := urg_curs c; urg_state := urg_state c; urg_tx_pend := urg_tx_pend c;
     urg_rx_skip_pend := urg_rx_skip_pend c; urg_rx_byte := urg_rx_byte c; tx_in_release_sock := tx_in_release_sock
     c; tx_work := tx_work c; cdc_tx_work := cdc_tx_work c; close_work := close_work c; killed := killed c; freed :=
     freed c; conn_id := conn_id c |}.
Definition set_sndbuf_space (v : Z) (c : ums_connection) : ums_connection :=
  {| sndbuf := sndbuf c; rmb := rmb c; peer_rmbe_size := peer_rmbe_size c; peer_rmbe_space := peer_rmbe_space c;
     sndbuf_space := v; bytes_to_rcv := bytes_to_rcv c; rmbe_update_limit := rmbe_update_limit c; local_tx_ctrl :=
     local_tx_ctrl c; local_rx_ctrl := local_rx_ctrl c; local_tx_ctrl_fin := local_tx_ctrl_fin c; tx_curs_prep :=
     tx_curs_prep c; tx_curs_sent := tx_curs_sent c; tx_curs_fin := tx_curs_fin c; rx_curs_confirmed :=
     rx_curs_confirmed c; tx_cdc_seq := tx_cdc_seq c; tx_cdc_seq_fin := tx_cdc_seq_fin c; conn_pend_tx_wr :=
     conn_pend_tx_wr c; urg_curs := urg_curs c; urg_state := urg_state c; urg_tx_pend := urg_tx_pend c;
     urg_rx_skip_pend := urg_rx_skip_pend c; urg_rx_byte := urg_rx_byte c; tx_in_release_sock := tx_in_release_sock
     c; tx_work := tx_work c; cdc_tx_work := cdc_tx_work c; close_work := close_work c; killed := killed c; freed :=
     freed c; conn_id := conn_id c |}.
Definition set_bytes_to_rcv (v : Z) (c : ums_connection) : ums_connection :=
  {| sndbuf := sndbuf c; rmb := rmb c; peer_rmbe_size := peer_rmbe_size c; peer_rmbe_space := peer_rmbe_space c;
     sndbuf_space := sndbuf_space c; bytes_to_rcv := v; rmbe_update_limit := rmbe_update_limit c; local_tx_ctrl :=
     local_tx_ctrl c; local_rx_ctrl := local_rx_ctrl c; local_tx_ctrl_fin := local_tx_ctrl_fin c; tx_curs_prep :=
     tx_curs_prep c; tx_curs_sent := tx_curs_sent c; tx_curs_fin := tx_curs_fin c; rx_curs_confirmed :=
     rx_curs_confirmed c; tx_cdc_seq := tx_cdc_seq c; tx_cdc_seq_fin := tx_cdc_seq_fin c; conn_pend_tx_wr :=
     conn_pend_tx_wr c; urg_curs := urg_curs c; urg_state := urg_state c; urg_tx_pend := urg_tx_pend c;
     urg_rx_skip_pend := urg_rx_skip_pend c; urg_rx_byte := urg_rx_byte c; tx_in_release_sock := tx_in_release_sock
     c; tx_work := tx_work c; cdc_tx_work := cdc_tx_work c; close_work := close_work c; killed := killed c; freed :=
     freed c; conn_id := conn_id c |}.
Definition set_rmbe_update_limit (v : Z) (c : ums_connection) : ums_connection :=
  {| sndbuf := sndbuf c; rmb := rmb c; peer_rmbe_size := peer_rmbe_size c; peer_rmbe_space := peer_rmbe_space c;
     sndbuf_space := sndbuf_space c; bytes_to_rcv := bytes_to_rcv c; rmbe_update_limit := v; local_tx_ctrl :=
     local_tx_ctrl c; local_rx_ctrl := local_rx_ctrl c; local_tx_ctrl_fin := local_tx_ctrl_fin c; tx_curs_prep :=
     tx_curs_prep c; tx_curs_sent := tx_curs_sent c; tx_curs_fin := tx_curs_fin c; rx_curs_confirmed :=
     rx_curs_confirmed c; tx_cdc_seq := tx_cdc_seq c; tx_cdc_seq_fin := tx_cdc_seq_fin c; conn_pend_tx_wr :=
     conn_pend_tx_wr c; urg_curs := urg_curs c; urg_state := urg_state c; urg_tx_pend := urg_tx_pend c;
     urg_rx_skip_pend := urg_rx_skip_pend c; urg_rx_byte := urg_rx_byte c; tx_in_release_sock := tx_in_release_sock
     c; tx_work := tx_work c; cdc_tx_work := cdc_tx_work c; close_work := close_work c; killed := killed c; freed :=
     freed c; conn_id := conn_id c |}.
Definition set_local_tx_ctrl (v : ums_host_cdc_msg) (c : ums_connection) : ums_connection :=
  {| sndbuf := sndbuf c; rmb := rmb c; peer_rmbe_size := peer_rmbe_size c; peer_rmbe_space := peer_rmbe_space c;
     sndbuf_space := sndbuf_space c; bytes_to_rcv := bytes_to_rcv c; rmbe_update_limit := rmbe_update_limit c;
     local_tx_ctrl := v; local_rx_ctrl := local_rx_ctrl c; local_tx_ctrl_fin := local_tx_ctrl_fin c; tx_curs_prep :=
     tx_curs_prep c; tx_curs_sent := tx_curs_sent c; tx_curs_fin := tx_curs_fin c; rx_curs_confirmed :=
     rx_curs_confirmed c; tx_cdc_seq := tx_cdc_seq c; tx_cdc_seq_fin := tx_cdc_seq_fin c; conn_pend_tx_wr :=
     conn_pend_tx_wr c; urg_curs := urg_curs c; urg_state := urg_state c; urg_tx_pend := urg_tx_pend c;
     urg_rx_skip_pend := urg_rx_skip_pend c; urg_rx_byte := urg_rx_byte c; tx_in_release_sock := tx_in_release_sock
     c; tx_work := tx_work c; cdc_tx_work := cdc_tx_work c; close_work := close_work c; killed := killed c; freed :=
     freed c; conn_id := conn_id c |}.
Definition set_local_rx_ctrl (v : ums_host_cdc_msg) (c : ums_connection) : ums_connection :=
  {| sndbuf := sndbuf c; rmb := rmb c; peer_rmbe_size := peer_rmbe_size c; peer_rmbe_space := peer_rmbe_space c;
     sndbuf_space := sndbuf_space c; bytes_to_rcv := bytes_to_rcv c; rmbe_update_limit := rmbe_update_limit c;
     local_tx_ctrl := local_tx_ctrl c; local_rx_ctrl := v; local_tx_ctrl_fin := local_tx_ctrl_fin c; tx_curs_prep :=
     tx_curs_prep c; tx_curs_sent := tx_curs_sent c; tx_curs_fin := tx_curs_fin c; rx_curs_confirmed :=
     rx_curs_confirmed c; tx_cdc_seq := tx_cdc_seq c; tx_cdc_seq_fin := tx_cdc_seq_fin c; conn_pend_tx_wr :=
     conn_pend_tx_wr c; urg_curs := urg_curs c; urg_state := urg_state c; urg_tx_pend := urg_tx_pend c;
     urg_rx_skip_pend := urg_rx_skip_pend c; urg_rx_byte := urg_rx_byte c; tx_in_release_sock := tx_in_release_sock
     c; tx_work := tx_work c; cdc_tx_work := cdc_tx_work c; close_work := close_work c; killed := killed c; freed :=
     freed c; conn_id := conn_id c |}.
Definition set_local_tx_ctrl_fin (v : cursor) (c : ums_connection) : ums_connection :=
  {| sndbuf := sndbuf c; rmb := rmb c; peer_rmbe_size := peer_rmbe_size c; peer_rmbe_space := peer_rmbe_space c;
     sndbuf_space := sndbuf_space c; bytes_to_rcv := bytes_to_rcv c; rmbe_update_limit := rmbe_update_limit c;
     local_tx_ctrl := local_tx_ctrl c; local_rx_ctrl := local_rx_ctrl c; local_tx_ctrl_fin := v; tx_curs_prep :=
     tx_curs_prep c; tx_curs_sent := tx_curs_sent c; tx_curs_fin := tx_curs_fin c; rx_curs_confirmed :=
     rx_curs_confirmed c; tx_cdc_seq := tx_cdc_seq c; tx_cdc_seq_fin := tx_cdc_seq_fin c; conn_pend_tx_wr :=
     conn_pend_tx_wr c; urg_curs := urg_curs c; urg_state := urg_state c; urg_tx_pend := urg_tx_pend c;
     urg_rx_skip_pend := urg_rx_skip_pend c; urg_rx_byte := urg_rx_byte c; tx_in_release_sock := tx_in_release_sock
     c; tx_work := tx_work c; cdc_tx_work := cdc_tx_work c; close_work := close_work c; killed := killed c; freed :=
     freed c; conn_id := conn_id c |}.
Definition set_tx_curs_prep (v : cursor) (c : ums_connection) : ums_connection :=
  {| sndbuf := sndbuf c; rmb := rmb c; peer_rmbe_size := peer_rmbe_size c; peer_rmbe_space := peer_rmbe_space c;
     sndbuf_space := sndbuf_space c; bytes_to_rcv := bytes_to_rcv c; rmbe_update_limit := rmbe_update_limit c;
     local_tx_ctrl := local_tx_ctrl c; local_rx_ctrl := local_rx_ctrl c; local_tx_ctrl_fin := local_tx_ctrl_fin c;
     tx_curs_prep := v; tx_curs_sent := tx_curs_sent c; tx_curs_fin := tx_curs_fin c; rx_curs_confirmed :=
     rx_curs_confirmed c; tx_cdc_seq := tx_cdc_seq c; tx_cdc_seq_fin := tx_cdc_seq_fin c; conn_pend_tx_wr :=
     conn_pend_tx_wr c; urg_curs := urg_curs c; urg_state := urg_state c; urg_tx_pend := urg_tx_pend c;
     urg_rx_skip_pend := urg_rx_skip_pend c; urg_rx_byte := urg_rx_byte c; tx_in_release_sock := tx_in_release_sock
     c; tx_work := tx_work c; cdc_tx_work := cdc_tx_work c; close_work := close_work c; killed := killed c; freed :=
     freed c; conn_id := conn_id c |}.
Definition set_tx_curs_sent (v : cursor) (c : ums_connection) : ums_connection :=
  {| sndbuf := sndbuf c; rmb := rmb c; peer_rmbe_size := peer_rmbe_size c; peer_rmbe_space := peer_rmbe_space c;
     sndbuf_space := sndbuf_space c; bytes_to_rcv := bytes_to_rcv c; rmbe_update_limit := rmbe_update_limit c;
     local_tx_ctrl := local_tx_ctrl c; local_rx_ctrl := local_rx_ctrl c; local_tx_ctrl_fin := local_tx_ctrl_fin c;
     tx_curs_prep := tx_curs_prep c; tx_curs_sent := v; tx_curs_fin := tx_curs_fin c; rx_curs_confirmed :=
     rx_curs_confirmed c; tx_cdc_seq := tx_cdc_seq c; tx_cdc_seq_fin := tx_cdc_seq_fin c; conn_pend_tx_wr :=
     conn_pend_tx_wr c; urg_curs := urg_curs c; urg_state := urg_state c; urg_tx_pend := urg_tx_pend c;
     urg_rx_skip_pend := urg_rx_skip_pend c; urg_rx_byte := urg_rx_byte c; tx_in_release_sock := tx_in_release_sock
     c; tx_work := tx_work c; cdc_tx_work := cdc_tx_work c; close_work := close_work c; killed := killed c; freed :=
     freed c; conn_id := conn_id c |}.
Definition set_tx_curs_fin (v : cursor) (c : ums_connection) : ums_connection :=
  {| sndbuf := sndbuf c; rmb := rmb c; peer_rmbe_size := peer_rmbe_size c; peer_rmbe_space := peer_rmbe_space c;
     sndbuf_space := sndbuf_space c; bytes_to_rcv := bytes_to_rcv c; rmbe_update_limit := rmbe_update_limit c;
     local_tx_ctrl := local_tx_ctrl c; local_rx_ctrl := local_rx_ctrl c; local_tx_ctrl_fin := local_tx_ctrl_fin c;
     tx_curs_prep := tx_curs_prep c; tx_curs_sent := tx_curs_sent c; tx_curs_fin := v; rx_curs_confirmed :=
     rx_curs_confirmed c; tx_cdc_seq := tx_cdc_seq c; tx_cdc_seq_fin := tx_cdc_seq_fin c; conn_pend_tx_wr :=
     conn_pend_tx_wr c; urg_curs := urg_curs c; urg_state := urg_state c; urg_tx_pend := urg_tx_pend c;
     urg_rx_skip_pend := urg_rx_skip_pend c; urg_rx_byte := urg_rx_byte c; tx_in_release_sock := tx_in_release_sock
     c; tx_work := tx_work c; cdc_tx_work := cdc_tx_work c; close_work := close_work c; killed := killed c; freed :=
     freed c; conn_id := conn_id c |}.
Definition set_rx_curs_confirmed (v : cursor) (c : ums_connection) : ums_connection :=
  {| sndbuf := sndbuf c; rmb := rmb c; peer_rmbe_size := peer_rmbe_size c; peer_rmbe_space := peer_rmbe_space c;
     sndbuf_space := sndbuf_space c; bytes_to_rcv := bytes_to_rcv c; rmbe_update_limit := rmbe_update_limit c;
     local_tx_ctrl := local_tx_ctrl c; local_rx_ctrl := local_rx_ctrl c; local_tx_ctrl_fin := local_tx_ctrl_fin c;
     tx_curs_prep := tx_curs_prep c; tx_curs_sent := tx_curs_sent c; tx_curs_fin := tx_curs_fin c; rx_curs_confirmed
     := v; tx_cdc_seq := tx_cdc_seq c; tx_cdc_seq_fin := tx_cdc_seq_fin c; conn_pend_tx_wr := conn_pend_tx_wr c;
     urg_curs := urg_curs c; urg_state := urg_state c; urg_tx_pend := urg_tx_pend c; urg_rx_skip_pend :=
     urg_rx_skip_pend c; urg_rx_byte := urg_rx_byte c; tx_in_release_sock := tx_in_release_sock c; tx_work := tx_work
     c; cdc_tx_work := cdc_tx_work c; close_work := close_work c; killed := killed c; freed := freed c; conn_id :=
     conn_id c |}.
Definition set_tx_cdc_seq (v : Z) (c : ums_connection) : ums_connection :=
  {| sndbuf := sndbuf c; rmb := rmb c; peer_rmbe_size := peer_rmbe_size c; peer_rmbe_space := peer_rmbe_space c;
     sndbuf_space := sndbuf_space c; bytes_to_rcv := bytes_to_rcv c; rmbe_update_limit := rmbe_update_limit c;
     local_tx_ctrl := local_tx_ctrl c; local_rx_ctrl := local_rx_ctrl c; local_tx_ctrl_fin := local_tx_ctrl_fin c;
     tx_curs_prep := tx_curs_prep c; tx_curs_sent := tx_curs_sent c; tx_curs_fin := tx_curs_fin c; rx_curs_confirmed
     := rx_curs_confirmed c; tx_cdc_seq := v; tx_cdc_seq_fin := tx_cdc_seq_fin c; conn_pend_tx_wr := conn_pend_tx_wr
     c; urg_curs := urg_curs c; urg_state := urg_state c; urg_tx_pend := urg_tx_pend c; urg_rx_skip_pend :=
     urg_rx_skip_pend c; urg_rx_byte := urg_rx_byte c; tx_in_release_sock := tx_in_release_sock c; tx_work := tx_work
     c; cdc_tx_work := cdc_tx_work c; close_work := close_work c; killed := killed c; freed := freed c; conn_id :=
     conn_id c |}.
Definition set_tx_cdc_seq_fin (v : Z) (c : ums_connection) : ums_connection :=
  {| sndbuf := sndbuf c; rmb := rmb c; peer_rmbe_size := peer_rmbe_size c; peer_rmbe_space := peer_rmbe_space c;
     sndbuf_space := sndbuf_space c; bytes_to_rcv := bytes_to_rcv c; rmbe_update_limit := rmbe_update_limit c;
     local_tx_ctrl := local_tx_ctrl c; local_rx_ctrl := local_rx_ctrl c; local_tx_ctrl_fin := local_tx_ctrl_fin c;
     tx_curs_prep := tx_curs_prep c; tx_curs_sent := tx_curs_sent c; tx_curs_fin := tx_curs_fin c; rx_curs_confirmed
     := rx_curs_confirmed c; tx_cdc_seq := tx_cdc_seq c; tx_cdc_seq_fin := v; conn_pend_tx_wr := conn_pend_tx_wr c;
     urg_curs := urg_curs c; urg_state := urg_state c; urg_tx_pend := urg_tx_pend c; urg_rx_skip_pend :=
     urg_rx_skip_pend c; urg_rx_byte := urg_rx_byte c; tx_in_release_sock := tx_in_release_sock c; tx_work := tx_work
     c; cdc_tx_work := cdc_tx_work c; close_work := close_work c; killed := killed c; freed := freed c; conn_id :=
     conn_id c |}.
Definition set_conn_pend_tx_wr (v : Z) (c : ums_connection) : ums_connection :=
  {| sndbuf := sndbuf c; rmb := rmb c; peer_rmbe_size := peer_rmbe_size c; peer_rmbe_space := peer_rmbe_space c;
     sndbuf_space := sndbuf_space c; bytes_to_rcv := bytes_to_rcv c; rmbe_update_limit := rmbe_update_limit c;
     local_tx_ctrl := local_tx_ctrl c; local_rx_ctrl := local_rx_ctrl c; local_tx_ctrl_fin := local_tx_ctrl_fin c;
     tx_curs_prep := tx_curs_prep c; tx_curs_sent := tx_curs_sent c; tx_curs_fin := tx_curs_fin c; rx_curs_confirmed
     := rx_curs_confirmed c; tx_cdc_seq := tx_cdc_seq c; tx_cdc_seq_fin := tx_cdc_seq_fin c; conn_pend_tx_wr := v;
     urg_curs := urg_curs c; urg_state := urg_state c; urg_tx_pend := urg_tx_pend c; urg_rx_skip_pend :=
     urg_rx_skip_pend c; urg_rx_byte := urg_rx_byte c; tx_in_release_sock := tx_in_release_sock c; tx_work := tx_work
     c; cdc_tx_work := cdc_tx_work c; close_work := close_work c; killed := killed c; freed := freed c; conn_id :=
     conn_id c |}.
Definition set_urg_curs (v : cursor) (c : ums_connection) : ums_connection :=
  {| sndbuf := sndbuf c; rmb := rmb c; peer_rmbe_size := peer_rmbe_size c; peer_rmbe_space := peer_rmbe_space c;
     sndbuf_space := sndbuf_space c; bytes_to_rcv := bytes_to_rcv c; rmbe_update_limit := rmbe_update_limit c;
     local_tx_ctrl := local_tx_ctrl c; local_rx_ctrl := local_rx_ctrl c; local_tx_ctrl_fin := local_tx_ctrl_fin c;
     tx_curs_prep := tx_curs_prep c; tx_curs_sent := tx_curs_sent c; tx_curs_fin := tx_curs_fin c; rx_curs_confirmed
     := rx_curs_confirmed c; tx_cdc_seq := tx_cdc_seq c; tx_cdc_seq_fin := tx_cdc_seq_fin c; conn_pend_tx_wr :=
     conn_pend_tx_wr c; urg_curs := v; urg_state := urg_state c; urg_tx_pend := urg_tx_pend c; urg_rx_skip_pend :=
     urg_rx_skip_pend c; urg_rx_byte := urg_rx_byte c; tx_in_release_sock := tx_in_release_sock c; tx_work := tx_work
     c; cdc_tx_work := cdc_tx_work c; close_work := close_work c; killed := killed c; freed := freed c; conn_id :=
     conn_id c |}.
Definition set_urg_state (v : ums_urg_state) (c : ums_connection) : ums_connection :=
  {| sndbuf := sndbuf c; rmb := rmb c; peer_rmbe_size := peer_rmbe_size c; peer_rmbe_space := peer_rmbe_space c;
     sndbuf_space := sndbuf_space c; bytes_to_rcv := bytes_to_rcv c; rmbe_update_limit := rmbe_update_limit c;
     local_tx_ctrl := local_tx_ctrl c; local_rx_ctrl := local_rx_ctrl c; local_tx_ctrl_fin := local_tx_ctrl_fin c;
     tx_curs_prep := tx_curs_prep c; tx_curs_sent := tx_curs_sent c; tx_curs_fin := tx_curs_fin c; rx_curs_confirmed
     := rx_curs_confirmed c; tx_cdc_seq := tx_cdc_seq c; tx_cdc_seq_fin := tx_cdc_seq_fin c; conn_pend_tx_wr :=
     conn_pend_tx_wr c; urg_curs := urg_curs c; urg_state := v; urg_tx_pend := urg_tx_pend c; urg_rx_skip_pend :=
     urg_rx_skip_pend c; urg_rx_byte := urg_rx_byte c; tx_in_release_sock := tx_in_release_sock c; tx_work := tx_work
     c; cdc_tx_work := cdc_tx_work c; close_work := close_work c; killed := killed c; freed := freed c; conn_id :=
     conn_id c |}.
Definition set_urg_tx_pend (v : bool) (c : ums_connection) : ums_connection :=
  {| sndbuf := sndbuf c; rmb := rmb c; peer_rmbe_size := peer_rmbe_size c; peer_rmbe_space := peer_rmbe_space c;
     sndbuf_space := sndbuf_space c; bytes_to_rcv := bytes_to_rcv c; rmbe_update_limit := rmbe_update_limit c;
     local_tx_ctrl := local_tx_ctrl c; local_rx_ctrl := local_rx_ctrl c; local_tx_ctrl_fin := local_tx_ctrl_fin c;
     tx_curs_prep := tx_curs_prep c; tx_curs_sent := tx_curs_sent c; tx_curs_fin := tx_curs_fin c; rx_curs_confirmed
     := rx_curs_confirmed c; tx_cdc_seq := tx_cdc_seq c; tx_cdc_seq_fin := tx_cdc_seq_fin c; conn_pend_tx_wr :=
     conn_pend_tx_wr c; urg_curs := urg_curs c; urg_state := urg_state c; urg_tx_pend := v; urg_rx_skip_pend :=
     urg_rx_skip_pend c; urg_rx_byte := urg_rx_byte c; tx_in_release_sock := tx_in_release_sock c; tx_work := tx_work
     c; cdc_tx_work := cdc_tx_work c; close_work := close_work c; killed := killed c; freed := freed c; conn_id :=
     conn_id c |}.
Definition set_urg_rx_skip_pend (v : bool) (c : ums_connection) : ums_connection :=
  {| sndbuf := sndbuf c; rmb := rmb c; peer_rmbe_size := peer_rmbe_size c; peer_rmbe_space := peer_rmbe_space c;
     sndbuf_space := sndbuf_space c; bytes_to_rcv := bytes_to_rcv c; rmbe_update_limit := rmbe_update_limit c;
     local_tx_ctrl := local_tx_ctrl c; local_rx_ctrl := local_rx_ctrl c; local_tx_ctrl_fin := local_tx_ctrl_fin c;
     tx_curs_prep := tx_curs_prep c; tx_curs_sent := tx_curs_sent c; tx_curs_fin := tx_curs_fin c; rx_curs_confirmed
     := rx_curs_confirmed c; tx_cdc_seq := tx_cdc_seq c; tx_cdc_seq_fin := tx_cdc_seq_fin c; conn_pend_tx_wr :=
     conn_pend_tx_wr c; urg_curs := urg_curs c; urg_state := urg_state c; urg_tx_pend := urg_tx_pend c;
     urg_rx_skip_pend := v; urg_rx_byte := urg_rx_byte c; tx_in_release_sock := tx_in_release_sock c; tx_work :=
     tx_work c; cdc_tx_work := cdc_tx_work c; close_work := close_work c; killed := killed c; freed := freed c;
     conn_id := conn_id c |}.
Definition set_urg_rx_byte (v : Z) (c : ums_connection) : ums_connection :=
  {| sndbuf := sndbuf c; rmb := rmb c; peer_rmbe_size := peer_rmbe_size c; peer_rmbe_space := peer_rmbe_space c;
     sndbuf_space := sndbuf_space c; bytes_to_rcv := bytes_to_rcv c; rmbe_update_limit := rmbe_update_limit c;
     local_tx_ctrl := local_tx_ctrl c; local_rx_ctrl := local_rx_ctrl c; local_tx_ctrl_fin := local_tx_ctrl_fin c;
     tx_curs_prep := tx_curs_prep c; tx_curs_sent := tx_curs_sent c; tx_curs_fin := tx_curs_fin c; rx_curs_confirmed
     := rx_curs_confirmed c; tx_cdc_seq := tx_cdc_seq c; tx_cdc_seq_fin := tx_cdc_seq_fin c; conn_pend_tx_wr :=
     conn_pend_tx_wr c; urg_curs := urg_curs c; urg_state := urg_state c; urg_tx_pend := urg_tx_pend c;
     urg_rx_skip_pend := urg_rx_skip_pend c; urg_rx_byte := v; tx_in_release_sock := tx_in_release_sock c; tx_work :=
     tx_work c; cdc_tx_work := cdc_tx_work c; close_work := close_work c; killed := killed c; freed := freed c;
     conn_id := conn_id c |}.
Definition set_tx_in_release_sock (v : bool) (c : ums_connection) : ums_connection :=
  {| sndbuf := sndbuf c; rmb := rmb c; peer_rmbe_size := peer_rmbe_size c; peer_rmbe_space := peer_rmbe_space c;
     sndbuf_space := sndbuf_space c; bytes_to_rcv := bytes_to_rcv c; rmbe_update_limit := rmbe_update_limit c;
     local_tx_ctrl := local_tx_ctrl c; local_rx_ctrl := local_rx_ctrl c; local_tx_ctrl_fin := local_tx_ctrl_fin c;
     tx_curs_prep := tx_curs_prep c; tx_curs_sent := tx_curs_sent c; tx_curs_fin := tx_curs_fin c; rx_curs_confirmed
     := rx_curs_confirmed c; tx_cdc_seq := tx_cdc_seq c; tx_cdc_seq_fin := tx_cdc_seq_fin c; conn_pend_tx_wr :=
     conn_pend_tx_wr c; urg_curs := urg_curs c; urg_state := urg_state c; urg_tx_pend := urg_tx_pend c;
     urg_rx_skip_pend := urg_rx_skip_pend c; urg_rx_byte := urg_rx_byte c; tx_in_release_sock := v; tx_work :=
     tx_work c; cdc_tx_work := cdc_tx_work c; close_work := close_work c; killed := killed c; freed := freed c;
     conn_id := conn_id c |}.
Definition set_tx_work (v : bool) (c : ums_connection) : ums_connection :=
  {| sndbuf := sndbuf c; rmb := rmb c; peer_rmbe_size := peer_rmbe_size c; peer_rmbe_space := peer_rmbe_space c;
     sndbuf_space := sndbuf_space c; bytes_to_rcv := bytes_to_rcv c; rmbe_update_limit := rmbe_update_limit c;
     local_tx_ctrl := local_tx_ctrl c; local_rx_ctrl := local_rx_ctrl c; local_tx_ctrl_fin := local_tx_ctrl_fin c;
     tx_curs_prep := tx_curs_prep c; tx_curs_sent := tx_curs_sent c; tx_curs_fin := tx_curs_fin c; rx_curs_confirmed
     := rx_curs_confirmed c; tx_cdc_seq := tx_cdc_seq c; tx_cdc_seq_fin := tx_cdc_seq_fin c; conn_pend_tx_wr :=
     conn_pend_tx_wr c; urg_curs := urg_curs c; urg_state := urg_state c; urg_tx_pend := urg_tx_pend c;
     urg_rx_skip_pend := urg_rx_skip_pend c; urg_rx_byte := urg_rx_byte c; tx_in_release_sock := tx_in_release_sock
     c; tx_work := v; cdc_tx_work := cdc_tx_work c; close_work := close_work c; killed := killed c; freed := freed c;
     conn_id := conn_id c |}.
Definition set_cdc_tx_work (v : bool) (c : ums_connection) : ums_connection :=
  {| sndbuf := sndbuf c; rmb := rmb c; peer_rmbe_size := peer_rmbe_size c; peer_rmbe_space := peer_rmbe_space c;
     sndbuf_space := sndbuf_space c; bytes_to_rcv := bytes_to_rcv c; rmbe_update_limit := rmbe_update_limit c;
     local_tx_ctrl := local_tx_ctrl c; local_rx_ctrl := local_rx_ctrl c; local_tx_ctrl_fin := local_tx_ctrl_fin c;
     tx_curs_prep := tx_curs_prep c; tx_curs_sent := tx_curs_sent c; tx_curs_fin := tx_curs_fin c; rx_curs_confirmed
     := rx_curs_confirmed c; tx_cdc_seq := tx_cdc_seq c; tx_cdc_seq_fin := tx_cdc_seq_fin c; conn_pend_tx_wr :=
     conn_pend_tx_wr c; urg_curs := urg_curs c; urg_state := urg_state c; urg_tx_pend := urg_tx_pend c;
     urg_rx_skip_pend := urg_rx_skip_pend c; urg_rx_byte := urg_rx_byte c; tx_in_release_sock := tx_in_release_sock
     c; tx_work := tx_work c; cdc_tx_work := v; close_work := close_work c; killed := killed c; freed := freed c;
     conn_id := conn_id c |}.
Definition set_close_work (v : bool) (c : ums_connection) : ums_connection :=
  {| sndbuf := sndbuf c; rmb := rmb c; peer_rmbe_size := peer_rmbe_size c; peer_rmbe_space := peer_rmbe_space c;
     sndbuf_space := sndbuf_space c; bytes_to_rcv := bytes_to_rcv c; rmbe_update_limit := rmbe_update_limit c;
     local_tx_ctrl := local_tx_ctrl c; local_rx_ctrl := local_rx_ctrl c; local_tx_ctrl_fin := local_tx_ctrl_fin c;
     tx_curs_prep := tx_curs_prep c; tx_curs_sent := tx_curs_sent c; tx_curs_fin := tx_curs_fin c; rx_curs_confirmed
     := rx_curs_confirmed c; tx_cdc_seq := tx_cdc_seq c; tx_cdc_seq_fin := tx_cdc_seq_fin c; conn_pend_tx_wr :=
     conn_pend_tx_wr c; urg_curs := urg_curs c; urg_state := urg_state c; urg_tx_pend := urg_tx_pend c;
     urg_rx_skip_pend := urg_rx_skip_pend c; urg_rx_byte := urg_rx_byte c; tx_in_release_sock := tx_in_release_sock
     c; tx_work := tx_work c; cdc_tx_work := cdc_tx_work c; close_work := v; killed := killed c; freed := freed c;
     conn_id := conn_id c |}.
Definition set_killed (v : bool) (c : ums_connection) : ums_connection :=
  {| sndbuf := sndbuf c; rmb := rmb c; peer_rmbe_size := peer_rmbe_size c; peer_rmbe_space := peer_rmbe_space c;
     sndbuf_space := sndbuf_space c; bytes_to_rcv := bytes_to_rcv c; rmbe_update_limit := rmbe_update_limit c;
     local_tx_ctrl := local_tx_ctrl c; local_rx_ctrl := local_rx_ctrl c; local_tx_ctrl_fin := local_tx_ctrl_fin c;
     tx_curs_prep := tx_curs_prep c; tx_curs_sent := tx_curs_sent c; tx_curs_fin := tx_curs_fin c; rx_curs_confirmed
     := rx_curs_confirmed c; tx_cdc_seq := tx_cdc_seq c; tx_cdc_seq_fin := tx_cdc_seq_fin c; conn_pend_tx_wr :=
     conn_pend_tx_wr c; urg_curs := urg_curs c; urg_state := urg_state c; urg_tx_pend := urg_tx_pend c;
     urg_rx_skip_pend := urg_rx_skip_pend c; urg_rx_byte := urg_rx_byte c; tx_in_release_sock := tx_in_release_sock
     c; tx_work := tx_work c; cdc_tx_work := cdc_tx_work c; close_work := close_work c; killed := v; freed := freed
     c; conn_id := conn_id c |}.
Definition set_freed (v : bool) (c : ums_connection) : ums_connection :=
  {| sndbuf := sndbuf c; rmb := rmb c; peer_rmbe_size := peer_rmbe_size c; peer_rmbe_space := peer_rmbe_space c;
     sndbuf_space := sndbuf_space c; bytes_to_rcv := bytes_to_rcv c; rmbe_update_limit := rmbe_update_limit c;
     local_tx_ctrl := local_tx_ctrl c; local_rx_ctrl := local_rx_ctrl c; local_tx_ctrl_fin := local_tx_ctrl_fin c;
     tx_curs_prep := tx_curs_prep c; tx_curs_sent := tx_curs_sent c; tx_curs_fin := tx_curs_fin c; rx_curs_confirmed
     := rx_curs_confirmed c; tx_cdc_seq := tx_cdc_seq c; tx_cdc_seq_fin := tx_cdc_seq_fin c; conn_pend_tx_wr :=
     conn_pend_tx_wr c; urg_curs := urg_curs c; urg_state := urg_state c; urg_tx_pend := urg_tx_pend c;
     urg_rx_skip_pend := urg_rx_skip_pend c; urg_rx_byte := urg_rx_byte c; tx_in_release_sock := tx_in_release_sock
     c; tx_work := tx_work c; cdc_tx_work := cdc_tx_work c; close_work := close_work c; killed := killed c; freed :=
     v; conn_id := conn_id c |}.
Definition set_conn_id (v : Z) (c : ums_connection) : ums_connection :=
  {| sndbuf := sndbuf c; rmb := rmb c; peer_rmbe_size := peer_rmbe_size c; peer_rmbe_space := peer_rmbe_space c;
     sndbuf_space := sndbuf_space c; bytes_to_rcv := bytes_to_rcv c; rmbe_update_limit := rmbe_update_limit c;
     local_tx_ctrl := local_tx_ctrl c; local_rx_ctrl := local_rx_ctrl c; local_tx_ctrl_fin := local_tx_ctrl_fin c;
     tx_curs_prep := tx_curs_prep c; tx_curs_sent := tx_curs_sent c; tx_curs_fin := tx_curs_fin c; rx_curs_confirmed
     := rx_curs_confirmed c; tx_cdc_seq := tx_cdc_seq c; tx_cdc_seq_fin := tx_cdc_seq_fin c; conn_pend_tx_wr :=
     conn_pend_tx_wr c; urg_curs := urg_curs c; urg_state := urg_state c; urg_tx_pend := urg_tx_pend c;
     urg_rx_skip_pend := urg_rx_skip_pend c; urg_rx_byte := urg_rx_byte c; tx_in_release_sock := tx_in_release_sock
     c; tx_work := tx_work c; cdc_tx_work := cdc_tx_work c; close_work := close_work c; killed := killed c; freed :=
     freed c; conn_id := v |}.

Definition set_sk_state (v : ums_state) (k : ums_sock) : ums_sock :=
  {| sk_state := v; sk_err := sk_err k; send_shutdown := send_shutdown k; rcv_shutdown := rcv_shutdown k;
     sock_done := sock_done k; urginline := urginline k; corked := corked k; autocorking_size := autocorking_size k
     |}.
Definition set_sk_err (v : Z) (k : ums_sock) : ums_sock :=
  {| sk_state := sk_state k; sk_err := v; send_shutdown := send_shutdown k; rcv_shutdown := rcv_shutdown k;
     sock_done := sock_done k; urginline := urginline k; corked := corked k; autocorking_size := autocorking_size k
     |}.
Definition set_send_shutdown (v : bool) (k : ums_sock) : ums_sock :=
  {| sk_state := sk_state k; sk_err := sk_err k; send_shutdown := v; rcv_shutdown := rcv_shutdown k; sock_done :=
     sock_done k; urginline := urginline k; corked := corked k; autocorking_size := autocorking_size k |}.
Definition set_rcv_shutdown (v : bool) (k : ums_sock) : ums_sock :=
  {| sk_state := sk_state k; sk_err := sk_err k; send_shutdown := send_shutdown k; rcv_shutdown := v; sock_done :=
     sock_done k; urginline := urginline k; corked := corked k; autocorking_size := autocorking_size k |}.
Definition set_sock_done (v : bool) (k : ums_sock) : ums_sock :=
  {| sk_state := sk_state k; sk_err := sk_err k; send_shutdown := send_shutdown k; rcv_shutdown := rcv_shutdown k;
     sock_done := v; urginline := urginline k; corked := corked k; autocorking_size := autocorking_size k |}.
Definition set_urginline (v : bool) (k : ums_sock) : ums_sock :=
  {| sk_state := sk_state k; sk_err := sk_err k; send_shutdown := send_shutdown k; rcv_shutdown := rcv_shutdown k;
     sock_done := sock_done k; urginline := v; corked := corked k; autocorking_size := autocorking_size k |}.
Definition set_corked (v : bool) (k : ums_sock) : ums_sock :=
  {| sk_state := sk_state k; sk_err := sk_err k; send_shutdown := send_shutdown k; rcv_shutdown := rcv_shutdown k;
     sock_done := sock_done k; urginline := urginline k; corked := v; autocorking_size := autocorking_size k |}.
Definition set_autocorking_size (v : Z) (k : ums_sock) : ums_sock :=
  {| sk_state := sk_state k; sk_err := sk_err k; send_shutdown := send_shutdown k; rcv_shutdown := rcv_shutdown k;
     sock_done := sock_done k; urginline := urginline k; corked := corked k; autocorking_size := v |}.

Definition set_conn (v : ums_connection) (e : endpoint) : endpoint :=
  {| conn := v; sk := sk e; lnk := lnk e; sq := sq e; post_results := post_results e |}.
Definition set_sk (v : ums_sock) (e : endpoint) : endpoint :=
  {| conn := conn e; sk := v; lnk := lnk e; sq := sq e; post_results := post_results e |}.
Definition set_lnk (v : ums_link) (e : endpoint) : endpoint :=
  {| conn := conn e; sk := sk e; lnk := v; sq := sq e; post_results := post_results e |}.
Definition set_sq (v : list ubcore_jfs_wr) (e : endpoint) : endpoint :=
  {| conn := conn e; sk := sk e; lnk := lnk e; sq := v; post_results := post_results e |}.
Definition set_post_results (v : list bool) (e : endpoint) : endpoint :=
  {| conn := conn e; sk := sk e; lnk := lnk e; sq := sq e; post_results := v |}.

Definition upd_conn (f : ums_connection -> ums_connection) (e : endpoint) : endpoint := set_conn (f (conn e)) e.
Definition upd_sk (f : ums_sock -> ums_sock) (e : endpoint) : endpoint := set_sk (f (sk e)) e.
Definition upd_lnk (f : ums_link -> ums_link) (e : endpoint) : endpoint := set_lnk (f (lnk e)) e.
Definition upd_tx_ctrl (f : ums_host_cdc_msg -> ums_host_cdc_msg) (c : ums_connection) : ums_connection :=
  set_local_tx_ctrl (f (local_tx_ctrl c)) c.
Definition upd_rx_ctrl (f : ums_host_cdc_msg -> ums_host_cdc_msg) (c : ums_connection) : ums_connection :=
  set_local_rx_ctrl (f (local_rx_ctrl c)) c.
Definition upd_pflags (f : ums_cdc_producer_flags -> ums_cdc_producer_flags) (m : ums_host_cdc_msg) : ums_host_cdc_msg :=
  set_prod_flags (f (prod_flags m)) m.

(** ** Posting and immediate data *)

(** [ubcore_post_jetty_send_wr]: whether the request was accepted. *)
Definition ubcore_post (wr : ubcore_jfs_wr) (e : endpoint) : bool * endpoint :=
  match post_results e with
  | [] => (true, set_sq (sq e ++ [wr]) e)
  | true :: rest => (true, set_post_results rest (set_sq (sq e ++ [wr]) e))
  | false :: rest => (false, set_post_results rest e)
  end.

(** [union ums_imm]: credits in bits 0-7, write_blocked in bit 8, skip_flag in bit 9,
    token in bits 10-31. *)
Definition ums_imm_pack (credits : Z) (wb skip : bool) (tok : Z) : Z :=
  credits mod 256 + 256 * Z.b2z wb + 512 * Z.b2z skip + 1024 * (tok mod 4194304).
Definition imm_credits (imm : Z) : Z := imm mod 256.
Definition imm_write_blocked (imm : Z) : bool := Z.testbit imm 8.
Definition imm_skip_flag (imm : Z) : bool := Z.testbit imm 9.
Definition imm_token (imm : Z) : Z := imm / 1024.

Definition ums_cdc_rxed_any_close (c : ums_connection) : bool :=
  peer_conn_abort (conn_state_flags (local_rx_ctrl c)) || peer_conn_closed (conn_state_flags (local_rx_ctrl c)).

Definition ums_cdc_rxed_any_close_or_senddone (c : ums_connection) : bool :=
  ums_cdc_rxed_any_close c || peer_done_writing (conn_state_flags (local_rx_ctrl c)).

Definition ums_tx_prepared_sends (c : ums_connection) : Z :=
  ums_curs_diff (zlen (sndbuf c)) (tx_curs_sent c) (tx_curs_prep c).

(** [ums_wr_rx_get_credits] when credits are to be announced. *)
Definition announce_credits (e : endpoint) : Z * endpoint :=
  if ums_wr_rx_credits_need_announce_frequent (lnk e)
  then let '(n, l) := ums_wr_rx_get_credits (lnk e) in (n mod 256, set_lnk l e)
  else (0, e).

Definition ums_get_imm (skip : bool) (e : endpoint) : Z * endpoint :=
  let m := local_tx_ctrl (conn e) in
  let wb := write_blocked (prod_flags m) in
  let tok := Z.land (token m) UMS_CONN_ID_MASK in
  let '(credits, e) := announce_credits e in
  (ums_imm_pack credits wb skip tok, e).

(** ** Sending CDC messages *)

Definition ums_host_msg_to_cdc (m : ums_host_cdc_msg) (credits : Z) : ums_cdc_msg :=
  {| net_seqno := htons (seqno m); net_token := htonl (token m); net_prod := ums_host_cursor_to_cdc (prod m);
     net_cons := ums_host_cursor_to_cdc (cons m); net_prod_flags := prod_flags m;
     net_conn_state_flags := conn_state_flags m; net_credits := credits |}.

Definition ums_cdc_msg_to_host (local : ums_host_cdc_msg) (peer : ums_cdc_msg) : ums_host_cdc_msg :=
  {| seqno := ntohs (net_seqno peer); token := ntohl (net_token peer);
     prod := ums_cdc_cursor_to_host (prod local) (net_prod peer);
     cons := ums_cdc_cursor_to_host (cons local) (net_cons peer);
     prod_flags := net_prod_flags peer; conn_state_flags := net_conn_state_flags peer |}.

(** A free slot for the connection; a killed connection gives it back. *)
Definition ums_get_free_slot (atomic : bool) (h : ums_wr_tx_handler) (e : endpoint) : (nat + Z) * endpoint :=
  match ums_wr_tx_get_free_slot atomic h (lnk e) with
  | (inr rc, l) => (inr rc, set_lnk l e)
  | (inl idx, l) =>
      if killed (conn e) then (inr (- EPIPE), set_lnk (ums_wr_tx_put_slot idx l) e) else (inl idx, set_lnk l e)
  end.

(** The identifier of the request in slot [idx]. *)
Definition slot_wr_id (idx : nat) (l : ums_link) : Z := wr_id (default pend_zero (wr_tx_pends l !! idx)).

Definition ums_cdc_add_pending_send (idx : nat) (e : endpoint) : endpoint :=
  upd_lnk (set_priv idx (fun p => {| pend_conn := true; pend_cursor := pend_cursor p; pend_p_cursor := pend_p_cursor p;
                                     pend_ctrl_seq := tx_cdc_seq (conn e) |})) e.

(** [ums_wr_tx_send] *)
Definition ums_wr_tx_send (idx : nat) (msg : ums_cdc_msg) (e : endpoint) : Z * endpoint :=
  let '(ok, e) := ubcore_post (WrSend (slot_wr_id idx (lnk e)) msg) e in
  if ok then (0, e) else (POST_ERR, upd_lnk (fun l => ums_link_down_cond_sched (ums_wr_tx_put_slot idx l)) e).

Definition ums_cdc_msg_send (idx : nat) (e : endpoint) : Z * endpoint :=
  let e := ums_cdc_add_pending_send idx e in
  let e := upd_conn (fun c => set_tx_cdc_seq (u16 (tx_cdc_seq c + 1)) c) e in
  let e := upd_conn (fun c => upd_tx_ctrl (set_seqno (tx_cdc_seq c)) c) e in
  let m := local_tx_ctrl (conn e) in
  let cfed := cons m in
  let '(saved_credits, e) := announce_credits e in
  let e := upd_conn (fun c => set_conn_pend_tx_wr (conn_pend_tx_wr c + 1) c) e in
  let '(rc, e) := ums_wr_tx_send idx (ums_host_msg_to_cdc m saved_credits) e in
  if rc =? 0 then
    (rc, upd_conn (fun c => upd_rx_ctrl (upd_pflags (set_cons_curs_upd_req false)) (set_rx_curs_confirmed cfed c)) e)
  else
    let e := upd_conn (fun c => set_tx_cdc_seq (u16 (tx_cdc_seq c - 1)) c) e in
    let e := upd_conn (fun c => upd_tx_ctrl (set_seqno (tx_cdc_seq c)) c) e in
    let e := upd_lnk (ums_wr_rx_put_credits saved_credits) e in
    (rc, upd_conn (fun c => set_conn_pend_tx_wr (conn_pend_tx_wr c - 1) c) e).

(** [sock_error]: the error of the socket, which is cleared. *)
Definition sock_error (e : endpoint) : Z * endpoint := (- sk_err (sk e), upd_sk (set_sk_err 0) e).

Definition ums_cdc_handle_get_free_slot_failed (rc : Z) (e : endpoint) : Z * endpoint :=
  if rc =? - EBUSY then
    if sk_err (sk e) =? ECONNABORTED then sock_error e
    else if killed (conn e) then (- EPIPE, e)
    else (0, upd_conn (set_cdc_tx_work true) e)
  else (0, e).

Definition ums_cdc_get_slot_and_msg_send (atomic : bool) (e : endpoint) : Z * endpoint :=
  if freed (conn e) then (- EPIPE, e)
  else if conn_id (conn e) =? 0 then (- EPIPE, e)
  else if negb (sendable (lnk e)) then (- ENOLINK, e)
  else match ums_get_free_slot atomic HandlerCdc e with
       | (inr rc, e) => ums_cdc_handle_get_free_slot_failed rc e
       | (inl idx, e) => ums_cdc_msg_send idx e
       end.

(** The work item [cdc_tx_work] ([ums_tx_cdc_pending]). *)
Definition ums_cdc_tx_work (e : endpoint) : endpoint :=
  let e := upd_conn (set_cdc_tx_work false) e in
  if negb (sk_err (sk e) =? 0) then e
  else
    let '(rc, e) := ums_cdc_get_slot_and_msg_send false e in
    if (rc =? 0) && write_blocked (prod_flags (local_rx_ctrl (conn e))) && (bytes_to_rcv (conn e) =? 0)
    then upd_conn (upd_rx_ctrl (upd_pflags (set_write_blocked false))) e else e.

(** ** Sending data *)

(** The source segments of a transfer of [dst_len] bytes: up to the end of the send
    ring, and the rest from its start. *)
Definition ums_tx_ub_prepare (size src_off src_len dst_len : Z) : list (Z * Z) :=
  let next := src_off + src_len in
  let next := if size <=? next then next - size else next in
  if src_len =? dst_len then [(src_off, src_len)] else [(src_off, src_len); (next, dst_len - src_len)].

Definition ums_tx_advance_cursors (len : Z) (c : ums_connection) : ums_connection :=
  let c := upd_tx_ctrl (set_prod (ums_curs_add (peer_rmbe_size c) (prod (local_tx_ctrl c)) len)) c in
  let c := set_peer_rmbe_space (peer_rmbe_space c - len) c in
  set_tx_curs_sent (ums_curs_add (zlen (sndbuf c)) (tx_curs_sent c) len) c.

Definition ums_update_tx_pi := ums_tx_advance_cursors.

Definition ums_tx_ub_write (src : list (Z * Z)) (dst : Z) (e : endpoint) : Z * endpoint :=
  let '(id, l) := ums_wr_tx_get_next_wr_id (lnk e) in
  let '(ok, e) := ubcore_post (WrWrite id src dst) (set_lnk l e) in
  if ok then (0, e) else (POST_ERR, upd_lnk ums_link_down_cond_sched e).

Definition ums_imm_add_pending_send (idx : nat) (e : endpoint) : endpoint :=
  upd_lnk (set_priv idx (fun p => {| pend_conn := true; pend_cursor := tx_curs_sent (conn e);
                                     pend_p_cursor := prod (local_tx_ctrl (conn e)); pend_ctrl_seq := pend_ctrl_seq p |})) e.

Definition ums_tx_ub_write_imm (idx : nat) (src : list (Z * Z)) (dst len : Z) (skip : bool) (e : endpoint) : Z * endpoint :=
  let '(imm, e) := ums_get_imm skip e in
  let e := upd_conn (ums_update_tx_pi len) e in
  let e := ums_imm_add_pending_send idx e in
  let e := upd_conn (fun c => set_conn_pend_tx_wr (conn_pend_tx_wr c + 1) c) e in
  let '(ok, e) := ubcore_post (WrWriteImm (slot_wr_id idx (lnk e)) src dst imm) e in
  if ok then (0, e)
  else
    let e := upd_lnk ums_link_down_cond_sched e in
    (POST_ERR, upd_conn (fun c => set_conn_pend_tx_wr (conn_pend_tx_wr c - 1) c) e).

(** One or two destination chunks: the last is written with immediate data, or
    plainly when urgent data is pending. *)
Definition ums_tx_ub_writes_inner (idx : nat) (len src_off src_len dst_off dst_len : Z) (e : endpoint) : Z * endpoint :=
  let size := zlen (sndbuf (conn e)) in
  let last src_off src_len dst_off dst_len skip e :=
    let src := ums_tx_ub_prepare size src_off src_len dst_len in
    if urg_tx_pend (conn e) then ums_tx_ub_write src dst_off e
    else ums_tx_ub_write_imm idx src dst_off len skip e in
  if dst_len <? len then
    let '(rc, e) := ums_tx_ub_write (ums_tx_ub_prepare size src_off src_len dst_len) dst_off e in
    if negb (rc =? 0) then (rc, e)
    else
      let remaining := len - dst_len in
      let src_off := src_off + dst_len in
      let src_off := if size <=? src_off then src_off - size else src_off in
      last src_off (Z.min remaining (size - src_off)) 0 remaining true e
  else last src_off src_len dst_off dst_len false e.

Definition ums_tx_ub_writes (idx : nat) (e : endpoint) : Z * endpoint :=
  let c := conn e in
  let size := zlen (sndbuf c) in
  let sent := tx_curs_sent c in
  let to_send := ums_curs_diff size sent (tx_curs_prep c) in
  if to_send <=? 0 then (0, e)
  else
    let rmbe_space := peer_rmbe_space c in
    if rmbe_space <=? 0 then (0, e)
    else
      let prod := prod (local_tx_ctrl c) in
      let cons := cons (local_rx_ctrl c) in
      let e := upd_conn (upd_tx_ctrl (upd_pflags (set_write_blocked (rmbe_space <=? to_send)))) e in
      let len := Z.min to_send rmbe_space in
      let dst_len := if wrap prod =? wrap cons then Z.min (peer_rmbe_size c - count prod) len else len in
      let src_len := if count sent + dst_len <=? size then dst_len else size - count sent in
      let '(rc, e) := ums_tx_ub_writes_inner idx len (count sent) src_len (count prod) dst_len e in
      if negb (rc =? 0) then (rc, e)
      else if urg_tx_pend (conn e) && (dst_len =? to_send) then
        let e := upd_conn (upd_tx_ctrl (upd_pflags (set_urg_data_present true))) e in
        (0, upd_conn (ums_tx_advance_cursors dst_len) e)
      else (0, e).

Definition ums_tx_handle_get_free_slot_err (rc : Z) (e : endpoint) : Z * endpoint :=
  if rc =? - EBUSY then
    if sk_err (sk e) =? ECONNABORTED then sock_error e
    else if killed (conn e) then (- EPIPE, e)
    else (0, upd_conn (set_tx_work true) e)
  else (rc, e).

Definition ums_tx_urgent_sendbuf_noempty (atomic : bool) (e : endpoint) : Z * endpoint :=
  match ums_get_free_slot atomic HandlerCdc e with
  | (inr rc, e) => ums_tx_handle_get_free_slot_err rc e
  | (inl idx, e) =>
      let '(rc, e) :=
        if negb (urg_data_present (prod_flags (local_tx_ctrl (conn e)))) then ums_tx_ub_writes idx e else (0, e) in
      if negb (rc =? 0) then (rc, upd_lnk (ums_wr_tx_put_slot idx) e)
      else
        let '(rc, e) := ums_cdc_msg_send idx e in
        if (rc =? 0) && urg_data_present (prod_flags (local_tx_ctrl (conn e))) then
          (rc, upd_conn (upd_tx_ctrl (upd_pflags (fun f => set_urg_data_present false (set_urg_data_pending false f)))) e)
        else (rc, e)
  end.

Definition ums_tx_sndbuf_nonempty_handler (atomic : bool) (e : endpoint) : Z * endpoint :=
  if negb (sendable (lnk e)) then (- ENOLINK, e)
  else if urg_tx_pend (conn e) then ums_tx_urgent_sendbuf_noempty atomic e
  else match ums_get_free_slot atomic HandlerImm e with
       | (inr rc, e) => ums_tx_handle_get_free_slot_err rc e
       | (inl idx, e) =>
           let '(rc, e) := ums_tx_ub_writes idx e in
           if negb (rc =? 0) then (rc, upd_lnk (ums_wr_tx_put_slot idx) e) else (rc, e)
       end.

Definition ums_tx_sndbuf_nonempty (atomic : bool) (e : endpoint) : Z * endpoint :=
  if ums_tx_prepared_sends (conn e) <=? 0 then (0, e)
  else if peer_rmbe_space (conn e) <=? 0 then (0, e)
  else if killed (conn e) || peer_conn_abort (conn_state_flags (local_rx_ctrl (conn e))) then (- EPIPE, e)
  else ums_tx_sndbuf_nonempty_handler atomic e.

Definition ums_tx_pending (atomic : bool) (e : endpoint) : endpoint :=
  if negb (sk_err (sk e) =? 0) then e
  else if freed (conn e) then e
  else (ums_tx_sndbuf_nonempty atomic e).2.

(** The work item [tx_work]. *)
Definition ums_tx_work (e : endpoint) : endpoint := ums_tx_pending false (upd_conn (set_tx_work false) e).

(** The release callback of the socket. *)
Definition ums_release_cb (e : endpoint) : endpoint :=
  if tx_in_release_sock (conn e) then upd_conn (set_tx_in_release_sock false) (ums_tx_pending false e) else e.

(** ** Completions; [owned] says whether a user context holds the socket *)

(** The last pending request completed: send what has gathered. *)
Definition pend_tx_wr_done (owned : bool) (e : endpoint) : endpoint :=
  let e := upd_conn (fun c => set_conn_pend_tx_wr (conn_pend_tx_wr c - 1) c) e in
  if conn_pend_tx_wr (conn e) =? 0 then
    if owned then upd_conn (set_tx_in_release_sock true) e else ums_tx_pending true e
  else e.

(** The send ring up to the cursor of the request is free again. *)
Definition confirm_sent (p : ums_wr_tx_pend_priv) (c : ums_connection) : ums_connection :=
  let diff := ums_curs_diff (zlen (sndbuf c)) (tx_curs_fin c) (pend_cursor p) in
  set_local_tx_ctrl_fin (pend_p_cursor p) (set_tx_curs_fin (pend_cursor p) (set_sndbuf_space (sndbuf_space c + diff) c)).

Definition ums_cdc_tx_handler (owned success : bool) (p : ums_wr_tx_pend_priv) (e : endpoint) : endpoint :=
  let e := if success then upd_conn (set_tx_cdc_seq_fin (pend_ctrl_seq p)) e else e in
  let e := if urg_tx_pend (conn e) then upd_conn (confirm_sent p) e else e in
  pend_tx_wr_done owned e.

Definition ums_imm_tx_handler (owned success : bool) (p : ums_wr_tx_pend_priv) (e : endpoint) : endpoint :=
  if negb (pend_conn p) then e
  else
    let e := if success then upd_conn (confirm_sent p) e else e in
    pend_tx_wr_done owned e.

(** A send completion of the link ([ums_wr_tx_process_cqe] and the handler). *)
Definition tx_completion (owned : bool) (id : Z) (success : bool) (e : endpoint) : endpoint :=
  match ums_wr_tx_process_cqe id success (lnk e) with
  | (None, l) => set_lnk l e
  | (Some (h, p), l) =>
      let e := set_lnk l e in
      match h with
      | HandlerNone => e
      | HandlerCdc => ums_cdc_tx_handler owned success p e
      | HandlerImm => ums_imm_tx_handler owned success p e
      end
  end.

(** ** Arriving messages *)

(** Urgent data arrived: the byte before the producer cursor. *)
Definition ums_cdc_handle_urg_data_arrival (diff_prod : Z) (e : endpoint) : option (Z * endpoint) :=
  let e := upd_conn (fun c => set_urg_state UMS_URG_VALID (set_urg_curs (prod (local_rx_ctrl c)) c)) e in
  let diff_prod := if urginline (sk e) then diff_prod else diff_prod - 1 in
  let c := conn e in
  b ← zget (rmb c) (if negb (count (urg_curs c) =? 0) then count (urg_curs c) - 1 else zlen (rmb c) - 1);
  Some (diff_prod, upd_conn (set_urg_rx_byte b) e).

Definition ums_cdc_msg_recv_check_prod (prod_old : cursor) (e : endpoint) : option endpoint :=
  let c := conn e in
  let f := prod_flags (local_rx_ctrl c) in
  let diff_prod := ums_curs_diff (zlen (rmb c)) prod_old (prod (local_rx_ctrl c)) in
  if negb (diff_prod =? 0) then
    '(diff_prod, e) ← (if urg_data_present f then ums_cdc_handle_urg_data_arrival diff_prod e else Some (diff_prod, e));
    Some (upd_conn (fun c => set_bytes_to_rcv (bytes_to_rcv c + diff_prod) c) e)
  else Some (if urg_data_pending f then upd_conn (set_urg_state UMS_URG_NOTYET) e else e).

Definition ums_cdc_msg_recv_action (owned : bool) (cdc : ums_cdc_msg) (e : endpoint) : option endpoint :=
  let prod_old := prod (local_rx_ctrl (conn e)) in
  let cons_old := cons (local_rx_ctrl (conn e)) in
  let e := upd_conn (upd_rx_ctrl (fun m => ums_cdc_msg_to_host m cdc)) e in
  let diff_cons := ums_curs_diff (peer_rmbe_size (conn e)) cons_old (cons (local_rx_ctrl (conn e))) in
  let e := upd_conn (fun c => set_peer_rmbe_space (peer_rmbe_space c + diff_cons) c) e in
  let f := prod_flags (local_rx_ctrl (conn e)) in
  e ← (if urg_data_present f || urg_data_pending f then ums_cdc_msg_recv_check_prod prod_old e else Some e);
  let e :=
    if (negb (diff_cons =? 0) && negb (ums_tx_prepared_sends (conn e) =? 0) &&
        write_blocked (prod_flags (local_tx_ctrl (conn e)))) || cons_curs_upd_req f || urg_data_pending f
    then if owned then upd_conn (set_tx_in_release_sock true) e else ums_tx_pending true e
    else e in
  let e :=
    if negb (diff_cons =? 0) && urg_tx_pend (conn e) && (peer_rmbe_space (conn e) =? peer_rmbe_size (conn e))
    then upd_conn (set_urg_tx_pend false) e else e in
  let e :=
    if peer_conn_abort (conn_state_flags (local_rx_ctrl (conn e))) then
      upd_conn (upd_tx_ctrl (fun m => set_conn_state_flags (set_peer_conn_abort true (conn_state_flags m)) m))
        (upd_sk (set_sk_err ECONNRESET) e)
    else e in
  Some (if ums_cdc_rxed_any_close_or_senddone (conn e)
        then upd_conn (set_close_work true) (upd_sk (fun k => set_sock_done true (set_rcv_shutdown true k)) e)
        else e).

Definition ums_cdc_rx_handler (owned : bool) (cdc : ums_cdc_msg) (e : endpoint) : option endpoint :=
  let e := if negb (net_credits cdc =? 0) then upd_lnk (ums_wr_tx_put_credits (net_credits cdc)) e else e in
  if negb (ntohl (net_token cdc) =? conn_id (conn e)) then Some e
  else if freed (conn e) then Some e
  else if ums_cdc_before (ntohs (net_seqno cdc)) (seqno (local_rx_ctrl (conn e))) then Some e
  else ums_cdc_msg_recv_action owned cdc e.

Definition ums_imm_msg_recv_action (length imm : Z) (e : endpoint) : endpoint :=
  let e := upd_conn (upd_rx_ctrl (upd_pflags (set_write_blocked (imm_write_blocked imm)))) e in
  let len := if imm_skip_flag imm then length + (zlen (rmb (conn e)) - count (prod (local_rx_ctrl (conn e)))) else length in
  let e := upd_conn (fun c => upd_rx_ctrl (set_prod (ums_curs_add (zlen (rmb c)) (prod (local_rx_ctrl c)) len)) c) e in
  upd_conn (fun c => set_bytes_to_rcv (bytes_to_rcv c + len) c) e.

Definition ums_imm_rx_handler (length imm : Z) (e : endpoint) : endpoint :=
  let e := upd_lnk (ums_wr_tx_put_credits (imm_credits imm)) e in
  if negb (imm_token imm =? conn_id (conn e)) then e
  else if freed (conn e) then e
  else ums_imm_msg_recv_action length imm e.

(** Arrivals in the receive queue of the link; the receive buffer is posted again. *)
Inductive rx_event :=
| RxImm (length imm : Z)
| RxCdc (msg : ums_cdc_msg).

Definition rx_completion (owned : bool) (ev : rx_event) (e : endpoint) : option endpoint :=
  e ← (match ev with
       | RxImm length imm => Some (ums_imm_rx_handler length imm e)
       | RxCdc msg => ums_cdc_rx_handler owned msg e
       end);
  Some (upd_lnk (ums_wr_rx_put_credits 1) e).

(** ** The consumer cursor *)

Definition ums_tx_consumer_update (force : bool) (e : endpoint) : endpoint :=
  let c := conn e in
  let size := zlen (rmb c) in
  let f := prod_flags (local_rx_ctrl c) in
  let to_confirm := ums_curs_diff size (rx_curs_confirmed c) (cons (local_tx_ctrl c)) in
  let sender_free :=
    if rmbe_update_limit c <? to_confirm
    then size - ums_curs_diff_large size (rx_curs_confirmed c) (prod (local_rx_ctrl c)) else size in
  let clear e :=
    if write_blocked (prod_flags (local_rx_ctrl (conn e))) && (bytes_to_rcv (conn e) =? 0)
    then upd_conn (upd_rx_ctrl (upd_pflags (set_write_blocked false))) e else e in
  if cons_curs_upd_req f || force ||
     ((rmbe_update_limit c <? to_confirm) && ((sender_free <=? size / 2) || write_blocked f)) then
    if killed c || peer_conn_abort (conn_state_flags (local_rx_ctrl c)) then e
    else
      let '(rc, e) := ums_cdc_get_slot_and_msg_send false e in
      if (rc <? 0) && negb (killed (conn e)) then upd_conn (set_cdc_tx_work true) e else clear e
  else clear e.

(** 1 if the receive is to end (the urgent byte was reached). *)
Definition ums_rx_update_consumer (cs : cursor) (len : Z) (e : endpoint) : Z * endpoint :=
  let size := zlen (rmb (conn e)) in
  let cs := ums_curs_add size cs len in
  let '(rc, force, cs, e) :=
    if bool_decide (urg_state (conn e) = UMS_URG_VALID) || urg_rx_skip_pend (conn e) then
      let diff := ums_curs_comp size cs (urg_curs (conn e)) in
      if urginline (sk e) then
        if diff =? 0 then (1, true, cs, upd_conn (set_urg_state UMS_URG_READ) e) else (0, false, cs, e)
      else if diff =? 1 then (0, true, ums_curs_add size cs 1, upd_conn (set_urg_rx_skip_pend false) e)
      else if diff <? -1 then (0, false, cs, upd_conn (set_urg_state UMS_URG_READ) e)
      else (0, false, cs, e)
    else (0, false, cs, e) in
  let e := upd_conn (upd_tx_ctrl (set_cons cs)) e in
  (rc, ums_tx_consumer_update force e).

Definition ums_rx_update_cons (len : Z) (e : endpoint) : endpoint :=
  (ums_rx_update_consumer (cons (local_tx_ctrl (conn e))) len e).2.

(** ** sendmsg *)

(** The user's message: the data not yet copied, how many of its bytes are
    accessible, and the flags MSG_OOB and MSG_MORE. *)
Record msghdr := { msg_data : list Z; msg_readable : Z; msg_oob : bool; msg_more : bool }.

(** [memcpy_from_msg]: the next [len] bytes, or a fault. *)
Definition memcpy_from_msg (len : Z) (msg : msghdr) : option (list Z * msghdr) :=
  if len <=? msg_readable msg then
    Some (take (Z.to_nat len) (msg_data msg),
      {| msg_data := drop (Z.to_nat len) (msg_data msg); msg_readable := msg_readable msg - len;
         msg_oob := msg_oob msg; msg_more := msg_more msg |})
  else None.

(** [ums_tx_sendmsg_len_status] *)
Record send_status := { copylen : Z; send_remaining : Z; send_done : Z; send_break : bool }.

Definition ums_should_autocork (e : endpoint) : bool :=
  let c := conn e in
  let corking_size := Z.min (zlen (sndbuf c) / 2) (autocorking_size (sk e)) in
  negb ((conn_pend_tx_wr c =? 0) || (corking_size <? ums_tx_prepared_sends c)).

Definition ums_tx_should_cork (more : bool) (e : endpoint) : bool :=
  ums_should_autocork e || ((more || corked (sk e)) && negb (sndbuf_space (conn e) =? 0)).

(** One chunk at [off]; false is a fault. *)
Definition copy_chunk (off len : Z) (st : send_status) (msg : msghdr) (e : endpoint) :
    option (bool * send_status * msghdr * endpoint) :=
  match memcpy_from_msg len msg with
  | None => Some (false, {| copylen := copylen st; send_remaining := send_remaining st; send_done := send_done st;
                            send_break := send_break st || negb (send_done st =? 0) |}, msg, e)
  | Some (bs, msg) =>
      buf ← write_bytes (sndbuf (conn e)) off bs;
      Some (true, {| copylen := copylen st; send_remaining := send_remaining st - len; send_done := send_done st + len;
                     send_break := send_break st |}, msg, upd_conn (set_sndbuf buf) e)
  end.

(** Copy into the send ring, in one or two chunks; false is a failure. *)
Definition ums_tx_sendmsg_do (st : send_status) (msg : msghdr) (e : endpoint) :
    option (bool * send_status * msghdr * endpoint) :=
  let c := conn e in
  let writespace := sndbuf_space c in
  if writespace <=? 0 then Some (false, st, msg, e)
  else
    let n := Z.min (send_remaining st) writespace in
    let st := {| copylen := n; send_remaining := send_remaining st; send_done := send_done st; send_break := send_break st |} in
    let off := count (tx_curs_prep c) in
    let chunk_len := Z.min n (zlen (sndbuf c) - off) in
    '(ok, st, msg, e) ← copy_chunk off chunk_len st msg e;
    if negb ok then Some (false, st, msg, e)
    else if chunk_len =? n then Some (true, st, msg, e)
    else copy_chunk 0 (n - chunk_len) st msg e.

(** [ums_tx_wait] of a non-blocking socket: the error. *)
Definition ums_tx_wait_nonblock (e : endpoint) : Z :=
  let c := conn e in
  if negb (sk_err (sk e) =? 0) || send_shutdown (sk e) || killed c ||
     peer_done_writing (conn_state_flags (local_tx_ctrl c)) then - EPIPE
  else if ums_cdc_rxed_any_close c then - ECONNRESET
  else - EAGAIN.

(** [sk_stream_error]: for -EPIPE the error of the socket, if any. *)
Definition sk_stream_error (rc : Z) (e : endpoint) : Z * endpoint :=
  if rc =? - EPIPE then if negb (sk_err (sk e) =? 0) then sock_error e else (- EPIPE, e) else (rc, e).

Fixpoint sendmsg_loop (fuel : nat) (st : send_status) (msg : msghdr) (e : endpoint) : option (Z * endpoint) :=
  match fuel with
  | O => None
  | S fuel =>
      if zlen (msg_data msg) <=? 0 then Some (send_done st, e)
      else if send_shutdown (sk e) || (sk_err (sk e) =? ECONNABORTED) || killed (conn e) then Some (- EPIPE, e)
      else if ums_cdc_rxed_any_close (conn e) then Some (if negb (send_done st =? 0) then send_done st else - ECONNRESET, e)
      else
        let e := if msg_oob msg then upd_conn (upd_tx_ctrl (upd_pflags (set_urg_data_pending true))) e else e in
        if (sndbuf_space (conn e) =? 0) || urg_tx_pend (conn e) then
          if negb (send_done st =? 0) then Some (send_done st, e)
          else Some (sk_stream_error (ums_tx_wait_nonblock e) e)
        else
          '(ok, st, msg, e) ← ums_tx_sendmsg_do st msg e;
          if negb ok then
            if send_break st then Some (send_done st, e) else Some (sk_stream_error 0 e)
          else
            let c := conn e in
            let e := upd_conn (set_tx_curs_prep (ums_curs_add (zlen (sndbuf c)) (tx_curs_prep c) (copylen st))) e in
            let e := upd_conn (fun c => set_sndbuf_space (sndbuf_space c - copylen st) c) e in
            let e := if msg_oob msg && (send_remaining st =? 0) then upd_conn (set_urg_tx_pend true) e else e in
            let e := if ums_tx_should_cork (msg_more msg) e then e else (ums_tx_sndbuf_nonempty false e).2 in
            sendmsg_loop fuel st msg e
  end.

(** Every turn of the loop that does not return copies at least one byte. *)
Definition ums_tx_sendmsg (msg : msghdr) (e : endpoint) : option (Z * endpoint) :=
  let len := zlen (msg_data msg) in
  if INT_MAX <? len then Some (- EMSGSIZE, e)
  else if negb (sk_err (sk e) =? 0) || send_shutdown (sk e) then Some (sk_stream_error (- EPIPE) e)
  else if bool_decide (sk_state (sk e) = UMS_INIT) then Some (- ENOTCONN, e)
  else if freed (conn e) then Some (- EPIPE, e)
  else sendmsg_loop (S (length (msg_data msg)))
         {| copylen := 0; send_remaining := len; send_done := 0; send_break := false |} msg e.

(** ** recvmsg *)

(** MSG_PEEK, MSG_TRUNC, MSG_OOB, MSG_ERRQUEUE. *)
Record recv_flags := { msg_peek : bool; msg_trunc : bool; msg_recv_oob : bool; msg_errqueue : bool }.

(** [ums_rx_recvmsg_len_status] (without splicing), and what was stored in the
    user's buffer, of which [out_room] bytes are accessible. *)
Record recv_status := { read_remaining : Z; rcopylen : Z; read_done : Z; out : list Z; out_room : Z }.

Definition memcpy_to_msg (bs : list Z) (st : recv_status) : option recv_status :=
  if zlen bs <=? out_room st then
    Some {| read_remaining := read_remaining st; rcopylen := rcopylen st; read_done := read_done st; out := out st ++ bs;
            out_room := out_room st - zlen bs |}
  else None.

(** One chunk at [off]; the outer option is an access outside the ring, the inner
    one a fault of the user's buffer. *)
Definition read_chunk (trunc : bool) (off len : Z) (st : recv_status) (e : endpoint) : option (option recv_status) :=
  r ← (if trunc then Some (Some st) else bs ← read_bytes (rmb (conn e)) off len; Some (memcpy_to_msg bs st));
  match r with
  | None => Some None
  | Some st => Some (Some {| read_remaining := read_remaining st - len; rcopylen := rcopylen st;
                             read_done := read_done st + len; out := out st; out_room := out_room st |})
  end.

(** Copy out of the receive ring; [inr] is the error. *)
Definition ums_rx_recvmsg_do (trunc : bool) (cs : cursor) (st : recv_status) (e : endpoint) : option (recv_status + Z) :=
  let size := zlen (rmb (conn e)) in
  let chunk_len := Z.min (rcopylen st) (size - count cs) in
  r ← read_chunk trunc (count cs) chunk_len st e;
  match r with
  | None => Some (inr (- EFAULT))
  | Some st =>
      if chunk_len =? rcopylen st then Some (inl st)
      else
        let rest := rcopylen st - chunk_len in
        if size <? rest then Some (inr (- EFAULT))
        else
          r ← read_chunk trunc 0 rest st e;
          match r with None => Some (inr (- EFAULT)) | Some st => Some (inl st) end
  end.

(** Whether data is available; a single urgent byte is skipped. *)
Definition ums_rx_recvmsg_data_available (e : endpoint) : bool * endpoint :=
  if negb (bytes_to_rcv (conn e) =? 0) then (true, e)
  else if bool_decide (urg_state (conn e) = UMS_URG_VALID) then (false, ums_rx_update_cons 0 e)
  else (false, e).

(** [ums_rx_readdone_check] of a non-blocking socket, which never waits: the
    result of the call. *)
Definition ums_rx_readdone_check (done : Z) (e : endpoint) : Z * endpoint :=
  if negb (done =? 0) then (done, e)
  else if negb (sk_err (sk e) =? 0) then sock_error e
  else if bool_decide (sk_state (sk e) = UMS_CLOSED) then (if negb (sock_done (sk e)) then - ENOTCONN else done, e)
  else (- EAGAIN, e).

(** The number of bytes to copy: an inline urgent byte ends the copy. *)
Definition ums_rx_get_copylen (remaining : Z) (e : endpoint) : Z :=
  let readable := bytes_to_rcv (conn e) in
  let readable :=
    if bool_decide (urg_state (conn e) = UMS_URG_VALID) && urginline (sk e) && (1 <? readable) then readable - 1 else readable in
  Z.min remaining readable.

(** Account for what was copied; true if the receive is to end. *)
Definition ums_rx_recvmsg_update_curser (peek : bool) (cs : cursor) (len : Z) (e : endpoint) : bool * endpoint :=
  if peek then (false, e)
  else
    let e := upd_conn (fun c => set_bytes_to_rcv (bytes_to_rcv c - len) c) e in
    let '(rc, e) := ums_rx_update_consumer cs len e in
    (negb (rc =? 0), e).

Fixpoint recvmsg_loop (fuel : nat) (fl : recv_flags) (target : Z) (st : recv_status) (e : endpoint) :
    option (Z * list Z * endpoint) :=
  match fuel with
  | O => None
  | S fuel =>
      if (target <=? read_done st) || killed (conn e) then Some (read_done st, out st, e)
      else
        let '(avail, e) := ums_rx_recvmsg_data_available e in
        let copy e :=
          let n := ums_rx_get_copylen (read_remaining st) e in
          let st := {| read_remaining := read_remaining st; rcopylen := n; read_done := read_done st; out := out st;
                       out_room := out_room st |} in
          let cs := cons (local_tx_ctrl (conn e)) in
          r ← ums_rx_recvmsg_do (msg_trunc fl) cs st e;
          match r with
          | inr err => Some (err, out st, e)
          | inl st =>
              let '(stop, e) := ums_rx_recvmsg_update_curser (msg_peek fl) cs n e in
              if stop then Some (read_done st, out st, e)
              else if 0 <? read_remaining st then recvmsg_loop fuel fl target st e
              else Some (read_done st, out st, e)
          end in
        if avail then copy e
        else if rcv_shutdown (sk e) then
          let '(avail, e) := ums_rx_recvmsg_data_available e in
          if avail then copy e else Some (read_done st, out st, e)
        else
          let '(rc, e) := ums_rx_readdone_check (read_done st) e in Some (rc, out st, e)
  end.

(** Out-of-band data: the result and the byte. *)
Definition ums_rx_recv_urg (fl : recv_flags) (len room : Z) (e : endpoint) : Z * list Z * endpoint :=
  if urginline (sk e) || negb (bool_decide (urg_state (conn e) = UMS_URG_VALID)) then (- EINVAL, [], e)
  else
    let e := if msg_peek fl then e else upd_conn (set_urg_state UMS_URG_READ) e in
    if 0 <? len then
      let fault := negb (msg_trunc fl) && (room <? 1) in
      let out := if msg_trunc fl || fault then [] else [urg_rx_byte (conn e)] in
      let cs := cons (local_tx_ctrl (conn e)) in
      let e := if 1 <? ums_curs_diff (zlen (rmb (conn e))) cs (urg_curs (conn e)) then upd_conn (set_urg_rx_skip_pend true) e else e in
      let e := if msg_peek fl then e else (ums_rx_update_consumer cs 0 e).2 in
      (if fault then - EFAULT else 1, out, e)
    else (len, [], e).

(** [target] is the low-water mark, at least 1; [room] the accessible part of the
    user's buffer.  The result, what was stored, and the endpoint. *)
Definition ums_rx_recvmsg (fl : recv_flags) (len target room : Z) (e : endpoint) : option (Z * list Z * endpoint) :=
  if msg_errqueue fl then Some (- EINVAL, [], e)
  else if bool_decide (sk_state (sk e) = UMS_LISTEN) then Some (- ENOTCONN, [], e)
  else if freed (conn e) then Some (- EPIPE, [], e)
  else if msg_recv_oob fl then Some (ums_rx_recv_urg fl len room e)
  else recvmsg_loop (S (Z.to_nat len)) fl target
         {| read_remaining := len; rcopylen := 0; read_done := 0; out := []; out_room := room |} e.
