(* ===== verification/UmsStream.v ===== *)
(** * UMS stream correctness

    Two connected endpoints of [UmsConn] with the hardware between them: posted
    requests are executed in order, a remote write copies from the sender's ring to
    the receiver's ring when it is executed, immediate data and CDC messages arrive
    in the receive queue of the peer, and completions in the queue of the sender;
    each queue is processed later.

    The theorem: for any sequence of sends, receives, executions, completions,
    arrivals and work items on both sides, no access leaves a buffer, and what a
    receiver has been given is exactly a prefix of what the sender's calls have
    accepted: no byte is lost, duplicated, reordered or overwritten.

    Scope: no urgent data, posts are accepted, the connection is not freed. *)

From S2P Require Import Prelude Memory UmsCursor UmsWr UmsConn.

(** ** Rings *)

Definition slice (s : list Z) (p n : Z) : list Z := take (Z.to_nat n) (drop (Z.to_nat p) s).

(** The ring holds the positions [lo, hi) of the stream. *)
Definition ring_has (buf : list Z) (lo hi : Z) (s : list Z) : Prop :=
  forall p, lo <= p < hi -> zget buf (p mod zlen buf) = zget s p.

Lemma zlen_slice s p n : 0 <= p -> 0 <= n -> p + n <= zlen s -> zlen (slice s p n) = n.
Proof. unfold slice, zlen. intros. rewrite length_take, length_drop. lia. Qed.

Lemma zget_slice s p n i : 0 <= p -> 0 <= i < n -> zget (slice s p n) i = zget s (p + i).
Proof.
  intros. unfold zget, slice. rewrite !(proj2 (Z.leb_le _ _)) by lia. rewrite lookup_take_lt, lookup_drop by lia. f_equal. lia.
Qed.

Lemma list_eq_zget (l k : list Z) : zlen l = zlen k -> (forall i, 0 <= i < zlen l -> zget l i = zget k i) -> l = k.
Proof.
  intros Hl Hi. apply list_eq. intros i. destruct (decide (i < length l)%nat) as [Hlt|Hge].
  - specialize (Hi (Z.of_nat i) ltac:(unfold zlen; lia)). unfold zget in Hi.
    by rewrite (proj2 (Z.leb_le _ _)), Nat2Z.id in Hi by lia.
  - unfold zlen in Hl. rewrite !lookup_ge_None_2 by lia. done.
Qed.

Lemma slice_app s p n m : 0 <= p -> 0 <= n -> 0 <= m -> p + n + m <= zlen s -> slice s p n ++ slice s (p + n) m = slice s p (n + m).
Proof.
  intros. apply list_eq_zget; [rewrite zlen_app, !zlen_slice; lia|]. intros i Hi.
  rewrite zlen_app, !zlen_slice in Hi by lia. rewrite (zget_slice s p (n + m)) by lia.
  destruct (Z.ltb_spec i n).
  - rewrite zget_app_l by (rewrite zlen_slice; lia). by rewrite zget_slice by lia.
  - rewrite zget_app_r by (rewrite zlen_slice; lia). rewrite zlen_slice by lia. rewrite zget_slice by lia. f_equal. lia.
Qed.

Lemma slice_prefix s s' p n : 0 <= p -> 0 <= n -> p + n <= zlen s -> slice (s ++ s') p n = slice s p n.
Proof.
  intros. pose proof (zlen_nonneg s'). apply list_eq_zget; [rewrite !zlen_slice; rewrite ?zlen_app; lia|]. intros i Hi.
  rewrite zlen_slice in Hi by (rewrite ?zlen_app; lia). rewrite !zget_slice by lia. by rewrite zget_app_l by lia.
Qed.

Lemma ring_has_app buf lo hi s s' : 0 <= lo -> hi <= zlen s -> ring_has buf lo hi s -> ring_has buf lo hi (s ++ s').
Proof. intros Hlo Hhi H p Hp. rewrite (H p Hp). by rewrite zget_app_l by lia. Qed.

Lemma ring_has_sub buf lo hi s lo' hi' : lo <= lo' -> hi' <= hi -> ring_has buf lo hi s -> ring_has buf lo' hi' s.
Proof. intros ? ? H p Hp. apply H. lia. Qed.

Lemma ring_read buf lo hi s p n :
  0 < zlen buf -> 0 <= lo <= p -> 0 <= n -> p + n <= hi -> hi <= zlen s -> ring_has buf lo hi s ->
  p mod zlen buf + n <= zlen buf -> read_bytes buf (p mod zlen buf) n = Some (slice s p n).
Proof.
  intros HN Hp Hn Hhi Hs Hr Hfit. pose proof (Z.mod_pos_bound p (zlen buf) HN). apply read_bytes_Some.
  split_and!; try lia; [by rewrite zlen_slice by lia|]. intros i Hi. rewrite zget_slice by lia.
  rewrite <- (Hr (p + i)) by lia. f_equal. rewrite <- (Z.mod_small (p mod zlen buf + i) (zlen buf)) by lia.
  by rewrite Zplus_mod_idemp_l.
Qed.

Lemma ring_write buf lo hi s bs :
  0 < zlen buf -> 0 <= lo <= hi -> ring_has buf lo hi s -> hi mod zlen buf + zlen bs <= zlen buf ->
  hi + zlen bs - lo <= zlen buf -> hi + zlen bs <= zlen s -> bs = slice s hi (zlen bs) ->
  exists buf', write_bytes buf (hi mod zlen buf) bs = Some buf' /\ zlen buf' = zlen buf /\ ring_has buf' lo (hi + zlen bs) s.
Proof.
  intros HN Hlo Hr Hfit Hroom Hs Hbs. pose proof (Z.mod_pos_bound hi (zlen buf) HN). pose proof (zlen_nonneg bs).
  destruct (write_bytes_in buf (hi mod zlen buf) bs) as (buf' & Hw); [lia..|]. exists buf'. split; [done|].
  apply write_bytes_Some in Hw as (_ & _ & Hl & Hget). split; [done|]. intros p Hp. rewrite Hl, Hget.
  destruct (Z.ltb_spec p hi) as [Hlt|Hge].
  - assert (~ (hi mod zlen buf <= p mod zlen buf < hi mod zlen buf + zlen bs)) as Hno.
    { intros Hin. set (i := p mod zlen buf - hi mod zlen buf) in *.
      assert (p mod zlen buf = (hi + i) mod zlen buf) as E.
      { rewrite Z.add_mod by lia. rewrite (Z.mod_small i) by lia.
        replace (hi mod zlen buf + i) with (p mod zlen buf) by lia. by rewrite Z.mod_mod by lia. }
      assert (p - lo = hi + i - lo); [|lia]. apply (mod_offset_inj (zlen buf) lo); [lia..|].
      replace (lo + (p - lo)) with p by lia. by replace (lo + (hi + i - lo)) with (hi + i) by lia. }
    destruct (Z.leb_spec (hi mod zlen buf) (p mod zlen buf)), (Z.ltb_spec (p mod zlen buf) (hi mod zlen buf + zlen bs));
      simpl; try lia; apply Hr; lia.
  - assert (p mod zlen buf = hi mod zlen buf + (p - hi)) as ->.
    { rewrite <- (Z.mod_small (hi mod zlen buf + (p - hi)) (zlen buf)) by lia. rewrite Zplus_mod_idemp_l. f_equal. lia. }
    rewrite (proj2 (Z.leb_le _ _)), (proj2 (Z.ltb_lt _ _)) by lia. simpl. rewrite Hbs, zget_slice by lia. f_equal. lia.
Qed.

(** ** The system *)

(** An endpoint with its receive and completion queues, the bytes its calls of
    sendmsg have accepted and the bytes its calls of recvmsg have returned. *)
Record side := { ep : endpoint; rcq : list rx_event; scq : list Z; accepted : list Z; received : list Z }.

Definition set_ep (v : endpoint) (x : side) : side :=
  {| ep := v; rcq := rcq x; scq := scq x; accepted := accepted x; received := received x |}.
Definition set_rcq (v : list rx_event) (x : side) : side :=
  {| ep := ep x; rcq := v; scq := scq x; accepted := accepted x; received := received x |}.
Definition set_scq (v : list Z) (x : side) : side :=
  {| ep := ep x; rcq := rcq x; scq := v; accepted := accepted x; received := received x |}.
Definition set_accepted (v : list Z) (x : side) : side :=
  {| ep := ep x; rcq := rcq x; scq := scq x; accepted := v; received := received x |}.
Definition set_received (v : list Z) (x : side) : side :=
  {| ep := ep x; rcq := rcq x; scq := scq x; accepted := accepted x; received := v |}.

Inductive action :=
| ASend (msg : msghdr)           (* the application sends *)
| ARecv (len target : Z)         (* the application receives *)
| AExec                          (* the hardware executes a posted request *)
| ATx (owned : bool)             (* a send completion is processed *)
| ARx (owned : bool)             (* an arrival is processed *)
| AWork | ACdcWork | ARelease.   (* deferred work *)

Fixpoint gather (buf : list Z) (src : list (Z * Z)) : option (list Z) :=
  match src with
  | [] => Some []
  | (off, n) :: rest => a ← read_bytes buf off n; b ← gather buf rest; Some (a ++ b)
  end.

(** A remote write, with the number of bytes. *)
Definition remote_write (src : list (Z * Z)) (dst : Z) (x y : side) : option (Z * side) :=
  bs ← gather (sndbuf (conn (ep x))) src;
  buf ← write_bytes (rmb (conn (ep y))) dst bs;
  Some (zlen bs, set_ep (upd_conn (set_rmb buf) (ep y)) y).

Definition exec_wr (wr : ubcore_jfs_wr) (x y : side) : option (side * side) :=
  match wr with
  | WrWrite id src dst =>
      '(_, y) ← remote_write src dst x y; Some (set_scq (scq x ++ [id]) x, y)
  | WrWriteImm id src dst imm =>
      '(n, y) ← remote_write src dst x y;
      Some (set_scq (scq x ++ [id]) x, set_rcq (rcq y ++ [RxImm n imm]) y)
  | WrSend id msg => Some (set_scq (scq x ++ [id]) x, set_rcq (rcq y ++ [RxCdc msg]) y)
  end.

Definition plain_recv : recv_flags := {| msg_peek := false; msg_trunc := false; msg_recv_oob := false; msg_errqueue := false |}.

(** An action of side [x] with peer [y]; an action on an empty queue does nothing. *)
Definition half_step (a : action) (x y : side) : option (side * side) :=
  match a with
  | ASend msg =>
      '(n, e) ← ums_tx_sendmsg msg (ep x);
      Some (set_accepted (accepted x ++ take (Z.to_nat n) (msg_data msg)) (set_ep e x), y)
  | ARecv len target =>
      '(_, bs, e) ← ums_rx_recvmsg plain_recv len target len (ep x);
      Some (set_received (received x ++ bs) (set_ep e x), y)
  | AExec =>
      match sq (ep x) with
      | [] => Some (x, y)
      | wr :: rest => exec_wr wr (set_ep (set_sq rest (ep x)) x) y
      end
  | ATx owned =>
      match scq x with
      | [] => Some (x, y)
      | id :: rest => Some (set_ep (tx_completion owned id true (ep x)) (set_scq rest x), y)
      end
  | ARx owned =>
      match rcq x with
      | [] => Some (x, y)
      | ev :: rest => e ← rx_completion owned ev (ep x); Some (set_ep e (set_rcq rest x), y)
      end
  | AWork => Some (set_ep (ums_tx_work (ep x)) x, y)
  | ACdcWork => Some (set_ep (ums_cdc_tx_work (ep x)) x, y)
  | ARelease => Some (set_ep (ums_release_cb (ep x)) x, y)
  end.

Definition sys_step (a : bool * action) (w : side * side) : option (side * side) :=
  if a.1 then half_step a.2 w.1 w.2 else '(y, x) ← half_step a.2 w.2 w.1; Some (x, y).

Fixpoint sys_run (l : list (bool * action)) (w : side * side) : option (side * side) :=
  match l with [] => Some w | a :: rest => w ← sys_step a w; sys_run rest w end.

(** Sends without urgent data from readable memory; receives of at least a byte. *)
Definition action_ok (a : action) : Prop :=
  match a with
  | ASend msg => msg_oob msg = false /\ msg_readable msg = zlen (msg_data msg)
  | ARecv len target => 0 <= len /\ 1 <= target
  | _ => True
  end.

(** ** What is in flight *)

(** The source segments of the positions [p, p+l) in a ring of [S] bytes. *)
Definition covers (S : Z) (src : list (Z * Z)) (p l : Z) : Prop :=
  (src = [(p mod S, l)] /\ p mod S + l <= S) \/
  (src = [(p mod S, S - p mod S); (0, l - (S - p mod S))] /\ S < p mod S + l <= p mod S + S).

Section flight.
(** The sender's ring, the receiver's ring, the sender's own receive ring and the
    identifier of the receiver's connection. *)
Context (S R R' tok : Z).

Definition quiet_flags (f : ums_cdc_producer_flags) : Prop := urg_data_present f = false /\ urg_data_pending f = false.
Definition no_close : ums_cdc_conn_state_flags :=
  {| peer_conn_abort := false; peer_conn_closed := false; peer_done_writing := false |}.

Definition msg_ok (m : ums_cdc_msg) (a c s : Z) : Prop :=
  net_token m = htonl tok /\ net_seqno m = htons (u16 s) /\ net_prod m = ums_host_cursor_to_cdc (curs_at R a) /\
  net_cons m = ums_host_cursor_to_cdc (curs_at R' c) /\ quiet_flags (net_prod_flags m) /\ net_conn_state_flags m = no_close.

(** Arrived and not processed: from announced position [a], acknowledged position
    [c] of the other direction and sequence number [s] to [a'], [c'], [s']. *)
Fixpoint rx_ok (a c s : Z) (evs : list rx_event) (a' c' s' : Z) : Prop :=
  match evs with
  | [] => a = a' /\ c = c' /\ s = s'
  | RxImm n imm :: evs =>
      imm_token imm = tok /\ 0 < n <= R /\ a + n + (if imm_skip_flag imm then R - a mod R else 0) <= a + R /\
      rx_ok (a + n + (if imm_skip_flag imm then R - a mod R else 0)) c s evs a' c' s'
  | RxCdc m :: evs => exists c1, c <= c1 /\ msg_ok m a c1 (s + 1) /\ rx_ok a c1 (s + 1) evs a' c' s'
  end.

(** Posted and not executed: positions [a] announced and [p] written, and for each
    request its identifier and, for the announcing ones, the position it ends at. *)
Fixpoint sq_ok (a p c s : Z) (wrs : list ubcore_jfs_wr) (cs : list (Z * option Z)) (a' c' s' : Z) : Prop :=
  match wrs, cs with
  | [], [] => a = p /\ a = a' /\ c = c' /\ s = s'
  | WrWrite id src dst :: wrs, (id', None) :: cs =>
      id' = id /\ a = p /\ exists l, 0 < l /\ covers S src p l /\ dst = p mod R /\ dst + l = R /\
        sq_ok a (p + l) c s wrs cs a' c' s'
  | WrWriteImm id src dst imm :: wrs, (id', Some e) :: cs =>
      id' = id /\ p = a + (if imm_skip_flag imm then R - a mod R else 0) /\ imm_token imm = tok /\
      0 < e - p /\ e - a <= R /\ covers S src p (e - p) /\ dst = p mod R /\ dst + (e - p) <= R /\
      sq_ok e e c s wrs cs a' c' s'
  | WrSend id m :: wrs, (id', None) :: cs =>
      id' = id /\ a = p /\ exists c1, c <= c1 /\ msg_ok m a c1 (s + 1) /\ sq_ok a p c1 (s + 1) wrs cs a' c' s'
  | _, _ => False
  end.

Lemma rx_ok_le a c s evs a' c' s' : 0 < R -> rx_ok a c s evs a' c' s' -> a <= a' /\ c <= c'.
Proof.
  intros HR. revert a c s. induction evs as [|[n imm|m] evs IH]; intros a c s; simpl.
  - lia.
  - intros (_ & ? & _ & H). apply IH in H. pose proof (Z.mod_pos_bound a R HR). destruct (imm_skip_flag imm); lia.
  - intros (c1 & ? & _ & H). apply IH in H. lia.
Qed.

Lemma sq_ok_le a p c s wrs cs a' c' s' : 0 < R -> sq_ok a p c s wrs cs a' c' s' -> a <= a' /\ p <= a' /\ c <= c'.
Proof.
  intros HR. revert a p c s cs. induction wrs as [|[id src dst|id src dst imm|id m] wrs IH]; intros a p c s [|[id' [e|]] cs]; simpl; try done.
  - lia.
  - intros (_ & -> & l & ? & _ & _ & _ & H). apply IH in H. lia.
  - intros (_ & -> & _ & ? & _ & _ & _ & _ & H). apply IH in H. pose proof (Z.mod_pos_bound a R HR). destruct (imm_skip_flag imm); lia.
  - intros (_ & -> & c1 & ? & _ & H). apply IH in H. lia.
Qed.

Lemma rx_ok_app a c s evs evs' a1 c1 s1 a2 c2 s2 :
  rx_ok a c s evs a1 c1 s1 -> rx_ok a1 c1 s1 evs' a2 c2 s2 -> rx_ok a c s (evs ++ evs') a2 c2 s2.
Proof.
  revert a c s. induction evs as [|[n imm|m] evs IH]; intros a c s; simpl.
  - by intros (-> & -> & ->).
  - intros (? & ? & ? & H) H'. split_and!; try done; [lia..|]. by apply IH.
  - intros (c0 & ? & ? & H) H'. exists c0. split_and!; try done. by apply IH.
Qed.

Lemma sq_ok_app a p c s wrs cs wrs' cs' a1 c1 s1 a2 c2 s2 :
  sq_ok a p c s wrs cs a1 c1 s1 -> sq_ok a1 a1 c1 s1 wrs' cs' a2 c2 s2 -> sq_ok a p c s (wrs ++ wrs') (cs ++ cs') a2 c2 s2.
Proof.
  revert a p c s cs. induction wrs as [|[id src dst|id src dst imm|id m] wrs IH]; intros a p c s [|[id' [e|]] cs]; simpl; try done.
  - by intros (<- & <- & <- & <-).
  - intros (? & ? & l & ? & ? & ? & ? & H) H'. split_and!; try done. exists l. split_and!; try done. by apply IH.
  - intros (? & ? & ? & ? & ? & ? & ? & ? & H) H'. split_and!; try done. by apply IH.
  - intros (? & ? & c0 & ? & ? & H) H'. split_and!; try done. exists c0. split_and!; try done. by apply IH.
Qed.
End flight.

(** ** Invariant *)

(** Ghost positions of a direction: completed, sent, announced to the receive queue,
    written, announced to the receiver, acknowledged to the sender, confirmed by the
    receiver; the acknowledgement of the other direction and the sequence number
    that have been executed; the sequence numbers of receiver and sender. *)
Record gpos := {
  g_fin : Z; g_sent : Z; g_ann : Z; g_dlv : Z; g_prod : Z; g_acons : Z; g_conf : Z;
  g_cmid : Z; g_smid : Z; g_seq0 : Z; g_seq1 : Z
}.

Definition set_g_fin (v : Z) (g : gpos) : gpos :=
  {| g_fin := v; g_sent := g_sent g; g_ann := g_ann g; g_dlv := g_dlv g; g_prod := g_prod g; g_acons := g_acons g;
     g_conf := g_conf g; g_cmid := g_cmid g; g_smid := g_smid g; g_seq0 := g_seq0 g; g_seq1 := g_seq1 g |}.
Definition set_g_sent (v : Z) (g : gpos) : gpos :=
  {| g_fin := g_fin g; g_sent := v; g_ann := g_ann g; g_dlv := g_dlv g; g_prod := g_prod g; g_acons := g_acons g;
     g_conf := g_conf g; g_cmid := g_cmid g; g_smid := g_smid g; g_seq0 := g_seq0 g; g_seq1 := g_seq1 g |}.
Definition set_g_wire (ann dlv cmid smid : Z) (g : gpos) : gpos :=
  {| g_fin := g_fin g; g_sent := g_sent g; g_ann := ann; g_dlv := dlv; g_prod := g_prod g; g_acons := g_acons g;
     g_conf := g_conf g; g_cmid := cmid; g_smid := smid; g_seq0 := g_seq0 g; g_seq1 := g_seq1 g |}.
Definition set_g_rx (prod seq0 : Z) (g : gpos) : gpos :=
  {| g_fin := g_fin g; g_sent := g_sent g; g_ann := g_ann g; g_dlv := g_dlv g; g_prod := prod; g_acons := g_acons g;
     g_conf := g_conf g; g_cmid := g_cmid g; g_smid := g_smid g; g_seq0 := seq0; g_seq1 := g_seq1 g |}.
Definition set_g_acons (v : Z) (g : gpos) : gpos :=
  {| g_fin := g_fin g; g_sent := g_sent g; g_ann := g_ann g; g_dlv := g_dlv g; g_prod := g_prod g; g_acons := v;
     g_conf := g_conf g; g_cmid := g_cmid g; g_smid := g_smid g; g_seq0 := g_seq0 g; g_seq1 := g_seq1 g |}.
Definition set_g_conf (v : Z) (g : gpos) : gpos :=
  {| g_fin := g_fin g; g_sent := g_sent g; g_ann := g_ann g; g_dlv := g_dlv g; g_prod := g_prod g; g_acons := g_acons g;
     g_conf := v; g_cmid := g_cmid g; g_smid := g_smid g; g_seq0 := g_seq0 g; g_seq1 := g_seq1 g |}.
Definition set_g_seq1 (v : Z) (g : gpos) : gpos :=
  {| g_fin := g_fin g; g_sent := g_sent g; g_ann := g_ann g; g_dlv := g_dlv g; g_prod := g_prod g; g_acons := g_acons g;
     g_conf := g_conf g; g_cmid := g_cmid g; g_smid := g_smid g; g_seq0 := g_seq0 g; g_seq1 := v |}.

(** What the slot table holds for an outstanding request. *)
Definition pend_ok (size : Z) (l : ums_link) (x : Z * option Z) : Prop :=
  0 < x.1 <= wr_tx_id l /\
  match x.2 with
  | Some e => exists p, pending l x.1 = Some p /\ pend_handler p = HandlerImm /\ pend_conn (priv p) = true /\
      pend_cursor (priv p) = curs_at size e
  | None => forall p, pending l x.1 = Some p -> pend_handler p = HandlerCdc
  end.

(** The executed requests, in order, end between the completed and the announced
    position. *)
Fixpoint comps_ok (f : Z) (cs : list (Z * option Z)) (hi : Z) : Prop :=
  match cs with
  | [] => f <= hi
  | (_, Some e) :: cs => f <= e /\ comps_ok e cs hi
  | (_, None) :: cs => comps_ok f cs hi
  end.

(** The parts of the invariant of a side: [g] is the direction it sends in, [g'] the
    direction it receives in.  [R] and [R'] are the receive rings of the peer and its
    own, [tok] and [tok'] the connection identifiers. *)
Record tx_inv (R tok : Z) (g : gpos) (acc : list Z) (c : ums_connection) : Prop := {
  ti_S : buf_size (zlen (sndbuf c));
  ti_R : buf_size R;
  ti_size : peer_rmbe_size c = R;
  ti_tok : 0 < tok < 4194304 /\ token (local_tx_ctrl c) = tok;
  ti_fin : 0 <= g_fin g <= g_ann g /\ zlen acc - g_fin g <= zlen (sndbuf c);
  ti_sent : g_ann g <= g_dlv g <= g_sent g /\ g_sent g <= zlen acc;
  ti_acons : 0 <= g_acons g <= g_sent g /\ g_sent g - g_acons g <= R;
  ti_cprep : tx_curs_prep c = curs_at (zlen (sndbuf c)) (zlen acc);
  ti_csent : tx_curs_sent c = curs_at (zlen (sndbuf c)) (g_sent g);
  ti_cfin : tx_curs_fin c = curs_at (zlen (sndbuf c)) (g_fin g);
  ti_cprod : prod (local_tx_ctrl c) = curs_at R (g_sent g);
  ti_ccons : cons (local_rx_ctrl c) = curs_at R (g_acons g);
  ti_space : sndbuf_space c = zlen (sndbuf c) - (zlen acc - g_fin g);
  ti_rspace : peer_rmbe_space c = R - (g_sent g - g_acons g);
  ti_ring : ring_has (sndbuf c) (g_fin g) (zlen acc) acc;
  ti_urg : urg_tx_pend c = false /\ quiet_flags (prod_flags (local_tx_ctrl c)) /\ conn_state_flags (local_tx_ctrl c) = no_close;
  ti_seq : tx_cdc_seq c = u16 (g_seq1 g)
}.

Record rx_inv (R' tok' : Z) (g' : gpos) (acc recv : list Z) (c : ums_connection) : Prop := {
  ri_R : buf_size R';
  ri_size : zlen (rmb c) = R';
  ri_tok : 0 < tok' < 4194304 /\ conn_id c = tok';
  ri_pos : 0 <= g_conf g' <= zlen recv /\ zlen recv <= g_prod g' <= g_ann g' /\ g_ann g' <= g_dlv g' <= zlen acc /\
    g_dlv g' - zlen recv <= R';
  ri_cprod : prod (local_rx_ctrl c) = curs_at R' (g_prod g');
  ri_ccons : cons (local_tx_ctrl c) = curs_at R' (zlen recv);
  ri_cconf : rx_curs_confirmed c = curs_at R' (g_conf g');
  ri_avail : bytes_to_rcv c = g_prod g' - zlen recv;
  ri_ring : ring_has (rmb c) (zlen recv) (g_dlv g') acc;
  ri_recv : recv = slice acc 0 (zlen recv);
  ri_urg : urg_state c <> UMS_URG_VALID /\ urg_rx_skip_pend c = false;
  ri_close : conn_state_flags (local_rx_ctrl c) = no_close;
  ri_seq : seqno (local_rx_ctrl c) = u16 (g_seq0 g');
  ri_freed : freed c = false
}.

(** The requests of a side, executed ([cs1]) and not ([cs2]); [n] bounds the requests
    still to be started. *)
Record out_inv (n : nat) (R R' tok : Z) (g g' : gpos) (scq : list Z) (cs1 cs2 : list (Z * option Z)) (size : Z) (e : endpoint) : Prop := {
  oi_post : post_results e = [];
  oi_link : link_wf (lnk e);
  oi_ids : wr_tx_id (lnk e) + 2 * Z.of_nat n < 2 ^ 63;
  oi_err : 0 <= sk_err (sk e);
  oi_scq : scq = cs1.*1;
  oi_nodup : NoDup (cs1 ++ cs2).*1;
  oi_pend : Forall (pend_ok size (lnk e)) (cs1 ++ cs2);
  oi_comps : comps_ok (g_fin g) cs1 (g_ann g);
  oi_sq : sq_ok size R R' tok (g_ann g) (g_dlv g) (g_cmid g) (g_smid g) (sq e) cs2 (g_sent g) (g_conf g') (g_seq1 g)
}.

(** An endpoint of the system: [acc] is what it has accepted, [acc'] what the peer
    has accepted, [recv] what it has returned. *)
Record ep_inv (n : nat) (R R' tok tok' : Z) (acc acc' recv : list Z) (scq : list Z) (g g' : gpos) (e : endpoint) : Prop := {
  ei_tx : tx_inv R tok g acc (conn e);
  ei_rx : rx_inv R' tok' g' acc' recv (conn e);
  ei_out : exists cs1 cs2, out_inv n R R' tok g g' scq cs1 cs2 (zlen (sndbuf (conn e))) e
}.

Record side_inv (n : nat) (R R' tok tok' : Z) (g g' : gpos) (acc' : list Z) (x : side) : Prop := {
  si_ep : ep_inv n R R' tok tok' (accepted x) acc' (received x) (scq x) g g' (ep x);
  si_in : rx_ok R' R tok' (g_prod g') (g_acons g) (g_seq0 g') (rcq x) (g_ann g') (g_cmid g') (g_smid g')
}.

(** ** Links *)

Lemma pend_ok_frame size l l' x : pend_ok size l x -> wr_tx_id l <= wr_tx_id l' ->
  (0 < x.1 <= wr_tx_id l -> pending l' x.1 = pending l x.1) -> pend_ok size l' x.
Proof. intros [Hr H] Hle Hp. unfold pend_ok. rewrite Hp by done. split; [lia|done]. Qed.

(** The link changed, but not for the outstanding requests. *)
Lemma out_inv_link n m R R' tok g g' scq cs1 cs2 size e l' :
  out_inv n R R' tok g g' scq cs1 cs2 size e -> link_wf l' -> wr_tx_id (lnk e) <= wr_tx_id l' ->
  wr_tx_id l' + 2 * Z.of_nat m < 2 ^ 63 ->
  (forall id, 0 < id <= wr_tx_id (lnk e) -> pending l' id = pending (lnk e) id) ->
  out_inv m R R' tok g g' scq cs1 cs2 size (set_lnk l' e).
Proof.
  intros [] Hwf Hle Hm Hp. split; try done. eapply Forall_impl; [done|]. intros x Hx. eapply pend_ok_frame; [done|done|]. apply Hp.
Qed.

Lemma out_inv_conn n R R' tok g g' scq cs1 cs2 size e c' :
  out_inv n R R' tok g g' scq cs1 cs2 size e -> out_inv n R R' tok g g' scq cs1 cs2 size (set_conn c' e).
Proof. intros []. by split. Qed.

(** The positions that the requests of a side depend on. *)
Definition same_out (g g1 g' g1' : gpos) : Prop :=
  g_fin g1 = g_fin g /\ g_ann g1 = g_ann g /\ g_dlv g1 = g_dlv g /\ g_cmid g1 = g_cmid g /\ g_smid g1 = g_smid g /\
  g_sent g1 = g_sent g /\ g_seq1 g1 = g_seq1 g /\ g_conf g1' = g_conf g'.

Lemma out_inv_ghost n R R' tok g g' g1 g1' scq cs1 cs2 size e :
  out_inv n R R' tok g g' scq cs1 cs2 size e -> same_out g g1 g' g1' -> out_inv n R R' tok g1 g1' scq cs1 cs2 size e.
Proof.
  intros [] (E1 & E2 & E3 & E4 & E5 & E6 & E7 & E8). split; rewrite ?E1, ?E2, ?E3, ?E4, ?E5, ?E6, ?E7, ?E8; done.
Qed.

(** Links with the same slot table. *)
Definition same_table (l l' : ums_link) : Prop :=
  wr_tx_mask l' = wr_tx_mask l /\ wr_tx_pends l' = wr_tx_pends l /\ wr_tx_id l' = wr_tx_id l.

Lemma same_table_wf l l' : same_table l l' -> link_wf l -> link_wf l'.
Proof. intros (? & ? & ?). by apply link_wf_same. Qed.

Lemma out_inv_table n m R R' tok g g' scq cs1 cs2 size e l' :
  out_inv n R R' tok g g' scq cs1 cs2 size e -> same_table (lnk e) l' -> (m <= n)%nat ->
  out_inv m R R' tok g g' scq cs1 cs2 size (set_lnk l' e).
Proof.
  intros H HT Hm. pose proof HT as (E1 & E2 & E3). eapply out_inv_link; [done|by eapply same_table_wf, (oi_link _ _ _ _ _ _ _ _ _ _ _ H)|lia| |].
  - pose proof (oi_ids _ _ _ _ _ _ _ _ _ _ _ H). lia.
  - intros. by apply pending_same.
Qed.

Lemma announce_credits_spec e : exists k l', announce_credits e = (k, set_lnk l' e) /\ same_table (lnk e) l'.
Proof.
  unfold announce_credits, ums_wr_rx_get_credits. destruct (ums_wr_rx_credits_need_announce_frequent _).
  - destruct (credits_enable _); eexists _, _; (split; [done|done]).
  - exists 0, (lnk e). split; [by destruct e|done].
Qed.

Lemma ubcore_post_ok wr e : post_results e = [] -> ubcore_post wr e = (true, set_sq (sq e ++ [wr]) e).
Proof. intros H. unfold ubcore_post. by rewrite H. Qed.

(** ** Immediate data *)

Lemma testbit_b2z x n b : 0 <= n -> (x / 2 ^ n) mod 2 = Z.b2z b -> Z.testbit x n = b.
Proof. intros Hn H. apply Z.b2z_inj. rewrite <- H. by apply Z.testbit_spec'. Qed.

Lemma imm_fields k wb skip t : 0 <= t < 4194304 ->
  imm_token (ums_imm_pack k wb skip t) = t /\ imm_skip_flag (ums_imm_pack k wb skip t) = skip /\
  imm_write_blocked (ums_imm_pack k wb skip t) = wb /\ imm_credits (ums_imm_pack k wb skip t) = k mod 256.
Proof.
  intros Ht. unfold imm_token, imm_skip_flag, imm_write_blocked, imm_credits, ums_imm_pack.
  rewrite (Z.mod_small t) by lia. pose proof (Z.mod_pos_bound k 256 ltac:(lia)). set (c := k mod 256) in *. clearbody c.
  split_and!.
  - destruct wb, skip; simpl Z.b2z; zmod.
  - apply testbit_b2z; [lia|]. change (2 ^ 9) with 512. destruct wb, skip; simpl Z.b2z; zmod.
  - apply testbit_b2z; [lia|]. change (2 ^ 8) with 256. destruct wb, skip; simpl Z.b2z; zmod.
  - destruct wb, skip; simpl Z.b2z; zmod.
Qed.

Lemma get_imm_spec skip e : 0 <= token (local_tx_ctrl (conn e)) < 4194304 ->
  exists imm l', ums_get_imm skip e = (imm, set_lnk l' e) /\ same_table (lnk e) l' /\
    imm_token imm = token (local_tx_ctrl (conn e)) /\ imm_skip_flag imm = skip.
Proof.
  intros Ht. unfold ums_get_imm. destruct (announce_credits_spec e) as (k & l' & -> & HT).
  assert (Z.land (token (local_tx_ctrl (conn e))) UMS_CONN_ID_MASK = token (local_tx_ctrl (conn e))) as ->.
  { change UMS_CONN_ID_MASK with (Z.ones 22). rewrite Z.land_ones by lia. by apply Z.mod_small. }
  eexists _, l'. split; [done|]. split; [done|].
  destruct (imm_fields k (write_blocked (prod_flags (local_tx_ctrl (conn e)))) skip _ Ht) as (? & ? & _). done.
Qed.

(** ** Source segments *)

Lemma prepare_covers size p l : 0 < size -> 0 <= p -> 0 < l <= size ->
  covers size (ums_tx_ub_prepare size (p mod size) (if p mod size + l <=? size then l else size - p mod size) l) p l.
Proof.
  intros Hs Hp Hl. pose proof (Z.mod_pos_bound p size Hs). unfold covers, ums_tx_ub_prepare.
  destruct (Z.leb_spec (p mod size + l) size).
  - rewrite Z.eqb_refl. by left.
  - rewrite (proj2 (Z.eqb_neq _ _)) by lia. right. replace (p mod size + (size - p mod size)) with size by lia.
    rewrite Z.leb_refl. split; [|lia]. repeat f_equal. lia.
Qed.

Lemma gather_covers buf lo hi s src p l :
  0 < zlen buf -> ring_has buf lo hi s -> 0 <= lo <= p -> 0 <= l -> p + l <= hi -> hi <= zlen s ->
  covers (zlen buf) src p l -> gather buf src = Some (slice s p l).
Proof.
  intros HN Hr Hlo Hl Hhi Hs [[-> Hfit]|[-> Hfit]]; simpl.
  - erewrite ring_read by (done || lia). cbn [mbind option_bind]. by rewrite app_nil_r.
  - pose proof (Z.mod_pos_bound p (zlen buf) HN) as Hb. set (n := zlen buf - p mod zlen buf) in *.
    erewrite (ring_read buf lo hi s p n) by (done || lia). cbn [mbind option_bind].
    assert ((p + n) mod zlen buf = 0) as E0.
    { destruct (positions (zlen buf) p (p + n)) as [(E1 & E2 & E3)|(E1 & E2)]; [lia..| |lia].
      pose proof (Z.mod_pos_bound (p + n) (zlen buf) HN). lia. }
    pose proof (ring_read buf lo hi s (p + n) (l - n)) as Hr2. rewrite E0 in Hr2.
    rewrite Hr2 by (done || lia). cbn [mbind option_bind]. rewrite app_nil_r, slice_app by lia. do 2 f_equal. lia.
Qed.

(** ** Posting *)

(** Slot [idx] was just taken for request [id]. *)
Definition slot_held (idx : nat) (id : Z) (h : ums_wr_tx_handler) (l : ums_link) : Prop :=
  wr_tx_mask l !! idx = Some true /\
  wr_tx_pends l !! idx = Some {| wr_id := id; pend_handler := h; pend_idx := idx; priv := priv_zero |} /\ 0 < id <= wr_tx_id l.

Lemma slot_held_table idx id h l l' : same_table l l' -> slot_held idx id h l -> slot_held idx id h l'.
Proof. intros (E1 & E2 & E3) (? & ? & ?). unfold slot_held. by rewrite E1, E2, E3. Qed.

Lemma slot_held_id idx id h l : slot_held idx id h l -> slot_wr_id idx l = id.
Proof. intros (_ & E & _). unfold slot_wr_id. by rewrite E. Qed.

(** Filling in a slot: only its request changes. *)
Lemma slot_fill idx id h f l : link_wf l -> slot_held idx id h l ->
  link_wf (set_priv idx f l) /\ slot_wr_id idx (set_priv idx f l) = id /\
  pending (set_priv idx f l) id = Some {| wr_id := id; pend_handler := h; pend_idx := idx; priv := f priv_zero |} /\
  forall id', id' <> 0 -> id' <> id -> pending (set_priv idx f l) id' = pending l id'.
Proof.
  intros Hwf (Hm & Hp & Hid). destruct (set_priv_spec idx f l _ Hwf Hm Hp) as (W & P & Q). simpl in *.
  split; [done|]. split; [unfold slot_wr_id; simpl; by rewrite P|]. split.
  - rewrite Q by lia. by rewrite decide_True.
  - intros id' H0 Hne. rewrite Q by done. by rewrite decide_False.
Qed.

Lemma ub_write_imm_spec idx id src dst len skip e :
  post_results e = [] -> link_wf (lnk e) -> slot_held idx id HandlerImm (lnk e) ->
  0 <= token (local_tx_ctrl (conn e)) < 4194304 ->
  let c' := ums_tx_advance_cursors len (conn e) in
  exists imm l', ums_tx_ub_write_imm idx src dst len skip e =
      (0, set_sq (sq e ++ [WrWriteImm id src dst imm])
            (set_lnk l' (set_conn (set_conn_pend_tx_wr (conn_pend_tx_wr (conn e) + 1) c') e))) /\
    imm_token imm = token (local_tx_ctrl (conn e)) /\ imm_skip_flag imm = skip /\
    link_wf l' /\ wr_tx_id l' = wr_tx_id (lnk e) /\
    (exists p, pending l' id = Some p /\ pend_handler p = HandlerImm /\ pend_conn (priv p) = true /\
       pend_cursor (priv p) = tx_curs_sent c') /\
    forall id', id' <> 0 -> id' <> id -> pending l' id' = pending (lnk e) id'.
Proof.
  intros Hpost Hwf Hslot Ht c'. unfold ums_tx_ub_write_imm.
  destruct (get_imm_spec skip e Ht) as (imm & l1 & -> & HT & Himm1 & Himm2).
  pose proof (same_table_wf _ _ HT Hwf) as Hwf1. pose proof (slot_held_table _ _ _ _ _ HT Hslot) as Hslot1.
  unfold ums_imm_add_pending_send, upd_lnk.
  set (f := fun p => {| pend_conn := true |}).
  destruct (slot_fill idx id HandlerImm f l1 Hwf1 Hslot1) as (W & I & P & Q).
  rewrite ubcore_post_ok by done. cbn [lnk upd_conn set_lnk set_conn sq conn].
  rewrite I. exists imm, (set_priv idx f l1). split; [done|]. split; [done|]. split; [done|]. split; [done|].
  split; [by destruct HT as (_ & _ & ?)|]. split; [eexists; split; [done|]; done|].
  intros id' H0 Hne. rewrite Q by done. apply pending_same. by destruct HT as (_ & ? & _).
Qed.

Lemma ub_write_spec src dst e :
  post_results e = [] -> link_wf (lnk e) -> wr_tx_id (lnk e) + 2 < 2 ^ 64 ->
  let id := wr_tx_id (lnk e) + 2 in
  exists l', ums_tx_ub_write src dst e = (0, set_sq (sq e ++ [WrWrite id src dst]) (set_lnk l' e)) /\
    link_wf l' /\ wr_tx_id l' = id /\ (forall id', pending l' id' = pending (lnk e) id') /\ pending l' id = None /\
    (forall idx i h, slot_held idx i h (lnk e) -> slot_held idx i h l').
Proof.
  intros Hpost Hwf Hb id. pose proof (wf_id _ Hwf). unfold ums_tx_ub_write, ums_wr_tx_get_next_wr_id.
  rewrite u64_small by lia. fold id. set (l' := set_slots _ _ _ _). rewrite ubcore_post_ok by done.
  exists l'. split; [done|].
  assert (link_wf l') as Hwf'.
  { destruct Hwf as [W1 W2 W3 W4 W5]. split; try done; simpl; [lia|]. intros i Hi. destruct (W4 i Hi) as (p & ? & ? & ?).
    exists p. split_and!; try done; lia. }
  split; [done|]. split; [done|]. split; [by intros; apply pending_same|]. split.
  - destruct (pending l' id) as [p|] eqn:E; [|done]. exfalso. rewrite (pending_same (lnk e)) in E by done.
    apply pending_range in E; [unfold id in E; lia|done|lia].
  - intros idx i h (? & ? & ?). split_and!; try done; simpl; lia.
Qed.

Lemma out_inv_post n m R R' tok g g' g1 g1' scq cs1 cs2 size e l' c' wrs cs' :
  out_inv n R R' tok g g' scq cs1 cs2 size e ->
  g_fin g1 = g_fin g -> g_ann g1 = g_ann g -> g_dlv g1 = g_dlv g -> g_cmid g1 = g_cmid g -> g_smid g1 = g_smid g ->
  sq_ok size R R' tok (g_sent g) (g_sent g) (g_conf g') (g_seq1 g) wrs cs' (g_sent g1) (g_conf g1') (g_seq1 g1) ->
  link_wf l' -> wr_tx_id (lnk e) <= wr_tx_id l' -> wr_tx_id l' + 2 * Z.of_nat m < 2 ^ 63 ->
  Forall (fun x => pending l' x.1 = pending (lnk e) x.1 /\ x.1 ∉ cs'.*1) (cs1 ++ cs2) ->
  Forall (pend_ok size l') cs' -> NoDup cs'.*1 ->
  out_inv m R R' tok g1 g1' scq cs1 (cs2 ++ cs') size (set_sq (sq e ++ wrs) (set_lnk l' (set_conn c' e))).
Proof.
  intros [] E1 E2 E3 E4 E5 Hsq Hwf Hle Hm Hold Hnew Hnd. split; simpl; try done.
  - rewrite app_assoc, fmap_app. apply NoDup_app. split_and!; [done| |done].
    intros i (x & -> & Hx)%list_elem_of_fmap Hin. rewrite Forall_forall in Hold. by destruct (Hold x Hx).
  - rewrite app_assoc. apply Forall_app. split; [|done]. rewrite Forall_forall in Hold, oi_pend0. apply Forall_forall.
    intros x Hx. eapply pend_ok_frame; [by apply oi_pend0|done|]. intros _. by apply Hold.
  - by rewrite E1, E2.
  - rewrite E2, E3, E4, E5. by eapply sq_ok_app.
Qed.

(** The fields of the two directions. *)
Definition rx_same (c c' : ums_connection) : Prop :=
  rmb c' = rmb c /\ conn_id c' = conn_id c /\ prod (local_rx_ctrl c') = prod (local_rx_ctrl c) /\
  conn_state_flags (local_rx_ctrl c') = conn_state_flags (local_rx_ctrl c) /\ seqno (local_rx_ctrl c') = seqno (local_rx_ctrl c) /\
  cons (local_tx_ctrl c') = cons (local_tx_ctrl c) /\ rx_curs_confirmed c' = rx_curs_confirmed c /\
  bytes_to_rcv c' = bytes_to_rcv c /\ urg_state c' = urg_state c /\ urg_rx_skip_pend c' = urg_rx_skip_pend c /\ freed c' = freed c.

Definition tx_same (c c' : ums_connection) : Prop :=
  sndbuf c' = sndbuf c /\ peer_rmbe_size c' = peer_rmbe_size c /\ token (local_tx_ctrl c') = token (local_tx_ctrl c) /\
  tx_curs_prep c' = tx_curs_prep c /\ tx_curs_sent c' = tx_curs_sent c /\ tx_curs_fin c' = tx_curs_fin c /\
  prod (local_tx_ctrl c') = prod (local_tx_ctrl c) /\ cons (local_rx_ctrl c') = cons (local_rx_ctrl c) /\
  sndbuf_space c' = sndbuf_space c /\ peer_rmbe_space c' = peer_rmbe_space c /\ urg_tx_pend c' = urg_tx_pend c /\
  urg_data_present (prod_flags (local_tx_ctrl c')) = urg_data_present (prod_flags (local_tx_ctrl c)) /\
  urg_data_pending (prod_flags (local_tx_ctrl c')) = urg_data_pending (prod_flags (local_tx_ctrl c)) /\
  conn_state_flags (local_tx_ctrl c') = conn_state_flags (local_tx_ctrl c) /\ tx_cdc_seq c' = tx_cdc_seq c.

Lemma rx_inv_same R' tok' g' acc recv c c' : rx_same c c' -> rx_inv R' tok' g' acc recv c -> rx_inv R' tok' g' acc recv c'.
Proof.
  intros (E1 & E2 & E3 & E4 & E5 & E6 & E7 & E8 & E9 & E10 & E11) [].
  split; rewrite ?E1, ?E2, ?E3, ?E4, ?E5, ?E6, ?E7, ?E8, ?E9, ?E10, ?E11; done.
Qed.

Lemma tx_inv_same R tok g acc c c' : tx_same c c' -> tx_inv R tok g acc c -> tx_inv R tok g acc c'.
Proof.
  intros (E1 & E2 & E3 & E4 & E5 & E6 & E7 & E8 & E9 & E10 & E11 & E12 & E13 & E14 & E15) [].
  split; unfold quiet_flags in *; rewrite ?E1, ?E2, ?E3, ?E4, ?E5, ?E6, ?E7, ?E8, ?E9, ?E10, ?E11, ?E12, ?E13, ?E14, ?E15; done.
Qed.

(** The connection after a push of [len] bytes. *)
Definition pushed (wb : bool) (len : Z) (c : ums_connection) : ums_connection :=
  set_conn_pend_tx_wr (conn_pend_tx_wr c + 1)
    (ums_tx_advance_cursors len (upd_tx_ctrl (upd_pflags (set_write_blocked wb)) c)).

Lemma pushed_tx R tok g acc c wb len :
  tx_inv R tok g acc c -> 0 <= len -> g_sent g + len <= zlen acc -> g_sent g + len - g_acons g <= R ->
  tx_inv R tok (set_g_sent (g_sent g + len) g) acc (pushed wb len c).
Proof.
  intros [] Hl Hl1 Hl2. destruct ti_urg0 as (? & [? ?] & ?). split; simpl; try done; try lia.
  - rewrite ti_csent0. apply curs_add_at; [done|lia|lia].
  - rewrite ti_cprod0, ti_size0. apply curs_add_at; [done|lia|lia].
Qed.

(** The chunks in the peer's ring: one, or two when the free area wraps. *)
Lemma dst_chunks R sent acons len : buf_size R -> 0 <= acons <= sent -> 0 < len -> sent + len - acons <= R ->
  let dst_len := if wrap (curs_at R sent) =? wrap (curs_at R acons) then Z.min (R - count (curs_at R sent)) len else len in
  (dst_len = len /\ sent mod R + len <= R) \/ (dst_len = R - sent mod R /\ 0 < dst_len < len).
Proof.
  unfold buf_size. intros HR Ha Hl Hr. simpl. pose proof (Z.mod_pos_bound sent R ltac:(lia)).
  pose proof (Z.mod_pos_bound acons R ltac:(lia)). pose proof (u16_range (acons / R)).
  destruct (positions R acons sent) as [(E1 & E2 & E3)|(E1 & E2)]; [lia..| |]; rewrite E1.
  - rewrite Z.eqb_refl. lia.
  - rewrite wrap_succ.
    assert (((if u16 (acons / R) =? 65535 then 0 else u16 (acons / R) + 1) =? u16 (acons / R)) = false) as ->
      by (split_ifs; breflect; lia). lia.
Qed.

Section push.
Context (R R' tok tok' : Z) (acc acc' recv scq : list Z).

Lemma writes_inner_spec idx id len sent dst_len c s e :
  let size := zlen (sndbuf (conn e)) in
  post_results e = [] -> link_wf (lnk e) -> wr_tx_id (lnk e) + 2 < 2 ^ 64 -> slot_held idx id HandlerImm (lnk e) ->
  0 < tok < 4194304 -> token (local_tx_ctrl (conn e)) = tok -> urg_tx_pend (conn e) = false ->
  buf_size size -> buf_size R -> 0 <= sent -> 0 < len <= size -> len <= R -> tx_curs_sent (conn e) = curs_at size sent ->
  (dst_len = len /\ sent mod R + len <= R) \/ (dst_len = R - sent mod R /\ 0 < dst_len < len) ->
  exists l' wrs cs',
    ums_tx_ub_writes_inner idx len (sent mod size) (if sent mod size + dst_len <=? size then dst_len else size - sent mod size)
      (sent mod R) dst_len e =
      (0, set_sq (sq e ++ wrs) (set_lnk l' (set_conn (set_conn_pend_tx_wr (conn_pend_tx_wr (conn e) + 1)
            (ums_tx_advance_cursors len (conn e))) e))) /\
    sq_ok size R R' tok sent sent c s wrs cs' (sent + len) c s /\
    link_wf l' /\ wr_tx_id (lnk e) <= wr_tx_id l' <= wr_tx_id (lnk e) + 2 /\ Forall (pend_ok size l') cs' /\ NoDup cs'.*1 /\
    Forall (fun i => i = id \/ wr_tx_id (lnk e) < i) cs'.*1 /\
    forall id', 0 < id' <= wr_tx_id (lnk e) -> id' <> id -> pending l' id' = pending (lnk e) id'.
Proof.
  intros size Hpost Hwf Hids Hslot Htok Et Hurg HS HR Hs Hl HlR Ecs Hd. unfold ums_tx_ub_writes_inner. fold size.
  unfold buf_size in *. pose proof (Z.mod_pos_bound sent R ltac:(lia)). pose proof (Z.mod_pos_bound sent size ltac:(lia)) as Bs.
  assert (tx_curs_sent (ums_tx_advance_cursors len (conn e)) = curs_at size (sent + len)) as Ecur.
  { simpl. rewrite Ecs. apply curs_add_at; [done|lia|lia]. }
  pose proof Hslot as (_ & _ & Hidr).
  destruct Hd as [[-> Hfit]|[Ed Hd]].
  - rewrite Z.ltb_irrefl, Hurg.
    edestruct (ub_write_imm_spec idx id) as (imm & l' & E & I1 & I2 & W & N & P & Q); [done|done|done|lia|].
    rewrite E. eexists l', [_], [(id, Some (sent + len))]. split; [done|]. split.
    { cbn [sq_ok]. rewrite I1, I2, Et. replace (sent + len - sent) with len by lia.
      split_and!; try done; try lia. apply prepare_covers; lia. }
    split; [done|]. split; [lia|]. split; [|split; [apply NoDup_singleton|split; [by repeat constructor|]]].
    + constructor; [|done]. split; [simpl; lia|]. destruct P as (p & ? & ? & ? & Ec). exists p. by rewrite Ec.
    + intros id' Hid' Hne. apply Q; lia.
  - rewrite (proj2 (Z.ltb_lt _ _)) by lia.
    match goal with |- context [ums_tx_ub_write ?src ?dst e] =>
      destruct (ub_write_spec src dst e) as (l1 & E1 & W1 & N1 & P1 & F1 & S1); [done|done|done|] end. rewrite E1.
    simpl negb. cbv iota. set (e1 := set_sq _ _). cbn [urg_tx_pend conn]. change (conn e1) with (conn e). rewrite Hurg.
    assert ((if size <=? sent mod size + dst_len then sent mod size + dst_len - size else sent mod size + dst_len) = (sent + dst_len) mod size) as ->.
    { destruct (positions size sent (sent + dst_len)) as [(Q1 & Q2 & Q3)|(Q1 & Q2)]; [lia..| |];
        pose proof (Z.mod_pos_bound (sent + dst_len) size ltac:(lia)); split_ifs; breflect; lia. }
    match goal with |- context [ums_tx_ub_write_imm idx ?src 0 len true e1] =>
      destruct (ub_write_imm_spec idx id src 0 len true e1) as (imm & l' & E & I1 & I2 & W & N & P & Q);
        [done|done|by apply S1|simpl; lia|] end.
    rewrite E. assert ((sent + dst_len) mod R = 0) as E0.
    { destruct (positions R sent (sent + dst_len)) as [(Q1 & Q2 & Q3)|(Q1 & Q2)]; [lia..| |];
        pose proof (Z.mod_pos_bound (sent + dst_len) R ltac:(lia)); lia. }
    eexists l', [_; _], [(wr_tx_id (lnk e) + 2, None); (id, Some (sent + len))]. split.
    { unfold e1. simpl. by rewrite <- app_assoc. }
    split.
    { cbn [sq_ok]. split; [done|]. split; [done|]. exists dst_len.
      split; [lia|]. split; [apply prepare_covers; lia|]. split; [done|]. split; [lia|].
      change (conn e1) with (conn e) in I1. rewrite I1, I2, Et, E0. split_and!; try done; try lia.
      replace (sent + len - (sent + dst_len)) with (len - dst_len) by lia.
      pose proof (prepare_covers size (sent + dst_len) (len - dst_len) ltac:(lia) ltac:(lia) ltac:(lia)) as Hc.
      replace (Z.min (len - dst_len) (size - (sent + dst_len) mod size)) with
        (if (sent + dst_len) mod size + (len - dst_len) <=? size then len - dst_len else size - (sent + dst_len) mod size); [done|].
      split_ifs; breflect; lia. }
    change (lnk e1) with l1 in *. split; [done|]. split; [lia|]. split; [|split; [|split]].
    + constructor; [|constructor; [|done]].
      * split; [simpl; lia|]. simpl. intros p. rewrite Q by lia. by rewrite F1.
      * split; [simpl; lia|]. destruct P as (p & ? & ? & ? & Ec). exists p. rewrite Ec. done.
    + simpl. apply NoDup_cons. split; [|apply NoDup_singleton]. intros Hin%list_elem_of_singleton. lia.
    + simpl. constructor; [lia|]. constructor; [by left|done].
    + intros id' Hid' Hne. rewrite Q by lia. apply P1.
Qed.
End push.

(** A free slot for the connection. *)
Lemma ums_get_free_slot_spec n a h R R' tok g g' scq cs1 cs2 size e :
  out_inv (S n) R R' tok g g' scq cs1 cs2 size e ->
  match ums_get_free_slot a h e with
  | (inl idx, e') => exists l', e' = set_lnk l' e /\ slot_held idx (wr_tx_id l') h l' /\
      out_inv n R R' tok g g' scq cs1 cs2 size e' /\ Forall (fun x => x.1 <> wr_tx_id l') (cs1 ++ cs2)
  | (inr rc, e') => exists l', e' = set_lnk l' e /\ out_inv n R R' tok g g' scq cs1 cs2 size e'
  end.
Proof.
  intros Ho. pose proof Ho as [Hpost Hwf Hids Herr Hscq Hnd Hpend Hcomp Hsq].
  assert (ids_left (lnk e)) as Hleft by (unfold ids_left; lia).
  pose proof (get_free_slot_spec a h (lnk e) Hwf Hleft) as H. pose proof (wf_id _ Hwf) as H0. unfold ums_get_free_slot.
  destruct (ums_wr_tx_get_free_slot a h (lnk e)) as [[idx|rc] l1].
  - destruct H as (W1 & N1 & M1 & P1 & Q1). destruct (killed (conn e)).
    + destruct (put_slot_spec idx l1 _ W1 M1 P1) as (W2 & N2 & Q2). eexists. split; [done|].
      eapply out_inv_link; [done|done|lia|lia|]. intros id Hid. rewrite Q2 by lia. simpl. rewrite decide_False by lia. by apply Q1.
    + exists l1. split; [done|]. split; [rewrite N1; split_and!; [done|done|lia|lia]|].
      split; [eapply out_inv_link; [done|done|lia|lia|done]|]. eapply Forall_impl; [done|]. intros x [Hx _]. lia.
  - destruct H as (_ & W1 & N1 & Q1). exists l1. split; [done|]. eapply out_inv_link; [done|done|lia|lia|]. intros. apply Q1.
Qed.

Section push.
Context (R R' tok tok' : Z) (acc acc' recv scq : list Z).
Abbreviation EP n := (ep_inv n R R' tok tok' acc acc' recv scq).

(** How the steps of a sender change the ghost positions: sent and the sequence
    number grow in its direction, the confirmed position in the other. *)
Definition tx_upd (g g1 g' g1' : gpos) : Prop :=
  g1 = set_g_seq1 (g_seq1 g1) (set_g_sent (g_sent g1) g) /\ g1' = set_g_conf (g_conf g1') g'.

Lemma tx_upd_refl g g' : tx_upd g g g' g'.
Proof. split; [by destruct g|by destruct g']. Qed.

Lemma tx_upd_trans g1 g2 g3 g1' g2' g3' : tx_upd g1 g2 g1' g2' -> tx_upd g2 g3 g2' g3' -> tx_upd g1 g3 g1' g3'.
Proof. intros [E1 E2] [E3 E4]. split; [rewrite E3, E1; done|rewrite E4, E2; done]. Qed.

(** The endpoint stays in the system. *)
Definition stays (n : nat) (g g' : gpos) (e : endpoint) : Prop :=
  exists g1 g1', tx_upd g g1 g' g1' /\ EP n g1 g1' e.

Lemma ub_writes_spec n g g' cs1 cs2 e idx id :
  tx_inv R tok g acc (conn e) -> out_inv (S n) R R' tok g g' scq cs1 cs2 (zlen (sndbuf (conn e))) e ->
  slot_held idx id HandlerImm (lnk e) -> Forall (fun x => x.1 <> id) (cs1 ++ cs2) ->
  g_sent g < zlen acc -> g_sent g - g_acons g < R ->
  exists len wb e', ums_tx_ub_writes idx e = (0, e') /\ conn e' = pushed wb len (conn e) /\ sk e' = sk e /\
    tx_inv R tok (set_g_sent (g_sent g + len) g) acc (conn e') /\
    exists cs, out_inv n R R' tok (set_g_sent (g_sent g + len) g) g' scq cs1 (cs2 ++ cs) (zlen (sndbuf (conn e))) e'.
Proof.
  intros Htx Ho Hslot Hfresh Hdata Hroom. pose proof Htx as [HS HR Hsize [Htok Et] [Hf1 Hf2] [Hs1 Hs2] [Ha1 Ha2] Cp Cs Cf Cd Cc Sp Rp Ri [U1 _] Sq].
  pose proof Ho as [Hpost Hwf Hids Herr Hscq Hnd Hpend Hcomp Hsq].
  unfold ums_tx_ub_writes. rewrite Cs, Cp, Rp, Cd, Cc, Hsize, curs_diff_at by (done || lia).
  rewrite !(proj2 (Z.leb_gt _ _)) by lia. set (wb := R - (g_sent g - g_acons g) <=? zlen acc - g_sent g).
  set (len := Z.min _ _). assert (0 < len /\ g_sent g + len <= zlen acc /\ g_sent g + len - g_acons g <= R) as (Hl1 & Hl2 & Hl3) by lia.
  clearbody wb len. pose proof (dst_chunks R (g_sent g) (g_acons g) len HR ltac:(lia) Hl1 Hl3) as Hd. cbv zeta in Hd.
  set (dst_len := if wrap _ =? _ then _ else _) in *. clearbody dst_len. cbn [count curs_at].
  set (e1 := upd_conn _ e).
  destruct (writes_inner_spec R R' tok idx id len (g_sent g) dst_len (g_conf g') (g_seq1 g) e1)
    as (l' & wrs & cs & E & Hsq' & W' & N' & P' & D' & I' & Q'); try done; try (simpl; lia).
  change (conn e1) with (upd_tx_ctrl (upd_pflags (set_write_blocked wb)) (conn e)) in *. change (sq e1) with (sq e) in *.
  change (lnk e1) with (lnk e) in *.
  change (zlen (sndbuf (upd_tx_ctrl (upd_pflags (set_write_blocked wb)) (conn e)))) with (zlen (sndbuf (conn e))) in *.
  rewrite E. simpl negb. cbv iota.
  exists len, wb, (set_sq (sq e ++ wrs) (set_lnk l' (set_conn (pushed wb len (conn e)) e))). split.
  { match goal with |- context [urg_tx_pend ?c] => change (urg_tx_pend c) with (urg_tx_pend (conn e)) end. by rewrite U1. }
  split; [done|]. split; [done|]. split; [apply pushed_tx; [done|lia..]|].
  exists cs. eapply out_inv_post; try done; simpl; try lia.
  rewrite Forall_forall in I'. rewrite Forall_forall in Hfresh. rewrite Forall_forall in Hpend. apply Forall_forall. intros x Hx. destruct (Hpend x Hx) as [Hr _]. specialize (Hfresh x Hx).
  split; [by apply Q'|]. intros Hin. destruct (I' _ Hin); lia.
Qed.

Lemma ep_inv_mono n m g g' e : EP n g g' e -> (m <= n)%nat -> EP m g g' e.
Proof.
  intros [Htx Hrx (cs1 & cs2 & [])] Hm. split; [done..|]. exists cs1, cs2. split; try done. lia.
Qed.

Lemma stays_mono n m g g' e : stays n g g' e -> (m <= n)%nat -> stays m g g' e.
Proof. intros (g1 & g1' & Hu & H) Hm. exists g1, g1'. split; [done|]. by eapply ep_inv_mono. Qed.

Lemma stays_here n g g' e : EP n g g' e -> stays n g g' e.
Proof. intros H. exists g, g'. split; [apply tx_upd_refl|done]. Qed.

Lemma stays_step n m g g' e e' : stays n g g' e -> (forall g1 g1', EP n g1 g1' e -> stays m g1 g1' e') -> stays m g g' e'.
Proof.
  intros (g1 & g1' & Hu & H) Hs. destruct (Hs g1 g1' H) as (g2 & g2' & Hu2 & H2). exists g2, g2'. split; [by eapply tx_upd_trans|done].
Qed.

(** Changes that no direction sees. *)
Lemma ep_inv_same n g g' e e' :
  EP n g g' e -> tx_same (conn e) (conn e') -> rx_same (conn e) (conn e') -> lnk e' = lnk e -> sq e' = sq e ->
  post_results e' = post_results e -> sk e' = sk e -> EP n g g' e'.
Proof.
  intros [Htx Hrx (cs1 & cs2 & [])] Ht Hr El Es Ep Ek. split; [by eapply tx_inv_same|by eapply rx_inv_same|].
  exists cs1, cs2. destruct Ht as (Eb & _). rewrite Eb. split; rewrite ?El, ?Es, ?Ep, ?Ek; done.
Qed.

Lemma stays_same n g g' e e' :
  stays n g g' e -> tx_same (conn e) (conn e') -> rx_same (conn e) (conn e') -> lnk e' = lnk e -> sq e' = sq e ->
  post_results e' = post_results e -> sk e' = sk e -> stays n g g' e'.
Proof. intros (g1 & g1' & Hu & H) ? ? ? ? ? ?. exists g1, g1'. split; [done|]. by eapply ep_inv_same. Qed.

Lemma ep_inv_sock_error n g g' e : EP n g g' e -> EP n g g' (sock_error e).2.
Proof. intros [Htx Hrx (cs1 & cs2 & [])]. split; [done..|]. exists cs1, cs2. by split. Qed.

(** What a step keeps for the calls that contain it. *)
Definition keeps (e e' : endpoint) : Prop :=
  killed (conn e') = killed (conn e) /\ (sk_err (sk e) <> ECONNABORTED -> sk e' = sk e).

#[global] Instance keeps_preorder : PreOrder keeps.
Proof.
  split; [done|]. intros x y z [E1 E2] [E3 E4]. split; [congruence|]. intros H. rewrite <- (E2 H). apply E4. by rewrite E2.
Qed.

Lemma slot_err_spec n g g' rc e : EP n g g' e ->
  exists rc' e', ums_tx_handle_get_free_slot_err rc e = (rc', e') /\ stays n g g' e' /\ keeps e e'.
Proof.
  intros H. unfold ums_tx_handle_get_free_slot_err, sock_error.
  split_ifs; breflect; eexists _, _; (split; [done|]); (split; [apply stays_here; first [eapply ep_inv_same; done|by apply ep_inv_sock_error]|done]).
Qed.

Lemma sndbuf_push_spec n a g g' e : EP (S (S n)) g g' e ->
  exists rc e', ums_tx_sndbuf_nonempty a e = (rc, e') /\ stays n g g' e' /\ keeps e e'.
Proof.
  intros He. assert (EP n g g' e) as He' by (eapply ep_inv_mono; [done|lia]).
  pose proof He as [Htx Hrx (cs1 & cs2 & Ho)].
  assert (forall rc : Z, exists rc' e', (rc, e) = (rc', e') /\ stays n g g' e' /\ keeps e e') as Hsame.
  { intros rc. exists rc, e. split; [done|]. split; [by apply stays_here|done]. }
  unfold ums_tx_sndbuf_nonempty, ums_tx_prepared_sends.
  pose proof Htx as [HS HR Hsize [Htok Et] [Hf1 Hf2] [Hs1 Hs2] [Ha1 Ha2] Cp Cs Cf Cd Cc Sp Rp Ri [U1 _] Sq].
  rewrite Cp, Cs, curs_diff_at, Rp by (done || lia).
  destruct (Z.leb_spec (zlen acc - g_sent g) 0); [apply Hsame|].
  destruct (Z.leb_spec (R - (g_sent g - g_acons g)) 0); [apply Hsame|].
  destruct (killed (conn e) || _); [apply Hsame|].
  unfold ums_tx_sndbuf_nonempty_handler. destruct (sendable (lnk e)); simpl negb; cbv iota; [|apply Hsame]. rewrite U1.
  pose proof (ums_get_free_slot_spec (S n) a HandlerImm _ _ _ _ _ _ _ _ _ _ Ho) as Hslot.
  destruct (ums_get_free_slot a HandlerImm e) as [[idx|rc] e1].
  - destruct Hslot as (l' & -> & Hheld & Ho1 & Hfresh).
    destruct (ub_writes_spec n g g' cs1 cs2 (set_lnk l' e) idx (wr_tx_id l')) as (len & wb & e2 & -> & Ec & Ek & Htx2 & cs & Ho2);
      [done|done|done|done|lia|lia|].
    simpl negb. cbv iota. exists 0, e2. split; [done|]. change (conn (set_lnk l' e)) with (conn e) in *.
    split; [|split; [by rewrite Ec|intros _; by rewrite Ek]].
    exists (set_g_sent (g_sent g + len) g), g'. split; [split; [by destruct g|by destruct g']|].
    split; [done|rewrite Ec; by apply (rx_inv_same _ _ _ _ _ (conn e))|]. exists cs1, (cs2 ++ cs). rewrite Ec. exact Ho2.
  - destruct Hslot as (l' & -> & Ho1). destruct (slot_err_spec n g g' rc (set_lnk l' e)) as (rc' & e' & -> & Hst & Hk).
    + apply (ep_inv_mono (S n)); [|lia]. split; [done|done|]. by exists cs1, cs2.
    + exists rc', e'. done.
Qed.

(** ** Sending a CDC message *)

Definition sent_cdc (cfed : cursor) (c : ums_connection) : ums_connection :=
  let c := set_tx_cdc_seq (u16 (tx_cdc_seq c + 1)) c in
  let c := upd_tx_ctrl (set_seqno (tx_cdc_seq c)) c in
  let c := set_conn_pend_tx_wr (conn_pend_tx_wr c + 1) c in
  upd_rx_ctrl (upd_pflags (set_cons_curs_upd_req false)) (set_rx_curs_confirmed cfed c).

Lemma cdc_msg_send_run idx id e : post_results e = [] -> link_wf (lnk e) -> slot_held idx id HandlerCdc (lnk e) ->
  exists k l', ums_cdc_msg_send idx e =
      (0, set_sq (sq e ++ [WrSend id (ums_host_msg_to_cdc (set_seqno (u16 (tx_cdc_seq (conn e) + 1)) (local_tx_ctrl (conn e))) k)])
            (set_lnk l' (set_conn (sent_cdc (cons (local_tx_ctrl (conn e))) (conn e)) e))) /\
    link_wf l' /\ wr_tx_id l' = wr_tx_id (lnk e) /\ (exists p, pending l' id = Some p /\ pend_handler p = HandlerCdc) /\
    forall id', id' <> 0 -> id' <> id -> pending l' id' = pending (lnk e) id'.
Proof.
  intros Hpost Hwf Hslot. unfold ums_cdc_msg_send, ums_cdc_add_pending_send, upd_lnk. set (f := fun p => {| pend_conn := true |}).
  destruct (slot_fill idx id HandlerCdc f (lnk e) Hwf Hslot) as (W & I & P & Q).
  set (e1 := upd_conn _ (upd_conn _ _)). destruct (announce_credits_spec e1) as (k & l' & -> & HT).
  pose proof HT as (_ & ET & EN). unfold ums_wr_tx_send. rewrite ubcore_post_ok by done.
  assert (slot_wr_id idx l' = id) as EI by (unfold slot_wr_id in *; by rewrite ET).
  cbn [lnk upd_conn set_lnk set_conn sq conn]. rewrite EI. exists k, l'. split; [done|]. split; [by eapply same_table_wf|].
  split; [done|]. split.
  - exists {| wr_id := id; pend_handler := HandlerCdc; pend_idx := idx; priv := f priv_zero |}. split; [|done].
    by rewrite (pending_same _ _ _ ET).
  - intros. rewrite (pending_same _ _ _ ET). by apply Q.
Qed.

Lemma u16_succ s : u16 (u16 s + 1) = u16 (s + 1).
Proof. unfold u16. zmod. Qed.

Lemma cdc_msg_send_spec n g g' cs1 cs2 e idx id :
  tx_inv R tok g acc (conn e) -> rx_inv R' tok' g' acc' recv (conn e) ->
  out_inv n R R' tok g g' scq cs1 cs2 (zlen (sndbuf (conn e))) e ->
  slot_held idx id HandlerCdc (lnk e) -> Forall (fun x => x.1 <> id) (cs1 ++ cs2) ->
  exists e', ums_cdc_msg_send idx e = (0, e') /\ keeps e e' /\
    EP n (set_g_seq1 (g_seq1 g + 1) g) (set_g_conf (zlen recv) g') e'.
Proof.
  intros Htx Hrx Ho Hslot Hfresh. pose proof Ho as [Hpost Hwf Hids Herr Hscq Hnd Hpend Hcomp Hsq].
  destruct (cdc_msg_send_run idx id e Hpost Hwf Hslot) as (k & l' & -> & W & N & (p & P1 & P2) & Q).
  pose proof Hslot as (_ & _ & Hidr). eexists. split; [done|]. split; [done|].
  pose proof Htx as [HS HR Hsize [Htok Et] [Hf1 Hf2] [Hs1 Hs2] [Ha1 Ha2] Cp Cs Cf Cd Cc Sp Rp Ri (U1 & U2 & U3) Sq].
  pose proof Hrx as [HR' Hsize' [Htok' Et'] (G1 & G2 & G3 & G4) Cp' Cc' Cf' Av Ri' Rc (V1 & V2) Cl Sq' Fr].
  split; [| |exists cs1, (cs2 ++ [(id, None)])].
  - split; try done. simpl. rewrite Sq. apply u16_succ.
  - split; simpl; try done; lia.
  - eapply out_inv_post; try done; simpl; try lia.
    + split; [done|]. split; [done|]. exists (zlen recv). split; [lia|]. split; [|done].
      unfold msg_ok. simpl. rewrite Et, Cd, Cc', Sq, u16_succ. done.
    + rewrite Forall_forall in Hfresh. rewrite Forall_forall in Hpend. apply Forall_forall. intros x Hx.
      destruct (Hpend x Hx) as [Hr _]. specialize (Hfresh x Hx). split; [apply Q; [lia|done]|].
      intros Hin%list_elem_of_singleton. done.
    + constructor; [|done]. split; [simpl; lia|]. simpl. intros q. rewrite P1. intros [= <-]. done.
    + apply NoDup_singleton.
Qed.

Lemma cdc_send_spec n a g g' e : EP (S n) g g' e ->
  exists rc e', ums_cdc_get_slot_and_msg_send a e = (rc, e') /\ stays n g g' e' /\ keeps e e'.
Proof.
  intros He. assert (EP n g g' e) as He' by (eapply ep_inv_mono; [done|lia]).
  pose proof He as [Htx Hrx (cs1 & cs2 & Ho)].
  assert (forall rc : Z, exists rc' e', (rc, e) = (rc', e') /\ stays n g g' e' /\ keeps e e') as Hsame.
  { intros rc. exists rc, e. split; [done|]. split; [by apply stays_here|done]. }
  unfold ums_cdc_get_slot_and_msg_send. destruct (freed (conn e)); [apply Hsame|]. destruct (conn_id (conn e) =? 0); [apply Hsame|].
  destruct (negb (sendable (lnk e))); [apply Hsame|].
  pose proof (ums_get_free_slot_spec n a HandlerCdc _ _ _ _ _ _ _ _ _ _ Ho) as Hslot.
  destruct (ums_get_free_slot a HandlerCdc e) as [[idx|rc] e1].
  - destruct Hslot as (l' & -> & Hheld & Ho1 & Hfresh).
    destruct (cdc_msg_send_spec n g g' cs1 cs2 (set_lnk l' e) idx (wr_tx_id l')) as (e2 & -> & Hk & H2); [done..|].
    exists 0, e2. split; [done|]. split; [|done]. eexists _, _. split; [|done]. split; [by destruct g|by destruct g'].
  - destruct Hslot as (l' & -> & Ho1). unfold ums_cdc_handle_get_free_slot_failed, sock_error.
    assert (EP n g g' (set_lnk l' e)) as H1 by (split; [done|done|by exists cs1, cs2]).
    split_ifs; breflect; eexists _, _; (split; [done|]); (split; [apply stays_here; first [eapply ep_inv_same; done|by apply ep_inv_sock_error]|done]).
Qed.

Lemma tx_pending_spec n a g g' e : EP (S (S n)) g g' e ->
  stays n g g' (ums_tx_pending a e) /\ keeps e (ums_tx_pending a e).
Proof.
  intros He. assert (EP n g g' e) as He' by (eapply ep_inv_mono; [done|lia]). unfold ums_tx_pending.
  destruct (negb _); [split; [by apply stays_here|done]|]. destruct (freed (conn e)); [split; [by apply stays_here|done]|].
  by destruct (sndbuf_push_spec n a g g' e He) as (rc & e' & -> & Hs & Hk).
Qed.

Lemma consumer_update_spec n force g g' e : EP (S n) g g' e ->
  stays n g g' (ums_tx_consumer_update force e) /\ keeps e (ums_tx_consumer_update force e).
Proof.
  intros He. assert (EP n g g' e) as He' by (eapply ep_inv_mono; [done|lia]). unfold ums_tx_consumer_update.
  set (clear := fun e1 : endpoint => if write_blocked (prod_flags (local_rx_ctrl (conn e1))) && (bytes_to_rcv (conn e1) =? 0)
    then upd_conn (upd_rx_ctrl (upd_pflags (set_write_blocked false))) e1 else e1).
  assert (forall e1, stays n g g' e1 /\ keeps e e1 -> stays n g g' (clear e1) /\ keeps e (clear e1)) as Hclear.
  { intros e1 [H1 K1]. unfold clear. split_ifs; [|done]. split; [by eapply stays_same|done]. }
  destruct (_ || force || _); [|apply Hclear; split; [by apply stays_here|done]].
  destruct (killed (conn e) || _); [split; [by apply stays_here|done]|].
  destruct (cdc_send_spec n false g g' e He) as (rc & e' & -> & Hs & Hk).
  destruct (_ && negb _); [|by apply Hclear]. split; [by eapply stays_same|done].
Qed.
End push.

(** ** Completions *)

Lemma comps_ok_le f cs hi : comps_ok f cs hi -> f <= hi.
Proof. revert f. induction cs as [|[i [e|]] cs IH]; simpl; intros f H; [done| |by apply IH]. destruct H as [? ?%IH]. lia. Qed.

Section completion.
Context (R R' tok tok' : Z) (acc acc' recv rest : list Z).
Abbreviation STAYS := (stays R R' tok tok' acc acc' recv rest).

Lemma pend_tx_wr_done_spec n owned g g' e : ep_inv (S (S n)) R R' tok tok' acc acc' recv rest g g' e ->
  STAYS n g g' (pend_tx_wr_done owned e).
Proof.
  intros He. unfold pend_tx_wr_done. set (e1 := upd_conn _ e).
  assert (ep_inv (S (S n)) R R' tok tok' acc acc' recv rest g g' e1) as H1 by by eapply ep_inv_same.
  assert (STAYS n g g' e1) as H2 by (apply stays_here; eapply ep_inv_mono; [done|lia]).
  destruct (_ =? 0); [|done]. destruct owned; [by eapply stays_same|]. by apply tx_pending_spec.
Qed.

(** The completed request leaves the queue. *)
Lemma out_inv_done n g g' id o cs1 cs2 size e l' g1 :
  out_inv n R R' tok g g' (id :: rest) ((id, o) :: cs1) cs2 size e -> link_wf l' -> wr_tx_id l' = wr_tx_id (lnk e) ->
  (forall id', id' <> 0 -> id' <> id -> pending l' id' = pending (lnk e) id') ->
  g1 = set_g_fin (g_fin g1) g -> comps_ok (g_fin g1) cs1 (g_ann g) ->
  out_inv n R R' tok g1 g' rest cs1 cs2 size (set_lnk l' e).
Proof.
  intros [] Hwf Hn Hp Eg Hc. simpl in *. apply NoDup_cons in oi_nodup0 as [Hnin Hnd]. apply Forall_cons in oi_pend0 as [_ Hpd].
  split; simpl; try done.
  - by rewrite Hn.
  - by injection oi_scq0.
  - rewrite Forall_forall in Hpd. apply Forall_forall. intros x Hx. pose proof (Hpd x Hx) as [Hr _].
    eapply pend_ok_frame; [by apply Hpd|lia|]. intros _. apply Hp; [lia|]. intros <-. apply Hnin. by apply list_elem_of_fmap_2.
  - by rewrite Eg.
  - by rewrite Eg.
Qed.

Lemma confirm_sent_tx g c e p : tx_inv R tok g acc c -> pend_cursor p = curs_at (zlen (sndbuf c)) e -> g_fin g <= e <= g_ann g ->
  tx_inv R tok (set_g_fin e g) acc (confirm_sent p c).
Proof.
  intros [] Ec He. destruct ti_urg0 as (? & ? & ?). split; simpl; try done; try lia.
  - rewrite ti_space0, ti_cfin0, Ec, curs_diff_at by (done || lia). lia.
  - by eapply ring_has_sub; [..|done]; lia.
Qed.

Lemma tx_completion_spec n owned id g g' e : ep_inv (S (S n)) R R' tok tok' acc acc' recv (id :: rest) g g' e ->
  exists f, g_fin g <= f <= g_ann g /\ STAYS n (set_g_fin f g) g' (tx_completion owned id true e).
Proof.
  intros [Htx Hrx (cs1 & cs2 & Ho)]. pose proof Ho as [Hpost Hwf Hids Herr Hscq Hnd Hpend Hcomp Hsq].
  destruct cs1 as [|[id' o] cs1]; [done|]. simpl in Hscq. injection Hscq as <- Hrest.
  apply Forall_cons in Hpend as [[Hr Hp] _]. simpl in Hr, Hp. pose proof (comps_ok_le _ _ _ Hcomp) as Hle.
  assert (set_g_fin (g_fin g) g = g) as Eg by by destruct g.
  unfold tx_completion. destruct o as [f|].
  - destruct Hp as (p & Hp & Hh & Hc & Hcur). destruct Hcomp as [Hf Hcomp]. pose proof (comps_ok_le _ _ _ Hcomp).
    destruct (process_cqe_spec id true (lnk e) p Hwf) as (l' & -> & W & N & Q); [lia|done|].
    rewrite Hh. exists f. split; [lia|]. unfold ums_imm_tx_handler. rewrite Hc. simpl negb. cbv iota.
    apply pend_tx_wr_done_spec. split; [by apply confirm_sent_tx|by apply (rx_inv_same _ _ _ _ _ (conn e))|]. exists cs1, cs2.
    eapply (out_inv_done (S (S n)) g g' id (Some f) cs1 cs2 _ (upd_conn (confirm_sent (priv p)) e)); try done; [by apply out_inv_conn|].
    intros id' H1 H2. rewrite Q by done. by rewrite decide_False.
  - exists (g_fin g). split; [lia|]. rewrite Eg. destruct (pending (lnk e) id) as [p|] eqn:E.
    + destruct (process_cqe_spec id true (lnk e) p Hwf) as (l' & -> & W & N & Q); [lia|done|].
      rewrite (Hp p eq_refl). unfold ums_cdc_tx_handler. cbn [conn upd_conn set_lnk set_conn urg_tx_pend set_tx_cdc_seq_fin].
      destruct (ti_urg _ _ _ _ _ Htx) as (-> & _). apply pend_tx_wr_done_spec.
      split; [by apply (tx_inv_same _ _ _ _ (conn e))|by apply (rx_inv_same _ _ _ _ _ (conn e))|]. exists cs1, cs2.
      eapply (out_inv_done (S (S n)) g g' id None cs1 cs2 _ (upd_conn (set_tx_cdc_seq_fin (pend_ctrl_seq (priv p))) e)); try done; [by apply out_inv_conn|].
      intros id' H1 H2. rewrite Q by done. by rewrite decide_False.
    + rewrite process_cqe_unknown by done. apply stays_here. apply (ep_inv_mono _ _ _ _ _ _ _ _ (S (S n))); [|lia].
      split; [done|done|]. exists cs1, cs2. eapply out_inv_done; done.
Qed.
End completion.

(** ** sendmsg *)

Lemma copy_chunk_spec off len st msg e s lo hi :
  0 <= len <= msg_readable msg -> msg_readable msg = zlen (msg_data msg) -> 0 < zlen (sndbuf (conn e)) -> 0 <= lo <= hi ->
  off = hi mod zlen (sndbuf (conn e)) -> ring_has (sndbuf (conn e)) lo hi s -> off + len <= zlen (sndbuf (conn e)) ->
  hi + len - lo <= zlen (sndbuf (conn e)) -> hi + len <= zlen s -> slice (msg_data msg) 0 len = slice s hi len ->
  exists buf, copy_chunk off len st msg e =
      Some (true, {| copylen := copylen st; send_remaining := send_remaining st - len; send_done := send_done st + len;
                     send_break := send_break st |},
            {| msg_data := drop (Z.to_nat len) (msg_data msg); msg_readable := msg_readable msg - len;
               msg_oob := msg_oob msg; msg_more := msg_more msg |}, upd_conn (set_sndbuf buf) e) /\
    zlen buf = zlen (sndbuf (conn e)) /\ ring_has buf lo (hi + len) s.
Proof.
  intros Hl Hr HN Hlo -> Hring Hfit Hroom Hs Hbs. unfold copy_chunk, memcpy_from_msg. rewrite (proj2 (Z.leb_le _ _)) by lia.
  change (take (Z.to_nat len) (msg_data msg)) with (slice (msg_data msg) 0 len).
  assert (zlen (slice (msg_data msg) 0 len) = len) as El by (apply zlen_slice; lia).
  destruct (ring_write (sndbuf (conn e)) lo hi s (slice (msg_data msg) 0 len)) as (buf & -> & E & H); rewrite ?El; try done.
  rewrite El in H. exists buf. done.
Qed.

(** The endpoint once [n] bytes [bs] have been copied and counted. *)
Definition accept (buf : list Z) (n : Z) (e : endpoint) : endpoint :=
  let e := upd_conn (set_sndbuf buf) e in
  let e := upd_conn (set_tx_curs_prep (ums_curs_add (zlen (sndbuf (conn e))) (tx_curs_prep (conn e)) n)) e in
  upd_conn (fun c => set_sndbuf_space (sndbuf_space c - n) c) e.

Lemma sendmsg_do_spec R tok g acc st msg e :
  tx_inv R tok g acc (conn e) -> 0 < sndbuf_space (conn e) -> send_remaining st = zlen (msg_data msg) -> 0 < send_remaining st ->
  msg_readable msg = zlen (msg_data msg) ->
  exists n buf, 0 < n <= zlen (msg_data msg) /\ zlen buf = zlen (sndbuf (conn e)) /\
    ums_tx_sendmsg_do st msg e =
      Some (true, {| copylen := n; send_remaining := send_remaining st - n; send_done := send_done st + n;
                     send_break := send_break st |},
            {| msg_data := drop (Z.to_nat n) (msg_data msg); msg_readable := msg_readable msg - n;
               msg_oob := msg_oob msg; msg_more := msg_more msg |}, upd_conn (set_sndbuf buf) e) /\
    n <= sndbuf_space (conn e) /\ ring_has buf (g_fin g) (zlen acc + n) (acc ++ slice (msg_data msg) 0 n).
Proof.
  intros [] Hsp Hrem Hpos Hrd. unfold ums_tx_sendmsg_do. rewrite (proj2 (Z.leb_gt _ _)) by lia.
  set (d := msg_data msg) in *. set (n := Z.min (send_remaining st) (sndbuf_space (conn e))). set (s := acc ++ slice d 0 n).
  assert (zlen s = zlen acc + n) as Es by (unfold s; rewrite zlen_app, zlen_slice; lia).
  rewrite ti_cprep0. cbn [count curs_at]. set (sz := zlen (sndbuf (conn e))) in *. pose proof (zlen_nonneg acc) as Ha.
  unfold buf_size in ti_S0. pose proof (Z.mod_pos_bound (zlen acc) sz ltac:(lia)) as Hb. set (k := Z.min n _).
  assert (forall p l, 0 <= p -> 0 <= l -> p + l <= n -> slice d p l = slice s (zlen acc + p) l) as Hsl.
  { intros p l Hp Hl Hpl. apply list_eq_zget; [rewrite !zlen_slice; lia|]. intros i Hi. rewrite zlen_slice in Hi by lia.
    rewrite !zget_slice by lia. unfold s. rewrite zget_app_r by lia. rewrite zget_slice by lia. f_equal. lia. }
  destruct (copy_chunk_spec (zlen acc mod sz) k {| copylen := n; send_remaining := send_remaining st; send_done := send_done st; send_break := send_break st |} msg e s (g_fin g) (zlen acc)) as (buf & -> & Eb & Hr1); try done; fold sz; try lia.
  { apply ring_has_app; [lia|lia|done]. }
  { fold d. rewrite (Hsl 0 k) by lia. f_equal. lia. }
  cbn [mbind option_bind copylen send_remaining send_done send_break negb]. exists n. destruct (Z.eqb_spec k n) as [Ek|Ek].
  - exists buf. clearbody k. subst k. split; [lia|]. split; [done|]. split; [done|]. split; [lia|done].
  - fold d. destruct (copy_chunk_spec 0 (n - k) {| copylen := n; send_remaining := send_remaining st - k; send_done := send_done st + k; send_break := send_break st |}
      {| msg_data := drop (Z.to_nat k) d; msg_readable := msg_readable msg - k; msg_oob := msg_oob msg; msg_more := msg_more msg |}
      (upd_conn (set_sndbuf buf) e) s (g_fin g) (zlen acc + k)) as (buf' & -> & Eb' & Hr2);
      cbn [msg_readable msg_data conn upd_conn set_conn sndbuf set_sndbuf]; rewrite ?Eb; fold sz; try done; try lia.
    { unfold zlen in *. rewrite length_drop. lia. }
    { destruct (positions sz (zlen acc) (zlen acc + k)) as [(Q1 & Q2 & Q3)|(Q1 & Q2)]; [lia..| |];
        pose proof (Z.mod_pos_bound (zlen acc + k) sz ltac:(lia)); lia. }
    { rewrite <- (Hsl k (n - k)) by lia. unfold slice. by rewrite drop_0. }
    exists buf'. split; [lia|]. split; [rewrite Eb'; exact Eb|]. split; [|split; [lia|by replace (zlen acc + n) with (zlen acc + k + (n - k)) by lia]].
    cbn [copylen send_remaining send_done send_break msg_data msg_readable msg_oob msg_more]. rewrite drop_drop.
    replace (Z.to_nat k + Z.to_nat (n - k))%nat with (Z.to_nat n) by lia.
    replace (send_remaining st - k - (n - k)) with (send_remaining st - n) by lia.
    replace (send_done st + k + (n - k)) with (send_done st + n) by lia.
    by replace (msg_readable msg - k - (n - k)) with (msg_readable msg - n) by lia.
Qed.

Lemma accept_tx R tok g acc bs n buf e :
  tx_inv R tok g acc (conn e) -> zlen buf = zlen (sndbuf (conn e)) -> n = zlen bs -> n <= sndbuf_space (conn e) ->
  ring_has buf (g_fin g) (zlen acc + n) (acc ++ bs) -> tx_inv R tok g (acc ++ bs) (conn (accept buf n e)).
Proof.
  intros [] Eb -> Hsp Hr. pose proof (zlen_nonneg bs). pose proof (zlen_nonneg acc). unfold buf_size in *.
  destruct ti_urg0 as (? & ? & ?). split; simpl; rewrite ?Eb, ?zlen_app; try done; try lia.
  rewrite ti_cprep0. apply curs_add_at; [done|lia|lia].
Qed.

Section send.
Context (R R' tok tok' : Z) (acc' recv scq : list Z).
Abbreviation EP n acc := (ep_inv n R R' tok tok' acc acc' recv scq).
Abbreviation STAYS n acc := (stays R R' tok tok' acc acc' recv scq n).

Lemma accept_ep n acc bs k buf g g' e : EP n acc g g' e -> zlen buf = zlen (sndbuf (conn e)) -> k = zlen bs ->
  k <= sndbuf_space (conn e) -> ring_has buf (g_fin g) (zlen acc + k) (acc ++ bs) -> EP n (acc ++ bs) g g' (accept buf k e).
Proof.
  intros [Htx Hrx (cs1 & cs2 & Ho)] Eb Ek Hk Hr. split.
  - by eapply accept_tx.
  - by apply (rx_inv_same _ _ _ _ _ (conn e)).
  - exists cs1, cs2. simpl. rewrite Eb. repeat apply out_inv_conn. done.
Qed.

(** The calls that the loop may still make without an error. *)
Definition may_send (e : endpoint) : Prop :=
  send_shutdown (sk e) = false /\ sk_err (sk e) = 0 /\ killed (conn e) = false.

Lemma may_send_keeps e e' : may_send e -> keeps e e' -> may_send e'.
Proof. intros (H1 & H2 & H3) [E1 E2]. rewrite H2 in E2. unfold may_send. by rewrite E1, E2. Qed.

Lemma sendmsg_loop_spec fuel n d done acc m more e g g' :
  (length d < fuel)%nat -> EP (2 * fuel + n) acc g g' e -> 0 <= done -> (done = 0 \/ may_send e) -> sk_err (sk e) = 0 ->
  exists k rc e', 0 <= k <= zlen d /\ (rc = done + k \/ rc <= 0 /\ done + k = 0) /\
    sendmsg_loop fuel {| copylen := m; send_remaining := zlen d; send_done := done; send_break := false |}
      {| msg_data := d; msg_readable := zlen d; msg_oob := false; msg_more := more |} e = Some (rc, e') /\
    STAYS n (acc ++ slice d 0 k) g g' e'.
Proof.
  revert d done acc m e g g'. induction fuel as [|fuel IH]; [intros; lia|]. intros d done acc m e g g' Hfuel He Hdone Hmay Hne.
  assert (EP n acc g g' e) as He' by (eapply ep_inv_mono; [done|lia]). pose proof (zlen_nonneg d) as Hd.
  assert (forall rc, rc = done \/ rc <= 0 /\ done = 0 -> exists k rc' e', 0 <= k <= zlen d /\ (rc' = done + k \/ rc' <= 0 /\ done + k = 0) /\
    Some (rc, e) = Some (rc', e') /\ STAYS n (acc ++ slice d 0 k) g g' e') as Hstop.
  { intros rc Hrc. exists 0, rc, e. split; [lia|]. split; [lia|]. split; [done|]. change (slice d 0 0) with (@nil Z). rewrite (app_nil_r acc). by apply stays_here. }
  cbn [sendmsg_loop msg_data send_done msg_oob]. destruct (Z.leb_spec (zlen d) 0); [apply Hstop; lia|].
  destruct (send_shutdown (sk e) || (sk_err (sk e) =? ECONNABORTED) || killed (conn e)) eqn:E1.
  { apply Hstop. destruct Hmay as [->|(Q1 & Q2 & Q3)]; [right; unfold EPIPE; lia|]. by rewrite Q1, Q2, Q3 in E1. }
  assert (may_send e) as Hm. { apply orb_false_elim in E1 as [[E1 _]%orb_false_elim E3]. done. }
  destruct (ums_cdc_rxed_any_close (conn e)).
  { apply Hstop. destruct (Z.eqb_spec done 0) as [->|]; simpl; [right; unfold ECONNRESET; lia|by left]. }
  pose proof He as [Htx _ _]. pose proof (ti_fin _ _ _ _ _ Htx) as [Hf1 Hf2]. pose proof (ti_space _ _ _ _ _ Htx) as Hsp.
  destruct (ti_urg _ _ _ _ _ Htx) as (-> & _). rewrite orb_false_r. destruct (Z.eqb_spec (sndbuf_space (conn e)) 0).
  { destruct (Z.eqb_spec done 0) as [->|]; simpl; [|apply Hstop; by left]. destruct Hm as (Q1 & Q2 & Q3).
    unfold ums_tx_wait_nonblock, sk_stream_error. rewrite Q2. simpl negb. cbv iota. split_ifs; apply Hstop; right; unfold EPIPE, ECONNRESET, EAGAIN in *; lia. }
  destruct (sendmsg_do_spec R tok g acc {| copylen := m; send_remaining := zlen d; send_done := done; send_break := false |}
    {| msg_data := d; msg_readable := zlen d; msg_oob := false; msg_more := more |} e) as (k & buf & Hk & Eb & -> & Hk2 & Hr); try done; [lia|].
  cbn [mbind option_bind negb msg_data msg_oob msg_more msg_readable copylen send_remaining send_done send_break andb] in *.
  match goal with |- context [if ums_tx_should_cork more ?e1 then _ else _] => change e1 with (accept buf k e) end.
  assert (EP (2 * S fuel + n) (acc ++ slice d 0 k) g g' (accept buf k e)) as He2.
  { eapply accept_ep; try done. by rewrite zlen_slice by lia. }
  assert (exists e2, (if ums_tx_should_cork more (accept buf k e) then accept buf k e else (ums_tx_sndbuf_nonempty false (accept buf k e)).2) = e2 /\
    STAYS (2 * fuel + n) (acc ++ slice d 0 k) g g' e2 /\ keeps e e2) as (e2 & -> & Hs2 & Hk3).
  { destruct (ums_tx_should_cork _ _).
    - eexists. split; [done|]. split; [|done]. apply stays_here. eapply ep_inv_mono; [done|lia].
    - destruct (sndbuf_push_spec R R' tok tok' (acc ++ slice d 0 k) acc' recv scq (2 * fuel + n) false g g' (accept buf k e)) as (rc & e2 & E & Hs & Hkk).
      { eapply ep_inv_mono; [done|lia]. }
      rewrite E. exists e2. split; [done|]. split; [done|]. by trans (accept buf k e). }
  destruct Hs2 as (g1 & g1' & Hu & He3).
  assert (zlen (drop (Z.to_nat k) d) = zlen d - k) as Ed by (unfold zlen in *; rewrite length_drop; lia).
  pose proof (may_send_keeps _ _ Hm Hk3) as Hm2.
  destruct (IH (drop (Z.to_nat k) d) (done + k) (acc ++ slice d 0 k) k e2 g1 g1') as (k' & rc & e' & B & C & D & E);
    [rewrite length_drop; unfold zlen in *; lia|done|lia|by right|by destruct Hm2 as (_ & ? & _)|].
  rewrite Ed in *. exists (k + k'), rc, e'. split; [lia|]. split; [lia|]. split; [done|].
  replace (acc ++ slice d 0 (k + k')) with ((acc ++ slice d 0 k) ++ slice (drop (Z.to_nat k) d) 0 k').
  - destruct E as (g2 & g2' & Hu2 & E). exists g2, g2'. split; [by eapply tx_upd_trans|done].
  - rewrite <- app_assoc. f_equal. rewrite <- slice_app by lia. f_equal.
Qed.

Lemma sendmsg_spec n acc msg e g g' : msg_oob msg = false -> msg_readable msg = zlen (msg_data msg) ->
  EP (2 * S (length (msg_data msg)) + n) acc g g' e ->
  exists rc e', ums_tx_sendmsg msg e = Some (rc, e') /\ STAYS n (acc ++ take (Z.to_nat rc) (msg_data msg)) g g' e'.
Proof.
  intros Hoob Hrd He. assert (EP n acc g g' e) as He' by (eapply ep_inv_mono; [done|lia]).
  assert (forall rc e1, rc <= 0 -> EP n acc g g' e1 -> exists rc' e', Some (rc, e1) = Some (rc', e') /\
    STAYS n (acc ++ take (Z.to_nat rc') (msg_data msg)) g g' e') as Hstop.
  { intros rc e1 Hrc He1. exists rc, e1. split; [done|]. rewrite (Z2Nat.nonpos rc) by done. rewrite take_0, app_nil_r. by apply stays_here. }
  unfold ums_tx_sendmsg. destruct (INT_MAX <? _); [apply Hstop; [unfold EMSGSIZE; lia|done]|].
  pose proof He as [_ _ (cs1 & cs2 & Ho)]. pose proof (oi_err _ _ _ _ _ _ _ _ _ _ _ Ho) as Herr.
  destruct (Z.eqb_spec (sk_err (sk e)) 0) as [E0|]; simpl negb; cbv iota.
  - destruct (send_shutdown (sk e)) eqn:Es; simpl.
    { unfold sk_stream_error. rewrite E0. simpl. apply Hstop; [unfold EPIPE; lia|done]. }
    destruct (bool_decide _); [apply Hstop; [unfold ENOTCONN; lia|done]|].
    destruct (freed (conn e)); [apply Hstop; [unfold EPIPE; lia|done]|].
    destruct msg as [d rd oob more]. simpl in Hoob, Hrd. subst oob rd.
    destruct (sendmsg_loop_spec (S (length d)) n d 0 acc 0 more e g g') as (k & rc & e' & Hk & Hrc & E & Hs); [lia|done|lia|by left|done|].
    exists rc, e'. split; [exact E|]. cbn [msg_data]. replace (take (Z.to_nat rc) d) with (slice d 0 k); [done|].
    unfold slice. rewrite drop_0. f_equal. lia.
  - unfold sk_stream_error. rewrite Z.eqb_refl. rewrite (proj2 (Z.eqb_neq _ _)) by done. simpl. apply Hstop; [lia|]. by apply ep_inv_sock_error.
Qed.
End send.

(** ** recvmsg *)

Section recv.
Context (R R' tok tok' : Z) (acc acc' scq : list Z).
Abbreviation EP n recv := (ep_inv n R R' tok tok' acc acc' recv scq).
Abbreviation STAYS n recv := (stays R R' tok tok' acc acc' recv scq n).

Definition copied (n : Z) (bs : list Z) (st : recv_status) : recv_status :=
  {| read_remaining := read_remaining st - n; rcopylen := rcopylen st; read_done := read_done st + n; out := out st ++ bs;
     out_room := out_room st - n |}.

Lemma read_chunk_spec off n st e bs : read_bytes (rmb (conn e)) off n = Some bs -> zlen bs = n -> n <= out_room st ->
  read_chunk false off n st e = Some (Some (copied n bs st)).
Proof.
  intros Hr Hl Hroom. unfold read_chunk. rewrite Hr. cbn [mbind option_bind]. unfold memcpy_to_msg. rewrite Hl.
  by rewrite (proj2 (Z.leb_le _ _)) by lia.
Qed.

Lemma recvmsg_do_spec g' recv st e : rx_inv R' tok' g' acc' recv (conn e) -> 0 <= rcopylen st <= bytes_to_rcv (conn e) ->
  rcopylen st <= out_room st ->
  ums_rx_recvmsg_do false (curs_at R' (zlen recv)) st e =
    Some (inl (copied (rcopylen st) (slice acc' (zlen recv) (rcopylen st)) st)).
Proof.
  intros [] Hn Hroom. destruct ri_pos0 as (G1 & G2 & G3 & G4). unfold buf_size in ri_R0. unfold ums_rx_recvmsg_do. rewrite ri_size0.
  cbn [count curs_at]. set (n := rcopylen st) in *. set (p := zlen recv) in *. pose proof (Z.mod_pos_bound p R' ltac:(lia)) as Hb.
  set (k := Z.min n (R' - p mod R')).
  assert (forall q l, p <= q -> 0 <= l -> q + l <= p + n -> q mod R' + l <= R' -> read_bytes (rmb (conn e)) (q mod R') l = Some (slice acc' q l)) as Hread.
  { intros q l Hq Hl Hql Hf. rewrite <- ri_size0. apply (ring_read _ p (g_dlv g')); rewrite ?ri_size0; try done; lia. }
  rewrite (read_chunk_spec _ _ _ _ (slice acc' p k)); [|apply Hread; lia|apply zlen_slice; lia|lia].
  cbn [mbind option_bind rcopylen copied]. fold n. destruct (Z.eqb_spec k n) as [->|Hk]; [done|].
  rewrite (proj2 (Z.ltb_ge _ _)) by lia.
  assert ((p + k) mod R' = 0) as E0.
  { destruct (positions R' p (p + k)) as [(Q1 & Q2 & Q3)|(Q1 & Q2)]; [lia..| |];
      pose proof (Z.mod_pos_bound (p + k) R' ltac:(lia)); lia. }
  rewrite (read_chunk_spec _ _ _ _ (slice acc' (p + k) (n - k))); [|rewrite <- E0; apply Hread; lia|apply zlen_slice; lia|simpl; lia].
  cbn [mbind option_bind]. do 2 f_equal. unfold copied. simpl. rewrite <- app_assoc, slice_app by lia.
  replace (k + (n - k)) with n by lia. f_equal; lia.
Qed.

(** The copied bytes are consumed. *)
Lemma consumed_rx g' recv n c : rx_inv R' tok' g' acc' recv c -> 0 <= n <= bytes_to_rcv c ->
  rx_inv R' tok' g' acc' (recv ++ slice acc' (zlen recv) n)
    (upd_tx_ctrl (set_cons (curs_at R' (zlen recv + n))) (set_bytes_to_rcv (bytes_to_rcv c - n) c)).
Proof.
  intros [] Hn. destruct ri_pos0 as (G1 & G2 & G3 & G4). pose proof (zlen_nonneg recv).
  assert (zlen (recv ++ slice acc' (zlen recv) n) = zlen recv + n) as E by (rewrite zlen_app, zlen_slice; lia).
  split; rewrite ?E; simpl; try done; try lia.
  - eapply ring_has_sub; [..|done]; lia.
  - rewrite <- (slice_app acc' 0 (zlen recv) n) by lia. by rewrite <- ri_recv0.
Qed.

Lemma update_curser_spec m g g' recv n e : EP (S m) recv g g' e -> 0 <= n <= bytes_to_rcv (conn e) ->
  exists e', ums_rx_recvmsg_update_curser false (curs_at R' (zlen recv)) n e = (false, e') /\
    STAYS m (recv ++ slice acc' (zlen recv) n) g g' e'.
Proof.
  intros [Htx Hrx (cs1 & cs2 & Ho)] Hn. pose proof Hrx as [HR' Hsize' _ (G1 & G2 & G3 & G4) _ _ _ Av _ _ (V1 & V2) _ _ _].
  unfold ums_rx_recvmsg_update_curser, ums_rx_update_consumer. set (e0 := upd_conn (fun c => set_bytes_to_rcv (bytes_to_rcv c - n) c) e).
  assert (EP (S m) (recv ++ slice acc' (zlen recv) n) g g' (upd_conn (upd_tx_ctrl (set_cons (curs_at R' (zlen recv + n)))) e0)) as He1.
  { split; [by apply (tx_inv_same _ _ _ _ (conn e))|by apply consumed_rx|]. exists cs1, cs2. by repeat apply out_inv_conn. }
  change (urg_state (conn e0)) with (urg_state (conn e)). change (urg_rx_skip_pend (conn e0)) with (urg_rx_skip_pend (conn e)).
  change (rmb (conn e0)) with (rmb (conn e)).
  rewrite V2, bool_decide_false by done. cbn [orb]. rewrite Hsize', curs_add_at by (done || lia).
  eexists. split; [done|]. by apply consumer_update_spec.
Qed.

Lemma recvmsg_loop_spec fuel m target st recv e g g' :
  (Z.to_nat (read_remaining st) < fuel)%nat -> 0 <= read_remaining st <= out_room st -> EP (fuel + m) recv g g' e ->
  exists rc bs e', recvmsg_loop fuel plain_recv target st e = Some (rc, out st ++ bs, e') /\ STAYS m (recv ++ bs) g g' e'.
Proof.
  revert st recv e g g'. induction fuel as [|fuel IH]; [intros; lia|]. intros st recv e g g' Hfuel Hrem He.
  assert (EP m recv g g' e) as He' by (eapply ep_inv_mono; [done|lia]).
  assert (forall (rc : Z) e1, EP m recv g g' e1 -> exists rc' bs e', Some (rc, out st, e1) = Some (rc', out st ++ bs, e') /\ STAYS m (recv ++ bs) g g' e') as Hstop.
  { intros rc e1 He1. exists rc, [], e1. rewrite !app_nil_r. split; [done|]. by apply stays_here. }
  cbn [recvmsg_loop]. destruct (_ || killed (conn e)); [by apply Hstop|].
  pose proof He as [_ Hrx _]. pose proof Hrx as [HR' Hsize' _ (G1 & G2 & G3 & G4) _ Cc _ Av _ _ (V1 & V2) _ _ _].
  unfold ums_rx_recvmsg_data_available. rewrite (bool_decide_false (urg_state (conn e) = UMS_URG_VALID)) by done.
  destruct (Z.eqb_spec (bytes_to_rcv (conn e)) 0) as [Ez|Ez]; simpl negb; cbv iota.
  - destruct (rcv_shutdown (sk e)).
    + rewrite Ez, (bool_decide_false (urg_state (conn e) = UMS_URG_VALID)) by done. simpl. by apply Hstop.
    + unfold ums_rx_readdone_check. split_ifs; try by apply Hstop. apply Hstop. by apply ep_inv_sock_error.
  - unfold ums_rx_get_copylen. rewrite (bool_decide_false (urg_state (conn e) = UMS_URG_VALID)) by done. cbn [andb].
    set (n := Z.min (read_remaining st) (bytes_to_rcv (conn e))). rewrite Cc.
    rewrite (recvmsg_do_spec g' recv) by (try done; simpl; lia). cbn [mbind option_bind rcopylen msg_peek plain_recv].
    destruct (update_curser_spec (fuel + m) g g' recv n e He ltac:(lia)) as (e1 & -> & (g1 & g1' & Hu & He1)). cbn [read_remaining copied out].
    set (bs := slice _ _ _) in *. destruct (Z.ltb_spec 0 (read_remaining st - n)).
    + destruct (IH (copied n bs {| read_remaining := read_remaining st; rcopylen := n; read_done := read_done st; out := out st; out_room := out_room st |})
        (recv ++ bs) e1 g1 g1') as (rc & bs' & e' & -> & Hs); [simpl; lia|simpl; lia|done|].
      exists rc, (bs ++ bs'), e'. rewrite !app_assoc. split; [done|]. destruct Hs as (g2 & g2' & Hu2 & Hs). exists g2, g2'.
      split; [by eapply tx_upd_trans|done].
    + eexists _, bs, e1. split; [done|]. exists g1, g1'. split; [done|]. eapply ep_inv_mono; [done|lia].
Qed.

Lemma recvmsg_spec m len target recv e g g' : 0 <= len -> EP (S (Z.to_nat len) + m) recv g g' e ->
  exists rc bs e', ums_rx_recvmsg plain_recv len target len e = Some (rc, bs, e') /\ STAYS m (recv ++ bs) g g' e'.
Proof.
  intros Hlen He. assert (EP m recv g g' e) as He' by (eapply ep_inv_mono; [done|lia]). unfold ums_rx_recvmsg. cbn [msg_errqueue msg_recv_oob plain_recv].
  assert (forall rc : Z, exists rc' bs e', Some (rc, [], e) = Some (rc', bs, e') /\ STAYS m (recv ++ bs) g g' e') as Hstop.
  { intros rc. exists rc, [], e. rewrite app_nil_r. split; [done|]. by apply stays_here. }
  destruct (bool_decide _); [apply Hstop|]. destruct (freed (conn e)); [apply Hstop|].
  apply (recvmsg_loop_spec (S (Z.to_nat len)) m target {| read_remaining := len; rcopylen := 0; read_done := 0; out := []; out_room := len |} recv e g g'); simpl; [lia|lia|done].
Qed.
End recv.

(** ** Arrivals *)

Lemma out_inv_credits n R R' tok g g' scq cs1 cs2 size e f :
  out_inv n R R' tok g g' scq cs1 cs2 size e -> (forall l, same_table l (f l)) -> out_inv n R R' tok g g' scq cs1 cs2 size (upd_lnk f e).
Proof. intros H Hf. eapply out_inv_table; [done|apply Hf|lia]. Qed.

Lemma put_credits_table k l : same_table l (ums_wr_tx_put_credits k l).
Proof. pose proof (put_credits_same k l) as (? & ? & ?). done. Qed.

Lemma rx_put_credits_table k l : same_table l (ums_wr_rx_put_credits k l).
Proof. unfold ums_wr_rx_put_credits. by destruct (_ && _). Qed.

Section arrival.
Context (R R' tok tok' : Z) (acc acc' recv scq : list Z).
Abbreviation EP n := (ep_inv n R R' tok tok' acc acc' recv scq).
Abbreviation STAYS := (stays R R' tok tok' acc acc' recv scq).

Lemma ep_inv_credits n g g' e f : EP n g g' e -> (forall l, same_table l (f l)) -> EP n g g' (upd_lnk f e).
Proof. intros [Htx Hrx (cs1 & cs2 & Ho)] Hf. split; [done..|]. exists cs1, cs2. by apply out_inv_credits. Qed.

Lemma imm_rx_spec n g g' e len imm : EP n g g' e -> imm_token imm = tok' ->
  let k := len + (if imm_skip_flag imm then R' - g_prod g' mod R' else 0) in
  0 < len -> k <= R' -> g_prod g' + k <= g_ann g' ->
  EP n g (set_g_rx (g_prod g' + k) (g_seq0 g') g') (ums_imm_rx_handler len imm e).
Proof.
  intros He Himm k Hlen Hk Hann. unfold ums_imm_rx_handler. eapply ep_inv_credits in He; [|apply (put_credits_table (imm_credits imm))].
  set (e0 := upd_lnk _ e) in *. clearbody e0. destruct He as [Htx Hrx (cs1 & cs2 & Ho)]. pose proof Hrx as [HR' Hsize [Htok Et] (G1 & G2 & G3 & G4) Cp Cc Cf Av Ri Rc (V1 & V2) Cl Sq Fr].
  rewrite Himm, Et, Z.eqb_refl, Fr. simpl negb. cbv iota. unfold ums_imm_msg_recv_action. set (e1 := upd_conn _ e0).
  unfold buf_size in HR'. pose proof (Z.mod_pos_bound (g_prod g') R' ltac:(lia)).
  assert ((if imm_skip_flag imm then len + (zlen (rmb (conn e1)) - count (prod (local_rx_ctrl (conn e1)))) else len) = k) as ->.
  { unfold e1, k. simpl. rewrite Hsize, Cp. simpl. destruct (imm_skip_flag imm); lia. }
  assert (0 <= k) by (unfold k; destruct (imm_skip_flag imm); lia). clearbody k.
  split; [by apply (tx_inv_same _ _ _ _ (conn e0))| |exists cs1, cs2; repeat apply out_inv_conn; by apply (out_inv_ghost _ _ _ _ g g')].
  split; simpl; try done; try lia. rewrite Hsize, Cp. apply curs_add_at; [done|lia|lia].
Qed.

Lemma next_not_before s : ums_cdc_before (u16 (s + 1)) (u16 s) = false.
Proof.
  unfold ums_cdc_before. assert (s16 (u16 (s + 1) - u16 s) = 1) as ->; [|done]. unfold s16, u16. zmod.
Qed.

(** A message of the peer takes the acknowledged position to [c]. *)
Lemma cdc_msg_tx g c m cn : tx_inv R tok g acc cn -> g_acons g <= c <= g_sent g ->
  net_cons m = ums_host_cursor_to_cdc (curs_at R c) ->
  let cn1 := upd_rx_ctrl (fun l => ums_cdc_msg_to_host l m) cn in
  tx_inv R tok (set_g_acons c g) acc
    (set_peer_rmbe_space (peer_rmbe_space cn1 + ums_curs_diff (peer_rmbe_size cn1) (cons (local_rx_ctrl cn)) (cons (local_rx_ctrl cn1))) cn1).
Proof.
  intros [] Hc Em cn1. assert (cons (local_rx_ctrl cn1) = curs_at R c) as Ec.
  { simpl. rewrite Em, ti_ccons0. apply cursor_transfer; [done|lia|lia]. }
  rewrite Ec, ti_ccons0. change (peer_rmbe_size cn1) with (peer_rmbe_size cn). change (peer_rmbe_space cn1) with (peer_rmbe_space cn).
  rewrite ti_size0, ti_rspace0, curs_diff_at by (done || lia).
  split; try done; simpl; lia.
Qed.

Lemma cdc_msg_rx g' m cn : rx_inv R' tok' g' acc' recv cn -> net_prod m = ums_host_cursor_to_cdc (curs_at R' (g_prod g')) ->
  net_seqno m = htons (u16 (g_seq0 g' + 1)) -> net_conn_state_flags m = no_close ->
  rx_inv R' tok' (set_g_rx (g_prod g') (g_seq0 g' + 1) g') acc' recv (upd_rx_ctrl (fun l => ums_cdc_msg_to_host l m) cn).
Proof.
  intros [] Ep Es Ec. split; simpl; try done.
  - rewrite Ep, ri_cprod0. apply cursor_transfer; [done|lia|lia].
  - rewrite Es. apply ntohs_htons, u16_range.
Qed.

Lemma cdc_rx_spec n owned g g' c m e : EP (S (S n)) g g' e -> msg_ok R' R tok' m (g_prod g') c (g_seq0 g' + 1) ->
  g_acons g <= c <= g_sent g ->
  exists e', ums_cdc_rx_handler owned m e = Some e' /\
    STAYS n (set_g_acons c g) (set_g_rx (g_prod g') (g_seq0 g' + 1) g') e'.
Proof.
  intros He (M1 & M2 & M3 & M4 & [M5 M6] & M7) Hc. unfold ums_cdc_rx_handler.
  set (e0 := if negb _ then _ else e). assert (EP (S (S n)) g g' e0) as He0.
  { unfold e0. split_ifs; [|done]. apply ep_inv_credits; [done|]. intros. apply put_credits_table. }
  clearbody e0. destruct He0 as [Htx Hrx (cs1 & cs2 & Ho)]. pose proof Hrx as [HR' Hsize [Htok Et] (G1 & G2 & G3 & G4) Cp Cc Cf Av Ri Rc (V1 & V2) Cl Sq Fr].
  rewrite M1, M2, Sq, Fr, Et, ntohl_htonl, ntohs_htons, Z.eqb_refl, next_not_before by (apply u16_range || lia). simpl negb. cbv iota.
  unfold ums_cdc_msg_recv_action. set (dc := ums_curs_diff _ _ _).
  set (e2 := upd_conn (fun c => set_peer_rmbe_space _ c) _).
  assert (EP (S (S n)) (set_g_acons c g) (set_g_rx (g_prod g') (g_seq0 g' + 1) g') e2) as He2.
  { split; [by apply cdc_msg_tx| |exists cs1, cs2; repeat apply out_inv_conn; by apply (out_inv_ghost _ _ _ _ g g')].
    apply (rx_inv_same _ _ _ _ _ (upd_rx_ctrl (fun l => ums_cdc_msg_to_host l m) (conn e0))); [done|by apply cdc_msg_rx]. }
  assert (prod_flags (local_rx_ctrl (conn e2)) = net_prod_flags m) as Ef by done. clearbody e2 dc.
  rewrite Ef, M5, M6. cbn [orb mbind option_bind].
  set (e3 := if _ || false then _ else e2).
  assert (STAYS n (set_g_acons c g) (set_g_rx (g_prod g') (g_seq0 g' + 1) g') e3) as Hs3.
  { unfold e3. destruct (_ || false); [|apply stays_here; eapply ep_inv_mono; [done|lia]].
    destruct owned; [|by apply tx_pending_spec]. apply stays_here. apply (ep_inv_mono _ _ _ _ _ _ _ _ (S (S n))); [|lia]. by eapply ep_inv_same. }
  clearbody e3. destruct Hs3 as (g3 & g3' & Hu & He3). pose proof He3 as [Htx3 Hrx3 _].
  destruct (ti_urg _ _ _ _ _ Htx3) as (Eu & _). pose proof (ri_close _ _ _ _ _ _ Hrx3) as Ecl.
  rewrite Eu, andb_false_r. cbn [andb]. unfold ums_cdc_rxed_any_close_or_senddone, ums_cdc_rxed_any_close. rewrite Ecl.
  cbn [peer_conn_abort peer_conn_closed peer_done_writing no_close]. rewrite Ecl. simpl. exists e3. split; [done|]. by exists g3, g3'.
Qed.

(** What a processed arrival does; [g_cmid g' <= g_sent g]: the peer acknowledges no
    more than was sent. *)
Lemma rx_completion_spec n owned ev rest g g' e : EP (S (S n)) g g' e ->
  rx_ok R' R tok' (g_prod g') (g_acons g) (g_seq0 g') (ev :: rest) (g_ann g') (g_cmid g') (g_smid g') -> g_cmid g' <= g_sent g ->
  exists e' p c s, rx_completion owned ev e = Some e' /\
    rx_ok R' R tok' p c s rest (g_ann g') (g_cmid g') (g_smid g') /\ STAYS n (set_g_acons c g) (set_g_rx p s g') e'.
Proof.
  intros He Hin Hcross. pose proof He as [Htx Hrx _]. pose proof (ri_R _ _ _ _ _ _ Hrx) as HR'. unfold buf_size in HR'. assert (0 < R') as Hpos by lia.
  assert (forall n g g' e, STAYS n g g' e -> STAYS n g g' (upd_lnk (ums_wr_rx_put_credits 1) e)) as Hput.
  { intros n0 g0 g0' e0 (g1 & g1' & Hu & He1). exists g1, g1'. split; [done|]. apply ep_inv_credits; [done|]. intros. apply rx_put_credits_table. }
  unfold rx_completion. destruct ev as [len imm|m]; simpl in Hin.
  - destruct Hin as (H1 & H2 & H3 & H4). set (k := len + (if imm_skip_flag imm then R' - g_prod g' mod R' else 0)).
    rewrite <- (Z.add_assoc (g_prod g') len) in H3, H4. fold k in H3, H4. pose proof (rx_ok_le _ _ _ _ _ _ _ _ _ _ Hpos H4).
    cbn [mbind option_bind]. eexists _, _, _, _. split; [done|]. split; [exact H4|]. apply Hput, stays_here.
    replace (set_g_acons (g_acons g) g) with g by by destruct g.
    apply (ep_inv_mono _ _ _ _ _ _ _ _ (S (S n))); [|lia].
    apply imm_rx_spec; [done|done|lia|unfold k in *; lia..].
  - destruct Hin as (c1 & H1 & H2 & H3). pose proof (rx_ok_le _ _ _ _ _ _ _ _ _ _ Hpos H3).
    destruct (cdc_rx_spec n owned g g' c1 m e He H2 ltac:(lia)) as (e' & -> & Hs). cbn [mbind option_bind].
    eexists _, _, _, _. split; [done|]. split; [exact H3|]. by apply Hput.
Qed.
End arrival.
