(* ===== verification/UmsSystem.v ===== *)
(** * UMS: two connected endpoints

    The invariant of the two sides of [UmsStream] together, kept by every action of
    either side, and the stream theorem: what a receiver has been given is a prefix
    of what the sender has accepted, and all of it once nothing is on its way. *)

From S2P Require Import Prelude Memory UmsCursor UmsWr UmsConn UmsStream.

(** ** The invariant of the system *)

Section system.
(** The receive rings of the second and of the first side, and the identifiers of
    their connections. *)
Context (R R' tok tok' : Z).

Definition pair_inv (n : nat) (g g' : gpos) (x y : side) : Prop :=
  side_inv n R R' tok tok' g g' (accepted y) x /\ side_inv n R' R tok' tok g' g (accepted x) y.

(** What one side says about the other's positions. *)
Lemma pair_positions n g g' x y : pair_inv n g g' x y ->
  g_acons g <= g_cmid g' /\ g_cmid g' <= g_conf g /\ g_conf g <= zlen (received y) /\ zlen (received y) <= g_prod g /\
  g_prod g <= g_ann g /\ g_ann g <= g_dlv g /\ g_dlv g <= g_sent g.
Proof.
  intros [[[Htx Hrx' _] Hin] [[_ Hrx (cs1 & cs2 & Ho)] _]].
  assert (0 < R') as Hpos by (pose proof (ri_R _ _ _ _ _ _ Hrx') as H; unfold buf_size in H; lia).
  pose proof (ri_pos _ _ _ _ _ _ Hrx) as Hp. pose proof (ti_sent _ _ _ _ _ Htx) as Hs.
  pose proof (sq_ok_le _ _ _ _ _ _ _ _ _ _ _ _ _ Hpos (oi_sq _ _ _ _ _ _ _ _ _ _ _ Ho)).
  pose proof (rx_ok_le _ _ _ _ _ _ _ _ _ _ Hpos Hin). lia.
Qed.

(** The positions that an action of one side may change: in its own direction the
    completed, sent and acknowledged positions and its sequence number; in the other
    the announced and confirmed positions and the sequence number seen. *)
Definition local_upd (g g1 g' g1' : gpos) : Prop :=
  (g_ann g1 = g_ann g /\ g_dlv g1 = g_dlv g /\ g_prod g1 = g_prod g /\ g_conf g1 = g_conf g /\ g_cmid g1 = g_cmid g /\
   g_smid g1 = g_smid g /\ g_seq0 g1 = g_seq0 g) /\
  (g_fin g1' = g_fin g' /\ g_sent g1' = g_sent g' /\ g_ann g1' = g_ann g' /\ g_dlv g1' = g_dlv g' /\ g_acons g1' = g_acons g' /\
   g_cmid g1' = g_cmid g' /\ g_smid g1' = g_smid g' /\ g_seq1 g1' = g_seq1 g').

Lemma local_tx_upd g g0 g1 g' g0' g1' : local_upd g g0 g' g0' -> tx_upd g0 g1 g0' g1' -> local_upd g g1 g' g1'.
Proof. intros [H H'] [E E']. split; [by rewrite E|by rewrite E']. Qed.

(** The peer does not notice such a change, nor more accepted bytes. *)
Lemma peer_frame n m g g' g1 g1' acc bs y : local_upd g g1 g' g1' -> (m <= n)%nat ->
  side_inv n R' R tok' tok g' g acc y -> side_inv m R' R tok' tok g1' g1 (acc ++ bs) y.
Proof.
  intros [(A1 & A2 & A3 & A4 & A5 & A6 & A7) (B1 & B2 & B3 & B4 & B5 & B6 & B7 & B8)] Hm [[Htx Hrx (cs1 & cs2 & Ho)] Hin].
  split; [split|].
  - destruct Htx. split; rewrite ?B1, ?B2, ?B3, ?B4, ?B5, ?B6, ?B7, ?B8; done.
  - destruct Hrx. pose proof (zlen_nonneg bs). split; rewrite ?A1, ?A2, ?A3, ?A4, ?A5, ?A6, ?A7, ?zlen_app; try done; try lia.
    + apply ring_has_app; [lia|lia|done].
    + rewrite slice_prefix by (try lia; apply zlen_nonneg). done.
  - exists cs1, cs2. destruct Ho. split; rewrite ?A4, ?B1, ?B2, ?B3, ?B4, ?B5, ?B6, ?B7, ?B8; try done. lia.
  - by rewrite A1, A3, A5, A6, A7, B5.
Qed.

Definition sys_inv (n : nat) (x y : side) : Prop := exists g g', pair_inv n g g' x y.

Lemma local_step n m g g' g0 g0' x y x' bs : pair_inv n g g' x y -> local_upd g g0 g' g0' -> (m <= n)%nat ->
  accepted x' = accepted x ++ bs ->
  stays R R' tok tok' (accepted x') (accepted y) (received x') (scq x') m g0 g0' (ep x') ->
  rx_ok R' R tok' (g_prod g0') (g_acons g0) (g_seq0 g0') (rcq x') (g_ann g0') (g_cmid g0') (g_smid g0') -> sys_inv m x' y.
Proof.
  intros [Hx Hy] Hl Hm Ha (g1 & g1' & Hu & He) Hin. exists g1, g1'. split.
  - split; [done|]. destruct Hu as [-> ->]. done.
  - rewrite Ha. eapply peer_frame; [by eapply local_tx_upd|done|done].
Qed.

Lemma local_refl g g' : local_upd g g g' g'.
Proof. done. Qed.

(** ** Execution of posted requests *)

Lemma comps_ok_mono f cs hi hi' : comps_ok f cs hi -> hi <= hi' -> comps_ok f cs hi'.
Proof. intros H Hle. revert f H. induction cs as [|[i [e|]] cs IH]; simpl; intros f H; [lia| |by apply IH]. destruct H. split; [done|by apply IH]. Qed.

Lemma comps_ok_snoc f cs hi i o hi' : comps_ok f cs hi -> hi <= hi' -> match o with Some e => e = hi' | None => True end ->
  comps_ok f (cs ++ [(i, o)]) hi'.
Proof.
  intros H Hle Ho. revert f H. induction cs as [|[j [e|]] cs IH]; simpl; intros f H.
  - destruct o; [subst|]; lia.
  - destruct H. split; [done|by apply IH].
  - by apply IH.
Qed.

Lemma exec_sender n g g' acc' x cs1 cs2 id o wr rest a p c s :
  let size := zlen (sndbuf (conn (ep x))) in
  side_inv n R R' tok tok' g g' acc' x -> out_inv n R R' tok g g' (scq x) cs1 ((id, o) :: cs2) size (ep x) -> sq (ep x) = wr :: rest ->
  sq_ok size R R' tok a p c s rest cs2 (g_sent g) (g_conf g') (g_seq1 g) -> g_ann g <= a <= p -> p <= g_sent g ->
  match o with Some e => e = a | None => True end ->
  side_inv n R R' tok tok' (set_g_wire a p c s g) g' acc' (set_scq (scq x ++ [id]) (set_ep (set_sq rest (ep x)) x)).
Proof.
  intros size [[Htx Hrx _] Hin] Ho Esq Hsq Ha Hp Hoa. split; [split|done]; [|done|].
  - destruct Htx. split; simpl; try done; lia.
  - exists (cs1 ++ [(id, o)]), cs2. destruct Ho. split; try done.
    + simpl. rewrite fmap_app. simpl. by rewrite <- oi_scq.
    + by rewrite <- app_assoc.
    + by rewrite <- app_assoc.
    + simpl. eapply comps_ok_snoc; [done|lia|done].
Qed.

Lemma exec_receiver n g g' acc y buf evs a p c s :
  side_inv n R' R tok' tok g' g acc y -> zlen buf = R -> ring_has buf (zlen (received y)) p acc ->
  rx_ok R R' tok (g_ann g) (g_cmid g) (g_smid g) evs a c s -> g_ann g <= a <= p -> p <= zlen acc -> p - zlen (received y) <= R ->
  side_inv n R' R tok' tok g' (set_g_wire a p c s g) acc (set_rcq (rcq y ++ evs) (set_ep (upd_conn (set_rmb buf) (ep y)) y)).
Proof.
  intros [[Htx Hrx (cs1 & cs2 & Ho)] Hin] Hb Hr Hevs Ha Hp Hroom. split; [split|].
  - by apply (tx_inv_same _ _ _ _ (conn (ep y))).
  - destruct Hrx. split; simpl; try done; lia.
  - exists cs1, cs2. apply out_inv_conn. by apply (out_inv_ghost _ _ _ _ g' g).
  - simpl. by eapply rx_ok_app.
Qed.

Lemma remote_write_spec n g g' x x' y src l : pair_inv n g g' x y -> conn (ep x') = conn (ep x) ->
  covers (zlen (sndbuf (conn (ep x)))) src (g_dlv g) l -> 0 < l -> g_dlv g + l <= g_sent g -> g_dlv g mod R + l <= R ->
  exists buf, remote_write src (g_dlv g mod R) x' y = Some (l, set_ep (upd_conn (set_rmb buf) (ep y)) y) /\
    zlen buf = R /\ ring_has buf (zlen (received y)) (g_dlv g + l) (accepted x).
Proof.
  intros Hpair Ex Hcov Hl Hsent Hfit. pose proof (pair_positions _ _ _ _ _ Hpair) as Hpos.
  destruct Hpair as [[[Htx _ _] _] [[_ Hrx _] _]]. pose proof (ri_pos _ _ _ _ _ _ Hrx) as Hrp. destruct Htx, Hrx.
  unfold buf_size in *. unfold remote_write. rewrite Ex.
  rewrite (gather_covers _ (g_fin g) (zlen (accepted x)) (accepted x) src (g_dlv g) l) by (done || lia). cbn [mbind option_bind].
  assert (zlen (slice (accepted x) (g_dlv g) l) = l) as El by (apply zlen_slice; lia).
  destruct (ring_write (rmb (conn (ep y))) (zlen (received y)) (g_dlv g) (accepted x) (slice (accepted x) (g_dlv g) l)) as (buf & Hw & Hz & Hr);
    rewrite ?El, ?ri_size; try done; try lia.
  rewrite ri_size in Hw. rewrite Hw. cbn [mbind option_bind]. rewrite El in *. exists buf. split; [done|]. split; [congruence|done].
Qed.

Lemma exec_spec n g g' x y wr rest : pair_inv n g g' x y -> sq (ep x) = wr :: rest ->
  exists x' y', exec_wr wr (set_ep (set_sq rest (ep x)) x) y = Some (x', y') /\ sys_inv n x' y'.
Proof.
  intros Hpair Esq. pose proof (pair_positions _ _ _ _ _ Hpair) as Hpos. pose proof Hpair as [Hx Hy].
  pose proof Hx as [[Htx _ (cs1 & cs2 & Ho)] _]. pose proof (oi_sq _ _ _ _ _ _ _ _ _ _ _ Ho) as Hsq. rewrite Esq in Hsq.
  pose proof (ti_R _ _ _ _ _ Htx) as HR. unfold buf_size in HR. assert (0 < R) as HR0 by lia.
  pose proof (ti_sent _ _ _ _ _ Htx) as Hs. pose proof (ti_acons _ _ _ _ _ Htx) as Hac. pose proof (Z.mod_pos_bound (g_ann g) R HR0) as Hb.
  set (x0 := set_ep (set_sq rest (ep x)) x). destruct wr as [id src dst|id src dst imm|id m]; destruct cs2 as [|[id' [e|]] cs2]; try done; simpl in Hsq.
  - destruct Hsq as (-> & Ea & l & Hl & Hcov & -> & Hfit & Hsq). pose proof (sq_ok_le _ _ _ _ _ _ _ _ _ _ _ _ _ HR0 Hsq).
    destruct (remote_write_spec n g g' x x0 y src l Hpair) as (buf & E & Hz & Hr); try done; [lia..|].
    unfold exec_wr. rewrite E. cbn [mbind option_bind]. eexists _, _. split; [done|].
    exists (set_g_wire (g_ann g) (g_dlv g + l) (g_cmid g) (g_smid g) g), g'. split; [eapply (exec_sender n g g' _ x cs1); try done; lia|].
    eapply (exec_receiver _ _ _ _ _ _ [] (g_ann g)) in Hy; [|done|done|done|lia|lia|lia]. rewrite app_nil_r in Hy. exact Hy.
  - destruct Hsq as (-> & Ea & Htok & He & Hea & Hcov & -> & Hfit & Hsq). pose proof (sq_ok_le _ _ _ _ _ _ _ _ _ _ _ _ _ HR0 Hsq).
    destruct (remote_write_spec n g g' x x0 y src (e - g_dlv g) Hpair) as (buf & E & Hz & Hr); try done; [lia..|].
    replace (g_dlv g + (e - g_dlv g)) with e in Hr by lia.
    unfold exec_wr. rewrite E. cbn [mbind option_bind]. eexists _, _. split; [done|].
    exists (set_g_wire e e (g_cmid g) (g_smid g) g), g'. split; [eapply (exec_sender n g g' _ x cs1); try done; lia|].
    eapply (exec_receiver _ _ _ _ y buf [RxImm (e - g_dlv g) imm]); try done; simpl; try lia.
  - destruct Hsq as (-> & Ea & c1 & Hc & Hm & Hsq). eexists _, _. split; [done|].
    exists (set_g_wire (g_ann g) (g_dlv g) c1 (g_smid g + 1) g), g'. split; [eapply (exec_sender n g g' _ x cs1); try done; lia|].
    pose proof Hy as [[_ Hrx _] _]. pose proof (ri_pos _ _ _ _ _ _ Hrx).
    eapply (exec_receiver _ _ _ _ _ (rmb (conn (ep y))) [RxCdc m] (g_ann g) (g_dlv g) c1 (g_smid g + 1)) in Hy; [|by destruct Hrx|by destruct Hrx| |lia|lia|lia].
    + by destruct y as [[[] ? ? ? ?] ? ? ? ?].
    + simpl. by exists c1.
Qed.

(** ** Every action *)

(** The requests that an action may start, an upper bound. *)
Definition cost (a : action) : nat :=
  match a with
  | ASend msg => 2 * S (length (msg_data msg))
  | ARecv len _ => S (Z.to_nat len)
  | AExec => 0
  | _ => 2
  end.

Lemma cdc_work_spec n acc acc' recv scq g g' e : ep_inv (S (S n)) R R' tok tok' acc acc' recv scq g g' e ->
  stays R R' tok tok' acc acc' recv scq n g g' (ums_cdc_tx_work e).
Proof.
  intros He. unfold ums_cdc_tx_work. set (e1 := upd_conn _ e).
  assert (ep_inv (S (S n)) R R' tok tok' acc acc' recv scq g g' e1) as He1 by by eapply ep_inv_same.
  clearbody e1. destruct (negb _); [apply stays_here; eapply ep_inv_mono; [done|lia]|].
  destruct (cdc_send_spec R R' tok tok' acc acc' recv scq (S n) false g g' e1 He1) as (rc & e2 & -> & Hs & _).
  assert (stays R R' tok tok' acc acc' recv scq n g g' e2) as Hs2 by (eapply stays_mono; [done|lia]).
  split_ifs; [by eapply stays_same|done].
Qed.

Lemma release_cb_spec n acc acc' recv scq g g' e : ep_inv (S (S n)) R R' tok tok' acc acc' recv scq g g' e ->
  stays R R' tok tok' acc acc' recv scq n g g' (ums_release_cb e).
Proof.
  intros He. unfold ums_release_cb. destruct (tx_in_release_sock (conn e)); [|apply stays_here; eapply ep_inv_mono; [done|lia]].
  destruct (tx_pending_spec R R' tok tok' acc acc' recv scq n false g g' e He) as [Hs _]. by eapply stays_same.
Qed.

Lemma half_step_spec n a g g' x y : pair_inv (cost a + n) g g' x y -> action_ok a ->
  exists x' y', half_step a x y = Some (x', y') /\ sys_inv n x' y'.
Proof.
  intros Hpair Ha. pose proof Hpair as [Hx _]. pose proof Hx as [He Hin]. pose proof (local_refl g g') as Hl.
  destruct a as [msg|len target| |owned|owned| | |]; cbn [cost half_step] in *.
  - destruct Ha as [Ho Hr]. destruct (sendmsg_spec R R' tok tok' _ _ _ n _ msg _ _ _ Ho Hr He) as (rc & e' & -> & Hs).
    cbn [mbind option_bind]. eexists _, _. split; [done|]. by eapply local_step; [done|done|lia|done..].
  - destruct Ha as [Hlen _]. destruct (recvmsg_spec R R' tok tok' _ _ _ n len target _ _ _ _ Hlen He) as (rc & bs & e' & -> & Hs).
    cbn [mbind option_bind]. eexists _, _. split; [done|]. eapply (local_step _ _ _ _ _ _ _ _ _ []); [done|done|lia|by rewrite app_nil_r|done..].
  - destruct (sq (ep x)) as [|wr rest] eqn:E; [|by eapply exec_spec]. exists x, y. split; [done|]. by exists g, g'.
  - destruct (scq x) as [|id rest] eqn:E.
    { exists x, y. split; [done|]. eapply (local_step _ _ _ _ _ _ _ _ _ []); [done|done|lia|by rewrite app_nil_r| |done].
      apply stays_here. rewrite E. eapply ep_inv_mono; [done|lia]. }
    destruct (tx_completion_spec R R' tok tok' _ _ _ rest n owned id g g' (ep x) He) as (f & Hf & Hs).
    eexists _, _. split; [done|]. eapply (local_step _ _ g g' (set_g_fin f g) g' _ _ _ []); [done|done|lia|by rewrite app_nil_r|done..].
  - destruct (rcq x) as [|ev rest] eqn:E.
    { exists x, y. split; [done|]. eapply (local_step _ _ _ _ _ _ _ _ _ []); [done|done|lia|by rewrite app_nil_r| |by rewrite E].
      apply stays_here. eapply ep_inv_mono; [done|lia]. }
    pose proof (pair_positions _ _ _ _ _ Hpair) as Hpos.
    destruct (rx_completion_spec R R' tok tok' _ _ _ _ n owned ev rest g g' (ep x) He Hin) as (e' & p & c & s & -> & Hr & Hs); [lia|].
    cbn [mbind option_bind]. eexists _, _. split; [done|].
    eapply (local_step _ _ g g' (set_g_acons c g) (set_g_rx p s g') _ _ _ []); [done|done|lia|by rewrite app_nil_r|done..].
  - eexists _, _. split; [done|]. eapply (local_step _ _ _ _ _ _ _ _ _ []); [done|done|lia|by rewrite app_nil_r| |done].
    apply tx_pending_spec. by eapply ep_inv_same.
  - eexists _, _. split; [done|]. eapply (local_step _ _ _ _ _ _ _ _ _ []); [done|done|lia|by rewrite app_nil_r| |done].
    by apply cdc_work_spec.
  - eexists _, _. split; [done|]. eapply (local_step _ _ _ _ _ _ _ _ _ []); [done|done|lia|by rewrite app_nil_r| |done].
    by apply release_cb_spec.
Qed.
End system.

Definition total_cost (l : list (bool * action)) : nat := list_sum (map (fun a => cost a.2) l).

Lemma sys_step_spec R R' tok tok' n a x y : sys_inv R R' tok tok' (cost a.2 + n) x y -> action_ok a.2 ->
  exists x' y', sys_step a (x, y) = Some (x', y') /\ sys_inv R R' tok tok' n x' y'.
Proof.
  intros (g & g' & Hx & Hy) Ha. destruct a as [[] a]; unfold sys_step; simpl in *.
  - by eapply half_step_spec.
  - destruct (half_step_spec R' R tok' tok n a g' g y x) as (y' & x' & -> & (g1 & g1' & H1 & H2)); [done|done|].
    cbn [mbind option_bind]. exists x', y'. split; [done|]. by exists g1', g1.
Qed.

Lemma sys_run_spec R R' tok tok' n l x y : sys_inv R R' tok tok' (total_cost l + n) x y -> Forall (fun a => action_ok a.2) l ->
  exists x' y', sys_run l (x, y) = Some (x', y') /\ sys_inv R R' tok tok' n x' y'.
Proof.
  intros Hinv Hok. revert x y Hinv. induction Hok as [|a l Ha Hl IH]; intros x y Hinv; [by exists x, y|].
  destruct (sys_step_spec R R' tok tok' (total_cost l + n) a x y) as (x1 & y1 & E & H1); [|done|].
  - by replace (cost a.2 + (total_cost l + n))%nat with (total_cost (a :: l) + n)%nat by (unfold total_cost; simpl; lia).
  - cbn [sys_run]. rewrite E. cbn [mbind option_bind]. by apply IH.
Qed.

(** ** Established connections *)

Definition ctrl_fresh (m : ums_host_cdc_msg) : Prop :=
  prod m = cursor_zero /\ cons m = cursor_zero /\ quiet_flags (prod_flags m) /\ conn_state_flags m = no_close.

(** A side just after the connection was set up, with peer [y]. *)
Record established (x y : side) : Prop := {
  es_sizes : buf_size (zlen (sndbuf (conn (ep x)))) /\ buf_size (zlen (rmb (conn (ep x))));
  es_id : 0 < conn_id (conn (ep x)) < 4194304;
  es_peer : peer_rmbe_size (conn (ep x)) = zlen (rmb (conn (ep y))) /\ token (local_tx_ctrl (conn (ep x))) = conn_id (conn (ep y));
  es_space : peer_rmbe_space (conn (ep x)) = peer_rmbe_size (conn (ep x)) /\
    sndbuf_space (conn (ep x)) = zlen (sndbuf (conn (ep x))) /\ bytes_to_rcv (conn (ep x)) = 0;
  es_ctrl : ctrl_fresh (local_tx_ctrl (conn (ep x))) /\ ctrl_fresh (local_rx_ctrl (conn (ep x)));
  es_cursors : tx_curs_prep (conn (ep x)) = cursor_zero /\ tx_curs_sent (conn (ep x)) = cursor_zero /\
    tx_curs_fin (conn (ep x)) = cursor_zero /\ rx_curs_confirmed (conn (ep x)) = cursor_zero;
  es_seq : tx_cdc_seq (conn (ep x)) = 0 /\ seqno (local_rx_ctrl (conn (ep x))) = 0;
  es_urg : urg_tx_pend (conn (ep x)) = false /\ urg_state (conn (ep x)) <> UMS_URG_VALID /\ urg_rx_skip_pend (conn (ep x)) = false;
  es_live : freed (conn (ep x)) = false /\ 0 <= sk_err (sk (ep x));
  es_link : link_wf (lnk (ep x)) /\ sq (ep x) = [] /\ post_results (ep x) = [];
  es_queues : rcq x = [] /\ scq x = [] /\ accepted x = [] /\ received x = []
}.

Definition gpos_zero : gpos :=
  {| g_fin := 0; g_sent := 0; g_ann := 0; g_dlv := 0; g_prod := 0; g_acons := 0; g_conf := 0; g_cmid := 0; g_smid := 0;
     g_seq0 := 0; g_seq1 := 0 |}.

Lemma curs_at_zero size : curs_at size 0 = cursor_zero.
Proof. unfold curs_at. by rewrite Zdiv_0_l, Zmod_0_l. Qed.

Lemma established_inv n x y : established x y -> established y x -> wr_tx_id (lnk (ep x)) + 2 * Z.of_nat n < 2 ^ 63 ->
  side_inv n (zlen (rmb (conn (ep y)))) (zlen (rmb (conn (ep x)))) (conn_id (conn (ep y))) (conn_id (conn (ep x)))
    gpos_zero gpos_zero (accepted y) x.
Proof.
  intros [(S1 & S2) I1 (P1 & P2) (Q1 & Q2 & Q3) ((T1 & T2 & T3 & T4) & (T5 & T6 & T7 & T8)) (C1 & C2 & C3 & C4) (N1 & N2) (U1 & U2 & U3) (F1 & F2) (L1 & L2 & L3) (W1 & W2 & W3 & W4)].
  intros [(S1' & S2') I1' _ _ _ _ _ _ _ _ (_ & _ & W3' & _)] Hids.
  pose proof S1 as B1. pose proof S2 as B2. pose proof S2' as B3. unfold buf_size in B1, B2, B3.
  split; [split|by rewrite W1].
  - split; rewrite ?W3; change (zlen (@nil Z)) with 0; rewrite ?curs_at_zero; simpl; try done; try lia. intros p Hp. lia.
  - split; rewrite ?W4, ?W3'; change (zlen (@nil Z)) with 0; rewrite ?curs_at_zero; simpl; try done; try lia.
    intros p Hp. lia.
  - exists [], []. split; rewrite ?L2, ?W2; try done. apply NoDup_nil_2.
Qed.

(** Whatever the two sides do, a receiver has been given a prefix of what was accepted. *)
Lemma established_run l x y : established x y -> established y x -> Forall (fun a => action_ok a.2) l ->
  wr_tx_id (lnk (ep x)) + 2 * Z.of_nat (total_cost l) < 2 ^ 63 -> wr_tx_id (lnk (ep y)) + 2 * Z.of_nat (total_cost l) < 2 ^ 63 ->
  exists x' y', sys_run l (x, y) = Some (x', y') /\
    sys_inv (zlen (rmb (conn (ep y)))) (zlen (rmb (conn (ep x)))) (conn_id (conn (ep y))) (conn_id (conn (ep x))) 0 x' y'.
Proof.
  intros Hx Hy Hl Hix Hiy. apply sys_run_spec; [|done]. rewrite Nat.add_0_r. exists gpos_zero, gpos_zero.
  split; by apply established_inv.
Qed.

Lemma received_prefix R R' tok tok' n x y : sys_inv R R' tok tok' n x y ->
  received y `prefix_of` accepted x /\ received x `prefix_of` accepted y.
Proof.
  intros (g & g' & [[_ Hx _] _] & [[_ Hy _] _]).
  split; [rewrite (ri_recv _ _ _ _ _ _ Hy)|rewrite (ri_recv _ _ _ _ _ _ Hx)]; unfold slice; rewrite drop_0; apply prefix_take.
Qed.

(** Nothing that [x] has accepted is still on its way to [y]. *)
Definition drained (x y : side) : Prop :=
  ums_tx_prepared_sends (conn (ep x)) = 0 /\ sq (ep x) = [] /\ rcq y = [] /\ bytes_to_rcv (conn (ep y)) = 0.

Lemma drained_all R R' tok tok' n x y : sys_inv R R' tok tok' n x y -> drained x y -> received y = accepted x.
Proof.
  intros (g & g' & [[Htx _ (cs1 & cs2 & Ho)] _] & [[_ Hrx _] Hin]) (D1 & D2 & D3 & D4).
  pose proof (oi_sq _ _ _ _ _ _ _ _ _ _ _ Ho) as Hsq. rewrite D2 in Hsq. destruct cs2; [|done]. simpl in Hsq.
  rewrite D3 in Hin. simpl in Hin. pose proof (ri_avail _ _ _ _ _ _ Hrx) as Hav. pose proof (ti_fin _ _ _ _ _ Htx). pose proof (ti_sent _ _ _ _ _ Htx).
  unfold ums_tx_prepared_sends in D1. rewrite (ti_cprep _ _ _ _ _ Htx), (ti_csent _ _ _ _ _ Htx) in D1.
  rewrite curs_diff_at in D1; [|apply (ti_S _ _ _ _ _ Htx)|lia|lia]. rewrite (ri_recv _ _ _ _ _ _ Hrx).
  replace (zlen (received y)) with (zlen (accepted x)) by lia. unfold slice, zlen. rewrite drop_0, Nat2Z.id. apply firstn_all.
Qed.

(** C2: A UMS connection is a reliable byte stream.  From two endpoints that have just
    been connected, any interleaving of sends, receives, executions of work requests,
    send and receive completions and work items on both sides runs without an access
    outside a ring or a user buffer, and in both directions the bytes that the receiver
    has returned are a prefix of the bytes that the sender has accepted, although the
    rings wrap, credits and cursors travel in separate messages and each queue is
    processed late. *)
Theorem ums_stream_prefix l x y : established x y -> established y x -> Forall (fun a => action_ok a.2) l ->
  wr_tx_id (lnk (ep x)) + 2 * Z.of_nat (total_cost l) < 2 ^ 63 -> wr_tx_id (lnk (ep y)) + 2 * Z.of_nat (total_cost l) < 2 ^ 63 ->
  exists x' y', sys_run l (x, y) = Some (x', y') /\
    received y' `prefix_of` accepted x' /\ received x' `prefix_of` accepted y'.
Proof.
  intros Hx Hy Hl Hix Hiy. destruct (established_run l x y Hx Hy Hl Hix Hiy) as (x' & y' & E & Hinv).
  exists x', y'. split; [done|]. by eapply received_prefix.
Qed.

(** C4: Nothing is lost: once a direction has nothing left in the send ring, in the
    send queue of the hardware, in the receive queue and in the receive ring, the
    receiver has returned every byte that the sender has accepted, in order. *)
Theorem ums_stream_complete l x y x' y' : established x y -> established y x -> Forall (fun a => action_ok a.2) l ->
  wr_tx_id (lnk (ep x)) + 2 * Z.of_nat (total_cost l) < 2 ^ 63 -> wr_tx_id (lnk (ep y)) + 2 * Z.of_nat (total_cost l) < 2 ^ 63 ->
  sys_run l (x, y) = Some (x', y') -> drained x' y' -> received y' = accepted x'.
Proof.
  intros Hx Hy Hl Hix Hiy E Hd. destruct (established_run l x y Hx Hy Hl Hix Hiy) as (x1 & y1 & E1 & Hinv).
  rewrite E in E1. injection E1 as <- <-. by eapply drained_all.
Qed.

(** Two sides with send rings of 4 and 5 bytes and receive rings of 3 and 6 bytes. *)
Definition example_ctrl (tok : Z) : ums_host_cdc_msg :=
  {| seqno := 0; token := tok; prod := cursor_zero; cons := cursor_zero;
     prod_flags := {| urg_data_present := false; urg_data_pending := false; cons_curs_upd_req := false; write_blocked := false |};
     conn_state_flags := no_close |}.

Definition example_side (send recv peer_recv id peer_id : Z) : side :=
  {| ep := {|
       conn := {|
         sndbuf := replicate (Z.to_nat send) 0; rmb := replicate (Z.to_nat recv) 0; peer_rmbe_size := peer_recv;
         peer_rmbe_space := peer_recv; sndbuf_space := send; bytes_to_rcv := 0; rmbe_update_limit := 0;
         local_tx_ctrl := example_ctrl peer_id; local_rx_ctrl := example_ctrl 0; local_tx_ctrl_fin := cursor_zero;
         tx_curs_prep := cursor_zero; tx_curs_sent := cursor_zero; tx_curs_fin := cursor_zero; rx_curs_confirmed := cursor_zero;
         tx_cdc_seq := 0; tx_cdc_seq_fin := 0; conn_pend_tx_wr := 0; urg_curs := cursor_zero; urg_state := UMS_URG_READ;
         urg_tx_pend := false; urg_rx_skip_pend := false; urg_rx_byte := 0; tx_in_release_sock := false; tx_work := false;
         cdc_tx_work := false; close_work := false; killed := false; freed := false; conn_id := id |};
       sk := {| sk_state := UMS_ACTIVE; sk_err := 0; send_shutdown := false; rcv_shutdown := false; sock_done := false;
                urginline := false; corked := false; autocorking_size := 0 |};
       lnk := {| sendable := true; terminating := false; credits_enable := true; peer_rq_credits := 8; local_rq_credits := 0;
                 local_cr_watermark_high := 4; credits_update_limit := 2; wr_tx_id := 0; wr_tx_mask := replicate 4 false;
                 wr_tx_pends := replicate 4 pend_zero; link_down_sched := false |};
       sq := []; post_results := [] |};
     rcq := []; scq := []; accepted := []; received := [] |}.

Definition example_x : side := example_side 4 6 3 11 22.
Definition example_y : side := example_side 5 3 6 22 11.

Lemma example_free_wf (l : ums_link) : wr_tx_mask l = replicate 4 false -> wr_tx_pends l = replicate 4 pend_zero -> wr_tx_id l = 0 -> link_wf l.
Proof.
  intros Em Ep En. split; rewrite ?Em, ?Ep, ?En; simpl; [done|lia|..].
  - intros [|[|[|[|i]]]]; simpl; naive_solver.
  - intros [|[|[|[|i]]]]; simpl; naive_solver.
  - intros [|[|[|[|i]]]]; simpl; naive_solver.
Qed.

Lemma example_established : established example_x example_y /\ established example_y example_x.
Proof. split; split; try done; (split; [by apply example_free_wf|done]). Qed.

(** Every queue and every work item once, and a receive on both sides. *)
Definition example_round : list (bool * action) :=
  [(true, AExec); (true, AExec); (false, AExec); (false, ARx false); (false, ARecv 5 1); (true, ARx true); (true, ATx false);
   (false, ATx false); (true, ARelease); (true, AWork); (false, ACdcWork); (true, ARecv 1 1); (false, AExec); (true, ARx false)].

(** [x] sends seven bytes through rings of 4 and 3 bytes and [y] answers two. *)
Definition example_actions : list (bool * action) :=
  let send d := ASend {| msg_data := d; msg_readable := zlen d; msg_oob := false; msg_more := false |} in
  [(true, send [1; 2; 3; 4]); (false, send [8; 9])] ++ example_round ++ [(true, send [5; 6; 7])] ++
  example_round ++ example_round ++ example_round ++ example_round.

Lemma example_actions_ok : Forall (fun a => action_ok a.2) example_actions.
Proof. repeat constructor; simpl; try done; lia. Qed.

Lemma ums_stream_prefix_witness :
  exists x' y', sys_run example_actions (example_x, example_y) = Some (x', y') /\
    received y' `prefix_of` accepted x' /\ received x' `prefix_of` accepted y'.
Proof.
  apply (ums_stream_prefix example_actions example_x example_y).
  - apply example_established.
  - apply example_established.
  - apply example_actions_ok.
  - vm_compute. reflexivity.
  - vm_compute. reflexivity.
Defined.

Definition example_end : side * side := default (example_x, example_y) (sys_run example_actions (example_x, example_y)).

Lemma ums_stream_complete_witness : received example_end.2 = accepted example_end.1 /\ accepted example_end.1 = [1; 2; 3; 4; 5; 6; 7].
Proof.
  split; [|vm_compute; reflexivity]. apply (ums_stream_complete example_actions example_x example_y).
  - apply example_established.
  - apply example_established.
  - apply example_actions_ok.
  - vm_compute. reflexivity.
  - vm_compute. reflexivity.
  - vm_compute. reflexivity.
  - vm_compute. repeat split.
Defined.
