(* ===== verification/UmsLimits.v ===== *)
(** * UMS: behaviour outside the stream theorem

    What the data path of [UmsConn] does with urgent data, MSG_PEEK and faults of
    user memory, which [UmsSystem] excludes. *)

From S2P Require Import Prelude Memory UmsCursor UmsWr UmsConn UmsStream UmsSystem.

(** ** Urgent data that wraps the ring of the peer *)

(** The state of the sending direction that a push of urgent data depends on. *)
Definition send_same (c c' : ums_connection) : Prop :=
  sndbuf c' = sndbuf c /\ peer_rmbe_size c' = peer_rmbe_size c /\ tx_curs_prep c' = tx_curs_prep c /\
  tx_curs_sent c' = tx_curs_sent c /\ prod (local_tx_ctrl c') = prod (local_tx_ctrl c) /\
  cons (local_rx_ctrl c') = cons (local_rx_ctrl c) /\ urg_tx_pend c' = urg_tx_pend c /\
  urg_data_present (prod_flags (local_tx_ctrl c')) = urg_data_present (prod_flags (local_tx_ctrl c)).

#[local] Instance send_same_preorder : PreOrder send_same.
Proof.
  split; [by unfold send_same|]. unfold send_same. intros x y z (A1 & A2 & A3 & A4 & A5 & A6 & A7 & A8) (B1 & B2 & B3 & B4 & B5 & B6 & B7 & B8).
  rewrite B1, B2, B3, B4, B5, B6, B7, B8. done.
Qed.

Lemma post_conn wr e : conn (ubcore_post wr e).2 = conn e.
Proof. unfold ubcore_post. by destruct (post_results e) as [|[] ?]. Qed.

Lemma ub_write_conn src dst e : conn (ums_tx_ub_write src dst e).2 = conn e.
Proof.
  unfold ums_tx_ub_write. destruct (ums_wr_tx_get_next_wr_id (lnk e)) as [id l].
  pose proof (post_conn (WrWrite id src dst) (set_lnk l e)) as H. destruct (ubcore_post _ _) as [[] e1]; done.
Qed.

Lemma wr_tx_send_conn idx m e : conn (ums_wr_tx_send idx m e).2 = conn e.
Proof.
  unfold ums_wr_tx_send. pose proof (post_conn (WrSend (slot_wr_id idx (lnk e)) m) e) as H. destruct (ubcore_post _ _) as [[] e1]; done.
Qed.

Lemma cdc_msg_send_same idx e : send_same (conn e) (conn (ums_cdc_msg_send idx e).2).
Proof.
  unfold ums_cdc_msg_send. set (e1 := upd_conn _ (upd_conn _ _)). assert (send_same (conn e) (conn e1)) as H1 by done. clearbody e1.
  destruct (announce_credits_spec e1) as (k & l' & -> & _).
  match goal with |- context [ums_wr_tx_send idx ?m ?e2] => pose proof (wr_tx_send_conn idx m e2) as H2; destruct (ums_wr_tx_send idx m e2) as [rc e3] end.
  simpl in H2. etrans; [exact H1|]. split_ifs; simpl; rewrite H2; done.
Qed.

Lemma get_free_slot_conn a h e : conn (ums_get_free_slot a h e).2 = conn e.
Proof. unfold ums_get_free_slot. destruct (ums_wr_tx_get_free_slot a h (lnk e)) as [[i|rc] l]; [destruct (killed _)|]; done. Qed.

Lemma slot_err_same rc e : send_same (conn e) (conn (ums_tx_handle_get_free_slot_err rc e).2).
Proof. unfold ums_tx_handle_get_free_slot_err, sock_error. split_ifs; done. Qed.

(** An urgent byte is pending and the data up to it does not fit before the end of
    the ring of the peer. *)
Definition urgent_wraps (c : ums_connection) : Prop :=
  urg_tx_pend c = true /\ urg_data_present (prod_flags (local_tx_ctrl c)) = false /\
  wrap (prod (local_tx_ctrl c)) = wrap (cons (local_rx_ctrl c)) /\
  peer_rmbe_size c - count (prod (local_tx_ctrl c)) < ums_tx_prepared_sends c.

Lemma urgent_wraps_same c c' : send_same c c' -> urgent_wraps c -> urgent_wraps c'.
Proof.
  intros (E1 & E2 & E3 & E4 & E5 & E6 & E7 & E8). unfold urgent_wraps, ums_tx_prepared_sends.
  by rewrite E1, E2, E3, E4, E5, E6, E7, E8.
Qed.

Lemma urgent_inner_same idx len so sl doff dl e : urg_tx_pend (conn e) = true ->
  conn (ums_tx_ub_writes_inner idx len so sl doff dl e).2 = conn e.
Proof.
  intros Hu. unfold ums_tx_ub_writes_inner. destruct (dl <? len); [|rewrite Hu; apply ub_write_conn].
  match goal with |- context [ums_tx_ub_write ?s doff e] => pose proof (ub_write_conn s doff e) as H; destruct (ums_tx_ub_write s doff e) as [rc e1] end.
  simpl in H. destruct (negb _); [done|]. rewrite H, Hu. by rewrite ub_write_conn.
Qed.

Lemma urgent_writes_same idx e : urgent_wraps (conn e) -> send_same (conn e) (conn (ums_tx_ub_writes idx e).2).
Proof.
  intros (Hu & Hp & Hw & Hs). unfold ums_tx_ub_writes. unfold ums_tx_prepared_sends in Hs. set (to_send := ums_curs_diff _ _ _) in *.
  clearbody to_send. destruct (to_send <=? 0); [done|]. destruct (peer_rmbe_space (conn e) <=? 0); [done|].
  rewrite Hw, Z.eqb_refl. set (dl := Z.min _ (Z.min _ _)). assert (dl <> to_send) as Hdl by lia. clearbody dl.
  match goal with |- context [ums_tx_ub_writes_inner idx ?a ?b ?c ?d dl ?e1] =>
    pose proof (urgent_inner_same idx a b c d dl e1) as H; destruct (ums_tx_ub_writes_inner idx a b c d dl e1) as [rc e2] end.
  simpl in H. specialize (H Hu). destruct (negb _); [simpl; rewrite H; done|]. rewrite (proj2 (Z.eqb_neq _ _)), andb_false_r by done.
  simpl. rewrite H. done.
Qed.

(** Urgent data that wraps the receive ring of the peer is never sent: every push
    transfers it again, sends a CDC message without the urgent flag, and leaves the
    cursors where they were, so the connection stays in this state. *)
Theorem urgent_wrapping_data_never_completes a e : urgent_wraps (conn e) ->
  let e' := (ums_tx_sndbuf_nonempty a e).2 in
  urgent_wraps (conn e') /\ tx_curs_sent (conn e') = tx_curs_sent (conn e) /\
  prod (local_tx_ctrl (conn e')) = prod (local_tx_ctrl (conn e)).
Proof.
  intros H e'. assert (send_same (conn e) (conn e')) as Hs.
  - unfold e', ums_tx_sndbuf_nonempty. destruct (_ <=? 0); [done|]. destruct (_ <=? 0); [done|]. destruct (_ || _); [done|].
    unfold ums_tx_sndbuf_nonempty_handler. destruct (negb _); [done|]. pose proof H as (-> & Hp & _).
    unfold ums_tx_urgent_sendbuf_noempty. pose proof (get_free_slot_conn a HandlerCdc e) as E.
    destruct (ums_get_free_slot a HandlerCdc e) as [[idx|rc] e1]; simpl in E; rewrite <- E in *; [|apply slot_err_same].
    rewrite Hp. simpl negb. cbv iota. pose proof (urgent_writes_same idx e1 H) as H2.
    destruct (ums_tx_ub_writes idx e1) as [rc e2]. simpl in H2. destruct (negb _); [done|].
    pose proof (cdc_msg_send_same idx e2) as H3. destruct (ums_cdc_msg_send idx e2) as [rc' e3]. simpl in H3.
    assert (send_same (conn e1) (conn e3)) as H4 by (by trans (conn e2)). pose proof H4 as (_ & _ & _ & _ & _ & _ & _ & ->).
    rewrite Hp, andb_false_r. exact H4.
  - split; [by eapply urgent_wraps_same|]. by destruct Hs as (_ & _ & _ & E1 & E2 & _).
Qed.

Definition send_all (d : list Z) (oob : bool) : bool * action :=
  (true, ASend {| msg_data := d; msg_readable := zlen d; msg_oob := oob; msg_more := false |}).

Definition example_after (l : list (bool * action)) : side * side := default (example_x, example_y) (sys_run l (example_x, example_y)).

(** Two bytes fill two thirds of the peer's ring; the urgent data has two bytes. *)
Lemma urgent_wrapping_data_never_completes_witness :
  let e := ep (example_after ([send_all [1; 2] false] ++ example_round ++ example_round ++ [send_all [3; 4] true])).1 in
  let e' := (ums_tx_sndbuf_nonempty false e).2 in
  urgent_wraps (conn e') /\ tx_curs_sent (conn e') = tx_curs_sent (conn e) /\
  prod (local_tx_ctrl (conn e')) = prod (local_tx_ctrl (conn e)).
Proof.
  apply (urgent_wrapping_data_never_completes false
    (ep (example_after ([send_all [1; 2] false] ++ example_round ++ example_round ++ [send_all [3; 4] true])).1)).
  vm_compute. repeat split.
Defined.

(** ** Completion of an urgent CDC message *)

(** Five bytes are sent, received and completed; then an urgent byte is sent and its
    requests complete before the peer acknowledges it. *)
Definition urgent_actions : list (bool * action) :=
  [send_all [1; 2; 3; 4] false] ++ example_round ++ example_round ++ example_round ++ [send_all [5] false] ++ example_round ++
  example_round ++ [send_all [6] true; (true, AExec); (true, AExec); (true, ATx false); (true, ATx false)].

(** The CDC message of urgent data does not record the position it completes, so
    its completion takes the completed position back to the start of the ring; the
    space that the sender then sees is larger than its ring, and the next sends
    overwrite data that has not been transferred. *)
Theorem urgent_completion_corrupts_space :
  exists x y, sys_run urgent_actions (example_x, example_y) = Some (x, y) /\ tx_curs_fin (conn (ep x)) = cursor_zero /\
    zlen (sndbuf (conn (ep x))) = 4 /\ sndbuf_space (conn (ep x)) = 6.
Proof. eexists _, _. split; [vm_compute; reflexivity|]. vm_compute. repeat split. Qed.

(** ** MSG_PEEK *)

(** A peek that waits for more bytes than are there returns the same bytes again:
    the loop reads from the unchanged consumer cursor in every turn. *)
Theorem peek_repeats_data :
  let e := ep (example_after [send_all [1; 2] false; (true, AExec); (false, ARx false)]).2 in
  exists e', ums_rx_recvmsg {| msg_peek := true; msg_trunc := false; msg_recv_oob := false; msg_errqueue := false |} 4 4 4 e =
      Some (4, [1; 2; 1; 2], e') /\ bytes_to_rcv (conn e) = 2.
Proof. eexists. split; [vm_compute; reflexivity|]. vm_compute. reflexivity. Qed.

(** ** Faults of user memory in sendmsg *)

(** When the second part of a copy into the send ring faults, sendmsg reports the
    bytes of the first part as sent although the cursor has not moved: they are lost. *)
Theorem sendmsg_fault_loses_data :
  let e := ep (example_after ([send_all [1; 2; 3] false] ++ example_round ++ example_round ++ example_round)).1 in
  exists e', ums_tx_sendmsg {| msg_data := [4; 5]; msg_readable := 1; msg_oob := false; msg_more := false |} e = Some (1, e') /\
    tx_curs_prep (conn e') = tx_curs_prep (conn e) /\ sndbuf_space (conn e') = sndbuf_space (conn e).
Proof. eexists. split; [vm_compute; reflexivity|]. vm_compute. split; reflexivity. Qed.

(** C40: four defects of the data path. A connection gets into a state in which
    urgent data wraps the ring of the peer, and no push ever leaves that state
    or moves the send cursors. The completion of an urgent message resets the
    completed position, after which the sender sees more space than its ring
    has. A peek returns the same bytes twice. A fault of user memory makes
    sendmsg report bytes that it has not queued. *)
Theorem ums_calls_fault :
  ((exists l, urgent_wraps (conn (ep (example_after l).1))) /\
   (forall a e, urgent_wraps (conn e) -> let e' := (ums_tx_sndbuf_nonempty a e).2 in
      urgent_wraps (conn e') /\ tx_curs_sent (conn e') = tx_curs_sent (conn e) /\
      prod (local_tx_ctrl (conn e')) = prod (local_tx_ctrl (conn e)))) /\
  (exists x y, sys_run urgent_actions (example_x, example_y) = Some (x, y) /\ tx_curs_fin (conn (ep x)) = cursor_zero /\
    zlen (sndbuf (conn (ep x))) = 4 /\ sndbuf_space (conn (ep x)) = 6) /\
  (let e := ep (example_after [send_all [1; 2] false; (true, AExec); (false, ARx false)]).2 in
   exists e', ums_rx_recvmsg {| msg_peek := true; msg_trunc := false; msg_recv_oob := false; msg_errqueue := false |} 4 4 4 e =
      Some (4, [1; 2; 1; 2], e') /\ bytes_to_rcv (conn e) = 2) /\
  (let e := ep (example_after ([send_all [1; 2; 3] false] ++ example_round ++ example_round ++ example_round)).1 in
   exists e', ums_tx_sendmsg {| msg_data := [4; 5]; msg_readable := 1; msg_oob := false; msg_more := false |} e = Some (1, e') /\
    tx_curs_prep (conn e') = tx_curs_prep (conn e) /\ sndbuf_space (conn e') = sndbuf_space (conn e)).
Proof.
  split; [|split; [exact urgent_completion_corrupts_space|split; [exact peek_repeats_data|exact sendmsg_fault_loses_data]]].
  split; [|exact urgent_wrapping_data_never_completes].
  exists ([send_all [1; 2] false] ++ example_round ++ example_round ++ [send_all [3; 4] true]). vm_compute. repeat split.
Qed.
