(* ===== verification/Tlv.v ===== *)
(** * The type-length-value elements of the URPC control path

    Models src/src/urpc/framework/lib/control/urpc_tlv.{h,c}: the element
    heads laid out in a message buffer and the two searches every control-path
    message is parsed with.  A buffer is the list of its bytes, a pointer into
    it is an offset, [base] is the address of the buffer's first byte.  An
    access outside the buffer is [None].

    [search_finds] says what the searches compute on a buffer that holds a
    sequence of elements, whatever elements of other types lie before the one
    looked for.  [tlv_ok] is the condition on the lengths a peer declares under
    which the searches stay inside the buffer ([search_inside],
    [search_next_inside]); [search_wrapping_length_round] and
    [search_wrapping_length_accepted] show what the code does without it. *)

From S2P Require Import Prelude Memory.

(** ** Elements *)

Definition URPC_TLV_TYPE_ARRAY : Z := 15.
Definition URPC_TLV_TYPE_NEG_MSG : Z := 16.
Definition URPC_TLV_TYPE_CRYPTO_KEY : Z := 17.
Definition URPC_TLV_TYPE_ATTACH_MSG : Z := 18.
Definition URPC_TLV_TYPE_ATTACH_INFO : Z := 19.
Definition URPC_TLV_TYPE_CHANNEL_MSG : Z := 20.
Definition URPC_TLV_TYPE_CHANNEL_INFO : Z := 21.
Definition URPC_TLV_TYPE_QUEUE_INFO : Z := 22.
Definition URPC_TLV_TYPE_MEM_INFO : Z := 23.
Definition URPC_TLV_TYPE_DETACH_MSG : Z := 24.
Definition URPC_TLV_TYPE_DETACH_INFO : Z := 25.
Definition URPC_TLV_TYPE_CONNECT_MSG : Z := 26.
Definition URPC_TLV_TYPE_CONNECT_INFO : Z := 27.

(** [urpc_tlv_head_t]: the type at offset 0, the length of the value at offset
    4, the value at offset 8.  [urpc_tlv_arr_head_t]: the array number is the
    first word of the value, the user data follows it. *)
Definition TLV_HEAD_SIZE : Z := 8.
Definition TLV_ARR_HEAD_SIZE : Z := 12.

Definition tlv_type (m : list Z) (head : Z) : option Z := load32 m head.
Definition tlv_len (m : list Z) (head : Z) : option Z := load32 m (head + 4).
Definition tlv_arr_num (m : list Z) (head : Z) : option Z := load32 m (head + 8).

Definition urpc_tlv_get_next_element (m : list Z) (head : Z) : option Z :=
  len ← tlv_len m head; Some (head + TLV_HEAD_SIZE + len).

Definition urpc_tlv_get_total_len (m : list Z) (head : Z) : option Z :=
  len ← tlv_len m head; Some (u32 (TLV_HEAD_SIZE + len)).

Definition urpc_tlv_get_left_len (buf buf_size cur : Z) : Z := u32 (buf_size - u32 (cur - buf)).

Definition urpc_tlv_arr_get_user_data_len (m : list Z) (head : Z) : option Z :=
  len ← tlv_len m head; Some (u32 (len - 4)).

Definition urpc_tlv_arr_get_value_len_by_user_data_len (user_data_len : Z) : Z :=
  u32 (user_data_len + TLV_ARR_HEAD_SIZE - TLV_HEAD_SIZE).

(** ** The searches *)

Definition UINT64_MAX : Z := 2 ^ 64 - 1.

Section Search.
Variable base : Z.

Definition urpc_tlv_buf_validation (buf buf_size : Z) : bool :=
  negb ((base + buf =? 0) || (buf_size <? TLV_HEAD_SIZE)) && negb (UINT64_MAX - buf_size <? base + buf).

(** The [while] loop.  The comparison with [buf_size - sizeof(...)] is in 64
    bits, the one with [buf_size - offset] in 32.  Every iteration but one
    that meets a total length of 0 moves the offset forward and reads the
    buffer there, so [length m] iterations are enough for any loop that ends. *)
Fixpoint search_loop (fuel : nat) (m : list Z) (buf buf_size type offset : Z) : option (option Z) :=
  match fuel with
  | O => None
  | S fuel =>
    if offset <=? buf_size - TLV_HEAD_SIZE then
      total_len ← urpc_tlv_get_total_len m (buf + offset);
      if u32 (buf_size - offset) <? total_len then Some None else
      ty ← tlv_type m (buf + offset);
      if ty =? type then Some (Some (buf + offset))
      else search_loop fuel m buf buf_size type (u32 (offset + total_len))
    else Some None
  end.

Definition urpc_tlv_search_element (m : list Z) (buf buf_size type : Z) : option (option Z) :=
  if negb (urpc_tlv_buf_validation buf buf_size) then Some None
  else search_loop (S (length m)) m buf buf_size type 0.

Definition urpc_tlv_search_next_element (m : list Z) (cur left_size type : Z) : option (option Z) :=
  if negb (urpc_tlv_buf_validation cur left_size) then Some None else
  total_len ← urpc_tlv_get_total_len m cur;
  if left_size - TLV_HEAD_SIZE <? total_len then Some None else
  next ← urpc_tlv_get_next_element m cur;
  urpc_tlv_search_element m next (u32 (left_size - total_len)) type.

End Search.

(** ** What a buffer holds *)

Abbreviation element := (Z * list Z)%type.

Definition tlv (e : element) : list Z := le32 e.1 ++ le32 (zlen e.2) ++ e.2.

Definition tlvs (l : list element) : list Z := mjoin (tlv <$> l).

Definition element_ok (e : element) : Prop := in_u32 e.1 /\ zlen e.2 < 2 ^ 32 - TLV_HEAD_SIZE.

(** The value [v] of a message or an array holds the elements [l], up to
    fewer than 8 bytes of padding. *)
Definition carries (v : list Z) (l : list element) : Prop :=
  exists pad, v = tlvs l ++ pad /\ zlen pad < TLV_HEAD_SIZE /\ Forall element_ok l.

(** The bytes [v] lie at [off]. *)
Definition occurs (m : list Z) (off : Z) (v : list Z) : Prop := read_bytes m off (zlen v) = Some v.

(** Offset of the first element of a type. *)
Fixpoint find_element (off : Z) (l : list element) (type : Z) : option Z :=
  match l with
  | [] => None
  | e :: l => if e.1 =? type then Some off else find_element (off + zlen (tlv e)) l type
  end.

(** The buffer lies in the address space and its length fits the 32 bits of
    [urpc_serialized_data_t.len]. *)
Definition buffer_placed (base : Z) (m : list Z) : Prop :=
  0 < base /\ base + zlen m <= UINT64_MAX /\ zlen m < 2 ^ 32.

Lemma zlen_le32 v : zlen (le32 v) = 4.
Proof. done. Qed.

#[export] Hint Rewrite zlen_le32 : umdk_rw.

Lemma zlen_tlv e : zlen (tlv e) = TLV_HEAD_SIZE + zlen e.2.
Proof. unfold tlv. autorewrite with umdk_rw. unfold TLV_HEAD_SIZE. lia. Qed.

Lemma tlvs_cons e l : tlvs (e :: l) = tlv e ++ tlvs l.
Proof. done. Qed.

Lemma tlvs_app l k : tlvs (l ++ k) = tlvs l ++ tlvs k.
Proof. unfold tlvs. by rewrite fmap_app, join_app. Qed.

#[export] Hint Rewrite zlen_tlv tlvs_cons tlvs_app : umdk_rw.

Lemma occurs_range m off v : occurs m off v -> 0 <= off /\ off + zlen v <= zlen m.
Proof. intros (? & ? & ? & _)%read_bytes_Some. done. Qed.

Lemma occurs_app m off u v : occurs m off (u ++ v) <-> occurs m off u /\ occurs m (off + zlen u) v.
Proof.
  pose proof (zlen_nonneg u). pose proof (zlen_nonneg v).
  unfold occurs. rewrite !read_bytes_Some, zlen_app. split.
  - intros (? & ? & ? & _ & Hi). split; (split_and!; [lia..|done|]); intros i Hr.
    + rewrite <-Hi by lia. by rewrite zget_app_l by lia.
    + specialize (Hi (zlen u + i) ltac:(lia)). rewrite zget_app_r in Hi by lia.
      rewrite <-Z.add_assoc, <-Hi. f_equal. lia.
  - intros [(? & ? & ? & _ & Hu) (? & ? & ? & _ & Hv)]. split_and!; [lia..|].
    intros i Hr. destruct (Z.lt_ge_cases i (zlen u)).
    + rewrite zget_app_l by lia. apply Hu. lia.
    + rewrite zget_app_r by lia. rewrite Hv by lia. f_equal. lia.
Qed.

Lemma occurs_load32 m off v : in_u32 v -> occurs m off (le32 v) -> load32 m off = Some v.
Proof. intros Hv Ho. unfold load32. change 4 with (zlen (le32 v)). rewrite Ho. simpl. f_equal. by apply of_le32_le32. Qed.

(** The three parts of an element in a buffer. *)
Lemma occurs_tlv m off e :
  element_ok e -> occurs m off (tlv e) ->
  tlv_type m off = Some e.1 /\ tlv_len m off = Some (zlen e.2) /\ occurs m (off + TLV_HEAD_SIZE) e.2.
Proof.
  intros [H1 H2] (Ht & (Hl & Hv)%occurs_app)%occurs_app. pose proof (zlen_nonneg e.2).
  unfold TLV_HEAD_SIZE in *. split_and!.
  - by apply occurs_load32.
  - apply occurs_load32; [lia|done].
  - change (zlen (le32 _)) with 4 in Hv. by replace (off + 8) with (off + 4 + 4) by lia.
Qed.

Lemma total_len_tlv m off e :
  element_ok e -> occurs m off (tlv e) -> urpc_tlv_get_total_len m off = Some (zlen (tlv e)).
Proof.
  intros He Ho. destruct (occurs_tlv _ _ _ He Ho) as (_ & Hl & _). unfold urpc_tlv_get_total_len.
  rewrite Hl. cbn [mbind option_bind]. rewrite u32_small, zlen_tlv; [done|].
  destruct He as [_ He]. pose proof (zlen_nonneg e.2). unfold TLV_HEAD_SIZE in *. lia.
Qed.

Lemma next_element_tlv m off e :
  element_ok e -> occurs m off (tlv e) -> urpc_tlv_get_next_element m off = Some (off + zlen (tlv e)).
Proof.
  intros He Ho. destruct (occurs_tlv _ _ _ He Ho) as (_ & Hl & _). unfold urpc_tlv_get_next_element.
  rewrite Hl. cbn [mbind option_bind]. rewrite zlen_tlv. f_equal. lia.
Qed.

(** ** The searches on a buffer that holds elements *)

Lemma search_loop_finds l : forall m buf v off type fuel pad,
  occurs m (buf + off) (tlvs l ++ pad) -> zlen pad < TLV_HEAD_SIZE -> Forall element_ok l ->
  0 <= off -> v = off + zlen (tlvs l ++ pad) -> v < 2 ^ 32 -> zlen (tlvs l) < Z.of_nat fuel ->
  search_loop fuel m buf v type off = Some (find_element (buf + off) l type).
Proof.
  induction l as [|e l IH]; intros m buf v off type fuel pad Ho Hpad Hl Hoff -> Hv Hf;
    pose proof (zlen_nonneg pad).
  - destruct fuel as [|fuel]; [change (zlen (tlvs [])) with 0 in Hf; lia|]. cbn [search_loop find_element].
    change (tlvs []) with (@nil Z) in *. rewrite app_nil_l in *.
    by rewrite (proj2 (Z.leb_gt _ _)) by lia.
  - apply Forall_cons in Hl as [He Hl]. rewrite tlvs_cons, <-app_assoc in *.
    apply occurs_app in Ho as [Hoe Hol]. pose proof (zlen_nonneg (tlvs l)). pose proof (zlen_nonneg e.2).
    pose proof (zlen_tlv e) as Ht. rewrite !zlen_app in *. unfold TLV_HEAD_SIZE in *.
    destruct fuel as [|fuel]; [lia|]. cbn [search_loop find_element].
    rewrite (proj2 (Z.leb_le _ _)) by (unfold TLV_HEAD_SIZE; lia).
    rewrite (total_len_tlv _ _ _ He Hoe). cbn [mbind option_bind].
    rewrite u32_small by lia. rewrite (proj2 (Z.ltb_ge _ _)) by lia.
    destruct (occurs_tlv _ _ _ He Hoe) as (-> & _ & _). cbn [mbind option_bind].
    destruct (e.1 =? type); [done|].
    rewrite u32_small by lia. rewrite <-Z.add_assoc.
    apply IH with pad; [by rewrite Z.add_assoc|done..|lia| |lia|lia].
    rewrite zlen_app. lia.
Qed.

Lemma buf_validation_true base m buf v :
  buffer_placed base m -> 0 <= buf -> 0 <= v -> buf + v <= zlen m ->
  urpc_tlv_buf_validation base buf v = negb (v <? TLV_HEAD_SIZE).
Proof.
  intros (? & ? & ?) ? ? ?. unfold urpc_tlv_buf_validation.
  rewrite (proj2 (Z.eqb_neq (base + buf) 0)), (proj2 (Z.ltb_ge _ (base + buf))) by lia.
  by rewrite andb_true_r.
Qed.

(** A search returns the first element of the type looked for. *)
Lemma search_finds base m buf v l type :
  buffer_placed base m -> occurs m buf v -> carries v l ->
  urpc_tlv_search_element base m buf (zlen v) type = Some (find_element buf l type).
Proof.
  intros Hb Ho (pad & -> & Hpad & Hl). pose proof (occurs_range _ _ _ Ho) as [Hr1 Hr2].
  pose proof Hb as (_ & _ & Hm). pose proof (zlen_nonneg pad). pose proof (zlen_nonneg (tlvs l)).
  unfold urpc_tlv_search_element. rewrite (buf_validation_true base m), negb_involutive; [|done|lia|apply zlen_nonneg|done].
  rewrite <-(Z.add_0_r buf) at 2. rewrite zlen_app in *. destruct (Z.ltb_spec (zlen (tlvs l) + zlen pad) TLV_HEAD_SIZE) as [Hlt|Hge].
  - destruct l as [|e l]; [done|]. exfalso. revert Hlt. rewrite tlvs_cons, zlen_app, zlen_tlv.
    pose proof (zlen_nonneg e.2). pose proof (zlen_nonneg (tlvs l)). lia.
  - apply search_loop_finds with pad; [by rewrite Z.add_0_r|done|done|lia|by rewrite zlen_app|lia|].
    unfold zlen in *. lia.
Qed.

(** The next search starts behind the current element. *)
Lemma search_next_finds base m cur e l pad type :
  buffer_placed base m -> occurs m cur (tlv e ++ tlvs l ++ pad) -> zlen pad < TLV_HEAD_SIZE ->
  Forall element_ok (e :: l) ->
  urpc_tlv_search_next_element base m cur (zlen (tlv e ++ tlvs l ++ pad)) type =
    Some (find_element (cur + zlen (tlv e)) l type).
Proof.
  intros Hb Ho Hpad Hl. pose proof (occurs_range _ _ _ Ho) as [Hr1 Hr2]. pose proof Hb as (_ & _ & Hm).
  apply occurs_app in Ho as [Hoe Hol]. apply Forall_cons in Hl as [He Hl].
  pose proof (zlen_nonneg pad). pose proof (zlen_nonneg (tlvs l)). pose proof (zlen_nonneg e.2).
  pose proof (zlen_tlv e). rewrite !zlen_app in *. unfold TLV_HEAD_SIZE in *.
  unfold urpc_tlv_search_next_element. rewrite (buf_validation_true base m), negb_involutive by (done || lia).
  unfold TLV_HEAD_SIZE in *. rewrite (proj2 (Z.ltb_ge _ _)) by lia.
  rewrite (total_len_tlv _ _ _ He Hoe), (next_element_tlv _ _ _ He Hoe). cbn [mbind option_bind].
  destruct (Z.ltb_spec (zlen (tlv e) + (zlen (tlvs l) + zlen pad) - 8) (zlen (tlv e))) as [Hlt|Hge].
  - destruct l as [|e' l]; [done|]. exfalso. revert Hlt. rewrite tlvs_cons, zlen_app, (zlen_tlv e').
    pose proof (zlen_nonneg e'.2). pose proof (zlen_nonneg (tlvs l)). unfold TLV_HEAD_SIZE. lia.
  - rewrite u32_small by lia. replace (_ - zlen (tlv e)) with (zlen (tlvs l ++ pad)) by (rewrite zlen_app; lia).
    apply search_finds; [done|done|by exists pad].
Qed.

(** Elements of other types in front are skipped. *)
Lemma find_element_skip l : forall off e k type,
  e.1 = type -> Forall (fun x => x.1 <> type) l ->
  find_element off (l ++ e :: k) type = Some (off + zlen (tlvs l)).
Proof.
  induction l as [|x l IH]; intros off e k type He Hl; cbn [app find_element].
  - rewrite (proj2 (Z.eqb_eq _ _)) by done. f_equal. change (zlen (tlvs [])) with 0. lia.
  - apply Forall_cons in Hl as [Hx Hl]. rewrite (proj2 (Z.eqb_neq _ _)) by done.
    rewrite (IH _ _ _ _ He Hl), tlvs_cons, zlen_app. f_equal. lia.
Qed.

(** ** The searches on any buffer

    [tlv_ok] walks the elements of a region the way the searches do, and the
    regions nested in the message and array elements: no declared length wraps
    the 32-bit total length, and an array is long enough to hold its number. *)

Definition is_message_type (ty : Z) : bool :=
  bool_decide (ty ∈ [URPC_TLV_TYPE_NEG_MSG; URPC_TLV_TYPE_ATTACH_MSG; URPC_TLV_TYPE_CHANNEL_MSG;
                     URPC_TLV_TYPE_DETACH_MSG; URPC_TLV_TYPE_CONNECT_MSG]).

Fixpoint tlv_ok_within (fuel : nat) (m : list Z) (buf size : Z) : bool :=
  match fuel with
  | O => false
  | S fuel =>
    if size <? TLV_HEAD_SIZE then true else
    match tlv_type m buf, tlv_len m buf with
    | Some ty, Some len =>
      (len <? 2 ^ 32 - TLV_HEAD_SIZE) &&
      (if size <? TLV_HEAD_SIZE + len then true else
       (if ty =? URPC_TLV_TYPE_ARRAY
        then (4 <=? len) && tlv_ok_within fuel m (buf + TLV_ARR_HEAD_SIZE) (len - 4)
        else if is_message_type ty then tlv_ok_within fuel m (buf + TLV_HEAD_SIZE) len else true) &&
       tlv_ok_within fuel m (buf + TLV_HEAD_SIZE + len) (size - TLV_HEAD_SIZE - len))
    | _, _ => false
    end
  end.

Definition bytes_ok (m : list Z) : bool := forallb (fun b => (0 <=? b) && (b <? 256)) m.

Definition tlv_ok (m : list Z) : bool := bytes_ok m && tlv_ok_within (S (length m)) m 0 (zlen m).

(** A region of a buffer whose elements are well formed. *)
Definition region_ok (m : list Z) (buf size : Z) : Prop :=
  0 <= buf /\ 0 <= size /\ buf + size <= zlen m /\ bytes_ok m = true /\
  exists fuel, tlv_ok_within fuel m buf size = true.

(** An element of a region and what is known of the region nested in it. *)
Record head_in (m : list Z) (buf size head ty len : Z) : Prop := {
  hi_range : buf <= head /\ head + TLV_HEAD_SIZE + len <= buf + size;
  hi_len : tlv_len m head = Some len /\ 0 <= len < 2 ^ 32 - TLV_HEAD_SIZE;
  hi_type : tlv_type m head = Some ty;
  hi_arr : ty = URPC_TLV_TYPE_ARRAY -> 4 <= len /\ region_ok m (head + TLV_ARR_HEAD_SIZE) (len - 4);
  hi_msg : is_message_type ty = true -> region_ok m (head + TLV_HEAD_SIZE) len;
  hi_rest : region_ok m (head + TLV_HEAD_SIZE + len) (buf + size - (head + TLV_HEAD_SIZE + len))
}.

Lemma bytes_ok_get m i b : bytes_ok m = true -> zget m i = Some b -> 0 <= b < 256.
Proof.
  unfold bytes_ok, zget. rewrite forallb_forall. intros Hm Hi. destruct (0 <=? i); [|done].
  apply list_elem_of_lookup_2, list_elem_of_In, Hm in Hi. by breflect.
Qed.

Lemma load32_in m off :
  bytes_ok m = true -> 0 <= off -> off + 4 <= zlen m -> exists v, load32 m off = Some v /\ in_u32 v.
Proof.
  intros Hm H1 H2. destruct (read_bytes_in m off 4) as (bs & Hr & Hl); [lia..|]. unfold load32.
  rewrite Hr. cbn [mbind option_bind]. eexists. split; [done|].
  apply read_bytes_Some in Hr as (_ & _ & _ & _ & Hi). unfold zlen in Hl.
  destruct bs as [|b0 [|b1 [|b2 [|b3 [|]]]]]; try (cbn [length] in Hl; lia).
  pose proof (bytes_ok_get _ _ _ Hm (eq_sym (Hi 0 ltac:(lia)))).
  pose proof (bytes_ok_get _ _ _ Hm (eq_sym (Hi 1 ltac:(lia)))).
  pose proof (bytes_ok_get _ _ _ Hm (eq_sym (Hi 2 ltac:(lia)))).
  pose proof (bytes_ok_get _ _ _ Hm (eq_sym (Hi 3 ltac:(lia)))). cbn [of_le32]. lia.
Qed.

Lemma region_ok_whole m : tlv_ok m = true -> region_ok m 0 (zlen m).
Proof.
  intros [Hb Ht]%andb_true_iff. pose proof (zlen_nonneg m). split_and!; [lia..|done|by eexists].
Qed.

(** The first element of a region. *)
Lemma region_first m buf size :
  region_ok m buf size -> TLV_HEAD_SIZE <= size ->
  exists ty len, tlv_type m buf = Some ty /\ tlv_len m buf = Some len /\ 0 <= len < 2 ^ 32 - TLV_HEAD_SIZE /\
    (TLV_HEAD_SIZE + len <= size -> head_in m buf size buf ty len).
Proof.
  intros (H1 & H2 & H3 & Hb & fuel & Hf) Hs. destruct fuel as [|fuel]; [done|]. cbn [tlv_ok_within] in Hf.
  rewrite (proj2 (Z.ltb_ge _ _)) in Hf by done. unfold tlv_type, tlv_len, TLV_HEAD_SIZE, TLV_ARR_HEAD_SIZE in *.
  destruct (load32_in m buf) as (ty & Hty & _); [done|lia..|].
  destruct (load32_in m (buf + 4)) as (len & Hlen & Hlr); [done|lia..|].
  rewrite Hty, Hlen in *. exists ty, len. apply andb_true_iff in Hf as [Hw Hf]. breflect.
  split_and!; [done..|lia|lia|]. intros Hfit. rewrite (proj2 (Z.ltb_ge _ _)) in Hf by done.
  apply andb_true_iff in Hf as [Hn Hr]. unfold region_ok, TLV_HEAD_SIZE, TLV_ARR_HEAD_SIZE.
  constructor; unfold tlv_type, tlv_len, TLV_HEAD_SIZE, TLV_ARR_HEAD_SIZE; [lia|split; [done|lia]|done| | |].
  - intros ->. rewrite Z.eqb_refl in Hn. apply andb_true_iff in Hn as [Hn4 Hn]. breflect.
    unfold region_ok. split; [done|]. split_and!; [lia..|done|by eexists].
  - intros Hm. destruct (ty =? URPC_TLV_TYPE_ARRAY) eqn:E; [breflect; subst; by vm_compute in Hm|].
    rewrite Hm in Hn. unfold region_ok. split_and!; [lia..|done|by eexists].
  - unfold region_ok. split_and!; [lia..|done|]. exists fuel.
    by replace (buf + size - (buf + 8 + len)) with (size - 8 - len) by lia.
Qed.

Lemma region_tail m buf size head ty len :
  0 <= buf -> head_in m buf size head ty len -> forall h ty' len',
  head_in m (head + TLV_HEAD_SIZE + len) (buf + size - (head + TLV_HEAD_SIZE + len)) h ty' len' ->
  head_in m buf size h ty' len'.
Proof.
  intros H0 [[Hr1 Hr2] [Hl Hlr] _ _ _ _] h ty' len' [[H1 H2] H3 H4 H5 H6 H7]. unfold TLV_HEAD_SIZE in *.
  constructor; try done; unfold TLV_HEAD_SIZE; [lia|].
  by replace (buf + size - _) with
    (head + 8 + len + (buf + size - (head + 8 + len)) - (h + 8 + len')) by lia.
Qed.

Lemma search_loop_inside fuel : forall m buf size type off,
  0 <= buf -> 0 <= off <= size -> size < 2 ^ 32 -> region_ok m (buf + off) (size - off) ->
  size - off < Z.of_nat fuel ->
  exists r, search_loop fuel m buf size type off = Some r /\
    forall h, r = Some h -> exists len, head_in m (buf + off) (size - off) h type len.
Proof.
  induction fuel as [|fuel IH]; intros m buf size type off Hb Ho Hs Hr Hf; [lia|]. cbn [search_loop].
  destruct (Z.leb_spec off (size - TLV_HEAD_SIZE)) as [Hle|Hgt]; [|by eexists].
  destruct (region_first _ _ _ Hr) as (ty & len & Hty & Hlen & Hlr & Hin); [lia|].
  unfold urpc_tlv_get_total_len. rewrite Hlen, Hty. cbn [mbind option_bind]. unfold TLV_HEAD_SIZE in Hlr.
  rewrite !u32_small by (unfold TLV_HEAD_SIZE in *; lia).
  destruct (Z.ltb_spec (size - off) (TLV_HEAD_SIZE + len)) as [Hover|Hfit]; [by eexists|].
  specialize (Hin Hfit). destruct (Z.eqb_spec ty type) as [->|Hne].
  - eexists. split; [done|]. intros h [= <-]. by exists len.
  - unfold TLV_HEAD_SIZE in *. rewrite u32_small by lia. pose proof (hi_rest _ _ _ _ _ _ Hin) as Hrest.
    unfold TLV_HEAD_SIZE in *.
    destruct (IH m buf size type (off + (8 + len))) as (r & -> & Hh); [lia..| |lia|].
    { by replace (buf + (off + (8 + len))) with (buf + off + 8 + len) by lia;
        replace (size - (off + (8 + len))) with (buf + off + (size - off) - (buf + off + 8 + len)) by lia. }
    eexists. split; [done|]. intros h Hrh. destruct (Hh h Hrh) as [len' Hh']. exists len'.
    apply (region_tail m (buf + off) (size - off) (buf + off) ty len); [lia|done|]. unfold TLV_HEAD_SIZE.
    by replace (buf + off + 8 + len) with (buf + (off + (8 + len))) by lia;
      replace (buf + off + (size - off) - (buf + (off + (8 + len)))) with (size - (off + (8 + len))) by lia.
Qed.

(** On a well-formed region a search ends, reads inside the region only, and
    returns an element that lies in it. *)
Lemma search_inside base m buf size type :
  buffer_placed base m -> region_ok m buf size ->
  exists r, urpc_tlv_search_element base m buf size type = Some r /\
    forall h, r = Some h -> exists len, head_in m buf size h type len.
Proof.
  intros Hp Hr. pose proof Hr as (H1 & H2 & H3 & _). pose proof Hp as (_ & _ & Hm).
  unfold urpc_tlv_search_element. rewrite (buf_validation_true base m), negb_involutive by (done || lia).
  destruct (Z.ltb_spec size TLV_HEAD_SIZE); [by eexists|].
  destruct (search_loop_inside (S (length m)) m buf size type 0) as (r & -> & Hh); try lia.
  - by rewrite Z.add_0_r, Z.sub_0_r.
  - unfold zlen in *. lia.
  - eexists. split; [done|]. by rewrite Z.add_0_r, Z.sub_0_r in Hh.
Qed.

Lemma left_len_in m buf size head ty len :
  0 <= buf -> size < 2 ^ 32 -> head_in m buf size head ty len ->
  urpc_tlv_get_left_len buf size head = buf + size - head.
Proof.
  intros Hb Hs [[H1 H2] [_ H3] _ _ _ _]. unfold urpc_tlv_get_left_len, TLV_HEAD_SIZE in *.
  rewrite (u32_small (head - buf)) by lia. rewrite u32_small by lia. lia.
Qed.

(** The search behind an element of a well-formed region. *)
Lemma search_next_inside base m buf size cur ty len type :
  buffer_placed base m -> region_ok m buf size -> head_in m buf size cur ty len ->
  exists r, urpc_tlv_search_next_element base m cur (urpc_tlv_get_left_len buf size cur) type = Some r /\
    forall h, r = Some h -> exists len, head_in m buf size h type len.
Proof.
  intros Hp Hr Hin. pose proof Hr as (H1 & H2 & H3 & _). pose proof Hp as (_ & _ & Hm).
  rewrite (left_len_in m _ _ _ ty len) by (done || lia). pose proof Hin as [[Hi1 Hi2] [Hl Hlr] _ _ _ Hrest].
  unfold TLV_HEAD_SIZE in *. unfold urpc_tlv_search_next_element.
  rewrite (buf_validation_true base m), negb_involutive by (done || lia).
  rewrite (proj2 (Z.ltb_ge _ _)) by (unfold TLV_HEAD_SIZE; lia).
  unfold urpc_tlv_get_total_len, urpc_tlv_get_next_element. rewrite Hl. cbn [mbind option_bind].
  unfold TLV_HEAD_SIZE. rewrite u32_small by lia.
  destruct (Z.ltb_spec (buf + size - cur - 8) (8 + len)); [by eexists|]. rewrite u32_small by lia.
  replace (buf + size - cur - (8 + len)) with (buf + size - (cur + 8 + len)) by lia.
  destruct (search_inside base m _ _ type Hp Hrest) as (r & -> & Hh). eexists. split; [done|].
  intros h Hrh. destruct (Hh h Hrh) as [len' Hh']. exists len'.
  by apply (region_tail m buf size cur ty len).
Qed.

(** ** Lengths that wrap *)

(** A declared length of 2^32 - 8 makes a total length of 0: it passes the
    bound, and the round ends in the state it started from, so the loop never
    ends. *)
Lemma search_wrapping_length_round fuel m buf size ty type :
  tlv_type m buf = Some ty -> ty <> type -> tlv_len m buf = Some (2 ^ 32 - TLV_HEAD_SIZE) ->
  TLV_HEAD_SIZE <= size < 2 ^ 32 -> search_loop (S fuel) m buf size type 0 = search_loop fuel m buf size type 0.
Proof.
  intros Ht Hne Hl Hs. cbn [search_loop].
  rewrite (proj2 (Z.leb_le _ _)) by lia. rewrite Z.add_0_r. unfold urpc_tlv_get_total_len.
  rewrite Hl, Ht. cbn [mbind option_bind]. rewrite (proj2 (Z.eqb_neq _ _)) by done.
  change (u32 (TLV_HEAD_SIZE + (2 ^ 32 - TLV_HEAD_SIZE))) with 0. rewrite Z.sub_0_r.
  rewrite (proj2 (Z.ltb_ge _ _)) by (pose proof (u32_range size); lia). done.
Qed.

(** A declared length above 2^32 - 8 is accepted by the search although the
    value reaches past the end of the buffer. *)
Lemma search_wrapping_length_accepted base m type len :
  buffer_placed base m -> zlen m = TLV_HEAD_SIZE + 7 ->
  tlv_type m 0 = Some type -> tlv_len m 0 = Some len -> 2 ^ 32 - TLV_HEAD_SIZE < len < 2 ^ 32 ->
  urpc_tlv_search_element base m 0 (zlen m) type = Some (Some 0) /\ zlen m < 0 + TLV_HEAD_SIZE + len.
Proof.
  intros Hp Hm Ht Hl Hlen. unfold urpc_tlv_search_element.
  rewrite (buf_validation_true base m), negb_involutive by (done || lia). rewrite Hm.
  cbn [search_loop]. unfold urpc_tlv_get_total_len, TLV_HEAD_SIZE in *. change (0 + 0) with 0.
  rewrite Hl, Ht. change (8 + 7 <? 8) with false. change (0 <=? 8 + 7 - 8) with true.
  cbn [mbind option_bind]. rewrite Z.eqb_refl. split; [|lia]. rewrite (proj2 (Z.ltb_ge _ _)); [done|].
  change (u32 (8 + 7 - 0)) with 15. unfold u32. zmod.
Qed.
