(* ===== verification/CpCompat.v ===== *)
(** * Version-compatible messages of the URPC control path

    Models src/src/urpc/framework/lib/control/cp_vers_compat.{h,c}: the
    serializers and deserializers of the negotiate, attach, detach, connect and
    memory-information messages, over the elements of [Tlv].  The message
    structures keep their pointers into the buffer as offsets, NULL is [None].
    Serializers write the structures field by field into the zeroed buffer the
    code allocates; an access outside a buffer or an array is [None].

    What the serializers ask of other components (queues, providers, OpenSSL,
    the allocator) is the [platform].  The theorems about these definitions
    are in [CpCompatParse] and [CpCompatRound]. *)

From S2P Require Import Prelude Memory Tlv.

(** ** Constants and record layouts *)

Definition URPC_SUCCESS : Z := 0.
Definition URPC_FAIL : Z := -1.
Definition URPC_ERR_EINVAL : Z := 693.
Definition URPC_INVALID_HANDLE : Z := 0.
Definition URPC_INVALID_ID_U32 : Z := 2 ^ 32 - 1.
Definition URPC_ATTR_MANAGE : Z := 1.
Definition MAX_QUEUE_SIZE : Z := 256.
Definition CHANNEL_INFO_MAX_NUM : Z := 2.
Definition URPC_MAX_CLIENT_CHANNELS_PER_CLIENT : Z := 256.

Definition SIZEOF_CRYPTO_KEY : Z := 32.
Definition SIZEOF_EID : Z := 16.
(** [urpc_instance_key_t]: eid at 0, pid at 16, padded to 24. *)
Definition SIZEOF_INSTANCE_KEY : Z := 24.
(** [urpc_chinfo_t]: key at 0, cap at 24, attr at 28, chid at 32, server_chid at 36. *)
Definition SIZEOF_CHINFO : Z := 40.
(** [urpc_attach_info_t]: keepalive_attr at 0, server_chid at 8, padded to 16. *)
Definition SIZEOF_ATTACH_INFO : Z := 16.
(** [urpc_detach_info_t]: key at 0, server_chid at 24, padded to 32. *)
Definition SIZEOF_DETACH_INFO : Z := 32.
Definition SIZEOF_QUEUE_INFO : Z := 72.
Definition SIZEOF_MEM_INFO : Z := 48.

(** ** Message structures *)

Record urpc_qinfo_arr_v1 := { qarr_num : Z; qinfos : list (option Z) }.

Record urpc_chmsg_v1 := { chinfo : option Z; qinfo_arr : urpc_qinfo_arr_v1 }.

(** [urpc_chmsg_arr_v1_t] and [urpc_chmsg_arr_v2_t]: the array of the first
    has two entries, that of the second as many as were allocated. *)
Record urpc_chmsg_arr := { chmsg_num : Z; chmsgs : list urpc_chmsg_v1 }.

Record urpc_neg_msg_v1 := { neg_buffer : option (list Z); neg_len : Z; crypto_key : option Z }.

Record urpc_attach_msg_v1 := {
  attach_buffer : option (list Z); attach_len : Z;
  attach_info : option Z; attach_chmsg_arr : urpc_chmsg_arr }.

Record urpc_detach_msg_v1 := { detach_buffer : option (list Z); detach_len : Z; detach_info : option Z }.

Record urpc_connect_msg := {
  connect_buffer : option (list Z); connect_len : Z;
  connect_info : option Z; connect_chmsg_arr : urpc_chmsg_arr }.

(** ** Inputs *)

(** What the serializers read of a client channel: [ch_provider] is the eid
    its provider reports, [ch_server_node] the channel id of its first server
    node, [ch_mem_info_list] the [xchg_mem_info] records of its list. *)
Record urpc_channel_info := {
  ch_attr : Z; ch_id : Z; ch_provider : option (list Z); ch_server_node : option Z;
  ch_mem_info_num : Z; ch_mem_info_list : list (list Z) }.

(** The union of [client_channel] and [server_channel_id]: [is_server] says
    which of the two is meant. *)
Record urpc_chmsg_input := {
  client_channel : option urpc_channel_info; server_channel_id : Z;
  q_num : Z; qh : list Z }.

Record urpc_attach_msg_input := {
  in_keepalive_attr : Z; in_server_chid : Z; is_server : bool;
  user : urpc_chmsg_input; manage : urpc_chmsg_input }.

Record urpc_instance_key := { key_eid : list Z; key_pid : Z }.

Record urpc_connect_msg_input := {
  in_key : urpc_instance_key; in_chmsg_arr : list urpc_chmsg_input; in_num : Z }.

Record platform := {
  channel_get_local_queue_info : Z -> option (list Z);
  is_hwub_offload_enabled : bool;
  first_provider_eid : option (list Z);
  getpid : Z;
  crypto_ssl_gen_crypto_key : option (list Z);
  calloc_succeeds : bool }.

Definition zeros (n : Z) : list Z := replicate (Z.to_nat n) 0.

Definition dbuf_calloc (pl : platform) (n : Z) : option (list Z) :=
  if calloc_succeeds pl then Some (zeros n) else None.

(** ** Serializers *)

Section Serialize.
Variable pl : platform.

Definition urpc_neg_msg_v1_serialize (data : urpc_neg_msg_v1) : option (Z * urpc_neg_msg_v1) :=
  let buf_len := u32 (2 * TLV_HEAD_SIZE + SIZEOF_CRYPTO_KEY) in
  match dbuf_calloc pl buf_len with
  | None => Some (URPC_FAIL, data)
  | Some m =>
    let key_head := TLV_HEAD_SIZE in
    m ← store32 m key_head URPC_TLV_TYPE_CRYPTO_KEY;
    m ← store32 m (key_head + 4) SIZEOF_CRYPTO_KEY;
    match crypto_ssl_gen_crypto_key pl with
    | None => Some (URPC_FAIL, data)
    | Some key =>
      m ← write_bytes m (key_head + TLV_HEAD_SIZE) key;
      m ← store32 m 0 URPC_TLV_TYPE_NEG_MSG;
      len ← urpc_tlv_get_total_len m key_head;
      m ← store32 m 4 len;
      Some (URPC_SUCCESS,
            {| neg_buffer := Some m; neg_len := buf_len; crypto_key := Some (key_head + TLV_HEAD_SIZE) |})
    end
  end.

(** The loop of [attach_msg_v1_serialize_qinfo_arr]. *)
Fixpoint serialize_qinfos (n : nat) (i : Z) (m : list Z) (queue : list Z) (arr : list (option Z)) (head : Z)
  : option (Z * list Z * list (option Z)) :=
  match n with
  | O => Some (URPC_SUCCESS, m, arr)
  | S n =>
    q ← zget queue i;
    if q =? URPC_INVALID_HANDLE then Some (URPC_FAIL, m, arr) else
    match channel_get_local_queue_info pl q with
    | None => Some (URPC_FAIL, m, arr)
    | Some info =>
      m ← write_bytes m (head + TLV_HEAD_SIZE) info;
      m ← store32 m head URPC_TLV_TYPE_QUEUE_INFO;
      m ← store32 m (head + 4) SIZEOF_QUEUE_INFO;
      arr ← zset arr i (Some (head + TLV_HEAD_SIZE));
      next ← urpc_tlv_get_next_element m head;
      serialize_qinfos n (i + 1) m queue arr next
    end
  end.

Definition attach_msg_v1_serialize_qinfo_arr (m : list Z) (queue : list Z) (queue_num : Z)
    (qa : urpc_qinfo_arr_v1) (head : Z) : option (Z * list Z * urpc_qinfo_arr_v1) :=
  '(ret, m, arr) ← serialize_qinfos (Z.to_nat queue_num) 0 m queue (qinfos qa) (head + TLV_ARR_HEAD_SIZE);
  if negb (ret =? URPC_SUCCESS) then Some (ret, m, {| qarr_num := qarr_num qa; qinfos := arr |}) else
  let value_len := u32 (queue_num * (SIZEOF_QUEUE_INFO + TLV_HEAD_SIZE)) in
  m ← store32 m head URPC_TLV_TYPE_ARRAY;
  m ← store32 m (head + 4) (urpc_tlv_arr_get_value_len_by_user_data_len value_len);
  m ← store32 m (head + 8) queue_num;
  Some (URPC_SUCCESS, m, {| qarr_num := queue_num; qinfos := arr |}).

(** The bit-field [cap.is_support_quik_reply], bit 0 of its word. *)
Definition set_quik_reply (m : list Z) (info : Z) : option (list Z) :=
  w ← load32 m (info + 24);
  store32 m (info + 24) (Z.lor (Z.ldiff w 1) (Z.b2z (is_hwub_offload_enabled pl))).

Definition store_key (m : list Z) (info : Z) (eid : list Z) (pid : Z) : option (list Z) :=
  m ← write_bytes m info eid;
  store32 m (info + 16) pid.

Definition urpc_instance_key_fill (m : list Z) (info : Z) : option (Z * list Z) :=
  match first_provider_eid pl with
  | None => Some (URPC_FAIL, m)
  | Some eid => m ← store_key m info eid (getpid pl); Some (URPC_SUCCESS, m)
  end.

Definition attach_msg_v1_serialize_chinfo (m : list Z) (is_server is_manage : bool) (input : urpc_chmsg_input)
    (head : Z) : option (option Z * list Z) :=
  let info := head + TLV_HEAD_SIZE in
  m ← set_quik_reply m info;
  '(filled, m) ← (
    if is_server then
      m ← store32 m (info + 28) (if is_manage then URPC_ATTR_MANAGE else 0);
      m ← store32 m (info + 32) (server_channel_id input);
      urpc_instance_key_fill m info
    else
      channel ← client_channel input;
      m ← store32 m (info + 28) (ch_attr channel);
      m ← store32 m (info + 32) (ch_id channel);
      match ch_provider channel with
      | None => Some (URPC_FAIL, m)
      | Some eid => m ← store_key m info eid (getpid pl); Some (URPC_SUCCESS, m)
      end);
  if negb (filled =? URPC_SUCCESS) then Some (None, m) else
  m ← store32 m head URPC_TLV_TYPE_CHANNEL_INFO;
  m ← store32 m (head + 4) SIZEOF_CHINFO;
  Some (Some info, m).

Definition attach_msg_v1_serialize_chmsg (m : list Z) (is_server is_manage : bool) (input : urpc_chmsg_input)
    (chmsg : urpc_chmsg_v1) (head : Z) : option (Z * list Z * urpc_chmsg_v1) :=
  let chinfo_head := head + TLV_HEAD_SIZE in
  '(info, m) ← attach_msg_v1_serialize_chinfo m is_server is_manage input chinfo_head;
  if bool_decide (info = None) then Some (URPC_FAIL, m, {| chinfo := info; qinfo_arr := qinfo_arr chmsg |}) else
  qarr_head ← urpc_tlv_get_next_element m chinfo_head;
  '(ret, m, qa) ← attach_msg_v1_serialize_qinfo_arr m (qh input) (q_num input) (qinfo_arr chmsg) qarr_head;
  let chmsg := {| chinfo := info; qinfo_arr := qa |} in
  if negb (ret =? URPC_SUCCESS) then Some (URPC_FAIL, m, chmsg) else
  l1 ← urpc_tlv_get_total_len m chinfo_head;
  l2 ← urpc_tlv_get_total_len m qarr_head;
  m ← store32 m (head + 4) (u32 (l1 + l2));
  m ← store32 m head URPC_TLV_TYPE_CHANNEL_MSG;
  Some (URPC_SUCCESS, m, chmsg).

Definition attach_msg_v1_serialize_chmsg_arr (m : list Z) (input : urpc_attach_msg_input) (arr : urpc_chmsg_arr)
    (head : Z) : option (Z * list Z * urpc_chmsg_arr) :=
  let put i c a := l ← zset (chmsgs a) i c; Some {| chmsg_num := chmsg_num a; chmsgs := l |} in
  let first := head + TLV_ARR_HEAD_SIZE in
  '(ret, m, arr, idx, value_len, chmsg_head) ← (
    if 0 <? q_num (manage input) then
      c ← zget (chmsgs arr) 0;
      '(ret, m, c) ← attach_msg_v1_serialize_chmsg m (is_server input) true (manage input) c first;
      arr ← put 0 c arr;
      if negb (ret =? URPC_SUCCESS) then Some (URPC_FAIL, m, arr, 1, 0, first) else
      total ← urpc_tlv_get_total_len m first;
      next ← urpc_tlv_get_next_element m first;
      Some (URPC_SUCCESS, m, arr, 1, total, next)
    else Some (URPC_SUCCESS, m, arr, 0, 0, first));
  if negb (ret =? URPC_SUCCESS) then Some (URPC_FAIL, m, arr) else
  c ← zget (chmsgs arr) idx;
  '(ret, m, c) ← attach_msg_v1_serialize_chmsg m (is_server input) false (user input) c chmsg_head;
  arr ← put idx c arr;
  if negb (ret =? URPC_SUCCESS) then Some (URPC_FAIL, m, arr) else
  total ← urpc_tlv_get_total_len m chmsg_head;
  let value_len := u32 (value_len + total) in
  let arr := {| chmsg_num := idx + 1; chmsgs := chmsgs arr |} in
  m ← store32 m head URPC_TLV_TYPE_ARRAY;
  m ← store32 m (head + 4) (urpc_tlv_arr_get_value_len_by_user_data_len value_len);
  m ← store32 m (head + 8) (chmsg_num arr);
  Some (URPC_SUCCESS, m, arr).

Definition attach_msg_v1_serialize_attach_info (m : list Z) (input : urpc_attach_msg_input) (head : Z)
  : option (Z * list Z) :=
  let info := head + TLV_HEAD_SIZE in
  m ← store64 m info (in_keepalive_attr input);
  m ← store32 m (info + 8) (in_server_chid input);
  m ← store32 m head URPC_TLV_TYPE_ATTACH_INFO;
  m ← store32 m (head + 4) SIZEOF_ATTACH_INFO;
  Some (info, m).

Definition attach_msg_v1_serialize_attach_msg (m : list Z) (input : urpc_attach_msg_input)
    (data : urpc_attach_msg_v1) (head : Z) : option (Z * list Z * urpc_attach_msg_v1) :=
  let info_head := head + TLV_HEAD_SIZE in
  '(info, m) ← attach_msg_v1_serialize_attach_info m input info_head;
  arr_head ← urpc_tlv_get_next_element m info_head;
  '(ret, m, arr) ← attach_msg_v1_serialize_chmsg_arr m input (attach_chmsg_arr data) arr_head;
  let data := {| attach_buffer := attach_buffer data; attach_len := attach_len data;
                 attach_info := Some info; attach_chmsg_arr := arr |} in
  if negb (ret =? URPC_SUCCESS) then Some (URPC_FAIL, m, data) else
  m ← store32 m head URPC_TLV_TYPE_ATTACH_MSG;
  l1 ← urpc_tlv_get_total_len m info_head;
  l2 ← urpc_tlv_get_total_len m arr_head;
  m ← store32 m (head + 4) (u32 (l1 + l2));
  Some (URPC_SUCCESS, m, data).

Definition attach_msg_input_validation (input : urpc_attach_msg_input) : Z :=
  let u := user input in
  let g := manage input in
  let bad_q := (q_num g =? 0) || (MAX_QUEUE_SIZE <? q_num g) in
  if negb (is_server input) then
    if bool_decide (client_channel u = None) || (MAX_QUEUE_SIZE <? q_num u) then - URPC_ERR_EINVAL
    else match client_channel g with
         | Some _ => if bad_q then - URPC_ERR_EINVAL else URPC_SUCCESS
         | None => if negb (q_num g =? 0) then - URPC_ERR_EINVAL else URPC_SUCCESS
         end
  else if negb (server_channel_id u =? URPC_INVALID_ID_U32) && (MAX_QUEUE_SIZE <? q_num u) then - URPC_ERR_EINVAL
  else if negb (server_channel_id g =? URPC_INVALID_ID_U32) && bad_q ||
          (server_channel_id g =? URPC_INVALID_ID_U32) && negb (q_num g =? 0) then - URPC_ERR_EINVAL
  else URPC_SUCCESS.

(** The products and sums are in 64 bits, each truncated when it is stored. *)
Definition attach_msg_v1_get_total_len (queue_num channel_num : Z) : Z :=
  let total_len := u32 (queue_num * (TLV_HEAD_SIZE + SIZEOF_QUEUE_INFO)) in
  let total_len := u32 (total_len + channel_num * (2 * TLV_HEAD_SIZE + TLV_ARR_HEAD_SIZE + SIZEOF_CHINFO)) in
  u32 (total_len + (2 * TLV_HEAD_SIZE + TLV_ARR_HEAD_SIZE + SIZEOF_ATTACH_INFO)).

Definition urpc_attach_msg_v1_serialize (input : urpc_attach_msg_input) (data : urpc_attach_msg_v1)
  : option (Z * urpc_attach_msg_v1) :=
  let ret := attach_msg_input_validation input in
  if negb (ret =? URPC_SUCCESS) then Some (ret, data) else
  let queue_num := u32 (q_num (user input) + q_num (manage input)) in
  let channel_num := if 0 <? q_num (manage input) then CHANNEL_INFO_MAX_NUM else 1 in
  let buf_len := attach_msg_v1_get_total_len queue_num channel_num in
  match dbuf_calloc pl buf_len with
  | None => Some (URPC_FAIL, data)
  | Some m =>
    '(ret, m, data) ← attach_msg_v1_serialize_attach_msg m input data 0;
    if negb (ret =? URPC_SUCCESS) then Some (URPC_FAIL, data) else
    Some (URPC_SUCCESS, {| attach_buffer := Some m; attach_len := buf_len;
                           attach_info := attach_info data; attach_chmsg_arr := attach_chmsg_arr data |})
  end.

Definition urpc_detach_msg_v1_serialize_detach_info (m : list Z) (channel : urpc_channel_info)
    (server_chid : Z) (head : Z) : option (Z * list Z * option Z) :=
  let info := head + TLV_HEAD_SIZE in
  match ch_provider channel with
  | None => Some (URPC_FAIL, m, None)
  | Some eid =>
    m ← store_key m info eid (getpid pl);
    m ← store32 m (info + 24) server_chid;
    m ← store32 m head URPC_TLV_TYPE_DETACH_INFO;
    m ← store32 m (head + 4) SIZEOF_DETACH_INFO;
    Some (URPC_SUCCESS, m, Some info)
  end.

Definition urpc_detach_msg_v1_serialize (channel : option urpc_channel_info) (server_chid : Z)
    (data : urpc_detach_msg_v1) : option (Z * urpc_detach_msg_v1) :=
  match channel with
  | None => Some (- URPC_ERR_EINVAL, data)
  | Some channel =>
    if server_chid =? URPC_INVALID_ID_U32 then Some (- URPC_ERR_EINVAL, data) else
    let buf_len := u32 (2 * TLV_HEAD_SIZE + SIZEOF_DETACH_INFO) in
    match dbuf_calloc pl buf_len with
    | None => Some (URPC_FAIL, data)
    | Some m =>
      '(ret, m, info) ← urpc_detach_msg_v1_serialize_detach_info m channel server_chid TLV_HEAD_SIZE;
      if negb (ret =? URPC_SUCCESS) then Some (URPC_FAIL, data) else
      m ← store32 m 0 URPC_TLV_TYPE_DETACH_MSG;
      len ← urpc_tlv_get_total_len m TLV_HEAD_SIZE;
      m ← store32 m 4 len;
      Some (URPC_SUCCESS, {| detach_buffer := Some m; detach_len := buf_len; detach_info := info |})
    end
  end.

Definition connect_msg_serialize_connect_info (m : list Z) (key : urpc_instance_key) (head : Z)
  : option (Z * list Z) :=
  let info := head + TLV_HEAD_SIZE in
  m ← store_key m info (key_eid key) (key_pid key);
  m ← store32 m head URPC_TLV_TYPE_CONNECT_INFO;
  m ← store32 m (head + 4) SIZEOF_INSTANCE_KEY;
  Some (info, m).

Definition connect_msg_serialize_chinfo (m : list Z) (input : urpc_chmsg_input) (head : Z)
  : option (option Z * list Z) :=
  let info := head + TLV_HEAD_SIZE in
  m ← set_quik_reply m info;
  channel ← client_channel input;
  m ← store32 m (info + 28) (ch_attr channel);
  m ← store32 m (info + 32) (ch_id channel);
  m ← store32 m (info + 36) (default URPC_INVALID_ID_U32 (ch_server_node channel));
  match ch_provider channel with
  | None => Some (None, m)
  | Some eid =>
    m ← store_key m info eid (getpid pl);
    m ← store32 m head URPC_TLV_TYPE_CHANNEL_INFO;
    m ← store32 m (head + 4) SIZEOF_CHINFO;
    Some (Some info, m)
  end.

(** The same statements as [attach_msg_v1_serialize_qinfo_arr]. *)
Definition connect_msg_serialize_qinfo_arr := attach_msg_v1_serialize_qinfo_arr.

Definition connect_msg_serialize_chmsg (m : list Z) (input : urpc_chmsg_input) (chmsg : urpc_chmsg_v1)
    (head : Z) : option (Z * list Z * urpc_chmsg_v1) :=
  let chinfo_head := head + TLV_HEAD_SIZE in
  '(info, m) ← connect_msg_serialize_chinfo m input chinfo_head;
  if bool_decide (info = None) then Some (URPC_FAIL, m, {| chinfo := info; qinfo_arr := qinfo_arr chmsg |}) else
  qarr_head ← urpc_tlv_get_next_element m chinfo_head;
  '(ret, m, qa) ← connect_msg_serialize_qinfo_arr m (qh input) (q_num input) (qinfo_arr chmsg) qarr_head;
  let chmsg := {| chinfo := info; qinfo_arr := qa |} in
  if negb (ret =? URPC_SUCCESS) then Some (URPC_FAIL, m, chmsg) else
  m ← store32 m head URPC_TLV_TYPE_CHANNEL_MSG;
  l1 ← urpc_tlv_get_total_len m chinfo_head;
  l2 ← urpc_tlv_get_total_len m qarr_head;
  m ← store32 m (head + 4) (u32 (l1 + l2));
  Some (URPC_SUCCESS, m, chmsg).

(** The loop of [connect_msg_serialize_chmsg_arr]: [i] and [idx] are equal. *)
Fixpoint serialize_chmsgs (n : nat) (i : Z) (m : list Z) (inputs : list urpc_chmsg_input)
    (msgs : list urpc_chmsg_v1) (value_len head : Z) : option (Z * list Z * list urpc_chmsg_v1 * Z) :=
  match n with
  | O => Some (URPC_SUCCESS, m, msgs, value_len)
  | S n =>
    input ← zget inputs i;
    c ← zget msgs i;
    '(ret, m, c) ← connect_msg_serialize_chmsg m input c head;
    msgs ← zset msgs i c;
    if negb (ret =? URPC_SUCCESS) then Some (URPC_FAIL, m, msgs, value_len) else
    total ← urpc_tlv_get_total_len m head;
    next ← urpc_tlv_get_next_element m head;
    serialize_chmsgs n (i + 1) m inputs msgs (u32 (value_len + total)) next
  end.

Definition connect_msg_serialize_chmsg_arr (m : list Z) (input : urpc_connect_msg_input) (arr : urpc_chmsg_arr)
    (head : Z) : option (Z * list Z * urpc_chmsg_arr) :=
  '(ret, m, msgs, value_len) ←
    serialize_chmsgs (Z.to_nat (in_num input)) 0 m (in_chmsg_arr input) (chmsgs arr) 0 (head + TLV_ARR_HEAD_SIZE);
  if negb (ret =? URPC_SUCCESS) then Some (URPC_FAIL, m, {| chmsg_num := chmsg_num arr; chmsgs := msgs |}) else
  let arr := {| chmsg_num := in_num input; chmsgs := msgs |} in
  m ← store32 m head URPC_TLV_TYPE_ARRAY;
  m ← store32 m (head + 4) (urpc_tlv_arr_get_value_len_by_user_data_len value_len);
  m ← store32 m (head + 8) (chmsg_num arr);
  Some (URPC_SUCCESS, m, arr).

Definition connect_msg_serialize_connect_msg (m : list Z) (input : urpc_connect_msg_input)
    (data : urpc_connect_msg) (head : Z) : option (Z * list Z * urpc_connect_msg) :=
  let info_head := head + TLV_HEAD_SIZE in
  '(info, m) ← connect_msg_serialize_connect_info m (in_key input) info_head;
  arr_head ← urpc_tlv_get_next_element m info_head;
  '(ret, m, arr) ← connect_msg_serialize_chmsg_arr m input (connect_chmsg_arr data) arr_head;
  let data := {| connect_buffer := connect_buffer data; connect_len := connect_len data;
                 connect_info := Some info; connect_chmsg_arr := arr |} in
  if negb (ret =? URPC_SUCCESS) then Some (URPC_FAIL, m, data) else
  m ← store32 m head URPC_TLV_TYPE_CONNECT_MSG;
  l1 ← urpc_tlv_get_total_len m info_head;
  l2 ← urpc_tlv_get_total_len m arr_head;
  m ← store32 m (head + 4) (u32 (l1 + l2));
  Some (URPC_SUCCESS, m, data).

(** The sum is a [size_t], truncated when it is returned. *)
Definition channel_resources_msg_v1_get_total_len (inputs : list urpc_chmsg_input) (channel_num : Z) : Z :=
  let queues := foldl (fun t i => t + q_num i * (TLV_HEAD_SIZE + SIZEOF_QUEUE_INFO)) 0
                      (take (Z.to_nat channel_num) inputs) in
  u32 (queues + channel_num * (2 * TLV_HEAD_SIZE + TLV_ARR_HEAD_SIZE + SIZEOF_CHINFO) +
       (2 * TLV_HEAD_SIZE + TLV_ARR_HEAD_SIZE + SIZEOF_INSTANCE_KEY)).

Definition connect_msg_input_validation (input : urpc_connect_msg_input) : Z :=
  if URPC_MAX_CLIENT_CHANNELS_PER_CLIENT <? in_num input then - URPC_ERR_EINVAL
  else if existsb (fun i => MAX_QUEUE_SIZE <? q_num i) (take (Z.to_nat (in_num input)) (in_chmsg_arr input))
  then - URPC_ERR_EINVAL
  else URPC_SUCCESS.

Definition urpc_connect_msg_serialize (input : urpc_connect_msg_input) (data : urpc_connect_msg)
  : option (Z * urpc_connect_msg) :=
  if negb (connect_msg_input_validation input =? URPC_SUCCESS) then Some (- URPC_ERR_EINVAL, data) else
  let buf_len := channel_resources_msg_v1_get_total_len (in_chmsg_arr input) (in_num input) in
  match dbuf_calloc pl buf_len with
  | None => Some (URPC_FAIL, data)
  | Some m =>
    '(ret, m, data) ← connect_msg_serialize_connect_msg m input data 0;
    if negb (ret =? URPC_SUCCESS) then Some (URPC_FAIL, data) else
    Some (URPC_SUCCESS, {| connect_buffer := Some m; connect_len := buf_len;
                           connect_info := connect_info data; connect_chmsg_arr := connect_chmsg_arr data |})
  end.

End Serialize.

(** The loop of [meminfo_arr_serialize] over the channel's list. *)
Fixpoint serialize_meminfos (infos : list (list Z)) (mem_info_num num : Z) (m : list Z) (head : Z)
  : option (list Z * Z) :=
  match infos with
  | [] => Some (m, num)
  | info :: infos =>
    if mem_info_num =? num then Some (m, num) else
    m ← write_bytes m (head + TLV_HEAD_SIZE) info;
    m ← store32 m head URPC_TLV_TYPE_MEM_INFO;
    m ← store32 m (head + 4) SIZEOF_MEM_INFO;
    next ← urpc_tlv_get_next_element m head;
    serialize_meminfos infos mem_info_num (num + 1) m next
  end.

Definition meminfo_arr_serialize (channel : urpc_channel_info) (m : list Z) (head : Z) : option (Z * list Z) :=
  '(m, num) ← serialize_meminfos (ch_mem_info_list channel) (ch_mem_info_num channel) 0 m (head + TLV_ARR_HEAD_SIZE);
  let value_len := u32 (num * (SIZEOF_MEM_INFO + TLV_HEAD_SIZE)) in
  m ← store32 m head URPC_TLV_TYPE_ARRAY;
  m ← store32 m (head + 4) (urpc_tlv_arr_get_value_len_by_user_data_len value_len);
  m ← store32 m (head + 8) num;
  Some (URPC_SUCCESS, m).

(** ** Deserializers *)

Section Deserialize.
Variable base : Z.

Definition urpc_neg_msg_v1_deserialize (data : urpc_neg_msg_v1) : option (Z * urpc_neg_msg_v1) :=
  match neg_buffer data with
  | None => Some (- URPC_ERR_EINVAL, data)
  | Some m =>
    msg ← urpc_tlv_search_element base m 0 (neg_len data) URPC_TLV_TYPE_NEG_MSG;
    match msg with
    | None => Some (- URPC_ERR_EINVAL, data)
    | Some msg =>
      len ← tlv_len m msg;
      key ← urpc_tlv_search_element base m (msg + TLV_HEAD_SIZE) len URPC_TLV_TYPE_CRYPTO_KEY;
      match key with
      | None => Some (- URPC_ERR_EINVAL, data)
      | Some key =>
        len ← tlv_len m key;
        if len <? SIZEOF_CRYPTO_KEY then Some (- URPC_ERR_EINVAL, data) else
        Some (URPC_SUCCESS, {| neg_buffer := neg_buffer data; neg_len := neg_len data;
                               crypto_key := Some (key + TLV_HEAD_SIZE) |})
      end
    end
  end.

(** The loop that fills an array of pointers to records of one type, as in
    [attach_msg_v1_deserialize_qinfo_arr] and [meminfo_arr_deserialize]. *)
Fixpoint deserialize_records (n : nat) (i : Z) (m : list Z) (buf len type size : Z) (cur : option Z)
    (arr : list (option Z)) : option (Z * list (option Z)) :=
  match n with
  | O => Some (URPC_SUCCESS, arr)
  | S n =>
    match cur with
    | None => Some (URPC_FAIL, arr)
    | Some cur =>
      cur_len ← tlv_len m cur;
      if cur_len <? size then Some (URPC_FAIL, arr) else
      arr ← zset arr i (Some (cur + TLV_HEAD_SIZE));
      let left_len := urpc_tlv_get_left_len buf len cur in
      next ← urpc_tlv_search_next_element base m cur left_len type;
      deserialize_records n (i + 1) m buf len type size next arr
    end
  end.

Definition attach_msg_v1_deserialize_qinfo_arr (m : list Z) (head : Z) (qa : urpc_qinfo_arr_v1)
  : option (Z * urpc_qinfo_arr_v1) :=
  arr_num ← tlv_arr_num m head;
  if MAX_QUEUE_SIZE <? arr_num then Some (- URPC_ERR_EINVAL, qa) else
  let buf := head + TLV_ARR_HEAD_SIZE in
  len ← urpc_tlv_arr_get_user_data_len m head;
  if (len =? 0) && (arr_num =? 0) then Some (URPC_SUCCESS, {| qarr_num := arr_num; qinfos := qinfos qa |}) else
  cur ← urpc_tlv_search_element base m buf len URPC_TLV_TYPE_QUEUE_INFO;
  '(ret, arr) ← deserialize_records (Z.to_nat arr_num) 0 m buf len URPC_TLV_TYPE_QUEUE_INFO SIZEOF_QUEUE_INFO
                  cur (qinfos qa);
  if negb (ret =? URPC_SUCCESS) then Some (ret, {| qarr_num := qarr_num qa; qinfos := arr |})
  else Some (URPC_SUCCESS, {| qarr_num := arr_num; qinfos := arr |}).

Definition attach_msg_v1_deserialize_chmsg (m : list Z) (buf len : Z) (chmsg : urpc_chmsg_v1)
  : option (Z * urpc_chmsg_v1) :=
  info ← urpc_tlv_search_element base m buf len URPC_TLV_TYPE_CHANNEL_INFO;
  match info with
  | None => Some (URPC_FAIL, chmsg)
  | Some info =>
    info_len ← tlv_len m info;
    if info_len <? SIZEOF_CHINFO then Some (URPC_FAIL, chmsg) else
    let chmsg := {| chinfo := Some (info + TLV_HEAD_SIZE); qinfo_arr := qinfo_arr chmsg |} in
    let left_len := urpc_tlv_get_left_len buf len info in
    arr ← urpc_tlv_search_next_element base m info left_len URPC_TLV_TYPE_ARRAY;
    match arr with
    | None => Some (URPC_FAIL, chmsg)
    | Some arr =>
      '(ret, qa) ← attach_msg_v1_deserialize_qinfo_arr m arr (qinfo_arr chmsg);
      let chmsg := {| chinfo := chinfo chmsg; qinfo_arr := qa |} in
      if negb (ret =? URPC_SUCCESS) then Some (ret, chmsg) else Some (URPC_SUCCESS, chmsg)
    end
  end.

(** The loop of the channel message arrays; the result of each channel message
    is dropped, as in the code. *)
Fixpoint deserialize_chmsgs (n : nat) (i : Z) (m : list Z) (buf len : Z) (cur : option Z)
    (msgs : list urpc_chmsg_v1) : option (Z * list urpc_chmsg_v1) :=
  match n with
  | O => Some (URPC_SUCCESS, msgs)
  | S n =>
    match cur with
    | None => Some (URPC_FAIL, msgs)
    | Some cur =>
      cur_len ← tlv_len m cur;
      c ← zget msgs i;
      '(_, c) ← attach_msg_v1_deserialize_chmsg m (cur + TLV_HEAD_SIZE) cur_len c;
      msgs ← zset msgs i c;
      let left_len := urpc_tlv_get_left_len buf len cur in
      next ← urpc_tlv_search_next_element base m cur left_len URPC_TLV_TYPE_CHANNEL_MSG;
      deserialize_chmsgs n (i + 1) m buf len next msgs
    end
  end.

Definition attach_msg_v1_deserialize_chmsg_arr (m : list Z) (head : Z) (arr : urpc_chmsg_arr)
  : option (Z * urpc_chmsg_arr) :=
  arr_num ← tlv_arr_num m head;
  if CHANNEL_INFO_MAX_NUM <? arr_num then Some (- URPC_ERR_EINVAL, arr) else
  let buf := head + TLV_ARR_HEAD_SIZE in
  len ← urpc_tlv_arr_get_user_data_len m head;
  cur ← urpc_tlv_search_element base m buf len URPC_TLV_TYPE_CHANNEL_MSG;
  '(ret, msgs) ← deserialize_chmsgs (Z.to_nat arr_num) 0 m buf len cur (chmsgs arr);
  if negb (ret =? URPC_SUCCESS) then Some (ret, {| chmsg_num := chmsg_num arr; chmsgs := msgs |})
  else Some (URPC_SUCCESS, {| chmsg_num := arr_num; chmsgs := msgs |}).

Definition attach_msg_v1_deserialize_attach_msg (m : list Z) (buf len : Z) (data : urpc_attach_msg_v1)
  : option (Z * urpc_attach_msg_v1) :=
  msg ← urpc_tlv_search_element base m buf len URPC_TLV_TYPE_ATTACH_MSG;
  match msg with
  | None => Some (- URPC_ERR_EINVAL, data)
  | Some msg =>
    msg_len ← tlv_len m msg;
    info ← urpc_tlv_search_element base m (msg + TLV_HEAD_SIZE) msg_len URPC_TLV_TYPE_ATTACH_INFO;
    match info with
    | None => Some (- URPC_ERR_EINVAL, data)
    | Some info =>
      let set a := {| attach_buffer := attach_buffer data; attach_len := attach_len data;
                      attach_info := Some (info + TLV_HEAD_SIZE); attach_chmsg_arr := a |} in
      let left_len := urpc_tlv_get_left_len (msg + TLV_HEAD_SIZE) msg_len info in
      arr ← urpc_tlv_search_next_element base m info left_len URPC_TLV_TYPE_ARRAY;
      match arr with
      | None => Some (URPC_FAIL, set (attach_chmsg_arr data))
      | Some arr =>
        '(ret, a) ← attach_msg_v1_deserialize_chmsg_arr m arr (attach_chmsg_arr data);
        Some (ret, set a)
      end
    end
  end.

Definition urpc_attach_msg_v1_deserialize (data : urpc_attach_msg_v1) : option (Z * urpc_attach_msg_v1) :=
  match attach_buffer data with
  | None => Some (- URPC_ERR_EINVAL, data)
  | Some m => attach_msg_v1_deserialize_attach_msg m 0 (attach_len data) data
  end.

Definition urpc_detach_msg_v1_deserialize (data : urpc_detach_msg_v1) : option (Z * urpc_detach_msg_v1) :=
  match detach_buffer data with
  | None => Some (- URPC_ERR_EINVAL, data)
  | Some m =>
    msg ← urpc_tlv_search_element base m 0 (detach_len data) URPC_TLV_TYPE_DETACH_MSG;
    match msg with
    | None => Some (- URPC_ERR_EINVAL, data)
    | Some msg =>
      len ← tlv_len m msg;
      info ← urpc_tlv_search_element base m (msg + TLV_HEAD_SIZE) len URPC_TLV_TYPE_DETACH_INFO;
      match info with
      | None => Some (- URPC_ERR_EINVAL, data)
      | Some info =>
        len ← tlv_len m info;
        if len <? SIZEOF_DETACH_INFO then Some (- URPC_ERR_EINVAL, data) else
        Some (URPC_SUCCESS, {| detach_buffer := detach_buffer data; detach_len := detach_len data;
                               detach_info := Some (info + TLV_HEAD_SIZE) |})
      end
    end
  end.

(** The array the caller passes has [length arr] entries. *)
Definition meminfo_arr_deserialize (m : list Z) (head : Z) (arr : list (option Z))
  : option (Z * list (option Z)) :=
  let buf := head + TLV_ARR_HEAD_SIZE in
  len ← urpc_tlv_arr_get_user_data_len m head;
  cur ← urpc_tlv_search_element base m buf len URPC_TLV_TYPE_MEM_INFO;
  arr_num ← tlv_arr_num m head;
  deserialize_records (Z.to_nat arr_num) 0 m buf len URPC_TLV_TYPE_MEM_INFO SIZEOF_MEM_INFO cur arr.

(** The same statements as [attach_msg_v1_deserialize_qinfo_arr] and
    [attach_msg_v1_deserialize_chmsg]. *)
Definition connect_msg_deserialize_qinfo_arr := attach_msg_v1_deserialize_qinfo_arr.
Definition connect_msg_deserialize_chmsg := attach_msg_v1_deserialize_chmsg.

Definition connect_msg_deserialize_chmsg_arr (m : list Z) (head : Z) (arr : urpc_chmsg_arr)
  : option (Z * urpc_chmsg_arr) :=
  let buf := head + TLV_ARR_HEAD_SIZE in
  len ← urpc_tlv_arr_get_user_data_len m head;
  arr_num ← tlv_arr_num m head;
  cur ← (if negb (arr_num =? 0) then urpc_tlv_search_element base m buf len URPC_TLV_TYPE_CHANNEL_MSG
         else Some None);
  '(ret, msgs) ← deserialize_chmsgs (Z.to_nat arr_num) 0 m buf len cur (chmsgs arr);
  if negb (ret =? URPC_SUCCESS) then Some (ret, {| chmsg_num := chmsg_num arr; chmsgs := msgs |})
  else Some (URPC_SUCCESS, {| chmsg_num := arr_num; chmsgs := msgs |}).

Definition connect_msg_deserialize_connect_msg (m : list Z) (buf len : Z) (data : urpc_connect_msg)
  : option (Z * urpc_connect_msg) :=
  msg ← urpc_tlv_search_element base m buf len URPC_TLV_TYPE_CONNECT_MSG;
  match msg with
  | None => Some (- URPC_ERR_EINVAL, data)
  | Some msg =>
    msg_len ← tlv_len m msg;
    info ← urpc_tlv_search_element base m (msg + TLV_HEAD_SIZE) msg_len URPC_TLV_TYPE_CONNECT_INFO;
    match info with
    | None => Some (- URPC_ERR_EINVAL, data)
    | Some info =>
      info_len ← tlv_len m info;
      if info_len <? SIZEOF_INSTANCE_KEY then Some (URPC_FAIL, data) else
      let set a := {| connect_buffer := connect_buffer data; connect_len := connect_len data;
                      connect_info := Some (info + TLV_HEAD_SIZE); connect_chmsg_arr := a |} in
      let left_len := urpc_tlv_get_left_len (msg + TLV_HEAD_SIZE) msg_len info in
      arr ← urpc_tlv_search_next_element base m info left_len URPC_TLV_TYPE_ARRAY;
      match arr with
      | None => Some (- URPC_ERR_EINVAL, set (connect_chmsg_arr data))
      | Some arr =>
        '(ret, a) ← connect_msg_deserialize_chmsg_arr m arr (connect_chmsg_arr data);
        Some (ret, set a)
      end
    end
  end.

Definition urpc_connect_msg_deserialize (data : urpc_connect_msg) : option (Z * urpc_connect_msg) :=
  match connect_buffer data with
  | None => Some (- URPC_ERR_EINVAL, data)
  | Some m => connect_msg_deserialize_connect_msg m 0 (connect_len data) data
  end.

Definition urpc_connect_msg_extract_channel_count (m : list Z) (buf len : Z) : option Z :=
  msg ← urpc_tlv_search_element base m buf len URPC_TLV_TYPE_CONNECT_MSG;
  match msg with
  | None => Some (- URPC_ERR_EINVAL)
  | Some msg =>
    msg_len ← tlv_len m msg;
    info ← urpc_tlv_search_element base m (msg + TLV_HEAD_SIZE) msg_len URPC_TLV_TYPE_CONNECT_INFO;
    match info with
    | None => Some (- URPC_ERR_EINVAL)
    | Some info =>
      let left_len := urpc_tlv_get_left_len (msg + TLV_HEAD_SIZE) msg_len info in
      arr ← urpc_tlv_search_next_element base m info left_len URPC_TLV_TYPE_ARRAY;
      match arr with
      | None => Some URPC_FAIL
      | Some arr =>
        arr_num ← tlv_arr_num m arr;
        if URPC_MAX_CLIENT_CHANNELS_PER_CLIENT <? arr_num then Some (- URPC_ERR_EINVAL) else Some arr_num
      end
    end
  end.

(** ** The receiver of a connect message *)

(** A zeroed [urpc_chmsg_v1_t]. *)
Definition zero_chmsg : urpc_chmsg_v1 :=
  {| chinfo := None; qinfo_arr := {| qarr_num := 0; qinfos := replicate (Z.to_nat MAX_QUEUE_SIZE) None |} |}.

Definition zero_chmsgs (n : Z) : urpc_chmsg_arr :=
  {| chmsg_num := 0; chmsgs := replicate (Z.to_nat n) zero_chmsg |}.

(** Reading a [urpc_instance_key_t]. *)
Definition load_key (m : list Z) (p : Z) : option urpc_instance_key :=
  eid ← read_bytes m p SIZEOF_EID; pid ← load32 m (p + 16); Some {| key_eid := eid; key_pid := pid |}.

(** [server_process_connection_msg] up to the update of the server channels:
    the result, the client key and the parsed message. *)
Definition server_process_connection_msg (pl : platform) (buffer : list Z) (data_size : Z)
  : option (Z * option (urpc_instance_key * urpc_connect_msg)) :=
  channel_num ← urpc_connect_msg_extract_channel_count buffer 0 data_size;
  if channel_num <? 0 then Some (URPC_FAIL, None) else
  if negb (calloc_succeeds pl) then Some (URPC_FAIL, None) else
  let msg := {| connect_buffer := Some buffer; connect_len := data_size; connect_info := None;
                connect_chmsg_arr := zero_chmsgs channel_num |} in
  '(ret, msg) ← urpc_connect_msg_deserialize msg;
  if negb (ret =? URPC_SUCCESS) then Some (URPC_FAIL, None) else
  match connect_info msg with
  | None => Some (URPC_FAIL, None)
  | Some p => key ← load_key buffer p; Some (URPC_SUCCESS, Some (key, msg))
  end.

(** The loop of [one_by_one_server_resource_update]: the channel message whose
    [server_chid] is the server channel's id.  It reads through every
    [chinfo] pointer on the way. *)
Fixpoint find_server_chid (n : nat) (i : Z) (m : list Z) (msgs : list urpc_chmsg_v1) (mapped_id : Z)
  : option (option Z) :=
  match n with
  | O => Some None
  | S n =>
    c ← zget msgs i;
    p ← chinfo c;
    server_chid ← load32 m (p + 36);
    if mapped_id =? server_chid then Some (Some i) else find_server_chid n (i + 1) m msgs mapped_id
  end.

Definition one_by_one_channel (m : list Z) (msg : urpc_connect_msg) (mapped_id : Z) : option (option Z) :=
  let arr := connect_chmsg_arr msg in
  find_server_chid (Z.to_nat (chmsg_num arr)) 0 m (chmsgs arr) mapped_id.

(** [channel_queue_info_validate] on a received attach message. *)
Definition channel_queue_info_validate (data : urpc_attach_msg_v1) : option bool :=
  if negb (chmsg_num (attach_chmsg_arr data) =? 1) then Some false else
  c ← zget (chmsgs (attach_chmsg_arr data)) 0;
  Some (qarr_num (qinfo_arr c) <=? MAX_QUEUE_SIZE).

(** ** Memory information *)

Definition MAX_MEM_H_SIZE : Z := 256.
Definition URPC_ERR_ENOMEM : Z := 690.

(** [urpc_mem_info_set] up to the import of the segments: the received buffer
    is read as an array head whatever its length [len]; the pointer array has
    as many entries as the head's number says. *)
Definition urpc_mem_info_set (malloc_ok : bool) (m : list Z) (len : Z) : option (Z * list (option Z)) :=
  mem_info_num ← tlv_arr_num m 0;
  if MAX_MEM_H_SIZE <? mem_info_num then Some (- URPC_ERR_EINVAL, []) else
  if negb malloc_ok then Some (- URPC_ERR_ENOMEM, []) else
  '(ret, arr) ← meminfo_arr_deserialize m 0 (replicate (Z.to_nat mem_info_num) None);
  Some (ret, arr).

End Deserialize.

(** [urpc_mem_info_get]: the buffer is allocated for [mem_info_num] records and
    not cleared; [fresh] is what it holds. *)
Definition urpc_mem_info_get (channel : urpc_channel_info) (fresh : list Z) : option (Z * list Z * Z) :=
  let len := u32 (u32 (ch_mem_info_num channel * (TLV_HEAD_SIZE + SIZEOF_MEM_INFO)) + TLV_ARR_HEAD_SIZE) in
  '(ret, m) ← meminfo_arr_serialize channel (take (Z.to_nat len) fresh) 0;
  if negb (ret =? URPC_SUCCESS) then Some (URPC_FAIL, m, 0) else Some (URPC_SUCCESS, m, len).
