(* ===== verification/CpCompatParse.v ===== *)
(** * Deserialized control-path messages

    What the deserializers of [CpCompat] make of a buffer laid out as the
    comments at the top of cp_vers_compat.c draw it, extended the way a later
    version may extend it: elements of unknown types around the known ones,
    and records that are longer than this version's.  The layouts are data
    ([qarr_layout], [chmsg_layout], [arr_layout]), their bytes and the pointers
    the deserializer leaves are functions of them, and [view_attach] reads the
    message back through the pointers. *)

From S2P Require Import Prelude Memory Tlv CpCompat.

(** ** Records *)

Record chinfo_rec := {
  ci_eid : list Z; ci_pid : Z; ci_cap : Z; ci_attr : Z; ci_chid : Z; ci_server_chid : Z }.

Definition key_bytes (eid : list Z) (pid : Z) : list Z := eid ++ le32 pid ++ zeros 4.

Definition chinfo_bytes (c : chinfo_rec) : list Z :=
  key_bytes (ci_eid c) (ci_pid c) ++ le32 (ci_cap c) ++ le32 (ci_attr c) ++ le32 (ci_chid c) ++
  le32 (ci_server_chid c).

Definition chinfo_rec_ok (c : chinfo_rec) : Prop :=
  zlen (ci_eid c) = SIZEOF_EID /\ in_u32 (ci_pid c) /\ in_u32 (ci_cap c) /\ in_u32 (ci_attr c) /\
  in_u32 (ci_chid c) /\ in_u32 (ci_server_chid c).

(** Reading the fields through a [urpc_chinfo_t] pointer. *)
Definition load_chinfo (m : list Z) (p : Z) : option chinfo_rec :=
  eid ← read_bytes m p SIZEOF_EID; pid ← load32 m (p + 16); cap ← load32 m (p + 24);
  attr ← load32 m (p + 28); chid ← load32 m (p + 32); server_chid ← load32 m (p + 36);
  Some {| ci_eid := eid; ci_pid := pid; ci_cap := cap; ci_attr := attr; ci_chid := chid;
          ci_server_chid := server_chid |}.

Definition attach_info_bytes (keepalive_attr server_chid : Z) : list Z :=
  le64 keepalive_attr ++ le32 server_chid ++ zeros 4.

Definition load_attach_info (m : list Z) (p : Z) : option (Z * Z) :=
  k ← load64 m p; s ← load32 m (p + 8); Some (k, s).

(** What a message says: of each channel its record and the queue records. *)
Abbreviation chmsg_content := (chinfo_rec * list (list Z))%type.

Definition view_record (m : list Z) (size : Z) (p : option Z) : option (list Z) :=
  p ← p; read_bytes m p size.

Definition view_chmsg (m : list Z) (c : urpc_chmsg_v1) : option chmsg_content :=
  p ← chinfo c; info ← load_chinfo m p;
  qs ← mapM (view_record m SIZEOF_QUEUE_INFO) (take (Z.to_nat (qarr_num (qinfo_arr c))) (qinfos (qinfo_arr c)));
  Some (info, qs).

Definition view_chmsgs (m : list Z) (a : urpc_chmsg_arr) : option (list chmsg_content) :=
  mapM (view_chmsg m) (take (Z.to_nat (chmsg_num a)) (chmsgs a)).

Definition view_attach (data : urpc_attach_msg_v1) : option (Z * Z * list chmsg_content) :=
  m ← attach_buffer data; p ← attach_info data; '(k, s) ← load_attach_info m p;
  cs ← view_chmsgs m (attach_chmsg_arr data); Some (k, s, cs).

(** ** Layouts *)

(** Elements none of which has type [ty]. *)
Definition others (ty : Z) (l : list element) : Prop := Forall (fun e => in_u32 e.1 /\ e.1 <> ty) l.
Definition any (l : list element) : Prop := Forall (fun e => in_u32 e.1) l.

Definition of_type (ty : Z) (l : list element) : list element := filter (fun e => e.1 = ty) l.

(** Offsets of the values of the elements of one type. *)
Fixpoint positions (off : Z) (l : list element) (ty : Z) : list Z :=
  match l with
  | [] => []
  | e :: l =>
    let r := positions (off + zlen (tlv e)) l ty in
    if e.1 =? ty then (off + TLV_HEAD_SIZE) :: r else r
  end.

(** The queue array: a number, and elements of which those of type
    QUEUE_INFO are the queue records. *)
Record qarr_layout := { ql_num : Z; ql_elems : list element; ql_pad : list Z }.

Definition qarr_bytes (q : qarr_layout) : list Z := le32 (ql_num q) ++ tlvs (ql_elems q) ++ ql_pad q.

Definition qarr_ok (q : qarr_layout) : Prop :=
  any (ql_elems q) /\ zlen (ql_pad q) < TLV_HEAD_SIZE /\ 0 <= ql_num q <= MAX_QUEUE_SIZE /\
  ql_num q <= zlen (of_type URPC_TLV_TYPE_QUEUE_INFO (ql_elems q)) /\
  Forall (fun e => SIZEOF_QUEUE_INFO <= zlen e.2) (of_type URPC_TLV_TYPE_QUEUE_INFO (ql_elems q)).

Definition qarr_content (q : qarr_layout) : list (list Z) :=
  (fun e => take (Z.to_nat SIZEOF_QUEUE_INFO) e.2) <$>
    take (Z.to_nat (ql_num q)) (of_type URPC_TLV_TYPE_QUEUE_INFO (ql_elems q)).

(** [arr] with its first entries replaced by [ps]. *)
Definition overwrite {A} (ps arr : list A) : list A := ps ++ drop (length ps) arr.

Definition qarr_ptrs (off : Z) (q : qarr_layout) (old : urpc_qinfo_arr_v1) : urpc_qinfo_arr_v1 :=
  {| qarr_num := ql_num q;
     qinfos := overwrite (Some <$> take (Z.to_nat (ql_num q))
                                     (positions (off + 4) (ql_elems q) URPC_TLV_TYPE_QUEUE_INFO)) (qinfos old) |}.

(** A message or a channel message: a record of type [ty], and behind it an array. *)
Record pair_layout := {
  pl_pre : list element; pl_info : list Z; pl_mid : list element; pl_arr : list Z;
  pl_post : list element; pl_pad : list Z }.

Definition pair_elems (ty : Z) (p : pair_layout) : list element :=
  pl_pre p ++ (ty, pl_info p) :: pl_mid p ++ (URPC_TLV_TYPE_ARRAY, pl_arr p) :: pl_post p.

Definition pair_bytes (ty : Z) (p : pair_layout) : list Z := tlvs (pair_elems ty p) ++ pl_pad p.

Definition pair_ok (ty : Z) (p : pair_layout) : Prop :=
  others ty (pl_pre p) /\ others URPC_TLV_TYPE_ARRAY (pl_mid p) /\ any (pl_post p) /\
  zlen (pl_pad p) < TLV_HEAD_SIZE.

(** Where the record's value and the array's value start. *)
Definition pair_info_at (off : Z) (p : pair_layout) : Z := off + zlen (tlvs (pl_pre p)) + TLV_HEAD_SIZE.
Definition pair_arr_at (off ty : Z) (p : pair_layout) : Z :=
  pair_info_at off p + zlen (pl_info p) + zlen (tlvs (pl_mid p)) + TLV_HEAD_SIZE.

Record chmsg_layout := {
  cl_pre : list element; cl_info : chinfo_rec; cl_ext : list Z; cl_mid : list element;
  cl_arr : qarr_layout; cl_post : list element; cl_pad : list Z }.

Definition chmsg_pair (c : chmsg_layout) : pair_layout :=
  {| pl_pre := cl_pre c; pl_info := chinfo_bytes (cl_info c) ++ cl_ext c; pl_mid := cl_mid c;
     pl_arr := qarr_bytes (cl_arr c); pl_post := cl_post c; pl_pad := cl_pad c |}.

Definition chmsg_bytes (c : chmsg_layout) : list Z := pair_bytes URPC_TLV_TYPE_CHANNEL_INFO (chmsg_pair c).

Definition chmsg_ok (c : chmsg_layout) : Prop :=
  pair_ok URPC_TLV_TYPE_CHANNEL_INFO (chmsg_pair c) /\ chinfo_rec_ok (cl_info c) /\ qarr_ok (cl_arr c).

Definition chmsg_ptrs (off : Z) (c : chmsg_layout) (old : urpc_chmsg_v1) : urpc_chmsg_v1 :=
  {| chinfo := Some (pair_info_at off (chmsg_pair c));
     qinfo_arr := qarr_ptrs (pair_arr_at off URPC_TLV_TYPE_CHANNEL_INFO (chmsg_pair c)) (cl_arr c) (qinfo_arr old) |}.

Definition chmsg_content_of (c : chmsg_layout) : chmsg_content := (cl_info c, qarr_content (cl_arr c)).

(** The channel array: channel messages and elements of other types. *)
Abbreviation carr_item := (element + chmsg_layout)%type.

Definition item_element (i : carr_item) : element :=
  match i with inl e => e | inr c => (URPC_TLV_TYPE_CHANNEL_MSG, chmsg_bytes c) end.

Definition item_ok (i : carr_item) : Prop :=
  match i with
  | inl e => in_u32 e.1 /\ e.1 <> URPC_TLV_TYPE_CHANNEL_MSG
  | inr c => chmsg_ok c
  end.

Definition channels (l : list carr_item) : list chmsg_layout :=
  omap (fun i => match i with inl _ => None | inr c => Some c end) l.

Definition carr_bytes (l : list carr_item) (pad : list Z) : list Z :=
  le32 (zlen (channels l)) ++ tlvs (item_element <$> l) ++ pad.

Fixpoint item_ptrs (off : Z) (l : list carr_item) (old : list urpc_chmsg_v1) : list urpc_chmsg_v1 :=
  match l with
  | [] => old
  | i :: l =>
    let next := off + zlen (tlv (item_element i)) in
    match i, old with
    | inr c, o :: old => chmsg_ptrs (off + TLV_HEAD_SIZE) c o :: item_ptrs next l old
    | _, _ => item_ptrs next l old
    end
  end.

Definition carr_ptrs (off : Z) (l : list carr_item) (old : list urpc_chmsg_v1) : urpc_chmsg_arr :=
  {| chmsg_num := zlen (channels l); chmsgs := item_ptrs (off + 4) l old |}.

(** ** Elements of a region *)

Section Parse.
Context (base : Z) (m : list Z).
Hypothesis Hplaced : buffer_placed base m.

Lemma occurs_elements_ok off l pad : occurs m off (tlvs l ++ pad) -> any l -> Forall element_ok l.
Proof.
  destruct Hplaced as (_ & _ & Hm). revert off. induction l as [|e l IH]; intros off Ho Ha; [done|].
  apply Forall_cons in Ha as [He Ha]. rewrite tlvs_cons, <-app_assoc in Ho.
  apply occurs_app in Ho as [Hoe Hol]. apply Forall_cons. split; [|by eapply IH].
  split; [done|]. apply occurs_range in Hoe. rewrite zlen_tlv in Hoe. lia.
Qed.

Lemma search_occurs off l pad ty :
  occurs m off (tlvs l ++ pad) -> zlen pad < TLV_HEAD_SIZE -> any l ->
  urpc_tlv_search_element base m off (zlen (tlvs l ++ pad)) ty = Some (find_element off l ty).
Proof.
  intros Ho Hpad Ha. apply search_finds; [done|done|]. exists pad. split_and!; [done..|].
  by eapply occurs_elements_ok.
Qed.

(** The search behind an element [e] of the region that starts at [buf]. *)
Lemma search_next_occurs buf len off e l pad ty :
  occurs m off (tlvs (e :: l) ++ pad) -> zlen pad < TLV_HEAD_SIZE -> any (e :: l) ->
  0 <= buf <= off -> buf + len = off + zlen (tlvs (e :: l) ++ pad) ->
  urpc_tlv_search_next_element base m off (urpc_tlv_get_left_len buf len off) ty =
    Some (find_element (off + zlen (tlv e)) l ty).
Proof.
  intros Ho Hpad Ha Hb Hlen. pose proof (occurs_elements_ok _ _ _ Ho Ha) as Hok.
  pose proof (occurs_range _ _ _ Ho) as [Hr1 Hr2]. destruct Hplaced as (_ & _ & Hm).
  pose proof (zlen_nonneg (tlvs (e :: l) ++ pad)).
  replace (urpc_tlv_get_left_len buf len off) with (zlen (tlvs (e :: l) ++ pad)).
  - rewrite tlvs_cons, <-app_assoc in *. by apply search_next_finds.
  - unfold urpc_tlv_get_left_len. rewrite (u32_small (off - buf)), u32_small by lia. lia.
Qed.

Lemma occurs_head off e l pad :
  occurs m off (tlvs (e :: l) ++ pad) -> any (e :: l) ->
  tlv_type m off = Some e.1 /\ tlv_len m off = Some (zlen e.2) /\ occurs m (off + TLV_HEAD_SIZE) e.2.
Proof.
  intros Ho Ha. pose proof (occurs_elements_ok _ _ _ Ho Ha) as Hok.
  apply Forall_cons in Hok as [He _]. rewrite tlvs_cons, <-app_assoc in Ho.
  apply occurs_app in Ho as [Ho _]. by apply occurs_tlv.
Qed.

Lemma occurs_tail off e l pad :
  occurs m off (tlvs (e :: l) ++ pad) -> occurs m (off + zlen (tlv e)) (tlvs l ++ pad).
Proof. rewrite tlvs_cons, <-app_assoc. by intros [_ ?]%occurs_app. Qed.

Lemma occurs_skip off l k pad :
  occurs m off (tlvs (l ++ k) ++ pad) -> occurs m (off + zlen (tlvs l)) (tlvs k ++ pad).
Proof. rewrite tlvs_app, <-app_assoc. by intros [_ ?]%occurs_app. Qed.

(** ** Arrays of records *)

Lemma zset_app {A} (done rest : list A) x y :
  zset (done ++ x :: rest) (zlen done) y = Some (done ++ y :: rest).
Proof.
  unfold zset. pose proof (zlen_nonneg done). rewrite (proj2 (Z.leb_le _ _)) by lia.
  rewrite zlen_app, zlen_cons. pose proof (zlen_nonneg rest). rewrite (proj2 (Z.ltb_lt _ _)) by lia. simpl.
  f_equal. unfold zlen. rewrite Nat2Z.id. by rewrite insert_app_r_alt, Nat.sub_diag by lia.
Qed.

Lemma deserialize_records_occurs l : forall n i buf len off pad ty size arr_done arr_rest,
  occurs m off (tlvs l ++ pad) -> zlen pad < TLV_HEAD_SIZE -> any l -> 0 <= buf <= off ->
  buf + len = off + zlen (tlvs l ++ pad) ->
  (n <= length (of_type ty l))%nat -> Forall (fun e => size <= zlen e.2) (of_type ty l) ->
  i = zlen arr_done -> (n <= length arr_rest)%nat ->
  deserialize_records base n i m buf len ty size (find_element off l ty) (arr_done ++ arr_rest) =
    Some (URPC_SUCCESS, arr_done ++ overwrite (Some <$> take n (positions off l ty)) arr_rest).
Proof.
  induction l as [|e l IH]; intros n i buf len off pad ty size dn rest Ho Hpad Ha Hb Hlen Hn Hs -> Hrest.
  { cbn in Hn. destruct n; [done|lia]. }
  destruct n as [|n]; [done|]. pose proof (occurs_head _ _ _ _ Ho Ha) as (Hty & Hl & Hv).
  pose proof (occurs_tail _ _ _ _ Ho) as Ho'. pose proof Ha as [_ Ha']%Forall_cons.
  assert (Hlen' : buf + len = off + zlen (tlv e) + zlen (tlvs l ++ pad))
    by (rewrite Hlen, tlvs_cons, !zlen_app; lia).
  assert (Hb' : 0 <= buf <= off + zlen (tlv e)) by (pose proof (zlen_nonneg (tlv e)); lia).
  unfold of_type in Hn, Hs. rewrite filter_cons in Hn, Hs. cbn [find_element positions].
  destruct (decide (e.1 = ty)) as [Hd|Hd].
  - rewrite (proj2 (Z.eqb_eq _ _)) by done. cbn [deserialize_records]. rewrite Hl. cbn [mbind option_bind].
    apply Forall_cons in Hs as [Hse Hs]. cbn in Hn. rewrite (proj2 (Z.ltb_ge _ _)) by done.
    destruct rest as [|x rest]; [cbn in Hrest; lia|]. rewrite zset_app. cbn [mbind option_bind].
    rewrite (search_next_occurs buf len off e l pad ty) by done. cbn [mbind option_bind].
    replace (dn ++ Some (off + TLV_HEAD_SIZE) :: rest) with ((dn ++ [Some (off + TLV_HEAD_SIZE)]) ++ rest)
      by by rewrite <-app_assoc.
    rewrite (IH n _ buf len _ pad); [by rewrite <-app_assoc|done..|exact (le_S_n _ _ Hn)|done|by rewrite zlen_app|].
    cbn in Hrest. lia.
  - rewrite (proj2 (Z.eqb_neq _ _)) by done. by apply IH with (pad := pad).
Qed.

(** Reading the records through the pointers. *)
Lemma view_records_occurs l : forall n off pad ty size,
  occurs m off (tlvs l ++ pad) -> any l -> 0 <= size -> Forall (fun e => size <= zlen e.2) (of_type ty l) ->
  mapM (view_record m size) (Some <$> take n (positions off l ty)) =
    Some ((fun e => take (Z.to_nat size) e.2) <$> take n (of_type ty l)).
Proof.
  induction l as [|e l IH]; intros n off pad ty size Ho Ha H0 Hs; [by destruct n|].
  pose proof (occurs_head _ _ _ _ Ho Ha) as (_ & _ & Hv). pose proof (occurs_tail _ _ _ _ Ho) as Ho'.
  apply Forall_cons in Ha as [_ Ha]. unfold of_type in *. rewrite filter_cons in *. cbn [positions].
  destruct (decide (e.1 = ty)) as [Hd|Hd].
  - rewrite (proj2 (Z.eqb_eq _ _)) by done. apply Forall_cons in Hs as [Hse Hs]. destruct n as [|n]; [done|].
    cbn [take fmap list_fmap mapM]. rewrite (IH n _ pad) by done. unfold view_record at 1. cbn [mbind option_bind].
    rewrite <-(take_drop (Z.to_nat size) e.2) in Hv. apply occurs_app in Hv as [Hv _]. unfold occurs in Hv.
    replace (zlen (take (Z.to_nat size) e.2)) with size in Hv by (unfold zlen in *; rewrite length_take; lia).
    by rewrite Hv.
  - rewrite (proj2 (Z.eqb_neq _ _)) by done. by apply (IH n _ pad).
Qed.

Lemma length_positions l : forall off ty, length (positions off l ty) = length (of_type ty l).
Proof.
  induction l as [|e l IH]; intros off ty; [done|]. unfold of_type in *. rewrite filter_cons. cbn [positions].
  destruct (decide (e.1 = ty)); [rewrite (proj2 (Z.eqb_eq _ _)) by done|rewrite (proj2 (Z.eqb_neq _ _)) by done];
    cbn [length]; by rewrite IH.
Qed.


(** The number and the user data of an array element at [head]. *)
Lemma occurs_array head n data :
  occurs m (head + TLV_HEAD_SIZE) (le32 n ++ data) -> in_u32 n ->
  tlv_len m head = Some (zlen (le32 n ++ data)) ->
  tlv_arr_num m head = Some n /\ occurs m (head + TLV_ARR_HEAD_SIZE) data /\
  urpc_tlv_arr_get_user_data_len m head = Some (zlen data).
Proof.
  intros Ho Hn Hl. pose proof (occurs_range _ _ _ Ho) as [_ Hr]. destruct Hplaced as (_ & _ & Hm).
  apply occurs_app in Ho as [Hon Hod]. rewrite zlen_le32 in Hod. pose proof (zlen_nonneg data).
  rewrite zlen_app, zlen_le32 in *. unfold TLV_HEAD_SIZE, TLV_ARR_HEAD_SIZE in *. split_and!.
  - by apply occurs_load32.
  - by replace (head + 12) with (head + 8 + 4) by lia.
  - unfold urpc_tlv_arr_get_user_data_len. rewrite Hl. cbn [mbind option_bind].
    apply occurs_range in Hon. rewrite u32_small by lia. f_equal. lia.
Qed.

Lemma deserialize_qinfo_arr_occurs head q qa :
  tlv_len m head = Some (zlen (qarr_bytes q)) -> occurs m (head + TLV_HEAD_SIZE) (qarr_bytes q) ->
  qarr_ok q -> zlen (qinfos qa) = MAX_QUEUE_SIZE -> 0 <= head ->
  attach_msg_v1_deserialize_qinfo_arr base m head qa = Some (URPC_SUCCESS, qarr_ptrs (head + TLV_HEAD_SIZE) q qa).
Proof.
  intros Hl Ho (Ha & Hpad & Hn & Hcnt & Hs) Hqa H0. unfold MAX_QUEUE_SIZE in *.
  destruct (occurs_array _ _ _ Ho ltac:(lia) Hl) as (Harr & Hod & Hdl).
  unfold attach_msg_v1_deserialize_qinfo_arr. rewrite Harr, Hdl. cbn [mbind option_bind].
  rewrite (proj2 (Z.ltb_ge _ _)) by (unfold MAX_QUEUE_SIZE; lia). unfold qarr_ptrs.
  destruct (_ && _)%bool eqn:E.
  { apply andb_true_iff in E as [_ E]. breflect. by rewrite E. }
  rewrite (search_occurs _ _ _ _ Hod Hpad Ha). cbn [mbind option_bind].
  pose proof (deserialize_records_occurs (ql_elems q) (Z.to_nat (ql_num q)) 0 (head + TLV_ARR_HEAD_SIZE)
    (zlen (tlvs (ql_elems q) ++ ql_pad q)) (head + TLV_ARR_HEAD_SIZE) (ql_pad q) URPC_TLV_TYPE_QUEUE_INFO
    SIZEOF_QUEUE_INFO [] (qinfos qa)) as Hd.
  cbn [app] in Hd. rewrite Hd; clear Hd; try done.
  - cbn [mbind option_bind]. rewrite Z.eqb_refl. cbn [negb].
    by replace (head + TLV_HEAD_SIZE + 4) with (head + TLV_ARR_HEAD_SIZE)
      by (unfold TLV_HEAD_SIZE, TLV_ARR_HEAD_SIZE; lia).
  - unfold TLV_ARR_HEAD_SIZE. lia.
  - unfold zlen in Hcnt. lia.
  - unfold zlen in Hqa. lia.
Qed.

(** ** A record and an array behind it *)

Lemma pair_elems_any ty p : in_u32 ty -> pair_ok ty p -> any (pair_elems ty p).
Proof.
  intros Hty (H1 & H2 & H3 & _). unfold any, pair_elems, others in *.
  rewrite Forall_app, Forall_cons, Forall_app, Forall_cons.
  split; [|split; [exact Hty|split; [|split; [|exact H3]]]]; [| |done].
  - eapply Forall_impl; [exact H1|]. by intros ? [].
  - eapply Forall_impl; [exact H2|]. by intros ? [].
Qed.

Lemma others_ne ty l : others ty l -> Forall (fun e => e.1 <> ty) l.
Proof. intros H. eapply Forall_impl; [exact H|]. by intros ? []. Qed.

(** The record and the array are found, with their values. *)
Lemma pair_occurs off ty p :
  in_u32 ty -> pair_ok ty p -> occurs m off (pair_bytes ty p) ->
  let info := pair_info_at off p - TLV_HEAD_SIZE in
  let arr := pair_arr_at off ty p - TLV_HEAD_SIZE in
  urpc_tlv_search_element base m off (zlen (pair_bytes ty p)) ty = Some (Some info) /\
  urpc_tlv_search_next_element base m info (urpc_tlv_get_left_len off (zlen (pair_bytes ty p)) info)
    URPC_TLV_TYPE_ARRAY = Some (Some arr) /\
  tlv_len m info = Some (zlen (pl_info p)) /\ occurs m (pair_info_at off p) (pl_info p) /\
  tlv_len m arr = Some (zlen (pl_arr p)) /\ occurs m (pair_arr_at off ty p) (pl_arr p) /\ 0 <= arr.
Proof.
  intros Hty Hok Ho info arr. pose proof (pair_elems_any _ _ Hty Hok) as Ha.
  pose proof Hok as (H1 & H2 & H3 & Hpad). unfold pair_bytes in *.
  pose proof (occurs_range _ _ _ Ho) as [Hoff _]. set (n := zlen (tlvs (pair_elems ty p) ++ pl_pad p)).
  pose proof (search_occurs _ _ _ ty Ho Hpad Ha) as Hs. unfold pair_elems in *.
  rewrite find_element_skip in Hs by (done || by apply others_ne).
  assert (Hinfo : info = off + zlen (tlvs (pl_pre p))) by (unfold info, pair_info_at; lia).
  assert (Harr : arr = info + zlen (tlv (ty, pl_info p)) + zlen (tlvs (pl_mid p))).
  { unfold arr, pair_arr_at, pair_info_at. rewrite zlen_tlv. cbn. lia. }
  pose proof (occurs_skip _ _ _ _ Ho) as Ho1. rewrite <-Hinfo in Ho1.
  assert (Ha1 : any ((ty, pl_info p) :: pl_mid p ++ (URPC_TLV_TYPE_ARRAY, pl_arr p) :: pl_post p))
    by (apply Forall_app in Ha as [_ Ha]; done).
  pose proof (occurs_head _ _ _ _ Ho1 Ha1) as (_ & Hl1 & Hv1).
  pose proof (occurs_tail _ _ _ _ Ho1) as Ho2. apply occurs_skip in Ho2. rewrite <-Harr in Ho2.
  assert (Ha2 : any ((URPC_TLV_TYPE_ARRAY, pl_arr p) :: pl_post p)).
  { apply Forall_cons in Ha1 as [_ Ha1]. by apply Forall_app in Ha1 as [_ Ha1]. }
  pose proof (occurs_head _ _ _ _ Ho2 Ha2) as (_ & Hl2 & Hv2).
  pose proof (zlen_nonneg (tlvs (pl_pre p))).
  split_and!; try done.
  - etrans; [exact Hs|by rewrite Hinfo].
  - rewrite (search_next_occurs off n info (ty, pl_info p)
      (pl_mid p ++ (URPC_TLV_TYPE_ARRAY, pl_arr p) :: pl_post p) (pl_pad p)); try done; [|lia|].
    + rewrite find_element_skip by (done || by apply others_ne). by rewrite Harr.
    + unfold n, pair_elems. rewrite Hinfo, tlvs_app, !zlen_app. lia.
  - unfold info in Hv1. by rewrite Z.sub_add in Hv1.
  - unfold arr in Hv2. by rewrite Z.sub_add in Hv2.
  - apply occurs_range in Ho2. lia.
Qed.

(** ** Channel messages *)

Lemma zlen_zeros n : 0 <= n -> zlen (zeros n) = n.
Proof. intros. unfold zlen, zeros. rewrite length_replicate. lia. Qed.

Lemma zlen_chinfo_bytes c : zlen (ci_eid c) = SIZEOF_EID -> zlen (chinfo_bytes c) = SIZEOF_CHINFO.
Proof.
  intros He. unfold chinfo_bytes, key_bytes. rewrite !zlen_app, He, !zlen_le32, zlen_zeros by done. done.
Qed.

Lemma load_chinfo_occurs p c ext :
  occurs m p (chinfo_bytes c ++ ext) -> chinfo_rec_ok c -> load_chinfo m p = Some c.
Proof.
  intros Ho (He & H1 & H2 & H3 & H4 & H5). unfold chinfo_bytes, key_bytes in Ho. rewrite <-!app_assoc in Ho.
  apply occurs_app in Ho as [Hoe Ho]. rewrite He in Ho. unfold SIZEOF_EID in *.
  apply occurs_app in Ho as [Hop Ho]. rewrite zlen_le32 in Ho.
  apply occurs_app in Ho as [_ Ho]. rewrite zlen_zeros in Ho by done.
  apply occurs_app in Ho as [Hoc Ho]. rewrite zlen_le32 in Ho.
  apply occurs_app in Ho as [Hoa Ho]. rewrite zlen_le32 in Ho.
  apply occurs_app in Ho as [Hoi Ho]. rewrite zlen_le32 in Ho.
  apply occurs_app in Ho as [Hos _]. rewrite <-!Z.add_assoc in *.
  change (16 + (4 + 4)) with 24 in *. change (16 + (4 + (4 + 4))) with 28 in *.
  change (16 + (4 + (4 + (4 + 4)))) with 32 in *. change (16 + (4 + (4 + (4 + (4 + 4))))) with 36 in *.
  unfold load_chinfo, SIZEOF_EID. unfold occurs in Hoe. rewrite He in Hoe. rewrite Hoe.
  rewrite (occurs_load32 _ _ _ H1 Hop), (occurs_load32 _ _ _ H2 Hoc), (occurs_load32 _ _ _ H3 Hoa),
    (occurs_load32 _ _ _ H4 Hoi), (occurs_load32 _ _ _ H5 Hos). by destruct c.
Qed.

Lemma deserialize_chmsg_occurs off c old :
  occurs m off (chmsg_bytes c) -> chmsg_ok c -> zlen (qinfos (qinfo_arr old)) = MAX_QUEUE_SIZE ->
  attach_msg_v1_deserialize_chmsg base m off (zlen (chmsg_bytes c)) old =
    Some (URPC_SUCCESS, chmsg_ptrs off c old).
Proof.
  intros Ho (Hp & Hc & Hq) Hold. unfold chmsg_bytes in *.
  destruct (pair_occurs _ URPC_TLV_TYPE_CHANNEL_INFO _ ltac:(done) Hp Ho) as (Hs & Hn & Hil & Hi & Hal & Har & H0).
  unfold attach_msg_v1_deserialize_chmsg. rewrite Hs. cbn [mbind option_bind]. rewrite Hil. cbn [mbind option_bind].
  pose proof (zlen_nonneg (cl_ext c)). pose proof (zlen_chinfo_bytes _ (proj1 Hc)) as Hlen.
  cbn [chmsg_pair pl_info pl_arr] in *. rewrite (proj2 (Z.ltb_ge _ _)) by (rewrite zlen_app; lia).
  rewrite Hn. cbn [mbind option_bind qinfo_arr].
  rewrite (deserialize_qinfo_arr_occurs _ (cl_arr c)); [|done|by rewrite Z.sub_add|done..].
  cbn [mbind option_bind negb Z.eqb URPC_SUCCESS chinfo]. unfold chmsg_ptrs. rewrite !Z.sub_add. done.
Qed.

(** What is read through the pointers of a channel message. *)
Lemma view_chmsg_occurs off c old :
  occurs m off (chmsg_bytes c) -> chmsg_ok c -> zlen (qinfos (qinfo_arr old)) = MAX_QUEUE_SIZE ->
  view_chmsg m (chmsg_ptrs off c old) = Some (chmsg_content_of c).
Proof.
  intros Ho (Hp & Hc & Hq) Hold. unfold chmsg_bytes in *. pose proof Hq as (Ha & _ & Hn & Hcnt & Hs).
  destruct (pair_occurs _ URPC_TLV_TYPE_CHANNEL_INFO _ ltac:(done) Hp Ho) as (_ & _ & _ & Hi & _ & Har & _).
  unfold view_chmsg, chmsg_ptrs, chmsg_content_of. cbn [chinfo mbind option_bind].
  rewrite (load_chinfo_occurs _ _ _ Hi Hc). cbn [mbind option_bind qinfo_arr qarr_ptrs qarr_num qinfos].
  cbn [chmsg_pair pl_arr] in Har. unfold qarr_bytes in Har. apply occurs_app in Har as [_ Har].
  rewrite zlen_le32 in Har. unfold overwrite. rewrite take_app_length'.
  - by rewrite (view_records_occurs _ _ _ (ql_pad (cl_arr c)) _ SIZEOF_QUEUE_INFO Har Ha ltac:(done) Hs).
  - rewrite length_fmap, length_take, length_positions. unfold zlen in Hcnt. lia.
Qed.

(** ** Arrays of channel messages *)

Lemma items_any l : Forall item_ok l -> any (item_element <$> l).
Proof.
  intros H. apply Forall_fmap. eapply Forall_impl; [exact H|]. intros [e|c]; cbn; [by intros []|done].
Qed.

Lemma deserialize_chmsgs_occurs l : forall i buf len off pad dn old,
  occurs m off (tlvs (item_element <$> l) ++ pad) -> zlen pad < TLV_HEAD_SIZE -> Forall item_ok l ->
  0 <= buf <= off -> buf + len = off + zlen (tlvs (item_element <$> l) ++ pad) ->
  i = zlen dn -> (length (channels l) <= length old)%nat ->
  Forall (fun o => zlen (qinfos (qinfo_arr o)) = MAX_QUEUE_SIZE) old ->
  deserialize_chmsgs base (length (channels l)) i m buf len
    (find_element off (item_element <$> l) URPC_TLV_TYPE_CHANNEL_MSG) (dn ++ old) =
    Some (URPC_SUCCESS, dn ++ item_ptrs off l old).
Proof.
  induction l as [|it l IH]; intros i buf len off pad dn old Ho Hpad Hok Hb Hlen -> Hold Hq; [done|].
  pose proof (items_any _ Hok) as Ha. rewrite fmap_cons in *.
  pose proof (occurs_head _ _ _ _ Ho Ha) as (Hty & Hl & Hv). pose proof (occurs_tail _ _ _ _ Ho) as Ho'.
  assert (Hlen' : buf + len = off + zlen (tlv (item_element it)) + zlen (tlvs (item_element <$> l) ++ pad))
    by (rewrite Hlen, tlvs_cons, !zlen_app; lia).
  pose proof (zlen_nonneg (tlv (item_element it))). apply Forall_cons in Hok as [Hit Hok].
  cbn [find_element item_ptrs]. destruct it as [e|c]; cbn [item_element] in *.
  - destruct Hit as [_ Hne]. rewrite (proj2 (Z.eqb_neq _ _)) by done.
    apply (IH _ buf len _ pad); try done. lia.
  - cbn [fst]. rewrite (proj2 (Z.eqb_eq _ _)) by done. change (channels (inr c :: l)) with (c :: channels l) in *.
    cbn [length deserialize_chmsgs]. rewrite Hl. cbn [mbind option_bind snd].
    destruct old as [|o old]; [cbn in Hold; lia|]. apply Forall_cons in Hq as [Hqo Hq].
    assert (Hget : zget (dn ++ o :: old) (zlen dn) = Some o).
    { rewrite zget_app_r by lia. by rewrite Z.sub_diag. }
    rewrite Hget. cbn [mbind option_bind]. rewrite (deserialize_chmsg_occurs _ c o) by done.
    cbn [mbind option_bind]. rewrite zset_app. cbn [mbind option_bind].
    rewrite (search_next_occurs buf len off _ _ pad _ Ho Hpad Ha ltac:(done) Hlen). cbn [mbind option_bind].
    replace (dn ++ chmsg_ptrs (off + TLV_HEAD_SIZE) c o :: old)
      with ((dn ++ [chmsg_ptrs (off + TLV_HEAD_SIZE) c o]) ++ old) by by rewrite <-app_assoc.
    rewrite (IH _ buf len _ pad); [by rewrite <-app_assoc|done..|lia|done|by rewrite zlen_app| |done].
    cbn in Hold. lia.
Qed.

Lemma view_items_occurs l : forall off pad old,
  occurs m off (tlvs (item_element <$> l) ++ pad) -> Forall item_ok l ->
  (length (channels l) <= length old)%nat ->
  Forall (fun o => zlen (qinfos (qinfo_arr o)) = MAX_QUEUE_SIZE) old ->
  mapM (view_chmsg m) (take (length (channels l)) (item_ptrs off l old)) = Some (chmsg_content_of <$> channels l).
Proof.
  induction l as [|it l IH]; intros off pad old Ho Hok Hold Hq; [done|].
  pose proof (items_any _ Hok) as Ha. rewrite fmap_cons in *.
  pose proof (occurs_head _ _ _ _ Ho Ha) as (Hty & Hl & Hv). pose proof (occurs_tail _ _ _ _ Ho) as Ho'.
  apply Forall_cons in Hok as [Hit Hok]. cbn [item_ptrs]. destruct it as [e|c]; cbn [item_element] in *.
  - by apply (IH _ pad).
  - change (channels (inr c :: l)) with (c :: channels l) in *.
    destruct old as [|o old]; [cbn in Hold; lia|]. apply Forall_cons in Hq as [Hqo Hq].
    cbn [length take mapM fmap list_fmap]. rewrite (view_chmsg_occurs _ c o) by done. cbn [mbind option_bind].
    rewrite (IH _ pad); [done..| |done]. cbn in Hold. lia.
Qed.

(** ** Outermost elements *)

(** The message element of type [ty] among others. *)
Record outer_layout := { ol_pre : list element; ol_post : list element; ol_pad : list Z }.

Definition outer_bytes (ty : Z) (o : outer_layout) (v : list Z) : list Z :=
  tlvs (ol_pre o ++ (ty, v) :: ol_post o) ++ ol_pad o.

Definition outer_ok (ty : Z) (o : outer_layout) : Prop :=
  others ty (ol_pre o) /\ any (ol_post o) /\ zlen (ol_pad o) < TLV_HEAD_SIZE.

Lemma outer_occurs off ty o v :
  in_u32 ty -> outer_ok ty o -> occurs m off (outer_bytes ty o v) ->
  let head := off + zlen (tlvs (ol_pre o)) in
  urpc_tlv_search_element base m off (zlen (outer_bytes ty o v)) ty = Some (Some head) /\
  tlv_len m head = Some (zlen v) /\ occurs m (head + TLV_HEAD_SIZE) v.
Proof.
  intros Hty (H1 & H2 & Hpad) Ho head.
  assert (Ha1 : any ((ty, v) :: ol_post o)) by (by apply Forall_cons).
  assert (Ha : any (ol_pre o ++ (ty, v) :: ol_post o)).
  { apply Forall_app. split; [|done]. eapply Forall_impl; [exact H1|]. by intros ? []. }
  pose proof (search_occurs _ _ _ ty Ho Hpad Ha) as Hs.
  rewrite find_element_skip in Hs by (done || by apply others_ne).
  apply occurs_skip in Ho. pose proof (occurs_head _ _ _ _ Ho Ha1) as (_ & ? & ?). done.
Qed.

Lemma load_attach_info_occurs p k s ext :
  occurs m p (attach_info_bytes k s ++ ext) -> 0 <= k < 2 ^ 64 -> in_u32 s -> load_attach_info m p = Some (k, s).
Proof.
  intros Ho Hk Hs. unfold attach_info_bytes, le64 in Ho. rewrite <-!app_assoc in Ho.
  apply occurs_app in Ho as [Ho1 Ho]. rewrite zlen_le32 in Ho.
  apply occurs_app in Ho as [Ho2 Ho]. rewrite zlen_le32 in Ho.
  apply occurs_app in Ho as [Ho3 _]. rewrite <-Z.add_assoc in Ho3. change (4 + 4) with 8 in Ho3.
  unfold load_attach_info, load64.
  rewrite (occurs_load32 _ p (k mod 2 ^ 32)), (occurs_load32 _ (p + 4) (k / 2 ^ 32)), (occurs_load32 _ _ s)
    by (done || zmod).
  cbn [mbind option_bind]. do 2 f_equal. zmod.
Qed.

End Parse.

(** ** Attach and connect messages *)

(** The value of an attach or connect message: its record, possibly longer,
    and the array of channel messages. *)
Record chmsgs_layout := {
  ml_outer : outer_layout; ml_pre : list element; ml_ext : list Z; ml_mid : list element;
  ml_items : list carr_item; ml_arr_pad : list Z; ml_post : list element; ml_pad : list Z }.

Definition msg_pair (info : list Z) (l : chmsgs_layout) : pair_layout :=
  {| pl_pre := ml_pre l; pl_info := info ++ ml_ext l; pl_mid := ml_mid l;
     pl_arr := carr_bytes (ml_items l) (ml_arr_pad l); pl_post := ml_post l; pl_pad := ml_pad l |}.

Definition msg_bytes (ty info_ty : Z) (info : list Z) (l : chmsgs_layout) : list Z :=
  outer_bytes ty (ml_outer l) (pair_bytes info_ty (msg_pair info l)).

Definition msg_ok (ty info_ty limit : Z) (info : list Z) (l : chmsgs_layout) : Prop :=
  outer_ok ty (ml_outer l) /\ pair_ok info_ty (msg_pair info l) /\ Forall item_ok (ml_items l) /\
  zlen (ml_arr_pad l) < TLV_HEAD_SIZE /\ zlen (channels (ml_items l)) <= limit.

(** Where the message's value starts, and its record. *)
Definition msg_at (l : chmsgs_layout) : Z := zlen (tlvs (ol_pre (ml_outer l))) + TLV_HEAD_SIZE.
Definition msg_info_at (info : list Z) (l : chmsgs_layout) : Z := pair_info_at (msg_at l) (msg_pair info l).
Definition msg_arr_at (info_ty : Z) (info : list Z) (l : chmsgs_layout) : Z :=
  pair_arr_at (msg_at l) info_ty (msg_pair info l).

(** What the layout says, in the order of the channel messages. *)
Definition msg_contents (l : chmsgs_layout) : list chmsg_content := chmsg_content_of <$> channels (ml_items l).

Definition chmsgs_ready (limit : Z) (l : list urpc_chmsg_v1) : Prop :=
  limit <= zlen l /\ Forall (fun o => zlen (qinfos (qinfo_arr o)) = MAX_QUEUE_SIZE) l.

Lemma occurs_whole m : occurs m 0 m.
Proof. unfold occurs, read_bytes. rewrite (proj2 (Z.leb_le _ _)), (proj2 (Z.leb_le _ _)) by (apply zlen_nonneg || lia).
  rewrite Z.add_0_l, Z.leb_refl. simpl. unfold zlen. rewrite Nat2Z.id. f_equal. apply take_ge. lia.
Qed.

Section Messages.
Context (base ty info_ty limit : Z) (info : list Z) (l : chmsgs_layout).
Let m := msg_bytes ty info_ty info l.
Hypothesis Hplaced : buffer_placed base m.
Hypothesis Hty : in_u32 ty.
Hypothesis Hinfo_ty : in_u32 info_ty.
Hypothesis Hlimit : limit < 2 ^ 32.
Hypothesis Hok : msg_ok ty info_ty limit info l.

(** The walk from the buffer to the record and the array. *)
Lemma msg_walk :
  let head := msg_at l - TLV_HEAD_SIZE in
  let rec := msg_info_at info l - TLV_HEAD_SIZE in
  let arr := msg_arr_at info_ty info l - TLV_HEAD_SIZE in
  let len := zlen (pair_bytes info_ty (msg_pair info l)) in
  urpc_tlv_search_element base m 0 (zlen m) ty = Some (Some head) /\ tlv_len m head = Some len /\
  urpc_tlv_search_element base m (head + TLV_HEAD_SIZE) len info_ty = Some (Some rec) /\
  tlv_len m rec = Some (zlen (info ++ ml_ext l)) /\ occurs m (rec + TLV_HEAD_SIZE) (info ++ ml_ext l) /\
  urpc_tlv_search_next_element base m rec (urpc_tlv_get_left_len (head + TLV_HEAD_SIZE) len rec)
    URPC_TLV_TYPE_ARRAY = Some (Some arr) /\
  tlv_len m arr = Some (zlen (carr_bytes (ml_items l) (ml_arr_pad l))) /\
  occurs m (arr + TLV_HEAD_SIZE) (carr_bytes (ml_items l) (ml_arr_pad l)) /\ 0 <= arr.
Proof.
  destruct Hok as (Ho & Hp & _). intros head rec arr len.
  destruct (outer_occurs base m Hplaced 0 ty (ml_outer l) (pair_bytes info_ty (msg_pair info l)) Hty Ho (occurs_whole m))
    as (Hs & Hl & Hv).
  assert (Hh : 0 + zlen (tlvs (ol_pre (ml_outer l))) = head) by (unfold head, msg_at; lia). rewrite Hh in *.
  destruct (pair_occurs base m Hplaced _ info_ty _ Hinfo_ty Hp Hv) as (Hs1 & Hn & Hl1 & Hv1 & Hl2 & Hv2 & H0).
  assert (Hm : head + TLV_HEAD_SIZE = msg_at l) by (unfold head; lia).
  assert (Hr : rec + TLV_HEAD_SIZE = msg_info_at info l) by (unfold rec; lia).
  assert (Har : arr + TLV_HEAD_SIZE = msg_arr_at info_ty info l) by (unfold arr; lia).
  rewrite Hr, Har, Hm in *. done.
Qed.

Lemma msg_array old :
  chmsgs_ready limit old ->
  let arr := msg_arr_at info_ty info l - TLV_HEAD_SIZE in
  let n := zlen (channels (ml_items l)) in
  let data := tlvs (item_element <$> ml_items l) ++ ml_arr_pad l in
  tlv_arr_num m arr = Some n /\ urpc_tlv_arr_get_user_data_len m arr = Some (zlen data) /\
  (exists cur, urpc_tlv_search_element base m (arr + TLV_ARR_HEAD_SIZE) (zlen data) URPC_TLV_TYPE_CHANNEL_MSG =
     Some cur /\
   deserialize_chmsgs base (Z.to_nat n) 0 m (arr + TLV_ARR_HEAD_SIZE) (zlen data) cur old =
     Some (URPC_SUCCESS, item_ptrs (msg_arr_at info_ty info l + 4) (ml_items l) old)) /\
  mapM (view_chmsg m) (take (Z.to_nat n) (item_ptrs (msg_arr_at info_ty info l + 4) (ml_items l) old)) =
    Some (msg_contents l).
Proof.
  intros [Hold Hq] arr n data. destruct Hok as (_ & _ & Hit & Hpad & Hn).
  destruct msg_walk as (_ & _ & _ & _ & _ & _ & Hl & Hv & H0). fold arr in Hl, Hv, H0.
  pose proof (zlen_nonneg (channels (ml_items l))) as Hn0.
  destruct (occurs_array base m Hplaced arr n data Hv ltac:(unfold n; lia) Hl) as (Hnum & Hod & Hdl).
  assert (Harr : msg_arr_at info_ty info l + 4 = arr + TLV_ARR_HEAD_SIZE)
    by (unfold arr, TLV_ARR_HEAD_SIZE, TLV_HEAD_SIZE; lia).
  assert (Hto : Z.to_nat n = length (channels (ml_items l))) by apply Nat2Z.id.
  rewrite Harr, !Hto. split_and!; [done..| |].
  - eexists. split; [apply (search_occurs base m Hplaced _ _ _ _ Hod Hpad), items_any, Hit|].
    apply (deserialize_chmsgs_occurs base m Hplaced _ 0 _ _ _ (ml_arr_pad l) [] old); try done.
    + unfold TLV_ARR_HEAD_SIZE. lia.
    + unfold zlen in *. lia.
  - apply (view_items_occurs base m Hplaced _ _ (ml_arr_pad l)); try done. unfold zlen in *. lia.
Qed.

End Messages.

Definition attach_bytes (k s : Z) (l : chmsgs_layout) : list Z :=
  msg_bytes URPC_TLV_TYPE_ATTACH_MSG URPC_TLV_TYPE_ATTACH_INFO (attach_info_bytes k s) l.

Definition attach_ok (k s : Z) (l : chmsgs_layout) : Prop :=
  msg_ok URPC_TLV_TYPE_ATTACH_MSG URPC_TLV_TYPE_ATTACH_INFO CHANNEL_INFO_MAX_NUM (attach_info_bytes k s) l /\
  0 <= k < 2 ^ 64 /\ in_u32 s.

(** The message structure the deserializer leaves. *)
Definition attach_ptrs (k s : Z) (l : chmsgs_layout) (data : urpc_attach_msg_v1) : urpc_attach_msg_v1 :=
  let info := attach_info_bytes k s in
  {| attach_buffer := attach_buffer data; attach_len := attach_len data;
     attach_info := Some (msg_info_at info l);
     attach_chmsg_arr := carr_ptrs (msg_arr_at URPC_TLV_TYPE_ATTACH_INFO info l) (ml_items l)
                           (chmsgs (attach_chmsg_arr data)) |}.

Definition attach_ready (data : urpc_attach_msg_v1) : Prop :=
  chmsgs_ready CHANNEL_INFO_MAX_NUM (chmsgs (attach_chmsg_arr data)).

Lemma attach_deserialize_layout base k s l data :
  buffer_placed base (attach_bytes k s l) -> attach_ok k s l -> attach_ready data ->
  attach_buffer data = Some (attach_bytes k s l) -> attach_len data = zlen (attach_bytes k s l) ->
  urpc_attach_msg_v1_deserialize base data = Some (URPC_SUCCESS, attach_ptrs k s l data) /\
  view_attach (attach_ptrs k s l data) = Some (k, s, msg_contents l).
Proof.
  intros Hp (Hok & Hk & Hs) Hr Hb Hlen. unfold attach_bytes in *.
  destruct (msg_walk base URPC_TLV_TYPE_ATTACH_MSG URPC_TLV_TYPE_ATTACH_INFO CHANNEL_INFO_MAX_NUM _ _ Hp ltac:(done) ltac:(done) Hok)
    as (H1 & H2 & H3 & H4 & H5 & H6 & H7 & H8 & _).
  destruct (msg_array base URPC_TLV_TYPE_ATTACH_MSG URPC_TLV_TYPE_ATTACH_INFO CHANNEL_INFO_MAX_NUM _ _ Hp ltac:(done) ltac:(done) ltac:(done) Hok _ Hr)
    as (Hnum & Hdl & (cur & Hs1 & Hd) & Hv).
  set (b := msg_bytes _ _ _ _) in *.
  split.
  - unfold urpc_attach_msg_v1_deserialize. rewrite Hb, Hlen. unfold attach_msg_v1_deserialize_attach_msg.
    rewrite H1. cbn [mbind option_bind]. rewrite H2. cbn [mbind option_bind]. rewrite H3. cbn [mbind option_bind].
    rewrite H6. cbn [mbind option_bind]. unfold attach_msg_v1_deserialize_chmsg_arr.
    rewrite Hnum, Hdl. cbn [mbind option_bind]. destruct Hok as (_ & _ & _ & _ & Hn).
    rewrite (proj2 (Z.ltb_ge _ _)) by done. rewrite Hs1. cbn [mbind option_bind]. rewrite Hd.
    cbn [mbind option_bind negb Z.eqb URPC_SUCCESS]. rewrite Z.sub_add. done.
  - unfold view_attach, attach_ptrs, carr_ptrs, view_chmsgs.
    cbn [attach_buffer attach_info attach_chmsg_arr chmsg_num chmsgs]. rewrite Hb. cbn [mbind option_bind].
    rewrite Z.sub_add in H5. rewrite (load_attach_info_occurs _ _ k s (ml_ext l)) by done.
    cbn [mbind option_bind]. rewrite Hv. done.
Qed.

(** The connect message: the record is the key of the client. *)
Lemma load_key_occurs m p eid pid ext :
  occurs m p (key_bytes eid pid ++ ext) -> zlen eid = SIZEOF_EID -> in_u32 pid ->
  load_key m p = Some {| key_eid := eid; key_pid := pid |}.
Proof.
  intros Ho He Hp. unfold key_bytes in Ho. rewrite <-!app_assoc in Ho. apply occurs_app in Ho as [Hoe Ho].
  apply occurs_app in Ho as [Hop _]. unfold load_key. unfold occurs in Hoe. rewrite He in *. rewrite Hoe.
  by rewrite (occurs_load32 _ (p + 16) _ Hp Hop).
Qed.

Definition view_connect (data : urpc_connect_msg) : option (urpc_instance_key * list chmsg_content) :=
  m ← connect_buffer data; p ← connect_info data; k ← load_key m p;
  cs ← view_chmsgs m (connect_chmsg_arr data); Some (k, cs).

Definition connect_bytes (k : urpc_instance_key) (l : chmsgs_layout) : list Z :=
  msg_bytes URPC_TLV_TYPE_CONNECT_MSG URPC_TLV_TYPE_CONNECT_INFO (key_bytes (key_eid k) (key_pid k)) l.

Definition connect_ok (k : urpc_instance_key) (l : chmsgs_layout) : Prop :=
  msg_ok URPC_TLV_TYPE_CONNECT_MSG URPC_TLV_TYPE_CONNECT_INFO URPC_MAX_CLIENT_CHANNELS_PER_CLIENT
    (key_bytes (key_eid k) (key_pid k)) l /\ zlen (key_eid k) = SIZEOF_EID /\ in_u32 (key_pid k).

Definition connect_ptrs (k : urpc_instance_key) (l : chmsgs_layout) (data : urpc_connect_msg) : urpc_connect_msg :=
  let info := key_bytes (key_eid k) (key_pid k) in
  {| connect_buffer := connect_buffer data; connect_len := connect_len data;
     connect_info := Some (msg_info_at info l);
     connect_chmsg_arr := carr_ptrs (msg_arr_at URPC_TLV_TYPE_CONNECT_INFO info l) (ml_items l)
                            (chmsgs (connect_chmsg_arr data)) |}.

Lemma msg_ok_limit ty info_ty limit info l :
  msg_ok ty info_ty limit info l -> msg_ok ty info_ty (zlen (channels (ml_items l))) info l.
Proof. intros (? & ? & ? & ? & _). done. Qed.

Section Connect.
Context (base : Z) (k : urpc_instance_key) (l : chmsgs_layout).
Hypothesis Hplaced : buffer_placed base (connect_bytes k l).
Hypothesis Hok : connect_ok k l.

Lemma connect_deserialize_layout data :
  chmsgs_ready (zlen (channels (ml_items l))) (chmsgs (connect_chmsg_arr data)) ->
  connect_buffer data = Some (connect_bytes k l) -> connect_len data = zlen (connect_bytes k l) ->
  urpc_connect_msg_deserialize base data = Some (URPC_SUCCESS, connect_ptrs k l data) /\
  view_connect (connect_ptrs k l data) = Some (k, msg_contents l).
Proof.
  intros Hr Hb Hlen. destruct Hok as (Hm & He & Hpid). unfold connect_bytes in *.
  pose proof (msg_ok_limit _ _ _ _ _ Hm) as Hm'.
  assert (Hn : zlen (channels (ml_items l)) < 2 ^ 32).
  { destruct Hm as (_ & _ & _ & _ & Hn). unfold URPC_MAX_CLIENT_CHANNELS_PER_CLIENT in Hn. lia. }
  destruct (msg_walk base URPC_TLV_TYPE_CONNECT_MSG URPC_TLV_TYPE_CONNECT_INFO _ _ _ Hplaced
    ltac:(done) ltac:(done) Hm') as (H1 & H2 & H3 & H4 & H5 & H6 & H7 & H8 & _).
  destruct (msg_array base URPC_TLV_TYPE_CONNECT_MSG URPC_TLV_TYPE_CONNECT_INFO _ _ _ Hplaced
    ltac:(done) ltac:(done) Hn Hm' _ Hr) as (Hnum & Hdl & (cur & Hs1 & Hd) & Hv).
  set (b := msg_bytes _ _ _ _) in *. split.
  - unfold urpc_connect_msg_deserialize. rewrite Hb, Hlen. unfold connect_msg_deserialize_connect_msg.
    rewrite H1. cbn [mbind option_bind]. rewrite H2. cbn [mbind option_bind]. rewrite H3. cbn [mbind option_bind].
    rewrite H4. cbn [mbind option_bind]. rewrite (proj2 (Z.ltb_ge _ _)).
    2: { rewrite zlen_app. unfold key_bytes. rewrite !zlen_app, He, zlen_le32, zlen_zeros by done.
         pose proof (zlen_nonneg (ml_ext l)). unfold SIZEOF_EID, SIZEOF_INSTANCE_KEY. lia. }
    rewrite H6. cbn [mbind option_bind]. unfold connect_msg_deserialize_chmsg_arr.
    rewrite Hnum, Hdl. cbn [mbind option_bind]. destruct (zlen (channels (ml_items l)) =? 0) eqn:E; cbn [negb].
    + breflect. rewrite E in *. cbn [mbind option_bind deserialize_chmsgs Z.to_nat] in *.
      injection Hd as Hd. cbn [negb Z.eqb URPC_SUCCESS]. unfold connect_ptrs, carr_ptrs. by rewrite E, <-Hd, Z.sub_add.
    + rewrite Hs1. cbn [mbind option_bind]. rewrite Hd.
      cbn [mbind option_bind negb Z.eqb URPC_SUCCESS]. by rewrite Z.sub_add.
  - unfold view_connect, connect_ptrs, carr_ptrs, view_chmsgs.
    cbn [connect_buffer connect_info connect_chmsg_arr chmsg_num chmsgs]. rewrite Hb. cbn [mbind option_bind].
    rewrite Z.sub_add in H5. rewrite (load_key_occurs _ _ _ _ _ H5 He Hpid). cbn [mbind option_bind].
    rewrite Hv. by destruct k.
Qed.

Lemma connect_count_layout :
  urpc_connect_msg_extract_channel_count base (connect_bytes k l) 0 (zlen (connect_bytes k l)) =
    Some (zlen (channels (ml_items l))).
Proof.
  destruct Hok as (Hm & He & Hpid). unfold connect_bytes in *.
  destruct (msg_walk base URPC_TLV_TYPE_CONNECT_MSG URPC_TLV_TYPE_CONNECT_INFO _ _ _ Hplaced
    ltac:(done) ltac:(done) Hm) as (H1 & H2 & H3 & _ & _ & H6 & _).
  destruct (msg_array base URPC_TLV_TYPE_CONNECT_MSG URPC_TLV_TYPE_CONNECT_INFO
    URPC_MAX_CLIENT_CHANNELS_PER_CLIENT _ _ Hplaced ltac:(done) ltac:(done) ltac:(done) Hm
    (replicate (Z.to_nat URPC_MAX_CLIENT_CHANNELS_PER_CLIENT)
      {| chinfo := None; qinfo_arr := {| qarr_num := 0; qinfos := replicate 256 None |} |})) as (Hnum & _).
  { split; [done|]. by apply Forall_replicate. }
  set (b := msg_bytes _ _ _ _) in *. unfold urpc_connect_msg_extract_channel_count.
  rewrite H1. cbn [mbind option_bind]. rewrite H2. cbn [mbind option_bind]. rewrite H3. cbn [mbind option_bind].
  rewrite H6. cbn [mbind option_bind]. rewrite Hnum. cbn [mbind option_bind].
  destruct Hm as (_ & _ & _ & _ & Hn). by rewrite (proj2 (Z.ltb_ge _ _)) by done.
Qed.

End Connect.

(** Negotiate and detach messages: one record in one message. *)
Record single_layout := {
  sl_outer : outer_layout; sl_inner : outer_layout; sl_ext : list Z }.

Definition single_bytes (ty info_ty : Z) (info : list Z) (l : single_layout) : list Z :=
  outer_bytes ty (sl_outer l) (outer_bytes info_ty (sl_inner l) (info ++ sl_ext l)).

Definition single_ok (ty info_ty : Z) (l : single_layout) : Prop :=
  outer_ok ty (sl_outer l) /\ outer_ok info_ty (sl_inner l).

Definition single_at (l : single_layout) : Z :=
  zlen (tlvs (ol_pre (sl_outer l))) + TLV_HEAD_SIZE + zlen (tlvs (ol_pre (sl_inner l))) + TLV_HEAD_SIZE.

Lemma single_walk base ty info_ty info l :
  let m := single_bytes ty info_ty info l in
  buffer_placed base m -> in_u32 ty -> in_u32 info_ty -> single_ok ty info_ty l ->
  exists head len,
    urpc_tlv_search_element base m 0 (zlen m) ty = Some (Some head) /\ tlv_len m head = Some len /\
    urpc_tlv_search_element base m (head + TLV_HEAD_SIZE) len info_ty =
      Some (Some (single_at l - TLV_HEAD_SIZE)) /\
    tlv_len m (single_at l - TLV_HEAD_SIZE) = Some (zlen (info ++ sl_ext l)) /\
    occurs m (single_at l) (info ++ sl_ext l).
Proof.
  intros m Hp H1 H2 [Ho Hi].
  destruct (outer_occurs base m Hp 0 ty _ _ H1 Ho (occurs_whole m)) as (Hs & Hl & Hv).
  destruct (outer_occurs base m Hp _ info_ty _ _ H2 Hi Hv) as (Hs1 & Hl1 & Hv1).
  eexists _, _. split_and!; [exact Hs|exact Hl| | |].
  - rewrite Hs1. do 2 f_equal. unfold single_at. lia.
  - rewrite <-Hl1. f_equal. unfold single_at. lia.
  - replace (single_at l) with (0 + zlen (tlvs (ol_pre (sl_outer l))) + TLV_HEAD_SIZE +
      zlen (tlvs (ol_pre (sl_inner l))) + TLV_HEAD_SIZE) by (unfold single_at; lia). done.
Qed.

(** ** Compatibility with later versions *)

Definition received_attach (m : list Z) : urpc_attach_msg_v1 :=
  {| attach_buffer := Some m; attach_len := zlen m; attach_info := None;
     attach_chmsg_arr := zero_chmsgs CHANNEL_INFO_MAX_NUM |}.

Lemma zero_attach_ready m : attach_ready (received_attach m).
Proof. split; [done|]. by apply Forall_replicate. Qed.

(** C31: a message of a later version is understood.  Elements of types this
    version does not look for, anywhere between the known ones, and records
    longer than this version's are skipped: the deserializer succeeds and the
    message reads as the fields this version knows. *)
Theorem attach_forward_compatible base k s l :
  buffer_placed base (attach_bytes k s l) -> attach_ok k s l ->
  exists data, urpc_attach_msg_v1_deserialize base (received_attach (attach_bytes k s l)) = Some (URPC_SUCCESS, data) /\
    view_attach data = Some (k, s, msg_contents l).
Proof.
  intros Hp Hok. eexists.
  by apply (attach_deserialize_layout base k s l _ Hp Hok (zero_attach_ready _)).
Qed.

(** A message with an unknown element in every place, longer records and two
    queues between which a third element lies. *)
Definition extended_message : chmsgs_layout :=
  let x := (99, [1; 2; 3]) in
  let q b := (URPC_TLV_TYPE_QUEUE_INFO, replicate 80 b) in
  {| ml_outer := {| ol_pre := [x]; ol_post := [x]; ol_pad := [7] |}; ml_pre := [x]; ml_ext := [5; 5]; ml_mid := [x];
     ml_items := [inl x; inr {| cl_pre := [x]; cl_info := {| ci_eid := replicate 16 3; ci_pid := 11; ci_cap := 1;
                                                             ci_attr := 0; ci_chid := 12; ci_server_chid := 13 |};
                                cl_ext := [9]; cl_mid := [x];
                                cl_arr := {| ql_num := 2; ql_elems := [q 1; x; q 2]; ql_pad := [] |};
                                cl_post := [x]; cl_pad := [] |}; inl x];
     ml_arr_pad := []; ml_post := [x]; ml_pad := [0; 0] |}.

Lemma attach_forward_compatible_witness :
  attach_ok 1000 77 extended_message /\
  exists data, urpc_attach_msg_v1_deserialize 4096 (received_attach (attach_bytes 1000 77 extended_message)) =
      Some (URPC_SUCCESS, data) /\
    view_attach data = Some (1000, 77, [({| ci_eid := replicate 16 3; ci_pid := 11; ci_cap := 1; ci_attr := 0;
      ci_chid := 12; ci_server_chid := 13 |}, [replicate 72 1; replicate 72 2])]).
Proof.
  assert (Hok : attach_ok 1000 77 extended_message).
  { repeat split; try done.
    all: repeat (apply Forall_cons; split; [split; done || done|]); try apply Forall_nil_2.
    apply Forall_cons. split; [|apply Forall_singleton; done].
    repeat split; try done.
    all: repeat (apply Forall_cons; split; [split; done || done|]); try apply Forall_nil_2.
    apply (bool_decide_unpack _). by vm_compute. }
  split; [exact Hok|].
  exact (attach_forward_compatible 4096 1000 77 extended_message ltac:(by vm_compute) Hok).
Defined.
