(* ===== verification/CpCompatRound.v ===== *)
(** * Round trips of the control-path messages

    The serializers of [CpCompat] fill the buffer they allocate exactly with
    the layout drawn in cp_vers_compat.c, and the deserializers get back from
    it what was serialized: the structures the serializer left beside the
    buffer and, through their pointers, the fields of the input. *)

From S2P Require Import Prelude Memory Tlv CpCompat CpCompatParse.

(** ** Writing into a buffer made of blocks *)

Lemma write_here u w off y : off = 0 -> zlen u = zlen y -> write_bytes (u ++ w) off y = Some (y ++ w).
Proof.
  intros -> Hl. unfold write_bytes. pose proof (zlen_nonneg w). rewrite zlen_app.
  rewrite (proj2 (Z.leb_le (0 + zlen y) _)) by lia. simpl. unfold zlen in Hl. do 2 f_equal.
  apply Nat2Z.inj in Hl. by rewrite <-Hl, drop_app_length.
Qed.

Lemma write_skip u w off y :
  zlen u <= off -> write_bytes (u ++ w) off y = (r ← write_bytes w (off - zlen u) y; Some (u ++ r)).
Proof.
  intros Hl. unfold write_bytes. pose proof (zlen_nonneg u). rewrite zlen_app.
  rewrite (proj2 (Z.leb_le 0 off)), (proj2 (Z.leb_le 0 (off - _))) by lia.
  destruct (Z.leb_spec (off + zlen y) (zlen u + zlen w)), (Z.leb_spec (off - zlen u + zlen y) (zlen w)); try lia;
    simpl; [|done].
  f_equal. unfold zlen in *. replace (Z.to_nat off) with (length u + Z.to_nat (off - Z.of_nat (length u)))%nat by lia.
  rewrite take_app_add, <-app_assoc. do 2 f_equal.
  rewrite <-Nat.add_assoc. by rewrite drop_app_add.
Qed.

Lemma load_here v w off : off = 0 -> in_u32 v -> load32 (le32 v ++ w) off = Some v.
Proof.
  intros -> Hv. apply occurs_load32; [done|]. unfold occurs, read_bytes. rewrite zlen_app, !zlen_le32.
  pose proof (zlen_nonneg w). by rewrite (proj2 (Z.leb_le (0 + 4) _)) by lia.
Qed.

Lemma load_skip u w off : zlen u <= off -> load32 (u ++ w) off = load32 w (off - zlen u).
Proof.
  intros Hl. unfold load32, read_bytes. pose proof (zlen_nonneg u). rewrite zlen_app.
  rewrite (proj2 (Z.leb_le 0 off)), (proj2 (Z.leb_le 0 (off - _))) by lia.
  destruct (Z.leb_spec (off + 4) (zlen u + zlen w)), (Z.leb_spec (off - zlen u + 4) (zlen w)); try lia;
    simpl; [|done].
  unfold zlen in *. replace (Z.to_nat off) with (length u + Z.to_nat (off - Z.of_nat (length u)))%nat by lia.
  by rewrite drop_app_add.
Qed.

Lemma occurs_block a v b : occurs (a ++ v ++ b) (zlen a) v.
Proof.
  unfold occurs, read_bytes. pose proof (zlen_nonneg a). pose proof (zlen_nonneg b). pose proof (zlen_nonneg v).
  rewrite !zlen_app, !(proj2 (Z.leb_le _ _)) by lia. simpl. unfold zlen. rewrite !Nat2Z.id.
  by rewrite drop_app_length, take_app_length.
Qed.

Lemma split_block (x : list Z) p q : zlen x = p + q -> 0 <= p -> 0 <= q -> exists u v, x = u ++ v /\ zlen u = p /\ zlen v = q.
Proof.
  intros Hx Hp Hq. exists (take (Z.to_nat p) x), (drop (Z.to_nat p) x). rewrite take_drop.
  unfold zlen in *. rewrite length_take, length_drop. split_and!; [done|lia|lia].
Qed.

Lemma zeros_add p q : 0 <= p -> 0 <= q -> zeros (p + q) = zeros p ++ zeros q.
Proof. intros. unfold zeros. rewrite Z2Nat.inj_add by lia. apply replicate_add. Qed.

Lemma store_block m off v : store32 m off v = write_bytes m off (le32 (u32 v)).
Proof. done. Qed.

Lemma tlv_len_here e w off : off = 0 -> element_ok e -> tlv_len (tlv e ++ w) off = Some (zlen e.2).
Proof.
  intros -> He. destruct (occurs_tlv (tlv e ++ w) 0 e He) as (_ & Hl & _); [|done].
  exact (occurs_block [] (tlv e) w).
Qed.

Lemma tlv_len_skip u w off : zlen u <= off -> tlv_len (u ++ w) off = tlv_len w (off - zlen u).
Proof. intros. unfold tlv_len. rewrite load_skip by lia. f_equal. lia. Qed.

(** Lengths of the blocks, and arithmetic over them. *)
Ltac blocks :=
  repeat rewrite zlen_app in *; repeat rewrite zlen_tlv in *; repeat rewrite zlen_le32 in *;
  repeat rewrite zlen_zeros in * by done;
  cbn [fst snd] in *;
  unfold TLV_HEAD_SIZE, TLV_ARR_HEAD_SIZE, SIZEOF_CRYPTO_KEY, SIZEOF_EID, SIZEOF_INSTANCE_KEY, SIZEOF_CHINFO,
    SIZEOF_ATTACH_INFO, SIZEOF_DETACH_INFO, SIZEOF_QUEUE_INFO, SIZEOF_MEM_INFO in *; lia.

(** One write into a right-nested concatenation of blocks. *)
Ltac put :=
  try rewrite store_block;
  repeat (rewrite write_skip by blocks);
  rewrite write_here by blocks;
  cbn [mbind option_bind].

(** The length of an element among blocks, as the next element and the total length need it. *)
Ltac get_len :=
  unfold urpc_tlv_get_next_element, urpc_tlv_get_total_len;
  repeat (rewrite tlv_len_skip by blocks);
  rewrite tlv_len_here by first [blocks | (split; [done | blocks])];
  cbn [mbind option_bind snd].

(** ** Records and elements *)

(** A channel message: its record and its queue records. *)
Abbreviation part := (chinfo_rec * list (list Z))%type.

Section Round.
Context (pl : platform).

(** The elements of an array of records of one type. *)
Definition records (ty : Z) (rs : list (list Z)) : list element := pair ty <$> rs.

(** What the platform answers for a list of queue handles. *)
Definition queues_answer (hs : list Z) (infos : list (list Z)) : Prop :=
  Forall2 (fun h i => h <> URPC_INVALID_HANDLE /\ channel_get_local_queue_info pl h = Some i /\
                      zlen i = SIZEOF_QUEUE_INFO) hs infos.

Lemma next_block a e b :
  element_ok e -> urpc_tlv_get_next_element (a ++ tlv e ++ b) (zlen a) = Some (zlen a + zlen (tlv e)).
Proof. intros. apply next_element_tlv; [done|apply occurs_block]. Qed.

Lemma total_block a e b :
  element_ok e -> urpc_tlv_get_total_len (a ++ tlv e ++ b) (zlen a) = Some (zlen (tlv e)).
Proof. intros. apply total_len_tlv; [done|apply occurs_block]. Qed.

Lemma zget_at {A} (l k : list A) x : zget (l ++ x :: k) (zlen l) = Some x.
Proof. rewrite zget_app_r by lia. by rewrite Z.sub_diag. Qed.

Lemma serialize_qinfos_block hs infos : queues_answer hs infos -> forall i a x b qd qr dn old,
  zlen x = zlen infos * (TLV_HEAD_SIZE + SIZEOF_QUEUE_INFO) ->
  i = zlen qd -> i = zlen dn -> (length infos <= length old)%nat ->
  serialize_qinfos pl (length infos) i (a ++ x ++ b) (qd ++ hs ++ qr) (dn ++ old) (zlen a) =
    Some (URPC_SUCCESS, a ++ tlvs (records URPC_TLV_TYPE_QUEUE_INFO infos) ++ b,
          dn ++ overwrite (Some <$> positions (zlen a) (records URPC_TLV_TYPE_QUEUE_INFO infos)
                                              URPC_TLV_TYPE_QUEUE_INFO) old).
Proof.
  induction 1 as [|h info hs infos (Hh & Hq & Hl) _ IH]; intros i a x b qd qr dn old Hx -> Hi Hold.
  { change (zlen []) with 0 in Hx. apply (f_equal Z.to_nat) in Hx. unfold zlen in Hx. rewrite Nat2Z.id in Hx.
    by apply nil_length_inv in Hx as ->. }
  rewrite zlen_cons in Hx. pose proof (zlen_nonneg infos).
  destruct (split_block x 4 (zlen x - 4)) as (x1 & x' & -> & Hx1 & Hx'); [blocks..|].
  destruct (split_block x' 4 (zlen x' - 4)) as (x2 & x'' & -> & Hx2 & Hx''); [blocks..|].
  destruct (split_block x'' 72 (zlen x'' - 72)) as (x3 & x4 & -> & Hx3 & Hx4); [blocks..|].
  cbn [length serialize_qinfos]. rewrite Hi, <-Hi. cbn [app]. rewrite zget_at. cbn [mbind option_bind].
  rewrite (proj2 (Z.eqb_neq _ _)) by done. rewrite Hq. rewrite <-!app_assoc. put. put. put.
  destruct old as [|o old]; [cbn in Hold; lia|]. rewrite Hi, zset_app, <-Hi. cbn [mbind option_bind].
  set (e := (URPC_TLV_TYPE_QUEUE_INFO, info)).
  assert (He : le32 (u32 URPC_TLV_TYPE_QUEUE_INFO) ++ le32 (u32 SIZEOF_QUEUE_INFO) ++ info = tlv e)
    by (unfold tlv, e; cbn [fst snd]; by rewrite Hl).
  rewrite !(app_assoc (le32 _)), <-!app_assoc, (app_assoc (le32 (u32 SIZEOF_QUEUE_INFO))).
  rewrite (app_assoc (le32 (u32 URPC_TLV_TYPE_QUEUE_INFO))), He.
  rewrite next_block by (split; [done|unfold e; blocks]). cbn [mbind option_bind].
  specialize (IH (zlen qd + 1) (a ++ tlv e) x4 b (qd ++ [h]) qr (dn ++ [Some (zlen a + TLV_HEAD_SIZE)]) old).
  rewrite <-!app_assoc in IH. cbn [app] in IH. rewrite (zlen_app a) in IH. rewrite IH.
  - unfold records. rewrite !fmap_cons, tlvs_cons, <-!app_assoc. cbn [positions].
    change (e.1 =? URPC_TLV_TYPE_QUEUE_INFO) with true. cbn. done.
  - blocks.
  - rewrite zlen_app. done.
  - rewrite zlen_app, Hi. done.
  - cbn in Hold. lia.
Qed.

(** The queue array of the serializer: one element per queue. *)
Definition plain_qarr (infos : list (list Z)) : qarr_layout :=
  {| ql_num := zlen infos; ql_elems := records URPC_TLV_TYPE_QUEUE_INFO infos; ql_pad := [] |}.

Lemma of_type_records ty rs : of_type ty (records ty rs) = records ty rs.
Proof.
  unfold of_type, records. induction rs as [|r rs IH]; [done|]. rewrite fmap_cons, filter_cons.
  by rewrite decide_True, IH.
Qed.

Lemma length_records ty rs : length (records ty rs) = length rs.
Proof. apply length_fmap. Qed.

(** Records of the expected size are read whole. *)
Lemma take_records ty rs n :
  Forall (fun r => zlen r = n) rs -> (fun e : element => take (Z.to_nat n) e.2) <$> records ty rs = rs.
Proof.
  unfold records. intros Hs. rewrite <-list_fmap_compose. induction Hs as [|r rs Hr _ IH]; [done|].
  rewrite fmap_cons, IH. f_equal. unfold compose. cbn [snd]. apply take_ge. unfold zlen in Hr. lia.
Qed.

Lemma zlen_records ty rs n : Forall (fun r => zlen r = n) rs -> zlen (tlvs (records ty rs)) = zlen rs * (TLV_HEAD_SIZE + n).
Proof.
  unfold records. induction 1 as [|r rs Hr _ IH]; [done|].
  rewrite fmap_cons, tlvs_cons, zlen_app, zlen_tlv, zlen_cons, IH. cbn [snd]. lia.
Qed.

Lemma queues_sizes hs infos :
  queues_answer hs infos -> Forall (fun i => zlen i = SIZEOF_QUEUE_INFO) infos /\ zlen hs = zlen infos.
Proof.
  intros H. split; [|apply Forall2_length in H; unfold zlen; lia].
  induction H as [|h i hs infos (_ & _ & Hi) _ IH]; [done|by apply Forall_cons].
Qed.

Lemma zlen_plain_qarr hs infos :
  queues_answer hs infos ->
  zlen (qarr_bytes (plain_qarr infos)) = 4 + zlen infos * (TLV_HEAD_SIZE + SIZEOF_QUEUE_INFO).
Proof.
  intros [Hs _]%queues_sizes. unfold qarr_bytes, plain_qarr. cbn [ql_num ql_elems ql_pad].
  rewrite app_nil_r, zlen_app, zlen_le32. f_equal. by apply zlen_records.
Qed.

Lemma serialize_qinfo_arr_block hs infos a x b qr qa :
  queues_answer hs infos -> zlen infos <= MAX_QUEUE_SIZE -> zlen (qinfos qa) = MAX_QUEUE_SIZE ->
  zlen x = TLV_ARR_HEAD_SIZE + zlen infos * (TLV_HEAD_SIZE + SIZEOF_QUEUE_INFO) ->
  attach_msg_v1_serialize_qinfo_arr pl (a ++ x ++ b) (hs ++ qr) (zlen infos) qa (zlen a) =
    Some (URPC_SUCCESS, a ++ tlv (URPC_TLV_TYPE_ARRAY, qarr_bytes (plain_qarr infos)) ++ b,
          qarr_ptrs (zlen a + TLV_HEAD_SIZE) (plain_qarr infos) qa).
Proof.
  intros Hq Hn Hqa Hx. pose proof (zlen_nonneg infos) as H0. pose proof (zlen_plain_qarr _ _ Hq) as Hlen.
  unfold MAX_QUEUE_SIZE in *.
  destruct (split_block x 4 (zlen x - 4)) as (x1 & x' & -> & Hx1 & Hx'); [blocks..|].
  destruct (split_block x' 4 (zlen x' - 4)) as (x2 & x'' & -> & Hx2 & Hx''); [blocks..|].
  destruct (split_block x'' 4 (zlen x'' - 4)) as (x3 & x4 & -> & Hx3 & Hx4); [blocks..|].
  pose proof (serialize_qinfos_block hs infos Hq 0 (a ++ x1 ++ x2 ++ x3) x4 b [] qr [] (qinfos qa)) as Hs.
  rewrite <-!app_assoc in Hs. cbn [app] in Hs.
  replace (zlen (a ++ x1 ++ x2 ++ x3)) with (zlen a + TLV_ARR_HEAD_SIZE) in Hs by blocks.
  unfold attach_msg_v1_serialize_qinfo_arr. rewrite <-!app_assoc.
  replace (Z.to_nat (zlen infos)) with (length infos) by (unfold zlen; lia).
  rewrite Hs; [|blocks|done|done|unfold zlen in *; lia]. cbn [mbind option_bind negb Z.eqb URPC_SUCCESS].
  put. put. put. unfold urpc_tlv_arr_get_value_len_by_user_data_len.
  rewrite !(u32_small (zlen infos * _)), !(u32_small (_ - _)), !(u32_small (zlen infos)) by blocks.
  do 2 f_equal; [f_equal|].
  - unfold tlv. rewrite <-!app_assoc. do 2 f_equal. cbn [fst snd]. rewrite Hlen. unfold qarr_bytes, plain_qarr.
    cbn [ql_num ql_elems ql_pad]. rewrite app_nil_r, <-!app_assoc. do 3 f_equal. blocks.
  - unfold qarr_ptrs, plain_qarr. cbn [ql_num ql_elems]. f_equal.
    replace (zlen a + TLV_HEAD_SIZE + 4) with (zlen a + TLV_ARR_HEAD_SIZE) by blocks.
    rewrite take_ge; [done|]. rewrite length_positions, of_type_records, length_records. unfold zlen. lia.
Qed.

(** ** Channel messages *)

(** The channel record the serializer builds; the last field keeps the zero
    of the fresh buffer. *)
Definition attach_chinfo (is_server is_manage : bool) (input : urpc_chmsg_input) : option chinfo_rec :=
  '(attr, chid, eid) ← (
    if is_server then
      eid ← first_provider_eid pl;
      Some (if is_manage then URPC_ATTR_MANAGE else 0, server_channel_id input, eid)
    else
      ch ← client_channel input; eid ← ch_provider ch; Some (ch_attr ch, ch_id ch, eid));
  Some {| ci_eid := eid; ci_pid := getpid pl; ci_cap := Z.b2z (is_hwub_offload_enabled pl);
          ci_attr := attr; ci_chid := chid; ci_server_chid := 0 |}.

Lemma zeros_chinfo : zeros (TLV_HEAD_SIZE + SIZEOF_CHINFO) =
  zeros 4 ++ zeros 4 ++ zeros 16 ++ zeros 4 ++ zeros 4 ++ le32 0 ++ zeros 4 ++ zeros 4 ++ zeros 4.
Proof. done. Qed.

Lemma set_quik_reply_block u b w :
  set_quik_reply pl (u ++ le32 0 ++ b) (zlen u - 24) = w ->
  w = Some (u ++ le32 (Z.b2z (is_hwub_offload_enabled pl)) ++ b).
Proof.
  intros <-. unfold set_quik_reply. rewrite load_skip by lia. rewrite load_here by lia. cbn [mbind option_bind].
  put. do 3 f_equal. by destruct (is_hwub_offload_enabled pl).
Qed.

Lemma tlv_chinfo ci :
  chinfo_rec_ok ci ->
  tlv (URPC_TLV_TYPE_CHANNEL_INFO, chinfo_bytes ci) =
    le32 (u32 URPC_TLV_TYPE_CHANNEL_INFO) ++ le32 (u32 SIZEOF_CHINFO) ++ ci_eid ci ++ le32 (u32 (ci_pid ci)) ++
    zeros 4 ++ le32 (ci_cap ci) ++ le32 (u32 (ci_attr ci)) ++ le32 (u32 (ci_chid ci)) ++
    le32 (u32 (ci_server_chid ci)).
Proof.
  intros (He & ? & ? & ? & ? & ?). unfold tlv. cbn [fst snd]. rewrite zlen_chinfo_bytes by done.
  rewrite !(u32_small (_ ci)) by done. unfold chinfo_bytes, key_bytes. rewrite <-!app_assoc. done.
Qed.

Lemma serialize_chinfo_block is_server is_manage input ci a b :
  attach_chinfo is_server is_manage input = Some ci -> chinfo_rec_ok ci ->
  attach_msg_v1_serialize_chinfo pl (a ++ zeros (TLV_HEAD_SIZE + SIZEOF_CHINFO) ++ b) is_server is_manage input
    (zlen a) =
    Some (Some (zlen a + TLV_HEAD_SIZE), a ++ tlv (URPC_TLV_TYPE_CHANNEL_INFO, chinfo_bytes ci) ++ b).
Proof.
  intros Hci Hok. rewrite (tlv_chinfo _ Hok), zeros_chinfo, <-!app_assoc. destruct Hok as (He & _).
  unfold attach_msg_v1_serialize_chinfo.
  pose proof (set_quik_reply_block (a ++ zeros 4 ++ zeros 4 ++ zeros 16 ++ zeros 4 ++ zeros 4)
    (zeros 4 ++ zeros 4 ++ zeros 4 ++ b) _ eq_refl) as Hset.
  rewrite <-!app_assoc in Hset.
  replace (zlen _ - 24) with (zlen a + TLV_HEAD_SIZE) in Hset by blocks. rewrite Hset. clear Hset.
  cbn [mbind option_bind]. unfold attach_chinfo in Hci. destruct is_server.
  - destruct (first_provider_eid pl) as [eid|] eqn:Hp; [|done]. cbn in Hci. injection Hci as <-. cbn [ci_eid ci_pid ci_cap ci_attr ci_chid ci_server_chid mbind option_bind] in He |- *.
    put. put. unfold urpc_instance_key_fill, store_key. rewrite Hp. put. put.
    cbn [negb Z.eqb URPC_SUCCESS]. put. put. done.
  - destruct (client_channel input) as [ch|]; [|done]. cbn in Hci.
    destruct (ch_provider ch) as [eid|] eqn:Hp; [|done]. cbn in Hci. injection Hci as <-. cbn [ci_eid ci_pid ci_cap ci_attr ci_chid ci_server_chid mbind option_bind] in He |- *.
    put. put. rewrite Hp. unfold store_key. put. put. cbn [negb Z.eqb URPC_SUCCESS]. put. put. done.
Qed.

Definition plain_chmsg (ci : chinfo_rec) (infos : list (list Z)) : chmsg_layout :=
  {| cl_pre := []; cl_info := ci; cl_ext := []; cl_mid := []; cl_arr := plain_qarr infos; cl_post := []; cl_pad := [] |}.

Lemma plain_chmsg_bytes ci infos :
  chmsg_bytes (plain_chmsg ci infos) =
    tlv (URPC_TLV_TYPE_CHANNEL_INFO, chinfo_bytes ci) ++ tlv (URPC_TLV_TYPE_ARRAY, qarr_bytes (plain_qarr infos)).
Proof.
  unfold chmsg_bytes, pair_bytes, pair_elems. cbn [chmsg_pair plain_chmsg pl_pre pl_info pl_mid pl_arr pl_post
    pl_pad cl_pre cl_info cl_ext cl_mid cl_arr cl_post cl_pad app]. rewrite !app_nil_r, !tlvs_cons.
  change (tlvs []) with (@nil Z). by rewrite app_nil_r.
Qed.

Definition chmsg_size (n : Z) : Z :=
  TLV_HEAD_SIZE + (TLV_HEAD_SIZE + SIZEOF_CHINFO) + (TLV_ARR_HEAD_SIZE + n * (TLV_HEAD_SIZE + SIZEOF_QUEUE_INFO)).

(** What a channel message is built from: the record and the queue records. *)
Record chmsg_source (input : urpc_chmsg_input) (infos : list (list Z)) : Prop := {
  cs_num : q_num input = zlen infos /\ zlen infos <= MAX_QUEUE_SIZE;
  cs_queues : exists hs qr, qh input = hs ++ qr /\ queues_answer hs infos
}.

Lemma zlen_plain_chmsg input ci infos :
  chmsg_source input infos -> chinfo_rec_ok ci ->
  zlen (tlv (URPC_TLV_TYPE_CHANNEL_MSG, chmsg_bytes (plain_chmsg ci infos))) = chmsg_size (zlen infos).
Proof.
  intros [_ (hs & qr & _ & Hq)] (He & _). pose proof (zlen_plain_qarr _ _ Hq) as Hl. unfold chmsg_size.
  rewrite zlen_tlv. cbn [snd]. rewrite plain_chmsg_bytes, zlen_app, !zlen_tlv. cbn [snd].
  rewrite Hl, zlen_chinfo_bytes by done. unfold TLV_ARR_HEAD_SIZE, TLV_HEAD_SIZE. lia.
Qed.

(** The element the head fields complete, and the pointers left beside it. *)
Lemma plain_chmsg_done input ci infos a b old :
  chmsg_source input infos -> chinfo_rec_ok ci ->
  a ++ le32 (u32 URPC_TLV_TYPE_CHANNEL_MSG) ++
    le32 (u32 (u32 (u32 (TLV_HEAD_SIZE + zlen (chinfo_bytes ci)) +
                    u32 (TLV_HEAD_SIZE + zlen (qarr_bytes (plain_qarr infos)))))) ++
    tlv (URPC_TLV_TYPE_CHANNEL_INFO, chinfo_bytes ci) ++
    tlv (URPC_TLV_TYPE_ARRAY, qarr_bytes (plain_qarr infos)) ++ b =
  a ++ tlv (URPC_TLV_TYPE_CHANNEL_MSG, chmsg_bytes (plain_chmsg ci infos)) ++ b /\
  {| chinfo := Some (zlen a + TLV_HEAD_SIZE + TLV_HEAD_SIZE);
     qinfo_arr := qarr_ptrs (zlen a + TLV_HEAD_SIZE + TLV_HEAD_SIZE + zlen (chinfo_bytes ci) + TLV_HEAD_SIZE)
                    (plain_qarr infos) (qinfo_arr old) |} =
  chmsg_ptrs (zlen a + TLV_HEAD_SIZE) (plain_chmsg ci infos) old.
Proof.
  intros [[_ Hmax] (hs & qr & _ & Hq)] Hok. pose proof (zlen_plain_qarr _ _ Hq) as Hql.
  pose proof (zlen_chinfo_bytes _ (proj1 Hok)) as Hcl. pose proof (zlen_nonneg infos).
  unfold MAX_QUEUE_SIZE in *. split.
  - rewrite !(u32_small (TLV_HEAD_SIZE + zlen _)) by blocks.
    rewrite !(u32_small (TLV_HEAD_SIZE + _ + _)) by blocks.
    change (u32 URPC_TLV_TYPE_CHANNEL_MSG) with URPC_TLV_TYPE_CHANNEL_MSG.
    unfold tlv at 3. cbn [fst snd]. rewrite plain_chmsg_bytes, <-!app_assoc. do 2 f_equal.
    rewrite zlen_app, !zlen_tlv. done.
  - unfold chmsg_ptrs, pair_arr_at, pair_info_at.
    cbn [chmsg_pair plain_chmsg pl_pre pl_info pl_mid cl_pre cl_info cl_ext cl_mid cl_arr].
    rewrite app_nil_r. change (zlen (tlvs [])) with 0. by rewrite !Z.add_0_r.
Qed.

Lemma serialize_chmsg_block is_server is_manage input ci infos a b old :
  chmsg_source input infos -> attach_chinfo is_server is_manage input = Some ci -> chinfo_rec_ok ci ->
  zlen (qinfos (qinfo_arr old)) = MAX_QUEUE_SIZE ->
  attach_msg_v1_serialize_chmsg pl (a ++ zeros (chmsg_size (zlen infos)) ++ b) is_server is_manage input old (zlen a) =
    Some (URPC_SUCCESS, a ++ tlv (URPC_TLV_TYPE_CHANNEL_MSG, chmsg_bytes (plain_chmsg ci infos)) ++ b,
          chmsg_ptrs (zlen a + TLV_HEAD_SIZE) (plain_chmsg ci infos) old).
Proof.
  intros Hsrc Hci Hok Hold. destruct Hsrc as [[Hn Hmax] (hs & qr & Hqh & Hq)]. pose proof (zlen_nonneg infos) as H0.
  pose proof (zlen_plain_qarr _ _ Hq) as Hql. pose proof (zlen_chinfo_bytes _ (proj1 Hok)) as Hcl.
  set (x := TLV_ARR_HEAD_SIZE + zlen infos * (TLV_HEAD_SIZE + SIZEOF_QUEUE_INFO)).
  assert (Hx : 0 <= x) by (unfold x; blocks).
  replace (chmsg_size (zlen infos)) with (4 + (4 + ((TLV_HEAD_SIZE + SIZEOF_CHINFO) + x)))
    by (unfold chmsg_size, x; blocks).
  rewrite !(zeros_add 4), (zeros_add (TLV_HEAD_SIZE + _)) by (done || blocks). rewrite <-!app_assoc.
  unfold attach_msg_v1_serialize_chmsg, MAX_QUEUE_SIZE in *.
  pose proof (serialize_chinfo_block _ _ _ _ (a ++ zeros 4 ++ zeros 4) (zeros x ++ b) Hci Hok) as Hs.
  rewrite <-!app_assoc in Hs. replace (zlen (a ++ _)) with (zlen a + TLV_HEAD_SIZE) in Hs by blocks.
  rewrite Hs. clear Hs. cbn [mbind option_bind]. rewrite bool_decide_eq_false_2 by done.
  get_len. rewrite Hqh, Hn.
  pose proof (serialize_qinfo_arr_block hs infos (a ++ zeros 4 ++ zeros 4 ++
    tlv (URPC_TLV_TYPE_CHANNEL_INFO, chinfo_bytes ci)) (zeros x) b qr (qinfo_arr old) Hq Hmax Hold) as Hs.
  rewrite <-!app_assoc in Hs. rewrite zlen_zeros in Hs by done.
  replace (zlen (a ++ _)) with (zlen a + TLV_HEAD_SIZE + TLV_HEAD_SIZE + zlen (chinfo_bytes ci)) in Hs by blocks.
  rewrite Hs by done. clear Hs. cbn [mbind option_bind negb Z.eqb URPC_SUCCESS].
  get_len. get_len. put. put.
  destruct (plain_chmsg_done input ci infos a b old) as [-> ->]; [|done|done].
  constructor; [done|by exists hs, qr].
Qed.

(** The channel record of a connect message. *)
Definition connect_chinfo (input : urpc_chmsg_input) : option chinfo_rec :=
  ch ← client_channel input; eid ← ch_provider ch;
  Some {| ci_eid := eid; ci_pid := getpid pl; ci_cap := Z.b2z (is_hwub_offload_enabled pl);
          ci_attr := ch_attr ch; ci_chid := ch_id ch;
          ci_server_chid := default URPC_INVALID_ID_U32 (ch_server_node ch) |}.

Lemma serialize_connect_chinfo_block input ci a b :
  connect_chinfo input = Some ci -> chinfo_rec_ok ci ->
  connect_msg_serialize_chinfo pl (a ++ zeros (TLV_HEAD_SIZE + SIZEOF_CHINFO) ++ b) input (zlen a) =
    Some (Some (zlen a + TLV_HEAD_SIZE), a ++ tlv (URPC_TLV_TYPE_CHANNEL_INFO, chinfo_bytes ci) ++ b).
Proof.
  intros Hci Hok. rewrite (tlv_chinfo _ Hok), zeros_chinfo, <-!app_assoc. destruct Hok as (He & _).
  unfold connect_msg_serialize_chinfo.
  pose proof (set_quik_reply_block (a ++ zeros 4 ++ zeros 4 ++ zeros 16 ++ zeros 4 ++ zeros 4)
    (zeros 4 ++ zeros 4 ++ zeros 4 ++ b) _ eq_refl) as Hset.
  rewrite <-!app_assoc in Hset.
  replace (zlen _ - 24) with (zlen a + TLV_HEAD_SIZE) in Hset by blocks. rewrite Hset. clear Hset.
  cbn [mbind option_bind]. unfold connect_chinfo in Hci.
  destruct (client_channel input) as [ch|]; [|done]. cbn in Hci.
  destruct (ch_provider ch) as [eid|] eqn:Hp; [|done]. cbn in Hci. injection Hci as <-.
  cbn [ci_eid ci_pid ci_cap ci_attr ci_chid ci_server_chid mbind option_bind] in He |- *.
  put. put. put. rewrite Hp. unfold store_key. put. put. put. put. done.
Qed.

Lemma serialize_connect_chmsg_block input ci infos a b old :
  chmsg_source input infos -> connect_chinfo input = Some ci -> chinfo_rec_ok ci ->
  zlen (qinfos (qinfo_arr old)) = MAX_QUEUE_SIZE ->
  connect_msg_serialize_chmsg pl (a ++ zeros (chmsg_size (zlen infos)) ++ b) input old (zlen a) =
    Some (URPC_SUCCESS, a ++ tlv (URPC_TLV_TYPE_CHANNEL_MSG, chmsg_bytes (plain_chmsg ci infos)) ++ b,
          chmsg_ptrs (zlen a + TLV_HEAD_SIZE) (plain_chmsg ci infos) old).
Proof.
  intros Hsrc Hci Hok Hold. destruct Hsrc as [[Hn Hmax] (hs & qr & Hqh & Hq)].
  pose proof (zlen_nonneg infos) as H0.
  pose proof (zlen_plain_qarr _ _ Hq) as Hql. pose proof (zlen_chinfo_bytes _ (proj1 Hok)) as Hcl.
  set (x := TLV_ARR_HEAD_SIZE + zlen infos * (TLV_HEAD_SIZE + SIZEOF_QUEUE_INFO)).
  assert (Hx : 0 <= x) by (unfold x; blocks).
  replace (chmsg_size (zlen infos)) with (4 + (4 + ((TLV_HEAD_SIZE + SIZEOF_CHINFO) + x)))
    by (unfold chmsg_size, x; blocks).
  rewrite !(zeros_add 4), (zeros_add (TLV_HEAD_SIZE + _)) by (done || blocks). rewrite <-!app_assoc.
  unfold connect_msg_serialize_chmsg, connect_msg_serialize_qinfo_arr, MAX_QUEUE_SIZE in *.
  pose proof (serialize_connect_chinfo_block _ _ (a ++ zeros 4 ++ zeros 4) (zeros x ++ b) Hci Hok) as Hs.
  rewrite <-!app_assoc in Hs. replace (zlen (a ++ _)) with (zlen a + TLV_HEAD_SIZE) in Hs by blocks.
  rewrite Hs. clear Hs. cbn [mbind option_bind]. rewrite bool_decide_eq_false_2 by done.
  get_len. rewrite Hqh, Hn.
  pose proof (serialize_qinfo_arr_block hs infos (a ++ zeros 4 ++ zeros 4 ++
    tlv (URPC_TLV_TYPE_CHANNEL_INFO, chinfo_bytes ci)) (zeros x) b qr (qinfo_arr old) Hq Hmax Hold) as Hs.
  rewrite <-!app_assoc in Hs. rewrite zlen_zeros in Hs by done.
  replace (zlen (a ++ _)) with (zlen a + TLV_HEAD_SIZE + TLV_HEAD_SIZE + zlen (chinfo_bytes ci)) in Hs by blocks.
  rewrite Hs by done. clear Hs. cbn [mbind option_bind negb Z.eqb URPC_SUCCESS].
  put. get_len. get_len. put.
  destruct (plain_chmsg_done input ci infos a b old) as [-> ->]; [|done|done].
  constructor; [done|by exists hs, qr].
Qed.

(** ** Arrays of channel messages *)

Definition plain_items (ps : list part) : list carr_item := (fun p => inr (plain_chmsg p.1 p.2)) <$> ps.

Definition parts_size (ps : list part) : Z := foldr (fun p s => chmsg_size (zlen p.2) + s) 0 ps.

Definition part_ok (p : part) : Prop :=
  chinfo_rec_ok p.1 /\ zlen p.2 <= MAX_QUEUE_SIZE /\ Forall (fun i => zlen i = SIZEOF_QUEUE_INFO) p.2.

Lemma source_part_ok input ci infos : chmsg_source input infos -> chinfo_rec_ok ci -> part_ok (ci, infos).
Proof. intros [[_ ?] (hs & qr & _ & [? _]%queues_sizes)] ?. done. Qed.

Lemma chmsg_size_pos n : 0 <= n <= MAX_QUEUE_SIZE -> 68 <= chmsg_size n <= 20548.
Proof. unfold chmsg_size, MAX_QUEUE_SIZE. intros. blocks. Qed.

Lemma parts_size_bound ps : Forall part_ok ps -> 0 <= parts_size ps <= 20548 * zlen ps.
Proof.
  induction 1 as [|p ps (_ & Hp & _) _ IH]; [done|]. cbn [parts_size foldr]. fold (parts_size ps). rewrite zlen_cons.
  pose proof (chmsg_size_pos (zlen p.2) ltac:(pose proof (zlen_nonneg p.2); lia)). lia.
Qed.

Lemma zlen_part p : part_ok p -> zlen (tlv (item_element (inr (plain_chmsg p.1 p.2)))) = chmsg_size (zlen p.2).
Proof.
  intros ((He & _) & _ & Hs). cbn [item_element]. rewrite zlen_tlv. cbn [snd].
  rewrite plain_chmsg_bytes, zlen_app, !zlen_tlv. cbn [snd]. rewrite zlen_chinfo_bytes by done.
  unfold qarr_bytes, plain_qarr, chmsg_size. cbn [ql_num ql_elems ql_pad].
  rewrite app_nil_r, zlen_app, zlen_le32, (zlen_records _ _ _ Hs). unfold TLV_ARR_HEAD_SIZE, TLV_HEAD_SIZE. lia.
Qed.

Lemma zlen_parts ps : Forall part_ok ps -> zlen (tlvs (item_element <$> plain_items ps)) = parts_size ps.
Proof.
  unfold plain_items. induction 1 as [|p ps Hp _ IH]; [done|].
  rewrite !fmap_cons, tlvs_cons, zlen_app, IH, zlen_part by done. done.
Qed.

Lemma channels_plain ps : channels (plain_items ps) = (fun p => plain_chmsg p.1 p.2) <$> ps.
Proof. unfold channels, plain_items. induction ps as [|p ps IH]; [done|]. cbn. by rewrite <-IH. Qed.

Lemma zlen_channels_plain ps : zlen (channels (plain_items ps)) = zlen ps.
Proof. rewrite channels_plain. unfold zlen. by rewrite length_fmap. Qed.

(** The head fields of the array complete its element. *)
Lemma plain_array_done ps a b :
  Forall part_ok ps -> zlen ps < 2 ^ 16 ->
  a ++ le32 (u32 URPC_TLV_TYPE_ARRAY) ++
    le32 (u32 (urpc_tlv_arr_get_value_len_by_user_data_len (parts_size ps))) ++ le32 (u32 (zlen ps)) ++
    tlvs (item_element <$> plain_items ps) ++ b =
  a ++ tlv (URPC_TLV_TYPE_ARRAY, carr_bytes (plain_items ps) []) ++ b.
Proof.
  intros Hok Hn. pose proof (parts_size_bound _ Hok). pose proof (zlen_nonneg ps).
  unfold urpc_tlv_arr_get_value_len_by_user_data_len. rewrite !(u32_small (_ - _)), (u32_small (zlen ps)) by blocks.
  unfold tlv. cbn [fst snd]. unfold carr_bytes. rewrite zlen_channels_plain, app_nil_r, <-!app_assoc.
  do 3 f_equal. rewrite zlen_app, zlen_parts, zlen_le32 by done. f_equal. blocks.
Qed.

Lemma element_ok_part p : part_ok p -> element_ok (item_element (inr (plain_chmsg p.1 p.2))).
Proof.
  intros Hp. split; [done|]. pose proof (zlen_part _ Hp) as Hl. rewrite zlen_tlv in Hl.
  destruct Hp as (_ & Hp & _). pose proof (chmsg_size_pos (zlen p.2) ltac:(pose proof (zlen_nonneg p.2); lia)).
  blocks.
Qed.

(** ** The attach message *)

(** A channel message of the input and what it is serialized to. *)
Definition attach_part (is_server is_manage : bool) (input : urpc_chmsg_input) (p : part) : Prop :=
  chmsg_source input p.2 /\ attach_chinfo is_server is_manage input = Some p.1 /\ chinfo_rec_ok p.1.

(** The manage channel is sent when it has queues, in front of the user channel. *)
Definition attach_parts (input : urpc_attach_msg_input) (g : option part) (u : part) : Prop :=
  attach_part (is_server input) false (user input) u /\
  match g with
  | None => q_num (manage input) = 0
  | Some g => attach_part (is_server input) true (manage input) g /\ 0 < zlen g.2
  end.

Definition parts (g : option part) (u : part) : list part := option_list g ++ [u].

Lemma attach_parts_ok input g u : attach_parts input g u -> Forall part_ok (parts g u).
Proof.
  intros [(Hs & _ & Hok) Hg]. apply Forall_app. split.
  - destruct g as [g|]; [|done]. destruct Hg as [(Hs' & _ & Hok') _]. apply Forall_singleton.
    destruct g. by eapply source_part_ok.
  - apply Forall_singleton. destruct u. by eapply source_part_ok.
Qed.

Lemma serialize_part_block srv mng input p a b old :
  attach_part srv mng input p -> zlen (qinfos (qinfo_arr old)) = MAX_QUEUE_SIZE ->
  attach_msg_v1_serialize_chmsg pl (a ++ zeros (chmsg_size (zlen p.2)) ++ b) srv mng input old (zlen a) =
    Some (URPC_SUCCESS, a ++ tlv (item_element (inr (plain_chmsg p.1 p.2))) ++ b,
          chmsg_ptrs (zlen a + TLV_HEAD_SIZE) (plain_chmsg p.1 p.2) old).
Proof. intros (Hs & Hc & Hok) Hold. by apply serialize_chmsg_block. Qed.

(** The same with the offset named. *)
Lemma serialize_part_at srv mng input p a b old off :
  attach_part srv mng input p -> zlen (qinfos (qinfo_arr old)) = MAX_QUEUE_SIZE -> off = zlen a ->
  attach_msg_v1_serialize_chmsg pl (a ++ zeros (chmsg_size (zlen p.2)) ++ b) srv mng input old off =
    Some (URPC_SUCCESS, a ++ tlv (item_element (inr (plain_chmsg p.1 p.2))) ++ b,
          chmsg_ptrs (off + TLV_HEAD_SIZE) (plain_chmsg p.1 p.2) old).
Proof. intros (Hs & Hc & Hok) Hold ->. by apply serialize_chmsg_block. Qed.

Lemma zset_second {A} (x y z : A) l : zset (x :: y :: l) 1 z = Some (x :: z :: l).
Proof. exact (zset_app [x] l y z). Qed.

Section Array.
Context (input : urpc_attach_msg_input) (u : part) (a b : list Z) (arr : urpc_chmsg_arr).
Context (c0 c1 : urpc_chmsg_v1) (cs : list urpc_chmsg_v1).
Hypothesis Hu : attach_part (is_server input) false (user input) u.
Hypothesis Harr : chmsgs arr = c0 :: c1 :: cs.
Hypothesis Hq0 : zlen (qinfos (qinfo_arr c0)) = MAX_QUEUE_SIZE.
Hypothesis Hq1 : zlen (qinfos (qinfo_arr c1)) = MAX_QUEUE_SIZE.

Lemma part_size_pos p : part_ok p -> 68 <= chmsg_size (zlen p.2) <= 20548.
Proof. intros (_ & ? & _). apply chmsg_size_pos. pose proof (zlen_nonneg p.2). lia. Qed.

Lemma serialize_arr_user :
  q_num (manage input) = 0 -> part_ok u ->
  attach_msg_v1_serialize_chmsg_arr pl (a ++ zeros (TLV_ARR_HEAD_SIZE + parts_size [u]) ++ b) input arr (zlen a) =
    Some (URPC_SUCCESS, a ++ tlv (URPC_TLV_TYPE_ARRAY, carr_bytes (plain_items [u]) []) ++ b,
          carr_ptrs (zlen a + TLV_HEAD_SIZE) (plain_items [u]) (chmsgs arr)).
Proof.
  intros Hg Hoku. pose proof (part_size_pos _ Hoku) as Hpos. pose proof (element_ok_part _ Hoku) as Heu.
  pose proof (zlen_part _ Hoku) as Hlu. rewrite zlen_tlv in Hlu.
  rewrite <-(plain_array_done [u]); [|by apply Forall_singleton|done].
  change (parts_size [u]) with (chmsg_size (zlen u.2) + 0). rewrite Z.add_0_r.
  replace (TLV_ARR_HEAD_SIZE + chmsg_size (zlen u.2)) with (4 + (4 + (4 + chmsg_size (zlen u.2)))) by blocks.
  rewrite !(zeros_add 4) by (done || blocks). rewrite <-!app_assoc.
  unfold attach_msg_v1_serialize_chmsg_arr. rewrite Harr, Hg. cbn [mbind option_bind Z.ltb Z.compare negb Z.eqb URPC_SUCCESS].
  rewrite Harr. change (zget (c0 :: c1 :: cs) 0) with (Some c0). cbn [mbind option_bind].
  pose proof (serialize_part_at _ _ _ _ (a ++ zeros 4 ++ zeros 4 ++ zeros 4) b c0 (zlen a + TLV_ARR_HEAD_SIZE)
    Hu Hq0 ltac:(blocks)) as Hs. rewrite <-!app_assoc in Hs. rewrite Hs. clear Hs. cbn [mbind option_bind].
  change (zset (c0 :: c1 :: cs) 0 ?c) with (Some (c :: c1 :: cs)).
  cbn [mbind option_bind chmsgs chmsg_num negb Z.eqb URPC_SUCCESS].
  get_len. put. put. put. do 2 f_equal.
  - f_equal. rewrite !(u32_small (TLV_HEAD_SIZE + zlen _)) by blocks. rewrite Hlu.
    rewrite Z.add_0_l, !(u32_small (chmsg_size _)) by blocks. unfold plain_items.
    rewrite !fmap_cons, tlvs_cons, <-!app_assoc. done.
  - unfold carr_ptrs. rewrite zlen_channels_plain. change (zlen [u]) with 1. cbn [plain_items fmap list_fmap item_ptrs].
    do 2 f_equal. f_equal. blocks.
Qed.

Lemma serialize_arr_both g :
  attach_part (is_server input) true (manage input) g -> 0 < zlen g.2 -> part_ok g -> part_ok u ->
  attach_msg_v1_serialize_chmsg_arr pl (a ++ zeros (TLV_ARR_HEAD_SIZE + parts_size [g; u]) ++ b) input arr (zlen a) =
    Some (URPC_SUCCESS, a ++ tlv (URPC_TLV_TYPE_ARRAY, carr_bytes (plain_items [g; u]) []) ++ b,
          carr_ptrs (zlen a + TLV_HEAD_SIZE) (plain_items [g; u]) (chmsgs arr)).
Proof.
  intros Hg Hpos Hokg Hoku. pose proof (part_size_pos _ Hoku). pose proof (element_ok_part _ Hoku) as Heu.
  pose proof (part_size_pos _ Hokg). pose proof (element_ok_part _ Hokg) as Heg.
  pose proof (zlen_part _ Hokg) as Hlg. pose proof (zlen_part _ Hoku) as Hlu. rewrite zlen_tlv in Hlg, Hlu.
  rewrite <-(plain_array_done [g; u]); [|by apply Forall_cons; split; [|apply Forall_singleton]|done].
  change (parts_size [g; u]) with (chmsg_size (zlen g.2) + (chmsg_size (zlen u.2) + 0)). rewrite Z.add_0_r.
  replace (TLV_ARR_HEAD_SIZE + _) with (4 + (4 + (4 + (chmsg_size (zlen g.2) + chmsg_size (zlen u.2))))) by blocks.
  rewrite !(zeros_add 4), (zeros_add (chmsg_size _)) by (done || blocks). rewrite <-!app_assoc.
  unfold attach_msg_v1_serialize_chmsg_arr. pose proof (cs_num _ _ (proj1 Hg)) as [Hn _].
  rewrite Harr, Hn, (proj2 (Z.ltb_lt _ _)) by done. change (zget (c0 :: c1 :: cs) 0) with (Some c0).
  cbn [mbind option_bind].
  pose proof (serialize_part_at _ _ _ _ (a ++ zeros 4 ++ zeros 4 ++ zeros 4) (zeros (chmsg_size (zlen u.2)) ++ b) c0
    (zlen a + TLV_ARR_HEAD_SIZE) Hg Hq0 ltac:(blocks)) as Hs. rewrite <-!app_assoc in Hs. rewrite Hs. clear Hs.
  cbn [mbind option_bind]. change (zset (c0 :: c1 :: cs) 0 ?c) with (Some (c :: c1 :: cs)).
  cbn [mbind option_bind chmsgs chmsg_num negb Z.eqb URPC_SUCCESS]. get_len. rewrite Hlg.
  cbn [chmsgs chmsg_num negb Z.eqb URPC_SUCCESS]. change (zget (?c :: c1 :: cs) 1) with (Some c1). cbn [mbind option_bind].
  set (eg := item_element (inr (plain_chmsg g.1 g.2))) in *.
  pose proof (serialize_part_at _ _ _ _ (a ++ zeros 4 ++ zeros 4 ++ zeros 4 ++ tlv eg) b c1
    (zlen a + TLV_ARR_HEAD_SIZE + TLV_HEAD_SIZE + zlen eg.2) Hu Hq1 ltac:(blocks)) as Hs.
  rewrite <-!app_assoc in Hs. rewrite Hs. clear Hs.
  cbn [mbind option_bind]. rewrite zset_second.
  cbn [mbind option_bind chmsgs chmsg_num negb Z.eqb URPC_SUCCESS].
  get_len. put. put. put. do 2 f_equal.
  - f_equal. rewrite Hlu. rewrite !(u32_small (chmsg_size _)), !(u32_small (chmsg_size _ + _)) by blocks.
    unfold plain_items. rewrite !fmap_cons, !tlvs_cons, <-!app_assoc. done.
  - unfold carr_ptrs. rewrite zlen_channels_plain. change (zlen [g; u]) with 2.
    cbn [plain_items fmap list_fmap item_ptrs]. f_equal. fold eg. rewrite zlen_tlv.
    f_equal; [f_equal; blocks|]. do 2 f_equal. blocks.
Qed.

End Array.

Lemma serialize_chmsg_arr_block input g u a b arr :
  attach_parts input g u -> chmsgs_ready CHANNEL_INFO_MAX_NUM (chmsgs arr) ->
  attach_msg_v1_serialize_chmsg_arr pl (a ++ zeros (TLV_ARR_HEAD_SIZE + parts_size (parts g u)) ++ b) input arr (zlen a) =
    Some (URPC_SUCCESS, a ++ tlv (URPC_TLV_TYPE_ARRAY, carr_bytes (plain_items (parts g u)) []) ++ b,
          carr_ptrs (zlen a + TLV_HEAD_SIZE) (plain_items (parts g u)) (chmsgs arr)).
Proof.
  intros Hp [Hlen Hq]. pose proof (attach_parts_ok _ _ _ Hp) as Hok. destruct Hp as [Hu Hg].
  destruct (chmsgs arr) as [|c0 [|c1 cs]] eqn:Harr; [done..|]. rewrite <-Harr.
  apply Forall_cons in Hq as [Hq0 [Hq1 _]%Forall_cons]. unfold parts in *. destruct g as [g|]; cbn [option_list app] in *.
  - destruct Hg as [Hg Hpos]. apply Forall_cons in Hok as [Hokg [Hoku _]%Forall_cons].
    by apply (serialize_arr_both _ _ _ _ _ c0 c1 cs).
  - apply Forall_cons in Hok as [Hoku _]. by apply (serialize_arr_user _ _ _ _ _ c0 c1 cs).
Qed.

(** The message the serializer lays out: nothing around the known elements. *)
Definition plain_outer : outer_layout := {| ol_pre := []; ol_post := []; ol_pad := [] |}.

Definition plain_msg (ps : list part) : chmsgs_layout :=
  {| ml_outer := plain_outer; ml_pre := []; ml_ext := []; ml_mid := []; ml_items := plain_items ps;
     ml_arr_pad := []; ml_post := []; ml_pad := [] |}.

Lemma plain_msg_bytes ty info_ty info ps :
  msg_bytes ty info_ty info (plain_msg ps) =
    tlv (ty, tlv (info_ty, info) ++ tlv (URPC_TLV_TYPE_ARRAY, carr_bytes (plain_items ps) [])).
Proof.
  unfold msg_bytes, outer_bytes, pair_bytes, pair_elems.
  cbn [msg_pair plain_msg plain_outer pl_pre pl_info pl_mid pl_arr pl_post pl_pad ml_outer ml_pre ml_ext ml_mid ml_items
       ml_arr_pad ml_post ml_pad ol_pre ol_post ol_pad app].
  rewrite !app_nil_r, !tlvs_cons. change (tlvs []) with (@nil Z). by rewrite !app_nil_r.
Qed.

Lemma zlen_array ps :
  Forall part_ok ps ->
  zlen (tlv (URPC_TLV_TYPE_ARRAY, carr_bytes (plain_items ps) [])) = TLV_ARR_HEAD_SIZE + parts_size ps.
Proof.
  intros Hok. rewrite zlen_tlv. cbn [snd]. unfold carr_bytes.
  rewrite app_nil_r, zlen_app, zlen_le32, zlen_parts by done. unfold TLV_ARR_HEAD_SIZE, TLV_HEAD_SIZE. lia.
Qed.

(** The head fields complete the message. *)
Lemma plain_msg_done ty info_ty info ps :
  Forall part_ok ps -> in_u32 ty -> zlen info <= 64 -> zlen ps < 2 ^ 16 ->
  le32 (u32 ty) ++
    le32 (u32 (u32 (u32 (TLV_HEAD_SIZE + zlen info) +
                    u32 (TLV_HEAD_SIZE + zlen (carr_bytes (plain_items ps) []))))) ++
    tlv (info_ty, info) ++ tlv (URPC_TLV_TYPE_ARRAY, carr_bytes (plain_items ps) []) ++ [] =
  msg_bytes ty info_ty info (plain_msg ps).
Proof.
  intros Hok Hty Hinfo Hps. pose proof (parts_size_bound _ Hok). pose proof (zlen_array _ Hok) as Ha.
  pose proof (zlen_nonneg info). pose proof (zlen_nonneg ps). rewrite zlen_tlv in Ha. cbn [snd] in Ha.
  rewrite plain_msg_bytes. unfold tlv at 3. cbn [fst snd]. rewrite app_nil_r.
  rewrite (u32_small ty), !(u32_small (TLV_HEAD_SIZE + zlen _)), !(u32_small (TLV_HEAD_SIZE + _ + _)) by blocks.
  rewrite zlen_app, !zlen_tlv. done.
Qed.

Lemma serialize_attach_info_block input a b :
  0 <= in_keepalive_attr input < 2 ^ 64 -> in_u32 (in_server_chid input) ->
  attach_msg_v1_serialize_attach_info (a ++ zeros (TLV_HEAD_SIZE + SIZEOF_ATTACH_INFO) ++ b) input (zlen a) =
    Some (zlen a + TLV_HEAD_SIZE,
          a ++ tlv (URPC_TLV_TYPE_ATTACH_INFO,
                    attach_info_bytes (in_keepalive_attr input) (in_server_chid input)) ++ b).
Proof.
  intros Hk Hs. unfold attach_msg_v1_serialize_attach_info, store64.
  change (zeros (TLV_HEAD_SIZE + SIZEOF_ATTACH_INFO)) with (zeros 4 ++ zeros 4 ++ zeros 8 ++ zeros 4 ++ zeros 4).
  rewrite <-!app_assoc. assert (H8 : zlen (le64 (in_keepalive_attr input)) = 8) by done.
  put. put. put. put. rewrite (u32_small (in_server_chid input)) by done.
  unfold tlv, attach_info_bytes. cbn [fst snd]. rewrite !zlen_app, H8, zlen_le32, <-!app_assoc. done.
Qed.

Lemma zlen_attach_bytes k s ps :
  Forall part_ok ps -> zlen (attach_bytes k s (plain_msg ps)) = 44 + parts_size ps.
Proof.
  intros Hok. unfold attach_bytes. rewrite plain_msg_bytes, zlen_tlv. cbn [snd].
  rewrite zlen_app, zlen_array, zlen_tlv by done. cbn [snd]. change (zlen (attach_info_bytes k s)) with 16. blocks.
Qed.

Lemma parts_size_attach input g u :
  attach_parts input g u ->
  attach_msg_v1_get_total_len (u32 (q_num (user input) + q_num (manage input)))
    (if 0 <? q_num (manage input) then CHANNEL_INFO_MAX_NUM else 1) = 44 + parts_size (parts g u).
Proof.
  intros Hp. pose proof (attach_parts_ok _ _ _ Hp) as Hok. pose proof (parts_size_bound _ Hok) as Hb.
  destruct Hp as [(Hsu & _) Hg]. pose proof (cs_num _ _ Hsu) as [Hnu Hmu]. pose proof (zlen_nonneg u.2).
  unfold attach_msg_v1_get_total_len, MAX_QUEUE_SIZE, CHANNEL_INFO_MAX_NUM in *. rewrite Hnu. destruct g as [g|].
  - destruct Hg as [(Hsg & _) Hpos]. pose proof (cs_num _ _ Hsg) as [Hng Hmg]. rewrite Hng.
    rewrite (proj2 (Z.ltb_lt _ _)) by done. unfold MAX_QUEUE_SIZE in *.
    change (parts_size (parts (Some g) u)) with (chmsg_size (zlen g.2) + (chmsg_size (zlen u.2) + 0)).
    unfold chmsg_size, u32, TLV_HEAD_SIZE, TLV_ARR_HEAD_SIZE, SIZEOF_CHINFO, SIZEOF_QUEUE_INFO, SIZEOF_ATTACH_INFO. zmod.
  - rewrite Hg. change (0 <? 0) with false.
    change (parts_size (parts None u)) with (chmsg_size (zlen u.2) + 0).
    unfold chmsg_size, u32, TLV_HEAD_SIZE, TLV_ARR_HEAD_SIZE, SIZEOF_CHINFO, SIZEOF_QUEUE_INFO, SIZEOF_ATTACH_INFO. zmod.
Qed.

(** What the serializer makes of an input: the laid-out buffer, and the
    structure with its pointers into it. *)
Lemma attach_serialize_layout input g u data :
  attach_msg_input_validation input = URPC_SUCCESS -> calloc_succeeds pl = true -> attach_parts input g u ->
  0 <= in_keepalive_attr input < 2 ^ 64 -> in_u32 (in_server_chid input) -> attach_ready data ->
  let k := in_keepalive_attr input in
  let s := in_server_chid input in
  let m := attach_bytes k s (plain_msg (parts g u)) in
  urpc_attach_msg_v1_serialize pl input data =
    Some (URPC_SUCCESS, attach_ptrs k s (plain_msg (parts g u))
      {| attach_buffer := Some m; attach_len := zlen m; attach_info := attach_info data;
         attach_chmsg_arr := attach_chmsg_arr data |}).
Proof.
  intros Hval Hcal Hp Hk Hs Hr k s m. pose proof (attach_parts_ok _ _ _ Hp) as Hok.
  pose proof (parts_size_bound _ Hok). pose proof (zlen_array _ Hok) as Hlen. rewrite zlen_tlv in Hlen.
  assert (Hps : zlen (parts g u) <= 2) by (destruct g; done).
  assert (Hinfo : zlen (attach_info_bytes k s) = SIZEOF_ATTACH_INFO) by done.
  unfold urpc_attach_msg_v1_serialize. rewrite Hval. cbn [negb Z.eqb URPC_SUCCESS].
  rewrite (parts_size_attach _ _ _ Hp). unfold dbuf_calloc. rewrite Hcal.
  replace (44 + parts_size (parts g u)) with
    (4 + (4 + ((TLV_HEAD_SIZE + SIZEOF_ATTACH_INFO) + (TLV_ARR_HEAD_SIZE + parts_size (parts g u))))) at 1 by blocks.
  rewrite !(zeros_add 4), (zeros_add (TLV_HEAD_SIZE + _)) by (done || blocks).
  unfold attach_msg_v1_serialize_attach_msg.
  pose proof (serialize_attach_info_block input (zeros 4 ++ zeros 4)
    (zeros (TLV_ARR_HEAD_SIZE + parts_size (parts g u))) Hk Hs) as H1.
  rewrite <-!app_assoc in H1. change (zlen (zeros 4 ++ zeros 4)) with (0 + TLV_HEAD_SIZE) in H1. rewrite H1. clear H1.
  cbn [mbind option_bind]. fold k s. get_len.
  pose proof (serialize_chmsg_arr_block input g u (zeros 4 ++ zeros 4 ++ tlv (URPC_TLV_TYPE_ATTACH_INFO,
    attach_info_bytes k s)) [] (attach_chmsg_arr data) Hp Hr) as H1.
  rewrite <-!app_assoc, app_nil_r in H1.
  replace (zlen (zeros 4 ++ _)) with (0 + TLV_HEAD_SIZE + TLV_HEAD_SIZE + zlen (attach_info_bytes k s)) in H1 by blocks.
  rewrite H1. clear H1. cbn [mbind option_bind negb Z.eqb URPC_SUCCESS].
  put. get_len. get_len. put.
  cbn [attach_info attach_chmsg_arr attach_buffer attach_len].
  rewrite (plain_msg_done URPC_TLV_TYPE_ATTACH_MSG); [|done|done|by rewrite Hinfo|lia].
  unfold attach_ptrs. cbn [attach_buffer attach_len attach_chmsg_arr]. unfold m. rewrite zlen_attach_bytes by done.
  done.
Qed.

(** ** The attach round trip *)

Lemma contents_plain ps : Forall part_ok ps -> msg_contents (plain_msg ps) = ps.
Proof.
  intros Hok. unfold msg_contents. cbn [plain_msg ml_items]. rewrite channels_plain, <-list_fmap_compose.
  induction Hok as [|[ci infos] ps (_ & Hm & Hs) _ IH]; [done|]. rewrite fmap_cons, IH. f_equal.
  unfold compose, chmsg_content_of, qarr_content. cbn [plain_chmsg plain_qarr cl_info cl_arr ql_num ql_elems fst snd].
  f_equal. rewrite of_type_records, take_ge by (rewrite length_records; unfold zlen; lia).
  by apply take_records.
Qed.

Lemma plain_chmsg_ok p : part_ok p -> chmsg_ok (plain_chmsg p.1 p.2).
Proof.
  intros (Hc & Hm & Hs). split; [|split; [done|]].
  - repeat (split; [apply Forall_nil_2|]). done.
  - pose proof (zlen_nonneg p.2). unfold qarr_ok. cbn [plain_chmsg plain_qarr cl_arr ql_num ql_elems ql_pad].
    rewrite of_type_records. split_and!; [|done|done|done| |].
    + apply Forall_fmap, Forall_true. done.
    + unfold zlen. rewrite length_records. lia.
    + apply Forall_fmap. eapply Forall_impl; [exact Hs|]. cbn. intros ? ->. done.
Qed.

Lemma plain_msg_ok ty info_ty info ps limit :
  Forall part_ok ps -> zlen ps <= limit -> msg_ok ty info_ty limit info (plain_msg ps).
Proof.
  intros Hok Hn. split; [repeat (split; [apply Forall_nil_2|]); done|]. split; [repeat (split; [apply Forall_nil_2|]); done|]. split; [|split; [done|]].
  - apply Forall_fmap. eapply Forall_impl; [exact Hok|]. intros p Hp. by apply plain_chmsg_ok.
  - cbn [plain_msg ml_items]. by rewrite zlen_channels_plain.
Qed.

(** ** The connect message *)

Definition connect_part (input : urpc_chmsg_input) (p : part) : Prop :=
  chmsg_source input p.2 /\ connect_chinfo input = Some p.1 /\ chinfo_rec_ok p.1.

Definition connect_parts (inputs : list urpc_chmsg_input) (ps : list part) : Prop :=
  Forall2 connect_part inputs ps.

Lemma connect_part_ok input p : connect_part input p -> part_ok p.
Proof. intros (Hs & _ & Hok). destruct p. by eapply source_part_ok. Qed.

Lemma connect_parts_ok inputs ps : connect_parts inputs ps -> Forall part_ok ps.
Proof. induction 1 as [|i p inputs ps Hp _ IH]; [done|]. apply Forall_cons. split; [by eapply connect_part_ok|done]. Qed.

Lemma serialize_chmsgs_block inputs ps : connect_parts inputs ps -> forall i a b id ir dn old v,
  i = zlen id -> i = zlen dn -> (length ps <= length old)%nat ->
  Forall (fun o => zlen (qinfos (qinfo_arr o)) = MAX_QUEUE_SIZE) old ->
  0 <= v -> v + parts_size ps < 2 ^ 32 ->
  serialize_chmsgs pl (length ps) i (a ++ zeros (parts_size ps) ++ b) (id ++ inputs ++ ir) (dn ++ old) v (zlen a) =
    Some (URPC_SUCCESS, a ++ tlvs (item_element <$> plain_items ps) ++ b,
          dn ++ item_ptrs (zlen a) (plain_items ps) old, v + parts_size ps).
Proof.
  induction 1 as [|input p inputs ps Hp Hps IH]; intros i a b id ir dn old v -> Hi Hold Hq Hv Hb.
  { cbn. by rewrite Z.add_0_r. }
  pose proof (connect_part_ok _ _ Hp) as Hok. pose proof (connect_parts_ok _ _ Hps) as Hoks.
  pose proof (part_size_pos _ Hok). pose proof (parts_size_bound _ Hoks). pose proof (element_ok_part _ Hok) as He.
  pose proof (zlen_part _ Hok) as Hl. rewrite zlen_tlv in Hl.
  change (parts_size (p :: ps)) with (chmsg_size (zlen p.2) + parts_size ps) in *.
  destruct old as [|o old]; [cbn in Hold; lia|]. apply Forall_cons in Hq as [Hqo Hq].
  rewrite zeros_add by lia. rewrite <-!app_assoc. cbn [length serialize_chmsgs app].
  rewrite zget_at. cbn [mbind option_bind]. rewrite Hi, zget_at, <-Hi. cbn [mbind option_bind].
  destruct Hp as (Hs & Hc & Hrec). rewrite (serialize_connect_chmsg_block input p.1 p.2 a _ o Hs Hc Hrec Hqo).
  cbn [mbind option_bind]. rewrite Hi, zset_app, <-Hi. cbn [mbind option_bind negb Z.eqb URPC_SUCCESS].
  set (e := item_element (inr (plain_chmsg p.1 p.2))) in *.
  change (tlv (URPC_TLV_TYPE_CHANNEL_MSG, chmsg_bytes (plain_chmsg p.1 p.2))) with (tlv e).
  get_len. rewrite (u32_small (TLV_HEAD_SIZE + _)), Hl, u32_small by blocks.
  specialize (IH (zlen id + 1) (a ++ tlv e) b (id ++ [input]) ir
    (dn ++ [chmsg_ptrs (zlen a + TLV_HEAD_SIZE) (plain_chmsg p.1 p.2) o]) old (v + chmsg_size (zlen p.2))).
  rewrite <-!app_assoc in IH. cbn [app] in IH. rewrite (zlen_app a), zlen_tlv, Z.add_assoc in IH. rewrite IH.
  - unfold plain_items. rewrite !fmap_cons, tlvs_cons, <-!app_assoc. cbn [item_ptrs]. rewrite zlen_tlv. fold e.
    by rewrite !Z.add_assoc.
  - by rewrite zlen_app.
  - by rewrite zlen_app, Hi.
  - cbn in Hold. lia.
  - done.
  - lia.
  - lia.
Qed.

Lemma serialize_connect_arr_block input ps a b arr :
  connect_parts (in_chmsg_arr input) ps -> in_num input = zlen ps -> zlen ps <= URPC_MAX_CLIENT_CHANNELS_PER_CLIENT ->
  chmsgs_ready (zlen ps) (chmsgs arr) ->
  connect_msg_serialize_chmsg_arr pl (a ++ zeros (TLV_ARR_HEAD_SIZE + parts_size ps) ++ b) input arr (zlen a) =
    Some (URPC_SUCCESS, a ++ tlv (URPC_TLV_TYPE_ARRAY, carr_bytes (plain_items ps) []) ++ b,
          carr_ptrs (zlen a + TLV_HEAD_SIZE) (plain_items ps) (chmsgs arr)).
Proof.
  intros Hp Hnum Hn [Hlen Hq]. pose proof (connect_parts_ok _ _ Hp) as Hok. pose proof (parts_size_bound _ Hok).
  unfold URPC_MAX_CLIENT_CHANNELS_PER_CLIENT in *. rewrite <-(plain_array_done ps) by (done || lia).
  replace (TLV_ARR_HEAD_SIZE + parts_size ps) with (4 + (4 + (4 + parts_size ps))) by blocks.
  rewrite !(zeros_add 4) by (done || blocks). rewrite <-!app_assoc. unfold connect_msg_serialize_chmsg_arr.
  pose proof (serialize_chmsgs_block _ _ Hp 0 (a ++ zeros 4 ++ zeros 4 ++ zeros 4) b [] [] [] (chmsgs arr) 0) as Hs.
  rewrite <-!app_assoc, app_nil_r in Hs. cbn [app] in Hs.
  replace (zlen (a ++ _)) with (zlen a + TLV_ARR_HEAD_SIZE) in Hs by blocks.
  rewrite Hnum. replace (Z.to_nat (zlen ps)) with (length ps) by (unfold zlen; lia).
  rewrite Hs; [|done|done|unfold zlen in *; lia|done|done|lia]. clear Hs.
  cbn [mbind option_bind negb Z.eqb URPC_SUCCESS chmsg_num]. put. put. put. rewrite Z.add_0_l.
  unfold carr_ptrs. rewrite zlen_channels_plain. do 4 f_equal. blocks.
Qed.

Lemma serialize_connect_info_block key a b :
  zlen (key_eid key) = SIZEOF_EID -> in_u32 (key_pid key) ->
  connect_msg_serialize_connect_info (a ++ zeros (TLV_HEAD_SIZE + SIZEOF_INSTANCE_KEY) ++ b) key (zlen a) =
    Some (zlen a + TLV_HEAD_SIZE,
          a ++ tlv (URPC_TLV_TYPE_CONNECT_INFO, key_bytes (key_eid key) (key_pid key)) ++ b).
Proof.
  intros He Hpid. unfold connect_msg_serialize_connect_info, store_key.
  change (zeros (TLV_HEAD_SIZE + SIZEOF_INSTANCE_KEY)) with (zeros 4 ++ zeros 4 ++ zeros 16 ++ zeros 4 ++ zeros 4).
  rewrite <-!app_assoc. put. put. put. put. rewrite (u32_small (key_pid key)) by done.
  unfold tlv, key_bytes. cbn [fst snd]. rewrite !zlen_app, He, zlen_le32, zlen_zeros, <-!app_assoc by done. done.
Qed.

Lemma zlen_connect_bytes k ps :
  Forall part_ok ps -> zlen (key_eid k) = SIZEOF_EID -> zlen (connect_bytes k (plain_msg ps)) = 52 + parts_size ps.
Proof.
  intros Hok He. unfold connect_bytes. rewrite plain_msg_bytes, zlen_tlv. cbn [snd].
  rewrite zlen_app, zlen_array, zlen_tlv by done. cbn [snd].
  unfold key_bytes. rewrite !zlen_app, He, zlen_le32, zlen_zeros by done. blocks.
Qed.

Lemma connect_total_len inputs ps :
  connect_parts inputs ps -> zlen ps <= URPC_MAX_CLIENT_CHANNELS_PER_CLIENT ->
  channel_resources_msg_v1_get_total_len inputs (zlen ps) = 52 + parts_size ps.
Proof.
  intros Hp Hn. unfold channel_resources_msg_v1_get_total_len.
  assert (Hq : forall t, foldl (fun t i => t + q_num i * (TLV_HEAD_SIZE + SIZEOF_QUEUE_INFO)) t inputs =
    t + parts_size ps - zlen ps * 68).
  { clear Hn. induction Hp as [|i p inputs ps (Hs & _) _ IH]; intros t; [unfold zlen; cbn [foldl parts_size foldr length]; lia|].
    cbn [foldl]. rewrite IH. pose proof (cs_num _ _ Hs) as [-> _]. rewrite zlen_cons.
    change (parts_size (p :: ps)) with (chmsg_size (zlen p.2) + parts_size ps). unfold chmsg_size. blocks. }
  pose proof (parts_size_bound _ (connect_parts_ok _ _ Hp)). pose proof (Forall2_length _ _ _ Hp) as Hl.
  rewrite take_ge by (unfold zlen; lia). rewrite Hq. unfold URPC_MAX_CLIENT_CHANNELS_PER_CLIENT in Hn.
  pose proof (zlen_nonneg ps). rewrite u32_small by blocks. blocks.
Qed.

Lemma connect_parts_valid input ps :
  connect_parts (in_chmsg_arr input) ps -> in_num input = zlen ps -> zlen ps <= URPC_MAX_CLIENT_CHANNELS_PER_CLIENT ->
  connect_msg_input_validation input = URPC_SUCCESS.
Proof.
  intros Hp Hnum Hn. unfold connect_msg_input_validation. rewrite Hnum, (proj2 (Z.ltb_ge _ _)) by done.
  pose proof (Forall2_length _ _ _ Hp) as Hl. rewrite take_ge by (unfold zlen; lia).
  replace (existsb _ _) with false; [done|]. clear -Hp. symmetry.
  induction Hp as [|i p inputs ps (Hs & _) _ IH]; [done|]. cbn [existsb]. rewrite IH, orb_false_r.
  pose proof (cs_num _ _ Hs) as [-> ?]. apply Z.ltb_ge. done.
Qed.

Lemma connect_serialize_layout input ps data :
  calloc_succeeds pl = true -> connect_parts (in_chmsg_arr input) ps -> in_num input = zlen ps ->
  zlen ps <= URPC_MAX_CLIENT_CHANNELS_PER_CLIENT ->
  zlen (key_eid (in_key input)) = SIZEOF_EID -> in_u32 (key_pid (in_key input)) ->
  chmsgs_ready (zlen ps) (chmsgs (connect_chmsg_arr data)) ->
  let m := connect_bytes (in_key input) (plain_msg ps) in
  urpc_connect_msg_serialize pl input data =
    Some (URPC_SUCCESS, connect_ptrs (in_key input) (plain_msg ps)
      {| connect_buffer := Some m; connect_len := zlen m; connect_info := connect_info data;
         connect_chmsg_arr := connect_chmsg_arr data |}).
Proof.
  intros Hcal Hp Hnum Hn He Hpid Hr m. pose proof (connect_parts_ok _ _ Hp) as Hok.
  pose proof (parts_size_bound _ Hok). pose proof (zlen_array _ Hok) as Hlen. rewrite zlen_tlv in Hlen.
  set (kb := key_bytes (key_eid (in_key input)) (key_pid (in_key input))).
  assert (Hinfo : zlen kb = SIZEOF_INSTANCE_KEY)
    by (unfold kb, key_bytes; rewrite !zlen_app, He, zlen_le32, zlen_zeros by done; done).
  unfold urpc_connect_msg_serialize. rewrite (connect_parts_valid _ _ Hp Hnum Hn). cbn [negb Z.eqb URPC_SUCCESS].
  rewrite Hnum, (connect_total_len _ _ Hp Hn). unfold dbuf_calloc. rewrite Hcal.
  unfold URPC_MAX_CLIENT_CHANNELS_PER_CLIENT in Hn.
  replace (52 + parts_size ps) with
    (4 + (4 + ((TLV_HEAD_SIZE + SIZEOF_INSTANCE_KEY) + (TLV_ARR_HEAD_SIZE + parts_size ps)))) at 1 by blocks.
  rewrite !(zeros_add 4), (zeros_add (TLV_HEAD_SIZE + _)) by (done || blocks).
  unfold connect_msg_serialize_connect_msg.
  pose proof (serialize_connect_info_block (in_key input) (zeros 4 ++ zeros 4)
    (zeros (TLV_ARR_HEAD_SIZE + parts_size ps)) He Hpid) as H1.
  rewrite <-!app_assoc in H1. change (zlen (zeros 4 ++ zeros 4)) with (0 + TLV_HEAD_SIZE) in H1. rewrite H1. clear H1.
  cbn [mbind option_bind]. fold kb. get_len.
  pose proof (serialize_connect_arr_block input ps (zeros 4 ++ zeros 4 ++ tlv (URPC_TLV_TYPE_CONNECT_INFO, kb)) []
    (connect_chmsg_arr data) Hp Hnum Hn Hr) as H1.
  rewrite <-!app_assoc, app_nil_r in H1.
  replace (zlen (zeros 4 ++ _)) with (0 + TLV_HEAD_SIZE + TLV_HEAD_SIZE + zlen kb) in H1 by blocks.
  rewrite H1. clear H1. cbn [mbind option_bind negb Z.eqb URPC_SUCCESS].
  put. get_len. get_len. put. cbn [connect_info connect_chmsg_arr connect_buffer connect_len].
  rewrite (plain_msg_done URPC_TLV_TYPE_CONNECT_MSG); [|done|done|by rewrite Hinfo|lia].
  unfold connect_ptrs. cbn [connect_buffer connect_len connect_chmsg_arr]. unfold m. rewrite zlen_connect_bytes by done.
  unfold msg_info_at, msg_arr_at, pair_arr_at, pair_info_at, msg_at. fold kb.
  cbn [msg_pair plain_msg plain_outer pl_pre pl_info pl_mid ml_outer ml_pre ml_ext ml_mid ml_items ol_pre].
  rewrite app_nil_r. change (zlen (tlvs [])) with 0. rewrite !Z.add_0_r. done.
Qed.

End Round.

(** The structure a receiver hands to the deserializer: the buffer it
    received, and no pointers yet. *)
Definition attach_received (sent : urpc_attach_msg_v1) (arr : urpc_chmsg_arr) : urpc_attach_msg_v1 :=
  {| attach_buffer := attach_buffer sent; attach_len := attach_len sent; attach_info := None;
     attach_chmsg_arr := arr |}.

(** C15: an attach message that is serialized and deserialized comes back
    unchanged.  For every input the validation accepts, whose queues and
    providers answer, serialization succeeds; deserializing the buffer it
    produced, at whatever address it was received, succeeds, leaves the same
    structure as the serializer did, and through its pointers reads the
    keepalive attribute, the server channel id and, in order, the record and
    all queue records of the manage channel (when it has queues) and of the
    user channel. *)
Theorem attach_round_trip base pl input g u data :
  attach_msg_input_validation input = URPC_SUCCESS -> calloc_succeeds pl = true -> attach_parts pl input g u ->
  0 <= in_keepalive_attr input < 2 ^ 64 -> in_u32 (in_server_chid input) -> attach_ready data ->
  0 < base <= 2 ^ 63 ->
  exists sent,
    urpc_attach_msg_v1_serialize pl input data = Some (URPC_SUCCESS, sent) /\
    urpc_attach_msg_v1_deserialize base (attach_received sent (attach_chmsg_arr data)) = Some (URPC_SUCCESS, sent) /\
    view_attach sent = Some (in_keepalive_attr input, in_server_chid input, option_list g ++ [u]).
Proof.
  intros Hval Hcal Hp Hk Hs Hr Hbase. pose proof (attach_parts_ok _ _ _ _ Hp) as Hok.
  pose proof (zlen_attach_bytes (in_keepalive_attr input) (in_server_chid input) _ Hok) as Hlen.
  assert (Hps : zlen (parts g u) <= 2) by (destruct g; done). pose proof (parts_size_bound _ Hok).
  eexists. split; [by apply attach_serialize_layout|].
  edestruct attach_deserialize_layout as [Hd Hv]; [| | | | |].
  6: { split; [exact Hd|]. etrans; [exact Hv|]. by rewrite contents_plain. }
  - split_and!; [lia| |]; rewrite Hlen; unfold UINT64_MAX; lia.
  - split; [by apply plain_msg_ok|done].
  - done.
  - done.
  - done.
Qed.

Lemma zero_chmsgs_ready n : chmsgs_ready n (chmsgs (zero_chmsgs n)).
Proof.
  split; [|by apply Forall_replicate]. cbn [zero_chmsgs chmsgs]. unfold zlen. rewrite length_replicate. lia.
Qed.

(** C17: what a client serializes when it connects is what the server gets.
    For up to 256 channels of up to 256 queues each, serialization succeeds
    and the server, handed the buffer, counts the channels, sizes its message
    by the count, parses it and obtains the client's key and, for every
    channel in order, the channel record and all queue records. *)
Theorem connect_round_trip base pl pl' input ps data :
  calloc_succeeds pl = true -> calloc_succeeds pl' = true ->
  connect_parts pl (in_chmsg_arr input) ps -> in_num input = zlen ps ->
  zlen ps <= URPC_MAX_CLIENT_CHANNELS_PER_CLIENT ->
  zlen (key_eid (in_key input)) = SIZEOF_EID -> in_u32 (key_pid (in_key input)) ->
  chmsgs_ready (zlen ps) (chmsgs (connect_chmsg_arr data)) -> 0 < base <= 2 ^ 63 ->
  exists sent m msg,
    urpc_connect_msg_serialize pl input data = Some (URPC_SUCCESS, sent) /\
    connect_buffer sent = Some m /\ connect_len sent = zlen m /\
    server_process_connection_msg base pl' m (zlen m) = Some (URPC_SUCCESS, Some (in_key input, msg)) /\
    view_connect sent = Some (in_key input, ps) /\ view_connect msg = Some (in_key input, ps).
Proof.
  intros Hcal Hcal' Hp Hnum Hn He Hpid Hr Hbase. pose proof (connect_parts_ok _ _ _ Hp) as Hok.
  pose proof (zlen_connect_bytes (in_key input) ps Hok He) as Hlen. pose proof (parts_size_bound _ Hok).
  pose proof (connect_serialize_layout pl input ps data Hcal Hp Hnum Hn He Hpid Hr) as Hs.
  set (l := plain_msg ps) in *. set (m := connect_bytes (in_key input) l) in *.
  assert (Hpl : buffer_placed base m).
  { unfold URPC_MAX_CLIENT_CHANNELS_PER_CLIENT, UINT64_MAX in *. split_and!; rewrite ?Hlen; unfold UINT64_MAX; lia. }
  assert (Hcok : connect_ok (in_key input) l) by (split; [by apply plain_msg_ok|done]).
  assert (Hch : zlen (channels (ml_items l)) = zlen ps) by apply zlen_channels_plain.
  set (fresh := {| connect_buffer := Some m; connect_len := zlen m; connect_info := None;
                   connect_chmsg_arr := zero_chmsgs (zlen ps) |}).
  destruct (connect_deserialize_layout base (in_key input) l Hpl Hcok fresh) as [Hd Hv]; [|done|done|].
  { rewrite Hch. apply zero_chmsgs_ready. }
  destruct (connect_deserialize_layout base (in_key input) l Hpl Hcok {| connect_buffer := Some m;
    connect_len := zlen m; connect_info := connect_info data; connect_chmsg_arr := connect_chmsg_arr data |})
    as [_ Hv']; [by rewrite Hch|done|done|].
  unfold l, msg_contents in Hv, Hv'. fold (msg_contents (plain_msg ps)) in Hv, Hv'.
  rewrite contents_plain in Hv, Hv' by done.
  eexists _, m, (connect_ptrs (in_key input) l fresh). split_and!; [exact Hs|done|done| |done|done].
  pose proof (connect_count_layout _ _ _ Hpl Hcok) as Hc. fold m in Hc.
  unfold server_process_connection_msg. rewrite Hc.
  cbn [mbind option_bind]. rewrite Hch, (proj2 (Z.ltb_ge _ _)) by (apply zlen_nonneg). rewrite Hcal'. cbn [negb].
  fold fresh. rewrite Hd. cbn [mbind option_bind negb Z.eqb URPC_SUCCESS].
  unfold view_connect in Hv. cbn [connect_ptrs connect_buffer connect_info fresh mbind option_bind] in Hv |- *.
  destruct (load_key m _) as [k|]; [|done]. cbn [mbind option_bind] in Hv |- *.
  destruct (view_chmsgs _ _) as [cs|]; [|done]. cbn in Hv. by injection Hv as -> ->.
Qed.

(** ** Negotiate and detach messages *)

Definition plain_single : single_layout := {| sl_outer := plain_outer; sl_inner := plain_outer; sl_ext := [] |}.

Lemma plain_single_bytes ty info_ty info :
  single_bytes ty info_ty info plain_single = tlv (ty, tlv (info_ty, info)).
Proof.
  unfold single_bytes, outer_bytes. cbn [plain_single plain_outer sl_outer sl_inner sl_ext ol_pre ol_post ol_pad app].
  rewrite !app_nil_r, !tlvs_cons. change (tlvs []) with (@nil Z). by rewrite !app_nil_r.
Qed.

Lemma zlen_single ty info_ty info : zlen (single_bytes ty info_ty info plain_single) = 16 + zlen info.
Proof. rewrite plain_single_bytes, zlen_tlv. cbn [snd]. blocks. Qed.

Lemma plain_single_ok ty info_ty : single_ok ty info_ty plain_single.
Proof. split; repeat (split; [apply Forall_nil_2|]); done. Qed.

Lemma single_done ty info_ty info :
  in_u32 ty -> in_u32 info_ty -> zlen info <= 64 ->
  le32 (u32 ty) ++ le32 (u32 (u32 (TLV_HEAD_SIZE + zlen info))) ++ tlv (info_ty, info) =
    single_bytes ty info_ty info plain_single.
Proof.
  intros Hty Hi Hl. pose proof (zlen_nonneg info). rewrite plain_single_bytes. unfold tlv at 2. cbn [fst snd].
  rewrite zlen_tlv. cbn [snd]. by rewrite (u32_small ty), !(u32_small (TLV_HEAD_SIZE + _)) by (done || blocks).
Qed.

(** The two messages of one record in one round trip: the record is found
    where the serializer put it. *)
Lemma single_round_trip base ty info_ty info :
  in_u32 ty -> in_u32 info_ty -> zlen info <= 64 -> 0 < base <= 2 ^ 63 ->
  let m := single_bytes ty info_ty info plain_single in
  exists head len,
    urpc_tlv_search_element base m 0 (zlen m) ty = Some (Some head) /\ tlv_len m head = Some len /\
    urpc_tlv_search_element base m (head + TLV_HEAD_SIZE) len info_ty = Some (Some TLV_HEAD_SIZE) /\
    tlv_len m TLV_HEAD_SIZE = Some (zlen info) /\ occurs m (TLV_HEAD_SIZE + TLV_HEAD_SIZE) info.
Proof.
  intros Hty Hi Hl Hb m. destruct (single_walk base ty info_ty info plain_single) as (head & len & H1 & H2 & H3 & H4 & H5).
  - split_and!; rewrite ?zlen_single; unfold UINT64_MAX; lia.
  - done.
  - done.
  - apply plain_single_ok.
  - cbn [plain_single sl_ext] in H4, H5. rewrite app_nil_r in H4, H5. exists head, len. done.
Qed.

(** The data-plane key of a negotiate message arrives unchanged. *)
Theorem neg_round_trip base pl key data :
  calloc_succeeds pl = true -> crypto_ssl_gen_crypto_key pl = Some key -> zlen key = SIZEOF_CRYPTO_KEY ->
  0 < base <= 2 ^ 63 ->
  exists m p,
    urpc_neg_msg_v1_serialize pl data =
      Some (URPC_SUCCESS, {| neg_buffer := Some m; neg_len := zlen m; crypto_key := Some p |}) /\
    urpc_neg_msg_v1_deserialize base {| neg_buffer := Some m; neg_len := zlen m; crypto_key := None |} =
      Some (URPC_SUCCESS, {| neg_buffer := Some m; neg_len := zlen m; crypto_key := Some p |}) /\
    read_bytes m p SIZEOF_CRYPTO_KEY = Some key.
Proof.
  intros Hcal Hkey Hlen Hb. exists (single_bytes URPC_TLV_TYPE_NEG_MSG URPC_TLV_TYPE_CRYPTO_KEY key plain_single), 16.
  destruct (single_round_trip base URPC_TLV_TYPE_NEG_MSG URPC_TLV_TYPE_CRYPTO_KEY key ltac:(done) ltac:(done)
    ltac:(rewrite Hlen; done) Hb) as (head & len & H1 & H2 & H3 & H4 & H5).
  set (m := single_bytes _ _ _ _) in *. split_and!.
  - unfold urpc_neg_msg_v1_serialize, dbuf_calloc. rewrite Hcal, Hkey.
    change (zeros _) with (zeros 4 ++ zeros 4 ++ zeros 4 ++ zeros 4 ++ zeros 32 ++ []). unfold SIZEOF_CRYPTO_KEY in *.
    put. put. put. put.
    assert (He : le32 (u32 URPC_TLV_TYPE_CRYPTO_KEY) ++ le32 (u32 32) ++ key = tlv (URPC_TLV_TYPE_CRYPTO_KEY, key))
      by (unfold tlv; cbn [fst snd]; by rewrite Hlen).
    rewrite app_nil_r, He. rewrite <-(app_nil_r (tlv _)). get_len. put.
    assert (Hm : zlen m = 48) by (unfold m; rewrite zlen_single; lia).
    rewrite app_nil_r, single_done by (done || rewrite Hlen; done). fold m. rewrite Hm. done.
  - unfold urpc_neg_msg_v1_deserialize. cbn [neg_buffer neg_len]. rewrite H1. cbn [mbind option_bind].
    rewrite H2. cbn [mbind option_bind]. rewrite H3. cbn [mbind option_bind]. rewrite H4. cbn [mbind option_bind].
    rewrite Hlen. done.
  - unfold occurs in H5. by rewrite Hlen in H5.
Qed.

Definition detach_info_bytes (eid : list Z) (pid server_chid : Z) : list Z :=
  key_bytes eid pid ++ le32 server_chid ++ zeros 4.

(** A detach message arrives with the client's key and the server
    channel id it was built from. *)
Theorem detach_round_trip base pl channel server_chid eid data :
  calloc_succeeds pl = true -> ch_provider channel = Some eid -> zlen eid = SIZEOF_EID -> in_u32 (getpid pl) ->
  0 <= server_chid < URPC_INVALID_ID_U32 -> 0 < base <= 2 ^ 63 ->
  exists m p,
    urpc_detach_msg_v1_serialize pl (Some channel) server_chid data =
      Some (URPC_SUCCESS, {| detach_buffer := Some m; detach_len := zlen m; detach_info := Some p |}) /\
    urpc_detach_msg_v1_deserialize base {| detach_buffer := Some m; detach_len := zlen m; detach_info := None |} =
      Some (URPC_SUCCESS, {| detach_buffer := Some m; detach_len := zlen m; detach_info := Some p |}) /\
    load_key m p = Some {| key_eid := eid; key_pid := getpid pl |} /\ load32 m (p + 24) = Some server_chid.
Proof.
  intros Hcal Hprov He Hpid Hs Hb. unfold URPC_INVALID_ID_U32 in Hs.
  set (info := detach_info_bytes eid (getpid pl) server_chid).
  assert (Hlen : zlen info = 32).
  { unfold info, detach_info_bytes, key_bytes. rewrite !zlen_app, He, !zlen_le32, !zlen_zeros by done. done. }
  exists (single_bytes URPC_TLV_TYPE_DETACH_MSG URPC_TLV_TYPE_DETACH_INFO info plain_single), 16.
  destruct (single_round_trip base URPC_TLV_TYPE_DETACH_MSG URPC_TLV_TYPE_DETACH_INFO info ltac:(done) ltac:(done)
    ltac:(lia) Hb) as (head & len & H1 & H2 & H3 & H4 & H5).
  set (m := single_bytes _ _ _ _) in *. split_and!.
  - unfold urpc_detach_msg_v1_serialize, dbuf_calloc. rewrite Hcal.
    rewrite (proj2 (Z.eqb_neq _ _)) by (unfold URPC_INVALID_ID_U32; lia).
    unfold urpc_detach_msg_v1_serialize_detach_info, store_key. rewrite Hprov.
    change (zeros _) with (zeros 4 ++ zeros 4 ++ zeros 4 ++ zeros 4 ++ zeros 16 ++ zeros 4 ++ zeros 4 ++ zeros 4 ++ zeros 4).
    put. put. put. put. put. cbn [negb Z.eqb URPC_SUCCESS]. put.
    rewrite (u32_small (getpid pl)), (u32_small server_chid) by lia.
    assert (Ht : le32 (u32 URPC_TLV_TYPE_DETACH_INFO) ++ le32 (u32 SIZEOF_DETACH_INFO) ++ eid ++ le32 (getpid pl) ++
      zeros 4 ++ le32 server_chid ++ zeros 4 = tlv (URPC_TLV_TYPE_DETACH_INFO, info)).
    { unfold tlv. cbn [fst snd]. rewrite Hlen. unfold info, detach_info_bytes, key_bytes. by rewrite <-!app_assoc. }
    rewrite Ht. rewrite <-(app_nil_r (tlv _)). get_len. put.
    assert (Hm : zlen m = 48) by (unfold m; rewrite zlen_single; lia).
    rewrite app_nil_r, single_done by (done || lia). fold m. rewrite Hm. done.
  - unfold urpc_detach_msg_v1_deserialize. cbn [detach_buffer detach_len]. rewrite H1. cbn [mbind option_bind].
    rewrite H2. cbn [mbind option_bind]. rewrite H3. cbn [mbind option_bind]. rewrite H4. cbn [mbind option_bind].
    rewrite Hlen. done.
  - unfold info, detach_info_bytes in H5. by apply load_key_occurs in H5.
  - unfold info, detach_info_bytes in H5. apply occurs_app in H5 as [_ H5]. apply occurs_app in H5 as [H5 _].
    unfold key_bytes in H5. rewrite !zlen_app, He, zlen_le32, zlen_zeros in H5 by done.
    apply occurs_load32 in H5; [done|lia].
Qed.

(** ** Memory information *)

Lemma serialize_meminfos_block infos : forall limit num a x b,
  Forall (fun i => zlen i = SIZEOF_MEM_INFO) infos -> num <= limit ->
  let sent := take (Z.to_nat (limit - num)) infos in
  zlen x = zlen sent * (TLV_HEAD_SIZE + SIZEOF_MEM_INFO) ->
  serialize_meminfos infos limit num (a ++ x ++ b) (zlen a) =
    Some (a ++ tlvs (records URPC_TLV_TYPE_MEM_INFO sent) ++ b, num + zlen sent).
Proof.
  assert (Hnil : forall a x b num, zlen x = 0 -> Some (a ++ x ++ b, num) =
    Some (a ++ tlvs (records URPC_TLV_TYPE_MEM_INFO []) ++ b, num + zlen (@nil (list Z)))).
  { intros a x b num Hx. apply (f_equal Z.to_nat) in Hx. unfold zlen in Hx. rewrite Nat2Z.id in Hx.
    apply nil_length_inv in Hx as ->. change (zlen []) with 0. by rewrite Z.add_0_r. }
  induction infos as [|info infos IH]; intros limit num a x b Hs Hn sent Hx.
  { unfold sent in *. rewrite take_nil in *. by apply Hnil. }
  apply Forall_cons in Hs as [Hl Hs]. cbn [serialize_meminfos]. destruct (Z.eqb_spec limit num) as [->|Hne].
  { unfold sent in *. rewrite Z.sub_diag in *. by apply Hnil. }
  assert (Hsent : sent = info :: take (Z.to_nat (limit - (num + 1))) infos).
  { unfold sent. replace (Z.to_nat (limit - num)) with (S (Z.to_nat (limit - (num + 1)))) by lia. done. }
  rewrite Hsent in *. clear Hsent. set (rest := take _ infos) in *. rewrite zlen_cons in Hx. pose proof (zlen_nonneg rest).
  destruct (split_block x 4 (zlen x - 4)) as (x1 & x' & -> & Hx1 & Hx'); [blocks..|].
  destruct (split_block x' 4 (zlen x' - 4)) as (x2 & x'' & -> & Hx2 & Hx''); [blocks..|].
  destruct (split_block x'' 48 (zlen x'' - 48)) as (x3 & x4 & -> & Hx3 & Hx4); [blocks..|].
  rewrite <-!app_assoc. put. put. put. set (e := (URPC_TLV_TYPE_MEM_INFO, info)).
  assert (He : le32 (u32 URPC_TLV_TYPE_MEM_INFO) ++ le32 (u32 SIZEOF_MEM_INFO) ++ info ++ x4 ++ b = tlv e ++ x4 ++ b)
    by (unfold tlv, e; cbn [fst snd]; rewrite Hl, <-!app_assoc; done).
  rewrite He. rewrite next_block by (split; [done|unfold e; blocks]). cbn [mbind option_bind].
  specialize (IH limit (num + 1) (a ++ tlv e) x4 b Hs ltac:(lia)). cbn zeta in IH. fold rest in IH.
  rewrite <-!app_assoc, (zlen_app a) in IH. rewrite IH by blocks.
  unfold records. rewrite fmap_cons, tlvs_cons, zlen_cons, <-!app_assoc. do 2 f_equal. lia.
Qed.

Lemma meminfo_layout channel fresh :
  let sent := take (Z.to_nat (ch_mem_info_num channel)) (ch_mem_info_list channel) in
  Forall (fun i => zlen i = SIZEOF_MEM_INFO) (ch_mem_info_list channel) ->
  0 <= ch_mem_info_num channel <= MAX_MEM_H_SIZE ->
  TLV_ARR_HEAD_SIZE + ch_mem_info_num channel * (TLV_HEAD_SIZE + SIZEOF_MEM_INFO) <= zlen fresh ->
  exists rest, urpc_mem_info_get channel fresh =
    Some (URPC_SUCCESS, tlv (URPC_TLV_TYPE_ARRAY, le32 (zlen sent) ++ tlvs (records URPC_TLV_TYPE_MEM_INFO sent)) ++ rest,
          TLV_ARR_HEAD_SIZE + ch_mem_info_num channel * (TLV_HEAD_SIZE + SIZEOF_MEM_INFO)) /\
    zlen (tlv (URPC_TLV_TYPE_ARRAY, le32 (zlen sent) ++ tlvs (records URPC_TLV_TYPE_MEM_INFO sent)) ++ rest) =
      TLV_ARR_HEAD_SIZE + ch_mem_info_num channel * (TLV_HEAD_SIZE + SIZEOF_MEM_INFO).
Proof.
  intros sent Hs Hn Hf. unfold MAX_MEM_H_SIZE in Hn. set (n := ch_mem_info_num channel) in *.
  assert (Hsn : 0 <= zlen sent <= n) by (unfold zlen, sent; rewrite length_take; lia).
  assert (Hss : Forall (fun i => zlen i = SIZEOF_MEM_INFO) sent) by (by apply Forall_take).
  set (len := TLV_ARR_HEAD_SIZE + n * (TLV_HEAD_SIZE + SIZEOF_MEM_INFO)) in *.
  assert (Hlen : u32 (u32 (n * (TLV_HEAD_SIZE + SIZEOF_MEM_INFO)) + TLV_ARR_HEAD_SIZE) = len).
  { rewrite (u32_small (n * _)) by blocks. rewrite u32_small by blocks. unfold len. lia. }
  set (m := take (Z.to_nat len) fresh).
  assert (Hm : zlen m = len) by (unfold zlen, m in *; rewrite length_take; unfold len in *; blocks).
  unfold len in Hm. destruct (split_block m 4 (zlen m - 4)) as (x1 & x' & Hm1 & Hx1 & Hx'); [blocks..|].
  destruct (split_block x' 4 (zlen x' - 4)) as (x2 & x'' & -> & Hx2 & Hx''); [blocks..|].
  destruct (split_block x'' 4 (zlen x'' - 4)) as (x3 & x4 & -> & Hx3 & Hx4); [blocks..|].
  destruct (split_block x4 (zlen sent * (TLV_HEAD_SIZE + SIZEOF_MEM_INFO))
    (zlen x4 - zlen sent * (TLV_HEAD_SIZE + SIZEOF_MEM_INFO))) as (x5 & rest & -> & Hx5 & Hrest); [blocks..|].
  exists rest. split.
  - unfold urpc_mem_info_get. fold n. rewrite Hlen. fold m. unfold meminfo_arr_serialize. fold n. rewrite Hm1.
    pose proof (serialize_meminfos_block (ch_mem_info_list channel) n 0 (x1 ++ x2 ++ x3) x5 rest Hs ltac:(lia)) as Hb.
    cbn zeta in Hb. rewrite Z.sub_0_r in Hb. fold sent in Hb. specialize (Hb Hx5). rewrite <-!app_assoc in Hb.
    replace (zlen (x1 ++ _)) with (0 + TLV_ARR_HEAD_SIZE) in Hb by blocks. rewrite Hb.
    cbn [mbind option_bind]. put. put. put. cbn [negb Z.eqb URPC_SUCCESS]. rewrite Z.add_0_l.
    unfold urpc_tlv_arr_get_value_len_by_user_data_len.
    rewrite !(u32_small (zlen sent * _)), !(u32_small (_ - _)), (u32_small (zlen sent)) by blocks.
    unfold tlv. cbn [fst snd]. rewrite zlen_app, (zlen_records _ _ _ Hss), zlen_le32, <-!app_assoc.
    do 5 f_equal. f_equal. blocks.
  - rewrite zlen_app, zlen_tlv. cbn [snd]. rewrite zlen_app, (zlen_records _ _ _ Hss). unfold len. blocks.
Qed.

Lemma any_records ty rs : in_u32 ty -> any (records ty rs).
Proof. intros H. apply Forall_fmap, Forall_true. done. Qed.

(** C36: the memory segments a client channel announces, at most 256 records of
    the size of their structure, are the ones the server imports: the array
    serialized from the channel's list into a buffer that holds it, whatever
    the uninitialised buffer held, deserializes to as many pointers as records
    were sent, and they read the records in order. *)
Theorem mem_info_round_trip base channel fresh :
  let sent := take (Z.to_nat (ch_mem_info_num channel)) (ch_mem_info_list channel) in
  Forall (fun i => zlen i = SIZEOF_MEM_INFO) (ch_mem_info_list channel) ->
  0 <= ch_mem_info_num channel <= MAX_MEM_H_SIZE ->
  TLV_ARR_HEAD_SIZE + ch_mem_info_num channel * (TLV_HEAD_SIZE + SIZEOF_MEM_INFO) <= zlen fresh ->
  0 < base <= 2 ^ 63 ->
  exists m len arr,
    urpc_mem_info_get channel fresh = Some (URPC_SUCCESS, m, len) /\ zlen m = len /\
    urpc_mem_info_set base true m len = Some (URPC_SUCCESS, arr) /\
    mapM (view_record m SIZEOF_MEM_INFO) arr = Some sent.
Proof.
  intros sent Hs Hn Hf Hb. destruct (meminfo_layout channel fresh Hs Hn Hf) as (rest & Hget & Hlen). fold sent in Hget, Hlen.
  assert (Hsn : 0 <= zlen sent <= 256) by (unfold zlen, sent, MAX_MEM_H_SIZE in *; rewrite length_take; lia).
  assert (Hss : Forall (fun i => zlen i = SIZEOF_MEM_INFO) sent) by (by apply Forall_take).
  set (e := (URPC_TLV_TYPE_ARRAY, le32 (zlen sent) ++ tlvs (records URPC_TLV_TYPE_MEM_INFO sent))) in *.
  set (m := tlv e ++ rest) in *. unfold MAX_MEM_H_SIZE in Hn.
  assert (Hpl : buffer_placed base m) by (split_and!; rewrite ?Hlen; unfold UINT64_MAX; blocks).
  assert (Ho : occurs m 0 (tlv e)) by exact (occurs_block [] (tlv e) rest).
  assert (Hok : element_ok e).
  { split; [done|]. cbn [e snd]. rewrite zlen_app, (zlen_records _ _ _ Hss). blocks. }
  destruct (occurs_tlv _ _ _ Hok Ho) as (_ & Hl & Hv). cbn [e snd] in Hl, Hv.
  destruct (occurs_array base m Hpl 0 _ _ Hv ltac:(lia) Hl) as (Hnum & Hod & Hdl).
  rewrite <-(app_nil_r (tlvs _)) in Hod. pose proof (any_records URPC_TLV_TYPE_MEM_INFO sent ltac:(done)) as Ha.
  exists m, (TLV_ARR_HEAD_SIZE + ch_mem_info_num channel * (TLV_HEAD_SIZE + SIZEOF_MEM_INFO)),
    (Some <$> positions (0 + TLV_ARR_HEAD_SIZE) (records URPC_TLV_TYPE_MEM_INFO sent) URPC_TLV_TYPE_MEM_INFO).
  assert (Hlenp : length (positions (0 + TLV_ARR_HEAD_SIZE) (records URPC_TLV_TYPE_MEM_INFO sent) URPC_TLV_TYPE_MEM_INFO) =
    length sent) by (rewrite length_positions, of_type_records; apply length_records).
  assert (Hsz : Forall (fun x => SIZEOF_MEM_INFO <= zlen x.2)
    (of_type URPC_TLV_TYPE_MEM_INFO (records URPC_TLV_TYPE_MEM_INFO sent))).
  { rewrite of_type_records. apply Forall_fmap. eapply Forall_impl; [exact Hss|]. cbn. intros ? ->. done. }
  split_and!; [done|done| |].
  - unfold urpc_mem_info_set. rewrite Hnum. cbn [mbind option_bind].
    rewrite (proj2 (Z.ltb_ge _ _)) by (unfold MAX_MEM_H_SIZE; lia). cbn [negb].
    unfold meminfo_arr_deserialize. rewrite Hdl, Hnum. cbn [mbind option_bind].
    replace (zlen (tlvs (records URPC_TLV_TYPE_MEM_INFO sent))) with
      (zlen (tlvs (records URPC_TLV_TYPE_MEM_INFO sent) ++ [])) by by rewrite app_nil_r.
    rewrite (search_occurs base m Hpl _ _ _ _ Hod ltac:(done) Ha). cbn [mbind option_bind].
    replace (Z.to_nat (zlen sent)) with (length sent) by (unfold zlen; lia).
    pose proof (deserialize_records_occurs base m Hpl (records URPC_TLV_TYPE_MEM_INFO sent) (length sent) 0
      (0 + TLV_ARR_HEAD_SIZE) (zlen (tlvs (records URPC_TLV_TYPE_MEM_INFO sent) ++ [])) (0 + TLV_ARR_HEAD_SIZE) []
      URPC_TLV_TYPE_MEM_INFO SIZEOF_MEM_INFO [] (replicate (length sent) None) Hod ltac:(done) Ha ltac:(done)
      ltac:(done)) as Hd.
    cbn [app] in Hd. rewrite Hd; [|by rewrite of_type_records, length_records|done|done|by rewrite length_replicate].
    cbn [mbind option_bind]. rewrite take_ge by lia. unfold overwrite.
    rewrite drop_ge, app_nil_r by (rewrite length_replicate, length_fmap; lia). done.
  - pose proof (view_records_occurs base m Hpl _ (length sent) _ [] URPC_TLV_TYPE_MEM_INFO SIZEOF_MEM_INFO Hod Ha
      ltac:(done) Hsz) as Hview.
    rewrite take_ge in Hview by lia. rewrite Hview, of_type_records, take_ge by (by rewrite length_records).
    by rewrite take_records.
Qed.

(** ** Examples *)

Definition example_platform : platform :=
  {| channel_get_local_queue_info := fun h => Some (replicate 72 (h mod 256)); is_hwub_offload_enabled := true;
     first_provider_eid := Some (replicate 16 1); getpid := 4321;
     crypto_ssl_gen_crypto_key := Some (replicate 32 170); calloc_succeeds := true |}.

Definition example_channel : urpc_channel_info :=
  {| ch_attr := 0; ch_id := 5; ch_provider := Some (replicate 16 2); ch_server_node := Some 9;
     ch_mem_info_num := 2; ch_mem_info_list := [replicate 48 1; replicate 48 2] |}.

Definition example_chmsg_input : urpc_chmsg_input :=
  {| client_channel := Some example_channel; server_channel_id := 0; q_num := 2; qh := [257; 258; 0] |}.

Definition no_channel : urpc_chmsg_input :=
  {| client_channel := None; server_channel_id := URPC_INVALID_ID_U32; q_num := 0; qh := [] |}.

Definition example_attach_input : urpc_attach_msg_input :=
  {| in_keepalive_attr := 30; in_server_chid := 6; is_server := false; user := example_chmsg_input;
     manage := no_channel |}.

Definition example_record (server_chid : Z) : chinfo_rec :=
  {| ci_eid := replicate 16 2; ci_pid := 4321; ci_cap := 1; ci_attr := 0; ci_chid := 5;
     ci_server_chid := server_chid |}.

Definition example_part (server_chid : Z) : part := (example_record server_chid, [replicate 72 1; replicate 72 2]).

Lemma example_source s : chmsg_source example_platform example_chmsg_input (example_part s).2.
Proof.
  constructor; [done|]. exists [257; 258], [0]. split; [done|].
  apply Forall2_cons. split; [done|]. apply Forall2_cons. split; [done|]. apply Forall2_nil. done.
Defined.

Lemma attach_round_trip_witness :
  exists sent,
    urpc_attach_msg_v1_serialize example_platform example_attach_input (received_attach []) = Some (URPC_SUCCESS, sent) /\
    urpc_attach_msg_v1_deserialize 4096 (attach_received sent (zero_chmsgs CHANNEL_INFO_MAX_NUM)) =
      Some (URPC_SUCCESS, sent) /\
    view_attach sent = Some (30, 6, [example_part 0]).
Proof.
  apply (attach_round_trip 4096 example_platform example_attach_input None (example_part 0) (received_attach [])); try done.
  - split; [|done]. split; [apply example_source|]. split; [done|by vm_compute].
  - apply zero_attach_ready.
Defined.

Lemma connect_round_trip_witness :
  let input := {| in_key := {| key_eid := replicate 16 2; key_pid := 4321 |};
                  in_chmsg_arr := [example_chmsg_input]; in_num := 1 |} in
  let data := {| connect_buffer := None; connect_len := 0; connect_info := None; connect_chmsg_arr := zero_chmsgs 1 |} in
  exists sent m msg,
    urpc_connect_msg_serialize example_platform input data = Some (URPC_SUCCESS, sent) /\
    connect_buffer sent = Some m /\ connect_len sent = zlen m /\
    server_process_connection_msg 4096 example_platform m (zlen m) = Some (URPC_SUCCESS, Some (in_key input, msg)) /\
    view_connect sent = Some (in_key input, [example_part 9]) /\ view_connect msg = Some (in_key input, [example_part 9]).
Proof.
  intros input data.
  apply (connect_round_trip 4096 example_platform example_platform input [example_part 9] data); try done.
  - apply Forall2_cons. split; [|by apply Forall2_nil]. split; [apply example_source|]. split; [done|by vm_compute].
  - apply zero_chmsgs_ready.
Defined.

Lemma neg_round_trip_witness :
  let data := {| neg_buffer := None; neg_len := 0; crypto_key := None |} in
  exists m p,
    urpc_neg_msg_v1_serialize example_platform data =
      Some (URPC_SUCCESS, {| neg_buffer := Some m; neg_len := zlen m; crypto_key := Some p |}) /\
    urpc_neg_msg_v1_deserialize 4096 {| neg_buffer := Some m; neg_len := zlen m; crypto_key := None |} =
      Some (URPC_SUCCESS, {| neg_buffer := Some m; neg_len := zlen m; crypto_key := Some p |}) /\
    read_bytes m p SIZEOF_CRYPTO_KEY = Some (replicate 32 170).
Proof. intros data. by apply (neg_round_trip 4096 example_platform (replicate 32 170) data). Defined.

Lemma detach_round_trip_witness :
  let data := {| detach_buffer := None; detach_len := 0; detach_info := None |} in
  exists m p,
    urpc_detach_msg_v1_serialize example_platform (Some example_channel) 9 data =
      Some (URPC_SUCCESS, {| detach_buffer := Some m; detach_len := zlen m; detach_info := Some p |}) /\
    urpc_detach_msg_v1_deserialize 4096 {| detach_buffer := Some m; detach_len := zlen m; detach_info := None |} =
      Some (URPC_SUCCESS, {| detach_buffer := Some m; detach_len := zlen m; detach_info := Some p |}) /\
    load_key m p = Some {| key_eid := replicate 16 2; key_pid := 4321 |} /\ load32 m (p + 24) = Some 9.
Proof. intros data. by apply (detach_round_trip 4096 example_platform example_channel 9 (replicate 16 2) data). Defined.

Lemma mem_info_round_trip_witness :
  exists m len arr,
    urpc_mem_info_get example_channel (replicate 200 85) = Some (URPC_SUCCESS, m, len) /\ zlen m = len /\
    urpc_mem_info_set 4096 true m len = Some (URPC_SUCCESS, arr) /\
    mapM (view_record m SIZEOF_MEM_INFO) arr = Some [replicate 48 1; replicate 48 2].
Proof.
  apply (mem_info_round_trip 4096 example_channel (replicate 200 85)); try done.
  apply Forall_cons. split; [done|]. by apply Forall_singleton.
Defined.
