(* ===== verification/CpCompatBounds.v ===== *)
(** * Bounds of the control-path deserializers

    What the deserializers of [CpCompat] do with a buffer a peer chose freely.
    When the declared lengths satisfy [tlv_ok] every deserializer ends, reads
    only inside the buffer, writes only inside the arrays of the message
    structure, and leaves no pointer to a record that reaches out of the
    buffer ([attach_bounds], [connect_bounds]).  The theorems at the end show
    the buffers outside that condition, and those inside it, that the code
    does not handle. *)

From S2P Require Import Prelude Memory Tlv CpCompat.

(** ** Pointers into the buffer *)

Definition ptr_in (m : list Z) (size : Z) (p : option Z) : Prop :=
  match p with None => True | Some p => 0 <= p /\ p + size <= zlen m end.

Definition qarr_in (m : list Z) (qa : urpc_qinfo_arr_v1) : Prop :=
  0 <= qarr_num qa <= MAX_QUEUE_SIZE /\ zlen (qinfos qa) = MAX_QUEUE_SIZE /\
  Forall (ptr_in m SIZEOF_QUEUE_INFO) (qinfos qa).

Definition chmsg_in (m : list Z) (c : urpc_chmsg_v1) : Prop :=
  ptr_in m SIZEOF_CHINFO (chinfo c) /\ qarr_in m (qinfo_arr c).

(** At most as many channel messages as the array has entries. *)
Definition chmsgs_in (m : list Z) (a : urpc_chmsg_arr) : Prop :=
  0 <= chmsg_num a <= zlen (chmsgs a) /\ Forall (chmsg_in m) (chmsgs a).

Section Bounds.
Context (base : Z) (m : list Z).
Hypothesis Hplaced : buffer_placed base m.

(** A found element or none. *)
Definition found (buf size type : Z) (cur : option Z) : Prop :=
  forall h, cur = Some h -> exists len, head_in m buf size h type len.

Lemma head_value buf size h ty len :
  region_ok m buf size -> head_in m buf size h ty len -> forall n, n <= len -> ptr_in m n (Some (h + TLV_HEAD_SIZE)).
Proof.
  intros (? & ? & ? & _) [[? ?] [_ ?] _ _ _ _] n Hn. unfold ptr_in, TLV_HEAD_SIZE in *. lia.
Qed.

Lemma zset_Forall {A} (P : A -> Prop) l i x :
  Forall P l -> P x -> 0 <= i < zlen l -> exists l', zset l i x = Some l' /\ Forall P l' /\ zlen l' = zlen l.
Proof.
  intros Hl Hx Hi. unfold zset. rewrite (proj2 (Z.leb_le _ _)), (proj2 (Z.ltb_lt _ _)) by lia. simpl.
  eexists. split; [done|]. split; [by apply Forall_insert|]. unfold zlen. by rewrite length_insert.
Qed.

Lemma deserialize_records_inside n : forall i buf len type size cur arr,
  region_ok m buf len -> found buf len type cur -> 0 <= size ->
  Forall (ptr_in m size) arr -> 0 <= i -> i + Z.of_nat n <= zlen arr ->
  exists ret arr', deserialize_records base n i m buf len type size cur arr = Some (ret, arr') /\
    Forall (ptr_in m size) arr' /\ zlen arr' = zlen arr.
Proof.
  induction n as [|n IH]; intros i buf len type size cur arr Hr Hc H0 Ha Hi Hn; cbn [deserialize_records].
  { by eexists _, _. }
  destruct cur as [cur|]; [|by eexists _, _].
  destruct (Hc cur eq_refl) as [clen Hin]. pose proof (hi_len _ _ _ _ _ _ Hin) as [-> _]. cbn [mbind option_bind].
  destruct (Z.ltb_spec clen size); [by eexists _, _|].
  destruct (zset_Forall (ptr_in m size) arr i (Some (cur + TLV_HEAD_SIZE)) Ha) as (arr1 & -> & Ha1 & Hl1);
    [by eapply head_value|lia|]. cbn [mbind option_bind].
  destruct (search_next_inside base m buf len cur type clen type Hplaced Hr Hin) as (r & -> & Hf).
  cbn [mbind option_bind].
  destruct (IH (i + 1) buf len type size r arr1) as (ret & arr' & -> & Ha' & Hl'); try done; [lia|lia|].
  eexists _, _. split; [done|]. split; [done|lia].
Qed.

(** The number and the user data of an array element. *)
Lemma array_inside buf size head len :
  region_ok m buf size -> head_in m buf size head URPC_TLV_TYPE_ARRAY len ->
  exists num, tlv_arr_num m head = Some num /\ in_u32 num /\
    urpc_tlv_arr_get_user_data_len m head = Some (len - 4) /\ region_ok m (head + TLV_ARR_HEAD_SIZE) (len - 4).
Proof.
  intros Hr [[H1 H2] [Hl Hlr] _ Ha _ _]. destruct (Ha eq_refl) as [H4 Hin]. pose proof Hr as (? & ? & ? & Hb & _).
  unfold TLV_HEAD_SIZE in *. destruct (load32_in m (head + 8) Hb) as (num & Hnum & Hn); [lia..|].
  exists num. split_and!; try done; try lia. unfold urpc_tlv_arr_get_user_data_len. rewrite Hl. cbn [mbind option_bind].
  rewrite u32_small by lia. done.
Qed.

Lemma qinfo_arr_inside buf size head len qa :
  region_ok m buf size -> head_in m buf size head URPC_TLV_TYPE_ARRAY len -> qarr_in m qa ->
  exists ret qa', attach_msg_v1_deserialize_qinfo_arr base m head qa = Some (ret, qa') /\ qarr_in m qa'.
Proof.
  intros Hr Hin (Hq1 & Hq2 & Hq3). destruct (array_inside _ _ _ _ Hr Hin) as (num & Hnum & Hn & Hdl & Hreg).
  unfold attach_msg_v1_deserialize_qinfo_arr. rewrite Hnum, Hdl. cbn [mbind option_bind].
  destruct (Z.ltb_spec MAX_QUEUE_SIZE num); [by eexists _, _|].
  destruct (_ && _)%bool. { eexists _, _. split; [done|]. split; [cbn; lia|done]. }
  destruct (search_inside base m _ _ URPC_TLV_TYPE_QUEUE_INFO Hplaced Hreg) as (cur & -> & Hf). cbn [mbind option_bind].
  destruct (deserialize_records_inside (Z.to_nat num) 0 _ _ _ SIZEOF_QUEUE_INFO cur (qinfos qa) Hreg Hf)
    as (ret & arr & -> & Ha & Hl); [done|done|done|lia|]. cbn [mbind option_bind].
  destruct (negb _); eexists _, _; (split; [done|]); (split; [cbn; lia|]); by rewrite <-Hq2, <-Hl.
Qed.

Lemma chmsg_inside buf len c :
  region_ok m buf len -> chmsg_in m c ->
  exists ret c', attach_msg_v1_deserialize_chmsg base m buf len c = Some (ret, c') /\ chmsg_in m c'.
Proof.
  intros Hr [Hc Hq]. unfold attach_msg_v1_deserialize_chmsg.
  destruct (search_inside base m _ _ URPC_TLV_TYPE_CHANNEL_INFO Hplaced Hr) as (info & -> & Hf). cbn [mbind option_bind].
  destruct info as [info|]; [|by eexists _, _]. destruct (Hf info eq_refl) as [ilen Hin].
  pose proof (hi_len _ _ _ _ _ _ Hin) as [-> _]. cbn [mbind option_bind].
  destruct (Z.ltb_spec ilen SIZEOF_CHINFO); [by eexists _, _|].
  pose proof (head_value _ _ _ _ _ Hr Hin SIZEOF_CHINFO ltac:(lia)) as Hp.
  destruct (search_next_inside base m buf len info _ ilen URPC_TLV_TYPE_ARRAY Hplaced Hr Hin) as (arr & -> & Ha).
  cbn [mbind option_bind]. destruct arr as [arr|]; [|by eexists _, _].
  destruct (Ha arr eq_refl) as [alen Hain]. cbn [qinfo_arr chinfo].
  destruct (qinfo_arr_inside _ _ _ _ _ Hr Hain Hq) as (ret & qa & -> & Hqa). cbn [mbind option_bind].
  destruct (negb _); by eexists _, _.
Qed.

Lemma deserialize_chmsgs_inside n : forall i buf len cur msgs,
  region_ok m buf len -> found buf len URPC_TLV_TYPE_CHANNEL_MSG cur -> Forall (chmsg_in m) msgs ->
  0 <= i -> i + Z.of_nat n <= zlen msgs ->
  exists ret msgs', deserialize_chmsgs base n i m buf len cur msgs = Some (ret, msgs') /\
    Forall (chmsg_in m) msgs' /\ zlen msgs' = zlen msgs.
Proof.
  induction n as [|n IH]; intros i buf len cur msgs Hr Hc Ha Hi Hn; cbn [deserialize_chmsgs].
  { by eexists _, _. }
  destruct cur as [cur|]; [|by eexists _, _].
  destruct (Hc cur eq_refl) as [clen Hin]. pose proof (hi_len _ _ _ _ _ _ Hin) as [-> _]. cbn [mbind option_bind].
  pose proof (hi_msg _ _ _ _ _ _ Hin ltac:(done)) as Hreg.
  destruct (zget msgs i) as [c|] eqn:Hg.
  2: { unfold zget, zlen in *. rewrite (proj2 (Z.leb_le _ _)) in Hg by lia. apply lookup_ge_None_1 in Hg. lia. }
  cbn [mbind option_bind]. assert (Hcin : chmsg_in m c).
  { unfold zget in Hg. destruct (0 <=? i); [|done]. by eapply Forall_lookup_1 in Ha. }
  destruct (chmsg_inside _ _ _ Hreg Hcin) as (r & c' & -> & Hc'). cbn [mbind option_bind].
  destruct (zset_Forall (chmsg_in m) msgs i c' Ha Hc') as (msgs1 & -> & Ha1 & Hl1); [lia|]. cbn [mbind option_bind].
  destruct (search_next_inside base m buf len cur _ clen URPC_TLV_TYPE_CHANNEL_MSG Hplaced Hr Hin) as (nx & -> & Hf).
  cbn [mbind option_bind].
  destruct (IH (i + 1) buf len nx msgs1) as (ret & msgs' & -> & Ha' & Hl'); try done; [lia|lia|].
  eexists _, _. split; [done|]. split; [done|lia].
Qed.

(** The walk every message deserializer starts with. *)
Lemma message_inside ty info_ty :
  is_message_type ty = true -> region_ok m 0 (zlen m) ->
  exists msg, urpc_tlv_search_element base m 0 (zlen m) ty = Some msg /\
    forall h, msg = Some h -> exists len, tlv_len m h = Some len /\ region_ok m (h + TLV_HEAD_SIZE) len /\
      exists info, urpc_tlv_search_element base m (h + TLV_HEAD_SIZE) len info_ty = Some info /\
        forall i, info = Some i -> exists ilen, tlv_len m i = Some ilen /\
          (forall n, n <= ilen -> ptr_in m n (Some (i + TLV_HEAD_SIZE))) /\ 0 <= ilen /\
          exists arr, urpc_tlv_search_next_element base m i
              (urpc_tlv_get_left_len (h + TLV_HEAD_SIZE) len i) URPC_TLV_TYPE_ARRAY = Some arr /\
            found (h + TLV_HEAD_SIZE) len URPC_TLV_TYPE_ARRAY arr.
Proof.
  intros Hty Hr. destruct (search_inside base m _ _ ty Hplaced Hr) as (msg & Hs & Hf). exists msg. split; [done|].
  intros h ->. destruct (Hf h eq_refl) as [len Hin]. pose proof (hi_len _ _ _ _ _ _ Hin) as [Hl _].
  pose proof (hi_msg _ _ _ _ _ _ Hin Hty) as Hreg. exists len. split; [done|]. split; [done|].
  destruct (search_inside base m _ _ info_ty Hplaced Hreg) as (info & Hsi & Hfi). exists info. split; [done|].
  intros i ->. destruct (Hfi i eq_refl) as [ilen Hini]. pose proof (hi_len _ _ _ _ _ _ Hini) as [Hil Hilr].
  exists ilen. split; [done|]. split; [by eapply head_value|]. split; [lia|].
  by apply (search_next_inside base m _ _ i info_ty ilen URPC_TLV_TYPE_ARRAY Hplaced Hreg).
Qed.

Lemma attach_chmsg_arr_inside buf size head len arr :
  region_ok m buf size -> head_in m buf size head URPC_TLV_TYPE_ARRAY len ->
  chmsgs_in m arr -> zlen (chmsgs arr) = CHANNEL_INFO_MAX_NUM ->
  exists ret arr', attach_msg_v1_deserialize_chmsg_arr base m head arr = Some (ret, arr') /\
    chmsgs_in m arr' /\ zlen (chmsgs arr') = zlen (chmsgs arr).
Proof.
  intros Hr Hin [Hn Ha] Hl. destruct (array_inside _ _ _ _ Hr Hin) as (num & Hnum & Hnr & Hdl & Hreg).
  unfold attach_msg_v1_deserialize_chmsg_arr. rewrite Hnum, Hdl. cbn [mbind option_bind].
  destruct (Z.ltb_spec CHANNEL_INFO_MAX_NUM num); [by eexists _, _|].
  destruct (search_inside base m _ _ URPC_TLV_TYPE_CHANNEL_MSG Hplaced Hreg) as (cur & -> & Hf). cbn [mbind option_bind].
  destruct (deserialize_chmsgs_inside (Z.to_nat num) 0 _ _ cur (chmsgs arr) Hreg Hf Ha)
    as (ret & msgs & -> & Hm & Hlm); [done|lia|]. cbn [mbind option_bind].
  destruct (negb _); eexists _, _; (split; [done|]); (split; [split; [cbn; lia|done]|done]).
Qed.

Lemma connect_chmsg_arr_inside buf size head len arr :
  region_ok m buf size -> head_in m buf size head URPC_TLV_TYPE_ARRAY len ->
  chmsgs_in m arr -> (forall num, tlv_arr_num m head = Some num -> num <= zlen (chmsgs arr)) ->
  exists ret arr', connect_msg_deserialize_chmsg_arr base m head arr = Some (ret, arr') /\ chmsgs_in m arr'.
Proof.
  intros Hr Hin [Hn Ha] Hl. destruct (array_inside _ _ _ _ Hr Hin) as (num & Hnum & Hnr & Hdl & Hreg).
  specialize (Hl num Hnum). unfold connect_msg_deserialize_chmsg_arr. rewrite Hnum, Hdl. cbn [mbind option_bind].
  destruct (search_inside base m _ _ URPC_TLV_TYPE_CHANNEL_MSG Hplaced Hreg) as (cur & Hs & Hf).
  assert (Hcur : exists c, (if negb (num =? 0) then urpc_tlv_search_element base m (head + TLV_ARR_HEAD_SIZE) (len - 4)
    URPC_TLV_TYPE_CHANNEL_MSG else Some None) = Some c /\ found (head + TLV_ARR_HEAD_SIZE) (len - 4)
    URPC_TLV_TYPE_CHANNEL_MSG c).
  { destruct (negb _); [by exists cur|]. by exists None. }
  destruct Hcur as (c & -> & Hc). cbn [mbind option_bind].
  destruct (deserialize_chmsgs_inside (Z.to_nat num) 0 _ _ c (chmsgs arr) Hreg Hc Ha)
    as (ret & msgs & -> & Hm & Hlm); [done|lia|]. cbn [mbind option_bind].
  destruct (negb _); eexists _, _; (split; [done|]); (split; [cbn; lia|done]).
Qed.

End Bounds.

(** ** Attach messages *)

(** The deserializer does not compare the length of the attach information
    with the size of its record, so the record is known to lie inside the
    buffer only as far as its element declares. *)
Definition attach_info_in (m : list Z) (p : Z) : Prop :=
  exists len, tlv_len m (p - TLV_HEAD_SIZE) = Some len /\ 0 <= len /\ ptr_in m len (Some p).

Definition attach_in (m : list Z) (data : urpc_attach_msg_v1) : Prop :=
  (forall p, attach_info data = Some p -> attach_info_in m p) /\ chmsgs_in m (attach_chmsg_arr data) /\
  zlen (chmsgs (attach_chmsg_arr data)) = CHANNEL_INFO_MAX_NUM.

Definition fresh_attach (m : list Z) : urpc_attach_msg_v1 :=
  {| attach_buffer := Some m; attach_len := zlen m; attach_info := None;
     attach_chmsg_arr := zero_chmsgs CHANNEL_INFO_MAX_NUM |}.

Lemma zero_chmsgs_in m n : 0 <= n -> chmsgs_in m (zero_chmsgs n) /\ zlen (chmsgs (zero_chmsgs n)) = n.
Proof.
  intros Hn. assert (Hl : zlen (chmsgs (zero_chmsgs n)) = n).
  { cbn [zero_chmsgs chmsgs]. unfold zlen. rewrite length_replicate. lia. }
  split; [|done]. split; [rewrite Hl; cbn; lia|]. apply Forall_replicate. repeat split; try done.
  by apply Forall_replicate.
Qed.

(** C16: the attach deserializer is safe on every received buffer whose
    declared lengths are well formed: it ends with a result, reads only inside
    the buffer and writes only inside the two channel messages and their 256
    queue pointers, accepts at most as many entries as it has room for, and
    every channel and queue record it points to lies whole inside the buffer.
    The attach information it points to lies inside the buffer for the length
    its element declares; whether that is the size of the record is not
    checked ([short_attach_info]). *)
Theorem attach_bounds base m :
  buffer_placed base m -> tlv_ok m = true ->
  exists ret data, urpc_attach_msg_v1_deserialize base (fresh_attach m) = Some (ret, data) /\ attach_in m data.
Proof.
  intros Hp Hok. pose proof (region_ok_whole _ Hok) as Hr.
  destruct (zero_chmsgs_in m CHANNEL_INFO_MAX_NUM ltac:(done)) as [Hz Hzl].
  assert (Hfresh : attach_in m (fresh_attach m)) by (by split_and!).
  unfold urpc_attach_msg_v1_deserialize, attach_msg_v1_deserialize_attach_msg. cbn [fresh_attach attach_buffer attach_len].
  destruct (message_inside base m Hp URPC_TLV_TYPE_ATTACH_MSG URPC_TLV_TYPE_ATTACH_INFO ltac:(done) Hr)
    as (msg & -> & Hmsg). cbn [mbind option_bind].
  destruct msg as [h|]; [|by eexists _, _]. destruct (Hmsg h eq_refl) as (len & -> & Hreg & info & Hi & Hinfo).
  cbn [mbind option_bind]. rewrite Hi. cbn [mbind option_bind].
  destruct info as [i|]; [|by eexists _, _]. destruct (Hinfo i eq_refl) as (ilen & Hlen & Hptr & Hil & arr & Hn & Hf).
  rewrite Hn. cbn [mbind option_bind].
  assert (Hinf : forall p, Some (i + TLV_HEAD_SIZE) = Some p -> attach_info_in m p).
  { intros p [= <-]. exists ilen. rewrite Z.add_simpl_r. auto with lia. }
  destruct arr as [a|]; [|by eexists _, _]. destruct (Hf a eq_refl) as [alen Hin].
  destruct (attach_chmsg_arr_inside base m Hp _ _ _ _ _ Hreg Hin Hz Hzl) as (ret & arr & Ha & Harr & Hal).
  cbn [fresh_attach attach_chmsg_arr]. rewrite Ha. cbn [mbind option_bind]. eexists _, _. split; [done|].
  split; [done|]. split; [done|]. by rewrite <-Hzl.
Qed.

(** ** Connect messages *)

Definition connect_in (m : list Z) (data : urpc_connect_msg) : Prop :=
  ptr_in m SIZEOF_INSTANCE_KEY (connect_info data) /\ chmsgs_in m (connect_chmsg_arr data).

(** C18: the server's handling of a connect message is safe on every received
    buffer whose declared lengths are well formed: counting the channels,
    allocating by that count and parsing end with a result, read only inside
    the buffer, write only inside the allocated message, and every record
    pointed to lies whole inside the buffer. *)
Theorem connect_bounds base pl m :
  buffer_placed base m -> tlv_ok m = true ->
  exists ret r, server_process_connection_msg base pl m (zlen m) = Some (ret, r) /\
    forall key msg, r = Some (key, msg) -> connect_in m msg.
Proof.
  intros Hp Hok. pose proof (region_ok_whole _ Hok) as Hr.
  unfold server_process_connection_msg, urpc_connect_msg_extract_channel_count.
  destruct (message_inside base m Hp URPC_TLV_TYPE_CONNECT_MSG URPC_TLV_TYPE_CONNECT_INFO ltac:(done) Hr)
    as (msg & Hs & Hmsg). rewrite Hs. cbn [mbind option_bind].
  destruct msg as [h|]; [|by eexists _, _]. destruct (Hmsg h eq_refl) as (len & Hl & Hreg & info & Hi & Hinfo).
  rewrite Hl. cbn [mbind option_bind]. rewrite Hi. cbn [mbind option_bind].
  destruct info as [i|]; [|by eexists _, _]. destruct (Hinfo i eq_refl) as (ilen & Hil & Hptr & Hil0 & arr & Hn & Hf).
  rewrite Hn. cbn [mbind option_bind]. destruct arr as [a|]; [|by eexists _, _]. destruct (Hf a eq_refl) as [alen Hin].
  destruct (array_inside m _ _ _ _ Hreg Hin) as (num & Hnum & Hnr & _). rewrite Hnum. cbn [mbind option_bind].
  destruct (URPC_MAX_CLIENT_CHANNELS_PER_CLIENT <? num); [by eexists _, _|]. cbn [mbind option_bind].
  rewrite (proj2 (Z.ltb_ge _ _)) by lia. destruct (negb (calloc_succeeds pl)); [by eexists _, _|].
  destruct (zero_chmsgs_in m num ltac:(lia)) as [Hz Hzl].
  unfold urpc_connect_msg_deserialize, connect_msg_deserialize_connect_msg. cbn [connect_buffer connect_len].
  rewrite Hs. cbn [mbind option_bind]. rewrite Hl. cbn [mbind option_bind]. rewrite Hi. cbn [mbind option_bind].
  rewrite Hil. cbn [mbind option_bind]. destruct (Z.ltb_spec ilen SIZEOF_INSTANCE_KEY) as [|Hik]; [by eexists _, _|].
  rewrite Hn. cbn [mbind option_bind connect_chmsg_arr].
  destruct (connect_chmsg_arr_inside base m Hp _ _ _ _ _ Hreg Hin Hz) as (ret & arr & Ha & Harr).
  { intros num' Hnum'. rewrite Hzl. simplify_eq. done. }
  rewrite Ha. cbn [mbind option_bind]. destruct (negb (ret =? URPC_SUCCESS)); [by eexists _, _|].
  cbn [connect_info]. specialize (Hptr _ Hik). pose proof Hptr as [H1 H2]. unfold SIZEOF_INSTANCE_KEY in H2.
  destruct (read_bytes_in m (i + TLV_HEAD_SIZE) SIZEOF_EID) as (eid & He & _); [lia|done|unfold SIZEOF_EID; lia|].
  pose proof Hr as (_ & _ & _ & Hbytes & _).
  destruct (load32_in m (i + TLV_HEAD_SIZE + 16) Hbytes) as (pid & Hpid & _); [lia..|].
  unfold load_key. rewrite He, Hpid. cbn [mbind option_bind]. eexists _, _. split; [done|].
  intros key msg [= <- <-]. split; [done|done].
Qed.

(** ** Messages the code does not handle *)

(** A head whose length makes the 32-bit total length 0. *)
Definition looping_message : list Z := le32 1 ++ le32 (2 ^ 32 - 8).

(** An array element with no room for its number, at the end of the buffer. *)
Definition short_array_message : list Z :=
  tlv (URPC_TLV_TYPE_ATTACH_MSG,
       tlv (URPC_TLV_TYPE_ATTACH_INFO, zeros SIZEOF_ATTACH_INFO) ++ tlv (URPC_TLV_TYPE_ARRAY, [])).

(** Channel messages without a channel record. *)
Definition empty_attach_message : list Z :=
  tlv (URPC_TLV_TYPE_ATTACH_MSG,
       tlv (URPC_TLV_TYPE_ATTACH_INFO, zeros SIZEOF_ATTACH_INFO) ++
       tlv (URPC_TLV_TYPE_ARRAY, le32 1 ++ tlv (URPC_TLV_TYPE_CHANNEL_MSG, []))).

Definition empty_connect_message : list Z :=
  tlv (URPC_TLV_TYPE_CONNECT_MSG,
       tlv (URPC_TLV_TYPE_CONNECT_INFO, zeros SIZEOF_INSTANCE_KEY) ++
       tlv (URPC_TLV_TYPE_ARRAY, le32 1 ++ tlv (URPC_TLV_TYPE_CHANNEL_MSG, []))).

(** A memory-information message cut off behind its head. *)
Definition cut_mem_message : list Z := le32 URPC_TLV_TYPE_ARRAY ++ le32 60 ++ le32 1.

(** The server's check of a parsed attach message, and the channel record it
    then reads through. *)
Definition attach_accepted (base : Z) (m : list Z) : option (bool * option Z) :=
  '(ret, data) ← urpc_attach_msg_v1_deserialize base (fresh_attach m);
  ok ← channel_queue_info_validate data;
  c ← zget (chmsgs (attach_chmsg_arr data)) 0;
  Some ((ret =? URPC_SUCCESS) && ok, chinfo c).

(** Likewise for a connect message: the search for a server channel reads
    through every channel record. *)
Definition connect_update (base : Z) (pl : platform) (m : list Z) (mapped_id : Z) : option (Z * option (option Z)) :=
  '(ret, r) ← server_process_connection_msg base pl m (zlen m);
  '(_, msg) ← r;
  Some (ret, one_by_one_channel m msg mapped_id).

(** Attach information without a value in front of an empty array. *)
Definition short_info_message : list Z :=
  tlv (URPC_TLV_TYPE_ATTACH_MSG, tlv (URPC_TLV_TYPE_ATTACH_INFO, []) ++ tlv (URPC_TLV_TYPE_ARRAY, le32 0)).

(** Attach information that declares no value is accepted, and its record
    reaches past the end of the message. *)
Example short_attach_info :
  tlv_ok short_info_message = true /\
  exists data p, urpc_attach_msg_v1_deserialize 4096 (fresh_attach short_info_message) = Some (URPC_SUCCESS, data) /\
    attach_info data = Some p /\ zlen short_info_message < p + SIZEOF_ATTACH_INFO.
Proof.
  split; [by vm_compute|]. eexists _, _. split; [vm_compute; reflexivity|]. split; [reflexivity|]. by compute.
Qed.

(** Messages a peer can send that the parsers do not survive or wrongly
    accept.  A length that wraps: every round of the element search comes back
    to its own state. *)
Example wrapping_length_message fuel :
  search_loop (S fuel) looping_message 0 (zlen looping_message) URPC_TLV_TYPE_ATTACH_MSG 0 =
  search_loop fuel looping_message 0 (zlen looping_message) URPC_TLV_TYPE_ATTACH_MSG 0.
Proof. apply (search_wrapping_length_round fuel looping_message 0 8 1); by vm_compute. Qed.

(** An array element too short for its number is read past the end of the
    buffer.  The memory-information handler ignores the length it received
    and reads past a cut-off message. *)
Example short_messages_overrun :
  urpc_attach_msg_v1_deserialize 4096 (fresh_attach short_array_message) = None /\
  urpc_mem_info_set 4096 true cut_mem_message (zlen cut_mem_message) = None.
Proof. split; by vm_compute. Qed.

(** A channel message without a channel record is accepted by the attach
    handler, which then reads through a NULL pointer, and by the connect
    handler, whose search for the server channel does. *)
Example missing_records_accepted pl mapped_id :
  calloc_succeeds pl = true ->
  attach_accepted 4096 empty_attach_message = Some (true, None) /\
  connect_update 4096 pl empty_connect_message mapped_id = Some (URPC_SUCCESS, None).
Proof.
  intros Hc. split; [by vm_compute|]. unfold connect_update, server_process_connection_msg. rewrite Hc. by vm_compute.
Qed.

Lemma attach_bounds_witness :
  tlv_ok empty_attach_message = true /\
  exists ret data, urpc_attach_msg_v1_deserialize 4096 (fresh_attach empty_attach_message) = Some (ret, data) /\
    attach_in empty_attach_message data.
Proof. split; [by vm_compute|]. apply (attach_bounds 4096 empty_attach_message); by vm_compute. Defined.

Lemma connect_bounds_witness :
  let pl := {| channel_get_local_queue_info := fun _ => None; is_hwub_offload_enabled := false;
               first_provider_eid := None; getpid := 1; crypto_ssl_gen_crypto_key := None; calloc_succeeds := true |} in
  tlv_ok empty_connect_message = true /\
  exists ret r, server_process_connection_msg 4096 pl empty_connect_message (zlen empty_connect_message) = Some (ret, r) /\
    forall key msg, r = Some (key, msg) -> connect_in empty_connect_message msg.
Proof.
  intros pl. split; [by vm_compute|]. apply (connect_bounds 4096 pl empty_connect_message); by vm_compute.
Defined.
