(* ===== verification/DlockMemory.v ===== *)
(** * Lock memory of the dlock server

    The distributed lock server keeps every lock in one memory region,
    [lock_memory] of src/src/ulock/dlock/lib/server/lock_memory.cpp.  This file
    models the allocator of that region: the ordered map of free intervals,
    [get_lock_memory] in its two forms and [release_lock_memory], with the
    bytes they clear.  The theorems show that the free intervals and the
    blocks handed out partition the region, that intervals are coalesced, so
    an allocation fails only when no run of free bytes is long enough, and
    that releasing every block restores the initial map. *)

From stdpp Require Import sorting.
From S2P Require Import Prelude Memory.

(** ** Data *)

Inductive dlock_type := DLOCK_ATOMIC | DLOCK_RW | DLOCK_FAIR.

#[global] Instance dlock_type_eq_dec : EqDecision dlock_type.
Proof. solve_decision. Defined.

(** [g_lock_size]: the sizes of [atomic_lock], [rw_lock] and [fair_lock]. *)
Definition g_lock_size (t : dlock_type) : Z :=
  match t with DLOCK_ATOMIC => 8 | DLOCK_RW => 16 | DLOCK_FAIR => 24 end.

Definition MAX_NUM_LOCK : Z := 51200.
Definition LOCK_MEMORY_SIZE : Z := g_lock_size DLOCK_FAIR * MAX_NUM_LOCK.
Definition UINT_MAX : Z := 2 ^ 32 - 1.

(** [std::map<uint32_t, uint32_t>]: entries in the order of their keys. *)
Abbreviation memory_map_t := (list (Z * Z)).

Fixpoint map_set (k v : Z) (m : memory_map_t) : memory_map_t :=
  match m with
  | [] => [(k, v)]
  | (k', v') :: r =>
    if k <? k' then (k, v) :: m
    else if k =? k' then (k, v) :: r
    else (k', v') :: map_set k v r
  end.

Fixpoint map_erase (k : Z) (m : memory_map_t) : memory_map_t :=
  match m with
  | [] => []
  | (k', v') :: r => if k =? k' then r else (k', v') :: map_erase k r
  end.

Fixpoint map_find (k : Z) (m : memory_map_t) : option Z :=
  match m with
  | [] => None
  | (k', v') :: r => if k =? k' then Some v' else map_find k r
  end.

(** [upper_bound(k)] stepped back: the last entry whose key is at most [k],
    or [None] when [upper_bound(k)] is the first entry. *)
Fixpoint map_floor (k : Z) (m : memory_map_t) : option (Z * Z) :=
  match m with
  | [] => None
  | (k', v') :: r =>
    if k <? k' then None
    else match map_floor k r with Some e => Some e | None => Some (k', v') end
  end.

(** The scan of [get_lock_memory]: the first interval that is long enough. *)
Fixpoint first_fit (size : Z) (m : memory_map_t) : option (Z * Z) :=
  match m with
  | [] => None
  | (o, l) :: r => if l <? size then first_fit size r else Some (o, l)
  end.

Record lock_memory := LockMemory {
  m_p_lock_memory : list Z;
  m_is_primary : bool;
  m_free_memory_map : memory_map_t
}.

(** ** Operations *)

(** The constructor. *)
Definition lock_memory_init (size : Z) (is_primary : bool) : lock_memory :=
  LockMemory (replicate (Z.to_nat size) 0) is_primary (map_set 0 size []).

Definition memset0 (m : list Z) (off n : Z) : option (list Z) :=
  write_bytes m off (replicate (Z.to_nat n) 0).

(** [get_lock_memory(lock_type)]. *)
Definition get_lock_memory (t : dlock_type) (lm : lock_memory)
  : option (lock_memory * Z) :=
  let size := g_lock_size t in
  if negb (m_is_primary lm) then Some (lm, UINT_MAX)
  else match first_fit size (m_free_memory_map lm) with
  | None => Some (lm, UINT_MAX)
  | Some (offset, length) =>
    let m1 := map_erase offset (m_free_memory_map lm) in
    let m2 := if size <? length
              then map_set (u32 (offset + size)) (u32 (length - size)) m1 else m1 in
    bs ← memset0 (m_p_lock_memory lm) offset size;
    Some (LockMemory bs (m_is_primary lm) m2, offset)
  end.

(** [get_lock_memory(lock_type, offset)]. *)
Definition get_lock_memory_at (t : dlock_type) (offset : Z) (lm : lock_memory)
  : option (lock_memory * Z) :=
  let size := g_lock_size t in
  match map_floor offset (m_free_memory_map lm) with
  | None => Some (lm, UINT_MAX)
  | Some (mem_offset, len) =>
    let mem_end := u32 (mem_offset + len) in
    let end_ := u32 (offset + size) in
    if (offset <? mem_offset) || (mem_end <? end_) then Some (lm, UINT_MAX)
    else
      let m1 := map_erase mem_offset (m_free_memory_map lm) in
      let m2 := if mem_offset <? offset
                then map_set mem_offset (u32 (offset - mem_offset)) m1 else m1 in
      let m3 := if end_ <? mem_end
                then map_set end_ (u32 (mem_end - end_)) m2 else m2 in
      bs ← memset0 (m_p_lock_memory lm) offset size;
      Some (LockMemory bs (m_is_primary lm) m3, offset)
  end.

Definition release_lock_memory (offset : Z) (t : dlock_type) (lm : lock_memory)
  : lock_memory :=
  let m := m_free_memory_map lm in
  let key := u32 (offset + g_lock_size t) in
  let '(m1, len1) :=
    match map_find key m with
    | Some l => (map_erase key m, u32 (g_lock_size t + l))
    | None => (m, g_lock_size t)
    end in
  let '(m2, new_offset, new_length) :=
    match map_floor offset m1 with
    | Some (o, l) =>
      if u32 (o + l) =? offset
      then (map_erase o m1, o, u32 (len1 + l)) else (m1, offset, len1)
    | None => (m1, offset, len1)
    end in
  LockMemory (m_p_lock_memory lm) (m_is_primary lm) (map_set new_offset new_length m2).

(** ** Use of the allocator

    The server allocates with either form, its handlers write inside the blocks
    in use, and it releases what it was given; the list carries the blocks in
    use. *)

Inductive mem_op :=
| MGet (t : dlock_type)
| MGetAt (t : dlock_type) (offset : Z)
| MWrite (i : nat) (at_ : Z) (bytes : list Z)
| MRelease (i : nat).

Definition mem_state : Type := lock_memory * list (Z * dlock_type).

Definition mem_grant (t : dlock_type) (out : list (Z * dlock_type))
    (r : option (lock_memory * Z)) : option mem_state :=
  '(lm, off) ← r;
  Some (lm, if off =? UINT_MAX then out else (off, t) :: out).

Definition mem_step (st : mem_state) (op : mem_op) : option mem_state :=
  let '(lm, out) := st in
  match op with
  | MGet t => mem_grant t out (get_lock_memory t lm)
  | MGetAt t off => mem_grant t out (get_lock_memory_at t off lm)
  | MWrite i o bytes =>
    match out !! i with
    | Some (off, t) =>
      if (0 <=? o) && (o + zlen bytes <=? g_lock_size t) then
        bs ← write_bytes (m_p_lock_memory lm) (off + o) bytes;
        Some (LockMemory bs (m_is_primary lm) (m_free_memory_map lm), out)
      else Some st
    | None => Some st
    end
  | MRelease i =>
    match out !! i with
    | Some (off, t) => Some (release_lock_memory off t lm, delete i out)
    | None => Some st
    end
  end.

Fixpoint mem_run (st : mem_state) (ops : list mem_op) : option mem_state :=
  match ops with
  | [] => Some st
  | op :: ops => st' ← mem_step st op; mem_run st' ops
  end.

(** ** Interval lists *)

Definition inside (e : Z * Z) (x : Z) : Z :=
  if (e.1 <=? x) && (x <? e.1 + e.2) then 1 else 0.

(** How many intervals of the list cover the byte at [x]. *)
Fixpoint cov (m : list (Z * Z)) (x : Z) : Z :=
  match m with
  | [] => 0
  | e :: r => inside e x + cov r x
  end.

(** [a] ends strictly before [b] starts: there is a byte between them. *)
Definition before (a b : Z * Z) : Prop := a.1 + a.2 < b.1.

Definition span_ok (size : Z) (e : Z * Z) : Prop :=
  0 <= e.1 /\ 0 < e.2 /\ e.1 + e.2 <= size.

(** A coalesced free map of a region of [size] bytes. *)
Definition free_ok (size : Z) (m : memory_map_t) : Prop :=
  Forall (span_ok size) m /\ StronglySorted before m.

Definition block (b : Z * dlock_type) : Z * Z := (b.1, g_lock_size b.2).

Lemma g_lock_size_pos t : 8 <= g_lock_size t <= 24.
Proof. destruct t; simpl; lia. Qed.

Ltac sizes := repeat match goal with
  | t : dlock_type |- _ =>
    lazymatch goal with
    | _ : 8 <= g_lock_size t <= 24 |- _ => fail
    | _ => pose proof (g_lock_size_pos t)
    end
  end.

Lemma inside_range e x : 0 <= inside e x <= 1.
Proof. unfold inside. split_ifs; lia. Qed.

Lemma cov_nonneg m x : 0 <= cov m x.
Proof. induction m as [|e m IH]; simpl; [lia|]. pose proof (inside_range e x). lia. Qed.

Lemma cov_app m n x : cov (m ++ n) x = cov m x + cov n x.
Proof. induction m as [|e m IH]; simpl; lia. Qed.

Lemma cov_elem e m x : e ∈ m -> inside e x <= cov m x.
Proof.
  induction 1 as [e m|e e' m _ IH]; simpl.
  - pose proof (cov_nonneg m x). lia.
  - pose proof (inside_range e' x). lia.
Qed.

Lemma cov_pos_elem m x : 0 < cov m x -> exists e, e ∈ m /\ e.1 <= x < e.1 + e.2.
Proof.
  induction m as [|e m IH]; simpl; [lia|]. intros H.
  destruct (decide (0 < cov m x)) as [Hm|Hm].
  - destruct (IH Hm) as (e' & ? & ?). exists e'. split; [by right|done].
  - assert (Hi : inside e x = 1).
    { pose proof (inside_range e x). pose proof (cov_nonneg m x). lia. }
    exists e. split; [by left|]. revert Hi. unfold inside. split_ifs; breflect; lia.
Qed.

#[global] Instance cov_Proper : Proper ((≡ₚ) ==> eq ==> eq) cov.
Proof. intros m n H x _ <-. induction H; simpl; lia. Qed.

Lemma cov_delete (out : list (Z * dlock_type)) i b x :
  out !! i = Some b ->
  cov (block <$> out) x = inside (block b) x + cov (block <$> delete i out) x.
Proof. intros H. by rewrite (delete_Permutation _ _ _ H) at 1. Qed.

Lemma free_ok_app size m n :
  free_ok size (m ++ n) <->
  free_ok size m /\ free_ok size n /\ (forall a b, a ∈ m -> b ∈ n -> before a b).
Proof.
  unfold free_ok. rewrite Forall_app. split.
  - intros [[? ?] Hs]. split_and!; try done.
    + by eapply StronglySorted_app_1_l.
    + by eapply StronglySorted_app_1_r.
    + intros a b Ha Hb. by eapply StronglySorted_app_1_elem_of.
  - intros ([? ?] & [? ?] & Hs). split; [done|]. by apply StronglySorted_app_2.
Qed.

Lemma free_ok_cons size e m :
  free_ok size (e :: m) <->
  span_ok size e /\ free_ok size m /\ (forall b, b ∈ m -> before e b).
Proof.
  unfold free_ok. rewrite Forall_cons, StronglySorted_cons, Forall_forall.
  rewrite (Forall_forall (before e)). tauto.
Qed.

(** ** The map operations on a sorted map *)

Lemma map_erase_split k v m n :
  (forall e, e ∈ m -> e.1 < k) -> map_erase k (m ++ (k, v) :: n) = m ++ n.
Proof.
  induction m as [|[k' v'] m IH]; simpl; intros H.
  - by rewrite Z.eqb_refl.
  - assert (k' < k) by (apply (H (k', v')); left).
    rewrite (proj2 (Z.eqb_neq k k')) by lia. f_equal. apply IH.
    intros e He. apply H. by right.
Qed.

Lemma map_set_split k v m n :
  (forall e, e ∈ m -> e.1 < k) -> (forall e, e ∈ n -> k < e.1) ->
  map_set k v (m ++ n) = m ++ (k, v) :: n.
Proof.
  induction m as [|[k' v'] m IH]; simpl; intros Hm Hn.
  - destruct n as [|[k' v'] n]; [done|]. simpl.
    assert (k < k') by (apply (Hn (k', v')); left).
    by rewrite (proj2 (Z.ltb_lt k k')).
  - assert (k' < k) by (apply (Hm (k', v')); left).
    rewrite (proj2 (Z.ltb_ge k k')), (proj2 (Z.eqb_neq k k')) by lia. f_equal.
    apply IH; [|done]. intros e He. apply Hm. by right.
Qed.

Lemma map_find_split size k m n :
  (forall e, e ∈ m -> e.1 < k) -> (forall e, e ∈ n -> k <= e.1) ->
  StronglySorted before n -> Forall (span_ok size) n ->
  map_find k (m ++ n) =
  match n with (k', v) :: _ => if k =? k' then Some v else None | [] => None end.
Proof.
  intros Hm Hn Hs Hf. induction m as [|[k' v'] m IH]; simpl in *.
  - destruct n as [|[k' v'] n]; [done|]. simpl. destruct (Z.eqb_spec k k'); [done|].
    apply StronglySorted_cons in Hs as [Hb _].
    assert (Hlt : forall e, e ∈ n -> k < e.1).
    { intros e He. rewrite Forall_forall in Hb. specialize (Hb e He).
      specialize (Hn (k', v') ltac:(left)). unfold before in Hb. simpl in *.
      apply Forall_cons in Hf as [(_ & ? & _) _]. simpl in *. lia. }
    clear -Hlt. induction n as [|[k' v'] n IH]; [done|]. simpl.
    specialize (Hlt (k', v') ltac:(left)) as Hk. simpl in Hk.
    rewrite (proj2 (Z.eqb_neq k k')) by lia. apply IH. intros e He. apply Hlt. by right.
  - assert (k' < k) by (apply (Hm (k', v')); left).
    rewrite (proj2 (Z.eqb_neq k k')) by lia. apply IH. intros e He. apply Hm. by right.
Qed.

Lemma map_floor_split k m n :
  (forall e, e ∈ m -> e.1 <= k) -> (forall e, e ∈ n -> k < e.1) ->
  map_floor k (m ++ n) = last m.
Proof.
  intros Hm Hn. induction m as [|[k' v'] m IH].
  - destruct n as [|[k' v'] n]; [done|]. simpl.
    assert (k < k') by (apply (Hn (k', v')); left).
    by rewrite (proj2 (Z.ltb_lt k k')).
  - simpl. assert (k' <= k) by (apply (Hm (k', v')); left).
    rewrite (proj2 (Z.ltb_ge k k')) by lia.
    rewrite IH by (intros e He; apply Hm; by right). rewrite last_cons. by case_match.
Qed.

(** Every key splits a sorted map. *)
Lemma map_split size k m :
  free_ok size m -> exists a b, m = a ++ b /\
  (forall e, e ∈ a -> e.1 <= k) /\ (forall e, e ∈ b -> k < e.1).
Proof.
  induction m as [|[k' v'] m IH]; intros H.
  - exists [], []. split_and!; [done|set_solver..].
  - apply free_ok_cons in H as ((Hp & Hl & _) & Hm & Hb). simpl in *.
    destruct (decide (k' <= k)) as [Hk|Hk].
    + destruct (IH Hm) as (a & b & -> & Ha & Hb'). exists ((k', v') :: a), b.
      split_and!; [done| |done]. intros e [->|He]%elem_of_cons; [done|by apply Ha].
    + exists [], ((k', v') :: m). split_and!; [done|set_solver|].
      intros e [->|He]%elem_of_cons; [simpl; lia|].
      specialize (Hb e He). unfold before in Hb. simpl in Hb. lia.
Qed.

Lemma first_fit_spec size m :
  match first_fit size m with
  | Some (o, l) => exists a b, m = a ++ (o, l) :: b /\ size <= l
  | None => forall e, e ∈ m -> e.2 < size
  end.
Proof.
  induction m as [|[o l] m IH]; simpl; [set_solver|].
  destruct (Z.ltb_spec l size) as [Hl|Hl].
  - destruct (first_fit size m) as [[o' l']|].
    + destruct IH as (a & b & -> & ?). by exists ((o, l) :: a), b.
    + intros e [->|He]%elem_of_cons; [done|by apply IH].
  - by exists [], m.
Qed.

(** ** The operations on the partition *)

Section partition.
Variable size : Z.
Hypothesis size_u32 : 0 < size < 2 ^ 32 - 1.

(** The region is partitioned into free intervals and blocks in use. *)
Definition mem_inv (st : mem_state) : Prop :=
  let '(lm, out) := st in
  zlen (m_p_lock_memory lm) = size /\
  free_ok size (m_free_memory_map lm) /\
  Forall (fun b => span_ok size (block b)) out /\
  forall x, cov (m_free_memory_map lm) x + cov (block <$> out) x = inside (0, size) x.

Lemma memset0_ok m off n :
  zlen m = size -> 0 <= off -> 0 <= n -> off + n <= size ->
  exists m', memset0 m off n = Some m' /\ zlen m' = size.
Proof.
  intros Hm Ho Hn Hs. unfold memset0, write_bytes. rewrite zlen_replicate.
  rewrite (proj2 (Z.leb_le 0 off)), (proj2 (Z.leb_le _ (zlen m))) by lia. simpl.
  eexists. split; [done|]. unfold zlen in *.
  rewrite !length_app, length_take, length_replicate, length_drop. lia.
Qed.

(** Inside one free interval, any coalesced list of sub-intervals may
    take its place. *)
Lemma free_ok_sub a e l b :
  free_ok size (a ++ e :: b) -> free_ok size l ->
  (forall e', e' ∈ l -> e.1 <= e'.1 /\ e'.1 + e'.2 <= e.1 + e.2) ->
  free_ok size (a ++ l ++ b).
Proof.
  intros (Ha & (_ & Hb & Heb)%free_ok_cons & Hab)%free_ok_app Hl Hsub.
  apply free_ok_app. split; [done|]. split.
  - apply free_ok_app. split; [done|]. split; [done|].
    intros x y Hx Hy. specialize (Hsub x Hx). specialize (Heb y Hy).
    unfold before in *. lia.
  - intros x y Hx [Hy|Hy]%elem_of_app.
    + specialize (Hsub y Hy). specialize (Hab x e Hx ltac:(left)). unfold before in *. lia.
    + apply Hab; [done|by right].
Qed.

Lemma free_keys a e b :
  free_ok size (a ++ e :: b) ->
  span_ok size e /\
  (forall x, x ∈ a -> x.1 < e.1 /\ x.1 + x.2 < e.1) /\
  (forall x, x ∈ b -> e.1 + e.2 < x.1).
Proof.
  intros ((Hf & _) & (He & _ & Heb)%free_ok_cons & Hab)%free_ok_app.
  split; [done|]. split; [|exact Heb].
  intros x Hx. specialize (Hab x e Hx ltac:(left)). unfold before in Hab.
  rewrite Forall_forall in Hf. destruct (Hf x Hx) as (_ & ? & _). lia.
Qed.

Lemma single_ok e : span_ok size e -> free_ok size [e].
Proof. intros He. split; [by apply Forall_singleton|repeat constructor]. Qed.

Lemma inside_split o n l x :
  0 <= n <= l -> inside (o, l) x = inside (o, n) x + inside (o + n, l - n) x.
Proof. intros H. unfold inside. simpl. split_ifs; breflect; destruct_or?; breflect; lia. Qed.

Lemma inside_empty o x : inside (o, 0) x = 0.
Proof. unfold inside. simpl. split_ifs; breflect; lia. Qed.

(** Taking [n] bytes from the front of a free interval. *)
Lemma take_front a o l b n :
  free_ok size (a ++ (o, l) :: b) -> 0 < n <= l ->
  let m1 := map_erase o (a ++ (o, l) :: b) in
  let m2 := if n <? l then map_set (u32 (o + n)) (u32 (l - n)) m1 else m1 in
  free_ok size m2 /\
  forall x, cov m2 x + inside (o, n) x = cov (a ++ (o, l) :: b) x.
Proof.
  intros Hf Hn m1 m2. pose proof (free_keys _ _ _ Hf) as ((Ho & Hl & Hs) & Ha & Hb).
  cbn [fst snd] in *.
  assert (E : m1 = a ++ b) by (apply map_erase_split; intros e He; by apply Ha).
  clearbody m1. subst m1 m2.
  destruct (Z.ltb_spec n l) as [Hlt|Hge].
  - rewrite !u32_small by lia. rewrite map_set_split.
    2: { intros e He. specialize (Ha e He). lia. }
    2: { intros e He. specialize (Hb e He). lia. }
    split.
    + apply (free_ok_sub a (o, l) [(o + n, l - n)] b Hf).
      * apply single_ok. split_and!; simpl; lia.
      * intros e' ->%list_elem_of_singleton. simpl. lia.
    + intros x. rewrite !cov_app. simpl. rewrite (inside_split o n l) by lia. lia.
  - replace n with l by lia. split.
    + apply (free_ok_sub a (o, l) [] b Hf); [split; constructor|set_solver].
    + intros x. rewrite !cov_app. simpl. lia.
Qed.

Lemma opt_span_elem (c : bool) (e x : Z * Z) :
  x ∈ (if c then [e] else []) <-> c = true /\ x = e.
Proof. destruct c; rewrite ?list_elem_of_singleton, ?elem_of_nil; intuition congruence. Qed.

Lemma opt_span_ok (c : bool) e :
  (c = true -> span_ok size e) -> free_ok size (if c then [e] else []).
Proof. destruct c; intros H; [by apply single_ok, H|split; constructor]. Qed.

(** Taking [n] bytes at [off] out of a free interval. *)
Lemma take_middle a o l b off n :
  free_ok size (a ++ (o, l) :: b) -> o <= off -> 0 < n -> off + n <= o + l ->
  let m1 := map_erase o (a ++ (o, l) :: b) in
  let m2 := if o <? off then map_set o (u32 (off - o)) m1 else m1 in
  let m3 := if off + n <? o + l
            then map_set (off + n) (u32 (o + l - (off + n))) m2 else m2 in
  free_ok size m3 /\
  forall x, cov m3 x + inside (off, n) x = cov (a ++ (o, l) :: b) x.
Proof.
  intros Hf Hlo Hn Hhi m1 m2 m3.
  pose proof (free_keys _ _ _ Hf) as ((Ho & Hl & Hs) & Ha & Hb). cbn [fst snd] in *.
  assert (E1 : m1 = a ++ b) by (apply map_erase_split; intros e He; by apply Ha).
  clearbody m1. subst m1.
  set (l1 := if o <? off then [(o, off - o)] else []).
  set (l2 := if off + n <? o + l then [(off + n, o + l - (off + n))] else []).
  assert (E2 : m2 = (a ++ l1) ++ b).
  { subst m2 l1. destruct (o <? off) eqn:E; [|by rewrite app_nil_r]. breflect.
    rewrite u32_small, map_set_split by (lia || (intros e He; apply Ha in He || apply Hb in He; lia)).
    by rewrite <- app_assoc. }
  assert (E3 : m3 = a ++ (l1 ++ l2) ++ b).
  { subst m3 l2. rewrite E2. destruct (off + n <? o + l) eqn:E.
    2: { by rewrite app_nil_r, app_assoc. }
    breflect. rewrite u32_small, map_set_split; [by rewrite <- !app_assoc|..|lia].
    - intros e [He|[? ->]%opt_span_elem]%elem_of_app; [apply Ha in He; lia|]. simpl. lia.
    - intros e He. apply Hb in He. lia. }
  clearbody m3. subst m3. split.
  - apply (free_ok_sub a (o, l)); [done|..].
    + apply free_ok_app. split_and!; [apply opt_span_ok..|].
      * intros ?. breflect. split_and!; simpl; lia.
      * intros ?. breflect. split_and!; simpl; lia.
      * intros x y [? ->]%opt_span_elem [? ->]%opt_span_elem. unfold before. simpl. lia.
    + intros e [[? ->]%opt_span_elem|[? ->]%opt_span_elem]%elem_of_app;
        breflect; simpl; lia.
  - intros x. rewrite !cov_app. simpl.
    rewrite (inside_split o (off - o) l) by lia.
    replace (o + (off - o)) with off by lia.
    rewrite (inside_split off n (l - (off - o))) by lia.
    replace (l - (off - o) - n) with (o + l - (off + n)) by lia.
    subst l1 l2. split_ifs; breflect; simpl;
      repeat match goal with
      | H : off <= o |- _ => replace (off - o) with 0 by lia; rewrite (inside_empty o); clear H
      | H : o + l <= off + n |- _ =>
        replace (o + l - (off + n)) with 0 by lia; rewrite (inside_empty (off + n)); clear H
      end; lia.
Qed.

Lemma get_lock_memory_spec t lm out :
  mem_inv (lm, out) -> m_is_primary lm = true ->
  exists lm' off, get_lock_memory t lm = Some (lm', off) /\
  m_is_primary lm' = true /\
  ((off = UINT_MAX /\ lm' = lm /\
    forall e, e ∈ m_free_memory_map lm -> e.2 < g_lock_size t) \/
   (0 <= off /\ off + g_lock_size t <= size /\ mem_inv (lm', (off, t) :: out))).
Proof.
  intros (Hz & Hf & Ho & Hc) Hp. unfold get_lock_memory. rewrite Hp. simpl.
  pose proof (first_fit_spec (g_lock_size t) (m_free_memory_map lm)) as Hff.
  destruct (first_fit _ _) as [[o l]|].
  2: { exists lm, UINT_MAX. split; [done|]. split; [done|]. by left. }
  destruct Hff as (a & b & Hm & Hl). rewrite Hm in *. sizes.
  pose proof (free_keys _ _ _ Hf) as ((? & ? & ?) & _). cbn [fst snd] in *.
  destruct (memset0_ok (m_p_lock_memory lm) o (g_lock_size t)) as (bs & -> & Hbs); [lia..|].
  destruct (take_front a o l b (g_lock_size t) Hf ltac:(lia)) as [Hf' Hc'].
  eexists _, o. split; [done|]. split; [done|]. right. split; [done|]. split; [lia|].
  split; [done|]. split; [done|]. split.
  - constructor; [|done]. split_and!; simpl; lia.
  - intros x. specialize (Hc' x). specialize (Hc x). cbn zeta in Hc'.
    cbn [m_free_memory_map]. change (block (o, t)) with (o, g_lock_size t).
    change (list_fmap _ _ block out) with (block <$> out). lia.
Qed.

Lemma get_lock_memory_at_spec t off lm out :
  mem_inv (lm, out) -> 0 <= off -> off + g_lock_size t < 2 ^ 32 ->
  exists lm' off', get_lock_memory_at t off lm = Some (lm', off') /\
  m_is_primary lm' = m_is_primary lm /\
  ((off' = UINT_MAX /\ lm' = lm) \/
   (off' = off /\ off + g_lock_size t <= size /\ mem_inv (lm', (off, t) :: out))).
Proof.
  intros (Hz & Hf & Ho & Hc) H0 Hw. unfold get_lock_memory_at.
  destruct (map_split size off _ Hf) as (a & b & Hm & Ha & Hb).
  rewrite Hm, map_floor_split by done. rewrite Hm in Hf, Hc. sizes.
  destruct (last a) as [[o l]|] eqn:Hlast.
  2: { exists lm, UINT_MAX. by split_and!; [..|left]. }
  apply last_Some in Hlast as [a' ->]. rewrite <- app_assoc in Hf, Hc |- *. simpl in Hf, Hc |- *.
  pose proof (free_keys _ _ _ Hf) as ((? & ? & ?) & _). cbn [fst snd] in *.
  rewrite !(u32_small (o + l)), !(u32_small (off + g_lock_size t)) by lia.
  destruct ((off <? o) || (o + l <? off + g_lock_size t)) eqn:E.
  { exists lm, UINT_MAX. by split_and!; [..|left]. }
  breflect.
  destruct (memset0_ok (m_p_lock_memory lm) off (g_lock_size t)) as (bs & -> & Hbs); [lia..|].
  destruct (take_middle a' o l b off (g_lock_size t) Hf) as [Hf' Hc']; [lia..|].
  eexists _, off. split; [done|]. split; [done|]. right. split; [done|]. split; [lia|].
  split; [done|]. split; [done|]. split.
  - constructor; [|done]. split_and!; simpl; lia.
  - intros x. specialize (Hc' x). specialize (Hc x). cbn zeta in Hc'.
    cbn [m_free_memory_map]. change (block (off, t)) with (off, g_lock_size t).
    change (list_fmap _ _ block out) with (block <$> out). lia.
Qed.

(** The first half of [release_lock_memory]: the interval that starts where
    the block ends is joined to it. *)
Lemma merge_next a b off sz :
  free_ok size (a ++ b) -> 0 <= off -> 0 < sz -> off + sz <= size ->
  (forall e, e ∈ a -> e.1 + e.2 <= off) -> (forall e, e ∈ b -> off + sz <= e.1) ->
  exists b' len, match map_find (u32 (off + sz)) (a ++ b) with
    | Some l => (map_erase (u32 (off + sz)) (a ++ b), u32 (sz + l))
    | None => (a ++ b, sz)
    end = (a ++ b', len) /\
  free_ok size (a ++ b') /\ 0 < len /\ off + len <= size /\
  (forall e, e ∈ b' -> off + len < e.1) /\
  forall x, cov b' x + inside (off, len) x = cov b x + inside (off, sz) x.
Proof.
  intros Hf H0 Hz Hs Ha Hb. rewrite u32_small by lia.
  pose proof Hf as ([Hfa _] & [Hfb Hsb] & _)%free_ok_app.
  assert (Hlt : forall e, e ∈ a -> e.1 < off + sz).
  { intros e He. specialize (Ha e He). rewrite Forall_forall in Hfa.
    destruct (Hfa e He) as (_ & ? & _). lia. }
  rewrite (map_find_split size) by done.
  destruct b as [|[k l] b]; [|destruct (Z.eqb_spec (off + sz) k) as [<-|Hne]].
  - exists [], sz. split_and!; try done. intros e He. by apply elem_of_nil in He.
  - pose proof (free_keys _ _ _ Hf) as ((? & ? & ?) & _ & Hk). cbn [fst snd] in *.
    rewrite map_erase_split, u32_small by (done || lia).
    exists b, (sz + l). split_and!; try done; try lia.
    + apply (free_ok_sub a (off + sz, l) [] b Hf); [split; constructor|].
      intros e He. by apply elem_of_nil in He.
    + intros e He. specialize (Hk e He). lia.
    + intros x. cbn [cov]. rewrite (inside_split off sz (sz + l)) by lia.
      replace (sz + l - sz) with l by lia. lia.
  - exists ((k, l) :: b), sz. split_and!; try done.
    pose proof (free_keys _ _ _ Hf) as ((? & ? & ?) & _ & Hk). cbn [fst snd] in *.
    intros e [->|He]%elem_of_cons; [|specialize (Hk e He)];
      specialize (Hb (k, l) ltac:(left)); simpl in *; lia.
Qed.

(** The second half: the interval that ends where the block starts. *)
Lemma merge_prev a b off len :
  free_ok size (a ++ b) -> 0 <= off -> 0 < len -> off + len <= size ->
  (forall e, e ∈ a -> e.1 + e.2 <= off) -> (forall e, e ∈ b -> off + len < e.1) ->
  exists a' o n, match map_floor off (a ++ b) with
    | Some (o, l) =>
      if u32 (o + l) =? off then (map_erase o (a ++ b), o, u32 (len + l))
      else (a ++ b, off, len)
    | None => (a ++ b, off, len)
    end = (a' ++ b, o, n) /\
  free_ok size (a' ++ (o, n) :: b) /\
  forall x, cov a' x + inside (o, n) x = cov a x + inside (off, len) x.
Proof.
  intros Hf H0 Hz Hs Ha Hb.
  pose proof Hf as (Hfa & Hfb & Hab)%free_ok_app.
  assert (Hka : forall e, e ∈ a -> e.1 <= off).
  { intros e He. specialize (Ha e He). destruct Hfa as [Hfa _].
    rewrite Forall_forall in Hfa. destruct (Hfa e He) as (_ & ? & _). lia. }
  rewrite map_floor_split by (done || (intros e He; specialize (Hb e He); lia)).
  assert (Hjoin : forall a' o n, free_ok size a' -> span_ok size (o, n) -> o + n = off + len ->
    (forall e, e ∈ a' -> e.1 + e.2 < o) -> free_ok size (a' ++ (o, n) :: b)).
  { intros a' o n Ha' Hon He Hlt. apply free_ok_app. split; [done|]. split.
    - apply free_ok_cons. split; [done|]. split; [done|]. intros e Hin.
      specialize (Hb e Hin). unfold before. simpl. lia.
    - intros x y Hx [->|Hy]%elem_of_cons; [by apply Hlt|].
      specialize (Hlt x Hx). specialize (Hb y Hy). destruct Hon as (? & ? & ?).
      unfold before. simpl in *. lia. }
  destruct (last a) as [[o l]|] eqn:Hlast.
  2: { apply last_None in Hlast as ->. exists [], off, len. split; [done|]. split; [|done].
       apply Hjoin; [done|by split_and!; simpl|done|]. intros e He. by apply elem_of_nil in He. }
  apply last_Some in Hlast as [a' ->].
  rewrite <- app_assoc in Hf. pose proof (free_keys _ _ _ Hf) as ((? & ? & ?) & Hlo & _).
  pose proof Hfa as (Hfa' & _ & _)%free_ok_app.
  cbn [fst snd] in *. rewrite u32_small by lia.
  destruct (Z.eqb_spec (o + l) off) as [<-|Hne].
  - rewrite <- app_assoc. cbn [app].
    rewrite map_erase_split, u32_small by (lia || (intros e He; apply Hlo, He)).
    exists a', o, (len + l). split; [done|]. split.
    + apply Hjoin; [done|split_and!; simpl; lia|lia|]. intros e He. by apply Hlo.
    + intros x. rewrite cov_app. cbn [cov].
      rewrite (inside_split o l (len + l)) by lia. replace (len + l - l) with len by lia. lia.
  - exists (a' ++ [(o, l)]), off, len. split; [done|]. split; [|done].
    apply Hjoin; [done|by split_and!; simpl|done|].
    specialize (Ha (o, l) ltac:(apply elem_of_app; right; left)). simpl in Ha.
    intros e [He| ->%list_elem_of_singleton]%elem_of_app; [specialize (Hlo e He)|]; simpl; lia.
Qed.

(** A block in use and a free interval do not meet. *)
Lemma block_apart lm out i off t e :
  mem_inv (lm, out) -> out !! i = Some (off, t) -> e ∈ m_free_memory_map lm ->
  e.1 + e.2 <= off \/ off + g_lock_size t <= e.1.
Proof.
  intros (_ & Hf & _ & Hc) Hi He. sizes.
  destruct Hf as [Hf _]. rewrite Forall_forall in Hf. destruct (Hf e He) as (_ & ? & _).
  destruct (Z.le_gt_cases (e.1 + e.2) off); [by left|].
  destruct (Z.le_gt_cases (off + g_lock_size t) e.1); [by right|]. exfalso.
  specialize (Hc (Z.max e.1 off)). rewrite (cov_delete _ _ _ _ Hi) in Hc.
  pose proof (cov_elem e _ (Z.max e.1 off) He) as Hce.
  pose proof (cov_nonneg (block <$> delete i out) (Z.max e.1 off)).
  pose proof (inside_range (0, size) (Z.max e.1 off)).
  assert (E1 : inside e (Z.max e.1 off) = 1).
  { unfold inside. rewrite (proj2 (Z.leb_le _ _)), (proj2 (Z.ltb_lt _ _)) by lia. done. }
  assert (E2 : inside (block (off, t)) (Z.max e.1 off) = 1).
  { unfold inside, block. cbn [fst snd].
    rewrite (proj2 (Z.leb_le _ _)), (proj2 (Z.ltb_lt _ _)) by lia. done. }
  lia.
Qed.

Lemma release_lock_memory_spec i off t lm out :
  mem_inv (lm, out) -> out !! i = Some (off, t) ->
  mem_inv (release_lock_memory off t lm, delete i out).
Proof.
  intros Hinv Hi. pose proof (block_apart lm out i off t) as Hap.
  pose proof Hinv as (Hz & Hf & Ho & Hc). unfold release_lock_memory. cbv zeta. sizes.
  pose proof Ho as Hb. rewrite Forall_forall in Hb.
  destruct (Hb (off, t) (list_elem_of_lookup_2 _ _ _ Hi)) as (Ho0 & _ & Hos).
  cbn [block fst snd] in Ho0, Hos.
  destruct (map_split size off _ Hf) as (a & b & Hm & Hka & Hkb). rewrite Hm in *.
  assert (Ha : forall e, e ∈ a -> e.1 + e.2 <= off).
  { intros e He. specialize (Hka e He).
    destruct (Hap e Hinv Hi ltac:(apply elem_of_app; by left)); lia. }
  destruct (merge_next a b off (g_lock_size t)) as (b' & len & -> & Hf' & ? & ? & Hb' & Hc1);
    [done|lia..|done| |].
  { intros e He. specialize (Hkb e He). destruct Hf as [Hf _].
    apply Forall_app in Hf as [_ Hf]. rewrite Forall_forall in Hf. destruct (Hf e He) as (_ & ? & _).
    destruct (Hap e Hinv Hi ltac:(apply elem_of_app; by right)); lia. }
  destruct (merge_prev a b' off len) as (a' & o & n & -> & Hf2 & Hc2); [done|lia..|done|done|].
  pose proof (free_keys _ _ _ Hf2) as ((_ & ? & _) & Hlo & Hhi). cbn [fst snd] in *.
  split; [done|]. cbn [m_free_memory_map].
  rewrite map_set_split by (intros e He; apply Hlo in He || apply Hhi in He; lia).
  split; [done|]. split.
  { rewrite Forall_forall in Ho |- *. intros e He. apply Ho.
    eapply elem_of_submseteq; [exact He|apply submseteq_delete]. }
  intros x. specialize (Hc1 x). specialize (Hc2 x). specialize (Hc x).
  rewrite (cov_delete _ _ _ x Hi) in Hc. change (block (off, t)) with (off, g_lock_size t) in Hc.
  rewrite !cov_app in *. cbn [cov]. lia.
Qed.

(** A place asked for ends below 2^32; [get_lock_memory_at_wraps] has the others. *)
Definition op_ok (op : mem_op) : Prop :=
  match op with MGetAt t off => 0 <= off /\ off + g_lock_size t < 2 ^ 32 | _ => True end.

Lemma mem_write_spec lm out (i : nat) off t o (bytes : list Z) :
  mem_inv (lm, out) -> out !! i = Some (off, t) -> 0 <= o -> o + zlen bytes <= g_lock_size t ->
  exists bs, write_bytes (m_p_lock_memory lm) (off + o) bytes = Some bs /\
    mem_inv (LockMemory bs (m_is_primary lm) (m_free_memory_map lm), out).
Proof.
  intros (Hz & Hf & Ho & Hc) Hi H0 Hn. pose proof Ho as Hb. rewrite Forall_forall in Hb.
  destruct (Hb (off, t) (list_elem_of_lookup_2 _ _ _ Hi)) as (Ho0 & _ & Hos). cbn [block fst snd] in Ho0, Hos.
  destruct (write_bytes_in (m_p_lock_memory lm) (off + o) bytes) as [bs E]; [lia..|].
  exists bs. split; [done|]. split; [|done]. simpl. by rewrite (write_bytes_len _ _ _ _ E).
Qed.

Lemma mem_step_spec st op :
  mem_inv st -> m_is_primary st.1 = true -> op_ok op ->
  exists st', mem_step st op = Some st' /\ mem_inv st' /\ m_is_primary st'.1 = true.
Proof.
  destruct st as [lm out]. intros Hinv Hp Hop. sizes. destruct op as [t|t off|i o bytes|i]; simpl.
  - destruct (get_lock_memory_spec t lm out Hinv Hp) as (lm' & off & -> & Hp' & Hr).
    unfold mem_grant. cbn [mbind option_bind]. eexists. split; [done|]. split; [|done].
    destruct Hr as [(-> & -> & _)|(H0 & Hs & Hinv')].
    + by rewrite Z.eqb_refl.
    + by rewrite (proj2 (Z.eqb_neq _ _)) by (unfold UINT_MAX; sizes; lia).
  - destruct Hop as [H0 Hw].
    destruct (get_lock_memory_at_spec t off lm out Hinv H0 Hw) as (lm' & off' & -> & Hp' & Hr).
    unfold mem_grant. cbn [mbind option_bind]. eexists. split; [done|].
    split; [|simpl in *; congruence].
    destruct Hr as [(-> & ->)|(-> & Hs & Hinv')].
    + by rewrite Z.eqb_refl.
    + by rewrite (proj2 (Z.eqb_neq _ _)) by (unfold UINT_MAX; sizes; lia).
  - destruct (out !! i) as [[off t]|] eqn:Hi; [|by eexists].
    destruct (_ && _) eqn:E; [|by eexists]. breflect.
    destruct (mem_write_spec lm out i off t o bytes Hinv Hi) as (bs & -> & Hw); [lia..|].
    eexists. split; [done|]. by split.
  - destruct (out !! i) as [[off t]|] eqn:Hi; [|by eexists].
    eexists. split; [done|]. split; [by apply release_lock_memory_spec|]. unfold release_lock_memory. simpl.
    by repeat case_match.
Qed.

Lemma mem_run_spec ops st :
  mem_inv st -> m_is_primary st.1 = true -> Forall op_ok ops ->
  exists st', mem_run st ops = Some st' /\ mem_inv st' /\ m_is_primary st'.1 = true.
Proof.
  revert st. induction ops as [|op ops IH]; intros st Hinv Hp Hops; simpl; [by eexists|].
  apply Forall_cons in Hops as [Hop Hops].
  destruct (mem_step_spec st op Hinv Hp Hop) as (st' & -> & Hinv' & Hp').
  cbn [mbind option_bind]. by apply IH.
Qed.

Lemma mem_inv_init : mem_inv (lock_memory_init size true, []).
Proof.
  split; [|split; [|split]].
  - simpl. rewrite zlen_replicate. lia.
  - apply single_ok. split_and!; simpl; lia.
  - constructor.
  - intros x. simpl. lia.
Qed.

(** A coalesced map has one interval for each maximal run of free bytes. *)
Lemma run_in_interval m o n :
  free_ok size m -> 0 < n -> (forall x, o <= x < o + n -> 0 < cov m x) ->
  exists e, e ∈ m /\ n <= e.2.
Proof.
  intros Hf Hn Hrun. destruct (cov_pos_elem m o) as (e & He & Hoe); [apply Hrun; lia|].
  exists e. split; [done|]. destruct (Z.le_gt_cases n e.2) as [|Hgt]; [done|]. exfalso.
  apply list_elem_of_split in He as (a & b & ->).
  pose proof (free_keys _ _ _ Hf) as (_ & Ha & Hb).
  destruct (cov_pos_elem (a ++ e :: b) (e.1 + e.2)) as (e' & He' & Hx); [apply Hrun; lia|].
  apply elem_of_app in He' as [He'|[->|He']%elem_of_cons]; [|lia|].
  - specialize (Ha e' He'). lia.
  - specialize (Hb e' He'). lia.
Qed.

Lemma all_free_map m :
  free_ok size m -> (forall x, cov m x = inside (0, size) x) -> m = [(0, size)].
Proof.
  intros Hf Hc. destruct (run_in_interval m 0 size Hf ltac:(lia)) as (e & He & Hn).
  { intros x Hx. rewrite Hc. unfold inside. simpl.
    rewrite (proj2 (Z.leb_le _ _)), (proj2 (Z.ltb_lt _ _)) by lia. simpl. lia. }
  apply list_elem_of_split in He as (a & b & ->).
  pose proof (free_keys _ _ _ Hf) as ((? & ? & ?) & Ha & Hb).
  pose proof Hf as ([Hfa _] & _)%free_ok_app.
  destruct e as [eo el]. simpl in *. assert (eo = 0) as -> by lia. assert (el = size) as -> by lia.
  destruct a as [|x a]; [|apply Forall_cons in Hfa as [(? & ? & ?) _];
    specialize (Ha x ltac:(left)); lia].
  destruct b as [|x b]; [done|]. exfalso.
  pose proof Hf as [Hall _]. apply Forall_cons in Hall as [_ Hall].
  apply Forall_cons in Hall as [(? & ? & ?) _]. specialize (Hb x ltac:(left)). lia.
Qed.
End partition.

(** ** Correctness of the allocator *)

Lemma blocks_disjoint size lm out i j bi bj x :
  mem_inv size (lm, out) -> out !! i = Some bi -> out !! j = Some bj -> i <> j ->
  0 < inside (block bi) x -> 0 < inside (block bj) x -> False.
Proof.
  intros (_ & _ & _ & Hc) Hi Hj Hne Hx Hy. specialize (Hc x).
  rewrite (cov_delete _ _ _ x Hi) in Hc.
  assert (Hj' : bj ∈ delete i out).
  { destruct (decide (j < i)%nat).
    - apply list_elem_of_lookup_2 with j. by rewrite list_lookup_delete_lt by lia.
    - apply list_elem_of_lookup_2 with (pred j).
      rewrite list_lookup_delete_ge by lia. by replace (S (pred j)) with j by lia. }
  pose proof (cov_elem (block bj) (block <$> delete i out) x (list_elem_of_fmap_2 _ _ _ Hj')).
  pose proof (inside_range (0, size) x). pose proof (inside_range (block bi) x).
  pose proof (cov_nonneg (m_free_memory_map lm) x). lia.
Qed.

Lemma blocks_apart_at size lm out i j o1 t1 o2 t2 :
  mem_inv size (lm, out) -> out !! i = Some (o1, t1) -> out !! j = Some (o2, t2) -> i <> j ->
  o1 + g_lock_size t1 <= o2 \/ o2 + g_lock_size t2 <= o1.
Proof.
  intros Hinv Hi Hj Hne. pose proof (g_lock_size_pos t1). pose proof (g_lock_size_pos t2).
  destruct (Z.le_gt_cases (o1 + g_lock_size t1) o2); [by left|].
  destruct (Z.le_gt_cases (o2 + g_lock_size t2) o1); [by right|]. exfalso.
  apply (blocks_disjoint _ lm out i j _ _ (Z.max o1 o2) Hinv Hi Hj); [done|..];
    unfold inside, block; cbn [fst snd];
    by rewrite (proj2 (Z.leb_le _ _)), (proj2 (Z.ltb_lt _ _)) by lia.
Qed.

(** Some run of [n] bytes of the region lies outside every block in use. *)
Definition has_room (size : Z) (out : list (Z * dlock_type)) (n : Z) : Prop :=
  exists o, 0 <= o /\ o + n <= size /\
  forall b x, b ∈ out -> o <= x < o + n -> ~ (b.1 <= x < b.1 + g_lock_size b.2).

Lemma room_interval size lm out n :
  mem_inv size (lm, out) -> 0 < n -> has_room size out n ->
  exists e, e ∈ m_free_memory_map lm /\ n <= e.2.
Proof.
  intros (_ & Hf & _ & Hc) Hn (o & H0 & Hs & Hout).
  apply (run_in_interval size _ o n Hf Hn). intros x Hx. specialize (Hc x).
  assert (E : inside (0, size) x = 1).
  { unfold inside. cbn [fst snd]. by rewrite (proj2 (Z.leb_le _ _)), (proj2 (Z.ltb_lt _ _)) by lia. }
  destruct (decide (0 < cov (block <$> out) x)) as [Hp|Hp].
  - apply cov_pos_elem in Hp as (e & (b & -> & Hb)%list_elem_of_fmap & Hin).
    exfalso. by apply (Hout b x Hb Hx).
  - pose proof (cov_nonneg (block <$> out) x). lia.
Qed.

(** What a grant does to the bytes: the block is zero, and nothing else changes. *)
Definition cleared (lm lm' : lock_memory) (off n : Z) : Prop :=
  read_bytes (m_p_lock_memory lm') off n = Some (replicate (Z.to_nat n) 0) /\
  forall o k, o + k <= off \/ off + n <= o ->
    read_bytes (m_p_lock_memory lm') o k = read_bytes (m_p_lock_memory lm) o k.

Lemma memset0_cleared lm bs prim m off n : 0 <= n ->
  memset0 (m_p_lock_memory lm) off n = Some bs -> cleared lm (LockMemory bs prim m) off n.
Proof.
  intros Hn E. pose proof (zlen_replicate (Z.to_nat n) 0) as Hl. split; simpl.
  - rewrite <- (read_write_same _ _ _ _ E), Hl. f_equal. lia.
  - intros o k Hd. apply (read_write_disjoint _ _ _ _ _ _ E). lia.
Qed.

(** The answer to a request: the place of a block inside the region and outside
    the blocks in use, with its bytes cleared, or UINT_MAX with nothing changed. *)
Definition grant_ok (size : Z) (out : list (Z * dlock_type)) (lm : lock_memory) (t : dlock_type)
    (lm' : lock_memory) (off : Z) : Prop :=
  (off = UINT_MAX /\ lm' = lm) \/
  (0 <= off /\ off + g_lock_size t <= size /\ cleared lm lm' off (g_lock_size t) /\
   forall b, b ∈ out -> off + g_lock_size t <= b.1 \/ b.1 + g_lock_size b.2 <= off).

Lemma get_lock_memory_cleared t lm lm' off :
  get_lock_memory t lm = Some (lm', off) -> off = UINT_MAX \/ cleared lm lm' off (g_lock_size t).
Proof.
  unfold get_lock_memory. destruct (negb _); [intros [= _ <-]; by left|].
  destruct (first_fit _ _) as [[o n]|]; [|intros [= _ <-]; by left].
  destruct (memset0 _ _ _) as [bs|] eqn:E; [|done]. intros [= <- <-]. right. sizes. apply memset0_cleared; [lia|done].
Qed.

Lemma get_lock_memory_at_cleared t off lm lm' off' :
  get_lock_memory_at t off lm = Some (lm', off') -> off' = UINT_MAX \/ cleared lm lm' off' (g_lock_size t).
Proof.
  unfold get_lock_memory_at. destruct (map_floor _ _) as [[o n]|]; [|intros [= _ <-]; by left].
  destruct (_ || _); [intros [= _ <-]; by left|].
  destruct (memset0 _ _ _) as [bs|] eqn:E; [|done]. intros [= <- <-]. right. sizes. apply memset0_cleared; [lia|done].
Qed.

Lemma new_block_apart size lm' out off t b :
  mem_inv size (lm', (off, t) :: out) -> b ∈ out -> off + g_lock_size t <= b.1 \/ b.1 + g_lock_size b.2 <= off.
Proof.
  intros Hinv [i Hi]%list_elem_of_lookup_1. destruct b as [o' t'].
  exact (blocks_apart_at size lm' ((off, t) :: out) 0 (S i) off t o' t' Hinv eq_refl Hi ltac:(done)).
Qed.

(** Both forms of [get_lock_memory] in a state of the partition. *)
Lemma grants_ok size lm out : 0 < size < 2 ^ 32 - 1 -> mem_inv size (lm, out) -> m_is_primary lm = true ->
  (forall t, exists lm' off, get_lock_memory t lm = Some (lm', off) /\ grant_ok size out lm t lm' off) /\
  (forall t o, op_ok (MGetAt t o) -> exists lm' off, get_lock_memory_at t o lm = Some (lm', off) /\
     grant_ok size out lm t lm' off /\ (off = o \/ off = UINT_MAX)).
Proof.
  intros Hs Hinv Hp. split.
  - intros t. destruct (get_lock_memory_spec size Hs t lm out Hinv Hp) as (lm' & off & E & _ & Hr).
    exists lm', off. split; [done|]. destruct Hr as [(-> & -> & _)|(H0 & Hb & Hinv')]; [by left|].
    destruct (get_lock_memory_cleared t lm lm' off E) as [->|Hc]; [unfold UINT_MAX in *; sizes; lia|].
    right. split; [done|]. split; [done|]. split; [done|]. intros b Hb'. by apply (new_block_apart size lm' out).
  - intros t o [H0 Hw]. destruct (get_lock_memory_at_spec size Hs t o lm out Hinv H0 Hw) as (lm' & off & E & _ & Hr).
    exists lm', off. split; [done|]. destruct Hr as [(-> & ->)|(-> & Hb & Hinv')]; [split; [by left|by right]|].
    split; [|by left]. destruct (get_lock_memory_at_cleared t o lm lm' o E) as [->|Hc]; [unfold UINT_MAX in *; sizes; lia|].
    right. split; [done|]. split; [done|]. split; [done|]. intros b Hb'. by apply (new_block_apart size lm' out).
Qed.

(** C23: whatever sequence of allocations (at a chosen place or not), writes of
    the handlers inside blocks in use and releases the server performs on a
    fresh region, places asked for ending below 2^32 ([op_ok]), no access leaves
    the region; the blocks in use lie inside it and are pairwise disjoint; once
    every block is released the free map is the initial one. A further
    allocation of either form is answered with a block outside those in use,
    whose bytes are zero whatever was written there before and which is all that
    changes, or with UINT_MAX; the form without a place fails only when no run
    of bytes outside the blocks in use is long enough, so free space is never
    lost to fragmentation of the map. *)
Theorem lock_memory_alloc (ops : list mem_op) :
  Forall op_ok ops ->
  exists lm out,
    mem_run (lock_memory_init LOCK_MEMORY_SIZE true, []) ops = Some (lm, out) /\
    (forall b, b ∈ out -> 0 <= b.1 /\ b.1 + g_lock_size b.2 <= LOCK_MEMORY_SIZE) /\
    (forall i j bi bj, out !! i = Some bi -> out !! j = Some bj -> i <> j ->
      bi.1 + g_lock_size bi.2 <= bj.1 \/ bj.1 + g_lock_size bj.2 <= bi.1) /\
    (out = [] -> m_free_memory_map lm = [(0, LOCK_MEMORY_SIZE)]) /\
    (forall t, exists lm' off, get_lock_memory t lm = Some (lm', off) /\
       grant_ok LOCK_MEMORY_SIZE out lm t lm' off /\
       (has_room LOCK_MEMORY_SIZE out (g_lock_size t) -> off <> UINT_MAX)) /\
    (forall t o, op_ok (MGetAt t o) -> exists lm' off, get_lock_memory_at t o lm = Some (lm', off) /\
       grant_ok LOCK_MEMORY_SIZE out lm t lm' off /\ (off = o \/ off = UINT_MAX)).
Proof.
  intros Hops. assert (Hs : 0 < LOCK_MEMORY_SIZE < 2 ^ 32 - 1) by done.
  destruct (mem_run_spec _ Hs ops _ (mem_inv_init _ Hs) eq_refl Hops) as ([lm out] & Hr & Hinv & Hp).
  exists lm, out. split; [done|]. pose proof Hinv as (_ & Hf & Ho & Hc).
  destruct (grants_ok _ lm out Hs Hinv Hp) as [Hg Hg']. split_and!; [| | | |done].
  - intros b Hb. rewrite Forall_forall in Ho. destruct (Ho b Hb) as (? & _ & ?). done.
  - intros i j [oi ti] [oj tj] Hi Hj Hne. by eapply (blocks_apart_at _ lm out i j).
  - intros ->. apply all_free_map; [done..|]. intros x. specialize (Hc x). simpl in Hc. by rewrite <- Hc, Z.add_0_r.
  - intros t. destruct (Hg t) as (lm' & off & E & Hgr). exists lm', off. split; [done|]. split; [done|]. intros Hroom. sizes.
    destruct (room_interval _ _ _ (g_lock_size t) Hinv ltac:(lia) Hroom) as (e & He & Hlen).
    destruct (get_lock_memory_spec _ Hs t lm out Hinv Hp) as (lm2 & off2 & E2 & _ & Hr2). rewrite E in E2. injection E2 as <- <-.
    destruct Hr2 as [(_ & _ & Hno)|(H0 & Hb & _)]; [specialize (Hno e He); lia|].
    unfold UINT_MAX. change LOCK_MEMORY_SIZE with 1228800 in Hb. lia.
Qed.

(** The end of a place asked for is computed in 32 bits: at an offset for which
    it wraps the test against the free interval passes, and the block that is
    cleared lies behind the region. *)
Lemma get_lock_memory_at_wraps size t off lm out e :
  0 < size < 2 ^ 31 -> mem_inv size (lm, out) -> last (m_free_memory_map lm) = Some e -> 24 <= e.1 + e.2 ->
  off < 2 ^ 32 <= off + g_lock_size t ->
  get_lock_memory_at t off lm = None.
Proof.
  intros Hs (Hz & Hf & _) He Hlen Ho. sizes. unfold get_lock_memory_at. destruct e as [o n]. simpl in Hlen.
  rewrite <- (app_nil_r (m_free_memory_map lm)).
  assert (Hle : forall x, x ∈ m_free_memory_map lm -> x.1 <= off).
  { destruct Hf as [Hf _]. rewrite Forall_forall in Hf. intros x Hx. destruct (Hf x Hx) as (_ & ? & ?). lia. }
  rewrite map_floor_split; [|done|by intros x Hx; apply elem_of_nil in Hx]. rewrite He, app_nil_r.
  pose proof He as [a Ea]%last_Some. destruct Hf as [Hf _]. rewrite Ea, Forall_app, Forall_singleton in Hf.
  destruct Hf as [_ (H0 & H1 & H2)]. simpl in H0, H1, H2.
  assert (u32 (off + g_lock_size t) = off + g_lock_size t - 2 ^ 32) as ->.
  { unfold u32. symmetry. apply (Z.mod_unique_pos _ _ 1); lia. }
  rewrite (u32_small (o + n)) by lia.
  rewrite (proj2 (Z.ltb_ge off o)), (proj2 (Z.ltb_ge (o + n) _)) by lia. cbn [orb].
  unfold memset0, write_bytes. rewrite (proj2 (Z.leb_gt (off + _) _)); [by rewrite andb_false_r|].
  rewrite zlen_replicate. lia.
Qed.

Definition example_mem_ops : list mem_op :=
  [MGet DLOCK_FAIR; MGet DLOCK_ATOMIC; MGetAt DLOCK_RW 100; MWrite 1 0 [7; 7]; MRelease 1; MGet DLOCK_RW; MRelease 1].

Lemma lock_memory_alloc_witness :
  Forall op_ok example_mem_ops /\
  exists lm out,
    mem_run (lock_memory_init LOCK_MEMORY_SIZE true, []) example_mem_ops = Some (lm, out) /\
    (forall i j bi bj, out !! i = Some bi -> out !! j = Some bj -> i <> j ->
      bi.1 + g_lock_size bi.2 <= bj.1 \/ bj.1 + g_lock_size bj.2 <= bi.1) /\
    (forall t, exists lm' off, get_lock_memory t lm = Some (lm', off) /\
       grant_ok LOCK_MEMORY_SIZE out lm t lm' off).
Proof.
  assert (H : Forall op_ok example_mem_ops) by (repeat constructor; simpl; lia).
  split; [exact H|]. destruct (lock_memory_alloc _ H) as (lm & out & Hr & _ & Hd & _ & Hg & _).
  exists lm, out. split; [exact Hr|]. split; [exact Hd|].
  intros t. destruct (Hg t) as (lm' & off & E & Hok & _). exists lm', off. split; [exact E|exact Hok].
Defined.
