(* ===== verification/Dlock.v ===== *)
(** * Distributed locks: shared data and the server's lock handlers

    The dlock service (src/src/ulock/dlock) gives clients locks that live in
    the memory of a server: atomic locks held under a lease, reader-writer
    locks, and fair locks that hand out tickets.  This file has the data both
    sides share (dlock_types.h, dlock_common.h), the three lock structures
    with their byte layout, the handlers of
    src/src/ulock/dlock/lib/server/lock_memory.cpp and the server's processing
    of a message, [do_lock] of dlock_server.cpp.

    A message's [ls] is a union; here each lock type has its own record for
    it, and a command is tagged with the type its [lock_type] byte selects.
    The server's clock is an argument.  Debug counters are left out. *)

From S2P Require Import Prelude Memory DlockMemory.

(** ** Shared enumerations *)

Inductive dlock_req_code :=
| EXCLUSIVE_TRYLOCK | EXCLUSIVE_UNLOCK | EXCLUSIVE_LOCK_EXTEND | EXCLUSIVE_TICKET_TRYLOCK
| SHARED_TRYLOCK | SHARED_UNLOCK | SHARED_LOCK_EXTEND | SHARED_TICKET_TRYLOCK
| OP_CODE_MAX | OP_CODE_NULL | OP_REPLICA_CATCH_UP | OP_REPLICA_SYNC | OP_LOCAL_RESET.

#[global] Instance dlock_req_code_eq_dec : EqDecision dlock_req_code.
Proof. solve_decision. Defined.

Definition req_code_num (c : dlock_req_code) : Z :=
  match c with
  | EXCLUSIVE_TRYLOCK => 0 | EXCLUSIVE_UNLOCK => 1 | EXCLUSIVE_LOCK_EXTEND => 2
  | EXCLUSIVE_TICKET_TRYLOCK => 3 | SHARED_TRYLOCK => 4 | SHARED_UNLOCK => 5
  | SHARED_LOCK_EXTEND => 6 | SHARED_TICKET_TRYLOCK => 7 | OP_CODE_MAX => 8
  | OP_CODE_NULL => 9 | OP_REPLICA_CATCH_UP => 10 | OP_REPLICA_SYNC => 11
  | OP_LOCAL_RESET => 12
  end.

Inductive dlock_status :=
| DLOCK_SUCCESS | DLOCK_DONE
| DLOCK_EAGAIN | DLOCK_ENOMEM | DLOCK_ETIMEOUT | DLOCK_EINVAL | DLOCK_ETICKET | DLOCK_EASYNC
| DLOCK_CLIENT_NOT_INIT | DLOCK_LOCK_NOT_GET | DLOCK_ALREADY_LOCKED | DLOCK_ALREADY_UNLOCKED
| DLOCK_TICKET_TO_UNLOCK | DLOCK_BAD_RESPONSE | DLOCK_FAIL | DLOCK_CLIENTMGR_NOT_INIT
| DLOCK_NOT_READY | DLOCK_NO_ASYNC | DLOCK_ASYNC_AGAIN | DLOCK_REPLICA_INIT_FAIL
| DLOCK_SERVER_NOT_INIT | DLOCK_CLIENT_REMOVED_BY_SERVER
| DLOCK_PROTO_VERSION_NEGOTIATION_FAIL | DLOCK_SERVER_NO_RESOURCE
| DLOCK_OBJECT_ALREADY_EXISTED | DLOCK_OBJECT_ALREADY_CREATED | DLOCK_OBJECT_NOT_CREATE
| DLOCK_OBJECT_INVALID_OWNER | DLOCK_OBJECT_NOT_GET | DLOCK_OBJECT_ALREADY_DESTROYED
| DLOCK_OBJECT_TOO_MANY | DLOCK_OBJECT_CAS_FAILED.

#[global] Instance dlock_status_eq_dec : EqDecision dlock_status.
Proof. solve_decision. Defined.

Definition DLOCK_DP_MAGIC_NO : Z := 3992439115. (* 0xedf7c94b *)
Definition DLOCK_PROTO_VERSION : Z := 2.

(** [struct lock_cmd_msg], with the view of [ls] that the lock type selects. *)
Record lock_cmd_msg (S : Type) := LockCmdMsg {
  magic_no : Z;
  version : Z;
  message_id : Z;
  op_code : dlock_req_code;
  op_ret : dlock_status;
  lock_offset : Z;
  ls : S
}.
Arguments LockCmdMsg {S}.
Arguments magic_no {S}.
Arguments version {S}.
Arguments message_id {S}.
Arguments op_code {S}.
Arguments op_ret {S}.
Arguments lock_offset {S}.
Arguments ls {S}.

Section msg_setters.
Context {S : Type}.
Implicit Types m : lock_cmd_msg S.

Definition set_op_ret (v : dlock_status) m : lock_cmd_msg S :=
  LockCmdMsg (magic_no m) (version m) (message_id m) (op_code m) v (lock_offset m) (ls m).
Definition set_op_code (v : dlock_req_code) m : lock_cmd_msg S :=
  LockCmdMsg (magic_no m) (version m) (message_id m) v (op_ret m) (lock_offset m) (ls m).
Definition set_lock_offset (v : Z) m : lock_cmd_msg S :=
  LockCmdMsg (magic_no m) (version m) (message_id m) (op_code m) (op_ret m) v (ls m).
Definition set_ls (v : S) m : lock_cmd_msg S :=
  LockCmdMsg (magic_no m) (version m) (message_id m) (op_code m) (op_ret m) (lock_offset m) v.
End msg_setters.

(** What a handler returns: the lock, the message that becomes the response,
    and the handler's own result. *)
Definition handler (S L : Type) : Type :=
  Z -> Z -> lock_cmd_msg S -> L -> L * lock_cmd_msg S * dlock_status.

(** [verify_client_id]: [None] when the identifiers agree, and otherwise the
    message with its result set. *)
Definition verify_client_id {S} (expected actual : Z) (m : lock_cmd_msg S)
  : option (lock_cmd_msg S) :=
  if actual =? expected then None else Some (set_op_ret DLOCK_FAIL m).

(** ** Atomic locks *)

Record atomic_lock := AtomicLock { al_client_id : Z; al_timeout : Z }.
Record atomic_state := AtomicState { as_client_id : Z; as_time_out : Z }.

Definition atomic_ls (p : atomic_lock) : atomic_state :=
  AtomicState (al_client_id p) (al_timeout p).

Definition atomic_trylock_do : handler atomic_state atomic_lock := fun client_id now m p =>
  match verify_client_id client_id (as_client_id (ls m)) m with
  | Some m' => (p, m', DLOCK_DONE)
  | None =>
    if negb (al_client_id p =? 0) && (now <=? al_timeout p)
    then (p, set_ls (atomic_ls p) (set_op_ret DLOCK_FAIL m), DLOCK_DONE)
    else
      let p' := AtomicLock (as_client_id (ls m)) (u32 (as_time_out (ls m) + u32 now)) in
      (p', set_ls (atomic_ls p') (set_op_ret DLOCK_SUCCESS m), DLOCK_SUCCESS)
  end.

Definition atomic_unlock_do : handler atomic_state atomic_lock := fun client_id now m p =>
  match verify_client_id client_id (as_client_id (ls m)) m with
  | Some m' => (p, m', DLOCK_DONE)
  | None =>
    if negb (al_client_id p =? as_client_id (ls m))
    then (p, set_ls (atomic_ls p) (set_op_ret DLOCK_FAIL m), DLOCK_DONE)
    else (AtomicLock 0 0, set_ls (AtomicState 0 0) (set_op_ret DLOCK_SUCCESS m), DLOCK_SUCCESS)
  end.

Definition atomic_extend_lock_do : handler atomic_state atomic_lock := fun client_id now m p =>
  match verify_client_id client_id (as_client_id (ls m)) m with
  | Some m' => (p, m', DLOCK_DONE)
  | None =>
    if negb (al_client_id p =? as_client_id (ls m))
    then (p, set_ls (atomic_ls p) (set_op_ret DLOCK_FAIL m), DLOCK_DONE)
    else
      let b_updated := al_timeout p <? as_time_out (ls m) in
      let p' := AtomicLock (al_client_id p)
                  (if b_updated then as_time_out (ls m) else al_timeout p) in
      (p', set_ls (atomic_ls p') (set_op_ret DLOCK_SUCCESS m),
       if b_updated then DLOCK_SUCCESS else DLOCK_DONE)
  end.

(** ** Reader-writer locks *)

Record rw_lock := RwLock { rl_timeout : Z; rl_client_id : Z; rl_ref_count : Z; rl_rsvd : Z }.
Record rw_state := RwState { rs_time_out : Z; rs_client_id : Z; rs_rcount : Z; rs_rsvd : Z }.

(** The three assignments that copy the lock into [ls]. *)
Definition rw_ls (p : rw_lock) (s : rw_state) : rw_state :=
  RwState (rl_timeout p) (rl_client_id p) (rl_ref_count p) (rs_rsvd s).

Definition rwlock_trylock_ex_do : handler rw_state rw_lock := fun client_id now m p =>
  match verify_client_id client_id (rs_client_id (ls m)) m with
  | Some m' => (p, m', DLOCK_DONE)
  | None =>
    if negb (rl_client_id p =? 0) || negb (rl_ref_count p =? 0)
    then (p, set_ls (rw_ls p (ls m)) (set_op_ret DLOCK_FAIL m), DLOCK_DONE)
    else
      let p' := RwLock (u32 now) (rs_client_id (ls m)) 0 (rl_rsvd p) in
      (p', set_ls (rw_ls p' (ls m)) (set_op_ret DLOCK_SUCCESS m), DLOCK_SUCCESS)
  end.

Definition rwlock_unlock_ex_do : handler rw_state rw_lock := fun client_id now m p =>
  match verify_client_id client_id (rs_client_id (ls m)) m with
  | Some m' => (p, m', DLOCK_DONE)
  | None =>
    if negb (rl_client_id p =? rs_client_id (ls m))
    then (p, set_ls (rw_ls p (ls m)) (set_op_ret DLOCK_FAIL m), DLOCK_DONE)
    else
      (RwLock 0 0 0 (rl_rsvd p),
       set_ls (RwState 0 0 (rs_rcount (ls m)) (rs_rsvd (ls m))) (set_op_ret DLOCK_SUCCESS m),
       DLOCK_SUCCESS)
  end.

Definition rwlock_trylock_sh_do : handler rw_state rw_lock := fun _ now m p =>
  match verify_client_id 0 (rs_client_id (ls m)) m with
  | Some m' => (p, m', DLOCK_DONE)
  | None =>
    if negb (rl_client_id p =? 0)
    then (p, set_ls (rw_ls p (ls m)) (set_op_ret DLOCK_FAIL m), DLOCK_DONE)
    else
      let p' := RwLock (if rl_timeout p =? 0 then u32 now else rl_timeout p)
                  (rs_client_id (ls m)) (u32 (rl_ref_count p + 1)) (rl_rsvd p) in
      (p', set_ls (rw_ls p' (ls m)) (set_op_ret DLOCK_SUCCESS m), DLOCK_SUCCESS)
  end.

Definition rwlock_unlock_sh_do : handler rw_state rw_lock := fun _ now m p =>
  match verify_client_id 0 (rs_client_id (ls m)) m with
  | Some m' => (p, m', DLOCK_DONE)
  | None =>
    if negb (rl_client_id p =? 0) || ((rl_client_id p =? 0) && (rl_ref_count p =? 0))
    then (p, set_ls (rw_ls p (ls m)) (set_op_ret DLOCK_FAIL m), DLOCK_DONE)
    else
      let ref_count := u32 (rl_ref_count p - 1) in
      let p' := RwLock (if ref_count =? 0 then 0 else rl_timeout p)
                  (rl_client_id p) ref_count (rl_rsvd p) in
      (p', set_ls (rw_ls p' (ls m)) (set_op_ret DLOCK_SUCCESS m), DLOCK_SUCCESS)
  end.

(** ** Fair locks *)

Definition MAX_FAIR_QUESIZE : Z := 32767.
Definition FAIR_QUE_SIZE_MASK : Z := 65535.
Definition FAIR_QUE_SIZE_FULL : Z := 65536.
Definition FAIR_WAIT_TIME : Z := 2.
Definition FAIR_RST_TH : Z := 50.
Definition MAX_FAIR_LOCK_RCNT : Z := 63.

(** A six-bit field. *)
Definition u6 (x : Z) : Z := x mod 2 ^ 6.

(** [t_value]: [rms], the [rflag] bit, nine reserved bits and [rcnt]. *)
Record t_bits := TBits { rms : Z; rflag : Z; t_rsvd : Z; rcnt : Z }.

Record fair_lock := FairLock {
  nx : Z; ns : Z; mx : Z; ms : Z;
  fl_timeout : Z;
  bs : t_bits;
  ext_client_id : Z;
  ext_rsvd : Z
}.

Record fairlock_state := FairlockState {
  n_exclusive : Z; n_shared : Z; m_exclusive : Z; m_shared : Z;
  time_out : Z;
  t_value : t_bits
}.

(** The distance from [b] to [a] on the 16-bit circle, as the handlers
    compute it in unsigned arithmetic. *)
Definition que_dist (a b : Z) : Z :=
  Z.land FAIR_QUE_SIZE_MASK (u32 (FAIR_QUE_SIZE_FULL + a - b)).

Definition fairlock_set_fl_state (p : fair_lock) : fairlock_state :=
  FairlockState (nx p) (ns p) (mx p) (ms p) (fl_timeout p) (bs p).

Definition fair_overflow (p : fair_lock) : bool :=
  (MAX_FAIR_QUESIZE <=? que_dist (mx p) (nx p)) || (MAX_FAIR_QUESIZE <=? que_dist (ms p) (ns p)).

(** The response carries the lock's state. *)
Definition fair_reply (ret : dlock_status) (p : fair_lock) (m : lock_cmd_msg fairlock_state)
  : lock_cmd_msg fairlock_state :=
  set_ls (fairlock_set_fl_state p) (set_op_ret ret m).

Definition fairlock_trylock_ex_do : handler fairlock_state fair_lock := fun client_id now m p =>
  if fair_overflow p then (p, set_op_ret DLOCK_FAIL m, DLOCK_DONE)
  else
    let grant := (ext_client_id p =? 0) && (nx p =? mx p) && (ns p =? ms p) in
    let p' := FairLock (nx p) (ns p) (u16 (mx p + 1)) (ms p)
                (if grant then u32 (time_out (ls m) + u32 now) else fl_timeout p) (bs p)
                (if grant then client_id else ext_client_id p) (ext_rsvd p) in
    let ret := if grant then DLOCK_SUCCESS else DLOCK_EAGAIN in
    (p', fair_reply ret p' m, ret).

Definition fairlock_unlock_ex_do : handler fairlock_state fair_lock := fun client_id now m p =>
  if ((ext_client_id p =? client_id) || (ext_client_id p =? 0))
     && (nx p =? n_exclusive (ls m)) && (ns p =? n_shared (ls m))
  then
    let p' := FairLock (u16 (nx p + 1)) (ns p) (mx p) (ms p)
                (u32 (FAIR_WAIT_TIME + u32 now))
                (TBits (rms (bs p)) 0 (t_rsvd (bs p)) (rcnt (bs p))) 0 (ext_rsvd p) in
    (p', fair_reply DLOCK_SUCCESS p' m, DLOCK_SUCCESS)
  else (p, fair_reply DLOCK_FAIL p m, DLOCK_DONE).

(** The shared ticket [s] was issued before the last takeover. *)
Definition reset_passed (p : fair_lock) (s : Z) : bool :=
  (rflag (bs p) =? 1) && (MAX_FAIR_QUESIZE <? que_dist s (rms (bs p))).

Definition fairlock_extend_lock_do : handler fairlock_state fair_lock := fun client_id now m p =>
  if negb (ext_client_id p =? client_id) && negb (ext_client_id p =? 0)
  then (p, fair_reply DLOCK_FAIL p m, DLOCK_DONE)
  else
    let b_extend := (n_exclusive (ls m) =? nx p) && negb (reset_passed p (n_shared (ls m))) &&
      (if decide (op_code m = EXCLUSIVE_LOCK_EXTEND) then n_shared (ls m) =? ns p else true) in
    let ret := if b_extend then DLOCK_SUCCESS else DLOCK_FAIL in
    let b_extend := b_extend && negb (time_out (ls m) =? 0) && (fl_timeout p <? time_out (ls m)) in
    let p' := FairLock (nx p) (ns p) (mx p) (ms p)
                (if b_extend then time_out (ls m) else fl_timeout p) (bs p)
                (ext_client_id p) (ext_rsvd p) in
    (p', fair_reply ret p' m, if b_extend then DLOCK_SUCCESS else DLOCK_DONE).

(** The lock's timeout raised to the end of a shared lease. *)
Definition raised_timeout (now : Z) (m : lock_cmd_msg fairlock_state) (p : fair_lock) : Z :=
  if fl_timeout p <? u32 (time_out (ls m) + u32 now)
  then u32 (time_out (ls m) + u32 now) else fl_timeout p.

Definition fairlock_trylock_sh_do : handler fairlock_state fair_lock := fun _ now m p =>
  if fair_overflow p then (p, set_op_ret DLOCK_FAIL m, DLOCK_DONE)
  else
    let grant := (ext_client_id p =? 0) && (nx p =? mx p) && (rcnt (bs p) <? MAX_FAIR_LOCK_RCNT) in
    let p' := FairLock (nx p) (ns p) (mx p) (u16 (ms p + 1))
                (if grant then raised_timeout now m p else fl_timeout p)
                (if grant then TBits (rms (bs p)) (rflag (bs p)) (t_rsvd (bs p)) (u6 (rcnt (bs p) + 1))
                 else bs p)
                (ext_client_id p) (ext_rsvd p) in
    let ret := if grant then DLOCK_SUCCESS else DLOCK_EAGAIN in
    (p', fair_reply ret p' m, ret).

Definition fairlock_unlock_sh_do : handler fairlock_state fair_lock := fun _ now m p =>
  if (ext_client_id p =? 0) && negb (reset_passed p (n_shared (ls m)))
     && (nx p =? n_exclusive (ls m))
  then
    let ns' := u16 (ns p + 1) in
    let rcnt' := u6 (rcnt (bs p) - 1) in
    let rflag' := if (rflag (bs p) =? 0) || (FAIR_RST_TH <=? que_dist ns' (rms (bs p)))
                  then 0 else 1 in
    let p' := FairLock (nx p) ns' (mx p) (ms p)
                (if rcnt' =? 0 then u32 (FAIR_WAIT_TIME + now) else fl_timeout p)
                (TBits (rms (bs p)) rflag' (t_rsvd (bs p)) rcnt') (ext_client_id p) (ext_rsvd p) in
    (p', fair_reply DLOCK_SUCCESS p' m, DLOCK_SUCCESS)
  else (p, fair_reply DLOCK_FAIL p m, DLOCK_DONE).

(** An expired lock passes to the ticket that asks for it. *)
Definition fair_takeover (now : Z) (m : lock_cmd_msg fairlock_state) (p : fair_lock)
    (rcnt' client_id : Z) : fair_lock :=
  FairLock (m_exclusive (ls m)) (m_shared (ls m)) (mx p) (ms p)
    (u32 (time_out (ls m) + u32 now))
    (TBits (m_shared (ls m)) 1 (t_rsvd (bs p)) rcnt') client_id (ext_rsvd p).

Definition ticket_result (p : fair_lock) (m : lock_cmd_msg fairlock_state) (ret : dlock_status)
  : fair_lock * lock_cmd_msg fairlock_state * dlock_status :=
  (p, fair_reply ret p m, if decide (ret = DLOCK_EAGAIN) then DLOCK_DONE else DLOCK_SUCCESS).

Definition ex_ticket_ready (m : lock_cmd_msg fairlock_state) (p : fair_lock) : bool :=
  (ext_client_id p =? 0) && (m_exclusive (ls m) =? nx p) && (m_shared (ls m) =? ns p).

Definition fairlock_trylock_ex_ticket_do : handler fairlock_state fair_lock := fun client_id now m p =>
  let b_passed := (MAX_FAIR_QUESIZE <? que_dist (m_exclusive (ls m)) (nx p))
               || (MAX_FAIR_QUESIZE <? que_dist (m_shared (ls m)) (ns p)) in
  if b_passed then (p, set_op_ret DLOCK_FAIL m, DLOCK_DONE)
  else if ex_ticket_ready m p
  then ticket_result
         (FairLock (nx p) (ns p) (mx p) (ms p) (u32 (time_out (ls m) + u32 now)) (bs p)
            client_id (ext_rsvd p)) m DLOCK_SUCCESS
  else if fl_timeout p <? now
  then ticket_result (fair_takeover now m p 0 client_id) m DLOCK_SUCCESS
  else ticket_result p m DLOCK_EAGAIN.

Definition sh_ticket_ready (m : lock_cmd_msg fairlock_state) (p : fair_lock) : bool :=
  (ext_client_id p =? 0) && (m_exclusive (ls m) =? nx p) && (rcnt (bs p) <? MAX_FAIR_LOCK_RCNT).

Definition fairlock_trylock_sh_ticket_do : handler fairlock_state fair_lock := fun _ now m p =>
  let b_passed := (MAX_FAIR_QUESIZE <? que_dist (m_exclusive (ls m)) (nx p)) in
  let b_passed := if b_passed || (rflag (bs p) =? 0) then b_passed
                  else MAX_FAIR_QUESIZE <? que_dist (m_shared (ls m)) (rms (bs p)) in
  if b_passed then (p, set_op_ret DLOCK_FAIL m, DLOCK_DONE)
  else if sh_ticket_ready m p
  then ticket_result
         (FairLock (nx p) (ns p) (mx p) (ms p) (raised_timeout now m p)
            (TBits (rms (bs p)) (rflag (bs p)) (t_rsvd (bs p)) (u6 (rcnt (bs p) + 1)))
            (ext_client_id p) (ext_rsvd p)) m DLOCK_SUCCESS
  else if fl_timeout p <? now
  then ticket_result (fair_takeover now m p 1 0) m DLOCK_SUCCESS
  else ticket_result p m DLOCK_EAGAIN.

(** ** Restoring locks from clients

    After a restart without replicas each client sends the state of the locks
    it knows, and the server merges them. *)

Definition atomic_sync_state (s : atomic_state) (p : atomic_lock) : atomic_lock :=
  if al_timeout p <? as_time_out s then AtomicLock (as_client_id s) (as_time_out s) else p.

Definition rwlock_sync_state (s : rw_state) (p : rw_lock) : rw_lock :=
  if rs_time_out s =? 0 then p
  else if negb (rs_client_id s =? 0) then
    if rs_time_out s <=? rl_timeout p then p
    else RwLock (rs_time_out s) (rs_client_id s) (rs_rcount s) (rl_rsvd p)
  else if negb (rl_client_id p =? 0) then
    if rs_time_out s <=? rl_timeout p then p
    else RwLock (rs_time_out s) (rs_client_id s) 1 (rl_rsvd p)
  else RwLock (if rl_timeout p <? rs_time_out s then rs_time_out s else rl_timeout p) 0
         (u32 (rl_ref_count p + 1)) (rl_rsvd p).

(** The later of two positions on the circle. *)
Definition que_later (new old : Z) : Z :=
  if MAX_FAIR_QUESIZE <? que_dist new old then old else new.

Definition fairlock_sync_state (s : fairlock_state) (p : fair_lock) : fair_lock :=
  let t := t_value s in
  if time_out s =? 0 then p
  else if fl_timeout p =? 0 then
    FairLock (n_exclusive s) (n_shared s) (m_exclusive s) (m_shared s) (time_out s)
      (TBits (rms t) (rflag t) (t_rsvd (bs p)) (rcnt t)) (ext_client_id p) (ext_rsvd p)
  else
    let shared_here := (rcnt t =? 1) && (n_exclusive s =? nx p) in
    let '(nx', ns', timeout', bs') :=
      if fl_timeout p =? time_out s then
        (que_later (n_exclusive s) (nx p), que_later (n_shared s) (ns p), fl_timeout p,
         TBits (rms (bs p)) (rflag (bs p)) (t_rsvd (bs p)) (u6 (rcnt (bs p) + rcnt t)))
      else if fl_timeout p <? time_out s then
        (n_exclusive s, n_shared s, time_out s,
         TBits (rms t) (rflag t) (t_rsvd (bs p))
           (if shared_here then u6 (rcnt (bs p) + rcnt t) else rcnt t))
      else
        (nx p, ns p, fl_timeout p,
         TBits (rms (bs p)) (rflag (bs p)) (t_rsvd (bs p))
           (if shared_here then u6 (rcnt (bs p) + rcnt t) else rcnt (bs p))) in
    FairLock nx' ns' (que_later (m_exclusive s) (mx p)) (que_later (m_shared s) (ms p))
      timeout' bs' (ext_client_id p) (ext_rsvd p).

(** ** Layout in the lock memory *)

Definition le16 (v : Z) : list Z := [v mod 256; (v / 256) mod 256].

Definition byte_at (l : list Z) (i : nat) : Z := nth i l 0.
Definition get16 (l : list Z) (i : nat) : Z := byte_at l i + 256 * byte_at l (S i).
Definition get32 (l : list Z) (i : nat) : Z := get16 l i + 65536 * get16 l (S (S i)).

(** What the server needs of a lock type: its handlers and its layout. *)
Class LockStruct (S L : Type) := {
  ld_type : dlock_type;
  ld_do : dlock_req_code -> option (handler S L);
  ld_encode : L -> list Z;
  ld_decode : list Z -> L;
  ld_wf : L -> Prop;
  ld_encode_len : forall p, zlen (ld_encode p) = g_lock_size ld_type;
  ld_roundtrip : forall p, ld_wf p -> ld_decode (ld_encode p) = p
}.

Definition g_atomic_do (c : dlock_req_code) : option (handler atomic_state atomic_lock) :=
  match c with
  | EXCLUSIVE_TRYLOCK => Some atomic_trylock_do
  | EXCLUSIVE_UNLOCK => Some atomic_unlock_do
  | EXCLUSIVE_LOCK_EXTEND => Some atomic_extend_lock_do
  | _ => None
  end.

Definition g_rwlock_do (c : dlock_req_code) : option (handler rw_state rw_lock) :=
  match c with
  | EXCLUSIVE_TRYLOCK => Some rwlock_trylock_ex_do
  | EXCLUSIVE_UNLOCK => Some rwlock_unlock_ex_do
  | SHARED_TRYLOCK => Some rwlock_trylock_sh_do
  | SHARED_UNLOCK => Some rwlock_unlock_sh_do
  | _ => None
  end.

Definition g_fairlock_do (c : dlock_req_code) : option (handler fairlock_state fair_lock) :=
  match c with
  | EXCLUSIVE_TRYLOCK => Some fairlock_trylock_ex_do
  | EXCLUSIVE_UNLOCK => Some fairlock_unlock_ex_do
  | EXCLUSIVE_LOCK_EXTEND => Some fairlock_extend_lock_do
  | EXCLUSIVE_TICKET_TRYLOCK => Some fairlock_trylock_ex_ticket_do
  | SHARED_TRYLOCK => Some fairlock_trylock_sh_do
  | SHARED_UNLOCK => Some fairlock_unlock_sh_do
  | SHARED_LOCK_EXTEND => Some fairlock_extend_lock_do
  | SHARED_TICKET_TRYLOCK => Some fairlock_trylock_sh_ticket_do
  | _ => None
  end.

Definition atomic_encode (p : atomic_lock) : list Z :=
  le32 (u32 (al_client_id p)) ++ le32 (al_timeout p).
Definition atomic_decode (l : list Z) : atomic_lock := AtomicLock (s32 (get32 l 0)) (get32 l 4).

Definition rw_encode (p : rw_lock) : list Z :=
  le32 (rl_timeout p) ++ le32 (u32 (rl_client_id p)) ++ le32 (rl_ref_count p) ++ le32 (rl_rsvd p).
Definition rw_decode (l : list Z) : rw_lock :=
  RwLock (get32 l 0) (s32 (get32 l 4)) (get32 l 8) (get32 l 12).

Definition bits_word (t : t_bits) : Z := rflag t + 2 * t_rsvd t + 1024 * rcnt t.

Definition fair_encode (p : fair_lock) : list Z :=
  le16 (nx p) ++ le16 (ns p) ++ le16 (mx p) ++ le16 (ms p) ++ le32 (fl_timeout p) ++
  le16 (rms (bs p)) ++ le16 (bits_word (bs p)) ++ le32 (u32 (ext_client_id p)) ++ le32 (ext_rsvd p).
Definition fair_decode (l : list Z) : fair_lock :=
  let w := get16 l 14 in
  FairLock (get16 l 0) (get16 l 2) (get16 l 4) (get16 l 6) (get32 l 8)
    (TBits (get16 l 12) (w mod 2) ((w / 2) mod 512) (w / 1024))
    (s32 (get32 l 16)) (get32 l 20).

Definition in_s32 (x : Z) : Prop := - 2 ^ 31 <= x < 2 ^ 31.

Definition atomic_wf (p : atomic_lock) : Prop := in_s32 (al_client_id p) /\ in_u32 (al_timeout p).
Definition rw_wf (p : rw_lock) : Prop :=
  in_u32 (rl_timeout p) /\ in_s32 (rl_client_id p) /\ in_u32 (rl_ref_count p) /\ in_u32 (rl_rsvd p).
Definition bits_wf (t : t_bits) : Prop :=
  in_u16 (rms t) /\ 0 <= rflag t < 2 /\ 0 <= t_rsvd t < 512 /\ 0 <= rcnt t < 64.
Definition fair_wf (p : fair_lock) : Prop :=
  in_u16 (nx p) /\ in_u16 (ns p) /\ in_u16 (mx p) /\ in_u16 (ms p) /\ in_u32 (fl_timeout p) /\
  bits_wf (bs p) /\ in_s32 (ext_client_id p) /\ in_u32 (ext_rsvd p).

Lemma join16 v : in_u16 v -> v mod 256 + 256 * ((v / 256) mod 256) = v.
Proof. intros Hv. zmod. Qed.

Lemma join32 v : in_u32 v ->
  v mod 256 + 256 * ((v / 256) mod 256) +
  65536 * ((v / 65536) mod 256 + 256 * ((v / 16777216) mod 256)) = v.
Proof. intros Hv. zmod. Qed.

Lemma s32_u32 x : in_s32 x -> s32 (u32 x) = x.
Proof. unfold in_s32, s32, u32. intros Hx. zmod. Qed.

Lemma atomic_roundtrip p : atomic_wf p -> atomic_decode (atomic_encode p) = p.
Proof.
  destruct p as [c t]. intros [Hc Ht]. simpl in *.
  unfold atomic_decode, atomic_encode, get32, get16, byte_at. cbn [le32 app nth al_client_id al_timeout].
  rewrite !join32 by (done || apply u32_range). by rewrite s32_u32.
Qed.

Lemma rw_roundtrip p : rw_wf p -> rw_decode (rw_encode p) = p.
Proof.
  destruct p as [t c r v]. intros (? & ? & ? & ?). simpl in *.
  unfold rw_decode, rw_encode, get32, get16, byte_at.
  cbn [le32 app nth rl_timeout rl_client_id rl_ref_count rl_rsvd].
  rewrite !join32 by (done || apply u32_range). by rewrite s32_u32.
Qed.

Lemma bits_word_split t :
  bits_wf t ->
  in_u16 (bits_word t) /\ bits_word t mod 2 = rflag t /\
  (bits_word t / 2) mod 512 = t_rsvd t /\ bits_word t / 1024 = rcnt t.
Proof. unfold bits_wf, bits_word. intros (? & ? & ? & ?). split_and!; zmod. Qed.

Lemma fair_roundtrip p : fair_wf p -> fair_decode (fair_encode p) = p.
Proof.
  destruct p as [a b c d t [r f v n] e x].
  intros (? & ? & ? & ? & ? & Hb & ? & ?).
  pose proof (bits_word_split _ Hb) as (Hw & Hf & Hv & Hn). destruct Hb as (Hr & _).
  unfold fair_decode, fair_encode, get32, get16, byte_at.
  cbn [le32 le16 app nth nx ns mx ms fl_timeout bs ext_client_id ext_rsvd rms rflag t_rsvd rcnt] in *.
  rewrite !join32, !join16 by (done || apply u32_range).
  by rewrite s32_u32, Hf, Hv, Hn.
Qed.

#[global] Instance atomic_struct : LockStruct atomic_state atomic_lock := {|
  ld_type := DLOCK_ATOMIC; ld_do := g_atomic_do;
  ld_encode := atomic_encode; ld_decode := atomic_decode; ld_wf := atomic_wf;
  ld_encode_len := fun p => eq_refl; ld_roundtrip := atomic_roundtrip |}.

#[global] Instance rw_struct : LockStruct rw_state rw_lock := {|
  ld_type := DLOCK_RW; ld_do := g_rwlock_do;
  ld_encode := rw_encode; ld_decode := rw_decode; ld_wf := rw_wf;
  ld_encode_len := fun p => eq_refl; ld_roundtrip := rw_roundtrip |}.

#[global] Instance fair_struct : LockStruct fairlock_state fair_lock := {|
  ld_type := DLOCK_FAIR; ld_do := g_fairlock_do;
  ld_encode := fair_encode; ld_decode := fair_decode; ld_wf := fair_wf;
  ld_encode_len := fun p => eq_refl; ld_roundtrip := fair_roundtrip |}.

(** ** Processing of a message *)

(** [do_lock_cmd] for a command of a known lock type: the checks, the
    handler's table, and the handler on the structure at [lock_offset]. *)
Definition lock_cmd_run {S L} `{LockStruct S L} (client_id now : Z) (m : lock_cmd_msg S)
    (mem : list Z) : option (list Z * lock_cmd_msg S * dlock_status) :=
  let size := g_lock_size ld_type in
  if req_code_num OP_CODE_MAX <=? req_code_num (op_code m)
  then Some (mem, set_op_ret DLOCK_EINVAL m, DLOCK_DONE)
  else if LOCK_MEMORY_SIZE - size <? lock_offset m
  then Some (mem, set_op_ret DLOCK_EINVAL m, DLOCK_DONE)
  else match ld_do (op_code m) with
  | None => Some (mem, set_op_ret DLOCK_EINVAL m, DLOCK_DONE)
  | Some f =>
    bytes ← read_bytes mem (lock_offset m) size;
    let '(p', m', ret) := f client_id now m (ld_decode bytes) in
    mem' ← write_bytes mem (lock_offset m) (ld_encode p');
    Some (mem', m', ret)
  end.

(** A command, tagged with the lock type its message names. *)
Inductive lock_cmd :=
| CAtomic (m : lock_cmd_msg atomic_state)
| CRw (m : lock_cmd_msg rw_state)
| CFair (m : lock_cmd_msg fairlock_state)
| CUnknown (m : lock_cmd_msg unit).

Definition do_lock_cmd (client_id now : Z) (c : lock_cmd) (mem : list Z)
  : option (list Z * lock_cmd) :=
  match c with
  | CAtomic m => '(mem, m, _) ← lock_cmd_run client_id now m mem; Some (mem, CAtomic m)
  | CRw m => '(mem, m, _) ← lock_cmd_run client_id now m mem; Some (mem, CRw m)
  | CFair m => '(mem, m, _) ← lock_cmd_run client_id now m mem; Some (mem, CFair m)
  | CUnknown m => Some (mem, CUnknown (set_op_ret DLOCK_EINVAL m))
  end.

Definition is_extend {S} (m : lock_cmd_msg S) : bool :=
  bool_decide (op_code m = EXCLUSIVE_LOCK_EXTEND \/ op_code m = SHARED_LOCK_EXTEND).

(** A nonzero extension becomes a point in time. *)
Definition lease_end (now t : Z) : Z := if t =? 0 then t else u32 (t + u32 now).

Definition pre_atomic (now : Z) (m : lock_cmd_msg atomic_state) : lock_cmd_msg atomic_state :=
  if is_extend m
  then set_ls (AtomicState (as_client_id (ls m)) (lease_end now (as_time_out (ls m)))) m else m.

Definition pre_fair (now : Z) (m : lock_cmd_msg fairlock_state) : lock_cmd_msg fairlock_state :=
  if is_extend m
  then set_ls (FairlockState (n_exclusive (ls m)) (n_shared (ls m)) (m_exclusive (ls m))
                 (m_shared (ls m)) (lease_end now (time_out (ls m))) (t_value (ls m))) m
  else m.

(** [preprocess_lock_cmd_msg]; an extension of any other lock type ends the
    loop. *)
Fixpoint preprocess_lock_cmd_msg (now : Z) (l : list lock_cmd) : list lock_cmd :=
  match l with
  | [] => []
  | CAtomic m :: r => CAtomic (pre_atomic now m) :: preprocess_lock_cmd_msg now r
  | CFair m :: r => CFair (pre_fair now m) :: preprocess_lock_cmd_msg now r
  | CRw m :: r => if is_extend m then l else CRw m :: preprocess_lock_cmd_msg now r
  | CUnknown m :: r => if is_extend m then l else CUnknown m :: preprocess_lock_cmd_msg now r
  end.

(** The ticket in the response of a queued request: the counter before the
    request took its number. *)
Definition post_fair (now : Z) (m : lock_cmd_msg fairlock_state) : lock_cmd_msg fairlock_state :=
  let s := ls m in
  if decide (op_ret m = DLOCK_EAGAIN) then
    if decide (op_code m = SHARED_TRYLOCK) then
      set_ls (FairlockState (n_exclusive s) (n_shared s) (m_exclusive s) (u16 (m_shared s - 1))
                (u32 now) (t_value s)) m
    else if decide (op_code m = EXCLUSIVE_TRYLOCK) then
      set_ls (FairlockState (n_exclusive s) (n_shared s) (u16 (m_exclusive s - 1)) (m_shared s)
                (u32 now) (t_value s)) m
    else m
  else m.

Definition modify_response_with_fairlock_ticket (now : Z) (l : list lock_cmd) : list lock_cmd :=
  (fun c => match c with CFair m => CFair (post_fair now m) | _ => c end) <$> l.

Definition check_cmd_msg_common_field {S} (m : lock_cmd_msg S) : bool :=
  (magic_no m =? DLOCK_DP_MAGIC_NO) && (version m =? DLOCK_PROTO_VERSION).

Definition check_cmd (c : lock_cmd) : bool :=
  match c with
  | CAtomic m => check_cmd_msg_common_field m
  | CRw m => check_cmd_msg_common_field m
  | CFair m => check_cmd_msg_common_field m
  | CUnknown m => check_cmd_msg_common_field m
  end.

Fixpoint do_lock_cmds (client_id now : Z) (l : list lock_cmd) (mem : list Z)
  : option (list Z * list lock_cmd) :=
  match l with
  | [] => Some (mem, [])
  | c :: r =>
    '(mem, c) ← do_lock_cmd client_id now c mem;
    '(mem, r) ← do_lock_cmds client_id now r mem;
    Some (mem, c :: r)
  end.

(** [do_lock] without encryption: the commands of one message, and the
    response that is sent, if any. *)
Definition do_lock (client_id now : Z) (l : list lock_cmd) (mem : list Z)
  : option (list Z * option (list lock_cmd)) :=
  match l with
  | c :: _ =>
    if check_cmd c then
      '(mem, l) ← do_lock_cmds client_id now (preprocess_lock_cmd_msg now l) mem;
      Some (mem, Some (modify_response_with_fairlock_ticket now l))
    else Some (mem, None)
  | [] => Some (mem, None)
  end.
