(* ===== verification/DlockServer.v ===== *)
(** * The dlock server: locks in one memory are independent objects

    The server works on raw offsets of one byte region and trusts the offset
    and the lock type of a command.  This file states what that promises: a
    store of typed lock objects, one for each block of the allocator, with
    the handlers acting on one object each ([locks_do_cmds]), and the theorem
    that [do_lock] on the bytes implements it ([do_lock_refines]). *)

From S2P Require Import Prelude Memory DlockMemory Dlock.

(** ** Field ranges *)

Definition atomic_ls_wf (s : atomic_state) : Prop := in_s32 (as_client_id s) /\ in_u32 (as_time_out s).
Definition rw_ls_wf (s : rw_state) : Prop :=
  in_u32 (rs_time_out s) /\ in_s32 (rs_client_id s) /\ in_u32 (rs_rcount s) /\ in_u32 (rs_rsvd s).
Definition fair_ls_wf (s : fairlock_state) : Prop :=
  in_u16 (n_exclusive s) /\ in_u16 (n_shared s) /\ in_u16 (m_exclusive s) /\ in_u16 (m_shared s) /\
  in_u32 (time_out s) /\ bits_wf (t_value s).

Lemma in_s32_0 : in_s32 0.
Proof. unfold in_s32. lia. Qed.
Lemma in_s32_pos c : 0 <= c < 2 ^ 31 -> in_s32 c.
Proof. unfold in_s32. lia. Qed.
Lemma u6_range x : 0 <= u6 x < 64.
Proof. apply Z.mod_pos_bound. lia. Qed.
#[export] Hint Resolve in_s32_0 u6_range : umdk.

(** Goals that say each field of a new structure is in its range. *)
Ltac wf_auto :=
  repeat first
    [ assumption | apply u16_range | apply u32_range | apply u6_range | apply in_s32_0
    | match goal with
      | |- context [if ?b then _ else _] => destruct b
      | |- _ /\ _ => split
      end
    | lia ].

Lemma atomic_do_wf c f client_id now m p p' m' r :
  g_atomic_do c = Some f -> f client_id now m p = (p', m', r) ->
  atomic_wf p -> atomic_ls_wf (ls m) -> atomic_wf p' /\ atomic_ls_wf (ls m').
Proof.
  unfold atomic_wf, atomic_ls_wf. destruct c; simpl; intros [= <-];
    unfold atomic_trylock_do, atomic_unlock_do, atomic_extend_lock_do, verify_client_id, atomic_ls;
    intros Hf Hp Hm; destruct_and?; repeat case_match; simplify_eq; simpl; wf_auto.
Qed.

Lemma rw_do_wf c f client_id now m p p' m' r :
  g_rwlock_do c = Some f -> f client_id now m p = (p', m', r) ->
  rw_wf p -> rw_ls_wf (ls m) -> rw_wf p' /\ rw_ls_wf (ls m').
Proof.
  unfold rw_wf, rw_ls_wf. destruct c; simpl; intros [= <-];
    unfold rwlock_trylock_ex_do, rwlock_unlock_ex_do, rwlock_trylock_sh_do, rwlock_unlock_sh_do,
      verify_client_id, rw_ls;
    intros Hf Hp Hm; destruct_and?; repeat case_match; simplify_eq; simpl; wf_auto.
Qed.

Lemma fair_do_wf c f client_id now m p p' m' r :
  g_fairlock_do c = Some f -> f client_id now m p = (p', m', r) ->
  in_s32 client_id -> fair_wf p -> fair_ls_wf (ls m) -> fair_wf p' /\ fair_ls_wf (ls m').
Proof.
  unfold fair_wf, fair_ls_wf, bits_wf. destruct c; simpl; intros [= <-];
    unfold fairlock_trylock_ex_do, fairlock_unlock_ex_do, fairlock_extend_lock_do,
      fairlock_trylock_sh_do, fairlock_unlock_sh_do, fairlock_trylock_ex_ticket_do,
      fairlock_trylock_sh_ticket_do, ticket_result, fair_takeover, raised_timeout, fair_reply,
      fairlock_set_fl_state;
    intros Hf Hc Hp Hm; destruct_and?; repeat case_match; simplify_eq; cbn -[Z.pow]; wf_auto.
Qed.

(** ** Lock objects *)

Inductive lock_cell := LAtomic (p : atomic_lock) | LRw (p : rw_lock) | LFair (p : fair_lock).

Definition cell_type (l : lock_cell) : dlock_type :=
  match l with LAtomic _ => DLOCK_ATOMIC | LRw _ => DLOCK_RW | LFair _ => DLOCK_FAIR end.
Definition cell_size (l : lock_cell) : Z := g_lock_size (cell_type l).
Definition cell_encode (l : lock_cell) : list Z :=
  match l with LAtomic p => atomic_encode p | LRw p => rw_encode p | LFair p => fair_encode p end.
Definition cell_wf (l : lock_cell) : Prop :=
  match l with LAtomic p => atomic_wf p | LRw p => rw_wf p | LFair p => fair_wf p end.

(** One command on one object. *)
Definition object_run {S L} `{LockStruct S L} (client_id now : Z) (m : lock_cmd_msg S) (p : L)
  : L * lock_cmd_msg S :=
  match ld_do (op_code m) with
  | Some f => (f client_id now m p).1
  | None => (p, set_op_ret DLOCK_EINVAL m)
  end.

Definition cell_do (client_id now : Z) (c : lock_cmd) (l : lock_cell) : option (lock_cell * lock_cmd) :=
  match c, l with
  | CAtomic m, LAtomic p => let '(p, m) := object_run client_id now m p in Some (LAtomic p, CAtomic m)
  | CRw m, LRw p => let '(p, m) := object_run client_id now m p in Some (LRw p, CRw m)
  | CFair m, LFair p => let '(p, m) := object_run client_id now m p in Some (LFair p, CFair m)
  | _, _ => None
  end.

Definition cmd_offset (c : lock_cmd) : Z :=
  match c with
  | CAtomic m => lock_offset m
  | CRw m => lock_offset m
  | CFair m => lock_offset m
  | CUnknown m => lock_offset m
  end.

(** The commands of a message, each on the object it names. *)
Fixpoint locks_do_cmds (client_id now : Z) (l : list lock_cmd) (locks : gmap Z lock_cell)
  : option (gmap Z lock_cell * list lock_cmd) :=
  match l with
  | [] => Some (locks, [])
  | c :: r =>
    cell ← locks !! cmd_offset c;
    '(cell, c') ← cell_do client_id now c cell;
    '(locks, r) ← locks_do_cmds client_id now r (<[cmd_offset c := cell]> locks);
    Some (locks, c' :: r)
  end.

(** A command addressed to an object of its type, with fields in range. *)
Definition cmd_ls_wf (c : lock_cmd) : Prop :=
  match c with
  | CAtomic m => atomic_ls_wf (ls m)
  | CRw m => rw_ls_wf (ls m)
  | CFair m => fair_ls_wf (ls m)
  | CUnknown _ => False
  end.
Definition cmd_type (c : lock_cmd) : option dlock_type :=
  match c with
  | CAtomic _ => Some DLOCK_ATOMIC | CRw _ => Some DLOCK_RW | CFair _ => Some DLOCK_FAIR
  | CUnknown _ => None
  end.
Definition cmd_ok (locks : gmap Z lock_cell) (c : lock_cmd) : Prop :=
  cmd_ls_wf c /\ (cell_type <$> locks !! cmd_offset c) = cmd_type c.

(** The bytes hold the objects. *)
Definition locks_repr (size : Z) (mem : list Z) (locks : gmap Z lock_cell) : Prop :=
  zlen mem = size /\
  forall off l, locks !! off = Some l ->
    cell_wf l /\ read_bytes mem off (cell_size l) = Some (cell_encode l).

(** The objects lie inside the memory, in disjoint blocks. *)
Definition locks_apart (size : Z) (locks : gmap Z lock_cell) : Prop :=
  (forall off l, locks !! off = Some l -> 0 <= off /\ off + cell_size l <= size) /\
  (forall o1 l1 o2 l2, locks !! o1 = Some l1 -> locks !! o2 = Some l2 -> o1 <> o2 ->
    o1 + cell_size l1 <= o2 \/ o2 + cell_size l2 <= o1).

(** The store that matches the blocks in use of the allocator. *)
Definition blocks_of (out : list (Z * dlock_type)) (locks : gmap Z lock_cell) : Prop :=
  forall off t, (off, t) ∈ out <-> (cell_type <$> locks !! off) = Some t.

Lemma cell_encode_len l : zlen (cell_encode l) = cell_size l.
Proof. by destruct l. Qed.

(** ** The refinement *)

(** Blocks of the allocator are apart. *)
Lemma mem_inv_apart size lm out locks :
  mem_inv size (lm, out) -> blocks_of out locks -> locks_apart size locks.
Proof.
  intros Hinv Hb.
  assert (Hin : forall off l, locks !! off = Some l -> exists i, out !! i = Some (off, cell_type l)).
  { intros off l Hl. apply list_elem_of_lookup_1, Hb. by rewrite Hl. }
  pose proof Hinv as (_ & _ & Ho & _). rewrite Forall_forall in Ho. split.
  - intros off l Hl. destruct (Hin _ _ Hl) as [i Hi].
    by destruct (Ho _ (list_elem_of_lookup_2 _ _ _ Hi)) as (? & _ & ?).
  - intros o1 l1 o2 l2 H1 H2 Hne. destruct (Hin _ _ H1) as [i Hi], (Hin _ _ H2) as [j Hj].
    apply (blocks_apart_at _ lm out i j _ _ _ _ Hinv Hi Hj). congruence.
Qed.

Lemma blocks_apart ops lm out locks :
  Forall op_ok ops ->
  mem_run (lock_memory_init LOCK_MEMORY_SIZE true, []) ops = Some (lm, out) ->
  blocks_of out locks -> locks_apart LOCK_MEMORY_SIZE locks.
Proof.
  intros Hops Hrun. assert (Hs : 0 < LOCK_MEMORY_SIZE < 2 ^ 32 - 1) by done.
  destruct (mem_run_spec _ Hs ops _ (mem_inv_init _ Hs) eq_refl Hops) as (st & Hr & Hinv & _).
  rewrite Hrun in Hr. injection Hr as <-. by apply (mem_inv_apart _ lm).
Qed.

Lemma apart_types size locks locks' :
  (forall o, (cell_type <$> locks' !! o) = (cell_type <$> locks !! o)) ->
  locks_apart size locks -> locks_apart size locks'.
Proof.
  intros Ht [Hi Hd].
  assert (Hc : forall o x, locks' !! o = Some x ->
    exists y, locks !! o = Some y /\ cell_size y = cell_size x).
  { intros o x Hx. specialize (Ht o). rewrite Hx in Ht. simpl in Ht. symmetry in Ht.
    apply fmap_Some in Ht as (y & ? & E). exists y. split; [done|]. unfold cell_size. by rewrite E. }
  split.
  - intros o x Hx. destruct (Hc o x Hx) as (y & Hy & <-). by apply Hi.
  - intros o1 l1 o2 l2 H1 H2. destruct (Hc _ _ H1) as (y1 & ? & <-), (Hc _ _ H2) as (y2 & ? & <-). eauto.
Qed.

Lemma insert_types (locks : gmap Z lock_cell) off l l' :
  locks !! off = Some l -> cell_type l' = cell_type l ->
  forall o, (cell_type <$> <[off := l']> locks !! o) = (cell_type <$> locks !! o).
Proof.
  intros Hl Ht o. destruct (decide (o = off)) as [->|].
  - rewrite lookup_insert_eq, Hl. simpl. by rewrite Ht.
  - by rewrite lookup_insert_ne.
Qed.

Lemma repr_update size mem locks off l l' :
  locks_repr size mem locks -> locks_apart size locks -> locks !! off = Some l ->
  cell_type l' = cell_type l -> cell_wf l' ->
  exists mem', write_bytes mem off (cell_encode l') = Some mem' /\
    locks_repr size mem' (<[off := l']> locks).
Proof.
  intros (Hz & Hr) [Hi Hd] Hl Ht Hw. destruct (Hi off l Hl) as [H0 Hs].
  assert (Hsz : cell_size l' = cell_size l) by (unfold cell_size; by rewrite Ht).
  destruct (write_bytes_in mem off (cell_encode l')) as [mem' Hm]; [done|rewrite cell_encode_len; lia|].
  exists mem'. split; [done|]. pose proof (write_bytes_len _ _ _ _ Hm) as Hlen.
  split; [lia|]. intros o x. destruct (decide (o = off)) as [->|Hne].
  - rewrite lookup_insert_eq. intros [= <-]. split; [done|].
    rewrite <- (cell_encode_len l'). by eapply read_write_same.
  - rewrite lookup_insert_ne by done. intros Hx. destruct (Hr o x Hx) as (? & Hrd).
    split; [done|]. erewrite read_write_disjoint; [done|exact Hm|].
    rewrite cell_encode_len, Hsz. destruct (Hd o x off l Hx Hl Hne); lia.
Qed.

Section one_type.
Context {S L : Type} {LS : LockStruct S L}.
Hypothesis table_end : forall c, req_code_num OP_CODE_MAX <= req_code_num c -> ld_do c = None.

Lemma lock_cmd_run_object size client_id now m p mem :
  zlen mem = size -> size <= LOCK_MEMORY_SIZE ->
  0 <= lock_offset m -> lock_offset m + g_lock_size ld_type <= size ->
  read_bytes mem (lock_offset m) (g_lock_size ld_type) = Some (ld_encode p) -> ld_wf p ->
  match ld_do (op_code m) with
  | Some f => exists mem' ret,
      write_bytes mem (lock_offset m) (ld_encode (f client_id now m p).1.1) = Some mem' /\
      lock_cmd_run client_id now m mem = Some (mem', (f client_id now m p).1.2, ret)
  | None => lock_cmd_run client_id now m mem = Some (mem, set_op_ret DLOCK_EINVAL m, DLOCK_DONE)
  end.
Proof.
  intros Hz Hmax H0 Hs Hr Hw. unfold lock_cmd_run.
  destruct (ld_do (op_code m)) as [f|] eqn:Hf.
  - destruct (Z.leb_spec (req_code_num OP_CODE_MAX) (req_code_num (op_code m))) as [Hle|_].
    { by rewrite (table_end _ Hle) in Hf. }
    rewrite (proj2 (Z.ltb_ge _ _)) by lia. rewrite Hr. cbn [mbind option_bind].
    rewrite ld_roundtrip by done. destruct (f client_id now m p) as [[p' m'] ret]. simpl.
    destruct (write_bytes_in mem (lock_offset m) (ld_encode p')) as [mem' ->];
      [done|rewrite ld_encode_len; lia|]. by eauto.
  - split_ifs; done.
Qed.
End one_type.

Lemma atomic_table_end c : req_code_num OP_CODE_MAX <= req_code_num c -> ld_do (L:=atomic_lock) c = None.
Proof. destruct c; simpl; (lia || done). Qed.
Lemma rw_table_end c : req_code_num OP_CODE_MAX <= req_code_num c -> ld_do (L:=rw_lock) c = None.
Proof. destruct c; simpl; (lia || done). Qed.
Lemma fair_table_end c : req_code_num OP_CODE_MAX <= req_code_num c -> ld_do (L:=fair_lock) c = None.
Proof. destruct c; simpl; (lia || done). Qed.

(** A command on an object of its type has a result of that type. *)
Lemma cell_do_wf client_id now c l :
  in_s32 client_id -> cell_wf l -> cmd_ls_wf c -> cmd_type c = Some (cell_type l) ->
  exists l' c', cell_do client_id now c l = Some (l', c') /\
    cell_type l' = cell_type l /\ cell_wf l'.
Proof.
  intros Hc Hl Hm Ht. destruct c as [m|m|m|m], l as [p|p|p]; try discriminate; simpl in *;
    unfold object_run; simpl.
  - destruct (g_atomic_do (op_code m)) as [f|] eqn:Hf; [|by eauto].
    destruct (f client_id now m p) as [[p' m'] r] eqn:E.
    destruct (atomic_do_wf _ _ _ _ _ _ _ _ _ Hf E Hl Hm) as [? _]. simpl. eauto.
  - destruct (g_rwlock_do (op_code m)) as [f|] eqn:Hf; [|by eauto].
    destruct (f client_id now m p) as [[p' m'] r] eqn:E.
    destruct (rw_do_wf _ _ _ _ _ _ _ _ _ Hf E Hl Hm) as [? _]. simpl. eauto.
  - destruct (g_fairlock_do (op_code m)) as [f|] eqn:Hf; [|by eauto].
    destruct (f client_id now m p) as [[p' m'] r] eqn:E.
    destruct (fair_do_wf _ _ _ _ _ _ _ _ _ Hf E Hc Hl Hm) as [? _]. simpl. eauto.
Qed.

(** The same step of one lock type, on the bytes and on the object. *)
Lemma one_object_step (size : Z) {S L} {LS : LockStruct S L}
    (table_end : forall c, req_code_num OP_CODE_MAX <= req_code_num c -> ld_do c = None)
    client_id now (m : lock_cmd_msg S) (p : L) mem :
  zlen mem = size -> size <= LOCK_MEMORY_SIZE ->
  0 <= lock_offset m -> lock_offset m + g_lock_size ld_type <= size ->
  read_bytes mem (lock_offset m) (g_lock_size ld_type) = Some (ld_encode p) -> ld_wf p ->
  exists mem' ret,
    write_bytes mem (lock_offset m) (ld_encode (object_run client_id now m p).1) = Some mem' /\
    lock_cmd_run client_id now m mem = Some (mem', (object_run client_id now m p).2, ret).
Proof.
  intros Hz Hmax H0 Hs Hr Hw.
  pose proof (lock_cmd_run_object table_end size client_id now m p mem Hz Hmax H0 Hs Hr Hw) as H.
  unfold object_run. destruct (ld_do (op_code m)) as [f|]; [done|].
  eexists _, _. split; [|exact H]. simpl.
  unfold write_bytes. rewrite ld_encode_len.
  rewrite (proj2 (Z.leb_le _ _)), (proj2 (Z.leb_le _ _)) by lia. simpl. f_equal.
  unfold read_bytes in Hr. split_ifs_in Hr; [|done]. breflect. injection Hr as Hr. rewrite <- Hr.
  rewrite length_take, length_drop. rewrite Nat.min_l by (unfold zlen in *; lia).
  rewrite <- drop_drop, take_drop. apply take_drop.
Qed.

Lemma do_lock_cmd_object size client_id now c l mem locks l' c' :
  size <= LOCK_MEMORY_SIZE -> locks_repr size mem locks -> locks_apart size locks -> locks !! cmd_offset c = Some l ->
  cell_do client_id now c l = Some (l', c') -> cell_type l' = cell_type l -> cell_wf l' ->
  exists mem', do_lock_cmd client_id now c mem = Some (mem', c') /\
    locks_repr size mem' (<[cmd_offset c := l']> locks).
Proof.
  intros Hmax Hr Hap Hl Hdo Ht Hw. pose proof Hr as (Hz & Hc). destruct (Hc _ _ Hl) as (Hlw & Hrd).
  pose proof Hap as [Hi _]. destruct (Hi _ _ Hl) as [H0 Hs].
  destruct (repr_update _ _ _ _ _ _ Hr Hap Hl Ht Hw) as (mem' & Hm' & Hr').
  exists mem'. split; [|done].
  destruct c as [m|m|m|m], l as [p|p|p]; try discriminate; simpl in *.
  - destruct (one_object_step size atomic_table_end client_id now m p mem Hz Hmax H0 Hs Hrd Hlw) as (mem1 & ret & Hm1 & ->).
    destruct (object_run client_id now m p) as [p' m']. simplify_eq. simpl in *. congruence.
  - destruct (one_object_step size rw_table_end client_id now m p mem Hz Hmax H0 Hs Hrd Hlw) as (mem1 & ret & Hm1 & ->).
    destruct (object_run client_id now m p) as [p' m']. simplify_eq. simpl in *. congruence.
  - destruct (one_object_step size fair_table_end client_id now m p mem Hz Hmax H0 Hs Hrd Hlw) as (mem1 & ret & Hm1 & ->).
    destruct (object_run client_id now m p) as [p' m']. simplify_eq. simpl in *. congruence.
Qed.

Lemma do_lock_cmds_refines size client_id now l mem locks :
  size <= LOCK_MEMORY_SIZE -> in_s32 client_id -> locks_repr size mem locks -> locks_apart size locks -> Forall (cmd_ok locks) l ->
  exists mem' locks' l', do_lock_cmds client_id now l mem = Some (mem', l') /\
    locks_do_cmds client_id now l locks = Some (locks', l') /\
    locks_repr size mem' locks' /\ (forall o, (cell_type <$> locks' !! o) = (cell_type <$> locks !! o)).
Proof.
  intros Hmax Hcl. revert mem locks. induction l as [|c l IH]; intros mem locks Hr Hap Hok; simpl.
  - eexists _, _, _. by split_and!.
  - apply Forall_cons in Hok as [[Hls Hty] Hok].
    destruct (locks !! cmd_offset c) as [cell|] eqn:Hcell; [|by destruct c].
    pose proof Hr as (_ & Hcw). destruct (Hcw _ _ Hcell) as (Hw & _).
    destruct (cell_do_wf client_id now c cell) as (l' & c' & Hdo & Ht & Hw'); [done..|].
    destruct (do_lock_cmd_object _ _ _ _ _ _ _ _ _ Hmax Hr Hap Hcell Hdo Ht Hw') as (mem1 & -> & Hr1).
    pose proof (insert_types _ _ _ _ Hcell Ht) as Htypes.
    destruct (IH mem1 (<[cmd_offset c := l']> locks)) as (mem2 & locks2 & r & E1 & E2 & Hr2 & Ht2);
      [done|by eapply apart_types| |].
    { eapply Forall_impl; [exact Hok|]. intros d [? Hd]. split; [done|]. by rewrite Htypes. }
    cbn [mbind option_bind]. rewrite Hdo. cbn [mbind option_bind]. rewrite E1, E2. cbn [mbind option_bind].
    eexists _, _, _. split_and!; [done..|]. intros o. by rewrite Ht2, Htypes.
Qed.

Lemma lease_end_range now t : in_u32 t -> in_u32 (lease_end now t).
Proof. unfold lease_end. intros. split_ifs; [done|apply u32_range]. Qed.

Lemma preprocess_ok now locks l :
  Forall (cmd_ok locks) l -> Forall (cmd_ok locks) (preprocess_lock_cmd_msg now l).
Proof.
  induction l as [|c l IH]; intros H; [done|]. pose proof H as [[Hls Hty] Hl]%Forall_cons.
  destruct c as [m|m|m|m]; simpl in *; [| | |done].
  - constructor; [|by apply IH]. unfold pre_atomic. case_match; [|done]. split; [|done].
    destruct Hls. split; [done|]. by apply lease_end_range.
  - case_match; [done|]. constructor; [done|]. by apply IH.
  - constructor; [|by apply IH]. unfold pre_fair. case_match; [|done]. split; [|done].
    destruct Hls as (? & ? & ? & ? & ? & ?). unfold cmd_ls_wf, fair_ls_wf. simpl.
    do 4 (split; [done|]). split; [by apply lease_end_range|done].
Qed.

(** What [do_lock] promises in terms of lock objects. *)
Definition locks_do_lock (client_id now : Z) (l : list lock_cmd) (locks : gmap Z lock_cell)
  : option (gmap Z lock_cell * option (list lock_cmd)) :=
  if match l with c :: _ => check_cmd c | [] => false end then
    '(locks, r) ← locks_do_cmds client_id now (preprocess_lock_cmd_msg now l) locks;
    Some (locks, Some (modify_response_with_fairlock_ticket now r))
  else Some (locks, None).

(** A message on the bytes and on the objects. *)
Lemma do_lock_object size client_id now l mem locks :
  size <= LOCK_MEMORY_SIZE -> in_s32 client_id ->
  locks_repr size mem locks -> locks_apart size locks -> Forall (cmd_ok locks) l ->
  exists mem' locks' r, do_lock client_id now l mem = Some (mem', r) /\
    locks_do_lock client_id now l locks = Some (locks', r) /\
    locks_repr size mem' locks' /\ (forall o, (cell_type <$> locks' !! o) = (cell_type <$> locks !! o)).
Proof.
  intros Hmax Hc Hr Hap Hok. destruct l as [|c l]; [by eexists _, _, _|].
  unfold do_lock, locks_do_lock. destruct (check_cmd c); [|by eexists _, _, _].
  destruct (do_lock_cmds_refines size client_id now (preprocess_lock_cmd_msg now (c :: l)) mem locks)
    as (mem' & locks' & r & -> & -> & Hr' & Ht); [done..|by apply preprocess_ok|].
  cbn [mbind option_bind]. by eexists _, _, _.
Qed.

(** C35: a message whose commands address locks the allocator handed out, by
    their offset and type and with fields in range ([cmd_ok]; places asked for
    end below 2^32, [op_ok]), acts on the byte memory exactly as on a store of
    separate lock objects: every access stays inside the memory, each command
    changes the object it names and no other lock, the response is the one
    the object's handler gives, and the memory again holds the objects. *)
Theorem do_lock_refines (ops : list mem_op) (client_id now : Z) (l : list lock_cmd)
    (lm : lock_memory) (out : list (Z * dlock_type)) (locks : gmap Z lock_cell) (mem : list Z) :
  Forall op_ok ops ->
  mem_run (lock_memory_init LOCK_MEMORY_SIZE true, []) ops = Some (lm, out) ->
  blocks_of out locks -> locks_repr LOCK_MEMORY_SIZE mem locks ->
  in_s32 client_id -> Forall (cmd_ok locks) l ->
  exists mem' locks' r,
    do_lock client_id now l mem = Some (mem', r) /\
    locks_do_lock client_id now l locks = Some (locks', r) /\
    locks_repr LOCK_MEMORY_SIZE mem' locks' /\ blocks_of out locks'.
Proof.
  intros Hops Hrun Hb Hr Hc Hok. pose proof (blocks_apart _ _ _ _ Hops Hrun Hb) as Hap.
  destruct (do_lock_object LOCK_MEMORY_SIZE client_id now l mem locks) as (mem' & locks' & r & H1 & H2 & H3 & Ht); [done..|].
  eexists _, _, _. split_and!; [done..|]. intros off t. rewrite Ht. apply Hb.
Qed.

(** ** Example: a fresh memory with one fair lock *)

Definition example_fair : fair_lock := FairLock 0 0 0 0 0 (TBits 0 0 0 0) 0 0.
Definition example_locks : gmap Z lock_cell := {[ 0 := LFair example_fair ]}.
Definition example_mem : list Z := replicate (Z.to_nat LOCK_MEMORY_SIZE) 0.
Definition example_cmd : lock_cmd :=
  CFair (LockCmdMsg DLOCK_DP_MAGIC_NO DLOCK_PROTO_VERSION 1 EXCLUSIVE_TRYLOCK DLOCK_SUCCESS 0
           (FairlockState 0 0 0 0 10 (TBits 0 0 0 0))).

Lemma example_alloc :
  exists lm, mem_run (lock_memory_init LOCK_MEMORY_SIZE true, []) [MGet DLOCK_FAIR]
    = Some (lm, [(0, DLOCK_FAIR)]).
Proof.
  unfold lock_memory_init. remember (replicate _ 0) as bs eqn:Hbs.
  destruct (memset0_ok LOCK_MEMORY_SIZE ltac:(done) bs 0 24) as (bs' & E & _); [|lia|lia|done|].
  { rewrite Hbs, zlen_replicate. apply Z2Nat.id. by compute. }
  simpl. unfold get_lock_memory. simpl. rewrite E. simpl. by eexists.
Qed.

Lemma example_repr : locks_repr LOCK_MEMORY_SIZE example_mem example_locks.
Proof.
  assert (Hz : zlen example_mem = LOCK_MEMORY_SIZE).
  { unfold example_mem. rewrite zlen_replicate. apply Z2Nat.id. by compute. }
  split; [done|]. unfold example_locks. intros off l [<- <-]%lookup_singleton_Some. split.
  - simpl. unfold fair_wf, bits_wf. simpl. wf_auto.
  - apply read_bytes_Some. rewrite Hz. split_and!; [done..|by compute|].
    intros i Hi. change (cell_encode (LFair example_fair)) with (replicate 24 0).
    unfold cell_size in Hi. simpl in Hi. unfold example_mem.
    rewrite !zget_replicate; [done| |lia]. rewrite Z2Nat.id by (by compute).
    assert (24 <= LOCK_MEMORY_SIZE) by (by compute). lia.
Qed.

Lemma do_lock_refines_witness :
  exists lm mem' locks' r,
    mem_run (lock_memory_init LOCK_MEMORY_SIZE true, []) [MGet DLOCK_FAIR] = Some (lm, [(0, DLOCK_FAIR)]) /\
    do_lock 7 100 [example_cmd] example_mem = Some (mem', r) /\
    locks_do_lock 7 100 [example_cmd] example_locks = Some (locks', r) /\
    locks_repr LOCK_MEMORY_SIZE mem' locks'.
Proof.
  destruct example_alloc as [lm Hrun]. exists lm.
  destruct (do_lock_refines [MGet DLOCK_FAIR] 7 100 [example_cmd] lm [(0, DLOCK_FAIR)]
              example_locks example_mem) as (mem' & locks' & r & H1 & H2 & H3 & _).
  - repeat constructor.
  - exact Hrun.
  - intros off t. rewrite list_elem_of_singleton. unfold example_locks.
    destruct (decide (off = 0)) as [->|Hne].
    + rewrite lookup_singleton_eq. cbn [fmap option_fmap option_map cell_type].
      split; intros H; [by injection H as ->|by injection H as <-].
    + rewrite lookup_singleton_ne by congruence. split; intros H; [|discriminate H].
      exfalso. apply Hne. by injection H.
  - exact example_repr.
  - unfold in_s32. lia.
  - repeat constructor; simpl; lia.
  - exists mem', locks', r. split; [exact Hrun|]. split; [exact H1|]. split; [exact H2|exact H3].
Defined.
