(* ===== verification/DlockClient.v ===== *)
(** * Distributed locks: the client

    [lock_entry_c] of src/src/ulock/dlock/lib/client/lock_entry_c.cpp keeps a
    client's view of one lock; the calls of dlock_client_dp.cpp turn a request
    into a command for the server and the response into the new view.  Each
    call is split at the exchange with the server: [*_begin] is the code up to
    it, with the message that is sent, and [*_end] the code after it, with the
    response or the error.  The per-type code is an instance of [LockEntry];
    the calls are written once against it, as the source switches on
    [m_lock_type].  [result] is what the caller's buffer holds afterwards. *)

From S2P Require Import Prelude DlockMemory Dlock.

Inductive dlock_state :=
| LOCK_INITIALIZED | EXCLUSIVE_LOCKED | SHARED_LOCKED | UNLOCKED
| EXCLUSIVE_TICKETED | SHARED_TICKETED.

#[global] Instance dlock_state_eq_dec : EqDecision dlock_state.
Proof. solve_decision. Defined.

Inductive lock_ops :=
| LOCK_EXCLUSIVE | LOCK_SHARED | UNLOCK | EXTEND_LOCK_EXCLUSIVE | EXTEND_LOCK_SHARED.

#[global] Instance lock_ops_eq_dec : EqDecision lock_ops.
Proof. solve_decision. Defined.

Record lock_request := LockRequest { lock_op : lock_ops; expire_time : Z }.

Record lock_entry_c (S : Type) := LockEntryC {
  m_lock_offset : Z;
  m_ref_count : Z;
  m_lock_state : dlock_state;
  m_lock_val : S
}.
Arguments LockEntryC {S}.
Arguments m_lock_offset {S}.
Arguments m_ref_count {S}.
Arguments m_lock_state {S}.
Arguments m_lock_val {S}.

Section entry_setters.
Context {S : Type}.
Implicit Types e : lock_entry_c S.

Definition set_ref_count (v : Z) e : lock_entry_c S :=
  LockEntryC (m_lock_offset e) (u32 v) (m_lock_state e) (m_lock_val e).
Definition set_lock_state (v : dlock_state) e : lock_entry_c S :=
  LockEntryC (m_lock_offset e) (m_ref_count e) v (m_lock_val e).
Definition set_lock_val (v : S) e : lock_entry_c S :=
  LockEntryC (m_lock_offset e) (m_ref_count e) (m_lock_state e) v.
End entry_setters.

(** ** The state tables *)

Definition op_ret_req : Type := dlock_status * dlock_req_code.

Definition g_atomic_state_map (st : dlock_state) (op : lock_ops) : op_ret_req :=
  match st, op with
  | LOCK_INITIALIZED, LOCK_EXCLUSIVE => (DLOCK_SUCCESS, EXCLUSIVE_TRYLOCK)
  | LOCK_INITIALIZED, UNLOCK => (DLOCK_ALREADY_UNLOCKED, OP_CODE_NULL)
  | EXCLUSIVE_LOCKED, LOCK_EXCLUSIVE => (DLOCK_SUCCESS, EXCLUSIVE_LOCK_EXTEND)
  | EXCLUSIVE_LOCKED, UNLOCK => (DLOCK_SUCCESS, EXCLUSIVE_UNLOCK)
  | EXCLUSIVE_LOCKED, EXTEND_LOCK_EXCLUSIVE => (DLOCK_SUCCESS, EXCLUSIVE_LOCK_EXTEND)
  | UNLOCKED, LOCK_EXCLUSIVE => (DLOCK_SUCCESS, EXCLUSIVE_TRYLOCK)
  | UNLOCKED, UNLOCK => (DLOCK_ALREADY_UNLOCKED, OP_CODE_NULL)
  | _, _ => (DLOCK_EINVAL, OP_CODE_NULL)
  end.

Definition g_rwlock_state_map (st : dlock_state) (op : lock_ops) : op_ret_req :=
  match st, op with
  | (LOCK_INITIALIZED | UNLOCKED), LOCK_EXCLUSIVE => (DLOCK_SUCCESS, EXCLUSIVE_TRYLOCK)
  | (LOCK_INITIALIZED | UNLOCKED), LOCK_SHARED => (DLOCK_SUCCESS, SHARED_TRYLOCK)
  | (LOCK_INITIALIZED | UNLOCKED), UNLOCK => (DLOCK_ALREADY_UNLOCKED, OP_CODE_NULL)
  | EXCLUSIVE_LOCKED, LOCK_EXCLUSIVE => (DLOCK_ALREADY_LOCKED, OP_CODE_NULL)
  | EXCLUSIVE_LOCKED, UNLOCK => (DLOCK_SUCCESS, EXCLUSIVE_UNLOCK)
  | SHARED_LOCKED, LOCK_SHARED => (DLOCK_ALREADY_LOCKED, OP_CODE_NULL)
  | SHARED_LOCKED, UNLOCK => (DLOCK_SUCCESS, SHARED_UNLOCK)
  | _, _ => (DLOCK_EINVAL, OP_CODE_NULL)
  end.

Definition g_fairlock_state_map (st : dlock_state) (op : lock_ops) : op_ret_req :=
  match st, op with
  | (LOCK_INITIALIZED | UNLOCKED), LOCK_EXCLUSIVE => (DLOCK_SUCCESS, EXCLUSIVE_TRYLOCK)
  | (LOCK_INITIALIZED | UNLOCKED), LOCK_SHARED => (DLOCK_SUCCESS, SHARED_TRYLOCK)
  | (LOCK_INITIALIZED | UNLOCKED), UNLOCK => (DLOCK_ALREADY_UNLOCKED, OP_CODE_NULL)
  | EXCLUSIVE_LOCKED, LOCK_EXCLUSIVE => (DLOCK_ALREADY_LOCKED, EXCLUSIVE_LOCK_EXTEND)
  | EXCLUSIVE_LOCKED, UNLOCK => (DLOCK_SUCCESS, EXCLUSIVE_UNLOCK)
  | EXCLUSIVE_LOCKED, EXTEND_LOCK_EXCLUSIVE => (DLOCK_SUCCESS, EXCLUSIVE_LOCK_EXTEND)
  | SHARED_LOCKED, LOCK_SHARED => (DLOCK_ALREADY_LOCKED, SHARED_LOCK_EXTEND)
  | SHARED_LOCKED, UNLOCK => (DLOCK_SUCCESS, SHARED_UNLOCK)
  | SHARED_LOCKED, EXTEND_LOCK_SHARED => (DLOCK_SUCCESS, SHARED_LOCK_EXTEND)
  | EXCLUSIVE_TICKETED, LOCK_EXCLUSIVE => (DLOCK_SUCCESS, EXCLUSIVE_TICKET_TRYLOCK)
  | EXCLUSIVE_TICKETED, LOCK_SHARED => (DLOCK_ETICKET, OP_CODE_NULL)
  | EXCLUSIVE_TICKETED, UNLOCK => (DLOCK_DONE, OP_LOCAL_RESET)
  | SHARED_TICKETED, LOCK_EXCLUSIVE => (DLOCK_ETICKET, OP_CODE_NULL)
  | SHARED_TICKETED, LOCK_SHARED => (DLOCK_SUCCESS, SHARED_TICKET_TRYLOCK)
  | SHARED_TICKETED, UNLOCK => (DLOCK_DONE, OP_LOCAL_RESET)
  | _, _ => (DLOCK_EINVAL, OP_CODE_NULL)
  end.

(** ** Filling a command

    The result, the entry, and the command's operation and lock state; the
    rest of the message is the same for every type. *)

Definition fill_result (S : Type) : Type := dlock_status * lock_entry_c S * dlock_req_code * S.

Definition atomic_fill_cmd_msg (client_id : Z) (req : lock_request)
    (e : lock_entry_c atomic_state) : fill_result atomic_state :=
  let s := AtomicState client_id (expire_time req) in
  match lock_op req with
  | LOCK_EXCLUSIVE =>
    if decide (m_lock_state e = EXCLUSIVE_LOCKED)
    then (DLOCK_SUCCESS, set_ref_count (m_ref_count e + 1) e, EXCLUSIVE_LOCK_EXTEND, s)
    else (DLOCK_SUCCESS, e, EXCLUSIVE_TRYLOCK, s)
  | UNLOCK =>
    if decide (m_lock_state e = EXCLUSIVE_LOCKED) then
      let e' := set_ref_count (m_ref_count e - 1) e in
      if 0 <? m_ref_count e' then (DLOCK_ALREADY_LOCKED, e', EXCLUSIVE_UNLOCK, s)
      else (DLOCK_SUCCESS, e', EXCLUSIVE_UNLOCK, s)
    else (DLOCK_ALREADY_UNLOCKED, e, EXCLUSIVE_UNLOCK, s)
  | EXTEND_LOCK_EXCLUSIVE =>
    if decide (m_lock_state e = EXCLUSIVE_LOCKED)
    then (DLOCK_SUCCESS, e, EXCLUSIVE_LOCK_EXTEND, s)
    else (DLOCK_EINVAL, e, EXCLUSIVE_LOCK_EXTEND, s)
  | _ => (DLOCK_EINVAL, e, OP_CODE_NULL, s)
  end.

Definition rw_fill_cmd_msg (client_id : Z) (req : lock_request)
    (e : lock_entry_c rw_state) : fill_result rw_state :=
  let s c := RwState (expire_time req) c 0 0 in
  match lock_op req with
  | LOCK_EXCLUSIVE =>
    match m_lock_state e with
    | EXCLUSIVE_LOCKED =>
      (DLOCK_ALREADY_LOCKED, set_ref_count (m_ref_count e + 1) e, EXCLUSIVE_TRYLOCK, s client_id)
    | SHARED_LOCKED => (DLOCK_EINVAL, e, EXCLUSIVE_TRYLOCK, s client_id)
    | _ => (DLOCK_SUCCESS, e, EXCLUSIVE_TRYLOCK, s client_id)
    end
  | LOCK_SHARED =>
    match m_lock_state e with
    | EXCLUSIVE_LOCKED => (DLOCK_EINVAL, e, SHARED_TRYLOCK, s 0)
    | SHARED_LOCKED => (DLOCK_ALREADY_LOCKED, set_ref_count (m_ref_count e + 1) e, SHARED_TRYLOCK, s 0)
    | _ => (DLOCK_SUCCESS, e, SHARED_TRYLOCK, s 0)
    end
  | UNLOCK =>
    match m_lock_state e with
    | SHARED_LOCKED | EXCLUSIVE_LOCKED =>
      let ex := bool_decide (m_lock_state e = EXCLUSIVE_LOCKED) in
      let c := if ex then EXCLUSIVE_UNLOCK else SHARED_UNLOCK in
      let id := if ex then client_id else 0 in
      let e' := set_ref_count (m_ref_count e - 1) e in
      if 0 <? m_ref_count e' then (DLOCK_ALREADY_LOCKED, e', c, s id)
      else (DLOCK_SUCCESS, e', c, s id)
    | _ => (DLOCK_ALREADY_UNLOCKED, e, OP_CODE_NULL, s 0)
    end
  | _ => (DLOCK_EINVAL, e, OP_CODE_NULL, s 0)
  end.

Definition fair_fill_cmd_msg (req : lock_request)
    (e : lock_entry_c fairlock_state) : fill_result fairlock_state :=
  let '(tab_ret, tab_op) := g_fairlock_state_map (m_lock_state e) (lock_op req) in
  let v := m_lock_val e in
  let s := FairlockState (n_exclusive v) (n_shared v) (m_exclusive v) (m_shared v)
             (expire_time req) (TBits 0 0 0 0) in
  let ret := if decide (tab_ret = DLOCK_ALREADY_LOCKED) then DLOCK_SUCCESS else tab_ret in
  let e1 := if decide (tab_ret = DLOCK_ALREADY_LOCKED)
            then set_ref_count (m_ref_count e + 1) e else e in
  let e2 := if decide (tab_op = OP_LOCAL_RESET) then set_lock_state LOCK_INITIALIZED e1 else e1 in
  if decide (ret = DLOCK_SUCCESS) then
    if decide (lock_op req = UNLOCK) then
      let e3 := set_ref_count (m_ref_count e2 - 1) e2 in
      if 0 <? m_ref_count e3 then (DLOCK_ALREADY_LOCKED, e3, tab_op, s)
      else (DLOCK_SUCCESS, e3, tab_op, s)
    else (DLOCK_SUCCESS, e2, tab_op, s)
  else (ret, e2, tab_op, s).

(** ** Taking a response

    [None] asks for the local view; otherwise the response's fields. *)

Definition update_result (S : Type) : Type := dlock_status * lock_entry_c S * S.

Definition locked_with {S} (st : dlock_state) (v : S) (e : lock_entry_c S) : lock_entry_c S :=
  set_lock_val v (set_ref_count (m_ref_count e + 1) (set_lock_state st e)).
Definition unlocked_with {S} (v : S) (e : lock_entry_c S) : lock_entry_c S :=
  set_lock_val v (set_ref_count 0 (set_lock_state UNLOCKED e)).
Definition reset_entry {S} (e : lock_entry_c S) : lock_entry_c S :=
  set_ref_count 0 (set_lock_state LOCK_INITIALIZED e).

Definition atomic_update_state_with_cmd_msg (p : option (lock_cmd_msg atomic_state))
    (e : lock_entry_c atomic_state) (res : atomic_state) : update_result atomic_state :=
  match p with
  | None => (DLOCK_SUCCESS, e, m_lock_val e)
  | Some m =>
    match op_code m with
    | EXCLUSIVE_TRYLOCK => (DLOCK_SUCCESS, locked_with EXCLUSIVE_LOCKED (ls m) e, ls m)
    | EXCLUSIVE_UNLOCK => (DLOCK_SUCCESS, unlocked_with (ls m) e, ls m)
    | EXCLUSIVE_LOCK_EXTEND => (DLOCK_SUCCESS, set_lock_val (ls m) e, ls m)
    | _ => (DLOCK_EINVAL, e, ls m)
    end
  end.

(** [base] and [rcount] are copied; the reserved word is not. *)
Definition rw_copy (s old : rw_state) : rw_state :=
  RwState (rs_time_out s) (rs_client_id s) (rs_rcount s) (rs_rsvd old).

Definition rw_update_state_with_cmd_msg (p : option (lock_cmd_msg rw_state))
    (e : lock_entry_c rw_state) (res : rw_state) : update_result rw_state :=
  match p with
  | None => (DLOCK_SUCCESS, e, rw_copy (m_lock_val e) res)
  | Some m =>
    let v := rw_copy (ls m) (m_lock_val e) in
    let res := rw_copy (ls m) res in
    match op_code m with
    | EXCLUSIVE_TRYLOCK => (DLOCK_SUCCESS, locked_with EXCLUSIVE_LOCKED v e, res)
    | SHARED_TRYLOCK => (DLOCK_SUCCESS, locked_with SHARED_LOCKED v e, res)
    | EXCLUSIVE_UNLOCK | SHARED_UNLOCK => (DLOCK_SUCCESS, unlocked_with v e, res)
    | EXCLUSIVE_LOCK_EXTEND | SHARED_LOCK_EXTEND => (DLOCK_SUCCESS, set_lock_val v e, res)
    | _ => (DLOCK_EINVAL, e, res)
    end
  end.

Definition is_shared_lock (c : dlock_req_code) : bool :=
  bool_decide (c = SHARED_TRYLOCK \/ c = SHARED_TICKET_TRYLOCK).
Definition is_exclusive_lock (c : dlock_req_code) : bool :=
  bool_decide (c = EXCLUSIVE_TRYLOCK \/ c = EXCLUSIVE_TICKET_TRYLOCK).
Definition is_unlock (c : dlock_req_code) : bool :=
  bool_decide (c = EXCLUSIVE_UNLOCK \/ c = SHARED_UNLOCK).
Definition is_first_trylock (c : dlock_req_code) : bool :=
  bool_decide (c = SHARED_TRYLOCK \/ c = EXCLUSIVE_TRYLOCK).

Definition fair_update_state_with_cmd_msg (p : option (lock_cmd_msg fairlock_state))
    (e : lock_entry_c fairlock_state) (res : fairlock_state) : update_result fairlock_state :=
  match p with
  | None =>
    let v := m_lock_val e in
    (DLOCK_SUCCESS, e,
     FairlockState (n_exclusive v) (n_shared v) (m_exclusive v) (m_shared v) (time_out v) (t_value res))
  | Some m =>
    match op_ret m with
    | DLOCK_SUCCESS =>
      let st := if is_shared_lock (op_code m) then SHARED_LOCKED
                else if is_exclusive_lock (op_code m) then EXCLUSIVE_LOCKED
                else if is_unlock (op_code m) then UNLOCKED else m_lock_state e in
      let n := if is_shared_lock (op_code m) || is_exclusive_lock (op_code m)
               then m_ref_count e + 1 else m_ref_count e in
      (DLOCK_SUCCESS, set_ref_count n (set_lock_state st (set_lock_val (ls m) e)), ls m)
    | DLOCK_EAGAIN =>
      let st := if req_code_num (op_code m) <? req_code_num SHARED_TRYLOCK
                then EXCLUSIVE_TICKETED else SHARED_TICKETED in
      let e1 := set_lock_state st e in
      if is_first_trylock (op_code m) then (DLOCK_EAGAIN, set_lock_val (ls m) e1, ls m)
      else
        let s := ls m in
        let v := m_lock_val e in
        (DLOCK_EAGAIN, e1,
         FairlockState (n_exclusive s) (n_shared s) (m_exclusive v) (m_shared v) (time_out v) (t_value s))
    | DLOCK_FAIL => (DLOCK_FAIL, reset_entry e, res)
    | ret => (ret, e, res)
    end
  end.

(** ** The asynchronous variants *)

Definition atomic_async_fill_cmd_msg (client_id : Z) (req : lock_request)
    (e : lock_entry_c atomic_state) : fill_result atomic_state :=
  let '(ret, op) := g_atomic_state_map (m_lock_state e) (lock_op req) in
  let s := AtomicState client_id (expire_time req) in
  if decide (ret = DLOCK_SUCCESS) then
    if bool_decide (lock_op req = UNLOCK) && (1 <? m_ref_count e)
    then (DLOCK_ALREADY_LOCKED, set_ref_count (m_ref_count e - 1) e, op, s)
    else (ret, e, op, s)
  else (ret, e, op, s).

Definition rw_async_fill_cmd_msg (client_id : Z) (req : lock_request)
    (e : lock_entry_c rw_state) : fill_result rw_state :=
  let '(ret, op) := g_rwlock_state_map (m_lock_state e) (lock_op req) in
  let e1 := if decide (ret = DLOCK_ALREADY_LOCKED) then set_ref_count (m_ref_count e + 1) e else e in
  let s := RwState (expire_time req)
             (if bool_decide (op = EXCLUSIVE_TRYLOCK \/ op = EXCLUSIVE_UNLOCK) then client_id else 0) 0 0 in
  if decide (ret = DLOCK_SUCCESS) then
    if bool_decide (lock_op req = UNLOCK) && (1 <? m_ref_count e1)
    then (DLOCK_ALREADY_LOCKED, set_ref_count (m_ref_count e1 - 1) e1, op, s)
    else (ret, e1, op, s)
  else (ret, e1, op, s).

Definition fair_async_fill_cmd_msg (req : lock_request)
    (e : lock_entry_c fairlock_state) : fill_result fairlock_state :=
  let '(tab_ret, op) := g_fairlock_state_map (m_lock_state e) (lock_op req) in
  let v := m_lock_val e in
  let s := FairlockState (n_exclusive v) (n_shared v) (m_exclusive v) (m_shared v)
             (expire_time req) (TBits 0 0 0 0) in
  let ret := if decide (tab_ret = DLOCK_ALREADY_LOCKED) then DLOCK_SUCCESS else tab_ret in
  let e1 := if decide (op = OP_LOCAL_RESET) then set_lock_state LOCK_INITIALIZED e else e in
  if decide (ret = DLOCK_SUCCESS) then
    if bool_decide (lock_op req = UNLOCK) && (1 <? m_ref_count e1)
    then (DLOCK_ALREADY_LOCKED, set_ref_count (m_ref_count e1 - 1) e1, op, s)
    else (ret, e1, op, s)
  else (ret, e1, op, s).

Definition atomic_async_update_state_with_cmd_msg (p : option (lock_cmd_msg atomic_state))
    (e : lock_entry_c atomic_state) (res : atomic_state) : update_result atomic_state :=
  match p with
  | None => (DLOCK_SUCCESS, e, m_lock_val e)
  | Some m =>
    match op_ret m with
    | DLOCK_SUCCESS =>
      let e1 := match op_code m with
                | EXCLUSIVE_TRYLOCK => locked_with EXCLUSIVE_LOCKED (ls m) e
                | EXCLUSIVE_UNLOCK => unlocked_with (ls m) e
                | _ => set_lock_val (ls m) e
                end in
      (DLOCK_SUCCESS, e1, ls m)
    | DLOCK_FAIL => (DLOCK_FAIL, reset_entry e, res)
    | ret => (ret, e, res)
    end
  end.

Definition rw_async_update_state_with_cmd_msg (p : option (lock_cmd_msg rw_state))
    (e : lock_entry_c rw_state) (res : rw_state) : update_result rw_state :=
  match p with
  | None => (DLOCK_SUCCESS, e, rw_copy (m_lock_val e) res)
  | Some m =>
    match op_ret m with
    | DLOCK_SUCCESS =>
      let v := rw_copy (ls m) (m_lock_val e) in
      let e1 := match op_code m with
                | EXCLUSIVE_TRYLOCK => locked_with EXCLUSIVE_LOCKED v e
                | SHARED_TRYLOCK => locked_with SHARED_LOCKED v e
                | EXCLUSIVE_UNLOCK | SHARED_UNLOCK => unlocked_with v e
                | _ => set_lock_val v e
                end in
      (DLOCK_SUCCESS, e1, rw_copy (ls m) res)
    | DLOCK_FAIL => (DLOCK_FAIL, reset_entry e, res)
    | ret => (ret, e, res)
    end
  end.

Definition fair_async_update_state_with_cmd_msg (p : option (lock_cmd_msg fairlock_state))
    (e : lock_entry_c fairlock_state) (res : fairlock_state) : update_result fairlock_state :=
  match p with
  | None => (DLOCK_SUCCESS, e, m_lock_val e)
  | Some m =>
    match op_ret m with
    | DLOCK_SUCCESS =>
      let e1 := if is_unlock (op_code m) then unlocked_with (ls m) e
                else if is_exclusive_lock (op_code m) then locked_with EXCLUSIVE_LOCKED (ls m) e
                else if is_shared_lock (op_code m) then locked_with SHARED_LOCKED (ls m) e
                else set_lock_val (ls m) e in
      (DLOCK_SUCCESS, e1, ls m)
    | DLOCK_EAGAIN =>
      if is_first_trylock (op_code m) then
        let st := if req_code_num (op_code m) <? req_code_num SHARED_TRYLOCK
                  then EXCLUSIVE_TICKETED else SHARED_TICKETED in
        (DLOCK_EAGAIN, set_lock_state st (set_lock_val (ls m) e), ls m)
      else
        let s := ls m in
        let v := m_lock_val e in
        (DLOCK_EAGAIN, e,
         FairlockState (n_exclusive s) (n_shared s) (m_exclusive v) (m_shared v) (time_out s) (t_value s))
    | DLOCK_FAIL => (DLOCK_FAIL, reset_entry e, res)
    | ret => (ret, e, res)
    end
  end.

(** ** The interface of a lock type to the calls *)

Class LockEntry (S : Type) := {
  m_lock_type : dlock_type;
  ls_zero : S;
  fill_cmd : Z -> lock_request -> lock_entry_c S -> fill_result S;
  update_state_with_cmd_msg : option (lock_cmd_msg S) -> lock_entry_c S -> S -> update_result S;
  async_fill_cmd : Z -> lock_request -> lock_entry_c S -> fill_result S;
  async_update_state_with_cmd_msg : option (lock_cmd_msg S) -> lock_entry_c S -> S -> update_result S
}.

#[global] Instance atomic_entry : LockEntry atomic_state := {|
  m_lock_type := DLOCK_ATOMIC;
  ls_zero := AtomicState 0 0;
  fill_cmd := atomic_fill_cmd_msg;
  update_state_with_cmd_msg := atomic_update_state_with_cmd_msg;
  async_fill_cmd := atomic_async_fill_cmd_msg;
  async_update_state_with_cmd_msg := atomic_async_update_state_with_cmd_msg |}.

#[global] Instance rw_entry : LockEntry rw_state := {|
  m_lock_type := DLOCK_RW;
  ls_zero := RwState 0 0 0 0;
  fill_cmd := rw_fill_cmd_msg;
  update_state_with_cmd_msg := rw_update_state_with_cmd_msg;
  async_fill_cmd := rw_async_fill_cmd_msg;
  async_update_state_with_cmd_msg := rw_async_update_state_with_cmd_msg |}.

#[global] Instance fair_entry : LockEntry fairlock_state := {|
  m_lock_type := DLOCK_FAIR;
  ls_zero := FairlockState 0 0 0 0 0 (TBits 0 0 0 0);
  fill_cmd := fun _ => fair_fill_cmd_msg;
  update_state_with_cmd_msg := fair_update_state_with_cmd_msg;
  async_fill_cmd := fun _ => fair_async_fill_cmd_msg;
  async_update_state_with_cmd_msg := fair_async_update_state_with_cmd_msg |}.

(** ** The calls *)

Section calls.
Context {S : Type} `{LE : LockEntry S}.
Implicit Types (e : lock_entry_c S) (m : lock_cmd_msg S) (res : S).

(** The constructor of [lock_entry_c]. *)
Definition entry_init (off : Z) : lock_entry_c S := LockEntryC off 0 LOCK_INITIALIZED ls_zero.

Definition clear_lock_val e : lock_entry_c S := set_lock_val ls_zero e.

(** [init_cmd_msg_common_field] and the fields every type sets. *)
Definition build_cmd_msg (message_id : Z) (e : lock_entry_c S) (op : dlock_req_code) (s : S)
  : lock_cmd_msg S :=
  LockCmdMsg DLOCK_DP_MAGIC_NO DLOCK_PROTO_VERSION message_id op DLOCK_SUCCESS (m_lock_offset e) s.

(** [fill_cmd_msg]: the result, the entry and the message. *)
Definition fill_cmd_msg (client_id message_id : Z) (req : lock_request) e
  : dlock_status * lock_entry_c S * lock_cmd_msg S :=
  let '(ret, e', op, s) := fill_cmd client_id req e in
  (ret, e', build_cmd_msg message_id e' op s).

Definition async_fill_cmd_msg (client_id message_id : Z) (req : lock_request) e
  : dlock_status * lock_entry_c S * lock_cmd_msg S :=
  let '(ret, e', op, s) := async_fill_cmd client_id req e in
  (ret, e', build_cmd_msg message_id e' op s).

(** Up to the exchange: the call is over, or a message is sent. *)
Inductive call_step :=
| CallDone (ret : dlock_status) (e : lock_entry_c S) (res : S)
| CallSend (e : lock_entry_c S) (m : lock_cmd_msg S).

(** What the exchange gives. *)
Inductive xchg_result :=
| XErr (ret : dlock_status)
| XResp (m : lock_cmd_msg S).

Definition check_resp_lock_cmd_msg (req resp : lock_cmd_msg S) : bool :=
  (magic_no req =? magic_no resp) && (version req =? version resp) &&
  (message_id req =? message_id resp) && bool_decide (op_code req = op_code resp) &&
  (lock_offset req =? lock_offset resp).

(** The last step of [xchg_cmd_msg]. *)
Definition xchg_check (req resp : lock_cmd_msg S) : xchg_result :=
  if check_resp_lock_cmd_msg req resp then XResp resp else XErr DLOCK_BAD_RESPONSE.

Definition done_to_success (ret : dlock_status) : dlock_status :=
  if decide (ret = DLOCK_DONE) then DLOCK_SUCCESS else ret.

Definition trylock_begin (client_id message_id : Z) (req : lock_request) e res : call_step :=
  if bool_decide (m_lock_type = DLOCK_ATOMIC) && negb (bool_decide (lock_op req = LOCK_EXCLUSIVE))
  then CallDone DLOCK_EINVAL e res
  else if expire_time req =? 0 then
    let '(ret, e', res') := update_state_with_cmd_msg None e res in CallDone ret e' res'
  else
    let '(ret, e1, m) := fill_cmd_msg client_id message_id req e in
    if decide (ret = DLOCK_SUCCESS) then CallSend e1 m
    else if decide (ret = DLOCK_ALREADY_LOCKED) then
      let '(_, e2, res') := update_state_with_cmd_msg None e1 res in CallDone ret e2 res'
    else CallDone (done_to_success ret) e1 res.

Definition trans_trylock_op_to_extend m e res : update_result S :=
  let e1 := if decide (op_ret m = DLOCK_FAIL) then reset_entry e else e in
  let e2 := if decide (op_ret m = DLOCK_NOT_READY) then set_ref_count (m_ref_count e1 - 1) e1 else e1 in
  if negb (bool_decide (m_lock_type = DLOCK_FAIR)) && negb (bool_decide (op_ret m = DLOCK_SUCCESS))
  then (op_ret m, e2, res)
  else
    let '(ret, e3, res') := update_state_with_cmd_msg (Some m) e2 res in
    (if decide (ret = DLOCK_SUCCESS) then DLOCK_ALREADY_LOCKED else ret, e3, res').

Definition trylock_end (req : lock_cmd_msg S) (x : xchg_result) e res : update_result S :=
  let reentrant := is_extend req in
  match x with
  | XErr ret => (ret, set_ref_count (m_ref_count e - (if reentrant then 1 else 0)) e, res)
  | XResp m =>
    if reentrant then trans_trylock_op_to_extend m e res
    else if negb (bool_decide (m_lock_type = DLOCK_FAIR)) && negb (bool_decide (op_ret m = DLOCK_SUCCESS))
    then (op_ret m, e, res)
    else update_state_with_cmd_msg (Some m) e res
  end.

Definition unlock_begin (client_id message_id : Z) e res : call_step :=
  if (m_ref_count e =? 0) && negb (bool_decide (m_lock_type = DLOCK_FAIR))
  then CallDone DLOCK_ALREADY_UNLOCKED e res
  else if 1 <? m_ref_count e
  then CallDone DLOCK_ALREADY_LOCKED (set_ref_count (m_ref_count e - 1) e) res
  else
    let '(ret, e1, m) := fill_cmd_msg client_id message_id (LockRequest UNLOCK 0) e in
    if decide (ret = DLOCK_SUCCESS) then CallSend (clear_lock_val e1) m
    else CallDone (done_to_success ret) e1 res.

Definition unlock_end (x : xchg_result) e res : update_result S :=
  match x with
  | XErr ret => (ret, set_ref_count (m_ref_count e + 1) e, res)
  | XResp m =>
    if decide (op_ret m = DLOCK_NOT_READY) then
      (op_ret m, set_ref_count (m_ref_count e + 1) e, res)
    else if negb (bool_decide (m_lock_type = DLOCK_FAIR)) && negb (bool_decide (op_ret m = DLOCK_SUCCESS))
    then (DLOCK_FAIL, reset_entry e, res)
    else update_state_with_cmd_msg (Some m) e res
  end.

Definition lock_extend_begin (client_id message_id : Z) (req : lock_request) e res : call_step :=
  if m_ref_count e =? 0 then CallDone DLOCK_EINVAL e res
  else
    let '(ret, e1, m) := fill_cmd_msg client_id message_id req e in
    if decide (ret = DLOCK_SUCCESS) then CallSend e1 m else CallDone ret e1 res.

Definition lock_extend_end (x : xchg_result) e res : update_result S :=
  match x with
  | XErr ret => (ret, e, res)
  | XResp m =>
    if decide (op_ret m = DLOCK_NOT_READY) then (op_ret m, e, res)
    else if negb (bool_decide (m_lock_type = DLOCK_FAIR)) && negb (bool_decide (op_ret m = DLOCK_SUCCESS))
    then (op_ret m, reset_entry e, res)
    else update_state_with_cmd_msg (Some m) e res
  end.

(** [async_request] up to the send. *)
Definition async_request_begin (client_id message_id : Z) (req : lock_request) e res : call_step :=
  let '(ret, e1, m) := async_fill_cmd_msg client_id message_id req e in
  if decide (ret = DLOCK_SUCCESS)
  then CallSend (if decide (lock_op req = UNLOCK) then clear_lock_val e1 else e1) m
  else CallDone (done_to_success ret) e1 res.

Definition trylock_result_check m e res : update_result S :=
  let '(ret, e1, res') := async_update_state_with_cmd_msg (Some m) e res in
  if is_extend m && bool_decide (ret = DLOCK_SUCCESS)
  then (DLOCK_ALREADY_LOCKED, set_ref_count (m_ref_count e1 + 1) e1, res')
  else (ret, e1, res').

Definition unlock_or_extend_result_check m e res : update_result S :=
  async_update_state_with_cmd_msg (Some m) e res.

(** [async_result_check] once a response of the expected length is there:
    the dispatch of [g_async_check] on the operation of the request. *)
Definition async_result_check (op : lock_ops) m e res : update_result S :=
  match op with
  | LOCK_EXCLUSIVE | LOCK_SHARED => trylock_result_check m e res
  | _ => unlock_or_extend_result_check m e res
  end.
End calls.
Arguments call_step : clear implicits.
Arguments xchg_result : clear implicits.

(** ** Consistency of an entry *)

Section entries.
Context {S : Type} `{LE : LockEntry S}.
Implicit Types (e : lock_entry_c S) (m : lock_cmd_msg S) (res : S).

Definition is_locked (st : dlock_state) : bool :=
  match st with EXCLUSIVE_LOCKED | SHARED_LOCKED => true | _ => false end.

(** States the type's tables can reach. *)
Definition state_fits (st : dlock_state) : Prop :=
  match st with
  | SHARED_LOCKED => m_lock_type <> DLOCK_ATOMIC
  | EXCLUSIVE_TICKETED | SHARED_TICKETED => m_lock_type = DLOCK_FAIR
  | _ => True
  end.

(** Between calls the reference count says whether the lock is held. *)
Definition entry_wf e : Prop :=
  state_fits (m_lock_state e) /\ in_u32 (m_ref_count e) /\
  (if is_locked (m_lock_state e) then 1 <= m_ref_count e else m_ref_count e = 0).

(** Entries no call can tell apart: never locked, and unlocked again. *)
Definition same_state (a b : dlock_state) : Prop :=
  a = b \/ (a = LOCK_INITIALIZED /\ b = UNLOCKED) \/ (a = UNLOCKED /\ b = LOCK_INITIALIZED).

Definition entry_equiv (a b : lock_entry_c S) : Prop :=
  m_lock_offset a = m_lock_offset b /\ m_ref_count a = m_ref_count b /\
  m_lock_val a = m_lock_val b /\ same_state (m_lock_state a) (m_lock_state b).

#[global] Instance entry_equiv_equiv : Equivalence entry_equiv.
Proof.
  unfold entry_equiv, same_state. split.
  - intros a. split_and!; auto.
  - intros a b (-> & -> & -> & H). split_and!; auto. intuition congruence.
  - intros a b c (-> & -> & -> & H1) (-> & -> & -> & H2). split_and!; auto. intuition congruence.
Qed.

(** The synchronous call for a request. *)
Definition sync_begin (client_id message_id : Z) (req : lock_request) e res : call_step S :=
  match lock_op req with
  | LOCK_EXCLUSIVE | LOCK_SHARED => trylock_begin client_id message_id req e res
  | UNLOCK => unlock_begin client_id message_id e res
  | _ => lock_extend_begin client_id message_id req e res
  end.

Definition sync_end (op : lock_ops) (req : lock_cmd_msg S) (x : xchg_result S) e res : update_result S :=
  match op with
  | LOCK_EXCLUSIVE | LOCK_SHARED => trylock_end req x e res
  | UNLOCK => unlock_end x e res
  | _ => lock_extend_end x e res
  end.

(** Results the server gives to an operation: those of the handlers, and
    [DLOCK_NOT_READY] while a restarted server collects its clients. *)
Definition resp_fits m : Prop :=
  op_ret m = DLOCK_SUCCESS \/ op_ret m = DLOCK_FAIL \/ op_ret m = DLOCK_NOT_READY \/
  (op_ret m = DLOCK_EAGAIN /\ m_lock_type = DLOCK_FAIR /\
   (is_exclusive_lock (op_code m) || is_shared_lock (op_code m) = true)).

Definition req_fits (req : lock_request) : Prop :=
  match lock_op req with
  | LOCK_EXCLUSIVE | LOCK_SHARED => expire_time req <> 0
  | UNLOCK => expire_time req = 0
  | _ => True
  end.

(** An asynchronous request and the check of its response leave what the
    synchronous call leaves. *)
Definition async_agrees : Prop :=
  forall client_id message_id req e res,
  entry_wf e -> m_ref_count e + 1 < 2 ^ 32 -> req_fits req ->
  match sync_begin client_id message_id req e res, async_request_begin client_id message_id req e res with
  | CallDone r1 e1 _, CallDone r2 e2 _ => r1 = r2 /\ entry_equiv e1 e2
  | CallSend e1 m1, CallSend e2 m2 =>
    m1 = m2 /\
    forall m, op_code m = op_code m1 -> resp_fits m ->
      let '(r1, e1', _) := sync_end (lock_op req) m1 (XResp m) e1 res in
      let '(r2, e2', _) := async_result_check (lock_op req) m e2 res in
      r1 = r2 /\ entry_equiv e1' e2' /\ entry_wf e1'
  | _, _ => False
  end.
End entries.
Arguments async_agrees S {LE}.

Lemma u32_idemp x : u32 (u32 x) = u32 x.
Proof. apply u32_small, u32_range. Qed.

(** The cases of one lock type: the state and the operation decide every
    table; what is left is the reference count and the response. *)
Ltac dec_simpl := repeat (match goal with
  | |- context [bool_decide ?P] =>
    first [ rewrite (bool_decide_eq_true_2 P) by (tauto || congruence)
          | rewrite (bool_decide_eq_false_2 P) by (intuition congruence) ]
  | |- context [decide ?P] => destruct (decide P); try (exfalso; congruence)
  end; cbn -[u32 Z.add Z.sub Z.eqb Z.ltb]).

Ltac entry_case :=
  repeat (match goal with
  | |- context [?x =? ?y] => destruct (Z.eqb_spec x y)
  | |- context [?x <? ?y] => destruct (Z.ltb_spec x y)
  end; try (exfalso; rewrite ?u32_small in * by lia; lia); dec_simpl).

Ltac entry_done :=
  unfold entry_equiv, entry_wf, same_state, state_fits in *;
  cbn -[u32 Z.add Z.sub Z.pow] in *; subst;
  rewrite ?u32_idemp, ?u32_small in * by lia; split_and!; auto; try lia; try done;
  unfold u32 in *; zmod.

Ltac call_unfold :=
  unfold sync_begin, async_request_begin, trylock_begin, unlock_begin, lock_extend_begin,
    fill_cmd_msg, async_fill_cmd_msg, build_cmd_msg, done_to_success, sync_end, trylock_end,
    unlock_end, lock_extend_end, async_result_check, trylock_result_check,
    unlock_or_extend_result_check, trans_trylock_op_to_extend, is_extend, is_shared_lock,
    is_exclusive_lock, is_unlock, is_first_trylock.

Ltac async_cases :=
  intros cid mid [op t] [off n st v] res (Hst & Hn & Hl) Hn1 Hreq; call_unfold;
  destruct op, st; cbn -[Z.pow] in Hst, Hn, Hl, Hn1, Hreq; try done;
    cbn -[u32 Z.add Z.sub Z.eqb Z.ltb]; dec_simpl; entry_case;
  try (split; [done|]; entry_done; fail);
  (split; [congruence|]; intros [mg ver mi oc orr lo s] Hop Hresp; unfold resp_fits in Hresp;
   call_unfold; cbn -[u32 Z.add Z.sub Z.eqb Z.ltb] in Hop, Hresp |- *; subst oc; dec_simpl;
   destruct Hresp as [Hr|[Hr|[Hr|(Hr & ? & Hc)]]]; try done; subst orr; dec_simpl; entry_done).

Lemma atomic_async_agrees : async_agrees atomic_state.
Proof. async_cases. Qed.

Lemma rw_async_agrees : async_agrees rw_state.
Proof. async_cases. Qed.

Lemma fair_async_agrees : async_agrees fairlock_state.
Proof. async_cases. Qed.

(** C24: for every lock type, a request made asynchronously and the check of
    its response leave the entry as the synchronous call for the same request
    leaves it, up to the two names of an unlocked state: the same requests
    are refused locally with the same code, the others send the same message,
    and any response the server can give to that message ([resp_fits]: success,
    failure, not ready, and again for fair locks) leads to the same result,
    reference count and state, with the count again telling whether the lock is
    held.  Responses to earlier requests are outside this: the synchronous
    calls discard them, [async_result_check] does not tell them apart. *)
Theorem async_matches_sync :
  async_agrees atomic_state /\ async_agrees rw_state /\ async_agrees fairlock_state.
Proof.
  split; [exact atomic_async_agrees|]. split; [exact rw_async_agrees|exact fair_async_agrees].
Qed.
