(* ===== verification/DlockSystem.v ===== *)
(** * Distributed locks: clients and server together

    Clients that contend for one lock, the server that keeps it, and the
    network between them.  A client makes one call at a time; its command
    travels to the server, is processed there and the response comes back.
    Messages of a client stay in order but may be delayed at will or lost, and
    a call may give up waiting, after which its command can still be processed
    and its response can still arrive.  As in jetty_mgr, every receive of a
    client is posted on the same buffer: a completion tells that something
    arrived, and the code reads whatever the buffer holds by then.

    The calls are the synchronous ones: trylock, unlock and lock_extend.
    Not part of the system: asynchronous requests and batches ([DlockClient]
    models the asynchronous calls of one client; [async_result_check] takes
    any response that has arrived, also a late one to an earlier request),
    other locks of the same client (they only add messages with other
    identifiers), encryption, a restart of the server, and the server reading
    its clock more than once while it processes one message. *)

From S2P Require Import Prelude DlockMemory Dlock DlockServer DlockClient.

Definition CMD_RQ_SIZE : Z := 4.

(** The server's processing of a message with one command. *)
Class LockServe (S L : Type) := { serve : Z -> Z -> lock_cmd_msg S -> L -> L * lock_cmd_msg S }.

#[global] Instance atomic_serve : LockServe atomic_state atomic_lock := {|
  serve := fun c now m p => object_run c now (pre_atomic now m) p |}.
#[global] Instance rw_serve : LockServe rw_state rw_lock := {|
  serve := fun c now m p => object_run c now m p |}.
#[global] Instance fair_serve : LockServe fairlock_state fair_lock := {|
  serve := fun c now m p =>
    let '(p', m') := object_run c now (pre_fair now m) p in (p', post_fair now m') |}.

(** It is what [do_lock] does to the lock the command names. *)
Lemma serve_is_do_lock c now (locks : gmap Z lock_cell) :
  (forall m p, locks !! lock_offset m = Some (LAtomic p) -> check_cmd_msg_common_field m = true ->
    locks_do_lock c now [CAtomic m] locks =
    Some (<[lock_offset m := LAtomic (serve c now m p).1]> locks, Some [CAtomic (serve c now m p).2])) /\
  (forall m p, locks !! lock_offset m = Some (LRw p) -> check_cmd_msg_common_field m = true ->
    locks_do_lock c now [CRw m] locks =
    Some (<[lock_offset m := LRw (serve c now m p).1]> locks, Some [CRw (serve c now m p).2])) /\
  (forall m p, locks !! lock_offset m = Some (LFair p) -> check_cmd_msg_common_field m = true ->
    locks_do_lock c now [CFair m] locks =
    Some (<[lock_offset m := LFair (serve c now m p).1]> locks, Some [CFair (serve c now m p).2])).
Proof.
  split_and!; intros m p Hp Hm; unfold locks_do_lock; simpl; rewrite Hm.
  - assert (E : lock_offset (pre_atomic now m) = lock_offset m) by (unfold pre_atomic; by case_match).
    simpl. rewrite E, Hp. simpl. by destruct (object_run c now (pre_atomic now m) p).
  - destruct (is_extend m) eqn:He; simpl; rewrite Hp; simpl; by destruct (object_run c now m p).
  - assert (E : lock_offset (pre_fair now m) = lock_offset m) by (unfold pre_fair; by case_match).
    simpl. rewrite E, Hp. simpl. by destruct (object_run c now (pre_fair now m) p).
Qed.

Inductive api_op :=
| ApiTrylock (req : lock_request)
| ApiUnlock
| ApiExtend (req : lock_request).

Section system.
Context {S L : Type} `{LE : LockEntry S} `{SV : LockServe S L}.

(** The checks of client_wrapper.cpp on the operation of a request. *)
Definition api_valid (op : api_op) : bool :=
  match op with
  | ApiTrylock req => bool_decide (lock_op req = LOCK_EXCLUSIVE \/ lock_op req = LOCK_SHARED)
  | ApiUnlock => true
  | ApiExtend req =>
    bool_decide (lock_op req = EXTEND_LOCK_EXCLUSIVE \/ lock_op req = EXTEND_LOCK_SHARED)
  end.

Definition api_begin (c id : Z) (op : api_op) (e : lock_entry_c S) : call_step S :=
  if negb (api_valid op) then CallDone DLOCK_EINVAL e ls_zero
  else match op with
  | ApiTrylock req => trylock_begin c id req e ls_zero
  | ApiUnlock => unlock_begin c id e ls_zero
  | ApiExtend req => lock_extend_begin c id req e ls_zero
  end.

Definition api_end (op : api_op) (m : lock_cmd_msg S) (x : xchg_result S) (e : lock_entry_c S)
  : dlock_status * lock_entry_c S :=
  match op with
  | ApiTrylock _ => (trylock_end m x e ls_zero).1
  | ApiUnlock => (unlock_end x e ls_zero).1
  | ApiExtend _ => (lock_extend_end x e ls_zero).1
  end.

(** The calls that get as far as [generate_message_id]. *)
Definition takes_id (op : api_op) (e : lock_entry_c S) : bool :=
  api_valid op && match op with
  | ApiTrylock req =>
    negb (bool_decide (m_lock_type = DLOCK_ATOMIC) && negb (bool_decide (lock_op req = LOCK_EXCLUSIVE)))
    && negb (expire_time req =? 0)
  | ApiUnlock =>
    negb ((m_ref_count e =? 0) && negb (bool_decide (m_lock_type = DLOCK_FAIR)))
    && negb (1 <? m_ref_count e)
  | ApiExtend _ => negb (m_ref_count e =? 0)
  end.

Record client := Client {
  c_entry : lock_entry_c S;
  c_next_id : Z;                                  (* m_next_message_id *)
  c_pending : option (api_op * lock_cmd_msg S);   (* the call that waits *)
  c_reqs : list (lock_cmd_msg S);                 (* on the way to the server *)
  c_resps : list (lock_cmd_msg S);                (* on the way back *)
  c_posted : Z;                                   (* receives posted *)
  c_comps : Z;                                    (* completions not polled *)
  c_buf : option (lock_cmd_msg S);                (* the receive buffer *)
  c_ret : option dlock_status                     (* what the last call returned *)
}.

Record sys := Sys { s_lock : L; s_client : Z -> client; s_now : Z }.

Definition upd (c : Z) (x : client) (f : Z -> client) : Z -> client :=
  fun d => if decide (d = c) then x else f d.

(** The call returns [r]. *)
Definition finish (r : dlock_status * lock_entry_c S) (x : client) : client :=
  Client r.2 (c_next_id x) None (c_reqs x) (c_resps x) (c_posted x) (c_comps x) (c_buf x) (Some r.1).

Definition start_call (c : Z) (op : api_op) (x : client) : client :=
  let id := c_next_id x in
  let id' := if takes_id op (c_entry x) then u16 (id + 1) else id in
  match api_begin c id op (c_entry x) with
  | CallDone ret e _ =>
    Client e id' None (c_reqs x) (c_resps x) (c_posted x) (c_comps x) (c_buf x) (Some ret)
  | CallSend e m =>
    if CMD_RQ_SIZE <=? c_posted x then
      (* post_recv fails: nothing is sent *)
      finish (api_end op m (XErr DLOCK_BAD_RESPONSE) e)
        (Client e id' None (c_reqs x) (c_resps x) (c_posted x) (c_comps x) (c_buf x) (c_ret x))
    else
      Client e id' (Some (op, m)) (c_reqs x ++ [m]) (c_resps x) (c_posted x + 1) (c_comps x)
        (c_buf x) (c_ret x)
  end.

Inductive action :=
| ACall (c : Z) (op : api_op)
| AServe (c : Z)
| AArrive (c : Z)
| APoll (c : Z)
| ATimeout (c : Z)
| ALoseReq (c : Z)
| ALoseResp (c : Z)
| ATick (d : Z).

Definition set_reqs (l : list (lock_cmd_msg S)) (x : client) : client :=
  Client (c_entry x) (c_next_id x) (c_pending x) l (c_resps x) (c_posted x) (c_comps x) (c_buf x) (c_ret x).
Definition set_resps (l : list (lock_cmd_msg S)) (x : client) : client :=
  Client (c_entry x) (c_next_id x) (c_pending x) (c_reqs x) l (c_posted x) (c_comps x) (c_buf x) (c_ret x).

(** A response is written to the buffer of a posted receive. *)
Definition arrive (x : client) : client :=
  match c_resps x with
  | r :: l =>
    if 0 <? c_posted x then
      Client (c_entry x) (c_next_id x) (c_pending x) (c_reqs x) l (c_posted x - 1) (c_comps x + 1)
        (Some r) (c_ret x)
    else x
  | [] => x
  end.

(** [poll_jfc] finds a completion; the response is what the buffer holds. *)
Definition poll (x : client) : client :=
  match c_pending x, c_buf x with
  | Some (op, m), Some r =>
    if 0 <? c_comps x then
      finish (api_end op m (xchg_check m r) (c_entry x))
        (Client (c_entry x) (c_next_id x) (c_pending x) (c_reqs x) (c_resps x) (c_posted x)
           (c_comps x - 1) (c_buf x) (c_ret x))
    else x
  | _, _ => x
  end.

(** [poll_jfc] gives up. *)
Definition wait_timeout (x : client) : client :=
  match c_pending x with
  | Some (op, m) =>
    if 0 <? c_comps x then x else finish (api_end op m (XErr DLOCK_BAD_RESPONSE) (c_entry x)) x
  | None => x
  end.

Definition step (a : action) (s : sys) : sys :=
  let f := s_client s in
  let at_client c x := Sys (s_lock s) (upd c x f) (s_now s) in
  match a with
  | ACall c op =>
    match c_pending (f c) with None => at_client c (start_call c op (f c)) | Some _ => s end
  | AServe c =>
    match c_reqs (f c) with
    | m :: l =>
      let '(p, r) := serve c (s_now s) m (s_lock s) in
      Sys p (upd c (set_resps (c_resps (f c) ++ [r]) (set_reqs l (f c))) f) (s_now s)
    | [] => s
    end
  | AArrive c => at_client c (arrive (f c))
  | APoll c => at_client c (poll (f c))
  | ATimeout c => at_client c (wait_timeout (f c))
  | ALoseReq c => at_client c (set_reqs (tail (c_reqs (f c))) (f c))
  | ALoseResp c => at_client c (set_resps (tail (c_resps (f c))) (f c))
  | ATick d => Sys (s_lock s) f (s_now s + d)
  end.

Fixpoint run (acts : list action) (s : sys) : sys :=
  match acts with
  | [] => s
  | a :: r => run r (step a s)
  end.

(** [ok] holds of every action in the state it is taken in. *)
Fixpoint along (ok : sys -> action -> bool) (acts : list action) (s : sys) : bool :=
  match acts with
  | [] => true
  | a :: r => ok s a && along ok r (step a s)
  end.

Definition client_init (off id : Z) : client :=
  Client (entry_init off) id None [] [] 0 0 None None.

(** Clients may start their message identifiers anywhere. *)
Definition sys_init (p : L) (off : Z) (ids : Z -> Z) (now : Z) : sys :=
  Sys p (fun c => client_init off (ids c)) now.

Definition in_flight (x : client) : list (lock_cmd_msg S) :=
  c_reqs x ++ c_resps x ++ match c_buf x with Some r => [r] | None => [] end.

(** Client identifiers are positive, time does not go back, and a message
    identifier is not taken again while a message that carries it is still
    under way (identifiers repeat after 65536 calls). *)
Definition sound_env (s : sys) (a : action) : bool :=
  match a with
  | ACall c _ =>
    (0 <? c) && (c <? 2 ^ 31) &&
    forallb (fun m => negb (message_id m =? c_next_id (s_client s c))) (in_flight (s_client s c))
  | AServe c | AArrive c | APoll c | ATimeout c | ALoseReq c | ALoseResp c => (0 <? c) && (c <? 2 ^ 31)
  | ATick d => 0 <=? d
  end.

(** No call gives up and no message is lost. *)
Definition reliable (s : sys) (a : action) : bool :=
  match a with
  | ACall c _ | AServe c | AArrive c | APoll c => (0 <? c) && (c <? 2 ^ 31)
  | ATick d => 0 <=? d
  | _ => false
  end.

Lemma run_invariant (I : sys -> Prop) (ok : sys -> action -> bool) acts s :
  (forall s a, I s -> ok s a = true -> I (step a s)) ->
  I s -> along ok acts s = true -> I (run acts s).
Proof.
  intros Hstep. revert s. induction acts as [|a acts IH]; intros s Hs Hok; simpl in *; [done|].
  apply andb_true_iff in Hok as [Ha Hok]. apply IH; [|done]. by apply Hstep.
Qed.

Lemma upd_eq c x f : upd c x f c = x.
Proof. unfold upd. by case_decide. Qed.
Lemma upd_ne c d x f : d <> c -> upd c x f d = f d.
Proof. unfold upd. by case_decide. Qed.
End system.
Arguments client S : clear implicits.
Arguments sys S L : clear implicits.
