(* ===== verification/DlockAtomic.v ===== *)
(** * Atomic locks: exclusion by lease

    The holder of an atomic lock owns it until the lease the server granted
    runs out.  This file proves that two clients never hold the lock at the
    same time, whatever the network delays or loses and whichever calls give
    up waiting. *)

From S2P Require Import Prelude DlockMemory Dlock DlockServer DlockClient DlockSystem.

Abbreviation acmd := (lock_cmd_msg atomic_state).
Abbreviation asys := (sys atomic_state atomic_lock).

(** The client's view says it holds the lock, and the lease it was told of
    has not run out on the server's clock. *)
Definition lease_view (now : Z) (e : lock_entry_c atomic_state) : Prop :=
  m_lock_state e = EXCLUSIVE_LOCKED /\ now <= as_time_out (m_lock_val e).

Definition holds_lease (s : asys) (c : Z) : Prop := lease_view (s_now s) (c_entry (s_client s c)).

(** The server has recorded client [c] as the owner, at least until [t]. *)
Definition owns (p : atomic_lock) (c t : Z) : Prop := al_client_id p = c /\ t <= al_timeout p.

(** ** What the client's code does to its view *)

(** The operations of an atomic lock. *)
Definition atomic_op (c : dlock_req_code) : Prop :=
  c = EXCLUSIVE_TRYLOCK \/ c = EXCLUSIVE_UNLOCK \/ c = EXCLUSIVE_LOCK_EXTEND.

(** A call's first half keeps the state; an unlock forgets the lease. *)
Lemma atomic_begin c id op (e : lock_entry_c atomic_state) :
  match api_begin c id op e with
  | CallDone _ e' _ => m_lock_state e' = m_lock_state e /\ m_lock_val e' = m_lock_val e
  | CallSend e' m =>
    m_lock_state e' = m_lock_state e /\ message_id m = id /\ atomic_op (op_code m) /\
    as_client_id (ls m) = c /\
    (if decide (op_code m = EXCLUSIVE_UNLOCK) then m_lock_val e' = ls_zero
     else m_lock_val e' = m_lock_val e)
  end.
Proof.
  destruct op as [[o t]| |[o t]]; unfold api_begin; simpl;
    unfold trylock_begin, unlock_begin, lock_extend_begin, fill_cmd_msg; simpl;
    unfold atomic_fill_cmd_msg; simpl; unfold atomic_op;
    repeat (case_match; simpl in *; simplify_eq); split_and!; auto; try done.
Qed.

(** Its second half takes a lease only from a response it accepts. *)
Lemma atomic_end op m r (e : lock_entry_c atomic_state) :
  atomic_op (op_code m) -> op_code r = op_code m ->
  let e' := (api_end op m (XResp r) e).2 in
  (m_lock_state e' = EXCLUSIVE_LOCKED ->
   (m_lock_state e = EXCLUSIVE_LOCKED /\ m_lock_val e' = m_lock_val e) \/
   (op_ret r = DLOCK_SUCCESS /\ op_code r <> EXCLUSIVE_UNLOCK /\ m_lock_val e' = ls r)).
Proof.
  intros Hop Hr. destruct op as [q| |q]; simpl;
    unfold trylock_end, unlock_end, lock_extend_end, trans_trylock_op_to_extend, is_extend; simpl;
    destruct Hop as [Ho|[Ho|Ho]]; rewrite ?Hr, ?Ho; simpl;
    repeat (case_match; simpl in *; simplify_eq); unfold reset_entry in *; simpl in *; intros; auto;
    try congruence; breflect; try rewrite bool_decide_eq_true in *; try rewrite bool_decide_eq_false in *;
    try naive_solver congruence.
Qed.

Lemma atomic_end_err op m ret (e : lock_entry_c atomic_state) :
  m_lock_state (api_end op m (XErr ret) e).2 = m_lock_state e /\
  m_lock_val (api_end op m (XErr ret) e).2 = m_lock_val e.
Proof. destruct op; done. Qed.

(** ** What the server does to the lock *)

(** Case analysis on a command: its operation, then the handler's tests. *)
Ltac serve_cases m :=
  destruct m as [mg ver id o rt off [sc st]]; destruct o; simpl;
  unfold object_run, pre_atomic, is_extend; simpl;
  unfold atomic_trylock_do, atomic_unlock_do, atomic_extend_lock_do, verify_client_id; simpl;
  repeat (case_match; simpl in *; simplify_eq).

Lemma atomic_serve_msg c now (m : acmd) p :
  message_id (serve c now m p).2 = message_id m /\ op_code (serve c now m p).2 = op_code m.
Proof. serve_cases m; done. Qed.

(** While an unexpired lease is recorded, only its owner changes the lock,
    and only an unlock shortens it. *)
Lemma atomic_serve_keeps c d t now (m : acmd) p :
  owns p c t -> now <= t -> as_client_id (ls m) = d -> c <> 0 ->
  (d = c -> op_code m <> EXCLUSIVE_UNLOCK) ->
  owns (serve d now m p).1 c t.
Proof.
  intros [Hc Ht] Hnow Hd H0 Hun. unfold owns.
  serve_cases m; breflect; destruct_or?; breflect; try (by split); try lia;
    try (split; [done|lia]); exfalso; by apply Hun.
Qed.

(** A granted or extended lease is recorded. *)
Lemma atomic_serve_grants c now (m : acmd) p :
  as_client_id (ls m) = c -> op_ret (serve c now m p).2 = DLOCK_SUCCESS ->
  op_code m <> EXCLUSIVE_UNLOCK -> atomic_op (op_code m) ->
  owns (serve c now m p).1 c (as_time_out (ls (serve c now m p).2)).
Proof.
  intros Hc. unfold owns, atomic_op.
  serve_cases m; intros Hs Hu Ho; breflect; try done; try (split; [done|lia]); naive_solver.
Qed.

(** ** The invariant *)

(** The responses a client may still read. *)
Definition answers (x : client atomic_state) : list acmd :=
  c_resps x ++ match c_buf x with Some r => [r] | None => [] end.

Lemma answers_in_flight x r : r ∈ answers x -> r ∈ in_flight x.
Proof. unfold answers, in_flight. rewrite !elem_of_app. tauto. Qed.

Record client_ok (p : atomic_lock) (now c : Z) (x : client atomic_state) : Prop := {
  (* a lease in the client's view is recorded, and no unlock is under way *)
  co_lease : lease_view now (c_entry x) ->
    owns p c (as_time_out (m_lock_val (c_entry x))) /\
    Forall (fun m => op_code m <> EXCLUSIVE_UNLOCK) (c_reqs x);
  (* so is a lease in the response to the waiting call *)
  co_answer : forall op m r, c_pending x = Some (op, m) ->
    r ∈ answers x -> message_id r = message_id m -> op_code r = op_code m ->
    op_ret r = DLOCK_SUCCESS -> op_code r <> EXCLUSIVE_UNLOCK ->
    now <= as_time_out (ls r) -> owns p c (as_time_out (ls r));
  (* the waiting call's command is the last one sent *)
  co_last : forall op m, c_pending x = Some (op, m) ->
    atomic_op (op_code m) /\
    Forall (fun r => message_id r <> message_id m) (removelast (c_reqs x)) /\
    (forall r, r ∈ answers x -> message_id r = message_id m -> c_reqs x = []);
  co_reqs : Forall (fun m => as_client_id (ls m) = c /\ atomic_op (op_code m)) (c_reqs x)
}.

Definition atomic_inv (s : asys) : Prop :=
  0 < s_now s /\ forall c, 0 < c -> client_ok (s_lock s) (s_now s) c (s_client s c).

(** ** Steps of a client *)

Section client_steps.
Variables (p : atomic_lock) (now c : Z).
Hypothesis now_pos : 0 < now.
Implicit Types x : client atomic_state.

Lemma ok_start x op :
  client_ok p now c x -> c_pending x = None ->
  (forall m, m ∈ in_flight x -> message_id m <> c_next_id x) ->
  client_ok p now c (start_call c op x).
Proof.
  intros [Hl Ha Hla Hr] Hp Hfresh. unfold start_call.
  pose proof (atomic_begin c (c_next_id x) op (c_entry x)) as Hb.
  destruct (api_begin c (c_next_id x) op (c_entry x)) as [ret e res|e m].
  - destruct Hb as [Hs Hv]. constructor; simpl; try done.
    unfold lease_view. rewrite Hs, Hv. exact Hl.
  - destruct Hb as (Hs & Hid & Hop & Hc & Hv).
    assert (Hlease : lease_view now e -> op_code m <> EXCLUSIVE_UNLOCK /\ lease_view now (c_entry x) /\
      m_lock_val e = m_lock_val (c_entry x)).
    { unfold lease_view. destruct (decide (op_code m = EXCLUSIVE_UNLOCK)); rewrite Hv, Hs; simpl; [lia|done]. }
    clear Hv. destruct (CMD_RQ_SIZE <=? c_posted x).
    + destruct (atomic_end_err op m DLOCK_BAD_RESPONSE e) as [Es Ev].
      destruct (api_end op m (XErr DLOCK_BAD_RESPONSE) e) as [ret e']. simpl in Es, Ev.
      constructor; simpl; try done. unfold lease_view. rewrite Es, Ev. intros H1.
      destruct (Hlease H1) as (_ & H2 & E). rewrite E. by apply Hl.
    + constructor; simpl.
      * intros H1. destruct (Hlease H1) as (Hu & H2 & E). rewrite E. destruct (Hl H2) as [? Hf].
        split; [done|]. apply Forall_app. split; [done|]. by apply Forall_singleton.
      * intros op' m' r [= <- <-] Hin Heq. exfalso. apply (Hfresh r); [|congruence].
        by apply answers_in_flight.
      * intros op' m' [= <- <-]. split; [done|]. split.
        -- rewrite removelast_last. apply Forall_forall. intros r Hin E. apply (Hfresh r); [|congruence].
           unfold in_flight. apply elem_of_app. by left.
        -- intros r Hin Heq. exfalso. apply (Hfresh r); [|congruence].
           by apply answers_in_flight.
      * apply Forall_app. split; [done|]. by apply Forall_singleton.
Qed.

(** Fewer messages, the same view. *)
Lemma ok_shrink x y :
  client_ok p now c x ->
  c_entry y = c_entry x -> c_pending y = c_pending x ->
  (exists l, c_reqs x = l ++ c_reqs y) -> (forall r, r ∈ answers y -> r ∈ answers x) ->
  client_ok p now c y.
Proof.
  intros [Hl Ha Hla Hr] He Hp [l Hrq] Han. constructor; rewrite ?He, ?Hp.
  - intros H. destruct (Hl H) as [? Hf]. split; [done|]. rewrite Hrq in Hf. by apply Forall_app in Hf as [_ ?].
  - intros. eapply Ha; eauto.
  - intros op m Hm. destruct (Hla op m Hm) as (? & Hf & Hn). split; [done|]. split.
    + rewrite Hrq in Hf. destruct (c_reqs y) as [|q rq] eqn:Hy; [constructor|].
      rewrite removelast_app in Hf by done. by apply Forall_app in Hf as [_ ?].
    + intros r Hin Heq. specialize (Hn r (Han r Hin) Heq). rewrite Hn in Hrq.
      symmetry in Hrq. by apply app_nil in Hrq as [_ ?].
  - rewrite Hrq in Hr. by apply Forall_app in Hr as [_ ?].
Qed.

Lemma ok_arrive x : client_ok p now c x -> client_ok p now c (arrive x).
Proof.
  intros H. unfold arrive. destruct (c_resps x) as [|r l] eqn:Hx; [done|]. case_match; [|done].
  apply (ok_shrink x); simpl; try done; [by exists []|].
  intros q. unfold answers. simpl. rewrite Hx, !elem_of_app, list_elem_of_singleton, elem_of_cons. tauto.
Qed.

(** A call that ends leaves a view without new leases. *)
Lemma ok_finish x ret e :
  client_ok p now c x -> (lease_view now e ->
    owns p c (as_time_out (m_lock_val e)) /\ Forall (fun m => op_code m <> EXCLUSIVE_UNLOCK) (c_reqs x)) ->
  client_ok p now c (finish (ret, e) x).
Proof. intros [Hl Ha Hla Hr] He. constructor; simpl; done. Qed.

Lemma ok_timeout x : client_ok p now c x -> client_ok p now c (wait_timeout x).
Proof.
  intros H. unfold wait_timeout. destruct (c_pending x) as [[op m]|]; [|done]. case_match; [done|].
  destruct (atomic_end_err op m DLOCK_BAD_RESPONSE (c_entry x)) as [Es Ev].
  destruct (api_end op m (XErr DLOCK_BAD_RESPONSE) (c_entry x)) as [ret e]. simpl in *.
  apply ok_finish; [done|]. unfold lease_view. rewrite Es, Ev. apply H.
Qed.

Lemma check_resp_match (m r : acmd) :
  check_resp_lock_cmd_msg m r = true -> message_id r = message_id m /\ op_code r = op_code m.
Proof.
  unfold check_resp_lock_cmd_msg. intros H. breflect. apply bool_decide_eq_true in H1. by split.
Qed.

Lemma ok_poll x : client_ok p now c x -> client_ok p now c (poll x).
Proof.
  intros H. unfold poll. destruct (c_pending x) as [[op m]|] eqn:Hp; [|done].
  destruct (c_buf x) as [r|] eqn:Hb; [|done]. case_match; [|done].
  set (y := Client _ _ _ _ _ _ _ _ _).
  assert (Hy : client_ok p now c y).
  { apply (ok_shrink x); [done|done|by rewrite Hp|by exists []|].
    unfold answers. simpl. by rewrite Hb. }
  destruct H as [Hl Ha Hla Hr]. destruct (Hla op m Hp) as (Hop & _ & Hlast).
  assert (Hrin : r ∈ answers x) by (unfold answers; rewrite Hb; apply elem_of_app; right; left).
  unfold xchg_check. destruct (check_resp_lock_cmd_msg m r) eqn:Hc.
  - apply check_resp_match in Hc as [Hid Hcode].
    pose proof (atomic_end op m r (c_entry x) Hop Hcode) as He.
    destruct (api_end op m (XResp r) (c_entry x)) as [ret e]. simpl in He.
    apply ok_finish; [done|]. simpl. intros [Hs Ht].
    destruct (He Hs) as [[Hs0 Ev]|(Hsu & Hun & Ev)]; rewrite Ev in *.
    + apply Hl. by split.
    + split; [by eapply Ha|]. by rewrite (Hlast r Hrin Hid).
  - destruct (atomic_end_err op m DLOCK_BAD_RESPONSE (c_entry x)) as [Es Ev].
    destruct (api_end op m (XErr DLOCK_BAD_RESPONSE) (c_entry x)) as [ret e]. simpl in *.
    apply ok_finish; [done|]. unfold lease_view. rewrite Es, Ev. apply Hl.
Qed.
End client_steps.

(** ** Steps of the server *)

(** The lock keeps what it has recorded for [c] when another client's
    command is processed. *)
Lemma ok_serve_other p now c d (m : acmd) x :
  client_ok p now c x -> 0 < c -> as_client_id (ls m) = d -> d <> c ->
  client_ok (serve d now m p).1 now c x.
Proof.
  intros [Hl Ha Hla Hr] Hc Hd Hne. constructor; try done.
  - intros H. destruct (Hl H) as [Ho Hf]. split; [|done].
    apply atomic_serve_keeps; try done; [apply H|lia].
  - intros op q r Hq Hin Hid Hcode Hs Hu Ht. apply atomic_serve_keeps; try done; [|lia].
    by eapply Ha.
Qed.

Lemma ok_serve_self p now c (m : acmd) l x :
  client_ok p now c x -> 0 < c -> c_reqs x = m :: l ->
  client_ok (serve c now m p).1 now c
    (set_resps (c_resps x ++ [(serve c now m p).2]) (set_reqs l x)).
Proof.
  intros [Hl Ha Hla Hr] Hc Hrq. rewrite Hrq in *.
  pose proof Hr as [[Hmc Hmo] Hrl]%Forall_cons.
  destruct (atomic_serve_msg c now m p) as [Hid Hcode].
  assert (Hans : forall q, q ∈ answers (set_resps (c_resps x ++ [(serve c now m p).2]) (set_reqs l x)) ->
    q ∈ answers x \/ q = (serve c now m p).2).
  { intros q. unfold answers. simpl. rewrite !elem_of_app, list_elem_of_singleton. tauto. }
  assert (Hnew : forall op q, c_pending x = Some (op, q) -> message_id m = message_id q -> l = []).
  { intros op q Hq E. destruct (Hla op q Hq) as (_ & Hf & _). destruct l as [|b l]; [done|].
    apply Forall_cons in Hf as [Hf _]. done. }
  constructor; try done.
  - intros H. destruct (Hl H) as [Ho [Hmu Hf]%Forall_cons]. split; [|done].
    apply atomic_serve_keeps; try done; [apply H|lia].
  - intros op q r Hq Hin Hrid Hrc Hs Hu Ht. apply Hans in Hin as [Hin| ->].
    + destruct (Hla op q Hq) as (_ & _ & Hn). by specialize (Hn r Hin Hrid).
    + rewrite Hcode in Hu. by apply atomic_serve_grants.
  - simpl. intros op q Hq. destruct (Hla op q Hq) as (Ho & Hf & Hn). split; [done|]. split.
    + destruct l as [|b l]; [constructor|]. by apply Forall_cons in Hf as [_ ?].
    + intros r Hin Hrid. apply Hans in Hin as [Hin| ->].
      * by specialize (Hn r Hin Hrid).
      * apply (Hnew op q Hq). congruence.
Qed.

Lemma ok_tick p now d c x : 0 <= d -> client_ok p now c x -> client_ok p (now + d) c x.
Proof.
  intros Hd [Hl Ha Hla Hr]. constructor; try done.
  - intros [Hs Ht]. apply Hl. split; [done|lia].
  - intros. eapply Ha; eauto. lia.
Qed.

Lemma atomic_step s a : atomic_inv s -> sound_env s a = true -> atomic_inv (step a s).
Proof.
  intros [Hnow Hall] Henv.
  assert (Hlocal : forall c x, 0 < c -> client_ok (s_lock s) (s_now s) c x ->
    atomic_inv (Sys (s_lock s) (upd c x (s_client s)) (s_now s))).
  { intros c x Hc Hx. split; [done|]. intros d Hd. simpl. destruct (decide (d = c)) as [->|].
    - by rewrite upd_eq.
    - rewrite upd_ne by done. by apply Hall. }
  destruct a as [c op|c|c|c|c|c|c|d]; simpl in Henv; breflect.
  - simpl. destruct (c_pending (s_client s c)) eqn:Hp; [done|]. apply Hlocal; [lia|].
    apply ok_start; [done|by apply Hall|done|].
    intros m Hm E. rewrite forallb_forall in H0. apply list_elem_of_In in Hm.
    specialize (H0 m Hm). breflect. done.
  - unfold step. cbn zeta. destruct (c_reqs (s_client s c)) as [|m l] eqn:Hrq; [done|].
    pose proof (Hall c ltac:(lia)) as Hc.
    pose proof (co_reqs _ _ _ _ Hc) as Hr. rewrite Hrq in Hr. apply Forall_cons in Hr as [[Hm _] _].
    pose proof (ok_serve_self _ _ _ _ _ _ Hc ltac:(lia) Hrq) as Hself.
    assert (Hother : forall d, 0 < d -> d <> c ->
      client_ok (serve c (s_now s) m (s_lock s)).1 (s_now s) d (s_client s d)).
    { intros d Hd Hne. apply ok_serve_other; auto. }
    destruct (serve c (s_now s) m (s_lock s)) as [p r]. split; [done|]. intros d Hd. simpl in *.
    destruct (decide (d = c)) as [->|]; [by rewrite upd_eq|]. rewrite upd_ne by done. by apply Hother.
  - apply Hlocal; [lia|]. apply ok_arrive. apply Hall; lia.
  - apply Hlocal; [lia|]. apply ok_poll. apply Hall; lia.
  - apply Hlocal; [lia|]. apply ok_timeout. apply Hall; lia.
  - apply Hlocal; [lia|].
    apply (ok_shrink _ _ _ (s_client s c)); [apply Hall; lia|done|done| |done].
    simpl. destruct (c_reqs (s_client s c)) as [|m l]; [by exists []|by exists [m]].
  - apply Hlocal; [lia|].
    apply (ok_shrink _ _ _ (s_client s c)); [apply Hall; lia|done|done|by exists []|].
    intros r. unfold answers. simpl. destruct (c_resps (s_client s c)) as [|m l]; [done|].
    intros Hq. by right.
  - split; [simpl; lia|]. intros c Hc. simpl. apply ok_tick; [done|]. by apply Hall.
Qed.

Definition atomic_init (ids : Z -> Z) (off now : Z) : asys := sys_init (AtomicLock 0 0) off ids now.

Lemma atomic_inv_init ids off now : 0 < now -> atomic_inv (atomic_init ids off now).
Proof.
  intros Hn. split; [done|]. intros c Hc. constructor; try done.
  intros [Hs _]. discriminate Hs.
Qed.

(** C6: clients that contend for an atomic lock with the synchronous calls
    trylock, unlock and lock_extend never hold it at the same time: whichever
    of these they call, in whatever order their commands reach the server,
    whatever is delayed or lost and whichever calls give up, at most one client
    has a view that says locked with a lease that has not run out.  Time does
    not go back, client identifiers are positive, and a 16-bit message
    identifier is not taken again while a message that carries it is under
    way ([sound_env]).  Asynchronous requests are outside. *)
Theorem atomic_lease_exclusion (ids : Z -> Z) (off now : Z) (acts : list action) (c1 c2 : Z) :
  0 < now -> along sound_env acts (atomic_init ids off now) = true ->
  let s := run acts (atomic_init ids off now) in
  0 < c1 -> 0 < c2 -> holds_lease s c1 -> holds_lease s c2 -> c1 = c2.
Proof.
  intros Hn Hok s H1 H2 Hc1 Hc2.
  assert (Hinv : atomic_inv s).
  { apply (run_invariant _ sound_env); [exact atomic_step|by apply atomic_inv_init|done]. }
  destruct Hinv as [_ Hall].
  destruct (co_lease _ _ _ _ (Hall c1 H1) Hc1) as [[E1 _] _].
  destruct (co_lease _ _ _ _ (Hall c2 H2) Hc2) as [[E2 _] _]. congruence.
Qed.

(** Two clients and a late response: client 1 locks for 10 s and its response
    is lost from its view by a timeout; client 2 is refused while that lease
    runs and gets the lock afterwards. *)
Definition example_lock (c : Z) : action := ACall c (ApiTrylock (LockRequest LOCK_EXCLUSIVE 10)).
Definition example_acts : list action :=
  [example_lock 1; AServe 1; ATimeout 1; AArrive 1;
   example_lock 2; AServe 2; AArrive 2; APoll 2;
   ATick 11; example_lock 2; AServe 2; AArrive 2; APoll 2].

Lemma atomic_lease_exclusion_witness :
  along sound_env example_acts (atomic_init (fun _ => 0) 0 100) = true /\
  holds_lease (run example_acts (atomic_init (fun _ => 0) 0 100)) 2 /\
  forall c, 0 < c -> holds_lease (run example_acts (atomic_init (fun _ => 0) 0 100)) c -> c = 2.
Proof.
  assert (H : along sound_env example_acts (atomic_init (fun _ => 0) 0 100) = true)
    by (vm_compute; reflexivity).
  assert (H2 : holds_lease (run example_acts (atomic_init (fun _ => 0) 0 100)) 2)
    by (split; [vm_compute; reflexivity|vm_compute; discriminate]).
  split; [exact H|]. split; [exact H2|]. intros c Hc Hl.
  exact (atomic_lease_exclusion (fun _ => 0) 0 100 example_acts c 2 ltac:(lia) H Hc ltac:(lia) Hl H2).
Defined.
