(* ===== verification/DlockReliable.v ===== *)
(** * Distributed locks: runs without loss

    When no message is lost and no call gives up, the channels and the shared
    receive buffer of a client hold at most one message, and a call is in one
    of three phases: not called, command on its way, response on its way.
    This file gives that small system as a step relation and proves that the
    system with queues, completions and buffers implements it, so that an
    invariant of the small one holds of the other. *)

From S2P Require Import Prelude DlockMemory Dlock DlockServer DlockClient DlockSystem.

(** The fields of a message that [check_resp_lock_cmd_msg] compares. *)
Definition header {S} (m : lock_cmd_msg S) : Z * Z * Z * dlock_req_code * Z :=
  (magic_no m, version m, message_id m, op_code m, lock_offset m).

Lemma header_check {S} (m r : lock_cmd_msg S) : header r = header m -> check_resp_lock_cmd_msg m r = true.
Proof.
  unfold header, check_resp_lock_cmd_msg. intros [= -> -> -> -> ->].
  by rewrite !Z.eqb_refl, bool_decide_true.
Qed.

Section reliable.
Context {S L : Type} `{LE : LockEntry S} `{SV : LockServe S L}.

Inductive phase :=
| PIdle
| PReq (op : api_op) (m : lock_cmd_msg S)
| PResp (op : api_op) (m r : lock_cmd_msg S).

Record actor := Actor { a_entry : lock_entry_c S; a_phase : phase }.
Record rsys := RSys { r_lock : L; r_actor : Z -> actor }.

Definition rupd (c : Z) (x : actor) (f : Z -> actor) : Z -> actor :=
  fun d => if decide (d = c) then x else f d.

(** Which commands the server may meet; the fair lock excludes takeovers. *)
Variable guard : Z -> lock_cmd_msg S -> L -> bool.

Inductive rstep : rsys -> rsys -> Prop :=
| r_return c op id ret e res s :
    0 < c < 2 ^ 31 -> a_phase (r_actor s c) = PIdle ->
    api_begin c id op (a_entry (r_actor s c)) = CallDone ret e res ->
    rstep s (RSys (r_lock s) (rupd c (Actor e PIdle) (r_actor s)))
| r_send c op id e m s :
    0 < c < 2 ^ 31 -> a_phase (r_actor s c) = PIdle ->
    api_begin c id op (a_entry (r_actor s c)) = CallSend e m ->
    rstep s (RSys (r_lock s) (rupd c (Actor e (PReq op m)) (r_actor s)))
| r_serve c op now m s :
    0 < c < 2 ^ 31 -> a_phase (r_actor s c) = PReq op m -> guard now m (r_lock s) = true ->
    rstep s (RSys (serve c now m (r_lock s)).1
               (rupd c (Actor (a_entry (r_actor s c)) (PResp op m (serve c now m (r_lock s)).2))
                  (r_actor s)))
| r_finish c op m r s :
    0 < c < 2 ^ 31 -> a_phase (r_actor s c) = PResp op m r ->
    rstep s (RSys (r_lock s)
               (rupd c (Actor (api_end op m (XResp r) (a_entry (r_actor s c))).2 PIdle) (r_actor s))).

(** ** The relation *)

(** The one message of a client is where its phase says. *)
Definition flight (x : client S) (a : actor) : Prop :=
  a_entry a = c_entry x /\
  match a_phase a with
  | PIdle => c_pending x = None /\ c_reqs x = [] /\ c_resps x = [] /\ c_comps x = 0 /\ c_posted x = 0
  | PReq op m =>
    c_pending x = Some (op, m) /\ c_reqs x = [m] /\ c_resps x = [] /\ c_comps x = 0 /\ c_posted x = 1
  | PResp op m r =>
    c_pending x = Some (op, m) /\ c_reqs x = [] /\ check_resp_lock_cmd_msg m r = true /\
    ((c_resps x = [r] /\ c_comps x = 0 /\ c_posted x = 1) \/
     (c_resps x = [] /\ c_comps x = 1 /\ c_posted x = 0 /\ c_buf x = Some r))
  end.

Definition simulates (s : sys S L) (r : rsys) : Prop :=
  r_lock r = s_lock s /\ forall c, 0 < c -> flight (s_client s c) (r_actor r c).

(** A run that stays reliable and within the guard. *)
Definition reliable_run (s : sys S L) (a : action) : bool :=
  reliable s a &&
  match a with
  | AServe c =>
    match c_reqs (s_client s c) with m :: _ => guard (s_now s) m (s_lock s) | [] => true end
  | _ => true
  end.

(** The server answers under the header of the command. *)
Hypothesis serve_header : forall c now m p, check_resp_lock_cmd_msg m (serve c now m p).2 = true.

Lemma simulates_upd s r c x a :
  simulates s r -> 0 < c -> flight x a ->
  simulates (Sys (s_lock s) (upd c x (s_client s)) (s_now s))
            (RSys (r_lock r) (rupd c a (r_actor r))).
Proof.
  intros [Hl Hf] Hc Hx. split; [done|]. intros d Hd. simpl. unfold upd, rupd. case_decide; [done|]. by apply Hf.
Qed.

Lemma simulates_same s r c x :
  simulates s r -> 0 < c -> flight x (r_actor r c) ->
  simulates (Sys (s_lock s) (upd c x (s_client s)) (s_now s)) r.
Proof.
  intros [Hl Hf] Hc Hx. split; [done|]. intros d Hd. simpl. unfold upd. case_decide as E; [by subst|]. by apply Hf.
Qed.

Lemma flight_call c op x a :
  flight x a -> c_pending x = None ->
  match api_begin c (c_next_id x) op (a_entry a) with
  | CallDone ret e _ => flight (start_call c op x) (Actor e PIdle)
  | CallSend e m => flight (start_call c op x) (Actor e (PReq op m))
  end.
Proof.
  intros [He Hp] Hnone. rewrite He. unfold start_call.
  destruct (a_phase a); destruct Hp as (Hpend & Hp); try congruence.
  destruct Hp as (Hrq & Hrs & Hcm & Hpo).
  destruct (api_begin c (c_next_id x) op (c_entry x)) as [ret e res|e m]; [by split_and!|].
  rewrite Hpo. simpl. split; [done|]. simpl. rewrite Hrq, Hrs, Hcm. done.
Qed.

(** One step of the system is none or one step of the small system. *)
Lemma simulation_step s r a :
  simulates s r -> reliable_run s a = true ->
  simulates (step a s) r \/ exists r', rstep r r' /\ simulates (step a s) r'.
Proof.
  intros Hsim Ha. pose proof Hsim as [Hl Hf]. unfold reliable_run in Ha.
  apply andb_true_iff in Ha as [Ha Hg].
  destruct a as [c op|c|c|c|c|c|c|d]; simpl in Ha; try done; breflect.
  - pose proof (Hf c ltac:(lia)) as Hfc. unfold step. cbn zeta.
    destruct (c_pending (s_client s c)) as [?|] eqn:Hp; [by left|]. right.
    pose proof (flight_call c op _ _ Hfc Hp) as Hcall.
    assert (Hidle : a_phase (r_actor r c) = PIdle).
    { destruct Hfc as [_ Hfc]. destruct (a_phase (r_actor r c)); [done|..]; destruct Hfc; congruence. }
    destruct (api_begin c (c_next_id (s_client s c)) op (a_entry (r_actor r c))) as [ret e res|e m] eqn:Hb.
    + eexists. split; [eapply (r_return c op); [lia|done|exact Hb]|]. apply simulates_upd; [done|lia|done].
    + eexists. split; [eapply (r_send c op); [lia|done|exact Hb]|]. apply simulates_upd; [done|lia|done].
  - pose proof (Hf c ltac:(lia)) as [He Hfc]. unfold step. cbn zeta.
    destruct (c_reqs (s_client s c)) as [|m l] eqn:Hrq; [by left|]. right.
    destruct (a_phase (r_actor r c)) as [|op m'|op m' r'] eqn:Hph;
      destruct Hfc as (Hp & Hr & Hfc); simplify_eq.
    destruct Hfc as (Hrs & Hcm & Hpo).
    eexists. split; [eapply (r_serve c op (s_now s) m'); [lia|exact Hph|by rewrite Hl]|].
    rewrite Hl. pose proof (serve_header c (s_now s) m' (s_lock s)) as Hh.
    destruct (serve c (s_now s) m' (s_lock s)) as [p q]. split; [done|]. intros d Hd. simpl.
    unfold upd, rupd. case_decide; [|by apply Hf]. subst d. split; [done|]. simpl. rewrite Hrs.
    split_and!; try done. left. done.
  - left. apply simulates_same; [done|lia|]. pose proof (Hf c ltac:(lia)) as [He Hfc].
    unfold arrive. destruct (a_phase (r_actor r c)) as [|op m'|op m' r'] eqn:Hph.
    + destruct Hfc as (? & ? & Hrs & ? & ?). rewrite Hrs. split; [done|]. by rewrite Hph.
    + destruct Hfc as (? & ? & Hrs & ? & ?). rewrite Hrs. split; [done|]. by rewrite Hph.
    + destruct Hfc as (? & ? & Hc & [(Hrs & Hcm & Hpo)|(Hrs & Hcm & Hpo & Hb)]).
      * rewrite Hrs, Hpo. split; [done|]. rewrite Hph. simpl. rewrite Hcm. split_and!; try done. by right.
      * rewrite Hrs. split; [done|]. rewrite Hph. split_and!; try done. by right.
  - pose proof (Hf c ltac:(lia)) as [He Hfc].
    destruct (a_phase (r_actor r c)) as [|op m'|op m' r'] eqn:Hph.
    + left. apply simulates_same; [done|lia|]. destruct Hfc as (Hp & ?). unfold poll. rewrite Hp.
      split; [done|]. by rewrite Hph.
    + left. apply simulates_same; [done|lia|]. destruct Hfc as (Hp & ? & ? & Hcm & ?).
      unfold poll. rewrite Hp, Hcm. simpl.
      assert (flight (s_client s c) (r_actor r c)) by apply Hf, H. by destruct (c_buf (s_client s c)).
    + destruct Hfc as (Hp & Hrq & Hc & [(Hrs & Hcm & Hpo)|(Hrs & Hcm & Hpo & Hb)]).
      * left. apply simulates_same; [done|lia|]. unfold poll. rewrite Hp, Hcm. simpl.
        assert (flight (s_client s c) (r_actor r c)) by apply Hf, H. by destruct (c_buf (s_client s c)).
      * right. eexists. split; [eapply (r_finish c op); [lia|exact Hph]|].
        apply simulates_upd; [done|lia|]. unfold poll. rewrite Hp, Hb, Hcm. simpl.
        unfold xchg_check. rewrite Hc, He. split; [done|]. by simpl.
  - left. split; [done|]. exact Hf.
Qed.

(** An invariant of the small system holds along a reliable run. *)
Lemma reliable_invariant (I : rsys -> Prop) acts s r :
  (forall r r', I r -> rstep r r' -> I r') ->
  I r -> simulates s r -> along reliable_run acts s = true ->
  exists r', I r' /\ simulates (run acts s) r'.
Proof.
  intros Hstep. revert s r. induction acts as [|a acts IH]; intros s r HI Hsim Hok; simpl in *; [by eexists|].
  apply andb_true_iff in Hok as [Ha Hok].
  destruct (simulation_step s r a Hsim Ha) as [Hs|(r' & Hr & Hs)]; eauto.
Qed.

Definition rsys_init (p : L) (off : Z) : rsys := RSys p (fun _ => Actor (entry_init off) PIdle).

Lemma simulates_init p off ids now : simulates (sys_init p off ids now) (rsys_init p off).
Proof. split; [done|]. intros c Hc. by split_and!. Qed.
End reliable.
Arguments phase S : clear implicits.
Arguments actor S : clear implicits.
Arguments rsys S L : clear implicits.
