(* ===== verification/DlockRw.v ===== *)
(** * Reader-writer locks: exclusion, and what breaks it

    Along runs in which no message is lost and no call gives up, a writer
    excludes every other holder, and the server's reference count is the
    number of readers.  The lock has no lease, so the client's view decides;
    the last theorem shows a run in which a call that gives up on the response
    to an unlock leaves a view that lets two writers in. *)

From S2P Require Import Prelude DlockMemory Dlock DlockServer DlockClient DlockSystem DlockReliable.

Abbreviation rwcmd := (lock_cmd_msg rw_state).
Abbreviation rwactor := (actor rw_state).

(** The client is between calls and its view is [st]. *)
Definition holds {S L} (s : sys S L) (c : Z) (st : dlock_state) : Prop :=
  c_pending (s_client s c) = None /\ m_lock_state (c_entry (s_client s c)) = st.

(** ** What the client's code does *)

(** The command a view leads to. *)
Definition rw_sent (c : Z) (st : dlock_state) (op : api_op) (m : rwcmd) : Prop :=
  match op_code m with
  | EXCLUSIVE_TRYLOCK => is_locked st = false /\ rs_client_id (ls m) = c /\ (exists q, op = ApiTrylock q)
  | SHARED_TRYLOCK => is_locked st = false /\ rs_client_id (ls m) = 0 /\ (exists q, op = ApiTrylock q)
  | EXCLUSIVE_UNLOCK => st = EXCLUSIVE_LOCKED /\ rs_client_id (ls m) = c /\ op = ApiUnlock
  | SHARED_UNLOCK => st = SHARED_LOCKED /\ rs_client_id (ls m) = 0 /\ op = ApiUnlock
  | _ => False
  end.

Lemma rw_begin c id op (e : lock_entry_c rw_state) :
  match api_begin c id op e with
  | CallDone _ e' _ => m_lock_state e' = m_lock_state e
  | CallSend e' m => m_lock_state e' = m_lock_state e /\ rw_sent c (m_lock_state e) op m
  end.
Proof.
  destruct e as [off n st v].
  destruct op as [[o t]| |[o t]]; unfold api_begin; simpl;
    unfold trylock_begin, unlock_begin, lock_extend_begin, fill_cmd_msg; simpl;
    unfold rw_fill_cmd_msg; simpl; unfold rw_sent;
    destruct st; repeat (case_match; simpl in *; simplify_eq); split_and?; eauto; try done.
Qed.

(** The view after a response. *)
Definition rw_after (st : dlock_state) (m r : rwcmd) : dlock_state :=
  match op_code m, op_ret r with
  | EXCLUSIVE_TRYLOCK, DLOCK_SUCCESS => EXCLUSIVE_LOCKED
  | SHARED_TRYLOCK, DLOCK_SUCCESS => SHARED_LOCKED
  | (EXCLUSIVE_UNLOCK | SHARED_UNLOCK), DLOCK_SUCCESS => UNLOCKED
  | _, _ => st
  end.

Lemma rw_end c op m r (e : lock_entry_c rw_state) :
  rw_sent c (m_lock_state e) op m -> op_code r = op_code m ->
  (is_unlock (op_code m) = true -> op_ret r = DLOCK_SUCCESS) ->
  m_lock_state (api_end op m (XResp r) e).2 = rw_after (m_lock_state e) m r.
Proof.
  unfold rw_sent, rw_after. intros Hs Hr Hu.
  destruct (op_code m) eqn:Hm; try done; destruct Hs as (Hst & Hc & Hop);
    [destruct Hop as [q ->]|subst op|destruct Hop as [q ->]|subst op]; simpl;
    unfold trylock_end, unlock_end, is_extend; simpl; rewrite ?Hr, ?Hm; simpl;
    try (rewrite (Hu eq_refl); simpl; try rewrite Hr; done);
    destruct (op_ret r); simpl; rewrite ?Hr; done.
Qed.

(** ** What a client holds, as the server should see it *)

Inductive hold := HNone | HShared | HExclusive.

#[global] Instance hold_eq_dec : EqDecision hold.
Proof. solve_decision. Defined.

Definition hold_of_state (st : dlock_state) : hold :=
  match st with EXCLUSIVE_LOCKED => HExclusive | SHARED_LOCKED => HShared | _ => HNone end.

Definition rw_hold (a : rwactor) : hold :=
  match a_phase a with
  | PIdle => hold_of_state (m_lock_state (a_entry a))
  | PReq _ m =>
    match op_code m with
    | EXCLUSIVE_UNLOCK => HExclusive | SHARED_UNLOCK => HShared | _ => HNone
    end
  | PResp _ m r => hold_of_state (rw_after (m_lock_state (a_entry a)) m r)
  end.

Definition rw_actor_ok (c : Z) (a : rwactor) : Prop :=
  match a_phase a with
  | PIdle => True
  | PReq op m => rw_sent c (m_lock_state (a_entry a)) op m
  | PResp op m r =>
    rw_sent c (m_lock_state (a_entry a)) op m /\ op_code r = op_code m /\
    (is_unlock (op_code m) = true -> op_ret r = DLOCK_SUCCESS)
  end.

(** ** Counting clients *)

(** Every client identifier there can be. *)
Definition all_clients : list Z := seqZ 1 (2 ^ 31 - 1).

Fixpoint count_in (P : Z -> bool) (l : list Z) : Z :=
  match l with
  | [] => 0
  | c :: r => Z.b2z (P c) + count_in P r
  end.

Definition count (P : Z -> bool) : Z := count_in P all_clients.

Lemma all_clients_elem c : c ∈ all_clients <-> 0 < c < 2 ^ 31.
Proof. unfold all_clients. rewrite elem_of_seqZ. lia. Qed.

Lemma count_in_ext (P Q : Z -> bool) l :
  (forall d, d ∈ l -> Q d = P d) -> count_in Q l = count_in P l.
Proof.
  induction l as [|d l IH]; intros H; simpl; [done|].
  rewrite (H d ltac:(left)), IH; [done|]. intros. apply H. by right.
Qed.

Lemma count_in_upd (P Q : Z -> bool) c l :
  NoDup l -> c ∈ l -> (forall d, d <> c -> Q d = P d) ->
  count_in Q l = count_in P l - Z.b2z (P c) + Z.b2z (Q c).
Proof.
  intros Hnd Hin Hsame. induction Hnd as [|d l Hd Hnd IH]; simpl; [by apply elem_of_nil in Hin|].
  apply elem_of_cons in Hin as [<-|Hin].
  - rewrite (count_in_ext P Q l); [lia|]. intros d Hdl. apply Hsame. by intros ->.
  - rewrite IH by done. rewrite (Hsame d) by (by intros ->). lia.
Qed.

Lemma count_in_range (P : Z -> bool) l : 0 <= count_in P l <= zlen l.
Proof.
  unfold zlen. induction l as [|d l IH]; simpl; [lia|]. destruct (P d); simpl; lia.
Qed.

Lemma count_in_elem (P : Z -> bool) c l : c ∈ l -> P c = true -> 0 < count_in P l.
Proof.
  intros Hin HP. induction l as [|d l IH]; simpl; [by apply elem_of_nil in Hin|].
  pose proof (count_in_range P l). apply elem_of_cons in Hin as [<-|Hin].
  - rewrite HP. simpl. lia.
  - specialize (IH Hin). destruct (P d); simpl; lia.
Qed.

Lemma count_upd (P Q : Z -> bool) c :
  0 < c < 2 ^ 31 -> (forall d, d <> c -> Q d = P d) ->
  count Q = count P - Z.b2z (P c) + Z.b2z (Q c).
Proof. intros Hc. apply count_in_upd; [apply NoDup_seqZ|by apply all_clients_elem]. Qed.

Lemma count_pos (P : Z -> bool) c : 0 < c < 2 ^ 31 -> P c = true -> 0 < count P.
Proof. intros Hc. apply count_in_elem. by apply all_clients_elem. Qed.

Lemma count_bound (P : Z -> bool) : 0 <= count P < 2 ^ 31.
Proof.
  pose proof (count_in_range P all_clients) as H.
  assert (E : zlen all_clients = 2 ^ 31 - 1).
  { unfold zlen, all_clients. rewrite length_seqZ. lia. }
  unfold count. lia.
Qed.

Lemma count_zero (P : Z -> bool) : (forall c, P c = false) -> count P = 0.
Proof.
  intros H. unfold count. induction all_clients as [|c l IH]; simpl; [done|]. by rewrite H, IH.
Qed.

(** ** The invariant *)

Abbreviation rwsys := (rsys rw_state rw_lock).

Definition readers (f : Z -> rwactor) : Z := count (fun c => bool_decide (rw_hold (f c) = HShared)).

Definition rw_inv (s : rwsys) : Prop :=
  let p := r_lock s in
  let h c := rw_hold (r_actor s c) in
  (forall c, rw_actor_ok c (r_actor s c)) /\
  (forall c, 0 < c < 2 ^ 31 \/ h c = HNone) /\
  rl_ref_count p = readers (r_actor s) /\
  if rl_client_id p =? 0 then forall c, h c <> HExclusive
  else h (rl_client_id p) = HExclusive /\ forall c, c <> rl_client_id p -> h c = HNone.

Lemma rupd_eq {S} c (x : actor S) f : rupd c x f c = x.
Proof. unfold rupd. by case_decide. Qed.
Lemma rupd_ne {S} c d (x : actor S) f : d <> c -> rupd c x f d = f d.
Proof. unfold rupd. by case_decide. Qed.

Lemma readers_upd c x f :
  0 < c < 2 ^ 31 ->
  readers (rupd c x f) = readers f - Z.b2z (bool_decide (rw_hold (f c) = HShared))
                         + Z.b2z (bool_decide (rw_hold x = HShared)).
Proof.
  intros Hc. unfold readers. rewrite (count_upd (fun d => bool_decide (rw_hold (f d) = HShared)) _ c Hc).
  - by rewrite rupd_eq.
  - intros d Hd. by rewrite rupd_ne.
Qed.

(** A step of a client that keeps what it holds. *)
Lemma rw_inv_client s c x :
  rw_inv s -> 0 < c < 2 ^ 31 -> rw_actor_ok c x -> rw_hold x = rw_hold (r_actor s c) ->
  rw_inv (RSys (r_lock s) (rupd c x (r_actor s))).
Proof.
  intros (Hok & Hout & Href & Hex) Hc Hx Hh.
  assert (Hsame : forall d, rw_hold (rupd c x (r_actor s) d) = rw_hold (r_actor s d)).
  { intros d. destruct (decide (d = c)) as [->|]; [by rewrite rupd_eq|by rewrite rupd_ne]. }
  split; [|split; [|split]]; simpl.
  - intros d. destruct (decide (d = c)) as [->|]; [by rewrite rupd_eq|by rewrite rupd_ne].
  - intros d. rewrite Hsame. apply Hout.
  - rewrite readers_upd by done. rewrite Hh. lia.
  - case_match.
    + intros d. by rewrite Hsame.
    + rewrite Hsame. split; [apply Hex|]. intros d Hd. rewrite Hsame. by apply Hex.
Qed.

(** ** The server's step *)

(** A step of the server that changes what the sender holds from [h0] to
    what [x] holds, and the lock to match. *)
Lemma rw_inv_server s c x p' :
  rw_inv s -> 0 < c < 2 ^ 31 -> rw_actor_ok c x ->
  rl_ref_count p' = readers (r_actor s) - Z.b2z (bool_decide (rw_hold (r_actor s c) = HShared))
                    + Z.b2z (bool_decide (rw_hold x = HShared)) ->
  (if rl_client_id p' =? 0
   then rw_hold x <> HExclusive /\ forall d, d <> c -> rw_hold (r_actor s d) <> HExclusive
   else rl_client_id p' = c /\ rw_hold x = HExclusive /\
        forall d, d <> c -> rw_hold (r_actor s d) = HNone) ->
  rw_inv (RSys p' (rupd c x (r_actor s))).
Proof.
  intros (Hok & Hout & _ & _) Hc Hx Href Hex. split; [|split; [|split]]; simpl.
  - intros d. destruct (decide (d = c)) as [->|]; [by rewrite rupd_eq|by rewrite rupd_ne].
  - intros d. destruct (decide (d = c)) as [->|]; [by left|]. rewrite rupd_ne by done. apply Hout.
  - by rewrite readers_upd.
  - destruct (rl_client_id p' =? 0).
    + intros d. destruct (decide (d = c)) as [->|]; [rewrite rupd_eq; apply Hex|].
      rewrite rupd_ne by done. by apply Hex.
    + destruct Hex as (-> & Hh & Ho). rewrite rupd_eq. split; [done|]. intros d Hd.
      rewrite rupd_ne by done. by apply Ho.
Qed.

Lemma no_readers f c : readers f = 0 -> 0 < c < 2 ^ 31 -> rw_hold (f c) <> HShared.
Proof.
  intros Hr Hc Hs. unfold readers in Hr.
  pose proof (count_pos (fun d => bool_decide (rw_hold (f d) = HShared)) c Hc) as H.
  rewrite bool_decide_eq_true in H. specialize (H Hs). lia.
Qed.

(** The handlers on a command a client sends. *)
Lemma rw_serve_cases c now m p st op :
  rw_sent c st op m ->
  let '(p', r) := serve c now m p in
  let granted b client ref :=
    if b : bool then op_ret r = DLOCK_SUCCESS /\ rl_client_id p' = client /\ rl_ref_count p' = ref
    else op_ret r = DLOCK_FAIL /\ p' = p in
  op_code r = op_code m /\
  match op_code m with
  | EXCLUSIVE_TRYLOCK => granted ((rl_client_id p =? 0) && (rl_ref_count p =? 0)) c 0
  | SHARED_TRYLOCK => granted (rl_client_id p =? 0) 0 (u32 (rl_ref_count p + 1))
  | EXCLUSIVE_UNLOCK => granted (rl_client_id p =? c) 0 0
  | SHARED_UNLOCK =>
    granted ((rl_client_id p =? 0) && negb (rl_ref_count p =? 0)) 0 (u32 (rl_ref_count p - 1))
  | _ => True
  end.
Proof.
  destruct m as [mg ver id o rt off [t i n v]]. unfold rw_sent. simpl.
  destruct o; try done; intros (_ & -> & _); unfold object_run; simpl;
    unfold rwlock_trylock_ex_do, rwlock_unlock_ex_do, rwlock_trylock_sh_do, rwlock_unlock_sh_do,
      verify_client_id; simpl; rewrite ?Z.eqb_refl;
    destruct (Z.eqb_spec (rl_client_id p) 0) as [E0|E0], (Z.eqb_spec (rl_ref_count p) 0) as [R0|R0];
    try destruct (Z.eqb_spec (rl_client_id p) c); simpl; auto.
Qed.

(** One command of client [c] and its response, for each handler. *)
Section one_command.
Variables (s : rwsys) (c : Z) (op : api_op) (m r : rwcmd).
Hypothesis inv : rw_inv s.
Hypothesis c_range : 0 < c < 2 ^ 31.
Hypothesis at_req : a_phase (r_actor s c) = PReq op m.
Hypothesis same_code : op_code r = op_code m.

Let x' : rwactor := Actor (a_entry (r_actor s c)) (PResp op m r).

Lemma sent_here : rw_sent c (m_lock_state (a_entry (r_actor s c))) op m.
Proof. pose proof inv as (Hok & _). specialize (Hok c). unfold rw_actor_ok in Hok. by rewrite at_req in Hok. Qed.

Lemma held_before : rw_hold (r_actor s c) =
  match op_code m with EXCLUSIVE_UNLOCK => HExclusive | SHARED_UNLOCK => HShared | _ => HNone end.
Proof. unfold rw_hold. by rewrite at_req. Qed.

Lemma actor_after : (is_unlock (op_code m) = true -> op_ret r = DLOCK_SUCCESS) -> rw_actor_ok c x'.
Proof. intros H. split; [exact sent_here|done]. Qed.

Lemma readers_bound : 0 <= readers (r_actor s) < 2 ^ 31.
Proof. apply (count_bound (fun d => bool_decide (rw_hold (r_actor s d) = HShared))). Qed.

(** A refused request changes nothing. *)
Lemma refused_inv :
  is_unlock (op_code m) = false -> op_ret r = DLOCK_FAIL ->
  rw_inv (RSys (r_lock s) (rupd c x' (r_actor s))).
Proof.
  intros Hu Hr. apply rw_inv_client; [exact inv|done|by apply actor_after; rewrite Hu|].
  rewrite held_before. unfold x', rw_hold, rw_after. simpl. rewrite Hr.
  pose proof sent_here as Hs. unfold rw_sent in Hs.
  destruct (op_code m); try done; destruct Hs as (Hst & _);
    by destruct (m_lock_state (a_entry (r_actor s c))).
Qed.

Lemma ex_grant_inv p' :
  op_code m = EXCLUSIVE_TRYLOCK -> op_ret r = DLOCK_SUCCESS ->
  rl_client_id (r_lock s) = 0 -> rl_ref_count (r_lock s) = 0 ->
  rl_client_id p' = c -> rl_ref_count p' = 0 ->
  rw_inv (RSys p' (rupd c x' (r_actor s))).
Proof.
  intros Hm Hr E0 R0 Hcl Hrf. pose proof inv as (_ & Hout & Href & Hex).
  rewrite E0, Z.eqb_refl in Hex.
  assert (Hx : rw_hold x' = HExclusive) by (unfold x', rw_hold, rw_after; simpl; by rewrite Hm, Hr).
  apply rw_inv_server; [exact inv|done|by apply actor_after; rewrite Hm| |].
  - rewrite held_before, Hm, Hx, Hrf. simpl. lia.
  - rewrite Hcl, Hx, (proj2 (Z.eqb_neq c 0)) by lia. split_and!; [done..|].
    intros d Hd. destruct (Hout d) as [Hdr|]; [|done].
    pose proof (no_readers _ d (eq_trans (eq_sym Href) R0) Hdr). specialize (Hex d).
    by destruct (rw_hold (r_actor s d)).
Qed.

Lemma sh_grant_inv p' :
  op_code m = SHARED_TRYLOCK -> op_ret r = DLOCK_SUCCESS ->
  rl_client_id (r_lock s) = 0 ->
  rl_client_id p' = 0 -> rl_ref_count p' = u32 (rl_ref_count (r_lock s) + 1) ->
  rw_inv (RSys p' (rupd c x' (r_actor s))).
Proof.
  intros Hm Hr E0 Hcl Hrf. pose proof inv as (_ & Hout & Href & Hex). pose proof readers_bound.
  rewrite E0, Z.eqb_refl in Hex.
  assert (Hx : rw_hold x' = HShared) by (unfold x', rw_hold, rw_after; simpl; by rewrite Hm, Hr).
  apply rw_inv_server; [exact inv|done|by apply actor_after; rewrite Hm| |].
  - rewrite held_before, Hm, Hx, Hrf, Href, u32_small by lia. simpl. lia.
  - rewrite Hcl, Hx. simpl. split; [done|]. intros d _. apply Hex.
Qed.

(** The holder's unlock is never refused. *)
Lemma ex_unlock_owner : op_code m = EXCLUSIVE_UNLOCK -> rl_client_id (r_lock s) = c.
Proof.
  intros Hm. pose proof inv as (_ & _ & _ & Hex). pose proof held_before as Hh. rewrite Hm in Hh.
  destruct (Z.eqb_spec (rl_client_id (r_lock s)) 0) as [E0|E0]; [by specialize (Hex c)|].
  destruct (decide (c = rl_client_id (r_lock s))) as [|Hne]; [done|].
  destruct Hex as [_ Hex]. specialize (Hex c Hne). congruence.
Qed.

Lemma ex_unlock_inv p' :
  op_code m = EXCLUSIVE_UNLOCK -> op_ret r = DLOCK_SUCCESS ->
  rl_client_id p' = 0 -> rl_ref_count p' = 0 ->
  rw_inv (RSys p' (rupd c x' (r_actor s))).
Proof.
  intros Hm Hr Hcl Hrf. pose proof inv as (_ & Hout & Href & Hex).
  pose proof (ex_unlock_owner Hm) as Ho. rewrite Ho, (proj2 (Z.eqb_neq c 0)) in Hex by lia.
  destruct Hex as [_ Hex].
  assert (Hx : rw_hold x' = HNone) by (unfold x', rw_hold, rw_after; simpl; by rewrite Hm, Hr).
  assert (Hnone : readers (r_actor s) = 0).
  { apply count_zero. intros d. apply bool_decide_eq_false. destruct (decide (d = c)) as [->|Hd].
    - by rewrite held_before, Hm.
    - by rewrite (Hex d Hd). }
  apply rw_inv_server; [exact inv|done|by apply actor_after| |].
  - rewrite held_before, Hm, Hx, Hrf, Hnone. done.
  - rewrite Hcl, Hx. simpl. split; [done|]. intros d Hd. by rewrite (Hex d Hd).
Qed.

Lemma sh_unlock_shared :
  op_code m = SHARED_UNLOCK -> rl_client_id (r_lock s) = 0 /\ 0 < rl_ref_count (r_lock s) < 2 ^ 31.
Proof.
  intros Hm. pose proof inv as (_ & _ & Href & Hex). pose proof held_before as Hh. rewrite Hm in Hh.
  pose proof readers_bound. split.
  - destruct (Z.eqb_spec (rl_client_id (r_lock s)) 0) as [E0|E0]; [done|]. destruct Hex as [Hx Hex].
    destruct (decide (c = rl_client_id (r_lock s))) as [Ec|Hne]; [rewrite <- Ec in Hx; congruence|].
    specialize (Hex c Hne). congruence.
  - pose proof (no_readers (r_actor s) c) as Hn. destruct (decide (readers (r_actor s) = 0)); [|lia].
    by destruct (Hn ltac:(done) c_range).
Qed.

Lemma sh_unlock_inv p' :
  op_code m = SHARED_UNLOCK -> op_ret r = DLOCK_SUCCESS ->
  rl_client_id p' = 0 -> rl_ref_count p' = u32 (rl_ref_count (r_lock s) - 1) ->
  rw_inv (RSys p' (rupd c x' (r_actor s))).
Proof.
  intros Hm Hr Hcl Hrf. pose proof inv as (_ & Hout & Href & Hex).
  destruct (sh_unlock_shared Hm) as [E0 Hn]. rewrite E0, Z.eqb_refl in Hex.
  assert (Hx : rw_hold x' = HNone) by (unfold x', rw_hold, rw_after; simpl; by rewrite Hm, Hr).
  apply rw_inv_server; [exact inv|done|by apply actor_after| |].
  - rewrite held_before, Hm, Hx, Hrf, u32_small by lia. simpl. lia.
  - rewrite Hcl, Hx. simpl. split; [done|]. intros d _. apply Hex.
Qed.
End one_command.

Lemma rw_serve_inv s c op now m :
  rw_inv s -> 0 < c < 2 ^ 31 -> a_phase (r_actor s c) = PReq op m ->
  rw_inv (RSys (serve c now m (r_lock s)).1
            (rupd c (Actor (a_entry (r_actor s c)) (PResp op m (serve c now m (r_lock s)).2)) (r_actor s))).
Proof.
  intros Hinv Hc Hph.
  pose proof (rw_serve_cases c now m (r_lock s) _ _ (sent_here _ _ _ _ Hinv Hph)) as Hsv.
  destruct (serve c now m (r_lock s)) as [p' r]. destruct Hsv as [Hcode Hsv]. simpl fst. simpl snd.
  pose proof (sent_here _ _ _ _ Hinv Hph) as Hs. unfold rw_sent in Hs.
  destruct (op_code m) eqn:Hm; try done; clear Hs.
  - destruct ((rl_client_id (r_lock s) =? 0) && _)%bool eqn:E.
    + breflect. destruct Hsv as (? & ? & ?). eapply ex_grant_inv; eauto; congruence.
    + destruct Hsv as (? & ->). eapply refused_inv; eauto; [congruence|by rewrite Hm].
  - rewrite (ex_unlock_owner _ _ _ _ Hinv Hph Hm), Z.eqb_refl in Hsv. destruct Hsv as (? & ? & ?).
    eapply ex_unlock_inv; eauto; congruence.
  - destruct (rl_client_id (r_lock s) =? 0) eqn:E.
    + breflect. destruct Hsv as (? & ? & ?). eapply sh_grant_inv; eauto; congruence.
    + destruct Hsv as (? & ->). eapply refused_inv; eauto; [congruence|by rewrite Hm].
  - destruct (sh_unlock_shared _ _ _ _ Hinv Hc Hph Hm) as [E0 Hn].
    rewrite E0, Z.eqb_refl, (proj2 (Z.eqb_neq _ _)) in Hsv by lia. simpl in Hsv.
    destruct Hsv as (? & ? & ?). eapply sh_unlock_inv; eauto; congruence.
Qed.

Definition any_command (now : Z) (m : rwcmd) (p : rw_lock) : bool := true.

Lemma rw_rstep s s' : rw_inv s -> rstep any_command s s' -> rw_inv s'.
Proof.
  intros Hinv Hstep. pose proof Hinv as (Hok & _).
  destruct Hstep as [c op id ret e res s Hc Hph Hb|c op id e m s Hc Hph Hb|c op now m s Hc Hph _|c op m r s Hc Hph].
  - pose proof (rw_begin c id op (a_entry (r_actor s c))) as H. rewrite Hb in H.
    apply rw_inv_client; [done..|]. unfold rw_hold. rewrite Hph. simpl. by rewrite H.
  - pose proof (rw_begin c id op (a_entry (r_actor s c))) as H. rewrite Hb in H. destruct H as [Hst Hs].
    apply rw_inv_client; [done|done|by unfold rw_actor_ok; simpl; rewrite Hst|].
    unfold rw_hold. rewrite Hph. simpl. unfold rw_sent in Hs.
    destruct (op_code m); try done; destruct Hs as (Hl & _); rewrite ?Hl; try done;
      by destruct (m_lock_state (a_entry (r_actor s c))).
  - by apply rw_serve_inv.
  - pose proof (Hok c) as Ho. unfold rw_actor_ok in Ho. rewrite Hph in Ho. destruct Ho as (Hs & Hcode & Hu).
    apply rw_inv_client; [done..|]. unfold rw_hold. rewrite Hph. simpl a_phase. cbv iota.
    simpl a_entry. by rewrite (rw_end c op m r _ Hs Hcode Hu).
Qed.

Definition rw_init (ids : Z -> Z) (off now : Z) : sys rw_state rw_lock :=
  sys_init (RwLock 0 0 0 0) off ids now.

Lemma rw_inv_init off : rw_inv (rsys_init (RwLock 0 0 0 0) off).
Proof.
  split; [done|]. split; [by right|]. split; [|done].
  simpl. symmetry. by apply count_zero.
Qed.

Lemma rw_serve_header c now (m : rwcmd) p : check_resp_lock_cmd_msg m (serve c now m p).2 = true.
Proof.
  apply header_check. destruct m as [mg ver id o rt off [t i n v]]. simpl. unfold object_run.
  destruct o; simpl;
    unfold rwlock_trylock_ex_do, rwlock_unlock_ex_do, rwlock_trylock_sh_do, rwlock_unlock_sh_do,
      verify_client_id; simpl; by repeat (case_match; simplify_eq; simpl).
Qed.

Lemma rw_holders r :
  rw_inv r ->
  (forall c, rw_hold (r_actor r c) = HExclusive -> rl_client_id (r_lock r) = c) /\
  (forall c, rw_hold (r_actor r c) = HShared ->
    rl_client_id (r_lock r) = 0 /\ 0 < rl_ref_count (r_lock r)).
Proof.
  intros (_ & Hout & Href & Hex). split; intros c Hh.
  - destruct (Z.eqb_spec (rl_client_id (r_lock r)) 0) as [E0|E0]; [by destruct (Hex c)|].
    destruct (decide (c = rl_client_id (r_lock r))) as [|Hne]; [done|].
    destruct Hex as [_ Hex]. rewrite (Hex c Hne) in Hh. done.
  - destruct (Z.eqb_spec (rl_client_id (r_lock r)) 0) as [E0|E0].
    + split; [done|]. destruct (Hout c) as [Hc|E]; [|congruence].
      pose proof (no_readers (r_actor r) c) as Hn.
      pose proof (count_bound (fun d => bool_decide (rw_hold (r_actor r d) = HShared))) as Hb.
      change (count _) with (readers (r_actor r)) in Hb.
      destruct (decide (readers (r_actor r) = 0)) as [E|]; [by destruct (Hn E Hc)|lia].
    + exfalso. destruct Hex as [Hx Hex]. destruct (decide (c = rl_client_id (r_lock r))) as [Ec|Hne].
      * rewrite <- Ec in Hx. congruence.
      * rewrite (Hex c Hne) in Hh. done.
Qed.

(** C10: as long as no message is lost and no call gives up, a client that
    holds a reader-writer lock exclusively is its only holder; the server
    records the writer as the owner of the lock, and while a client holds it
    shared the server records no owner and a positive reference count. *)
Theorem rw_exclusion (ids : Z -> Z) (off now : Z) (acts : list action) :
  along (reliable_run any_command) acts (rw_init ids off now) = true ->
  let s := run acts (rw_init ids off now) in
  (forall c1 c2, 0 < c1 -> 0 < c2 -> holds s c1 EXCLUSIVE_LOCKED ->
    holds s c2 EXCLUSIVE_LOCKED \/ holds s c2 SHARED_LOCKED -> c1 = c2) /\
  (forall c, 0 < c -> holds s c EXCLUSIVE_LOCKED -> rl_client_id (s_lock s) = c) /\
  (forall c, 0 < c -> holds s c SHARED_LOCKED ->
    rl_client_id (s_lock s) = 0 /\ 0 < rl_ref_count (s_lock s)).
Proof.
  intros Hok s.
  destruct (reliable_invariant any_command rw_serve_header rw_inv acts (rw_init ids off now)
              (rsys_init (RwLock 0 0 0 0) off)) as (r & Hinv & Hsim);
    [exact rw_rstep|apply rw_inv_init|apply simulates_init|done|]. fold s in Hsim.
  assert (Hhold : forall c st, 0 < c -> holds s c st -> rw_hold (r_actor r c) = hold_of_state st).
  { intros c st Hc [Hp Hst]. destruct Hsim as [_ Hf]. destruct (Hf c Hc) as [He Hph].
    unfold rw_hold. destruct (a_phase (r_actor r c)); [by rewrite He, Hst|..]; destruct Hph; congruence. }
  destruct Hsim as [<- _]. pose proof (rw_holders r Hinv) as [Hex Hsh].
  assert (H1 : forall c, 0 < c -> holds s c EXCLUSIVE_LOCKED -> rl_client_id (r_lock r) = c).
  { intros c Hc Hh. apply Hex. by rewrite (Hhold _ _ Hc Hh). }
  assert (H2 : forall c, 0 < c -> holds s c SHARED_LOCKED ->
    rl_client_id (r_lock r) = 0 /\ 0 < rl_ref_count (r_lock r)).
  { intros c Hc Hh. apply (Hsh c). by rewrite (Hhold _ _ Hc Hh). }
  split; [|done]. intros c1 c2 Hc1 Hc2 Hh1 [Hh2|Hh2].
  - rewrite <- (H1 c1 Hc1 Hh1). by apply H1.
  - destruct (H2 c2 Hc2 Hh2) as [E _]. pose proof (H1 c1 Hc1 Hh1). lia.
Qed.

(** Two readers, a refused writer, both readers leave, the writer enters. *)
Definition example_exchange (c : Z) (op : api_op) : list action := [ACall c op; AServe c; AArrive c; APoll c].
Definition example_sh : api_op := ApiTrylock (LockRequest LOCK_SHARED 10).
Definition example_ex : api_op := ApiTrylock (LockRequest LOCK_EXCLUSIVE 10).
Definition example_rw_acts : list action :=
  example_exchange 1 example_sh ++ example_exchange 2 example_sh ++ example_exchange 3 example_ex ++
  example_exchange 1 ApiUnlock ++ example_exchange 2 ApiUnlock ++ example_exchange 3 example_ex.

Lemma rw_exclusion_witness :
  along (reliable_run any_command) example_rw_acts (rw_init (fun _ => 7) 0 100) = true /\
  holds (run example_rw_acts (rw_init (fun _ => 7) 0 100)) 3 EXCLUSIVE_LOCKED /\
  rl_client_id (s_lock (run example_rw_acts (rw_init (fun _ => 7) 0 100))) = 3.
Proof.
  assert (H : along (reliable_run any_command) example_rw_acts (rw_init (fun _ => 7) 0 100) = true)
    by (vm_compute; reflexivity).
  assert (H3 : holds (run example_rw_acts (rw_init (fun _ => 7) 0 100)) 3 EXCLUSIVE_LOCKED)
    by (split; vm_compute; reflexivity).
  split; [exact H|]. split; [exact H3|].
  destruct (rw_exclusion (fun _ => 7) 0 100 example_rw_acts H) as (_ & Ho & _).
  exact (Ho 3 ltac:(lia) H3).
Defined.

(** Without that assumption the lock admits two writers.  Client 1 locks
    and unlocks; the server has processed the unlock when the call gives up
    waiting for the response, and the client's view still says locked.
    Client 2 then gets the lock from the server, and client 1's next trylock
    is answered from its own view, without asking the server, with
    DLOCK_ALREADY_LOCKED, which [lock] treats as success. *)
Theorem rw_lost_response_two_writers :
  let acts := example_exchange 1 example_ex ++
              [ACall 1 ApiUnlock; AServe 1; ATimeout 1] ++
              example_exchange 2 example_ex ++ [ACall 1 example_ex] in
  let s := run acts (rw_init (fun _ => 7) 0 100) in
  along sound_env acts (rw_init (fun _ => 7) 0 100) = true /\
  holds s 1 EXCLUSIVE_LOCKED /\ holds s 2 EXCLUSIVE_LOCKED /\
  c_ret (s_client s 1) = Some DLOCK_ALREADY_LOCKED /\ c_ret (s_client s 2) = Some DLOCK_SUCCESS /\
  rl_client_id (s_lock s) = 2.
Proof. vm_compute. split_and!; reflexivity. Qed.
