(* ===== verification/DlockControl.v ===== *)
(** * Distributed locks: the control plane of the server

    Clients connect to the server over sockets, register, and ask for locks
    and shared 64-bit objects by descriptor.  This file has the tables the
    server keeps of them and the handlers of the control messages
    (src/src/ulock/dlock/lib/server/dlock_server.cpp, with lock_entry_s.cpp,
    client_entry_s.cpp, object_memory.cpp and dlock_descriptor.cpp).

    Lock entries, object entries, connections and data-path channels
    (jetty managers) are C++ objects that several tables point to, so the
    model has a heap for each kind: reading through a pointer to an object
    that was deleted, or through a null pointer, is a fault, and a handler
    that faults gives [None].  A descriptor is the list of its bytes; the
    descriptor maps compare contents, as [equal_dlock_desc] does.

    What the handlers take from outside is an argument [env] of each message:
    the clock, whether the response can be sent, the random client
    identifiers, whether a channel can be created and which channels the data
    thread keeps busy.  Allocations of small objects succeed.  Only the
    branches of a primary server are modelled: [init] refuses replicas.
    Logging and statistics are left out. *)

From S2P Require Import Prelude Memory DlockMemory Dlock.

(** ** Constants *)

Definition MAX_NUM_CLIENT : Z := 1000.
Definition MAX_LOCK_DESC_LEN : Z := 512.
Definition MAX_OBJECT_SIZE : Z := 102400.
Definition DLOCK_CP_MAGIC_NO : Z := 3992439114. (* 0xedf7c94a *)
Definition DLOCK_MIN_PROTO_VERSION : Z := 2.
Definition DLOCK_FIXED_CTRL_MSG_HDR_LEN : Z := 16.
Definition DLOCK_GET_LOCK_BODY_LEN : Z := 20.
Definition DLOCK_RELEASE_LOCK_BODY_LEN : Z := 4.
Definition DLOCK_BATCH_GET_LOCK_BODY_LEN : Z := 4.
Definition DLOCK_BATCH_RELEASE_LOCK_BODY_LEN : Z := 4.
Definition DLOCK_UPDATE_LOCK_BODY_LEN : Z := 40.
Definition DLOCK_BATCH_UPDATE_LOCK_BODY_LEN : Z := 4.
Definition DLOCK_OBJECT_CREATE_BODY_LEN : Z := 32.
Definition DLOCK_OBJECT_GET_BODY_LEN : Z := 24.
Definition DLOCK_OBJECT_RELEASE_BODY_LEN : Z := 4.
Definition DLOCK_OBJECT_DESTROY_BODY_LEN : Z := 4.
Definition DLOCK_MAX_CTRL_MSG_SIZE : Z := 17132. (* 16 + 4 + (40 + 512) * 31 *)
Definition MAX_TRY_ALLOC_CLIENT_ID_TIME : nat := 6.
Definition CLIENT_ID_MASK : Z := 2147483647. (* 0x7FFFFFFF *)
Definition JETTY_MGR_INVALID_TIMEOUT : Z := 10000000. (* microseconds *)
Definition JETTY_MGR_INVALID_QUEUE_WARNING_SIZE : Z := 1024.

(** The statuses that handlers return or compare, with their values in
    dlock_types.h. *)
Definition status_num (st : dlock_status) : Z :=
  match st with
  | DLOCK_SUCCESS => 0 | DLOCK_DONE => 1
  | DLOCK_EAGAIN => 4096 | DLOCK_ENOMEM => 4097 | DLOCK_ETIMEOUT => 4098 | DLOCK_EINVAL => 4099
  | DLOCK_ETICKET => 4100 | DLOCK_EASYNC => 4101
  | DLOCK_CLIENT_NOT_INIT => 8192 | DLOCK_LOCK_NOT_GET => 8193 | DLOCK_ALREADY_LOCKED => 8194
  | DLOCK_ALREADY_UNLOCKED => 8195 | DLOCK_TICKET_TO_UNLOCK => 8196 | DLOCK_BAD_RESPONSE => 8197
  | DLOCK_FAIL => 8198 | DLOCK_CLIENTMGR_NOT_INIT => 8199 | DLOCK_NOT_READY => 8200
  | DLOCK_NO_ASYNC => 8201 | DLOCK_ASYNC_AGAIN => 8202 | DLOCK_REPLICA_INIT_FAIL => 8203
  | DLOCK_SERVER_NOT_INIT => 8204 | DLOCK_CLIENT_REMOVED_BY_SERVER => 8205
  | DLOCK_PROTO_VERSION_NEGOTIATION_FAIL => 8206 | DLOCK_SERVER_NO_RESOURCE => 8207
  | DLOCK_OBJECT_ALREADY_EXISTED => 12288 | DLOCK_OBJECT_ALREADY_CREATED => 12289
  | DLOCK_OBJECT_NOT_CREATE => 12290 | DLOCK_OBJECT_INVALID_OWNER => 12291
  | DLOCK_OBJECT_NOT_GET => 12292 | DLOCK_OBJECT_ALREADY_DESTROYED => 12293
  | DLOCK_OBJECT_TOO_MANY => 12294 | DLOCK_OBJECT_CAS_FAILED => 12295
  end.

Definition NO_RESOURCE : Z := - status_num DLOCK_SERVER_NO_RESOURCE.

(** The address that [new] returns: one that no object of the heap has. *)
Definition new_ptr {A} (h : gmap Z A) : Z := map_fold (fun k _ a => Z.max k a) 0 h + 1.

(** ** Lock entries *)

Definition desc : Type := list Z.

Record lock_entry_s := LockEntryS {
  le_id : Z;
  le_type : dlock_type;
  le_offset : Z;
  le_desc : desc;
  le_leases : gmap Z Z    (* m_lease_time_map *)
}.

Definition set_leases (v : gmap Z Z) (e : lock_entry_s) : lock_entry_s :=
  LockEntryS (le_id e) (le_type e) (le_offset e) (le_desc e) v.

(** [m_lock_map], [m_lock_desc_map], [m_lock_num], [m_curr_lock_id] and
    [m_lock_memory]. *)
Record lock_table := LockTable {
  lt_heap : gmap Z lock_entry_s;
  lt_map : gmap Z Z;
  lt_descs : gmap desc Z;
  lt_num : Z;
  lt_curr : Z;
  lt_memory : lock_memory
}.

Definition set_lt_heap (v : gmap Z lock_entry_s) (t : lock_table) : lock_table :=
  LockTable v (lt_map t) (lt_descs t) (lt_num t) (lt_curr t) (lt_memory t).
Definition set_lt_curr (v : Z) (t : lock_table) : lock_table :=
  LockTable (lt_heap t) (lt_map t) (lt_descs t) (lt_num t) v (lt_memory t).
Definition set_lt_memory (v : lock_memory) (t : lock_table) : lock_table :=
  LockTable (lt_heap t) (lt_map t) (lt_descs t) (lt_num t) (lt_curr t) v.

(** The loop of [find_available_lock_id] and [find_available_object_id]:
    [flag] is [loop_flag]; the result is the identifier, -1 when there is
    none, and the counter.  The counter is an [int] that the source lets
    overflow to a negative value. *)
Fixpoint find_id_loop (fuel : nat) (m : gmap Z Z) (curr : Z) (flag : bool) : option (Z * Z) :=
  match fuel with
  | O => None
  | S fuel =>
    let curr := s32 (curr + 1) in
    if curr <=? 0 then
      if flag then Some (-1, curr)
      else match m !! 1 with
           | Some _ => find_id_loop fuel m 1 true
           | None => Some (1, 1)
           end
    else match m !! curr with
         | Some _ => find_id_loop fuel m curr flag
         | None => Some (curr, curr)
         end
  end.

(** [find_available_lock_id(lock_id)], [find_available_object_id(object_id)]. *)
Definition find_available_id (m : gmap Z Z) (curr id : Z) : option (Z * Z) :=
  if (0 <? id) && bool_decide (m !! id = None) then Some (id, curr)
  else find_id_loop (S (size m)) m curr false.

(** [struct get_lock_body] with its descriptor. *)
Record get_lock_body := GetLockBody {
  gl_id : Z; gl_type : Z; gl_lease : Z; gl_offset : Z; gl_desc_len : Z; gl_desc : desc
}.

Definition set_gl_id (v : Z) (b : get_lock_body) : get_lock_body :=
  GetLockBody v (gl_type b) (gl_lease b) (gl_offset b) (gl_desc_len b) (gl_desc b).

Definition set_gl_place (id off : Z) (b : get_lock_body) : get_lock_body :=
  GetLockBody id (gl_type b) (gl_lease b) off (gl_desc_len b) (gl_desc b).

Definition lock_type_of (t : Z) : option dlock_type :=
  if t =? 0 then Some DLOCK_ATOMIC else if t =? 1 then Some DLOCK_RW
  else if t =? 2 then Some DLOCK_FAIR else None.

(** [descriptor_init]: [Some None] is DLOCK_EINVAL; copying more bytes than
    the message holds is a fault. *)
Definition descriptor_init (len : Z) (buf : desc) : option (option desc) :=
  if MAX_LOCK_DESC_LEN <? len then Some None
  else if zlen buf <? len then None
  else Some (Some (take (Z.to_nat len) buf)).

(** A new entry with memory of its own, in all tables: the part that
    [get_lock_by_msg] and [update_lock_by_msg] share.  The result is the
    entry and its identifier and offset. *)
Definition new_lock_entry (d : desc) (ty : dlock_type) (id : Z) (t : lock_table)
  : option (option (Z * Z * Z) * lock_table) :=
  if MAX_NUM_LOCK <=? lt_num t then Some (None, t)
  else
    '(lock_id, curr) ← find_available_id (lt_map t) (lt_curr t) id;
    let t := set_lt_curr curr t in
    if lock_id <=? 0 then Some (None, t)
    else
      '(lm, off) ← get_lock_memory ty (lt_memory t);
      if off =? UINT_MAX then Some (None, set_lt_memory lm t)
      else
        let p := new_ptr (lt_heap t) in
        let e := LockEntryS lock_id ty off d ∅ in
        Some (Some (p, lock_id, off),
          LockTable (<[p := e]> (lt_heap t)) (<[lock_id := p]> (lt_map t)) (<[d := p]> (lt_descs t))
            (lt_num t + 1) (lt_curr t) lm).

Definition get_lock_by_msg (b : get_lock_body) (t : lock_table)
  : option (option Z * get_lock_body * lock_table) :=
  match lock_type_of (gl_type b) with
  | None => Some (None, b, t)
  | Some ty =>
    d ← descriptor_init (gl_desc_len b) (gl_desc b);
    match d with
    | None => Some (None, b, t)
    | Some d =>
      match lt_descs t !! d with
      | None =>
        '(r, t) ← new_lock_entry d ty (gl_id b) t;
        match r with
        | Some (p, id, off) => Some (Some p, set_gl_place id off b, t)
        | None => Some (None, set_gl_id NO_RESOURCE b, t)
        end
      | Some p =>
        e ← lt_heap t !! p;
        if negb (bool_decide (le_type e = ty)) then Some (None, set_gl_id (-1) b, t)
        else Some (Some p, set_gl_place (le_id e) (le_offset e) b, t)
      end
    end
  end.

(** Deletion of an entry, [~lock_entry_s], and of its traces in the tables:
    [lock_entry_release], and the same statements in [release_lock_map_entry]
    and [clear_lock_client_relation]. *)
Definition lock_entry_release (p id : Z) (t : lock_table) : option lock_table :=
  e ← lt_heap t !! p;
  let lm := if le_offset e =? UINT_MAX then lt_memory t
            else release_lock_memory (le_offset e) (le_type e) (lt_memory t) in
  Some (LockTable (delete p (lt_heap t)) (delete id (lt_map t)) (delete (le_desc e) (lt_descs t))
          (if lt_num t <=? 0 then lt_num t else lt_num t - 1) (lt_curr t) lm).

(** A client gives up its lease; the last one deletes the entry. *)
Definition drop_lease (client_id p id : Z) (t : lock_table) : option lock_table :=
  e ← lt_heap t !! p;
  let e := set_leases (delete client_id (le_leases e)) e in
  let t := set_lt_heap (<[p := e]> (lt_heap t)) t in
  if decide (le_leases e = ∅) then lock_entry_release p id t else Some t.

Definition add_lease (client_id p lease : Z) (t : lock_table) : option lock_table :=
  e ← lt_heap t !! p;
  Some (set_lt_heap (<[p := set_leases (<[client_id := lease]> (le_leases e)) e]> (lt_heap t)) t).

(** ** Restoring lock states *)

(** [struct update_lock_body]; [ul_ls] holds the bytes of the [lock_state]
    union. *)
Record update_lock_body := UpdateLockBody {
  ul_id : Z; ul_type : Z; ul_lease : Z; ul_offset : Z; ul_desc_len : Z; ul_ls : list Z; ul_desc : desc
}.

Definition set_ul_id (v : Z) (b : update_lock_body) : update_lock_body :=
  UpdateLockBody v (ul_type b) (ul_lease b) (ul_offset b) (ul_desc_len b) (ul_ls b) (ul_desc b).
Definition set_ul_place (id off : Z) (b : update_lock_body) : update_lock_body :=
  UpdateLockBody id (ul_type b) (ul_lease b) off (ul_desc_len b) (ul_ls b) (ul_desc b).

(** The three views of the union. *)
Definition atomic_state_of (l : list Z) : atomic_state := AtomicState (s32 (get32 l 0)) (get32 l 4).
Definition rw_state_of (l : list Z) : rw_state :=
  RwState (get32 l 0) (s32 (get32 l 4)) (get32 l 8) (get32 l 12).
Definition fairlock_state_of (l : list Z) : fairlock_state :=
  let w := get16 l 14 in
  FairlockState (get16 l 0) (get16 l 2) (get16 l 4) (get16 l 6) (get32 l 8)
    (TBits (get16 l 12) (w mod 2) ((w / 2) mod 512) (w / 1024)).

(** The new bytes of a lock. *)
Definition synced (ty : dlock_type) (ls l : list Z) : list Z :=
  match ty with
  | DLOCK_ATOMIC => atomic_encode (atomic_sync_state (atomic_state_of ls) (atomic_decode l))
  | DLOCK_RW => rw_encode (rwlock_sync_state (rw_state_of ls) (rw_decode l))
  | DLOCK_FAIR => fair_encode (fairlock_sync_state (fairlock_state_of ls) (fair_decode l))
  end.

Definition sync_lock_state (ty : dlock_type) (off : Z) (ls : list Z) (lm : lock_memory)
  : option lock_memory :=
  l ← read_bytes (m_p_lock_memory lm) off (g_lock_size ty);
  bs ← write_bytes (m_p_lock_memory lm) off (synced ty ls l);
  Some (LockMemory bs (m_is_primary lm) (m_free_memory_map lm)).

Definition update_lock_by_msg (b : update_lock_body) (t : lock_table)
  : option (option Z * update_lock_body * lock_table) :=
  match lock_type_of (ul_type b) with
  | None => Some (None, set_ul_id (-1) b, t)
  | Some ty =>
    d ← descriptor_init (ul_desc_len b) (ul_desc b);
    match d with
    | None => Some (None, set_ul_id (-1) b, t)
    | Some d =>
      '(r, t) ← match lt_descs t !! d with
                | None => new_lock_entry d ty (ul_id b) t
                | Some p => e ← lt_heap t !! p; Some (Some (p, le_id e, le_offset e), t)
                end;
      match r with
      | None => Some (None, set_ul_id (-1) b, t)
      | Some (p, id, off) =>
        e ← lt_heap t !! p;
        lm ← sync_lock_state (le_type e) (le_offset e) (ul_ls b) (lt_memory t);
        Some (Some p, set_ul_place id off b, set_lt_memory lm t)
      end
    end
  end.

(** ** Object memory *)

Definition INVALID_OFFSET : Z := UINT32_MAX * 8.

(** [m_addr], the free list threaded through [m_ctrl], and its head. *)
Record object_memory := ObjectMemory { om_addr : list Z; om_ctrl : list Z; om_next_free : Z }.

Definition object_memory_init (total : nat) : object_memory :=
  ObjectMemory (replicate total 0)
    ((fun i => if (S i =? total)%nat then UINT32_MAX else Z.of_nat (S i)) <$> seq 0 total) 0.

Definition alloc_object_memory (m : object_memory) : option (Z * object_memory) :=
  if om_next_free m =? UINT32_MAX then Some (INVALID_OFFSET, m)
  else
    next ← zget (om_ctrl m) (om_next_free m);
    Some (om_next_free m * 8, ObjectMemory (om_addr m) (om_ctrl m) next).

Definition free_object_memory (offset : Z) (m : object_memory) : option object_memory :=
  if INVALID_OFFSET <=? offset then Some m
  else
    let id := u32 (offset / 8) in
    ctrl ← zset (om_ctrl m) id (om_next_free m);
    Some (ObjectMemory (om_addr m) ctrl id).

Definition object_memory_set (offset val : Z) (m : object_memory) : option object_memory :=
  if INVALID_OFFSET <=? offset then Some m
  else
    addr ← zset (om_addr m) (u32 (offset / 8)) val;
    Some (ObjectMemory addr (om_ctrl m) (om_next_free m)).

(** ** Object entries *)

Record object_entry_s := ObjectEntryS {
  oe_id : Z;
  oe_owner : Z;
  oe_offset : Z;
  oe_refcnt : Z;
  oe_destroyed : bool;
  oe_max_lease : Z;        (* m_max_lease_tp *)
  oe_leases : gmap Z Z;    (* m_lease_tp_map *)
  oe_desc : desc
}.

Record object_table := ObjectTable {
  ot_heap : gmap Z object_entry_s;
  ot_map : gmap Z Z;
  ot_descs : gmap desc Z;
  ot_num : Z;
  ot_curr : Z;
  ot_memory : object_memory
}.

Definition set_ot_heap (v : gmap Z object_entry_s) (t : object_table) : object_table :=
  ObjectTable v (ot_map t) (ot_descs t) (ot_num t) (ot_curr t) (ot_memory t).
Definition set_ot_curr (v : Z) (t : object_table) : object_table :=
  ObjectTable (ot_heap t) (ot_map t) (ot_descs t) (ot_num t) v (ot_memory t).
Definition set_ot_memory (v : object_memory) (t : object_table) : object_table :=
  ObjectTable (ot_heap t) (ot_map t) (ot_descs t) (ot_num t) (ot_curr t) v.

Definition check_lease_expired (now : Z) (e : object_entry_s) : bool := oe_max_lease e <=? now.

Definition set_refcnt (v : Z) (e : object_entry_s) : object_entry_s :=
  ObjectEntryS (oe_id e) (oe_owner e) (oe_offset e) v (oe_destroyed e) (oe_max_lease e)
    (oe_leases e) (oe_desc e).
Definition set_owner (v : Z) (e : object_entry_s) : object_entry_s :=
  ObjectEntryS (oe_id e) v (oe_offset e) (oe_refcnt e) (oe_destroyed e) (oe_max_lease e)
    (oe_leases e) (oe_desc e).
Definition set_destroyed (e : object_entry_s) : object_entry_s :=
  ObjectEntryS (oe_id e) (oe_owner e) (oe_offset e) (oe_refcnt e) true (oe_max_lease e)
    (oe_leases e) (oe_desc e).
Definition set_oe_leases (mx : Z) (v : gmap Z Z) (e : object_entry_s) : object_entry_s :=
  ObjectEntryS (oe_id e) (oe_owner e) (oe_offset e) (oe_refcnt e) (oe_destroyed e) mx v (oe_desc e).

(** One reference less: [m_refcnt--] and the erased lease. *)
Definition unref (client_id : Z) (e : object_entry_s) : object_entry_s :=
  set_oe_leases (oe_max_lease e) (delete client_id (oe_leases e)) (set_refcnt (oe_refcnt e - 1) e).

(** A lease that ends at [tp]: both maxima.  A client without a lease has
    the zero time point. *)
Definition renew (client_id tp : Z) (e : object_entry_s) : object_entry_s :=
  set_oe_leases (Z.max (oe_max_lease e) tp)
    (<[client_id := Z.max (default 0 (oe_leases e !! client_id)) tp]> (oe_leases e)) e.

(** Time points are in nanoseconds, leases in seconds. *)
Definition seconds (s : Z) : Z := s * 1000000000.

(** ** Clients, connections and channels *)

Record client_entry_s := ClientEntryS {
  ce_conn : option Z;      (* m_p_conn *)
  ce_jetty : option Z;     (* m_p_jetty_mgr *)
  ce_locks : gmap Z Z;
  ce_objects : gmap Z Z;
  ce_reinit : bool;
  ce_updated : bool        (* m_client_lock_updated *)
}.

Definition set_ce_conn (v : option Z) (e : client_entry_s) : client_entry_s :=
  ClientEntryS v (ce_jetty e) (ce_locks e) (ce_objects e) (ce_reinit e) (ce_updated e).
Definition set_ce_jetty (v : option Z) (e : client_entry_s) : client_entry_s :=
  ClientEntryS (ce_conn e) v (ce_locks e) (ce_objects e) (ce_reinit e) (ce_updated e).
Definition set_ce_locks (v : gmap Z Z) (e : client_entry_s) : client_entry_s :=
  ClientEntryS (ce_conn e) (ce_jetty e) v (ce_objects e) (ce_reinit e) (ce_updated e).
Definition set_ce_objects (v : gmap Z Z) (e : client_entry_s) : client_entry_s :=
  ClientEntryS (ce_conn e) (ce_jetty e) (ce_locks e) v (ce_reinit e) (ce_updated e).
Definition set_ce_reinit (v : bool) (e : client_entry_s) : client_entry_s :=
  ClientEntryS (ce_conn e) (ce_jetty e) (ce_locks e) (ce_objects e) v (ce_updated e).
Definition set_ce_updated (e : client_entry_s) : client_entry_s :=
  ClientEntryS (ce_conn e) (ce_jetty e) (ce_locks e) (ce_objects e) (ce_reinit e) true.

Inductive dlock_server_state := SERVER_WAIT_CLIENT_REINIT | SERVER_READY.

#[global] Instance dlock_server_state_eq_dec : EqDecision dlock_server_state.
Proof. solve_decision. Defined.

Record server := Server {
  sv_state : dlock_server_state;
  sv_recovery : Z;                        (* m_recovery_client_num *)
  sv_clients : gmap Z client_entry_s;
  sv_client_num : Z;
  sv_except : list Z;                     (* m_except_client_set, ascending *)
  sv_locks : lock_table;
  sv_objects : object_table;
  sv_conns : gmap Z (option Z);           (* live connections with their peer *)
  sv_jettys : gmap Z unit;                (* live jetty managers *)
  sv_invalid : list (Z * Z)               (* m_jetty_mgr_invalid_queue *)
}.

Section setters.
Implicit Types s : server.

Definition set_ready s : server :=
  Server SERVER_READY (sv_recovery s) (sv_clients s) (sv_client_num s) (sv_except s) (sv_locks s)
    (sv_objects s) (sv_conns s) (sv_jettys s) (sv_invalid s).
Definition set_recovery (v : Z) s : server :=
  Server (sv_state s) v (sv_clients s) (sv_client_num s) (sv_except s) (sv_locks s)
    (sv_objects s) (sv_conns s) (sv_jettys s) (sv_invalid s).
Definition set_clients (v : gmap Z client_entry_s) s : server :=
  Server (sv_state s) (sv_recovery s) v (sv_client_num s) (sv_except s) (sv_locks s)
    (sv_objects s) (sv_conns s) (sv_jettys s) (sv_invalid s).
Definition set_client_num (v : Z) s : server :=
  Server (sv_state s) (sv_recovery s) (sv_clients s) v (sv_except s) (sv_locks s)
    (sv_objects s) (sv_conns s) (sv_jettys s) (sv_invalid s).
Definition set_except (v : list Z) s : server :=
  Server (sv_state s) (sv_recovery s) (sv_clients s) (sv_client_num s) v (sv_locks s)
    (sv_objects s) (sv_conns s) (sv_jettys s) (sv_invalid s).
Definition set_locks (v : lock_table) s : server :=
  Server (sv_state s) (sv_recovery s) (sv_clients s) (sv_client_num s) (sv_except s) v
    (sv_objects s) (sv_conns s) (sv_jettys s) (sv_invalid s).
Definition set_objects (v : object_table) s : server :=
  Server (sv_state s) (sv_recovery s) (sv_clients s) (sv_client_num s) (sv_except s) (sv_locks s)
    v (sv_conns s) (sv_jettys s) (sv_invalid s).
Definition set_conns (v : gmap Z (option Z)) s : server :=
  Server (sv_state s) (sv_recovery s) (sv_clients s) (sv_client_num s) (sv_except s) (sv_locks s)
    (sv_objects s) v (sv_jettys s) (sv_invalid s).
Definition set_jettys (v : gmap Z unit) s : server :=
  Server (sv_state s) (sv_recovery s) (sv_clients s) (sv_client_num s) (sv_except s) (sv_locks s)
    (sv_objects s) (sv_conns s) v (sv_invalid s).
Definition set_invalid (v : list (Z * Z)) s : server :=
  Server (sv_state s) (sv_recovery s) (sv_clients s) (sv_client_num s) (sv_except s) (sv_locks s)
    (sv_objects s) (sv_conns s) (sv_jettys s) v.
End setters.

(** What a message meets: the clock (nanoseconds), whether the response is
    sent, the draws of RAND_priv_bytes ([None] when it fails), whether a jetty
    manager can be created and connected, and which managers the data thread
    keeps busy for as long as [modify_jetty_mgr_to_invalid] retries. *)
Record env := Env {
  e_now : Z;
  e_send : bool;
  e_rands : list (option Z);
  e_jetty : bool;
  e_busy : Z -> bool
}.

(** ** Messages *)

(** [struct dlock_control_hdr]; the type is the request that the number
    selects. *)
Inductive dlock_control_msg :=
| CLIENT_INIT_REQUEST | CLIENT_DEINIT_REQUEST | CLIENT_HEARTBEAT_REQUEST
| GET_LOCK_REQUEST | RELEASE_LOCK_REQUEST | BATCH_GET_LOCK_REQUEST | BATCH_RELEASE_LOCK_REQUEST
| OBJECT_CREATE_REQUEST | OBJECT_GET_REQUEST | OBJECT_RELEASE_REQUEST | OBJECT_DESTROY_REQUEST
| CLIENT_REINIT_REQUEST | CLIENT_REINIT_DONE_REQUEST | BATCH_UPDATE_LOCKS_REQUEST
| OTHER_CONTROL_MSG (n : Z).

Definition control_num (t : dlock_control_msg) : Z :=
  match t with
  | CLIENT_INIT_REQUEST => 12 | CLIENT_DEINIT_REQUEST => 14 | CLIENT_HEARTBEAT_REQUEST => 16
  | GET_LOCK_REQUEST => 18 | RELEASE_LOCK_REQUEST => 20 | BATCH_GET_LOCK_REQUEST => 22
  | BATCH_RELEASE_LOCK_REQUEST => 24 | OBJECT_CREATE_REQUEST => 26 | OBJECT_GET_REQUEST => 28
  | OBJECT_RELEASE_REQUEST => 30 | OBJECT_DESTROY_REQUEST => 32 | CLIENT_REINIT_REQUEST => 34
  | CLIENT_REINIT_DONE_REQUEST => 36 | BATCH_UPDATE_LOCKS_REQUEST => 38
  | OTHER_CONTROL_MSG n => n
  end.

Record ctl_hdr := CtlHdr {
  h_magic : Z; h_version : Z; h_hdr_len : Z; h_type : dlock_control_msg; h_total_len : Z; h_client_id : Z
}.

Record object_create_body := ObjectCreateBody {
  oc_id : Z; oc_offset : Z; oc_init : Z; oc_lease : Z; oc_desc_len : Z; oc_desc : desc
}.
Definition set_oc_id (v : Z) (b : object_create_body) : object_create_body :=
  ObjectCreateBody v (oc_offset b) (oc_init b) (oc_lease b) (oc_desc_len b) (oc_desc b).
Definition set_oc_place (id off : Z) (b : object_create_body) : object_create_body :=
  ObjectCreateBody id off (oc_init b) (oc_lease b) (oc_desc_len b) (oc_desc b).

Record object_get_body := ObjectGetBody {
  og_id : Z; og_offset : Z; og_lease : Z; og_desc_len : Z; og_desc : desc
}.

(** The bodies that the handlers read.  A batch carries its declared number
    of entries and the entries that the message really holds. *)
Inductive ctl_body :=
| BInit (min_version : Z)
| BGetLock (b : get_lock_body)
| BReleaseLock (lock_id : Z)
| BBatchGet (lock_num : Z) (l : list get_lock_body)
| BBatchRelease (lock_num : Z) (l : list Z)
| BUpdate (lock_num : Z) (l : list update_lock_body)
| BCreate (b : object_create_body)
| BGetObject (b : object_get_body)
| BReleaseObject (obj_id : Z)
| BDestroy (obj_id : Z).

Inductive reply :=
| RPlain
| RInit (client_id : Z) (st : dlock_server_state)
| RGetLock (b : get_lock_body)
| RBatchGet (l : list get_lock_body)
| RUpdate (l : list update_lock_body)
| RCreate (b : object_create_body)
| RGetObject (b : object_get_body)
| RObject (obj_id : Z).

(** What a handler gives: its return value, the response with the connection
    it went to, and the server.  [None] is a fault. *)
Definition result : Type := option (Z * option (Z * reply) * server).

Definition fails (ret : Z) (s : server) : result := Some (ret, None, s).

(** [send] on the connection that [k] points to. *)
Definition respond (k : option Z) (r : reply) (v : env) (s : server) : result :=
  k ← k;
  _ ← sv_conns s !! k;
  Some (if e_send v then (0, Some (k, r), s) else (-1, None, s)).

Definition check_msg_body_len_invalid (h : ctl_hdr) (expected : Z) : bool :=
  negb (h_total_len h - h_hdr_len h =? expected).

Definition put_client (c : Z) (e : client_entry_s) (s : server) : server :=
  set_clients (<[c := e]> (sv_clients s)) s.

(** ** Handlers of lock messages *)

(** The client's side of a lock it has been given: [m_lock_map] of the client
    and the lease in the entry.  [false] when it had the lock already. *)
Definition link_lock (c : Z) (ce : client_entry_s) (id p lease : Z) (s : server)
  : option (bool * server) :=
  match ce_locks ce !! id with
  | Some _ => Some (false, s)
  | None =>
    lt ← add_lease c p lease (sv_locks s);
    Some (true, put_client c (set_ce_locks (<[id := p]> (ce_locks ce)) ce) (set_locks lt s))
  end.

Definition get_lock_do (h : ctl_hdr) (body : option get_lock_body) (v : env) (s : server) : result :=
  b ← body;
  if check_msg_body_len_invalid h (u16 (DLOCK_GET_LOCK_BODY_LEN + u16 (gl_desc_len b)))
  then fails (-1) s
  else match sv_clients s !! h_client_id h with
  | None => fails (-1) s
  | Some ce =>
    '(r, b, lt) ← get_lock_by_msg b (sv_locks s);
    let s := set_locks lt s in
    match r with
    | None => fails (if gl_id b =? NO_RESOURCE then status_num DLOCK_SERVER_NO_RESOURCE else -1) s
    | Some p =>
      '(_, s) ← link_lock (h_client_id h) ce (gl_id b) p (gl_lease b) s;
      respond (ce_conn ce) (RGetLock b) v s
    end
  end.

(** A client gives a lock back. *)
Definition unlink_lock (c : Z) (ce : client_entry_s) (id p : Z) (s : server) : option server :=
  lt ← drop_lease c p id (sv_locks s);
  Some (put_client c (set_ce_locks (delete id (ce_locks ce)) ce) (set_locks lt s)).

Definition release_lock_do (h : ctl_hdr) (body : option Z) (v : env) (s : server) : result :=
  if check_msg_body_len_invalid h DLOCK_RELEASE_LOCK_BODY_LEN then fails (-1) s
  else match sv_clients s !! h_client_id h with
  | None => fails (-1) s
  | Some ce =>
    lock_id ← body;
    match ce_locks ce !! lock_id with
    | None => fails (-1) s
    | Some p =>
      s ← unlink_lock (h_client_id h) ce lock_id p s;
      respond (ce_conn ce) RPlain v s
    end
  end.

(** The loop of [batch_get_lock_do]; [n] entries are left, [acc] holds the
    updated ones.  [inr] is the early return on a descriptor that does not
    fit. *)
Fixpoint batch_get_loop (c body_len offset n : Z) (l acc : list get_lock_body) (s : server)
  : option (list get_lock_body * server + server) :=
  if n <=? 0 then Some (inl (acc, s))
  else match l with
  | [] => None
  | b :: l =>
    let offset := offset + DLOCK_GET_LOCK_BODY_LEN + gl_desc_len b in
    if body_len <? offset then Some (inr s)
    else
      '(r, b, lt) ← get_lock_by_msg b (sv_locks s);
      let s := set_locks lt s in
      match r with
      | None => batch_get_loop c body_len offset (n - 1) l (acc ++ [b]) s
      | Some p =>
        ce ← sv_clients s !! c;
        '(_, s) ← link_lock c ce (gl_id b) p (gl_lease b) s;
        batch_get_loop c body_len offset (n - 1) l (acc ++ [b]) s
      end
  end.

Definition batch_get_lock_do (h : ctl_hdr) (body : option (Z * list get_lock_body)) (v : env)
    (s : server) : result :=
  match sv_clients s !! h_client_id h with
  | None => fails (-1) s
  | Some ce =>
    '(lock_num, l) ← body;
    r ← batch_get_loop (h_client_id h) (u16 (h_total_len h - h_hdr_len h))
          DLOCK_BATCH_GET_LOCK_BODY_LEN lock_num l [] s;
    match r with
    | inr s => fails (-1) s
    | inl (acc, s) => respond (ce_conn ce) (RBatchGet acc) v s
    end
  end.

Fixpoint batch_release_loop (c n : Z) (l : list Z) (s : server) : option server :=
  if n <=? 0 then Some s
  else match l with
  | [] => None
  | lock_id :: l =>
    ce ← sv_clients s !! c;
    match ce_locks ce !! lock_id with
    | None => batch_release_loop c (n - 1) l s
    | Some p => s ← unlink_lock c ce lock_id p s; batch_release_loop c (n - 1) l s
    end
  end.

Definition batch_release_lock_do (h : ctl_hdr) (body : option (Z * list Z)) (v : env) (s : server)
  : result :=
  if h_total_len h - h_hdr_len h <? DLOCK_BATCH_RELEASE_LOCK_BODY_LEN then fails (-1) s
  else
    '(lock_num, l) ← body;
    if check_msg_body_len_invalid h
         (u16 (DLOCK_BATCH_RELEASE_LOCK_BODY_LEN + lock_num * DLOCK_RELEASE_LOCK_BODY_LEN))
    then fails (-1) s
    else match sv_clients s !! h_client_id h with
    | None => fails (-1) s
    | Some ce =>
      s ← batch_release_loop (h_client_id h) lock_num l s;
      respond (ce_conn ce) RPlain v s
    end.

(** The loop of [batch_update_locks_do]; it stops at an entry that does not
    fit. *)
Fixpoint batch_update_loop (c body_len offset n : Z) (l acc : list update_lock_body) (s : server)
  : option (list update_lock_body * server) :=
  if n <=? 0 then Some (acc ++ l, s)
  else match l with
  | [] => None
  | b :: l' =>
    let offset := offset + DLOCK_UPDATE_LOCK_BODY_LEN + ul_desc_len b in
    if body_len <? offset then Some (acc ++ l, s)
    else
      '(r, b, lt) ← update_lock_by_msg b (sv_locks s);
      let s := set_locks lt s in
      match r with
      | None => batch_update_loop c body_len offset (n - 1) l' (acc ++ [b]) s
      | Some p =>
        ce ← sv_clients s !! c;
        '(fresh, s) ← link_lock c ce (ul_id b) p (ul_lease b) s;
        ce ← sv_clients s !! c;
        batch_update_loop c body_len offset (n - 1) l' (acc ++ [b])
          (if fresh : bool then put_client c (set_ce_updated ce) s else s)
      end
  end.

Definition batch_update_locks_do (k : Z) (h : ctl_hdr) (body : option (Z * list update_lock_body))
    (v : env) (s : server) : result :=
  match sv_clients s !! h_client_id h with
  | None => fails (-1) s
  | Some ce =>
    if negb (ce_reinit ce) then fails (-1) s
    else
      '(lock_num, l) ← body;
      '(acc, s) ← batch_update_loop (h_client_id h) (u16 (h_total_len h - h_hdr_len h))
                    DLOCK_BATCH_UPDATE_LOCK_BODY_LEN lock_num l [] s;
      respond (Some k) (RUpdate acc) v s
  end.

(** ** Handlers of object messages *)

(** The erasure of an object from the map of every client. *)
Definition forget_object (id : Z) (clients : gmap Z client_entry_s) : gmap Z client_entry_s :=
  (fun ce => set_ce_objects (delete id (ce_objects ce)) ce) <$> clients.

Definition destroy_object_entry (p : Z) (s : server) : option server :=
  let t := sv_objects s in
  if ot_num t <=? 0 then Some s
  else
    e ← ot_heap t !! p;
    om ← free_object_memory (oe_offset e) (ot_memory t);
    Some (set_clients (forget_object (oe_id e) (sv_clients s))
           (set_objects
             (ObjectTable (delete p (ot_heap t)) (delete (oe_id e) (ot_map t))
                (delete (oe_desc e) (ot_descs t)) (ot_num t - 1) (ot_curr t) om) s)).

Definition create_object_by_msg (b : object_create_body) (client_id : Z) (t : object_table)
  : option (option Z * object_create_body * object_table) :=
  d ← descriptor_init (oc_desc_len b) (oc_desc b);
  match d with
  | None => Some (None, b, t)
  | Some d =>
    '(id, curr) ← find_available_id (ot_map t) (ot_curr t) (oc_id b);
    let t := set_ot_curr curr t in
    if id <=? 0 then Some (None, set_oc_id NO_RESOURCE b, t)
    else
      '(off, om) ← alloc_object_memory (ot_memory t);
      if INVALID_OFFSET <=? off then Some (None, set_oc_id NO_RESOURCE b, set_ot_memory om t)
      else
        om ← object_memory_set off (oc_init b) om;
        let p := new_ptr (ot_heap t) in
        Some (Some p, set_oc_place id off b,
          ObjectTable (<[p := ObjectEntryS id client_id off 0 false 0 ∅ d]> (ot_heap t))
            (<[id := p]> (ot_map t)) (<[d := p]> (ot_descs t)) (ot_num t) (ot_curr t) om)
  end.

(** Replaces the entry at [p]. *)
Definition put_object (p : Z) (e : object_entry_s) (s : server) : server :=
  set_objects (set_ot_heap (<[p := e]> (ot_heap (sv_objects s))) (sv_objects s)) s.

Definition refresh_object_entry (p client_id now lease : Z) (s : server) : option server :=
  e ← ot_heap (sv_objects s) !! p;
  let tp := now + seconds lease in
  let e' := ObjectEntryS (oe_id e) client_id (oe_offset e) 0 false tp {[client_id := tp]} (oe_desc e) in
  Some (set_clients (forget_object (oe_id e) (sv_clients s)) (put_object p e' s)).

Definition create_object_do (h : ctl_hdr) (body : option object_create_body) (v : env) (s : server)
  : result :=
  b ← body;
  let c := h_client_id h in
  if check_msg_body_len_invalid h (u16 (DLOCK_OBJECT_CREATE_BODY_LEN + u16 (oc_desc_len b)))
  then fails (status_num DLOCK_EINVAL) s
  else match sv_clients s !! c with
  | None => fails (status_num DLOCK_CLIENT_NOT_INIT) s
  | Some ce =>
    d ← descriptor_init (oc_desc_len b) (oc_desc b);
    match d with
    | None => fails (status_num DLOCK_EINVAL) s
    | Some d =>
      match ot_descs (sv_objects s) !! d with
      | Some p =>
        e ← ot_heap (sv_objects s) !! p;
        if oe_destroyed e then
          if negb (oe_refcnt e =? 0) && negb (check_lease_expired (e_now v) e)
          then fails (status_num DLOCK_OBJECT_ALREADY_DESTROYED) s
          else
            s ← refresh_object_entry p c (e_now v) (oc_lease b) s;
            respond (ce_conn ce) (RCreate (set_oc_id (oe_id e) b)) v s
        else if (c =? oe_owner e) || (oe_owner e =? 0) then
          fails (status_num DLOCK_OBJECT_ALREADY_CREATED)
            (put_object p (renew c (e_now v + seconds (oc_lease b)) e) s)
        else fails (status_num DLOCK_OBJECT_ALREADY_EXISTED) s
      | None =>
        if ot_num (sv_objects s) =? MAX_OBJECT_SIZE then fails (status_num DLOCK_OBJECT_TOO_MANY) s
        else
          '(r, b, t) ← create_object_by_msg b c (sv_objects s);
          let s := set_objects t s in
          match r with
          | None => fails (if oc_id b =? NO_RESOURCE then status_num DLOCK_SERVER_NO_RESOURCE else -1) s
          | Some p =>
            e ← ot_heap t !! p;
            let tp := e_now v + seconds (oc_lease b) in
            let e := set_oe_leases tp (<[c := tp]> (oe_leases e)) e in
            let t := ObjectTable (<[p := e]> (ot_heap t)) (ot_map t) (ot_descs t) (ot_num t + 1)
                       (ot_curr t) (ot_memory t) in
            respond (ce_conn ce) (RCreate b) v (set_objects t s)
          end
      end
    end
  end.

Definition destroy_object_do (h : ctl_hdr) (body : option Z) (v : env) (s : server) : result :=
  if check_msg_body_len_invalid h DLOCK_OBJECT_DESTROY_BODY_LEN then fails (status_num DLOCK_EINVAL) s
  else match sv_clients s !! h_client_id h with
  | None => fails (status_num DLOCK_CLIENT_NOT_INIT) s
  | Some ce =>
    obj_id ← body;
    match ot_map (sv_objects s) !! obj_id with
    | None => fails (status_num DLOCK_OBJECT_NOT_CREATE) s
    | Some p =>
      e ← ot_heap (sv_objects s) !! p;
      if negb (oe_owner e =? h_client_id h) && negb (oe_owner e =? 0)
      then fails (status_num DLOCK_OBJECT_INVALID_OWNER) s
      else if oe_destroyed e then fails (status_num DLOCK_OBJECT_ALREADY_DESTROYED) s
      else
        let s := put_object p (set_destroyed e) s in
        s ← (if (oe_refcnt e =? 0) || check_lease_expired (e_now v) e
             then destroy_object_entry p s else Some s);
        respond (ce_conn ce) (RObject obj_id) v s
    end
  end.

Definition get_object_do (h : ctl_hdr) (body : option object_get_body) (v : env) (s : server) : result :=
  b ← body;
  let c := h_client_id h in
  if check_msg_body_len_invalid h (u16 (DLOCK_OBJECT_GET_BODY_LEN + u16 (og_desc_len b)))
  then fails (status_num DLOCK_EINVAL) s
  else match sv_clients s !! c with
  | None => fails (status_num DLOCK_CLIENT_NOT_INIT) s
  | Some ce =>
    d ← descriptor_init (og_desc_len b) (og_desc b);
    match d with
    | None => fails (status_num DLOCK_EINVAL) s
    | Some d =>
      match ot_descs (sv_objects s) !! d with
      | None => fails (status_num DLOCK_OBJECT_NOT_CREATE) s
      | Some p =>
        e ← ot_heap (sv_objects s) !! p;
        if oe_destroyed e then fails (status_num DLOCK_OBJECT_ALREADY_DESTROYED) s
        else
          let first := bool_decide (ce_objects ce !! oe_id e = None) in
          let s := if first
                   then put_client c (set_ce_objects (<[oe_id e := p]> (ce_objects ce)) ce) s else s in
          let e := if first then set_refcnt (oe_refcnt e + 1) e else e in
          let e := renew c (e_now v + seconds (og_lease b)) e in
          respond (ce_conn ce)
            (RGetObject (ObjectGetBody (oe_id e) (oe_offset e) (og_lease b) (og_desc_len b) (og_desc b)))
            v (put_object p e s)
      end
    end
  end.

Definition release_object_do (h : ctl_hdr) (body : option Z) (v : env) (s : server) : result :=
  if check_msg_body_len_invalid h DLOCK_OBJECT_RELEASE_BODY_LEN then fails (status_num DLOCK_EINVAL) s
  else
    let c := h_client_id h in
    match sv_clients s !! c with
    | None => fails (status_num DLOCK_CLIENT_NOT_INIT) s
    | Some ce =>
      obj_id ← body;
      match ce_objects ce !! obj_id with
      | None => fails (status_num DLOCK_OBJECT_NOT_GET) s
      | Some p =>
        e ← ot_heap (sv_objects s) !! p;
        let e := unref c e in
        let s := put_object p e (put_client c (set_ce_objects (delete obj_id (ce_objects ce)) ce) s) in
        s ← (if oe_destroyed e && ((oe_refcnt e =? 0) || check_lease_expired (e_now v) e)
             then destroy_object_entry p s else Some s);
        respond (ce_conn ce) (RObject obj_id) v s
      end
    end.

(** ** Clients that have gone *)

(** [clear_lock_client_relation]: the locks of the client, in the order of
    its map.  The client entry itself is deleted afterwards. *)
Fixpoint clear_locks (c : Z) (l : list (Z * Z)) (t : lock_table) : option lock_table :=
  match l with
  | [] => Some t
  | (_, p) :: l =>
    e ← lt_heap t !! p;
    t ← drop_lease c p (le_id e) t;
    clear_locks c l t
  end.

(** One object of [clear_object_client_relation]. *)
Definition clear_object (c now id p : Z) (s : server) : option server :=
  e ← ot_heap (sv_objects s) !! p;
  ce ← sv_clients s !! c;
  let e := unref c e in
  let s := put_object p e (put_client c (set_ce_objects (delete id (ce_objects ce)) ce) s) in
  if negb (oe_owner e =? c) then
    if oe_destroyed e && ((oe_refcnt e =? 0) || check_lease_expired now e)
    then destroy_object_entry p s else Some s
  else if negb (oe_refcnt e =? 0) && negb (check_lease_expired now e)
  then Some (put_object p (set_owner 0 e) s)
  else destroy_object_entry p s.

Fixpoint clear_objects (c now : Z) (l : list (Z * Z)) (s : server) : option server :=
  match l with
  | [] => Some s
  | (id, p) :: l => s ← clear_object c now id p s; clear_objects c now l s
  end.

(** [modify_jetty_mgr_to_invalid]: queues the manager for deletion unless the
    data thread keeps it busy; [false] is the return value -1.  Reading the
    state of a manager that was deleted is a fault. *)
Definition modify_jetty_mgr_to_invalid (j : option Z) (v : env) (s : server) : option (bool * server) :=
  j ← j;
  _ ← sv_jettys s !! j;
  if e_busy v j then Some (false, s)
  else Some (true, set_invalid (sv_invalid s ++ [(j, e_now v)]) s).

(** Deletes a jetty manager. *)
Definition delete_jetty (j : Z) (s : server) : option server :=
  _ ← sv_jettys s !! j;
  Some (set_jettys (delete j (sv_jettys s)) s).

Fixpoint except_insert (c : Z) (l : list Z) : list Z :=
  match l with
  | [] => [c]
  | d :: l' => if c <? d then c :: l else if c =? d then l else d :: except_insert c l'
  end.

Definition except_erase (c : Z) (l : list Z) : list Z := filter (fun d => d <> c) l.

(** [delete_except_client_entry]: the loop over the exception set, whose rest
    is [l]. *)
Fixpoint delete_except_loop (l : list Z) (v : env) (s : server) : option (Z * server) :=
  match l with
  | [] => Some (-1, s)
  | c :: l =>
    match sv_clients s !! c with
    | None => Some (-1, s)
    | Some ce =>
      '(ok, s) ← modify_jetty_mgr_to_invalid (ce_jetty ce) v s;
      if negb ok then delete_except_loop l v s
      else
        let s := put_client c (set_ce_jetty None ce) s in
        t ← clear_locks c (map_to_list (ce_locks ce)) (sv_locks s);
        s ← clear_objects c (e_now v) (map_to_list (ce_objects ce)) (set_locks t s);
        Some (0, set_except (except_erase c (sv_except s))
                   (set_client_num (sv_client_num s - 1) (set_clients (delete c (sv_clients s)) s)))
    end
  end.

Definition delete_except_client_entry (v : env) (s : server) : option (Z * server) :=
  match sv_except s with
  | [] => Some (status_num DLOCK_SERVER_NO_RESOURCE, s)
  | l => delete_except_loop l v s
  end.

(** [delete_dlock_connection]: deleting a connection twice is a fault. *)
Definition delete_dlock_connection (k : Z) (s : server) : option server :=
  _ ← sv_conns s !! k;
  Some (set_conns (delete k (sv_conns s)) s).

Definition mark_client_exception (c k : Z) (s : server) : option server :=
  let s := match sv_clients s !! c with
           | Some ce => set_except (except_insert c (sv_except s)) (put_client c (set_ce_conn None ce) s)
           | None => s
           end in
  delete_dlock_connection k s.

(** [conn_exception_process]: the peer has closed the connection. *)
Definition conn_exception_process (k : Z) (s : server) : option server :=
  peer ← sv_conns s !! k;
  match peer with
  | Some c => mark_client_exception c k s
  | None => delete_dlock_connection k s
  end.

(** ** Handlers of client messages *)

(** The loop of [get_client_id]. *)
Fixpoint draw_client_id (tries : nat) (rands : list (option Z)) (clients : gmap Z client_entry_s) : Z :=
  match tries, rands with
  | S tries, Some r :: rands =>
    let id := Z.land r CLIENT_ID_MASK in
    if id =? 0 then draw_client_id tries rands clients
    else match clients !! id with
         | Some _ => draw_client_id tries rands clients
         | None => id
         end
  | _, _ => -1
  end.

Definition get_client_id (v : env) (s : server) : Z :=
  if MAX_NUM_CLIENT <? Z.of_nat (size (sv_clients s)) then NO_RESOURCE
  else draw_client_id MAX_TRY_ALLOC_CLIENT_ID_TIME (e_rands v) (sv_clients s).

(** [update_client]: registers the connection and the channel of a client. *)
Definition set_peer (k c : Z) (s : server) : server := set_conns (<[k := Some c]> (sv_conns s)) s.

Definition update_client (c k j : Z) (reinit : bool) (s : server) : Z * server :=
  match sv_clients s !! c with
  | Some ce =>
    let s := if decide (ce_conn ce = Some k) then s
             else put_client c (ClientEntryS (Some k) (Some j) (ce_locks ce) (ce_objects ce) reinit
                                  (ce_updated ce)) (set_peer k c s) in
    (0, set_except (except_erase c (sv_except s)) s)
  | None =>
    if reinit && (sv_recovery s =? 0) then (status_num DLOCK_CLIENT_REMOVED_BY_SERVER, s)
    else (0, put_client c (ClientEntryS (Some k) (Some j) ∅ ∅ reinit false) (set_peer k c s))
  end.

(** [delete_invalid_jetty_mgr]: times are in nanoseconds, the limit in
    microseconds. *)
Fixpoint delete_invalid_loop (now : Z) (q : list (Z * Z)) (s : server) : option server :=
  match q with
  | [] => Some (set_invalid [] s)
  | (j, t) :: q' =>
    if ((now - t) / 1000 <? JETTY_MGR_INVALID_TIMEOUT) &&
       (zlen q <? JETTY_MGR_INVALID_QUEUE_WARNING_SIZE)
    then Some (set_invalid q s)
    else s ← delete_jetty j s; delete_invalid_loop now q' s
  end.

Definition delete_invalid_jetty_mgr (v : env) (s : server) : option server :=
  delete_invalid_loop (e_now v) (sv_invalid s) s.

(** [init_client_primary]: a new channel, [None] when it cannot be set up. *)
Definition init_client_primary (v : env) (s : server) : option (option Z * server) :=
  s ← delete_invalid_jetty_mgr v s;
  if e_jetty v then
    let j := new_ptr (sv_jettys s) in
    Some (Some j, set_jettys (<[j := tt]> (sv_jettys s)) s)
  else Some (None, s).

Definition negotiate_proto_version (min_version : Z) : bool := min_version <=? DLOCK_PROTO_VERSION.

(** [delete iter->second]: the entry and its channel. *)
Definition delete_client_entry (c : Z) (s : server) : option server :=
  match sv_clients s !! c with
  | None => Some s
  | Some ce =>
    s ← match ce_jetty ce with Some j => delete_jetty j s | None => Some s end;
    Some (set_clients (delete c (sv_clients s)) s)
  end.

Section client_messages.
(** [sizeof(struct client_init_req_body)] depends on types of the urma library. *)
Variable DLOCK_CLIENT_INIT_REQ_BODY_LEN : Z.

Definition init_client_do (k : Z) (h : ctl_hdr) (body : option Z) (v : env) (s : server) : result :=
  if check_msg_body_len_invalid h DLOCK_CLIENT_INIT_REQ_BODY_LEN then fails (-1) s
  else
    min_version ← body;
    if negb (negotiate_proto_version min_version)
    then fails (status_num DLOCK_PROTO_VERSION_NEGOTIATION_FAIL) s
    else
      let full := sv_client_num s =? MAX_NUM_CLIENT in
      '(ret, s) ← (if full then delete_except_client_entry v s else Some (-1, s));
      if full && negb (ret =? 0) then fails ret s
      else
        let c := get_client_id v s in
        if c <? 0 then fails (if c =? NO_RESOURCE then status_num DLOCK_SERVER_NO_RESOURCE else ret) s
        else
          '(j, s) ← init_client_primary v s;
          match j with
          | None => fails ret s
          | Some j =>
            let '(ret, s) := update_client c k j false s in
            if negb (ret =? 0) then s ← delete_jetty j s; fails ret s
            else
              '(ret, r, s) ← respond (Some k) (RInit c (sv_state s)) v s;
              if negb (ret =? 0) then s ← delete_client_entry c s; fails ret s
              else Some (0, r, set_client_num (sv_client_num s + 1) s)
          end.

(** The part of [reinit_client_do] that takes the old channel and connection
    from a client that is still known; [inr] jumps to [err2]. *)
Definition reinit_detach (k c : Z) (s : server) : option (server + server) :=
  match sv_clients s !! c with
  | None => Some (inl s)
  | Some ce =>
    if negb (sv_recovery s =? 0) && ce_updated ce then Some (inr s)
    else if sv_client_num s <=? 0 then Some (inr s)
    else
      let s := set_client_num (sv_client_num s - 1) s in
      j ← ce_jetty ce;
      s ← delete_jetty j s;
      let ce := set_ce_jetty None ce in
      match ce_conn ce with
      | Some k' =>
        if k' =? k then Some (inl (put_client c ce s))
        else
          s ← delete_dlock_connection k' s;
          Some (inl (put_client c (set_ce_conn None ce) s))
      | None => Some (inl (put_client c ce s))
      end
  end.

Definition reinit_client_do (k : Z) (h : ctl_hdr) (body : option Z) (v : env) (s : server) : result :=
  if check_msg_body_len_invalid h DLOCK_CLIENT_INIT_REQ_BODY_LEN then fails (-1) s
  else
    min_version ← body;
    if negb (negotiate_proto_version min_version)
    then fails (status_num DLOCK_PROTO_VERSION_NEGOTIATION_FAIL) s
    else
      let c := h_client_id h in
      '(j, s) ← init_client_primary v s;
      match j with
      | None => fails (-1) s
      | Some j =>
        d ← reinit_detach k c s;
        match d with
        | inr s => s ← delete_jetty j s; fails (-1) s
        | inl s =>
          let s := set_client_num (sv_client_num s + 1) s in
          if MAX_NUM_CLIENT <? sv_client_num s then
            s ← delete_jetty j (set_client_num (sv_client_num s - 1) s);
            fails (status_num DLOCK_SERVER_NO_RESOURCE) s
          else
            let '(ret, s) := update_client c k j true s in
            if negb (ret =? 0) then
              s ← delete_jetty j (set_client_num (sv_client_num s - 1) s); fails ret s
            else
              '(ret, r, s) ← respond (Some k) (RInit c (sv_state s)) v s;
              if negb (ret =? 0) then
                s ← delete_jetty j (set_client_num (sv_client_num s - 1) s); fails ret s
              else Some (0, r, s)
        end
      end.
End client_messages.

Definition deinit_client_do (k : Z) (h : ctl_hdr) (v : env) (s : server) : result :=
  if check_msg_body_len_invalid h 0 then fails (-1) s
  else match sv_clients s !! h_client_id h with
  | None => fails (-1) s
  | Some ce =>
    '(ok, s) ← modify_jetty_mgr_to_invalid (ce_jetty ce) v s;
    if negb ok then fails (-1) s
    else
      let s := set_clients (delete (h_client_id h) (sv_clients s)) s in
      if sv_client_num s <=? 0 then fails (-1) s
      else
        let s := set_client_num (sv_client_num s - 1) s in
        '(ret, r, s) ← respond (Some k) RPlain v s;
        if negb (ret =? 0) then fails ret s
        else s ← delete_dlock_connection k s; Some (0, r, s)
  end.

Definition client_heartbeat_do (k : Z) (h : ctl_hdr) (v : env) (s : server) : result :=
  if check_msg_body_len_invalid h 0 then fails (-1) s
  else match sv_clients s !! h_client_id h with
  | None => fails (-1) s
  | Some _ => respond (Some k) RPlain v s
  end.

Definition reinit_client_done (k : Z) (h : ctl_hdr) (v : env) (s : server) : result :=
  match sv_clients s !! h_client_id h with
  | None => fails (-1) s
  | Some ce =>
    if negb (ce_reinit ce) then fails (-1) s
    else
      '(ret, r, s) ← respond (Some k) RPlain v s;
      if negb (ret =? 0) then fails ret s
      else
        let s := put_client (h_client_id h) (set_ce_reinit false ce) s in
        let s := if sv_recovery s =? 0 then s
                 else let s := set_recovery (sv_recovery s - 1) s in
                      if sv_recovery s =? 0 then set_ready s else s in
        Some (0, r, s)
  end.

(** ** The control thread *)

Definition check_control_msg_hdr (h : ctl_hdr) : bool :=
  (h_magic h =? DLOCK_CP_MAGIC_NO) &&
  (match h_type h with
   | CLIENT_INIT_REQUEST | CLIENT_REINIT_REQUEST =>
     (DLOCK_MIN_PROTO_VERSION <=? h_version h) && (DLOCK_FIXED_CTRL_MSG_HDR_LEN <=? h_hdr_len h)
   | _ => (h_version h =? DLOCK_PROTO_VERSION) && (h_hdr_len h =? DLOCK_FIXED_CTRL_MSG_HDR_LEN)
   end) &&
  (h_hdr_len h <=? h_total_len h) && (h_total_len h <=? DLOCK_MAX_CTRL_MSG_SIZE).

(** [get_process_control_msg_range] and [check_msg_type_range]. *)
Definition check_msg_type_range (h : ctl_hdr) (s : server) : bool :=
  let n := control_num (h_type h) in
  match sv_state s with
  | SERVER_WAIT_CLIENT_REINIT => (34 <=? n) && (n <=? 39)
  | SERVER_READY => (12 <=? n) && (n <=? 37)
  end.

(** [check_control_msg_client_id]. *)
Definition check_control_msg_client_id (h : ctl_hdr) (peer : option Z) : bool :=
  match peer with None => true | Some c => h_client_id h =? c end.

(** The views of the body that the handlers cast it to.  A header without a
    body leaves the pointer null. *)
Definition as_init (b : option ctl_body) : option Z := match b with Some (BInit m) => Some m | _ => None end.
Definition as_get_lock (b : option ctl_body) : option get_lock_body :=
  match b with Some (BGetLock x) => Some x | _ => None end.
Definition as_release (b : option ctl_body) : option Z := match b with Some (BReleaseLock x) => Some x | _ => None end.
Definition as_batch_get (b : option ctl_body) : option (Z * list get_lock_body) :=
  match b with Some (BBatchGet n l) => Some (n, l) | _ => None end.
Definition as_batch_release (b : option ctl_body) : option (Z * list Z) :=
  match b with Some (BBatchRelease n l) => Some (n, l) | _ => None end.
Definition as_update (b : option ctl_body) : option (Z * list update_lock_body) :=
  match b with Some (BUpdate n l) => Some (n, l) | _ => None end.
Definition as_create (b : option ctl_body) : option object_create_body :=
  match b with Some (BCreate x) => Some x | _ => None end.
Definition as_get_object (b : option ctl_body) : option object_get_body :=
  match b with Some (BGetObject x) => Some x | _ => None end.
Definition as_release_object (b : option ctl_body) : option Z :=
  match b with Some (BReleaseObject x) => Some x | _ => None end.
Definition as_destroy (b : option ctl_body) : option Z := match b with Some (BDestroy x) => Some x | _ => None end.

Section control.
Variable init_len : Z.

(** The dispatch table [g_control_do]; other types have no handler. *)
Definition g_control_do (k : Z) (h : ctl_hdr) (b : option ctl_body) (v : env) (s : server) : result :=
  match h_type h with
  | CLIENT_INIT_REQUEST => init_client_do init_len k h (as_init b) v s
  | CLIENT_DEINIT_REQUEST => deinit_client_do k h v s
  | CLIENT_HEARTBEAT_REQUEST => client_heartbeat_do k h v s
  | GET_LOCK_REQUEST => get_lock_do h (as_get_lock b) v s
  | RELEASE_LOCK_REQUEST => release_lock_do h (as_release b) v s
  | BATCH_GET_LOCK_REQUEST => batch_get_lock_do h (as_batch_get b) v s
  | BATCH_RELEASE_LOCK_REQUEST => batch_release_lock_do h (as_batch_release b) v s
  | OBJECT_CREATE_REQUEST => create_object_do h (as_create b) v s
  | OBJECT_GET_REQUEST => get_object_do h (as_get_object b) v s
  | OBJECT_RELEASE_REQUEST => release_object_do h (as_release_object b) v s
  | OBJECT_DESTROY_REQUEST => destroy_object_do h (as_destroy b) v s
  | CLIENT_REINIT_REQUEST => reinit_client_do init_len k h (as_init b) v s
  | CLIENT_REINIT_DONE_REQUEST => reinit_client_done k h v s
  | BATCH_UPDATE_LOCKS_REQUEST => batch_update_locks_do k h (as_update b) v s
  | OTHER_CONTROL_MSG _ => fails (-1) s
  end.

(** [process_control_msg] after the message has been received.  An error is
    answered on the connection of the message ([process_control_msg_err]),
    which changes nothing here. *)
Definition process_control_msg (k : Z) (h : ctl_hdr) (b : option ctl_body) (v : env) (s : server)
  : result :=
  peer ← sv_conns s !! k;
  if negb (check_control_msg_hdr h) then fails (-1) s
  else if negb (check_msg_type_range h s) then fails (-1) s
  else if negb (check_control_msg_client_id h peer) then
    (* [fake_client_msg_process] *)
    s ← match peer with Some c => mark_client_exception c k s | None => Some s end;
    fails (-1) s
  else g_control_do k h b v s.

(** What the control thread sees on its sockets. *)
Inductive control_event :=
| EvAccept (k : Z)
| EvMsg (k : Z) (h : ctl_hdr) (b : option ctl_body) (v : env)
| EvClose (k : Z).

(** [primary_control_func]: events of unknown descriptors are ignored, and so
    is a new socket whose number is still in [m_fd2conn_map]. *)
Definition control_step (ev : control_event) (s : server) : result :=
  match ev with
  | EvAccept k =>
    match sv_conns s !! k with
    | Some _ => fails (-1) s
    | None => Some (0, None, set_conns (<[k := None]> (sv_conns s)) s)
    end
  | EvMsg k h b v =>
    match sv_conns s !! k with
    | Some _ => process_control_msg k h b v s
    | None => fails (-1) s
    end
  | EvClose k =>
    match sv_conns s !! k with
    | Some _ => s ← conn_exception_process k s; fails (-1) s
    | None => fails (-1) s
    end
  end.
End control.

(** A server after [init_as_primary]. *)
Definition server_init (lock_mem : Z) (objects : nat) (recovery : Z) : server :=
  Server (if recovery =? 0 then SERVER_READY else SERVER_WAIT_CLIENT_REINIT) recovery ∅ 0 []
    (LockTable ∅ ∅ ∅ 0 1 (lock_memory_init lock_mem true))
    (ObjectTable ∅ ∅ ∅ 0 1 (object_memory_init objects)) ∅ ∅ [].
