(* ===== verification/DlockControlSafe.v ===== *)
(** * The control plane of the dlock server: its tables stay consistent

    The tables of the server point to one another: the lock map, the
    descriptor map and the maps of the clients to lock entries, whose blocks
    are in the allocator; the same for objects; clients to connections and
    channels.  This file states the consistency of these tables and shows that
    every message and every lost connection keeps it, so that no handler ever
    follows a pointer to something that was deleted. *)

From S2P Require Import Prelude Memory DlockMemory Dlock DlockServer DlockControl.

(** ** New addresses and identifiers *)

Lemma new_ptr_fresh {A} (h : gmap Z A) : h !! new_ptr h = None.
Proof.
  assert (H : forall k x, h !! k = Some x -> k <= map_fold (fun k _ a => Z.max k a) 0 h).
  { intros k x. revert k x. apply (map_fold_weak_ind (fun r m => forall k x, m !! k = Some x -> k <= r)).
    - intros k x Hk. by rewrite lookup_empty in Hk.
    - intros i x m r _ IH k y [[<- _]|[_ Hk]]%lookup_insert_Some; [lia|]. specialize (IH k y Hk). lia. }
  unfold new_ptr. destruct (h !! _) as [x|] eqn:E; [|done]. specialize (H _ _ E). lia.
Qed.

Definition in_int (c : Z) : Prop := - 2 ^ 31 <= c < 2 ^ 31.

Lemma s32_succ c : in_int c -> s32 (c + 1) = if c =? 2 ^ 31 - 1 then - 2 ^ 31 else c + 1.
Proof.
  unfold in_int, s32. intros Hc. destruct (Z.eqb_spec c (2 ^ 31 - 1)) as [->|Hne]; [done|].
  rewrite Z.mod_small by lia. lia.
Qed.

(** The identifiers that are free from [a] on are found within [n] steps when
    fewer than [n] of them are taken. *)
Lemma find_up fuel m c flag (a : Z) :
  1 <= a -> c = a - 1 -> 0 <= c -> a + Z.of_nat fuel <= 2 ^ 31 ->
  (exists r, find_id_loop fuel m c flag = Some (r, r) /\ a <= r < 2 ^ 31 /\ m !! r = None) \/
  (forall i, a <= i < a + Z.of_nat fuel -> is_Some (m !! i)) /\
  (forall k, find_id_loop (fuel + k) m c flag = find_id_loop k m (c + Z.of_nat fuel) flag).
Proof.
  revert c a. induction fuel as [|fuel IH]; intros c a Ha -> Hc Hb.
  { right. split; [intros; lia|]. intros k. by rewrite Z.add_0_r. }
  cbn [find_id_loop Nat.add].
  assert (E : s32 (a - 1 + 1) = a).
  { rewrite s32_succ by (unfold in_int; lia). rewrite (proj2 (Z.eqb_neq _ _)) by lia. lia. }
  rewrite E, (proj2 (Z.leb_gt _ _)) by lia.
  destruct (m !! a) as [p|] eqn:Em; [|left; exists a; split; [done|]; split; [lia|done]].
  destruct (IH a (a + 1)) as [(r & Hr & Hb' & Hm)|[Hall Hk]]; [lia..| |].
  - left. exists r. split; [done|]. split; [lia|done].
  - right. split.
    + intros i Hi. destruct (decide (i = a)) as [->|]; [by eexists|]. apply Hall. lia.
    + intros k. rewrite Hk. f_equal. lia.
Qed.

Lemma keys_bound {A} (m : gmap Z A) (l : list Z) :
  NoDup l -> (forall i, i ∈ l -> is_Some (m !! i)) -> (length l <= size m)%nat.
Proof.
  intros Hn Hl. rewrite <- size_dom, <- (size_list_to_set (C := gset Z) l Hn).
  apply subseteq_size. intros i Hi%elem_of_list_to_set. by apply elem_of_dom, Hl.
Qed.

(** After the overflow of the counter the search starts at 1 again. *)
Lemma find_wrap k m c :
  in_int c -> (c < 0 \/ c = 2 ^ 31 - 1) ->
  find_id_loop (S k) m c false = find_id_loop (S k) m 0 true.
Proof.
  intros Hc Hw. cbn [find_id_loop]. rewrite s32_succ by done.
  assert (E : ((if c =? 2 ^ 31 - 1 then - 2 ^ 31 else c + 1) <=? 0) = true).
  { apply Z.leb_le. destruct (Z.eqb_spec c (2 ^ 31 - 1)); lia. }
  rewrite E. cbn [Z.leb]. change (s32 (0 + 1)) with 1. cbn [Z.leb Z.compare].
  destruct (m !! 1); done.
Qed.

(** From 0 upwards, [n] taken identifiers elsewhere do not matter. *)
Lemma find_from_start fuel m flag :
  (size m < fuel)%nat -> Z.of_nat fuel < 2 ^ 31 ->
  exists r, find_id_loop fuel m 0 flag = Some (r, r) /\ 1 <= r < 2 ^ 31 /\ m !! r = None.
Proof.
  intros Hs Hf. destruct (find_up fuel m 0 flag 1) as [H|[Hall _]]; [lia..|done|].
  exfalso. assert (Hb : (length (seqZ 1 (Z.of_nat fuel)) <= size m)%nat).
  { apply keys_bound; [apply NoDup_seqZ|]. intros i Hi%elem_of_seqZ. apply Hall. lia. }
  rewrite length_seqZ in Hb. lia.
Qed.

Lemma find_id_loop_total m c :
  in_int c -> Z.of_nat (size m) < 2 ^ 31 - 1 ->
  exists r, find_id_loop (S (size m)) m c false = Some (r, r) /\ 1 <= r < 2 ^ 31 /\ m !! r = None.
Proof.
  intros Hc Hs. destruct (Z.lt_ge_cases c 0) as [Hn|Hn].
  { rewrite find_wrap by (auto; lia). apply find_from_start; lia. }
  assert (exists n, Z.of_nat n = 2 ^ 31 - 1 - c) as [n Hn'].
  { exists (Z.to_nat (2 ^ 31 - 1 - c)). unfold in_int in Hc. lia. }
  destruct (decide (S (size m) <= n)%nat) as [Hle|Hgt].
  { destruct (find_up (S (size m)) m c false (c + 1)) as [(r & Hr & Hb & Hm)|[Hall _]]; [lia..| |].
    - exists r. split; [done|]. split; [lia|done].
    - exfalso. assert (Hb : (length (seqZ (c + 1) (Z.of_nat (S (size m)))) <= size m)%nat).
      { apply keys_bound; [apply NoDup_seqZ|]. intros i Hi%elem_of_seqZ. apply Hall. lia. }
      rewrite length_seqZ in Hb. lia. }
  destruct (find_up n m c false (c + 1)) as [(r & Hr & Hb & Hm)|[Hall Hk]]; [lia..| |].
  { exists r. split; [|split; [lia|done]].
    clear -Hr Hgt. revert Hr Hgt. generalize (S (size m)) as k.
    assert (Hmono : forall n k m c flag x, find_id_loop n m c flag = Some x -> (n <= k)%nat ->
      find_id_loop k m c flag = Some x).
    { clear. induction n as [|n IH]; intros k m c flag x Hr Hk; [done|]. destruct k as [|k]; [lia|].
      cbn [find_id_loop] in *.
      repeat case_match; try done; eapply IH; eauto; lia. }
    intros k Hr Hgt. eapply Hmono; [exact Hr|lia]. }
  replace (S (size m)) with (n + S (size m - n))%nat by lia. rewrite Hk.
  rewrite find_wrap by (unfold in_int; lia).
  destruct (find_up (S (size m - n)) m 0 true 1) as [(r & Hr & Hb & Hm)|[Hall2 _]]; [lia..| |].
  { exists r. split; [done|]. split; [lia|done]. }
  exfalso.
  assert (Hb : (length (seqZ (c + 1) (Z.of_nat n) ++ seqZ 1 (Z.of_nat (S (size m - n)))) <= size m)%nat).
  { apply keys_bound.
    - apply NoDup_app. split; [apply NoDup_seqZ|]. split; [|apply NoDup_seqZ].
      intros i H1%elem_of_seqZ H2%elem_of_seqZ. lia.
    - intros i [Hi%elem_of_seqZ|Hi%elem_of_seqZ]%elem_of_app; [apply Hall|apply Hall2]; lia. }
  rewrite length_app, !length_seqZ in Hb. lia.
Qed.

(** The identifier is positive and free. *)
Lemma find_available_id_total m curr id :
  in_int curr -> in_int id -> Z.of_nat (size m) < 2 ^ 31 - 1 ->
  exists r curr', find_available_id m curr id = Some (r, curr') /\ in_int curr' /\
    1 <= r < 2 ^ 31 /\ m !! r = None.
Proof.
  intros Hc Hi Hs. unfold find_available_id.
  destruct ((0 <? id) && bool_decide (m !! id = None)) eqn:E.
  - apply andb_true_iff in E as [E1%Z.ltb_lt E2%bool_decide_eq_true]. unfold in_int in *.
    exists id, curr. split_and!; try done; lia.
  - destruct (find_id_loop_total m curr Hc Hs) as (r & -> & Hr & Hm).
    exists r, r. unfold in_int. split_and!; try done; lia.
Qed.

(** ** Locks *)

Lemma mem_inv_perm size lm out out' :
  mem_inv size (lm, out) -> out ≡ₚ out' -> mem_inv size (lm, out').
Proof.
  intros (? & ? & Ho & Hc) Hp. split_and!; [done..|by rewrite <- Hp|].
  intros x. rewrite <- (Hc x). by rewrite Hp.
Qed.

(** The lock object in a block. *)
Definition cell_at (mem : list Z) (b : Z * dlock_type) (l : lock_cell) : Prop :=
  cell_type l = b.2 /\ cell_wf l /\ read_bytes mem b.1 (cell_size l) = Some (cell_encode l).

Definition zero_cell (ty : dlock_type) : lock_cell :=
  match ty with
  | DLOCK_ATOMIC => LAtomic (AtomicLock 0 0)
  | DLOCK_RW => LRw (RwLock 0 0 0 0)
  | DLOCK_FAIR => LFair (FairLock 0 0 0 0 0 (TBits 0 0 0 0) 0 0)
  end.

Definition cell_decode (ty : dlock_type) (l : list Z) : lock_cell :=
  match ty with
  | DLOCK_ATOMIC => LAtomic (atomic_decode l)
  | DLOCK_RW => LRw (rw_decode l)
  | DLOCK_FAIR => LFair (fair_decode l)
  end.

Lemma cell_decode_encode l : cell_wf l -> cell_decode (cell_type l) (cell_encode l) = l.
Proof.
  destruct l; simpl; intros H; f_equal; [by apply atomic_roundtrip|by apply rw_roundtrip|by apply fair_roundtrip].
Qed.

Lemma cell_at_decode mem b l :
  cell_at mem b l -> cell_decode b.2 (default [] (read_bytes mem b.1 (g_lock_size b.2))) = l.
Proof. intros (<- & Hw & Hr). unfold cell_size in Hr. rewrite Hr. by apply cell_decode_encode. Qed.

Lemma cell_at_inj mem b l l' : cell_at mem b l -> cell_at mem b l' -> l = l'.
Proof. intros H%cell_at_decode H'%cell_at_decode. congruence. Qed.

(** The allocator state is consistent and its blocks hold lock objects. *)
Definition store_inv (size_ : Z) (lm : lock_memory) (out : list (Z * dlock_type)) : Prop :=
  mem_inv size_ (lm, out) /\ Forall (fun b => exists l, cell_at (m_p_lock_memory lm) b l) out.

Lemma store_inv_perm size lm out out' : store_inv size lm out -> out ≡ₚ out' -> store_inv size lm out'.
Proof. intros [H1 H2] Hp. split; [by apply (mem_inv_perm _ _ _ _ H1)|by rewrite <- Hp]. Qed.

(** What a write into one block leaves of the others. *)
Lemma cell_at_frame mem mem' off bs b l :
  write_bytes mem off bs = Some mem' -> b.1 + g_lock_size b.2 <= off \/ off + zlen bs <= b.1 ->
  cell_at mem b l -> cell_at mem' b l.
Proof.
  intros Hw Hd (Ht & Hwf & Hr). split_and!; [done..|].
  rewrite (read_write_disjoint _ _ _ _ _ _ Hw); [done|]. unfold cell_size. rewrite Ht. lia.
Qed.

Lemma cell_at_written mem mem' off l :
  write_bytes mem off (cell_encode l) = Some mem' -> cell_wf l -> cell_at mem' (off, cell_type l) l.
Proof. intros Hw Hwf. split_and!; [done..|]. rewrite <- (cell_encode_len l). by apply (read_write_same mem). Qed.

Lemma zero_cell_wf ty : cell_wf (zero_cell ty).
Proof. destruct ty; simpl; unfold atomic_wf, rw_wf, fair_wf, bits_wf; simpl; wf_auto. Qed.

Lemma get_lock_memory_bytes t lm lm' off :
  get_lock_memory t lm = Some (lm', off) ->
  off = UINT_MAX \/
  write_bytes (m_p_lock_memory lm) off (cell_encode (zero_cell t)) = Some (m_p_lock_memory lm').
Proof.
  unfold get_lock_memory. destruct (negb _); [intros [= _ <-]; by left|].
  destruct (first_fit _ _) as [[o n]|]; [|intros [= _ <-]; by left].
  destruct (memset0 _ _ _) as [bs|] eqn:E; [|done]. intros [= <- <-]. right. cbn [m_p_lock_memory]. rewrite <- E. by destruct t.
Qed.

Lemma get16_byte l i : Forall (fun x => 0 <= x < 256) l -> in_u16 (get16 l i).
Proof.
  intros H. assert (Hn : forall j, 0 <= byte_at l j < 256).
  { intros j. unfold byte_at. destruct (decide (j < length l)%nat) as [Hj|Hj].
    - rewrite Forall_lookup in H. apply (H j). rewrite nth_lookup. destruct (lookup_lt_is_Some_2 l j Hj) as [x Hx]. by rewrite Hx.
    - rewrite nth_overflow by lia. lia. }
  unfold get16. pose proof (Hn i). pose proof (Hn (S i)). lia.
Qed.

Lemma get32_byte l i : Forall (fun x => 0 <= x < 256) l -> in_u32 (get32 l i).
Proof.
  intros H. unfold get32. pose proof (get16_byte l i H). pose proof (get16_byte l (S (S i)) H). lia.
Qed.

Lemma s32_range x : in_s32 (s32 x).
Proof. unfold in_s32, s32. pose proof (Z.mod_pos_bound (x + 2 ^ 31) (2 ^ 32)). lia. Qed.

Lemma state_wf ls :
  Forall (fun x => 0 <= x < 256) ls ->
  atomic_ls_wf (atomic_state_of ls) /\ rw_ls_wf (rw_state_of ls) /\ fair_ls_wf (fairlock_state_of ls).
Proof.
  intros H. pose proof (fun i => get32_byte ls i H) as H32. pose proof (fun i => get16_byte ls i H) as H16.
  unfold atomic_ls_wf, rw_ls_wf, fair_ls_wf, bits_wf. simpl. pose proof (H16 14%nat).
  split_and!; try apply H32; try apply H16; try apply s32_range; try apply Z.mod_pos_bound; lia || zmod.
Qed.

(** Synchronising an object gives an object of the same type. *)
Lemma fair_sync_wf st p : fair_ls_wf st -> fair_wf p -> fair_wf (fairlock_sync_state st p).
Proof.
  unfold fair_wf, fair_ls_wf, bits_wf, fairlock_sync_state, que_later. intros Hs Hp. destruct_and?. cbv zeta.
  repeat case_match; simplify_eq; cbn -[Z.pow]; wf_auto.
Qed.

Definition cell_sync (ls : list Z) (l : lock_cell) : lock_cell :=
  match l with
  | LAtomic p => LAtomic (atomic_sync_state (atomic_state_of ls) p)
  | LRw p => LRw (rwlock_sync_state (rw_state_of ls) p)
  | LFair p => LFair (fairlock_sync_state (fairlock_state_of ls) p)
  end.

Lemma synced_cell ls l :
  Forall (fun x => 0 <= x < 256) ls -> cell_wf l ->
  cell_type (cell_sync ls l) = cell_type l /\ cell_wf (cell_sync ls l) /\
  synced (cell_type l) ls (cell_encode l) = cell_encode (cell_sync ls l).
Proof.
  intros Hls Hwf. destruct (state_wf ls Hls) as (Ha & Hr & Hf). destruct l as [p|p|p]; simpl in *.
  - rewrite (atomic_roundtrip p Hwf). split_and!; [done| |done]. unfold atomic_sync_state. by split_ifs.
  - rewrite (rw_roundtrip p Hwf). split_and!; [done| |done].
    unfold rwlock_sync_state, rw_wf, rw_ls_wf in *. destruct_and?. split_ifs; simpl; wf_auto.
  - rewrite (fair_roundtrip p Hwf). split_and!; [done| |done]. by apply fair_sync_wf.
Qed.

Section store.
Variable size_ : Z.
Hypothesis size_u32 : 0 < size_ < 2 ^ 32 - 1.

(** Writing an object into one block. *)
Lemma store_write lm lm' off ty l out :
  mem_inv size_ (lm', (off, ty) :: out) -> cell_type l = ty -> cell_wf l ->
  write_bytes (m_p_lock_memory lm) off (cell_encode l) = Some (m_p_lock_memory lm') ->
  Forall (fun b => exists l, cell_at (m_p_lock_memory lm) b l) out ->
  store_inv size_ lm' ((off, ty) :: out) /\ cell_at (m_p_lock_memory lm') (off, ty) l /\
  forall b l, b ∈ out -> cell_at (m_p_lock_memory lm) b l -> cell_at (m_p_lock_memory lm') b l.
Proof.
  intros Hmi <- Hwf Hw Hf. pose proof (cell_at_written _ _ _ _ Hw Hwf) as Hc.
  assert (Hfr : forall b l, b ∈ out -> cell_at (m_p_lock_memory lm) b l -> cell_at (m_p_lock_memory lm') b l).
  { intros [o2 t2] l2 [j Hj]%list_elem_of_lookup. apply (cell_at_frame _ _ _ _ _ _ Hw).
    rewrite cell_encode_len. unfold cell_size. simpl.
    destruct (blocks_apart_at _ _ _ 0 (S j) off (cell_type l) o2 t2 Hmi eq_refl Hj ltac:(lia)); lia. }
  split_and!; [|done|done]. split; [done|]. constructor; [by exists l|].
  rewrite Forall_forall in Hf |- *. intros b Hb. destruct (Hf b Hb) as [l2 H2]. exists l2. by apply Hfr.
Qed.

Lemma get_store_spec t lm out :
  store_inv size_ lm out -> m_is_primary lm = true ->
  exists lm' off, get_lock_memory t lm = Some (lm', off) /\ m_is_primary lm' = true /\
  ((off = UINT_MAX /\ lm' = lm) \/
   (0 <= off /\ off + g_lock_size t <= size_ /\ store_inv size_ lm' ((off, t) :: out) /\
    cell_at (m_p_lock_memory lm') (off, t) (zero_cell t) /\
    forall b l, b ∈ out -> cell_at (m_p_lock_memory lm) b l -> cell_at (m_p_lock_memory lm') b l)).
Proof.
  intros [Hmem Hf] Hpr. destruct (get_lock_memory_spec _ size_u32 t _ _ Hmem Hpr) as (lm' & off & E & Hpr' & Hr).
  exists lm', off. split_and!; [done..|]. destruct Hr as [(? & ? & _)|(H0 & Hs & Hmi)]; [by left|right].
  split; [done|]. split; [done|]. destruct (get_lock_memory_bytes _ _ _ _ E) as [-> |Hw].
  { unfold UINT_MAX in Hs. pose proof (g_lock_size_pos t). lia. }
  apply (store_write lm); try done; [by destruct t|apply zero_cell_wf].
Qed.

Lemma release_store_spec off ty lm out :
  store_inv size_ lm ((off, ty) :: out) ->
  store_inv size_ (release_lock_memory off ty lm) out /\
  m_p_lock_memory (release_lock_memory off ty lm) = m_p_lock_memory lm /\
  m_is_primary (release_lock_memory off ty lm) = m_is_primary lm.
Proof.
  intros [Hmem Hf]. apply Forall_cons in Hf as [_ Hf].
  assert (E : m_p_lock_memory (release_lock_memory off ty lm) = m_p_lock_memory lm /\
    m_is_primary (release_lock_memory off ty lm) = m_is_primary lm)
    by (unfold release_lock_memory; cbv zeta; repeat case_match; done).
  split; [|done]. split; [exact (release_lock_memory_spec _ size_u32 0%nat _ _ _ _ Hmem eq_refl)|].
  by rewrite (proj1 E).
Qed.
End store.

Definition entry_block (e : lock_entry_s) : Z * dlock_type := (le_offset e, le_type e).
Definition blocks (t : lock_table) : list (Z * dlock_type) := (fun x => entry_block x.2) <$> map_to_list (lt_heap t).

(** The consistency of the lock tables with the lock maps [lv] of the clients.
    The entry [q], just created, may have no lease yet. *)
Record lock_inv (size_ : Z) (q : option Z) (t : lock_table) (lv : gmap Z (gmap Z Z)) : Prop := {
  li_map : forall id p, lt_map t !! id = Some p -> exists e, lt_heap t !! p = Some e /\ le_id e = id;
  li_heap : forall p e, lt_heap t !! p = Some e ->
    lt_map t !! le_id e = Some p /\ lt_descs t !! le_desc e = Some p /\ 1 <= le_id e < 2 ^ 31 /\
    (q = Some p \/ le_leases e <> ∅);
  li_descs : forall d p, lt_descs t !! d = Some p -> exists e, lt_heap t !! p = Some e /\ le_desc e = d;
  li_num : lt_num t = Z.of_nat (size (lt_map t)) /\ lt_num t <= MAX_NUM_LOCK;
  li_curr : in_int (lt_curr t);
  li_mem : store_inv size_ (lt_memory t) (blocks t) /\ m_is_primary (lt_memory t) = true;
  li_held : forall c l id p, lv !! c = Some l -> l !! id = Some p ->
    exists e, lt_heap t !! p = Some e /\ le_id e = id /\ is_Some (le_leases e !! c)
}.

Section locks.
Variable size_ : Z.
Hypothesis size_u32 : 0 < size_ < 2 ^ 32 - 1.

(** Changing an entry without its identity. *)
Lemma lock_inv_update q q' t lv lv' p e e' :
  lock_inv size_ q t lv -> lt_heap t !! p = Some e ->
  le_id e' = le_id e -> le_desc e' = le_desc e -> entry_block e' = entry_block e ->
  (forall r, q = Some r -> r = p) -> (q' = Some p \/ le_leases e' <> ∅) ->
  (forall c l id r, lv' !! c = Some l -> l !! id = Some r ->
    (r = p -> id = le_id e /\ is_Some (le_leases e' !! c)) /\
    (r <> p -> exists l0, lv !! c = Some l0 /\ l0 !! id = Some r)) ->
  lock_inv size_ q' (set_lt_heap (<[p := e']> (lt_heap t)) t) lv'.
Proof.
  intros [Hm Hh Hd Hn Hc Hmem Hl] Hp Hid Hdesc Hblk Hq Hq' Hlv. constructor; simpl.
  - intros id r Hr. destruct (Hm id r Hr) as (e0 & He0 & <-).
    destruct (decide (r = p)) as [->|Hne]; [|exists e0; by rewrite lookup_insert_ne].
    exists e'. rewrite lookup_insert_eq. split; [done|]. by simplify_eq.
  - intros r e0 Hr. apply lookup_insert_Some in Hr as [[<- <-]|[Hne Hr]].
    + destruct (Hh p e Hp) as (H1 & H2 & H3 & _). rewrite Hid, Hdesc. auto.
    + destruct (Hh r e0 Hr) as (H1 & H2 & H3 & [H4|H4]); [by destruct Hne; rewrite (Hq _ H4)|auto].
  - intros d r Hr. destruct (Hd d r Hr) as (e0 & He0 & <-).
    destruct (decide (r = p)) as [->|Hne]; [|exists e0; by rewrite lookup_insert_ne].
    exists e'. rewrite lookup_insert_eq. split; [done|]. by simplify_eq.
  - done.
  - done.
  - split; [|by apply Hmem]. destruct Hmem as [Hmem _]. apply (store_inv_perm _ _ _ _ Hmem).
    unfold blocks. simpl. rewrite <- (insert_delete_id (lt_heap t) p e Hp) at 1.
    rewrite (map_to_list_insert (delete p (lt_heap t)) p e) by apply lookup_delete_eq.
    rewrite <- insert_delete_eq, map_to_list_insert by apply lookup_delete_eq.
    rewrite !fmap_cons. simpl. by rewrite Hblk.
  - intros c l id r Hc' Hr. destruct (Hlv c l id r Hc' Hr) as [H1 H2].
    destruct (decide (r = p)) as [->|Hne].
    + destruct (H1 eq_refl) as [-> H3]. exists e'. rewrite lookup_insert_eq. split_and!; auto.
    + destruct (H2 Hne) as (l0 & Hl0 & Hr0). destruct (Hl c l0 id r Hl0 Hr0) as (e0 & He0 & H3).
      exists e0. by rewrite lookup_insert_ne.
Qed.

(** Blocks of the entries. *)
Lemma blocks_insert t p e :
  lt_heap t !! p = None ->
  blocks (set_lt_heap (<[p := e]> (lt_heap t)) t) ≡ₚ entry_block e :: blocks t.
Proof. intros Hp. unfold blocks. simpl. by rewrite map_to_list_insert. Qed.

Lemma blocks_delete t p e :
  lt_heap t !! p = Some e ->
  blocks t ≡ₚ entry_block e :: blocks (set_lt_heap (delete p (lt_heap t)) t).
Proof.
  intros Hp. unfold blocks. simpl. rewrite <- (insert_delete_id _ _ _ Hp) at 1.
  by rewrite map_to_list_insert by apply lookup_delete_eq.
Qed.

Lemma blocks_heap t t' : lt_heap t = lt_heap t' -> blocks t = blocks t'.
Proof. unfold blocks. by intros ->. Qed.

(** The counter of identifiers and the allocator state play no other role. *)
Lemma lock_inv_curr q t lv curr :
  lock_inv size_ q t lv -> in_int curr -> lock_inv size_ q (set_lt_curr curr t) lv.
Proof. intros [] ?. by constructor. Qed.

Lemma lock_inv_memory q t lv lm :
  lock_inv size_ q t lv -> store_inv size_ lm (blocks t) -> m_is_primary lm = true ->
  lock_inv size_ q (set_lt_memory lm t) lv.
Proof. intros [] ? ?. by constructor. Qed.

(** A new entry in all the tables. *)
Lemma lock_inv_new t lv p id d ty off lm :
  lock_inv size_ None t lv -> lt_heap t !! p = None -> lt_map t !! id = None -> lt_descs t !! d = None ->
  1 <= id < 2 ^ 31 -> lt_num t < MAX_NUM_LOCK ->
  store_inv size_ lm ((off, ty) :: blocks t) -> m_is_primary lm = true ->
  lock_inv size_ (Some p)
    (LockTable (<[p := LockEntryS id ty off d ∅]> (lt_heap t)) (<[id := p]> (lt_map t))
       (<[d := p]> (lt_descs t)) (lt_num t + 1) (lt_curr t) lm) lv.
Proof.
  intros [Hm Hh Hd [Hn Hmax] Hc Hmem Hl] Hp Hid Hdn Hr Hlt Hmi Hpr. constructor; cbn [lt_heap lt_map lt_descs lt_num lt_curr lt_memory].
  - intros i r [[<- <-]|[Hne Hi]]%lookup_insert_Some.
    + eexists. by rewrite lookup_insert_eq.
    + destruct (Hm i r Hi) as (e & He & <-). exists e. rewrite lookup_insert_ne; [done|]. intros ->. congruence.
  - intros r e [[<- <-]|[Hne He]]%lookup_insert_Some; cbn [le_id le_desc le_leases].
    + rewrite !lookup_insert_eq. auto.
    + destruct (Hh r e He) as (H1 & H2 & H3 & [H4|H4]); [done|].
      rewrite !lookup_insert_ne by congruence. auto.
  - intros d' r [[<- <-]|[Hne He]]%lookup_insert_Some.
    + eexists. by rewrite lookup_insert_eq.
    + destruct (Hd d' r He) as (e & He' & <-). exists e. rewrite lookup_insert_ne; [done|]. intros ->. congruence.
  - rewrite map_size_insert_None by done. lia.
  - done.
  - split; [|done]. eapply store_inv_perm; [exact Hmi|]. symmetry.
    exact (blocks_insert t p (LockEntryS id ty off d ∅) Hp).
  - intros c l i r Hcl Hr'. destruct (Hl c l i r Hcl Hr') as (e & He & H1).
    exists e. rewrite lookup_insert_ne; [done|]. intros ->. congruence.
Qed.

Lemma new_lock_entry_ok t lv d ty id :
  lock_inv size_ None t lv -> lt_descs t !! d = None -> in_int id ->
  exists r t', new_lock_entry d ty id t = Some (r, t') /\
  match r with
  | None => lock_inv size_ None t' lv
  | Some (p, i, off) =>
    lock_inv size_ (Some p) t' lv /\ lt_heap t' !! p = Some (LockEntryS i ty off d ∅) /\
    lt_map t !! i = None
  end.
Proof.
  intros Hinv Hd Hid. unfold new_lock_entry. pose proof Hinv as [_ _ _ [Hn Hmax] Hc [Hmem Hpr] _].
  destruct (Z.leb_spec MAX_NUM_LOCK (lt_num t)) as [|Hlt]; [by exists None, t|].
  assert (Hsz : Z.of_nat (size (lt_map t)) < 2 ^ 31 - 1) by (unfold MAX_NUM_LOCK in *; lia).
  destruct (find_available_id_total (lt_map t) (lt_curr t) id Hc Hid Hsz) as (i & curr & -> & Hcur & Hi & Hm).
  cbn [mbind option_bind]. rewrite (proj2 (Z.leb_gt _ _)) by lia.
  pose proof (lock_inv_curr _ _ _ curr Hinv Hcur) as Hinv1.
  destruct (get_store_spec _ size_u32 ty _ _ Hmem Hpr) as (lm & off & E & Hpr' & Hr).
  change (lt_memory (set_lt_curr curr t)) with (lt_memory t). rewrite E. cbn [mbind option_bind].
  destruct Hr as [[-> ->]|(H0 & Hs & Hmi & _)].
  - rewrite Z.eqb_refl. exists None. eexists. split; [done|]. by apply lock_inv_memory.
  - rewrite (proj2 (Z.eqb_neq _ _)) by (unfold UINT_MAX; pose proof (g_lock_size_pos ty); lia).
    eexists (Some (_, _, _)), _. split; [done|]. split_and!; [|apply lookup_insert_eq|done].
    by apply (lock_inv_new _ _ _ _ _ _ _ _ Hinv1); try apply new_ptr_fresh.
Qed.

Lemma lock_inv_weaken q t lv : lock_inv size_ None t lv -> lock_inv size_ q t lv.
Proof.
  intros [Hm Hh Hd Hn Hc Hmem Hl]. constructor; try done.
  intros p e He. destruct (Hh p e He) as (? & ? & ? & [?|?]); [done|]. auto.
Qed.

Lemma lock_inv_settle p e t lv :
  lock_inv size_ (Some p) t lv -> lt_heap t !! p = Some e -> le_leases e <> ∅ -> lock_inv size_ None t lv.
Proof.
  intros [Hm Hh Hd Hn Hc Hmem Hl] Hp Hne. constructor; try done.
  intros r e' He. destruct (Hh r e' He) as (? & ? & ? & [[= ->]|?]); [|by auto].
  simplify_eq. auto.
Qed.

Lemma lock_inv_fewer q t lv lv' :
  lock_inv size_ q t lv ->
  (forall c l' id p, lv' !! c = Some l' -> l' !! id = Some p -> exists l, lv !! c = Some l /\ l !! id = Some p) ->
  lock_inv size_ q t lv'.
Proof.
  intros [Hm Hh Hd Hn Hc Hmem Hl] Hsub. constructor; try done.
  intros c l' id p Hc' Hp. destruct (Hsub c l' id p Hc' Hp) as (l & Hcl & Hp'). by apply (Hl c l).
Qed.

Lemma descriptor_init_ok len buf :
  (len <= MAX_LOCK_DESC_LEN -> len <= zlen buf) -> exists d, descriptor_init len buf = Some d.
Proof.
  intros H. unfold descriptor_init. destruct (Z.ltb_spec MAX_LOCK_DESC_LEN len); [by eexists|].
  rewrite (proj2 (Z.ltb_ge _ _)) by (apply H; lia). by eexists.
Qed.

Lemma get_lock_by_msg_ok t lv b :
  lock_inv size_ None t lv -> in_int (gl_id b) ->
  (gl_desc_len b <= MAX_LOCK_DESC_LEN -> gl_desc_len b <= zlen (gl_desc b)) ->
  exists r b' t', get_lock_by_msg b t = Some (r, b', t') /\
  match r with
  | None => lock_inv size_ None t' lv
  | Some p => lock_inv size_ (Some p) t' lv /\
      exists e, lt_heap t' !! p = Some e /\ le_id e = gl_id b' /\ le_offset e = gl_offset b'
  end.
Proof.
  intros Hinv Hid Hlen. unfold get_lock_by_msg.
  destruct (lock_type_of (gl_type b)) as [ty|]; [|by exists None, b, t].
  destruct (descriptor_init_ok _ _ Hlen) as [d ->]. cbn [mbind option_bind].
  destruct d as [d|]; [|by exists None, b, t].
  destruct (lt_descs t !! d) as [p|] eqn:Ed.
  - destruct (li_descs _ _ _ _ Hinv d p Ed) as (e & He & <-). rewrite He. cbn [mbind option_bind].
    destruct (negb _); [by eexists None, _, _|]. exists (Some p). eexists _, _. split; [done|].
    split; [by apply lock_inv_weaken|]. by exists e.
  - destruct (new_lock_entry_ok t lv d ty (gl_id b) Hinv Ed Hid) as (r & t' & -> & Hr).
    cbn [mbind option_bind]. destruct r as [[[p i] off]|]; [|by eexists None, _, _].
    destruct Hr as (Hinv' & He & _). exists (Some p). eexists _, _. split; [done|]. split; [done|].
    by eexists.
Qed.

(** The client is linked to the lock it asked for. *)
Lemma link_lock_inv t lv c l p e lease :
  lock_inv size_ (Some p) t lv -> lv !! c = Some l -> lt_heap t !! p = Some e ->
  match l !! le_id e with
  | Some _ => lock_inv size_ None t lv
  | None => exists t', add_lease c p lease t = Some t' /\
      lock_inv size_ None t' (<[c := <[le_id e := p]> l]> lv)
  end.
Proof.
  intros Hinv Hc He. destruct (l !! le_id e) as [p'|] eqn:El.
  - destruct (li_held _ _ _ _ Hinv c l _ _ Hc El) as (e' & He' & Hid & Hlease).
    pose proof (li_heap _ _ _ _ Hinv _ _ He) as (H1 & _).
    pose proof (li_heap _ _ _ _ Hinv _ _ He') as (H2 & _). rewrite Hid, H1 in H2. injection H2 as <-.
    simplify_eq. apply (lock_inv_settle _ _ _ _ Hinv He). intros E. rewrite E, lookup_empty in Hlease. by destruct Hlease.
  - unfold add_lease. rewrite He. cbn [mbind option_bind]. eexists. split; [done|].
    apply (lock_inv_update _ _ _ _ _ _ _ _ Hinv He); try done; simpl.
    + by intros r [= ->].
    + right. apply insert_non_empty.
    + intros c' l' id r [[<- <-]|[Hne Hc']]%lookup_insert_Some Hr.
      * apply lookup_insert_Some in Hr as [[<- <-]|[Hne Hr]].
        -- split; [|done]. intros _. split; [done|]. rewrite lookup_insert_eq. by eexists.
        -- split; [|intros _; by exists l]. intros ->.
           destruct (li_held _ _ _ _ Hinv c l _ _ Hc Hr) as (e' & He' & Hid & _). simplify_eq.
      * split; [|intros _; by exists l']. intros ->.
        destruct (li_held _ _ _ _ Hinv c' l' _ _ Hc' Hr) as (e' & He' & Hid & Hls). simplify_eq.
        split; [done|]. by rewrite lookup_insert_ne.
Qed.

Lemma lock_entry_release_ok t lv p e :
  lock_inv size_ (Some p) t lv -> lt_heap t !! p = Some e -> le_leases e = ∅ ->
  exists t', lock_entry_release p (le_id e) t = Some t' /\ lock_inv size_ None t' lv.
Proof.
  intros [Hm Hh Hd [Hn Hmax] Hc [Hmem Hpr] Hl] Hp Hempty.
  destruct (Hh p e Hp) as (H1 & H2 & H3 & _). unfold lock_entry_release. rewrite Hp. cbn [mbind option_bind].
  eexists. split; [done|].
  assert (Hmem' : store_inv size_ (lt_memory t) (entry_block e :: blocks (set_lt_heap (delete p (lt_heap t)) t)))
    by (eapply store_inv_perm; [exact Hmem|by apply blocks_delete]).
  assert (Hoff : (le_offset e =? UINT_MAX) = false).
  { apply Z.eqb_neq. destruct Hmem' as ((_ & _ & Hb & _) & _). apply Forall_cons in Hb as [(? & ? & ?) _].
    unfold UINT_MAX. simpl in *. lia. }
  assert (Hsz : Z.of_nat (size (lt_map t)) = Z.of_nat (size (delete (le_id e) (lt_map t))) + 1).
  { rewrite map_size_delete_Some by (by eexists). pose proof (map_size_non_empty_iff (lt_map t)) as Hne.
    assert (size (lt_map t) <> 0%nat); [|lia]. apply Hne. intros E. by rewrite E, lookup_empty in H1. }
  rewrite Hoff, (proj2 (Z.leb_gt _ _)) by lia.
  constructor; cbn [lt_heap lt_map lt_descs lt_num lt_curr lt_memory].
  - intros i r [Hne Hi]%lookup_delete_Some. destruct (Hm i r Hi) as (e0 & He0 & <-). exists e0.
    rewrite lookup_delete_ne; [done|]. intros ->. simplify_eq.
  - intros r e0 [Hne He0]%lookup_delete_Some. destruct (Hh r e0 He0) as (G1 & G2 & G3 & [[= ->]|G4]); [done|].
    rewrite !lookup_delete_ne by congruence. auto.
  - intros d r [Hne Hi]%lookup_delete_Some. destruct (Hd d r Hi) as (e0 & He0 & <-). exists e0.
    rewrite lookup_delete_ne; [done|]. intros ->. simplify_eq.
  - lia.
  - done.
  - destruct (release_store_spec _ size_u32 _ _ _ _ Hmem') as (? & _ & E). split; [done|]. by rewrite E.
  - intros c l i r Hcl Hr. destruct (Hl c l i r Hcl Hr) as (e0 & He0 & Hid & Hls).
    exists e0. rewrite lookup_delete_ne; [done|]. intros ->. simplify_eq.
    rewrite Hempty, lookup_empty in Hls. by destruct Hls.
Qed.

Lemma drop_lease_ok t lv c l id p :
  lock_inv size_ None t lv -> lv !! c = Some l -> l !! id = Some p ->
  exists t', drop_lease c p id t = Some t' /\ lock_inv size_ None t' (<[c := delete id l]> lv).
Proof.
  intros Hinv Hc Hp. destruct (li_held _ _ _ _ Hinv c l _ _ Hc Hp) as (e & He & <- & Hls).
  unfold drop_lease. rewrite He. cbn [mbind option_bind]. cbv zeta.
  set (e1 := set_leases (delete c (le_leases e)) e).
  assert (Hinv1 : lock_inv size_ (Some p) (set_lt_heap (<[p := e1]> (lt_heap t)) t) (<[c := delete (le_id e) l]> lv)).
  { apply (lock_inv_update _ _ _ _ _ _ _ _ Hinv He); try done; [by left|].
    intros c' l' id r [[<- <-]|[Hne Hc']]%lookup_insert_Some Hr.
    - apply lookup_delete_Some in Hr as [Hne Hr]. split; [|intros _; by exists l]. intros ->.
      destruct (li_held _ _ _ _ Hinv c l _ _ Hc Hr) as (e' & He' & Hid & _). simplify_eq.
    - split; [|intros _; by exists l']. intros ->.
      destruct (li_held _ _ _ _ Hinv c' l' _ _ Hc' Hr) as (e' & He' & Hid & Hls'). simplify_eq.
      split; [done|]. unfold e1. simpl. by rewrite lookup_delete_ne. }
  assert (He1 : lt_heap (set_lt_heap (<[p := e1]> (lt_heap t)) t) !! p = Some e1) by apply lookup_insert_eq.
  case_decide as Hem.
  - apply (lock_entry_release_ok _ _ _ _ Hinv1 He1 Hem).
  - eexists. split; [done|]. by apply (lock_inv_settle _ _ _ _ Hinv1 He1).
Qed.

Lemma clear_locks_ok c ls t lv m :
  lock_inv size_ None t lv -> lv !! c = Some m -> NoDup ls.*1 ->
  (forall id p, (id, p) ∈ ls -> m !! id = Some p) ->
  exists t', clear_locks c ls t = Some t' /\ lock_inv size_ None t' (delete c lv).
Proof.
  revert t lv m. induction ls as [|[id p] ls IH]; intros t lv m Hinv Hc Hnd Hin.
  - exists t. split; [done|]. apply (lock_inv_fewer _ _ _ _ Hinv).
    intros c' l' i q [Hne Hc']%lookup_delete_Some Hq. by exists l'.
  - apply NoDup_cons in Hnd as [Hni Hnd]. pose proof (Hin id p ltac:(left)) as Hp.
    destruct (li_held _ _ _ _ Hinv c m _ _ Hc Hp) as (e & He & <- & _). cbn [clear_locks].
    rewrite He. cbn [mbind option_bind].
    destruct (drop_lease_ok t lv c m (le_id e) p Hinv Hc Hp) as (t1 & -> & Hinv1). cbn [mbind option_bind].
    destruct (IH t1 _ (delete (le_id e) m) Hinv1) as (t' & -> & Hinv'); [apply lookup_insert_eq|done| |].
    + intros i q Hq. rewrite lookup_delete_ne; [apply Hin; by right|]. intros <-. apply Hni.
      apply list_elem_of_fmap. by exists (le_id e, q).
    + exists t'. split; [done|]. by rewrite delete_insert_eq in Hinv'.
Qed.

(** A synchronised lock stays in its block. *)
Lemma sync_lock_state_ok ty off ls lm out :
  store_inv size_ lm out -> (off, ty) ∈ out -> Forall (fun x => 0 <= x < 256) ls ->
  exists lm', sync_lock_state ty off ls lm = Some lm' /\ store_inv size_ lm' out /\
    m_is_primary lm' = m_is_primary lm /\
    forall b l, b ∈ out -> cell_at (m_p_lock_memory lm) b l ->
      cell_at (m_p_lock_memory lm') b l \/ cell_at (m_p_lock_memory lm') b (cell_sync ls l).
Proof.
  intros [Hmi Hf] Hin Hls. pose proof Hmi as (Hz & _ & Hb & _). rewrite Forall_forall in Hb.
  destruct (Hb _ Hin) as (H0 & _ & Hs). simpl in H0, Hs. pose proof Hf as Hf'. rewrite Forall_forall in Hf'.
  destruct (Hf' _ Hin) as (l & Ht & Hwf & Hr). simpl in Ht, Hr. subst ty. unfold sync_lock_state, cell_size in *.
  rewrite Hr. cbn [mbind option_bind]. destruct (synced_cell ls l Hls Hwf) as (Ht' & Hwf' & ->).
  destruct (write_bytes_in (m_p_lock_memory lm) off (cell_encode (cell_sync ls l))) as [bs E]; [lia| |].
  { rewrite cell_encode_len. unfold cell_size. rewrite Ht'. lia. }
  rewrite E. cbn [mbind option_bind]. eexists. split; [done|].
  apply elem_of_Permutation in Hin as [out' Hp].
  destruct (store_write size_ lm (LockMemory bs (m_is_primary lm) (m_free_memory_map lm)) off (cell_type l) (cell_sync ls l) out')
    as (Hst & Hc & Hfr); [|done|done|done| |].
  - apply (mem_inv_perm _ _ out); [|done]. destruct Hmi as (_ & Hfr & Hsp & Hc). split_and!; [|done..].
    simpl. by rewrite (write_bytes_len _ _ _ _ E).
  - rewrite Hp in Hf. by apply Forall_cons in Hf as [_ Hf].
  - split_and!; [|done|].
    + eapply store_inv_perm; [exact Hst|by symmetry].
    + intros b l2. rewrite Hp. intros [-> |Hb2]%elem_of_cons H2; [right|left; by apply Hfr].
      by rewrite (cell_at_inj _ _ _ _ H2 (conj eq_refl (conj Hwf Hr))).
Qed.

Lemma update_lock_by_msg_ok t lv b :
  lock_inv size_ None t lv -> in_int (ul_id b) -> Forall (fun x => 0 <= x < 256) (ul_ls b) ->
  (ul_desc_len b <= MAX_LOCK_DESC_LEN -> ul_desc_len b <= zlen (ul_desc b)) ->
  exists r b' t', update_lock_by_msg b t = Some (r, b', t') /\
  match r with
  | None => lock_inv size_ None t' lv
  | Some p => lock_inv size_ (Some p) t' lv /\
      exists e, lt_heap t' !! p = Some e /\ le_id e = ul_id b' /\ le_offset e = ul_offset b'
  end.
Proof.
  intros Hinv Hid Hls Hlen. unfold update_lock_by_msg.
  destruct (lock_type_of (ul_type b)) as [ty|]; [|by eexists None, _, t].
  destruct (descriptor_init_ok _ _ Hlen) as [d ->]. cbn [mbind option_bind].
  destruct d as [d|]; [|by eexists None, _, t].
  assert (H : exists r t', match lt_descs t !! d with
      | Some p => e ← lt_heap t !! p; Some (Some (p, le_id e, le_offset e), t)
      | None => new_lock_entry d ty (ul_id b) t
      end = Some (r, t') /\
    match r with
    | None => lock_inv size_ None t' lv
    | Some (p, i, off) => lock_inv size_ (Some p) t' lv /\
        exists e, lt_heap t' !! p = Some e /\ le_id e = i /\ le_offset e = off
    end).
  { destruct (lt_descs t !! d) as [p|] eqn:Ed.
    - destruct (li_descs _ _ _ _ Hinv d p Ed) as (e & He & <-). rewrite He. cbn [mbind option_bind].
      eexists _, t. split; [done|]. split; [by apply lock_inv_weaken|]. by exists e.
    - destruct (new_lock_entry_ok t lv d ty (ul_id b) Hinv Ed Hid) as (r & t' & -> & Hr).
      exists r, t'. split; [done|]. destruct r as [[[p i] off]|]; [|done].
      destruct Hr as (Hinv' & He & _). split; [done|]. by eexists. }
  destruct H as (r & t' & -> & Hr). cbn [mbind option_bind].
  destruct r as [[[p i] off]|]; [|by eexists None, _, _].
  destruct Hr as (Hinv' & e & He & <- & <-). rewrite He. cbn [mbind option_bind].
  destruct (li_mem _ _ _ _ Hinv') as [Hmem Hpr].
  destruct (sync_lock_state_ok (le_type e) (le_offset e) (ul_ls b) _ _ Hmem) as (lm & -> & Hmem' & Hpr' & _).
  { apply list_elem_of_fmap. exists (p, e). split; [done|]. by apply elem_of_map_to_list. }
  { done. }
  cbn [mbind option_bind]. exists (Some p). eexists _, _. split; [done|].
  split; [apply lock_inv_memory; [done|done|congruence]|]. by exists e.
Qed.
End locks.
