(* ===== verification/DlockFrame.v ===== *)
(** * The control plane of the dlock server: lock tables as a store of locks

    The lock objects behind the tables of the server ([lock_store]), and what
    the operations on the tables do to them: locks are only deleted
    ([shrinks]), or only created in the unlocked state ([grows]), while the
    states of the others stay. *)

From S2P Require Import Prelude Memory DlockMemory Dlock DlockServer DlockControl DlockControlSafe.

(** ** The store of lock objects *)

Definition lock_bytes (t : lock_table) : list Z := m_p_lock_memory (lt_memory t).

(** The objects of the lock entries, by offset. *)
Definition lock_store (t : lock_table) : gmap Z lock_cell :=
  list_to_map ((fun b => (b.1, cell_decode b.2 (default [] (read_bytes (lock_bytes t) b.1 (g_lock_size b.2))))) <$> blocks t).

(** A lock merged with a state that a client reports after a restart. *)
Definition synced_with (l l' : lock_cell) : Prop := exists ls, l' = cell_sync ls l.

(** ** The store of consistent tables *)

Lemma elem_of_blocks t b : b ∈ blocks t <-> exists p e, lt_heap t !! p = Some e /\ entry_block e = b.
Proof.
  unfold blocks. rewrite list_elem_of_fmap. split.
  - intros ([p e] & -> & H%elem_of_map_to_list). by exists p, e.
  - intros (p & e & H & <-). exists (p, e). split; [done|]. by apply elem_of_map_to_list.
Qed.

Lemma store_keys size lm out : mem_inv size (lm, out) -> NoDup out.*1.
Proof.
  intros Hinv. apply NoDup_alt. intros i j x Hi Hj. rewrite list_lookup_fmap in Hi, Hj.
  apply fmap_Some in Hi as ([o1 t1] & Hi & ->), Hj as ([o2 t2] & Hj & E). simpl in E. subst o2.
  destruct (decide (i = j)) as [->|Hne]; [done|].
  pose proof (g_lock_size_pos t1). pose proof (g_lock_size_pos t2).
  destruct (blocks_apart_at _ _ _ i j o1 t1 o1 t2 Hinv Hi Hj Hne); lia.
Qed.

Section store.
Variable size_ : Z.

Lemma lock_store_spec q t lv off l :
  lock_inv size_ q t lv ->
  lock_store t !! off = Some l <-> (off, cell_type l) ∈ blocks t /\ cell_at (lock_bytes t) (off, cell_type l) l.
Proof.
  intros Hinv. destruct (li_mem _ _ _ _ Hinv) as [[Hmi Hf] _]. unfold lock_store. rewrite Forall_forall in Hf.
  rewrite <- elem_of_list_to_map.
  2: { rewrite <- list_fmap_compose. apply (store_keys _ _ _ Hmi). }
  rewrite list_elem_of_fmap. split.
  - intros ([o ty] & [= -> ->] & Hb). destruct (Hf _ Hb) as [l Hl].
    pose proof (cell_at_decode _ (o, ty) l Hl) as E. cbn [fst snd] in E |- *. unfold lock_bytes. rewrite E.
    pose proof Hl as (Ht & _). simpl in Ht. by rewrite Ht.
  - intros [Hb Hl]. exists (off, cell_type l). by rewrite (cell_at_decode _ (off, cell_type l) l Hl).
Qed.

Lemma lock_store_none q t lv off : lock_inv size_ q t lv -> (forall ty, (off, ty) ∉ blocks t) -> lock_store t !! off = None.
Proof.
  intros Hinv H. destruct (lock_store t !! off) as [l|] eqn:E; [|done].
  apply (lock_store_spec _ _ _ _ _ Hinv) in E as [E _]. by apply H in E.
Qed.

Lemma lock_store_blocks q t lv : lock_inv size_ q t lv -> blocks_of (blocks t) (lock_store t).
Proof.
  intros Hinv off ty. split.
  - intros Hb. destruct (li_mem _ _ _ _ Hinv) as [[_ Hf] _]. rewrite Forall_forall in Hf. destruct (Hf _ Hb) as [l Hl].
    pose proof Hl as (Ht & _). simpl in Ht. subst ty. by rewrite (proj2 (lock_store_spec _ _ _ _ _ Hinv) (conj Hb Hl)).
  - intros (l & E & ->)%fmap_Some. by apply (lock_store_spec _ _ _ _ _ Hinv) in E as [? _].
Qed.

Lemma lock_store_repr q t lv : lock_inv size_ q t lv -> locks_repr size_ (lock_bytes t) (lock_store t).
Proof.
  intros Hinv. pose proof (li_mem _ _ _ _ Hinv) as [[(Hz & _) _] _]. split; [done|].
  intros off l E. by apply (lock_store_spec _ _ _ _ _ Hinv) in E as (_ & _ & H).
Qed.
End store.

(** ** What messages do to the tables of locks *)

Definition same_locks (t t' : lock_table) : Prop :=
  (forall b, b ∈ blocks t' <-> b ∈ blocks t) /\ lock_bytes t' = lock_bytes t.

(** Locks are only deleted, and leases only dropped: those of clients [c] and
    locks [id] with [R c id].  A lock disappears only when every client that
    leased it has dropped its lease. *)
Definition shrinks (R : Z -> Z -> Prop) (t t' : lock_table) : Prop :=
  lock_bytes t' = lock_bytes t /\
  (forall p, lt_heap t !! p = None -> lt_heap t' !! p = None) /\
  forall p e, lt_heap t !! p = Some e ->
    match lt_heap t' !! p with
    | Some e' => le_id e' = le_id e /\ entry_block e' = entry_block e /\
        forall c, is_Some (le_leases e !! c) -> R c (le_id e) \/ is_Some (le_leases e' !! c)
    | None => forall c, is_Some (le_leases e !! c) -> R c (le_id e)
    end.

(** Locks are only created, and their states change only by synchronisation. *)
Definition grows (upd : bool) (t t' : lock_table) : Prop :=
  (forall b, b ∈ blocks t -> b ∈ blocks t') /\
  forall b l', b ∈ blocks t' -> cell_at (lock_bytes t') b l' ->
    exists l, (if upd then rtc synced_with l l' else l = l') /\
      ((b ∈ blocks t /\ cell_at (lock_bytes t) b l) \/ ((forall ty, (b.1, ty) ∉ blocks t) /\ l = zero_cell b.2)).

Lemma shrinks_refl R t : shrinks R t t.
Proof. split_and!; [done..|]. intros p e ->. auto. Qed.

Lemma shrinks_mono (R R' : Z -> Z -> Prop) t t' : (forall c id, R c id -> R' c id) -> shrinks R t t' -> shrinks R' t t'.
Proof.
  intros HR (H1 & H2 & H3). split_and!; [done..|]. intros p e He. specialize (H3 p e He).
  destruct (lt_heap t' !! p) as [e'|]; [|by auto]. destruct H3 as (? & ? & H). split_and!; [done..|].
  intros c Hc. destruct (H c Hc); auto.
Qed.

Lemma shrinks_trans R t1 t2 t3 : shrinks R t1 t2 -> shrinks R t2 t3 -> shrinks R t1 t3.
Proof.
  intros (B1 & N1 & L1) (B2 & N2 & L2). split_and!; [congruence|by auto|]. intros p e He. specialize (L1 p e He).
  destruct (lt_heap t2 !! p) as [e2|] eqn:E2; [|by rewrite (N2 p E2)]. destruct L1 as (Hi & Hb & H1).
  specialize (L2 p e2 E2). destruct (lt_heap t3 !! p) as [e3|].
  - destruct L2 as (Hi' & Hb' & H2). split_and!; [congruence..|]. intros c Hc.
    destruct (H1 c Hc) as [?|Hc2]; [by left|]. rewrite <- Hi. by apply H2.
  - intros c Hc. destruct (H1 c Hc) as [?|Hc2]; [done|]. rewrite <- Hi. by apply L2.
Qed.

Lemma shrinks_blocks R t t' b : shrinks R t t' -> b ∈ blocks t' -> b ∈ blocks t.
Proof.
  intros (_ & H2 & H3). rewrite !elem_of_blocks. intros (p & e' & He' & <-).
  destruct (lt_heap t !! p) as [e|] eqn:E; [|by rewrite (H2 p E) in He'].
  specialize (H3 p e E). rewrite He' in H3. destruct H3 as (_ & Hb & _). by exists p, e.
Qed.

Lemma grows_same upd t t' : same_locks t t' -> grows upd t t'.
Proof.
  intros [Hb E]. split; [intros b; apply Hb|]. intros b l' H1 H2. exists l'. split; [by destruct upd|].
  left. split; [by apply Hb|]. by rewrite <- E.
Qed.
Lemma grows_refl upd t : grows upd t t.
Proof. by apply grows_same. Qed.

Lemma grows_trans upd t1 t2 t3 : grows upd t1 t2 -> grows upd t2 t3 -> grows upd t1 t3.
Proof.
  intros [H1 C1] [H2 C2]. split; [auto|]. intros b l3 Hb Hl.
  destruct (C2 b l3 Hb Hl) as (l2 & Hs2 & [[Hb2 Hl2]|[Hn ->]]).
  - destruct (C1 b l2 Hb2 Hl2) as (l1 & Hs1 & H). exists l1. split; [|done].
    destruct upd; [by transitivity l2|congruence].
  - exists (zero_cell b.2). split; [done|]. right. split; [|done]. intros ty Hin. by apply (Hn ty), H1.
Qed.

Lemma add_lease_same c p lease t t' : add_lease c p lease t = Some t' -> same_locks t t'.
Proof.
  unfold add_lease. destruct (lt_heap t !! p) as [e|] eqn:E; [|done]. intros [= <-]. split; [|done].
  intros b. rewrite !elem_of_blocks. cbn. split.
  - intros (r & x & [[<- <-]|[Hne H]]%lookup_insert_Some & <-); [by exists p, e|by exists r, x].
  - intros (r & x & H & <-). destruct (decide (r = p)) as [->|Hne].
    + eexists p, _. rewrite lookup_insert_eq. split; [done|]. by simplify_eq.
    + exists r, x. by rewrite lookup_insert_ne.
Qed.

Lemma drop_lease_shrinks c p id t t' e :
  lt_heap t !! p = Some e -> drop_lease c p id t = Some t' -> shrinks (fun c' i => c' = c /\ i = le_id e) t t'.
Proof.
  intros E. unfold drop_lease. rewrite E. cbn [mbind option_bind]. cbv zeta.
  set (e1 := set_leases _ e). set (t1 := set_lt_heap _ t).
  assert (E1 : lt_heap t1 !! p = Some e1) by apply lookup_insert_eq.
  assert (Hls : forall c', is_Some (le_leases e !! c') -> c' = c \/ is_Some (le_leases e1 !! c')).
  { intros c' Hc'. destruct (decide (c' = c)) as [->|Hne]; [by left|right]. cbn. by rewrite lookup_delete_ne. }
  assert (H1 : shrinks (fun c' i => c' = c /\ i = le_id e) t t1).
  { split; [done|]. cbn. split; intros r; [|intros x]; intros Hr; destruct (decide (r = p)) as [->|Hne].
    - congruence.
    - by rewrite lookup_insert_ne.
    - rewrite lookup_insert_eq. simplify_eq. split_and!; [done..|]. intros c' [->|?]%Hls; auto.
    - rewrite lookup_insert_ne, Hr by done. auto. }
  case_decide as Hem; [|by intros [= <-]]. intros H2. apply (shrinks_trans _ _ _ _ H1). clearbody t1 e1. clear - E1 Hem H2.
  unfold lock_entry_release in H2. rewrite E1 in H2. cbn [mbind option_bind] in H2. injection H2 as <-. split_and!.
  - unfold lock_bytes. cbn [lt_memory]. destruct (le_offset e1 =? UINT_MAX); [done|].
    unfold release_lock_memory. cbv zeta. repeat case_match; done.
  - intros r Hr. cbn [lt_heap]. destruct (decide (r = p)) as [->|Hne]; [apply lookup_delete_eq|by rewrite lookup_delete_ne].
  - intros r x Hr. cbn [lt_heap]. destruct (decide (r = p)) as [->|Hne]; [|rewrite lookup_delete_ne, Hr by done; auto].
    rewrite lookup_delete_eq. simplify_eq. intros c'. rewrite Hem, lookup_empty. by intros [? ?].
Qed.

Lemma clear_locks_shrinks c l : forall t t', clear_locks c l t = Some t' -> shrinks (fun c' _ => c' = c) t t'.
Proof.
  induction l as [|[id p] l IH]; intros t t'; cbn [clear_locks]; [intros [= <-]; apply shrinks_refl|].
  destruct (lt_heap t !! p) as [e|] eqn:He; [|done]. cbn [mbind option_bind].
  destruct (drop_lease c p (le_id e) t) as [t1|] eqn:E; [|done]. cbn [mbind option_bind]. intros H.
  apply (shrinks_trans _ _ t1); [|by apply IH]. apply (shrinks_mono (fun c' i => c' = c /\ i = le_id e)); [tauto|].
  by apply (drop_lease_shrinks _ _ _ _ _ _ He E).
Qed.

Section grow.
Variable size_ : Z.
Hypothesis size_u32 : 0 < size_ < 2 ^ 32 - 1.

Lemma new_lock_entry_grows upd t lv d ty id r t' :
  lock_inv size_ None t lv -> new_lock_entry d ty id t = Some (r, t') -> grows upd t t'.
Proof.
  intros Hinv. unfold new_lock_entry. pose proof (li_mem _ _ _ _ Hinv) as [Hst Hpr].
  destruct (MAX_NUM_LOCK <=? lt_num t); [intros [= _ <-]; apply grows_refl|].
  destruct (find_available_id _ _ _) as [[i curr]|]; [|done]. cbn [mbind option_bind].
  destruct (i <=? 0); [intros [= _ <-]; by apply grows_same|].
  destruct (get_store_spec size_ size_u32 ty _ _ Hst Hpr) as (lm & off & E & _ & Hr).
  change (lt_memory (set_lt_curr curr t)) with (lt_memory t). rewrite E. cbn [mbind option_bind].
  destruct Hr as [[-> ->]|(H0 & Hs & Hst' & Hz & Hfr)].
  { rewrite Z.eqb_refl. intros [= _ <-]. by apply grows_same. }
  rewrite (proj2 (Z.eqb_neq _ _)) by (unfold UINT_MAX; pose proof (g_lock_size_pos ty); lia).
  intros [= _ <-]. set (p := new_ptr _). set (e := LockEntryS i ty off d ∅).
  assert (Hb : forall b, b ∈ blocks (set_lt_heap (<[p := e]> (lt_heap t)) t) <-> b = (off, ty) \/ b ∈ blocks t).
  { intros b. rewrite (blocks_insert t p e) by apply new_ptr_fresh. apply elem_of_cons. }
  destruct Hst' as [Hmi _]. pose proof (store_keys _ _ _ Hmi) as Hnd. rewrite fmap_cons in Hnd. apply NoDup_cons in Hnd as [Hni _].
  split; [intros b H; apply Hb; by right|]. intros b l' [-> |Hin]%Hb Hl'.
  - exists (zero_cell ty). rewrite (cell_at_inj _ _ _ _ Hl' Hz). split; [by destruct upd|]. right. split; [|done].
    intros ty' H. apply Hni. simpl. apply list_elem_of_fmap. by exists (off, ty').
  - destruct Hst as [_ Hf]. rewrite Forall_forall in Hf. destruct (Hf b Hin) as [l Hl]. exists l.
    rewrite (cell_at_inj _ _ _ _ Hl' (Hfr _ _ Hin Hl)). split; [by destruct upd|]. by left.
Qed.

Lemma get_lock_by_msg_grows upd t lv b r b' t' :
  lock_inv size_ None t lv -> get_lock_by_msg b t = Some (r, b', t') -> grows upd t t'.
Proof.
  intros Hinv. unfold get_lock_by_msg. destruct (lock_type_of _) as [ty|]; [|intros [= _ _ <-]; apply grows_refl].
  destruct (descriptor_init _ _) as [[d|]|]; cbn [mbind option_bind]; [|intros [= _ _ <-]; apply grows_refl|done].
  destruct (lt_descs t !! d) as [p|].
  - destruct (lt_heap t !! p) as [e|]; [|done]. cbn [mbind option_bind].
    destruct (negb _); intros [= _ _ <-]; apply grows_refl.
  - destruct (new_lock_entry d ty (gl_id b) t) as [[[[[p i] off]|] t1]|] eqn:E; [| |done]; cbn [mbind option_bind];
      intros [= _ _ <-]; by apply (new_lock_entry_grows _ _ _ _ _ _ _ _ Hinv E).
Qed.

Lemma sync_grows t lv p e ls lm :
  lock_inv size_ (Some p) t lv -> lt_heap t !! p = Some e -> Forall (fun x => 0 <= x < 256) ls ->
  sync_lock_state (le_type e) (le_offset e) ls (lt_memory t) = Some lm -> grows true t (set_lt_memory lm t).
Proof.
  intros Hinv He Hls Hs. pose proof (li_mem _ _ _ _ Hinv) as [Hst _].
  destruct (sync_lock_state_ok size_ (le_type e) (le_offset e) ls _ _ Hst) as (lm' & Hs' & _ & _ & Hfr); [|done|].
  { apply elem_of_blocks. by exists p, e. }
  rewrite Hs in Hs'. injection Hs' as <-. split; [done|]. intros b l' Hb Hl'.
  destruct Hst as [_ Hf]. rewrite Forall_forall in Hf. destruct (Hf b Hb) as [l Hl]. exists l. split; [|by left].
  destruct (Hfr b l Hb Hl) as [H|H]; rewrite (cell_at_inj _ _ _ _ Hl' H); [done|].
  apply rtc_once. by exists ls.
Qed.

Lemma update_lock_by_msg_grows t lv b r b' t' :
  lock_inv size_ None t lv -> in_int (ul_id b) -> Forall (fun x => 0 <= x < 256) (ul_ls b) ->
  update_lock_by_msg b t = Some (r, b', t') -> grows true t t'.
Proof.
  intros Hinv Hid Hls. unfold update_lock_by_msg. destruct (lock_type_of _) as [ty|]; [|intros [= _ _ <-]; apply grows_refl].
  destruct (descriptor_init _ _) as [[d|]|]; cbn [mbind option_bind]; [|intros [= _ _ <-]; apply grows_refl|done].
  destruct (lt_descs t !! d) as [p|] eqn:Ed.
  - destruct (lt_heap t !! p) as [e|] eqn:He; [|done]. cbn [mbind option_bind]. rewrite He. cbn [mbind option_bind].
    destruct (sync_lock_state _ _ _ _) as [lm|] eqn:Es; [|done]. cbn [mbind option_bind]. intros [= _ _ <-].
    apply (sync_grows _ lv p e (ul_ls b)); try done. by apply lock_inv_weaken.
  - destruct (new_lock_entry_ok size_ size_u32 t lv d ty (ul_id b) Hinv Ed Hid) as (r1 & t1 & E & Hr). rewrite E.
    pose proof (new_lock_entry_grows true _ _ _ _ _ _ _ Hinv E) as Hg. cbn [mbind option_bind].
    destruct r1 as [[[p i] off]|]; [|by intros [= _ _ <-]]. destruct Hr as (Hinv1 & He & _). rewrite He. cbn [mbind option_bind].
    destruct (sync_lock_state _ _ _ _) as [lm|] eqn:Es; [|done]. cbn [mbind option_bind]. intros [= _ _ <-].
    apply (grows_trans _ _ t1); [done|]. by apply (sync_grows _ lv p _ (ul_ls b) _ Hinv1 He).
Qed.
End grow.
