(* ===== verification/DlockObjects.v ===== *)
(** * The control plane of the dlock server: shared objects

    The consistency of the tables of 64-bit objects: the identifier and
    descriptor maps, the cells of the object memory with their free list, and
    the reference counts against the maps of the clients. *)

From S2P Require Import Prelude Memory DlockMemory Dlock DlockControl DlockControlSafe.

(** ** Holders of an object *)

Definition has (id : Z) (l : gmap Z Z) : Z := match l !! id with Some _ => 1 | None => 0 end.

(** The number of clients whose object map has [id]. *)
Definition holders (ov : gmap Z (gmap Z Z)) (id : Z) : Z :=
  map_fold (fun _ l n => has id l + n) 0 ov.

Lemma has_range id l : 0 <= has id l <= 1.
Proof. unfold has. destruct (l !! id); lia. Qed.

Lemma holders_insert ov c l id :
  ov !! c = None -> holders (<[c := l]> ov) id = has id l + holders ov id.
Proof. intros Hc. unfold holders. rewrite map_fold_insert_L; [done| |done]. intros. lia. Qed.

Lemma holders_delete ov c l id :
  ov !! c = Some l -> holders ov id = has id l + holders (delete c ov) id.
Proof.
  intros Hc. rewrite <- (insert_delete_id ov c l Hc) at 1.
  by rewrite holders_insert by apply lookup_delete_eq.
Qed.

Lemma holders_update ov c l l' id :
  ov !! c = Some l -> holders (<[c := l']> ov) id = holders ov id - has id l + has id l'.
Proof.
  intros Hc. rewrite <- insert_delete_eq, holders_insert by apply lookup_delete_eq.
  rewrite (holders_delete ov c l id Hc). lia.
Qed.

Lemma holders_nonneg ov id : 0 <= holders ov id.
Proof.
  unfold holders. apply (map_fold_weak_ind (fun r _ => 0 <= r)); [done|].
  intros. pose proof (has_range id x). lia.
Qed.

Lemma holders_forget ov id id' :
  holders (delete id <$> ov) id' = if decide (id = id') then 0 else holders ov id'.
Proof.
  induction ov as [|c l ov Hc IH] using map_ind.
  - rewrite fmap_empty. by case_decide.
  - rewrite fmap_insert, !holders_insert by (done || by rewrite lookup_fmap, Hc). rewrite IH.
    case_decide as E; unfold has; [subst; by rewrite lookup_delete_eq|by rewrite lookup_delete_ne].
Qed.

Lemma holders_pos ov c l id : ov !! c = Some l -> is_Some (l !! id) -> 0 < holders ov id.
Proof.
  intros Hc [p Hp]. rewrite (holders_delete ov c l id Hc). unfold has. rewrite Hp.
  pose proof (holders_nonneg (delete c ov) id). lia.
Qed.

(** ** The free list of cells *)

(** The list that starts at [n] and is threaded through [ctrl]. *)
Fixpoint chain (ctrl : list Z) (n : Z) (fl : list Z) : Prop :=
  match fl with
  | [] => n = UINT32_MAX
  | x :: fl => n = x /\ exists next, zget ctrl x = Some next /\ chain ctrl next fl
  end.

Lemma chain_zset ctrl ctrl' i v n fl :
  zset ctrl i v = Some ctrl' -> i ∉ fl -> chain ctrl n fl -> chain ctrl' n fl.
Proof.
  intros Hs. revert n. induction fl as [|x fl IH]; intros n Hi; [done|].
  apply not_elem_of_cons in Hi as [Hne Hi]. intros (-> & next & Hx & Hc). split; [done|].
  exists next. split; [by rewrite (zget_zset_ne _ _ _ _ _ Hs)|by apply IH].
Qed.

Definition oe_cell (e : object_entry_s) : Z := oe_offset e / 8.
Definition cells (t : object_table) : list Z := (fun x => oe_cell x.2) <$> map_to_list (ot_heap t).

(** Every cell is either in the free list or belongs to one entry of [used]. *)
Definition cells_inv (total : Z) (m : object_memory) (used : list Z) : Prop :=
  zlen (om_ctrl m) = total /\ zlen (om_addr m) = total /\
  exists fl, chain (om_ctrl m) (om_next_free m) fl /\ NoDup (fl ++ used) /\
    forall x, x ∈ fl ++ used <-> 0 <= x < total.

Lemma cells_inv_perm total m l l' : cells_inv total m l -> l ≡ₚ l' -> cells_inv total m l'.
Proof.
  intros (H1 & H2 & fl & H3 & H4 & H5) Hp. split; [done|]. split; [done|]. exists fl.
  split; [done|]. split; [by rewrite <- Hp|]. intros x. by rewrite <- Hp.
Qed.

Section cells.
Variable total : Z.
Hypothesis total_u32 : 0 <= total < UINT32_MAX.

Lemma alloc_ok m used :
  cells_inv total m used ->
  exists off m', alloc_object_memory m = Some (off, m') /\
  (off = INVALID_OFFSET /\ m' = m /\ (forall x, 0 <= x < total -> x ∈ used) \/
   (exists x, off = x * 8 /\ 0 <= x < total /\ cells_inv total m' (x :: used))).
Proof.
  intros (H1 & H2 & fl & Hc & Hn & Hin). unfold alloc_object_memory.
  destruct fl as [|x fl]; simpl in Hc.
  - rewrite Hc, Z.eqb_refl. eexists _, _. split; [done|]. left. split; [done|]. split; [done|].
    intros x Hx. by apply Hin.
  - destruct Hc as (Ex & next & Hx & Hc). assert (Hr : 0 <= x < total) by (apply Hin; left).
    rewrite Ex, (proj2 (Z.eqb_neq _ _)), Hx by lia. cbn [mbind option_bind].
    eexists _, _. split; [done|]. right. exists x. split; [done|]. split; [done|].
    split; [done|]. split; [done|]. exists fl. split; [done|].
    change (x :: used) with ([x] ++ used).
    assert (Hp : (x :: fl) ++ used ≡ₚ fl ++ [x] ++ used).
    { simpl. by rewrite Permutation_middle. }
    split; [by rewrite <- Hp|]. intros y. by rewrite <- Hp.
Qed.

Lemma free_ok' m x used :
  cells_inv total m (x :: used) -> 0 <= x < total ->
  exists m', free_object_memory (x * 8) m = Some m' /\ cells_inv total m' used.
Proof.
  intros (H1 & H2 & fl & Hc & Hn & Hin) Hx. unfold free_object_memory.
  rewrite (proj2 (Z.leb_gt _ _)) by (unfold INVALID_OFFSET; lia). cbv zeta.
  rewrite Z.div_mul, u32_small by (done || unfold UINT32_MAX in *; lia).
  destruct (zset_in_range (om_ctrl m) x (om_next_free m)) as [ctrl E]; [lia|]. rewrite E. cbn [mbind option_bind].
  eexists. split; [done|].
  assert (Hp : fl ++ x :: used ≡ₚ (x :: fl) ++ used) by (simpl; by rewrite Permutation_middle).
  split; [simpl; by rewrite (zset_len _ _ _ _ E)|]. split; [done|]. exists (x :: fl). split.
  - split; [done|]. exists (om_next_free m). split; [by apply (zget_zset_eq _ _ _ _ E)|].
    apply (chain_zset _ _ _ _ _ _ E); [|done]. rewrite Hp in Hn. simpl in Hn. apply NoDup_cons in Hn as [Hn _].
    intros Hi. apply Hn. apply elem_of_app. by left.
  - split; [by rewrite <- Hp|]. intros y. by rewrite <- Hp.
Qed.

Lemma object_set_ok m x v used :
  cells_inv total m used -> 0 <= x < total ->
  exists m', object_memory_set (x * 8) v m = Some m' /\ cells_inv total m' used.
Proof.
  intros (H1 & H2 & fl & Hc & Hn & Hin) Hx. unfold object_memory_set.
  rewrite (proj2 (Z.leb_gt _ _)) by (unfold INVALID_OFFSET; lia).
  rewrite Z.div_mul, u32_small by (done || unfold UINT32_MAX in *; lia).
  destruct (zset_in_range (om_addr m) x v) as [addr E]; [lia|]. rewrite E. cbn [mbind option_bind].
  eexists. split; [done|]. split; [done|]. split; [simpl; by rewrite (zset_len _ _ _ _ E)|]. by exists fl.
Qed.
End cells.

Lemma init_chain (total k n : nat) :
  (k + n = total)%nat ->
  chain (om_ctrl (object_memory_init total)) (if n is O then UINT32_MAX else Z.of_nat k)
    (Z.of_nat <$> seq k n).
Proof.
  revert k. induction n as [|n IH]; intros k Hk; [done|]. simpl. split; [done|].
  specialize (IH (S k) ltac:(lia)).
  exists (if n is O then UINT32_MAX else Z.of_nat (S k)). split; [|done].
  unfold zget. rewrite (proj2 (Z.leb_le _ _)), Nat2Z.id by lia.
  rewrite list_lookup_fmap, lookup_seq_lt by lia. cbn [fmap option_fmap option_map]. f_equal.
  destruct total as [|total]; [lia|].
  destruct n; [by rewrite (proj2 (Nat.eqb_eq _ _)) by lia|].
  by rewrite (proj2 (Nat.eqb_neq _ _)) by lia.
Qed.

Lemma cells_inv_init (total : nat) :
  (0 < total)%nat -> cells_inv (Z.of_nat total) (object_memory_init total) [].
Proof.
  intros Ht. split; [unfold zlen; simpl; by rewrite length_fmap, length_seq|].
  split; [apply zlen_replicate|]. exists (Z.of_nat <$> seq 0 total).
  split; [destruct total; [lia|]; apply (init_chain (S total) 0 (S total)); lia|].
  rewrite app_nil_r. split.
  - apply NoDup_fmap; [apply _|apply NoDup_seq].
  - intros x. rewrite list_elem_of_fmap. split.
    + intros (y & -> & Hy%elem_of_seq). lia.
    + intros Hx. exists (Z.to_nat x). split; [lia|]. apply elem_of_seq. lia.
Qed.

(** ** The object tables *)

Record obj_inv (total : Z) (t : object_table) (ov : gmap Z (gmap Z Z)) : Prop := {
  oi_map : forall id p, ot_map t !! id = Some p -> exists e, ot_heap t !! p = Some e /\ oe_id e = id;
  oi_heap : forall p e, ot_heap t !! p = Some e ->
    ot_map t !! oe_id e = Some p /\ ot_descs t !! oe_desc e = Some p /\
    oe_offset e = oe_cell e * 8 /\ holders ov (oe_id e) <= oe_refcnt e;
  oi_descs : forall d p, ot_descs t !! d = Some p -> exists e, ot_heap t !! p = Some e /\ oe_desc e = d;
  oi_num : ot_num t = Z.of_nat (size (ot_map t)) /\ ot_num t <= MAX_OBJECT_SIZE;
  oi_curr : in_int (ot_curr t);
  oi_mem : cells_inv total (ot_memory t) (cells t);
  oi_held : forall c l id p, ov !! c = Some l -> l !! id = Some p -> ot_map t !! id = Some p
}.

Section objects.
Variable total : Z.
Hypothesis total_u32 : 0 <= total < UINT32_MAX.

Lemma cells_insert (h : gmap Z object_entry_s) p e (f : object_entry_s -> Z) :
  h !! p = None -> (fun x => f x.2) <$> map_to_list (<[p := e]> h) ≡ₚ f e :: ((fun x => f x.2) <$> map_to_list h).
Proof. intros Hp. by rewrite map_to_list_insert. Qed.

Lemma cells_delete (h : gmap Z object_entry_s) p e (f : object_entry_s -> Z) :
  h !! p = Some e -> (fun x => f x.2) <$> map_to_list h ≡ₚ f e :: ((fun x => f x.2) <$> map_to_list (delete p h)).
Proof.
  intros Hp. rewrite <- (insert_delete_id _ _ _ Hp) at 1.
  by rewrite map_to_list_insert by apply lookup_delete_eq.
Qed.

(** A change of one entry that keeps its identity. *)
Lemma obj_inv_update t ov ov' p e e' :
  obj_inv total t ov -> ot_heap t !! p = Some e ->
  oe_id e' = oe_id e -> oe_desc e' = oe_desc e -> oe_offset e' = oe_offset e ->
  holders ov' (oe_id e) <= oe_refcnt e' ->
  (forall id, id <> oe_id e -> holders ov' id <= holders ov id) ->
  (forall c l id r, ov' !! c = Some l -> l !! id = Some r -> ot_map t !! id = Some r) ->
  obj_inv total (set_ot_heap (<[p := e']> (ot_heap t)) t) ov'.
Proof.
  intros [Hm Hh Hd Hn Hc Hmem Hl] Hp Hid Hdesc Hoff Hrc Hother Hlv. constructor; simpl; try done.
  - intros id r Hr. destruct (Hm id r Hr) as (e0 & He0 & <-).
    destruct (decide (r = p)) as [->|Hne]; [|exists e0; by rewrite lookup_insert_ne].
    exists e'. rewrite lookup_insert_eq. split; [done|]. by simplify_eq.
  - intros r e0 [[<- <-]|[Hne Hr]]%lookup_insert_Some.
    + destruct (Hh p e Hp) as (H1 & H2 & H3 & _). unfold oe_cell in *. by rewrite Hid, Hdesc, Hoff.
    + destruct (Hh r e0 Hr) as (H1 & H2 & H3 & H4). split_and!; try done.
      etrans; [|exact H4]. apply Hother. intros E. rewrite E in H1.
      destruct (Hh p e Hp) as (H5 & _). congruence.
  - intros d r Hr. destruct (Hd d r Hr) as (e0 & He0 & <-).
    destruct (decide (r = p)) as [->|Hne]; [|exists e0; by rewrite lookup_insert_ne].
    exists e'. rewrite lookup_insert_eq. split; [done|]. by simplify_eq.
  - apply (cells_inv_perm _ _ _ _ Hmem). unfold cells. simpl.
    rewrite (cells_delete _ _ _ oe_cell Hp).
    rewrite <- insert_delete_eq, (cells_insert (delete p (ot_heap t))) by apply lookup_delete_eq.
    unfold oe_cell at 1 3. by rewrite Hoff.
Qed.

(** Fewer references in the clients. *)
Lemma obj_inv_fewer t ov ov' :
  obj_inv total t ov -> (forall id, holders ov' id <= holders ov id) ->
  (forall c l id p, ov' !! c = Some l -> l !! id = Some p -> exists c' l', ov !! c' = Some l' /\ l' !! id = Some p) ->
  obj_inv total t ov'.
Proof.
  intros [Hm Hh Hd Hn Hc Hmem Hl] Hle Hsub. constructor; try done.
  - intros p e He. destruct (Hh p e He) as (? & ? & ? & ?). split_and!; try done. etrans; [apply Hle|done].
  - intros c l id p Hc' Hp. destruct (Hsub c l id p Hc' Hp) as (c' & l' & H1 & H2). by apply (Hl c' l').
Qed.

(** The entry of an object leaves all the tables. *)
Lemma obj_inv_destroy t ov p e :
  obj_inv total t ov -> ot_heap t !! p = Some e ->
  0 < ot_num t /\
  exists om, free_object_memory (oe_offset e) (ot_memory t) = Some om /\
  obj_inv total (ObjectTable (delete p (ot_heap t)) (delete (oe_id e) (ot_map t))
     (delete (oe_desc e) (ot_descs t)) (ot_num t - 1) (ot_curr t) om) (delete (oe_id e) <$> ov).
Proof.
  intros [Hm Hh Hd [Hn Hmax] Hc Hmem Hl] Hp. destruct (Hh p e Hp) as (H1 & H2 & H3 & H4).
  assert (Hsz : Z.of_nat (size (ot_map t)) = Z.of_nat (size (delete (oe_id e) (ot_map t))) + 1).
  { rewrite map_size_delete_Some by (by eexists). pose proof (map_size_non_empty_iff (ot_map t)) as Hne.
    assert (size (ot_map t) <> 0%nat); [|lia]. apply Hne. intros E. by rewrite E, lookup_empty in H1. }
  split; [lia|].
  assert (Hmem' : cells_inv total (ot_memory t) (oe_cell e :: ((fun x => oe_cell x.2) <$> map_to_list (delete p (ot_heap t)))))
    by (eapply cells_inv_perm; [exact Hmem|by apply cells_delete]).
  assert (Hcell : 0 <= oe_cell e < total).
  { destruct Hmem' as (_ & _ & fl & _ & _ & Hin). apply Hin. apply elem_of_app. right. left. }
  rewrite H3. destruct (free_ok' _ total_u32 _ _ _ Hmem' Hcell) as (om & -> & Hmem''). exists om. split; [done|].
  constructor; simpl.
  - intros i r [Hne Hi]%lookup_delete_Some. destruct (Hm i r Hi) as (e0 & He0 & <-). exists e0.
    rewrite lookup_delete_ne; [done|]. intros ->. simplify_eq.
  - intros r e0 [Hne He0]%lookup_delete_Some. destruct (Hh r e0 He0) as (G1 & G2 & G3 & G4).
    rewrite !lookup_delete_ne by congruence. split_and!; try done.
    rewrite holders_forget. case_decide; [|done]. pose proof (holders_nonneg ov (oe_id e0)). lia.
  - intros d r [Hne Hi]%lookup_delete_Some. destruct (Hd d r Hi) as (e0 & He0 & <-). exists e0.
    rewrite lookup_delete_ne; [done|]. intros ->. simplify_eq.
  - lia.
  - done.
  - done.
  - intros c l id r Hcl Hr. rewrite lookup_fmap in Hcl. destruct (ov !! c) as [l0|] eqn:Ec; [|done].
    simpl in Hcl. injection Hcl as <-. apply lookup_delete_Some in Hr as [Hne Hr].
    rewrite lookup_delete_ne by done. by apply (Hl c l0).
Qed.

(** A new object, which nobody has got yet. *)
Lemma obj_inv_new t ov p e om :
  obj_inv total t ov -> ot_heap t !! p = None -> ot_map t !! oe_id e = None -> ot_descs t !! oe_desc e = None ->
  oe_offset e = oe_cell e * 8 -> oe_refcnt e = 0 -> ot_num t < MAX_OBJECT_SIZE ->
  cells_inv total om (oe_cell e :: cells t) ->
  obj_inv total (ObjectTable (<[p := e]> (ot_heap t)) (<[oe_id e := p]> (ot_map t))
    (<[oe_desc e := p]> (ot_descs t)) (ot_num t + 1) (ot_curr t) om) ov.
Proof.
  intros [Hm Hh Hd [Hn Hmax] Hc Hmem Hl] Hp Hid Hdn Hoff Hrc Hlt Hom.
  assert (Hnone : holders ov (oe_id e) = 0).
  { apply Z.le_antisymm; [|apply holders_nonneg]. destruct (Z.le_gt_cases (holders ov (oe_id e)) 0) as [|Hpos]; [done|].
    exfalso. assert (H : exists c l, ov !! c = Some l /\ is_Some (l !! oe_id e)); [|destruct H as (c & l & Hcl & [q Hq])].
    { clear -Hpos. induction ov as [|c l ov Hc IH] using map_ind; [done|].
      rewrite holders_insert in Hpos by done. unfold has in Hpos. destruct (l !! oe_id e) as [q|] eqn:E.
      - exists c, l. rewrite lookup_insert_eq, E. by eauto.
      - destruct (IH ltac:(lia)) as (c' & l' & Hc' & Hq). exists c', l'. split; [|done].
        rewrite lookup_insert_ne; [done|]. intros ->. congruence. }
    rewrite (Hl c l _ _ Hcl Hq) in Hid. done. }
  constructor; cbn [ot_heap ot_map ot_descs ot_num ot_curr ot_memory].
  - intros i r [[<- <-]|[Hne Hi]]%lookup_insert_Some; [exists e; by rewrite lookup_insert_eq|].
    destruct (Hm i r Hi) as (e0 & He & <-). exists e0. rewrite lookup_insert_ne; [done|]. intros ->. congruence.
  - intros r e0 [[<- <-]|[Hne He]]%lookup_insert_Some.
    + rewrite !lookup_insert_eq, Hnone, Hrc. done.
    + destruct (Hh r e0 He) as (H1 & H2 & H3 & H4). rewrite !lookup_insert_ne by congruence. done.
  - intros d r [[<- <-]|[Hne Hi]]%lookup_insert_Some; [exists e; by rewrite lookup_insert_eq|].
    destruct (Hd d r Hi) as (e0 & He & <-). exists e0. rewrite lookup_insert_ne; [done|]. intros ->. congruence.
  - rewrite map_size_insert_None by done. lia.
  - done.
  - eapply cells_inv_perm; [exact Hom|]. symmetry. by apply cells_insert.
  - intros c l id r Hcl Hr. pose proof (Hl c l id r Hcl Hr) as H. rewrite lookup_insert_ne; [done|].
    intros <-. congruence.
Qed.

Lemma obj_inv_curr t ov curr : obj_inv total t ov -> in_int curr -> obj_inv total (set_ot_curr curr t) ov.
Proof. intros [] ?. by constructor. Qed.

Lemma create_object_by_msg_ok t ov b c :
  obj_inv total t ov -> in_int (oc_id b) -> ot_num t < MAX_OBJECT_SIZE ->
  (oc_desc_len b <= MAX_LOCK_DESC_LEN -> oc_desc_len b <= zlen (oc_desc b)) ->
  (forall d, descriptor_init (oc_desc_len b) (oc_desc b) = Some (Some d) -> ot_descs t !! d = None) ->
  exists r b' t', create_object_by_msg b c t = Some (r, b', t') /\
  match r with
  | None => obj_inv total t' ov
  | Some p => exists e, ot_heap t' !! p = Some e /\
      forall e', oe_id e' = oe_id e -> oe_desc e' = oe_desc e -> oe_offset e' = oe_offset e -> oe_refcnt e' = oe_refcnt e ->
      obj_inv total (ObjectTable (<[p := e']> (ot_heap t')) (ot_map t') (ot_descs t') (ot_num t' + 1)
                       (ot_curr t') (ot_memory t')) ov
  end.
Proof.
  intros Hinv Hid Hlt Hlen Hnew. unfold create_object_by_msg.
  destruct (descriptor_init_ok _ _ Hlen) as [d E]. rewrite E. cbn [mbind option_bind].
  destruct d as [d|]; [|by exists None, b, t]. specialize (Hnew d E).
  pose proof Hinv as [_ _ _ [Hn Hmax] Hc Hmem _].
  assert (Hsz : Z.of_nat (size (ot_map t)) < 2 ^ 31 - 1) by (unfold MAX_OBJECT_SIZE in *; lia).
  destruct (find_available_id_total (ot_map t) (ot_curr t) (oc_id b) Hc Hid Hsz) as (i & curr & -> & Hcur & Hi & Hm).
  cbn [mbind option_bind]. rewrite (proj2 (Z.leb_gt _ _)) by lia.
  pose proof (obj_inv_curr _ _ curr Hinv Hcur) as Hinv1.
  change (ot_memory (set_ot_curr curr t)) with (ot_memory t).
  destruct (alloc_ok _ total_u32 _ _ Hmem) as (off & om & -> & Hr). cbn [mbind option_bind].
  destruct Hr as [(-> & -> & _)|(x & -> & Hx & Hmem')].
  - rewrite Z.leb_refl. exists None. eexists _, _. split; [done|]. done.
  - rewrite (proj2 (Z.leb_gt _ _)) by (unfold INVALID_OFFSET, UINT32_MAX in *; lia).
    destruct (object_set_ok _ total_u32 _ x (oc_init b) _ Hmem' Hx) as (om' & -> & Hmem''). cbn [mbind option_bind].
    eexists (Some _), _, _. split; [done|]. cbn [ot_heap ot_map ot_descs ot_num ot_curr ot_memory].
    eexists. split; [apply lookup_insert_eq|]. intros e' H1 H2 H3 H4. cbn [oe_id oe_desc oe_offset oe_refcnt] in *.
    rewrite insert_insert_eq, <- H1, <- H2.
    assert (Hcell : oe_cell e' = x) by (unfold oe_cell; rewrite H3; apply Z.div_mul; lia).
    apply (obj_inv_new _ _ _ _ _ Hinv1); try done.
    + apply new_ptr_fresh.
    + by rewrite H1.
    + by rewrite H2.
    + by rewrite H3, Hcell.
    + by rewrite Hcell.
Qed.
End objects.
