(* ===== verification/DlockControlInv.v ===== *)
(** * The control plane of the dlock server: every message is safe

    The three groups of tables together ([server_inv]): locks
    ([DlockControlSafe]), objects ([DlockObjects]), and the clients with their
    connections and channels.  A message about locks or objects that a
    registered client sends properly never follows a dangling or null pointer
    and keeps the tables consistent. *)

From S2P Require Import Prelude Memory DlockMemory Dlock DlockControl DlockControlSafe DlockFrame DlockObjects.

(** ** Clients, connections and channels *)

Definition lock_view (cs : gmap Z client_entry_s) : gmap Z (gmap Z Z) := ce_locks <$> cs.
Definition obj_view (cs : gmap Z client_entry_s) : gmap Z (gmap Z Z) := ce_objects <$> cs.
Definition link_view (cs : gmap Z client_entry_s) : gmap Z (option Z * option Z) :=
  (fun ce => (ce_conn ce, ce_jetty ce)) <$> cs.

Lemma view_put {B} (f : client_entry_s -> B) (cs : gmap Z client_entry_s) c ce ce' :
  cs !! c = Some ce -> f ce' = f ce -> f <$> <[c := ce']> cs = f <$> cs.
Proof.
  intros Hc Hf. rewrite fmap_insert, Hf. apply insert_id. by rewrite lookup_fmap, Hc.
Qed.

(** Each client has its own channel; a client with a connection is the peer
    of that connection and of no other; the clients without one are the
    exception set; every channel belongs to a client or waits for deletion,
    once. *)
Record link_inv (lk : gmap Z (option Z * option Z)) (conns : gmap Z (option Z)) (jettys : gmap Z unit)
    (q : list (Z * Z)) (exc : list Z) (num : Z) : Prop := {
  ki_conn : forall c k j, lk !! c = Some (Some k, j) -> conns !! k = Some (Some c);
  ki_peer : forall k c, conns !! k = Some (Some c) -> lk !! c = None \/ exists j, lk !! c = Some (Some k, j);
  ki_except : forall c, c ∈ exc <-> exists j, lk !! c = Some (None, j);
  ki_jetty : forall c ko jo, lk !! c = Some (ko, jo) ->
    exists j, jo = Some j /\ is_Some (jettys !! j) /\ j ∉ q.*1;
  ki_inj : forall c1 c2 k1 k2 j, lk !! c1 = Some (k1, Some j) -> lk !! c2 = Some (k2, Some j) -> c1 = c2;
  ki_queue : NoDup q.*1 /\ forall j, j ∈ q.*1 -> is_Some (jettys !! j);
  ki_owned : forall j, is_Some (jettys !! j) -> j ∈ q.*1 \/ exists c k, lk !! c = Some (k, Some j);
  ki_num : num = Z.of_nat (size lk) /\ num <= MAX_NUM_CLIENT
}.

Definition server_link_inv (s : server) : Prop :=
  link_inv (link_view (sv_clients s)) (sv_conns s) (sv_jettys s) (sv_invalid s) (sv_except s) (sv_client_num s).

Lemma elem_of_except_insert c d l : d ∈ except_insert c l <-> d = c \/ d ∈ l.
Proof.
  induction l as [|x l IH]; cbn [except_insert].
  - rewrite list_elem_of_singleton, elem_of_nil. tauto.
  - destruct (Z.ltb_spec c x); [by rewrite elem_of_cons|]. destruct (Z.eqb_spec c x) as [->|]; rewrite !elem_of_cons.
    + tauto.
    + rewrite IH. tauto.
Qed.

Lemma elem_of_except_erase c d l : d ∈ except_erase c l <-> d <> c /\ d ∈ l.
Proof. unfold except_erase. rewrite list_elem_of_filter. tauto. Qed.

(** A client leaves; its channel waits for deletion. *)
Lemma link_inv_remove lk conns jettys q exc exc' num c ko j t :
  link_inv lk conns jettys q exc num -> lk !! c = Some (ko, Some j) ->
  (forall d, d ∈ exc' <-> d <> c /\ d ∈ exc) ->
  link_inv (delete c lk) conns jettys (q ++ [(j, t)]) exc' (num - 1).
Proof.
  intros [Hco Hpe Hex Hj Hinj [Hn Hq] Hown [Hnum Hmax]] Hc He. constructor.
  - intros c' k j' [_ H]%lookup_delete_Some. by apply (Hco c' k j').
  - intros k c' H. destruct (decide (c' = c)) as [->|Hne]; [left; apply lookup_delete_eq|].
    rewrite lookup_delete_ne by done. by apply Hpe.
  - intros d. rewrite He, Hex. split.
    + intros [Hne [j' H]]. exists j'. by rewrite lookup_delete_ne.
    + intros [j' [Hne H]%lookup_delete_Some]. split; [done|]. by exists j'.
  - intros c' ko' jo [Hne H]%lookup_delete_Some. destruct (Hj c' ko' jo H) as (j' & -> & H1 & H2).
    exists j'. split; [done|]. split; [done|]. rewrite fmap_app, elem_of_app. simpl. rewrite list_elem_of_singleton.
    intros [?| ->]; [done|]. by destruct Hne; apply (Hinj c c' ko ko' j).
  - intros c1 c2 k1 k2 j' [_ H1]%lookup_delete_Some [_ H2]%lookup_delete_Some. by apply (Hinj c1 c2 k1 k2 j').
  - destruct (Hj c ko _ Hc) as (j' & [= <-] & H1 & H2). rewrite fmap_app. split.
    + apply NoDup_app. split; [done|]. split; [|apply NoDup_singleton].
      intros x Hx ->%list_elem_of_singleton. done.
    + intros x [Hx| ->%list_elem_of_singleton]%elem_of_app; [by apply Hq|done].
  - intros j' Hj'. rewrite fmap_app, elem_of_app. destruct (Hown j' Hj') as [|(c' & k & H)]; [auto|].
    destruct (decide (c' = c)) as [->|Hne]; [|right; exists c', k; by rewrite lookup_delete_ne].
    left. right. simplify_eq. simpl. by apply list_elem_of_singleton.
  - rewrite map_size_delete_Some by (by eexists).
    assert (size lk <> 0%nat); [|lia]. apply map_size_non_empty_iff. intros E. by rewrite E, lookup_empty in Hc.
Qed.

Section server.
Variables (size_ total : Z).
Hypothesis size_u32 : 0 < size_ < 2 ^ 32 - 1.
Hypothesis total_u32 : 0 <= total < UINT32_MAX.

Definition server_inv (s : server) : Prop :=
  lock_inv size_ None (sv_locks s) (lock_view (sv_clients s)) /\
  obj_inv total (sv_objects s) (obj_view (sv_clients s)) /\
  server_link_inv s.

(** The handler gives a result, and the tables are consistent. *)
Definition safe (r : result) : Prop := exists ret rp s', r = Some (ret, rp, s') /\ server_inv s'.

Lemma fails_safe ret s : server_inv s -> safe (fails ret s).
Proof. intros H. by eexists _, _, _. Qed.

(** A client whose requests arrive on its own connection can be answered. *)
Definition linked (c : Z) (s : server) : Prop :=
  forall ce, sv_clients s !! c = Some ce -> exists k, ce_conn ce = Some k /\ is_Some (sv_conns s !! k).

Lemma respond_safe k r v s : server_inv s -> is_Some (sv_conns s !! k) -> safe (respond (Some k) r v s).
Proof.
  intros H [p Hk]. unfold respond. cbn [mbind option_bind]. rewrite Hk. cbn [mbind option_bind].
  destruct (e_send v); by eexists _, _, _.
Qed.

(** ** Messages about locks *)

Lemma link_lock_same c ce id p lease s fr s' : link_lock c ce id p lease s = Some (fr, s') -> same_locks (sv_locks s) (sv_locks s').
Proof.
  unfold link_lock. destruct (ce_locks ce !! id); [by intros [= _ <-]|].
  destruct (add_lease _ _ _ _) as [lt|] eqn:E; [|done]. intros [= _ <-]. by apply (add_lease_same _ _ _ _ _ E).
Qed.

(** After [get_lock_by_msg] the client is linked to the entry [p]. *)
Lemma link_lock_ok s c ce p e lease lt :
  sv_clients s !! c = Some ce -> obj_inv total (sv_objects s) (obj_view (sv_clients s)) -> server_link_inv s ->
  lock_inv size_ (Some p) lt (lock_view (sv_clients s)) -> lt_heap lt !! p = Some e ->
  exists fresh s' ce', link_lock c ce (le_id e) p lease (set_locks lt s) = Some (fresh, s') /\ server_inv s' /\
    sv_clients s' !! c = Some ce' /\ ce_conn ce' = ce_conn ce /\ sv_conns s' = sv_conns s.
Proof.
  intros Hc Ho Hk Hl He. unfold link_lock. change (sv_locks (set_locks lt s)) with lt.
  pose proof (link_lock_inv size_ lt _ c (ce_locks ce) p e lease Hl) as H.
  unfold lock_view in H. rewrite lookup_fmap, Hc in H. specialize (H eq_refl He).
  destruct (ce_locks ce !! le_id e) as [p'|].
  - eexists _, _, ce. split; [done|]. split; [|done]. split; [exact H|]. by split.
  - destruct H as (lt' & -> & Hl'). cbn [mbind option_bind]. eexists _, _, _. split; [done|]. split.
    + split_and!; cbn.
      * rewrite fmap_insert. exact Hl'.
      * unfold obj_view. by rewrite (view_put ce_objects _ c ce).
      * unfold server_link_inv, link_view in *. cbn. by rewrite (view_put _ _ c ce).
    + split; [apply lookup_insert_eq|]. done.
Qed.

Lemma get_lock_do_safe h b v s :
  server_inv s -> linked (h_client_id h) s ->
  (h_total_len h - h_hdr_len h = DLOCK_GET_LOCK_BODY_LEN + zlen (gl_desc b)) ->
  0 <= gl_desc_len b < 2 ^ 32 -> h_total_len h - h_hdr_len h < 2 ^ 16 -> in_int (gl_id b) ->
  safe (get_lock_do h (Some b) v s).
Proof.
  intros Hinv Hlk Hlen Hd Ht Hid. unfold get_lock_do. cbn [mbind option_bind].
  destruct (check_msg_body_len_invalid _ _) eqn:Ech; [by apply fails_safe|].
  destruct (sv_clients s !! h_client_id h) as [ce|] eqn:Ec; [|by apply fails_safe].
  destruct Hinv as (Hl & Ho & Hk).
  destruct (get_lock_by_msg_ok size_ size_u32 (sv_locks s) _ b Hl Hid) as (r & b' & lt & -> & Hr).
  { intros Hle. unfold check_msg_body_len_invalid in Ech. apply negb_false_iff, Z.eqb_eq in Ech.
    unfold DLOCK_GET_LOCK_BODY_LEN, MAX_LOCK_DESC_LEN in *.
    rewrite (u16_small (gl_desc_len b)), u16_small in Ech by lia. lia. }
  cbn [mbind option_bind]. destruct r as [p|]; [|by apply fails_safe].
  destruct Hr as (Hl' & e & He & <- & Hoff). destruct (Hlk ce Ec) as (k & Hck & Hkc).
  destruct (link_lock_ok s _ ce p e (gl_lease b') lt Ec Ho Hk Hl' He) as (fr & s' & ce' & -> & Hinv' & Hc' & _ & Hcn).
  cbn [mbind option_bind]. rewrite Hck. apply respond_safe; [done|by rewrite Hcn].
Qed.

Lemma unlink_lock_ok s c ce id p :
  server_inv s -> sv_clients s !! c = Some ce -> ce_locks ce !! id = Some p ->
  exists s', unlink_lock c ce id p s = Some s' /\ server_inv s' /\
    is_Some (sv_clients s' !! c) /\ sv_conns s' = sv_conns s.
Proof.
  intros (Hl & Ho & Hk) Hc Hp. unfold unlink_lock.
  destruct (drop_lease_ok size_ size_u32 (sv_locks s) _ c (ce_locks ce) id p Hl) as (lt & -> & Hl'); [|done|].
  { unfold lock_view. by rewrite lookup_fmap, Hc. }
  cbn [mbind option_bind]. eexists. split; [done|]. split; [|split; [|done]].
  - split_and!; cbn.
    + unfold lock_view. rewrite fmap_insert. exact Hl'.
    + unfold obj_view. by rewrite (view_put ce_objects _ c ce).
    + unfold server_link_inv, link_view in *. cbn. by rewrite (view_put _ _ c ce).
  - cbn. rewrite lookup_insert_eq. by eexists.
Qed.

Lemma release_lock_do_safe h id v s :
  server_inv s -> linked (h_client_id h) s -> safe (release_lock_do h (Some id) v s).
Proof.
  intros Hinv Hlk. unfold release_lock_do. destruct (check_msg_body_len_invalid _ _); [by apply fails_safe|].
  destruct (sv_clients s !! h_client_id h) as [ce|] eqn:Ec; [|by apply fails_safe]. cbn [mbind option_bind].
  destruct (ce_locks ce !! id) as [p|] eqn:Ep; [|by apply fails_safe].
  destruct (unlink_lock_ok s _ ce id p Hinv Ec Ep) as (s' & -> & Hinv' & _ & Hcn). cbn [mbind option_bind].
  destruct (Hlk ce Ec) as (k & -> & Hkc). apply respond_safe; [done|by rewrite Hcn].
Qed.

(** Entries of a batch that hold the descriptor they declare. *)
Definition get_entry_ok (b : get_lock_body) : Prop :=
  in_int (gl_id b) /\ 0 <= gl_desc_len b <= zlen (gl_desc b).
Definition update_entry_ok (b : update_lock_body) : Prop :=
  in_int (ul_id b) /\ 0 <= ul_desc_len b <= zlen (ul_desc b) /\ Forall (fun x => 0 <= x < 256) (ul_ls b).

Lemma batch_get_loop_ok c body_len l : forall offset n acc s,
  server_inv s -> is_Some (sv_clients s !! c) -> n <= zlen l -> Forall get_entry_ok l ->
  exists r, batch_get_loop c body_len offset n l acc s = Some r /\
  match r with inl (_, s') | inr s' => server_inv s' /\ sv_conns s' = sv_conns s /\ grows false (sv_locks s) (sv_locks s') end.
Proof.
  induction l as [|b l IH]; intros offset n acc s Hinv Hc Hn Hok; cbn [batch_get_loop].
  { rewrite (proj2 (Z.leb_le _ _)) by (unfold zlen in Hn; simpl in Hn; lia). eexists. split; [done|]. simpl. auto using grows_refl. }
  destruct (n <=? 0); [eexists; split; [done|]; simpl; auto using grows_refl|]. cbv zeta.
  apply Forall_cons in Hok as [[Hid Hb] Hok]. rewrite zlen_cons in Hn.
  destruct (body_len <? _); [eexists; split; [done|]; simpl; auto using grows_refl|]. pose proof Hinv as (Hl & Ho & Hk).
  destruct (get_lock_by_msg_ok size_ size_u32 (sv_locks s) _ b Hl Hid) as (r & b' & lt & E & Hr); [lia|].
  rewrite E. pose proof (get_lock_by_msg_grows size_ size_u32 false _ _ _ _ _ _ Hl E) as Hg.
  cbn [mbind option_bind]. destruct r as [p|].
  - destruct Hr as (Hl' & e & He & <- & _). destruct Hc as [ce Hc]. cbn [sv_clients set_locks]. rewrite Hc.
    cbn [mbind option_bind].
    destruct (link_lock_ok s _ ce p e (gl_lease b') lt Hc Ho Hk Hl' He) as (fr & s' & ce' & El & Hinv' & Hc' & _ & Hcn).
    rewrite El. pose proof (grows_trans _ _ _ _ Hg (grows_same _ _ _ (link_lock_same _ _ _ _ _ _ _ _ El))) as Hg'.
    cbn [mbind option_bind].
    destruct (IH (offset + DLOCK_GET_LOCK_BODY_LEN + gl_desc_len b) (n - 1) (acc ++ [b']) s') as (r & Hr & H); [done|by eexists|lia|done|].
    exists r. split; [done|]. destruct r as [[? s2]|s2]; destruct H as (H1 & H2 & H3);
      (split; [done|]; split; [congruence|]; apply (grows_trans _ _ _ _ Hg' H3)).
  - destruct (IH (offset + DLOCK_GET_LOCK_BODY_LEN + gl_desc_len b) (n - 1) (acc ++ [b']) (set_locks lt s))
      as (r & Hr' & H); [by split|done|lia|done|]. exists r. split; [done|].
    destruct r as [[? s2]|s2]; destruct H as (H1 & H2 & H3);
      (split; [done|]; split; [done|]; apply (grows_trans _ _ _ _ Hg H3)).
Qed.

Lemma batch_get_lock_do_safe h n l v s :
  server_inv s -> linked (h_client_id h) s -> n <= zlen l -> Forall get_entry_ok l ->
  safe (batch_get_lock_do h (Some (n, l)) v s).
Proof.
  intros Hinv Hlk Hn Hok. unfold batch_get_lock_do.
  destruct (sv_clients s !! h_client_id h) as [ce|] eqn:Ec; [|by apply fails_safe]. cbn [mbind option_bind].
  destruct (batch_get_loop_ok (h_client_id h) (u16 (h_total_len h - h_hdr_len h)) l
              DLOCK_BATCH_GET_LOCK_BODY_LEN n [] s) as (r & -> & H); [done|by eexists|done|done|].
  cbn [mbind option_bind]. destruct r as [[acc s']|s']; destruct H as (Hinv' & Hcn & _); [|by apply fails_safe].
  destruct (Hlk ce Ec) as (k & -> & Hkc). apply respond_safe; [done|by rewrite Hcn].
Qed.

Lemma batch_release_loop_ok c l : forall n s,
  server_inv s -> is_Some (sv_clients s !! c) -> n <= zlen l ->
  exists s', batch_release_loop c n l s = Some s' /\ server_inv s' /\ sv_conns s' = sv_conns s.
Proof.
  induction l as [|id l IH]; intros n s Hinv Hc Hn; cbn [batch_release_loop].
  { rewrite (proj2 (Z.leb_le _ _)) by (unfold zlen in Hn; simpl in Hn; lia). by eexists. }
  destruct (n <=? 0); [by eexists|]. rewrite zlen_cons in Hn.
  destruct Hc as [ce Hc]. rewrite Hc. cbn [mbind option_bind].
  destruct (ce_locks ce !! id) as [p|] eqn:Ep; [|apply IH; [done|by eexists|lia]].
  destruct (unlink_lock_ok s _ ce id p Hinv Hc Ep) as (s' & -> & Hinv' & Hc' & Hcn). cbn [mbind option_bind].
  rewrite <- Hcn. apply IH; [done|done|lia].
Qed.

Lemma batch_release_lock_do_safe h n l v s :
  server_inv s -> linked (h_client_id h) s -> n <= zlen l ->
  safe (batch_release_lock_do h (Some (n, l)) v s).
Proof.
  intros Hinv Hlk Hn. unfold batch_release_lock_do. destruct (_ <? _); [by apply fails_safe|]. cbn [mbind option_bind].
  destruct (check_msg_body_len_invalid _ _); [by apply fails_safe|].
  destruct (sv_clients s !! h_client_id h) as [ce|] eqn:Ec; [|by apply fails_safe].
  destruct (batch_release_loop_ok (h_client_id h) l n s) as (s' & -> & Hinv' & Hcn); [done|by eexists|done|].
  cbn [mbind option_bind]. destruct (Hlk ce Ec) as (k & -> & Hkc). apply respond_safe; [done|by rewrite Hcn].
Qed.

(** Flags of a client play no role in the tables. *)
Lemma put_client_inv s c ce ce' :
  server_inv s -> sv_clients s !! c = Some ce -> ce_locks ce' = ce_locks ce -> ce_objects ce' = ce_objects ce ->
  ce_conn ce' = ce_conn ce -> ce_jetty ce' = ce_jetty ce -> server_inv (put_client c ce' s).
Proof.
  intros (Hl & Ho & Hk) Hc H1 H2 H3 H4. unfold server_inv, server_link_inv, lock_view, obj_view, link_view in *. cbn.
  rewrite !(view_put _ _ c ce) by (done || congruence). done.
Qed.

Lemma batch_update_loop_ok c body_len l : forall offset n acc s,
  server_inv s -> is_Some (sv_clients s !! c) -> n <= zlen l -> Forall update_entry_ok l ->
  exists acc' s', batch_update_loop c body_len offset n l acc s = Some (acc', s') /\
    server_inv s' /\ sv_conns s' = sv_conns s /\ grows true (sv_locks s) (sv_locks s').
Proof.
  induction l as [|b l IH]; intros offset n acc s Hinv Hc Hn Hok; cbn [batch_update_loop].
  { rewrite (proj2 (Z.leb_le _ _)) by (unfold zlen in Hn; simpl in Hn; lia). eexists _, _. split; [done|]. auto using grows_refl. }
  destruct (n <=? 0); [eexists _, _; split; [done|]; auto using grows_refl|]. cbv zeta.
  apply Forall_cons in Hok as [(Hid & Hb & Hls) Hok]. rewrite zlen_cons in Hn.
  destruct (body_len <? _); [eexists _, _; split; [done|]; auto using grows_refl|]. pose proof Hinv as (Hl & Ho & Hk).
  destruct (update_lock_by_msg_ok size_ size_u32 (sv_locks s) _ b Hl Hid Hls) as (r & b' & lt & E & Hr); [lia|].
  rewrite E. pose proof (update_lock_by_msg_grows size_ size_u32 _ _ _ _ _ _ Hl Hid Hls E) as Hg.
  cbn [mbind option_bind]. destruct r as [p|].
  - destruct Hr as (Hl' & e & He & <- & _). destruct Hc as [ce Hc]. cbn [sv_clients set_locks]. rewrite Hc.
    cbn [mbind option_bind].
    destruct (link_lock_ok s _ ce p e (ul_lease b') lt Hc Ho Hk Hl' He) as (fr & s' & ce' & El & Hinv' & Hc' & _ & Hcn).
    rewrite El. pose proof (grows_trans _ _ _ _ Hg (grows_same _ _ _ (link_lock_same _ _ _ _ _ _ _ _ El))) as Hg'.
    cbn [mbind option_bind]. rewrite Hc'. cbn [mbind option_bind].
    set (s2 := if fr then _ else _).
    assert (Hs2 : server_inv s2 /\ is_Some (sv_clients s2 !! c) /\ sv_conns s2 = sv_conns s /\ sv_locks s2 = sv_locks s').
    { unfold s2. destruct fr; [|split_and!; [done|by eexists|done|done]]. split_and!; [by apply (put_client_inv s' c ce')| |done|done].
      cbn. rewrite lookup_insert_eq. by eexists. }
    destruct Hs2 as (H1 & H2 & H3 & H6).
    destruct (IH (offset + DLOCK_UPDATE_LOCK_BODY_LEN + ul_desc_len b) (n - 1) (acc ++ [b']) s2) as (acc' & sf & Hr & H4 & H5 & H7); [done|done|lia|done|].
    rewrite H6 in H7. exists acc', sf. split_and!; [done|done|congruence|]. apply (grows_trans _ _ _ _ Hg' H7).
  - destruct (IH (offset + DLOCK_UPDATE_LOCK_BODY_LEN + ul_desc_len b) (n - 1) (acc ++ [b']) (set_locks lt s))
      as (acc' & sf & Hr' & H1 & H2 & H3); [by split|done|lia|done|].
    exists acc', sf. split_and!; try done. apply (grows_trans _ _ _ _ Hg H3).
Qed.

Lemma batch_update_locks_do_safe k h n l v s :
  server_inv s -> is_Some (sv_conns s !! k) -> n <= zlen l -> Forall update_entry_ok l ->
  safe (batch_update_locks_do k h (Some (n, l)) v s).
Proof.
  intros Hinv Hkc Hn Hok. unfold batch_update_locks_do.
  destruct (sv_clients s !! h_client_id h) as [ce|] eqn:Ec; [|by apply fails_safe].
  destruct (negb (ce_reinit ce)); [by apply fails_safe|]. cbn [mbind option_bind].
  destruct (batch_update_loop_ok (h_client_id h) (u16 (h_total_len h - h_hdr_len h)) l
              DLOCK_BATCH_UPDATE_LOCK_BODY_LEN n [] s) as (acc & s' & -> & Hinv' & Hcn & _); [done|by eexists|done|done|].
  cbn [mbind option_bind]. apply respond_safe; [done|by rewrite Hcn].
Qed.

(** ** Messages about objects *)

Lemma forget_lock_view id cs : lock_view (forget_object id cs) = lock_view cs.
Proof. unfold lock_view, forget_object. rewrite <- map_fmap_compose. by apply map_fmap_ext. Qed.
Lemma forget_link_view id cs : link_view (forget_object id cs) = link_view cs.
Proof. unfold link_view, forget_object. rewrite <- map_fmap_compose. by apply map_fmap_ext. Qed.
Lemma forget_obj_view id cs : obj_view (forget_object id cs) = delete id <$> obj_view cs.
Proof. unfold obj_view, forget_object. rewrite <- !map_fmap_compose. by apply map_fmap_ext. Qed.

Lemma obj_view_lookup cs c l : obj_view cs !! c = Some l -> exists ce, cs !! c = Some ce /\ ce_objects ce = l.
Proof. unfold obj_view. rewrite lookup_fmap. destruct (cs !! c) as [ce|]; [|done]. intros [= <-]. by exists ce. Qed.

(** The locks and the links are not affected. *)
Definition object_step (s s' : server) : Prop :=
  sv_locks s' = sv_locks s /\ lock_view (sv_clients s') = lock_view (sv_clients s) /\
  link_view (sv_clients s') = link_view (sv_clients s) /\ sv_conns s' = sv_conns s /\
  sv_jettys s' = sv_jettys s /\ sv_invalid s' = sv_invalid s /\ sv_except s' = sv_except s /\
  sv_client_num s' = sv_client_num s.

Lemma object_step_inv s s' :
  server_inv s -> object_step s s' -> obj_inv total (sv_objects s') (obj_view (sv_clients s')) -> server_inv s'.
Proof.
  intros (Hl & _ & Hk) (E1 & E2 & E3 & E4 & E5 & E6 & E7 & E8) Ho.
  unfold server_inv, server_link_inv in *. by rewrite E1, E2, E3, E4, E5, E6, E7, E8.
Qed.

Lemma object_step_trans s1 s2 s3 : object_step s1 s2 -> object_step s2 s3 -> object_step s1 s3.
Proof. unfold object_step. intuition congruence. Qed.

Lemma destroy_ok s p e :
  obj_inv total (sv_objects s) (obj_view (sv_clients s)) -> ot_heap (sv_objects s) !! p = Some e ->
  exists s', destroy_object_entry p s = Some s' /\ object_step s s' /\
    obj_inv total (sv_objects s') (obj_view (sv_clients s')) /\
    sv_clients s' = forget_object (oe_id e) (sv_clients s).
Proof.
  intros Ho He. destruct (obj_inv_destroy total total_u32 _ _ p e Ho He) as (Hpos & om & E & Ho').
  unfold destroy_object_entry. cbv zeta. rewrite (proj2 (Z.leb_gt _ _)) by lia.
  rewrite He. cbn [mbind option_bind]. rewrite E. cbn [mbind option_bind].
  eexists. split; [done|]. split; [|split; [|done]].
  - unfold object_step. cbn. by rewrite forget_lock_view, forget_link_view.
  - cbn. by rewrite forget_obj_view.
Qed.

(** A change of the entry at [p], with the object maps of the clients. *)
Lemma put_object_ok s p e e' cs' :
  obj_inv total (sv_objects s) (obj_view (sv_clients s)) -> ot_heap (sv_objects s) !! p = Some e ->
  oe_id e' = oe_id e -> oe_desc e' = oe_desc e -> oe_offset e' = oe_offset e ->
  holders (obj_view cs') (oe_id e) <= oe_refcnt e' ->
  (forall id, id <> oe_id e -> holders (obj_view cs') id <= holders (obj_view (sv_clients s)) id) ->
  (forall c l id r, obj_view cs' !! c = Some l -> l !! id = Some r -> ot_map (sv_objects s) !! id = Some r) ->
  obj_inv total (sv_objects (put_object p e' s)) (obj_view cs').
Proof. intros. cbn. by eapply obj_inv_update. Qed.

(** The same clients: only fields of the entry change. *)
Lemma put_object_same s p e e' :
  server_inv s -> ot_heap (sv_objects s) !! p = Some e ->
  oe_id e' = oe_id e -> oe_desc e' = oe_desc e -> oe_offset e' = oe_offset e -> oe_refcnt e' = oe_refcnt e ->
  server_inv (put_object p e' s).
Proof.
  intros Hinv He H1 H2 H3 H4. apply (object_step_inv s); [done|done|]. destruct Hinv as (_ & Ho & _).
  apply (put_object_ok s p e); try done.
  - destruct (oi_heap _ _ _ Ho p e He) as (_ & _ & _ & Hr). by rewrite H4.
  - intros c l id r Hc Hr. by apply (oi_held _ _ _ Ho c l).
Qed.

(** A client gives back its reference to [p]. *)
Definition unref_client (c id p : Z) (ce : client_entry_s) (e : object_entry_s) (s : server) : server :=
  put_object p e (put_client c (set_ce_objects (delete id (ce_objects ce)) ce) s).

Lemma unref_ok s c ce id p e :
  obj_inv total (sv_objects s) (obj_view (sv_clients s)) -> sv_clients s !! c = Some ce -> ce_objects ce !! id = Some p ->
  ot_heap (sv_objects s) !! p = Some e ->
  let s' := unref_client c id p ce (unref c e) s in
  oe_id e = id /\ object_step s s' /\ obj_inv total (sv_objects s') (obj_view (sv_clients s')) /\
  ot_heap (sv_objects s') !! p = Some (unref c e).
Proof.
  intros Ho Hc Hp He. assert (Hv : obj_view (sv_clients s) !! c = Some (ce_objects ce)).
  { unfold obj_view. by rewrite lookup_fmap, Hc. }
  assert (Hid : oe_id e = id).
  { destruct (oi_map _ _ _ Ho id p (oi_held _ _ _ Ho c _ id p Hv Hp)) as (e' & He' & <-). by simplify_eq. }
  cbv zeta. split; [done|]. split; [|split; [|apply lookup_insert_eq]].
  - unfold object_step, lock_view, link_view. cbn. by rewrite !(view_put _ _ c ce).
  - change (obj_inv total (sv_objects (put_object p (unref c e) s))
      (obj_view (<[c := set_ce_objects (delete id (ce_objects ce)) ce]> (sv_clients s)))).
    assert (Hv' : obj_view (<[c := set_ce_objects (delete id (ce_objects ce)) ce]> (sv_clients s)) =
      <[c := delete id (ce_objects ce)]> (obj_view (sv_clients s))) by (unfold obj_view; by rewrite fmap_insert).
    rewrite Hv'. destruct (oi_heap _ _ _ Ho p e He) as (_ & _ & _ & Hr).
    apply (obj_inv_update _ _ (obj_view (sv_clients s)) _ p e); try done.
    + rewrite (holders_update _ _ _ _ _ Hv), Hid. unfold has. rewrite lookup_delete_eq, Hp. cbn. rewrite Hid in Hr. lia.
    + intros i Hi. rewrite (holders_update _ _ _ _ _ Hv). unfold has. rewrite lookup_delete_ne by congruence. lia.
    + intros c' l i r [[<- <-]|[Hne Hcl]]%lookup_insert_Some Hr'.
      * apply lookup_delete_Some in Hr' as [_ Hr']. by apply (oi_held _ _ _ Ho c (ce_objects ce)).
      * by apply (oi_held _ _ _ Ho c' l).
Qed.

Lemma release_object_do_safe h id v s :
  server_inv s -> linked (h_client_id h) s -> safe (release_object_do h (Some id) v s).
Proof.
  intros Hinv Hlk. unfold release_object_do. destruct (check_msg_body_len_invalid _ _); [by apply fails_safe|].
  cbv zeta. destruct (sv_clients s !! h_client_id h) as [ce|] eqn:Ec; [|by apply fails_safe]. cbn [mbind option_bind].
  destruct (ce_objects ce !! id) as [p|] eqn:Ep; [|by apply fails_safe].
  pose proof Hinv as (_ & Ho & _).
  assert (Hm : ot_map (sv_objects s) !! id = Some p).
  { apply (oi_held _ _ _ Ho (h_client_id h) (ce_objects ce)); [|done]. unfold obj_view. by rewrite lookup_fmap, Ec. }
  destruct (oi_map _ _ _ Ho id p Hm) as (e & He & Hid). rewrite He. cbn [mbind option_bind].
  destruct (unref_ok s _ ce id p e Ho Ec Ep He) as (_ & Hst & Ho' & He').
  fold (unref_client (h_client_id h) id p ce (unref (h_client_id h) e) s).
  set (s1 := unref_client _ _ _ _ _ _) in *.
  assert (H : exists s2, (if oe_destroyed (unref (h_client_id h) e) &&
      ((oe_refcnt (unref (h_client_id h) e) =? 0) || check_lease_expired (e_now v) (unref (h_client_id h) e))
    then destroy_object_entry p s1 else Some s1) = Some s2 /\ server_inv s2 /\ sv_conns s2 = sv_conns s).
  { destruct (_ && _).
    - destruct (destroy_ok s1 p _ Ho' He') as (s2 & -> & Hst2 & Ho2 & _). exists s2.
      pose proof (object_step_trans _ _ _ Hst Hst2) as Hst3.
      split; [done|]. split; [by apply (object_step_inv s)|apply Hst3].
    - exists s1. split; [done|]. split; [by apply (object_step_inv s)|apply Hst]. }
  destruct H as (s2 & -> & Hinv2 & Hcn). cbn [mbind option_bind].
  destruct (Hlk ce Ec) as (k & -> & Hkc). apply respond_safe; [done|by rewrite Hcn].
Qed.

Lemma destroy_object_do_safe h id v s :
  server_inv s -> linked (h_client_id h) s -> safe (destroy_object_do h (Some id) v s).
Proof.
  intros Hinv Hlk. unfold destroy_object_do. destruct (check_msg_body_len_invalid _ _); [by apply fails_safe|].
  destruct (sv_clients s !! h_client_id h) as [ce|] eqn:Ec; [|by apply fails_safe]. cbn [mbind option_bind].
  destruct (ot_map (sv_objects s) !! id) as [p|] eqn:Ep; [|by apply fails_safe].
  pose proof Hinv as (_ & Ho & _). destruct (oi_map _ _ _ Ho id p Ep) as (e & He & Hid). rewrite He. cbn [mbind option_bind].
  destruct (_ && _); [by apply fails_safe|]. destruct (oe_destroyed e); [by apply fails_safe|]. cbv zeta.
  assert (Hinv1 : server_inv (put_object p (set_destroyed e) s)) by (by apply (put_object_same s p e)).
  set (s1 := put_object _ _ _) in *.
  assert (H : exists s2, (if (oe_refcnt e =? 0) || check_lease_expired (e_now v) e
    then destroy_object_entry p s1 else Some s1) = Some s2 /\ server_inv s2 /\ sv_conns s2 = sv_conns s).
  { destruct (_ || _); [|by exists s1]. pose proof Hinv1 as (_ & Ho1 & _).
    destruct (destroy_ok s1 p (set_destroyed e) Ho1) as (s2 & -> & Hst2 & Ho2 & _); [apply lookup_insert_eq|].
    exists s2. split; [done|]. split; [by apply (object_step_inv s1)|apply Hst2]. }
  destruct H as (s2 & -> & Hinv2 & Hcn). cbn [mbind option_bind].
  destruct (Hlk ce Ec) as (k & -> & Hkc). apply respond_safe; [done|by rewrite Hcn].
Qed.

Lemma get_object_do_safe h b v s :
  server_inv s -> linked (h_client_id h) s ->
  (h_total_len h - h_hdr_len h = DLOCK_OBJECT_GET_BODY_LEN + zlen (og_desc b)) ->
  0 <= og_desc_len b < 2 ^ 32 -> h_total_len h - h_hdr_len h < 2 ^ 16 ->
  safe (get_object_do h (Some b) v s).
Proof.
  intros Hinv Hlk Hlen Hd Ht. unfold get_object_do. cbn [mbind option_bind]. cbv zeta.
  destruct (check_msg_body_len_invalid _ _) eqn:Ech; [by apply fails_safe|].
  destruct (sv_clients s !! h_client_id h) as [ce|] eqn:Ec; [|by apply fails_safe].
  destruct (descriptor_init_ok (og_desc_len b) (og_desc b)) as [d ->].
  { intros Hle. unfold check_msg_body_len_invalid in Ech. apply negb_false_iff, Z.eqb_eq in Ech.
    unfold DLOCK_OBJECT_GET_BODY_LEN, MAX_LOCK_DESC_LEN in *.
    rewrite (u16_small (og_desc_len b)), u16_small in Ech by lia. lia. }
  cbn [mbind option_bind]. destruct d as [d|]; [|by apply fails_safe].
  destruct (ot_descs (sv_objects s) !! d) as [p|] eqn:Ed; [|by apply fails_safe].
  pose proof Hinv as (_ & Ho & _). destruct (oi_descs _ _ _ Ho d p Ed) as (e & He & Hdesc). rewrite He. cbn [mbind option_bind].
  destruct (oe_destroyed e); [by apply fails_safe|]. destruct (oi_heap _ _ _ Ho p e He) as (Hm & _ & _ & Hr).
  assert (Hv : obj_view (sv_clients s) !! h_client_id h = Some (ce_objects ce)).
  { unfold obj_view. by rewrite lookup_fmap, Ec. }
  destruct (Hlk ce Ec) as (k & -> & Hkc). apply respond_safe; [|by case_bool_decide].
  case_bool_decide as Hfirst; [|by apply (put_object_same s p e)].
  apply (object_step_inv s); [done| |].
  { unfold object_step, lock_view, link_view. cbn. by rewrite !(view_put _ _ (h_client_id h) ce). }
  cbn [sv_clients put_object put_client set_objects set_clients sv_objects].
  assert (Hv' : obj_view (<[h_client_id h := set_ce_objects (<[oe_id e := p]> (ce_objects ce)) ce]> (sv_clients s)) =
    <[h_client_id h := <[oe_id e := p]> (ce_objects ce)]> (obj_view (sv_clients s))) by (unfold obj_view; by rewrite fmap_insert).
  rewrite Hv'. apply (obj_inv_update _ _ (obj_view (sv_clients s)) _ p e); try done; cbn.
  - rewrite (holders_update _ _ _ _ _ Hv). unfold has. rewrite lookup_insert_eq, Hfirst. lia.
  - intros i Hi. rewrite (holders_update _ _ _ _ _ Hv). unfold has. rewrite lookup_insert_ne by congruence. lia.
  - intros c' l i r [[<- <-]|[Hne Hcl]]%lookup_insert_Some Hr'.
    + apply lookup_insert_Some in Hr' as [[<- <-]|[_ Hr']]; [done|]. by apply (oi_held _ _ _ Ho (h_client_id h) (ce_objects ce)).
    + by apply (oi_held _ _ _ Ho c' l).
Qed.

Lemma refresh_ok s p e c now lease :
  server_inv s -> ot_heap (sv_objects s) !! p = Some e ->
  exists s', refresh_object_entry p c now lease s = Some s' /\ server_inv s' /\ sv_conns s' = sv_conns s.
Proof.
  intros Hinv He. unfold refresh_object_entry. rewrite He. cbn [mbind option_bind]. cbv zeta.
  eexists. split; [done|]. split; [|done]. pose proof Hinv as (_ & Ho & _).
  apply (object_step_inv s); [done| |].
  - unfold object_step. cbn. by rewrite forget_lock_view, forget_link_view.
  - cbn [sv_clients put_object set_objects set_clients sv_objects]. rewrite forget_obj_view.
    apply (obj_inv_update _ _ (obj_view (sv_clients s)) _ p e); try done; cbn.
    + rewrite holders_forget. by rewrite decide_True.
    + intros i Hi. rewrite holders_forget. by rewrite decide_False.
    + intros c' l i r Hcl Hr. rewrite lookup_fmap in Hcl.
      destruct (obj_view (sv_clients s) !! c') as [l0|] eqn:E0; [|done]. simpl in Hcl. injection Hcl as <-.
      apply lookup_delete_Some in Hr as [_ Hr]. by apply (oi_held _ _ _ Ho c' l0).
Qed.

Lemma create_object_do_safe h b v s :
  server_inv s -> linked (h_client_id h) s ->
  (h_total_len h - h_hdr_len h = DLOCK_OBJECT_CREATE_BODY_LEN + zlen (oc_desc b)) ->
  0 <= oc_desc_len b < 2 ^ 32 -> h_total_len h - h_hdr_len h < 2 ^ 16 -> in_int (oc_id b) ->
  safe (create_object_do h (Some b) v s).
Proof.
  intros Hinv Hlk Hlen Hd Ht Hid. unfold create_object_do. cbn [mbind option_bind]. cbv zeta.
  destruct (check_msg_body_len_invalid _ _) eqn:Ech; [by apply fails_safe|].
  destruct (sv_clients s !! h_client_id h) as [ce|] eqn:Ec; [|by apply fails_safe].
  assert (Hle : oc_desc_len b <= MAX_LOCK_DESC_LEN -> oc_desc_len b <= zlen (oc_desc b)).
  { intros Hle. unfold check_msg_body_len_invalid in Ech. apply negb_false_iff, Z.eqb_eq in Ech.
    unfold DLOCK_OBJECT_CREATE_BODY_LEN, MAX_LOCK_DESC_LEN in *.
    rewrite (u16_small (oc_desc_len b)), u16_small in Ech by lia. lia. }
  destruct (descriptor_init_ok _ _ Hle) as [d Edi]. rewrite Edi. cbn [mbind option_bind].
  destruct d as [d|]; [|by apply fails_safe]. pose proof Hinv as (Hl & Ho & Hk). destruct (Hlk ce Ec) as (k & Hck & Hkc).
  destruct (ot_descs (sv_objects s) !! d) as [p|] eqn:Ed.
  - destruct (oi_descs _ _ _ Ho d p Ed) as (e & He & Hdesc). rewrite He. cbn [mbind option_bind].
    destruct (oe_destroyed e).
    + destruct (_ && _); [by apply fails_safe|].
      destruct (refresh_ok s p e (h_client_id h) (e_now v) (oc_lease b) Hinv He) as (s' & -> & Hinv' & Hcn).
      cbn [mbind option_bind]. rewrite Hck. apply respond_safe; [done|by rewrite Hcn].
    + destruct (_ || _); apply fails_safe; [|done]. by apply (put_object_same s p e).
  - destruct (ot_num (sv_objects s) =? MAX_OBJECT_SIZE) eqn:Emax; [by apply fails_safe|].
    destruct (create_object_by_msg_ok total total_u32 (sv_objects s) _ b (h_client_id h) Ho Hid) as (r & b' & t & -> & Hr); [|done| |].
    { destruct (oi_num _ _ _ Ho). apply Z.eqb_neq in Emax. lia. }
    { intros d' E'. rewrite Edi in E'. by injection E' as <-. }
    cbn [mbind option_bind]. destruct r as [p|]; [|by apply fails_safe].
    destruct Hr as (e & He & Hr). rewrite He. cbn [mbind option_bind]. rewrite Hck. apply respond_safe; [|done].
    split; [done|]. split; [|done]. by apply Hr.
Qed.

(** ** Clients that have gone *)

Lemma clear_object_ok s c ce now id p :
  obj_inv total (sv_objects s) (obj_view (sv_clients s)) -> sv_clients s !! c = Some ce -> ce_objects ce !! id = Some p ->
  exists s' ce', clear_object c now id p s = Some s' /\ object_step s s' /\
    obj_inv total (sv_objects s') (obj_view (sv_clients s')) /\
    sv_clients s' !! c = Some ce' /\ ce_objects ce' = delete id (ce_objects ce).
Proof.
  intros Ho Hc Hp.
  assert (Hm : ot_map (sv_objects s) !! id = Some p).
  { apply (oi_held _ _ _ Ho c (ce_objects ce)); [|done]. unfold obj_view. by rewrite lookup_fmap, Hc. }
  destruct (oi_map _ _ _ Ho id p Hm) as (e & He & Hid). unfold clear_object. rewrite He, Hc. cbn [mbind option_bind].
  destruct (unref_ok s c ce id p e Ho Hc Hp He) as (_ & Hst & Ho' & He'). cbv zeta.
  fold (unref_client c id p ce (unref c e) s). set (s1 := unref_client _ _ _ _ _ _) in *.
  assert (Hc1 : sv_clients s1 !! c = Some (set_ce_objects (delete id (ce_objects ce)) ce)) by apply lookup_insert_eq.
  assert (Hd : exists s2 ce', destroy_object_entry p s1 = Some s2 /\ object_step s s2 /\
    obj_inv total (sv_objects s2) (obj_view (sv_clients s2)) /\ sv_clients s2 !! c = Some ce' /\ ce_objects ce' = delete id (ce_objects ce)).
  { destruct (destroy_ok s1 p _ Ho' He') as (s2 & -> & Hst2 & Ho2 & Hcs). eexists s2, _.
    split; [done|]. split; [by apply (object_step_trans _ s1)|]. split; [done|].
    rewrite Hcs. unfold forget_object. rewrite lookup_fmap, Hc1. split; [done|]. cbn. rewrite Hid. apply delete_delete_eq. }
  destruct (negb (oe_owner (unref c e) =? c)).
  - destruct (_ && _); [done|]. eexists s1, _. split_and!; [done..|]. done.
  - destruct (_ && _); [|done]. eexists _, _. split; [done|].
    assert (Hinv2 : obj_inv total (sv_objects (put_object p (set_owner 0 (unref c e)) s1)) (obj_view (sv_clients s1))).
    { apply (put_object_ok s1 p (unref c e)); try done.
      - by destruct (oi_heap _ _ _ Ho' p _ He') as (_ & _ & _ & ?).
      - intros c' l i r Hcl Hr. by apply (oi_held _ _ _ Ho' c' l). }
    split; [exact (object_step_trans _ s1 _ Hst ltac:(done))|]. split; [exact Hinv2|]. by split; [exact Hc1|].
Qed.

Lemma clear_objects_ok c now l : forall s ce,
  obj_inv total (sv_objects s) (obj_view (sv_clients s)) -> sv_clients s !! c = Some ce -> NoDup l.*1 ->
  (forall id p, (id, p) ∈ l -> ce_objects ce !! id = Some p) ->
  exists s', clear_objects c now l s = Some s' /\ object_step s s' /\
    obj_inv total (sv_objects s') (obj_view (sv_clients s')).
Proof.
  induction l as [|[id p] l IH]; intros s ce Ho Hc Hn Hin; [by exists s|].
  apply NoDup_cons in Hn as [Hni Hn]. cbn [clear_objects].
  destruct (clear_object_ok s c ce now id p Ho Hc (Hin id p ltac:(left))) as (s1 & ce1 & -> & Hst & Ho1 & Hc1 & E).
  cbn [mbind option_bind].
  destruct (IH s1 ce1 Ho1 Hc1 Hn) as (s2 & -> & Hst2 & Ho2).
  { intros i q Hq. rewrite E, lookup_delete_ne; [apply Hin; by right|]. intros <-. apply Hni.
    apply list_elem_of_fmap. by exists (id, q). }
  exists s2. split; [done|]. split; [by apply (object_step_trans _ s1)|done].
Qed.

Lemma delete_except_loop_ok v l : forall s,
  server_inv s -> (forall c, c ∈ l -> c ∈ sv_except s) ->
  exists ret s', delete_except_loop l v s = Some (ret, s') /\ server_inv s' /\ sv_conns s' = sv_conns s /\
    (forall c k j, link_view (sv_clients s') !! c = Some (Some k, j) -> link_view (sv_clients s) !! c = Some (Some k, j)) /\
    (ret = 0 -> sv_client_num s' = sv_client_num s - 1).
Proof.
  induction l as [|c l IH]; intros s Hinv Hl; cbn [delete_except_loop]; [by eexists _, _|].
  pose proof Hinv as (Hlk & Ho & Hk). assert (Hc : c ∈ sv_except s) by (apply Hl; left).
  pose proof Hk as Hk'. unfold server_link_inv in Hk'.
  apply (ki_except _ _ _ _ _ _ Hk') in Hc as [jo Hc]. destruct (ki_jetty _ _ _ _ _ _ Hk' c _ _ Hc) as (j & -> & [u Hj] & Hnq).
  unfold link_view in Hc. rewrite lookup_fmap in Hc. destruct (sv_clients s !! c) as [ce|] eqn:Ec; [|done].
  simpl in Hc. injection Hc as Hcc Hcj. unfold modify_jetty_mgr_to_invalid. rewrite Hcj. cbn [mbind option_bind].
  rewrite Hj. cbn [mbind option_bind]. destruct (e_busy v j).
  { cbn [mbind option_bind negb]. apply IH; [done|]. intros d Hd. apply Hl. by right. }
  cbn [mbind option_bind negb]. cbv zeta.
  destruct (clear_locks_ok size_ size_u32 c (map_to_list (ce_locks ce)) (sv_locks s) _ (ce_locks ce) Hlk) as (t & E & Hlk').
  { unfold lock_view. by rewrite lookup_fmap, Ec. }
  { apply NoDup_fst_map_to_list. }
  { intros id p Hp. by apply elem_of_map_to_list. }
  cbn [sv_locks set_invalid put_client set_clients]. rewrite E. cbn [mbind option_bind].
  set (s2 := set_locks t _).
  destruct (clear_objects_ok c (e_now v) (map_to_list (ce_objects ce)) s2 (set_ce_jetty None ce)) as (s3 & -> & Hst & Ho3).
  { cbn. unfold obj_view. by rewrite (view_put ce_objects _ c ce). }
  { apply lookup_insert_eq. }
  { apply NoDup_fst_map_to_list. }
  { intros id p Hp. by apply elem_of_map_to_list. }
  cbn [mbind option_bind]. eexists _, _. split; [done|].
  destruct Hst as (E1 & E2 & E3 & E4 & E5 & E6 & E7 & E8).
  assert (Elk : link_view (delete c (sv_clients s3)) = delete c (link_view (sv_clients s))).
  { unfold link_view in *. rewrite fmap_delete, E3. cbn. by rewrite fmap_insert, delete_insert_eq. }
  split; [|split; [exact E4|split]].
  - split_and!; cbn.
    + rewrite E1. unfold lock_view in *. rewrite fmap_delete, E2. cbn. by rewrite fmap_insert, delete_insert_eq.
    + apply (obj_inv_fewer _ _ _ _ Ho3).
      * intros id. unfold obj_view. rewrite fmap_delete.
        destruct ((ce_objects <$> sv_clients s3) !! c) as [lx|] eqn:Ex; [|by rewrite delete_id].
        rewrite (holders_delete _ c lx id Ex). pose proof (has_range id lx). lia.
      * intros c' lx id p Hcl Hp. unfold obj_view in *. rewrite fmap_delete in Hcl.
        apply lookup_delete_Some in Hcl as [_ Hcl]. by exists c', lx.
    + change (link_inv (link_view (delete c (sv_clients s3))) (sv_conns s3) (sv_jettys s3) (sv_invalid s3)
        (except_erase c (sv_except s3)) (sv_client_num s3 - 1)).
      rewrite Elk, E4, E5, E6, E7, E8.
      apply (link_inv_remove _ _ _ _ _ _ _ c (ce_conn ce) j (e_now v) Hk').
      * unfold link_view. by rewrite lookup_fmap, Ec, <- Hcj.
      * intros d. apply elem_of_except_erase.
  - intros c' k j'. change (link_view (delete c (sv_clients s3)) !! c' = Some (Some k, j') -> link_view (sv_clients s) !! c' = Some (Some k, j')).
    rewrite Elk. by intros [_ H]%lookup_delete_Some.
  - intros _. change (sv_client_num s3 - 1 = sv_client_num s - 1). by rewrite E8.
Qed.
End server.
