(* ===== verification/DlockSessions.v ===== *)
(** * The control plane of the dlock server: clients, connections, safety

    What the client library promises of its messages ([proper]), the messages
    that register, restore and remove clients, and the step of the control
    thread: a proper event does not fault and keeps the tables consistent
    ([control_step_safe]). *)

From S2P Require Import Prelude Memory DlockMemory Dlock DlockControl DlockControlSafe DlockFrame DlockObjects DlockControlInv.

(** ** What the environment does *)

(** No client uses the connection. *)
Definition unused (k : Z) (s : server) : bool :=
  bool_decide (map_Forall (fun _ ce => ce_conn ce <> Some k) (sv_clients s)).

(** No other connection belongs to the client. *)
Definition no_peer (c k : Z) (s : server) : bool :=
  bool_decide (map_Forall (fun k' peer => k' = k \/ peer <> Some c) (sv_conns s)).

(** The body is what the type of the message says, and holds the bytes that
    the header announces and the entries that a batch declares. *)
Definition body_ok (h : ctl_hdr) (b : option ctl_body) : bool :=
  let len := h_total_len h - h_hdr_len h in
  match h_type h, b with
  | CLIENT_INIT_REQUEST, Some (BInit _) | CLIENT_REINIT_REQUEST, Some (BInit _) => true
  | GET_LOCK_REQUEST, Some (BGetLock x) =>
    bool_decide (len = DLOCK_GET_LOCK_BODY_LEN + zlen (gl_desc x) /\ 0 <= gl_desc_len x < 2 ^ 32 /\
      - 2 ^ 31 <= gl_id x < 2 ^ 31)
  | RELEASE_LOCK_REQUEST, Some (BReleaseLock _) => true
  | BATCH_GET_LOCK_REQUEST, Some (BBatchGet n l) =>
    bool_decide (n <= zlen l /\ Forall (fun x => - 2 ^ 31 <= gl_id x < 2 ^ 31 /\ 0 <= gl_desc_len x <= zlen (gl_desc x)) l)
  | BATCH_RELEASE_LOCK_REQUEST, Some (BBatchRelease n l) => n <=? zlen l
  | OBJECT_CREATE_REQUEST, Some (BCreate x) =>
    bool_decide (len = DLOCK_OBJECT_CREATE_BODY_LEN + zlen (oc_desc x) /\ 0 <= oc_desc_len x < 2 ^ 32 /\
      - 2 ^ 31 <= oc_id x < 2 ^ 31)
  | OBJECT_GET_REQUEST, Some (BGetObject x) =>
    bool_decide (len = DLOCK_OBJECT_GET_BODY_LEN + zlen (og_desc x) /\ 0 <= og_desc_len x < 2 ^ 32)
  | OBJECT_RELEASE_REQUEST, Some (BReleaseObject _) => true
  | OBJECT_DESTROY_REQUEST, Some (BDestroy _) => true
  | BATCH_UPDATE_LOCKS_REQUEST, Some (BUpdate n l) =>
    bool_decide (n <= zlen l /\ Forall (fun x => - 2 ^ 31 <= ul_id x < 2 ^ 31 /\ 0 <= ul_desc_len x <= zlen (ul_desc x) /\
      Forall (fun y => 0 <= y < 256) (ul_ls x)) l)
  | CLIENT_DEINIT_REQUEST, _ | CLIENT_HEARTBEAT_REQUEST, _ | CLIENT_REINIT_DONE_REQUEST, _
  | OTHER_CONTROL_MSG _, _ => true
  | _, _ => false
  end.

(** Messages as the client library sends them: a client registers or
    re-registers on a connection that no client uses, and its other messages
    arrive on a connection that has been registered.  A drawn identifier does
    not belong to a connection that is still open, and the response to a
    re-registration can be sent. *)
Definition proper (s : server) (ev : control_event) : bool :=
  match ev with
  | EvMsg k h b v =>
    body_ok h b &&
    match h_type h with
    | CLIENT_INIT_REQUEST =>
      unused k s &&
      forallb (fun r => match r with Some r => no_peer (Z.land r CLIENT_ID_MASK) k s | None => true end) (e_rands v)
    | CLIENT_REINIT_REQUEST =>
      unused k s && e_send v &&
      (bool_decide (is_Some (sv_clients s !! h_client_id h)) || no_peer (h_client_id h) k s)
    | _ => match sv_conns s !! k with Some (Some _) => true | _ => false end
    end
  | _ => true
  end.

(** ** Connections and channels *)

Section links.
Context (lk : gmap Z (option Z * option Z)) (conns : gmap Z (option Z)) (jettys : gmap Z unit)
  (q : list (Z * Z)) (exc : list Z) (num : Z).
Hypothesis Hk : link_inv lk conns jettys q exc num.

(** The first channel of the queue is deleted. *)
Lemma link_inv_collect j t q' : q = (j, t) :: q' -> link_inv lk conns (delete j jettys) q' exc num.
Proof.
  intros ->. destruct Hk as [Hco Hpe Hex Hj Hinj [Hn Hq] Hown Hnum]. simpl in *.
  apply NoDup_cons in Hn as [Hni Hn]. constructor; try done.
  - intros c ko jo Hc. destruct (Hj c ko jo Hc) as (j' & -> & H1 & H2).
    apply not_elem_of_cons in H2 as [Hne H2]. exists j'. by rewrite lookup_delete_ne.
  - split; [done|]. intros j' Hj'. rewrite lookup_delete_ne by (intros ->; done). apply Hq. by right.
  - intros j' [u [Hne H]%lookup_delete_Some]. destruct (Hown j' ltac:(by eexists)) as [[-> |?]%elem_of_cons|?]; auto.
    done.
Qed.

(** A stale connection changes its peer, or goes away. *)
Lemma link_inv_peer k c :
  (forall c' j, lk !! c' <> Some (Some k, j)) -> lk !! c = None ->
  link_inv lk (<[k := Some c]> conns) jettys q exc num.
Proof.
  intros Hun Hc. destruct Hk as [Hco Hpe Hex Hj Hinj Hq Hown Hnum]. constructor; try done.
  - intros c' k' j H. rewrite lookup_insert_ne; [by apply (Hco c' k' j)|]. intros <-. by destruct (Hun c' j).
  - intros k' c' [[<- [= <-]]|[_ H]]%lookup_insert_Some; [by left|by apply Hpe].
Qed.

Lemma link_inv_close k :
  (forall c' j, lk !! c' <> Some (Some k, j)) -> link_inv lk (delete k conns) jettys q exc num.
Proof.
  intros Hun. destruct Hk as [Hco Hpe Hex Hj Hinj Hq Hown Hnum]. constructor; try done.
  - intros c' k' j H. rewrite lookup_delete_ne; [by apply (Hco c' k' j)|]. intros <-. by destruct (Hun c' j).
  - intros k' c' [_ H]%lookup_delete_Some. by apply Hpe.
Qed.

Lemma link_inv_accept k : conns !! k = None -> link_inv lk (<[k := None]> conns) jettys q exc num.
Proof.
  intros Hn. destruct Hk as [Hco Hpe Hex Hj Hinj Hq Hown Hnum]. constructor; try done.
  - intros c' k' j H. rewrite lookup_insert_ne; [by apply (Hco c' k' j)|]. intros <-.
    by rewrite (Hco c' k j H) in Hn.
  - intros k' c' [[_ ?]|[_ H]]%lookup_insert_Some; [done|by apply Hpe].
Qed.

(** The connection of a client breaks. *)
Lemma link_inv_break c k j :
  lk !! c = Some (Some k, j) ->
  link_inv (<[c := (None, j)]> lk) (delete k conns) jettys q (except_insert c exc) num.
Proof.
  intros Hc. destruct Hk as [Hco Hpe Hex Hj Hinj Hq Hown [Hnum Hmax]]. constructor.
  - intros c' k' j' [[_ [=]]|[Hne H]]%lookup_insert_Some. pose proof (Hco _ _ _ H) as H'.
    rewrite lookup_delete_ne; [done|]. intros <-. rewrite (Hco _ _ _ Hc) in H'. congruence.
  - intros k' c' [Hne H]%lookup_delete_Some. destruct (decide (c' = c)) as [->|Hne'].
    + destruct (Hpe _ _ H) as [H'|[j' H']]; congruence.
    + rewrite lookup_insert_ne by done. by apply Hpe.
  - intros d. rewrite elem_of_except_insert, Hex. destruct (decide (d = c)) as [->|Hne].
    + rewrite lookup_insert_eq. split; [intros _; by exists j|auto].
    + rewrite lookup_insert_ne by done. tauto.
  - intros c' ko jo [[<- [= <- <-]]|[_ H]]%lookup_insert_Some; [by apply (Hj c (Some k))|by apply (Hj c' ko)].
  - assert (H : forall c' k' j', <[c := (None, j)]> lk !! c' = Some (k', Some j') -> exists k0, lk !! c' = Some (k0, Some j')).
    { intros c' k' j' [[<- [= <- ->]]|[_ H]]%lookup_insert_Some; by eexists. }
    intros c1 c2 k1 k2 j' [k1' H1]%H [k2' H2]%H. by apply (Hinj c1 c2 k1' k2' j').
  - done.
  - intros j' Hj'. destruct (Hown j' Hj') as [?|(c' & k' & H)]; [by left|]. right.
    destruct (decide (c' = c)) as [->|Hne]; [|exists c', k'; by rewrite lookup_insert_ne].
    exists c, None. rewrite lookup_insert_eq. congruence.
  - rewrite map_size_insert_Some by (by eexists). done.
Qed.

(** A client arrives with a new channel. *)
Lemma link_inv_join c k j :
  lk !! c = None -> (forall c' j', lk !! c' <> Some (Some k, j')) -> jettys !! j = None ->
  (forall k' peer, conns !! k' = Some peer -> k' = k \/ peer <> Some c) -> num < MAX_NUM_CLIENT ->
  link_inv (<[c := (Some k, Some j)]> lk) (<[k := Some c]> conns) (<[j := tt]> jettys) q exc (num + 1).
Proof.
  intros Hc Hun Hjn Hnp Hlt. destruct Hk as [Hco Hpe Hex Hj Hinj [Hn Hq] Hown [Hnum Hmax]].
  assert (Hjq : j ∉ q.*1). { intros H. apply Hq in H as [u H]. congruence. }
  assert (Hjl : forall c' k', lk !! c' <> Some (k', Some j)).
  { intros c' k' H. destruct (Hj _ _ _ H) as (j' & [= <-] & [u ?] & _). congruence. }
  constructor.
  - intros c' k' j' [[<- [= <- <-]]|[Hne H]]%lookup_insert_Some; [apply lookup_insert_eq|].
    rewrite lookup_insert_ne; [by apply (Hco c' k' j')|]. intros <-. by destruct (Hun c' j').
  - intros k' c' [[<- [= <-]]|[Hne H]]%lookup_insert_Some.
    + right. exists (Some j). by rewrite lookup_insert_eq.
    + destruct (decide (c' = c)) as [->|Hne'].
      * destruct (Hnp _ _ H) as [->|]; done.
      * rewrite lookup_insert_ne by done. by apply Hpe.
  - intros d. rewrite Hex. destruct (decide (d = c)) as [->|Hne]; [|by rewrite lookup_insert_ne].
    rewrite lookup_insert_eq, Hc. split; intros [? ?]; done.
  - intros c' ko jo [[<- [= <- <-]]|[_ H]]%lookup_insert_Some.
    + exists j. rewrite lookup_insert_eq. split; [done|]. split; [by eexists|done].
    + destruct (Hj c' ko jo H) as (j' & -> & H1 & H2). exists j'. split; [done|].
      destruct (decide (j' = j)) as [->|]; [rewrite lookup_insert_eq; split; [by eexists|done]|by rewrite lookup_insert_ne].
  - intros c1 c2 k1 k2 j' [[<- [= <- <-]]|[Hn1 H1]]%lookup_insert_Some [[<- E]|[Hn2 H2]]%lookup_insert_Some; try done.
    + by destruct (Hjl c2 k2).
    + injection E as <- <-. by destruct (Hjl c1 k1).
    + by apply (Hinj c1 c2 k1 k2 j').
  - split; [done|]. intros j' Hj'. rewrite lookup_insert_ne; [by apply Hq|]. intros <-. done.
  - intros j' [u [[<- _]|[Hne H]]%lookup_insert_Some]; [right; exists c, (Some k); by rewrite lookup_insert_eq|].
    destruct (Hown j' ltac:(by eexists)) as [?|(c' & k' & H')]; [by left|]. right. exists c', k'.
    rewrite lookup_insert_ne; [done|]. intros ->. congruence.
  - rewrite map_size_insert_None by done. lia.
Qed.

(** A client leaves and its channel is deleted at once. *)
Lemma link_inv_leave c ko j exc' :
  lk !! c = Some (ko, Some j) -> (forall d, d ∈ exc' <-> d <> c /\ d ∈ exc) ->
  link_inv (delete c lk) conns (delete j jettys) q exc' (num - 1).
Proof.
  intros Hc He. pose proof (link_inv_remove _ _ _ _ _ _ _ c ko j 0 Hk Hc He) as [Hco Hpe Hex Hj Hinj [Hn Hq] Hown Hnum].
  assert (Hjq : j ∉ q.*1) by (by destruct (ki_jetty _ _ _ _ _ _ Hk _ _ _ Hc) as (j' & [= <-] & _ & ?)).
  rewrite fmap_app in *. constructor; try done.
  - intros c' ko' jo H. destruct (Hj c' ko' jo H) as (j' & -> & H1 & H2). rewrite elem_of_app in H2.
    exists j'. rewrite lookup_delete_ne; [split_and!; tauto|]. intros <-. apply H2. right. by apply list_elem_of_singleton.
  - apply NoDup_app in Hn as (Hn & _). split; [done|]. intros j' Hj'. rewrite lookup_delete_ne by (intros <-; done).
    apply Hq, elem_of_app. by left.
  - intros j' [u [Hne H]%lookup_delete_Some]. destruct (Hown j' ltac:(by eexists)) as [H'|?]; [|by right].
    apply elem_of_app in H' as [?| ->%list_elem_of_singleton]; [by left|done].
Qed.
End links.

(** A client registers again: new connection and channel, same tables. *)
Lemma link_inv_relink lk conns jettys q exc num c ko j0 k j :
  link_inv lk conns jettys q exc num -> lk !! c = Some (ko, Some j0) ->
  (forall c' j', lk !! c' <> Some (Some k, j')) -> jettys !! j = None ->
  link_inv (<[c := (Some k, Some j)]> lk)
    (<[k := Some c]> (match ko with Some k' => delete k' conns | None => conns end))
    (<[j := tt]> (delete j0 jettys)) q (except_erase c exc) num.
Proof.
  intros Hk Hc Hun Hj.
  pose proof (link_inv_leave _ _ _ _ _ _ Hk c ko j0 (except_erase c exc) Hc ltac:(intros; apply elem_of_except_erase)) as Hk1.
  assert (Hk2 : link_inv (delete c lk) (match ko with Some k' => delete k' conns | None => conns end)
    (delete j0 jettys) q (except_erase c exc) (num - 1)).
  { destruct ko as [k'|]; [|done]. apply (link_inv_close _ _ _ _ _ _ Hk1). intros c' j' [Hne H]%lookup_delete_Some.
    pose proof (ki_conn _ _ _ _ _ _ Hk _ _ _ H). pose proof (ki_conn _ _ _ _ _ _ Hk _ _ _ Hc). congruence. }
  pose proof (link_inv_join _ _ _ _ _ _ Hk2 c k j) as H.
  rewrite insert_delete_eq in H. replace (num - 1 + 1) with num in H by lia. apply H.
  - apply lookup_delete_eq.
  - intros c' j' [_ H']%lookup_delete_Some. by apply (Hun c' j').
  - rewrite lookup_delete_None. by right.
  - intros k' peer Hp. right. intros ->. destruct ko as [k0|].
    + apply lookup_delete_Some in Hp as [Hne Hp]. destruct (ki_peer _ _ _ _ _ _ Hk _ _ Hp) as [?|[??]]; congruence.
    + destruct (ki_peer _ _ _ _ _ _ Hk _ _ Hp) as [?|[??]]; congruence.
  - destruct (ki_num _ _ _ _ _ _ Hk). lia.
Qed.

Lemma unused_spec k s : unused k s = true -> forall c j, link_view (sv_clients s) !! c <> Some (Some k, j).
Proof.
  intros H%bool_decide_eq_true c j. unfold link_view. rewrite lookup_fmap.
  destruct (sv_clients s !! c) as [ce|] eqn:Ec; [|done]. simpl. intros [= E _]. by apply (H c ce Ec).
Qed.

Lemma no_peer_spec c k s : no_peer c k s = true ->
  forall k' peer, sv_conns s !! k' = Some peer -> k' = k \/ peer <> Some c.
Proof. intros H%bool_decide_eq_true k' peer Hk. by apply (H k' peer). Qed.

(** ** Messages of clients *)

Section server.
Variables (size_ total init_len : Z).
Hypothesis size_u32 : 0 < size_ < 2 ^ 32 - 1.
Hypothesis total_u32 : 0 <= total < UINT32_MAX.

Abbreviation server_inv := (server_inv size_ total).
Abbreviation safe := (safe size_ total).

(** The tables of locks and objects do not see connections and channels. *)
Lemma inv_links s s' :
  server_inv s -> sv_clients s' = sv_clients s -> sv_locks s' = sv_locks s -> sv_objects s' = sv_objects s ->
  server_link_inv s' -> server_inv s'.
Proof. intros (Hl & Ho & _) E1 E2 E3 Hk. split_and!; [by rewrite E1, E2|by rewrite E1, E3|done]. Qed.

Lemma delete_invalid_loop_ok now qq : forall s,
  link_inv (link_view (sv_clients s)) (sv_conns s) (sv_jettys s) qq (sv_except s) (sv_client_num s) ->
  exists js q', delete_invalid_loop now qq s = Some (set_invalid q' (set_jettys js s)) /\
    link_inv (link_view (sv_clients s)) (sv_conns s) js q' (sv_except s) (sv_client_num s).
Proof.
  induction qq as [|[j t] qq IH]; intros s Hk; cbn [delete_invalid_loop].
  { exists (sv_jettys s), []. by destruct s. }
  destruct (_ && _); [exists (sv_jettys s), ((j, t) :: qq); by destruct s|].
  destruct (ki_queue _ _ _ _ _ _ Hk) as [_ Hq]. destruct (Hq j) as [u Hu]; [left|].
  unfold delete_jetty. rewrite Hu. cbn [mbind option_bind].
  destruct (IH (set_jettys (delete j (sv_jettys s)) s)) as (js & q' & E & H).
  { exact (link_inv_collect _ _ _ _ _ _ Hk j t qq eq_refl). }
  exists js, q'. split; [exact E|exact H].
Qed.

(** The channel that [init_client_primary] creates is new; everything else is
    as before, apart from expired channels. *)
Lemma init_client_primary_ok v s :
  server_inv s ->
  exists s1, server_inv s1 /\ sv_clients s1 = sv_clients s /\ sv_locks s1 = sv_locks s /\ sv_objects s1 = sv_objects s /\
    sv_conns s1 = sv_conns s /\ sv_except s1 = sv_except s /\ sv_client_num s1 = sv_client_num s /\
    sv_recovery s1 = sv_recovery s /\ sv_state s1 = sv_state s /\
    init_client_primary v s =
      (if e_jetty v then Some (Some (new_ptr (sv_jettys s1)), set_jettys (<[new_ptr (sv_jettys s1) := tt]> (sv_jettys s1)) s1)
       else Some (None, s1)).
Proof.
  intros Hinv. pose proof Hinv as (_ & _ & Hk). unfold init_client_primary, delete_invalid_jetty_mgr.
  destruct (delete_invalid_loop_ok (e_now v) (sv_invalid s) s Hk) as (js & q' & -> & Hk'). cbn [mbind option_bind].
  exists (set_invalid q' (set_jettys js s)). split; [|split_and!; try done].
  by apply (inv_links s).
Qed.

Lemma lock_view_new cs c ce t :
  lock_inv size_ None t (lock_view cs) -> ce_locks ce = ∅ -> lock_inv size_ None t (lock_view (<[c := ce]> cs)).
Proof.
  intros Hl He. unfold lock_view. rewrite fmap_insert, He. apply (lock_inv_fewer _ _ _ _ _ Hl).
  intros c' l id p [[_ <-]|[_ H]]%lookup_insert_Some Hp; [by rewrite lookup_empty in Hp|]. by exists l.
Qed.

Lemma obj_view_new cs c ce t :
  obj_inv total t (obj_view cs) -> cs !! c = None -> ce_objects ce = ∅ -> obj_inv total t (obj_view (<[c := ce]> cs)).
Proof.
  intros Ho Hc He. unfold obj_view. rewrite fmap_insert, He. apply (obj_inv_fewer _ _ _ _ Ho).
  - intros id. rewrite holders_insert by (by rewrite lookup_fmap, Hc). unfold has. rewrite lookup_empty. done.
  - intros c' l id p [[_ <-]|[_ H]]%lookup_insert_Some Hp; [by rewrite lookup_empty in Hp|]. by exists c', l.
Qed.

Lemma draw_client_id_spec tries rands cs c :
  draw_client_id tries rands cs = c -> 0 <= c ->
  cs !! c = None /\ exists r, Some r ∈ rands /\ c = Z.land r CLIENT_ID_MASK.
Proof.
  clear size_u32 total_u32. revert rands. induction tries as [|tries IH]; intros rands; simpl; [intros; lia|].
  destruct rands as [|[r|] rands]; [intros; exfalso; lia| |intros; exfalso; lia]. intros Hd Hc.
  assert (Hrec : draw_client_id tries rands cs = c ->
    cs !! c = None /\ exists r0, Some r0 ∈ Some r :: rands /\ c = Z.land r0 CLIENT_ID_MASK).
  { intros H. destruct (IH rands H Hc) as (? & r0 & ? & ?). split; [done|]. exists r0. split; [by right|done]. }
  destruct (Z.land r CLIENT_ID_MASK =? 0); [by apply Hrec|]. destruct (cs !! Z.land r CLIENT_ID_MASK) eqn:E; [by apply Hrec|]. subst c.
  split; [done|]. exists r. split; [left|done].
Qed.

Lemma get_client_id_spec v s c :
  get_client_id v s = c -> 0 <= c ->
  sv_clients s !! c = None /\ exists r, Some r ∈ e_rands v /\ c = Z.land r CLIENT_ID_MASK.
Proof.
  unfold get_client_id. destruct (_ <? _); [intros <- H; by exfalso|].
  apply draw_client_id_spec.
Qed.

(** A new client, up to the response. *)
Lemma init_link_ok k c v s1 j rt :
  server_inv s1 -> sv_clients s1 !! c = None -> sv_jettys s1 !! j = None ->
  (forall c' j', link_view (sv_clients s1) !! c' <> Some (Some k, j')) ->
  (forall k' peer, sv_conns s1 !! k' = Some peer -> k' = k \/ peer <> Some c) -> sv_client_num s1 < MAX_NUM_CLIENT ->
  safe (let s := put_client c (ClientEntryS (Some k) (Some j) ∅ ∅ rt false)
                   (set_peer k c (set_jettys (<[j := tt]> (sv_jettys s1)) s1)) in
        '(ret, r, s) ← respond (Some k) (RInit c (sv_state s)) v s;
        if negb (ret =? 0) then s ← delete_client_entry c s; fails ret s
        else Some (0, r, set_client_num (sv_client_num s + 1) s)).
Proof.
  intros (Hl & Ho & Hk) Hc Hj Hun Hnp Hlt. cbv zeta. unfold respond. cbn [mbind option_bind].
  cbn [sv_conns put_client set_clients set_peer set_conns set_jettys]. rewrite lookup_insert_eq. cbn [mbind option_bind].
  assert (Hcl : link_view (sv_clients s1) !! c = None) by (unfold link_view; by rewrite lookup_fmap, Hc).
  destruct (e_send v); cbn [mbind option_bind negb Z.eqb].
  - eexists _, _, _. split; [done|]. split_and!.
    + by apply lock_view_new.
    + by apply obj_view_new.
    + change (link_inv (link_view (<[c := ClientEntryS (Some k) (Some j) ∅ ∅ rt false]> (sv_clients s1)))
        (<[k := Some c]> (sv_conns s1)) (<[j := tt]> (sv_jettys s1)) (sv_invalid s1) (sv_except s1) (sv_client_num s1 + 1)).
      unfold link_view at 1. rewrite fmap_insert. by apply link_inv_join.
  - unfold delete_client_entry. cbn [sv_clients set_clients put_client]. rewrite lookup_insert_eq. cbn [ce_jetty].
    unfold delete_jetty. cbn [sv_jettys set_clients put_client set_peer set_conns set_jettys].
    rewrite lookup_insert_eq. cbn [mbind option_bind]. eexists _, _, _. split; [done|].
    apply (inv_links s1); [by split| |done|done|].
    + cbn. by rewrite delete_insert_id.
    + change (link_inv (link_view (delete c (<[c := ClientEntryS (Some k) (Some j) ∅ ∅ rt false]> (sv_clients s1))))
        (<[k := Some c]> (sv_conns s1)) (delete j (<[j := tt]> (sv_jettys s1))) (sv_invalid s1) (sv_except s1) (sv_client_num s1)).
      rewrite !delete_insert_id by done. by apply link_inv_peer.
Qed.

Lemma init_client_do_safe k h m v s :
  server_inv s -> unused k s = true ->
  forallb (fun r => match r with Some r => no_peer (Z.land r CLIENT_ID_MASK) k s | None => true end) (e_rands v) = true ->
  safe (init_client_do init_len k h (Some m) v s).
Proof.
  intros Hinv Hun Hnp. unfold init_client_do. destruct (check_msg_body_len_invalid _ _); [by apply fails_safe|].
  cbn [mbind option_bind]. destruct (negb (negotiate_proto_version m)); [by apply fails_safe|]. cbv zeta.
  assert (H : exists ret s1, (if sv_client_num s =? MAX_NUM_CLIENT then delete_except_client_entry v s else Some (-1, s)) = Some (ret, s1) /\
    server_inv s1 /\ sv_conns s1 = sv_conns s /\
    (forall c k j, link_view (sv_clients s1) !! c = Some (Some k, j) -> link_view (sv_clients s) !! c = Some (Some k, j)) /\
    ((sv_client_num s =? MAX_NUM_CLIENT) && negb (ret =? 0) = false -> sv_client_num s1 < MAX_NUM_CLIENT)).
  { pose proof Hinv as (_ & _ & Hk). destruct (ki_num _ _ _ _ _ _ Hk) as [_ Hmax].
    destruct (Z.eqb_spec (sv_client_num s) MAX_NUM_CLIENT) as [E|E].
    - unfold delete_except_client_entry. destruct (sv_except s) as [|x l] eqn:Ex.
      { eexists _, s. split; [done|]. split_and!; try done. }
      destruct (delete_except_loop_ok size_ total size_u32 total_u32 v (x :: l) s Hinv) as (ret & s1 & -> & H1 & H2 & H3 & H4).
      { by rewrite Ex. }
      exists ret, s1. split_and!; try done. cbn [andb]. intros Hr%negb_false_iff%Z.eqb_eq. specialize (H4 Hr). lia.
    - exists (-1), s. split_and!; try done. intros _. lia. }
  destruct H as (ret & s1 & -> & Hinv1 & Hcn & Hsub & Hlt). cbn [mbind option_bind].
  destruct (_ && _); [by apply fails_safe|]. specialize (Hlt eq_refl).
  set (c := get_client_id v s1). destruct (Z.ltb_spec c 0) as [|Hc0]; [by apply fails_safe|].
  destruct (get_client_id_spec v s1 c eq_refl Hc0) as (Hc & r & Hr & Ecr).
  destruct (init_client_primary_ok v s1 Hinv1) as (s2 & Hinv2 & E1 & E2 & E3 & E4 & E5 & E6 & E7 & E8 & ->).
  destruct (e_jetty v); cbn [mbind option_bind]; [|by apply fails_safe].
  unfold update_client. cbn [sv_clients set_jettys]. rewrite E1, Hc. cbn [andb negb Z.eqb].
  apply init_link_ok; [done|by rewrite E1|apply new_ptr_fresh| | |lia].
  - intros c' j'. rewrite E1. intros H%Hsub. by apply (unused_spec k s Hun c' j').
  - rewrite E4, Hcn. apply no_peer_spec. rewrite forallb_forall in Hnp. specialize (Hnp (Some r)).
    rewrite Ecr. apply Hnp. by apply list_elem_of_In.
Qed.

(** An error path deletes the channel it has created. *)
Lemma undo_jetty s j ret num :
  server_inv s -> sv_jettys s !! j = None -> num = sv_client_num s ->
  safe (s ← delete_jetty j (set_client_num num (set_jettys (<[j := tt]> (sv_jettys s)) s)); fails ret s).
Proof.
  intros Hinv Hj ->. unfold delete_jetty. cbn [sv_jettys set_jettys set_client_num]. rewrite lookup_insert_eq.
  cbn [mbind option_bind]. apply fails_safe. apply (inv_links s); try done.
  pose proof Hinv as (_ & _ & Hk). unfold server_link_inv. cbn. by rewrite delete_insert_id.
Qed.

(** The client that registers again is known: its old channel and connection
    are replaced. *)
Lemma reinit_known s c ce k j rt :
  server_inv s -> sv_clients s !! c = Some ce -> unused k s = true -> sv_jettys s !! j = None ->
  exists j0, ce_jetty ce = Some j0 /\ j0 <> j /\ is_Some (sv_jettys s !! j0) /\ ce_conn ce <> Some k /\
    match ce_conn ce with Some k' => is_Some (sv_conns s !! k') | None => True end /\
    forall s', sv_locks s' = sv_locks s -> sv_objects s' = sv_objects s ->
      sv_clients s' = <[c := ClientEntryS (Some k) (Some j) (ce_locks ce) (ce_objects ce) rt (ce_updated ce)]> (sv_clients s) ->
      sv_conns s' = <[k := Some c]> (match ce_conn ce with Some k' => delete k' (sv_conns s) | None => sv_conns s end) ->
      sv_jettys s' = <[j := tt]> (delete j0 (sv_jettys s)) -> sv_invalid s' = sv_invalid s ->
      sv_except s' = except_erase c (sv_except s) -> sv_client_num s' = sv_client_num s -> server_inv s'.
Proof.
  intros (Hl & Ho & Hk) Hc Hun Hj. unfold server_link_inv in Hk.
  assert (Hlc : link_view (sv_clients s) !! c = Some (ce_conn ce, ce_jetty ce)) by (unfold link_view; by rewrite lookup_fmap, Hc).
  destruct (ki_jetty _ _ _ _ _ _ Hk _ _ _ Hlc) as (j0 & Ej & Hj0 & _). exists j0. split; [done|].
  split; [intros ->; rewrite Hj in Hj0; by destruct Hj0|]. split; [done|].
  split. { intros E. rewrite E in Hlc. by apply (unused_spec k s Hun c (ce_jetty ce)). }
  split. { destruct (ce_conn ce) as [k'|]; [|done]. rewrite (ki_conn _ _ _ _ _ _ Hk _ _ _ Hlc). by eexists. }
  intros s' E1 E2 E3 E4 E5 E6 E7 E8. split_and!.
  - rewrite E1, E3. unfold lock_view. by rewrite (view_put ce_locks _ c ce).
  - rewrite E2, E3. unfold obj_view. by rewrite (view_put ce_objects _ c ce).
  - unfold server_link_inv. rewrite E3, E4, E5, E6, E7, E8. unfold link_view at 1. rewrite fmap_insert.
    apply link_inv_relink; [done| |by apply unused_spec|done]. by rewrite <- Ej.
Qed.

Lemma delete_jetty_live j s : is_Some (sv_jettys s !! j) -> delete_jetty j s = Some (set_jettys (delete j (sv_jettys s)) s).
Proof. intros [u Hu]. unfold delete_jetty. by rewrite Hu. Qed.

Lemma delete_connection_live k s :
  is_Some (sv_conns s !! k) -> delete_dlock_connection k s = Some (set_conns (delete k (sv_conns s)) s).
Proof. intros [u Hu]. unfold delete_dlock_connection. by rewrite Hu. Qed.

(** What [reinit_detach] leaves of a known client. *)
Lemma reinit_detach_known s c ce k j :
  server_inv s -> sv_clients s !! c = Some ce -> unused k s = true -> sv_jettys s !! j = None ->
  let s' := set_jettys (<[j := tt]> (sv_jettys s)) s in
  exists r, reinit_detach k c s' = Some r /\
  match r with
  | inr s3 => s3 = s'
  | inl s3 => exists j0, ce_jetty ce = Some j0 /\
      sv_clients s3 = <[c := set_ce_conn None (set_ce_jetty None ce)]> (sv_clients s) /\
      sv_locks s3 = sv_locks s /\ sv_objects s3 = sv_objects s /\
      sv_conns s3 = (match ce_conn ce with Some k' => delete k' (sv_conns s) | None => sv_conns s end) /\
      sv_jettys s3 = delete j0 (<[j := tt]> (sv_jettys s)) /\ sv_invalid s3 = sv_invalid s /\
      sv_except s3 = sv_except s /\ sv_client_num s3 = sv_client_num s - 1
  end.
Proof.
  intros Hinv Hc Hun Hj. cbv zeta.
  destruct (reinit_known s c ce k j true Hinv Hc Hun Hj) as (j0 & Ej & Hne & Hj0 & Hck & Hcn & _).
  unfold reinit_detach. cbn [sv_clients set_jettys]. rewrite Hc.
  destruct (_ && _); [by eexists|]. destruct (_ <=? 0); [by eexists|]. rewrite Ej. cbn [mbind option_bind].
  rewrite delete_jetty_live by (cbn; by rewrite lookup_insert_ne). cbn [mbind option_bind].
  change (ce_conn (set_ce_jetty None ce)) with (ce_conn ce). destruct (ce_conn ce) as [k'|] eqn:Eck.
  - rewrite (proj2 (Z.eqb_neq _ _)) by congruence. rewrite delete_connection_live by done. cbn [mbind option_bind].
    eexists. split; [done|]. by exists j0.
  - eexists. split; [done|]. exists j0. split; [done|]. split; [|done]. cbn. f_equal. destruct ce. simpl in *. by subst.
Qed.

Lemma reinit_client_do_safe k h m v s :
  server_inv s -> unused k s = true -> e_send v = true ->
  (is_Some (sv_clients s !! h_client_id h) \/ no_peer (h_client_id h) k s = true) ->
  safe (reinit_client_do init_len k h (Some m) v s).
Proof.
  intros Hinv Hun Hsend Hor. unfold reinit_client_do. destruct (check_msg_body_len_invalid _ _); [by apply fails_safe|].
  cbn [mbind option_bind]. destruct (negb (negotiate_proto_version m)); [by apply fails_safe|]. cbv zeta.
  destruct (init_client_primary_ok v s Hinv) as (s1 & Hinv1 & E1 & E2 & E3 & E4 & E5 & E6 & E7 & E8 & ->).
  assert (Hun1 : unused k s1 = true) by (unfold unused in *; by rewrite E1).
  destruct (e_jetty v); cbn [mbind option_bind]; [|by apply fails_safe].
  set (j := new_ptr (sv_jettys s1)). set (c := h_client_id h) in *.
  assert (Hj : sv_jettys s1 !! j = None) by apply new_ptr_fresh.
  pose proof Hinv1 as (Hl1 & Ho1 & Hk1). destruct (ki_num _ _ _ _ _ _ Hk1) as [Hnum Hmax].
  destruct (sv_clients s1 !! c) as [ce|] eqn:Ec.
  - destruct (reinit_detach_known s1 c ce k j Hinv1 Ec Hun1 Hj) as (r & -> & Hr). cbn [mbind option_bind].
    destruct (reinit_known s1 c ce k j true Hinv1 Ec Hun1 Hj) as (j0 & Ej0 & Hne & _ & Hck & _ & Hfin).
    destruct r as [s3| ?].
    2: { subst. pose proof (undo_jetty s1 j (-1) _ Hinv1 Hj eq_refl) as H. by destruct s1. }
    destruct Hr as (j1 & Ej & F1 & F2 & F3 & F4 & F5 & F6 & F7 & F8). rewrite Ej in Ej0. injection Ej0 as ->.
    cbn [sv_client_num set_client_num]. rewrite (proj2 (Z.ltb_ge _ _)) by lia.
    unfold update_client. cbn [sv_clients set_client_num]. rewrite F1, lookup_insert_eq.
    rewrite decide_False by done. cbn [negb Z.eqb ce_locks ce_objects ce_updated set_ce_conn set_ce_jetty].
    unfold respond. cbn [mbind option_bind]. cbn [sv_conns set_except put_client set_clients set_peer set_conns].
    rewrite lookup_insert_eq. cbn [mbind option_bind]. rewrite Hsend. cbn [mbind option_bind negb Z.eqb].
    eexists _, _, _. split; [done|]. apply Hfin; cbn; try done.
    + rewrite F1. apply insert_insert_eq.
    + by rewrite F4.
    + by rewrite F5, delete_insert_ne.
    + by rewrite F7.
    + lia.
  - unfold reinit_detach. cbn [sv_clients set_jettys]. rewrite Ec. cbn [mbind option_bind]. cbn [sv_client_num set_client_num set_jettys].
    destruct (Z.ltb_spec MAX_NUM_CLIENT (sv_client_num s1 + 1)) as [|Hlt].
    { apply undo_jetty; [done|done|lia]. }
    unfold update_client. cbn [sv_clients set_client_num set_jettys]. rewrite Ec. cbn [andb].
    destruct (_ =? 0) eqn:Erec; cbn [negb Z.eqb status_num].
    { apply undo_jetty; [done|done|]. cbn. lia. }
    assert (Hnp : no_peer c k s = true) by (destruct Hor as [[? H]|?]; [by rewrite E1, H in Ec|done]).
    unfold respond. cbn [mbind option_bind]. cbn [sv_conns put_client set_clients set_peer set_conns].
    rewrite lookup_insert_eq. cbn [mbind option_bind]. rewrite Hsend. cbn [mbind option_bind negb Z.eqb].
    eexists _, _, _. split; [done|]. split_and!.
    + by apply lock_view_new.
    + by apply obj_view_new.
    + change (link_inv (link_view (<[c := ClientEntryS (Some k) (Some j) ∅ ∅ true false]> (sv_clients s1)))
        (<[k := Some c]> (sv_conns s1)) (<[j := tt]> (sv_jettys s1)) (sv_invalid s1) (sv_except s1) (sv_client_num s1 + 1)).
      unfold link_view at 1. rewrite fmap_insert. apply link_inv_join; try done.
      * unfold link_view. by rewrite lookup_fmap, Ec.
      * by apply unused_spec.
      * rewrite E4. by apply no_peer_spec.
      * lia.
Qed.

(** The client of a registered connection, if it is still known. *)
Lemma peer_client s k c ce :
  server_inv s -> sv_conns s !! k = Some (Some c) -> sv_clients s !! c = Some ce -> ce_conn ce = Some k.
Proof.
  intros (_ & _ & Hk) Hp Hc. destruct (ki_peer _ _ _ _ _ _ Hk _ _ Hp) as [H|[j H]];
    unfold link_view in H; rewrite lookup_fmap, Hc in H; simpl in H; congruence.
Qed.

Lemma peer_linked s k c : server_inv s -> sv_conns s !! k = Some (Some c) -> linked c s.
Proof. intros Hinv Hp ce Hc. exists k. rewrite Hp. split; [by apply (peer_client s k c ce)|by eexists]. Qed.

(** Removing a client from the tables of locks and objects. *)
Lemma clients_delete_inv s c :
  server_inv s -> lock_inv size_ None (sv_locks s) (lock_view (delete c (sv_clients s))) /\
  obj_inv total (sv_objects s) (obj_view (delete c (sv_clients s))).
Proof.
  intros (Hl & Ho & _). unfold lock_view, obj_view in *. rewrite !fmap_delete. split.
  - apply (lock_inv_fewer _ _ _ _ _ Hl). intros c' l id p [_ H]%lookup_delete_Some Hp. by exists l.
  - apply (obj_inv_fewer _ _ _ _ Ho).
    + intros id. destruct ((ce_objects <$> sv_clients s) !! c) as [l|] eqn:E; [|by rewrite delete_id].
      rewrite (holders_delete _ c l id E). pose proof (has_range id l). lia.
    + intros c' l id p [_ H]%lookup_delete_Some Hp. by exists c', l.
Qed.

Lemma deinit_client_do_safe k h v s :
  server_inv s -> sv_conns s !! k = Some (Some (h_client_id h)) -> safe (deinit_client_do k h v s).
Proof.
  intros Hinv Hp. unfold deinit_client_do. destruct (check_msg_body_len_invalid _ _); [by apply fails_safe|].
  set (c := h_client_id h) in *. destruct (sv_clients s !! c) as [ce|] eqn:Ec; [|by apply fails_safe].
  pose proof Hinv as (_ & _ & Hk). pose proof (peer_client _ _ _ _ Hinv Hp Ec) as Hck.
  assert (Hlc : link_view (sv_clients s) !! c = Some (Some k, ce_jetty ce)) by (unfold link_view; by rewrite lookup_fmap, Ec, <- Hck).
  destruct (ki_jetty _ _ _ _ _ _ Hk _ _ _ Hlc) as (j & Ej & [u Hj] & _). unfold modify_jetty_mgr_to_invalid. rewrite Ej in *.
  cbn [mbind option_bind]. rewrite Hj. cbn [mbind option_bind].
  destruct (e_busy v j); cbn [mbind option_bind negb]; [by apply fails_safe|].
  destruct (ki_num _ _ _ _ _ _ Hk) as [Hnum Hmax]. cbn [sv_client_num sv_clients set_clients set_invalid].
  assert (Hpos : 0 < sv_client_num s).
  { assert (size (link_view (sv_clients s)) <> 0%nat); [|lia]. apply map_size_non_empty_iff. intros E. by rewrite E, lookup_empty in Hlc. }
  rewrite (proj2 (Z.leb_gt _ _)) by lia.
  assert (Hk1 : link_inv (link_view (delete c (sv_clients s))) (sv_conns s) (sv_jettys s) (sv_invalid s ++ [(j, e_now v)])
    (sv_except s) (sv_client_num s - 1)).
  { unfold link_view. rewrite fmap_delete. apply (link_inv_remove _ _ _ _ _ _ _ _ (Some k) j _ Hk Hlc).
    intros d. split; [|tauto]. intros Hd. split; [|done]. intros ->. apply (ki_except _ _ _ _ _ _ Hk) in Hd as [? ?]. congruence. }
  destruct (clients_delete_inv s c Hinv) as [Hl1 Ho1].
  unfold respond. cbn [mbind option_bind]. cbn [sv_conns set_client_num set_clients set_invalid]. rewrite Hp. cbn [mbind option_bind].
  destruct (e_send v); cbn [mbind option_bind negb Z.eqb].
  - rewrite delete_connection_live by (cbn; rewrite Hp; by eexists). cbn [mbind option_bind].
    eexists _, _, _. split; [done|]. split_and!; [done|done|]. apply (link_inv_close _ _ _ _ _ _ Hk1).
    intros c' j'. unfold link_view. rewrite fmap_delete. intros [Hne H]%lookup_delete_Some.
    pose proof (ki_conn _ _ _ _ _ _ Hk _ _ _ H). congruence.
  - apply fails_safe. by split_and!.
Qed.

Lemma client_heartbeat_do_safe k h v s :
  server_inv s -> is_Some (sv_conns s !! k) -> safe (client_heartbeat_do k h v s).
Proof.
  intros Hinv Hk. unfold client_heartbeat_do. destruct (check_msg_body_len_invalid _ _); [by apply fails_safe|].
  destruct (sv_clients s !! _); [by apply respond_safe|by apply fails_safe].
Qed.

Lemma reinit_client_done_safe k h v s :
  server_inv s -> is_Some (sv_conns s !! k) -> safe (reinit_client_done k h v s).
Proof.
  intros Hinv [p Hk]. unfold reinit_client_done. destruct (sv_clients s !! _) as [ce|] eqn:Ec; [|by apply fails_safe].
  destruct (negb (ce_reinit ce)); [by apply fails_safe|]. unfold respond. cbn [mbind option_bind]. rewrite Hk. cbn [mbind option_bind].
  destruct (e_send v); cbn [mbind option_bind negb Z.eqb]; [|by apply fails_safe]. cbv zeta.
  assert (Hinv1 : server_inv (put_client (h_client_id h) (set_ce_reinit false ce) s)) by (by apply (put_client_inv _ _ s _ ce)).
  set (s1 := put_client _ _ _) in *. eexists _, _, _. split; [done|].
  destruct (sv_recovery s1 =? 0); [done|]. destruct (_ =? 0); apply (inv_links s1); try done; apply Hinv1.
Qed.

Lemma mark_client_exception_ok c k s :
  server_inv s -> sv_conns s !! k = Some (Some c) ->
  exists s', mark_client_exception c k s = Some s' /\ server_inv s'.
Proof.
  intros Hinv Hp. pose proof Hinv as (Hl & Ho & Hk). unfold mark_client_exception.
  destruct (sv_clients s !! c) as [ce|] eqn:Ec.
  - pose proof (peer_client _ _ _ _ Hinv Hp Ec) as Hck.
    rewrite delete_connection_live by (cbn; rewrite Hp; by eexists). eexists. split; [done|]. split_and!; cbn.
    + unfold lock_view. by rewrite (view_put ce_locks _ c ce).
    + unfold obj_view. by rewrite (view_put ce_objects _ c ce).
    + change (link_inv (link_view (<[c := set_ce_conn None ce]> (sv_clients s))) (delete k (sv_conns s)) (sv_jettys s)
        (sv_invalid s) (except_insert c (sv_except s)) (sv_client_num s)).
      unfold link_view. rewrite fmap_insert. apply link_inv_break; [done|]. by rewrite lookup_fmap, Ec, <- Hck.
  - rewrite delete_connection_live by (rewrite Hp; by eexists). eexists. split; [done|]. apply (inv_links s); try done.
    apply (link_inv_close _ _ _ _ _ _ Hk). intros c' j' H. pose proof (ki_conn _ _ _ _ _ _ Hk _ _ _ H) as H'.
    rewrite Hp in H'. injection H' as <-. unfold link_view in H. by rewrite lookup_fmap, Ec in H.
Qed.

Lemma check_hdr_len h : check_control_msg_hdr h = true -> h_type h <> CLIENT_INIT_REQUEST -> h_type h <> CLIENT_REINIT_REQUEST ->
  h_total_len h - h_hdr_len h < 2 ^ 16.
Proof.
  unfold check_control_msg_hdr. intros H Hi Hr. apply andb_true_iff in H as [H Ht%Z.leb_le]. apply andb_true_iff in H as [H Hl%Z.leb_le].
  apply andb_true_iff in H as [_ H]. unfold DLOCK_MAX_CTRL_MSG_SIZE in Ht.
  destruct (h_type h); try done; apply andb_true_iff in H as [_ H%Z.eqb_eq]; rewrite H; unfold DLOCK_FIXED_CTRL_MSG_HDR_LEN; lia.
Qed.

(** Any message that a client sends properly. *)
Lemma process_control_msg_safe k h b v s :
  server_inv s -> is_Some (sv_conns s !! k) -> proper s (EvMsg k h b v) = true ->
  safe (process_control_msg init_len k h b v s).
Proof.
  intros Hinv [peer Hp] Hprop. unfold process_control_msg. rewrite Hp. cbn [mbind option_bind].
  destruct (check_control_msg_hdr h) eqn:Eh; cbn [negb]; [|by apply fails_safe].
  destruct (check_msg_type_range h s); cbn [negb]; [|by apply fails_safe].
  destruct (check_control_msg_client_id h peer) eqn:Eid; cbn [negb].
  2: { destruct peer as [c|]; [|done]. destruct (mark_client_exception_ok c k s Hinv Hp) as (s' & -> & Hinv').
       cbn [mbind option_bind]. by apply fails_safe. }
  cbn [proper] in Hprop. apply andb_true_iff in Hprop as [Hb Hprop].
  assert (Hsome : is_Some (sv_conns s !! k)) by (rewrite Hp; by eexists).
  pose proof (check_hdr_len h Eh) as Hlen.
  assert (Hreg : match sv_conns s !! k with Some (Some _) => true | _ => false end = true ->
    sv_conns s !! k = Some (Some (h_client_id h)) /\ linked (h_client_id h) s).
  { rewrite Hp. destruct peer as [c|]; [|done]. intros _. apply Z.eqb_eq in Eid. rewrite Eid in *.
    split; [done|]. by apply (peer_linked s k). }
  unfold g_control_do. unfold body_ok in Hb. cbv zeta in Hb.
  destruct (h_type h) eqn:Et; try (specialize (Hlen ltac:(done) ltac:(done))); try (destruct (Hreg Hprop) as [Hpk Hlk]);
    destruct b as [[]|]; try done; cbn [as_init as_get_lock as_release as_batch_get as_batch_release as_create
      as_get_object as_release_object as_destroy as_update].
  all: try (apply andb_true_iff in Hprop as [Hun Hprop]).
  all: try by apply init_client_do_safe.
  all: try by apply deinit_client_do_safe.
  all: try by apply client_heartbeat_do_safe.
  all: try by apply reinit_client_done_safe.
  all: try by apply (release_lock_do_safe size_ total size_u32).
  all: try by apply release_object_do_safe.
  all: try by apply (destroy_object_do_safe size_ total total_u32).
  all: try by apply fails_safe.
  - apply bool_decide_eq_true in Hb as (H1 & H2 & H3). by apply (get_lock_do_safe size_ total size_u32).
  - apply bool_decide_eq_true in Hb as (H1 & H2). by apply (batch_get_lock_do_safe size_ total size_u32).
  - apply Z.leb_le in Hb. by apply (batch_release_lock_do_safe size_ total size_u32).
  - apply bool_decide_eq_true in Hb as (H1 & H2 & H3). by apply (create_object_do_safe size_ total total_u32).
  - apply bool_decide_eq_true in Hb as (H1 & H2). by apply get_object_do_safe.
  - apply andb_true_iff in Hun as [Hun Hsend]. apply reinit_client_do_safe; try done.
    apply orb_true_iff in Hprop as [H%bool_decide_eq_true|H]; auto.
  - apply bool_decide_eq_true in Hb as (H1 & H2). by apply (batch_update_locks_do_safe size_ total size_u32).
Qed.

Lemma control_step_safe ev s :
  server_inv s -> proper s ev = true -> safe (control_step init_len ev s).
Proof.
  intros Hinv Hprop. destruct ev as [k|k h b v|k]; cbn [control_step].
  - destruct (sv_conns s !! k) eqn:E; [by apply fails_safe|]. eexists _, _, _. split; [done|].
    apply (inv_links s); try done. destruct Hinv as (_ & _ & Hk). by apply link_inv_accept.
  - destruct (sv_conns s !! k) eqn:E; [|by apply fails_safe]. apply process_control_msg_safe; [done|by eexists|done].
  - destruct (sv_conns s !! k) as [[c|]|] eqn:E; [| |by apply fails_safe]; unfold conn_exception_process; rewrite E; cbn [mbind option_bind].
    + destruct (mark_client_exception_ok c k s Hinv E) as (s' & -> & H). cbn [mbind option_bind]. by apply fails_safe.
    + rewrite delete_connection_live by (rewrite E; by eexists). cbn [mbind option_bind]. apply fails_safe.
      apply (inv_links s); try done. destruct Hinv as (_ & _ & Hk). apply (link_inv_close _ _ _ _ _ _ Hk).
      intros c' j' H. pose proof (ki_conn _ _ _ _ _ _ Hk _ _ _ H). congruence.
Qed.

End server.

Lemma server_inv_init (mem : Z) (objects : nat) (rec : Z) :
  0 < mem < 2 ^ 32 - 1 -> (0 < objects)%nat -> server_inv mem (Z.of_nat objects) (server_init mem objects rec).
Proof.
  intros Hm Ho. unfold server_init. split_and!; cbn.
  - constructor; cbn.
    + intros id p H. by rewrite lookup_empty in H.
    + intros p e H. by rewrite lookup_empty in H.
    + intros d p H. by rewrite lookup_empty in H.
    + done.
    + unfold in_int. lia.
    + split; [|done]. split; [apply (mem_inv_init mem Hm)|constructor].
    + intros c l id p H. unfold lock_view in H. by rewrite fmap_empty, lookup_empty in H.
  - constructor; cbn.
    + intros id p H. by rewrite lookup_empty in H.
    + intros p e H. by rewrite lookup_empty in H.
    + intros d p H. by rewrite lookup_empty in H.
    + done.
    + unfold in_int. lia.
    + by apply cells_inv_init.
    + intros c l id p H. unfold obj_view in H. by rewrite fmap_empty, lookup_empty in H.
  - unfold server_link_inv, link_view. cbn. rewrite fmap_empty. constructor.
    + intros c k j H. by rewrite lookup_empty in H.
    + intros k c H. by rewrite lookup_empty in H.
    + intros c. rewrite elem_of_nil. split; [done|]. intros [j H]. by rewrite lookup_empty in H.
    + intros c ko jo H. by rewrite lookup_empty in H.
    + intros c1 c2 k1 k2 j H. by rewrite lookup_empty in H.
    + split; [constructor|]. intros j H. by apply elem_of_nil in H.
    + intros j [u H]. by rewrite lookup_empty in H.
    + done.
Qed.
