(* ===== verification/DlockStore.v ===== *)
(** * The dlock server: the control plane and the data path together

    The control thread creates and deletes locks, and the data thread works on
    their bytes; each message is one step, the threads interleave between
    messages.  This file runs both on one server and shows that what they
    implement together is a store of lock objects ([lock_store]): a message of
    the data path acts on the objects it names, and a control message leaves
    the state of every other lock as it was, creates locks in the unlocked
    state and deletes a lock only when its last lease ends
    ([server_refines]). *)

From S2P Require Import Prelude Memory DlockMemory Dlock DlockServer DlockControl DlockControlSafe DlockFrame DlockObjects DlockControlInv DlockSessions.

(** ** Both threads *)

Inductive server_event :=
| EvControl (ev : control_event)
| EvData (client_id now : Z) (l : list lock_cmd).

Inductive server_reply :=
| ReControl (ret : Z) (r : option (Z * reply))
| ReData (r : option (list lock_cmd)).

Definition set_lock_bytes (mem : list Z) (s : server) : server :=
  let lm := lt_memory (sv_locks s) in
  set_locks (set_lt_memory (LockMemory mem (m_is_primary lm) (m_free_memory_map lm)) (sv_locks s)) s.

Definition server_step (init_len : Z) (ev : server_event) (s : server) : option (server_reply * server) :=
  match ev with
  | EvControl ev => '(ret, r, s) ← control_step init_len ev s; Some (ReControl ret r, s)
  | EvData client_id now l =>
    '(mem, r) ← do_lock client_id now l (lock_bytes (sv_locks s));
    Some (ReData r, set_lock_bytes mem s)
  end.

Fixpoint server_run (init_len : Z) (evs : list server_event) (s : server) : option server :=
  match evs with
  | [] => Some s
  | ev :: evs => '(_, s) ← server_step init_len ev s; server_run init_len evs s
  end.

(** A command for a lock that exists, with its type and fields in range. *)
Definition cmd_proper (s : server) (c : lock_cmd) : Prop :=
  cmd_ls_wf c /\ match cmd_type c with Some ty => (cmd_offset c, ty) ∈ blocks (sv_locks s) | None => False end.

#[global] Instance cmd_proper_dec s c : Decision (cmd_proper s c).
Proof.
  unfold cmd_proper, cmd_ls_wf, atomic_ls_wf, rw_ls_wf, fair_ls_wf, bits_wf, in_s32. destruct c; simpl; apply _.
Defined.

#[global] Instance in_s32_dec x : Decision (in_s32 x).
Proof. unfold in_s32. apply _. Defined.

Definition event_proper (s : server) (ev : server_event) : bool :=
  match ev with
  | EvControl ev => proper s ev
  | EvData client_id _ l => bool_decide (in_s32 client_id /\ Forall (cmd_proper s) l)
  end.

Fixpoint server_ok (init_len : Z) (evs : list server_event) (s : server) : bool :=
  match evs with
  | [] => true
  | ev :: evs =>
    event_proper s ev &&
    match server_step init_len ev s with Some (_, s') => server_ok init_len evs s' | None => true end
  end.

Definition is_update (ev : control_event) : bool :=
  match ev with
  | EvMsg _ h _ _ => match h_type h with BATCH_UPDATE_LOCKS_REQUEST => true | _ => false end
  | _ => false
  end.

(** The state a lock starts the message with: the one it had, or the unlocked
    one when it did not exist. *)
Definition starts_as (locks : gmap Z lock_cell) (off : Z) (l : lock_cell) : Prop :=
  locks !! off = Some l \/ (locks !! off = None /\ l = zero_cell (cell_type l)).

(** What an event may do to the store. *)
Inductive store_step : server_event -> gmap Z lock_cell -> server_reply -> gmap Z lock_cell -> Prop :=
| store_data client_id now l r locks locks' :
    locks_do_lock client_id now l locks = Some (locks', r) ->
    store_step (EvData client_id now l) locks (ReData r) locks'
| store_control ev ret r locks locks' :
    is_update ev = false ->
    (forall off l, locks' !! off = Some l -> starts_as locks off l) ->
    store_step (EvControl ev) locks (ReControl ret r) locks'
| store_update ev ret r locks locks' :
    is_update ev = true ->
    (forall off l', locks' !! off = Some l' -> exists l, starts_as locks off l /\ rtc synced_with l l') ->
    store_step (EvControl ev) locks (ReControl ret r) locks'.

(** The leases an event ends: the sender of a release gives up the locks it
    names, and a registration at a full server may evict a client that lost
    its connection. *)
Definition gives_up (s : server) (ev : server_event) (c id : Z) : Prop :=
  match ev with
  | EvControl (EvMsg _ h b _) =>
    match h_type h, b with
    | RELEASE_LOCK_REQUEST, Some (BReleaseLock i) => c = h_client_id h /\ id = i
    | BATCH_RELEASE_LOCK_REQUEST, Some (BBatchRelease _ l) => c = h_client_id h /\ id ∈ l
    | CLIENT_INIT_REQUEST, _ => sv_client_num s = MAX_NUM_CLIENT /\ c ∈ sv_except s
    | _, _ => False
    end
  | _ => False
  end.

(** A lock disappears only when the event ends every lease on it. *)
Definition only_released (ev : server_event) (s s' : server) : Prop :=
  forall off, is_Some (lock_store (sv_locks s) !! off) -> lock_store (sv_locks s') !! off = None ->
  exists p e, lt_heap (sv_locks s) !! p = Some e /\ le_offset e = off /\
    forall c, is_Some (le_leases e !! c) -> gives_up s ev c (le_id e).

(** ** Messages that do not touch locks *)

Definition kept (s : server) (r : result) : Prop :=
  match r with Some (_, _, s') => sv_locks s' = sv_locks s | None => True end.

(** Splits a handler into its branches. *)
Ltac branches :=
  repeat (cbn [mbind option_bind] in *;
    match goal with
    | |- context [mbind _ ?e] => let E := fresh "E" in destruct e eqn:E
    | |- context [if ?b then _ else _] => destruct b
    | |- context [match ?e with _ => _ end] => let E := fresh "E" in destruct e eqn:E
    end); cbn [mbind option_bind] in *.

Lemma destroy_object_entry_kept p s s' : destroy_object_entry p s = Some s' -> sv_locks s' = sv_locks s.
Proof. unfold destroy_object_entry. cbv zeta. branches; try done; by intros [= <-]. Qed.

Lemma destroy_if_kept (b : bool) p s s' :
  (if b then destroy_object_entry p s else Some s) = Some s' -> sv_locks s' = sv_locks s.
Proof. destruct b; [apply destroy_object_entry_kept|by intros [= <-]]. Qed.

Lemma respond_kept k r v s : kept s (respond k r v s).
Proof. unfold kept, respond. by branches. Qed.

Lemma respond_from k r v s s0 : sv_locks s = sv_locks s0 -> kept s0 (respond k r v s).
Proof. unfold kept. intros <-. apply respond_kept. Qed.

Ltac kept_auto :=
  branches; try done; apply respond_from; simplify_eq; try done;
  match goal with H : (if _ then destroy_object_entry _ _ else _) = Some _ |- _ => by rewrite (destroy_if_kept _ _ _ _ H) end.

Lemma create_object_kept h b v s : kept s (create_object_do h b v s).
Proof. unfold create_object_do, refresh_object_entry. cbv zeta. kept_auto. Qed.

Lemma destroy_object_kept h b v s : kept s (destroy_object_do h b v s).
Proof. unfold destroy_object_do. cbv zeta. kept_auto. Qed.

Lemma get_object_kept h b v s : kept s (get_object_do h b v s).
Proof. unfold get_object_do. cbv zeta. kept_auto; by case_bool_decide. Qed.

Lemma release_object_kept h b v s : kept s (release_object_do h b v s).
Proof. unfold release_object_do. cbv zeta. kept_auto. Qed.

Lemma clear_object_kept c now id p s s' : clear_object c now id p s = Some s' -> sv_locks s' = sv_locks s.
Proof.
  unfold clear_object. cbv zeta. branches; try done; try (by intros [= <-]); by intros ->%destroy_object_entry_kept.
Qed.

Lemma clear_objects_kept c now l : forall s s', clear_objects c now l s = Some s' -> sv_locks s' = sv_locks s.
Proof.
  induction l as [|[id p] l IH]; intros s s'; cbn [clear_objects]; [by intros [= <-]|].
  destruct (clear_object c now id p s) as [s1|] eqn:E; [|done]. cbn [mbind option_bind]. intros H%IH. by rewrite H, (clear_object_kept _ _ _ _ _ _ E).
Qed.

Lemma delete_jetty_kept j s s' : delete_jetty j s = Some s' -> sv_locks s' = sv_locks s.
Proof. unfold delete_jetty. branches; [by intros [= <-]|done]. Qed.

Lemma delete_connection_kept k s s' : delete_dlock_connection k s = Some s' -> sv_locks s' = sv_locks s.
Proof. unfold delete_dlock_connection. branches; [by intros [= <-]|done]. Qed.

Lemma mark_exception_kept c k s s' : mark_client_exception c k s = Some s' -> sv_locks s' = sv_locks s.
Proof. unfold mark_client_exception. cbv zeta. intros H%delete_connection_kept. rewrite H. by case_match. Qed.

Lemma modify_jetty_kept j v s b s' : modify_jetty_mgr_to_invalid j v s = Some (b, s') -> sv_locks s' = sv_locks s.
Proof. unfold modify_jetty_mgr_to_invalid. branches; try done; by intros [= _ <-]. Qed.

Lemma deinit_kept k h v s : kept s (deinit_client_do k h v s).
Proof.
  unfold deinit_client_do, fails, kept. destruct (check_msg_body_len_invalid _ _); [done|].
  destruct (sv_clients s !! h_client_id h) as [ce|]; [|done].
  destruct (modify_jetty_mgr_to_invalid _ v s) as [[ok s1]|] eqn:E; [|done]. cbn [mbind option_bind].
  apply modify_jetty_kept in E. cbv zeta. destruct (negb ok); [done|]. destruct (_ <=? 0); [done|].
  set (s2 := set_client_num _ _). assert (E2 : sv_locks s2 = sv_locks s) by done. clearbody s2.
  pose proof (respond_from (Some k) RPlain v s2 s E2) as Hr. unfold kept in Hr.
  destruct (respond (Some k) RPlain v s2) as [[[ret r] s3]|]; [|done]. cbn [mbind option_bind].
  destruct (negb _); [done|]. destruct (delete_dlock_connection k s3) as [s4|] eqn:E4; [|done]. cbn [mbind option_bind].
  by rewrite (delete_connection_kept _ _ _ E4).
Qed.

Lemma heartbeat_kept k h v s : kept s (client_heartbeat_do k h v s).
Proof. unfold client_heartbeat_do. branches; try done. apply respond_kept. Qed.

Lemma reinit_done_kept k h v s : kept s (reinit_client_done k h v s).
Proof.
  unfold reinit_client_done, fails. destruct (sv_clients s !! _) as [ce|]; [|done]. destruct (negb _); [done|].
  pose proof (respond_kept (Some k) RPlain v s) as Hr. unfold kept in *.
  destruct (respond (Some k) RPlain v s) as [[[ret r] s3]|]; [|done]. cbn [mbind option_bind]. cbv zeta.
  destruct (negb _); [done|]. by repeat case_match.
Qed.

(** ** Messages that delete locks *)

Definition shrunk (R : Z -> Z -> Prop) (s : server) (r : result) : Prop :=
  match r with Some (_, _, s') => shrinks R (sv_locks s) (sv_locks s') | None => True end.

Lemma kept_shrunk R s r : kept s r -> shrunk R s r.
Proof. unfold kept, shrunk. destruct r as [[[ret rp] s']|]; [|done]. intros ->. apply shrinks_refl. Qed.

(** A handler that goes on from [s1]. *)
Lemma kept_after R s s1 r : shrinks R (sv_locks s) (sv_locks s1) -> kept s1 r -> shrunk R s r.
Proof. unfold kept, shrunk. destruct r as [[[ret rp] s']|]; [|done]. by intros H ->. Qed.

Section release.
Context (size_ total : Z).
Hypothesis size_u32 : 0 < size_ < 2 ^ 32 - 1.

Lemma unlink_lock_shrinks c ce id p s s' :
  server_inv size_ total s -> sv_clients s !! c = Some ce -> ce_locks ce !! id = Some p ->
  unlink_lock c ce id p s = Some s' -> shrinks (fun c' i => c' = c /\ i = id) (sv_locks s) (sv_locks s').
Proof.
  intros (Hl & _) Hc Hp. destruct (li_held _ _ _ _ Hl c (ce_locks ce) id p) as (e & He & <- & _);
    [unfold lock_view; by rewrite lookup_fmap, Hc|done|].
  unfold unlink_lock. destruct (drop_lease _ _ _ _) as [t|] eqn:E; [|done]. intros [= <-].
  by apply (drop_lease_shrinks _ _ _ _ _ _ He E).
Qed.

Lemma release_lock_shrunk h b v s :
  server_inv size_ total s -> shrunk (fun c i => c = h_client_id h /\ b = Some i) s (release_lock_do h b v s).
Proof.
  intros Hinv. unfold release_lock_do, fails. destruct (check_msg_body_len_invalid _ _); [apply shrinks_refl|].
  destruct (sv_clients s !! _) as [ce|] eqn:Ec; [|apply shrinks_refl]. destruct b as [id|]; [|done]. cbn [mbind option_bind].
  destruct (ce_locks ce !! id) as [p|] eqn:Ep; [|apply shrinks_refl].
  destruct (unlink_lock _ ce id p s) as [s1|] eqn:E; [|done]. cbn [mbind option_bind].
  apply (kept_after _ _ s1); [|apply respond_kept].
  apply (shrinks_mono (fun c' i => c' = h_client_id h /\ i = id)); [by intros ? ? [-> ->]|].
  by apply (unlink_lock_shrinks _ _ _ _ _ _ Hinv Ec Ep E).
Qed.

Lemma batch_release_loop_shrinks (R : Z -> Z -> Prop) c l : forall n s s',
  server_inv size_ total s -> (forall id, id ∈ l -> R c id) ->
  batch_release_loop c n l s = Some s' -> shrinks R (sv_locks s) (sv_locks s').
Proof.
  induction l as [|id l IH]; intros n s s' Hinv HR; cbn [batch_release_loop]; (destruct (n <=? 0); [intros [= <-]; apply shrinks_refl|]); [done|].
  destruct (sv_clients s !! c) as [ce|] eqn:Ec; [|done]. cbn [mbind option_bind].
  destruct (ce_locks ce !! id) as [p|] eqn:Ep; [|apply IH; [done|]; intros i Hi; apply HR; by right].
  destruct (unlink_lock_ok size_ total size_u32 s c ce id p Hinv Ec Ep) as (s1 & E & Hinv1 & _). rewrite E. cbn [mbind option_bind].
  intros H. apply (shrinks_trans _ _ (sv_locks s1)); [|apply (IH (n - 1) s1 s' Hinv1); [|done]; intros i Hi; apply HR; by right].
  apply (shrinks_mono (fun c' i => c' = c /\ i = id)); [intros ? ? [-> ->]; apply HR; by left|].
  by apply (unlink_lock_shrinks _ _ _ _ _ _ Hinv Ec Ep E).
Qed.

Lemma batch_release_shrunk h n l v s :
  server_inv size_ total s -> shrunk (fun c i => c = h_client_id h /\ i ∈ l) s (batch_release_lock_do h (Some (n, l)) v s).
Proof.
  intros Hinv. unfold batch_release_lock_do, fails. destruct (_ <? _); [apply shrinks_refl|].
  cbn [mbind option_bind]. destruct (check_msg_body_len_invalid _ _); [apply shrinks_refl|].
  destruct (sv_clients s !! _) as [ce|]; [|apply shrinks_refl].
  destruct (batch_release_loop _ n l s) as [s1|] eqn:E; [|done]. cbn [mbind option_bind].
  apply (kept_after _ _ s1); [|apply respond_kept]. by apply (batch_release_loop_shrinks _ (h_client_id h) l n s s1 Hinv).
Qed.
End release.

Lemma delete_except_loop_shrinks l v : forall s ret s',
  delete_except_loop l v s = Some (ret, s') -> shrinks (fun c _ => c ∈ l) (sv_locks s) (sv_locks s').
Proof.
  induction l as [|c l IH]; intros s ret s'; cbn [delete_except_loop]; [intros [= _ <-]; apply shrinks_refl|].
  destruct (sv_clients s !! c) as [ce|]; [|intros [= _ <-]; apply shrinks_refl].
  destruct (modify_jetty_mgr_to_invalid _ v s) as [[ok s1]|] eqn:E; [|done]. cbn [mbind option_bind]. apply modify_jetty_kept in E.
  destruct (negb ok).
  { rewrite <- E. intros H%IH. apply (shrinks_mono (fun c' _ => c' ∈ l)); [|done]. intros c' _. by right. }
  cbn [sv_locks put_client set_clients]. rewrite E.
  destruct (clear_locks _ _ _) as [t|] eqn:Et; [|done]. cbn [mbind option_bind].
  destruct (clear_objects _ _ _ _) as [s2|] eqn:E2; [|done]. cbn [mbind option_bind]. intros [= _ <-].
  apply clear_objects_kept in E2. cbn [sv_locks set_except set_client_num set_clients]. rewrite E2.
  apply (shrinks_mono (fun c' _ => c' = c)); [intros c' _ ->; by left|]. by apply (clear_locks_shrinks _ _ _ _ Et).
Qed.

Lemma delete_except_shrinks v s ret s' :
  delete_except_client_entry v s = Some (ret, s') -> shrinks (fun c _ => c ∈ sv_except s) (sv_locks s) (sv_locks s').
Proof.
  unfold delete_except_client_entry. destruct (sv_except s); [intros [= _ <-]; apply shrinks_refl|apply delete_except_loop_shrinks].
Qed.

Lemma delete_invalid_kept now q : forall s s', delete_invalid_loop now q s = Some s' -> sv_locks s' = sv_locks s.
Proof.
  induction q as [|[j t] q IH]; intros s s'; cbn [delete_invalid_loop]; [by intros [= <-]|].
  destruct (_ && _); [by intros [= <-]|]. destruct (delete_jetty j s) as [s1|] eqn:E; [|done]. cbn [mbind option_bind].
  intros H%IH. by rewrite H, (delete_jetty_kept _ _ _ E).
Qed.

Lemma init_primary_kept v s j s' : init_client_primary v s = Some (j, s') -> sv_locks s' = sv_locks s.
Proof.
  unfold init_client_primary, delete_invalid_jetty_mgr. destruct (delete_invalid_loop _ _ s) as [s1|] eqn:E; [|done].
  apply delete_invalid_kept in E. cbn [mbind option_bind]. destruct (e_jetty v); by intros [= _ <-].
Qed.

Lemma update_client_kept c k j b s ret s' : update_client c k j b s = (ret, s') -> sv_locks s' = sv_locks s.
Proof. unfold update_client. repeat case_match; by intros [= _ <-]. Qed.

Lemma delete_client_kept c s s' : delete_client_entry c s = Some s' -> sv_locks s' = sv_locks s.
Proof.
  unfold delete_client_entry. destruct (sv_clients s !! c) as [ce|]; [|by intros [= <-]].
  destruct (ce_jetty ce) as [j|]; [|by intros [= <-]]. destruct (delete_jetty j s) as [s1|] eqn:E; [|done].
  cbn [mbind option_bind]. intros [= <-]. by apply (delete_jetty_kept _ _ _ E).
Qed.

(** Deleting a channel, then failing. *)
Lemma undo_kept j ret s s0 : sv_locks s = sv_locks s0 -> kept s0 (s1 ← delete_jetty j s; fails ret s1).
Proof.
  intros E. destruct (delete_jetty j s) as [s1|] eqn:E1; [|done]. cbn. by rewrite (delete_jetty_kept _ _ _ E1).
Qed.

Lemma reinit_detach_kept k c s d :
  reinit_detach k c s = Some d -> match d with inl s' | inr s' => sv_locks s' = sv_locks s end.
Proof.
  unfold reinit_detach. cbv zeta. destruct (sv_clients s !! c) as [ce|]; [|by intros [= <-]].
  destruct (_ && _); [by intros [= <-]|]. destruct (_ <=? 0); [by intros [= <-]|].
  destruct (ce_jetty ce) as [j|]; [|done]. cbn [mbind option_bind].
  destruct (delete_jetty j _) as [s1|] eqn:E; [|done]. cbn [mbind option_bind]. apply delete_jetty_kept in E.
  destruct (ce_conn _) as [k'|]; [|by intros [= <-]]. destruct (k' =? k); [by intros [= <-]|].
  destruct (delete_dlock_connection k' s1) as [s2|] eqn:E2; [|done]. intros [= <-]. apply delete_connection_kept in E2.
  by transitivity (sv_locks s1).
Qed.

Section sessions.
Variable init_len : Z.

(** The end of a registration. *)
Lemma init_link_kept c k j v s :
  kept s (let '(ret, s) := update_client c k j false s in
          if negb (ret =? 0) then s ← delete_jetty j s; fails ret s
          else
            '(ret, r, s) ← respond (Some k) (RInit c (sv_state s)) v s;
            if negb (ret =? 0) then s ← delete_client_entry c s; fails ret s
            else Some (0, r, set_client_num (sv_client_num s + 1) s)).
Proof.
  destruct (update_client c k j false s) as [ret s1] eqn:E. apply update_client_kept in E.
  destruct (negb _); [by apply undo_kept|].
  pose proof (respond_from (Some k) (RInit c (sv_state s1)) v s1 s E) as Hr. unfold kept in Hr.
  destruct (respond _ _ v s1) as [[[ret2 r] s2]|]; [|done]. cbn [mbind option_bind].
  destruct (negb _); [|done]. destruct (delete_client_entry c s2) as [s3|] eqn:E3; [|done].
  cbn. by rewrite (delete_client_kept _ _ _ E3).
Qed.

Lemma init_client_shrunk k h b v s :
  shrunk (fun c _ => sv_client_num s = MAX_NUM_CLIENT /\ c ∈ sv_except s) s (init_client_do init_len k h b v s).
Proof.
  unfold init_client_do. destruct (check_msg_body_len_invalid _ _); [apply shrinks_refl|]. destruct b as [m|]; [|done].
  cbn [mbind option_bind]. destruct (negb _); [apply shrinks_refl|]. cbv zeta.
  destruct (if sv_client_num s =? MAX_NUM_CLIENT then _ else _) as [[ret s1]|] eqn:E; [|done]. cbn [mbind option_bind].
  apply (kept_after _ _ s1).
  { destruct (Z.eqb_spec (sv_client_num s) MAX_NUM_CLIENT); [|injection E as _ <-; apply shrinks_refl].
    apply (shrinks_mono (fun c _ => c ∈ sv_except s)); [done|]. by apply (delete_except_shrinks _ _ _ _ E). }
  destruct (_ && _); [done|]. destruct (_ <? 0); [done|].
  destruct (init_client_primary v s1) as [[j s2]|] eqn:E2; [|done]. apply init_primary_kept in E2. cbn [mbind option_bind].
  destruct j as [j|]; [|done]. unfold kept. rewrite <- E2. apply init_link_kept.
Qed.

Lemma reinit_client_kept k h b v s : kept s (reinit_client_do init_len k h b v s).
Proof.
  unfold reinit_client_do. destruct (check_msg_body_len_invalid _ _); [done|]. destruct b as [m|]; [|done].
  cbn [mbind option_bind]. destruct (negb _); [done|]. cbv zeta.
  destruct (init_client_primary v s) as [[j s1]|] eqn:E; [|done]. apply init_primary_kept in E. cbn [mbind option_bind].
  destruct j as [j|]; [|done]. destruct (reinit_detach k _ s1) as [d|] eqn:Ed; [|done]. apply reinit_detach_kept in Ed. cbn [mbind option_bind].
  destruct d as [s2|s2]; [|apply undo_kept; congruence]. rewrite E in Ed. clear E s1.
  destruct (_ <? _); [by apply undo_kept|]. destruct (update_client _ k j true _) as [ret s3] eqn:E3. apply update_client_kept in E3.
  assert (E4 : sv_locks s3 = sv_locks s) by (rewrite E3; done). clear E3.
  destruct (negb _); [by apply undo_kept|].
  pose proof (respond_from (Some k) (RInit (h_client_id h) (sv_state s3)) v s3 s E4) as Hr. unfold kept in Hr.
  destruct (respond _ _ v s3) as [[[ret2 r] s5]|]; [|done]. cbn [mbind option_bind].
  destruct (negb _); [by apply undo_kept|done].
Qed.

(** ** Messages that create locks *)

Context (size_ total : Z).
Hypothesis size_u32 : 0 < size_ < 2 ^ 32 - 1.
Abbreviation server_inv := (server_inv size_ total).

Definition grown (upd : bool) (s : server) (r : result) : Prop :=
  match r with Some (_, _, s') => grows upd (sv_locks s) (sv_locks s') | None => True end.

Lemma grown_after upd s s1 r : grows upd (sv_locks s) (sv_locks s1) -> kept s1 r -> grown upd s r.
Proof. unfold kept, grown. destruct r as [[[ret rp] s']|]; [|done]. by intros H ->. Qed.

Lemma get_lock_grown h b v s : server_inv s -> grown false s (get_lock_do h b v s).
Proof.
  intros (Hl & _). unfold get_lock_do. destruct b as [b|]; [|done]. cbn [mbind option_bind].
  destruct (check_msg_body_len_invalid _ _); [apply grows_refl|].
  destruct (sv_clients s !! _) as [ce|]; [|apply grows_refl].
  destruct (get_lock_by_msg b (sv_locks s)) as [[[r b'] t]|] eqn:E; [|done]. cbn [mbind option_bind].
  pose proof (get_lock_by_msg_grows size_ size_u32 false _ _ _ _ _ _ Hl E) as Hg.
  destruct r as [p|]; [|done]. destruct (link_lock _ ce _ p _ _) as [[fr s1]|] eqn:El; [|done]. cbn [mbind option_bind].
  apply (grown_after _ _ s1); [|apply respond_kept].
  apply (grows_trans _ _ _ _ Hg (grows_same _ _ _ (link_lock_same _ _ _ _ _ _ _ _ El))).
Qed.

Lemma batch_get_grown h n l v s :
  server_inv s -> n <= zlen l -> Forall get_entry_ok l -> grown false s (batch_get_lock_do h (Some (n, l)) v s).
Proof.
  intros Hinv Hn Hok. unfold batch_get_lock_do. destruct (sv_clients s !! _) as [ce|] eqn:Ec; [|apply grows_refl].
  cbn [mbind option_bind].
  destruct (batch_get_loop_ok size_ total size_u32 (h_client_id h) (u16 (h_total_len h - h_hdr_len h)) l
              DLOCK_BATCH_GET_LOCK_BODY_LEN n [] s) as (r & -> & H); [done|by eexists|done|done|].
  cbn [mbind option_bind]. destruct r as [[acc s']|s']; destruct H as (_ & _ & Hg); [|done].
  apply (grown_after _ _ s' _ Hg). apply respond_kept.
Qed.

Lemma batch_update_grown k h n l v s :
  server_inv s -> n <= zlen l -> Forall update_entry_ok l -> grown true s (batch_update_locks_do k h (Some (n, l)) v s).
Proof.
  intros Hinv Hn Hok. unfold batch_update_locks_do. destruct (sv_clients s !! _) as [ce|] eqn:Ec; [|apply grows_refl].
  destruct (negb _); [apply grows_refl|]. cbn [mbind option_bind].
  destruct (batch_update_loop_ok size_ total size_u32 (h_client_id h) (u16 (h_total_len h - h_hdr_len h)) l
              DLOCK_BATCH_UPDATE_LOCK_BODY_LEN n [] s) as (acc & s' & -> & _ & _ & Hg); [done|by eexists|done|done|].
  cbn [mbind option_bind]. apply (grown_after _ _ s' _ Hg). apply respond_kept.
Qed.

(** ** The threads *)

Definition moved (ev : control_event) (s : server) (r : result) : Prop :=
  grown (is_update ev) s r \/ shrunk (gives_up s (EvControl ev)) s r.

Lemma kept_moved ev s r : kept s r -> moved ev s r.
Proof. intros H. right. by apply kept_shrunk. Qed.

Lemma shrunk_mono (R R' : Z -> Z -> Prop) s r : (forall c id, R c id -> R' c id) -> shrunk R s r -> shrunk R' s r.
Proof. unfold shrunk. destruct r as [[[ret rp] s']|]; [|done]. apply shrinks_mono. Qed.

Lemma message_moved k h b v s :
  server_inv s -> body_ok h b = true -> moved (EvMsg k h b v) s (g_control_do init_len k h b v s).
Proof.
  intros Hinv Hb. unfold g_control_do, moved, is_update, gives_up. unfold body_ok in Hb. cbv zeta in Hb.
  destruct (h_type h) eqn:Et; try (right; apply kept_shrunk;
    first [ apply deinit_kept | apply heartbeat_kept | apply reinit_done_kept | apply reinit_client_kept
          | apply create_object_kept | apply get_object_kept | apply release_object_kept | apply destroy_object_kept
          | done ]).
  - right. apply init_client_shrunk.
  - left. by apply get_lock_grown.
  - destruct b as [[]|]; try done. right. eapply shrunk_mono; [|by apply (release_lock_shrunk size_ total)].
    cbn. by intros c i [-> [= ->]].
  - destruct b as [[]|]; try done. apply bool_decide_eq_true in Hb as (H1 & H2). left. by apply batch_get_grown.
  - destruct b as [[]|]; try done. right. by apply (batch_release_shrunk size_ total).
  - destruct b as [[]|]; try done. apply bool_decide_eq_true in Hb as (H1 & H2). left. by apply batch_update_grown.
Qed.

Lemma control_step_moved ev s :
  server_inv s -> proper s ev = true -> moved ev s (control_step init_len ev s).
Proof.
  intros Hinv Hp. destruct ev as [k|k h b v|k]; cbn [control_step].
  - apply kept_moved. by destruct (sv_conns s !! k).
  - destruct (sv_conns s !! k) as [peer|] eqn:E; [|by apply kept_moved]. unfold process_control_msg. rewrite E. cbn [mbind option_bind].
    destruct (negb _); [by apply kept_moved|]. destruct (negb _); [by apply kept_moved|]. destruct (negb _).
    + apply kept_moved. destruct peer as [c|]; [|done]. destruct (mark_client_exception c k s) as [s1|] eqn:E1; [|done].
      by apply (mark_exception_kept _ _ _ _ E1).
    + cbn [proper] in Hp. apply andb_true_iff in Hp as [Hb _]. by apply message_moved.
  - apply kept_moved. destruct (sv_conns s !! k) as [peer|] eqn:E; [|done]. unfold conn_exception_process. rewrite E. cbn [mbind option_bind].
    destruct peer as [c|].
    + destruct (mark_client_exception c k s) as [s1|] eqn:E1; [|done]. by apply (mark_exception_kept _ _ _ _ E1).
    + destruct (delete_dlock_connection k s) as [s1|] eqn:E1; [|done]. by apply (delete_connection_kept _ _ _ E1).
Qed.

(** The objects before and after. *)
Lemma shrinks_store R q q' t t' lv lv' off l :
  lock_inv size_ q t lv -> lock_inv size_ q' t' lv' -> shrinks R t t' ->
  lock_store t' !! off = Some l -> lock_store t !! off = Some l.
Proof.
  intros Hinv Hinv' Hs H. apply (lock_store_spec _ _ _ _ _ _ Hinv') in H as [H1 H2].
  apply (lock_store_spec _ _ _ _ _ _ Hinv). split; [by apply (shrinks_blocks _ _ _ _ Hs)|]. destruct Hs as [E _]. by rewrite <- E.
Qed.

(** A lock that is gone was leased by no one else. *)
Lemma shrinks_gone R q q' t t' lv lv' off :
  lock_inv size_ q t lv -> lock_inv size_ q' t' lv' -> shrinks R t t' ->
  is_Some (lock_store t !! off) -> lock_store t' !! off = None ->
  exists p e, lt_heap t !! p = Some e /\ le_offset e = off /\ forall c, is_Some (le_leases e !! c) -> R c (le_id e).
Proof.
  intros Hinv Hinv' (_ & _ & Hs) [l Hl] Hn. apply (lock_store_spec _ _ _ _ _ _ Hinv) in Hl as [Hb _].
  apply elem_of_blocks in Hb as (p & e & He & Eb).
  exists p, e. split; [done|]. split; [by injection Eb|]. specialize (Hs p e He).
  destruct (lt_heap t' !! p) as [e'|] eqn:E; [|done]. destruct Hs as (_ & Hblk & _).
  assert (Hb' : (off, cell_type l) ∈ blocks t') by (apply elem_of_blocks; exists p, e'; split; [done|congruence]).
  apply (lock_store_blocks _ _ _ _ Hinv') in Hb'. by rewrite Hn in Hb'.
Qed.

Lemma grows_none upd q q' t t' lv lv' off :
  lock_inv size_ q t lv -> lock_inv size_ q' t' lv' -> grows upd t t' ->
  is_Some (lock_store t !! off) -> lock_store t' !! off <> None.
Proof.
  intros Hinv Hinv' [Hg _] [l Hl] Hn. apply (lock_store_spec _ _ _ _ _ _ Hinv) in Hl as [Hb _].
  apply Hg, (lock_store_blocks _ _ _ _ Hinv') in Hb. by rewrite Hn in Hb.
Qed.

Lemma grows_store upd q q' t t' lv lv' off l' :
  lock_inv size_ q t lv -> lock_inv size_ q' t' lv' -> grows upd t t' -> lock_store t' !! off = Some l' ->
  exists l, (if upd then rtc synced_with l l' else l = l') /\ starts_as (lock_store t) off l.
Proof.
  intros Hinv Hinv' [_ Hg] H. apply (lock_store_spec _ _ _ _ _ _ Hinv') in H as [H1 H2].
  destruct (Hg _ _ H1 H2) as (l & Hs & [[Hb Hl]|[Hn ->]]); eexists; (split; [exact Hs|]).
  - left. apply (lock_store_spec _ _ _ _ _ _ Hinv). pose proof Hl as (Ht & _). simpl in Ht. by rewrite Ht.
  - right. split; [by apply (lock_store_none _ _ _ _ _ Hinv)|]. cbn [snd]. by destruct (cell_type l').
Qed.

(** Memory that holds the objects [locks] is the memory of consistent tables. *)
Lemma store_bytes t lv mem locks :
  lock_inv size_ None t lv -> locks_repr size_ mem locks ->
  (forall o, (cell_type <$> locks !! o) = (cell_type <$> lock_store t !! o)) ->
  let t' := set_lt_memory (LockMemory mem (m_is_primary (lt_memory t)) (m_free_memory_map (lt_memory t))) t in
  lock_inv size_ None t' lv /\ lock_store t' = locks.
Proof.
  intros Hinv [Hz Hr] Ht t'. pose proof (lock_store_blocks _ _ _ _ Hinv) as Hbl.
  assert (Hcell : forall off l, locks !! off = Some l -> (off, cell_type l) ∈ blocks t /\ cell_at mem (off, cell_type l) l).
  { intros off l Hl. split; [|split; [done|by apply Hr]]. apply Hbl. by rewrite <- Ht, Hl. }
  assert (Hinv' : lock_inv size_ None t' lv).
  { destruct (li_mem _ _ _ _ Hinv) as [[(_ & Hf & Hs & Hc) _] Hp]. apply lock_inv_memory; [done| |done]. split; [by split_and!|].
    rewrite Forall_forall. intros [off ty] Hb. apply Hbl in Hb. rewrite <- Ht in Hb. apply fmap_Some in Hb as (l & Hl & ->).
    exists l. by apply Hcell. }
  split; [done|]. apply map_eq. intros off. destruct (locks !! off) as [l|] eqn:E.
  - apply (lock_store_spec _ _ _ _ _ _ Hinv'). by apply Hcell.
  - apply (lock_store_none _ _ _ _ _ Hinv'). intros ty Hb. apply Hbl in Hb. rewrite <- Ht, E in Hb. done.
Qed.

Hypothesis total_u32 : 0 <= total < UINT32_MAX.
Hypothesis size_max : size_ <= LOCK_MEMORY_SIZE.

Lemma moved_released ev s ret r s' :
  server_inv s -> server_inv s' -> moved ev s (Some (ret, r, s')) -> only_released (EvControl ev) s s'.
Proof.
  intros (Hl & _) (Hl' & _) Hm off H1 H2. destruct Hm as [Hg|Hs].
  - by destruct (grows_none _ _ _ _ _ _ _ _ Hl Hl' Hg H1).
  - by apply (shrinks_gone _ _ _ _ _ _ _ _ Hl Hl' Hs).
Qed.

Lemma moved_store ev s ret r s' :
  server_inv s -> server_inv s' -> moved ev s (Some (ret, r, s')) ->
  store_step (EvControl ev) (lock_store (sv_locks s)) (ReControl ret r) (lock_store (sv_locks s')).
Proof.
  intros (Hl & _) (Hl' & _) Hm. unfold moved, grown, shrunk in Hm.
  destruct (is_update ev) eqn:Eu; [apply store_update|apply store_control]; try done; intros off l' H;
    (destruct Hm as [Hg|Hs]; [destruct (grows_store _ _ _ _ _ _ _ _ _ Hl Hl' Hg H) as (l & Hx & Hst)|
      apply (shrinks_store _ _ _ _ _ _ _ _ _ Hl Hl' Hs) in H]).
  - by exists l.
  - exists l'. split; [by left|done].
  - by subst.
  - by left.
Qed.

Lemma server_step_ok ev s :
  server_inv s -> event_proper s ev = true ->
  exists r s', server_step init_len ev s = Some (r, s') /\ server_inv s' /\
    store_step ev (lock_store (sv_locks s)) r (lock_store (sv_locks s')) /\ only_released ev s s'.
Proof.
  intros Hinv Hp. pose proof Hinv as (Hl & Ho & Hk). destruct ev as [ev|client_id now l]; cbn [server_step event_proper] in *.
  - destruct (control_step_safe size_ total init_len size_u32 total_u32 ev s Hinv Hp) as (ret & r & s' & E & Hinv').
    pose proof (control_step_moved ev s Hinv Hp) as Hm. rewrite E in *. cbn [mbind option_bind].
    eexists _, _. split; [done|]. split; [done|].
    split; [by apply moved_store|by apply (moved_released _ _ ret r)].
  - apply bool_decide_eq_true in Hp as [Hc Hp]. pose proof (lock_store_blocks _ _ _ _ Hl) as Hbl. pose proof (li_mem _ _ _ _ Hl) as [[Hmi _] _].
    destruct (do_lock_object size_ client_id now l (lock_bytes (sv_locks s)) (lock_store (sv_locks s)))
      as (mem & locks & r & -> & E2 & Hr & Ht); [done|done|by apply (lock_store_repr _ _ _ _ Hl)|by apply (mem_inv_apart _ _ _ _ Hmi)| |].
    { eapply Forall_impl; [exact Hp|]. intros c [Hls Hb]. split; [done|]. destruct (cmd_type c); [by apply Hbl|done]. }
    cbn [mbind option_bind]. destruct (store_bytes _ _ _ _ Hl Hr Ht) as [Hl' Es].
    eexists _, _. split; [done|]. split; [by split_and!|]. cbn [sv_locks set_lock_bytes set_locks]. split; [rewrite Es; by constructor|].
    intros off [x Hx]. cbn [sv_locks set_lock_bytes set_locks]. rewrite Es. intros Hn. specialize (Ht off). by rewrite Hn, Hx in Ht.
Qed.

Lemma server_run_ok evs : forall s ev,
  server_inv s -> server_ok init_len (evs ++ [ev]) s = true ->
  exists s1 r s2, server_run init_len evs s = Some s1 /\ server_step init_len ev s1 = Some (r, s2) /\
    store_step ev (lock_store (sv_locks s1)) r (lock_store (sv_locks s2)) /\ only_released ev s1 s2.
Proof.
  induction evs as [|e evs IH]; intros s ev Hinv Hok; cbn [app server_ok server_run] in *; apply andb_true_iff in Hok as [Hp Hok].
  - destruct (server_step_ok ev s Hinv Hp) as (r & s2 & E & _ & H3 & H4). by exists s, r, s2.
  - destruct (server_step_ok e s Hinv Hp) as (r & s1 & E & H1 & _). rewrite E in *. cbn [mbind option_bind]. by apply IH.
Qed.

Lemma server_run_inv evs : forall s,
  server_inv s -> server_ok init_len evs s = true -> exists s', server_run init_len evs s = Some s' /\ server_inv s'.
Proof.
  induction evs as [|e evs IH]; intros s Hinv Hok; cbn [server_ok server_run] in *; [by exists s|].
  apply andb_true_iff in Hok as [Hp Hok]. destruct (server_step_ok e s Hinv Hp) as (r & s1 & E & H1 & _).
  rewrite E in *. cbn [mbind option_bind]. by apply IH.
Qed.
End sessions.

(** ** The server as a store of locks *)

(** C9: control messages and lock commands, interleaved in any order, act on
    the server as on a store of separate lock objects, as long as each is
    proper where it arrives ([server_ok]).  For a control message this is: its
    body has the form and the length its type and its counts declare; a client
    registers or re-registers on a connection no client uses, where the
    response can be sent, and draws an identifier that no open connection
    belongs to; other messages come on a registered connection ([proper]).
    For lock commands: they name locks that exist, with their type, and fields
    in range.  Then the server does not fault.  A lock command changes exactly
    the objects it names, and its response is the one their handlers give.  A
    control message leaves the state of every lock that stays as it was and
    creates locks unlocked; only the messages that restore a restarted server
    merge reported states into locks.  A lock disappears only through a
    control message that ends every lease on it: the release of a lock by its
    last leaseholder, or the eviction of disconnected clients from a full
    server. *)
Theorem server_refines (init_len mem rec : Z) (objects : nat) (evs : list server_event) (ev : server_event) :
  0 < mem <= LOCK_MEMORY_SIZE -> 0 < Z.of_nat objects < UINT32_MAX ->
  server_ok init_len (evs ++ [ev]) (server_init mem objects rec) = true ->
  exists s r s', server_run init_len evs (server_init mem objects rec) = Some s /\
    server_step init_len ev s = Some (r, s') /\
    store_step ev (lock_store (sv_locks s)) r (lock_store (sv_locks s')) /\ only_released ev s s'.
Proof.
  intros Hm Ho Hok. assert (LOCK_MEMORY_SIZE < 2 ^ 32 - 1) by done.
  exact (server_run_ok init_len mem (Z.of_nat objects) ltac:(lia) ltac:(lia) ltac:(lia) evs _ ev
    (server_inv_init mem objects rec ltac:(lia) ltac:(lia)) Hok).
Qed.

(** ** Example: two clients, one lock, one object *)

Definition example_len : Z := 40.
Definition example_env (rand : Z) : env := Env 1000 true [Some rand] true (fun _ => false).
Definition example_hdr (ty : dlock_control_msg) (len c : Z) : ctl_hdr :=
  CtlHdr DLOCK_CP_MAGIC_NO DLOCK_PROTO_VERSION DLOCK_FIXED_CTRL_MSG_HDR_LEN ty (DLOCK_FIXED_CTRL_MSG_HDR_LEN + len) c.
Definition example_msg (k c : Z) (ty : dlock_control_msg) (len : Z) (b : option ctl_body) : server_event :=
  EvControl (EvMsg k (example_hdr ty len c) b (example_env c)).
Definition example_join (k c : Z) : list server_event :=
  [EvControl (EvAccept k); example_msg k c CLIENT_INIT_REQUEST example_len (Some (BInit 2))].
Definition example_get (k c : Z) (d : desc) : server_event :=
  example_msg k c GET_LOCK_REQUEST (20 + zlen d) (Some (BGetLock (GetLockBody 0 0 10 0 (zlen d) d))).
Definition example_trylock (c off : Z) : server_event :=
  EvData c 100 [CAtomic (LockCmdMsg DLOCK_DP_MAGIC_NO DLOCK_PROTO_VERSION 1 EXCLUSIVE_TRYLOCK DLOCK_SUCCESS off (AtomicState c 10))].

(** Clients 7 and 9 get the lock AB, 7 takes it, 9 gets another lock and an
    object, and 7 gives AB back and leaves. *)
Definition example_events : list server_event :=
  example_join 3 7 ++ example_join 4 9 ++
  [example_get 3 7 [65; 66]; example_get 4 9 [65; 66]; example_trylock 7 0;
   example_get 4 9 [67];
   example_msg 4 9 OBJECT_CREATE_REQUEST 33 (Some (BCreate (ObjectCreateBody 0 0 5 10 1 [68])));
   example_msg 4 9 OBJECT_GET_REQUEST 25 (Some (BGetObject (ObjectGetBody 0 0 10 1 [68])));
   example_msg 3 7 RELEASE_LOCK_REQUEST 4 (Some (BReleaseLock 2))].

(** The last leaseholder releases AB. *)
Definition example_release : server_event := example_msg 4 9 RELEASE_LOCK_REQUEST 4 (Some (BReleaseLock 2)).

Lemma server_refines_witness :
  exists s r s', server_run example_len (example_events ++ [example_trylock 9 0]) (server_init 100 3 0) = Some s /\
    server_step example_len example_release s = Some (r, s') /\
    store_step example_release (lock_store (sv_locks s)) r (lock_store (sv_locks s')) /\ only_released example_release s s'.
Proof.
  apply (server_refines example_len 100 0 3 (example_events ++ [example_trylock 9 0]) example_release).
  - split; [lia|by compute].
  - split; [lia|by compute].
  - vm_compute. reflexivity.
Defined.
