(* ===== verification/DlockWhole.v ===== *)
(** * The dlock server as a whole

    The tables of a server whose control thread and data thread run on the
    same state stay consistent ([server_consistent]).  The last part has the
    messages that the checks of the control plane let through and that make
    the server fault. *)

From S2P Require Import Prelude Memory DlockMemory Dlock DlockServer DlockControl DlockControlSafe DlockFrame DlockObjects DlockControlInv DlockSessions DlockStore.

(** What the tables of a server promise to its clients. *)
Definition locks_consistent (mem : Z) (s : server) : Prop :=
  (forall c ce id p, sv_clients s !! c = Some ce -> ce_locks ce !! id = Some p ->
    exists e, lt_heap (sv_locks s) !! p = Some e /\ le_id e = id /\ is_Some (le_leases e !! c)) /\
  (forall p e, lt_heap (sv_locks s) !! p = Some e ->
    lt_map (sv_locks s) !! le_id e = Some p /\ lt_descs (sv_locks s) !! le_desc e = Some p /\ le_leases e <> ∅ /\
    0 <= le_offset e /\ le_offset e + g_lock_size (le_type e) <= mem) /\
  (forall p1 e1 p2 e2, lt_heap (sv_locks s) !! p1 = Some e1 -> lt_heap (sv_locks s) !! p2 = Some e2 -> p1 <> p2 ->
    le_offset e1 + g_lock_size (le_type e1) <= le_offset e2 \/ le_offset e2 + g_lock_size (le_type e2) <= le_offset e1).

Definition objects_consistent (total : Z) (s : server) : Prop :=
  (forall c ce id p, sv_clients s !! c = Some ce -> ce_objects ce !! id = Some p ->
    exists e, ot_heap (sv_objects s) !! p = Some e /\ oe_id e = id /\ 0 < oe_refcnt e) /\
  (forall p e, ot_heap (sv_objects s) !! p = Some e ->
    ot_map (sv_objects s) !! oe_id e = Some p /\ ot_descs (sv_objects s) !! oe_desc e = Some p /\
    0 <= oe_offset e /\ oe_offset e + 8 <= total * 8) /\
  (forall p1 e1 p2 e2, ot_heap (sv_objects s) !! p1 = Some e1 -> ot_heap (sv_objects s) !! p2 = Some e2 -> p1 <> p2 ->
    oe_offset e1 + 8 <= oe_offset e2 \/ oe_offset e2 + 8 <= oe_offset e1).

Definition clients_consistent (s : server) : Prop :=
  sv_client_num s = Z.of_nat (size (sv_clients s)) /\ sv_client_num s <= MAX_NUM_CLIENT /\
  (forall c ce, sv_clients s !! c = Some ce ->
    exists j, ce_jetty ce = Some j /\ is_Some (sv_jettys s !! j) /\
      match ce_conn ce with
      | Some k => sv_conns s !! k = Some (Some c)
      | None => c ∈ sv_except s
      end).

(** ** What the invariant gives *)

Lemma inv_locks size_ total s : server_inv size_ total s -> locks_consistent size_ s.
Proof.
  intros (Hl & _). split_and!.
  - intros c ce id p Hc Hp. apply (li_held _ _ _ _ Hl c (ce_locks ce)); [|done]. unfold lock_view. by rewrite lookup_fmap, Hc.
  - intros p e He. destruct (li_heap _ _ _ _ Hl p e He) as (H1 & H2 & _ & [H3|H3]); [done|].
    destruct (li_mem _ _ _ _ Hl) as [[(_ & _ & Hb & _) _] _]. rewrite Forall_forall in Hb.
    destruct (Hb (entry_block e)) as (H4 & _ & H5); [apply elem_of_blocks; by exists p, e|]. by split_and!.
  - intros p1 e1 p2 e2 H1 H2 Hne. destruct (li_mem _ _ _ _ Hl) as [[Hmi _] _].
    assert (Hp : blocks (sv_locks s) ≡ₚ entry_block e1 :: entry_block e2 ::
      blocks (set_lt_heap (delete p2 (delete p1 (lt_heap (sv_locks s)))) (sv_locks s))).
    { rewrite (blocks_delete _ p1 e1 H1). f_equiv.
      assert (H2' : delete p1 (lt_heap (sv_locks s)) !! p2 = Some e2) by (by rewrite lookup_delete_ne).
      exact (blocks_delete (set_lt_heap (delete p1 (lt_heap (sv_locks s))) (sv_locks s)) p2 e2 H2'). }
    apply (blocks_apart_at _ _ _ 0 1 _ _ _ _ (mem_inv_perm _ _ _ _ Hmi Hp)); done.
Qed.

Lemma inv_objects size_ total s : server_inv size_ total s -> objects_consistent total s.
Proof.
  intros (_ & Ho & _). destruct (oi_mem _ _ _ Ho) as (_ & _ & fl & _ & Hnd & Hin). split_and!.
  - intros c ce id p Hc Hp. assert (Hv : obj_view (sv_clients s) !! c = Some (ce_objects ce)) by (unfold obj_view; by rewrite lookup_fmap, Hc).
    destruct (oi_map _ _ _ Ho _ _ (oi_held _ _ _ Ho _ _ _ _ Hv Hp)) as (e & He & <-). exists e. split_and!; [done..|].
    destruct (oi_heap _ _ _ Ho p e He) as (_ & _ & _ & H). pose proof (holders_pos _ _ _ _ Hv (mk_is_Some _ _ Hp)). lia.
  - intros p e He. destruct (oi_heap _ _ _ Ho p e He) as (H1 & H2 & H3 & _).
    assert (Hc : 0 <= oe_cell e < total).
    { apply Hin, elem_of_app. right. apply list_elem_of_fmap. exists (p, e). split; [done|]. by apply elem_of_map_to_list. }
    split_and!; [done..|lia|lia].
  - intros p1 e1 p2 e2 H1 H2 Hne. destruct (oi_heap _ _ _ Ho p1 e1 H1) as (_ & _ & E1 & _), (oi_heap _ _ _ Ho p2 e2 H2) as (_ & _ & E2 & _).
    assert (oe_cell e1 <> oe_cell e2); [|lia].
    assert (Hp : cells (sv_objects s) ≡ₚ oe_cell e1 :: oe_cell e2 ::
      ((fun x => oe_cell x.2) <$> map_to_list (delete p2 (delete p1 (ot_heap (sv_objects s)))))).
    { unfold cells. rewrite (cells_delete _ p1 e1 oe_cell H1). f_equiv. apply cells_delete. by rewrite lookup_delete_ne. }
    apply NoDup_app in Hnd as (_ & _ & Hnd). rewrite Hp in Hnd. apply NoDup_cons in Hnd as [Hnd _].
    intros E. apply Hnd. rewrite E. by left.
Qed.

Lemma inv_clients size_ total s : server_inv size_ total s -> clients_consistent s.
Proof.
  intros (_ & _ & Hk). destruct (ki_num _ _ _ _ _ _ Hk) as [Hn Hm]. split_and!; [|done|].
  - rewrite Hn. unfold link_view. by rewrite map_size_fmap.
  - intros c ce Hc. assert (Hv : link_view (sv_clients s) !! c = Some (ce_conn ce, ce_jetty ce)) by (unfold link_view; by rewrite lookup_fmap, Hc).
    destruct (ki_jetty _ _ _ _ _ _ Hk _ _ _ Hv) as (j & Ej & Hj & _). exists j. split_and!; [done..|].
    destruct (ce_conn ce) as [k|]; [by apply (ki_conn _ _ _ _ _ _ Hk _ _ _ Hv)|]. apply (ki_except _ _ _ _ _ _ Hk). by eexists.
Qed.

(** ** Correctness of the server *)

(** C11: as long as every control message and lock command is proper where it
    arrives ([server_ok]: well-formed bodies, registrations on unused
    connections with an unused identifier, other messages on registered
    connections, commands for existing locks with their type and fields in
    range), the server handles all of them without a fault, and then its
    tables agree.  A lock or an object that a client holds exists and counts
    it; an entry is found by its identifier and its descriptor; locks that
    nobody leases are gone; the memory of locks and of objects lies inside the
    region and is not shared; every client has its channel, and either its
    connection or a place in the exception set; the clients are counted.  The
    code does not enforce these conditions ([control_messages_fault]). *)
Theorem server_consistent (init_len mem rec : Z) (objects : nat) (evs : list server_event) :
  0 < mem <= LOCK_MEMORY_SIZE -> 0 < Z.of_nat objects < UINT32_MAX ->
  server_ok init_len evs (server_init mem objects rec) = true ->
  exists s, server_run init_len evs (server_init mem objects rec) = Some s /\
    locks_consistent mem s /\ objects_consistent (Z.of_nat objects) s /\ clients_consistent s.
Proof.
  intros Hm Ho Hok. assert (LOCK_MEMORY_SIZE < 2 ^ 32 - 1) by done.
  destruct (server_run_inv init_len mem (Z.of_nat objects) ltac:(lia) ltac:(lia) ltac:(lia) evs _
    (server_inv_init mem objects rec ltac:(lia) ltac:(lia)) Hok) as (s & Hr & Hinv).
  exists s. split; [done|]. split; [by apply (inv_locks _ (Z.of_nat objects))|].
  split; [by apply (inv_objects mem)|by apply (inv_clients mem (Z.of_nat objects))].
Qed.

(** ** Examples *)

Lemma server_consistent_witness :
  exists s, server_run example_len (example_events ++ [EvControl (EvClose 3)]) (server_init 100 3 0) = Some s /\
    locks_consistent 100 s /\ objects_consistent 3 s /\ clients_consistent s.
Proof.
  apply (server_consistent example_len 100 0 3 (example_events ++ [EvControl (EvClose 3)])).
  - split; [lia|by compute].
  - split; [lia|by compute].
  - vm_compute. reflexivity.
Defined.

(** ** Messages that the checks let through *)

(** After the proper events [before], the messages [evs] make a server
    fault. *)
Definition faults (before evs : list server_event) : Prop :=
  server_ok example_len before (server_init 100 3 0) = true /\
  server_run example_len (before ++ evs) (server_init 100 3 0) = None.

(** Client 7 loses its connection. *)
Definition lost_client : list server_event :=
  example_join 3 7 ++ [example_get 3 7 [65]; EvControl (EvClose 3); EvControl (EvAccept 4)].

(** The checks on control messages do not protect the server.  It follows
    a null or stale pointer, or reads past the message, for: a request that
    names a disconnected client, sent on a connection that has not registered;
    a lock request that is only a header; a batch release whose declared count
    (16384 locks in a body of four bytes) makes the expected length wrap around
    16 bits; a client that re-registers on its own connection and then leaves.
    And a client that leaves in the regular way keeps its leases: the lock it
    had stays in the tables although no client is left. *)
Theorem control_messages_fault :
  faults lost_client [example_msg 4 7 RELEASE_LOCK_REQUEST 4 (Some (BReleaseLock 2))] /\
  faults (example_join 3 7) [example_msg 3 7 GET_LOCK_REQUEST 0 None] /\
  faults (example_join 3 7) [example_msg 3 7 BATCH_RELEASE_LOCK_REQUEST 4 (Some (BBatchRelease 16384 []))] /\
  faults (example_join 3 7) [example_msg 3 7 CLIENT_REINIT_REQUEST example_len (Some (BInit 2));
    example_msg 3 7 CLIENT_DEINIT_REQUEST 0 None] /\
  exists s p e,
    server_run example_len (example_join 3 7 ++ [example_get 3 7 [65]; example_msg 3 7 CLIENT_DEINIT_REQUEST 0 None])
      (server_init 100 3 0) = Some s /\
    sv_clients s = ∅ /\ lt_heap (sv_locks s) !! p = Some e /\ is_Some (le_leases e !! 7).
Proof.
  unfold faults. split_and!; [by vm_compute..|]. eexists _, 1, _. split; [vm_compute; reflexivity|].
  split; [by vm_compute|]. split; [by vm_compute|]. by eexists.
Qed.
