(* ===== verification/QbufList.v ===== *)
(** * Lists of message buffers (qbuf_list.h, umq_qbuf_pool.h)

    A message buffer is described by a header [umq_buf]; headers are linked
    through [qbuf_next] and the pools are such lists with a count. The memory
    is a map from header addresses to headers, and following a pointer that
    is NULL or no header is [None]. Each list routine of umq_qbuf_pool.h is
    translated on this memory and specified on the list of addresses it
    walks: which list each pointer heads afterwards, and that nothing but the
    links of the moved headers has changed. *)

From S2P Require Import Prelude.

(** struct umq_buf; the fields this code neither reads nor writes
    (token_value, status, io_direction) are left out *)
Record umq_buf := {
  qbuf_next : Z;
  umqh : Z;
  total_data_size : Z;
  buf_size : Z;
  data_size : Z;
  headroom_size : Z;
  first_fragment : bool;
  token_id : Z;
  mempool_id : Z;
  buf_data : Z;
  qbuf_ext : list Z
}.

Definition SIZEOF_UMQ_BUF : Z := 128.

Definition set_next (n : Z) (b : umq_buf) : umq_buf :=
  {| qbuf_next := n; umqh := umqh b; total_data_size := total_data_size b; buf_size := buf_size b;
     data_size := data_size b; headroom_size := headroom_size b; first_fragment := first_fragment b;
     token_id := token_id b; mempool_id := mempool_id b; buf_data := buf_data b; qbuf_ext := qbuf_ext b |}.

Abbreviation heap := (gmap Z umq_buf).
Implicit Types (h : gmap Z umq_buf) (l : list Z) (p q x : Z).

Definition QBUF_LIST_NEXT h (e : Z) : option Z := qbuf_next <$> h !! e.

(** writing fields of the header at [e] *)
Definition write h (e : Z) (f : umq_buf -> umq_buf) : option heap :=
  b ← h !! e; Some (<[e := f b]> h).

Definition set_list_next h (e n : Z) : option heap := write h e (set_next n).

(** QBUF_LIST_INSERT_HEAD: the new first element is the inserted one *)
Definition QBUF_LIST_INSERT_HEAD h (first e : Z) : option (heap * Z) :=
  h' ← set_list_next h e first; Some (h', e).

(** QBUF_LIST_FOR_EACH with a body that may break: the element the loop
    variable is left at is part of the result (NULL after the last one) *)
Fixpoint for_each {T} (fuel : nat) (body : heap -> Z -> T -> option (heap * T * bool)) h (e : Z) (s : T) :
    option (heap * T * Z) :=
  match fuel with
  | O => None
  | S f =>
    if e =? 0 then Some (h, s, 0)
    else '(h', s', brk) ← body h e s;
      if (brk : bool) then Some (h', s', e)
      else n ← QBUF_LIST_NEXT h' e; for_each f body h' n s'
  end.

(** A list without repetition has at most as many elements as there are headers. *)
Definition list_fuel h : nat := S (size h).

(** struct local_block_pool and struct global_block_pool: the mutex of the
    latter makes each critical section one operation of the model *)
Record block_pool := {
  head_with_data : Z;
  buf_cnt_with_data : Z;
  head_without_data : Z;
  buf_cnt_without_data : Z
}.

Definition pool_head (with_data : bool) (p : block_pool) : Z :=
  if with_data then head_with_data p else head_without_data p.
Definition pool_cnt (with_data : bool) (p : block_pool) : Z :=
  if with_data then buf_cnt_with_data p else buf_cnt_without_data p.
Definition set_pool (with_data : bool) (head cnt : Z) (p : block_pool) : block_pool :=
  if with_data then
    {| head_with_data := head; buf_cnt_with_data := cnt;
       head_without_data := head_without_data p; buf_cnt_without_data := buf_cnt_without_data p |}
  else
    {| head_with_data := head_with_data p; buf_cnt_with_data := buf_cnt_with_data p;
       head_without_data := head; buf_cnt_without_data := cnt |}.

Definition umq_qbuf_block_pool_init : block_pool :=
  {| head_with_data := 0; buf_cnt_with_data := 0; head_without_data := 0; buf_cnt_without_data := 0 |}.

(** ** Moving elements between lists

    The result gives the memory, the new first elements of the two lists and
    the number of elements moved. *)

Definition count_body (n : Z) h (_ : Z) (cnt : Z) : option (heap * Z * bool) :=
  let cnt := u32 (cnt + 1) in Some (h, cnt, cnt =? n).

Definition walk_body h (cur_node : Z) (s : Z * Z) : option (heap * (Z * Z) * bool) :=
  Some (h, (u32 (s.1 + 1), cur_node), false).

Definition allocate_batch h (input n output : Z) : option (heap * Z * Z * Z) :=
  '(h, cnt, cur_node) ← for_each (list_fuel h)
     (count_body n) h input 0;
  let input_head := input in
  let output_head := output in
  input' ← QBUF_LIST_NEXT h cur_node;
  h ← set_list_next h cur_node output_head;
  Some (h, input', input_head, cnt).

Definition release_batch h (input output : Z) : option (heap * Z * Z) :=
  '(h, (cnt, last_node), _) ← for_each (list_fuel h)
     walk_body h input (0, 0);
  h ← set_list_next h last_node output;
  Some (h, input, cnt).

Definition UMQ_SUCCESS : Z := 0.
Definition UMQ_FAIL : Z := -1.

Definition fetch_from_global h (global_pool cache_pool : block_pool) (with_data : bool) (batch_count : Z) :
    option (heap * block_pool * block_pool * Z) :=
  if pool_cnt with_data global_pool <? batch_count then Some (h, global_pool, cache_pool, UMQ_FAIL)
  else
    '(h, global_head, local_head, count) ←
       allocate_batch h (pool_head with_data global_pool) batch_count (pool_head with_data cache_pool);
    Some (h, set_pool with_data global_head (u64 (pool_cnt with_data global_pool - count)) global_pool,
          set_pool with_data local_head (u64 (pool_cnt with_data cache_pool + count)) cache_pool, s32 count).

Definition return_body (threshold : Z) h (cur_node : Z) (s : Z * Z * Z * Z) : option (heap * (Z * Z * Z * Z) * bool) :=
  let '(cnt, remove_cnt, switch_node, last_node) := s in
  let cnt := u32 (cnt + 1) in
  if cnt <=? threshold then Some (h, (cnt, remove_cnt, cur_node, last_node), false)
  else Some (h, (cnt, u32 (remove_cnt + 1), switch_node, cur_node), false).

Definition return_to_global h (global_pool cache : block_pool) (with_data : bool) (threshold : Z) :
    option (heap * block_pool * block_pool) :=
  '(h, (_, remove_cnt, switch_node, last_node), _) ←
     for_each (list_fuel h) (return_body threshold) h (pool_head with_data cache) (0, 0, 0, 0);
  let head := pool_head with_data global_pool in
  global_head ← QBUF_LIST_NEXT h switch_node;
  h ← set_list_next h last_node head;
  h ← set_list_next h switch_node 0;
  Some (h, set_pool with_data global_head (u64 (pool_cnt with_data global_pool + remove_cnt)) global_pool,
        set_pool with_data (pool_head with_data cache) (u64 (pool_cnt with_data cache - remove_cnt)) cache).

(** the same loop as [release_batch], written with [while] *)
Definition return_qbuf_to_global h (global_pool : block_pool) (buf : Z) (with_data : bool) :
    option (heap * block_pool) :=
  '(h, (cnt, last_node), _) ← for_each (list_fuel h)
     walk_body h buf (0, 0);
  h ← set_list_next h last_node (pool_head with_data global_pool);
  Some (h, set_pool with_data buf (u64 (pool_cnt with_data global_pool + cnt)) global_pool).

Definition umq_qbuf_alloc_nodata h (local_pool : block_pool) (num list : Z) : option (heap * block_pool * Z) :=
  '(h, _, cur_node) ← for_each (list_fuel h)
     (count_body num) h (head_without_data local_pool) 0;
  let input_head := head_without_data local_pool in
  rest ← QBUF_LIST_NEXT h cur_node;
  h ← set_list_next h cur_node list;
  Some (h, set_pool false rest (u64 (buf_cnt_without_data local_pool - num)) local_pool, input_head).

(** ** Segments of a list

    [lseg h p l q]: following the links from [p] visits exactly the headers
    of [l] and then reaches [q]. *)

Fixpoint lseg h p l q : Prop :=
  match l with
  | [] => p = q
  | x :: l => p = x /\ x <> 0 /\ exists b, h !! x = Some b /\ lseg h (qbuf_next b) l q
  end.

Abbreviation chain h p l := (lseg h p l 0).

Lemma lseg_app h l1 l2 p q : lseg h p (l1 ++ l2) q <-> exists m, lseg h p l1 m /\ lseg h m l2 q.
Proof.
  revert p. induction l1 as [|x l1 IH]; intros p; simpl.
  - split; [eauto|]. by intros (m & -> & ?).
  - split.
    + intros (-> & Hx & b & Hb & (m & ? & ?)%IH). eauto 10.
    + intros (m & (-> & Hx & b & Hb & ?) & ?). split; [done|]. split; [done|].
      exists b. split; [done|]. apply IH. eauto.
Qed.

(** A segment depends only on the links of its headers. *)
Lemma lseg_frame h h' l p q :
  lseg h p l q -> (forall x, x ∈ l -> QBUF_LIST_NEXT h' x = QBUF_LIST_NEXT h x) -> lseg h' p l q.
Proof.
  revert p. induction l as [|x l IH]; intros p; simpl; [done|].
  intros (-> & Hx & b & Hb & Hl) Hf. split; [done|]. split; [done|].
  pose proof (Hf x ltac:(left)) as E. unfold QBUF_LIST_NEXT in E. rewrite Hb in E. simpl in E.
  destruct (h' !! x) as [b'|] eqn:Hb'; [|done]. injection E as E.
  exists b'. split; [done|]. rewrite E. apply IH; [done|]. intros y Hy. apply Hf. by right.
Qed.

Lemma lseg_mapped h l p q x : lseg h p l q -> x ∈ l -> x <> 0 /\ is_Some (h !! x).
Proof.
  revert p. induction l as [|y l IH]; intros p; simpl; [by intros _ ?%elem_of_nil|].
  intros (-> & ? & b & ? & ?) [->|?]%elem_of_cons; [eauto|]. eapply IH; eauto.
Qed.

Lemma lseg_head h l p q : lseg h p l q -> p = default q (head l).
Proof. destruct l; simpl; [done|]. by intros [-> _]. Qed.

Lemma chain_null h p l : chain h p l -> p = 0 -> l = [].
Proof. destruct l; simpl; [done|]. intros (-> & ? & _) ?. done. Qed.

Lemma chain_size h p l : chain h p l -> NoDup l -> (length l <= size h)%nat.
Proof.
  intros Hl Hnd. rewrite <- size_dom. rewrite <- (size_list_to_set (C := gset Z) l Hnd).
  apply subseteq_size. intros x Hx%elem_of_list_to_set. apply elem_of_dom. by eapply lseg_mapped.
Qed.

(** ** Memories that differ in links only *)

Definition relinked (D : list Z) h h' : Prop :=
  (set_next 0 <$> h') = (set_next 0 <$> h) /\ forall x, x ∉ D -> h' !! x = h !! x.

Lemma relinked_refl D h : relinked D h h.
Proof. done. Qed.

Lemma relinked_trans D1 D2 h1 h2 h3 :
  relinked D1 h1 h2 -> relinked D2 h2 h3 -> relinked (D1 ++ D2) h1 h3.
Proof.
  intros [E1 F1] [E2 F2]. split; [congruence|]. intros x [? ?]%not_elem_of_app. by rewrite F2, F1.
Qed.

Lemma relinked_weaken D D' h h' : relinked D h h' -> D ⊆ D' -> relinked D' h h'.
Proof. intros [E F] Hs. split; [done|]. intros x Hx. apply F. set_solver. Qed.

Lemma write_Some h x f : is_Some (h !! x) -> write h x f = Some (alter f x h).
Proof.
  intros [b Hb]. unfold write. rewrite Hb. simpl. f_equal. apply map_eq. intros y.
  destruct (decide (y = x)) as [->|].
  - by rewrite lookup_insert_eq, lookup_alter_eq, Hb.
  - by rewrite lookup_insert_ne, lookup_alter_ne.
Qed.

Lemma set_list_next_Some h x n b :
  h !! x = Some b -> set_list_next h x n = Some (<[x := set_next n b]> h) /\
  relinked [x] h (<[x := set_next n b]> h).
Proof.
  intros Hb. unfold set_list_next, write. rewrite Hb. split; [done|]. split.
  - rewrite fmap_insert. apply map_eq. intros y. destruct (decide (y = x)) as [->|].
    + rewrite lookup_insert_eq, lookup_fmap, Hb. done.
    + by rewrite lookup_insert_ne.
  - intros y Hy. rewrite lookup_insert_ne; [done|]. set_solver.
Qed.

Lemma lseg_relinked D h h' l p q :
  lseg h p l q -> relinked D h h' -> (forall x, x ∈ l -> x ∉ D) -> lseg h' p l q.
Proof.
  intros Hl [_ F] Hd. eapply lseg_frame; [done|]. intros x Hx. unfold QBUF_LIST_NEXT. by rewrite F by auto.
Qed.

(** Changing the link of the last header of a segment redirects its end. *)
Lemma lseg_set_last h l x p q n b :
  lseg h p (l ++ [x]) q -> NoDup (l ++ [x]) -> h !! x = Some b ->
  lseg (<[x := set_next n b]> h) p (l ++ [x]) n.
Proof.
  intros (m & H1 & H2)%lseg_app Hnd Hb. simpl in H2. destruct H2 as (-> & Hx & _).
  apply lseg_app. exists x. split.
  - eapply lseg_frame; [done|]. intros y Hy. unfold QBUF_LIST_NEXT. rewrite lookup_insert_ne; [done|].
    intros ->. apply NoDup_app in Hnd as (_ & Hd & _). apply (Hd y Hy). set_solver.
  - simpl. split; [done|]. split; [done|]. exists (set_next n b). by rewrite lookup_insert_eq.
Qed.

(** ** Loops over a segment

    [st j] is the state of the loop before its [j]-th header. A body that
    writes the header it stands on and keeps its link leaves [write_all]. *)

Fixpoint write_all (g : nat -> Z -> umq_buf -> umq_buf) (j : nat) l h : gmap Z umq_buf :=
  match l with
  | [] => h
  | x :: l => write_all g (S j) l (alter (g j x) x h)
  end.

Lemma write_all_out g j l h x : x ∉ l -> write_all g j l h !! x = h !! x.
Proof.
  revert j h. induction l as [|y l IH]; intros j h; simpl; [done|].
  intros [? ?]%not_elem_of_cons. rewrite IH by done. by apply lookup_alter_ne.
Qed.

Lemma write_all_in g j l h i x :
  NoDup l -> l !! i = Some x -> write_all g j l h !! x = g (j + i)%nat x <$> h !! x.
Proof.
  revert j h i. induction l as [|y l IH]; intros j h i Hnd Hi; [done|].
  apply NoDup_cons in Hnd as [Hy Hnd]. destruct i as [|i]; simpl in *.
  - injection Hi as ->. rewrite write_all_out by done. rewrite lookup_alter_eq. by rewrite Nat.add_0_r.
  - rewrite (IH _ _ i) by done. rewrite lookup_alter_ne.
    + f_equal. f_equal. lia.
    + intros ->. apply Hy. by eapply list_elem_of_lookup_2.
Qed.

Lemma write_all_app g j l1 l2 h :
  write_all g j (l1 ++ l2) h = write_all g (j + length l1) l2 (write_all g j l1 h).
Proof.
  revert j h. induction l1 as [|x l1 IH]; intros j h; simpl; [by rewrite Nat.add_0_r|].
  rewrite IH. f_equal. lia.
Qed.

Lemma for_each_null {T} k (body : heap -> Z -> T -> option (heap * T * bool)) h s :
  for_each (S k) body h 0 s = Some (h, s, 0).
Proof. done. Qed.

Lemma for_each_break {T} k (body : heap -> Z -> T -> option (heap * T * bool)) h h' x s s' :
  x <> 0 -> body h x s = Some (h', s', true) -> for_each (S k) body h x s = Some (h', s', x).
Proof. intros Hx E. simpl. rewrite (proj2 (Z.eqb_neq x 0)) by done. by rewrite E. Qed.

(** Every loop over a NULL-terminated list stays within [list_fuel]. *)
Lemma list_fuel_split h p l : chain h p l -> NoDup l -> exists k, list_fuel h = (length l + S k)%nat.
Proof. intros Hl Hnd. pose proof (chain_size h p l Hl Hnd). exists (size h - length l)%nat. unfold list_fuel. lia. Qed.

Section loops.
Context {T : Type} (body : heap -> Z -> T -> option (heap * T * bool)) (st : nat -> T).
Context (g : nat -> Z -> umq_buf -> umq_buf).
Hypothesis g_next : forall j x b, qbuf_next (g j x b) = qbuf_next b.

Lemma write_all_next j l h x : QBUF_LIST_NEXT (write_all g j l h) x = QBUF_LIST_NEXT h x.
Proof using Type*.
  revert j h. induction l as [|y l IH]; intros j h; simpl; [done|]. rewrite IH. unfold QBUF_LIST_NEXT.
  destruct (decide (x = y)) as [->|]; [|by rewrite lookup_alter_ne].
  rewrite lookup_alter_eq. destruct (h !! y); simpl; [by rewrite g_next|done].
Qed.

Lemma lseg_write_all j l h p l' q : lseg h p l' q -> lseg (write_all g j l h) p l' q.
Proof using Type*. intros H. eapply lseg_frame; [done|]. intros x _. apply write_all_next. Qed.

Lemma for_each_write h l p q j k :
  (forall i x h', l !! i = Some x -> h' !! x = h !! x -> is_Some (h !! x) ->
     body h' x (st (j + i)) = Some (alter (g (j + i) x) x h', st (S (j + i)), false)) ->
  lseg h p l q -> NoDup l ->
  for_each (length l + k) body h p (st j) = for_each k body (write_all g j l h) q (st (j + length l)).
Proof using Type*.
  revert h p j. induction l as [|x l IH]; intros h p j Hb Hl Hnd; simpl.
  { simpl in Hl. subst. by rewrite Nat.add_0_r. }
  destruct Hl as (-> & Hx & b & Hxb & Hl). apply NoDup_cons in Hnd as [Hxl Hnd].
  rewrite (proj2 (Z.eqb_neq x 0)) by done.
  pose proof (Hb 0%nat x h eq_refl eq_refl ltac:(eauto)) as E. rewrite Nat.add_0_r in E. rewrite E.
  cbn [mbind option_bind].
  unfold QBUF_LIST_NEXT at 1. rewrite lookup_alter_eq, Hxb. simpl. rewrite g_next.
  rewrite IH; [by rewrite Nat.add_succ_r| | |done].
  - intros i y h' Hi Hy Hs. assert (y <> x) by (intros ->; apply Hxl; by eapply list_elem_of_lookup_2).
    rewrite lookup_alter_ne in Hy, Hs by done.
    specialize (Hb (S i) y h' Hi Hy Hs). by rewrite Nat.add_succ_r in Hb.
  - apply (lseg_write_all j [x]). done.
Qed.

(** a loop that breaks at the last header of [l] *)
Lemma for_each_write_break h l x l2 p :
  (forall i y h', (l ++ [x]) !! i = Some y -> h' !! y = h !! y -> is_Some (h !! y) ->
     body h' y (st i) = Some (alter (g i y) y h', st (S i), bool_decide (S i = length (l ++ [x])))) ->
  chain h p ((l ++ [x]) ++ l2) -> NoDup ((l ++ [x]) ++ l2) ->
  for_each (list_fuel h) body h p (st 0%nat) = Some (write_all g 0 (l ++ [x]) h, st (length (l ++ [x])), x).
Proof using Type*.
  intros Hb Hl Hnd. destruct (list_fuel_split h p _ Hl Hnd) as [k ->].
  apply lseg_app in Hl as (q & (m & H1 & H2)%lseg_app & _). destruct H2 as (-> & Hx & b & Hxb & _).
  replace (length ((l ++ [x]) ++ l2) + S k)%nat with (length l + S (length l2 + S k))%nat
    by (rewrite !length_app; simpl; lia).
  apply NoDup_app in Hnd as [Hnd _]. apply NoDup_app in Hnd as (Hnd & Hd & _).
  rewrite (for_each_write h l p x 0); [|intros i y h' Hi Hy Hs|done|done].
  - apply for_each_break; [done|]. rewrite Hb; [|by rewrite list_lookup_middle| |by eexists].
    + rewrite write_all_app, length_app. simpl. rewrite (Nat.add_1_r (length l)). by rewrite bool_decide_eq_true_2.
    + apply write_all_out. intros Hxl. apply (Hd x Hxl). set_solver.
  - pose proof (lookup_lt_Some _ _ _ Hi). rewrite Hb; [|by rewrite lookup_app_l|done|done].
    rewrite bool_decide_eq_false_2; [done|]. rewrite length_app. simpl. lia.
Qed.

(** a loop over a whole list *)
Lemma for_each_write_all h l p :
  (forall i x h', l !! i = Some x -> h' !! x = h !! x -> is_Some (h !! x) ->
     body h' x (st i) = Some (alter (g i x) x h', st (S i), false)) ->
  chain h p l -> NoDup l ->
  for_each (list_fuel h) body h p (st 0%nat) = Some (write_all g 0 l h, st (length l), 0).
Proof using Type*.
  intros Hb Hl Hnd. destruct (list_fuel_split h p _ Hl Hnd) as [k ->]. by rewrite (for_each_write h l p 0 0).
Qed.
End loops.

Lemma for_each_read {T} (body : heap -> Z -> T -> option (heap * T * bool)) (st : nat -> T) h l p q (j k : nat) :
  (forall (i : nat) x, l !! i = Some x -> body h x (st (j + i)%nat) = Some (h, st (S (j + i)), false)) ->
  lseg h p l q ->
  for_each (length l + k) body h p (st j) = for_each k body h q (st (j + length l)%nat).
Proof.
  revert p j. induction l as [|x l IH]; intros p j Hb Hl; simpl.
  { simpl in Hl. subst. by rewrite Nat.add_0_r. }
  destruct Hl as (-> & Hx & b & Hxb & Hl). rewrite (proj2 (Z.eqb_neq x 0)) by done.
  pose proof (Hb 0%nat x eq_refl) as E. rewrite Nat.add_0_r in E. rewrite E. cbn [mbind option_bind].
  unfold QBUF_LIST_NEXT. rewrite Hxb. simpl. rewrite (IH _ (S j)); [by rewrite Nat.add_succ_r| |done].
  intros i y Hi. specialize (Hb (S i) y Hi). by rewrite Nat.add_succ_r in Hb.
Qed.

(** ** What the list operations do *)

(** Cutting a list after [x] and linking [x] to another list. *)
Lemma splice h i o l1 x l2 l3 :
  chain h i ((l1 ++ [x]) ++ l2) -> chain h o l3 -> NoDup ((l1 ++ [x]) ++ l2 ++ l3) ->
  exists i' h', QBUF_LIST_NEXT h x = Some i' /\ set_list_next h x o = Some h' /\
    chain h' i' l2 /\ chain h' i ((l1 ++ [x]) ++ l3) /\ relinked [x] h h'.
Proof.
  intros (i' & H1 & H2)%lseg_app H3 (Hn1 & Hd & Hn2)%NoDup_app.
  assert (Hxl : x ∈ l1 ++ [x]) by set_solver.
  pose proof H1 as (m & H11 & H12)%lseg_app. destruct H12 as (-> & Hx & b & Hb & Hnext). simpl in Hnext.
  destruct (set_list_next_Some h x o b Hb) as [E Hr].
  exists i', (<[x := set_next o b]> h). rewrite E. unfold QBUF_LIST_NEXT. rewrite Hb. simpl.
  rewrite Hnext. split; [done|]. split; [done|].
  assert (Hout : forall y, y ∈ l2 ++ l3 -> y ∉ [x]).
  { intros y Hy ->%list_elem_of_singleton. exact (Hd x Hxl Hy). }
  split_and!; [| |done].
  - eapply lseg_relinked; [exact H2|exact Hr|]. intros y Hy. apply Hout. set_solver.
  - apply lseg_app. exists o. split; [eapply lseg_set_last; eauto|].
    eapply lseg_relinked; [exact H3|exact Hr|]. intros y Hy. apply Hout. set_solver.
Qed.

Lemma count_loop h i l1 x l2 n :
  chain h i ((l1 ++ [x]) ++ l2) -> NoDup ((l1 ++ [x]) ++ l2) -> n = zlen (l1 ++ [x]) -> n < 2 ^ 32 ->
  for_each (list_fuel h) (count_body n) h i 0 = Some (h, n, x).
Proof.
  intros Hl Hnd Hn Hr. destruct (list_fuel_split h i _ Hl Hnd) as [k Hk].
  rewrite zlen_app in Hn. change (zlen [x]) with 1 in Hn. unfold zlen in Hn.
  pose proof Hl as (i' & (m & H11 & H12)%lseg_app & _)%lseg_app. destruct H12 as (-> & Hx & _).
  replace (list_fuel h) with (length l1 + S (length l2 + S k))%nat by (rewrite Hk, !length_app; simpl; lia).
  rewrite (for_each_read _ Z.of_nat h l1 i x 0); [|intros j y Hj|done].
  - apply for_each_break; [done|]. unfold count_body. rewrite !u32_small by lia.
    rewrite (proj2 (Z.eqb_eq _ n)) by lia. repeat f_equal. lia.
  - apply lookup_lt_Some in Hj. unfold count_body. rewrite !u32_small by lia.
    rewrite (proj2 (Z.eqb_neq _ n)) by lia. repeat f_equal. lia.
Qed.

Lemma walk_loop h i l x :
  chain h i (l ++ [x]) -> NoDup (l ++ [x]) -> zlen (l ++ [x]) < 2 ^ 32 ->
  for_each (list_fuel h) walk_body h i (0, 0) =
    Some (h, (zlen (l ++ [x]), x), 0).
Proof.
  intros Hl Hnd Hr. destruct (list_fuel_split h i _ Hl Hnd) as [k ->]. unfold zlen in *.
  set (st := fun j => (Z.of_nat j, default 0 ((0 :: l ++ [x]) !! j))).
  change (0, 0) with (st 0%nat).
  rewrite (for_each_read _ st h (l ++ [x]) i 0 0 (S k)); [|intros j y Hj|done].
  - rewrite for_each_null. unfold st. repeat f_equal. rewrite length_app. simpl.
    rewrite Nat.add_comm. simpl. by rewrite list_lookup_middle.
  - unfold walk_body. subst st. simpl. rewrite Hj. pose proof (lookup_lt_Some _ _ _ Hj).
    rewrite u32_small by lia. simpl. repeat f_equal. lia.
Qed.

(** a non-empty list seen from its end *)
Lemma last_split l : l <> [] -> exists l0 x, l = l0 ++ [x].
Proof. intros Hl. destruct l as [|x l0] using rev_ind; [done|]. eauto. Qed.

Lemma allocate_batch_spec h i o l1 l2 l3 n :
  chain h i (l1 ++ l2) -> chain h o l3 -> NoDup (l1 ++ l2 ++ l3) -> l1 <> [] -> n = zlen l1 -> n < 2 ^ 32 ->
  exists h' i', allocate_batch h i n o = Some (h', i', i, n) /\
    chain h' i' l2 /\ chain h' i (l1 ++ l3) /\ relinked l1 h h'.
Proof.
  intros H1 H3 Hnd [l0 [x ->]]%last_split Hn Hr.
  destruct (splice h i o l0 x l2 l3 H1 H3 Hnd) as (i' & h' & E1 & E2 & C1 & C2 & R).
  exists h', i'. unfold allocate_batch.
  rewrite (count_loop h i l0 x l2 n) by (done || (rewrite (assoc (++)) in Hnd; by apply NoDup_app in Hnd as [? _])).
  cbn [mbind option_bind]. rewrite E1. cbn [mbind option_bind]. rewrite E2. cbn [mbind option_bind].
  split_and!; [done..|]. eapply relinked_weaken; [done|]. set_solver.
Qed.

Lemma release_batch_spec h i o l1 l3 :
  chain h i l1 -> chain h o l3 -> NoDup (l1 ++ l3) -> l1 <> [] -> zlen l1 < 2 ^ 32 ->
  exists h', release_batch h i o = Some (h', i, zlen l1) /\ chain h' i (l1 ++ l3) /\ relinked l1 h h'.
Proof.
  intros H1 H3 Hnd [l0 [x ->]]%last_split Hr.
  destruct (splice h i o l0 x [] l3) as (i' & h' & E1 & E2 & C1 & C2 & R); [by rewrite app_nil_r|done..|].
  exists h'. unfold release_batch.
  rewrite (walk_loop h i l0 x) by (done || by apply NoDup_app in Hnd as [? _]).
  cbn [mbind option_bind]. rewrite E2. cbn [mbind option_bind].
  split_and!; [done..|]. eapply relinked_weaken; [done|]. set_solver.
Qed.

(** ** The same on pools: [pool_rep wd h bp l] says that one of the two
    lists of a pool holds [l] and its counter is exact *)

Definition pool_rep (wd : bool) h (bp : block_pool) l : Prop :=
  chain h (pool_head wd bp) l /\ pool_cnt wd bp = zlen l.

Lemma pool_head_set wd head cnt bp : pool_head wd (set_pool wd head cnt bp) = head.
Proof. by destruct wd. Qed.
Lemma pool_cnt_set wd head cnt bp : pool_cnt wd (set_pool wd head cnt bp) = cnt.
Proof. by destruct wd. Qed.
Lemma pool_head_other wd head cnt bp : pool_head (negb wd) (set_pool wd head cnt bp) = pool_head (negb wd) bp.
Proof. by destruct wd. Qed.
Lemma pool_cnt_other wd head cnt bp : pool_cnt (negb wd) (set_pool wd head cnt bp) = pool_cnt (negb wd) bp.
Proof. by destruct wd. Qed.
#[export] Hint Rewrite pool_head_set pool_cnt_set pool_head_other pool_cnt_other : umdk_rw.

(** The other list of a pool is untouched by [set_pool] and by relinking elsewhere. *)
Lemma pool_rep_other wd D h h' bp head cnt l :
  pool_rep (negb wd) h bp l -> relinked D h h' -> (forall x, x ∈ l -> x ∉ D) ->
  pool_rep (negb wd) h' (set_pool wd head cnt bp) l.
Proof.
  intros [Hc Hn] Hr Hd. unfold pool_rep. autorewrite with umdk_rw. split; [by eapply lseg_relinked|done].
Qed.

Lemma pool_rep_relinked wd D h h' bp l :
  pool_rep wd h bp l -> relinked D h h' -> (forall x, x ∈ l -> x ∉ D) -> pool_rep wd h' bp l.
Proof. intros [Hc Hn] Hr Hd. split; [by eapply lseg_relinked|done]. Qed.

Lemma fetch_from_global_refused h gp lp wd n g :
  pool_rep wd h gp g -> zlen g < n -> fetch_from_global h gp lp wd n = Some (h, gp, lp, UMQ_FAIL).
Proof. intros [_ Hn] ?. unfold fetch_from_global. rewrite Hn. by rewrite (proj2 (Z.ltb_lt _ _)). Qed.

Lemma fetch_from_global_spec h gp lp wd n g1 g2 l :
  pool_rep wd h gp (g1 ++ g2) -> pool_rep wd h lp l -> NoDup (g1 ++ g2 ++ l) ->
  n = zlen g1 -> 0 < n < 2 ^ 31 -> zlen (g1 ++ g2) + zlen l < 2 ^ 64 ->
  exists h' gh lh, let gp' := set_pool wd gh (zlen g2) gp in
    let lp' := set_pool wd lh (zlen (g1 ++ l)) lp in
    fetch_from_global h gp lp wd n = Some (h', gp', lp', n) /\
    pool_rep wd h' gp' g2 /\ pool_rep wd h' lp' (g1 ++ l) /\ relinked g1 h h'.
Proof.
  intros [Hg Hgn] [Hl Hln] Hnd Hn Hr Hs. unfold fetch_from_global.
  pose proof (zlen_nonneg g2). pose proof (zlen_nonneg l). rewrite zlen_app in *.
  rewrite (proj2 (Z.ltb_ge _ _)) by lia.
  destruct (allocate_batch_spec h (pool_head wd gp) (pool_head wd lp) g1 g2 l n)
    as (h' & gh & E & C1 & C2 & R); [done..|intros ->; change (zlen (@nil Z)) with 0 in *; lia|done|lia|].
  rewrite E. cbn [mbind option_bind].
  exists h', gh, (pool_head wd gp). rewrite Hgn, Hln.
  replace (zlen g1 + zlen g2 - n) with (zlen g2) by lia. replace (zlen l + n) with (zlen g1 + zlen l) by lia.
  rewrite !u64_small by lia.
  replace (s32 n) with n by (unfold s32; rewrite (Z.mod_small (n + 2 ^ 31)) by lia; lia).
  unfold pool_rep. autorewrite with umdk_rw. rewrite zlen_app. split_and!; done.
Qed.

Lemma return_loop h p xk k0 xr r0 :
  let keep := k0 ++ [xk] in let rem := r0 ++ [xr] in
  chain h p (keep ++ rem) -> NoDup (keep ++ rem) -> zlen (keep ++ rem) < 2 ^ 32 ->
  for_each (list_fuel h) (return_body (zlen keep)) h p (0, 0, 0, 0) =
    Some (h, (zlen (keep ++ rem), zlen rem, xk, xr), 0).
Proof.
  intros keep rem Hl Hnd Hr. destruct (list_fuel_split h p _ Hl Hnd) as [k ->].
  rewrite zlen_app in *. unfold zlen in *. rewrite length_app, <- Nat.add_assoc.
  apply lseg_app in Hl as (m & H1 & H2).
  set (st := fun j => (Z.of_nat j, 0, default 0 ((0 :: keep) !! j), 0)).
  set (st' := fun j => (Z.of_nat (length keep + j), Z.of_nat j, xk, default 0 ((0 :: rem) !! j))).
  change (0, 0, 0, 0) with (st 0%nat).
  rewrite (for_each_read _ st h keep p m 0 (length rem + S k)); [|intros j y Hj|done].
  - replace (st (0 + length keep)%nat) with (st' 0%nat).
    + rewrite (for_each_read _ st' h rem m 0 0 (S k)); [|intros j y Hj|done].
      * rewrite for_each_null. unfold st'. repeat f_equal; [lia|]. unfold rem. rewrite length_app. simpl.
        rewrite Nat.add_comm. simpl. by rewrite list_lookup_middle.
      * unfold return_body, st'. pose proof (lookup_lt_Some _ _ _ Hj). simpl. rewrite Hj.
        rewrite !u32_small by lia. rewrite (proj2 (Z.leb_gt _ _)) by lia. repeat f_equal; lia.
    + unfold st, st'. simpl. repeat f_equal; [lia|]. unfold keep. rewrite length_app, Nat.add_comm.
      simpl. by rewrite list_lookup_middle.
  - unfold return_body, st. pose proof (lookup_lt_Some _ _ _ Hj). simpl. rewrite Hj.
    rewrite !u32_small by lia. rewrite (proj2 (Z.leb_le _ _)) by lia. simpl. repeat f_equal; lia.
Qed.

Lemma return_to_global_spec h gp lp wd th keep rem g :
  pool_rep wd h lp (keep ++ rem) -> pool_rep wd h gp g -> NoDup (keep ++ rem ++ g) ->
  th = zlen keep -> keep <> [] -> rem <> [] -> zlen (keep ++ rem) < 2 ^ 32 -> zlen g + zlen rem < 2 ^ 64 ->
  exists h' gh, let gp' := set_pool wd gh (zlen (rem ++ g)) gp in
    let lp' := set_pool wd (pool_head wd lp) (zlen keep) lp in
    return_to_global h gp lp wd th = Some (h', gp', lp') /\
    pool_rep wd h' gp' (rem ++ g) /\ pool_rep wd h' lp' keep /\ relinked (keep ++ rem) h h'.
Proof.
  intros [Hl Hln] [Hg Hgn] Hnd -> [k0 [xk Ek]]%last_split [r0 [xr Er]]%last_split Hs1 Hs2.
  assert (Hnd1 : NoDup (keep ++ rem)) by (rewrite (assoc (++)) in Hnd; by apply NoDup_app in Hnd as [? _]).
  unfold return_to_global.
  pose proof (return_loop h (pool_head wd lp) xk k0 xr r0) as EL. rewrite <- Ek, <- Er in EL.
  rewrite EL by done. cbn [mbind option_bind].
  apply NoDup_app in Hnd as (Hk & Hd & Hrg).
  apply lseg_app in Hl as (m & H1 & H2).
  assert (exists b, h !! xk = Some b /\ qbuf_next b = m) as (bk & Hbk & Hm).
  { rewrite Ek in H1. apply lseg_app in H1 as (m' & _ & (-> & _ & b & Hb & Hn)). exists b. auto. }
  unfold QBUF_LIST_NEXT at 1. rewrite Hbk. simpl. rewrite Hm. rewrite Er in H2, Hrg.
  destruct (splice h m (pool_head wd gp) r0 xr [] g) as (m' & h1 & _ & E2 & _ & C2 & R1);
    [by rewrite app_nil_r|done|done|].
  rewrite <- Er in H2, Hrg, C2. rewrite E2. simpl.
  assert (Hxk : xk ∉ [xr]).
  { intros ->%list_elem_of_singleton. apply (Hd xr); [rewrite Ek|rewrite Er]; set_solver. }
  assert (Hbk1 : h1 !! xk = Some bk) by (destruct R1 as [_ F]; by rewrite F).
  destruct (set_list_next_Some h1 xk 0 bk Hbk1) as [E3 R2]. rewrite E3. simpl.
  exists (<[xk := set_next 0 bk]> h1), m. cbv zeta. unfold pool_rep. autorewrite with umdk_rw.
  rewrite Hgn, Hln, (zlen_app rem g), (zlen_app keep rem) in *.
  pose proof (zlen_nonneg keep). pose proof (zlen_nonneg rem). pose proof (zlen_nonneg g).
  replace (zlen g + zlen rem) with (zlen rem + zlen g) by lia.
  replace (zlen keep + zlen rem - zlen rem) with (zlen keep) by lia. rewrite !u64_small by lia. split_and!.
  - done.
  - eapply lseg_relinked; [exact C2|exact R2|]. intros y Hy ->%list_elem_of_singleton.
    apply (Hd xk); [rewrite Ek; set_solver|done].
  - done.
  - rewrite Ek in *. eapply lseg_set_last; [|done|done]. eapply lseg_relinked; [exact H1|exact R1|].
    intros y Hy ->%list_elem_of_singleton. apply (Hd xr Hy). rewrite Er. set_solver.
  - done.
  - eapply relinked_weaken; [exact (relinked_trans _ _ _ _ _ R1 R2)|]. rewrite Ek, Er. set_solver.
Qed.

Lemma return_qbuf_to_global_spec h gp wd buf l g :
  chain h buf l -> pool_rep wd h gp g -> NoDup (l ++ g) -> l <> [] -> zlen l < 2 ^ 32 -> zlen l + zlen g < 2 ^ 64 ->
  exists h', let gp' := set_pool wd buf (zlen (l ++ g)) gp in
    return_qbuf_to_global h gp buf wd = Some (h', gp') /\ pool_rep wd h' gp' (l ++ g) /\ relinked l h h'.
Proof.
  intros Hl [Hg Hgn] Hnd Hne Hs1 Hs2.
  destruct (release_batch_spec h buf (pool_head wd gp) l g) as (h' & E & C & R); [done..|].
  exists h'. cbv zeta. unfold return_qbuf_to_global. unfold release_batch in E.
  destruct (for_each _ walk_body h buf (0, 0)) as [[[h1 [cnt last]] e]|] eqn:EL; [|done].
  cbn [mbind option_bind] in *. destruct (set_list_next h1 last _) as [h2|] eqn:E2; [|done].
  cbn [mbind option_bind] in *. injection E as -> ->. unfold pool_rep. autorewrite with umdk_rw.
  rewrite Hgn, zlen_app. pose proof (zlen_nonneg l). pose proof (zlen_nonneg g).
  rewrite (Z.add_comm (zlen g)), u64_small by lia. split_and!; done.
Qed.

Lemma umq_qbuf_alloc_nodata_spec h lp n l1 l2 list l3 :
  pool_rep false h lp (l1 ++ l2) -> chain h list l3 -> NoDup (l1 ++ l2 ++ l3) -> l1 <> [] ->
  n = zlen l1 -> n < 2 ^ 32 -> zlen (l1 ++ l2) < 2 ^ 64 ->
  exists h' lh, let lp' := set_pool false lh (zlen l2) lp in
    umq_qbuf_alloc_nodata h lp n list = Some (h', lp', head_without_data lp) /\
    pool_rep false h' lp' l2 /\ chain h' (head_without_data lp) (l1 ++ l3) /\ relinked l1 h h'.
Proof.
  intros [Hl Hln] H3 Hnd Hne Hn Hr Hs. simpl in Hl, Hln.
  destruct (allocate_batch_spec h (head_without_data lp) list l1 l2 l3 n) as (h' & lh & E & C1 & C2 & R); [done..|].
  exists h', lh. cbv zeta. unfold umq_qbuf_alloc_nodata. unfold allocate_batch in E.
  destruct (for_each _ _ h _ 0) as [[[h1 cnt] x]|] eqn:EL; [|done].
  cbn [mbind option_bind] in *. destruct (QBUF_LIST_NEXT h1 x) as [r|] eqn:E1; [|done].
  cbn [mbind option_bind] in *. destruct (set_list_next h1 x _) as [h2|] eqn:E2; [|done].
  cbn [mbind option_bind] in *. injection E as -> -> ->. unfold pool_rep. autorewrite with umdk_rw.
  rewrite Hln, zlen_app in *. pose proof (zlen_nonneg l1). pose proof (zlen_nonneg l2).
  replace (zlen l1 + zlen l2 - n) with (zlen l2) by lia. rewrite u64_small by lia. simpl. split_and!; done.
Qed.
