(* ===== verification/QbufFrag.v ===== *)
(** * Cutting a request into buffers (umq_qbuf_pool.h)

    A request of [request_size] bytes behind a headroom is spread over as many
    blocks as it needs; the allocation loops number the fragments with a small
    state ([frag]). The closed form [frag_at] gives the [i]-th fragment of a
    message directly, the loops are proved to follow it, and resetting the
    headroom is proved to give the layout of the new headroom. *)

From S2P Require Import Prelude QbufList.

Implicit Types (h : gmap Z umq_buf) (l : list Z) (p q x : Z).

Definition UMQ_QBUF_SIZE_POW_8K : Z := 13.
Definition UMQ_HEADROOM_SIZE_LIMIT : Z := 512.

Definition umq_buf_size_small (pow : Z) : Z := u32 (Z.shiftl 1 pow).
Definition umq_buf_size_mul_middle : Z := 6.
Definition umq_buf_size_mul_big : Z := u8 (umq_buf_size_mul_middle * 6).
Definition umq_buf_size_mul_huge : Z := u8 (umq_buf_size_mul_big * 6).
Definition umq_buf_size_middle (pow : Z) : Z := u32 (umq_buf_size_small pow * umq_buf_size_mul_middle).
Definition umq_buf_size_big (pow : Z) : Z := u32 (umq_buf_size_small pow * umq_buf_size_mul_big).
Definition umq_buf_size_huge (pow : Z) : Z := u32 (umq_buf_size_small pow * umq_buf_size_mul_huge).

Definition floor_to_align (ptr align : Z) : Z := Z.land (u64 ptr) (u64 (Z.lnot (align - 1))).

(** ** The allocation loops *)

(** the local variables of the loops: headroom_size_temp, total_data_size,
    remaining_size, max_data_capacity, first_fragment *)
Record frag := {
  fr_headroom : Z;
  fr_total : Z;
  fr_remaining : Z;
  fr_capacity : Z;
  fr_first : bool
}.

Definition frag_size (s : frag) : Z :=
  if fr_remaining s >=? fr_capacity s then fr_capacity s else fr_remaining s.

Definition frag_init (max request_size headroom : Z) : frag :=
  {| fr_headroom := headroom; fr_total := request_size; fr_remaining := request_size;
     fr_capacity := u32 (max - headroom); fr_first := true |}.

Definition frag_next (max request_size headroom : Z) (s : frag) : frag :=
  let remaining := u32 (fr_remaining s - frag_size s) in
  if remaining =? 0 then frag_init max request_size headroom
  else {| fr_headroom := 0; fr_total := 0; fr_remaining := remaining; fr_capacity := max; fr_first := false |}.

Definition set_fragment (data size : Z) (s : frag) (b : umq_buf) : umq_buf :=
  {| qbuf_next := qbuf_next b; umqh := umqh b; total_data_size := fr_total s; buf_size := size;
     data_size := frag_size s; headroom_size := u16 (fr_headroom s); first_fragment := fr_first s;
     token_id := token_id b; mempool_id := mempool_id b; buf_data := data; qbuf_ext := qbuf_ext b |}.

(** One loop for the variants of the source, which differ in where a block's
    data starts ([place], given the header's address and contents and the
    headroom), in [buf_size] and in the largest amount of data of a block. *)
Definition alloc_body (place : Z -> umq_buf -> Z -> Z) (size max request_size num headroom : Z)
    h (cur_node : Z) (s : frag * Z) : option (heap * (frag * Z) * bool) :=
  let '(fr, cnt) := s in
  h ← write h cur_node (fun b => set_fragment (place cur_node b (fr_headroom fr)) size fr b);
  let cnt := u32 (cnt + 1) in
  Some (h, (frag_next max request_size headroom fr, cnt), cnt =? num).

Definition alloc_data (place : Z -> umq_buf -> Z -> Z) (size max : Z)
    h (head request_size num list headroom : Z) : option (heap * Z) :=
  '(h, _, cur_node) ← for_each (list_fuel h) (alloc_body place size max request_size num headroom) h head
     (frag_init max request_size headroom, 0);
  rest ← QBUF_LIST_NEXT h cur_node;
  h ← set_list_next h cur_node list;
  Some (h, rest).

Definition place_split (pow : Z) (_ : Z) (b : umq_buf) (headroom : Z) : Z :=
  u64 (floor_to_align (buf_data b) (umq_buf_size_small pow) + headroom).
Definition place_combine (node : Z) (_ : umq_buf) (headroom : Z) : Z :=
  u64 (node + SIZEOF_UMQ_BUF + headroom).

(** The result is the memory, the pool and the new first element of [list]. *)
Definition umq_qbuf_alloc_data_with_split (pow : Z) h (local_pool : block_pool)
    (request_size num list headroom : Z) : option (heap * block_pool * Z) :=
  '(h, rest) ← alloc_data (place_split pow) (u32 (umq_buf_size_small pow + SIZEOF_UMQ_BUF))
     (umq_buf_size_small pow) h (head_with_data local_pool) request_size num list headroom;
  Some (h, set_pool true rest (u64 (buf_cnt_with_data local_pool - num)) local_pool, head_with_data local_pool).

Definition umq_qbuf_alloc_data_with_combine (pow : Z) h (local_pool : block_pool)
    (request_size num list headroom : Z) : option (heap * block_pool * Z) :=
  let max_data_size := u32 (umq_buf_size_small pow - SIZEOF_UMQ_BUF) in
  '(h, rest) ← alloc_data place_combine (umq_buf_size_small pow) max_data_size
     h (head_with_data local_pool) request_size num list headroom;
  Some (h, set_pool true rest (u64 (buf_cnt_with_data local_pool - num)) local_pool, head_with_data local_pool).

(** ** Resetting the headroom *)

Definition set_headroom (data headroom : Z) (b : umq_buf) : umq_buf :=
  {| qbuf_next := qbuf_next b; umqh := umqh b; total_data_size := total_data_size b; buf_size := buf_size b;
     data_size := data_size b; headroom_size := headroom; first_fragment := first_fragment b;
     token_id := token_id b; mempool_id := mempool_id b; buf_data := data; qbuf_ext := qbuf_ext b |}.
Definition set_data_size (size : Z) (b : umq_buf) : umq_buf :=
  {| qbuf_next := qbuf_next b; umqh := umqh b; total_data_size := total_data_size b; buf_size := buf_size b;
     data_size := size; headroom_size := headroom_size b; first_fragment := first_fragment b;
     token_id := token_id b; mempool_id := mempool_id b; buf_data := buf_data b; qbuf_ext := qbuf_ext b |}.

Definition UMQ_ERR_EINVAL : Z := 22.

Definition clip (remaining capacity : Z) : Z := if remaining >=? capacity then capacity else remaining.

(** [while (data != NULL)]: the state is remaining_size and max_data_capacity *)
Definition reset_body_split (diff headroom block_size : Z) h (data : Z) (s : Z * Z) :
    option (heap * (Z * Z) * bool) :=
  b ← h !! data;
  let '(remaining, capacity) :=
    if first_fragment b then (total_data_size b, u32 (block_size - headroom)) else (s.1, block_size) in
  let b := if first_fragment b then set_headroom (u64 (buf_data b + diff)) headroom b else b in
  let size := clip remaining capacity in
  Some (<[data := set_data_size size b]> h, (u32 (remaining - size), capacity), false).

Definition headroom_reset_with_split h (qbuf headroom block_size : Z) : option (heap * Z) :=
  b ← h !! qbuf;
  let total := total_data_size b in
  let after_reset_buf_count := u32 (total + headroom + block_size - 1) / block_size in
  let before_reset_buf_count := u32 (total + headroom_size b + block_size - 1) / block_size in
  if after_reset_buf_count >? before_reset_buf_count then Some (h, - UMQ_ERR_EINVAL)
  else
    let diff := headroom - headroom_size b in
    '(h, _, _) ← for_each (list_fuel h) (reset_body_split diff headroom block_size) h qbuf (total, 0);
    Some (h, UMQ_SUCCESS).

(** in this variant the capacity of a first fragment is only set before the loop *)
Definition reset_body_combine (diff headroom align_size : Z) h (data : Z) (s : Z * Z) :
    option (heap * (Z * Z) * bool) :=
  b ← h !! data;
  let '(remaining, capacity) :=
    if first_fragment b then (total_data_size b, s.2) else (s.1, align_size) in
  let b := if first_fragment b then set_headroom (u64 (buf_data b + diff)) headroom b else b in
  let size := clip remaining capacity in
  Some (<[data := set_data_size size b]> h, (u32 (remaining - size), capacity), false).

Definition headroom_reset_with_combine h (qbuf headroom block_size : Z) : option (heap * Z) :=
  b ← h !! qbuf;
  let total := total_data_size b in
  let align_size := u32 (block_size - SIZEOF_UMQ_BUF) in
  let after_reset_buf_count := u32 (total + headroom + align_size - 1) / align_size in
  let before_reset_buf_count := u32 (total + headroom_size b + align_size - 1) / align_size in
  if after_reset_buf_count >? before_reset_buf_count then Some (h, - UMQ_ERR_EINVAL)
  else
    let diff := headroom - headroom_size b in
    '(h, _, _) ← for_each (list_fuel h) (reset_body_combine diff headroom align_size) h qbuf
       (total, u32 (align_size - headroom));
    Some (h, UMQ_SUCCESS).

(** [UMQ_BUF_OTHER]: any other value of the C enum *)
Inductive umq_buf_mode := UMQ_BUF_SPLIT | UMQ_BUF_COMBINE | UMQ_BUF_OTHER.
#[export] Instance umq_buf_mode_eq_dec : EqDecision umq_buf_mode.
Proof. solve_decision. Defined.

Definition headroom_reset h (qbuf headroom : Z) (mode : umq_buf_mode) (block_size : Z) : option (heap * Z) :=
  if decide (mode = UMQ_BUF_SPLIT) then headroom_reset_with_split h qbuf headroom block_size
  else headroom_reset_with_combine h qbuf headroom block_size.

(** ** The fragments of a message in closed form

    With blocks of [max] data bytes, fragment [i] of a message of [request]
    bytes starts at byte [frag_start i]; there are [frag_count] of them. *)

Section closed_form.
Context (max request headroom : Z).
Implicit Types i : Z.

Definition frag_count : Z := (request + headroom + max - 1) / max.
Definition frag_start i : Z := if i =? 0 then 0 else i * max - headroom.
Definition frag_room i : Z := if i =? 0 then headroom else 0.

Definition frag_at i : frag :=
  {| fr_headroom := frag_room i; fr_total := if i =? 0 then request else 0;
     fr_remaining := request - frag_start i; fr_capacity := max - frag_room i; fr_first := i =? 0 |}.

Hypothesis Hmax : 0 < max.
Hypothesis Hhead : 0 <= headroom < max.
Hypothesis Hreq : 0 < request.

Lemma frag_count_bounds : 1 <= frag_count /\ (frag_count - 1) * max < request + headroom <= frag_count * max.
Proof using Type*. unfold frag_count. split; [apply Z.div_le_lower_bound; lia|]. zmod. Qed.

Lemma frag_start_lt i : 0 <= i < frag_count -> 0 <= frag_start i < request.
Proof using Type*. pose proof frag_count_bounds. unfold frag_start. intros Hi. case_match; breflect; nia. Qed.

(** the amount of data of fragment [i] *)
Lemma frag_size_at i : frag_size (frag_at i) = Z.min (request - frag_start i) (max - frag_room i).
Proof using Type*. unfold frag_size, frag_at. simpl. case_match; rewrite Z.geb_leb in *; breflect; lia. Qed.

(** Consecutive fragments cover consecutive bytes, and the last one ends the message. *)
Lemma frag_start_next i :
  0 <= i < frag_count - 1 -> frag_size (frag_at i) = max - frag_room i /\
    frag_start (i + 1) = frag_start i + frag_size (frag_at i).
Proof using Type*.
  pose proof frag_count_bounds. rewrite frag_size_at. intros Hi. unfold frag_start, frag_room.
  rewrite (proj2 (Z.eqb_neq (i + 1) 0)) by lia. case_match; breflect; nia.
Qed.

Lemma frag_last : frag_start (frag_count - 1) + frag_size (frag_at (frag_count - 1)) = request.
Proof using Type*.
  pose proof frag_count_bounds. rewrite frag_size_at. unfold frag_start, frag_room. case_match; breflect; nia.
Qed.

Lemma frag_size_pos i : 0 <= i < frag_count -> 0 < frag_size (frag_at i) <= max - frag_room i.
Proof using Type*.
  intros Hi. pose proof (frag_start_lt i Hi). rewrite frag_size_at. unfold frag_room. case_match; lia.
Qed.

Hypothesis Hwidth : request + headroom + max < 2 ^ 32.

Lemma frag_init_at : frag_init max request headroom = frag_at 0.
Proof using Type*. unfold frag_init, frag_at, frag_start, frag_room. simpl. f_equal; [lia|]. apply u32_small. lia. Qed.

(** The step of the loops goes from fragment to fragment and starts over
    after the last one. *)
Lemma frag_next_at i :
  0 <= i < frag_count -> frag_next max request headroom (frag_at i) = frag_at ((i + 1) mod frag_count).
Proof using Type*.
  intros Hi. pose proof (frag_start_lt i Hi). pose proof (frag_size_pos i Hi). unfold frag_next.
  change (fr_remaining (frag_at i)) with (request - frag_start i).
  destruct (decide (i = frag_count - 1)) as [->|].
  - pose proof frag_last. replace (frag_count - 1 + 1) with frag_count by lia. rewrite Z.mod_same by lia.
    replace (request - _ - _) with 0 by lia. apply frag_init_at.
  - destruct (frag_start_next i ltac:(lia)) as [_ E]. pose proof (frag_start_lt (i + 1) ltac:(lia)).
    rewrite Z.mod_small by lia. rewrite u32_small by lia. rewrite (proj2 (Z.eqb_neq _ 0)) by lia.
    unfold frag_at at 2. unfold frag_room. rewrite (proj2 (Z.eqb_neq (i + 1) 0)) by lia. f_equal; lia.
Qed.
End closed_form.

(** ** What an allocation writes

    Header [x] has become fragment [fr]; its link is the only thing left open. *)
Definition filled (place : Z -> umq_buf -> Z -> Z) (size : Z) (fr : frag) (h h' : heap) (x : Z) : Prop :=
  exists b n, h !! x = Some b /\ h' !! x = Some (set_next n (set_fragment (place x b (fr_headroom fr)) size fr b)).

(** the fragment of the [i]-th buffer of an allocation of several messages *)
Definition nth_frag (max request headroom : Z) (i : nat) : frag :=
  frag_at max request headroom (Z.of_nat i mod frag_count max request headroom).

Lemma nth_frag_0 max request headroom :
  0 < max -> 0 <= headroom < max -> 0 < request -> request + headroom + max < 2 ^ 32 ->
  nth_frag max request headroom 0 = frag_init max request headroom.
Proof.
  intros. unfold nth_frag. pose proof (frag_count_bounds max request headroom). rewrite Z.mod_0_l by lia.
  symmetry. by apply frag_init_at.
Qed.

Lemma nth_frag_S max request headroom i :
  0 < max -> 0 <= headroom < max -> 0 < request -> request + headroom + max < 2 ^ 32 ->
  nth_frag max request headroom (S i) = frag_next max request headroom (nth_frag max request headroom i).
Proof.
  intros. unfold nth_frag. pose proof (frag_count_bounds max request headroom).
  rewrite frag_next_at by (done || (apply Z.mod_pos_bound; lia)).
  rewrite Zplus_mod_idemp_l. f_equal. f_equal. lia.
Qed.

Lemma alloc_data_spec place size max h head request headroom list l1 l2 l3 num :
  0 < max -> 0 <= headroom < max -> 0 < request -> request + headroom + max < 2 ^ 32 ->
  chain h head (l1 ++ l2) -> chain h list l3 -> NoDup (l1 ++ l2 ++ l3) -> l1 <> [] ->
  num = zlen l1 -> num < 2 ^ 32 ->
  exists h' rest, alloc_data place size max h head request num list headroom = Some (h', rest) /\
    chain h' rest l2 /\ chain h' head (l1 ++ l3) /\ (forall x, x ∉ l1 -> h' !! x = h !! x) /\
    forall i x, l1 !! i = Some x -> filled place size (nth_frag max request headroom i) h h' x.
Proof.
  intros Hm Hh Hq Hw H1 H3 Hnd [l0 [x ->]]%last_split Hn Hr.
  set (st := fun i => (nth_frag max request headroom i, Z.of_nat i)).
  set (g := fun i y b => set_fragment (place y b (fr_headroom (nth_frag max request headroom i))) size
                           (nth_frag max request headroom i) b).
  assert (Hg : forall j y b, qbuf_next (g j y b) = qbuf_next b) by done.
  assert (Hnd' : NoDup ((l0 ++ [x]) ++ l2)) by (rewrite (assoc (++)) in Hnd; by apply NoDup_app in Hnd as [? _]).
  pose proof (for_each_write_break (alloc_body place size max request num headroom) st g Hg h l0 x l2 head) as EL.
  unfold alloc_data. rewrite <- nth_frag_0 by done. change (nth_frag max request headroom 0, 0) with (st 0%nat).
  rewrite EL; [|intros i y h' Hi Hy Hs|done|done].
  - cbn [mbind option_bind]. set (h1 := write_all g 0 (l0 ++ [x]) h) in *.
    destruct (splice h1 head list l0 x l2 l3) as (rest & h' & E1 & E2 & C1 & C2 & R);
      [by apply lseg_write_all|by apply lseg_write_all|done|].
    rewrite E1. cbn [mbind option_bind]. rewrite E2. cbn [mbind option_bind]. exists h', rest.
    split_and!; [done..| |].
    + intros y Hy. destruct R as [_ F]. rewrite F by set_solver. by apply write_all_out.
    + intros i y Hi. apply NoDup_app in Hnd' as [Hnd' _].
      destruct (lseg_mapped h _ _ _ y H1) as [_ [b Hb]].
      { apply elem_of_app. left. by eapply list_elem_of_lookup_2. }
      pose proof (write_all_in g 0 _ h i y Hnd' Hi) as E. rewrite Hb in E. simpl in E.
      destruct R as [R _]. apply (f_equal (fun m => m !! y)) in R. rewrite !lookup_fmap in R. unfold h1 in R.
      rewrite E in R. destruct (h' !! y) as [b'|] eqn:Eb; [|done]. simpl in R. injection R as R.
      exists b, (qbuf_next b'). split; [done|]. rewrite Eb. f_equal. unfold g in R. destruct b'. unfold set_next in *. simpl in *. congruence.
  - unfold alloc_body, st. rewrite write_Some by (by rewrite Hy). cbn [mbind option_bind].
    pose proof (lookup_lt_Some _ _ _ Hi). unfold zlen in Hn.
    rewrite u32_small by lia. rewrite <- nth_frag_S by done. replace (Z.of_nat i + 1) with (Z.of_nat (S i)) by lia.
    do 2 f_equal. apply eq_true_iff_eq.
    rewrite Z.eqb_eq, bool_decide_eq_true. lia.
Qed.

(** ** Messages laid out in a chain of buffers

    [k] buffers per message; [base x] is where the block of header [x] keeps
    its data. After a shorter headroom has been set, the last buffers of a
    message may be empty. *)

(** the identity of a header: the queue and the pool it belongs to *)
Definition same_ids h h' : Prop :=
  forall x b, h !! x = Some b -> exists b', h' !! x = Some b' /\ umqh b' = umqh b /\ mempool_id b' = mempool_id b.

Section layout.
Context (base : Z -> Z) (max k request : Z).

Definition frag_bytes (headroom j : Z) : Z :=
  Z.max 0 (Z.min (request - frag_start max headroom j) (max - frag_room headroom j)).

Definition fragment_of (headroom : Z) (i : nat) (x : Z) (b : umq_buf) : Prop :=
  let j := Z.of_nat i mod k in
  first_fragment b = (j =? 0) /\ total_data_size b = (if j =? 0 then request else 0) /\
  headroom_size b = frag_room headroom j /\ buf_data b = base x + frag_room headroom j /\
  data_size b = frag_bytes headroom j.

Definition laid_out (headroom : Z) h l : Prop :=
  forall (i : nat) x, l !! i = Some x -> exists b, h !! x = Some b /\ fragment_of headroom i x b.

Hypothesis Hk : 0 < k.
Hypothesis Hreq : 0 <= request.

Section reset.
Context (headroom headroom' cap0 : Z).
Hypothesis Hhead : 0 <= headroom < max.
Hypothesis Hhead' : 0 <= headroom' < max.
Hypothesis Hwidth : request + 2 * max < 2 ^ 32.

Definition reset_state (i : nat) : Z * Z :=
  match i with
  | O => (request, cap0)
  | S i => let j := Z.of_nat i mod k in
      (Z.max 0 (request - frag_start max headroom' (j + 1)), max - frag_room headroom' j)
  end.

Definition reset_header (i : nat) (x : Z) (b : umq_buf) : umq_buf :=
  let j := Z.of_nat i mod k in
  set_data_size (frag_bytes headroom' j) (if j =? 0 then set_headroom (base x + headroom') headroom' b else b).

Lemma reset_header_of i x b : fragment_of headroom i x b -> fragment_of headroom' i x (reset_header i x b).
Proof using Type*.
  unfold fragment_of, reset_header, frag_room. intros (H1 & H2 & H3 & H4 & H5).
  case_match; simpl in *; split_and!; done.
Qed.

Lemma clip_frag_bytes j :
  0 <= j < k -> clip (if j =? 0 then request else Z.max 0 (request - frag_start max headroom' j)) (max - frag_room headroom' j) =
    frag_bytes headroom' j.
Proof using Type*.
  intros Hj. unfold clip, frag_bytes, frag_start, frag_room. rewrite Z.geb_leb. case_match; simpl; case_match; breflect; lia.
Qed.

Lemma reset_remaining j :
  0 <= j < k ->
  u32 ((if j =? 0 then request else Z.max 0 (request - frag_start max headroom' j)) - frag_bytes headroom' j) =
    Z.max 0 (request - frag_start max headroom' (j + 1)).
Proof using Type*.
  intros Hj. unfold frag_bytes, frag_start, frag_room. rewrite (proj2 (Z.eqb_neq (j + 1) 0)) by lia.
  case_match; breflect; rewrite u32_small by nia; nia.
Qed.

(** what the loop finds as remaining size at a buffer that is not the first of its message *)
Lemma reset_state_inner i :
  Z.of_nat i mod k <> 0 -> (reset_state i).1 = Z.max 0 (request - frag_start max headroom' (Z.of_nat i mod k)).
Proof using Type*.
  intros Hi. destruct i as [|i]; [by rewrite Z.mod_0_l in Hi by lia|]. simpl. f_equal. f_equal. f_equal.
  pose proof (Z.mod_pos_bound (Z.of_nat i) k Hk).
  rewrite Nat2Z.inj_succ, <- Z.add_1_r in *. rewrite <- (Zplus_mod_idemp_l (Z.of_nat i)) in *.
  destruct (decide (Z.of_nat i mod k + 1 = k)) as [E|]; [by rewrite E, Z.mod_same in Hi by lia|].
  symmetry. apply Z.mod_small. lia.
Qed.

(** the capacity the loop of the combined layout carries to a first fragment *)
Lemma reset_state_first i :
  cap0 = max - headroom' -> Z.of_nat i mod k = 0 -> k = 1 \/ Z.of_nat i < k -> (reset_state i).2 = max - headroom'.
Proof using Type*.
  intros Hc Hi Hone. destruct i as [|i]; [done|]. destruct Hone as [E|Hlt].
  - unfold reset_state. cbn [snd]. by rewrite E, Z.mod_1_r.
  - rewrite Z.mod_small in Hi by lia. lia.
Qed.

(** One step of either loop, when the capacity it uses is the right one. *)
Lemma reset_step i x b cap :
  fragment_of headroom i x b -> 0 <= base x -> base x + max < 2 ^ 64 ->
  (Z.of_nat i mod k = 0 -> cap = max - headroom') -> (Z.of_nat i mod k <> 0 -> cap = max) ->
  let remaining := if first_fragment b then total_data_size b else (reset_state i).1 in
  let b' := if first_fragment b then set_headroom (u64 (buf_data b + (headroom' - headroom))) headroom' b else b in
  set_data_size (clip remaining cap) b' = reset_header i x b /\
  (u32 (remaining - clip remaining cap), cap) = reset_state (S i).
Proof using Type*.
  intros (E1 & E2 & E3 & E4 & E5) Hb1 Hb2 Hc1 Hc2. set (j := Z.of_nat i mod k) in *.
  pose proof (Z.mod_pos_bound (Z.of_nat i) k Hk) as Hj. fold j in Hj.
  assert (Hr : (if first_fragment b then total_data_size b else (reset_state i).1) =
               (if j =? 0 then request else Z.max 0 (request - frag_start max headroom' j))).
  { rewrite E1, E2. destruct (j =? 0) eqn:Ej; [done|]. breflect. by apply reset_state_inner. }
  assert (Hcap : cap = max - frag_room headroom' j).
  { unfold frag_room. destruct (j =? 0) eqn:Ej; breflect; [auto|]. rewrite (Hc2 Ej). lia. }
  cbv zeta. rewrite Hr, Hcap, clip_frag_bytes, reset_remaining by done. split; [|done].
  unfold reset_header. fold j. rewrite E1. f_equal. destruct (j =? 0) eqn:Ej; [|done].
  rewrite E4. unfold frag_room. rewrite Ej. f_equal. rewrite u64_small by lia. lia.
Qed.

Lemma laid_out_reset h l :
  laid_out headroom h l -> NoDup l -> laid_out headroom' (write_all reset_header 0 l h) l.
Proof using Type*.
  intros Hl Hnd i x Hi. destruct (Hl i x Hi) as (b & Hb & Hf). exists (reset_header i x b). split.
  - by rewrite (write_all_in _ _ _ _ i) , Hb by done.
  - by apply reset_header_of.
Qed.

Definition reset_result h h' p l : Prop :=
  laid_out headroom' h' l /\ chain h' p l /\ (forall x, x ∉ l -> h' !! x = h !! x) /\ same_ids h h'.

Lemma reset_loop body h p l :
  (forall i x b h', l !! i = Some x -> h' !! x = Some b -> fragment_of headroom i x b ->
     body h' x (reset_state i) = Some (<[x := reset_header i x b]> h', reset_state (S i), false)) ->
  chain h p l -> NoDup l -> laid_out headroom h l ->
  exists h' s, for_each (list_fuel h) body h p (request, cap0) = Some (h', s, 0) /\ reset_result h h' p l.
Proof using Type*.
  intros Hb Hl Hnd Hlay. exists (write_all reset_header 0 l h), (reset_state (length l)).
  assert (Hg : forall j x b, qbuf_next (reset_header j x b) = qbuf_next b).
  { intros j x b. unfold reset_header. by case_match. }
  change (request, cap0) with (reset_state 0). split.
  - apply (for_each_write_all body reset_state reset_header Hg); [|done|done].
    intros i x h' Hi Hx _. destruct (Hlay i x Hi) as (b & Hxb & Hf). rewrite Hxb in Hx.
    rewrite (Hb i x b h' Hi Hx Hf). do 3 f_equal. pose proof (write_Some h' x (reset_header i x) ltac:(eauto)) as E.
    unfold write in E. rewrite Hx in E. simpl in E. by injection E.
  - split_and!; [by apply laid_out_reset|by apply lseg_write_all|intros x Hx; by apply write_all_out|].
    intros x b Hx. destruct (decide (x ∈ l)) as [Hxl|Hxl]; [|exists b; by rewrite write_all_out].
    apply list_elem_of_lookup_1 in Hxl as [i Hi]. exists (reset_header i x b).
    rewrite (write_all_in _ _ _ _ i), Hx by done. split; [done|]. unfold reset_header. by case_match.
Qed.
End reset.

Lemma laid_out_first headroom h p l :
  chain h p l -> l <> [] -> laid_out headroom h l ->
  exists b, h !! p = Some b /\ total_data_size b = request /\ headroom_size b = headroom.
Proof using Type*.
  intros Hl Hne Hlay. destruct l as [|x l]; [done|]. destruct Hl as (-> & _).
  destruct (Hlay 0%nat x eq_refl) as (b & Hb & _ & H2 & H3 & _). exists b. unfold frag_room in *.
  rewrite Z.mod_0_l in * by lia. done.
Qed.

Definition block_of (mode : umq_buf_mode) : Z :=
  if decide (mode = UMQ_BUF_SPLIT) then max else max + SIZEOF_UMQ_BUF.

(** Resetting the headroom of a chain: refused when a message would need
    more buffers, and otherwise the layout of the new headroom. With combined
    headers this is shown for one message, or for messages of one buffer. *)
Theorem headroom_reset_spec mode h p l headroom headroom' :
  0 <= headroom < max -> 0 <= headroom' < max -> request + 2 * max < 2 ^ 32 - 128 ->
  chain h p l -> NoDup l -> l <> [] -> laid_out headroom h l ->
  (forall x, x ∈ l -> 0 <= base x /\ base x + max < 2 ^ 64) ->
  (mode <> UMQ_BUF_SPLIT -> k = 1 \/ zlen l <= k) ->
  if frag_count max request headroom' <=? frag_count max request headroom
  then exists h', headroom_reset h p headroom' mode (block_of mode) = Some (h', UMQ_SUCCESS) /\
    reset_result headroom' h h' p l
  else headroom_reset h p headroom' mode (block_of mode) = Some (h, - UMQ_ERR_EINVAL).
Proof using Type*.
  intros Hh Hh' Hw Hl Hnd Hne Hlay Hbase Hone.
  destruct (laid_out_first headroom h p l Hl Hne Hlay) as (b & Hb & Ht & Hr).
  unfold headroom_reset, block_of, SIZEOF_UMQ_BUF. case_decide as Hm.
  - unfold headroom_reset_with_split. rewrite Hb. cbn [mbind option_bind]. rewrite Ht, Hr, !u32_small by lia.
    fold (frag_count max request headroom') (frag_count max request headroom). rewrite Z.gtb_ltb, Z.ltb_antisym.
    destruct (frag_count max request headroom' <=? _) eqn:Ec; cbn [negb]; [|done].
    destruct (reset_loop headroom headroom' 0 Hh Hh' ltac:(lia) (reset_body_split (headroom' - headroom) headroom' max) h p l)
      as (h' & s & E & R); [|done|done|done|rewrite E; by exists h'].
    intros i x b' h1 Hi Hx Hf. destruct (Hbase x) as [Hb1 Hb2]; [by eapply list_elem_of_lookup_2|].
    destruct (reset_step headroom headroom' 0 Hh Hh' ltac:(lia) i x b' (if first_fragment b' then max - headroom' else max) Hf Hb1 Hb2)
      as [E1 E2].
    1-2: destruct Hf as [-> _]; case_match; breflect; done.
    unfold reset_body_split. rewrite Hx. cbn [mbind option_bind]. rewrite u32_small by lia.
    rewrite <- E1, <- E2. by destruct (first_fragment b').
  - unfold headroom_reset_with_combine, SIZEOF_UMQ_BUF. rewrite Hb. cbn [mbind option_bind].
    replace (max + 128 - 128) with max by lia. rewrite Ht, Hr, !(u32_small max), !u32_small by lia.
    fold (frag_count max request headroom') (frag_count max request headroom). rewrite Z.gtb_ltb, Z.ltb_antisym.
    destruct (frag_count max request headroom' <=? _) eqn:Ec; cbn [negb]; [|done].
    destruct (reset_loop headroom headroom' (max - headroom') Hh Hh' ltac:(lia) (reset_body_combine (headroom' - headroom) headroom' max) h p l)
      as (h' & s & E & R); [|done|done|done|rewrite E; by exists h'].
    intros i x b' h1 Hi Hx Hf. destruct (Hbase x) as [Hb1 Hb2]; [by eapply list_elem_of_lookup_2|].
    destruct (reset_step headroom headroom' (max - headroom') Hh Hh' ltac:(lia) i x b'
      (if first_fragment b' then (reset_state headroom' (max - headroom') i).2 else max) Hf Hb1 Hb2) as [E1 E2].
    { destruct Hf as [-> _]. intros Hj. rewrite (proj2 (Z.eqb_eq _ _)) by done. apply (reset_state_first headroom); auto; [lia|].
      apply lookup_lt_Some in Hi. unfold zlen in Hone. destruct (Hone Hm); [by left|right; lia]. }
    { destruct Hf as [-> _]. by intros ->%Z.eqb_neq. }
    unfold reset_body_combine. rewrite Hx. cbn [mbind option_bind].
    rewrite <- E1, <- E2. by destruct (first_fragment b').
Qed.
End layout.

(** A filled header is the fragment its position asks for. *)
Lemma filled_fragment_of base place size max request headroom i x h h' b :
  0 < max -> 0 <= headroom < max -> headroom < 2 ^ 16 -> 0 < request ->
  h !! x = Some b -> (forall hr, 0 <= hr <= headroom -> place x b hr = base x + hr) ->
  filled place size (nth_frag max request headroom i) h h' x ->
  exists b', h' !! x = Some b' /\ fragment_of base max (frag_count max request headroom) request headroom i x b' /\
    base x <= buf_data b' <= base x + headroom /\ mempool_id b' = mempool_id b /\ umqh b' = umqh b.
Proof.
  intros Hm Hh Hw Hq Hb Hplace (b0 & n & Hb0 & Hb'). rewrite Hb in Hb0. injection Hb0 as <-.
  unfold nth_frag in Hb'. set (k := frag_count max request headroom) in *. set (j := Z.of_nat i mod k) in *.
  pose proof (frag_count_bounds max request headroom Hm Hh Hq) as [Hk _]. fold k in Hk.
  pose proof (Z.mod_pos_bound (Z.of_nat i) k ltac:(lia)) as Hj. fold j in Hj.
  pose proof (frag_size_pos max request headroom Hm Hh Hq j Hj) as Hsz.
  assert (Hroom : 0 <= frag_room headroom j <= headroom) by (unfold frag_room; case_match; lia).
  eexists. split; [exact Hb'|]. unfold fragment_of. fold j.
  cbn [first_fragment total_data_size headroom_size buf_data data_size mempool_id umqh set_next set_fragment].
  change (fr_headroom (frag_at _ _ _ j)) with (frag_room headroom j). rewrite (Hplace _ Hroom).
  split_and!; try done; try lia; [by apply u16_small; lia|].
  rewrite frag_size_at in * by lia. unfold frag_bytes. lia.
Qed.

(** What the application may rely on for the buffers it got: each header's
    headroom and data lie in a block of its own. *)
Definition own_area (h : heap) l : Prop :=
  forall x1 x2 b1 b2, x1 ∈ l -> x2 ∈ l -> x1 <> x2 -> h !! x1 = Some b1 -> h !! x2 = Some b2 ->
  let lo b := buf_data b - headroom_size b in
  let hi b := buf_data b + data_size b in
  hi b1 <= lo b2 \/ hi b2 <= lo b1.

Lemma laid_out_own_area base max k request headroom h l :
  0 <= headroom < max ->
  (forall x y, x ∈ l -> y ∈ l -> x <> y -> base x + max <= base y \/ base y + max <= base x) ->
  laid_out base max k request headroom h l -> own_area h l.
Proof.
  intros Hh Hap Hlay x y b1 b2 Hx Hy Hne Hb1 Hb2 lo hi.
  assert (Harea : forall z bz, z ∈ l -> h !! z = Some bz -> lo bz = base z /\ hi bz <= base z + max).
  { intros z bz [i Hi]%list_elem_of_lookup_1 Hz. destruct (Hlay i z Hi) as (b & Hb & _ & _ & E1 & E2 & E3).
    rewrite Hz in Hb. injection Hb as <-. unfold lo, hi. rewrite E1, E2, E3. unfold frag_bytes, frag_room.
    case_match; lia. }
  destruct (Harea x b1 Hx Hb1) as [L1 U1]. destruct (Harea y b2 Hy Hb2) as [L2 U2]. rewrite L1, L2.
  destruct (Hap x y Hx Hy Hne); [left|right]; lia.
Qed.
