(* ===== verification/QbufPool.v ===== *)
(** * The pool of message buffers (umq_qbuf_pool.c)

    One memory region is cut into blocks; their headers are kept in a global
    list under a mutex and in a cache per thread, and a thread only goes to
    the global list when its cache is short or overfull. The section
    [ownership] states who owns each block: the global list, the cache of one
    thread, or the application. *)

From S2P Require Import Prelude QbufList QbufFrag.

Implicit Types (h : gmap Z umq_buf) (l : list Z) (p q x : Z) (t : nat) (wd : bool).

Definition QBUF_POOL_TLS_MAX : Z := 2048.
Definition QBUF_POOL_BATCH_CNT : Z := 512.
Definition UMQ_EMPTY_HEADER_COEFFICIENT : Z := 16.
Definition UMQ_BUF_DEFAULT_TOTAL_SIZE : Z := 1073741824.
Definition UMQ_INVALID_HANDLE : Z := 0.
Definition UMQ_ERR_ENOMEM : Z := 12.
Definition UMQ_ERR_EEXIST : Z := 17.
Definition EINVAL : Z := 22.

(** thread local: struct local_qbuf_pool *)
Record local_qbuf_pool := { tls_inited : bool; tls_block_pool : block_pool }.

Record qbuf_pool := {
  pl_inited : bool;
  pl_data_buffer : Z;
  pl_header_buffer : Z;
  pl_ext_header_buffer : Z;
  pl_total_size : Z;
  pl_block_size : Z;
  pl_headroom_size : Z;
  pl_data_size : Z;
  pl_total_block_num : Z;
  pl_mode : umq_buf_mode;
  pl_block_pool : block_pool
}.

(** {0} *)
Definition zero_block_pool : block_pool := umq_qbuf_block_pool_init.
Definition zero_pool : qbuf_pool :=
  {| pl_inited := false; pl_data_buffer := 0; pl_header_buffer := 0; pl_ext_header_buffer := 0;
     pl_total_size := 0; pl_block_size := 0; pl_headroom_size := 0; pl_data_size := 0;
     pl_total_block_num := 0; pl_mode := UMQ_BUF_SPLIT; pl_block_pool := zero_block_pool |}.

(** the globals of umq_qbuf_pool.c: memory, g_qbuf_pool, the g_thread_cache
    of every thread, g_umq_qbuf_size_pow_samll *)
Record world := {
  mem : heap;
  g_qbuf_pool : qbuf_pool;
  g_thread_cache : gmap nat local_qbuf_pool;   (* zero for a thread not listed *)
  g_pow : Z
}.

Record qbuf_pool_cfg := {
  cfg_buf_addr : Z;
  cfg_total_size : Z;
  cfg_data_size : Z;
  cfg_headroom_size : Z;
  cfg_mode : umq_buf_mode
}.

Definition zero_cache : local_qbuf_pool := {| tls_inited := false; tls_block_pool := zero_block_pool |}.
Definition cache_of t (w : world) : local_qbuf_pool := default zero_cache (g_thread_cache w !! t).

Definition set_mem h (w : world) : world :=
  {| mem := h; g_qbuf_pool := g_qbuf_pool w; g_thread_cache := g_thread_cache w; g_pow := g_pow w |}.
Definition set_cache t (c : local_qbuf_pool) (w : world) : world :=
  {| mem := mem w; g_qbuf_pool := g_qbuf_pool w;
     g_thread_cache := <[t := c]> (g_thread_cache w); g_pow := g_pow w |}.
Definition set_qbuf_pool (g : qbuf_pool) (w : world) : world :=
  {| mem := mem w; g_qbuf_pool := g; g_thread_cache := g_thread_cache w; g_pow := g_pow w |}.
Definition set_block_pool (bp : block_pool) (g : qbuf_pool) : qbuf_pool :=
  {| pl_inited := pl_inited g; pl_data_buffer := pl_data_buffer g; pl_header_buffer := pl_header_buffer g;
     pl_ext_header_buffer := pl_ext_header_buffer g; pl_total_size := pl_total_size g;
     pl_block_size := pl_block_size g; pl_headroom_size := pl_headroom_size g; pl_data_size := pl_data_size g;
     pl_total_block_num := pl_total_block_num g; pl_mode := pl_mode g; pl_block_pool := bp |}.

Definition global_of (w : world) : block_pool := pl_block_pool (g_qbuf_pool w).
Definition set_global (bp : block_pool) (w : world) : world := set_qbuf_pool (set_block_pool bp (g_qbuf_pool w)) w.
Definition local_of t (w : world) : block_pool := tls_block_pool (cache_of t w).
Definition set_local t (bp : block_pool) (w : world) : world :=
  set_cache t {| tls_inited := tls_inited (cache_of t w); tls_block_pool := bp |} w.

(** ** Setup *)

(** the block sizes of the enum, BLOCK_SIZE_8K first *)
Definition umq_buf_size_pow_small_set (block_size : Z) (pow : Z) : Z * Z :=
  if (block_size <? 0) || (block_size >=? 4) then (pow, - UMQ_ERR_EINVAL)
  else if block_size =? 0 then (13, UMQ_SUCCESS)
  else if block_size =? 1 then (14, UMQ_SUCCESS)
  else if block_size =? 2 then (15, UMQ_SUCCESS)
  else (16, UMQ_SUCCESS).

(** g_buffer_addr and g_total_len; [answer] is what memalign returns *)
Definition umq_io_buf_malloc (pow : Z) (io : Z * Z) (mode : umq_buf_mode) (size answer : Z) : (Z * Z) * Z :=
  if negb (io.1 =? 0) then (io, io.1)
  else
    let min_size := if decide (mode = UMQ_BUF_SPLIT)
      then u32 (u32 (u32 (UMQ_EMPTY_HEADER_COEFFICIENT + 1) * SIZEOF_UMQ_BUF) + umq_buf_size_small pow)
      else umq_buf_size_small pow in
    if (0 <? size) && (size <? min_size) then (io, 0)
    else ((answer, if 0 <? size then size else UMQ_BUF_DEFAULT_TOTAL_SIZE), answer).

Definition umq_io_buf_free (io : Z * Z) : Z * Z := (0, 0).

Definition init_header (size data : Z) (addr : Z) (b : umq_buf) : umq_buf :=
  {| qbuf_next := qbuf_next b; umqh := UMQ_INVALID_HANDLE; total_data_size := data; buf_size := size;
     data_size := data; headroom_size := 0; first_fragment := first_fragment b;
     token_id := token_id b; mempool_id := 0; buf_data := addr; qbuf_ext := replicate 8 0 |}.

Definition id_to_buf_with_data_split (addr id : Z) : Z := u64 (addr + id * SIZEOF_UMQ_BUF).
Definition buf_to_id_with_data_split (addr buf : Z) : Z := u32 ((buf - addr) / SIZEOF_UMQ_BUF).
Definition id_to_buf_without_data_split (addr id : Z) : Z := u64 (addr + id * SIZEOF_UMQ_BUF).
(** both factors are 32 bits wide *)
Definition id_to_buf_combine (addr id block_size : Z) : Z := u64 (addr + u32 (id * block_size)).

(** [for (i = ...; i < n; i++)] of the initialisation: fill the header of
    block [i] and insert it at the head *)
Fixpoint init_blocks (n : nat) (i : Z) (addr : Z -> Z) (fill : Z -> umq_buf -> umq_buf) h (first : Z) :
    option (heap * Z) :=
  match n with
  | O => Some (h, first)
  | S n =>
    h ← write h (addr i) (fill i);
    '(h, first) ← QBUF_LIST_INSERT_HEAD h first (addr i);
    init_blocks n (i + 1) addr fill h first
  end.

Definition umq_qbuf_pool_init (cfg : qbuf_pool_cfg) (w : world) : option (world * Z) :=
  if pl_inited (g_qbuf_pool w) then Some (w, - UMQ_ERR_EEXIST)
  else
    let base (blk num hdr ext : Z) bp (inited : bool) :=
      {| pl_inited := inited; pl_data_buffer := cfg_buf_addr cfg; pl_header_buffer := hdr;
         pl_ext_header_buffer := ext; pl_total_size := cfg_total_size cfg; pl_block_size := blk;
         pl_headroom_size := cfg_headroom_size cfg; pl_data_size := cfg_data_size cfg;
         pl_total_block_num := num; pl_mode := cfg_mode cfg; pl_block_pool := bp |} in
    let blk := umq_buf_size_small (g_pow w) in
    match cfg_mode cfg with
    | UMQ_BUF_SPLIT =>
      let num := cfg_total_size cfg / u32 ((UMQ_EMPTY_HEADER_COEFFICIENT + 1) * SIZEOF_UMQ_BUF + blk) in
      let hdr := u64 (cfg_buf_addr cfg + num * blk) in
      let ext := u64 (hdr + num * SIZEOF_UMQ_BUF) in
      '(h, first) ← init_blocks (Z.to_nat num) 0 (fun i => id_to_buf_with_data_split hdr (u32 i))
         (fun i => init_header (u32 (blk + SIZEOF_UMQ_BUF)) blk (u64 (cfg_buf_addr cfg + i * blk))) (mem w) 0;
      let count := u64 (num * UMQ_EMPTY_HEADER_COEFFICIENT) in
      '(h, first') ← init_blocks (Z.to_nat count) 0 (fun i => id_to_buf_without_data_split ext (u32 i))
         (fun i => init_header SIZEOF_UMQ_BUF 0 0) h 0;
      Some (set_mem h (set_qbuf_pool (base blk num hdr ext
        {| head_with_data := first; buf_cnt_with_data := num;
           head_without_data := first'; buf_cnt_without_data := count |} true) w), UMQ_SUCCESS)
    | UMQ_BUF_COMBINE =>
      let num := cfg_total_size cfg / blk in
      '(h, first) ← init_blocks (Z.to_nat num) 0 (fun i => id_to_buf_combine (cfg_buf_addr cfg) (u32 i) blk)
         (fun i => init_header blk (u32 (blk - SIZEOF_UMQ_BUF))
            (u64 (id_to_buf_combine (cfg_buf_addr cfg) (u32 i) blk + SIZEOF_UMQ_BUF))) (mem w) 0;
      Some (set_mem h (set_qbuf_pool (base blk num 0 0
        {| head_with_data := first; buf_cnt_with_data := num;
           head_without_data := 0; buf_cnt_without_data := 0 |} true) w), UMQ_SUCCESS)
    | UMQ_BUF_OTHER =>
      (* the addresses and sizes of the pool are left as they were *)
      let g := g_qbuf_pool w in
      Some (set_qbuf_pool
        {| pl_inited := false; pl_data_buffer := pl_data_buffer g; pl_header_buffer := pl_header_buffer g;
           pl_ext_header_buffer := pl_ext_header_buffer g; pl_total_size := cfg_total_size cfg;
           pl_block_size := pl_block_size g; pl_headroom_size := cfg_headroom_size cfg;
           pl_data_size := cfg_data_size cfg; pl_total_block_num := pl_total_block_num g;
           pl_mode := cfg_mode cfg; pl_block_pool := umq_qbuf_block_pool_init |} w, - UMQ_ERR_EINVAL)
    end.

(** ** Thread caches *)

Definition get_thread_cache t (w : world) : world :=
  if tls_inited (cache_of t w) then w
  else set_cache t {| tls_inited := true; tls_block_pool := zero_block_pool |} w.

(** the batches of one list, when it is not empty: memory and global pool *)
Definition release_list wd h (local_pool global_pool : block_pool) : option (heap * block_pool) :=
  if pool_head wd local_pool =? 0 then Some (h, global_pool)
  else
    '(h, head, cnt) ← release_batch h (pool_head wd local_pool) (pool_head wd global_pool);
    Some (h, set_pool wd head (u64 (pool_cnt wd global_pool + cnt)) global_pool).

Definition release_thread_cache t (w : world) : option world :=
  if negb (tls_inited (cache_of t w)) || negb (pl_inited (g_qbuf_pool w)) then Some w
  else
    let w := get_thread_cache t w in
    '(h, bp) ← release_list true (mem w) (local_of t w) (global_of w);
    '(h, bp) ← release_list false h (local_of t w) bp;
    Some (set_cache t {| tls_inited := false; tls_block_pool := local_of t w |} (set_global bp (set_mem h w))).

Definition umq_qbuf_pool_uninit t (w : world) : option world :=
  if negb (pl_inited (g_qbuf_pool w)) then Some w
  else w ← release_thread_cache t w; Some (set_qbuf_pool zero_pool w).

(** ** Allocation *)

(** the critical section of fetch_from_global, on the globals *)
Definition fetch_step t wd (batch : Z) (w : world) : option (world * Z) :=
  '(h, gp, lp, r) ← fetch_from_global (mem w) (global_of w) (local_of t w) wd batch;
  Some (set_mem h (set_global gp (set_local t lp w)), r).

(** [while (local count < need) fetch]: false when a fetch failed. Every
    successful round takes [batch] > 0 blocks from the global list. *)
Fixpoint fetch_loop (fuel : nat) t wd (batch need : Z) (w : world) : option (world * bool) :=
  match fuel with
  | O => None
  | S fuel =>
    if pool_cnt wd (local_of t w) <? need then
      '(w, r) ← fetch_step t wd batch w;
      if r <=? 0 then Some (w, false) else fetch_loop fuel t wd batch need w
    else Some (w, true)
  end.

Definition fetch_fuel wd (w : world) : nat := S (S (Z.to_nat (pool_cnt wd (global_of w)))).

(** umq_alloc_option: the headroom, when its flag is set *)
Definition alloc_headroom (opt : option Z) (w : world) : Z :=
  default (pl_headroom_size (g_qbuf_pool w)) opt.

Definition actual_buf_count (request_size num headroom : Z) (w : world) : Z :=
  let small := umq_buf_size_small (g_pow w) in
  if decide (pl_mode (g_qbuf_pool w) = UMQ_BUF_SPLIT) then
    u32 (num * Z.shiftr (u32 (request_size + headroom + small - 1)) (g_pow w))
  else
    let align_size := u32 (small - SIZEOF_UMQ_BUF) in
    u32 (num * (u32 (request_size + headroom + align_size - 1) / align_size)).

(** the part of umq_qbuf_alloc after the fetch loops *)
Definition take_nodata t (num list : Z) (w : world) : option (world * Z) :=
  '(h, lp, first) ← umq_qbuf_alloc_nodata (mem w) (local_of t w) num list;
  Some (set_mem h (set_local t lp w), first).

Definition take_data t (request_size num list headroom : Z) (w : world) : option (world * Z) :=
  '(h, lp, first) ←
     (if decide (pl_mode (g_qbuf_pool w) = UMQ_BUF_SPLIT)
      then umq_qbuf_alloc_data_with_split (g_pow w) (mem w) (local_of t w) request_size num list headroom
      else umq_qbuf_alloc_data_with_combine (g_pow w) (mem w) (local_of t w) request_size num list headroom);
  Some (set_mem h (set_local t lp w), first).

(** The result is the state, the return value and the first element of [list]. *)
Definition umq_qbuf_alloc t (request_size num : Z) (opt : option Z) (list : Z) (w : world) :
    option (world * Z * Z) :=
  if negb (pl_inited (g_qbuf_pool w)) then Some (w, - UMQ_ERR_ENOMEM, list)
  else
    let w := get_thread_cache t w in
    let headroom := alloc_headroom opt w in
    let count := actual_buf_count request_size num headroom w in
    if request_size =? 0 then
      if bool_decide (is_Some opt) && (0 <? headroom) then Some (w, - EINVAL, list)
      else if bool_decide (pl_mode (g_qbuf_pool w) <> UMQ_BUF_SPLIT) then Some (w, - UMQ_ERR_ENOMEM, list)
      else
        '(w, ok) ← fetch_loop (fetch_fuel false w) t false QBUF_POOL_BATCH_CNT num w;
        if negb ok then Some (w, - UMQ_ERR_ENOMEM, list)
        else '(w, first) ← take_nodata t num list w; Some (w, UMQ_SUCCESS, first)
    else
      '(w, ok) ← fetch_loop (fetch_fuel true w) t true QBUF_POOL_BATCH_CNT count w;
      if negb ok then Some (w, - UMQ_ERR_ENOMEM, list)
      else '(w, first) ← take_data t request_size count list headroom w; Some (w, UMQ_SUCCESS, first).

(** ** Release *)

(** the part of umq_qbuf_free before the test of the threshold *)
Definition put_list t wd (list : Z) (w : world) : option world :=
  '(h, head, cnt) ← release_batch (mem w) list (pool_head wd (local_of t w));
  Some (set_mem h (set_local t (set_pool wd head (u64 (pool_cnt wd (local_of t w) + cnt)) (local_of t w)) w)).

Definition return_step t wd (threshold : Z) (w : world) : option world :=
  '(h, gp, lp) ← return_to_global (mem w) (global_of w) (local_of t w) wd threshold;
  Some (set_mem h (set_global gp (set_local t lp w))).

(** a buffer of the zone without data *)
Definition no_data_zone (buf : Z) (w : world) : bool :=
  bool_decide (pl_mode (g_qbuf_pool w) = UMQ_BUF_SPLIT) && (pl_ext_header_buffer (g_qbuf_pool w) <=? buf).

(** the two lists are flushed at different thresholds *)
Definition over_threshold wd (cnt : Z) : bool :=
  if wd then QBUF_POOL_TLS_MAX + QBUF_POOL_BATCH_CNT <? cnt
  else QBUF_POOL_TLS_MAX + QBUF_POOL_BATCH_CNT <=? cnt.

Definition umq_qbuf_free t (list : Z) (w : world) : option world :=
  if negb (pl_inited (g_qbuf_pool w)) then Some w
  else
    let w := get_thread_cache t w in
    let wd := negb (no_data_zone list w) in
    w ← put_list t wd list w;
    if over_threshold wd (pool_cnt wd (local_of t w)) then return_step t wd QBUF_POOL_TLS_MAX w
    else Some w.

(** ** Headroom and addresses *)

Definition umq_qbuf_headroom_reset (qbuf headroom : Z) (w : world) : option (world * Z) :=
  if negb (pl_inited (g_qbuf_pool w)) then Some (w, - UMQ_ERR_ENOMEM)
  else
    '(h, r) ← headroom_reset (mem w) qbuf headroom (pl_mode (g_qbuf_pool w)) (pl_block_size (g_qbuf_pool w));
    Some (set_mem h w, r).

(** NULL for an address outside the pool *)
Definition umq_qbuf_data_to_head (data : Z) (w : world) : Z :=
  let g := g_qbuf_pool w in
  if negb (pl_inited g) then 0
  else if decide (pl_mode g = UMQ_BUF_SPLIT) then
    if (pl_data_buffer g <=? data) && (data <? pl_header_buffer g) then
      u64 (pl_header_buffer g + (data - pl_data_buffer g) / pl_block_size g * SIZEOF_UMQ_BUF)
    else 0
  else if (pl_data_buffer g <=? data) && (data <? pl_data_buffer g + pl_total_size g) then
    u64 (pl_data_buffer g + (data - pl_data_buffer g) / pl_block_size g * pl_block_size g)
  else 0.

(** ** The blocks of a pool *)

(** the largest amount of data of a block *)
Definition max_data (g : qbuf_pool) : Z :=
  if decide (pl_mode g = UMQ_BUF_SPLIT) then pl_block_size g else pl_block_size g - SIZEOF_UMQ_BUF.

Definition data_header (g : qbuf_pool) (i : Z) : Z :=
  if decide (pl_mode g = UMQ_BUF_SPLIT) then pl_header_buffer g + i * SIZEOF_UMQ_BUF
  else pl_data_buffer g + i * pl_block_size g.
Definition nodata_header (g : qbuf_pool) (i : Z) : Z := pl_ext_header_buffer g + i * SIZEOF_UMQ_BUF.
Definition nodata_num (g : qbuf_pool) : Z :=
  if decide (pl_mode g = UMQ_BUF_SPLIT) then pl_total_block_num g * UMQ_EMPTY_HEADER_COEFFICIENT else 0.

(** where the data of block [i] starts, and of the block of a header *)
Definition block_data (g : qbuf_pool) (i : Z) : Z :=
  if decide (pl_mode g = UMQ_BUF_SPLIT) then pl_data_buffer g + i * pl_block_size g
  else pl_data_buffer g + i * pl_block_size g + SIZEOF_UMQ_BUF.
Definition header_id (g : qbuf_pool) (x : Z) : Z :=
  if decide (pl_mode g = UMQ_BUF_SPLIT) then (x - pl_header_buffer g) / SIZEOF_UMQ_BUF
  else (x - pl_data_buffer g) / pl_block_size g.
Definition data_base (g : qbuf_pool) (x : Z) : Z := block_data g (header_id g x).

Definition data_headers (g : qbuf_pool) : list Z := data_header g <$> seqZ 0 (pl_total_block_num g).
Definition nodata_headers (g : qbuf_pool) : list Z := nodata_header g <$> seqZ 0 (nodata_num g).

Definition is_data (g : qbuf_pool) (x : Z) : bool :=
  negb (bool_decide (pl_mode g = UMQ_BUF_SPLIT) && (pl_ext_header_buffer g <=? x)).

(** What initialisation establishes and nothing changes: the zones follow
    each other, the region is aligned to the block size, and, with combined
    headers, the offsets fit in 32 bits. *)
Record pool_geometry (pow : Z) (g : qbuf_pool) : Prop := {
  geo_inited : pl_inited g = true;
  geo_pow : 13 <= pow <= 16;
  geo_block : pl_block_size g = 2 ^ pow;
  geo_num : 0 <= pl_total_block_num g /\ pl_total_block_num g * 17 < 2 ^ 31;
  geo_addr : 0 < pl_data_buffer g /\ pl_data_buffer g mod 2 ^ pow = 0;
  geo_end : pl_data_buffer g + pl_total_block_num g * (2 ^ pow + 17 * SIZEOF_UMQ_BUF) < 2 ^ 64;
  geo_total : pl_total_block_num g * 2 ^ pow <= pl_total_size g;
  geo_headroom : 0 <= pl_headroom_size g <= UMQ_HEADROOM_SIZE_LIMIT;
  geo_mode : match pl_mode g with
    | UMQ_BUF_SPLIT => pl_header_buffer g = pl_data_buffer g + pl_total_block_num g * 2 ^ pow /\
        pl_ext_header_buffer g = pl_header_buffer g + pl_total_block_num g * SIZEOF_UMQ_BUF
    | UMQ_BUF_COMBINE => pl_total_block_num g * 2 ^ pow <= 2 ^ 32
    | UMQ_BUF_OTHER => False
    end
}.

Lemma pow_range pow : 13 <= pow <= 16 -> 2 ^ 13 <= 2 ^ pow <= 2 ^ 16.
Proof. intros. split; apply Z.pow_le_mono_r; lia. Qed.

Lemma small_pow pow : 13 <= pow <= 16 -> umq_buf_size_small pow = 2 ^ pow.
Proof.
  intros H. unfold umq_buf_size_small. pose proof (pow_range pow H).
  rewrite Z.shiftl_mul_pow2, Z.mul_1_l by lia. apply u32_small. lia.
Qed.

(** Rounding an address of a block down gives the start of the block. *)
Lemma floor_block pow base y :
  13 <= pow <= 16 -> 0 <= base -> base mod 2 ^ pow = 0 -> base <= y < base + 2 ^ pow -> base + 2 ^ pow <= 2 ^ 64 ->
  floor_to_align y (2 ^ pow) = base.
Proof.
  intros Hp Hb Hm Hy He. pose proof (pow_range pow Hp). unfold floor_to_align.
  rewrite u64_small by lia. replace (Z.lnot (2 ^ pow - 1)) with (- 2 ^ pow) by (rewrite <- Z.opp_lnot; unfold Z.lnot; lia).
  replace (u64 (- 2 ^ pow)) with (Z.shiftl (Z.ones (64 - pow)) pow); cycle 1.
  { unfold u64. rewrite Z.shiftl_mul_pow2, Z.ones_equiv by lia.
    replace (- 2 ^ pow) with (2 ^ 64 - 2 ^ pow + (-1) * 2 ^ 64) by lia. rewrite Z_mod_plus_full.
    rewrite Z.mod_small by lia. rewrite Z.mul_pred_l, <- Z.pow_add_r by lia. by replace (64 - pow + pow) with 64 by lia. }
  apply Z.bits_inj'. intros i Hi. rewrite Z.land_spec, Z.shiftl_spec by lia.
  assert (Hd : y / 2 ^ pow = base / 2 ^ pow).
  { apply Z.div_exact in Hm; [|lia]. symmetry. apply (Z.div_unique _ _ _ (y - base)); lia. }
  destruct (Z.lt_ge_cases i pow) as [Hlt|Hge].
  - rewrite (Z.testbit_neg_r (Z.ones _)) by lia. rewrite andb_false_r. symmetry.
    rewrite <- (Z.mod_pow2_bits_low base pow i) by lia. rewrite Hm. apply Z.bits_0.
  - replace i with (i - pow + pow) by lia. rewrite <- !Z.div_pow2_bits by lia. rewrite Hd.
    replace (i - pow + pow - pow) with (i - pow) by lia.
    destruct (Z.lt_ge_cases i 64) as [H64|H64].
    + rewrite Z.ones_spec_low by lia. apply andb_true_r.
    + rewrite Z.ones_spec_high by lia. rewrite andb_false_r. symmetry. rewrite Z.div_pow2_bits by lia.
      replace (i - pow + pow) with i by lia. apply testbit_in_u64_high; lia.
Qed.

Section geometry.
Context (pow : Z) (g : qbuf_pool).
Hypothesis Hg : pool_geometry pow g.

Lemma geo_pow_range : 2 ^ 13 <= 2 ^ pow <= 2 ^ 16.
Proof using Type*. apply pow_range, Hg. Qed.

Lemma geo_not_other : pl_mode g = UMQ_BUF_SPLIT \/ pl_mode g = UMQ_BUF_COMBINE.
Proof using Type*. destruct Hg as [? ? ? ? ? ? ? ? Hm]. destruct (pl_mode g); auto. done. Qed.

Lemma max_data_range : 2 ^ 13 - 128 <= max_data g <= 2 ^ 16.
Proof using Type*.
  pose proof geo_pow_range. destruct Hg. unfold max_data, SIZEOF_UMQ_BUF. case_decide; lia.
Qed.

Lemma header_id_header i : 0 <= i -> header_id g (data_header g i) = i.
Proof using Type*.
  pose proof geo_pow_range. destruct Hg. intros Hi. unfold header_id, data_header, SIZEOF_UMQ_BUF.
  case_decide; rewrite Z.add_simpl_l; apply Z.div_mul; lia.
Qed.

Lemma data_base_header i : 0 <= i -> data_base g (data_header g i) = block_data g i.
Proof using Type*. intros Hi. unfold data_base. by rewrite header_id_header. Qed.

Lemma elem_of_data_headers x : x ∈ data_headers g <-> exists i, 0 <= i < pl_total_block_num g /\ x = data_header g i.
Proof using Type*.
  unfold data_headers. rewrite list_elem_of_fmap. split.
  - intros (i & -> & Hi%elem_of_seqZ). exists i. split; [lia|done].
  - intros (i & Hi & ->). exists i. split; [done|]. apply elem_of_seqZ. lia.
Qed.

Lemma elem_of_nodata_headers x : x ∈ nodata_headers g <-> exists i, 0 <= i < nodata_num g /\ x = nodata_header g i.
Proof using Type*.
  unfold nodata_headers. rewrite list_elem_of_fmap. split.
  - intros (i & -> & Hi%elem_of_seqZ). exists i. split; [lia|done].
  - intros (i & Hi & ->). exists i. split; [done|]. apply elem_of_seqZ. lia.
Qed.

Lemma is_data_header i : 0 <= i < pl_total_block_num g -> is_data g (data_header g i) = true.
Proof using Type*.
  destruct Hg as [? ? ? ? ? ? ? ? Hm]. intros Hi. unfold is_data, data_header, SIZEOF_UMQ_BUF in *. case_decide as E.
  - rewrite E in Hm. rewrite bool_decide_eq_true_2 by done. simpl. apply negb_true_iff, Z.leb_gt. lia.
  - by rewrite bool_decide_eq_false_2.
Qed.

Lemma is_data_nodata i : 0 <= i < nodata_num g -> is_data g (nodata_header g i) = false.
Proof using Type*.
  intros Hi. unfold is_data, nodata_num, nodata_header, SIZEOF_UMQ_BUF in *. case_decide as E; [|lia].
  rewrite bool_decide_eq_true_2 by done. simpl. apply negb_false_iff, Z.leb_le. lia.
Qed.

Lemma data_header_inj i j : data_header g i = data_header g j -> i = j.
Proof using Type*.
  pose proof geo_pow_range. destruct Hg as [? ? Hb ? ? ? ? ? Hm]. unfold data_header, SIZEOF_UMQ_BUF.
  case_decide; [lia|]. rewrite Hb. intros E. nia.
Qed.

Lemma data_headers_NoDup : NoDup (data_headers g).
Proof using Type*.
  apply NoDup_fmap_2_strong; [|apply NoDup_seqZ]. intros i j _ _. apply data_header_inj.
Qed.

Lemma nodata_headers_NoDup : NoDup (nodata_headers g).
Proof using Type*.
  apply NoDup_fmap_2_strong; [|apply NoDup_seqZ]. intros i j _ _. unfold nodata_header, SIZEOF_UMQ_BUF. lia.
Qed.

(** the addresses of headers, as the 64-bit pointers the code computes *)
Lemma data_header_range i : 0 <= i < pl_total_block_num g -> 0 < data_header g i /\ data_header g i + 128 < 2 ^ 64.
Proof using Type*.
  pose proof geo_pow_range. destruct Hg as [? ? Hb Hn ? He ? ? Hm]. intros Hi.
  unfold data_header, SIZEOF_UMQ_BUF in *. case_decide as E; [rewrite E in Hm|rewrite Hb]; nia.
Qed.

Lemma nodata_header_range i : 0 <= i < nodata_num g -> 0 < nodata_header g i < 2 ^ 64.
Proof using Type*.
  pose proof geo_pow_range. destruct Hg as [? ? Hb Hn ? He ? ? Hm]. unfold nodata_num, nodata_header, SIZEOF_UMQ_BUF, UMQ_EMPTY_HEADER_COEFFICIENT in *.
  case_decide as E; [|lia]. rewrite E in Hm. nia.
Qed.

Lemma block_data_range i :
  0 <= i < pl_total_block_num g -> 0 <= block_data g i /\ block_data g i + max_data g < 2 ^ 64.
Proof using Type*.
  pose proof geo_pow_range. destruct Hg as [? ? Hb Hn ? He ? ? Hm]. intros Hi.
  unfold block_data, max_data, SIZEOF_UMQ_BUF in *. case_decide as E; rewrite Hb; nia.
Qed.

(** Blocks do not overlap. *)
Lemma pool_blocks_disjoint i j : i <> j -> block_data g i + max_data g <= block_data g j \/ block_data g j + max_data g <= block_data g i.
Proof using Type*.
  pose proof geo_pow_range. destruct Hg as [? ? Hb Hn ? He ? ? Hm]. intros Hij.
  unfold block_data, max_data, SIZEOF_UMQ_BUF in *. case_decide as E; rewrite Hb; nia.
Qed.

(** Where the allocation loops place the data: at the start of the block,
    behind the headroom. *)
Lemma place_in_block i b headroom :
  0 <= i < pl_total_block_num g -> 0 <= headroom < max_data g ->
  block_data g i <= buf_data b < block_data g i + max_data g ->
  (if decide (pl_mode g = UMQ_BUF_SPLIT) then place_split pow (data_header g i) b headroom
   else place_combine (data_header g i) b headroom) = block_data g i + headroom.
Proof using Type*.
  intros Hi Hh Hd. pose proof (block_data_range i Hi) as Hr. pose proof geo_pow_range.
  destruct Hg as [? Hp Hb Hn [Ha1 Ha2] He ? ? Hm].
  unfold block_data, max_data, data_header, SIZEOF_UMQ_BUF in *. case_decide as E.
  - unfold place_split. rewrite small_pow by done. rewrite Hb in *.
    rewrite (floor_block pow (pl_data_buffer g + i * 2 ^ pow)); [|done|nia| |done|lia].
    + apply u64_small. lia.
    + rewrite Z_mod_plus_full. done.
  - unfold place_combine, SIZEOF_UMQ_BUF. apply u64_small. lia.
Qed.
End geometry.
