(* ===== verification/QbufOwn.v ===== *)
(** * Who owns the blocks of the pool

    Every block is owned by the global list, by the cache of one thread, or by
    the application. [Inv] relates the linked lists and counters to an
    ownership map; each operation of umq_qbuf_pool.c is proved to move blocks
    from one owner to another and to touch nothing else. *)

From S2P Require Import Prelude QbufList QbufFrag QbufPool.

Implicit Types (h : gmap Z umq_buf) (l m : list Z) (p q x : Z) (t : nat) (wd : bool) (w : world).

Inductive place := PGlobal | PLocal (t : nat) | PHeld.
#[export] Instance place_eq_dec : EqDecision place.
Proof. solve_decision. Defined.

Abbreviation ownership := (Z -> option place).
Implicit Types (own : ownership) (pl : place).

Definition move own m pl : ownership := fun x => if decide (x ∈ m) then Some pl else own x.

(** [l] lists the blocks of one kind that [pl] owns. *)
Definition holds g own wd pl l : Prop :=
  NoDup l /\ forall x, x ∈ l <-> own x = Some pl /\ is_data g x = wd.

(** the list of one kind that a place keeps: its first element and its count *)
Definition slot w pl wd : option (Z * Z) :=
  match pl with
  | PGlobal => Some (pool_head wd (global_of w), pool_cnt wd (global_of w))
  | PLocal t => if tls_inited (cache_of t w)
                then Some (pool_head wd (local_of t w), pool_cnt wd (local_of t w)) else None
  | PHeld => None
  end.

(** the blocks of one kind of a place, in the order of its list *)
Definition place_rep w pl wd l : Prop :=
  match slot w pl wd with
  | Some (first, cnt) => chain (mem w) first l /\ cnt = zlen l
  | None => pl <> PHeld -> l = []
  end.

Definition headers (g : qbuf_pool) : list Z := data_headers g ++ nodata_headers g.

(** The header of a block with data points into its block; a header keeps its identity. *)
Definition block_ok (g : qbuf_pool) h x : Prop :=
  exists b, h !! x = Some b /\ umqh b = UMQ_INVALID_HANDLE /\ mempool_id b = 0 /\
    (is_data g x = true -> data_base g x <= buf_data b < data_base g x + max_data g).

Record Inv w own : Prop := {
  inv_geo : pool_geometry (g_pow w) (g_qbuf_pool w);
  inv_dom : forall x, is_Some (own x) <-> x ∈ headers (g_qbuf_pool w);
  inv_lists : forall pl wd, exists l, holds (g_qbuf_pool w) own wd pl l /\ place_rep w pl wd l;
  inv_blocks : forall x, x ∈ headers (g_qbuf_pool w) -> block_ok (g_qbuf_pool w) (mem w) x
}.

(** What no operation after the initialisation changes. *)
Definition same_pool w w' : Prop :=
  g_pow w' = g_pow w /\ set_block_pool zero_block_pool (g_qbuf_pool w') = set_block_pool zero_block_pool (g_qbuf_pool w).

Ltac pools_agree g g' H :=
  destruct g, g'; unfold set_block_pool in H; simpl in H; injection H as -> -> -> -> -> -> -> -> -> ->.

Section same_pool.
Context (g g' : qbuf_pool).
Hypothesis Hs : set_block_pool zero_block_pool g' = set_block_pool zero_block_pool g.

Lemma same_geometry pow : pool_geometry pow g -> pool_geometry pow g'.
Proof using Type*.
  pools_agree g g' Hs.
  intros []. by constructor.
Qed.

Lemma same_is_data x : is_data g' x = is_data g x.
Proof using Type*. pools_agree g g' Hs. done. Qed.

Lemma same_headers : headers g' = headers g.
Proof using Type*. pools_agree g g' Hs. done. Qed.

Lemma same_block_ok h x : block_ok g' h x <-> block_ok g h x.
Proof using Type*. pools_agree g g' Hs. done. Qed.

Lemma same_data_base : data_base g' = data_base g.
Proof using Type*. pools_agree g g' Hs. done. Qed.

Lemma same_max_data : max_data g' = max_data g.
Proof using Type*. pools_agree g g' Hs. done. Qed.

Lemma same_holds own wd pl l : holds g' own wd pl l <-> holds g own wd pl l.
Proof using Type*. unfold holds. by setoid_rewrite same_is_data. Qed.
End same_pool.

Lemma same_pool_refl w : same_pool w w.
Proof. done. Qed.

(** ** Moving blocks *)

Lemma holds_source g own wd pl1 pl2 m l1 :
  holds g own wd pl1 (m ++ l1) -> pl1 <> pl2 -> holds g (move own m pl2) wd pl1 l1.
Proof.
  intros [Hnd Hm] Hne. apply NoDup_app in Hnd as (_ & Hd & Hl). split; [done|]. intros x. unfold move.
  case_decide as Hx; [|rewrite <- Hm; set_solver]. split; [by intros ?%(Hd x Hx)|]. intros [[= ->] _]. done.
Qed.

Lemma holds_dest g own wd pl1 pl2 m l1 l2 :
  holds g own wd pl1 (m ++ l1) -> holds g own wd pl2 l2 -> pl1 <> pl2 -> holds g (move own m pl2) wd pl2 (m ++ l2).
Proof.
  intros [Hnd1 Hm1] [Hnd2 Hm2] Hne. split.
  - apply NoDup_app in Hnd1 as (Hm & _ & _). apply NoDup_app. split; [done|]. split; [|done].
    intros x Hx [E _]%Hm2. destruct (Hm1 x) as [[E' _] _]; [set_solver|]. congruence.
  - intros x. unfold move. case_decide as Hx.
    + split; [|set_solver]. intros _. split; [done|]. apply Hm1. set_solver.
    + rewrite <- Hm2. set_solver.
Qed.

Lemma holds_other g own wd wd' pl1 pl2 pl m l1 l :
  holds g own wd pl1 (m ++ l1) -> holds g own wd' pl l -> (pl, wd') <> (pl1, wd) -> (pl, wd') <> (pl2, wd) ->
  holds g (move own m pl2) wd' pl l.
Proof.
  intros [_ Hm] [Hnd Hl] H1 H2. split; [done|]. intros x. rewrite Hl. unfold move. case_decide as Hx; [|done].
  destruct (Hm x) as [[E1 E2] _]; [set_solver|]. rewrite E1, E2. split.
  - intros [[= ->] ->]. done.
  - intros [[= ->] ->]. done.
Qed.

(** The order of the moved blocks does not matter for the map. *)
Lemma holds_perm g own wd pl l l' : l ≡ₚ l' -> holds g own wd pl l -> holds g own wd pl l'.
Proof. intros E [Hnd Hm]. split; [by rewrite <- E|]. intros x. rewrite <- Hm. by rewrite E. Qed.

Lemma holds_disjoint g own wd pl pl' l l' : holds g own wd pl l -> holds g own wd pl' l' -> pl <> pl' -> NoDup (l ++ l').
Proof.
  intros [Hnd Hm] [Hnd' Hm'] Hne. apply NoDup_app. split; [done|]. split; [|done].
  intros x [E _]%Hm [E' _]%Hm'. congruence.
Qed.

(** A move of [m] between two lists, seen from the invariant: the links that
    change are those of the source list. *)
Lemma inv_move w w' own wd pl1 pl2 l0 m l1 l2 :
  Inv w own -> same_pool w w' -> pl1 <> pl2 ->
  holds (g_qbuf_pool w) own wd pl1 l0 -> l0 ≡ₚ m ++ l1 -> holds (g_qbuf_pool w) own wd pl2 l2 ->
  place_rep w' pl1 wd l1 -> (exists l, l ≡ₚ m ++ l2 /\ place_rep w' pl2 wd l) ->
  (forall pl wd', (pl, wd') <> (pl1, wd) -> (pl, wd') <> (pl2, wd) -> slot w' pl wd' = slot w pl wd') ->
  (forall x, x ∉ l0 -> mem w' !! x = mem w !! x) ->
  (forall x, x ∈ headers (g_qbuf_pool w) -> block_ok (g_qbuf_pool w) (mem w') x) ->
  Inv w' (move own m pl2).
Proof.
  intros HI [Hp Hs] Hne H0 Hperm H2 R1 (l2' & Hperm2 & R2) Hslot Hmem Hblk.
  pose proof (holds_perm _ _ _ _ _ _ Hperm H0) as H0'. constructor.
  - rewrite Hp. apply (same_geometry _ _ Hs), HI.
  - intros x. rewrite (same_headers _ _ Hs). rewrite <- (inv_dom w own HI). unfold move. case_decide as Hx; [|done].
    destruct H0' as [_ Hm]. destruct (Hm x) as [[E _] _]; [set_solver|]. rewrite E. by split; intros _; eexists.
  - intros pl wd'. setoid_rewrite (same_holds _ _ Hs).
    destruct (decide ((pl, wd') = (pl1, wd))) as [[= -> ->]|N1].
    { exists l1. split; [|done]. by eapply holds_source. }
    destruct (decide ((pl, wd') = (pl2, wd))) as [[= -> ->]|N2].
    { exists l2'. split; [|done]. eapply holds_perm; [symmetry; exact Hperm2|]. by eapply holds_dest. }
    destruct (inv_lists w own HI pl wd') as (l & Hl & Hr). exists l. split; [by eapply holds_other|].
    unfold place_rep in *. rewrite (Hslot pl wd' N1 N2). destruct (slot w pl wd') as [[first cnt]|]; [|done].
    destruct Hr as [Hc ->]. split; [|done]. eapply lseg_frame; [exact Hc|]. intros x Hx. unfold QBUF_LIST_NEXT.
    rewrite Hmem; [done|]. intros Hx0. destruct H0 as [_ Hm0]. apply Hm0 in Hx0 as [E1 E2].
    apply Hl in Hx as [E3 E4]. apply N1. congruence.
  - intros x. rewrite (same_headers _ _ Hs), (same_block_ok _ _ Hs). apply Hblk.
Qed.

(** ** Sizes *)

Lemma zlen_seqZ {A} (f : Z -> A) n : 0 <= n -> zlen (f <$> seqZ 0 n) = n.
Proof. intros Hn. unfold zlen. rewrite length_fmap, length_seqZ. lia. Qed.

Lemma holds_headers w own wd pl l : Inv w own -> holds (g_qbuf_pool w) own wd pl l -> l ⊆ headers (g_qbuf_pool w).
Proof. intros HI [_ Hm] x [E _]%Hm. apply (inv_dom w own HI). by rewrite E. Qed.

Lemma inv_len w own wd pl l : Inv w own -> holds (g_qbuf_pool w) own wd pl l -> zlen l < 2 ^ 31.
Proof.
  intros HI Hl. pose proof (holds_headers _ _ _ _ _ HI Hl) as Hs. destruct Hl as [Hnd _].
  destruct (inv_geo w own HI) as [_ _ _ [Hn1 Hn2] _ _ _ _ _].
  assert (zlen l <= zlen (headers (g_qbuf_pool w))).
  { unfold zlen. apply inj_le. apply submseteq_length, NoDup_submseteq; [done|]. apply Hs. }
  unfold headers in *. rewrite zlen_app in *. unfold data_headers, nodata_headers in *.
  rewrite !zlen_seqZ in *; [|unfold nodata_num, UMQ_EMPTY_HEADER_COEFFICIENT; case_decide; lia|done].
  unfold nodata_num, UMQ_EMPTY_HEADER_COEFFICIENT in *. case_decide; lia.
Qed.

Lemma relinked_block_ok g D h h' x : relinked D h h' -> block_ok g h x -> block_ok g h' x.
Proof.
  intros [R _] (b & Hb & Hu & Hm & Hd). apply (f_equal (fun f : heap => f !! x)) in R. rewrite !lookup_fmap, Hb in R.
  destruct (h' !! x) as [b'|] eqn:E; [|done]. simpl in R. injection R as R1 R2 R3 R4 R5 R6 R7 R8 R9 R10.
  exists b'. split; [done|]. by rewrite R1, R8, R9.
Qed.

Lemma place_rep_global w wd l : place_rep w PGlobal wd l <-> pool_rep wd (mem w) (global_of w) l.
Proof. done. Qed.

Lemma place_rep_held w wd l : place_rep w PHeld wd l.
Proof. by intros N. Qed.

Lemma place_rep_local w t wd l :
  tls_inited (cache_of t w) = true -> place_rep w (PLocal t) wd l <-> pool_rep wd (mem w) (local_of t w) l.
Proof. intros E. unfold place_rep, slot. by rewrite E. Qed.

(** the state after an operation of thread [t] on the lists of kind [wd] *)
Definition store t wd h (gfirst gcnt lfirst lcnt : Z) w : world :=
  set_mem h (set_global (set_pool wd gfirst gcnt (global_of w))
    (set_local t (set_pool wd lfirst lcnt (local_of t w)) w)).

Section store.
Context (t : nat) (wd : bool) (h : heap) (gf gc lf lc : Z) (w : world).
Let w' := store t wd h gf gc lf lc w.
Hypothesis Ht : tls_inited (cache_of t w) = true.

Lemma store_same_pool : same_pool w w'.
Proof using Type*. done. Qed.

Lemma store_inited t' : tls_inited (cache_of t' w') = tls_inited (cache_of t' w).
Proof using Type*.
  unfold w', store, cache_of. simpl. destruct (decide (t' = t)) as [->|]; [by rewrite lookup_insert_eq|].
  by rewrite lookup_insert_ne.
Qed.

Lemma store_global : slot w' PGlobal wd = Some (gf, gc).
Proof using Type*. unfold w', store, slot, global_of. simpl. by destruct wd. Qed.

Lemma store_local : slot w' (PLocal t) wd = Some (lf, lc).
Proof using Type*.
  unfold slot. rewrite store_inited, Ht. unfold w', store, local_of, cache_of. simpl. rewrite lookup_insert_eq. by destruct wd.
Qed.

Lemma store_other pl wd' : (pl, wd') <> (PGlobal, wd) -> (pl, wd') <> (PLocal t, wd) -> slot w' pl wd' = slot w pl wd'.
Proof using Type*.
  intros N1 N2. unfold slot. destruct pl as [|t'|]; [| |done].
  - unfold w', store, global_of. simpl. by destruct wd, wd'.
  - rewrite store_inited. case_match; [|done]. unfold w', store, local_of, cache_of. simpl.
    destruct (decide (t' = t)) as [->|]; [rewrite lookup_insert_eq|by rewrite lookup_insert_ne]. by destruct wd, wd'.
Qed.
End store.

(** ** The operations *)

Definition cnt_of wd pl w : Z := default 0 (snd <$> slot w pl wd).

Lemma get_thread_cache_inv t w own :
  Inv w own -> Inv (get_thread_cache t w) own /\ tls_inited (cache_of t (get_thread_cache t w)) = true.
Proof.
  intros HI. unfold get_thread_cache. destruct (tls_inited _) eqn:E; [done|]. split.
  - destruct HI as [Hg Hd Hl Hb]. constructor; [done|done| |done].
    intros pl wd. destruct (Hl pl wd) as (l & H1 & H2). exists l. split; [done|].
    unfold place_rep, slot in *. destruct pl as [|t'|]; [done| |done]. unfold local_of, cache_of in *. simpl in *.
    destruct (decide (t' = t)) as [->|]; [rewrite lookup_insert_eq|by rewrite lookup_insert_ne].
    simpl. rewrite E in H2. rewrite H2 by done. by destruct wd.
  - unfold cache_of. simpl. by rewrite lookup_insert_eq.
Qed.

Lemma store_back t wd w :
  tls_inited (cache_of t w) = true -> set_mem (mem w) (set_global (global_of w) (set_local t (local_of t w) w)) = w.
Proof.
  unfold set_mem, set_global, set_local, set_cache, local_of, cache_of. intros Ht.
  destruct (g_thread_cache w !! t) as [c|] eqn:E; [|done]. simpl in *.
  rewrite insert_id by (by destruct c). destruct w as [? [] ? ?]. done.
Qed.

Lemma inv_ext w own own' : Inv w own -> (forall x, own' x = own x) -> Inv w own'.
Proof.
  intros [H1 H2 H3 H4] E. constructor; [done| | |done].
  - intros x. by rewrite E.
  - intros pl wd. destruct (H3 pl wd) as (l & [? Hm] & ?). exists l. split; [|done]. split; [done|].
    intros x. by rewrite E.
Qed.

Lemma zlen_split l n : 0 <= n <= zlen l -> exists l1 l2, l = l1 ++ l2 /\ n = zlen l1.
Proof.
  unfold zlen. intros Hn. exists (take (Z.to_nat n) l), (drop (Z.to_nat n) l). split; [by rewrite take_drop|].
  rewrite length_take. lia.
Qed.

Lemma slot_rep w pl wd l : place_rep w pl wd l -> pl <> PHeld -> cnt_of wd pl w = zlen l.
Proof.
  unfold place_rep, cnt_of. intros Hr Hne. destruct (slot w pl wd) as [[f c]|]; [by destruct Hr|].
  by rewrite Hr.
Qed.

(** what a step of thread [t] leaves: the configuration, and that [t] has a cache *)
Definition steady t w w' : Prop := same_pool w w' /\ tls_inited (cache_of t w') = true.

Lemma fetch_step_inv t wd w own :
  Inv w own -> tls_inited (cache_of t w) = true ->
  exists w' r m, fetch_step t wd QBUF_POOL_BATCH_CNT w = Some (w', r) /\ Inv w' (move own m (PLocal t)) /\
    steady t w w' /\ (forall x, x ∈ m -> own x = Some PGlobal) /\
    (r = UMQ_FAIL /\ w' = w /\ cnt_of wd PGlobal w < QBUF_POOL_BATCH_CNT \/
     r = QBUF_POOL_BATCH_CNT /\ cnt_of wd PGlobal w' = cnt_of wd PGlobal w - QBUF_POOL_BATCH_CNT /\
     cnt_of wd (PLocal t) w' = cnt_of wd (PLocal t) w + QBUF_POOL_BATCH_CNT /\
     QBUF_POOL_BATCH_CNT <= cnt_of wd PGlobal w).
Proof.
  intros HI Ht. destruct (inv_lists w own HI PGlobal wd) as (g & Hg & Rg).
  destruct (inv_lists w own HI (PLocal t) wd) as (l & Hl & Rl).
  pose proof (inv_len _ _ _ _ _ HI Hg). pose proof (inv_len _ _ _ _ _ HI Hl).
  rewrite (slot_rep w PGlobal wd g), (slot_rep w (PLocal t) wd l) by done.
  rewrite place_rep_local in Rl by done. rewrite place_rep_global in Rg. unfold fetch_step.
  destruct (decide (zlen g < QBUF_POOL_BATCH_CNT)) as [Hlt|Hge].
  - rewrite (fetch_from_global_refused _ _ _ _ _ g) by done. cbn [mbind option_bind].
    rewrite (store_back t wd) by done. exists w, UMQ_FAIL, []. split; [done|]. split; [|split; [done|split; [set_solver|by left]]].
    eapply inv_ext; [exact HI|]. intros x. unfold move. by rewrite decide_False by set_solver.
  - destruct (zlen_split g QBUF_POOL_BATCH_CNT) as (g1 & g2 & -> & Hn); [unfold QBUF_POOL_BATCH_CNT in *; lia|].
    assert (Hnd : NoDup (g1 ++ g2 ++ l)) by (rewrite (assoc (++)); by eapply holds_disjoint).
    destruct (fetch_from_global_spec (mem w) (global_of w) (local_of t w) wd QBUF_POOL_BATCH_CNT g1 g2 l)
      as (h' & gh & lh & E & C1 & C2 & R); [done..|unfold QBUF_POOL_BATCH_CNT; lia|lia|].
    rewrite E. cbn [mbind option_bind].
    exists (store t wd h' gh (zlen g2) lh (zlen (g1 ++ l)) w), QBUF_POOL_BATCH_CNT, g1. split; [done|]. split; [|split; [split|split]].
    + eapply (inv_move w _ own wd PGlobal (PLocal t) (g1 ++ g2) g1 g2 l); try done.
      * exists (g1 ++ l). split; [done|]. unfold place_rep. rewrite store_local by done.
        destruct C2 as [C2 _]. by rewrite pool_head_set in C2.
      * by apply store_other.
      * intros x Hx. apply R. set_solver.
      * intros x Hx. eapply relinked_block_ok; [exact R|]. by apply HI.
    + done.
    + by rewrite store_inited.
    + intros x Hx. apply Hg. set_solver.
    + right. unfold cnt_of. rewrite store_global, store_local by done. simpl. rewrite !zlen_app in *. lia.
Qed.

Lemma move_move own m1 m2 pl x : move (move own m1 pl) m2 pl x = move own (m1 ++ m2) pl x.
Proof. unfold move. repeat case_decide; set_solver. Qed.

(** The loop that fills the cache of a thread ends, and takes no more
    batches than it needs. *)
Lemma fetch_loop_inv fuel t wd need w own :
  Inv w own -> tls_inited (cache_of t w) = true -> cnt_of wd PGlobal w + 1 < Z.of_nat fuel ->
  exists w' ok m (r : Z), fetch_loop fuel t wd QBUF_POOL_BATCH_CNT need w = Some (w', ok) /\
    Inv w' (move own m (PLocal t)) /\ steady t w w' /\ (forall x, x ∈ m -> own x = Some PGlobal) /\
    0 <= r /\ cnt_of wd (PLocal t) w' = cnt_of wd (PLocal t) w + QBUF_POOL_BATCH_CNT * r /\
    cnt_of wd PGlobal w' = cnt_of wd PGlobal w - QBUF_POOL_BATCH_CNT * r /\
    (if ok then need <= cnt_of wd (PLocal t) w' /\ (r = 0 \/ cnt_of wd (PLocal t) w' - QBUF_POOL_BATCH_CNT < need)
     else cnt_of wd (PLocal t) w' < need /\ cnt_of wd PGlobal w' < QBUF_POOL_BATCH_CNT).
Proof.
  revert w own. induction fuel as [|fuel IH]; intros w own HI Ht Hf.
  { pose proof (slot_rep w PGlobal wd) as Hs. destruct (inv_lists w own HI PGlobal wd) as (g & _ & Rg).
    rewrite (Hs g) in Hf by done. pose proof (zlen_nonneg g). lia. }
  cbn [fetch_loop]. assert (Hc : pool_cnt wd (local_of t w) = cnt_of wd (PLocal t) w).
  { unfold cnt_of, slot. by rewrite Ht. }
  rewrite Hc. destruct (cnt_of wd (PLocal t) w <? need) eqn:En; breflect.
  - destruct (fetch_step_inv t wd w own HI Ht) as (w1 & r1 & m1 & E & HI1 & [Hs1 Ht1] & Hm1 & Hcase).
    rewrite E. cbn [mbind option_bind]. destruct Hcase as [(-> & -> & Hg)|(-> & Hg & Hl & Hge)].
    + exists w, false, m1, 0. simpl. split_and!; try done; lia.
    + cbn [Z.leb]. replace (QBUF_POOL_BATCH_CNT <=? 0) with false by done.
      destruct (IH w1 _ HI1 Ht1) as (w2 & ok & m2 & r & E2 & HI2 & [Hs2 Ht2] & Hm2 & Hr & Hl2 & Hg2 & Hend).
      { rewrite Hg. unfold QBUF_POOL_BATCH_CNT in *. lia. }
      exists w2, ok, (m1 ++ m2), (r + 1). split; [done|].
      split; [eapply inv_ext; [exact HI2|]; intros x; by rewrite move_move|].
      split; [split; [destruct Hs1, Hs2; split; congruence|done]|].
      split; [|split; [lia|]].
      * intros x [Hx|Hx]%elem_of_app; [by apply Hm1|]. apply Hm2 in Hx. unfold move in Hx. by case_decide.
      * split; [lia|]. split; [lia|]. destruct ok; [|done]. destruct Hend as [? [->|]]; split; try lia; right; lia.
  - exists w, true, [], 0. split; [done|].
    split; [eapply inv_ext; [exact HI|]; intros x; unfold move; by rewrite decide_False by set_solver|].
    split; [done|]. split; [set_solver|]. split_and!; try lia; by left.
Qed.

Lemma store_local_only t wd h lf lc w :
  set_mem h (set_local t (set_pool wd lf lc (local_of t w)) w) =
    store t wd h (pool_head wd (global_of w)) (pool_cnt wd (global_of w)) lf lc w.
Proof.
  unfold store. replace (set_pool wd (pool_head wd (global_of w)) (pool_cnt wd (global_of w)) (global_of w)) with (global_of w).
  - unfold set_global, set_local, global_of. simpl. destruct w as [? [] ? ?]. done.
  - destruct (global_of w). by destruct wd.
Qed.

Lemma store_local_slots t wd h lf lc w pl wd' :
  tls_inited (cache_of t w) = true -> (pl, wd') <> (PLocal t, wd) ->
  slot (store t wd h (pool_head wd (global_of w)) (pool_cnt wd (global_of w)) lf lc w) pl wd' = slot w pl wd'.
Proof.
  intros Ht N. destruct (decide ((pl, wd') = (PGlobal, wd))) as [[= -> ->]|]; [by rewrite store_global|by apply store_other].
Qed.

(** [count] blocks leave the cache of [t] for the application *)
Definition handed_out t wd w w' own first l (count : Z) : Prop :=
  chain (mem w') first l /\ zlen l = count /\ NoDup l /\
  (forall x, x ∈ l -> own x = Some (PLocal t) /\ is_data (g_qbuf_pool w) x = wd) /\
  Inv w' (move own l PHeld) /\ steady t w w'.

Lemma take_nodata_inv t w own num :
  Inv w own -> tls_inited (cache_of t w) = true -> 0 < num <= cnt_of false (PLocal t) w ->
  exists w' first l, take_nodata t num 0 w = Some (w', first) /\ handed_out t false w w' own first l num.
Proof.
  intros HI Ht Hn. destruct (inv_lists w own HI (PLocal t) false) as (l & Hl & Rl).
  pose proof (inv_len _ _ _ _ _ HI Hl). rewrite (slot_rep w (PLocal t) false l) in Hn by done.
  rewrite place_rep_local in Rl by done.
  destruct (zlen_split l num) as (l1 & l2 & -> & Hl1); [lia|].
  assert (Hnd : NoDup (l1 ++ l2 ++ [])) by (rewrite app_nil_r; apply Hl).
  destruct (umq_qbuf_alloc_nodata_spec (mem w) (local_of t w) num l1 l2 0 [])
    as (h' & lh & E & C1 & C2 & R); [done|done|done|intros ->; change (zlen (@nil Z)) with 0 in *; lia|done|lia|lia|].
  unfold take_nodata. rewrite E. cbn [mbind option_bind]. rewrite store_local_only. rewrite app_nil_r in C2.
  eexists _, _, l1. split; [done|]. split; [done|]. split; [done|].
  destruct Hl as [Hnd1 Hm]. split; [by apply NoDup_app in Hnd1 as [? _]|]. split; [intros x Hx; apply Hm; set_solver|].
  split; [|split; [done|by rewrite store_inited]].
  destruct (inv_lists w own HI PHeld false) as (lh' & Hlh & _).
  eapply (inv_move w _ own false (PLocal t) PHeld (l1 ++ l2) l1 l2 lh'); try done.
  - unfold place_rep. rewrite store_local by done. destruct C1 as [C1 _]. by rewrite pool_head_set in C1.
  - exists (l1 ++ lh'). split; [done|apply place_rep_held].
  - intros pl wd' N _. by apply store_local_slots.
  - intros x Hx. apply R. set_solver.
  - intros x Hx. eapply relinked_block_ok; [exact R|]. by apply HI.
Qed.

(** ** Allocations with data *)

Definition data_place (pow : Z) (g : qbuf_pool) : Z -> umq_buf -> Z -> Z :=
  if decide (pl_mode g = UMQ_BUF_SPLIT) then place_split pow else place_combine.
Definition data_buf_size (g : qbuf_pool) : Z :=
  if decide (pl_mode g = UMQ_BUF_SPLIT) then pl_block_size g + SIZEOF_UMQ_BUF else pl_block_size g.

(** Both modes run the same loop. *)
Lemma take_data_eq t request num list headroom w own :
  Inv w own ->
  take_data t request num list headroom w =
    '(h, rest) ← alloc_data (data_place (g_pow w) (g_qbuf_pool w)) (data_buf_size (g_qbuf_pool w))
       (max_data (g_qbuf_pool w)) (mem w) (head_with_data (local_of t w)) request num list headroom;
    Some (set_mem h (set_local t (set_pool true rest (u64 (buf_cnt_with_data (local_of t w) - num)) (local_of t w)) w),
          head_with_data (local_of t w)).
Proof.
  intros HI. destruct (inv_geo w own HI) as [_ Hp Hb _ _ _ _ _ _]. pose proof (pow_range _ Hp).
  unfold take_data, umq_qbuf_alloc_data_with_split, umq_qbuf_alloc_data_with_combine, data_place, data_buf_size, max_data.
  rewrite small_pow by done. rewrite Hb. unfold SIZEOF_UMQ_BUF.
  case_decide; rewrite u32_small by lia; by destruct (alloc_data _ _ _ _ _ _ _ _ _) as [[??]|].
Qed.

Lemma data_block w own x :
  let g := g_qbuf_pool w in Inv w own -> x ∈ headers g -> is_data g x = true ->
  exists i, 0 <= i < pl_total_block_num g /\ x = data_header g i /\ data_base g x = block_data g i.
Proof.
  intros g HI. pose proof (inv_geo w own HI) as Hg. fold g in Hg. intros [Hx|Hx]%elem_of_app Hd.
  - apply (elem_of_data_headers _ _ Hg) in Hx as (i & Hi & ->). exists i. split; [done|]. split; [done|].
    eapply data_base_header; [exact Hg|lia].
  - apply (elem_of_nodata_headers _ _ Hg) in Hx as (i & Hi & ->).
    rewrite (is_data_nodata _ _ Hg) in Hd by done. done.
Qed.

(** A filled header is the fragment its position asks for, in its own block. *)
Lemma filled_fragment w own request headroom i x h' :
  let g := g_qbuf_pool w in
  Inv w own -> 0 < request < 2 ^ 31 -> 0 <= headroom <= UMQ_HEADROOM_SIZE_LIMIT ->
  x ∈ headers g -> is_data g x = true ->
  filled (data_place (g_pow w) g) (data_buf_size g) (nth_frag (max_data g) request headroom i) (mem w) h' x ->
  exists b, h' !! x = Some b /\
    fragment_of (data_base g) (max_data g) (frag_count (max_data g) request headroom) request headroom i x b /\
    data_base g x <= buf_data b < data_base g x + max_data g /\ umqh b = UMQ_INVALID_HANDLE /\ mempool_id b = 0.
Proof.
  intros g HI Hq Hh Hx Hd Hf. pose proof (inv_geo w own HI) as Hg. fold g in Hg.
  pose proof (max_data_range _ _ Hg) as Hmax. unfold UMQ_HEADROOM_SIZE_LIMIT in *.
  destruct (inv_blocks w own HI x Hx) as (b0 & Hb0 & Hu & Hm & Hdata). specialize (Hdata Hd). fold g in Hdata.
  destruct (data_block w own x HI Hx Hd) as (id & Hid & Hxid & Hbase). fold g in Hid, Hxid, Hbase.
  edestruct (filled_fragment_of (data_base g)) as (b & Hb & Hfr & Hr & Hid1 & Hid2); [..|exact Hf|]; [lia|lia|lia|lia|exact Hb0| |].
  - intros hr Hhr. rewrite Hbase in *. rewrite <- (place_in_block _ _ Hg id b0) by lia. rewrite Hxid.
    unfold data_place. by case_decide.
  - exists b. split_and!; try done; lia || congruence.
Qed.

(** Each handed-out block with data is a fragment of a message, placed in its
    own block. *)
Lemma take_data_inv t w own request headroom num :
  Inv w own -> tls_inited (cache_of t w) = true -> 0 < num <= cnt_of true (PLocal t) w ->
  0 < request < 2 ^ 31 -> 0 <= headroom <= UMQ_HEADROOM_SIZE_LIMIT ->
  let g := g_qbuf_pool w in
  exists w' first l, take_data t request num 0 headroom w = Some (w', first) /\
    handed_out t true w w' own first l num /\
    laid_out (data_base g) (max_data g) (frag_count (max_data g) request headroom) request headroom (mem w') l.
Proof.
  intros HI Ht Hn Hq Hh g. destruct (inv_lists w own HI (PLocal t) true) as (l & Hl & Rl).
  pose proof (inv_len _ _ _ _ _ HI Hl). rewrite (slot_rep w (PLocal t) true l) in Hn by done.
  rewrite place_rep_local in Rl by done. destruct Rl as [Rl Rn]. simpl in Rl, Rn.
  destruct (zlen_split l num) as (l1 & l2 & -> & Hl1); [lia|].
  pose proof (max_data_range _ _ (inv_geo w own HI)) as Hmax. fold g in Hmax.
  pose proof (holds_headers _ _ _ _ _ HI Hl) as Hsub. fold g in Hsub. destruct Hl as [Hnd Hm].
  destruct (alloc_data_spec (data_place (g_pow w) g) (data_buf_size g) (max_data g) (mem w)
      (head_with_data (local_of t w)) request headroom 0 l1 l2 [] num)
    as (h' & rest & E & C1 & C2 & Hout & Hfill);
    [unfold UMQ_HEADROOM_SIZE_LIMIT in *; lia..|done|done|by rewrite app_nil_r|
     intros ->; change (zlen (@nil Z)) with 0 in *; lia|done|lia|].
  rewrite (take_data_eq t request num 0 headroom w own HI). fold g. rewrite E. cbn [mbind option_bind].
  rewrite Rn. rewrite zlen_app in *. pose proof (zlen_nonneg l2). rewrite u64_small by lia.
  rewrite store_local_only. rewrite app_nil_r in C2.
  assert (Hx : forall i x, l1 !! i = Some x -> x ∈ headers g /\ is_data g x = true).
  { intros i x Hi. apply list_elem_of_lookup_2 in Hi. split; [apply Hsub; set_solver|apply Hm; set_solver]. }
  assert (Hfrag : forall i x, l1 !! i = Some x -> exists b, h' !! x = Some b /\
     fragment_of (data_base g) (max_data g) (frag_count (max_data g) request headroom) request headroom i x b /\
     data_base g x <= buf_data b < data_base g x + max_data g /\ umqh b = UMQ_INVALID_HANDLE /\ mempool_id b = 0).
  { intros i x Hi. destruct (Hx i x Hi). apply (filled_fragment w own request headroom); try done. by apply Hfill. }
  eexists _, _, l1. split; [done|]. split; cycle 1.
  { intros i x Hi. destruct (Hfrag i x Hi) as (b & ? & ? & _). by exists b. }
  split; [done|]. split; [done|]. split; [by apply NoDup_app in Hnd as [? _]|].
  split; [intros x Hxl; apply Hm; set_solver|]. split; [|split; [done|by rewrite store_inited]].
  destruct (inv_lists w own HI PHeld true) as (lh & Hlh & _).
  eapply (inv_move w _ own true (PLocal t) PHeld (l1 ++ l2) l1 l2 lh); try done.
  - unfold place_rep. rewrite store_local by done. split; [exact C1|lia].
  - exists (l1 ++ lh). split; [done|apply place_rep_held].
  - intros pl wd' N _. by apply store_local_slots.
  - intros x Hxl. apply Hout. set_solver.
  - intros x Hxh. destruct (decide (x ∈ l1)) as [Hxl|Hxl].
    + apply list_elem_of_lookup_1 in Hxl as [i Hi]. destruct (Hfrag i x Hi) as (b & ? & _ & ? & ? & ?). by exists b.
    + destruct (inv_blocks w own HI x Hxh) as (b & Hb & ?). exists b. split; [|done]. simpl. by rewrite Hout.
Qed.

(** ** Releases *)

Lemma put_list_inv t wd w own list l :
  Inv w own -> tls_inited (cache_of t w) = true -> chain (mem w) list l -> NoDup l -> l <> [] ->
  (forall x, x ∈ l -> own x = Some PHeld /\ is_data (g_qbuf_pool w) x = wd) ->
  exists w', put_list t wd list w = Some w' /\ Inv w' (move own l (PLocal t)) /\ steady t w w' /\
    cnt_of wd (PLocal t) w' = cnt_of wd (PLocal t) w + zlen l /\ (forall x, x ∉ l -> mem w' !! x = mem w !! x).
Proof.
  intros HI Ht Hc Hnd Hne Hown. destruct (inv_lists w own HI (PLocal t) wd) as (l2 & Hl & Rl).
  destruct (inv_lists w own HI PHeld wd) as (lh & Hlh & _).
  pose proof (inv_len _ _ _ _ _ HI Hl). pose proof (inv_len _ _ _ _ _ HI Hlh).
  rewrite (slot_rep w (PLocal t) wd l2) by done. rewrite place_rep_local in Rl by done. destruct Rl as [Rl Rn].
  assert (Hsub : l ⊆ lh) by (intros x Hx; apply Hlh; by apply Hown).
  destruct (submseteq_Permutation l lh) as [rest Hperm]; [by apply NoDup_submseteq|].
  assert (zlen l <= zlen lh) by (unfold zlen; rewrite Hperm, length_app; lia).
  assert (Hnd2 : NoDup (l ++ l2)).
  { apply NoDup_app. split; [done|]. split; [|apply Hl]. intros x [E _]%Hown [E' _]%Hl. congruence. }
  destruct (release_batch_spec (mem w) list (pool_head wd (local_of t w)) l l2) as (h' & E & C & R); [done..|lia|].
  unfold put_list. rewrite E. cbn [mbind option_bind]. rewrite Rn. pose proof (zlen_nonneg l). pose proof (zlen_nonneg l2).
  rewrite u64_small by lia. rewrite store_local_only. eexists. split; [done|]. split; [|split; [split; [done|by rewrite store_inited]|split; [|apply R]]].
  - eapply (inv_move w _ own wd PHeld (PLocal t) lh l rest l2); try done.
    + apply place_rep_held.
    + exists (l ++ l2). split; [done|]. unfold place_rep. rewrite store_local by done. rewrite zlen_app. split; [done|lia].
    + intros pl wd' _ N. by apply store_local_slots.
    + intros x Hx. apply R. set_solver.
    + intros x Hx. eapply relinked_block_ok; [exact R|]. by apply HI.
  - unfold cnt_of at 1. by rewrite store_local.
Qed.

Lemma return_step_inv t wd w own :
  Inv w own -> tls_inited (cache_of t w) = true -> QBUF_POOL_TLS_MAX < cnt_of wd (PLocal t) w ->
  exists w' m, return_step t wd QBUF_POOL_TLS_MAX w = Some w' /\ Inv w' (move own m PGlobal) /\ steady t w w' /\
    (forall x, x ∈ m -> own x = Some (PLocal t)) /\ cnt_of wd (PLocal t) w' = QBUF_POOL_TLS_MAX /\
    cnt_of wd PGlobal w' = cnt_of wd PGlobal w + (cnt_of wd (PLocal t) w - QBUF_POOL_TLS_MAX) /\
    (forall x, own x = Some PHeld -> mem w' !! x = mem w !! x).
Proof.
  intros HI Ht Hth. destruct (inv_lists w own HI PGlobal wd) as (g & Hg & Rg).
  destruct (inv_lists w own HI (PLocal t) wd) as (l & Hl & Rl).
  pose proof (inv_len _ _ _ _ _ HI Hg). pose proof (inv_len _ _ _ _ _ HI Hl).
  rewrite (slot_rep w PGlobal wd g), (slot_rep w (PLocal t) wd l) in * by done.
  rewrite place_rep_local in Rl by done. rewrite place_rep_global in Rg. unfold QBUF_POOL_TLS_MAX in *.
  destruct (zlen_split l 2048) as (keep & rem & -> & Hk); [lia|].
  rewrite zlen_app in *. pose proof (zlen_nonneg g).
  destruct (return_to_global_spec (mem w) (global_of w) (local_of t w) wd 2048 keep rem g)
    as (h' & gh & E & C1 & C2 & R); [done|done| |done|..|lia|].
  { rewrite (assoc (++)). by eapply holds_disjoint. }
  1-2: intros ->; change (zlen (@nil Z)) with 0 in *; lia.
  { rewrite zlen_app. lia. }
  unfold return_step. rewrite E. cbn [mbind option_bind].
  exists (store t wd h' gh (zlen (rem ++ g)) (pool_head wd (local_of t w)) (zlen keep) w), rem. split; [done|].
  split; [|split; [split; [done|by rewrite store_inited]|split]].
  - eapply (inv_move w _ own wd (PLocal t) PGlobal (keep ++ rem) rem keep g); try done.
    + apply Permutation_app_comm.
    + unfold place_rep. rewrite store_local by done. destruct C2 as [C2 _]. by rewrite pool_head_set in C2.
    + exists (rem ++ g). split; [done|]. done.
    + intros pl wd' N1 N2. by apply store_other.
    + intros x Hx. by apply R.
    + intros x Hx. eapply relinked_block_ok; [exact R|]. by apply HI.
  - intros x Hx. apply Hl. set_solver.
  - unfold cnt_of. rewrite store_global, store_local by done. simpl. rewrite zlen_app. split_and!; [lia..|].
    intros x Hx. apply R. intros [Hx' _]%Hl. congruence.
Qed.

Lemma release_list_spec wd h lp gp l g :
  pool_rep wd h lp l -> pool_rep wd h gp g -> NoDup (l ++ g) -> zlen l < 2 ^ 31 -> zlen g < 2 ^ 31 ->
  exists h' gh, release_list wd h lp gp = Some (h', set_pool wd gh (zlen (l ++ g)) gp) /\
    chain h' gh (l ++ g) /\ relinked l h h'.
Proof.
  intros [Hl Hln] [Hg Hgn] Hnd Hs1 Hs2. unfold release_list.
  destruct (pool_head wd lp =? 0) eqn:E; breflect.
  - rewrite (chain_null _ _ _ Hl E). exists h, (pool_head wd gp). simpl. split; [|done].
    rewrite <- Hgn. do 2 f_equal. destruct gp. by destruct wd.
  - destruct (release_batch_spec h (pool_head wd lp) (pool_head wd gp) l g) as (h' & E' & C & R); [done..| |lia|].
    { intros ->. by simpl in Hl. }
    rewrite E'. cbn [mbind option_bind]. exists h', (pool_head wd lp). split; [|done].
    rewrite Hgn, zlen_app. pose proof (zlen_nonneg l). pose proof (zlen_nonneg g).
    rewrite (Z.add_comm (zlen g)), u64_small by lia. done.
Qed.

(** emptying one list of a cache *)
Lemma release_one t wd w own :
  Inv w own -> tls_inited (cache_of t w) = true ->
  exists h' gh gc m, release_list wd (mem w) (local_of t w) (global_of w) = Some (h', set_pool wd gh gc (global_of w)) /\
    Inv (store t wd h' gh gc 0 0 w) (move own m PGlobal) /\ (forall x, x ∈ m -> own x = Some (PLocal t)).
Proof.
  intros HI Ht. destruct (inv_lists w own HI PGlobal wd) as (g & Hg & Rg).
  destruct (inv_lists w own HI (PLocal t) wd) as (l & Hl & Rl).
  pose proof (inv_len _ _ _ _ _ HI Hg). pose proof (inv_len _ _ _ _ _ HI Hl).
  rewrite place_rep_local in Rl by done. rewrite place_rep_global in Rg.
  destruct (release_list_spec wd (mem w) (local_of t w) (global_of w) l g) as (h' & gh & E & C & R);
    [done|done|by eapply holds_disjoint|done|done|].
  exists h', gh, (zlen (l ++ g)), l. split; [done|]. split; [|intros x Hx; by apply Hl].
  eapply (inv_move w _ own wd (PLocal t) PGlobal l l [] g); try done.
  - by rewrite app_nil_r.
  - unfold place_rep. by rewrite store_local.
  - exists (l ++ g). split; [done|]. unfold place_rep. by rewrite store_global.
  - intros pl wd' N1 N2. by apply store_other.
  - intros x Hx. by apply R.
  - intros x Hx. eapply relinked_block_ok; [exact R|]. by apply HI.
Qed.

Lemma release_list_heads wd h lp lp' gp :
  pool_head wd lp' = pool_head wd lp -> release_list wd h lp' gp = release_list wd h lp gp.
Proof. intros E. unfold release_list. by rewrite E. Qed.

(** A cache without blocks can be dropped. *)
Lemma drop_cache_inv t w w' own :
  Inv w own -> same_pool w w' -> mem w' = mem w -> global_of w' = global_of w ->
  (forall wd, cnt_of wd (PLocal t) w = 0) -> tls_inited (cache_of t w') = false ->
  (forall t', t' <> t -> cache_of t' w' = cache_of t' w) -> Inv w' own.
Proof.
  intros HI [Hp Hs] Hm Hg Hc Ht Hother. constructor.
  - rewrite Hp. apply (same_geometry _ _ Hs), HI.
  - intros x. rewrite (same_headers _ _ Hs). apply HI.
  - intros pl wd. destruct (inv_lists w own HI pl wd) as (l & Hl & Rl). exists l.
    rewrite (same_holds _ _ Hs). split; [done|]. unfold place_rep, slot in *. rewrite Hm. destruct pl as [|t'|].
    + by rewrite Hg.
    + destruct (decide (t' = t)) as [->|Hne].
      * rewrite Ht. intros _. pose proof (slot_rep w (PLocal t) wd l Rl ltac:(done)) as E. rewrite Hc in E.
        unfold zlen in E. destruct l; [done|simpl in E; lia].
      * unfold local_of. by rewrite Hother.
    + done.
  - intros x. rewrite (same_headers _ _ Hs), (same_block_ok _ _ Hs), Hm. apply HI.
Qed.

Lemma release_thread_cache_inv t w own :
  Inv w own ->
  exists w' m, release_thread_cache t w = Some w' /\ Inv w' (move own m PGlobal) /\ same_pool w w' /\
    (forall x, x ∈ m -> own x = Some (PLocal t)).
Proof.
  intros HI. unfold release_thread_cache. rewrite (geo_inited _ _ (inv_geo w own HI)).
  destruct (tls_inited (cache_of t w)) eqn:Ht; simpl.
  - unfold get_thread_cache. rewrite Ht.
    destruct (release_one t true w own HI Ht) as (h1 & gh1 & gc1 & m1 & E1 & HI1 & Hm1).
    set (w1 := store t true h1 gh1 gc1 0 0 w) in *.
    assert (Ht1 : tls_inited (cache_of t w1) = true) by (unfold w1; by rewrite store_inited).
    destruct (release_one t false w1 _ HI1 Ht1) as (h2 & gh2 & gc2 & m2 & E2 & HI2 & Hm2).
    rewrite E1. cbn [mbind option_bind]. rewrite (release_list_heads false _ (local_of t w1)).
    + change h1 with (mem w1). change (set_pool true gh1 gc1 (global_of w)) with (global_of w1).
      rewrite E2. cbn [mbind option_bind]. eexists _, (m1 ++ m2). split; [done|].
      split; [|split; [done|]].
      * eapply (drop_cache_inv t (store t false h2 gh2 gc2 0 0 w1)); [eapply inv_ext; [exact HI2|]|..].
        -- intros x. by rewrite move_move.
        -- done.
        -- done.
        -- done.
        -- intros wd. unfold cnt_of. destruct wd; [|by rewrite store_local].
           rewrite store_other by done. unfold w1. by rewrite store_local.
        -- unfold cache_of. simpl. by rewrite lookup_insert_eq.
        -- intros t' Hne. unfold cache_of, w1, store. simpl. by rewrite !lookup_insert_ne.
      * intros x [Hx|Hx]%elem_of_app; [by apply Hm1|]. apply Hm2 in Hx. unfold move in Hx. by case_decide.
    + unfold w1, store, local_of, cache_of. simpl. by rewrite lookup_insert_eq.
  - exists w, []. split; [done|]. split; [|split; [done|set_solver]].
    eapply inv_ext; [exact HI|]. intros x. unfold move. by rewrite decide_False by set_solver.
Qed.

(** The application writes its own headers, and keeps each data pointer in its block. *)
Lemma write_inv w own h' :
  Inv w own -> (forall x, own x <> Some PHeld -> h' !! x = mem w !! x) ->
  (forall x, own x = Some PHeld -> block_ok (g_qbuf_pool w) h' x) -> Inv (set_mem h' w) own.
Proof.
  intros HI Hframe Hblk. constructor; [apply HI|apply HI| |].
  - intros pl wd. destruct (inv_lists w own HI pl wd) as (l & Hl & Rl). exists l. split; [done|].
    unfold place_rep in *. change (slot (set_mem h' w) pl wd) with (slot w pl wd).
    destruct (slot w pl wd) as [[f c]|] eqn:E; [|done]. destruct Rl as [Rl ->]. split; [|done].
    eapply lseg_frame; [exact Rl|]. intros x [Hx _]%Hl. unfold QBUF_LIST_NEXT. simpl. rewrite Hframe; [done|].
    rewrite Hx. by intros [= ->].
  - intros x Hx. simpl. destruct (decide (own x = Some PHeld)) as [E|E]; [by apply Hblk|].
    destruct (inv_blocks w own HI x Hx) as (b & Hb & ?). exists b. by rewrite Hframe.
Qed.
