(* ===== verification/QbufSystem.v ===== *)
(** * The buffer pool under several threads

    The pool is set up once; then threads allocate, release and exit in any
    interleaving of the critical sections of umq_qbuf_pool.c, and the
    application writes the headers it owns. The theorems show that
    initialisation establishes the ownership invariant, that no interleaving
    faults or breaks it, what a whole allocation returns, and that addresses
    of data and headers translate into each other. *)

From S2P Require Import Prelude QbufList QbufFrag QbufPool QbufOwn.

Implicit Types (h : gmap Z umq_buf) (l m : list Z) (p q x : Z) (t : nat) (wd : bool) (w : world).
Implicit Types (own : Z -> option place) (pl : place).

(** ** Initialisation *)

Lemma seqZ_S_r (i : Z) (n : nat) : seqZ i (Z.of_nat (S n)) = i :: seqZ (i + 1) (Z.of_nat n).
Proof. rewrite seqZ_cons by lia. f_equal. f_equal; lia. Qed.

Lemma init_blocks_spec n i addr fill h first l :
  chain h first l -> NoDup (addr <$> seqZ i (Z.of_nat n)) ->
  (forall j, i <= j < i + Z.of_nat n -> addr j <> 0 /\ is_Some (h !! addr j) /\ addr j ∉ l) ->
  exists h' first', init_blocks n i addr fill h first = Some (h', first') /\
    chain h' first' (reverse (addr <$> seqZ i (Z.of_nat n)) ++ l) /\
    (forall x, x ∉ addr <$> seqZ i (Z.of_nat n) -> h' !! x = h !! x) /\
    (forall j, i <= j < i + Z.of_nat n -> exists b c, h !! addr j = Some b /\ h' !! addr j = Some (set_next c (fill j b))).
Proof.
  revert i h first l. induction n as [|n IH]; intros i h first l Hc Hnd Ha.
  { exists h, first. simpl. split_and!; [done..|]. intros j Hj. lia. }
  rewrite seqZ_S_r in *. rewrite fmap_cons in *. apply NoDup_cons in Hnd as [Hi Hnd].
  destruct (Ha i ltac:(lia)) as (Hne & [b Hb] & Hl). cbn [init_blocks].
  unfold write. rewrite Hb. cbn [mbind option_bind]. unfold QBUF_LIST_INSERT_HEAD, set_list_next, write.
  rewrite lookup_insert_eq. cbn [mbind option_bind]. rewrite insert_insert_eq.
  set (b1 := set_next first (fill i b)). set (h1 := <[addr i := b1]> h).
  destruct (IH (i + 1) h1 (addr i) (addr i :: l)) as (h' & first' & E & C & F & D).
  - split; [done|]. split; [done|]. exists b1. unfold h1. rewrite lookup_insert_eq. split; [done|].
    eapply lseg_frame; [exact Hc|]. intros x Hx. unfold QBUF_LIST_NEXT. rewrite lookup_insert_ne; [done|].
    intros E. by rewrite E in Hl.
  - done.
  - intros j Hj. destruct (Ha j ltac:(lia)) as (? & ? & ?).
    assert (addr j <> addr i).
    { intros E. apply Hi. rewrite <- E. apply list_elem_of_fmap. exists j. split; [done|]. apply elem_of_seqZ. lia. }
    unfold h1. rewrite lookup_insert_ne by done. split_and!; [done|done|]. set_solver.
  - exists h', first'. split; [done|]. split; [by rewrite reverse_cons, <- (assoc (++))|]. split.
    + intros x [Hx1 Hx2]%not_elem_of_cons. rewrite F by done. unfold h1. by rewrite lookup_insert_ne.
    + intros j Hj. destruct (decide (j = i)) as [->|Hji].
      * exists b, first. split; [done|]. rewrite F by done. unfold h1. by rewrite lookup_insert_eq.
      * destruct (D j ltac:(lia)) as (b' & c & Hb' & Hb''). exists b', c. split; [|done].
        rewrite <- Hb'. unfold h1. rewrite lookup_insert_ne; [done|].
        intros E2. apply Hi. rewrite E2. apply list_elem_of_fmap. exists j. split; [done|]. apply elem_of_seqZ. lia.
Qed.

(** The pool a configuration asks for. *)
Definition cfg_blocks (pow : Z) (cfg : qbuf_pool_cfg) : Z :=
  if decide (cfg_mode cfg = UMQ_BUF_SPLIT) then cfg_total_size cfg / (17 * SIZEOF_UMQ_BUF + 2 ^ pow)
  else cfg_total_size cfg / 2 ^ pow.

Definition cfg_pool (pow : Z) (cfg : qbuf_pool_cfg) (bp : block_pool) : qbuf_pool :=
  let num := cfg_blocks pow cfg in
  let split := bool_decide (cfg_mode cfg = UMQ_BUF_SPLIT) in
  let hdr := cfg_buf_addr cfg + num * 2 ^ pow in
  {| pl_inited := true; pl_data_buffer := cfg_buf_addr cfg;
     pl_header_buffer := if split then hdr else 0;
     pl_ext_header_buffer := if split then hdr + num * SIZEOF_UMQ_BUF else 0;
     pl_total_size := cfg_total_size cfg; pl_block_size := 2 ^ pow; pl_headroom_size := cfg_headroom_size cfg;
     pl_data_size := cfg_data_size cfg; pl_total_block_num := num; pl_mode := cfg_mode cfg; pl_block_pool := bp |}.

(** What the caller of umq_qbuf_pool_init provides: an aligned region that
    lies below 2^64, of at most 4 GiB with combined headers. *)
Record cfg_ok (pow : Z) (cfg : qbuf_pool_cfg) : Prop := {
  ok_pow : 13 <= pow <= 16;
  ok_mode : cfg_mode cfg <> UMQ_BUF_OTHER;
  ok_addr : 0 < cfg_buf_addr cfg /\ cfg_buf_addr cfg mod 2 ^ pow = 0;
  ok_end : cfg_buf_addr cfg + 2 * cfg_total_size cfg < 2 ^ 64;
  ok_size : 0 <= cfg_total_size cfg < 2 ^ 38;
  ok_combine : cfg_mode cfg = UMQ_BUF_COMBINE -> cfg_total_size cfg <= 2 ^ 32;
  ok_headroom : 0 <= cfg_headroom_size cfg <= UMQ_HEADROOM_SIZE_LIMIT
}.

Lemma cfg_geometry pow cfg bp : cfg_ok pow cfg -> pool_geometry pow (cfg_pool pow cfg bp).
Proof.
  intros [Hp Hm Ha He Hs Hc Hh]. pose proof (pow_range pow Hp).
  assert (Hn : 0 <= cfg_blocks pow cfg /\ cfg_blocks pow cfg * 2 ^ pow <= cfg_total_size cfg).
  { unfold cfg_blocks, SIZEOF_UMQ_BUF. case_decide; split; try (apply Z.div_pos; lia).
    - pose proof (Z.mul_div_le (cfg_total_size cfg) (17 * 128 + 2 ^ pow) ltac:(lia)).
      pose proof (Z.div_pos (cfg_total_size cfg) (17 * 128 + 2 ^ pow) ltac:(lia) ltac:(lia)). nia.
    - pose proof (Z.mul_div_le (cfg_total_size cfg) (2 ^ pow) ltac:(lia)). lia. }
  assert (Hn2 : cfg_blocks pow cfg * (2 ^ pow + 17 * SIZEOF_UMQ_BUF) <= 2 * cfg_total_size cfg).
  { unfold SIZEOF_UMQ_BUF. nia. }
  constructor; simpl; try done; [nia|lia|lia|].
  destruct (cfg_mode cfg) eqn:E; [by rewrite bool_decide_eq_true_2| |done]. specialize (Hc eq_refl). lia.
Qed.

Lemma init_blocks_ext n i addr addr' fill fill' h first :
  (forall j, i <= j < i + Z.of_nat n -> addr j = addr' j /\ fill j = fill' j) ->
  init_blocks n i addr fill h first = init_blocks n i addr' fill' h first.
Proof.
  revert i h first. induction n as [|n IH]; intros i h first Ha; [done|]. cbn [init_blocks].
  destruct (Ha i ltac:(lia)) as [-> ->]. destruct (write h (addr' i) (fill' i)) as [h1|]; [|done]. cbn [mbind option_bind].
  destruct (QBUF_LIST_INSERT_HEAD h1 first (addr' i)) as [[h2 f2]|]; [|done]. cbn [mbind option_bind].
  apply IH. intros j Hj. apply Ha. lia.
Qed.

(** the initialisation, in terms of the geometry *)
Definition data_fill (g : qbuf_pool) (i : Z) : umq_buf -> umq_buf :=
  init_header (data_buf_size g) (max_data g) (block_data g i).

Lemma umq_qbuf_pool_init_eq cfg w :
  pl_inited (g_qbuf_pool w) = false -> cfg_ok (g_pow w) cfg ->
  let g bp := cfg_pool (g_pow w) cfg bp in
  let g0 := g zero_block_pool in
  umq_qbuf_pool_init cfg w =
    '(h, first) ← init_blocks (Z.to_nat (pl_total_block_num g0)) 0 (data_header g0) (data_fill g0) (mem w) 0;
    '(h, first') ← init_blocks (Z.to_nat (nodata_num g0)) 0 (nodata_header g0) (fun _ => init_header SIZEOF_UMQ_BUF 0 0) h 0;
    Some (set_mem h (set_qbuf_pool (g {| head_with_data := first; buf_cnt_with_data := pl_total_block_num g0;
      head_without_data := first'; buf_cnt_without_data := nodata_num g0 |}) w), UMQ_SUCCESS).
Proof.
  intros Hi Hok g g0. pose proof (cfg_geometry (g_pow w) cfg zero_block_pool Hok) as Hg.
  pose proof Hg as [_ Hp _ Hn _ He _ _ Hm]. pose proof (pow_range _ Hp). simpl in Hn, He, Hm.
  pose proof (ok_addr _ _ Hok). pose proof (ok_mode _ _ Hok).
  unfold umq_qbuf_pool_init. rewrite Hi. rewrite small_pow by done.
  set (num := cfg_blocks (g_pow w) cfg) in *. change (pl_total_block_num g0) with num.
  destruct (cfg_mode cfg) eqn:Emode; [| |done].
  - unfold UMQ_EMPTY_HEADER_COEFFICIENT, SIZEOF_UMQ_BUF in *.
    assert (E1 : cfg_total_size cfg / u32 ((16 + 1) * 128 + 2 ^ g_pow w) = num).
    { rewrite u32_small by lia. unfold num, cfg_blocks. by rewrite decide_True. }
    assert (Eh : pl_header_buffer g0 = cfg_buf_addr cfg + num * 2 ^ g_pow w).
    { unfold g0, g, cfg_pool. simpl. by rewrite bool_decide_eq_true_2. }
    assert (Ee : pl_ext_header_buffer g0 = cfg_buf_addr cfg + num * 2 ^ g_pow w + num * 128).
    { unfold g0, g, cfg_pool. simpl. by rewrite bool_decide_eq_true_2. }
    assert (En : nodata_num g0 = num * 16) by (unfold nodata_num; by rewrite decide_True).
    rewrite E1, En, (u64_small (cfg_buf_addr cfg + _)), (u64_small (_ + num * 128)), (u64_small (num * 16)) by nia.
    rewrite (init_blocks_ext (Z.to_nat num) 0 _ (data_header g0) _ (data_fill g0)); cycle 1.
    { intros j Hj. unfold id_to_buf_with_data_split, data_header, data_fill, data_buf_size, max_data, block_data, SIZEOF_UMQ_BUF.
      rewrite !decide_True, Eh by done. rewrite !u32_small by nia. rewrite !u64_small by nia. done. }
    destruct (init_blocks _ _ _ _ (mem w) 0) as [[h1 f1]|]; [|done]. cbn [mbind option_bind].
    rewrite (init_blocks_ext (Z.to_nat (num * 16)) 0 _ (nodata_header g0) _ (fun _ => init_header 128 0 0)); cycle 1.
    { intros j Hj. unfold id_to_buf_without_data_split, nodata_header, SIZEOF_UMQ_BUF.
      rewrite Ee. rewrite !u32_small by nia. rewrite !u64_small by nia. done. }
    destruct (init_blocks _ _ _ _ h1 0) as [[h2 f2]|]; [|done]. cbn [mbind option_bind].
    unfold g, cfg_pool. rewrite Emode. rewrite bool_decide_eq_true_2 by done. done.
  - unfold UMQ_EMPTY_HEADER_COEFFICIENT, SIZEOF_UMQ_BUF in *.
    assert (E1 : cfg_total_size cfg / 2 ^ g_pow w = num) by (unfold num, cfg_blocks; by rewrite Emode).
    assert (En : nodata_num g0 = 0) by (unfold nodata_num; by rewrite decide_False by (simpl; by rewrite Emode)).
    rewrite E1, En. simpl (init_blocks (Z.to_nat 0) _ _ _ _ _).
    rewrite (init_blocks_ext (Z.to_nat num) 0 _ (data_header g0) _ (data_fill g0)); cycle 1.
    { intros j Hj. unfold id_to_buf_combine, data_header, data_fill, data_buf_size, max_data, block_data, SIZEOF_UMQ_BUF.
      rewrite !decide_False by (simpl; by rewrite Emode). simpl. rewrite (u32_small j) by nia.
      rewrite !(u32_small (j * _)), (u32_small (_ - 128)) by nia. rewrite !u64_small by nia. done. }
    destruct (init_blocks _ _ _ _ (mem w) 0) as [[h1 f1]|]; [|done]. cbn [mbind option_bind].
    unfold g, cfg_pool. rewrite Emode. done.
Qed.

(** everything belongs to the global list *)
Definition all_global (g : qbuf_pool) : Z -> option place :=
  fun x => if decide (x ∈ headers g) then Some PGlobal else None.

Lemma headers_is_data pow g x : pool_geometry pow g -> x ∈ headers g -> is_data g x = true <-> x ∈ data_headers g.
Proof.
  intros Hg [Hx|Hx]%elem_of_app.
  - split; [done|]. apply (elem_of_data_headers _ _ Hg) in Hx as (i & Hi & ->). intros _. by apply (is_data_header _ _ Hg).
  - apply (elem_of_nodata_headers _ _ Hg) in Hx as (i & Hi & ->). rewrite (is_data_nodata _ _ Hg) by done.
    split; [done|]. intros (j & Hj & E)%(elem_of_data_headers _ _ Hg).
    pose proof (is_data_header _ _ Hg j Hj) as E1. rewrite <- E in E1. by rewrite (is_data_nodata _ _ Hg) in E1.
Qed.

Lemma all_global_holds pow g wd l :
  pool_geometry pow g -> NoDup l -> (forall x, x ∈ l <-> x ∈ if wd then data_headers g else nodata_headers g) ->
  holds g (all_global g) wd PGlobal l.
Proof.
  intros Hg Hnd Hm. split; [done|]. intros x. rewrite Hm. unfold all_global. split.
  - intros Hx. assert (Hh : x ∈ headers g) by (apply elem_of_app; destruct wd; auto). rewrite decide_True by done.
    split; [done|]. destruct wd; [by apply (headers_is_data _ _ _ Hg)|].
    apply (elem_of_nodata_headers _ _ Hg) in Hx as (i & Hi & ->). by apply (is_data_nodata _ _ Hg).
  - case_decide as Hh; [|by intros [? _]]. intros [_ Hd]. pose proof (headers_is_data _ _ _ Hg Hh) as Hx.
    destruct wd; [by apply Hx|]. apply elem_of_app in Hh as [Hh|]; [|done]. apply Hx in Hh. congruence.
Qed.

(** Setting up the pool: all blocks are in the global list. *)
Lemma pool_init_inv cfg w :
  pl_inited (g_qbuf_pool w) = false -> cfg_ok (g_pow w) cfg ->
  (forall t, tls_inited (cache_of t w) = false) ->
  (forall x, x ∈ headers (cfg_pool (g_pow w) cfg zero_block_pool) -> is_Some (mem w !! x)) ->
  exists w', umq_qbuf_pool_init cfg w = Some (w', UMQ_SUCCESS) /\ Inv w' (all_global (g_qbuf_pool w')) /\
    set_block_pool zero_block_pool (g_qbuf_pool w') = cfg_pool (g_pow w) cfg zero_block_pool /\ g_pow w' = g_pow w.
Proof.
  intros Hi Hok Ht Hmap. rewrite umq_qbuf_pool_init_eq by done. cbv zeta.
  set (g0 := cfg_pool (g_pow w) cfg zero_block_pool) in *.
  pose proof (cfg_geometry _ _ zero_block_pool Hok) as Hg. fold g0 in Hg.
  pose proof (geo_num _ _ Hg) as [Hn _].
  assert (Hn' : 0 <= nodata_num g0) by (unfold nodata_num, UMQ_EMPTY_HEADER_COEFFICIENT; case_decide; lia).
  destruct (init_blocks_spec (Z.to_nat (pl_total_block_num g0)) 0 (data_header g0) (data_fill g0) (mem w) 0 [])
    as (h1 & f1 & E1 & C1 & F1 & D1); rewrite ?Z2Nat.id in * by done.
  { done. }
  { apply (data_headers_NoDup _ _ Hg). }
  { intros j Hj. pose proof (data_header_range _ _ Hg j ltac:(lia)). split_and!; [lia| |set_solver].
    apply Hmap, elem_of_app. left. apply (elem_of_data_headers _ _ Hg). exists j. split; [lia|done]. }
  rewrite E1. cbn [mbind option_bind]. fold (data_headers g0) in C1, F1.
  assert (Hdis : forall x, x ∈ nodata_headers g0 -> x ∉ data_headers g0).
  { intros x Hx Hx'. apply (headers_is_data _ _ _ Hg) in Hx'; [|apply elem_of_app; by right].
    apply (elem_of_nodata_headers _ _ Hg) in Hx as (i & Hi' & ->). by rewrite (is_data_nodata _ _ Hg) in Hx'. }
  destruct (init_blocks_spec (Z.to_nat (nodata_num g0)) 0 (nodata_header g0) (fun _ => init_header SIZEOF_UMQ_BUF 0 0) h1 0 [])
    as (h2 & f2 & E2 & C2 & F2 & D2); rewrite ?Z2Nat.id in * by done.
  { done. }
  { apply (nodata_headers_NoDup _ _ Hg). }
  { intros j Hj. pose proof (nodata_header_range _ _ Hg j ltac:(lia)).
    assert (Hx : nodata_header g0 j ∈ nodata_headers g0) by (apply (elem_of_nodata_headers _ _ Hg); exists j; split; [lia|done]).
    split_and!; [lia| |set_solver]. rewrite F1 by (by apply Hdis). apply Hmap, elem_of_app. by right. }
  rewrite E2. cbn [mbind option_bind]. fold (nodata_headers g0) in C2, F2.
  eexists. split; [done|]. split; [|done]. rewrite !app_nil_r in *.
  set (bp := {| head_with_data := f1; buf_cnt_with_data := pl_total_block_num g0;
      head_without_data := f2; buf_cnt_without_data := nodata_num g0 |}).
  set (g := cfg_pool (g_pow w) cfg bp).
  pose proof (cfg_geometry _ _ bp Hok) as Hg'. fold g in Hg'.
  constructor; cbn [g_qbuf_pool g_pow mem set_mem set_qbuf_pool].
  - done.
  - intros x. unfold all_global. case_decide; split; done || by eexists.
  - intros pl wd. destruct (decide (pl = PGlobal)) as [->|Hpl].
    + exists (reverse (if wd then data_headers g0 else nodata_headers g0)). split.
      * apply (all_global_holds _ _ _ _ Hg').
        -- destruct wd; rewrite reverse_Permutation; [apply (data_headers_NoDup _ _ Hg)|apply (nodata_headers_NoDup _ _ Hg)].
        -- intros x. rewrite elem_of_reverse. by destruct wd.
      * unfold place_rep. simpl. unfold zlen. destruct wd; simpl; rewrite length_reverse.
        -- split; [|unfold data_headers; rewrite length_fmap, length_seqZ; by rewrite Z2Nat.id].
           eapply lseg_frame; [exact C1|]. intros x Hx. rewrite elem_of_reverse in Hx. unfold QBUF_LIST_NEXT. rewrite F2; [done|].
           intros Hx'. exact (Hdis x Hx' Hx).
        -- split; [done|]. unfold nodata_headers. rewrite length_fmap, length_seqZ. by rewrite Z2Nat.id.
    + exists []. split.
      * split; [apply NoDup_nil_2|]. intros x. unfold all_global. split; [by intros ?%elem_of_nil|].
        intros [E _]. case_decide; congruence.
      * unfold place_rep. destruct pl as [|t|]; [done| |done]. unfold slot.
        change (cache_of t _) with (cache_of t w). by rewrite Ht.
  - intros x Hx. change (headers g) with (headers g0) in Hx. apply elem_of_app in Hx as [Hx|Hx].
    + pose proof (Hdis x) as Hd. apply (elem_of_data_headers _ _ Hg) in Hx as (j & Hj & ->).
      destruct (D1 j ltac:(lia)) as (b & c & _ & Hb). eexists. rewrite F2; [|intros Hx; apply Hd; [done|]].
      * split_and!; [exact Hb|done..|]. intros _. change (data_base g) with (data_base g0). rewrite (data_base_header _ _ Hg) by lia.
        change (max_data g) with (max_data g0). simpl. pose proof (max_data_range _ _ Hg). lia.
      * apply (elem_of_data_headers _ _ Hg). by exists j.
    + apply (elem_of_nodata_headers _ _ Hg) in Hx as (j & Hj & ->). destruct (D2 j ltac:(lia)) as (b & c & _ & Hb).
      eexists. split_and!; [exact Hb|done..|]. change (is_data g) with (is_data g0). by rewrite (is_data_nodata _ _ Hg).
Qed.

(** ** A whole allocation *)

Lemma actual_buf_count_eq w own request num headroom :
  Inv w own -> 0 < num -> 0 < request < 2 ^ 31 -> 0 <= headroom <= UMQ_HEADROOM_SIZE_LIMIT ->
  num * frag_count (max_data (g_qbuf_pool w)) request headroom < 2 ^ 32 ->
  actual_buf_count request num headroom w = num * frag_count (max_data (g_qbuf_pool w)) request headroom.
Proof.
  intros HI Hn Hq Hh Hw. pose proof (inv_geo w own HI) as [_ Hp Hb _ _ _ _ _ _]. pose proof (pow_range _ Hp).
  unfold UMQ_HEADROOM_SIZE_LIMIT in *. pose proof (max_data_range _ _ (inv_geo w own HI)) as Hmax.
  pose proof (frag_count_bounds (max_data (g_qbuf_pool w)) request headroom ltac:(lia) ltac:(lia) ltac:(lia)) as [Hk _].
  unfold actual_buf_count, frag_count, max_data, SIZEOF_UMQ_BUF in *. rewrite small_pow by done. rewrite Hb in *.
  case_decide.
  - rewrite (u32_small (request + _ + _ - 1)) by lia. rewrite Z.shiftr_div_pow2 by lia. apply u32_small. nia.
  - rewrite (u32_small (2 ^ g_pow w - 128)) by lia. rewrite (u32_small (request + _ + _ - 1)) by lia. apply u32_small. nia.
Qed.

Lemma get_thread_cache_cnt t wd pl w : cnt_of wd pl (get_thread_cache t w) = cnt_of wd pl w.
Proof.
  unfold get_thread_cache. destruct (tls_inited (cache_of t w)) eqn:E; [done|]. unfold cnt_of, slot.
  destruct pl as [|t'|]; [done| |done]. unfold local_of, cache_of in *. simpl.
  destruct (decide (t' = t)) as [->|]; [rewrite lookup_insert_eq; simpl|by rewrite lookup_insert_ne].
  rewrite E. by destruct wd.
Qed.

Lemma laid_out_areas w own l k request headroom h :
  let g := g_qbuf_pool w in
  Inv w own -> 0 < k -> 0 <= headroom < max_data g ->
  (forall x, x ∈ l -> x ∈ headers g /\ is_data g x = true) ->
  laid_out (data_base g) (max_data g) k request headroom h l -> own_area h l.
Proof.
  intros g HI Hk Hh Hl Hlay. eapply laid_out_own_area; [exact Hh| |exact Hlay].
  intros x y Hx Hy Hne. pose proof (inv_geo w own HI) as Hg. fold g in Hg.
  destruct (Hl x Hx) as [Hx1 Hx2]. destruct (data_block w own x HI Hx1 Hx2) as (i & Hi & Ex & Bx).
  destruct (Hl y Hy) as [Hy1 Hy2]. destruct (data_block w own y HI Hy1 Hy2) as (j & Hj & Ey & By).
  fold g in Bx, By, Ex, Ey. rewrite Bx, By. apply (pool_blocks_disjoint _ _ Hg i j). intros ->. congruence.
Qed.

Lemma umq_qbuf_alloc_spec t request num opt w own :
  let g := g_qbuf_pool w in
  let headroom := alloc_headroom opt w in
  let k := frag_count (max_data g) request headroom in
  Inv w own -> 0 < num -> 0 < request < 2 ^ 31 -> 0 <= headroom <= UMQ_HEADROOM_SIZE_LIMIT -> num * k < 2 ^ 32 ->
  exists w' ret first own', umq_qbuf_alloc t request num opt 0 w = Some (w', ret, first) /\ Inv w' own' /\
    same_pool w w' /\
    if num * k <=? cnt_of true (PLocal t) w + QBUF_POOL_BATCH_CNT * (cnt_of true PGlobal w / QBUF_POOL_BATCH_CNT)
    then ret = UMQ_SUCCESS /\ exists l, chain (mem w') first l /\ zlen l = num * k /\ NoDup l /\
      (forall x, x ∈ l -> (own x = Some PGlobal \/ own x = Some (PLocal t)) /\ is_data g x = true) /\
      (forall x, own' x = Some PHeld <-> own x = Some PHeld \/ x ∈ l) /\
      laid_out (data_base g) (max_data g) k request headroom (mem w') l /\ own_area (mem w') l
    else ret = - UMQ_ERR_ENOMEM /\ first = 0 /\ forall x, own' x = Some PHeld <-> own x = Some PHeld.
Proof.
  intros g headroom k HI Hn Hq Hh Hw. unfold umq_qbuf_alloc. rewrite (geo_inited _ _ (inv_geo w own HI)). cbn [negb].
  destruct (get_thread_cache_inv t w own HI) as [HI0 Ht0]. set (w0 := get_thread_cache t w) in *.
  assert (Hg0 : g_qbuf_pool w0 = g) by (unfold w0, get_thread_cache; by case_match).
  assert (Hp0 : g_pow w0 = g_pow w) by (unfold w0, get_thread_cache; by case_match).
  replace (alloc_headroom opt w0) with headroom by (unfold headroom, alloc_headroom; by rewrite Hg0).
  rewrite (actual_buf_count_eq w0 own) by (rewrite ?Hg0; done). rewrite Hg0. fold k.
  rewrite (proj2 (Z.eqb_neq request 0)) by lia.
  pose proof (inv_lists w0 own HI0 PGlobal true) as (gl & _ & Rgl).
  pose proof (slot_rep w0 PGlobal true gl Rgl ltac:(done)) as Hcg. pose proof (zlen_nonneg gl).
  destruct (fetch_loop_inv (fetch_fuel true w0) t true (num * k) w0 own HI0 Ht0)
    as (w1 & ok & m & r & E & HI1 & [Hs1 Ht1] & Hm & Hr & Hl & Hgl & Hend).
  { unfold fetch_fuel. change (pool_cnt true (global_of w0)) with (cnt_of true PGlobal w0). lia. }
  rewrite E. cbn [mbind option_bind]. unfold w0 in Hl, Hgl. rewrite !get_thread_cache_cnt in Hl, Hgl.
  pose proof (inv_lists w1 _ HI1 PGlobal true) as (gl1 & _ & Rgl1).
  pose proof (slot_rep w1 PGlobal true gl1 Rgl1 ltac:(done)) as Hcg1. pose proof (zlen_nonneg gl1).
  assert (Hheld : forall x, move own m (PLocal t) x = Some PHeld <-> own x = Some PHeld).
  { intros x. unfold move. case_decide as Hx; [|done]. apply Hm in Hx. rewrite Hx. split; congruence. }
  unfold QBUF_POOL_BATCH_CNT in *. destruct ok; cbn [negb].
  - rewrite (proj2 (Z.leb_le _ _)) by zmod.
    assert (Hk : 1 <= k).
    { pose proof (max_data_range _ _ (inv_geo w own HI)) as Hmax. fold g in Hmax.
      unfold UMQ_HEADROOM_SIZE_LIMIT in *. apply frag_count_bounds; lia. }
    pose proof Hs1 as [Hs1p Hs1']. rewrite Hg0 in Hs1'. clear Hs1. rename Hs1' into Hs1.
    destruct (take_data_inv t w1 _ request headroom (num * k) HI1 Ht1) as (w2 & first & l & E2 & Hout & Hlay); [nia|done|done|].
    rewrite (same_data_base _ _ Hs1), (same_max_data _ _ Hs1) in Hlay. fold k in Hlay.
    destruct Hout as (Hc & Hlen & Hnd & Hown & HI2 & [[Hs2p Hs2] _]).
    rewrite E2. cbn [mbind option_bind]. eexists _, _, _, _. split; [done|]. split; [exact HI2|].
    split; [split; [by rewrite Hs2p, Hs1p, Hp0|by rewrite Hs2]|]. split; [done|].
    exists l. split_and!; try done.
    + intros x Hx. apply Hown in Hx as [Hx Hd]. rewrite (same_is_data _ _ Hs1) in Hd. split; [|done].
      unfold move in Hx. case_decide; [left; by apply Hm|by right].
    + intros x. unfold move at 1. case_decide; [by split; auto|]. rewrite Hheld. tauto.
    + eapply (laid_out_areas w own l k request headroom); [done|lia| | |done].
      * pose proof (max_data_range _ _ (inv_geo w own HI)). unfold UMQ_HEADROOM_SIZE_LIMIT in *. lia.
      * intros x Hx. apply Hown in Hx as [Hx Hd]. rewrite (same_is_data _ _ Hs1) in Hd. split; [|done].
        apply (inv_dom w own HI). unfold move in Hx. case_decide as Hxm; [by rewrite Hm|by rewrite Hx].
  - rewrite (proj2 (Z.leb_gt _ _)) by zmod. eexists _, _, _, _. split; [done|]. split; [exact HI1|].
    destruct Hs1 as [Hs1p Hs1]. rewrite Hg0 in Hs1. split; [split; [by rewrite Hs1p, Hp0|done]|]. done.
Qed.

Lemma umq_qbuf_alloc_total t request num opt w own :
  Inv w own -> 0 < num -> 0 < request < 2 ^ 31 -> 0 <= alloc_headroom opt w <= UMQ_HEADROOM_SIZE_LIMIT ->
  num * frag_count (max_data (g_qbuf_pool w)) request (alloc_headroom opt w) < 2 ^ 32 ->
  exists w' ret first, umq_qbuf_alloc t request num opt 0 w = Some (w', ret, first).
Proof.
  intros. destruct (umq_qbuf_alloc_spec t request num opt w own) as (w' & ret & first & own' & E & _); [done..|eauto].
Qed.

(** the blocks within reach of a thread: its cache and the full batches of
    the global list *)
Definition reachable_blocks t w : Z :=
  cnt_of true (PLocal t) w + QBUF_POOL_BATCH_CNT * (cnt_of true PGlobal w / QBUF_POOL_BATCH_CNT).

(** C12: allocating [num] messages of [request] bytes through thread [t]
    always returns. It succeeds exactly when the cached blocks of the thread
    and the full batches of the global list are enough; then it returns a
    chain of as many buffers as the messages need, taken from that cache and
    the global list and from nobody else, laid out message by message with
    the requested headroom, every buffer in a block of its own. Otherwise it
    returns -ENOMEM and hands out nothing. *)
Theorem umq_qbuf_alloc_correct t request num opt w own :
  let g := g_qbuf_pool w in
  let headroom := alloc_headroom opt w in
  let k := frag_count (max_data g) request headroom in
  Inv w own -> 0 < num -> 0 < request < 2 ^ 31 -> 0 <= headroom <= UMQ_HEADROOM_SIZE_LIMIT -> num * k < 2 ^ 32 ->
  exists w' ret first own', umq_qbuf_alloc t request num opt 0 w = Some (w', ret, first) /\ Inv w' own' /\
    same_pool w w' /\
    if num * k <=? reachable_blocks t w
    then ret = UMQ_SUCCESS /\ exists l, chain (mem w') first l /\ zlen l = num * k /\ NoDup l /\
      (forall x, x ∈ l -> (own x = Some PGlobal \/ own x = Some (PLocal t)) /\ is_data g x = true) /\
      (forall x, own' x = Some PHeld <-> own x = Some PHeld \/ x ∈ l) /\
      laid_out (data_base g) (max_data g) k request headroom (mem w') l /\ own_area (mem w') l
    else ret = - UMQ_ERR_ENOMEM /\ first = 0 /\ forall x, own' x = Some PHeld <-> own x = Some PHeld.
Proof. apply umq_qbuf_alloc_spec. Qed.

(** ** Interleavings

    A thread's call is a sequence of events: its critical sections under the
    global mutex and the parts that only touch its own cache. The events of
    different threads interleave freely; [held] is what the application owns. *)

Inductive event :=
  | EvStart (t : nat)
  | EvFetch (t : nat) (with_data : bool)
  | EvTakeData (t : nat) (request num headroom : Z)
  | EvTakeNodata (t : nat) (num : Z)
  | EvPut (t : nat) (list : Z)
  | EvReturn (t : nat) (with_data : bool)
  | EvExit (t : nat)
  | EvWrite (h : heap).

Abbreviation state := (world * gset Z)%type.
Implicit Types (s : world * gset Z).

(** the headers of a NULL-terminated list *)
Fixpoint walk (fuel : nat) h p : list Z :=
  match fuel with
  | O => []
  | S fuel => if p =? 0 then [] else match h !! p with Some b => p :: walk fuel h (qbuf_next b) | None => [] end
  end.
Definition elements_of h p : list Z := walk (list_fuel h) h p.

Definition exec (ev : event) s : option (world * gset Z) :=
  let '(w, held) := s in
  match ev with
  | EvStart t => Some (get_thread_cache t w, held)
  | EvFetch t wd => '(w, _) ← fetch_step t wd QBUF_POOL_BATCH_CNT w; Some (w, held)
  | EvTakeData t request num headroom =>
    '(w, first) ← take_data t request num 0 headroom w; Some (w, held ∪ list_to_set (elements_of (mem w) first))
  | EvTakeNodata t num =>
    '(w, first) ← take_nodata t num 0 w; Some (w, held ∪ list_to_set (elements_of (mem w) first))
  | EvPut t list =>
    w' ← put_list t (negb (no_data_zone list w)) list w; Some (w', held ∖ list_to_set (elements_of (mem w) list))
  | EvReturn t wd => w ← return_step t wd QBUF_POOL_TLS_MAX w; Some (w, held)
  | EvExit t => w ← release_thread_cache t w; Some (w, held)
  | EvWrite h => Some (set_mem h w, held)
  end.

(** When an event may happen: what the code has tested before it, and what
    the application owes: it releases buffers it holds, of one kind, as a
    NULL-terminated list, and writes only the headers it holds, leaving each
    data pointer in its block. *)
Definition enabled (ev : event) s : Prop :=
  let '(w, held) := s in
  match ev with
  | EvStart _ | EvExit _ => True
  | EvFetch t _ => tls_inited (cache_of t w) = true
  | EvTakeData t request num headroom => tls_inited (cache_of t w) = true /\
      0 < num <= cnt_of true (PLocal t) w /\ 0 < request < 2 ^ 31 /\ 0 <= headroom <= UMQ_HEADROOM_SIZE_LIMIT
  | EvTakeNodata t num => tls_inited (cache_of t w) = true /\ 0 < num <= cnt_of false (PLocal t) w
  | EvPut t list => tls_inited (cache_of t w) = true /\ exists l, chain (mem w) list l /\ NoDup l /\ l <> [] /\
      forall x, x ∈ l -> x ∈ held /\ no_data_zone x w = no_data_zone list w
  | EvReturn t wd => tls_inited (cache_of t w) = true /\ over_threshold wd (cnt_of wd (PLocal t) w) = true
  | EvWrite h => (forall x, x ∉ held -> h !! x = mem w !! x) /\ forall x, x ∈ held -> block_ok (g_qbuf_pool w) h x
  end.

(** the number of buffers an event hands out *)
Definition taken (ev : event) : Z :=
  match ev with EvTakeData _ _ num _ => num | EvTakeNodata _ num => num | _ => 0 end.

Definition safe s : Prop := exists own, Inv s.1 own /\ forall x, own x = Some PHeld <-> x ∈ s.2.

Lemma walk_chain h p l fuel : chain h p l -> (length l < fuel)%nat -> walk fuel h p = l.
Proof.
  revert p fuel. induction l as [|x l IH]; intros p [|fuel] Hc Hf; simpl in *; try lia.
  - by rewrite Hc.
  - destruct Hc as (-> & Hx & b & Hb & Hc). rewrite (proj2 (Z.eqb_neq x 0)) by done. rewrite Hb. f_equal. apply IH; [done|lia].
Qed.

Lemma elements_of_chain h p l : chain h p l -> NoDup l -> elements_of h p = l.
Proof. intros Hc Hnd. apply walk_chain; [done|]. unfold list_fuel. pose proof (chain_size _ _ _ Hc Hnd). lia. Qed.

Lemma taken_held own own' held l :
  (forall x, own x = Some PHeld <-> x ∈ held) -> (forall x, own' x = move own l PHeld x) ->
  forall x, own' x = Some PHeld <-> x ∈ held ∪ list_to_set (C := gset Z) l.
Proof.
  intros H E x. rewrite E. unfold move. case_decide; [|rewrite H]; set_solver.
Qed.

(** blocks taken from a cache were not held *)
Lemma taken_size own held l t :
  (forall x, own x = Some PHeld <-> x ∈ held) -> NoDup l -> (forall x, x ∈ l -> own x = Some (PLocal t)) ->
  Z.of_nat (size (held ∪ list_to_set (C := gset Z) l)) = Z.of_nat (size held) + zlen l.
Proof.
  intros H Hnd Hl. rewrite size_union.
  - rewrite size_list_to_set by done. unfold zlen. lia.
  - intros x Hx Hx'%elem_of_list_to_set. apply H in Hx. rewrite Hl in Hx by done. done.
Qed.

Lemma no_data_is_data w x : no_data_zone x w = negb (is_data (g_qbuf_pool w) x).
Proof. unfold no_data_zone, is_data. by rewrite negb_involutive. Qed.

Lemma held_by_others own (held : gset Z) m pl1 pl2 :
  (forall x, own x = Some PHeld <-> x ∈ held) -> (forall x, x ∈ m -> own x = Some pl1) ->
  pl1 <> PHeld -> pl2 <> PHeld -> forall x, move own m pl2 x = Some PHeld <-> x ∈ held.
Proof.
  intros H Hm N1 N2 x. unfold move. case_decide as Hx; [|done]. rewrite <- H, (Hm x Hx). split; congruence.
Qed.

(** No enabled event faults, every event keeps the invariant, and an
    allocation hands out as many blocks as asked for, none of them held. *)
Lemma exec_safe ev s :
  safe s -> enabled ev s ->
  exists s', exec ev s = Some s' /\ safe s' /\
    (0 < taken ev -> Z.of_nat (size s'.2) = Z.of_nat (size s.2) + taken ev).
Proof.
  destruct s as [w held]. intros (own & HI & Hh) He. simpl in HI, Hh.
  destruct ev as [t|t wd|t request num headroom|t num|t list|t wd|t|h]; simpl in He; cbn [exec taken].
  - eexists. split; [done|]. split; [|lia]. exists own. split; [|done]. by apply get_thread_cache_inv.
  - destruct (fetch_step_inv t wd w own HI He) as (w' & r & m & E & HI' & _ & Hm & _). rewrite E.
    eexists. split; [done|]. split; [|lia]. exists (move own m (PLocal t)). split; [done|].
    by apply (held_by_others own held m PGlobal).
  - destruct He as (Ht & Hn & Hq & Hr).
    destruct (take_data_inv t w own request headroom num HI Ht Hn Hq Hr) as (w' & first & l & E & Hout & _).
    destruct Hout as (Hc & Hlen & Hnd & Hown & HI' & _). rewrite E. cbn [mbind option_bind].
    rewrite (elements_of_chain _ _ l) by done. eexists. split; [done|]. split.
    + exists (move own l PHeld). split; [done|]. by eapply taken_held.
    + intros _. simpl. rewrite <- Hlen. apply (taken_size own held l t); [done|done|]. intros x Hx. by apply Hown.
  - destruct He as (Ht & Hn). destruct (take_nodata_inv t w own num HI Ht Hn) as (w' & first & l & E & Hout).
    destruct Hout as (Hc & Hlen & Hnd & Hown & HI' & _). rewrite E. cbn [mbind option_bind].
    rewrite (elements_of_chain _ _ l) by done. eexists. split; [done|]. split.
    + exists (move own l PHeld). split; [done|]. by eapply taken_held.
    + intros _. simpl. rewrite <- Hlen. apply (taken_size own held l t); [done|done|]. intros x Hx. by apply Hown.
  - destruct He as (Ht & l & Hc & Hnd & Hne & Hl).
    destruct (put_list_inv t (negb (no_data_zone list w)) w own list l HI Ht Hc Hnd Hne) as (w' & E & HI' & _).
    { intros x Hx. destruct (Hl x Hx) as [H1 H2]. split; [by apply Hh|]. rewrite <- H2, no_data_is_data. apply negb_involutive_reverse. }
    rewrite E. cbn [mbind option_bind]. rewrite (elements_of_chain _ _ l) by done. eexists. split; [done|]. split; [|lia].
    exists (move own l (PLocal t)). split; [done|]. intros x. simpl. unfold move. case_decide; [|rewrite Hh]; set_solver.
  - destruct He as [Ht Hth]. assert (QBUF_POOL_TLS_MAX < cnt_of wd (PLocal t) w) as Hc.
    { unfold over_threshold, QBUF_POOL_TLS_MAX, QBUF_POOL_BATCH_CNT in *. destruct wd; breflect; lia. }
    destruct (return_step_inv t wd w own HI Ht Hc) as (w' & m & E & HI' & _ & Hm & _). rewrite E.
    eexists. split; [done|]. split; [|lia]. exists (move own m PGlobal). split; [done|].
    by apply (held_by_others own held m (PLocal t)).
  - destruct (release_thread_cache_inv t w own HI) as (w' & m & E & HI' & _ & Hm). rewrite E.
    eexists. split; [done|]. split; [|lia]. exists (move own m PGlobal). split; [done|].
    by apply (held_by_others own held m (PLocal t)).
  - destruct He as [H1 H2]. eexists. split; [done|]. split; [|lia]. exists own. split; [|done].
    apply write_inv; [done| |].
    + intros x Hx. apply H1. by rewrite <- Hh.
    + intros x Hx. apply H2. by apply Hh.
Qed.

Inductive run : world * gset Z -> list event -> world * gset Z -> Prop :=
  | run_nil s : run s [] s
  | run_cons s ev s' evs s'' : enabled ev s -> exec ev s = Some s' -> run s' evs s'' -> run s (ev :: evs) s''.

Lemma run_safe s evs s' : safe s -> run s evs s' -> safe s'.
Proof.
  intros Hs Hr. induction Hr as [|s ev s1 evs s2 He E Hr IH]; [done|]. apply IH.
  destruct (exec_safe ev s Hs He) as (s1' & E' & Hs' & _). congruence.
Qed.

Lemma run_app s1 s2 s3 evs1 evs2 : run s1 evs1 s2 -> run s2 evs2 s3 -> run s1 (evs1 ++ evs2) s3.
Proof. induction 1; [done|]. intros. econstructor; eauto. Qed.

(** C7: after the pool has been set up on a region whose headers are mapped,
    no interleaving of the threads' steps and of the application's writes
    faults; in every state reached each block has exactly one owner, the
    lists and their counters are exact, and a step that hands out [n] buffers
    hands out [n] blocks the application did not hold. *)
Theorem pool_blocks_have_one_owner cfg w :
  pl_inited (g_qbuf_pool w) = false -> cfg_ok (g_pow w) cfg ->
  (forall t, tls_inited (cache_of t w) = false) ->
  (forall x, x ∈ headers (cfg_pool (g_pow w) cfg zero_block_pool) -> is_Some (mem w !! x)) ->
  exists w0, umq_qbuf_pool_init cfg w = Some (w0, UMQ_SUCCESS) /\
    forall evs s, run (w0, ∅) evs s -> safe s /\
      forall ev, enabled ev s -> exists s', exec ev s = Some s' /\ safe s' /\
        (0 < taken ev -> Z.of_nat (size s'.2) = Z.of_nat (size s.2) + taken ev).
Proof.
  intros H1 H2 H3 H4. destruct (pool_init_inv cfg w H1 H2 H3 H4) as (w0 & E & HI & _).
  exists w0. split; [done|]. intros evs s Hr.
  assert (Hs : safe s).
  { eapply run_safe; [|exact Hr]. exists (all_global (g_qbuf_pool w0)). split; [done|]. intros x. simpl.
    unfold all_global. split; [|set_solver]. case_decide; congruence. }
  split; [done|]. intros ev He. by apply exec_safe.
Qed.

(** ** The calls are sequences of events *)

Lemma fetch_loop_run fuel t wd need w (held : gset Z) w' ok :
  tls_inited (cache_of t w) = true -> fetch_loop fuel t wd QBUF_POOL_BATCH_CNT need w = Some (w', ok) ->
  exists n, run (w, held) (replicate n (EvFetch t wd)) (w', held).
Proof.
  revert w. induction fuel as [|fuel IH]; intros w Ht; [done|]. cbn [fetch_loop].
  case_match; [|intros [= -> _]; exists 0%nat; constructor].
  destruct (fetch_step t wd QBUF_POOL_BATCH_CNT w) as [[w1 r]|] eqn:E; [|done]. cbn [mbind option_bind].
  assert (Ht1 : tls_inited (cache_of t w1) = true).
  { unfold fetch_step in E. destruct (fetch_from_global _ _ _ _ _) as [[[[h gp] lp] r']|]; [|done].
    injection E as <- _. unfold cache_of in *. simpl. by rewrite lookup_insert_eq. }
  assert (Hex : exec (EvFetch t wd) (w, held) = Some (w1, held)) by (cbn [exec]; by rewrite E).
  case_match.
  - intros [= <- _]. exists 1%nat. econstructor; [done|done|constructor].
  - intros E2. destruct (IH w1 Ht1 E2) as [n Hn]. exists (S n). by econstructor.
Qed.

(** the arguments umq_qbuf_alloc is called with *)
Definition alloc_args (request num : Z) opt w : Prop :=
  0 < num /\ 0 < request < 2 ^ 31 /\ 0 <= alloc_headroom opt w <= UMQ_HEADROOM_SIZE_LIMIT /\
  num * frag_count (max_data (g_qbuf_pool w)) request (alloc_headroom opt w) < 2 ^ 32.

Lemma alloc_is_run t request num opt w held w' ret first :
  safe (w, held) -> alloc_args request num opt w ->
  umq_qbuf_alloc t request num opt 0 w = Some (w', ret, first) ->
  exists evs, run (w, held) evs (w', if ret =? 0 then held ∪ list_to_set (elements_of (mem w') first) else held).
Proof.
  intros (own & HI & Hh) (Hn & Hq & Hr & Hw). simpl in HI, Hh. unfold umq_qbuf_alloc.
  rewrite (geo_inited _ _ (inv_geo w own HI)). cbn [negb].
  destruct (get_thread_cache_inv t w own HI) as [HI0 Ht0]. set (w0 := get_thread_cache t w) in *.
  assert (Hg0 : g_qbuf_pool w0 = g_qbuf_pool w) by (unfold w0, get_thread_cache; by case_match).
  assert (Hr0 : alloc_headroom opt w0 = alloc_headroom opt w) by (unfold alloc_headroom; by rewrite Hg0).
  rewrite (proj2 (Z.eqb_neq request 0)) by lia. rewrite Hr0. set (headroom := alloc_headroom opt w) in *.
  rewrite (actual_buf_count_eq w0 own) by (rewrite ?Hg0; done). rewrite Hg0.
  set (need := num * frag_count (max_data (g_qbuf_pool w)) request headroom) in *.
  destruct (fetch_loop _ t true QBUF_POOL_BATCH_CNT need w0) as [[w1 ok]|] eqn:E1; [|done]. cbn [mbind option_bind].
  destruct (fetch_loop_run _ _ _ _ _ held _ _ Ht0 E1) as [n Hrun].
  assert (Hstart : run (w, held) (EvStart t :: replicate n (EvFetch t true)) (w1, held)) by (by econstructor).
  assert (Hneed : 0 < need).
  { pose proof (max_data_range _ _ (inv_geo w own HI)) as Hmax. unfold UMQ_HEADROOM_SIZE_LIMIT in *.
    pose proof (frag_count_bounds (max_data (g_qbuf_pool w)) request headroom ltac:(lia) ltac:(lia) ltac:(lia)) as [? _].
    unfold need. nia. }
  pose proof (inv_lists w0 own HI0 PGlobal true) as (gl & _ & Rgl).
  pose proof (slot_rep w0 PGlobal true gl Rgl ltac:(done)) as Hcg. pose proof (zlen_nonneg gl).
  destruct (fetch_loop_inv (fetch_fuel true w0) t true need w0 own HI0 Ht0)
    as (w1' & ok' & m & r & E & HI1 & [_ Ht1] & _ & _ & _ & _ & Hend).
  { unfold fetch_fuel. change (pool_cnt true (global_of w0)) with (cnt_of true PGlobal w0). lia. }
  rewrite E1 in E. injection E as <- <-. destruct ok; cbn [negb].
  - destruct (take_data t request need 0 headroom w1) as [[w2 f]|] eqn:E2; [|done]. cbn [mbind option_bind].
    intros [= <- <- <-]. eexists. eapply run_app; [exact Hstart|].
    apply (run_cons _ (EvTakeData t request need headroom) (w2, held ∪ list_to_set (elements_of (mem w2) f))); [| |apply run_nil].
    + simpl. split; [done|]. split; [exact (conj Hneed (proj1 Hend))|]. done.
    + cbn [exec]. rewrite E2. done.
  - intros [= <- <- _]. eexists. exact Hstart.
Qed.

Lemma free_is_run t list l w held :
  safe (w, held) -> chain (mem w) list l -> NoDup l -> l <> [] ->
  (forall x, x ∈ l -> x ∈ held /\ no_data_zone x w = no_data_zone list w) ->
  exists w' evs, umq_qbuf_free t list w = Some w' /\ run (w, held) evs (w', held ∖ list_to_set l).
Proof.
  intros (own & HI & Hh) Hc Hnd Hne Hl. simpl in HI, Hh. unfold umq_qbuf_free.
  rewrite (geo_inited _ _ (inv_geo w own HI)). cbn [negb].
  destruct (get_thread_cache_inv t w own HI) as [HI0 Ht0]. set (w0 := get_thread_cache t w) in *.
  assert (Hz : forall x, no_data_zone x w0 = no_data_zone x w) by (intros x; unfold w0, get_thread_cache; by case_match).
  assert (Hm : mem w0 = mem w) by (unfold w0, get_thread_cache; by case_match).
  assert (Hen : enabled (EvPut t list) (w0, held)).
  { split; [done|]. exists l. rewrite Hm. split_and!; try done. intros x Hx. rewrite !Hz. by apply Hl. }
  assert (Hs0 : safe (w0, held)) by (exists own; done).
  destruct (exec_safe _ _ Hs0 Hen) as ([w1 held1] & E1 & (own1 & HI1 & _) & _). cbn [exec] in E1. simpl in HI1.
  destruct (put_list t (negb (no_data_zone list w0)) list w0) as [w1'|] eqn:E; [|done]. cbn [mbind option_bind] in *.
  rewrite (elements_of_chain _ _ l) in E1 by (done || by rewrite Hm). injection E1 as -> <-.
  set (wd := negb (no_data_zone list w0)) in *.
  assert (Hrun : run (w, held) [EvStart t; EvPut t list] (w1, held ∖ list_to_set l)).
  { econstructor; [done|done|]. econstructor; [exact Hen| |apply run_nil]. cbn [exec]. fold w0. fold wd. rewrite E.
    cbn [mbind option_bind]. by rewrite (elements_of_chain _ _ l) by (done || by rewrite Hm). }
  assert (Ht1 : tls_inited (cache_of t w1) = true).
  { unfold put_list in E. destruct (release_batch _ _ _) as [[[? ?] ?]|]; [|done]. injection E as <-.
    unfold cache_of in *. simpl. by rewrite lookup_insert_eq. }
  destruct (over_threshold wd (pool_cnt wd (local_of t w1))) eqn:Eth; [|eauto].
  assert (Hret : enabled (EvReturn t wd) (w1, held ∖ list_to_set l)).
  { split; [done|]. unfold cnt_of, slot. by rewrite Ht1. }
  destruct (exec_safe (EvReturn t wd) (w1, held ∖ list_to_set l)) as ([w2 held2] & E2 & _ & _); [|done|].
  { eapply run_safe; [|exact Hrun]. by exists own. }
  cbn [exec] in E2. destruct (return_step t wd QBUF_POOL_TLS_MAX w1) as [w2'|] eqn:E3; [|done]. injection E2 as -> <-.
  eexists _, _. split; [done|]. eapply run_app; [exact Hrun|]. econstructor; [exact Hret| |apply run_nil].
  cbn [exec]. by rewrite E3.
Qed.

(** C14: the calls compose from the interleaved steps. In a state the pool can
    reach, allocating messages and releasing a chain of held buffers always
    return, and what they do is a sequence of the steps above: other threads
    may run between any two of them. *)
Theorem calls_are_runs t w held :
  safe (w, held) ->
  (forall request num opt, alloc_args request num opt w ->
     exists w' ret first evs, umq_qbuf_alloc t request num opt 0 w = Some (w', ret, first) /\
       run (w, held) evs (w', if ret =? 0 then held ∪ list_to_set (elements_of (mem w') first) else held)) /\
  (forall list l, chain (mem w) list l -> NoDup l -> l <> [] ->
     (forall x, x ∈ l -> x ∈ held /\ no_data_zone x w = no_data_zone list w) ->
     exists w' evs, umq_qbuf_free t list w = Some w' /\ run (w, held) evs (w', held ∖ list_to_set l)).
Proof.
  intros Hs. split.
  - intros request num opt Ha. pose proof Hs as (own & HI & _). destruct Ha as (H1 & H2 & H3 & H4).
    destruct (umq_qbuf_alloc_total t request num opt w own HI H1 H2 H3 H4) as (w' & ret & first & E).
    destruct (alloc_is_run t request num opt w held w' ret first Hs ltac:(done) E) as [evs Hr]. eauto 10.
  - intros list l. by apply free_is_run.
Qed.

(** ** Headroom and addresses *)



(** C34: the header of a block is found from every address of its data, in
    both modes, and an address outside the region of the pool gives NULL. *)
Theorem data_to_head_inverts w own :
  let g := g_qbuf_pool w in
  Inv w own ->
  (forall x a, x ∈ headers g -> is_data g x = true -> data_base g x <= a < data_base g x + max_data g ->
     umq_qbuf_data_to_head a w = x) /\
  (forall a, a < pl_data_buffer g \/ pl_data_buffer g + pl_total_size g <= a ->
     umq_qbuf_data_to_head a w = 0).
Proof.
  intros g HI. pose proof (inv_geo w own HI) as Hg. fold g in Hg. unfold umq_qbuf_data_to_head. fold g.
  rewrite (geo_inited _ _ Hg). cbn [negb]. pose proof Hg as [_ Hp Hb Hn _ He Htot _ Hm]. pose proof (pow_range _ Hp). split.
  - intros x a Hx Hd Ha. destruct (data_block w own x HI Hx Hd) as (i & Hi & Ex & Eb). fold g in Ex, Eb, Hi.
    rewrite Eb in Ha. rewrite Ex. pose proof (data_header_range _ _ Hg i Hi) as Hr.
    unfold block_data, max_data, data_header, SIZEOF_UMQ_BUF in *. rewrite Hb in *. case_decide as E.
    + rewrite E in Hm. assert (Hq : (a - pl_data_buffer g) / 2 ^ g_pow w = i) by (symmetry; apply (Z.div_unique_pos _ _ _ (a - pl_data_buffer g - i * 2 ^ g_pow w)); lia).
      rewrite (proj2 (Z.leb_le _ _)), (proj2 (Z.ltb_lt _ _)) by nia. simpl. rewrite Hq. apply u64_small. lia.
    + assert (Hq : (a - pl_data_buffer g) / 2 ^ g_pow w = i) by (symmetry; apply (Z.div_unique_pos _ _ _ (a - pl_data_buffer g - i * 2 ^ g_pow w)); lia).
      rewrite (proj2 (Z.leb_le _ _)), (proj2 (Z.ltb_lt _ _)) by nia. simpl. rewrite Hq. apply u64_small. lia.
  - intros a Ha. assert (Hno : forall hi, hi <= pl_data_buffer g + pl_total_size g ->
      (pl_data_buffer g <=? a) && (a <? hi) = false).
    { intros hi Hhi. apply andb_false_iff. rewrite Z.leb_gt, Z.ltb_ge. lia. }
    case_decide as E; rewrite Hno; [done| |done|lia]. rewrite E in Hm. lia.
Qed.

(** ** A pool of 512 blocks of 8 KiB with combined headers *)

Definition raw_header : umq_buf :=
  {| qbuf_next := 0; umqh := 0; total_data_size := 0; buf_size := 0; data_size := 0; headroom_size := 0;
     first_fragment := false; token_id := 0; mempool_id := 0; buf_data := 0; qbuf_ext := [] |}.
Definition ex_cfg : qbuf_pool_cfg :=
  {| cfg_buf_addr := 8192; cfg_total_size := 512 * 8192; cfg_data_size := 0; cfg_headroom_size := 64;
     cfg_mode := UMQ_BUF_COMBINE |}.
Definition ex_raw : world :=
  {| mem := list_to_map ((fun i => (8192 + i * 8192, raw_header)) <$> seqZ 0 512); g_qbuf_pool := zero_pool;
     g_thread_cache := ∅; g_pow := 13 |}.
Definition ex_world : world :=
  match umq_qbuf_pool_init ex_cfg ex_raw with Some (w, _) => w | None => ex_raw end.

Lemma ex_cfg_ok : cfg_ok (g_pow ex_raw) ex_cfg.
Proof. constructor; simpl; unfold UMQ_HEADROOM_SIZE_LIMIT; lia || done. Qed.

Lemma ex_mapped x : x ∈ headers (cfg_pool (g_pow ex_raw) ex_cfg zero_block_pool) -> is_Some (mem ex_raw !! x).
Proof.
  revert x. apply Forall_forall. apply (bool_decide_unpack _). by vm_compute.
Qed.

Lemma ex_caches t : tls_inited (cache_of t ex_raw) = false.
Proof. done. Qed.

Lemma ex_init : umq_qbuf_pool_init ex_cfg ex_raw = Some (ex_world, UMQ_SUCCESS) /\
  Inv ex_world (all_global (g_qbuf_pool ex_world)).
Proof.
  destruct (pool_init_inv ex_cfg ex_raw eq_refl ex_cfg_ok ex_caches ex_mapped) as (w0 & E & HI & _).
  unfold ex_world. rewrite E. split; [reflexivity|exact HI].
Qed.

Lemma ex_facts :
  cnt_of true PGlobal ex_world = 512 /\ cnt_of true (PLocal 0) ex_world = 0 /\
  max_data (g_qbuf_pool ex_world) = 8064 /\ pl_headroom_size (g_qbuf_pool ex_world) = 64 /\
  pl_data_buffer (g_qbuf_pool ex_world) = 8192.
Proof. vm_compute. repeat split; reflexivity. Qed.

#[global] Opaque ex_world.

Lemma all_global_not_held g x : all_global g x <> Some PHeld.
Proof. unfold all_global. case_decide; congruence. Qed.

Lemma ex_safe : safe (ex_world, ∅).
Proof.
  exists (all_global (g_qbuf_pool ex_world)). split; [exact (proj2 ex_init)|]. intros x. simpl. split.
  - intros H. by apply all_global_not_held in H.
  - intros H. by apply not_elem_of_empty in H.
Qed.

Lemma ex_headroom : alloc_headroom None ex_world = 64.
Proof. exact (proj1 (proj2 (proj2 (proj2 ex_facts)))). Qed.

(** messages of 10000 bytes take two blocks each *)
Lemma ex_args num : 0 < num -> num < 100 -> alloc_args 10000 num None ex_world.
Proof.
  intros H1 H2. unfold alloc_args. rewrite ex_headroom. destruct ex_facts as (_ & _ & -> & _).
  change (frag_count 8064 10000 64) with 2. unfold UMQ_HEADROOM_SIZE_LIMIT. lia.
Qed.

Lemma pool_blocks_have_one_owner_witness :
  exists w0, umq_qbuf_pool_init ex_cfg ex_raw = Some (w0, UMQ_SUCCESS) /\
    forall evs s, run (w0, ∅) evs s -> safe s.
Proof.
  destruct (pool_blocks_have_one_owner ex_cfg ex_raw eq_refl ex_cfg_ok ex_caches ex_mapped) as (w0 & E & H).
  exists w0. split; [done|]. intros evs s Hr. apply (H evs s Hr).
Defined.

Lemma umq_qbuf_alloc_correct_witness :
  exists w' first l, umq_qbuf_alloc 0 10000 2 None 0 ex_world = Some (w', UMQ_SUCCESS, first) /\
    chain (mem w') first l /\ zlen l = 4.
Proof.
  destruct ex_facts as (F1 & F2 & F3 & F4 & _).
  destruct (ex_args 2 ltac:(lia) ltac:(lia)) as (A1 & A2 & A3 & A4).
  destruct (umq_qbuf_alloc_correct 0 10000 2 None ex_world (all_global (g_qbuf_pool ex_world)) (proj2 ex_init) A1 A2 A3 A4)
    as (w' & ret & first & own' & E & _ & _ & H).
  unfold reachable_blocks in H. rewrite ex_headroom, F1, F2, F3 in H.
  destruct H as [-> (l & Hc & Hl & _)]. exists w', first, l. split; [done|]. split; [done|]. exact Hl.
Defined.

Lemma calls_are_runs_witness :
  exists w' ret first evs, umq_qbuf_alloc 0 10000 2 None 0 ex_world = Some (w', ret, first) /\
    run (ex_world, ∅) evs (w', if ret =? 0 then ∅ ∪ list_to_set (elements_of (mem w') first) else ∅).
Proof.
  destruct (calls_are_runs 0 ex_world ∅ ex_safe) as [H _]. exact (H 10000 2 None (ex_args 2 ltac:(lia) ltac:(lia))).
Defined.


Lemma data_to_head_inverts_witness :
  umq_qbuf_data_to_head (8192 + 8192 + 128 + 5000) ex_world = 16384 /\ umq_qbuf_data_to_head 100 ex_world = 0.
Proof.
  destruct (data_to_head_inverts ex_world _ (proj2 ex_init)) as [H1 H2]. split.
  - apply H1.
    + apply (bool_decide_unpack _). by vm_compute.
    + by vm_compute.
    + by vm_compute.
  - apply H2. left. by vm_compute.
Defined.
