(* ===== verification/QbufHuge.v ===== *)
(** * Pools of larger blocks (umq_huge_qbuf_pool.c)

    Three pools of middle, big and huge blocks, each one list under a mutex
    that grows by whole memory regions (up to 64) obtained from a callback
    when an allocation needs more blocks. The callback is code of the
    transport or the application: it is an argument here, its answer an
    address or a failure. *)

From S2P Require Import Prelude QbufList QbufFrag QbufPool.

Implicit Types (h : gmap Z umq_buf) (l : list Z) (p q x : Z).

Definition HUGE_QBUF_POOL_NUM_MAX : Z := 64.
Definition HUGE_QBUF_POOL_IDX_SHIFT : Z := 1.
Definition HUGE_QBUF_HEAD_POWER_OF_TWO : Z := 7.

Inductive huge_qbuf_pool_size_type := HUGE_MID | HUGE_BIG | HUGE_HUGE.
#[export] Instance huge_type_eq_dec : EqDecision huge_qbuf_pool_size_type.
Proof. solve_decision. Defined.
Definition type_index (ty : huge_qbuf_pool_size_type) : Z :=
  match ty with HUGE_MID => 0 | HUGE_BIG => 1 | HUGE_HUGE => 2 end.

Record huge_pool_info := { hi_data_buffer : Z; hi_header_buffer : Z; hi_imported : bool }.

Record huge_pool := {
  hp_inited : bool;
  hp_total_size : Z;
  hp_block_size : Z;
  hp_data_size : Z;
  hp_total_block_num : Z;
  hp_pool_idx : Z;
  hp_pool_idx_shift : Z;
  hp_block_pool : block_pool;
  hp_pool_info : list huge_pool_info   (* HUGE_QBUF_POOL_NUM_MAX entries *)
}.

Record huge_pool_ctx := {
  hc_inited : bool;
  hc_headroom_size : Z;
  hc_mode : umq_buf_mode;
  hc_mid : huge_pool;
  hc_big : huge_pool;
  hc_huge : huge_pool
}.

Record huge_qbuf_pool_cfg := {
  hcfg_total_size : Z;
  hcfg_headroom_size : Z;
  hcfg_mode : umq_buf_mode;
  hcfg_type : huge_qbuf_pool_size_type
}.

Definition get_pool (ty : huge_qbuf_pool_size_type) (c : huge_pool_ctx) : huge_pool :=
  match ty with HUGE_MID => hc_mid c | HUGE_BIG => hc_big c | HUGE_HUGE => hc_huge c end.
Definition put_pool (ty : huge_qbuf_pool_size_type) (hp : huge_pool) (c : huge_pool_ctx) : huge_pool_ctx :=
  {| hc_inited := hc_inited c; hc_headroom_size := hc_headroom_size c; hc_mode := hc_mode c;
     hc_mid := match ty with HUGE_MID => hp | _ => hc_mid c end;
     hc_big := match ty with HUGE_BIG => hp | _ => hc_big c end;
     hc_huge := match ty with HUGE_HUGE => hp | _ => hc_huge c end |}.
Definition set_blocks (bp : block_pool) (hp : huge_pool) : huge_pool :=
  {| hp_inited := hp_inited hp; hp_total_size := hp_total_size hp; hp_block_size := hp_block_size hp;
     hp_data_size := hp_data_size hp; hp_total_block_num := hp_total_block_num hp; hp_pool_idx := hp_pool_idx hp;
     hp_pool_idx_shift := hp_pool_idx_shift hp; hp_block_pool := bp; hp_pool_info := hp_pool_info hp |}.
Definition set_info (idx : Z) (info : list huge_pool_info) (hp : huge_pool) : huge_pool :=
  {| hp_inited := hp_inited hp; hp_total_size := hp_total_size hp; hp_block_size := hp_block_size hp;
     hp_data_size := hp_data_size hp; hp_total_block_num := hp_total_block_num hp; hp_pool_idx := idx;
     hp_pool_idx_shift := hp_pool_idx_shift hp; hp_block_pool := hp_block_pool hp; hp_pool_info := info |}.

Definition umq_huge_qbuf_get_type_by_size (pow buf_size : Z) : huge_qbuf_pool_size_type :=
  if buf_size <? umq_buf_size_big pow then HUGE_MID
  else if buf_size <? umq_buf_size_huge pow then HUGE_BIG
  else HUGE_HUGE.

Definition umq_huge_qbuf_get_size_by_type (pow : Z) (ty : huge_qbuf_pool_size_type) : Z :=
  match ty with
  | HUGE_MID => umq_buf_size_middle pow
  | HUGE_BIG => umq_buf_size_big pow
  | HUGE_HUGE => umq_buf_size_huge pow
  end.

Definition umq_huge_qbuf_get_type_by_mempool_id (mempool_id : Z) : huge_qbuf_pool_size_type :=
  let mid_big := HUGE_QBUF_POOL_IDX_SHIFT + HUGE_QBUF_POOL_NUM_MAX in
  let big_huge := HUGE_QBUF_POOL_IDX_SHIFT + Z.shiftl HUGE_QBUF_POOL_NUM_MAX 1 in
  if mempool_id <? mid_big then HUGE_MID else if mempool_id <? big_huge then HUGE_BIG else HUGE_HUGE.

(** umq_huge_qbuf_config_init: the tests of NULL callbacks are left to the caller's types *)
Definition umq_huge_qbuf_config_init (pow : Z) (cfg : huge_qbuf_pool_cfg) (c : huge_pool_ctx) : huge_pool_ctx * Z :=
  if decide (hcfg_mode cfg = UMQ_BUF_OTHER) then (c, - UMQ_ERR_EINVAL)
  else
    let ty := hcfg_type cfg in
    let hp := get_pool ty c in
    if hp_inited hp then (c, - UMQ_ERR_EEXIST)
    else
      let blk := umq_huge_qbuf_get_size_by_type pow ty in
      let num := if decide (hcfg_mode cfg = UMQ_BUF_SPLIT)
        then hcfg_total_size cfg / u32 (SIZEOF_UMQ_BUF + blk) else hcfg_total_size cfg / blk in
      (put_pool ty
        {| hp_inited := true; hp_total_size := hcfg_total_size cfg; hp_block_size := blk; hp_data_size := blk;
           hp_total_block_num := num; hp_pool_idx := 0;
           hp_pool_idx_shift := HUGE_QBUF_POOL_IDX_SHIFT + type_index ty * HUGE_QBUF_POOL_NUM_MAX;
           hp_block_pool := umq_qbuf_block_pool_init; hp_pool_info := hp_pool_info hp |} c, UMQ_SUCCESS).

Definition umq_huge_qbuf_pool_ctx_common_cfg_set (cfg : huge_qbuf_pool_cfg) (c : huge_pool_ctx) : huge_pool_ctx :=
  {| hc_inited := true; hc_headroom_size := hcfg_headroom_size cfg; hc_mode := hcfg_mode cfg;
     hc_mid := hc_mid c; hc_big := hc_big c; hc_huge := hc_huge c |}.

Definition umq_huge_qbuf_config_uninit (ty : huge_qbuf_pool_size_type) (c : huge_pool_ctx) : huge_pool_ctx :=
  let hp := get_pool ty c in
  put_pool ty {| hp_inited := false; hp_total_size := hp_total_size hp; hp_block_size := hp_block_size hp;
     hp_data_size := hp_data_size hp; hp_total_block_num := hp_total_block_num hp; hp_pool_idx := hp_pool_idx hp;
     hp_pool_idx_shift := hp_pool_idx_shift hp; hp_block_pool := hp_block_pool hp; hp_pool_info := hp_pool_info hp |} c.

(** ** Growing a pool *)

Definition huge_header (size data mempool_id addr : Z) (b : umq_buf) : umq_buf :=
  {| qbuf_next := qbuf_next b; umqh := UMQ_INVALID_HANDLE; total_data_size := data; buf_size := size;
     data_size := data; headroom_size := 0; first_fragment := first_fragment b;
     token_id := token_id b; mempool_id := mempool_id; buf_data := addr; qbuf_ext := replicate 8 0 |}.

(** The result is the memory, the pool and the return value. *)
Definition umq_huge_qbuf_pool_init (mode : umq_buf_mode) (callback : Z -> huge_qbuf_pool_size_type -> option Z)
    (ty : huge_qbuf_pool_size_type) h (pool : huge_pool) : option (heap * huge_pool * Z) :=
  let mempool_id := u8 (hp_pool_idx pool + hp_pool_idx_shift pool) in
  if hp_pool_idx pool >=? HUGE_QBUF_POOL_NUM_MAX then Some (h, pool, - UMQ_ERR_EINVAL)
  else match callback mempool_id ty with
  | None => Some (h, pool, - UMQ_ERR_ENOMEM)
  | Some buf_addr =>
    let num := hp_total_block_num pool in
    let blk := hp_block_size pool in
    let first := head_with_data (hp_block_pool pool) in
    let finish h first hdr :=
      old ← zget (hp_pool_info pool) (hp_pool_idx pool);
      info ← zset (hp_pool_info pool) (hp_pool_idx pool)
         {| hi_data_buffer := buf_addr; hi_header_buffer := hdr; hi_imported := hi_imported old |};
      let cnt := u64 (buf_cnt_with_data (hp_block_pool pool) + num) in
      Some (h, set_info (u32 (hp_pool_idx pool + 1)) info
                 (set_blocks (set_pool true first cnt (hp_block_pool pool)) pool), UMQ_SUCCESS) in
    match mode with
    | UMQ_BUF_SPLIT =>
      let hdr := u64 (buf_addr + num * blk) in
      '(h, first) ← init_blocks (Z.to_nat num) 0 (fun i => id_to_buf_with_data_split hdr (u32 i))
         (fun i => huge_header (u32 (blk + SIZEOF_UMQ_BUF)) blk mempool_id (u64 (buf_addr + i * blk))) h first;
      finish h first hdr
    | UMQ_BUF_COMBINE =>
      '(h, first) ← init_blocks (Z.to_nat num) 0 (fun i => id_to_buf_combine buf_addr (u32 i) blk)
         (fun i => huge_header blk (u32 (blk - SIZEOF_UMQ_BUF)) mempool_id
            (u64 (id_to_buf_combine buf_addr (u32 i) blk + SIZEOF_UMQ_BUF))) h first;
      finish h first 0
    | UMQ_BUF_OTHER => Some (h, set_info (u32 (hp_pool_idx pool + 1)) (hp_pool_info pool) pool, UMQ_SUCCESS)
    end
  end.

(** [while (buf_cnt_with_data < need)]: every round uses up one of the 64 regions *)
Fixpoint grow_loop (fuel : nat) (mode : umq_buf_mode) (callback : Z -> huge_qbuf_pool_size_type -> option Z)
    (ty : huge_qbuf_pool_size_type) (need : Z) h (pool : huge_pool) : option (heap * huge_pool * bool) :=
  match fuel with
  | O => None
  | S fuel =>
    if buf_cnt_with_data (hp_block_pool pool) <? need then
      '(h, pool, r) ← umq_huge_qbuf_pool_init mode callback ty h pool;
      if r =? UMQ_SUCCESS then grow_loop fuel mode callback ty need h pool else Some (h, pool, false)
    else Some (h, pool, true)
  end.
Definition grow_fuel : nat := 66.

(** ** Allocation and release *)

(** The loop keeps the region of the last header and looks it up again only
    when the header belongs to another one. *)
Definition huge_split_body (pool : huge_pool) (request_size num headroom : Z)
    h (cur_node : Z) (s : frag * Z * (Z * huge_pool_info)) :
    option (heap * (frag * Z * (Z * huge_pool_info)) * bool) :=
  let '(fr, cnt, (last_mempool_id, pool_info)) := s in
  b ← h !! cur_node;
  info ← (if last_mempool_id =? mempool_id b then Some pool_info
          else zget (hp_pool_info pool) (u32 (mempool_id b - hp_pool_idx_shift pool)));
  let index := Z.shiftr (u64 (cur_node - hi_header_buffer info)) HUGE_QBUF_HEAD_POWER_OF_TWO in
  let data := u64 (hi_data_buffer info + u64 (index * hp_block_size pool) + fr_headroom fr) in
  let h := <[cur_node := set_fragment data (u32 (hp_block_size pool + SIZEOF_UMQ_BUF)) fr b]> h in
  let cnt := u32 (cnt + 1) in
  Some (h, (frag_next (hp_block_size pool) request_size headroom fr, cnt, (mempool_id b, info)), cnt =? num).

Definition no_info : huge_pool_info := {| hi_data_buffer := 0; hi_header_buffer := 0; hi_imported := false |}.

Definition umq_huge_qbuf_alloc_data_with_split h (pool : huge_pool) (request_size num list headroom : Z) :
    option (heap * huge_pool * Z) :=
  let bp := hp_block_pool pool in
  '(h, _, cur_node) ← for_each (list_fuel h) (huge_split_body pool request_size num headroom) h (head_with_data bp)
     (frag_init (hp_block_size pool) request_size headroom, 0, (UINT32_MAX, no_info));
  rest ← QBUF_LIST_NEXT h cur_node;
  h ← set_list_next h cur_node list;
  Some (h, set_blocks (set_pool true rest (u64 (buf_cnt_with_data bp - num)) bp) pool, head_with_data bp).

Definition umq_huge_qbuf_alloc_data_with_combine h (pool : huge_pool) (request_size num list headroom : Z) :
    option (heap * huge_pool * Z) :=
  let bp := hp_block_pool pool in
  '(h, rest) ← alloc_data place_combine (hp_block_size pool) (u32 (hp_block_size pool - SIZEOF_UMQ_BUF))
     h (head_with_data bp) request_size num list headroom;
  Some (h, set_blocks (set_pool true rest (u64 (buf_cnt_with_data bp - num)) bp) pool, head_with_data bp).

(** the sum of the request and the headroom is 32 bits wide, the rest 64 *)
Definition huge_buf_count (pow : Z) (mode : umq_buf_mode) (ty : huge_qbuf_pool_size_type)
    (request_size num headroom : Z) : Z :=
  let size := umq_huge_qbuf_get_size_by_type pow ty in
  let align_size := if decide (mode = UMQ_BUF_SPLIT) then size else u64 (size - SIZEOF_UMQ_BUF) in
  u32 (num * (u64 (u32 (request_size + headroom) + align_size - 1) / align_size)).

Definition umq_huge_qbuf_alloc (pow : Z) (callback : Z -> huge_qbuf_pool_size_type -> option Z)
    (ty : huge_qbuf_pool_size_type) (request_size num : Z) (opt : option Z) (list : Z) h (c : huge_pool_ctx) :
    option (heap * huge_pool_ctx * Z * Z) :=
  if negb (hc_inited c) then Some (h, c, - UMQ_ERR_ENOMEM, list)
  else
    let headroom := default (hc_headroom_size c) opt in
    let count := huge_buf_count pow (hc_mode c) ty request_size num headroom in
    '(h, pool, ok) ← grow_loop grow_fuel (hc_mode c) callback ty count h (get_pool ty c);
    if negb ok then Some (h, put_pool ty pool c, - UMQ_ERR_ENOMEM, list)
    else
      '(h, pool, first) ←
        (if decide (hc_mode c = UMQ_BUF_SPLIT)
         then umq_huge_qbuf_alloc_data_with_split h pool request_size count list headroom
         else umq_huge_qbuf_alloc_data_with_combine h pool request_size count list headroom);
      Some (h, put_pool ty pool c, UMQ_SUCCESS, first).

Definition umq_huge_qbuf_free h (list : Z) (c : huge_pool_ctx) : option (heap * huge_pool_ctx) :=
  if negb (hc_inited c) then Some (h, c)
  else
    b ← h !! list;
    let ty := umq_huge_qbuf_get_type_by_mempool_id (mempool_id b) in
    let pool := get_pool ty c in
    let bp := hp_block_pool pool in
    '(h, (remove_cnt, last_node), _) ← for_each (list_fuel h) walk_body h list (0, 0);
    h ← set_list_next h last_node (head_with_data bp);
    Some (h, put_pool ty (set_blocks (set_pool true list (u64 (buf_cnt_with_data bp + remove_cnt)) bp) pool) c).

Definition umq_huge_qbuf_headroom_reset h (qbuf headroom : Z) (c : huge_pool_ctx) : option (heap * Z) :=
  b ← h !! qbuf;
  let pool := get_pool (umq_huge_qbuf_get_type_by_mempool_id (mempool_id b)) c in
  if negb (hp_inited pool) then Some (h, - UMQ_ERR_ENOMEM)
  else headroom_reset h qbuf headroom (hc_mode c) (hp_block_size pool).

(** ** Registration of the regions with a transport

    [register] and [unregister] are callbacks of the transport; the trace
    records the successful registrations and the removals. *)

Inductive seg_op := SegRegister (mempool_id : Z) | SegUnregister (mempool_id : Z).

Section register.
Context (register : Z -> Z -> Z -> Z).   (* mempool_id, address, size *)

(** the registrations of one pool from region [i] on: the trace, and the
    result with the region it failed at *)
Fixpoint register_loop (n : nat) (i : Z) (hp : huge_pool) : option (list seg_op * Z * Z) :=
  match n with
  | O => Some ([], UMQ_SUCCESS, 0)
  | S n =>
    info ← zget (hp_pool_info hp) i;
    let id := u8 (hp_pool_idx_shift hp + i) in
    let ret := register id (hi_data_buffer info) (hp_total_size hp) in
    if ret =? UMQ_SUCCESS then '(tr, ret, failed) ← register_loop n (i + 1) hp; Some (SegRegister id :: tr, ret, failed)
    else Some ([], ret, i)
  end.
Definition register_pool (hp : huge_pool) : option (list seg_op * Z * Z) :=
  register_loop (Z.to_nat (hp_pool_idx hp)) 0 hp.

(** for (i = 0; i < n; i++) unregister_seg_func *)
Definition unregister_first (n : Z) (hp : huge_pool) : list seg_op :=
  (fun i => SegUnregister (u8 (hp_pool_idx_shift hp + i))) <$> seqZ 0 n.

Definition umq_huge_qbuf_register_seg (c : huge_pool_ctx) : option (list seg_op * Z) :=
  '(t1, ret, failed_idx) ← register_pool (hc_mid c);
  if negb (ret =? UMQ_SUCCESS) then Some (t1 ++ unregister_first failed_idx (hc_mid c), ret)
  else
    '(t2, ret, failed_idx) ← register_pool (hc_big c);
    if negb (ret =? UMQ_SUCCESS) then
      Some (t1 ++ t2 ++ unregister_first failed_idx (hc_big c) ++
            unregister_first (hp_pool_idx (hc_mid c)) (hc_mid c), ret)
    else
      '(t3, ret, failed_idx) ← register_pool (hc_huge c);
      if negb (ret =? UMQ_SUCCESS) then
        Some (t1 ++ t2 ++ t3 ++ unregister_first failed_idx (hc_huge c) ++
              unregister_first (hp_pool_idx (hc_big c)) (hc_big c) ++
              unregister_first (hp_pool_idx (hc_mid c)) (hc_mid c), ret)
      else Some (t1 ++ t2 ++ t3, UMQ_SUCCESS).
End register.

Definition umq_huge_qbuf_unregister_seg (c : huge_pool_ctx) : list seg_op :=
  unregister_first (hp_pool_idx (hc_mid c)) (hc_mid c) ++
  unregister_first (hp_pool_idx (hc_big c)) (hc_big c) ++
  unregister_first (hp_pool_idx (hc_huge c)) (hc_huge c).

(** Closing all pools: the trace lists what memory_uninit_callback is given. *)
Definition close_pool (ty : huge_qbuf_pool_size_type) (c : huge_pool_ctx) : huge_pool_ctx * list (Z * Z) :=
  let hp := get_pool ty c in
  let n := Z.to_nat (hp_pool_idx hp) in
  let given := imap (fun j info => (u8 (hp_pool_idx_shift hp + Z.of_nat j), hi_data_buffer info)) (take n (hp_pool_info hp)) in
  let cleared := replicate n no_info ++ drop n (hp_pool_info hp) in
  (umq_huge_qbuf_config_uninit ty (put_pool ty (set_info (hp_pool_idx hp) cleared hp) c), given).

Definition umq_huge_qbuf_pool_uninit (c : huge_pool_ctx) : huge_pool_ctx * list (Z * Z) :=
  if negb (hc_inited c) then (c, [])
  else
    let '(c, t1) := close_pool HUGE_MID c in
    let '(c, t2) := close_pool HUGE_BIG c in
    let '(c, t3) := close_pool HUGE_HUGE c in
    ({| hc_inited := false; hc_headroom_size := hc_headroom_size c; hc_mode := hc_mode c;
        hc_mid := hc_mid c; hc_big := hc_big c; hc_huge := hc_huge c |}, t1 ++ t2 ++ t3).

(** ** Registration is all or nothing *)

Definition apply_op (op : seg_op) (ids : gset Z) : gset Z :=
  match op with SegRegister id => {[id]} ∪ ids | SegUnregister id => ids ∖ {[id]} end.
Definition apply_ops (tr : list seg_op) (ids : gset Z) : gset Z := foldl (fun s op => apply_op op s) ids tr.

Definition pool_ids (hp : huge_pool) (n : Z) : list Z := (fun i => u8 (hp_pool_idx_shift hp + i)) <$> seqZ 0 n.

Lemma apply_ops_app t1 t2 ids : apply_ops (t1 ++ t2) ids = apply_ops t2 (apply_ops t1 ids).
Proof. unfold apply_ops. apply foldl_app. Qed.

Lemma apply_unregister hp n ids : apply_ops (unregister_first n hp) ids = ids ∖ list_to_set (pool_ids hp n).
Proof.
  unfold unregister_first, pool_ids, apply_ops. revert ids. induction (seqZ 0 n) as [|i js IH]; intros ids; simpl; [set_solver|].
  rewrite IH. set_solver.
Qed.

(** What the loop over one pool registers: everything, or the regions before the failing one. *)
Lemma register_loop_spec register n i hp ids :
  zlen (hp_pool_info hp) = HUGE_QBUF_POOL_NUM_MAX -> 0 <= i -> i + Z.of_nat n <= HUGE_QBUF_POOL_NUM_MAX ->
  exists tr ret failed, register_loop register n i hp = Some (tr, ret, failed) /\
    if ret =? UMQ_SUCCESS then
      apply_ops tr ids = ids ∪ list_to_set ((fun j => u8 (hp_pool_idx_shift hp + j)) <$> seqZ i (Z.of_nat n))
    else i <= failed < i + Z.of_nat n /\
      apply_ops tr ids = ids ∪ list_to_set ((fun j => u8 (hp_pool_idx_shift hp + j)) <$> seqZ i (failed - i)).
Proof.
  intros Hlen. revert i ids. induction n as [|n IH]; intros i ids Hi Hn; cbn [register_loop].
  { exists [], UMQ_SUCCESS, 0. split; [done|]. simpl. unfold apply_ops. simpl. set_solver. }
  destruct (zget_in_range (hp_pool_info hp) i ltac:(lia)) as [info ->]. cbn [mbind option_bind].
  set (id := u8 (hp_pool_idx_shift hp + i)).
  destruct (register id (hi_data_buffer info) (hp_total_size hp) =? UMQ_SUCCESS) eqn:E; cycle 1.
  { eexists _, _, _. split; [done|]. rewrite E. split; [lia|]. replace (i - i) with 0 by lia. unfold apply_ops. simpl. set_solver. }
  destruct (IH (i + 1) ({[id]} ∪ ids)) as (tr & ret & failed & E2 & H); [lia|lia|]. rewrite E2. cbn [mbind option_bind].
  eexists _, _, _. split; [done|]. unfold apply_ops in *. cbn [foldl apply_op]. destruct (ret =? UMQ_SUCCESS).
  - rewrite H. rewrite (seqZ_cons i) by lia. replace (Z.pred (Z.of_nat (S n))) with (Z.of_nat n) by lia.
    rewrite fmap_cons. fold id. simpl. unfold Z.succ. set_solver.
  - destruct H as [Hf H]. split; [lia|]. rewrite H. rewrite (seqZ_cons i) by lia.
    replace (Z.pred (failed - i)) with (failed - (i + 1)) by lia. rewrite fmap_cons. fold id. simpl. unfold Z.succ. set_solver.
Qed.

Lemma register_pool_spec register hp ids :
  zlen (hp_pool_info hp) = HUGE_QBUF_POOL_NUM_MAX -> 0 <= hp_pool_idx hp <= HUGE_QBUF_POOL_NUM_MAX ->
  exists tr ret failed, register_pool register hp = Some (tr, ret, failed) /\
    apply_ops tr ids = ids ∪ list_to_set (pool_ids hp (if ret =? UMQ_SUCCESS then hp_pool_idx hp else failed)).
Proof.
  intros Hlen Hi. unfold register_pool.
  destruct (register_loop_spec register (Z.to_nat (hp_pool_idx hp)) 0 hp ids Hlen) as (tr & ret & failed & E & H); [lia|lia|].
  exists tr, ret, failed. split; [done|]. unfold pool_ids. rewrite Z2Nat.id in H by lia.
  destruct (ret =? UMQ_SUCCESS); [done|]. destruct H as [_ H]. by rewrite Z.sub_0_r in H.
Qed.

Definition pools_ok (c : huge_pool_ctx) : Prop :=
  forall ty, zlen (hp_pool_info (get_pool ty c)) = HUGE_QBUF_POOL_NUM_MAX /\
    0 <= hp_pool_idx (get_pool ty c) <= HUGE_QBUF_POOL_NUM_MAX.

Definition all_ids (c : huge_pool_ctx) : gset Z :=
  list_to_set (pool_ids (hc_mid c) (hp_pool_idx (hc_mid c))) ∪
  list_to_set (pool_ids (hc_big c) (hp_pool_idx (hc_big c))) ∪
  list_to_set (pool_ids (hc_huge c) (hp_pool_idx (hc_huge c))).

(** Whatever the transport answers, registering the regions of the three
    pools registers all of them, or fails and leaves none registered; and
    unregistering removes all of them. *)
Theorem register_seg_all_or_nothing register c :
  pools_ok c ->
  exists tr ret, umq_huge_qbuf_register_seg register c = Some (tr, ret) /\
    apply_ops tr ∅ = (if ret =? UMQ_SUCCESS then all_ids c else ∅) /\
    apply_ops (umq_huge_qbuf_unregister_seg c) (all_ids c) = ∅.
Proof.
  intros Hok. destruct (Hok HUGE_MID) as [L1 I1]. destruct (Hok HUGE_BIG) as [L2 I2]. destruct (Hok HUGE_HUGE) as [L3 I3].
  simpl in *. unfold umq_huge_qbuf_register_seg.
  assert (Hun : apply_ops (umq_huge_qbuf_unregister_seg c) (all_ids c) = ∅).
  { unfold umq_huge_qbuf_unregister_seg, all_ids. rewrite !apply_ops_app, !apply_unregister. set_solver. }
  destruct (register_pool_spec register _ ∅ L1 I1) as (t1 & r1 & f1 & E1 & H1). rewrite E1. cbn [mbind option_bind].
  destruct (r1 =? UMQ_SUCCESS) eqn:R1; cbn [negb]; cycle 1.
  { eexists _, _. split; [done|]. rewrite R1, apply_ops_app, apply_unregister, H1. split; [set_solver|done]. }
  destruct (register_pool_spec register _ (apply_ops t1 ∅) L2 I2) as (t2 & r2 & f2 & E2 & H2). rewrite E2. cbn [mbind option_bind].
  destruct (r2 =? UMQ_SUCCESS) eqn:R2; cbn [negb]; cycle 1.
  { eexists _, _. split; [done|]. rewrite R2, !apply_ops_app, !apply_unregister, H2, H1. split; [set_solver|done]. }
  destruct (register_pool_spec register _ (apply_ops t2 (apply_ops t1 ∅)) L3 I3) as (t3 & r3 & f3 & E3 & H3).
  rewrite E3. cbn [mbind option_bind]. destruct (r3 =? UMQ_SUCCESS) eqn:R3; cbn [negb]; cycle 1.
  { eexists _, _. split; [done|]. rewrite R3, !apply_ops_app, !apply_unregister, H3, H2, H1. split; [set_solver|done]. }
  eexists _, _. split; [done|]. rewrite !apply_ops_app, H3, H2, H1. unfold all_ids. simpl. split; [set_solver|done].
Qed.

(** ** The cached lookup of the regions is the plain one *)

Definition place_huge (pool : huge_pool) (x : Z) (b : umq_buf) (headroom : Z) : Z :=
  match zget (hp_pool_info pool) (u32 (mempool_id b - hp_pool_idx_shift pool)) with
  | Some info =>
    let index := Z.shiftr (u64 (x - hi_header_buffer info)) HUGE_QBUF_HEAD_POWER_OF_TWO in
    u64 (hi_data_buffer info + u64 (index * hp_block_size pool) + headroom)
  | None => 0
  end.

(** a header whose identifier names a region of the pool *)
Definition known_region (pool : huge_pool) h x : Prop :=
  exists b info, h !! x = Some b /\ 0 <= mempool_id b < 256 /\
    zget (hp_pool_info pool) (u32 (mempool_id b - hp_pool_idx_shift pool)) = Some info.

Lemma huge_split_simulates pool request num headroom fuel l h p fr cnt last info r :
  let size := u32 (hp_block_size pool + SIZEOF_UMQ_BUF) in
  chain h p l -> NoDup l -> (forall x, x ∈ l -> known_region pool h x) ->
  (last = UINT32_MAX \/ zget (hp_pool_info pool) (u32 (last - hp_pool_idx_shift pool)) = Some info) ->
  for_each fuel (alloc_body (place_huge pool) size (hp_block_size pool) request num headroom) h p (fr, cnt) = Some r ->
  exists c, for_each fuel (huge_split_body pool request num headroom) h p (fr, cnt, (last, info)) = Some (r.1.1, (r.1.2, c), r.2).
Proof.
  intros size. revert l h p fr cnt last info. induction fuel as [|fuel IH]; intros l h p fr cnt last info Hc Hnd Hk Hlast; [done|].
  destruct l as [|x l]; simpl in Hc; cbn [for_each].
  { subst p. intros [= <-]. simpl. eauto. }
  destruct Hc as (-> & Hx & b & Hb & Hc). rewrite (proj2 (Z.eqb_neq x 0)) by done.
  apply NoDup_cons in Hnd as [Hxl Hnd].
  destruct (Hk x) as (b0 & inf & Hb0 & Hid & Hinf); [left|]. rewrite Hb in Hb0. injection Hb0 as <-.
  assert (Hcache : (if last =? mempool_id b then Some info
            else zget (hp_pool_info pool) (u32 (mempool_id b - hp_pool_idx_shift pool))) = Some inf).
  { case_match eqn:E; breflect; [|done]. destruct Hlast as [->|Hl]; [unfold UINT32_MAX in *; lia|].
    rewrite E, Hinf in Hl. done. }
  set (b1 := set_fragment (place_huge pool x b (fr_headroom fr)) size fr b).
  set (fr' := frag_next (hp_block_size pool) request headroom fr).
  assert (A1 : alloc_body (place_huge pool) size (hp_block_size pool) request num headroom h x (fr, cnt) =
    Some (<[x := b1]> h, (fr', u32 (cnt + 1)), u32 (cnt + 1) =? num)) by (unfold alloc_body, write; by rewrite Hb).
  assert (A2 : huge_split_body pool request num headroom h x (fr, cnt, (last, info)) =
    Some (<[x := b1]> h, (fr', u32 (cnt + 1), (mempool_id b, inf)), u32 (cnt + 1) =? num)).
  { unfold huge_split_body. rewrite Hb. cbn [mbind option_bind]. rewrite Hcache. cbn [mbind option_bind].
    unfold b1, place_huge. by rewrite Hinf. }
  rewrite A1, A2. cbn [mbind option_bind].
  destruct (u32 (cnt + 1) =? num).
  - intros [= <-]. simpl. eauto.
  - assert (Hn : QBUF_LIST_NEXT (<[x := b1]> h) x = Some (qbuf_next b)) by (unfold QBUF_LIST_NEXT; by rewrite lookup_insert_eq).
    rewrite Hn. cbn [mbind option_bind].
    intros E.
    assert (Hout : forall y, y ∈ l -> <[x := b1]> h !! y = h !! y) by (intros y Hy; apply lookup_insert_ne; by intros ->).
    eapply (IH l); [| | | |exact E].
    + eapply lseg_frame; [exact Hc|]. intros y Hy. unfold QBUF_LIST_NEXT. by rewrite Hout.
    + done.
    + intros y Hy. destruct (Hk y) as (by' & i & ? & ? & ?); [by right|]. exists by', i. by rewrite Hout.
    + right. by rewrite Hinf.
Qed.

(** Both modes allocate as [alloc_data] does. *)
Lemma huge_alloc_split_eq h pool l request num headroom h' rest :
  let bp := hp_block_pool pool in
  chain h (head_with_data bp) l -> NoDup l -> (forall x, x ∈ l -> known_region pool h x) ->
  alloc_data (place_huge pool) (u32 (hp_block_size pool + SIZEOF_UMQ_BUF)) (hp_block_size pool) h (head_with_data bp)
    request num 0 headroom = Some (h', rest) ->
  umq_huge_qbuf_alloc_data_with_split h pool request num 0 headroom =
    Some (h', set_blocks (set_pool true rest (u64 (buf_cnt_with_data bp - num)) bp) pool, head_with_data bp).
Proof.
  intros bp Hc Hnd Hk. unfold alloc_data, umq_huge_qbuf_alloc_data_with_split.
  destruct (for_each _ (alloc_body _ _ _ _ _ _) _ _ _) as [[[h1 s1] cur]|] eqn:E; [|done]. cbn [mbind option_bind].
  destruct (huge_split_simulates pool request num headroom (list_fuel h) l h (head_with_data bp)
    (frag_init (hp_block_size pool) request headroom) 0 UINT32_MAX no_info _ Hc Hnd Hk ltac:(by left) E) as [c E'].
  fold bp. rewrite E'. cbn [mbind option_bind fst snd]. destruct (QBUF_LIST_NEXT h1 cur) as [r|]; [|done]. cbn [mbind option_bind].
  destruct (set_list_next h1 cur 0) as [h2|]; [|done]. cbn [mbind option_bind]. by intros [= <- <-].
Qed.
