(* ===== verification/QbufHugeInv.v ===== *)
(** * Growing and allocating from the pools of larger blocks

    The invariant of one pool: its list and the blocks the application holds
    are together exactly the blocks of the regions obtained so far. Growing
    adds the blocks of one region; an allocation grows as far as it needs and
    hands out blocks laid out like those of the small pool. *)

From S2P Require Import Prelude QbufList QbufFrag QbufPool QbufOwn QbufSystem QbufHuge.

Implicit Types (h : gmap Z umq_buf) (l held : list Z) (p q x : Z) (hp : huge_pool).

Lemma join_single (f : Z -> list Z) a : mjoin (f <$> seqZ a 1) = f a.
Proof. unfold seqZ. simpl. rewrite app_nil_r. f_equal. Qed.

Section huge.
Context (mode : umq_buf_mode) (ty : huge_qbuf_pool_size_type).
Context (callback : Z -> huge_qbuf_pool_size_type -> option Z).

Definition huge_max hp : Z :=
  if decide (mode = UMQ_BUF_SPLIT) then hp_block_size hp else hp_block_size hp - SIZEOF_UMQ_BUF.

(** block [i] of the region at [a]: its header and its data *)
Definition region_header hp (a i : Z) : Z :=
  if decide (mode = UMQ_BUF_SPLIT) then a + hp_total_block_num hp * hp_block_size hp + i * SIZEOF_UMQ_BUF
  else a + i * hp_block_size hp.
Definition region_data hp (a i : Z) : Z :=
  if decide (mode = UMQ_BUF_SPLIT) then a + i * hp_block_size hp else a + i * hp_block_size hp + SIZEOF_UMQ_BUF.
Definition region_headers hp (a : Z) : list Z := region_header hp a <$> seqZ 0 (hp_total_block_num hp).

Definition region_span hp : Z :=
  hp_total_block_num hp * (if decide (mode = UMQ_BUF_SPLIT) then hp_block_size hp + SIZEOF_UMQ_BUF else hp_block_size hp).

(** the address of region [j]: recorded, or what the callback will answer *)
Definition region_at hp (j : Z) : option Z :=
  if j <? hp_pool_idx hp then hi_data_buffer <$> zget (hp_pool_info hp) j
  else callback (u8 (j + hp_pool_idx_shift hp)) ty.
Definition headers_at hp (j : Z) : list Z := match region_at hp j with Some a => region_headers hp a | None => [] end.

Definition pool_headers hp : list Z := mjoin (headers_at hp <$> seqZ 0 (hp_pool_idx hp)).

(** The regions of the callback, also those not yet obtained, are mapped, lie
    below 2^64 and do not overlap. *)
Record huge_inv h hp held : Prop := {
  hv_mode : mode <> UMQ_BUF_OTHER;
  hv_idx : 0 <= hp_pool_idx hp <= HUGE_QBUF_POOL_NUM_MAX;
  hv_len : zlen (hp_pool_info hp) = HUGE_QBUF_POOL_NUM_MAX;
  hv_shift : hp_pool_idx_shift hp = HUGE_QBUF_POOL_IDX_SHIFT + type_index ty * HUGE_QBUF_POOL_NUM_MAX;
  hv_block : 2 ^ 13 <= hp_block_size hp <= 2 ^ 24;
  hv_num : 0 <= hp_total_block_num hp /\ hp_total_block_num hp * 64 < 2 ^ 31;
  hv_combine : mode = UMQ_BUF_COMBINE -> hp_total_block_num hp * hp_block_size hp <= 2 ^ 32;
  hv_region : forall j a, 0 <= j < HUGE_QBUF_POOL_NUM_MAX -> region_at hp j = Some a ->
    0 < a /\ a + hp_total_block_num hp * (hp_block_size hp + SIZEOF_UMQ_BUF) < 2 ^ 64 /\
    forall x, x ∈ region_headers hp a -> is_Some (h !! x);
  hv_apart : forall j j' a a', 0 <= j < HUGE_QBUF_POOL_NUM_MAX -> 0 <= j' < HUGE_QBUF_POOL_NUM_MAX -> j <> j' ->
    region_at hp j = Some a -> region_at hp j' = Some a' -> a + region_span hp <= a' \/ a' + region_span hp <= a;
  hv_info : forall j, 0 <= j < hp_pool_idx hp -> exists info, zget (hp_pool_info hp) j = Some info /\
    (mode = UMQ_BUF_SPLIT -> hi_header_buffer info = hi_data_buffer info + hp_total_block_num hp * hp_block_size hp);
  hv_list : exists l, pool_rep true h (hp_block_pool hp) l /\ l ++ held ≡ₚ pool_headers hp;
  hv_ids : forall j x, 0 <= j < hp_pool_idx hp -> x ∈ headers_at hp j ->
    exists b, h !! x = Some b /\ mempool_id b = j + hp_pool_idx_shift hp
}.

Lemma huge_max_range h hp held : huge_inv h hp held -> 2 ^ 13 - 128 <= huge_max hp <= 2 ^ 24.
Proof using Type*. intros HV. pose proof (hv_block _ _ _ HV). unfold huge_max, SIZEOF_UMQ_BUF. case_decide; lia. Qed.

Lemma shift_range h hp held : huge_inv h hp held -> 1 <= hp_pool_idx_shift hp <= 129.
Proof using Type*.
  intros HV. rewrite (hv_shift _ _ _ HV). unfold HUGE_QBUF_POOL_IDX_SHIFT, HUGE_QBUF_POOL_NUM_MAX, type_index. destruct ty; lia.
Qed.

Lemma region_header_inj h hp held a i j : huge_inv h hp held -> region_header hp a i = region_header hp a j -> i = j.
Proof using Type*.
  intros HV. pose proof (hv_block _ _ _ HV). unfold region_header, SIZEOF_UMQ_BUF. case_decide; [lia|]. nia.
Qed.

Lemma elem_of_region hp a x : x ∈ region_headers hp a <-> exists i, 0 <= i < hp_total_block_num hp /\ x = region_header hp a i.
Proof using Type*.
  unfold region_headers. rewrite list_elem_of_fmap. split.
  - intros (i & -> & Hi%elem_of_seqZ). exists i. split; [lia|done].
  - intros (i & Hi & ->). exists i. split; [done|]. apply elem_of_seqZ. lia.
Qed.

Lemma region_header_range h hp held a i :
  huge_inv h hp held -> 0 <= i < hp_total_block_num hp -> a <= region_header hp a i < a + region_span hp.
Proof using Type*.
  intros HV Hi. pose proof (hv_block _ _ _ HV). unfold region_header, region_span, SIZEOF_UMQ_BUF. case_decide; nia.
Qed.

Lemma headers_apart h hp held j j' x :
  huge_inv h hp held -> 0 <= j < HUGE_QBUF_POOL_NUM_MAX -> 0 <= j' < HUGE_QBUF_POOL_NUM_MAX ->
  x ∈ headers_at hp j -> x ∈ headers_at hp j' -> j = j'.
Proof using Type*.
  intros HV Hj Hj'. unfold headers_at. destruct (region_at hp j) as [a|] eqn:Ea; [|by intros ?%elem_of_nil].
  destruct (region_at hp j') as [a'|] eqn:Ea'; [|by intros _ ?%elem_of_nil].
  intros (i & Hi & E)%elem_of_region (i' & Hi' & E')%elem_of_region.
  pose proof (region_header_range _ _ _ a i HV Hi). pose proof (region_header_range _ _ _ a' i' HV Hi').
  destruct (decide (j = j')) as [|Hne]; [done|]. destruct (hv_apart _ _ _ HV j j' a a' Hj Hj' Hne Ea Ea'); lia.
Qed.

Lemma region_headers_NoDup h hp held a : huge_inv h hp held -> NoDup (region_headers hp a).
Proof using Type*.
  intros HV. apply NoDup_fmap_2_strong; [|apply NoDup_seqZ]. intros i j _ _. by eapply region_header_inj.
Qed.

Lemma headers_at_NoDup h hp held j : huge_inv h hp held -> NoDup (headers_at hp j).
Proof using Type*.
  intros HV. unfold headers_at. case_match; [by eapply region_headers_NoDup|apply NoDup_nil_2].
Qed.

Lemma elem_of_pool_headers hp x : 0 <= hp_pool_idx hp ->
  x ∈ pool_headers hp <-> exists j, 0 <= j < hp_pool_idx hp /\ x ∈ headers_at hp j.
Proof using Type*.
  intros Hi. unfold pool_headers. rewrite list_elem_of_join. split.
  - intros (l & Hx & (j & -> & Hj%elem_of_seqZ)%list_elem_of_fmap). exists j. split; [lia|done].
  - intros (j & Hj & Hx). exists (headers_at hp j). split; [done|]. apply list_elem_of_fmap. exists j.
    split; [done|]. apply elem_of_seqZ. lia.
Qed.

(** The blocks obtained so far are distinct. *)
Lemma pool_headers_NoDup h hp held : huge_inv h hp held -> NoDup (pool_headers hp).
Proof using Type*.
  intros HV. unfold pool_headers. pose proof (hv_idx _ _ _ HV) as Hi. unfold HUGE_QBUF_POOL_NUM_MAX in *.
  assert (Hall : forall j, j ∈ seqZ 0 (hp_pool_idx hp) -> 0 <= j < HUGE_QBUF_POOL_NUM_MAX).
  { intros j Hj%elem_of_seqZ. unfold HUGE_QBUF_POOL_NUM_MAX. lia. }
  pose proof (NoDup_seqZ 0 (hp_pool_idx hp)) as Hnd. revert Hall Hnd.
  induction (seqZ 0 (hp_pool_idx hp)) as [|j js IH]; intros Hall Hnd; simpl; [apply NoDup_nil_2|].
  apply NoDup_cons in Hnd as [Hj Hnd]. apply NoDup_app. split; [by eapply headers_at_NoDup|].
  split; [|apply IH; [set_solver|done]].
  intros x Hx. rewrite list_elem_of_join. intros (l & Hxl & (j' & -> & Hj')%list_elem_of_fmap).
  assert (j = j') as -> by (eapply headers_apart; eauto; apply Hall; set_solver). done.
Qed.

Lemma pool_headers_len h hp held : huge_inv h hp held -> zlen (pool_headers hp) < 2 ^ 31.
Proof using Type*.
  intros HV. destruct (hv_num _ _ _ HV) as [Hn1 Hn2]. pose proof (hv_idx _ _ _ HV) as Hi.
  assert (forall js, zlen (mjoin (headers_at hp <$> js)) <= zlen js * hp_total_block_num hp) as Hjs.
  { induction js as [|j js IH]; simpl; [done|]. rewrite zlen_app.
    replace (zlen (j :: js)) with (zlen js + 1) by (unfold zlen; simpl; lia).
    assert (zlen (headers_at hp j) <= hp_total_block_num hp).
    { unfold headers_at. case_match; [|done]. unfold region_headers. by rewrite zlen_seqZ. }
    change (list_fmap Z (list Z) (headers_at hp) js) with (headers_at hp <$> js). lia. }
  specialize (Hjs (seqZ 0 (hp_pool_idx hp))). unfold pool_headers.
  assert (zlen (seqZ 0 (hp_pool_idx hp)) = hp_pool_idx hp) by (unfold zlen; rewrite length_seqZ; lia).
  unfold HUGE_QBUF_POOL_NUM_MAX in *. nia.
Qed.

Definition huge_fill hp (mid a i : Z) : umq_buf -> umq_buf :=
  huge_header (if decide (mode = UMQ_BUF_SPLIT) then hp_block_size hp + SIZEOF_UMQ_BUF else hp_block_size hp)
    (huge_max hp) mid (region_data hp a i).

(** the pool with one more region *)
Definition grown hp (a first : Z) (imported : bool) : huge_pool :=
  set_info (hp_pool_idx hp + 1)
    (<[Z.to_nat (hp_pool_idx hp) := {| hi_data_buffer := a;
       hi_header_buffer := if decide (mode = UMQ_BUF_SPLIT) then a + hp_total_block_num hp * hp_block_size hp else 0;
       hi_imported := imported |}]> (hp_pool_info hp))
    (set_blocks (set_pool true first (buf_cnt_with_data (hp_block_pool hp) + hp_total_block_num hp) (hp_block_pool hp)) hp).

Lemma pool_init_eq h hp held a :
  huge_inv h hp held -> hp_pool_idx hp < HUGE_QBUF_POOL_NUM_MAX -> region_at hp (hp_pool_idx hp) = Some a ->
  exists imported, umq_huge_qbuf_pool_init mode callback ty h hp =
    '(h, first) ← init_blocks (Z.to_nat (hp_total_block_num hp)) 0 (region_header hp a)
       (huge_fill hp (hp_pool_idx hp + hp_pool_idx_shift hp) a) h (head_with_data (hp_block_pool hp));
    Some (h, grown hp a first imported, UMQ_SUCCESS).
Proof using Type*.
  intros HV Hlt Ha. pose proof (hv_idx _ _ _ HV). pose proof (shift_range _ _ _ HV). pose proof (hv_block _ _ _ HV) as Hb.
  destruct (hv_num _ _ _ HV) as [Hn1 Hn2]. destruct (hv_region _ _ _ HV (hp_pool_idx hp) a ltac:(lia) Ha) as (Ha1 & Ha2 & _).
  destruct (hv_list _ _ _ HV) as (l & [_ Hc] & Hperm). pose proof (pool_headers_len _ _ _ HV) as Hlen.
  assert (zlen l <= zlen (pool_headers hp)) by (unfold zlen; rewrite <- Hperm, length_app; lia).
  simpl in Hc. pose proof (zlen_nonneg l).
  unfold region_at in Ha. rewrite Z.ltb_irrefl in Ha.
  unfold HUGE_QBUF_POOL_NUM_MAX, SIZEOF_UMQ_BUF in *.
  destruct (zget_in_range (hp_pool_info hp) (hp_pool_idx hp)) as [old Hold].
  { rewrite (hv_len _ _ _ HV). unfold HUGE_QBUF_POOL_NUM_MAX. lia. }
  exists (hi_imported old). unfold umq_huge_qbuf_pool_init, HUGE_QBUF_POOL_NUM_MAX, SIZEOF_UMQ_BUF.
  rewrite Z.geb_leb, (proj2 (Z.leb_gt _ _)) by lia. rewrite Ha. rewrite Hold. cbn [mbind option_bind].
  assert (Hz : forall y, zset (hp_pool_info hp) (hp_pool_idx hp) y = Some (<[Z.to_nat (hp_pool_idx hp) := y]> (hp_pool_info hp))).
  { intros y. apply zset_Some. rewrite (hv_len _ _ _ HV). unfold HUGE_QBUF_POOL_NUM_MAX. split; [lia|done]. }
  assert (Hu8 : u8 (hp_pool_idx hp + hp_pool_idx_shift hp) = hp_pool_idx hp + hp_pool_idx_shift hp).
  { unfold u8. apply Z.mod_small. lia. }
  assert (Hcnt : u64 (buf_cnt_with_data (hp_block_pool hp) + hp_total_block_num hp) =
    buf_cnt_with_data (hp_block_pool hp) + hp_total_block_num hp) by (apply u64_small; lia).
  pose proof (hv_mode _ _ _ HV) as Hm. rewrite Hu8. unfold grown, huge_fill, huge_max, SIZEOF_UMQ_BUF.
  destruct mode eqn:Em; [| |done]; cbn [mbind option_bind].
  - rewrite (u64_small (a + _)) by nia.
    rewrite (init_blocks_ext _ 0 _ (region_header hp a) _ (huge_fill hp (hp_pool_idx hp + hp_pool_idx_shift hp) a)); cycle 1.
    { intros i Hi. unfold id_to_buf_with_data_split, region_header, huge_fill, huge_max, region_data, SIZEOF_UMQ_BUF. rewrite Em.
      rewrite !decide_True by done. rewrite (u32_small i), (u32_small (_ + 128)) by nia. rewrite !u64_small by nia. done. }
    unfold huge_fill, huge_max, SIZEOF_UMQ_BUF. rewrite Em.
    destruct (init_blocks _ _ _ _ _ _) as [[h1 f1]|]; [|done]. cbn [mbind option_bind]. rewrite Hz. cbn [mbind option_bind].
    rewrite Hcnt, u32_small by lia. done.
  - pose proof (hv_combine _ _ _ HV Em) as Hcomb.
    rewrite (init_blocks_ext _ 0 _ (region_header hp a) _ (huge_fill hp (hp_pool_idx hp + hp_pool_idx_shift hp) a)); cycle 1.
    { intros i Hi. unfold id_to_buf_combine, region_header, huge_fill, huge_max, region_data, SIZEOF_UMQ_BUF. rewrite Em.
      rewrite !decide_False by done. rewrite (u32_small i) by nia.
      rewrite (u32_small (i * _)), (u32_small (_ - 128)) by nia. rewrite !u64_small by nia. done. }
    unfold huge_fill, huge_max, SIZEOF_UMQ_BUF. rewrite Em.
    destruct (init_blocks _ _ _ _ _ _) as [[h1 f1]|]; [|done]. cbn [mbind option_bind]. rewrite Hz. cbn [mbind option_bind].
    rewrite Hcnt, u32_small by lia. done.
Qed.

(** the geometry of the pool and the regions stay *)
Lemma grown_region h hp held a first imported j :
  huge_inv h hp held -> hp_pool_idx hp < HUGE_QBUF_POOL_NUM_MAX -> region_at hp (hp_pool_idx hp) = Some a -> 0 <= j ->
  region_at (grown hp a first imported) j = region_at hp j.
Proof using Type*.
  intros HV Hlt Ha Hj. pose proof (hv_idx _ _ _ HV) as Hi. unfold region_at in *.
  change (hp_pool_idx (grown hp a first imported)) with (hp_pool_idx hp + 1).
  change (hp_pool_idx_shift (grown hp a first imported)) with (hp_pool_idx_shift hp).
  destruct (decide (j = hp_pool_idx hp)) as [->|Hne].
  - rewrite (proj2 (Z.ltb_lt _ _)) by lia. rewrite Z.ltb_irrefl in Ha |- *. rewrite Ha. unfold grown, zget. simpl.
    rewrite (proj2 (Z.leb_le 0 _)) by lia. rewrite list_lookup_insert_eq; [done|].
    pose proof (hv_len _ _ _ HV) as Hl. unfold zlen, HUGE_QBUF_POOL_NUM_MAX in *. lia.
  - destruct (j <? hp_pool_idx hp) eqn:E; breflect.
    + rewrite (proj2 (Z.ltb_lt _ _)) by lia. f_equal. unfold grown, zget. simpl.
      rewrite (proj2 (Z.leb_le 0 _)) by lia. apply list_lookup_insert_ne. lia.
    + by rewrite (proj2 (Z.ltb_ge _ _)) by lia.
Qed.

Lemma grow_step h hp held a :
  huge_inv h hp held -> hp_pool_idx hp < HUGE_QBUF_POOL_NUM_MAX -> region_at hp (hp_pool_idx hp) = Some a ->
  exists h' first imported, umq_huge_qbuf_pool_init mode callback ty h hp = Some (h', grown hp a first imported, UMQ_SUCCESS) /\
    huge_inv h' (grown hp a first imported) held.
Proof using Type*.
  intros HV Hlt Ha. destruct (pool_init_eq h hp held a HV Hlt Ha) as [imported E]. rewrite E.
  pose proof (hv_idx _ _ _ HV) as Hi. destruct (hv_num _ _ _ HV) as [Hn1 Hn2].
  destruct (hv_region _ _ _ HV (hp_pool_idx hp) a ltac:(lia) Ha) as (Ha1 & Ha2 & Hmap).
  destruct (hv_list _ _ _ HV) as (l & [Hc Hn] & Hperm). simpl in Hc, Hn.
  pose proof (hv_block _ _ _ HV) as Hblk.
  assert (Hhere : headers_at hp (hp_pool_idx hp) = region_headers hp a) by (unfold headers_at; by rewrite Ha).
  assert (Hnew : forall x j, x ∈ region_headers hp a -> 0 <= j < hp_pool_idx hp -> x ∉ headers_at hp j).
  { intros x j Hx Hj Hx'. rewrite <- Hhere in Hx. pose proof (headers_apart _ _ _ (hp_pool_idx hp) j x HV ltac:(lia) ltac:(lia) Hx Hx'). lia. }
  assert (Hold : forall x, x ∈ region_headers hp a -> x ∉ l).
  { intros x Hx Hxl. assert (Hp : x ∈ pool_headers hp) by (rewrite <- Hperm; set_solver).
    apply elem_of_pool_headers in Hp as (j & Hj & Hxj); [|lia]. by apply (Hnew x j). }
  destruct (init_blocks_spec (Z.to_nat (hp_total_block_num hp)) 0 (region_header hp a)
    (huge_fill hp (hp_pool_idx hp + hp_pool_idx_shift hp) a) h (head_with_data (hp_block_pool hp)) l)
    as (h' & first & E1 & C & F & D); rewrite ?Z2Nat.id in * by done.
  { done. }
  { by eapply region_headers_NoDup. }
  { intros i Hii. assert (Hx : region_header hp a i ∈ region_headers hp a) by (apply elem_of_region; exists i; split; [lia|done]).
    split_and!; [|by apply Hmap|by apply Hold]. unfold region_header, SIZEOF_UMQ_BUF. case_decide; nia. }
  rewrite E1. cbn [mbind option_bind]. fold (region_headers hp a) in C, F.
  exists h', first, imported. split; [done|]. set (hp' := grown hp a first imported).
  assert (Hreg : forall j, 0 <= j -> headers_at hp' j = headers_at hp j).
  { intros j Hj. unfold headers_at, hp'. by erewrite grown_region. }
  assert (Hmapped : forall x, is_Some (h !! x) -> is_Some (h' !! x)).
  { intros x Hx. destruct (decide (x ∈ region_headers hp a)) as [Hxr|Hxr]; [|by rewrite F].
    apply elem_of_region in Hxr as (i & Hii & ->). destruct (D i ltac:(lia)) as (b & c & _ & ->). by eexists. }
  constructor; try apply HV.
  - change (hp_pool_idx hp') with (hp_pool_idx hp + 1). lia.
  - unfold hp', grown, zlen. simpl. rewrite length_insert. apply (hv_len _ _ _ HV).
  - intros j a' Hj Ha'. unfold hp' in Ha'. erewrite grown_region in Ha' by (done || lia).
    destruct (hv_region _ _ _ HV j a' Hj Ha') as (? & ? & Hm). split_and!; [done..|]. intros x Hx. by apply Hmapped, Hm.
  - intros j j' b b' Hj Hj' Hne. unfold hp'. erewrite !grown_region by (done || lia). by apply (hv_apart _ _ _ HV).
  - intros j Hj. change (hp_pool_idx hp') with (hp_pool_idx hp + 1) in Hj.
    pose proof (hv_len _ _ _ HV) as Hl. unfold zlen, HUGE_QBUF_POOL_NUM_MAX in *. unfold hp', grown, zget. simpl.
    rewrite (proj2 (Z.leb_le 0 _)) by lia. destruct (decide (j = hp_pool_idx hp)) as [->|Hne].
    + rewrite list_lookup_insert_eq by lia. eexists. split; [done|]. intros Em. simpl. by rewrite decide_True.
    + rewrite list_lookup_insert_ne by lia. destruct (hv_info _ _ _ HV j ltac:(lia)) as (info & Hinfo & ?).
      exists info. split; [|done]. unfold zget in Hinfo. by rewrite (proj2 (Z.leb_le 0 _)) in Hinfo by lia.
  - exists (reverse (region_headers hp a) ++ l). split.
    + split; [done|]. unfold hp', grown. simpl. rewrite Hn, zlen_app. unfold zlen. rewrite length_reverse.
      unfold region_headers. rewrite length_fmap, length_seqZ. lia.
    + unfold pool_headers. change (hp_pool_idx hp') with (hp_pool_idx hp + 1).
      rewrite (seqZ_app 0 (hp_pool_idx hp) 1) by lia. rewrite fmap_app, join_app, join_single.
      rewrite Z.add_0_l, Hreg, Hhere by lia. rewrite (list_fmap_ext _ (headers_at hp)).
      * fold (pool_headers hp). rewrite <- Hperm. rewrite reverse_Permutation. rewrite <- (assoc (++)). apply Permutation_app_comm.
      * intros i j Hij%lookup_seqZ. apply Hreg. lia.
  - intros j x Hj Hx. change (hp_pool_idx hp') with (hp_pool_idx hp + 1) in Hj. rewrite Hreg in Hx by lia.
    destruct (decide (j = hp_pool_idx hp)) as [->|Hne].
    + rewrite Hhere in Hx. apply elem_of_region in Hx as (i & Hii & ->). destruct (D i ltac:(lia)) as (b & c & _ & Hb).
      eexists. split; [exact Hb|]. done.
    + rewrite F; [by apply (hv_ids _ _ _ HV); [lia|]|]. intros Hx'. apply (Hnew x j); [done|lia|done].
Qed.

(** Growing stops, with enough blocks or because no region can be had. *)
Lemma grow_loop_spec fuel need h hp held :
  huge_inv h hp held -> HUGE_QBUF_POOL_NUM_MAX - hp_pool_idx hp + 1 < Z.of_nat fuel ->
  exists h' hp' ok, grow_loop fuel mode callback ty need h hp = Some (h', hp', ok) /\ huge_inv h' hp' held /\
    hp_block_size hp' = hp_block_size hp /\ hp_total_block_num hp' = hp_total_block_num hp /\
    (if ok then need <= buf_cnt_with_data (hp_block_pool hp')
     else buf_cnt_with_data (hp_block_pool hp') < need /\
          (hp_pool_idx hp' = HUGE_QBUF_POOL_NUM_MAX \/ region_at hp' (hp_pool_idx hp') = None)).
Proof using Type*.
  revert h hp. induction fuel as [|fuel IH]; intros h hp HV Hf.
  { pose proof (hv_idx _ _ _ HV). lia. }
  cbn [grow_loop]. destruct (buf_cnt_with_data (hp_block_pool hp) <? need) eqn:En; breflect; cycle 1.
  { exists h, hp, true. done. }
  pose proof (hv_idx _ _ _ HV) as Hi.
  destruct (decide (hp_pool_idx hp = HUGE_QBUF_POOL_NUM_MAX)) as [Hmax|Hmax].
  { unfold umq_huge_qbuf_pool_init. rewrite Z.geb_leb, (proj2 (Z.leb_le _ _)) by lia. cbn [mbind option_bind].
    exists h, hp, false. split_and!; try done. by left. }
  destruct (region_at hp (hp_pool_idx hp)) as [a|] eqn:Ha; cycle 1.
  { unfold umq_huge_qbuf_pool_init. rewrite Z.geb_leb, (proj2 (Z.leb_gt _ _)) by lia.
    pose proof Ha as Ha'. unfold region_at in Ha'. rewrite Z.ltb_irrefl in Ha'. rewrite Ha'. cbn [mbind option_bind].
    exists h, hp, false. split_and!; try done. by right. }
  destruct (grow_step h hp held a HV ltac:(lia) Ha) as (h1 & first & imported & E & HV1). rewrite E. cbn [mbind option_bind].
  change (UMQ_SUCCESS =? UMQ_SUCCESS) with true. cbv iota.
  destruct (IH h1 (grown hp a first imported) HV1) as (h' & hp' & ok & E' & HV' & H1 & H2 & H3).
  { change (hp_pool_idx (grown hp a first imported)) with (hp_pool_idx hp + 1). lia. }
  exists h', hp', ok. done.
Qed.

(** ** Handing out blocks *)

(** [x] is the header and [d] the start of the data of one block of the pool *)
Definition block_data hp x d : Prop :=
  exists j a i, 0 <= j < hp_pool_idx hp /\ region_at hp j = Some a /\ 0 <= i < hp_total_block_num hp /\
    x = region_header hp a i /\ d = region_data hp a i.

(** where the data of a header of the pool starts, from its identifier *)
Definition huge_base hp h x : Z :=
  match h !! x with
  | Some b =>
    match zget (hp_pool_info hp) (mempool_id b - hp_pool_idx_shift hp) with
    | Some info => if decide (mode = UMQ_BUF_SPLIT)
                   then hi_data_buffer info + (x - hi_header_buffer info) / SIZEOF_UMQ_BUF * hp_block_size hp
                   else x + SIZEOF_UMQ_BUF
    | None => 0
    end
  | None => 0
  end.

(** A block of the pool: its region, its number, what its header names. *)
Lemma pool_block h hp held x :
  huge_inv h hp held -> x ∈ pool_headers hp ->
  exists j a i b info, 0 <= j < hp_pool_idx hp /\ region_at hp j = Some a /\ 0 <= i < hp_total_block_num hp /\
    x = region_header hp a i /\ h !! x = Some b /\ mempool_id b = j + hp_pool_idx_shift hp /\
    zget (hp_pool_info hp) j = Some info /\ hi_data_buffer info = a /\
    (mode = UMQ_BUF_SPLIT -> hi_header_buffer info = a + hp_total_block_num hp * hp_block_size hp).
Proof using Type*.
  intros HV Hx. pose proof (hv_idx _ _ _ HV) as Hi. apply elem_of_pool_headers in Hx as (j & Hj & Hx); [|lia].
  destruct (hv_ids _ _ _ HV j x Hj Hx) as (b & Hb & Hid). destruct (hv_info _ _ _ HV j Hj) as (info & Hinfo & Hh).
  unfold headers_at in Hx. destruct (region_at hp j) as [a|] eqn:Ea; [|by apply elem_of_nil in Hx].
  apply elem_of_region in Hx as (i & Hii & ->). exists j, a, i, b, info. split_and!; try done; try lia.
  - unfold region_at in Ea. rewrite (proj2 (Z.ltb_lt _ _)) in Ea by lia. rewrite Hinfo in Ea. by injection Ea.
  - intros Em. rewrite (Hh Em). unfold region_at in Ea. rewrite (proj2 (Z.ltb_lt _ _)) in Ea by lia. rewrite Hinfo in Ea.
    by injection Ea as ->.
Qed.

Lemma huge_base_block h hp held x :
  huge_inv h hp held -> x ∈ pool_headers hp -> block_data hp x (huge_base hp h x).
Proof using Type*.
  intros HV Hx. destruct (pool_block h hp held x HV Hx) as (j & a & i & b & info & Hj & Ha & Hi & Ex & Hb & Hid & Hinfo & Hd & Hh).
  exists j, a, i. split_and!; try done; try lia. unfold huge_base. rewrite Hb, Hid.
  replace (j + hp_pool_idx_shift hp - hp_pool_idx_shift hp) with j by lia. rewrite Hinfo, Ex.
  unfold region_data, region_header, SIZEOF_UMQ_BUF. case_decide as Em; [|done].
  rewrite (Hh Em), Hd. rewrite Z.add_simpl_l. by rewrite Z.div_mul by lia.
Qed.

Lemma huge_base_range h hp held x :
  huge_inv h hp held -> x ∈ pool_headers hp -> 0 <= huge_base hp h x /\ huge_base hp h x + huge_max hp < 2 ^ 64.
Proof using Type*.
  intros HV Hx. destruct (huge_base_block h hp held x HV Hx) as (j & a & i & Hj & Ha & Hi & _ & ->).
  pose proof (hv_idx _ _ _ HV). pose proof (hv_block _ _ _ HV).
  destruct (hv_region _ _ _ HV j a ltac:(lia) Ha) as (H1 & H2 & _).
  unfold region_data, huge_max, SIZEOF_UMQ_BUF in *. case_decide; nia.
Qed.

(** Distinct headers have distinct data areas. *)
Lemma huge_blocks_apart h hp held x y :
  huge_inv h hp held -> x ∈ pool_headers hp -> y ∈ pool_headers hp -> x <> y ->
  huge_base hp h x + huge_max hp <= huge_base hp h y \/ huge_base hp h y + huge_max hp <= huge_base hp h x.
Proof using Type*.
  intros HV Hx Hy Hne. pose proof (hv_idx _ _ _ HV). pose proof (hv_block _ _ _ HV).
  destruct (huge_base_block h hp held x HV Hx) as (j & a & i & Hj & Ha & Hi & Ex & ->).
  destruct (huge_base_block h hp held y HV Hy) as (j' & a' & i' & Hj' & Ha' & Hi' & Ey & ->).
  destruct (decide (j = j')) as [<-|Hjj].
  - rewrite Ha in Ha'. injection Ha' as <-. assert (i <> i') by (intros ->; congruence).
    unfold region_data, huge_max, SIZEOF_UMQ_BUF. case_decide; nia.
  - pose proof (hv_apart _ _ _ HV j j' a a' ltac:(lia) ltac:(lia) Hjj Ha Ha') as Hap.
    unfold region_span, region_data, huge_max, SIZEOF_UMQ_BUF in *. case_decide; nia.
Qed.

Definition huge_place hp : Z -> umq_buf -> Z -> Z :=
  if decide (mode = UMQ_BUF_SPLIT) then place_huge hp else place_combine.

Lemma huge_place_eq h hp held x b hr :
  huge_inv h hp held -> x ∈ pool_headers hp -> h !! x = Some b -> 0 <= hr < huge_max hp ->
  huge_place hp x b hr = huge_base hp h x + hr.
Proof using Type*.
  intros HV Hx Hb Hr. pose proof (huge_base_range h hp held x HV Hx) as Hrange.
  destruct (huge_base_block h hp held x HV Hx) as (j0 & a0 & i0 & Hj0 & Ha0 & Hi0 & Ex0 & Ebase).
  destruct (pool_block h hp held x HV Hx) as (j & a & i & b' & info & Hj & Ha & Hi & Ex & Hb' & Hid & Hinfo & Hd & Hh).
  rewrite Hb in Hb'. injection Hb' as <-. pose proof (hv_idx _ _ _ HV). pose proof (hv_block _ _ _ HV).
  pose proof (hv_num _ _ _ HV). pose proof (shift_range _ _ _ HV).
  destruct (hv_region _ _ _ HV j a ltac:(lia) Ha) as (Hr1 & Hr2 & _).
  unfold huge_base in *. rewrite Hb, Hid in *. unfold HUGE_QBUF_POOL_NUM_MAX in *.
  replace (j + hp_pool_idx_shift hp - hp_pool_idx_shift hp) with j in * by lia. rewrite Hinfo in *.
  unfold huge_place. case_decide as Em.
  - unfold place_huge. rewrite Hid. replace (j + hp_pool_idx_shift hp - hp_pool_idx_shift hp) with j by lia.
    rewrite u32_small by lia. rewrite Hinfo. rewrite (Hh Em), Hd in *. rewrite Ex in *.
    unfold region_header, SIZEOF_UMQ_BUF in *. rewrite decide_True in * by done. rewrite Z.add_simpl_l in *.
    rewrite Z.div_mul in * by lia. rewrite (u64_small (i * 128)) by lia. unfold HUGE_QBUF_HEAD_POWER_OF_TWO.
    rewrite Z.shiftr_div_pow2 by lia. change (2 ^ 7) with 128. rewrite Z.div_mul by lia.
    rewrite (u64_small (i * _)) by nia. apply u64_small. lia.
  - unfold place_combine. apply u64_small. lia.
Qed.

(** the allocation of the two modes *)
Definition huge_alloc_data h hp (request num list headroom : Z) : option (heap * huge_pool * Z) :=
  if decide (mode = UMQ_BUF_SPLIT) then umq_huge_qbuf_alloc_data_with_split h hp request num list headroom
  else umq_huge_qbuf_alloc_data_with_combine h hp request num list headroom.

(** Handing out blocks and taking blocks back leave everything but the list alone. *)
Lemma huge_inv_relist h h' hp held held' first cnt l :
  huge_inv h hp held -> pool_rep true h' (set_pool true first cnt (hp_block_pool hp)) l -> l ++ held' ≡ₚ pool_headers hp ->
  (forall x b, h !! x = Some b -> exists b', h' !! x = Some b' /\ mempool_id b' = mempool_id b) ->
  huge_inv h' (set_blocks (set_pool true first cnt (hp_block_pool hp)) hp) held'.
Proof using Type*.
  intros HV Hr Hp Hmem. destruct HV as [Hm Hi Hl Hs Hb Hn Hc Hreg Hap Hinfo _ Hids]. constructor; try done.
  - intros j a Hj Ha. destruct (Hreg j a Hj Ha) as (? & ? & Hx). split_and!; [done..|].
    intros x Hxr. destruct (Hx x Hxr) as [b Hxb]. destruct (Hmem x b Hxb) as (b' & -> & _). by eexists.
  - by exists l.
  - intros j x Hj Hx. destruct (Hids j x Hj Hx) as (b & Hxb & Hid). destruct (Hmem x b Hxb) as (b' & ? & ?).
    exists b'. split; [done|]. simpl. congruence.
Qed.

Lemma huge_alloc_data_eq h hp held l request num headroom h' rest :
  let bp := hp_block_pool hp in
  huge_inv h hp held -> chain h (head_with_data bp) l -> NoDup l -> l ⊆ pool_headers hp ->
  alloc_data (huge_place hp) (if decide (mode = UMQ_BUF_SPLIT) then hp_block_size hp + SIZEOF_UMQ_BUF else hp_block_size hp)
    (huge_max hp) h (head_with_data bp) request num 0 headroom = Some (h', rest) ->
  huge_alloc_data h hp request num 0 headroom =
    Some (h', set_blocks (set_pool true rest (u64 (buf_cnt_with_data bp - num)) bp) hp, head_with_data bp).
Proof using Type*.
  intros bp HV Hc Hnd Hsub. pose proof (hv_block _ _ _ HV) as Hb. unfold huge_alloc_data, huge_place, huge_max, SIZEOF_UMQ_BUF.
  case_decide as Em.
  - intros E. eapply huge_alloc_split_eq; [exact Hc|done| |]; cycle 1.
    { unfold SIZEOF_UMQ_BUF. rewrite u32_small by lia. exact E. }
    intros x Hx. destruct (pool_block h hp held x HV (Hsub x Hx)) as (j & a & i & b & info & Hj & _ & _ & _ & Hxb & Hid & Hinfo & _).
    pose proof (shift_range _ _ _ HV). pose proof (hv_idx _ _ _ HV). unfold HUGE_QBUF_POOL_NUM_MAX in *.
    exists b, info. split_and!; [done|lia|lia|]. rewrite Hid.
    replace (j + hp_pool_idx_shift hp - hp_pool_idx_shift hp) with j by lia. by rewrite u32_small by lia.
  - unfold umq_huge_qbuf_alloc_data_with_combine, SIZEOF_UMQ_BUF. rewrite u32_small by lia. fold bp. intros ->. done.
Qed.

Lemma huge_take h hp held need request headroom :
  huge_inv h hp held -> 0 < need <= buf_cnt_with_data (hp_block_pool hp) -> 0 < request < 2 ^ 31 ->
  0 <= headroom <= UMQ_HEADROOM_SIZE_LIMIT ->
  let first := head_with_data (hp_block_pool hp) in
  exists h' hp' l, huge_alloc_data h hp request need 0 headroom = Some (h', hp', first) /\
    chain h' first l /\ zlen l = need /\ NoDup l /\ (forall x, x ∈ l -> x ∈ pool_headers hp /\ x ∉ held) /\
    huge_inv h' hp' (l ++ held) /\ (forall x, x ∈ l -> block_data hp' x (huge_base hp h x)) /\
    laid_out (huge_base hp h) (huge_max hp) (frag_count (huge_max hp) request headroom) request headroom h' l /\
    own_area h' l.
Proof using Type*.
  intros HV Hn Hq Hh first. pose proof (huge_max_range _ _ _ HV) as Hmax. unfold UMQ_HEADROOM_SIZE_LIMIT in *.
  destruct (hv_list _ _ _ HV) as (l & [Hc Hl] & Hperm). simpl in Hc, Hl.
  pose proof (pool_headers_NoDup _ _ _ HV) as Hnd. pose proof (pool_headers_len _ _ _ HV) as Hlen. rewrite <- Hperm in Hnd.
  assert (zlen l <= zlen (pool_headers hp)) by (unfold zlen; rewrite <- Hperm, length_app; lia).
  apply NoDup_app in Hnd as (Hndl & Hdis & Hndh).
  assert (Hsub : l ⊆ pool_headers hp) by (intros x Hx; rewrite <- Hperm; set_solver).
  destruct (zlen_split l need) as (l1 & l2 & -> & Hl1); [lia|].
  destruct (alloc_data_spec (huge_place hp) (if decide (mode = UMQ_BUF_SPLIT) then hp_block_size hp + SIZEOF_UMQ_BUF else hp_block_size hp)
    (huge_max hp) h first request headroom 0 l1 l2 [] need) as (h' & rest & E & C1 & C2 & Hout & Hfill);
    [lia..|done|done|by rewrite app_nil_r|intros ->; change (zlen (@nil Z)) with 0 in *; lia|done|lia|].
  rewrite app_nil_r in C2. rewrite (huge_alloc_data_eq h hp held (l1 ++ l2) request need headroom h' rest HV Hc Hndl Hsub E).
  rewrite Hl, zlen_app in *. pose proof (zlen_nonneg l2). rewrite u64_small by lia.
  replace (zlen l1 + zlen l2 - need) with (zlen l2) by lia.
  assert (Hfrag : forall i x, l1 !! i = Some x -> exists b b', h !! x = Some b /\ h' !! x = Some b' /\
    fragment_of (huge_base hp h) (huge_max hp) (frag_count (huge_max hp) request headroom) request headroom i x b' /\
    mempool_id b' = mempool_id b).
  { intros i x Hi. assert (Hx : x ∈ pool_headers hp) by (apply Hsub; apply list_elem_of_lookup_2 in Hi; set_solver).
    destruct (lseg_mapped h _ _ _ x Hc) as [_ [b Hb]]; [apply list_elem_of_lookup_2 in Hi; set_solver|].
    edestruct (filled_fragment_of (huge_base hp h)) as (b' & Hb' & Hf & _ & Hid & _); [..|exact (Hfill i x Hi)|]; [lia|lia|lia|lia|exact Hb| |].
    - intros hr Hhr. by eapply huge_place_eq; [..|lia].
    - by exists b, b'. }
  assert (Hlay : laid_out (huge_base hp h) (huge_max hp) (frag_count (huge_max hp) request headroom) request headroom h' l1).
  { intros i x Hi. destruct (Hfrag i x Hi) as (b & b' & _ & ? & ? & _). by exists b'. }
  eexists h', _, l1. split; [done|]. split_and!; [done..|by apply NoDup_app in Hndl as [? _]| | | |done|].
  - intros x Hx. split; [apply Hsub; set_solver|apply Hdis; set_solver].
  - eapply huge_inv_relist; [exact HV| | |].
    + unfold pool_rep. autorewrite with umdk_rw. split; [exact C1|done].
    + rewrite <- Hperm. rewrite !(assoc (++)). by rewrite (Permutation_app_comm l2 l1).
    + intros x b Hb. destruct (decide (x ∈ l1)) as [Hx|Hx].
      * apply list_elem_of_lookup_1 in Hx as [i Hi]. destruct (Hfrag i x Hi) as (b0 & b' & Hb0 & ? & _ & ?).
        exists b'. split; [done|]. congruence.
      * exists b. by rewrite Hout.
  - intros x Hx. apply (huge_base_block h hp held x HV). apply Hsub. set_solver.
  - eapply laid_out_own_area; [|..|exact Hlay]; [lia|].
    intros x y Hx Hy Hne. eapply huge_blocks_apart; [done|apply Hsub; set_solver|apply Hsub; set_solver|done].
Qed.
End huge.

Lemma get_put_pool ty hp c : get_pool ty (put_pool ty hp c) = hp.
Proof. by destruct ty. Qed.
Lemma get_put_other ty ty' hp c : ty' <> ty -> get_pool ty' (put_pool ty hp c) = get_pool ty' c.
Proof. by destruct ty, ty'. Qed.

Lemma huge_buf_count_eq mode ty callback h hp held pow request num headroom :
  huge_inv mode ty callback h hp held -> hp_block_size hp = umq_huge_qbuf_get_size_by_type pow ty ->
  0 < num -> 0 < request < 2 ^ 31 -> 0 <= headroom <= UMQ_HEADROOM_SIZE_LIMIT ->
  num * frag_count (huge_max mode hp) request headroom < 2 ^ 32 ->
  huge_buf_count pow mode ty request num headroom = num * frag_count (huge_max mode hp) request headroom.
Proof.
  intros HV Hb Hn Hq Hh Hw. pose proof (huge_max_range _ _ _ _ _ _ HV) as Hmax. pose proof (hv_block _ _ _ _ _ _ HV) as Hblk.
  unfold UMQ_HEADROOM_SIZE_LIMIT in *.
  pose proof (frag_count_bounds (huge_max mode hp) request headroom ltac:(lia) ltac:(lia) ltac:(lia)) as [Hk _].
  unfold huge_buf_count. rewrite <- Hb. unfold frag_count, huge_max, SIZEOF_UMQ_BUF in *.
  rewrite (u32_small (request + headroom)) by lia. case_decide.
  - rewrite u64_small by lia. apply u32_small. nia.
  - rewrite (u64_small (hp_block_size hp - 128)) by lia. rewrite u64_small by lia. apply u32_small. nia.
Qed.

(** C25: allocating from a pool of larger blocks always returns. It grows the
    pool by whole regions as long as blocks are missing and a region can be
    had; on success it returns a chain of exactly the needed buffers, none of
    them held before, laid out message by message: every buffer is the header
    of a block of a region of the pool, and its headroom and data start where
    the data of that block starts ([region_data]: the block itself with split
    headers, behind the header with combined ones). Otherwise it returns
    -ENOMEM with nothing handed out. The other pools
    are not touched, and the blocks listed and held are in both cases exactly
    those of the regions obtained. *)
Theorem umq_huge_qbuf_alloc_correct pow callback ty request num opt h c held :
  let hp := get_pool ty c in
  let headroom := default (hc_headroom_size c) opt in
  let k := frag_count (huge_max (hc_mode c) hp) request headroom in
  hc_inited c = true -> huge_inv (hc_mode c) ty callback h hp held ->
  hp_block_size hp = umq_huge_qbuf_get_size_by_type pow ty ->
  0 < num -> 0 < request < 2 ^ 31 -> 0 <= headroom <= UMQ_HEADROOM_SIZE_LIMIT -> num * k < 2 ^ 32 ->
  exists h' c' ret first, umq_huge_qbuf_alloc pow callback ty request num opt 0 h c = Some (h', c', ret, first) /\
    (forall ty', ty' <> ty -> get_pool ty' c' = get_pool ty' c) /\
    let hp' := get_pool ty c' in
    (ret = UMQ_SUCCESS /\ (exists l base, chain h' first l /\ zlen l = num * k /\ NoDup l /\
       (forall x, x ∈ l -> x ∈ pool_headers (hc_mode c) ty callback hp' /\ x ∉ held) /\
       huge_inv (hc_mode c) ty callback h' hp' (l ++ held) /\
       (forall x, x ∈ l -> block_data (hc_mode c) ty callback hp' x (base x)) /\
       laid_out base (huge_max (hc_mode c) hp) k request headroom h' l /\ own_area h' l) \/
     ret = - UMQ_ERR_ENOMEM /\ first = 0 /\ huge_inv (hc_mode c) ty callback h' hp' held /\
       buf_cnt_with_data (hp_block_pool hp') < num * k /\
       (hp_pool_idx hp' = HUGE_QBUF_POOL_NUM_MAX \/ region_at ty callback hp' (hp_pool_idx hp') = None)).
Proof.
  intros hp headroom k Hi HV Hb Hn Hq Hh Hw. unfold umq_huge_qbuf_alloc. rewrite Hi. cbn [negb].
  fold headroom. rewrite (huge_buf_count_eq _ _ _ _ _ _ pow request num headroom HV Hb Hn Hq Hh Hw). fold hp k.
  destruct (grow_loop_spec (hc_mode c) ty callback grow_fuel (num * k) h hp held HV) as (h1 & hp1 & ok & E & HV1 & B1 & N1 & Hend).
  { pose proof (hv_idx _ _ _ _ _ _ HV). unfold HUGE_QBUF_POOL_NUM_MAX, grow_fuel in *. lia. }
  rewrite E. cbn [mbind option_bind]. destruct ok; cbn [negb]; cycle 1.
  { eexists _, _, _, _. split; [done|]. cbv zeta. rewrite get_put_pool. split; [intros ty' Hty; by apply get_put_other|].
    right. by split_and!; destruct Hend. }
  assert (Hmax : huge_max (hc_mode c) hp1 = huge_max (hc_mode c) hp) by (unfold huge_max; by rewrite B1).
  assert (Hk : 1 <= k).
  { pose proof (huge_max_range _ _ _ _ _ _ HV). unfold UMQ_HEADROOM_SIZE_LIMIT in *. apply frag_count_bounds; fold hp; lia. }
  destruct (huge_take (hc_mode c) ty callback h1 hp1 held (num * k) request headroom HV1)
    as (h2 & hp2 & l & E2 & Hc & Hlen & Hnd & Hx & HV2 & Hblk & Hlay & Harea); [nia|done|done|].
  unfold huge_alloc_data in E2. rewrite E2. cbn [mbind option_bind].
  eexists _, _, _, _. split; [done|]. cbv zeta. rewrite get_put_pool. split; [intros ty' Hty; by apply get_put_other|].
  left. split; [done|]. rewrite Hmax in Hlay. exists l, (huge_base (hc_mode c) hp1 h1). split_and!; try done.
  intros x Hxl. split; [|by apply Hx]. pose proof (hv_list _ _ _ _ _ _ HV2) as (l' & _ & <-). set_solver.
Qed.

(** the pool of a header is found from its identifier *)
Lemma type_by_mempool_id ty j :
  0 <= j < HUGE_QBUF_POOL_NUM_MAX ->
  umq_huge_qbuf_get_type_by_mempool_id (j + (HUGE_QBUF_POOL_IDX_SHIFT + type_index ty * HUGE_QBUF_POOL_NUM_MAX)) = ty.
Proof.
  unfold umq_huge_qbuf_get_type_by_mempool_id, HUGE_QBUF_POOL_IDX_SHIFT, HUGE_QBUF_POOL_NUM_MAX.
  change (Z.shiftl 64 1) with 128. intros Hj. destruct ty; simpl; repeat case_match; breflect; done || lia.
Qed.

(** Releasing a chain of held blocks puts them back into their pool, in front. *)
Theorem umq_huge_qbuf_free_correct callback ty h c list l held :
  let hp := get_pool ty c in
  hc_inited c = true -> huge_inv (hc_mode c) ty callback h hp (l ++ held) -> chain h list l -> l <> [] ->
  exists h' c', umq_huge_qbuf_free h list c = Some (h', c') /\
    (forall ty', ty' <> ty -> get_pool ty' c' = get_pool ty' c) /\
    huge_inv (hc_mode c) ty callback h' (get_pool ty c') held.
Proof.
  intros hp Hi HV Hc Hne. unfold umq_huge_qbuf_free. rewrite Hi. cbn [negb].
  destruct (hv_list _ _ _ _ _ _ HV) as (gl & [Hg Hn] & Hperm). simpl in Hg, Hn.
  pose proof (pool_headers_NoDup _ _ _ _ _ _ HV) as Hnd. pose proof (pool_headers_len _ _ _ _ _ _ HV) as Hlen.
  rewrite <- Hperm in Hnd. assert (Hll : zlen gl + zlen l + zlen held = zlen (pool_headers (hc_mode c) ty callback hp)).
  { unfold zlen. rewrite <- Hperm, !length_app. lia. }
  pose proof (zlen_nonneg gl). pose proof (zlen_nonneg held). pose proof (zlen_nonneg l).
  assert (Hndl : NoDup (l ++ gl)).
  { rewrite (assoc (++)) in Hnd. apply NoDup_app in Hnd as [Hnd _]. by rewrite Permutation_app_comm. }
  assert (Hx : exists x l', l = x :: l') by (destruct l; [done|eauto]). destruct Hx as (x & l' & El).
  assert (Hxp : x ∈ pool_headers (hc_mode c) ty callback hp) by (rewrite <- Hperm, El; set_solver).
  destruct (pool_block _ _ _ h hp _ x HV Hxp) as (j & a & i & b & info & Hj & _ & _ & _ & Hb & Hid & _).
  assert (list = x) as -> by (rewrite El in Hc; by destruct Hc as [-> _]). rewrite Hb. cbn [mbind option_bind].
  pose proof (hv_idx _ _ _ _ _ _ HV). rewrite Hid, (hv_shift _ _ _ _ _ _ HV), type_by_mempool_id by lia. fold hp.
  destruct (release_batch_spec h x (head_with_data (hp_block_pool hp)) l gl) as (h' & E & C & R); [done..|lia|].
  unfold release_batch in E. destruct (for_each _ walk_body h x (0, 0)) as [[[h1 [cnt last]] e]|]; [|done].
  cbn [mbind option_bind] in *. destruct (set_list_next h1 last _) as [h2|]; [|done]. cbn [mbind option_bind] in *.
  injection E as -> ->. eexists _, _. split; [done|]. rewrite get_put_pool.
  split; [intros ty' Hty; by apply get_put_other|]. rewrite Hn, u64_small by lia.
  eapply huge_inv_relist; [exact HV| | |].
  - unfold pool_rep. autorewrite with umdk_rw. split; [exact C|]. rewrite zlen_app. lia.
  - rewrite <- Hperm. rewrite (Permutation_app_comm l gl). by rewrite (assoc (++)).
  - intros y b0 Hb0. destruct R as [R _]. apply (f_equal (fun f : heap => f !! y)) in R. rewrite !lookup_fmap, Hb0 in R.
    destruct (h' !! y) as [b'|]; [|done]. exists b'. split; [done|]. simpl in R. by injection R.
Qed.

(** ** Two regions of two middle blocks *)

Definition ex_callback (id : Z) (_ : huge_qbuf_pool_size_type) : option Z :=
  if id <? 3 then Some (id * 2 ^ 20) else None.
Definition ex_zero_pool : huge_pool :=
  {| hp_inited := false; hp_total_size := 0; hp_block_size := 0; hp_data_size := 0; hp_total_block_num := 0;
     hp_pool_idx := 0; hp_pool_idx_shift := 0; hp_block_pool := zero_block_pool; hp_pool_info := replicate 64 no_info |}.
Definition ex_hcfg : huge_qbuf_pool_cfg :=
  {| hcfg_total_size := 98304; hcfg_headroom_size := 0; hcfg_mode := UMQ_BUF_COMBINE; hcfg_type := HUGE_MID |}.
Definition ex_ctx : huge_pool_ctx :=
  (umq_huge_qbuf_config_init 13 ex_hcfg (umq_huge_qbuf_pool_ctx_common_cfg_set ex_hcfg
    {| hc_inited := false; hc_headroom_size := 0; hc_mode := UMQ_BUF_SPLIT;
       hc_mid := ex_zero_pool; hc_big := ex_zero_pool; hc_huge := ex_zero_pool |})).1.
Definition ex_heap : heap :=
  list_to_map ((fun x => (x, raw_header)) <$> [2 ^ 20; 2 ^ 20 + 49152; 2 * 2 ^ 20; 2 * 2 ^ 20 + 49152]).

Lemma ex_region j a :
  0 <= j < 64 -> region_at HUGE_MID ex_callback (hc_mid ex_ctx) j = Some a -> j < 2 /\ a = (j + 1) * 2 ^ 20.
Proof.
  intros Hj. unfold region_at. change (hp_pool_idx (hc_mid ex_ctx)) with 0. rewrite (proj2 (Z.ltb_ge _ _)) by lia.
  change (hp_pool_idx_shift (hc_mid ex_ctx)) with 1. unfold u8. rewrite Z.mod_small by lia. unfold ex_callback.
  case_match; breflect; [|done]. intros [= <-]. lia.
Qed.

Lemma ex_huge_inv : huge_inv UMQ_BUF_COMBINE HUGE_MID ex_callback ex_heap (hc_mid ex_ctx) [].
Proof.
  assert (Hb : hp_block_size (hc_mid ex_ctx) = 49152) by (by vm_compute).
  assert (Hn : hp_total_block_num (hc_mid ex_ctx) = 2) by (by vm_compute).
  constructor; rewrite ?Hb, ?Hn; change (hp_pool_idx (hc_mid ex_ctx)) with 0;
    unfold HUGE_QBUF_POOL_NUM_MAX, SIZEOF_UMQ_BUF; try done; try lia.
  - intros j a Hj Ha. destruct (ex_region j a Hj Ha) as [H2 ->]. split_and!; [lia..|].
    intros x (i & Hi & ->)%elem_of_region. rewrite Hn in Hi.
    assert (Hji : (j = 0 \/ j = 1) /\ (i = 0 \/ i = 1)) by lia.
    destruct Hji as [[-> | ->] [-> | ->]]; vm_compute; by eexists.
  - intros j j' a a' Hj Hj' Hne Ha Ha'. destruct (ex_region j a Hj Ha) as [_ ->]. destruct (ex_region j' a' Hj' Ha') as [_ ->].
    unfold region_span. rewrite Hn, Hb. rewrite decide_False by done. lia.
  - by exists [].
Qed.

Lemma umq_huge_qbuf_alloc_correct_witness :
  exists h' c' first l, umq_huge_qbuf_alloc 13 ex_callback HUGE_MID 60000 2 None 0 ex_heap ex_ctx = Some (h', c', UMQ_SUCCESS, first) /\
    chain h' first l /\ zlen l = 4.
Proof.
  destruct (umq_huge_qbuf_alloc_correct 13 ex_callback HUGE_MID 60000 2 None ex_heap ex_ctx [] eq_refl ex_huge_inv eq_refl)
    as (h' & c' & ret & first & E & _ & H); [lia|lia|by vm_compute|by vm_compute|].
  assert (Hret : match umq_huge_qbuf_alloc 13 ex_callback HUGE_MID 60000 2 None 0 ex_heap ex_ctx with
                 | Some (_, _, r, _) => r | None => 1 end = 0) by (by vm_compute).
  rewrite E in Hret. destruct H as [[-> (l & base & Hc & Hl & _)]|[-> _]]; [|done].
  exists h', c', first, l. split; [done|]. split; [done|]. rewrite Hl. by vm_compute.
Defined.
