(* ===== verification/QbufApi.v ===== *)
(** * The buffer calls of the UMQ interface

    umq_buf_alloc, umq_buf_free, umq_buf_break_and_free,
    umq_buf_headroom_reset, umq_buf_reset and umq_data_to_head of umq_api.c:
    they choose the pool of small blocks, a pool of larger blocks or the
    transport of a queue. The transports are parameters. The theorems show
    that a buffer chain of the small pool goes back to it, that breaking a
    batch releases exactly its first message, and what happens to a chain
    whose buffers come from pools of both kinds. *)

From S2P Require Import Prelude QbufList QbufFrag QbufPool QbufOwn QbufSystem QbufHuge QbufHugeInv.

Implicit Types (h : gmap Z umq_buf) (l : list Z) (p q x : Z) (t : nat) (w : world).

Definition UMQ_MAX_BUF_REQUEST_SIZE : Z := 10485760.
Definition UMQ_QBUF_DEFAULT_MEMPOOL_ID : Z := 0.

(** the globals of the process: the pools, and whether umq_init has run *)
Record api := {
  g_umq_inited : bool;
  a_world : world;
  a_huge : huge_pool_ctx
}.

Definition set_world w (a : api) : api := {| g_umq_inited := g_umq_inited a; a_world := w; a_huge := a_huge a |}.
Definition set_api_mem h (a : api) : api := set_world (set_mem h (a_world a)) a.
Definition set_huge h (c : huge_pool_ctx) (a : api) : api :=
  {| g_umq_inited := g_umq_inited a; a_world := set_mem h (a_world a); a_huge := c |}.
Definition api_mem (a : api) : heap := mem (a_world a).

(** the operations of a transport on buffers; a NULL entry is [None] *)
Record umq_ops := {
  umq_tp_buf_alloc : option (Z -> Z -> Z -> option Z -> api -> option (api * Z));
  umq_tp_buf_free : option (Z -> Z -> api -> option api);
  umq_tp_buf_headroom_reset : option (Z -> Z -> api -> option (api * Z))
}.
Record umq_t := { umqh_tp : Z; tp_ops : option umq_ops }.

Section calls.
(** the queue behind a handle, the growth of the pools of larger blocks *)
Context (queue : Z -> option umq_t) (callback : Z -> huge_qbuf_pool_size_type -> option Z).

(** the guards on a queue's transport: [None] is the error return *)
Definition transport {T} (op : umq_ops -> option T) (umq : umq_t) : option T :=
  if umqh_tp umq =? UMQ_INVALID_HANDLE then None else ops ← tp_ops umq; op ops.

(** The result is the first buffer, NULL on failure. [opt] is the headroom
    when the option and its flag are given. *)
Definition umq_buf_alloc t (request_size request_qbuf_num handle : Z) (opt : option Z) (a : api) : option (api * Z) :=
  if negb (g_umq_inited a) || (request_qbuf_num =? 0) || (UMQ_MAX_BUF_REQUEST_SIZE <? request_size) then Some (a, 0)
  else
    let w := a_world a in
    let headroom := default (pl_headroom_size (g_qbuf_pool w)) opt in
    if UMQ_HEADROOM_SIZE_LIMIT <? headroom then Some (a, 0)
    else
      let factor := if decide (pl_mode (g_qbuf_pool w) = UMQ_BUF_SPLIT) then 0 else SIZEOF_UMQ_BUF in
      if handle =? UMQ_INVALID_HANDLE then
        let size := u32 (request_size + headroom + factor) in
        if size <? umq_buf_size_middle (g_pow w) then
          '(w, ret, first) ← umq_qbuf_alloc t request_size request_qbuf_num opt 0 w;
          Some (set_world w a, if ret =? UMQ_SUCCESS then first else 0)
        else
          let ty := umq_huge_qbuf_get_type_by_size (g_pow w) size in
          '(h, c, ret, first) ←
            umq_huge_qbuf_alloc (g_pow w) callback ty request_size request_qbuf_num opt 0 (mem w) (a_huge a);
          Some (set_huge h c a, if ret =? UMQ_SUCCESS then first else 0)
      else
        umq ← queue handle;
        match transport umq_tp_buf_alloc umq with
        | None => Some (a, 0)
        | Some alloc => alloc request_size request_qbuf_num (umqh_tp umq) opt a
        end.

(** the pool a list is released into is chosen by the identifier [id] *)
Definition free_list t (id list : Z) (a : api) : option api :=
  if id =? UMQ_QBUF_DEFAULT_MEMPOOL_ID then
    w ← umq_qbuf_free t list (a_world a); Some (set_world w a)
  else
    '(h, c) ← umq_huge_qbuf_free (api_mem a) list (a_huge a); Some (set_huge h c a).

(** the loop over the list: the last node of the current run, the first one
    and whether the run belongs to a pool of larger blocks *)
Fixpoint free_loop t (fuel : nat) (cur_node last_node free_node : Z) (is_huge : bool) (a : api) : option (api * Z) :=
  match fuel with
  | O => None
  | S f =>
    if cur_node =? 0 then Some (a, free_node)
    else
      b ← api_mem a !! cur_node;
      let next_node := qbuf_next b in
      if (is_huge && negb (mempool_id b =? UMQ_QBUF_DEFAULT_MEMPOOL_ID)) || (negb is_huge && (mempool_id b =? 0))
      then free_loop t f next_node cur_node free_node is_huge a
      else
        h ← set_list_next (api_mem a) last_node 0;
        a ← free_list t (mempool_id b) free_node (set_api_mem h a);
        free_loop t f next_node last_node cur_node (negb (mempool_id b =? UMQ_QBUF_DEFAULT_MEMPOOL_ID)) a
  end.

Definition umq_buf_free t (qbuf : Z) (a : api) : option api :=
  if negb (g_umq_inited a) || (qbuf =? 0) then Some a
  else
    b ← api_mem a !! qbuf;
    if umqh b =? UMQ_INVALID_HANDLE then
      if qbuf_next b =? 0 then free_list t (mempool_id b) qbuf a
      else
        '(a, free_node) ← free_loop t (list_fuel (api_mem a)) (qbuf_next b) 0 qbuf
           (negb (mempool_id b =? UMQ_QBUF_DEFAULT_MEMPOOL_ID)) a;
        b ← api_mem a !! free_node;
        free_list t (mempool_id b) free_node a
    else
      umq ← queue (umqh b);
      match transport umq_tp_buf_free umq with
      | None => Some a
      | Some free => free qbuf (umqh_tp umq) a
      end.

(** the search for the last buffer of the first message: the memory with the
    chain broken behind it, and the next message *)
Fixpoint break_loop (fuel : nat) h (tmp_buf rest_data_size : Z) : option (heap * Z) :=
  match fuel with
  | O => None
  | S f =>
    if (tmp_buf =? 0) || (rest_data_size <=? 0) then Some (h, 0)
    else
      b ← h !! tmp_buf;
      if rest_data_size <=? data_size b then h ← set_list_next h tmp_buf 0; Some (h, qbuf_next b)
      else break_loop f h (qbuf_next b) (u32 (rest_data_size - data_size b))
  end.

Definition umq_buf_break_and_free t (qbuf : Z) (a : api) : option (api * Z) :=
  if negb (g_umq_inited a) || (qbuf =? 0) then Some (a, 0)
  else
    b ← api_mem a !! qbuf;
    '(h, next_batch) ← break_loop (list_fuel (api_mem a)) (api_mem a) qbuf (total_data_size b);
    a ← umq_buf_free t qbuf (set_api_mem h a);
    Some (a, next_batch).

Definition umq_buf_headroom_reset (qbuf headroom_size : Z) (a : api) : option (api * Z) :=
  if negb (g_umq_inited a) || (qbuf =? 0) then Some (a, - UMQ_ERR_EINVAL)
  else if UMQ_HEADROOM_SIZE_LIMIT <? headroom_size then Some (a, - UMQ_ERR_EINVAL)
  else
    b ← api_mem a !! qbuf;
    if umqh b =? UMQ_INVALID_HANDLE then
      if mempool_id b =? UMQ_QBUF_DEFAULT_MEMPOOL_ID then
        '(w, r) ← umq_qbuf_headroom_reset qbuf headroom_size (a_world a); Some (set_world w a, r)
      else
        '(h, r) ← umq_huge_qbuf_headroom_reset (api_mem a) qbuf headroom_size (a_huge a); Some (set_api_mem h a, r)
    else
      umq ← queue (umqh b);
      match transport umq_tp_buf_headroom_reset umq with
      | None => Some (a, - UMQ_ERR_EINVAL)
      | Some reset => reset qbuf headroom_size a
      end.
End calls.

Definition set_total_data_size (n : Z) (b : umq_buf) : umq_buf :=
  {| qbuf_next := qbuf_next b; umqh := umqh b; total_data_size := n; buf_size := buf_size b;
     data_size := data_size b; headroom_size := headroom_size b; first_fragment := first_fragment b;
     token_id := token_id b; mempool_id := mempool_id b; buf_data := buf_data b; qbuf_ext := qbuf_ext b |}.

Definition buf_reset_body h (head total : Z) : option (heap * Z * bool) :=
  b ← h !! head;
  h ← write h head (set_data_size (buf_size b));
  Some (h, u32 (total + buf_size b), false).

Definition umq_buf_reset (qbuf : Z) (a : api) : option (api * Z) :=
  if negb (g_umq_inited a) || (qbuf =? 0) then Some (a, - UMQ_ERR_EINVAL)
  else
    '(h, total, _) ← for_each (list_fuel (api_mem a)) buf_reset_body (api_mem a) qbuf 0;
    h ← write h qbuf (set_total_data_size total);
    Some (set_api_mem h a, UMQ_SUCCESS).

Definition umq_data_to_head (data : Z) (a : api) : Z :=
  if negb (g_umq_inited a) || (data =? 0) then 0 else umq_qbuf_data_to_head data (a_world a).

(** ** Releasing a chain of one pool *)

Lemma free_loop_same t huge a free :
  forall l fuel cur last,
  chain (api_mem a) cur l -> (length l < fuel)%nat ->
  (forall x b, x ∈ l -> api_mem a !! x = Some b -> (mempool_id b =? 0) = negb huge) ->
  free_loop t fuel cur last free huge a = Some (a, free).
Proof.
  induction l as [|x l IH]; intros [|fuel] cur last Hc Hf Hid; cbn [length] in Hf; try lia.
  - simpl in Hc. by subst.
  - destruct Hc as (-> & Hx & b & Hb & Hc). cbn [free_loop]. rewrite (proj2 (Z.eqb_neq x 0)) by done.
    rewrite Hb. cbn [mbind option_bind]. unfold UMQ_QBUF_DEFAULT_MEMPOOL_ID.
    rewrite (Hid x b) by (done || by left). destruct huge; simpl; (apply IH; [done|lia|]);
      intros y b' Hy; apply Hid; by right.
Qed.

(** A chain whose buffers belong to pools of one kind is released in one go. *)
Lemma umq_buf_free_same queue t a p l b :
  g_umq_inited a = true -> chain (api_mem a) p l -> NoDup l -> l <> [] ->
  api_mem a !! p = Some b -> umqh b = UMQ_INVALID_HANDLE ->
  (forall x b', x ∈ l -> api_mem a !! x = Some b' -> (mempool_id b' =? 0) = (mempool_id b =? 0)) ->
  umq_buf_free queue t p a = free_list t (mempool_id b) p a.
Proof.
  intros Hi Hc Hnd Hne Hb Hu Hid. destruct l as [|x l]; [done|].
  pose proof (list_fuel_split _ _ _ Hc Hnd) as [n Hn]. destruct Hc as (-> & Hx & b' & Hb' & Hc).
  assert (b' = b) as -> by congruence.
  unfold umq_buf_free. rewrite Hi, (proj2 (Z.eqb_neq x 0)) by done. cbn [negb orb].
  rewrite Hb. cbn [mbind option_bind]. rewrite Hu. change (UMQ_INVALID_HANDLE =? UMQ_INVALID_HANDLE) with true. cbv iota.
  case_match; [done|]. rewrite (free_loop_same _ _ _ _ l); [|done| |].
  - cbn [mbind option_bind]. by rewrite Hb.
  - rewrite Hn. simpl. lia.
  - intros y b1 Hy Hb1. rewrite negb_involutive. unfold UMQ_QBUF_DEFAULT_MEMPOOL_ID. eapply Hid; [by right|done].
Qed.

Lemma umq_qbuf_free_spec t list l w own :
  Inv w own -> chain (mem w) list l -> NoDup l -> l <> [] ->
  (forall x, x ∈ l -> own x = Some PHeld /\ is_data (g_qbuf_pool w) x = true) ->
  exists w' own', umq_qbuf_free t list w = Some w' /\ Inv w' own' /\ same_pool w w' /\
    (forall x, own' x = Some PHeld <-> own x = Some PHeld /\ x ∉ l) /\
    (forall x, own x = Some PHeld -> x ∉ l -> mem w' !! x = mem w !! x).
Proof.
  intros HI Hc Hnd Hne Hl. unfold umq_qbuf_free. rewrite (geo_inited _ _ (inv_geo w own HI)). cbn [negb].
  destruct (get_thread_cache_inv t w own HI) as [HI0 Ht0]. set (w0 := get_thread_cache t w) in *.
  assert (Hg : g_qbuf_pool w0 = g_qbuf_pool w /\ mem w0 = mem w /\ g_pow w0 = g_pow w)
    by (unfold w0, get_thread_cache; by case_match). destruct Hg as (Hg & Hm & Hp).
  assert (Hz : negb (no_data_zone list w0) = true).
  { rewrite no_data_is_data, negb_involutive, Hg. apply Hl. destruct l; [done|]. destruct Hc as [-> _]. by left. }
  rewrite Hz. destruct (put_list_inv t true w0 own list l HI0 Ht0) as (w1 & E & HI1 & [[Hp1 Hs1] Ht1] & _ & Hm1);
    [by rewrite Hm|done|done|by rewrite Hg|].
  rewrite E. cbn [mbind option_bind]. rewrite Hm in Hm1. rewrite Hg in Hs1. rewrite Hp in Hp1.
  assert (Hh : forall x, move own l (PLocal t) x = Some PHeld <-> own x = Some PHeld /\ x ∉ l).
  { intros x. unfold move. case_decide; [|tauto]. split; [done|tauto]. }
  destruct (over_threshold true (pool_cnt true (local_of t w1))) eqn:Eth.
  - assert (Hth : QBUF_POOL_TLS_MAX < cnt_of true (PLocal t) w1).
    { unfold cnt_of, slot. rewrite Ht1. simpl in *. unfold QBUF_POOL_TLS_MAX, QBUF_POOL_BATCH_CNT in *. breflect. lia. }
    destruct (return_step_inv t true w1 _ HI1 Ht1 Hth) as (w2 & m & E2 & HI2 & [[Hp2 Hs2] _] & Hm2 & _ & _ & Hf2).
    exists w2, (move (move own l (PLocal t)) m PGlobal). split; [done|]. split_and!; [done|split; congruence| |].
    + intros x. rewrite <- Hh. unfold move at 1. case_decide as Hx; [|done]. rewrite (Hm2 x Hx). done.
    + intros x Hx Hxl. rewrite Hf2; [by apply Hm1|]. by apply Hh.
  - eexists _, _. split; [done|]. split; [exact HI1|]. split; [done|]. split; [exact Hh|]. intros x _ Hx. by apply Hm1.
Qed.

(** the same through umq_buf_free *)
Lemma umq_buf_free_small queue t a p l own :
  g_umq_inited a = true -> Inv (a_world a) own -> chain (api_mem a) p l -> NoDup l -> l <> [] ->
  (forall x, x ∈ l -> own x = Some PHeld /\ is_data (g_qbuf_pool (a_world a)) x = true) ->
  exists w' own', umq_buf_free queue t p a = Some (set_world w' a) /\ Inv w' own' /\ same_pool (a_world a) w' /\
    (forall x, own' x = Some PHeld <-> own x = Some PHeld /\ x ∉ l) /\
    (forall x, own x = Some PHeld -> x ∉ l -> mem w' !! x = api_mem a !! x).
Proof.
  intros Hi HI Hc Hnd Hne Hl.
  assert (Hid : forall x b, x ∈ l -> api_mem a !! x = Some b -> umqh b = UMQ_INVALID_HANDLE /\ mempool_id b = 0).
  { intros x b Hx Hb. assert (Hd : x ∈ headers (g_qbuf_pool (a_world a))).
    { apply (inv_dom _ own HI). by rewrite (proj1 (Hl x Hx)). }
    destruct (inv_blocks _ own HI x Hd) as (b' & Hb' & ? & ? & _). unfold api_mem in Hb. by assert (b' = b) as <- by congruence. }
  destruct (umq_qbuf_free_spec t p l (a_world a) own HI Hc Hnd Hne Hl) as (w' & own' & E & H).
  exists w', own'. split; [|done].
  assert (Hp : p ∈ l) by (destruct l; [done|]; destruct Hc as [-> _]; by left).
  destruct (lseg_mapped _ _ _ _ p Hc Hp) as [_ [b Hb]]. destruct (Hid p b Hp Hb) as [Hu Hm].
  rewrite (umq_buf_free_same queue t a p l b) by (done || (intros x b' Hx Hb'; by rewrite Hm, (proj2 (Hid x b' Hx Hb')))).
  unfold free_list. rewrite Hm. change (0 =? UMQ_QBUF_DEFAULT_MEMPOOL_ID) with true. cbv iota. by rewrite E.
Qed.

(** C26: a message allocated without a queue, of a size below the middle
    blocks, comes from the pool of small blocks and goes back to it. The
    allocation either returns NULL and hands out nothing, or returns a chain
    of exactly the buffers the messages need, none of them held before;
    releasing that chain always succeeds and leaves the application with what
    it held before. The pools of larger blocks are not touched. *)
Theorem umq_buf_alloc_free_roundtrip queue callback t request num opt a held :
  let w := a_world a in
  let headroom := alloc_headroom opt w in
  let k := frag_count (max_data (g_qbuf_pool w)) request headroom in
  g_umq_inited a = true -> safe (w, held) -> alloc_args request num opt w -> request <= UMQ_MAX_BUF_REQUEST_SIZE ->
  request + headroom + SIZEOF_UMQ_BUF < umq_buf_size_middle (g_pow w) ->
  exists a1 p, umq_buf_alloc queue callback t request num UMQ_INVALID_HANDLE opt a = Some (a1, p) /\ a_huge a1 = a_huge a /\
    (p = 0 /\ safe (a_world a1, held) \/
     p <> 0 /\ exists l a2, chain (api_mem a1) p l /\ zlen l = num * k /\ NoDup l /\ (forall x, x ∈ l -> x ∉ held) /\
       safe (a_world a1, held ∪ list_to_set l) /\
       umq_buf_free queue t p a1 = Some a2 /\ safe (a_world a2, held) /\ a_huge a2 = a_huge a).
Proof.
  intros w headroom k Hi (own & HI & Hh) (Hn & Hq & Hr & Hw) Hmax Hsize. simpl in HI, Hh.
  assert (Hk : 1 <= k).
  { pose proof (max_data_range _ _ (inv_geo w own HI)) as Hg. fold headroom in Hr. unfold UMQ_HEADROOM_SIZE_LIMIT in *.
    apply frag_count_bounds; lia. }
  unfold umq_buf_alloc. rewrite Hi, (proj2 (Z.eqb_neq num 0)), (proj2 (Z.ltb_ge _ request)) by lia. cbn [negb orb].
  fold w. change (default (pl_headroom_size (g_qbuf_pool w)) opt) with headroom.
  fold headroom in Hr. rewrite (proj2 (Z.ltb_ge _ headroom)) by lia.
  change (UMQ_INVALID_HANDLE =? UMQ_INVALID_HANDLE) with true. cbv iota.
  set (factor := if decide _ then 0 else SIZEOF_UMQ_BUF).
  assert (Hf : 0 <= factor <= SIZEOF_UMQ_BUF) by (unfold factor, SIZEOF_UMQ_BUF; case_decide; lia).
  unfold UMQ_HEADROOM_SIZE_LIMIT, SIZEOF_UMQ_BUF in *. rewrite u32_small, (proj2 (Z.ltb_lt _ _)) by lia.
  destruct (umq_qbuf_alloc_spec t request num opt w own) as (w1 & ret & first & own1 & E & HI1 & Hs1 & H); [done..|].
  rewrite E. cbn [mbind option_bind]. eexists _, _. split; [done|]. split; [done|]. fold headroom k in H.
  destruct (num * k <=? _).
  - destruct H as (-> & l & Hc & Hl & Hnd & Hfrom & Hheld & _). change (UMQ_SUCCESS =? UMQ_SUCCESS) with true. cbv iota.
    assert (Hne : l <> []) by (intros ->; change (zlen (@nil Z)) with 0 in *; nia).
    assert (Hx : forall x, x ∈ l -> own1 x = Some PHeld /\ is_data (g_qbuf_pool w1) x = true).
    { intros x Hx. rewrite (same_is_data _ _ (proj2 Hs1)). split; [apply Hheld; by right|]. by apply Hfrom. }
    assert (Hout : forall x, x ∈ l -> x ∉ held).
    { intros x Hxl Hxh%Hh. destruct (Hfrom x Hxl) as [[Ho|Ho] _]; congruence. }
    destruct (umq_buf_free_small queue t (set_world w1 a) first l own1) as (w2 & own2 & E2 & HI2 & _ & Hheld2 & _); [done..|].
    right. split. { destruct l as [|x l]; [done|]. destruct Hc as (-> & ? & _). done. }
    exists l, (set_world w2 (set_world w1 a)). split_and!; [done..| |done| |done].
    + exists own1. split; [done|]. intros x. cbn [snd]. rewrite Hheld, Hh. set_solver.
    + exists own2. split; [done|]. intros x. cbn [snd]. rewrite Hheld2, Hheld, Hh. split; [tauto|]. intros Hxh.
      split; [by left|]. intros Hxl. by apply (Hout x).
  - destruct H as (-> & -> & Hheld). left. split; [done|]. exists own1. split; [done|]. intros x. cbn [snd]. by rewrite Hheld.
Qed.

(** ** Releasing the first message of a batch *)

Lemma break_loop_spec max request headroom h x bx q :
  0 < max -> 0 <= headroom < max -> 0 < request < 2 ^ 32 -> h !! x = Some bx ->
  forall l i p f, lseg h p (l ++ [x]) q -> 0 <= i -> i + zlen (l ++ [x]) = frag_count max request headroom ->
  (forall (n : nat) y, (l ++ [x]) !! n = Some y -> exists b, h !! y = Some b /\
     data_size b = frag_bytes max request headroom (i + Z.of_nat n)) ->
  break_loop (length l + S f) h p (request - frag_start max headroom i) = Some (<[x := set_next 0 bx]> h, q).
Proof.
  intros Hm Hh Hq Hbx. induction l as [|y l IH]; intros i p f Hc Hi Hlen Hd.
  - destruct Hc as (-> & Hx & b & Hb & Hn). assert (b = bx) as -> by congruence. simpl in Hn.
    change (zlen ([] ++ [x])) with 1 in Hlen. cbn [length Nat.add break_loop].
    pose proof (frag_start_lt max request headroom Hm Hh ltac:(lia) i ltac:(lia)) as Hs.
    pose proof (frag_last max request headroom Hm Hh ltac:(lia)) as Hlast. rewrite frag_size_at in Hlast by lia.
    replace (frag_count max request headroom - 1) with i in Hlast by lia.
    rewrite (proj2 (Z.eqb_neq x 0)), (proj2 (Z.leb_gt _ 0)) by lia. cbn [orb]. rewrite Hbx. cbn [mbind option_bind].
    destruct (Hd 0%nat x eq_refl) as (b & Hb' & E). assert (b = bx) as -> by congruence.
    replace (i + Z.of_nat 0) with i in E by lia. unfold frag_bytes in E. rewrite (proj2 (Z.leb_le _ (data_size bx))) by lia.
    destruct (set_list_next_Some h x 0 bx Hbx) as [-> _]. cbn [mbind option_bind]. by rewrite Hn.
  - destruct Hc as (-> & Hy & b & Hb & Hc). cbn [length Nat.add break_loop]. pose proof (zlen_nonneg l).
    assert (Hl : zlen ((y :: l) ++ [x]) = 1 + zlen (l ++ [x])) by (unfold zlen; rewrite <- app_comm_cons; cbn [length]; lia).
    assert (Hpos : 0 < zlen (l ++ [x])) by (rewrite zlen_app; change (zlen [x]) with 1; lia).
    pose proof (frag_start_lt max request headroom Hm Hh ltac:(lia) i ltac:(lia)) as Hs.
    pose proof (frag_start_lt max request headroom Hm Hh ltac:(lia) (i + 1) ltac:(lia)) as Hs1.
    destruct (frag_start_next max request headroom Hm Hh ltac:(lia) i ltac:(lia)) as [_ En].
    pose proof (frag_size_pos max request headroom Hm Hh ltac:(lia) i ltac:(lia)) as Hp.
    destruct (Hd 0%nat y eq_refl) as (b0 & Hb0 & E). assert (b0 = b) as -> by congruence.
    replace (i + Z.of_nat 0) with i in E by lia. rewrite frag_size_at in En, Hp by lia. unfold frag_bytes in E.
    rewrite (proj2 (Z.eqb_neq y 0)), (proj2 (Z.leb_gt _ 0)) by lia. cbn [orb]. rewrite Hb. cbn [mbind option_bind].
    rewrite (proj2 (Z.leb_gt _ (data_size b))) by lia. rewrite u32_small by lia.
    replace (request - _ - data_size b) with (request - frag_start max headroom (i + 1)) by lia.
    apply IH; [done|lia|lia|]. intros n z Hz. destruct (Hd (S n) z Hz) as (bz & ? & ?). exists bz.
    by replace (i + 1 + Z.of_nat n) with (i + Z.of_nat (S n)) by lia.
Qed.

(** C32: umq_buf_break_and_free on a batch of held buffers whose first message
    lies in the buffers [l1], as an allocation lays it out, releases exactly
    the buffers of that message and returns the chain of the rest, whose
    headers are as before. *)
Theorem umq_buf_break_and_free_correct queue t a held p l1 l2 request headroom :
  let g := g_qbuf_pool (a_world a) in
  g_umq_inited a = true -> safe (a_world a, held) -> chain (api_mem a) p (l1 ++ l2) -> NoDup (l1 ++ l2) ->
  (forall x, x ∈ l1 ++ l2 -> x ∈ held /\ is_data g x = true) ->
  zlen l1 = frag_count (max_data g) request headroom ->
  laid_out (data_base g) (max_data g) (zlen l1) request headroom (api_mem a) l1 ->
  0 < request < 2 ^ 31 -> 0 <= headroom <= UMQ_HEADROOM_SIZE_LIMIT ->
  exists a' next, umq_buf_break_and_free queue t p a = Some (a', next) /\ chain (api_mem a') next l2 /\
    safe (a_world a', held ∖ list_to_set l1) /\ a_huge a' = a_huge a /\
    (forall x, x ∈ l2 -> api_mem a' !! x = api_mem a !! x).
Proof.
  intros g Hi (own & HI & Hh) Hc Hnd Hl Hlen Hlay Hq Hr. simpl in HI, Hh.
  pose proof (max_data_range _ _ (inv_geo _ own HI)) as Hmax. fold g in Hmax. unfold UMQ_HEADROOM_SIZE_LIMIT in Hr.
  pose proof (frag_count_bounds (max_data g) request headroom ltac:(lia) ltac:(lia) ltac:(lia)) as [Hk _].
  destruct l1 as [|x0 l _] using rev_ind; [change (zlen (@nil Z)) with 0 in Hlen; lia|]. rename x0 into x.
  set (l1 := l ++ [x]) in *. pose proof (list_fuel_split _ _ _ Hc Hnd) as [n Hn].
  apply lseg_app in Hc as (q & Hc1 & Hc2). apply NoDup_app in Hnd as (Hnd1 & Hdis & Hnd2).
  assert (Hxl : x ∈ l1) by (unfold l1; set_solver). destruct (lseg_mapped _ _ _ _ x Hc1 Hxl) as [_ [bx Hbx]].
  assert (Hp : l1 !! 0%nat = Some p).
  { pose proof (lseg_head _ _ _ _ Hc1) as E. unfold l1 in *. destruct l; simpl in *; congruence. }
  destruct (Hlay 0%nat p Hp) as (b & Hb & _ & Et & _). rewrite Z.mod_0_l in Et by lia. simpl in Et.
  destruct (lseg_mapped _ _ _ _ p Hc1) as [Hp0 _]; [by eapply list_elem_of_lookup_2|].
  set (h := <[x := set_next 0 bx]> (api_mem a)).
  assert (Hbreak : break_loop (list_fuel (api_mem a)) (api_mem a) p (total_data_size b) = Some (h, q)).
  { rewrite Hn, Et. replace (length (l1 ++ l2) + S n)%nat with (length l + S (length l2 + S n))%nat
      by (unfold l1; rewrite !length_app; simpl; lia).
    replace request with (request - frag_start (max_data g) headroom 0) at 1 by (unfold frag_start; simpl; lia).
    eapply (break_loop_spec (max_data g) request headroom); [lia..|done|exact Hc1|lia|fold l1; lia|].
    intros i y Hy. destruct (Hlay i y Hy) as (by' & ? & _ & _ & _ & _ & E). exists by'. split; [done|].
    pose proof (lookup_lt_Some _ _ _ Hy). rewrite Z.mod_small in E by (unfold zlen, l1 in *; lia).
    by replace (0 + Z.of_nat i) with (Z.of_nat i) by lia. }
  destruct (set_list_next_Some (api_mem a) x 0 bx Hbx) as [_ Hrel]. fold h in Hrel.
  assert (HI' : Inv (set_mem h (a_world a)) own).
  { apply write_inv; [done| |].
    - intros y Hy. apply Hrel. intros ->%list_elem_of_singleton. apply Hy, Hh, Hl. set_solver.
    - intros y Hy. eapply relinked_block_ok; [exact Hrel|]. apply HI. apply (inv_dom _ own HI). by rewrite Hy. }
  destruct (umq_buf_free_small queue t (set_api_mem h a) p l1 own) as (w' & own' & E & HI2 & Hs & Hheld & Hframe); [done|done| |done| | |].
  { by apply (lseg_set_last _ l x p q 0 bx). }
  { unfold l1. by destruct l. }
  { intros y Hy. destruct (Hl y) as [H1 H2]; [set_solver|]. split; [by apply Hh|done]. }
  assert (Hrest : forall y, y ∈ l2 -> mem w' !! y = api_mem a !! y).
  { intros y Hy. rewrite Hframe; [apply Hrel|apply Hh, Hl; set_solver|]; [|set_solver].
    intros ->%list_elem_of_singleton. by apply (Hdis x). }
  exists (set_world w' (set_api_mem h a)), q. unfold umq_buf_break_and_free.
  rewrite Hi, (proj2 (Z.eqb_neq p 0)) by done. cbn [negb orb]. rewrite Hb. cbn [mbind option_bind]. rewrite Hbreak.
  cbn [mbind option_bind]. rewrite E. cbn [mbind option_bind]. split; [done|]. split; [|split; [|done]].
  - eapply lseg_frame; [exact Hc2|]. intros y Hy. unfold QBUF_LIST_NEXT, api_mem at 1. simpl. by rewrite Hrest.
  - exists own'. split; [done|]. intros y. cbn [snd]. rewrite Hheld, Hh. set_solver.
Qed.

(** ** Examples: the pool of 512 small blocks, and regions of two middle blocks *)

Definition ex_queue (_ : Z) : option umq_t := None.
Definition ex_far (id : Z) (_ : huge_qbuf_pool_size_type) : option Z :=
  if id <? 3 then Some (id * 2 ^ 24) else None.
Definition ex_api : api := {| g_umq_inited := true; a_world := ex_world; a_huge := ex_ctx |}.
Definition ex_api2 : api :=
  set_api_mem (mem ex_world ∪ list_to_map ((fun x => (x, raw_header)) <$>
    [2 ^ 24; 2 ^ 24 + 49152; 2 * 2 ^ 24; 2 * 2 ^ 24 + 49152])) ex_api.

Lemma umq_buf_alloc_free_roundtrip_witness :
  exists a1 p, umq_buf_alloc ex_queue ex_far 0 10000 2 UMQ_INVALID_HANDLE None ex_api = Some (a1, p) /\
    a_huge a1 = a_huge ex_api.
Proof.
  destruct (umq_buf_alloc_free_roundtrip ex_queue ex_far 0 10000 2 None ex_api ∅ eq_refl ex_safe) as (a1 & p & E & H & _).
  - exact (ex_args 2 ltac:(lia) ltac:(lia)).
  - by vm_compute.
  - by vm_compute.
  - exists a1, p. exact (conj E H).
Defined.

(** two messages of two buffers each, allocated together *)
Lemma umq_buf_break_and_free_correct_witness :
  exists a1 p l1 l2 a2 q, umq_buf_break_and_free ex_queue 0 p a1 = Some (a2, q) /\ zlen l1 = 2 /\ zlen l2 = 2 /\
    chain (api_mem a1) p (l1 ++ l2) /\ chain (api_mem a2) q l2.
Proof.
  destruct ex_facts as (F1 & F2 & F3 & F4 & _). destruct ex_init as [_ HI].
  destruct (ex_args 2 ltac:(lia) ltac:(lia)) as (A1 & A2 & A3 & A4).
  destruct (umq_qbuf_alloc_spec 0 10000 2 None ex_world _ HI A1 A2 A3 A4) as (w1 & ret & first & own1 & E & HI1 & Hs & H).
  rewrite ex_headroom, F1, F2, F3 in H.
  destruct H as [_ (l & Hc & Hl & Hnd & Hfrom & Hheld & Hlay & _)]. change (zlen l = 4) in Hl.
  change (frag_count 8064 10000 64) with 2 in Hlay. destruct Hs as [_ Hs].
  destruct (zlen_split l 2) as (l1 & l2 & -> & Hl1); [lia|]. rewrite zlen_app in Hl. symmetry in Hl1.
  destruct (umq_buf_break_and_free_correct ex_queue 0 (set_world w1 ex_api) (list_to_set (l1 ++ l2)) first l1 l2 10000 64)
    as (a2 & q & E2 & Hc2 & _).
  - reflexivity.
  - exists own1. split; [exact HI1|]. intros x. cbn [snd]. rewrite Hheld, elem_of_list_to_set. split; [|by right].
    intros [Hx|Hx]; [destruct (all_global_not_held _ _ Hx)|exact Hx].
  - exact Hc.
  - exact Hnd.
  - intros x Hx. split; [by apply elem_of_list_to_set|]. change (is_data (g_qbuf_pool w1) x = true).
    rewrite (same_is_data _ _ Hs). by apply Hfrom.
  - change (zlen l1 = frag_count (max_data (g_qbuf_pool w1)) 10000 64). rewrite (same_max_data _ _ Hs), F3. exact Hl1.
  - change (laid_out (data_base (g_qbuf_pool w1)) (max_data (g_qbuf_pool w1)) (zlen l1) 10000 64 (mem w1) l1).
    rewrite (same_max_data _ _ Hs), (same_data_base _ _ Hs), F3, Hl1.
    intros i x Hi. apply Hlay. by apply lookup_app_l_Some.
  - lia.
  - unfold UMQ_HEADROOM_SIZE_LIMIT. lia.
  - exists (set_world w1 ex_api), first, l1, l2, a2, q. split; [exact E2|]. split; [exact Hl1|]. split; [lia|]. split; [exact Hc|exact Hc2].
Defined.
(** [q] linked behind the last buffer of [p], as an application joins two messages *)
Definition ex_link (p q : Z) (a : api) : api :=
  match last (elements_of (api_mem a) p) with
  | Some x => set_api_mem (alter (set_next q) x (api_mem a)) a
  | None => a
  end.

(** the pools of the buffers of a chain, and how far their data reaches
    beyond their blocks of 8 KiB *)
Definition ex_chain {A} (f : Z -> umq_buf -> A) (a : api) (p : Z) : list (option A) :=
  (fun x => f x <$> api_mem a !! x) <$> elements_of (api_mem a) p.
Definition ex_ids : api -> Z -> list (option Z) := ex_chain (fun _ b => mempool_id b).
Definition ex_excess : api -> Z -> list (option Z) :=
  ex_chain (fun x b => Z.max 0 (buf_data b + data_size b - (x + 8192))).
Definition ex_mid_list (a : api) : list (option Z) := ex_ids a (head_with_data (hp_block_pool (hc_mid (a_huge a)))).

Definition ex_alloc (request num : Z) (opt : option Z) (a : api) : option (api * Z) :=
  umq_buf_alloc ex_queue ex_far 0 request num UMQ_INVALID_HANDLE opt a.

(** a message of small blocks followed by one of two middle blocks *)
Definition ex_mixed (request : Z) : option (api * Z) :=
  '(a, p) ← ex_alloc request 1 None ex_api2;
  '(a, q) ← ex_alloc 60000 1 None a;
  Some (ex_link p q a, p).

(** Calls that break the pools. Releasing a chain of one small buffer
    followed by buffers of a larger pool dereferences NULL; with two small
    buffers in front, these end up in the list of the middle blocks. Resetting
    a buffer with a combined header sets a size beyond its block. After a
    shorter headroom has emptied the last buffer of a message, breaking the
    batch leaves that buffer behind. A longer headroom on two messages of two
    buffers pushes the second message beyond its block. A number of messages
    whose product with the buffers per message wraps dereferences NULL. *)
Theorem buffer_calls_fault :
  ('(a, p) ← ex_mixed 100; Some (ex_ids a p, umq_buf_free ex_queue 0 p a)) = Some ([Some 0; Some 1; Some 1], None) /\
  ('(a, p) ← ex_mixed 10000; a' ← umq_buf_free ex_queue 0 p a; Some (ex_ids a p, ex_mid_list a')) =
    Some ([Some 0; Some 0; Some 1; Some 1], [Some 1; Some 1; Some 0; Some 0]) /\
  ('(a, p) ← ex_alloc 100 1 None ex_api2; '(a', r) ← umq_buf_reset p a; Some (ex_excess a p, r, ex_excess a' p)) =
    Some ([Some 0], UMQ_SUCCESS, [Some 192]) /\
  ('(a, p) ← ex_alloc 8000 1 (Some 512) ex_api2; '(a, r) ← umq_buf_headroom_reset ex_queue p 0 a;
   '(a', q) ← umq_buf_break_and_free ex_queue 0 p a; Some (ex_ids a p, r, ex_ids a' q)) =
    Some ([Some 0; Some 0], UMQ_SUCCESS, [Some 0]) /\
  ('(a, p) ← ex_alloc 10000 2 (Some 0) ex_api2; '(a', r) ← umq_buf_headroom_reset ex_queue p 128 a;
   Some (ex_excess a p, r, ex_excess a' p)) =
    Some ([Some 0; Some 0; Some 0; Some 0], UMQ_SUCCESS, [Some 0; Some 0; Some 128; Some 0]) /\
  ex_alloc 10000 (2 ^ 31) None ex_api2 = None.
Proof. split_and!; vm_compute; reflexivity. Qed.
