(* ===== verification/QbufShm.v ===== *)
(** * Buffer pools in shared memory (umq_shm_qbuf_pool.c)

    A process that sends through shared memory keeps its buffers in a region
    both processes map, at different addresses. The headers of a message are
    turned into offsets when it is handed over, and back into pointers on the
    other side; released buffers return through a ring and are put back into
    the pool of their owner.

    The heap of a process is keyed by the addresses of its mapping; the ring
    is the byte memory of MsgRing. A pool has one cache per thread; the lock
    over the registered caches makes releasing them one step. The theorems
    show which offsets of a peer are accepted, that following them ends
    whatever the peer wrote, and that a message survives the translation. *)

From S2P Require Import Prelude Memory MsgRing QbufList QbufFrag QbufPool QbufOwn QbufSystem.

Implicit Types (h : gmap Z umq_buf) (l : list Z) (p q x : Z) (t : nat) (wd : bool).

Definition QBUF_INVALID_OFFSET : Z := 2 ^ 64 - 1.
Definition SHM_QBUF_POOL_TLS_MAX : Z := 16.
Definition SHM_QBUF_POOL_BATCH_CNT : Z := 4.
Definition UMQ_OFFSET_DATA_BITS : Z := 2 ^ 63 - 1.
Definition UMQ_RENDEZVOUS_FLAG : Z := 2 ^ 63.
Definition UMQ_ERR_EAGAIN : Z := 11.

Inductive shm_qbuf_pool_type := SHM_QBUF_POOL_TYPE_LOCAL | SHM_QBUF_POOL_TYPE_REMOTE.
#[global] Instance shm_qbuf_pool_type_eq_dec : EqDecision shm_qbuf_pool_type.
Proof. solve_decision. Defined.

Record shm_qbuf_pool_cfg := {
  scfg_buf_addr : Z;
  scfg_total_size : Z;
  scfg_headroom_size : Z;
  scfg_mode : umq_buf_mode;
  scfg_type : shm_qbuf_pool_type;
  scfg_umqh : Z;
  scfg_id : Z
}.

(** struct qbuf_pool of this file *)
Record shm_pool := {
  sp_type : shm_qbuf_pool_type;
  sp_umqh : Z;
  sp_data_buffer : Z;
  sp_header_buffer : Z;
  sp_ext_header_buffer : Z;
  sp_total_size : Z;
  sp_block_size : Z;
  sp_headroom_size : Z;
  sp_total_block_num : Z;
  sp_id : Z;
  sp_mode : umq_buf_mode;
  sp_block_pool : block_pool
}.

Definition sp_set_block_pool (bp : block_pool) (g : shm_pool) : shm_pool :=
  {| sp_type := sp_type g; sp_umqh := sp_umqh g; sp_data_buffer := sp_data_buffer g;
     sp_header_buffer := sp_header_buffer g; sp_ext_header_buffer := sp_ext_header_buffer g;
     sp_total_size := sp_total_size g; sp_block_size := sp_block_size g; sp_headroom_size := sp_headroom_size g;
     sp_total_block_num := sp_total_block_num g; sp_id := sp_id g; sp_mode := sp_mode g; sp_block_pool := bp |}.

(** what one process sees of a pool: its mapping of the headers, the pool,
    the caches of its threads, and the ring buffers come back through *)
Record shm_state := {
  ss_mem : heap;
  ss_pool : shm_pool;
  ss_cache : gmap nat block_pool;
  ss_ring : list Z
}.

Definition ss_global (s : shm_state) : block_pool := sp_block_pool (ss_pool s).
Definition ss_set_mem h (s : shm_state) : shm_state :=
  {| ss_mem := h; ss_pool := ss_pool s; ss_cache := ss_cache s; ss_ring := ss_ring s |}.
Definition ss_set_global (bp : block_pool) (s : shm_state) : shm_state :=
  {| ss_mem := ss_mem s; ss_pool := sp_set_block_pool bp (ss_pool s); ss_cache := ss_cache s; ss_ring := ss_ring s |}.
Definition ss_set_local t (bp : block_pool) (s : shm_state) : shm_state :=
  {| ss_mem := ss_mem s; ss_pool := ss_pool s; ss_cache := <[t := bp]> (ss_cache s); ss_ring := ss_ring s |}.
Definition ss_drop_local t (s : shm_state) : shm_state :=
  {| ss_mem := ss_mem s; ss_pool := ss_pool s; ss_cache := delete t (ss_cache s); ss_ring := ss_ring s |}.
Definition ss_set_ring (m : list Z) (s : shm_state) : shm_state :=
  {| ss_mem := ss_mem s; ss_pool := ss_pool s; ss_cache := ss_cache s; ss_ring := m |}.

(** ** Initialisation *)

Definition shm_header (handle size data addr : Z) (b : umq_buf) : umq_buf :=
  {| qbuf_next := qbuf_next b; umqh := handle; total_data_size := data; buf_size := size;
     data_size := data; headroom_size := 0; first_fragment := first_fragment b;
     token_id := 0; mempool_id := 0; buf_data := addr; qbuf_ext := replicate 8 0 |}.

Definition shm_geometry (cfg : shm_qbuf_pool_cfg) (data blk num hdr ext : Z) (bp : block_pool) : shm_pool :=
  {| sp_type := scfg_type cfg;
     sp_umqh := if decide (scfg_type cfg = SHM_QBUF_POOL_TYPE_LOCAL) then scfg_umqh cfg else 0;
     sp_data_buffer := data; sp_header_buffer := hdr; sp_ext_header_buffer := ext;
     sp_total_size := scfg_total_size cfg; sp_block_size := blk; sp_headroom_size := scfg_headroom_size cfg;
     sp_total_block_num := num;
     sp_id := if decide (scfg_type cfg = SHM_QBUF_POOL_TYPE_LOCAL) then scfg_id cfg else 0;
     sp_mode := scfg_mode cfg; sp_block_pool := bp |}.

Definition umq_shm_global_split_pool_init (pow : Z) (cfg : shm_qbuf_pool_cfg) h : option (heap * shm_pool) :=
  let blk := umq_buf_size_small pow in
  let num := scfg_total_size cfg / ((UMQ_EMPTY_HEADER_COEFFICIENT + 1) * SIZEOF_UMQ_BUF + blk) in
  let hdr := u64 (scfg_buf_addr cfg + num * blk) in
  let ext := u64 (hdr + num * SIZEOF_UMQ_BUF) in
  if decide (scfg_type cfg = SHM_QBUF_POOL_TYPE_REMOTE) then
    Some (h, shm_geometry cfg (scfg_buf_addr cfg) blk num hdr ext zero_block_pool)
  else
    '(h, first) ← init_blocks (Z.to_nat num) 0 (fun i => id_to_buf_with_data_split hdr (u32 i))
       (fun i => shm_header (scfg_umqh cfg) (u32 (blk + SIZEOF_UMQ_BUF)) blk (u64 (scfg_buf_addr cfg + i * blk))) h 0;
    let count := u64 (num * UMQ_EMPTY_HEADER_COEFFICIENT) in
    '(h, first') ← init_blocks (Z.to_nat count) 0 (fun i => id_to_buf_without_data_split ext (u32 i))
       (fun _ => shm_header (scfg_umqh cfg) SIZEOF_UMQ_BUF 0 0) h 0;
    Some (h, shm_geometry cfg (scfg_buf_addr cfg) blk num hdr ext
      {| head_with_data := first; buf_cnt_with_data := num;
         head_without_data := first'; buf_cnt_without_data := count |}).

Definition umq_shm_global_combine_pool_init (pow : Z) (cfg : shm_qbuf_pool_cfg) h : option (heap * shm_pool) :=
  let blk := umq_buf_size_small pow in
  let num := scfg_total_size cfg / blk in
  if decide (scfg_type cfg = SHM_QBUF_POOL_TYPE_REMOTE) then
    Some (h, shm_geometry cfg (scfg_buf_addr cfg) blk num 0 0 zero_block_pool)
  else
    let addr i := id_to_buf_combine (scfg_buf_addr cfg) (u32 i) blk in
    '(h, first) ← init_blocks (Z.to_nat num) 0 addr
       (fun i => shm_header (scfg_umqh cfg) blk (u32 (blk - SIZEOF_UMQ_BUF)) (u64 (addr i + SIZEOF_UMQ_BUF))) h 0;
    Some (h, shm_geometry cfg (scfg_buf_addr cfg) blk num 0 0
      {| head_with_data := first; buf_cnt_with_data := num; head_without_data := 0; buf_cnt_without_data := 0 |}).

(** [calloc] says whether the pool could be allocated; [None] inside is the
    invalid handle *)
Definition umq_shm_global_pool_init (calloc : bool) (pow : Z) (cfg : shm_qbuf_pool_cfg) h :
    option (heap * option shm_pool) :=
  if negb calloc then Some (h, None)
  else match scfg_mode cfg with
    | UMQ_BUF_SPLIT => '(h, g) ← umq_shm_global_split_pool_init pow cfg h; Some (h, Some g)
    | UMQ_BUF_COMBINE => '(h, g) ← umq_shm_global_combine_pool_init pow cfg h; Some (h, Some g)
    | UMQ_BUF_OTHER => Some (h, Some (shm_geometry cfg 0 0 0 0 0 zero_block_pool))
    end.

(** ** Thread caches *)

(** [calloc] says whether a new cache could be allocated; the result is
    [None] inside when it could not *)
Definition shm_get_thread_cache (calloc : bool) t (s : shm_state) : option (shm_state * block_pool) :=
  match ss_cache s !! t with
  | Some lp => Some (s, lp)
  | None => if calloc then Some (ss_set_local t zero_block_pool s, zero_block_pool) else None
  end.

(** one cache given back; a thread without one has nothing to give *)
Definition shm_release_thread_cache t (s : shm_state) : option shm_state :=
  match ss_cache s !! t with
  | None => Some s
  | Some lp =>
    '(h, bp) ← release_list true (ss_mem s) lp (ss_global s);
    '(h, bp) ← release_list false h lp bp;
    Some (ss_drop_local t (ss_set_global bp (ss_set_mem h s)))
  end.

(** the caches of the registered threads, before the pool is freed *)
Fixpoint unregister_all_thread_cache (ts : list nat) (s : shm_state) : option shm_state :=
  match ts with
  | [] => Some s
  | t :: ts => s ← shm_release_thread_cache t s; unregister_all_thread_cache ts s
  end.

(** ** Offsets *)

Definition umq_qbuf_to_offset (qbuf : Z) (g : shm_pool) : Z :=
  if qbuf =? 0 then QBUF_INVALID_OFFSET else u64 (qbuf - sp_data_buffer g).

Definition umq_qbuf_data_to_offset (data : Z) (g : shm_pool) : Z :=
  if data =? 0 then QBUF_INVALID_OFFSET else u64 (data - sp_data_buffer g).

Definition split_qbuf_offset_invalid (offset : Z) (g : shm_pool) : bool :=
  let addr := u64 (offset + sp_data_buffer g) in
  bool_decide (sp_mode g = UMQ_BUF_SPLIT) &&
  ((addr <? sp_header_buffer g) ||
   (u64 (sp_total_block_num g * u64 (sp_block_size g + (UMQ_EMPTY_HEADER_COEFFICIENT + 1) * SIZEOF_UMQ_BUF)) <?
      u64 (offset + SIZEOF_UMQ_BUF)) ||
   negb (u64 (addr - sp_header_buffer g) mod SIZEOF_UMQ_BUF =? 0)).

Definition combine_qbuf_offset_invalid (offset : Z) (g : shm_pool) : bool :=
  bool_decide (sp_mode g = UMQ_BUF_COMBINE) &&
  ((u64 (sp_total_size g - sp_block_size g) <? offset) || negb (offset mod sp_block_size g =? 0)).

Definition umq_offset_to_qbuf (offset : Z) (g : shm_pool) : Z :=
  if u64 (sp_total_size g - SIZEOF_UMQ_BUF) <? offset then 0
  else if split_qbuf_offset_invalid offset g || combine_qbuf_offset_invalid offset g then 0
  else u64 (offset + sp_data_buffer g).

Definition umq_offset_to_qbuf_data (offset size : Z) (g : shm_pool) : Z :=
  if (u64 (sp_total_size g - sp_block_size g) <? offset) || (sp_block_size g <? size) then 0
  else
    let addr := u64 (offset + sp_data_buffer g) in
    let split_invalid := bool_decide (sp_mode g = UMQ_BUF_SPLIT) && (sp_header_buffer g <? u64 (addr + size)) in
    let combine_invalid := bool_decide (sp_mode g = UMQ_BUF_COMBINE) &&
      ((offset <? SIZEOF_UMQ_BUF) || negb (u64 (offset - SIZEOF_UMQ_BUF) mod sp_block_size g =? 0)) in
    if split_invalid || combine_invalid then 0 else addr.

Definition set_links (next data handle : Z) (b : umq_buf) : umq_buf :=
  {| qbuf_next := next; umqh := handle; total_data_size := total_data_size b; buf_size := buf_size b;
     data_size := data_size b; headroom_size := headroom_size b; first_fragment := first_fragment b;
     token_id := token_id b; mempool_id := mempool_id b; buf_data := data; qbuf_ext := qbuf_ext b |}.

(** the two translations of one header *)
Definition to_offsets (g : shm_pool) (b : umq_buf) : umq_buf :=
  set_links (umq_qbuf_to_offset (qbuf_next b) g) (umq_qbuf_data_to_offset (buf_data b) g) (umqh b) b.
Definition to_pointers (g : shm_pool) (handle : Z) (b : umq_buf) : umq_buf :=
  set_links (umq_offset_to_qbuf (qbuf_next b) g) (umq_offset_to_qbuf_data (buf_data b) (data_size b) g) handle b.

(** the loops over the headers: [f] is what happens to one, [next] which
    one comes after it *)
Fixpoint link_loop (f : umq_buf -> umq_buf) (next : umq_buf -> Z) (fuel : nat) h (head : Z) : option heap :=
  match fuel with
  | O => None
  | S n =>
    b ← h !! head;
    let h := <[head := f b]> h in
    if next b =? 0 then Some h else link_loop f next n h (next b)
  end.

Definition umq_shm_qbuf_pointer_to_offset h (qbuf : Z) (g : shm_pool) : option (heap * Z) :=
  h ← link_loop (to_offsets g) qbuf_next (list_fuel h) h qbuf; Some (h, umq_qbuf_to_offset qbuf g).

Definition umq_shm_offset_to_qbuf_pointer h (offset : Z) (g : shm_pool) (handle : Z) : option (heap * Z) :=
  let result := umq_offset_to_qbuf offset g in
  if result =? 0 then Some (h, 0)
  else
    h ← link_loop (to_pointers g handle) (fun b => umq_offset_to_qbuf (qbuf_next b) g) (list_fuel h) h result;
    Some (h, result).

(** ** Handing over

    [enqueue] and [dequeue] are callbacks of the transport: the first takes
    an offset, the second returns a count and the first offset. *)

Definition umq_shm_qbuf_enqueue {R} (enqueue : Z -> R -> option (Z * R)) (rendezvous : bool)
    h (qbuf : Z) (g : shm_pool) (r : R) : option (Z * heap * R) :=
  '(h, offset) ← umq_shm_qbuf_pointer_to_offset h qbuf g;
  if offset =? QBUF_INVALID_OFFSET then Some (UMQ_FAIL, h, r)
  else
    let offset := if rendezvous then Z.lor offset UMQ_RENDEZVOUS_FLAG else offset in
    '(ret, r) ← enqueue offset r;
    if ret =? UMQ_SUCCESS then Some (ret, h, r)
    else
      b ← h !! qbuf;
      '(h, _) ← umq_shm_offset_to_qbuf_pointer h (Z.land offset UMQ_OFFSET_DATA_BITS) g (umqh b);
      Some (ret, h, r).

(** the first buffer (NULL when nothing came) and the rendezvous flag *)
Definition umq_shm_qbuf_dequeue {R} (dequeue : R -> option (Z * Z * R)) (handle : Z)
    h (g : shm_pool) (r : R) : option (Z * bool * heap * R) :=
  '(cnt, offset, r) ← dequeue r;
  if cnt <=? 0 then Some (0, false, h, r)
  else
    let rendezvous := negb (Z.land offset UMQ_RENDEZVOUS_FLAG =? 0) in
    '(h, p) ← umq_shm_offset_to_qbuf_pointer h (Z.land offset UMQ_OFFSET_DATA_BITS) g handle;
    Some (p, rendezvous, h, r).

(** ** Buffers coming back *)

Section ring.
Context (ring : msg_ring).

(** the polled offsets; every message of the ring is eight bytes *)
Definition umq_shm_dequeue_qbuf (num : Z) (m : list Z) : option (Z * list Z * list Z) :=
  let max_num := Z.min num SHM_QBUF_POOL_BATCH_CNT in
  '(ret, msgs, m) ← msg_ring_poll_rx_batch ring m 8 max_num;
  if ret <? 0 then Some (- UMQ_ERR_EAGAIN, [], m)
  else offsets ← mapM (fun bs => load64 bs 0) msgs; Some (ret, offsets, m).

Definition is_with_data (qbuf : Z) (g : shm_pool) : bool :=
  (sp_header_buffer g <=? qbuf) && (qbuf <? sp_ext_header_buffer g).

Fixpoint fill_loop (offsets : list Z) (s : shm_state) : option shm_state :=
  match offsets with
  | [] => Some s
  | offset :: rest =>
    '(h, qbuf) ← umq_shm_offset_to_qbuf_pointer (ss_mem s) offset (ss_pool s) (sp_umqh (ss_pool s));
    let s := ss_set_mem h s in
    if qbuf =? 0 then fill_loop rest s
    else
      '(h, bp) ← return_qbuf_to_global (ss_mem s) (ss_global s) qbuf (is_with_data qbuf (ss_pool s));
      fill_loop rest (ss_set_global bp (ss_set_mem h s))
  end.

Definition umq_shm_poll_and_fill_global (s : shm_state) : option shm_state :=
  '(ret, offsets, m) ← umq_shm_dequeue_qbuf SHM_QBUF_POOL_BATCH_CNT (ss_ring s);
  let s := ss_set_ring m s in
  if ret <? 0 then Some s else fill_loop offsets s.

(** ** Allocation *)

Definition place_shm_split (pow : Z) (g : shm_pool) (x : Z) (_ : umq_buf) (headroom : Z) : Z :=
  let id := buf_to_id_with_data_split (sp_header_buffer g) x in
  u64 (sp_data_buffer g + u32 (id * umq_buf_size_small pow) + headroom).

Definition umq_shm_qbuf_alloc_data_with_split (pow : Z) h (local_pool : block_pool)
    (request_size num list headroom : Z) (g : shm_pool) : option (heap * block_pool * Z) :=
  '(h, rest) ← alloc_data (place_shm_split pow g) (u32 (umq_buf_size_small pow + SIZEOF_UMQ_BUF)) (umq_buf_size_small pow)
     h (head_with_data local_pool) request_size num list headroom;
  Some (h, set_pool true rest (u64 (buf_cnt_with_data local_pool - num)) local_pool, head_with_data local_pool).

(** [while (local count < need) { poll and fill; fetch }]: false when a fetch
    failed. Every successful round adds a batch to the cache. *)
Fixpoint shm_fetch_loop (fuel : nat) t wd (need : Z) (s : shm_state) : option (shm_state * bool) :=
  match fuel with
  | O => None
  | S fuel =>
    lp ← ss_cache s !! t;
    if pool_cnt wd lp <? need then
      s ← umq_shm_poll_and_fill_global s;
      '(h, gp, lp, r) ← fetch_from_global (ss_mem s) (ss_global s) lp wd SHM_QBUF_POOL_BATCH_CNT;
      let s := ss_set_mem h (ss_set_global gp (ss_set_local t lp s)) in
      if r <=? 0 then Some (s, false) else shm_fetch_loop fuel t wd need s
    else Some (s, true)
  end.

Definition shm_buf_count (pow : Z) (mode : umq_buf_mode) (request_size num headroom : Z) : Z :=
  let small := umq_buf_size_small pow in
  if decide (mode = UMQ_BUF_SPLIT) then u32 (num * Z.shiftr (u32 (request_size + headroom + small - 1)) pow)
  else
    let align_size := u32 (small - SIZEOF_UMQ_BUF) in
    u32 (num * (u32 (request_size + headroom + align_size - 1) / align_size)).

Definition shm_take t (take : heap -> block_pool -> option (heap * block_pool * Z)) (s : shm_state) :
    option (shm_state * Z) :=
  lp ← ss_cache s !! t;
  '(h, lp, first) ← take (ss_mem s) lp;
  Some (ss_set_mem h (ss_set_local t lp s), first).

(** The result is the state, the return value and the first element of [list]. *)
Definition umq_shm_qbuf_alloc (calloc : bool) (pow : Z) t (request_size num : Z) (opt : option Z) (list : Z)
    (s : shm_state) : option (shm_state * Z * Z) :=
  match shm_get_thread_cache calloc t s with
  | None => Some (s, - EINVAL, list)
  | Some (s, _) =>
    let g := ss_pool s in
    let headroom := default (sp_headroom_size g) opt in
    let count := shm_buf_count pow (sp_mode g) request_size num headroom in
    if request_size =? 0 then
      if bool_decide (is_Some opt) && (0 <? headroom) then Some (s, - EINVAL, list)
      else if bool_decide (sp_mode g <> UMQ_BUF_SPLIT) then Some (s, - UMQ_ERR_ENOMEM, list)
      else
        '(s, ok) ← shm_fetch_loop (S (S (Z.to_nat num))) t false num s;
        if negb ok then Some (s, - UMQ_ERR_ENOMEM, list)
        else '(s, first) ← shm_take t (fun h lp => umq_qbuf_alloc_nodata h lp num list) s;
             Some (s, UMQ_SUCCESS, first)
    else
      '(s, ok) ← shm_fetch_loop (S (S (Z.to_nat count))) t true count s;
      if negb ok then Some (s, - UMQ_ERR_ENOMEM, list)
      else
        '(s, first) ← shm_take t (fun h lp =>
           if decide (sp_mode g = UMQ_BUF_SPLIT)
           then umq_shm_qbuf_alloc_data_with_split pow h lp request_size count list headroom g
           else umq_qbuf_alloc_data_with_combine pow h lp request_size count list headroom) s;
        Some (s, UMQ_SUCCESS, first)
  end.

(** ** Release *)

Definition umq_shm_enqueue_qbuf (offset : Z) (m : list Z) : option (Z * list Z) :=
  msg_ring_post_rx ring m (le64 offset) 8.

(** the result of posting the offset is not looked at *)
Definition post_release_buf (list : Z) (s : shm_state) : option shm_state :=
  '(h, offset) ← umq_shm_qbuf_pointer_to_offset (ss_mem s) list (ss_pool s);
  '(_, m) ← umq_shm_enqueue_qbuf offset (ss_ring s);
  Some (ss_set_ring m (ss_set_mem h s)).

Definition shm_over_threshold wd (cnt : Z) : bool :=
  if wd then SHM_QBUF_POOL_TLS_MAX + SHM_QBUF_POOL_BATCH_CNT <? cnt
  else SHM_QBUF_POOL_TLS_MAX + SHM_QBUF_POOL_BATCH_CNT <=? cnt.

Definition umq_shm_qbuf_free (calloc : bool) t (list : Z) (s : shm_state) : option shm_state :=
  if decide (sp_type (ss_pool s) = SHM_QBUF_POOL_TYPE_REMOTE) then post_release_buf list s
  else match shm_get_thread_cache calloc t s with
  | None => Some s
  | Some (s, lp) =>
    let g := ss_pool s in
    let wd := negb (bool_decide (sp_mode g = UMQ_BUF_SPLIT) && (sp_ext_header_buffer g <=? list)) in
    '(h, head, cnt) ← release_batch (ss_mem s) list (pool_head wd lp);
    let lp := set_pool wd head (u64 (pool_cnt wd lp + cnt)) lp in
    if shm_over_threshold wd (pool_cnt wd lp) then
      '(h, gp, lp) ← return_to_global h (ss_global s) lp wd SHM_QBUF_POOL_TLS_MAX;
      Some (ss_set_mem h (ss_set_global gp (ss_set_local t lp s)))
    else Some (ss_set_mem h (ss_set_local t lp s))
  end.
End ring.

Definition umq_shm_qbuf_headroom_reset (g : shm_pool) h (qbuf headroom : Z) : option (heap * Z) :=
  headroom_reset h qbuf headroom (sp_mode g) (sp_block_size g).

(** ** Which offsets are accepted *)

Record shm_geo (g : shm_pool) : Prop := {
  sg_block : SIZEOF_UMQ_BUF < sp_block_size g <= sp_total_size g;
  sg_block32 : sp_block_size g < 2 ^ 32;
  sg_num : 0 <= sp_total_block_num g;
  sg_base : sp_total_size g < sp_data_buffer g;
  sg_end : sp_data_buffer g + sp_total_size g < 2 ^ 63;
  sg_mode : match sp_mode g with
    | UMQ_BUF_SPLIT =>
        sp_total_block_num g * (sp_block_size g + 17 * SIZEOF_UMQ_BUF) <= sp_total_size g /\
        sp_header_buffer g = sp_data_buffer g + sp_total_block_num g * sp_block_size g /\
        sp_ext_header_buffer g = sp_header_buffer g + sp_total_block_num g * SIZEOF_UMQ_BUF
    | UMQ_BUF_COMBINE => sp_total_block_num g = sp_total_size g / sp_block_size g
    | UMQ_BUF_OTHER => False
    end
}.

(** the offset of a header of the pool *)
Definition valid_qbuf (g : shm_pool) (off : Z) : bool :=
  if decide (sp_mode g = UMQ_BUF_SPLIT) then
    (sp_total_block_num g * sp_block_size g <=? off) &&
    (off + SIZEOF_UMQ_BUF <=? sp_total_block_num g * (sp_block_size g + 17 * SIZEOF_UMQ_BUF)) &&
    ((off - sp_total_block_num g * sp_block_size g) mod SIZEOF_UMQ_BUF =? 0)
  else (off <=? sp_total_size g - sp_block_size g) && (off mod sp_block_size g =? 0).

(** the offset of data of [size] bytes *)
Definition valid_data (g : shm_pool) (off size : Z) : bool :=
  (size <=? sp_block_size g) && (off <=? sp_total_size g - sp_block_size g) &&
  if decide (sp_mode g = UMQ_BUF_SPLIT) then off + size <=? sp_total_block_num g * sp_block_size g
  else (SIZEOF_UMQ_BUF <=? off) && ((off - SIZEOF_UMQ_BUF) mod sp_block_size g =? 0).

Lemma eq_true_iff_eqb (a b : bool) : (a = true <-> b = true) -> a = b.
Proof. destruct a, b; tauto || (intros [H1 H2]; by (rewrite H1 || rewrite H2)). Qed.

Section offsets.
Context (g : shm_pool).
Hypothesis Hg : shm_geo g.

Lemma umq_offset_to_qbuf_eq off :
  0 <= off < 2 ^ 64 -> umq_offset_to_qbuf off g = if valid_qbuf g off then sp_data_buffer g + off else 0.
Proof using Type*.
  intros Ho. destruct Hg as [Hb Hb32 Hn Hbase Hend Hm]. unfold umq_offset_to_qbuf, SIZEOF_UMQ_BUF in *.
  assert (0 <= sp_total_block_num g * sp_block_size g) by nia.
  rewrite (u64_small (sp_total_size g - 128)) by lia. unfold valid_qbuf, split_qbuf_offset_invalid, combine_qbuf_offset_invalid.
  unfold UMQ_EMPTY_HEADER_COEFFICIENT, SIZEOF_UMQ_BUF. change ((16 + 1) * 128) with 2176. change (17 * 128) with 2176 in *.
  destruct (sp_mode g) eqn:E; [| |done]; repeat case_decide; try done; simpl.
  - destruct Hm as (Hm1 & Hm2 & Hm3). rewrite (u64_small (sp_block_size g + 2176)), orb_false_r by lia.
    rewrite (u64_small (sp_total_block_num g * _)) by lia. case_match; breflect.
    { rewrite (proj2 (Z.leb_gt (off + 128) _)) by lia. by rewrite andb_false_r. }
    rewrite (u64_small (off + sp_data_buffer g)), (u64_small (off + 128)), Hm2 by lia.
    destruct (Z.ltb_spec (off + sp_data_buffer g) (sp_data_buffer g + sp_total_block_num g * sp_block_size g)); simpl.
    { rewrite (proj2 (Z.leb_gt _ off)) by lia. done. }
    rewrite (proj2 (Z.leb_le _ off)) by lia. simpl. rewrite u64_small by lia.
    replace (off + sp_data_buffer g - _) with (off - sp_total_block_num g * sp_block_size g) by lia.
    rewrite Z.ltb_antisym. destruct (_ <=? _), (_ =? 0); simpl; lia.
  - rewrite (u64_small (sp_total_size g - sp_block_size g)) by lia. case_match; breflect.
    { rewrite (proj2 (Z.leb_gt off _)) by lia. done. }
    rewrite (u64_small (off + sp_data_buffer g)), (Z.ltb_antisym off) by lia.
    destruct (_ <=? _), (_ =? 0); simpl; lia.
Qed.

Lemma umq_offset_to_qbuf_data_eq off size :
  0 <= off < 2 ^ 64 -> 0 <= size ->
  umq_offset_to_qbuf_data off size g = if valid_data g off size then sp_data_buffer g + off else 0.
Proof using Type*.
  intros Ho Hs. destruct Hg as [Hb Hb32 Hn Hbase Hend Hm]. unfold umq_offset_to_qbuf_data, valid_data, SIZEOF_UMQ_BUF in *.
  assert (0 <= sp_total_block_num g * sp_block_size g) by nia.
  rewrite (u64_small (sp_total_size g - sp_block_size g)) by lia. rewrite !(Z.ltb_antisym off), Z.ltb_antisym.
  destruct (size <=? sp_block_size g) eqn:E1; [|rewrite orb_true_r; done]. rewrite orb_false_r.
  destruct (off <=? sp_total_size g - sp_block_size g) eqn:E2; simpl; [|done]. breflect.
  rewrite (u64_small (off + sp_data_buffer g)) by lia.
  destruct (sp_mode g) eqn:E; [| |done]; repeat case_decide; try done; simpl.
  - destruct Hm as (Hm1 & Hm2 & Hm3). rewrite orb_false_r, u64_small, Hm2 by lia. rewrite Z.ltb_antisym.
    replace (off + sp_data_buffer g + size <=? sp_data_buffer g + sp_total_block_num g * sp_block_size g)
      with (off + size <=? sp_total_block_num g * sp_block_size g) by (apply eq_true_iff_eqb; rewrite !Z.leb_le; lia).
    destruct (_ <=? _); simpl; lia.
  - rewrite (Z.ltb_antisym 128). destruct (128 <=? off) eqn:E3; simpl; [|done]. breflect.
    rewrite u64_small by lia. destruct (_ =? 0); simpl; lia.
Qed.
End offsets.

(** ** The loops *)

(** the list the links of [next] describe *)
Definition links (next : umq_buf -> Z) h : heap := (fun b => set_next (next b) b) <$> h.

Lemma link_loop_spec f next l : forall h p fuel,
  chain (links next h) p l -> NoDup l -> l <> [] -> (length l <= fuel)%nat ->
  exists h', link_loop f next fuel h p = Some h' /\ forall x, h' !! x = if decide (x ∈ l) then f <$> h !! x else h !! x.
Proof.
  induction l as [|y l IH]; intros h p [|fuel] Hc Hnd Hne Hf; cbn [length] in Hf; [done..|lia|].
  destruct Hc as (-> & Hy & b' & Hb' & Hc). unfold links in Hb'. rewrite lookup_fmap in Hb'.
  destruct (h !! y) as [b|] eqn:Hb; [|done]. injection Hb' as <-. cbn [qbuf_next set_next] in Hc.
  apply NoDup_cons in Hnd as [Hyl Hnd]. cbn [link_loop]. rewrite Hb. cbn [mbind option_bind].
  assert (Hone : forall x, <[y := f b]> h !! x = if decide (x ∈ [y]) then f <$> h !! x else h !! x).
  { intros x. destruct (decide (x = y)) as [->|Hxy].
    - rewrite lookup_insert_eq, decide_True by (by left). by rewrite Hb.
    - rewrite lookup_insert_ne, decide_False; [done|set_solver|done]. }
  destruct l as [|z l].
  { simpl in Hc. rewrite Hc. eexists. split; [done|exact Hone]. }
  destruct (decide (next b = 0)) as [E0|E0]; [by destruct Hc as (E & ? & _); congruence|].
  rewrite (proj2 (Z.eqb_neq _ 0)) by done.
  destruct (IH (<[y := f b]> h) (next b) fuel) as (h' & E & Hh'); [|done|done|simpl in *; lia|].
  { eapply lseg_frame; [exact Hc|]. intros x Hx. unfold QBUF_LIST_NEXT, links. rewrite !lookup_fmap.
    rewrite lookup_insert_ne; [done|]. intros <-. done. }
  exists h'. split; [done|]. intros x. rewrite Hh', Hone.
  destruct (decide (x = y)) as [->|Hxy].
  - rewrite (decide_False (P := y ∈ z :: l)), !decide_True by (done || by left). done.
  - rewrite (decide_False (P := x ∈ [y])) by set_solver.
    destruct (decide (x ∈ z :: l)); [rewrite decide_True by (by right)|rewrite decide_False by set_solver]; done.
Qed.

(** ** A message between two mappings

    The same headers seen at another address; pointers in them keep their
    values. *)

Definition view (d : Z) h : heap := kmap (Z.add d) h.

#[global] Instance Zadd_inj d : Inj (=) (=) (Z.add d).
Proof. intros x y. lia. Qed.

Lemma lookup_view d h x : view d h !! x = h !! (x - d).
Proof. unfold view. replace x with (d + (x - d)) at 1 by lia. apply lookup_kmap, _. Qed.

Lemma view_view d d' h : view d (view d' h) = view (d + d') h.
Proof. apply map_eq. intros x. rewrite !lookup_view. f_equal. lia. Qed.

Lemma view_0 h : view 0 h = h.
Proof. apply map_eq. intros x. rewrite lookup_view. f_equal. lia. Qed.

(** what a header says, whatever the mapping *)
Definition canon (g : shm_pool) (b : umq_buf) : umq_buf :=
  set_links 0 (umq_qbuf_data_to_offset (buf_data b) g) 0 b.

(** a message: the offsets and the contents of its headers *)
Definition message (g : shm_pool) h l : list (Z * option umq_buf) :=
  (fun x => (x - sp_data_buffer g, canon g <$> h !! x)) <$> l.

(** a header at [x] that can be handed over *)
Definition portable (g : shm_pool) (x : Z) (b : umq_buf) : Prop :=
  sp_data_buffer g <= x /\ valid_qbuf g (x - sp_data_buffer g) = true /\ 0 <= data_size b /\
  (buf_data b = 0 \/ sp_data_buffer g <= buf_data b /\ valid_data g (buf_data b - sp_data_buffer g) (data_size b) = true).

(** a message in the shared headers, its links and data as offsets *)
Fixpoint encoded (shm : heap) (o : Z) (msg : list (Z * option umq_buf)) : Prop :=
  match msg with
  | [] => o = QBUF_INVALID_OFFSET
  | (o', c) :: msg => o = o' /\ exists b, shm !! o = Some b /\ c = Some (set_links 0 (buf_data b) 0 b) /\
      encoded shm (qbuf_next b) msg
  end.

Definition part_ok (g : shm_pool) (part : Z * option umq_buf) : Prop :=
  let '(o, c) := part in
  0 <= o /\ valid_qbuf g o = true /\
  match c with
  | None => False
  | Some b => 0 <= data_size b /\
      (buf_data b = QBUF_INVALID_OFFSET \/ 0 <= buf_data b /\ valid_data g (buf_data b) (data_size b) = true)
  end.

(** two mappings of one region *)
Record twins (g g' : shm_pool) : Prop := {
  tw_mode : sp_mode g' = sp_mode g;
  tw_total : sp_total_size g' = sp_total_size g;
  tw_block : sp_block_size g' = sp_block_size g;
  tw_num : sp_total_block_num g' = sp_total_block_num g
}.

Lemma twins_refl g : twins g g.
Proof. done. Qed.

Lemma twins_sym g g' : twins g g' -> twins g' g.
Proof. by intros []. Qed.

Lemma twins_valid_qbuf g g' off : twins g g' -> valid_qbuf g' off = valid_qbuf g off.
Proof. intros [E1 E2 E3 E4]. unfold valid_qbuf. by rewrite E1, E2, E3, E4. Qed.

Lemma twins_valid_data g g' off size : twins g g' -> valid_data g' off size = valid_data g off size.
Proof. intros [E1 E2 E3 E4]. unfold valid_data. by rewrite E1, E2, E3, E4. Qed.

Lemma twins_part_ok g g' part : twins g g' -> part_ok g part -> part_ok g' part.
Proof.
  intros Ht. destruct part as [o [b|]]; unfold part_ok; [|intros (_ & _ & [])].
  rewrite (twins_valid_qbuf g g'), (twins_valid_data g g') by done. intros H. exact H.
Qed.

Section transfer.
Context (g : shm_pool).
Hypothesis Hg : shm_geo g.

Lemma geo_facts : 0 < sp_data_buffer g /\ 0 < sp_total_size g < 2 ^ 62 /\ sp_data_buffer g < 2 ^ 63.
Proof using Type*. destruct Hg. unfold SIZEOF_UMQ_BUF in *. lia. Qed.

Lemma valid_qbuf_range off : valid_qbuf g off = true -> off <= sp_total_size g - SIZEOF_UMQ_BUF.
Proof using Type*.
  destruct Hg as [Hb Hb32 Hn Hbase Hend Hm]. unfold valid_qbuf, SIZEOF_UMQ_BUF in *. case_decide as E; intros H; breflect.
  - rewrite E in Hm. lia.
  - lia.
Qed.

Lemma valid_data_range off size : valid_data g off size = true -> off <= sp_total_size g - sp_block_size g /\ size <= sp_block_size g.
Proof using Type*. unfold valid_data. intros H. breflect. done. Qed.

Lemma invalid_offset : umq_offset_to_qbuf QBUF_INVALID_OFFSET g = 0.
Proof using Type*.
  pose proof geo_facts. rewrite umq_offset_to_qbuf_eq by (done || unfold QBUF_INVALID_OFFSET; lia).
  destruct (valid_qbuf g QBUF_INVALID_OFFSET) eqn:E; [|done]. apply valid_qbuf_range in E.
  unfold QBUF_INVALID_OFFSET, SIZEOF_UMQ_BUF in *. lia.
Qed.

Lemma invalid_data_offset size : 0 <= size -> umq_offset_to_qbuf_data QBUF_INVALID_OFFSET size g = 0.
Proof using Type*.
  intros Hs. pose proof geo_facts. rewrite umq_offset_to_qbuf_data_eq by (done || unfold QBUF_INVALID_OFFSET; lia).
  destruct (valid_data g QBUF_INVALID_OFFSET size) eqn:E; [|done]. apply valid_data_range in E as [E _].
  destruct Hg. unfold QBUF_INVALID_OFFSET, SIZEOF_UMQ_BUF in *. lia.
Qed.

(** an accepted offset and its address *)
Lemma offset_address off :
  0 <= off -> valid_qbuf g off = true ->
  umq_offset_to_qbuf off g = sp_data_buffer g + off /\ umq_qbuf_to_offset (sp_data_buffer g + off) g = off /\
  off <> QBUF_INVALID_OFFSET.
Proof using Type*.
  intros H0 Hv. pose proof geo_facts. pose proof (valid_qbuf_range off Hv). unfold SIZEOF_UMQ_BUF in *.
  rewrite umq_offset_to_qbuf_eq, Hv by (done || lia). split; [done|]. unfold umq_qbuf_to_offset, QBUF_INVALID_OFFSET.
  rewrite (proj2 (Z.eqb_neq _ 0)) by lia. rewrite u64_small by lia. lia.
Qed.

Lemma data_offset_round b :
  0 <= data_size b ->
  (buf_data b = 0 \/ sp_data_buffer g <= buf_data b /\ valid_data g (buf_data b - sp_data_buffer g) (data_size b) = true) ->
  (umq_qbuf_data_to_offset (buf_data b) g = QBUF_INVALID_OFFSET \/
   umq_qbuf_data_to_offset (buf_data b) g = buf_data b - sp_data_buffer g /\ 0 <= buf_data b - sp_data_buffer g /\
     valid_data g (buf_data b - sp_data_buffer g) (data_size b) = true).
Proof using Type*.
  intros Hs [E|[H1 H2]]; unfold umq_qbuf_data_to_offset; [by rewrite E; left|].
  pose proof geo_facts. pose proof (valid_data_range _ _ H2) as [? ?]. destruct Hg. unfold SIZEOF_UMQ_BUF in *.
  rewrite (proj2 (Z.eqb_neq _ 0)) by lia. rewrite u64_small by lia. right. done || split_and!; (done || lia).
Qed.

(** the data offset of a header that was handed over, back at this mapping *)
Lemma data_offset_back off size :
  0 <= size -> (off = QBUF_INVALID_OFFSET \/ 0 <= off /\ valid_data g off size = true) ->
  umq_qbuf_data_to_offset (umq_offset_to_qbuf_data off size g) g = off.
Proof using Type*.
  intros Hs [->|[H0 Hv]]; [by rewrite invalid_data_offset|]. pose proof geo_facts.
  pose proof (valid_data_range _ _ Hv) as [? ?]. destruct Hg. unfold SIZEOF_UMQ_BUF in *.
  rewrite umq_offset_to_qbuf_data_eq, Hv by (done || lia). unfold umq_qbuf_data_to_offset.
  rewrite (proj2 (Z.eqb_neq _ 0)) by lia. rewrite u64_small by lia. lia.
Qed.

Definition addresses (msg : list (Z * option umq_buf)) : list Z := (fun part => sp_data_buffer g + part.1) <$> msg.

Lemma addresses_message h l : addresses (message g h l) = l.
Proof using Type*.
  unfold addresses, message. rewrite <- list_fmap_compose. rewrite <- (list_fmap_id l) at 2.
  apply list_fmap_ext. intros i x _. unfold compose. simpl. lia.
Qed.

Lemma encoded_message h h' l : forall p,
  chain h p l -> (forall x, x ∈ l -> exists b, h !! x = Some b /\ portable g x b /\ h' !! x = Some (to_offsets g b)) ->
  encoded (view (- sp_data_buffer g) h') (umq_qbuf_to_offset p g) (message g h l) /\
  Forall (part_ok g) (message g h l).
Proof using Type*.
  induction l as [|x l IH]; intros p Hc Hl; [simpl in Hc; by subst|].
  destruct Hc as (-> & Hx & b & Hb & Hc). destruct (Hl x ltac:(by left)) as (b0 & Hb0 & (H1 & H2 & H3 & H4) & Hb').
  assert (b0 = b) as -> by congruence.
  destruct (IH (qbuf_next b)) as [IH1 IH2]; [done|intros y Hy; apply Hl; by right|].
  destruct (offset_address (x - sp_data_buffer g) ltac:(lia) H2) as (_ & Eo & _).
  replace (sp_data_buffer g + (x - sp_data_buffer g)) with x in Eo by lia.
  unfold message. cbn [fmap list_fmap encoded]. rewrite Hb. split.
  - split; [done|]. exists (to_offsets g b). split_and!; [|done|done].
    rewrite lookup_view, Eo. by replace (x - sp_data_buffer g - - sp_data_buffer g) with x by lia.
  - constructor; [|exact IH2]. unfold part_ok. cbn [fmap option_fmap option_map]. split_and!; [lia|done|done|].
    destruct (data_offset_round b H3 H4) as [E|(E & ? & ?)]; simpl; rewrite E; [by left|by right].
Qed.

(** Handing over turns the headers of the message into offsets. *)
Lemma pointer_to_offset_spec h p l :
  chain h p l -> NoDup l -> l <> [] -> (forall x b, x ∈ l -> h !! x = Some b -> portable g x b) ->
  exists h', umq_shm_qbuf_pointer_to_offset h p g = Some (h', p - sp_data_buffer g) /\
    (forall x, h' !! x = if decide (x ∈ l) then to_offsets g <$> h !! x else h !! x) /\
    encoded (view (- sp_data_buffer g) h') (p - sp_data_buffer g) (message g h l) /\
    Forall (part_ok g) (message g h l).
Proof using Type*.
  intros Hc Hnd Hne Hp.
  destruct (link_loop_spec (to_offsets g) qbuf_next l h p (list_fuel h)) as (h' & E & Hh'); [|done|done| |].
  { eapply lseg_frame; [exact Hc|]. intros x Hx. unfold QBUF_LIST_NEXT, links. rewrite lookup_fmap. by destruct (h !! x). }
  { pose proof (chain_size _ _ _ Hc Hnd). unfold list_fuel. lia. }
  assert (Hl : forall x, x ∈ l -> exists b, h !! x = Some b /\ portable g x b /\ h' !! x = Some (to_offsets g b)).
  { intros x Hx. destruct (lseg_mapped _ _ _ _ x Hc Hx) as [_ [b Hb]]. exists b. rewrite Hh', decide_True, Hb by done. eauto. }
  destruct (encoded_message h h' l p Hc Hl) as [He Hok].
  assert (Eo : umq_qbuf_to_offset p g = p - sp_data_buffer g).
  { assert (Hpl : p ∈ l) by (destruct l; [done|]; destruct Hc as [-> _]; by left).
    destruct (Hl p Hpl) as (b & _ & (H1 & H2 & _) & _).
    destruct (offset_address (p - sp_data_buffer g) ltac:(lia) H2) as (_ & Eo & _).
    by replace (sp_data_buffer g + (p - sp_data_buffer g)) with p in Eo by lia. }
  exists h'. unfold umq_shm_qbuf_pointer_to_offset. rewrite E. cbn [mbind option_bind]. rewrite Eo in *. done.
Qed.

Lemma encoded_chain next shm msg : forall o,
  (forall b, next b = umq_offset_to_qbuf (qbuf_next b) g) ->
  encoded shm o msg -> Forall (part_ok g) msg ->
  chain (links next (view (sp_data_buffer g) shm)) (umq_offset_to_qbuf o g) (addresses msg).
Proof using Type*.
  intros o Hnext. revert o. induction msg as [|[o' c] msg IH]; intros o He Hok.
  { simpl in He. subst. simpl. apply invalid_offset. }
  destruct He as (-> & b & Hb & -> & He). apply Forall_cons in Hok as [(H0 & Hv & _) Hok].
  destruct (offset_address o' H0 Hv) as (Eo & _ & _). pose proof geo_facts.
  unfold addresses. cbn [fmap list_fmap fst]. split; [done|]. split; [lia|].
  exists (set_next (next b) b). unfold links. rewrite lookup_fmap, lookup_view.
  replace (sp_data_buffer g + o' - sp_data_buffer g) with o' by lia. rewrite Hb. split; [done|].
  cbn [qbuf_next set_next]. rewrite Hnext. by apply IH.
Qed.

Lemma decoded_message shm handle h' msg : forall o,
  encoded shm o msg -> Forall (part_ok g) msg ->
  (forall x, x ∈ addresses msg -> h' !! x = to_pointers g handle <$> view (sp_data_buffer g) shm !! x) ->
  message g h' (addresses msg) = msg.
Proof using Type*.
  induction msg as [|[o' c] msg IH]; intros o He Hok Hsub; [done|].
  destruct He as (-> & b & Hb & -> & He). apply Forall_cons in Hok as [(H1 & Hv & Hs & Hd) Hok].
  unfold addresses, message in *. cbn [fmap list_fmap fst] in *. f_equal.
  - replace (sp_data_buffer g + o' - sp_data_buffer g) with o' by lia. f_equal.
    rewrite Hsub, lookup_view by (by left).
    replace (sp_data_buffer g + o' - sp_data_buffer g) with o' by lia. rewrite Hb. cbn [fmap option_fmap option_map].
    f_equal. unfold canon, to_pointers, set_links. simpl in *. f_equal. by apply data_offset_back.
  - apply (IH (qbuf_next b) He Hok). intros x Hx. apply Hsub. by right.
Qed.

(** On the other side they become pointers of that mapping. *)
Lemma offset_to_pointer_spec shm o msg handle :
  encoded shm o msg -> Forall (part_ok g) msg -> NoDup msg.*1 -> msg <> [] ->
  exists h', umq_shm_offset_to_qbuf_pointer (view (sp_data_buffer g) shm) o g handle = Some (h', sp_data_buffer g + o) /\
    chain h' (sp_data_buffer g + o) (addresses msg) /\ message g h' (addresses msg) = msg /\
    (forall x, h' !! x = if decide (x ∈ addresses msg) then to_pointers g handle <$> view (sp_data_buffer g) shm !! x
                         else view (sp_data_buffer g) shm !! x).
Proof using Type*.
  intros He Hok Hnd Hne. set (h := view (sp_data_buffer g) shm).
  set (next := fun b => umq_offset_to_qbuf (qbuf_next b) g).
  pose proof (encoded_chain next shm msg o ltac:(done) He Hok) as Hc. fold h in Hc.
  assert (Hnd' : NoDup (addresses msg)).
  { unfold addresses. rewrite (list_fmap_compose (@fst Z (option umq_buf)) (Z.add (sp_data_buffer g))).
    apply NoDup_fmap_2; [apply _|done]. }
  assert (Hne' : addresses msg <> []) by (by destruct msg).
  destruct (link_loop_spec (to_pointers g handle) next (addresses msg) h (umq_offset_to_qbuf o g) (list_fuel h))
    as (h' & E & Hh'); [done|done|done| |].
  { pose proof (chain_size _ _ _ Hc Hnd') as Hs. unfold links in Hs. rewrite map_size_fmap in Hs. unfold list_fuel. lia. }
  assert (Eo : umq_offset_to_qbuf o g = sp_data_buffer g + o).
  { destruct msg as [|[o' c] msg]; [done|]. destruct He as (-> & _). apply Forall_cons in Hok as [(H0 & Hv & _) _].
    by apply offset_address. }
  pose proof geo_facts. exists h'. unfold umq_shm_offset_to_qbuf_pointer. rewrite Eo in *.
  assert (sp_data_buffer g + o <> 0).
  { destruct msg as [|[o' c] msg]; [done|]. destruct He as (-> & _). apply Forall_cons in Hok as [(H0 & _) _]. lia. }
  rewrite (proj2 (Z.eqb_neq _ 0)) by done. fold next. rewrite E. split; [done|]. split; [|split; [|exact Hh']].
  - eapply lseg_frame; [exact Hc|]. intros x Hx. unfold QBUF_LIST_NEXT, links. rewrite Hh', decide_True, lookup_fmap by done.
    by destruct (h !! x).
  - eapply decoded_message; [exact He|exact Hok|]. intros x Hx. by rewrite Hh', decide_True.
Qed.

(** Translating there and back at one mapping changes nothing. *)
Lemma to_pointers_to_offsets handle x b :
  portable g x b -> umqh b = handle ->
  (qbuf_next b = 0 \/ sp_data_buffer g <= qbuf_next b /\ valid_qbuf g (qbuf_next b - sp_data_buffer g) = true) ->
  to_pointers g handle (to_offsets g b) = b.
Proof using Type*.
  intros (H1 & H2 & H3 & H4) Hh Hn. destruct b as [nx u td bs ds hs ff ti mi bd ext].
  unfold to_pointers, to_offsets, set_links. simpl in *. f_equal; [|done|].
  - destruct Hn as [->|[Hn1 Hn2]]; [apply invalid_offset|].
    destruct (offset_address (nx - sp_data_buffer g) ltac:(lia) Hn2) as (E1 & E2 & _).
    replace (sp_data_buffer g + (nx - sp_data_buffer g)) with nx in * by lia. by rewrite E2.
  - destruct H4 as [->|[H5 H6]]; [by apply invalid_data_offset|]. pose proof geo_facts.
    pose proof (valid_data_range _ _ H6) as [? ?]. destruct Hg. unfold SIZEOF_UMQ_BUF in *.
    unfold umq_qbuf_data_to_offset. rewrite (proj2 (Z.eqb_neq _ 0)) by lia. rewrite u64_small by lia.
    rewrite umq_offset_to_qbuf_data_eq, H6 by (done || lia). lia.
Qed.
End transfer.

(** ** Whatever the peer wrote *)

(** the widths of the fields *)
Definition typed (b : umq_buf) : Prop :=
  0 <= qbuf_next b < 2 ^ 64 /\ 0 <= buf_data b < 2 ^ 64 /\ 0 <= data_size b < 2 ^ 32.

Definition pool_header (g : shm_pool) (x : Z) : Prop :=
  exists off, 0 <= off /\ valid_qbuf g off = true /\ x = sp_data_buffer g + off.

(** the data of a header is missing or inside the region *)
Definition data_in_region (g : shm_pool) (b : umq_buf) : Prop :=
  buf_data b = 0 \/
  sp_data_buffer g <= buf_data b /\ buf_data b + data_size b <= sp_data_buffer g + sp_total_size g.

Section peer.
Context (g : shm_pool) (handle : Z).
Hypothesis Hg : shm_geo g.

Lemma offset_to_qbuf_header off : 0 <= off < 2 ^ 64 ->
  umq_offset_to_qbuf off g = 0 \/ pool_header g (umq_offset_to_qbuf off g).
Proof using Hg.
  intros Ho. rewrite umq_offset_to_qbuf_eq by done. destruct (valid_qbuf g off) eqn:E; [right; exists off; split_and!; done || lia|by left].
Qed.

Lemma to_pointers_region b : typed b -> data_in_region g (to_pointers g handle b).
Proof using Hg.
  intros (_ & Hd & Hs). unfold data_in_region, to_pointers. cbn [buf_data data_size set_links].
  rewrite umq_offset_to_qbuf_data_eq by (done || lia). destruct (valid_data g _ _) eqn:E; [|by left].
  apply valid_data_range in E; [|done]. right. lia.
Qed.

Lemma to_pointers_typed b : typed b -> typed (to_pointers g handle b).
Proof using Hg.
  intros (Hn & Hd & Hs). pose proof (geo_facts g Hg) as (H1 & H2 & H3). unfold typed, to_pointers. cbn [buf_data data_size qbuf_next set_links].
  rewrite umq_offset_to_qbuf_eq, umq_offset_to_qbuf_data_eq by (done || lia).
  destruct Hg. unfold SIZEOF_UMQ_BUF in *. split; [|split; [|done]].
  - destruct (valid_qbuf g _) eqn:E; [|lia]. apply valid_qbuf_range in E; [|done]. unfold SIZEOF_UMQ_BUF in *. lia.
  - destruct (valid_data g _ _) eqn:E; [|lia]. apply valid_data_range in E; [|done]. lia.
Qed.

Let next b := umq_offset_to_qbuf (qbuf_next b) g.

Lemma header_not_null x : pool_header g x -> x <> 0 /\ sp_data_buffer g <= x.
Proof using Hg. intros (off & H0 & _ & ->). pose proof (geo_facts g Hg). lia. Qed.

(** a header whose link is a pointer already ends the loop *)
Lemma next_of_pointer b : typed b -> sp_data_buffer g <= qbuf_next b -> next b = 0.
Proof using Hg.
  intros (Hn & _) Hp. unfold next. rewrite umq_offset_to_qbuf_eq by done. destruct (valid_qbuf g _) eqn:E; [|done].
  apply valid_qbuf_range in E; [|done]. destruct Hg. unfold SIZEOF_UMQ_BUF in *. lia.
Qed.

Lemma peer_loop p fuel : forall h vs cur,
  (forall x, pool_header g x -> is_Some (h !! x)) -> (forall x b, h !! x = Some b -> typed b) ->
  lseg h p vs cur -> NoDup vs -> pool_header g cur -> (length vs + fuel = S (size h))%nat ->
  (forall x, x ∈ vs -> pool_header g x /\ exists b, h !! x = Some b /\ sp_data_buffer g <= qbuf_next b /\ data_in_region g b) ->
  exists h' l, link_loop (to_pointers g handle) next fuel h cur = Some h' /\ chain h' p l /\ NoDup l /\
    (forall x, x ∈ l -> pool_header g x /\ exists b, h' !! x = Some b /\ data_in_region g b) /\
    (forall x, ~ pool_header g x -> h' !! x = h !! x).
Proof using Hg.
  induction fuel as [|fuel IH]; intros h vs cur Hmap Hty Hseg Hnd Hcur Hf Hvs.
  { assert (length vs <= size h)%nat; [|lia]. rewrite <- (size_list_to_set (C := gset Z) vs Hnd), <- size_dom.
    apply subseteq_size. intros x Hx%elem_of_list_to_set. apply elem_of_dom. by eapply lseg_mapped. }
  destruct (Hmap cur Hcur) as [b Hb]. pose proof (Hty cur b Hb) as Htb. pose proof (header_not_null cur Hcur) as [Hc0 _].
  cbn [link_loop]. rewrite Hb. cbn [mbind option_bind]. set (b' := to_pointers g handle b).
  set (h1 := <[cur := b']> h).
  assert (Hb' : qbuf_next b' = next b) by done. pose proof (to_pointers_region b Htb) as Hr. fold b' in Hr.
  assert (Hout : forall x, ~ pool_header g x -> h1 !! x = h !! x).
  { intros x Hx. unfold h1. rewrite lookup_insert_ne; [done|]. intros ->. done. }
  destruct (decide (cur ∈ vs)) as [Hin|Hin].
  - destruct (Hvs cur Hin) as (_ & b0 & Hb0 & Hnx & _). assert (b0 = b) as -> by congruence.
    rewrite (next_of_pointer b Htb Hnx). simpl. apply list_elem_of_split in Hin as (v1 & v2 & ->).
    exists h1, (v1 ++ [cur]). split; [done|]. apply lseg_app in Hseg as (m & Hs1 & Hm & _). subst m.
    assert (Hnd' : NoDup (v1 ++ [cur])).
    { change (v1 ++ cur :: v2) with (v1 ++ [cur] ++ v2) in Hnd. rewrite (assoc (++)) in Hnd. by apply NoDup_app in Hnd as [? _]. }
    assert (Hv1 : cur ∉ v1) by (apply NoDup_app in Hnd' as (_ & Hd & _); intros Hx; apply (Hd cur Hx); by left).
    split; [|split; [done|split; [|done]]].
    + apply lseg_app. exists cur. split.
      * eapply lseg_frame; [exact Hs1|]. intros x Hx. unfold QBUF_LIST_NEXT, h1. rewrite lookup_insert_ne; [done|]. intros <-. done.
      * split; [done|]. split; [done|]. exists b'. unfold h1. rewrite lookup_insert_eq. split; [done|].
        rewrite Hb'. by apply next_of_pointer.
    + intros x [Hx|Hx%list_elem_of_singleton]%elem_of_app; [|subst x].
      * destruct (Hvs x) as (Hp & bx & Hbx & _ & Hdx); [set_solver|]. split; [done|]. exists bx. split; [|done].
        unfold h1. rewrite lookup_insert_ne; [done|]. intros <-. done.
      * split; [done|]. exists b'. unfold h1. by rewrite lookup_insert_eq.
  - assert (Hseg1 : lseg h1 p (vs ++ [cur]) (next b)).
    { apply lseg_app. exists cur. split.
      - eapply lseg_frame; [exact Hseg|]. intros x Hx. unfold QBUF_LIST_NEXT, h1. rewrite lookup_insert_ne; [done|]. intros <-. done.
      - split; [done|]. split; [done|]. exists b'. unfold h1. by rewrite lookup_insert_eq. }
    assert (Hnd1 : NoDup (vs ++ [cur])) by (apply NoDup_app; split_and!; [done|set_solver|apply NoDup_singleton]).
    assert (Hvs1 : forall x, x ∈ vs ++ [cur] -> pool_header g x /\ exists bx, h1 !! x = Some bx /\ data_in_region g bx /\
       (x <> cur -> sp_data_buffer g <= qbuf_next bx)).
    { intros x [Hx|Hx%list_elem_of_singleton]%elem_of_app; [|subst x].
      - destruct (Hvs x Hx) as (Hp & bx & Hbx & Hn & Hdx). split; [done|]. exists bx. split; [|done].
        unfold h1. rewrite lookup_insert_ne; [done|]. intros <-. done.
      - split; [done|]. exists b'. unfold h1. rewrite lookup_insert_eq. split_and!; done. }
    destruct (Z.eqb_spec (next b) 0) as [E0|E0].
    + exists h1, (vs ++ [cur]). split; [done|]. rewrite E0 in Hseg1. split; [done|]. split; [done|]. split; [|done].
      intros x Hx. destruct (Hvs1 x Hx) as (? & bx & ? & ? & _). eauto.
    + destruct (offset_to_qbuf_header (qbuf_next b) ltac:(apply Htb)) as [E|Hnext]; [done|]. fold (next b) in Hnext.
      destruct (IH h1 (vs ++ [cur]) (next b)) as (h' & l & E & Hc & Hl & Hx & Ho); try done.
      * intros x Hx. unfold h1. destruct (decide (x = cur)) as [->|]; [by rewrite lookup_insert_eq|rewrite lookup_insert_ne by done; auto].
      * intros x bx. unfold h1. intros [[<- <-]|[? ?]]%lookup_insert_Some; [by apply to_pointers_typed|eauto].
      * rewrite length_app. unfold h1. rewrite map_size_insert_Some by eauto. simpl. lia.
      * intros x Hxv. destruct (Hvs1 x Hxv) as (? & bx & Hbx & ? & Hn). split; [done|]. exists bx. split_and!; [done| |done].
        destruct (decide (x = cur)) as [->|]; [|auto]. unfold h1 in Hbx. rewrite lookup_insert_eq in Hbx. injection Hbx as <-.
        rewrite Hb'. by apply header_not_null.
      * exists h', l. split_and!; try done. intros x Hxn. rewrite Ho, Hout by done. done.
Qed.
End peer.

(** C13: an offset received from a peer is followed safely whatever the peer
    wrote into the shared headers, cycles and wild links included. The
    translation always ends; it reads and writes headers of the pool only; it
    yields NULL or a NULL-terminated chain of distinct headers of the pool,
    each with its data missing or inside the shared region. *)
Theorem peer_offsets_are_checked g handle h offset :
  shm_geo g -> (forall x, pool_header g x -> is_Some (h !! x)) -> (forall x b, h !! x = Some b -> typed b) ->
  0 <= offset < 2 ^ 64 ->
  exists h' p, umq_shm_offset_to_qbuf_pointer h offset g handle = Some (h', p) /\
    (forall x, ~ pool_header g x -> h' !! x = h !! x) /\
    (p = 0 /\ h' = h \/ exists l, chain h' p l /\ NoDup l /\ l <> [] /\
       forall x, x ∈ l -> pool_header g x /\ exists b, h' !! x = Some b /\ data_in_region g b).
Proof.
  intros Hg Hmap Hty Ho. unfold umq_shm_offset_to_qbuf_pointer.
  destruct (Z.eqb_spec (umq_offset_to_qbuf offset g) 0) as [E|E]; [exists h, 0; eauto|].
  destruct (offset_to_qbuf_header g Hg offset Ho) as [?|Hp]; [done|].
  destruct (peer_loop g handle Hg (umq_offset_to_qbuf offset g) (list_fuel h) h [] (umq_offset_to_qbuf offset g))
    as (h' & l & E2 & Hc & Hnd & Hl & Hout); [done|done|done|apply NoDup_nil_2|done|done|by intros x ?%elem_of_nil|].
  rewrite E2. eexists _, _. split; [done|]. split; [done|]. right. exists l. split_and!; try done.
  intros ->. simpl in Hc. done.
Qed.

(** a pool of two blocks whose headers name each other, with wild data offsets *)
Definition cyc_pool : shm_pool :=
  {| sp_type := SHM_QBUF_POOL_TYPE_REMOTE; sp_umqh := 0; sp_data_buffer := 2 ^ 40; sp_header_buffer := 0;
     sp_ext_header_buffer := 0; sp_total_size := 16384; sp_block_size := 8192; sp_headroom_size := 0;
     sp_total_block_num := 2; sp_id := 0; sp_mode := UMQ_BUF_COMBINE; sp_block_pool := zero_block_pool |}.
Definition cyc_header (next data : Z) : umq_buf :=
  {| qbuf_next := next; umqh := 0; total_data_size := 0; buf_size := 8192; data_size := 9000; headroom_size := 0;
     first_fragment := true; token_id := 0; mempool_id := 0; buf_data := data; qbuf_ext := [] |}.
Definition cyc_heap : heap :=
  {[ 2 ^ 40 := cyc_header 8192 (2 ^ 64 - 1); 2 ^ 40 + 8192 := cyc_header 0 12345 ]}.

Lemma cyc_geo : shm_geo cyc_pool.
Proof. constructor; simpl; unfold SIZEOF_UMQ_BUF; done || lia. Qed.

Lemma peer_offsets_are_checked_witness :
  exists h' p, umq_shm_offset_to_qbuf_pointer cyc_heap 0 cyc_pool 7 = Some (h', p) /\
    exists l, chain h' p l /\ NoDup l /\ l <> [] /\
      forall x, x ∈ l -> pool_header cyc_pool x /\ exists b, h' !! x = Some b /\ data_in_region cyc_pool b.
Proof.
  destruct (peer_offsets_are_checked cyc_pool 7 cyc_heap 0 cyc_geo) as (h' & p & E & _ & Hp).
  - intros x (off & H0 & Hv & ->). apply andb_true_iff in Hv as [H1 H2]. apply Z.leb_le in H1. apply Z.eqb_eq in H2. simpl in *.
    assert (off = 0 \/ off = 8192) as [->| ->] by (apply Z.mod_divide in H2 as [k ->]; lia); eexists; by vm_compute.
  - intros x b Hb. unfold cyc_heap in Hb. apply lookup_insert_Some in Hb as [[_ <-]|[_ Hb]]; [|apply lookup_singleton_Some in Hb as [_ <-]];
      unfold typed; simpl; lia.
  - lia.
  - exists h', p. split; [exact E|]. destruct Hp as [[-> _]|Hp]; [|exact Hp]. exfalso.
    assert (F : snd <$> umq_shm_offset_to_qbuf_pointer cyc_heap 0 cyc_pool 7 = Some (2 ^ 40)) by (by vm_compute).
    rewrite E in F. discriminate F.
Defined.
