(* ===== verification/UmqIpc.v ===== *)
(** * The shared-memory transport (umq_ipc_impl.c)

    A queue of this transport owns a region with a message ring and a buffer
    pool; its peer maps the same region. Sending turns a chain of buffers of
    the pool into offsets and posts the first one; receiving polls an offset
    and turns it back; buffers the peer releases come back through the other
    direction of the ring. The model composes MsgRing and QbufShm; the
    bytes of the rings and the headers of the buffers are separate memories.
    The theorems about it are in UmqIpcSystem, for two processes at work, and
    UmqIpcSetup, for creating and binding. *)

From S2P Require Import Prelude Memory MsgRing QbufList QbufFrag QbufPool QbufOwn QbufSystem QbufShm.

Implicit Types (h shm : gmap Z umq_buf) (l : list Z) (p q x o : Z) (t : nat) (s : shm_state).

Definition UMQ_POST_POLL_BATCH : Z := 64.
Definition UMQ_ERR_ENODEV : Z := 19.

(** struct umq_ipc_ring_info: the mapping and its sizes; the buffer sizes it
    also records are not read *)
Record umq_ipc_ring_info := {
  ri_addr : Z;
  ri_shm_fd : Z;
  ri_shm_size : Z;
  ri_ipc_name : list Z;
  ri_tx_depth : Z;
  ri_rx_depth : Z;
  ri_transmit_queue_buf_size : Z;
  ri_owner : bool
}.

Definition ri_set_map (fd addr : Z) (r : umq_ipc_ring_info) : umq_ipc_ring_info :=
  {| ri_addr := addr; ri_shm_fd := fd; ri_shm_size := ri_shm_size r; ri_ipc_name := ri_ipc_name r;
     ri_tx_depth := ri_tx_depth r; ri_rx_depth := ri_rx_depth r;
     ri_transmit_queue_buf_size := ri_transmit_queue_buf_size r; ri_owner := ri_owner r |}.

(** struct umq_ipc_info; the pools and the bytes of the rings are passed
    along as [shm_state]s *)
Record umq_ipc_info := {
  ipc_trans_mode : Z;
  ipc_bind_ctx : option (umq_ipc_ring_info * msg_ring);
  ipc_ref_cnt : Z;
  ipc_local_msg_ring : msg_ring;
  ipc_local_ring : umq_ipc_ring_info;
  ipc_umq_id : Z;
  ipc_umqh : Z;
  ipc_queue_mode : Z
}.

(** ** Sizes of the region *)

Definition round_up (size align : Z) : Z := Z.land (u64 (size + align - 1)) (u64 (Z.lnot (align - 1))).

Definition UMQ_DEFAULT_DEPTH : Z := 1024.

(** struct umq_create_option, as far as it is read: the name without its
    final NUL, and [None] for a value whose flag is clear *)
Record umq_create_option := {
  co_name : list Z;
  co_trans_mode : Z;
  co_tx_depth : option Z;
  co_mode : Z;
  co_mode_flag : bool
}.

(** the region is mapped later; [shm_size] is an int *)
Definition ring_sizes (pow tx_depth : Z) (name : list Z) (owner : bool) : umq_ipc_ring_info :=
  let small := umq_buf_size_small pow in
  let data_zone_size := u64 (tx_depth * (small + SIZEOF_UMQ_BUF * (1 + UMQ_EMPTY_HEADER_COEFFICIENT))) in
  let post_queue_size := u64 (SHM_RING_HDR_SIZE + tx_depth * 12) in
  let rounded_post_size := round_up (u64 (post_queue_size + post_queue_size)) small in
  {| ri_addr := 0; ri_shm_fd := 0; ri_shm_size := s32 (round_up (u64 (data_zone_size + rounded_post_size)) small);
     ri_ipc_name := name; ri_tx_depth := tx_depth; ri_rx_depth := tx_depth;
     ri_transmit_queue_buf_size := u32 rounded_post_size; ri_owner := owner |}.

(** [None] is -EINVAL *)
Definition fill_ring_info (pow : Z) (opt : umq_create_option) (owner : bool) : option umq_ipc_ring_info :=
  if MAX_MSG_RING_NAME <? zlen (co_name opt) then None
  else Some (ring_sizes pow (default UMQ_DEFAULT_DEPTH (co_tx_depth opt)) (co_name opt) owner).

(** what umq_ipc_create_impl passes on: the options of the ring and of the pool *)
Definition ipc_ring_option (info : umq_ipc_ring_info) (owner : bool) (region : list Z) : msg_ring_option :=
  {| opt_owner := owner; opt_tx_max_buf_size := 12; opt_tx_depth := ri_tx_depth info;
     opt_rx_max_buf_size := 12; opt_rx_depth := ri_tx_depth info; opt_addr := Some region |}.

Definition ipc_pool_cfg (info : umq_ipc_ring_info) (headroom : Z) (mode : umq_buf_mode)
    (type : shm_qbuf_pool_type) (handle id : Z) : shm_qbuf_pool_cfg :=
  {| scfg_buf_addr := u64 (ri_addr info + ri_transmit_queue_buf_size info);
     scfg_total_size := u32 (ri_shm_size info - ri_transmit_queue_buf_size info);
     scfg_headroom_size := headroom; scfg_mode := mode; scfg_type := type; scfg_umqh := handle; scfg_id := id |}.

(** ** Sending and receiving *)

Definition in_ring (info : umq_ipc_ring_info) (qbuf : Z) : bool :=
  (ri_addr info <=? qbuf) && (qbuf <? u64 (ri_addr info + ri_shm_size info)).

Definition is_local_addr (tp : umq_ipc_info) (qbuf : Z) : bool := in_ring (ipc_local_ring tp) qbuf.

Definition is_remote_addr (tp : umq_ipc_info) (qbuf : Z) : bool :=
  match ipc_bind_ctx tp with None => false | Some (info, _) => in_ring info qbuf end.

(** one offset at a time *)
Definition enqueue_data (ring : msg_ring) (offset : Z) (m : list Z) : option (Z * list Z) :=
  msg_ring_post_tx_batch ring m [(le64 offset, 8)].

(** the return value, whether *bad_qbuf was set to the buffer, and the state *)
Definition umq_ipc_enqueue_impl (tp : umq_ipc_info) (qbuf : Z) s : option (Z * bool * shm_state) :=
  if bool_decide (ipc_bind_ctx tp = None) then Some (- UMQ_ERR_ENODEV, false, s)
  else if negb (is_local_addr tp qbuf) then Some (- UMQ_ERR_EINVAL, false, s)
  else
    '(ret, h, m) ← umq_shm_qbuf_enqueue (enqueue_data (ipc_local_msg_ring tp)) false
       (ss_mem s) qbuf (ss_pool s) (ss_ring s);
    Some (ret, negb (ret =? UMQ_SUCCESS), ss_set_ring m (ss_set_mem h s)).

Definition dequeue_data (ring : msg_ring) (m : list Z) : option (Z * Z * list Z) :=
  '(ret, msgs, m) ← msg_ring_poll_tx_batch ring m 8 1;
  if ret <? 0 then Some (- UMQ_ERR_EINVAL, 0, m)
  else match msgs with
    | [] => Some (ret, 0, m)
    | bs :: _ => offset ← load64 bs 0; Some (ret, offset, m)
    end.

(** NULL when there is nothing *)
Definition umq_ipc_dequeue_impl (tp : umq_ipc_info) s : option (Z * shm_state) :=
  match ipc_bind_ctx tp with
  | None => Some (0, s)
  | Some (_, ring) =>
    '(polled, _, h, m) ← umq_shm_qbuf_dequeue (dequeue_data ring) (ipc_umqh tp) (ss_mem s) (ss_pool s) (ss_ring s);
    Some (polled, ss_set_ring m (ss_set_mem h s))
  end.

Definition umq_ipc_buf_alloc_impl (calloc : bool) (pow : Z) t (request_size request_qbuf_num : Z)
    (tp : umq_ipc_info) (opt : option Z) s : option (shm_state * Z) :=
  '(s, ret, first) ← umq_shm_qbuf_alloc (ipc_local_msg_ring tp) calloc pow t request_size request_qbuf_num opt 0 s;
  Some (s, if ret =? UMQ_SUCCESS then first else 0).

(** [local] is the pool of the queue, [remote] that of its peer *)
Definition umq_tp_ipc_buf_free_impl (calloc : bool) t (qbuf : Z) (tp : umq_ipc_info) (local remote : shm_state) :
    option (shm_state * shm_state) :=
  match ipc_bind_ctx tp with
  | Some (info, ring) =>
    if in_ring info qbuf then s ← umq_shm_qbuf_free ring calloc t qbuf remote; Some (local, s)
    else if is_local_addr tp qbuf then
      s ← umq_shm_qbuf_free (ipc_local_msg_ring tp) calloc t qbuf local; Some (s, remote)
    else Some (local, remote)
  | None =>
    if is_local_addr tp qbuf then
      s ← umq_shm_qbuf_free (ipc_local_msg_ring tp) calloc t qbuf local; Some (s, remote)
    else Some (local, remote)
  end.

Definition umq_tp_ipc_buf_headroom_reset_impl (tp : umq_ipc_info) (qbuf headroom : Z) (local remote : shm_state) :
    option (shm_state * shm_state * Z) :=
  if is_remote_addr tp qbuf then
    '(h, r) ← umq_shm_qbuf_headroom_reset (ss_pool remote) (ss_mem remote) qbuf headroom;
    Some (local, ss_set_mem h remote, r)
  else if is_local_addr tp qbuf then
    '(h, r) ← umq_shm_qbuf_headroom_reset (ss_pool local) (ss_mem local) qbuf headroom;
    Some (ss_set_mem h local, remote, r)
  else Some (local, remote, - UMQ_ERR_EINVAL).

(** ** Notification

    The event flag and the counter of the header of the tx ring; a waiter
    sleeps while the flag is clear. *)

Record event_hdr := { cq_event_flag : Z; pending_events : Z }.

(** the atomic accesses of umq_ipc_notify_impl, in order *)
Definition umq_ipc_notify_impl : list (event_hdr -> event_hdr) :=
  [(fun e => {| cq_event_flag := 1; pending_events := pending_events e |});
   (fun e => {| cq_event_flag := cq_event_flag e; pending_events := s32 (pending_events e + 1) |})].

(** and of umq_ipc_ack_interrupt_impl; the last one depends on the value the
    load before it saw *)
Definition ack_sub (nevents : Z) (e : event_hdr) : event_hdr :=
  {| cq_event_flag := cq_event_flag e; pending_events := s32 (pending_events e - nevents) |}.
Definition ack_clear (seen : Z) (e : event_hdr) : event_hdr :=
  if seen =? 0 then {| cq_event_flag := 0; pending_events := pending_events e |} else e.
Definition umq_ipc_ack_interrupt_impl (nevents : Z) (e : event_hdr) : event_hdr :=
  let e := ack_sub nevents e in ack_clear (pending_events e) e.

(** ** The ring as two queues of offsets *)

Section offsets_ring.
Context (ring : msg_ring).
Hypothesis Hmax : tx_max_buf_size ring = 12 /\ rx_max_buf_size ring = 12.
Implicit Types (m : list Z) (qs rs : list Z).

Definition offset_rings m qs rs : Prop := ring_pair ring m (le64 <$> qs, le64 <$> rs).

Lemma fitting_offsets qs : fitting 8 (le64 <$> qs) = (le64 <$> qs, true).
Proof using Type. induction qs as [|o qs IH]; [done|]. cbn [fmap list_fmap fitting]. change (8 <? zlen (le64 o)) with false. by rewrite IH. Qed.

Lemma post_offset m qs rs o :
  offset_rings m qs rs ->
  exists m', enqueue_data ring o m = Some (if tx_depth ring - 1 - zlen qs <? 1 then -1 else 0, m') /\
    offset_rings m' (if tx_depth ring - 1 - zlen qs <? 1 then qs else qs ++ [o]) rs.
Proof using Hmax.
  intros Hp. destruct (ring_step_refines ring m _ (PostTxBatch [le64 o]) Hp) as (m' & E & Hp').
  { simpl. constructor; [|constructor]. change (zlen (le64 o)) with 8. lia. }
  exists m'. simpl in E, Hp'. unfold bq_post_batch in *. change (zlen [le64 o]) with 1 in *.
  replace (zlen (le64 <$> qs)) with (zlen qs) in * by (unfold zlen; by rewrite length_fmap).
  unfold enqueue_data. change (zlen (le64 o)) with 8 in E.
  destruct (msg_ring_post_tx_batch ring m [(le64 o, 8)]) as [[z m1]|]; [|done]. cbn [mbind option_bind] in E.
  destruct (_ <? 1); cbn [fst snd] in *; injection E as -> ->; (split; [done|]); [done|].
  unfold offset_rings. by rewrite fmap_app.
Qed.

Lemma poll_offset m qs rs :
  offset_rings m qs rs -> Forall (fun o => 0 <= o < 2 ^ 64) qs ->
  exists m', dequeue_data ring m = Some (if decide (qs = []) then 0 else 1, default 0 (head qs), m') /\
    offset_rings m' (tail qs) rs.
Proof using Hmax.
  intros Hp Hq. destruct (ring_step_refines ring m _ (PollTxBatch 8 1) Hp ltac:(done)) as (m' & E & Hp').
  exists m'. simpl in E, Hp'. unfold bq_poll_batch in *. unfold dequeue_data. destruct qs as [|o qs].
  - change (zlen (le64 <$> [])) with 0 in *. simpl in *. rewrite E. done.
  - replace (Z.min (zlen (le64 <$> o :: qs)) 1) with 1 in * by (unfold zlen; simpl; lia).
    change (take (Z.to_nat 1) (le64 <$> o :: qs)) with (le64 <$> [o]) in *. rewrite fitting_offsets in *. cbn [fst snd] in *.
    rewrite E. cbn [mbind option_bind]. change (1 <? 0) with false. cbv iota.
    apply Forall_cons in Hq as [Ho _]. change (le64 <$> [o]) with [le64 o]. cbv iota.
    rewrite load64_le64 by done. done.
Qed.

Lemma post_back m qs rs o :
  offset_rings m qs rs ->
  exists m' r, umq_shm_enqueue_qbuf ring o m = Some (r, m') /\
    offset_rings m' qs (if zlen rs =? rx_depth ring - 1 then rs else rs ++ [o]).
Proof using Hmax.
  intros Hp. destruct (ring_step_refines ring m _ (PostRx (le64 o)) Hp ltac:(done)) as (m' & E & Hp').
  exists m'. simpl in E, Hp'. unfold bq_post in *. change (zlen (le64 o)) with 8 in *.
  destruct Hmax as [_ Hr]. rewrite Hr in *. change (12 - 4 <? 8) with false in *. cbv iota in *.
  replace (zlen (le64 <$> rs)) with (zlen rs) in * by (unfold zlen; by rewrite length_fmap).
  unfold umq_shm_enqueue_qbuf. destruct (msg_ring_post_rx ring m (le64 o) 8) as [[z m1]|]; [|done]. cbn [mbind option_bind] in E.
  exists z. destruct (_ =? _); cbn [fst snd] in *; injection E as _ ->; (split; [done|]); [done|].
  unfold offset_rings. by rewrite fmap_app.
Qed.

Lemma mapM_load64 rs : Forall (fun o => 0 <= o < 2 ^ 64) rs -> mapM (fun bs => load64 bs 0) (le64 <$> rs) = Some rs.
Proof using Type.
  induction rs as [|o rs IH]; intros H; [done|]. apply Forall_cons in H as [Ho H]. cbn [fmap list_fmap mapM].
  rewrite load64_le64 by done. cbn [mbind option_bind]. by rewrite IH.
Qed.

Lemma poll_back m qs rs :
  offset_rings m qs rs -> Forall (fun o => 0 <= o < 2 ^ 64) rs ->
  exists m' ret, umq_shm_dequeue_qbuf ring SHM_QBUF_POOL_BATCH_CNT m = Some (ret, take 4 rs, m') /\ 0 <= ret /\
    offset_rings m' qs (drop 4 rs).
Proof using Hmax.
  intros Hp Hr. destruct (ring_step_refines ring m _ (PollRxBatch 8 4) Hp ltac:(done)) as (m' & E & Hp').
  exists m'. simpl in E, Hp'. unfold bq_poll_batch in *. unfold umq_shm_dequeue_qbuf, SHM_QBUF_POOL_BATCH_CNT. change (Z.min 4 4) with 4.
  set (cnt := Z.min (zlen (le64 <$> rs)) 4) in *. pose proof (zlen_nonneg (le64 <$> rs)).
  assert (Ht : take (Z.to_nat cnt) (le64 <$> rs) = le64 <$> take 4 rs).
  { rewrite <- fmap_take. f_equal. unfold cnt, zlen. rewrite length_fmap. destruct (decide (length rs <= 4)%nat).
    - rewrite !take_ge by lia. done.
    - f_equal. lia. }
  assert (Hd : drop (Z.to_nat cnt) (le64 <$> rs) = le64 <$> drop 4 rs).
  { rewrite <- fmap_drop. f_equal. unfold cnt, zlen. rewrite length_fmap. destruct (decide (length rs <= 4)%nat).
    - rewrite !drop_ge by lia. done.
    - f_equal. lia. }
  rewrite Ht, Hd, fitting_offsets in *. cbn [fst snd] in *. exists cnt. rewrite E. cbn [mbind option_bind].
  assert (0 <= cnt) by (unfold cnt; lia). rewrite (proj2 (Z.ltb_ge cnt 0)) by done.
  rewrite mapM_load64 by (by apply Forall_take). done.
Qed.
End offsets_ring.
