(* ===== verification/UmqIpcSystem.v ===== *)
(** * Two processes on one region

    The owner of a region sends buffers of its pool to a peer that has mapped
    the region elsewhere; the peer reads them, writes to them and releases
    them; the owner takes released buffers back. Between these steps either
    side works on the headers it has, in any way. *)

From S2P Require Import Prelude Memory MsgRing QbufList QbufFrag QbufPool QbufOwn QbufSystem QbufShm UmqIpc.

Implicit Types (h shm : gmap Z umq_buf) (l : list Z) (p x o : Z) (s : shm_state) (wd : bool).

Abbreviation msg := (list (Z * option umq_buf)).
Implicit Types (q r : list msg).

(** the region: its headers by offset, the bytes of its rings, and the lists
    of the owner's pool *)
Record region := { y_shm : heap; y_ring : list Z; y_gp : block_pool }.

(** the region with the offsets each side has, and the messages that were
    sent and received *)
Record ipc_state := {
  t_region : region;
  t_own : gset Z;
  t_peer : gset Z;
  t_sent : list msg;
  t_received : list msg
}.

Inductive ipc_event :=
  | ISend (qbuf : Z) | IRecv | IFree (qbuf : Z) | IPoll
  | IOwner (shm : heap) (gp : block_pool) | IPeer (shm : heap).

Definition first_of (m : msg) : Z := match m with (o, _) :: _ => o | [] => QBUF_INVALID_OFFSET end.
Definition offsets_of (ms : list msg) : list Z := mjoin ((fun m : msg => m.*1) <$> ms).

(** how the two sides are connected *)
Record linked (gA gB : shm_pool) (tpA tpB : umq_ipc_info) (ring : msg_ring) : Prop := {
  lk_geoA : shm_geo gA;
  lk_geoB : shm_geo gB;
  lk_twins : twins gA gB;
  lk_size : sp_total_size gA < 2 ^ 31;
  lk_remote : sp_type gB = SHM_QBUF_POOL_TYPE_REMOTE;
  lk_slots : tx_max_buf_size ring = 12 /\ rx_max_buf_size ring = 12;
  lk_ringA : ipc_local_msg_ring tpA = ring;
  lk_boundA : ipc_bind_ctx tpA <> None;
  lk_boundB : exists info, ipc_bind_ctx tpB = Some (info, ring) /\ forall x, pool_header gB x -> in_ring info x = true;
  lk_localA : forall x, pool_header gA x -> is_local_addr tpA x = true
}.

Section system.
Context (gA gB : shm_pool) (tpA tpB : umq_ipc_info) (ring : msg_ring).
(** the peer's own pool, which releasing a received buffer does not use *)
Context (peer_local : shm_state) (calloc : bool) (t : nat).

Definition owner_view (y : region) : shm_state :=
  {| ss_mem := view (sp_data_buffer gA) (y_shm y); ss_pool := sp_set_block_pool (y_gp y) gA; ss_cache := ∅; ss_ring := y_ring y |}.
Definition peer_view (y : region) : shm_state :=
  {| ss_mem := view (sp_data_buffer gB) (y_shm y); ss_pool := gB; ss_cache := ∅; ss_ring := y_ring y |}.
Definition of_owner s : region :=
  {| y_shm := view (- sp_data_buffer gA) (ss_mem s); y_ring := ss_ring s; y_gp := ss_global s |}.
Definition of_peer (y : region) s : region :=
  {| y_shm := view (- sp_data_buffer gB) (ss_mem s); y_ring := ss_ring s; y_gp := y_gp y |}.

Definition offsets_from (d : Z) l : gset Z := list_to_set ((fun x => x - d) <$> l).

Definition ipc_exec (ev : ipc_event) (T : ipc_state) : option ipc_state :=
  let y := t_region T in
  match ev with
  | ISend p =>
    let h := ss_mem (owner_view y) in
    let l := elements_of h p in
    '(ret, _, s) ← umq_ipc_enqueue_impl tpA p (owner_view y);
    Some (if ret =? UMQ_SUCCESS then
      {| t_region := of_owner s; t_own := t_own T ∖ offsets_from (sp_data_buffer gA) l; t_peer := t_peer T;
         t_sent := t_sent T ++ [message gA h l]; t_received := t_received T |}
    else {| t_region := of_owner s; t_own := t_own T; t_peer := t_peer T; t_sent := t_sent T; t_received := t_received T |})
  | IRecv =>
    '(p, s) ← umq_ipc_dequeue_impl tpB (peer_view y);
    let l := elements_of (ss_mem s) p in
    Some (if p =? 0 then
      {| t_region := of_peer y s; t_own := t_own T; t_peer := t_peer T; t_sent := t_sent T; t_received := t_received T |}
    else
      {| t_region := of_peer y s; t_own := t_own T; t_peer := t_peer T ∪ offsets_from (sp_data_buffer gB) l;
         t_sent := t_sent T; t_received := t_received T ++ [message gB (ss_mem s) l] |})
  | IFree p =>
    let l := elements_of (ss_mem (peer_view y)) p in
    '(_, s) ← umq_tp_ipc_buf_free_impl calloc t p tpB peer_local (peer_view y);
    Some {| t_region := of_peer y s; t_own := t_own T; t_peer := t_peer T ∖ offsets_from (sp_data_buffer gB) l;
            t_sent := t_sent T; t_received := t_received T |}
  | IPoll =>
    s ← umq_shm_poll_and_fill_global ring (owner_view y);
    let lists := elements_of (ss_mem s) (head_with_data (ss_global s)) ++ elements_of (ss_mem s) (head_without_data (ss_global s)) in
    Some {| t_region := of_owner s; t_own := t_own T ∪ offsets_from (sp_data_buffer gA) lists; t_peer := t_peer T;
            t_sent := t_sent T; t_received := t_received T |}
  | IOwner shm gp =>
    Some {| t_region := {| y_shm := shm; y_ring := y_ring y; y_gp := gp |}; t_own := t_own T; t_peer := t_peer T;
            t_sent := t_sent T; t_received := t_received T |}
  | IPeer shm =>
    Some {| t_region := {| y_shm := shm; y_ring := y_ring y; y_gp := y_gp y |}; t_own := t_own T; t_peer := t_peer T;
            t_sent := t_sent T; t_received := t_received T |}
  end.

(** the lists of the owner's pool: [gl true] with data, [gl false] without *)
Definition pool_lists shm (gp : block_pool) (own : gset Z) (gl : bool -> list Z) : Prop :=
  (forall wd, pool_rep wd (view (sp_data_buffer gA) shm) gp (gl wd)) /\ NoDup (gl true ++ gl false) /\
  (forall wd x, x ∈ gl wd -> x - sp_data_buffer gA ∈ own).

(** a chain one side may pass on: buffers it has, outside the pool's lists *)
Definition passes (g : shm_pool) shm p (have : gset Z) l : Prop :=
  let h := view (sp_data_buffer g) shm in
  chain h p l /\ NoDup l /\ l <> [] /\
  (forall x b, x ∈ l -> h !! x = Some b -> portable g x b) /\
  (forall x, x ∈ l -> x - sp_data_buffer g ∈ have).

(** When an event may happen: what each side owes. The owner sends chains of
    buffers of one queue which are in none of its lists, and writes only
    headers it has; likewise the peer. *)
Definition ipc_enabled (ev : ipc_event) (T : ipc_state) : Prop :=
  let y := t_region T in
  match ev with
  | ISend p => exists l gl, passes gA (y_shm y) p (t_own T) l /\ pool_lists (y_shm y) (y_gp y) (t_own T) gl /\
      (forall wd x, x ∈ l -> x ∉ gl wd) /\
      (forall x b b', x ∈ l -> view (sp_data_buffer gA) (y_shm y) !! x = Some b ->
         view (sp_data_buffer gA) (y_shm y) !! p = Some b' -> umqh b = umqh b')
  | IRecv | IPoll => True
  | IFree p => exists l, passes gB (y_shm y) p (t_peer T) l
  | IOwner shm gp => (forall o, o ∉ t_own T -> shm !! o = y_shm y !! o) /\ exists gl, pool_lists shm gp (t_own T) gl
  | IPeer shm => forall o, o ∉ t_peer T -> shm !! o = y_shm y !! o
  end.

Definition in_transit shm (m : msg) : Prop :=
  m <> [] /\ encoded shm (first_of m) m /\ Forall (part_ok gA) m.

Record ipc_inv (T : ipc_state) (q r : list msg) : Prop := {
  iv_sent : t_sent T = t_received T ++ q;
  iv_ring : offset_rings ring (y_ring (t_region T)) (first_of <$> q) (first_of <$> r);
  iv_transit : Forall (in_transit (y_shm (t_region T))) (q ++ r);
  iv_nodup : NoDup (offsets_of (q ++ r));
  iv_apart : forall o, o ∈ offsets_of (q ++ r) -> (o ∉ t_own T) /\ (o ∉ t_peer T);
  iv_sides : t_own T ## t_peer T;
  iv_valid : forall o, o ∈ t_own T \/ o ∈ t_peer T -> 0 <= o /\ valid_qbuf gA o = true;
  iv_lists : exists gl, pool_lists (y_shm (t_region T)) (y_gp (t_region T)) (t_own T) gl
}.

(** the buffers somebody has or will get *)
Definition accounted (T : ipc_state) (q r : list msg) : gset Z :=
  t_own T ∪ t_peer T ∪ list_to_set (offsets_of (q ++ r)).

Hypothesis Hlink : linked gA gB tpA tpB ring.

Lemma encoded_frame shm shm' m : forall o,
  (forall o', o' ∈ m.*1 -> shm' !! o' = shm !! o') -> encoded shm o m -> encoded shm' o m.
Proof using Type.
  induction m as [|[o' c] m IH]; intros o Hf He; [done|]. destruct He as (-> & b & Hb & Hc & He).
  split; [done|]. exists b. rewrite Hf by (by left). split_and!; [done..|]. apply IH; [|done]. intros o Ho. apply Hf. by right.
Qed.

Lemma elem_of_offsets_of o ms : o ∈ offsets_of ms <-> exists m, m ∈ ms /\ o ∈ m.*1.
Proof using Type.
  unfold offsets_of. induction ms as [|m ms IH]; cbn [fmap list_fmap mjoin list_join].
  - split; [by intros ?%elem_of_nil|]. intros (m & ?%elem_of_nil & _). done.
  - rewrite elem_of_app, IH. setoid_rewrite elem_of_cons. split.
    + intros [Ho|(m' & ? & ?)]; eauto.
    + intros (m' & [->|Hm] & Ho); eauto.
Qed.

Lemma offsets_of_app ms ms' : offsets_of (ms ++ ms') = offsets_of ms ++ offsets_of ms'.
Proof using Type. unfold offsets_of. rewrite fmap_app. induction (_ <$> ms) as [|k ks IH]; [done|]. simpl. by rewrite IH, (assoc (++)). Qed.

Lemma transit_frame shm shm' ms :
  Forall (in_transit shm) ms -> (forall o, o ∈ offsets_of ms -> shm' !! o = shm !! o) -> Forall (in_transit shm') ms.
Proof using Type.
  intros H Hf. rewrite Forall_forall in *. intros m Hm. destruct (H m Hm) as (H1 & H2 & H3).
  split_and!; [done| |done]. eapply encoded_frame; [|exact H2]. intros o Ho. apply Hf, elem_of_offsets_of. eauto.
Qed.

Lemma lists_frame shm shm' gp own own' gl :
  pool_lists shm gp own gl -> (forall wd x, x ∈ gl wd -> shm' !! (x - sp_data_buffer gA) = shm !! (x - sp_data_buffer gA)) ->
  (forall wd x, x ∈ gl wd -> x - sp_data_buffer gA ∈ own') -> pool_lists shm' gp own' gl.
Proof using Type.
  intros (H1 & H2 & H3) Hf Ho. split_and!; [|done|done]. intros wd. destruct (H1 wd) as [Hc Hn]. split; [|done].
  eapply lseg_frame; [exact Hc|]. intros x Hx. unfold QBUF_LIST_NEXT. rewrite !lookup_view. by rewrite (Hf wd x).
Qed.

Lemma message_offsets g h l : (message g h l).*1 = (fun x => x - sp_data_buffer g) <$> l.
Proof using Type. unfold message. rewrite <- list_fmap_compose. done. Qed.

Lemma first_of_message g h p l : chain h p l -> l <> [] -> first_of (message g h l) = p - sp_data_buffer g.
Proof using Type. destruct l; [done|]. by intros [-> _] _. Qed.

Lemma offsets_NoDup d l : NoDup l -> NoDup ((fun x => x - d) <$> l).
Proof using Type. apply NoDup_fmap_2. intros x y. lia. Qed.

Lemma elem_of_offsets_from d l o : o ∈ offsets_from d l <-> d + o ∈ l.
Proof using Type.
  unfold offsets_from. rewrite elem_of_list_to_set, list_elem_of_fmap. split.
  - intros (x & -> & Hx). by replace (d + (x - d)) with x by lia.
  - intros Ho. exists (d + o). split; [lia|done].
Qed.

Lemma geo_set_block_pool bp g : shm_geo g -> shm_geo (sp_set_block_pool bp g).
Proof using Type. intros []. by constructor. Qed.

Lemma passes_headers g shm p have l x : passes g shm p have l -> x ∈ l -> pool_header g x.
Proof using Type.
  intros (Hc & _ & _ & Hp & _) Hx. destruct (lseg_mapped _ _ _ _ x Hc Hx) as [_ [b Hb]].
  destruct (Hp x b Hx Hb) as (H1 & H2 & _). exists (x - sp_data_buffer g). split_and!; [lia|done|lia].
Qed.

Lemma passes_first g shm p have l : passes g shm p have l -> p ∈ l.
Proof using Type. intros (Hc & _ & Hne & _). destruct l; [done|]. destruct Hc as [-> _]. by left. Qed.

Lemma pointer_to_offset_pool h p bp g :
  umq_shm_qbuf_pointer_to_offset h p (sp_set_block_pool bp g) = umq_shm_qbuf_pointer_to_offset h p g.
Proof using Type. reflexivity. Qed.

Lemma offset_to_pointer_pool h o bp g handle :
  umq_shm_offset_to_qbuf_pointer h o (sp_set_block_pool bp g) handle = umq_shm_offset_to_qbuf_pointer h o g handle.
Proof using Type. reflexivity. Qed.

(** A chain that could not be posted is as it was. *)
Lemma translate_back g h p l h' handle :
  shm_geo g -> chain h p l -> NoDup l -> l <> [] -> (forall x b, x ∈ l -> h !! x = Some b -> portable g x b) ->
  (forall x b, x ∈ l -> h !! x = Some b -> umqh b = handle) ->
  (forall x, h' !! x = if decide (x ∈ l) then to_offsets g <$> h !! x else h !! x) ->
  encoded (view (- sp_data_buffer g) h') (p - sp_data_buffer g) (message g h l) -> Forall (part_ok g) (message g h l) ->
  umq_shm_offset_to_qbuf_pointer h' (p - sp_data_buffer g) g handle = Some (h, p).
Proof using Type.
  clear Hlink. intros Hg Hc Hnd Hne Hp Hu Hh' He Hok.
  destruct (offset_to_pointer_spec g Hg (view (- sp_data_buffer g) h') (p - sp_data_buffer g) (message g h l) handle)
    as (h2 & E & _ & _ & Hh2); [done|done| |by destruct l|].
  { rewrite message_offsets. by apply offsets_NoDup. }
  rewrite addresses_message in Hh2 by done. rewrite view_view in E, Hh2.
  replace (sp_data_buffer g + - sp_data_buffer g) with 0 in * by lia. rewrite view_0 in *.
  replace (sp_data_buffer g + (p - sp_data_buffer g)) with p in E by lia. rewrite E. f_equal. f_equal.
  apply map_eq. intros x. rewrite Hh2, Hh'. destruct (decide (x ∈ l)) as [Hx|]; [|done].
  destruct (h !! x) as [b|] eqn:Hb; [|done]. simpl. f_equal.
  eapply (to_pointers_to_offsets g Hg _ x); [by apply Hp|by eapply Hu|].
  apply list_elem_of_split in Hx as (l1 & l2 & ->). apply lseg_app in Hc as (m & _ & Hm & _ & b' & Hb' & Hc). subst m.
  assert (b' = b) as -> by congruence. destruct l2 as [|z l2]; [by left|]. right. destruct Hc as (-> & _ & bz & Hbz & _).
  destruct (Hp z bz) as (H1 & H2 & _); [set_solver|done|]. done.
Qed.

(** only the headers of a chain change when it is translated *)
Lemma pushed_frame f g shm h' l o :
  (forall x, h' !! x = if decide (x ∈ l) then f <$> view (sp_data_buffer g) shm !! x else view (sp_data_buffer g) shm !! x) ->
  sp_data_buffer g + o ∉ l -> view (- sp_data_buffer g) h' !! o = shm !! o.
Proof using Type.
  intros Hh' Ho. rewrite lookup_view, Hh'. replace (o - - sp_data_buffer g) with (sp_data_buffer g + o) by lia.
  rewrite decide_False, lookup_view by done. f_equal. lia.
Qed.

Lemma send_inv p T q r :
  ipc_inv T q r -> ipc_enabled (ISend p) T ->
  exists T' q', ipc_exec (ISend p) T = Some T' /\ ipc_inv T' q' r /\ accounted T' q' r = accounted T q r.
Proof using Hlink.
  intros HI (l & gl & Hpass & Hlists & Hfree & Hu). pose proof Hpass as (Hc & Hnd & Hne & Hp & Hown).
  destruct Hlink as [HgA HgB Htw Hsz Hrem Hslots HrA HbA HbB Hloc]. set (y := t_region T) in *. set (A := sp_data_buffer gA) in *.
  set (h := view A (y_shm y)) in *. cbn [ipc_exec]. fold y. change (ss_mem (owner_view y)) with h.
  rewrite (elements_of_chain h p l) by done. unfold umq_ipc_enqueue_impl. rewrite bool_decide_eq_false_2 by done.
  rewrite Hloc by (eapply passes_headers; [exact Hpass|by eapply passes_first]). cbn [negb].
  unfold umq_shm_qbuf_enqueue. change (ss_mem (owner_view y)) with h. change (ss_pool (owner_view y)) with (sp_set_block_pool (y_gp y) gA).
  rewrite pointer_to_offset_pool.
  destruct (pointer_to_offset_spec gA HgA h p l Hc Hnd Hne Hp) as (h' & E & Hh' & He & Hok). fold A in E, He.
  rewrite E. cbn [mbind option_bind].
  assert (Hpo : 0 <= p - A < 2 ^ 62 /\ p - A <> QBUF_INVALID_OFFSET).
  { destruct (passes_headers _ _ _ _ _ p Hpass (passes_first _ _ _ _ _ Hpass)) as (off & H0 & Hv & ->). fold A.
    pose proof (valid_qbuf_range gA HgA off Hv). pose proof (geo_facts gA HgA). unfold SIZEOF_UMQ_BUF, QBUF_INVALID_OFFSET in *. lia. }
  rewrite (proj2 (Z.eqb_neq _ QBUF_INVALID_OFFSET)) by apply Hpo. rewrite HrA. change (ss_ring (owner_view y)) with (y_ring y).
  destruct (post_offset ring Hslots (y_ring y) _ _ (p - A) (iv_ring _ _ _ HI)) as (m' & Em & Hm'). rewrite Em. cbn [mbind option_bind].
  destruct (_ <? 1).
  - (* the ring is full *)
    change (-1 =? UMQ_SUCCESS) with false. cbv iota.
    destruct (lseg_mapped _ _ _ _ p Hc (passes_first _ _ _ _ _ Hpass)) as [_ [bp Hbp]].
    rewrite Hh', decide_True, Hbp by (by eapply passes_first). cbn [fmap option_fmap option_map mbind option_bind].
    rewrite offset_to_pointer_pool. change (umqh (to_offsets gA bp)) with (umqh bp).
    assert (Hland : Z.land (p - A) UMQ_OFFSET_DATA_BITS = p - A).
    { unfold UMQ_OFFSET_DATA_BITS. change (2 ^ 63 - 1) with (Z.ones 63). rewrite Z.land_ones by lia. apply Z.mod_small. lia. }
    rewrite Hland. pose proof (translate_back gA h p l h' (umqh bp)) as Hback. fold A in Hback.
    rewrite Hback; [|done..| |done|done|done]; cycle 1.
    { intros x b Hx Hb. by eapply Hu. }
    cbn [mbind option_bind]. change (-1 =? UMQ_SUCCESS) with false. cbv iota. eexists _, q. split; [done|]. split; [|done].
    assert (Es : view (- A) h = y_shm y) by (unfold h; rewrite view_view; replace (- A + A) with 0 by lia; apply view_0).
    destruct HI. constructor; cbn [t_region t_own t_peer t_sent t_received of_owner y_shm y_ring y_gp ss_mem ss_ring ss_set_ring ss_set_mem];
      fold A; rewrite ?Es; done.
  - (* posted *)
    change (0 =? UMQ_SUCCESS) with true. cbv iota. cbn [mbind option_bind]. change (0 =? UMQ_SUCCESS) with true. cbv iota. set (m := message gA h l) in *.
    assert (Hmo : m.*1 = (fun x => x - A) <$> l) by apply message_offsets.
    assert (Hin : forall o, o ∈ m.*1 -> A + o ∈ l).
    { intros o. rewrite Hmo, list_elem_of_fmap. intros (x & -> & Hx). by replace (A + (x - A)) with x by lia. }
    assert (Hout : forall o, A + o ∉ l -> view (- A) h' !! o = y_shm y !! o) by (intros o; by apply (pushed_frame (to_offsets gA) gA)).
    assert (Hfar : forall o, o ∈ offsets_of (q ++ r) -> A + o ∉ l).
    { intros o Ho Hx. apply (iv_apart _ _ _ HI) in Ho as [Ho _]. apply Ho. apply Hown in Hx. fold A in Hx.
      by replace (A + o - A) with o in Hx by lia. }
    assert (Hoff : offsets_of ((q ++ [m]) ++ r) ≡ₚ m.*1 ++ offsets_of (q ++ r)).
    { rewrite !offsets_of_app. change (offsets_of [m]) with (m.*1 ++ []). rewrite app_nil_r.
      rewrite (Permutation_app_comm (offsets_of q) (m.*1)). by rewrite (assoc (++)). }
    eexists _, (q ++ [m]). split; [done|]. split.
    + constructor; cbn [t_region t_own t_peer t_sent t_received of_owner y_shm y_ring y_gp ss_mem ss_ring ss_set_ring ss_set_mem]; fold A.
      * rewrite (iv_sent _ _ _ HI). by rewrite (assoc (++)).
      * rewrite fmap_app. unfold m. cbn [fmap list_fmap]. rewrite (first_of_message gA h p) by done. exact Hm'.
      * rewrite <- (assoc (++)). pose proof (iv_transit _ _ _ HI) as Ht.
        assert (Hq' : Forall (in_transit (view (- A) h')) (q ++ r)).
        { eapply transit_frame; [exact Ht|]. intros o Ho. by apply Hout, Hfar. }
        apply Forall_app in Hq' as [Hq1 Hq2]. apply Forall_app. split; [done|]. constructor; [|done].
        split_and!; [unfold m; by destruct l| |done]. unfold m. by rewrite (first_of_message gA h p).
      * rewrite Hoff. apply NoDup_app. split_and!; [rewrite Hmo; by apply offsets_NoDup| |apply HI].
        intros o Ho Ho'. exact (Hfar o Ho' (Hin o Ho)).
      * intros o. rewrite Hoff, elem_of_app. intros [Ho|Ho].
        -- apply Hin in Ho as Hx. split; [rewrite elem_of_difference, elem_of_offsets_from; fold A; tauto|].
           apply Hown in Hx. fold A in Hx. replace (A + o - A) with o in Hx by lia. pose proof (iv_sides _ _ _ HI). set_solver.
        -- apply (iv_apart _ _ _ HI) in Ho. set_solver.
      * pose proof (iv_sides _ _ _ HI). set_solver.
      * intros o Ho. apply (iv_valid _ _ _ HI). set_solver.
      * exists gl. eapply lists_frame; [exact Hlists| |].
        -- intros wd x Hx. fold A. apply Hout. replace (A + (x - A)) with x by lia. intros Hxl. by apply (Hfree wd x).
        -- intros wd x Hx. fold A. rewrite elem_of_difference, elem_of_offsets_from. fold A.
           replace (A + (x - A)) with x by lia. split; [by eapply Hlists|]. intros Hxl. by apply (Hfree wd x).
    + unfold accounted. cbn [t_region t_own t_peer t_sent t_received]. fold y h. apply set_eq. intros o.
      rewrite !elem_of_union, !elem_of_list_to_set, elem_of_difference, elem_of_offsets_from, Hoff, elem_of_app. fold A.
      split; [|destruct (decide (A + o ∈ l)) as [Hx|]; [|tauto]].
      * intros [[[Ho _]|Ho]|[Ho|Ho]]; [tauto..| |tauto]. apply Hin in Ho. apply Hown in Ho. fold A in Ho.
        replace (A + o - A) with o in Ho by lia. tauto.
      * intros _. right. left. rewrite Hmo. apply list_elem_of_fmap. exists (A + o). split; [lia|done].
Qed.

Lemma transit_range shm m : in_transit shm m -> 0 <= first_of m < 2 ^ 62.
Proof using Hlink.
  intros (Hne & _ & Hok). destruct m as [|[o c] m]; [done|]. apply Forall_cons in Hok as [(H0 & Hv & _) _].
  pose proof (lk_geoA _ _ _ _ _ Hlink) as HgA. pose proof (valid_qbuf_range gA HgA o Hv). pose proof (geo_facts gA HgA).
  unfold SIZEOF_UMQ_BUF in *. simpl. lia.
Qed.

Lemma transit_ranges shm ms : Forall (in_transit shm) ms -> Forall (fun o => 0 <= o < 2 ^ 64) (first_of <$> ms).
Proof using Hlink.
  intros H. apply Forall_fmap. eapply Forall_impl; [exact H|]. intros m Hm. simpl. pose proof (transit_range _ _ Hm). lia.
Qed.

Lemma view_undo g shm : view (- sp_data_buffer g) (view (sp_data_buffer g) shm) = shm.
Proof using Type. rewrite view_view. replace (- sp_data_buffer g + sp_data_buffer g) with 0 by lia. apply view_0. Qed.

Lemma elem_of_addresses g (m : msg) o : sp_data_buffer g + o ∈ addresses g m <-> o ∈ m.*1.
Proof using Type.
  unfold addresses. rewrite !list_elem_of_fmap. split; intros (part & E & Hp); exists part; (split; [|done]); lia.
Qed.

(** the queue after a message has been taken from its front *)
Lemma recv_inv T q r :
  ipc_inv T q r ->
  exists T', ipc_exec IRecv T = Some T' /\ ipc_inv T' (tail q) r /\ accounted T' (tail q) r = accounted T q r /\
    t_sent T' = t_sent T /\ t_received T' = t_received T ++ take 1 q.
Proof using Hlink.
  intros HI. destruct Hlink as [HgA HgB Htw Hsz Hrem Hslots HrA HbA (info & HbB & Hin) Hloc].
  set (y := t_region T) in *. set (B := sp_data_buffer gB) in *.
  cbn [ipc_exec]. fold y. unfold umq_ipc_dequeue_impl. rewrite HbB. unfold umq_shm_qbuf_dequeue.
  change (ss_ring (peer_view y)) with (y_ring y). change (ss_mem (peer_view y)) with (view B (y_shm y)).
  change (ss_pool (peer_view y)) with gB. pose proof (iv_transit _ _ _ HI) as Ht. fold y in Ht.
  destruct (poll_offset ring Hslots (y_ring y) _ _ (iv_ring _ _ _ HI)) as (m' & Em & Hm').
  { apply transit_ranges with (shm := y_shm y). by apply Forall_app in Ht as [? _]. }
  rewrite Em. cbn [mbind option_bind]. destruct q as [|m q].
  - simpl. eexists. split; [done|]. rewrite app_nil_r. split; [|done]. pose proof HI as [].
    constructor; cbn [t_region t_own t_peer t_sent t_received of_peer y_shm y_ring y_gp ss_mem ss_ring ss_set_ring ss_set_mem peer_view];
      unfold B; rewrite ?view_undo; done.
  - rewrite decide_False by done. change (1 <=? 0) with false. cbv iota.
    change (default 0 (head (first_of <$> m :: q))) with (first_of m).
    apply Forall_cons in Ht as [Hm Ht]. pose proof (transit_range _ _ Hm) as Hr. pose proof Hm as (Hne & He & Hok).
    assert (Hland : Z.land (first_of m) UMQ_OFFSET_DATA_BITS = first_of m).
    { unfold UMQ_OFFSET_DATA_BITS. change (2 ^ 63 - 1) with (Z.ones 63). rewrite Z.land_ones by lia. apply Z.mod_small. lia. }
    rewrite Hland. pose proof (iv_nodup _ _ _ HI) as Hnd. change (offsets_of ((m :: q) ++ r)) with (m.*1 ++ offsets_of (q ++ r)) in Hnd.
    apply NoDup_app in Hnd as (Hnd1 & Hdis & Hnd2).
    assert (HokB : Forall (part_ok gB) m) by (eapply Forall_impl; [exact Hok|]; intros; by eapply twins_part_ok).
    destruct (offset_to_pointer_spec gB HgB (y_shm y) (first_of m) m (ipc_umqh tpB) He HokB Hnd1 Hne) as (h' & E & Hc & Hmsg & Hh').
    fold B in E, Hc, Hh'. rewrite E. cbn [mbind option_bind]. pose proof (geo_facts gB HgB) as Hf. fold B in Hf.
    rewrite (proj2 (Z.eqb_neq _ 0)) by lia. cbn [ss_mem ss_set_ring ss_set_mem].
    assert (Hnda : NoDup (addresses gB m)).
    { unfold addresses. rewrite (list_fmap_compose (@fst Z (option umq_buf)) (Z.add (sp_data_buffer gB))).
      apply NoDup_fmap_2; [apply _|done]. }
    rewrite (elements_of_chain h' _ (addresses gB m)) by done. rewrite Hmsg.
    assert (Hout : forall o, o ∉ m.*1 -> view (- B) h' !! o = y_shm y !! o).
    { intros o Ho. eapply (pushed_frame (to_pointers gB (ipc_umqh tpB)) gB); [exact Hh'|]. by rewrite elem_of_addresses. }
    assert (Hfrom : forall o, o ∈ offsets_from B (addresses gB m) <-> o ∈ m.*1).
    { intros o. rewrite elem_of_offsets_from. apply elem_of_addresses. }
    assert (Hap : forall o, o ∈ m.*1 -> (o ∉ t_own T) /\ (o ∉ t_peer T)).
    { intros o Ho. apply (iv_apart _ _ _ HI). change (offsets_of ((m :: q) ++ r)) with (m.*1 ++ offsets_of (q ++ r)). set_solver. }
    eexists. split; [done|]. cbn [tail take]. split; [|split; [|done]].
    + constructor; cbn [t_region t_own t_peer t_sent t_received of_peer y_shm y_ring y_gp ss_mem ss_ring ss_set_ring ss_set_mem]; fold B.
      * rewrite (iv_sent _ _ _ HI). by rewrite <- (assoc (++)).
      * exact Hm'.
      * eapply transit_frame; [exact Ht|]. intros o Ho. apply Hout. intros Ho'. exact (Hdis o Ho' Ho).
      * done.
      * intros o Ho. destruct (iv_apart _ _ _ HI o) as [H1 H2].
        { change (offsets_of ((m :: q) ++ r)) with (m.*1 ++ offsets_of (q ++ r)). set_solver. }
        split; [done|]. rewrite elem_of_union, Hfrom. intros [?|Ho']; [done|]. exact (Hdis o Ho' Ho).
      * pose proof (iv_sides _ _ _ HI). intros o Ho. rewrite elem_of_union, Hfrom. intros [?|Ho']; [set_solver|].
        exact (proj1 (Hap o Ho') Ho).
      * intros o [Ho|[Ho|Ho]%elem_of_union]; [apply (iv_valid _ _ _ HI); by left|apply (iv_valid _ _ _ HI); by right|].
        apply Hfrom in Ho. apply list_elem_of_fmap in Ho as ([o' c] & -> & Hp). rewrite Forall_forall in Hok.
        destruct (Hok _ Hp) as (? & ? & _). done.
      * destruct (iv_lists _ _ _ HI) as [gl Hgl]. exists gl. eapply lists_frame; [exact Hgl| |intros wd x Hx; by eapply Hgl].
        intros wd x Hx. apply Hout. intros Ho. apply (proj1 (Hap _ Ho)). by eapply Hgl.
    + unfold accounted. cbn [t_region t_own t_peer t_sent t_received]. fold B. apply set_eq. intros o.
      change (offsets_of ((m :: q) ++ r)) with (m.*1 ++ offsets_of (q ++ r)).
      rewrite !elem_of_union, !elem_of_list_to_set, elem_of_app, Hfrom. tauto.
Qed.

Lemma free_inv p T q r :
  ipc_inv T q r -> ipc_enabled (IFree p) T ->
  exists T' r', ipc_exec (IFree p) T = Some T' /\ ipc_inv T' q r' /\
    (accounted T' q r' = accounted T q r \/ zlen r = rx_depth ring - 1).
Proof using Hlink.
  intros HI (l & Hpass). pose proof Hpass as (Hc & Hnd & Hne & Hp & Hown).
  destruct Hlink as [HgA HgB Htw Hsz Hrem Hslots HrA HbA (info & HbB & Hin) Hloc].
  set (y := t_region T) in *. set (B := sp_data_buffer gB) in *. set (h := view B (y_shm y)) in *.
  cbn [ipc_exec]. fold y. change (ss_mem (peer_view y)) with h. rewrite (elements_of_chain h p l) by done.
  unfold umq_tp_ipc_buf_free_impl. rewrite HbB.
  rewrite Hin by (eapply passes_headers; [exact Hpass|by eapply passes_first]).
  unfold umq_shm_qbuf_free. change (ss_pool (peer_view y)) with gB. rewrite decide_True by done.
  unfold post_release_buf. change (ss_mem (peer_view y)) with h. change (ss_pool (peer_view y)) with gB.
  destruct (pointer_to_offset_spec gB HgB h p l Hc Hnd Hne Hp) as (h' & E & Hh' & He & Hok). fold B in E, He.
  rewrite E. cbn [mbind option_bind]. change (ss_ring (peer_view y)) with (y_ring y).
  destruct (post_back ring Hslots (y_ring y) _ _ (p - B) (iv_ring _ _ _ HI)) as (m' & z & Em & Hm'). rewrite Em. cbn [mbind option_bind].
  set (m := message gB h l) in *.
  assert (Hmo : m.*1 = (fun x => x - B) <$> l) by apply message_offsets.
  assert (Hin' : forall o, o ∈ m.*1 <-> B + o ∈ l).
  { intros o. rewrite Hmo, list_elem_of_fmap. split; [intros (x & -> & Hx); by replace (B + (x - B)) with x by lia|].
    intros Ho. exists (B + o). split; [lia|done]. }
  assert (Hout : forall o, B + o ∉ l -> view (- B) h' !! o = y_shm y !! o) by (intros o; by apply (pushed_frame (to_offsets gB) gB)).
  assert (Hpeer : forall o, B + o ∈ l -> o ∈ t_peer T).
  { intros o Ho. apply Hown in Ho. fold B in Ho. by replace (B + o - B) with o in Ho by lia. }
  assert (Hfar : forall o, o ∈ offsets_of (q ++ r) -> B + o ∉ l).
  { intros o Ho Hx. apply (iv_apart _ _ _ HI) in Ho as [_ Ho]. by apply Ho, Hpeer. }
  assert (Htr : Forall (in_transit (view (- B) h')) (q ++ r)).
  { eapply transit_frame; [apply HI|]. intros o Ho. by apply Hout, Hfar. }
  assert (Hmt : in_transit (view (- B) h') m).
  { split_and!; [unfold m; by destruct l| |].
    - unfold m. by rewrite (first_of_message gB h p).
    - eapply Forall_impl; [exact Hok|]. intros. eapply twins_part_ok; [by apply twins_sym|done]. }
  assert (Hperm : offsets_of (q ++ r ++ [m]) ≡ₚ m.*1 ++ offsets_of (q ++ r)).
  { rewrite !offsets_of_app. change (offsets_of [m]) with (m.*1 ++ []). rewrite app_nil_r, (assoc (++)). apply Permutation_app_comm. }
  set (r' := if zlen r =? rx_depth ring - 1 then r else r ++ [m]).
  assert (Hsub : forall o, o ∈ offsets_of (q ++ r') -> o ∈ m.*1 \/ o ∈ offsets_of (q ++ r)).
  { intros o. unfold r'. destruct (zlen r =? rx_depth ring - 1); intros Ho; [by right|]. rewrite Hperm in Ho. by apply elem_of_app. }
  eexists _, r'. split; [done|]. split.
  - constructor; cbn [t_region t_own t_peer t_sent t_received of_peer y_shm y_ring y_gp ss_mem ss_ring ss_set_ring ss_set_mem]; fold B.
    + apply HI.
    + replace (zlen (first_of <$> r)) with (zlen r) in Hm' by (unfold zlen; by rewrite length_fmap).
      unfold r'. destruct (zlen r =? rx_depth ring - 1); [done|]. rewrite fmap_app. unfold m. cbn [fmap list_fmap].
      rewrite (first_of_message gB h p) by done. exact Hm'.
    + unfold r'. destruct (zlen r =? rx_depth ring - 1); [done|]. rewrite (assoc (++)). apply Forall_app. split; [done|]. by constructor.
    + unfold r'. destruct (zlen r =? rx_depth ring - 1); [apply HI|]. rewrite Hperm. apply NoDup_app. split_and!; [rewrite Hmo; by apply offsets_NoDup| |apply HI].
      intros o Ho Ho'. apply (Hfar o Ho'). by apply Hin'.
    + intros o Ho. rewrite elem_of_difference, elem_of_offsets_from. fold B. destruct (Hsub o Ho) as [Hom|Hoq].
      * apply Hin' in Hom. split; [|tauto]. pose proof (iv_sides _ _ _ HI). apply Hpeer in Hom. set_solver.
      * apply (iv_apart _ _ _ HI) in Hoq. tauto.
    + pose proof (iv_sides _ _ _ HI). set_solver.
    + intros o Ho. apply (iv_valid _ _ _ HI). set_solver.
    + destruct (iv_lists _ _ _ HI) as [gl Hgl]. exists gl. eapply lists_frame; [exact Hgl| |intros wd x Hx; by eapply Hgl].
      intros wd x Hx. apply Hout. intros Ho. apply Hpeer in Ho. destruct Hgl as (_ & _ & Hgl). apply Hgl in Hx.
      pose proof (iv_sides _ _ _ HI). set_solver.
  - unfold r'. destruct (Z.eqb_spec (zlen r) (rx_depth ring - 1)); [by right|left].
    unfold accounted. cbn [t_region t_own t_peer t_sent t_received]. fold B. apply set_eq. intros o.
    rewrite !elem_of_union, !elem_of_list_to_set, elem_of_difference, elem_of_offsets_from, Hperm, elem_of_app, Hin'. fold B.
    destruct (decide (B + o ∈ l)) as [Hx|]; [|tauto]. pose proof (Hpeer o Hx). tauto.
Qed.

(** ** Taking buffers back *)

Lemma pool_rep_set_other wd h bp l head cnt : pool_rep (negb wd) h bp l -> pool_rep (negb wd) h (set_pool wd head cnt bp) l.
Proof using Type. by destruct wd. Qed.

Lemma pool_rep_frame wd h h' bp l : pool_rep wd h bp l -> (forall x, x ∈ l -> h' !! x = h !! x) -> pool_rep wd h' bp l.
Proof using Type. intros [Hc Hn] Hf. split; [|done]. eapply lseg_frame; [exact Hc|]. intros x Hx. unfold QBUF_LIST_NEXT. by rewrite Hf. Qed.

(** [gl] with the list of kind [wd] extended *)
Definition extend wd l (gl : bool -> list Z) : bool -> list Z := fun wd' => if Bool.eqb wd' wd then l ++ gl wd' else gl wd'.

Lemma elem_of_lists (gl : bool -> list Z) x : x ∈ gl true ++ gl false <-> exists wd, x ∈ gl wd.
Proof using Type. rewrite elem_of_app. split; [intros [?|?]; eauto|]. intros [[] ?]; eauto. Qed.

Lemma extend_lists wd l gl : extend wd l gl true ++ extend wd l gl false ≡ₚ l ++ gl true ++ gl false.
Proof using Type.
  unfold extend. destruct wd; simpl; [by rewrite (assoc (++))|]. rewrite !(assoc (++)). by rewrite (Permutation_app_comm (gl true) l).
Qed.

Definition lists_of s (gl : bool -> list Z) : Prop :=
  (forall wd, pool_rep wd (ss_mem s) (ss_global s) (gl wd)) /\ NoDup (gl true ++ gl false).

(** one message put back into the list its first buffer belongs to *)
Lemma fill_one m rest s gl shm :
  ss_mem s = view (sp_data_buffer gA) shm -> ss_pool s = sp_set_block_pool (ss_global s) gA ->
  lists_of s gl -> in_transit shm m -> NoDup m.*1 ->
  (forall x, x ∈ addresses gA m -> x ∉ gl true ++ gl false) ->
  zlen (gl true ++ gl false) + zlen m < 2 ^ 32 ->
  exists s' wd, fill_loop (first_of m :: rest) s = fill_loop rest s' /\
    ss_ring s' = ss_ring s /\ ss_pool s' = sp_set_block_pool (ss_global s') gA /\
    lists_of s' (extend wd (addresses gA m) gl) /\
    (forall x, x ∉ addresses gA m -> ss_mem s' !! x = ss_mem s !! x).
Proof using Hlink.
  intros Hmem Hpool [Hrep Hnd] (Hne & He & Hok) Hndm Hdis Hlen. pose proof (lk_geoA _ _ _ _ _ Hlink) as HgA.
  destruct (offset_to_pointer_spec gA HgA shm (first_of m) m (sp_umqh gA) He Hok Hndm Hne) as (h1 & E & Hc & _ & Hh1).
  set (p := sp_data_buffer gA + first_of m) in *. set (l := addresses gA m) in *.
  assert (Hndl : NoDup l).
  { unfold l, addresses. rewrite (list_fmap_compose (@fst Z (option umq_buf)) (Z.add (sp_data_buffer gA))).
    apply NoDup_fmap_2; [apply _|done]. }
  assert (Hnel : l <> []) by (unfold l; by destruct m).
  assert (Hlenl : zlen l = zlen m) by (unfold l, addresses, zlen; by rewrite length_fmap).
  assert (Hp0 : p <> 0) by (destruct l; [done|]; destruct Hc as (-> & ? & _); done).
  set (wd := is_with_data p (ss_pool s)).
  assert (Hrep1 : forall wd', pool_rep wd' h1 (ss_global s) (gl wd')).
  { intros wd'. eapply pool_rep_frame; [apply Hrep|]. intros x Hx. rewrite Hh1, decide_False; [by rewrite Hmem|].
    intros Hxl. apply (Hdis x Hxl). apply elem_of_lists. eauto. }
  assert (Hsum : zlen (gl wd) <= zlen (gl true ++ gl false)) by (unfold zlen; rewrite length_app; destruct wd; lia).
  pose proof (zlen_nonneg l). pose proof (zlen_nonneg (gl wd)).
  destruct (return_qbuf_to_global_spec h1 (ss_global s) wd p l (gl wd)) as (h2 & E2 & R2 & Hrel); [done|done| |done|lia|lia|].
  { apply NoDup_app. split_and!; [done| |destruct wd; by apply NoDup_app in Hnd as (? & ? & ?)].
    intros x Hx Hx'. apply (Hdis x Hx). apply elem_of_lists. eauto. }
  exists (ss_set_global (set_pool wd p (zlen (l ++ gl wd)) (ss_global s)) (ss_set_mem h2 (ss_set_mem h1 s))), wd.
  split; [|split; [done|split; [|split]]].
  - cbn [fill_loop]. rewrite Hpool, offset_to_pointer_pool, Hmem. change (sp_umqh (sp_set_block_pool (ss_global s) gA)) with (sp_umqh gA).
    rewrite E. cbn [mbind option_bind]. rewrite (proj2 (Z.eqb_neq p 0)) by done.
    change (ss_mem (ss_set_mem h1 s)) with h1. change (ss_global (ss_set_mem h1 s)) with (ss_global s).
    change (ss_pool (ss_set_mem h1 s)) with (ss_pool s). fold wd. rewrite E2. done.
  - unfold ss_set_global. cbn [ss_pool ss_global sp_block_pool sp_set_block_pool ss_set_mem]. rewrite Hpool. done.
  - split.
    + intros wd'. unfold extend. change (ss_mem (ss_set_global _ (ss_set_mem h2 _))) with h2.
      change (ss_global (ss_set_global ?bp _)) with bp.
      destruct (Bool.eqb_spec wd' wd) as [->|Hn]; [done|].
      assert (wd' = negb wd) as -> by (by destruct wd', wd). apply pool_rep_set_other.
      eapply pool_rep_frame; [apply Hrep1|]. intros x Hx. apply Hrel. intros Hxl. apply (Hdis x Hxl), elem_of_lists. eauto.
    + rewrite extend_lists. apply NoDup_app. split_and!; [done| |done]. intros x Hx. by apply Hdis.
  - intros x Hx. change (ss_mem (ss_set_global _ (ss_set_mem h2 _))) with h2. destruct Hrel as [_ Hrel].
    rewrite Hrel, Hh1, decide_False, Hmem by done. done.
Qed.

Lemma fill_loop_inv ms : forall s gl,
  ss_pool s = sp_set_block_pool (ss_global s) gA -> lists_of s gl ->
  Forall (in_transit (view (- sp_data_buffer gA) (ss_mem s))) ms -> NoDup (offsets_of ms) ->
  (forall o, o ∈ offsets_of ms -> sp_data_buffer gA + o ∉ gl true ++ gl false) ->
  zlen (gl true ++ gl false) + zlen (offsets_of ms) < 2 ^ 32 ->
  exists s' gl', fill_loop (first_of <$> ms) s = Some s' /\ ss_ring s' = ss_ring s /\
    ss_pool s' = sp_set_block_pool (ss_global s') gA /\ lists_of s' gl' /\
    (forall x, x ∈ gl' true ++ gl' false <-> x ∈ gl true ++ gl false \/ x - sp_data_buffer gA ∈ offsets_of ms) /\
    (forall x, x - sp_data_buffer gA ∉ offsets_of ms -> ss_mem s' !! x = ss_mem s !! x).
Proof using Hlink.
  set (A := sp_data_buffer gA). induction ms as [|m ms IH]; intros s gl Hpool Hl Ht Hnd Hdis Hlen.
  { exists s, gl. split_and!; [done..| |done]. intros x. change (offsets_of []) with (@nil Z). rewrite elem_of_nil. tauto. }
  apply Forall_cons in Ht as [Hm Ht]. change (offsets_of (m :: ms)) with (m.*1 ++ offsets_of ms) in *.
  apply NoDup_app in Hnd as (Hnd1 & Hnd12 & Hnd2). rewrite (zlen_app m.*1) in Hlen.
  assert (Hlm : zlen m.*1 = zlen m) by (unfold zlen; by rewrite length_fmap). pose proof (zlen_nonneg (offsets_of ms)).
  assert (Haddr : forall x, x ∈ addresses gA m <-> x - A ∈ m.*1).
  { intros x. rewrite <- (elem_of_addresses gA). fold A. by replace (A + (x - A)) with x by lia. }
  destruct (fill_one m (first_of <$> ms) s gl (view (- A) (ss_mem s))) as (s1 & wd & E & Er & Hp1 & Hl1 & Hf1);
    [|done|done|done|done| |lia|].
  { rewrite view_view. fold A. replace (A + - A) with 0 by lia. by rewrite view_0. }
  { intros x Hx%Haddr Hg. apply (Hdis (x - A)); [set_solver|]. by replace (A + (x - A)) with x by lia. }
  destruct (IH s1 (extend wd (addresses gA m) gl) Hp1 Hl1) as (s' & gl' & E' & Er' & Hp' & Hl' & Hx' & Hf').
  - eapply transit_frame; [exact Ht|]. intros o Ho. rewrite !lookup_view. fold A. replace (o - - A) with (A + o) by lia.
    apply Hf1. rewrite Haddr. replace (A + o - A) with o by lia. intros Ho'. exact (Hnd12 o Ho' Ho).
  - done.
  - intros o Ho. rewrite extend_lists, elem_of_app, Haddr. replace (A + o - A) with o by lia. intros [Ho'|Ho'].
    + exact (Hnd12 o Ho' Ho).
    + apply (Hdis o); [set_solver|done].
  - replace (zlen (extend wd (addresses gA m) gl true ++ extend wd (addresses gA m) gl false))
      with (zlen m + zlen (gl true ++ gl false)); [lia|].
    unfold zlen. rewrite (Permutation_length (extend_lists wd (addresses gA m) gl)), (length_app (addresses gA m)).
    unfold addresses. rewrite length_fmap. lia.
  - exists s', gl'. split; [by cbn [fmap list_fmap]; rewrite E|]. split; [congruence|]. split; [done|]. split; [done|]. split.
    + intros x. rewrite Hx', extend_lists, !elem_of_app, Haddr. tauto.
    + intros x Hx. rewrite elem_of_app in Hx. rewrite Hf', Hf1 by (rewrite ?Haddr; tauto). done.
Qed.

Lemma nodup_bound (l : list Z) n : NoDup l -> (forall x, x ∈ l -> 0 <= x < n) -> 0 <= n -> zlen l <= n.
Proof using Type.
  intros Hnd Hl Hn. assert (length l <= length (seqZ 0 n))%nat as H.
  { apply submseteq_length, NoDup_submseteq; [done|]. intros x Hx. apply elem_of_seqZ. specialize (Hl x Hx). lia. }
  rewrite length_seqZ in H. unfold zlen. lia.
Qed.

Lemma poll_inv T q r :
  ipc_inv T q r ->
  exists T', ipc_exec IPoll T = Some T' /\ ipc_inv T' q (drop 4 r) /\ accounted T' q (drop 4 r) = accounted T q r.
Proof using Hlink.
  intros HI. pose proof (lk_geoA _ _ _ _ _ Hlink) as HgA. pose proof (lk_slots _ _ _ _ _ Hlink) as Hslots.
  pose proof (lk_size _ _ _ _ _ Hlink) as Hsz.
  set (y := t_region T) in *. set (A := sp_data_buffer gA) in *. destruct (iv_lists _ _ _ HI) as (gl & Hrep & Hndg & Hgl).
  pose proof (iv_transit _ _ _ HI) as Ht. fold y in Ht, Hrep. fold A in Hrep, Hgl. apply Forall_app in Ht as [Htq Htr].
  cbn [ipc_exec]. fold y. unfold umq_shm_poll_and_fill_global. change (ss_ring (owner_view y)) with (y_ring y).
  destruct (poll_back ring Hslots (y_ring y) _ _ (iv_ring _ _ _ HI)) as (m' & ret & Em & Hret & Hm'); [by eapply transit_ranges|].
  rewrite Em. cbn [mbind option_bind]. rewrite (proj2 (Z.ltb_ge ret 0)) by done. rewrite <- fmap_take. rewrite <- fmap_drop in Hm'.
  set (ms := take 4 r) in *. set (r' := drop 4 r) in *. assert (Hr : r = ms ++ r') by (symmetry; apply take_drop).
  assert (Hperm : offsets_of (q ++ r) ≡ₚ offsets_of ms ++ offsets_of (q ++ r')).
  { rewrite Hr, !offsets_of_app, !(assoc (++)). by rewrite (Permutation_app_comm (offsets_of q)). }
  pose proof (iv_nodup _ _ _ HI) as Hnd. rewrite Hperm in Hnd. apply NoDup_app in Hnd as (Hnd1 & Hnd12 & Hnd2).
  assert (Hap : forall o, o ∈ offsets_of ms -> (o ∉ t_own T) /\ (o ∉ t_peer T)).
  { intros o Ho. apply (iv_apart _ _ _ HI). rewrite Hperm. set_solver. }
  assert (Hglo : forall x, x ∈ gl true ++ gl false -> x - A ∈ t_own T) by (intros x [wd Hx]%elem_of_lists; by eapply Hgl).
  assert (Hval : forall o, o ∈ offsets_of ms -> 0 <= o /\ valid_qbuf gA o = true).
  { intros o (m & Hm & Ho)%elem_of_offsets_of. rewrite Forall_forall in Htr. destruct (Htr m) as (_ & _ & Hok); [rewrite Hr; set_solver|].
    apply list_elem_of_fmap in Ho as ([o' c] & -> & Hp). rewrite Forall_forall in Hok. destruct (Hok _ Hp) as (? & ? & _). done. }
  assert (Hlen : zlen (gl true ++ gl false) + zlen (offsets_of ms) < 2 ^ 32).
  { assert (zlen (((fun x => x - A) <$> gl true ++ gl false) ++ offsets_of ms) <= sp_total_size gA) as Hb.
    { pose proof (geo_facts gA HgA). apply nodup_bound; [| |lia].
      - apply NoDup_app. split_and!; [by apply offsets_NoDup| |done]. intros o (x & -> & Hx%Hglo)%list_elem_of_fmap Ho. exact (proj1 (Hap _ Ho) Hx).
      - intros o [(x & -> & Hx%Hglo)%list_elem_of_fmap|Ho]%elem_of_app.
        + destruct (iv_valid _ _ _ HI _ (or_introl Hx)) as [? Hv]. apply valid_qbuf_range in Hv; [|done]. unfold SIZEOF_UMQ_BUF in *. lia.
        + destruct (Hval o Ho) as [? Hv]. apply valid_qbuf_range in Hv; [|done]. unfold SIZEOF_UMQ_BUF in *. lia. }
    rewrite zlen_app in Hb. replace (zlen ((fun x => x - A) <$> _)) with (zlen (gl true ++ gl false)) in Hb
      by (unfold zlen; by rewrite length_fmap). lia. }
  destruct (fill_loop_inv ms (ss_set_ring m' (owner_view y)) gl) as (s' & gl' & E & Er & Hp' & [Hrep' Hndg'] & Hx' & Hf');
    [done|by split| |done| |done|].
  { change (ss_mem (ss_set_ring m' (owner_view y))) with (view A (y_shm y)). fold A. unfold A. rewrite view_undo.
    rewrite Hr in Htr. by apply Forall_app in Htr as [? _]. }
  { intros o Ho Hx. apply Hglo in Hx. fold A in Hx. replace (A + o - A) with o in Hx by lia. exact (proj1 (Hap o Ho) Hx). }
  fold A in Hx', Hf'. rewrite E. cbn [mbind option_bind]. change (ss_mem (ss_set_ring m' (owner_view y))) with (view A (y_shm y)) in Hf'.
  assert (Hel : forall wd, elements_of (ss_mem s') (pool_head wd (ss_global s')) = gl' wd).
  { intros wd. apply elements_of_chain; [apply Hrep'|]. destruct wd; by apply NoDup_app in Hndg' as (? & ? & ?). }
  rewrite (Hel true : elements_of _ (head_with_data _) = _), (Hel false : elements_of _ (head_without_data _) = _).
  assert (Hfrom : forall o, o ∈ t_own T ∪ offsets_from A (gl' true ++ gl' false) <-> o ∈ t_own T \/ o ∈ offsets_of ms).
  { intros o. rewrite elem_of_union, elem_of_offsets_from, Hx'. replace (A + o - A) with o by lia. split; [|tauto].
    intros [?|[Hx|?]]; [tauto| |tauto]. apply Hglo in Hx. replace (A + o - A) with o in Hx by lia. tauto. }
  assert (Hout : forall o, o ∉ offsets_of ms -> view (- A) (ss_mem s') !! o = y_shm y !! o).
  { intros o Ho. rewrite lookup_view. replace (o - - A) with (A + o) by lia. rewrite Hf', lookup_view; [f_equal; lia|].
    by replace (A + o - A) with o by lia. }
  eexists. split; [done|]. split.
  - constructor; cbn [t_region t_own t_peer t_sent t_received of_owner y_shm y_ring y_gp]; fold A.
    + apply HI.
    + rewrite Er. exact Hm'.
    + apply (transit_frame (y_shm y)); [rewrite Hr in Htr; apply Forall_app in Htr as [_ ?]; by apply Forall_app|].
      intros o Ho. apply Hout. intros Ho'. exact (Hnd12 o Ho' Ho).
    + done.
    + intros o Ho. rewrite Hfrom. destruct (iv_apart _ _ _ HI o) as [H1 H2]; [rewrite Hperm; set_solver|].
      split; [|done]. intros [?|Ho']; [done|]. exact (Hnd12 o Ho' Ho).
    + intros o [Ho|Ho]%Hfrom Hp; [pose proof (iv_sides _ _ _ HI); set_solver|]. exact (proj2 (Hap o Ho) Hp).
    + intros o [[Ho|Ho]%Hfrom|Ho]; [apply (iv_valid _ _ _ HI); by left|by apply Hval|apply (iv_valid _ _ _ HI); by right].
    + exists gl'. split; [|split; [done|]].
      * intros wd. fold A. rewrite view_view. replace (A + - A) with 0 by lia. rewrite view_0. apply Hrep'.
      * intros wd x Hx. fold A. rewrite elem_of_union, elem_of_offsets_from. right. replace (A + (x - A)) with x by lia.
        apply elem_of_lists. eauto.
  - unfold accounted. cbn [t_region t_own t_peer t_sent t_received]. fold A. apply set_eq. intros o.
    rewrite !elem_of_union, !elem_of_list_to_set, Hperm, elem_of_app. specialize (Hfrom o). rewrite elem_of_union in Hfrom. tauto.
Qed.

(** writes by either side to headers it has *)
Lemma owner_inv shm gp T q r :
  ipc_inv T q r -> ipc_enabled (IOwner shm gp) T ->
  exists T', ipc_exec (IOwner shm gp) T = Some T' /\ ipc_inv T' q r /\ accounted T' q r = accounted T q r.
Proof using Type.
  clear Hlink. intros HI [Hf Hgl]. eexists. split; [done|]. split; [|done]. destruct HI as [H1 H2 H3 H4 H5 H6 H7 H8].
  constructor; cbn [t_region t_own t_peer t_sent t_received y_shm y_ring y_gp]; try done.
  eapply transit_frame; [exact H3|]. intros o Ho. apply Hf. by apply H5.
Qed.

Lemma peer_inv shm T q r :
  ipc_inv T q r -> ipc_enabled (IPeer shm) T ->
  exists T', ipc_exec (IPeer shm) T = Some T' /\ ipc_inv T' q r /\ accounted T' q r = accounted T q r.
Proof using Type.
  clear Hlink. intros HI Hf. simpl in Hf. eexists. split; [done|]. split; [|done]. destruct HI as [H1 H2 H3 H4 H5 H6 H7 [gl Hgl]].
  constructor; cbn [t_region t_own t_peer t_sent t_received y_shm y_ring y_gp]; try done.
  - eapply transit_frame; [exact H3|]. intros o Ho. apply Hf. by apply H5.
  - exists gl. eapply lists_frame; [exact Hgl| |intros wd x Hx; by eapply Hgl]. intros wd x Hx. apply Hf.
    destruct Hgl as (_ & _ & Hgl). apply Hgl in Hx. set_solver.
Qed.

Definition is_release (ev : ipc_event) : bool := match ev with IFree _ => true | _ => false end.

Lemma ipc_step ev T q r :
  ipc_inv T q r -> ipc_enabled ev T ->
  exists T' q' r', ipc_exec ev T = Some T' /\ ipc_inv T' q' r' /\
    (accounted T' q' r' = accounted T q r \/ is_release ev = true /\ zlen r = rx_depth ring - 1).
Proof using Hlink.
  intros HI He. destruct ev as [p| |p| |shm gp|shm].
  - destruct (send_inv p T q r HI He) as (T' & q' & E & HI' & Ha). eauto 10.
  - destruct (recv_inv T q r HI) as (T' & E & HI' & Ha & _). eauto 10.
  - destruct (free_inv p T q r HI He) as (T' & r' & E & HI' & [Ha|Ha]); eauto 10.
  - destruct (poll_inv T q r HI) as (T' & E & HI' & Ha). eauto 10.
  - destruct (owner_inv shm gp T q r HI He) as (T' & E & HI' & Ha). eauto 10.
  - destruct (peer_inv shm T q r HI He) as (T' & E & HI' & Ha). eauto 10.
Qed.

Inductive ipc_run : ipc_state -> list ipc_event -> ipc_state -> Prop :=
  | ipc_nil T : ipc_run T [] T
  | ipc_cons T ev T' evs T'' : ipc_enabled ev T -> ipc_exec ev T = Some T' -> ipc_run T' evs T'' -> ipc_run T (ev :: evs) T''.

Lemma ipc_run_inv T evs T' q r : ipc_inv T q r -> ipc_run T evs T' -> exists q' r', ipc_inv T' q' r'.
Proof using Hlink.
  intros HI Hr. revert q r HI. induction Hr as [T|T ev T1 evs T2 He E Hr IH]; intros q r HI; [eauto|].
  destruct (ipc_step ev T q r HI He) as (T1' & q' & r' & E' & HI' & _). assert (T1' = T1) as -> by congruence. by eapply IH.
Qed.
End system.

(** C1: two processes on one shared region, starting with empty rings, send,
    receive, release and take back buffers in any order, with arbitrary writes
    by either side to the headers it has. A message is sent as a chain of
    headers of its sender that the receiver's offset checks accept
    ([portable]): header and data lie in their areas, the data is no larger
    than a block, and in a combined pool the data address is the one directly
    behind a header, which leaves out buffers with a header room. No step
    faults. The messages
    received are always a prefix of the messages sent, with the same headers,
    sizes and data offsets, and receiving returns the next one as long as one
    is missing. A buffer is never with both sides or in two messages, and none
    gets lost, except by a release that finds the return ring full. *)
Theorem ipc_delivers_in_order gA gB tpA tpB ring peer_local calloc t T0 evs T :
  linked gA gB tpA tpB ring -> ipc_inv gA ring T0 [] [] ->
  ipc_run gA gB tpA tpB ring peer_local calloc t T0 evs T ->
  exists q r, t_sent T = t_received T ++ q /\
    t_own T ## t_peer T /\ NoDup (offsets_of (q ++ r)) /\
    (forall o, o ∈ offsets_of (q ++ r) -> (o ∉ t_own T) /\ (o ∉ t_peer T)) /\
    (exists T', ipc_exec gA gB tpA tpB ring peer_local calloc t IRecv T = Some T' /\ t_received T' = t_received T ++ take 1 q) /\
    (forall ev, ipc_enabled gA gB ev T -> exists T' q' r',
       ipc_exec gA gB tpA tpB ring peer_local calloc t ev T = Some T' /\ t_sent T' = t_received T' ++ q' /\
       (accounted T' q' r' = accounted T q r \/ is_release ev = true /\ zlen r = rx_depth ring - 1)).
Proof.
  intros Hlink HI0 Hr. destruct (ipc_run_inv _ _ _ _ _ _ _ _ Hlink _ _ _ _ _ HI0 Hr) as (q & r & HI).
  exists q, r. destruct (recv_inv _ _ _ _ _ peer_local calloc t Hlink T q r HI) as (T1 & E1 & _ & _ & _ & Hrecv).
  split_and!; [apply HI..|eauto|]. intros ev He.
  destruct (ipc_step _ _ _ _ _ peer_local calloc t Hlink ev T q r HI He) as (T' & q' & r' & E & HI' & Ha).
  exists T', q', r'. split_and!; [done|apply HI'|done].
Qed.

(** ** Example: a queue of four blocks with separate headers *)

(** a decision procedure for chains *)
Fixpoint chain_check h p l : bool :=
  match l with
  | [] => p =? 0
  | x :: l => (p =? x) && negb (x =? 0) && match h !! x with Some b => chain_check h (qbuf_next b) l | None => false end
  end.

Lemma chain_check_sound h l : forall p, chain_check h p l = true -> chain h p l.
Proof.
  induction l as [|x l IH]; intros p H; cbn [chain_check] in H; [by apply Z.eqb_eq|].
  apply andb_true_iff in H as [H Hl]. apply andb_true_iff in H as [H1 H2]. apply Z.eqb_eq in H1. apply negb_true_iff, Z.eqb_neq in H2.
  destruct (h !! x) as [b|] eqn:E; [|done]. split; [done|]. split; [done|]. exists b. split; [done|]. by apply IH.
Qed.

Definition demo_info (addr : Z) : umq_ipc_ring_info := ri_set_map 3 addr (ring_sizes 13 4 [97] true).
Definition demo_offsets : list Z := (fun i => 32768 + 128 * i) <$> seqZ 0 68.
Definition demo_shm0 : heap := list_to_map ((fun o => (o, raw_header)) <$> demo_offsets).
Definition demo_ring : msg_ring := ring_layout [] 0 0 true (ipc_ring_option (demo_info 0) true []).
Definition demo_ring_bytes : list Z := default [] (init_ring_hdrs demo_ring true (replicate (Z.to_nat 8192) 0)).
Definition demo_cfgA := ipc_pool_cfg (demo_info (2 ^ 40)) 64 UMQ_BUF_SPLIT SHM_QBUF_POOL_TYPE_LOCAL 77 0.
Definition demo_cfgB := ipc_pool_cfg (demo_info (2 ^ 41)) 64 UMQ_BUF_SPLIT SHM_QBUF_POOL_TYPE_REMOTE 0 0.
Definition demo_init (cfg : shm_qbuf_pool_cfg) : option (heap * option shm_pool) :=
  umq_shm_global_pool_init true 13 cfg (view (scfg_buf_addr cfg) demo_shm0).
Definition demo_pool (cfg : shm_qbuf_pool_cfg) : shm_pool :=
  match demo_init cfg with Some (_, Some g) => g | _ => shm_geometry cfg 0 0 0 0 0 zero_block_pool end.
Definition demo_gA : shm_pool := Eval vm_compute in demo_pool demo_cfgA.
Definition demo_gB : shm_pool := Eval vm_compute in demo_pool demo_cfgB.
Definition demo_shm1 : heap := match demo_init demo_cfgA with Some (h, _) => view (- sp_data_buffer demo_gA) h | None => ∅ end.

Definition demo_tp (local remote handle : Z) : umq_ipc_info :=
  {| ipc_trans_mode := 3; ipc_bind_ctx := Some (demo_info remote, demo_ring); ipc_ref_cnt := 1; ipc_local_msg_ring := demo_ring;
     ipc_local_ring := demo_info local; ipc_umq_id := 0; ipc_umqh := handle; ipc_queue_mode := 0 |}.
Definition demo_tpA : umq_ipc_info := demo_tp (2 ^ 40) (2 ^ 42) 77.
Definition demo_tpB : umq_ipc_info := demo_tp (2 ^ 43) (2 ^ 41) 78.

Definition demo_region : region := {| y_shm := demo_shm1; y_ring := demo_ring_bytes; y_gp := sp_block_pool demo_gA |}.
Definition demo_T0 : ipc_state :=
  {| t_region := demo_region; t_own := list_to_set demo_offsets; t_peer := ∅; t_sent := []; t_received := [] |}.
Definition demo_other : shm_state := peer_view demo_gB demo_region.
Definition demo_step := ipc_exec demo_gA demo_gB demo_tpA demo_tpB demo_ring demo_other true 0.

(** a message of 100 bytes allocated by the owner *)
Definition demo_alloc : option (shm_state * Z) :=
  umq_ipc_buf_alloc_impl true 13 0 100 1 demo_tpA None (owner_view demo_gA demo_region).
Definition demo_p : Z := match demo_alloc with Some (_, p) => p | None => 0 end.
Definition demo_shm2 : heap := match demo_alloc with Some (s, _) => y_shm (of_owner demo_gA s) | None => ∅ end.
Definition demo_gp2 : block_pool := match demo_alloc with Some (s, _) => ss_global s | None => zero_block_pool end.

Definition demo_lists (T : ipc_state) (wd : bool) : list Z :=
  elements_of (view (sp_data_buffer demo_gA) (y_shm (t_region T))) (pool_head wd (y_gp (t_region T))).

(** the lists of a state, checked by computation *)
Lemma demo_pool_lists (T : ipc_state) :
  (forall wd, chain_check (view (sp_data_buffer demo_gA) (y_shm (t_region T))) (pool_head wd (y_gp (t_region T))) (demo_lists T wd) = true /\
     pool_cnt wd (y_gp (t_region T)) = zlen (demo_lists T wd)) ->
  NoDup (demo_lists T true ++ demo_lists T false) ->
  Forall (fun x => x - sp_data_buffer demo_gA ∈ t_own T) (demo_lists T true ++ demo_lists T false) ->
  pool_lists demo_gA (y_shm (t_region T)) (y_gp (t_region T)) (t_own T) (demo_lists T).
Proof.
  intros H1 H2 H3. split; [|split; [done|]].
  - intros wd. destruct (H1 wd) as [Hc Hn]. split; [by apply chain_check_sound|done].
  - intros wd x Hx. rewrite Forall_forall in H3. apply H3. apply elem_of_lists. eauto.
Qed.

Definition demo_T1 : ipc_state := default demo_T0 (demo_step (IOwner demo_shm2 demo_gp2) demo_T0).
Definition demo_T2 : ipc_state := default demo_T0 (demo_step (ISend demo_p) demo_T1).

Lemma demo_geo : shm_geo demo_gA /\ shm_geo demo_gB /\ twins demo_gA demo_gB.
Proof. split_and!; constructor; simpl; unfold SIZEOF_UMQ_BUF; done || lia. Qed.

Lemma demo_linked : linked demo_gA demo_gB demo_tpA demo_tpB demo_ring.
Proof.
  destruct demo_geo as (HA & HB & Ht). constructor; try done.
  - exists (demo_info (2 ^ 41)). split; [done|]. intros x (off & H0 & Hv & ->). apply valid_qbuf_range in Hv; [|done].
    unfold in_ring. change (ri_addr (demo_info (2 ^ 41))) with (2 ^ 41). change (u64 (2 ^ 41 + ri_shm_size (demo_info (2 ^ 41)))) with (2 ^ 41 + 57344).
    change (sp_data_buffer demo_gB) with (2 ^ 41 + 8192). change (sp_total_size demo_gB) with 49152 in Hv. unfold SIZEOF_UMQ_BUF in Hv.
    rewrite (proj2 (Z.leb_le _ _)), (proj2 (Z.ltb_lt _ _)) by lia. done.
  - intros x (off & H0 & Hv & ->). apply valid_qbuf_range in Hv; [|done].
    unfold is_local_addr, in_ring. change (ri_addr (ipc_local_ring demo_tpA)) with (2 ^ 40).
    change (u64 (2 ^ 40 + ri_shm_size (ipc_local_ring demo_tpA))) with (2 ^ 40 + 57344).
    change (sp_data_buffer demo_gA) with (2 ^ 40 + 8192). change (sp_total_size demo_gA) with 49152 in Hv. unfold SIZEOF_UMQ_BUF in Hv.
    rewrite (proj2 (Z.leb_le _ _)), (proj2 (Z.ltb_lt _ _)) by lia. done.
Qed.

Lemma demo_inv : ipc_inv demo_gA demo_ring demo_T0 [] [].
Proof.
  constructor.
  - done.
  - destruct (init_ring_hdrs_pair [] 0 0 true (ipc_ring_option (demo_info 0) true []) (replicate (Z.to_nat 8192) 0)) as (m & E & Hp).
    { unfold opt_ok. simpl. unfold NUM_RING_HEADERS, SHM_RING_HDR_SIZE. lia. }
    { by vm_compute. }
    unfold offset_rings. change (y_ring (t_region demo_T0)) with demo_ring_bytes. unfold demo_ring_bytes, demo_ring. rewrite E. exact Hp.
  - constructor.
  - apply NoDup_nil_2.
  - intros o Ho. by apply elem_of_nil in Ho.
  - apply disjoint_empty_r.
  - intros o [Ho|Ho]; [|by apply not_elem_of_empty in Ho]. apply elem_of_list_to_set in Ho. revert o Ho.
    apply (Forall_forall (fun o => 0 <= o /\ valid_qbuf demo_gA o = true)). apply (bool_decide_unpack _). by vm_compute.
  - exists (demo_lists demo_T0). apply demo_pool_lists.
    + intros []; vm_compute; done.
    + apply (bool_decide_unpack _). by vm_compute.
    + apply (bool_decide_unpack _). by vm_compute.
Qed.

(** allocating, sending and receiving one message *)
Lemma demo_run : ipc_run demo_gA demo_gB demo_tpA demo_tpB demo_ring demo_other true 0 demo_T0
  [IOwner demo_shm2 demo_gp2; ISend demo_p] demo_T2.
Proof.
  apply (ipc_cons _ _ _ _ _ _ _ _ _ _ demo_T1); [|done|].
  - split.
    + intros o Ho. change (y_shm (t_region demo_T0)) with demo_shm1.
      assert (Hd : dom demo_shm2 = list_to_set (C := gset Z) demo_offsets /\ dom demo_shm1 = list_to_set (C := gset Z) demo_offsets)
        by (split; apply (bool_decide_unpack _); by vm_compute).
      destruct Hd as [Hd2 Hd1]. change (t_own demo_T0) with (list_to_set (C := gset Z) demo_offsets) in Ho.
      rewrite (proj1 (not_elem_of_dom demo_shm2 o)) by (by rewrite Hd2). by rewrite (proj1 (not_elem_of_dom demo_shm1 o)) by (by rewrite Hd1).
    + exists (demo_lists demo_T1). apply (demo_pool_lists demo_T1).
      * intros []; vm_compute; done.
      * apply (bool_decide_unpack _). by vm_compute.
      * apply (bool_decide_unpack _). by vm_compute.
  - apply (ipc_cons _ _ _ _ _ _ _ _ _ _ demo_T2); [| |apply ipc_nil].
    + exists [demo_p], (demo_lists demo_T1). split; [|split; [|split]].
      * split_and!.
        -- apply chain_check_sound. by vm_compute.
        -- apply NoDup_singleton.
        -- done.
        -- intros x b ->%list_elem_of_singleton Hb. vm_compute in Hb. injection Hb as <-. split_and!; try (by vm_compute).
           right. split; by vm_compute.
        -- intros x ->%list_elem_of_singleton. apply (bool_decide_unpack _). by vm_compute.
      * apply demo_pool_lists.
        -- intros []; vm_compute; done.
        -- apply (bool_decide_unpack _). by vm_compute.
        -- apply (bool_decide_unpack _). by vm_compute.
      * intros wd x ->%list_elem_of_singleton. destruct wd; apply (bool_decide_unpack _); by vm_compute.
      * intros x b b' ->%list_elem_of_singleton Hb Hb'. congruence.
    + by vm_compute.
Qed.

Lemma ipc_delivers_in_order_witness :
  exists T3, demo_step IRecv demo_T2 = Some T3 /\ t_received T3 = t_sent demo_T2 /\ length (t_sent demo_T2) = 1%nat.
Proof.
  destruct (ipc_delivers_in_order _ _ _ _ _ demo_other true 0 _ _ _ demo_linked demo_inv demo_run)
    as (q & r & Hs & _ & _ & _ & (T3 & E & Hr) & _).
  assert (Hl : length (t_sent demo_T2) = 1%nat) by (by vm_compute).
  assert (Hn : t_received demo_T2 = []) by (by vm_compute).
  rewrite Hn in Hs, Hr. simpl in Hs, Hr. exists T3. split; [exact E|]. split; [|exact Hl]. rewrite Hr, Hs. rewrite Hs in Hl.
  destruct q as [|m [|]]; [discriminate Hl|reflexivity|discriminate Hl].
Defined.
