(* ===== verification/UmqIpcSetup.v ===== *)
(** * Creating and binding queues of the shared-memory transport

    The context of a process, the creation of a queue with its region, the
    information a peer needs, binding, unbinding and destruction
    (umq_ipc_impl.c), with the answers of the operating system as arguments.
    The theorems: a queue that one process creates and another binds is
    connected the way UmqIpcSystem starts from, so that it delivers; and what
    goes wrong around identifiers. *)

From S2P Require Import Prelude Memory IdGenerator MsgRing QbufList QbufFrag QbufPool QbufOwn QbufSystem QbufShm UmqIpc UmqIpcSystem.

Implicit Types (h shm : gmap Z umq_buf) (l : list Z) (x o : Z) (t : nat) (s : shm_state).

Definition UMQ_TRANS_MODE_IPC : Z := 3.
Definition UMQ_MODE_POLLING : Z := 0.
Definition UMQ_MODE_MAX : Z := 2.
Definition UMQ_MAX_QUEUE_NUMBER : Z := 8192.
Definition UMQ_ERR_EBUSY : Z := 16.
Definition SIZEOF_BIND_INFO : Z := 68.

(** the process: the reference count of its context, the identifiers, and the
    pools of its queues by identifier, whose thread caches are found there *)
Record ipc_process := {
  g_ipc_ctx : option Z;
  g_umq_id_allocator : util_id_allocator;
  g_queues : gmap Z shm_state
}.

Definition set_ref (n : Z) (P : ipc_process) : ipc_process :=
  {| g_ipc_ctx := Some n; g_umq_id_allocator := g_umq_id_allocator P; g_queues := g_queues P |}.
Definition set_ids (a : util_id_allocator) (P : ipc_process) : ipc_process :=
  {| g_ipc_ctx := g_ipc_ctx P; g_umq_id_allocator := a; g_queues := g_queues P |}.
Definition set_queues (qs : gmap Z shm_state) (P : ipc_process) : ipc_process :=
  {| g_ipc_ctx := g_ipc_ctx P; g_umq_id_allocator := g_umq_id_allocator P; g_queues := qs |}.

(** ** The context *)

(** [ids_ok] and [ctx_ok] say whether the allocations succeed; the result is
    whether a context is returned *)
Definition umq_ipc_ctx_init_impl (ids_ok ctx_ok : bool) (trans_modes : list Z) (P : ipc_process) : bool * ipc_process :=
  match g_ipc_ctx P with
  | Some _ => (true, P)
  | None =>
    let '(r, ids) := util_id_allocator_init (g_umq_id_allocator P) ids_ok UMQ_MAX_QUEUE_NUMBER 0 in
    if negb (r =? 0) then (false, set_ids ids P)
    else if negb ctx_ok then (false, set_ids (util_id_allocator_uninit ids) P)
    else if existsb (Z.eqb UMQ_TRANS_MODE_IPC) trans_modes then (true, set_ref 1 (set_ids ids P))
    else (false, set_ids (util_id_allocator_uninit ids) P)
  end.

(** with the context of the process *)
Definition umq_ipc_ctx_uninit_impl (P : ipc_process) : option ipc_process :=
  ref_cnt ← g_ipc_ctx P;
  if 1 <? ref_cnt then Some P
  else Some {| g_ipc_ctx := None; g_umq_id_allocator := util_id_allocator_uninit (g_umq_id_allocator P); g_queues := g_queues P |}.

(** ** The region *)

Record map_answers := { ma_shm_open : Z; ma_ftruncate : Z; ma_mmap : option Z }.

(** the ring with its mapping ([None] is -1), and the calls that undo *)
Definition umq_ipc_map_memory (os : map_answers) (ring : umq_ipc_ring_info) : option umq_ipc_ring_info * list os_call :=
  let fd := ma_shm_open os in
  let undo := OsClose fd :: (if ri_owner ring then [OsUnlink (ri_ipc_name ring)] else []) in
  if fd =? -1 then (None, [])
  else if ri_owner ring && negb (ma_ftruncate os =? 0) then (None, undo)
  else match ma_mmap os with
    | None => (None, undo)
    | Some addr => (Some (ri_set_map fd addr ring), [])
    end.

Definition umq_ipc_unmap_memory (ring : umq_ipc_ring_info) : list os_call :=
  (if ri_addr ring =? 0 then [] else [OsMunmap (ri_shm_size ring)]) ++
  (if ri_shm_fd ring =? -1 then [] else [OsClose (ri_shm_fd ring)]) ++
  (if ri_owner ring then [OsUnlink (ri_ipc_name ring)] else []).

(** ** Creation *)

Definition umq_qbuf_config_get (w : world) : qbuf_pool_cfg :=
  let g := g_qbuf_pool w in
  {| cfg_buf_addr := pl_data_buffer g; cfg_total_size := pl_total_size g; cfg_data_size := pl_data_size g;
     cfg_headroom_size := pl_headroom_size g; cfg_mode := pl_mode g |}.

(** which allocations succeed: the queue or the binding, its ring, its pool *)
Record heap_answers := { ha_tp : bool; ha_ring : bool; ha_pool : bool }.

(** the ring is given its memory, so the other answers are not used *)
Definition ring_os (ha : heap_answers) : os_answers :=
  {| os_calloc := ha_ring ha; os_shm_open := 0; os_ftruncate := 0; os_mmap := None |}.

(** [same_ctx]: whether the context passed is that of the process. [m] are
    the bytes of the area of the rings in the mapped region and [h] its
    headers. The result is the queue with its pool, or the invalid handle; the
    process; and what the operating system is asked to release. *)
Definition umq_ipc_create_impl (w : world) (os : map_answers) (ha : heap_answers) (same_ctx : bool) (handle : Z)
    (opt : umq_create_option) (P : ipc_process) (m : list Z) h :
    option (option (umq_ipc_info * shm_state) * ipc_process * list os_call) :=
  if negb same_ctx then Some (None, P, [])
  else if (co_mode opt <? 0) || (UMQ_MODE_MAX <=? co_mode opt) then Some (None, P, [])
  else
    ref_cnt ← g_ipc_ctx P;
    let fail ids calls := Some (None, set_ids ids P, calls) in
    if negb (ha_tp ha) then fail (g_umq_id_allocator P) []
    else match fill_ring_info (g_pow w) opt true with
    | None => fail (g_umq_id_allocator P) []
    | Some ring =>
      match umq_ipc_map_memory os ring with
      | (None, calls) => fail (g_umq_id_allocator P) calls
      | (Some ring, _) =>
        '(r, _) ← msg_ring_create (ring_os ha) [] 0 (ipc_ring_option ring true m);
        match r with
        | None => fail (g_umq_id_allocator P) (umq_ipc_unmap_memory ring)
        | Some (msg_ring, m) =>
          '(id, ids) ← util_id_allocator_get (g_umq_id_allocator P);
          let cfg := umq_qbuf_config_get w in
          '(h, g) ← umq_shm_global_pool_init (ha_pool ha) (g_pow w)
             (ipc_pool_cfg ring (cfg_headroom_size cfg) (cfg_mode cfg) SHM_QBUF_POOL_TYPE_LOCAL handle id) h;
          match g with
          | None =>
            ids ← util_id_allocator_release ids id;
            fail ids (msg_ring_destroy msg_ring ++ umq_ipc_unmap_memory ring)
          | Some g =>
            let tp := {| ipc_trans_mode := co_trans_mode opt; ipc_bind_ctx := None; ipc_ref_cnt := 1;
                         ipc_local_msg_ring := msg_ring; ipc_local_ring := ring; ipc_umq_id := id; ipc_umqh := handle;
                         ipc_queue_mode := if co_mode_flag opt then co_mode opt else UMQ_MODE_POLLING |} in
            let s := {| ss_mem := h; ss_pool := g; ss_cache := ∅; ss_ring := m |} in
            Some (Some (tp, s), set_queues (<[id := s]> (g_queues P)) (set_ids ids (set_ref (u32 (ref_cnt + 1)) P)), [])
          end
        end
      end
    end.

(** ** Binding *)

Record umq_ipc_bind_info := {
  bi_is_binded : bool;
  bi_trans_mode : Z;
  bi_tx_depth : Z;
  bi_rx_depth : Z;
  bi_shm_total_size : Z;
  bi_transmit_queue_buf_size : Z;
  bi_shm_qbuf_pool_data_size : Z;
  bi_shm_qbuf_pool_headroom_size : Z;
  bi_shm_qbuf_pool_mode : umq_buf_mode;
  bi_ipc_name : list Z
}.

Definition umq_ipc_bind_info_get_impl (w : world) (tp : umq_ipc_info) (bind_info_size : Z) : Z * option umq_ipc_bind_info :=
  if bind_info_size <? SIZEOF_BIND_INFO then (- UMQ_ERR_EINVAL, None)
  else
    let cfg := umq_qbuf_config_get w in
    let ring := ipc_local_ring tp in
    (SIZEOF_BIND_INFO, Some
      {| bi_is_binded := bool_decide (ipc_bind_ctx tp <> None); bi_trans_mode := ipc_trans_mode tp;
         bi_tx_depth := ri_tx_depth ring; bi_rx_depth := ri_rx_depth ring;
         bi_shm_total_size := u32 (ri_shm_size ring);
         bi_transmit_queue_buf_size := ri_transmit_queue_buf_size ring;
         bi_shm_qbuf_pool_data_size := umq_buf_size_small (g_pow w);
         bi_shm_qbuf_pool_headroom_size := u32 (cfg_headroom_size cfg);
         bi_shm_qbuf_pool_mode := cfg_mode cfg; bi_ipc_name := ri_ipc_name ring |}).

Definition set_bind_ctx (b : option (umq_ipc_ring_info * msg_ring)) (tp : umq_ipc_info) : umq_ipc_info :=
  {| ipc_trans_mode := ipc_trans_mode tp; ipc_bind_ctx := b; ipc_ref_cnt := ipc_ref_cnt tp;
     ipc_local_msg_ring := ipc_local_msg_ring tp; ipc_local_ring := ipc_local_ring tp; ipc_umq_id := ipc_umq_id tp;
     ipc_umqh := ipc_umqh tp; ipc_queue_mode := ipc_queue_mode tp |}.

(** the return value, the queue, the pool of the peer and what is released *)
Definition umq_ipc_bind_impl (w : world) (os : map_answers) (ha : heap_answers) (tp : umq_ipc_info)
    (info : umq_ipc_bind_info) (bind_info_size : Z) (m : list Z) h :
    option (Z * umq_ipc_info * option shm_state * list os_call) :=
  if bool_decide (ipc_bind_ctx tp <> None) || bi_is_binded info then Some (- UMQ_ERR_EEXIST, tp, None, [])
  else if bind_info_size <? SIZEOF_BIND_INFO then Some (- UMQ_ERR_EINVAL, tp, None, [])
  else if negb (bi_trans_mode info =? UMQ_TRANS_MODE_IPC) then Some (- UMQ_ERR_EINVAL, tp, None, [])
  else if negb (ha_tp ha) then Some (- UMQ_ERR_ENOMEM, tp, None, [])
  else
    let fail calls := Some (UMQ_FAIL, tp, None, calls) in
    let ring := {| ri_addr := 0; ri_shm_fd := 0; ri_shm_size := s32 (bi_shm_total_size info); ri_ipc_name := bi_ipc_name info;
                   ri_tx_depth := bi_tx_depth info; ri_rx_depth := bi_rx_depth info;
                   ri_transmit_queue_buf_size := bi_transmit_queue_buf_size info; ri_owner := false |} in
    match umq_ipc_map_memory os ring with
    | (None, calls) => fail calls
    | (Some ring, _) =>
      '(r, _) ← msg_ring_create (ring_os ha) [] 0 (ipc_ring_option ring false m);
      match r with
      | None => fail (umq_ipc_unmap_memory ring)
      | Some (msg_ring, m) =>
        '(h, g) ← umq_shm_global_pool_init (ha_pool ha) (g_pow w)
           (ipc_pool_cfg ring (bi_shm_qbuf_pool_headroom_size info) (bi_shm_qbuf_pool_mode info) SHM_QBUF_POOL_TYPE_REMOTE 0 0) h;
        match g with
        | None => fail (msg_ring_destroy msg_ring ++ umq_ipc_unmap_memory ring)
        | Some g =>
          Some (UMQ_SUCCESS, set_bind_ctx (Some (ring, msg_ring)) tp,
                Some {| ss_mem := h; ss_pool := g; ss_cache := ∅; ss_ring := m |}, [])
        end
      end
    end.

(** ** Unbinding and destruction

    [ts] are the threads that registered their caches. The caches released
    are those at the identifier of the pool, which is 0 for the pool of a
    peer. *)

Definition umq_shm_global_pool_uninit (ts : list nat) (g : shm_pool) (qs : gmap Z shm_state) : option (gmap Z shm_state) :=
  match qs !! sp_id g with
  | None => Some qs
  | Some s => s ← unregister_all_thread_cache ts s; Some (<[sp_id g := s]> qs)
  end.

Definition umq_ipc_unbind_impl (ts : list nat) (tp : umq_ipc_info) (remote : shm_pool) (P : ipc_process) :
    option (Z * umq_ipc_info * ipc_process * list os_call) :=
  match ipc_bind_ctx tp with
  | None => Some (- UMQ_ERR_ENODEV, tp, P, [])
  | Some (ring, msg_ring) =>
    qs ← umq_shm_global_pool_uninit ts remote (g_queues P);
    Some (UMQ_SUCCESS, set_bind_ctx None tp, set_queues qs P, msg_ring_destroy msg_ring ++ umq_ipc_unmap_memory ring)
  end.

Definition umq_ipc_destroy_impl (ts : list nat) (tp : umq_ipc_info) (local : shm_pool) (P : ipc_process) :
    option (Z * ipc_process * list os_call) :=
  if negb (ipc_ref_cnt tp =? 1) then Some (- UMQ_ERR_EBUSY, P, [])
  else if bool_decide (ipc_bind_ctx tp <> None) then Some (- UMQ_ERR_EBUSY, P, [])
  else
    qs ← umq_shm_global_pool_uninit ts local (g_queues P);
    ids ← util_id_allocator_release (g_umq_id_allocator P) (ipc_umq_id tp);
    ref_cnt ← g_ipc_ctx P;
    Some (UMQ_SUCCESS, set_queues (delete (sp_id local) qs) (set_ids ids (set_ref (u32 (ref_cnt - 1)) P)),
          msg_ring_destroy (ipc_local_msg_ring tp) ++ umq_ipc_unmap_memory (ipc_local_ring tp)).

(** ** Sizes *)

Lemma round_up_pow pow x : 0 <= pow < 64 -> 0 <= x -> x + 2 ^ pow <= 2 ^ 64 ->
  round_up x (2 ^ pow) = (x + 2 ^ pow - 1) / 2 ^ pow * 2 ^ pow.
Proof.
  intros Hp Hx Hb. assert (0 < 2 ^ pow) by lia. unfold round_up. rewrite (u64_small (x + _ - 1)) by lia.
  set (y := x + 2 ^ pow - 1). assert (Hy : 0 <= y < 2 ^ 64) by lia.
  trans (Z.ldiff y (Z.ones pow)).
  - apply Z.bits_inj'. intros i Hi. rewrite Z.land_spec, Z.ldiff_spec.
    destruct (Z.lt_ge_cases i 64).
    + unfold u64. rewrite Z.mod_pow2_bits_low, Z.lnot_spec by lia. by rewrite Z.ones_equiv.
    + rewrite (testbit_in_u64_high y i) by lia. done.
  - rewrite Z.ldiff_ones_r, Z.shiftl_mul_pow2, Z.shiftr_div_pow2 by lia. done.
Qed.

Lemma round_up_bounds pow x : 0 <= pow < 64 -> 0 <= x -> x + 2 ^ pow <= 2 ^ 64 ->
  x <= round_up x (2 ^ pow) < x + 2 ^ pow.
Proof.
  intros Hp Hx Hb. rewrite round_up_pow by done. assert (0 < 2 ^ pow) by lia.
  pose proof (Z.div_mod (x + 2 ^ pow - 1) (2 ^ pow) ltac:(lia)). pose proof (Z.mod_pos_bound (x + 2 ^ pow - 1) (2 ^ pow) ltac:(lia)). lia.
Qed.

(** the parameters of a queue the code serves: the region fits in an int and
    the area of the rings reaches the header of the return ring *)
Record ring_fits (pow depth : Z) : Prop := {
  rf_pow : 13 <= pow <= 16;
  rf_depth : 1 <= depth;
  rf_size : depth * (2 ^ pow + 17 * SIZEOF_UMQ_BUF + 24) + 2 * 2 ^ pow + 32 <= 2 ^ 31;
  rf_header : 24 * depth + 272 <= round_up (24 * depth + 32) (2 ^ pow)
}.

Definition post_size (pow depth : Z) : Z := round_up (24 * depth + 32) (2 ^ pow).
Definition region_size (pow depth : Z) : Z := round_up (depth * (2 ^ pow + 17 * SIZEOF_UMQ_BUF) + post_size pow depth) (2 ^ pow).

Lemma sizes_ok pow depth name owner : ring_fits pow depth ->
  let r := ring_sizes pow depth name owner in
  ri_shm_size r = region_size pow depth /\ ri_transmit_queue_buf_size r = post_size pow depth /\
  24 * depth + 272 <= post_size pow depth /\ region_size pow depth < 2 ^ 31 /\
  depth * (2 ^ pow + 17 * SIZEOF_UMQ_BUF) <= region_size pow depth - post_size pow depth.
Proof.
  intros [Hp Hd Hs Hh]. pose proof (pow_range pow Hp) as Hr. unfold SIZEOF_UMQ_BUF in *. simpl.
  rewrite small_pow by done. unfold UMQ_EMPTY_HEADER_COEFFICIENT, SHM_RING_HDR_SIZE, SIZEOF_UMQ_BUF.
  rewrite (u64_small (16 + _)), (u64_small (_ + _ + (_ + _))), (u64_small (depth * _)) by nia.
  replace (16 + depth * 12 + (16 + depth * 12)) with (24 * depth + 32) by lia.
  replace (2 ^ pow + 128 * (1 + 16)) with (2 ^ pow + 17 * 128) by lia. fold (post_size pow depth) in *.
  pose proof (round_up_bounds pow (24 * depth + 32) ltac:(lia) ltac:(lia) ltac:(nia)) as Hpost. fold (post_size pow depth) in Hpost.
  rewrite (u64_small (_ + post_size pow depth)) by nia. fold (post_size pow depth).
  pose proof (round_up_bounds pow (depth * (2 ^ pow + 17 * 128) + post_size pow depth) ltac:(lia) ltac:(nia) ltac:(nia)) as Hreg.
  change (round_up (depth * (2 ^ pow + 17 * 128) + post_size pow depth) (2 ^ pow)) with (region_size pow depth) in *.
  split_and!; [|apply u32_small; nia|done|nia|nia]. unfold s32. rewrite Z.mod_small by nia. lia.
Qed.

(** ** The two mappings of the pool *)

(** the pool of a region of [depth] slots mapped at [addr] *)
Definition ipc_geometry (pow depth addr : Z) (cfg : shm_qbuf_pool_cfg) : shm_pool :=
  let data := addr + post_size pow depth in
  let total := region_size pow depth - post_size pow depth in
  if decide (scfg_mode cfg = UMQ_BUF_SPLIT) then
    let num := total / (2 ^ pow + 17 * SIZEOF_UMQ_BUF) in
    shm_geometry cfg data (2 ^ pow) num (data + num * 2 ^ pow) (data + num * 2 ^ pow + num * SIZEOF_UMQ_BUF) zero_block_pool
  else shm_geometry cfg data (2 ^ pow) (total / 2 ^ pow) 0 0 zero_block_pool.

(** the headers of the pool: with data, and without *)
Definition ipc_headers (g : shm_pool) (wd : bool) : list Z :=
  if decide (sp_mode g = UMQ_BUF_SPLIT) then
    if wd then (fun i => sp_header_buffer g + i * SIZEOF_UMQ_BUF) <$> seqZ 0 (sp_total_block_num g)
    else (fun i => sp_ext_header_buffer g + i * SIZEOF_UMQ_BUF) <$> seqZ 0 (16 * sp_total_block_num g)
  else if wd then (fun i => sp_data_buffer g + i * sp_block_size g) <$> seqZ 0 (sp_total_block_num g) else [].

Lemma stride_inj (a c : Z) : 0 < c -> Inj (=) (=) (fun i => a + i * c).
Proof. intros Hc i j E. nia. Qed.

Lemma elem_of_stride (a c n x : Z) : x ∈ (fun i => a + i * c) <$> seqZ 0 n <-> exists i, 0 <= i < n /\ x = a + i * c.
Proof.
  rewrite list_elem_of_fmap. split.
  - intros (i & -> & Hi). apply elem_of_seqZ in Hi. exists i. split; [lia|done].
  - intros (i & Hi & ->). exists i. split; [done|]. apply elem_of_seqZ. lia.
Qed.

Lemma NoDup_stride (a c n : Z) : 0 < c -> NoDup ((fun i => a + i * c) <$> seqZ 0 n).
Proof. intros Hc. pose proof (stride_inj a c Hc). apply NoDup_fmap_2; [done|apply NoDup_seqZ]. Qed.

(** filling [n] headers [c] bytes apart *)
Lemma init_stride (a c n : Z) addr fill h :
  0 <= n -> 0 < c -> 0 < a -> (forall j, 0 <= j < n -> addr j = a + j * c) ->
  (forall x, x ∈ (fun i => a + i * c) <$> seqZ 0 n -> is_Some (h !! x)) ->
  exists h' first, init_blocks (Z.to_nat n) 0 addr fill h 0 = Some (h', first) /\
    chain h' first (reverse ((fun i => a + i * c) <$> seqZ 0 n)) /\
    (forall x, x ∉ (fun i => a + i * c) <$> seqZ 0 n -> h' !! x = h !! x).
Proof.
  intros Hn Hc Ha He Hm. rewrite (init_blocks_ext _ 0 addr (fun i => a + i * c) fill fill); [|intros j Hj; split; [apply He; lia|done]].
  destruct (init_blocks_spec (Z.to_nat n) 0 (fun i => a + i * c) fill h 0 []) as (h' & first & E & C & F & _);
    rewrite ?Z2Nat.id in * by done.
  - done.
  - by apply NoDup_stride.
  - intros j Hj. split_and!; [nia| |apply not_elem_of_nil]. apply Hm, elem_of_stride. exists j. split; [lia|done].
  - rewrite app_nil_r in C. eauto.
Qed.

Definition mapped_at (addr : Z) : Prop := 2 ^ 31 <= addr <= 2 ^ 62.

Section pool.
Context (pow depth addr : Z) (cfg : shm_qbuf_pool_cfg).
Hypothesis Hfit : ring_fits pow depth.
Hypothesis Haddr : mapped_at addr.
Hypothesis Hbuf : scfg_buf_addr cfg = addr + post_size pow depth.
Hypothesis Htotal : scfg_total_size cfg = region_size pow depth - post_size pow depth.
Hypothesis Hmode : scfg_mode cfg <> UMQ_BUF_OTHER.
Let g := ipc_geometry pow depth addr cfg.

(** bounds used throughout *)
Lemma pool_sizes :
  2 ^ 13 <= 2 ^ pow <= 2 ^ 16 /\ 24 * depth + 272 <= post_size pow depth /\ region_size pow depth < 2 ^ 31 /\ 1 <= depth /\
  depth * (2 ^ pow + 17 * 128) <= region_size pow depth - post_size pow depth /\ 2 ^ 31 <= addr <= 2 ^ 62.
Proof using Hfit Haddr.
  pose proof (sizes_ok pow depth [] true Hfit) as (_ & _ & H1 & H2 & H3). destruct Hfit as [Hp Hd _ _]. unfold SIZEOF_UMQ_BUF in *.
  pose proof (pow_range pow Hp). unfold mapped_at in Haddr. lia.
Qed.

Lemma geometry_ok : shm_geo g.
Proof using Hfit Haddr Htotal Hmode.
  pose proof pool_sizes as (Hb & Hpost & Hreg & Hd & Hdata & Ha). set (total := region_size pow depth - post_size pow depth) in Hdata, Htotal |- *.
  assert (Ht : sp_total_size g = total) by (unfold g, ipc_geometry; case_decide; exact Htotal).
  assert (2 ^ pow + 17 * 128 <= total) by nia.
  assert (Hsz : sp_block_size g = 2 ^ pow /\ sp_data_buffer g = addr + post_size pow depth /\ sp_mode g = scfg_mode cfg)
    by (unfold g, ipc_geometry; by case_decide). destruct Hsz as (E1 & E2 & E3).
  constructor; rewrite ?E1, ?E2, ?Ht; unfold SIZEOF_UMQ_BUF; [lia|lia| |lia|lia|].
  - unfold g, ipc_geometry. case_decide; simpl; apply Z.div_pos; unfold SIZEOF_UMQ_BUF; lia.
  - rewrite E3. unfold g, ipc_geometry. fold total. destruct (scfg_mode cfg) eqn:Em; [| |done].
    + rewrite decide_True by done. simpl. unfold SIZEOF_UMQ_BUF. split_and!; [|lia|lia].
      rewrite Z.mul_comm. apply Z.mul_div_le. lia.
    + rewrite decide_False by done. done.
Qed.

Lemma pool_init_remote h : scfg_type cfg = SHM_QBUF_POOL_TYPE_REMOTE ->
  umq_shm_global_pool_init true pow cfg h = Some (h, Some g).
Proof using Hfit Haddr Hbuf Htotal Hmode.
  intros Hty. pose proof pool_sizes as (Hb & Hpost & Hreg & Hd & Hdata & Ha). set (total := region_size pow depth - post_size pow depth) in Hdata, Htotal |- *.
  unfold umq_shm_global_pool_init, g, ipc_geometry. fold total. cbn [negb].
  destruct (scfg_mode cfg) eqn:Em; [| |done].
  - unfold umq_shm_global_split_pool_init. rewrite small_pow, Hbuf, Htotal, decide_True by (done || apply Hfit). fold total.
    unfold UMQ_EMPTY_HEADER_COEFFICIENT, SIZEOF_UMQ_BUF. replace ((16 + 1) * 128 + 2 ^ pow) with (2 ^ pow + 17 * 128) by lia.
    pose proof (Z.mul_div_le total (2 ^ pow + 17 * 128) ltac:(lia)). pose proof (Z.div_pos total (2 ^ pow + 17 * 128) ltac:(nia) ltac:(lia)).
    set (num := total / (2 ^ pow + 17 * 128)) in *. rewrite !u64_small by nia. done.
  - unfold umq_shm_global_combine_pool_init. rewrite small_pow, Hbuf, Htotal, decide_True by (done || apply Hfit). done.
Qed.

Lemma pool_init_local h : scfg_type cfg = SHM_QBUF_POOL_TYPE_LOCAL ->
  (forall wd x, x ∈ ipc_headers g wd -> is_Some (h !! x)) ->
  exists h' bp, umq_shm_global_pool_init true pow cfg h = Some (h', Some (sp_set_block_pool bp g)) /\
    forall wd, pool_rep wd h' bp (reverse (ipc_headers g wd)).
Proof using Hfit Haddr Hbuf Htotal Hmode.
  intros Hty Hmap. pose proof pool_sizes as (Hb & Hpost & Hreg & Hd & Hdata & Ha). set (total := region_size pow depth - post_size pow depth) in Hdata, Htotal |- *.
  unfold umq_shm_global_pool_init. cbn [negb]. set (data := addr + post_size pow depth) in *.
  destruct (decide (scfg_mode cfg = UMQ_BUF_SPLIT)) as [Em|Em].
  - rewrite Em. unfold umq_shm_global_split_pool_init.
    rewrite small_pow, Hbuf, Htotal, decide_False by (congruence || apply Hfit). unfold UMQ_EMPTY_HEADER_COEFFICIENT, SIZEOF_UMQ_BUF.
    replace ((16 + 1) * 128 + 2 ^ pow) with (2 ^ pow + 17 * 128) by lia.
    pose proof (Z.mul_div_le total (2 ^ pow + 17 * 128) ltac:(lia)). pose proof (Z.div_pos total (2 ^ pow + 17 * 128) ltac:(nia) ltac:(lia)).
    set (num := total / (2 ^ pow + 17 * 128)) in *.
    rewrite (u64_small (data + _)), (u64_small (_ + num * 128)), (u64_small (num * 16)) by nia.
    set (hdr := data + num * 2 ^ pow) in *. set (ext := hdr + num * 128) in *.
    assert (Eg : g = shm_geometry cfg data (2 ^ pow) num hdr ext zero_block_pool)
      by (unfold g, ipc_geometry; rewrite decide_True by done; done).
    assert (Eh : forall wd, ipc_headers g wd = if wd then (fun i => hdr + i * 128) <$> seqZ 0 num else (fun i => ext + i * 128) <$> seqZ 0 (num * 16)).
    { intros wd. unfold ipc_headers. rewrite Eg, decide_True by done. simpl sp_total_block_num. by rewrite (Z.mul_comm 16). }
    edestruct (init_stride hdr 128 num (fun i => id_to_buf_with_data_split hdr (u32 i))) as (h1 & f1 & E1 & C1 & F1);
      [lia..|nia| |rewrite <- (Eh true); apply Hmap|].
    { intros j Hj. unfold id_to_buf_with_data_split, SIZEOF_UMQ_BUF. rewrite u32_small, u64_small by nia. lia. }
    rewrite E1. cbn [mbind option_bind].
    edestruct (init_stride ext 128 (num * 16) (fun i => id_to_buf_without_data_split ext (u32 i)) (fun _ => shm_header (scfg_umqh cfg) 128 0 0) h1) as (h2 & f2 & E2 & C2 & F2);
      [lia..|nia| | |].
    { intros j Hj. unfold id_to_buf_without_data_split, SIZEOF_UMQ_BUF. rewrite u32_small, u64_small by nia. lia. }
    { intros x Hx. rewrite F1; [apply (Hmap false); by rewrite Eh|].
      apply elem_of_stride in Hx as (i & Hi & ->). intros (j & Hj & E)%elem_of_stride. lia. }
    rewrite E2. cbn [mbind option_bind]. rewrite Eg. eexists _, _. split; [done|]. rewrite <- Eg. intros wd. rewrite Eh.
    unfold pool_rep, zlen. rewrite length_reverse. destruct wd; simpl.
    + split; [|by rewrite length_fmap, length_seqZ, Z2Nat.id].
      eapply lseg_frame; [exact C1|]. intros x Hx. rewrite elem_of_reverse in Hx. unfold QBUF_LIST_NEXT. rewrite F2; [done|].
      apply elem_of_stride in Hx as (i & Hi & ->). intros (j & Hj & E)%elem_of_stride. lia.
    + split; [done|]. rewrite length_fmap, length_seqZ, Z2Nat.id by lia. done.
  - assert (scfg_mode cfg = UMQ_BUF_COMBINE) as -> by (by destruct (scfg_mode cfg)). unfold umq_shm_global_combine_pool_init.
    rewrite small_pow, Hbuf, Htotal, decide_False by (congruence || apply Hfit).
    pose proof (Z.mul_div_le total (2 ^ pow) ltac:(lia)). pose proof (Z.div_pos total (2 ^ pow) ltac:(nia) ltac:(lia)).
    set (num := total / 2 ^ pow) in *.
    assert (Eg : g = shm_geometry cfg data (2 ^ pow) num 0 0 zero_block_pool)
      by (unfold g, ipc_geometry; rewrite decide_False by done; done).
    assert (Eh : forall wd, ipc_headers g wd = if wd then (fun i => data + i * 2 ^ pow) <$> seqZ 0 num else []).
    { intros wd. unfold ipc_headers. rewrite Eg, decide_False by done. done. }
    edestruct (init_stride data (2 ^ pow) num (fun i => id_to_buf_combine data (u32 i) (2 ^ pow))) as (h1 & f1 & E1 & C1 & F1);
      [lia..| |rewrite <- (Eh true); apply Hmap|].
    { intros j Hj. unfold id_to_buf_combine. rewrite (u32_small j), (u32_small (j * _)), u64_small by nia. lia. }
    rewrite E1. cbn [mbind option_bind]. rewrite Eg. eexists _, _. split; [done|]. rewrite <- Eg. intros wd. rewrite Eh.
    unfold pool_rep, zlen. rewrite length_reverse. destruct wd; simpl; [|done].
    split; [done|]. by rewrite length_fmap, length_seqZ, Z2Nat.id.
Qed.
End pool.

Lemma ipc_headers_valid g wd x : shm_geo g -> x ∈ ipc_headers g wd -> pool_header g x.
Proof.
  intros [Hb _ Hn _ _ Hm] Hx. exists (x - sp_data_buffer g). unfold ipc_headers, valid_qbuf, SIZEOF_UMQ_BUF in *.
  destruct (decide (sp_mode g = UMQ_BUF_SPLIT)) as [E|E].
  - rewrite E in Hm. destruct Hm as (Ht & Eh & Ee).
    assert (exists k, 0 <= k < 17 * sp_total_block_num g /\ x = sp_header_buffer g + k * 128) as (k & Hk & ->).
    { destruct wd; apply elem_of_stride in Hx as (i & Hi & ->); [exists i|exists (sp_total_block_num g + i)]; lia. }
    rewrite Eh. split; [nia|]. split; [|lia].
    replace (sp_data_buffer g + sp_total_block_num g * sp_block_size g + k * 128 - sp_data_buffer g -
      sp_total_block_num g * sp_block_size g) with (k * 128) by lia.
    rewrite Z.mod_mul, (proj2 (Z.leb_le _ _)), (proj2 (Z.leb_le _ _)) by nia. done.
  - destruct wd; [|by apply elem_of_nil in Hx]. apply elem_of_stride in Hx as (i & Hi & ->).
    assert (Et : sp_total_block_num g = sp_total_size g / sp_block_size g) by (by destruct (sp_mode g)).
    pose proof (Z.mul_div_le (sp_total_size g) (sp_block_size g) ltac:(lia)). rewrite <- Et in *.
    split; [nia|]. split; [|lia]. replace (sp_data_buffer g + i * sp_block_size g - sp_data_buffer g) with (i * sp_block_size g) by lia.
    rewrite Z.mod_mul, (proj2 (Z.leb_le _ _)) by nia. done.
Qed.

Lemma ipc_headers_NoDup g : shm_geo g -> NoDup (ipc_headers g true ++ ipc_headers g false).
Proof.
  intros [Hb _ Hn _ _ Hm]. unfold ipc_headers, SIZEOF_UMQ_BUF in *. destruct (decide (sp_mode g = UMQ_BUF_SPLIT)) as [E|E].
  - rewrite E in Hm. apply NoDup_app. split; [by apply NoDup_stride|]. split; [|by apply NoDup_stride].
    intros x (i & Hi & ->)%elem_of_stride (j & Hj & Ej)%elem_of_stride. lia.
  - rewrite app_nil_r. apply NoDup_stride. lia.
Qed.

(** every offset at which the pool has a header *)
Definition all_offsets (g : shm_pool) : gset Z :=
  list_to_set (filter (fun o => valid_qbuf g o = true) (seqZ 0 (sp_total_size g))).

Lemma elem_of_all_offsets g o : shm_geo g -> o ∈ all_offsets g <-> 0 <= o /\ valid_qbuf g o = true.
Proof.
  intros Hg. unfold all_offsets. rewrite elem_of_list_to_set, list_elem_of_filter, elem_of_seqZ. split; [intros [? ?]; split; [lia|done]|].
  intros [H0 Hv]. pose proof (valid_qbuf_range g Hg o Hv). unfold SIZEOF_UMQ_BUF in *. split; [done|lia].
Qed.

(** ** A created queue *)

Definition opt_depth (opt : umq_create_option) : Z := default UMQ_DEFAULT_DEPTH (co_tx_depth opt).

(** a configuration and an option the code serves *)
Record setup_ok (w : world) (opt : umq_create_option) : Prop := {
  su_fits : ring_fits (g_pow w) (opt_depth opt);
  su_buf_mode : pl_mode (g_qbuf_pool w) <> UMQ_BUF_OTHER;
  su_name : zlen (co_name opt) <= MAX_MSG_RING_NAME;
  su_queue_mode : 0 <= co_mode opt < UMQ_MODE_MAX;
  su_trans : co_trans_mode opt = UMQ_TRANS_MODE_IPC
}.

(** the operating system maps the region at [addr], and memory is there *)
Definition maps_at (fd addr : Z) : map_answers := {| ma_shm_open := fd; ma_ftruncate := 0; ma_mmap := Some addr |}.
Definition all_ok : heap_answers := {| ha_tp := true; ha_ring := true; ha_pool := true |}.

(** the pool a queue gets *)
Definition local_geometry (w : world) (opt : umq_create_option) (fd addr handle id : Z) : shm_pool :=
  ipc_geometry (g_pow w) (opt_depth opt) addr
    (ipc_pool_cfg (ri_set_map fd addr (ring_sizes (g_pow w) (opt_depth opt) (co_name opt) true))
       (pl_headroom_size (g_qbuf_pool w)) (pl_mode (g_qbuf_pool w)) SHM_QBUF_POOL_TYPE_LOCAL handle id).

(** the state the two sides start from *)
Definition fresh (s : shm_state) : ipc_state :=
  {| t_region := of_owner (ss_pool s) s; t_own := all_offsets (ss_pool s); t_peer := ∅; t_sent := []; t_received := [] |}.

(** what the options of the pool say about the region *)
Lemma ipc_pool_cfg_sizes pow depth fd addr name owner headroom mode type handle id :
  ring_fits pow depth -> mapped_at addr ->
  let cfg := ipc_pool_cfg (ri_set_map fd addr (ring_sizes pow depth name owner)) headroom mode type handle id in
  scfg_buf_addr cfg = addr + post_size pow depth /\ scfg_total_size cfg = region_size pow depth - post_size pow depth.
Proof.
  intros Hf Ha. destruct (sizes_ok pow depth name owner Hf) as (E1 & E2 & Hp & Hr & Hd).
  pose proof (rf_depth _ _ Hf). pose proof (pow_range pow (rf_pow _ _ Hf)). unfold mapped_at, SIZEOF_UMQ_BUF in *.
  unfold ipc_pool_cfg. cbn [scfg_buf_addr scfg_total_size]. cbn [ri_set_map ri_addr ri_transmit_queue_buf_size ri_shm_size].
  rewrite E1, E2. split; [apply u64_small; nia|apply u32_small; nia].
Qed.

Lemma ring_option_ok pow depth own m : ring_fits pow depth ->
  opt_ok {| opt_owner := own; opt_tx_max_buf_size := 12; opt_tx_depth := depth;
            opt_rx_max_buf_size := 12; opt_rx_depth := depth; opt_addr := Some m |}.
Proof.
  intros [Hp Hd Hs _]. pose proof (pow_range pow Hp). unfold opt_ok, NUM_RING_HEADERS, SHM_RING_HDR_SIZE, SIZEOF_UMQ_BUF in *. simpl. nia.
Qed.

(** the ring both sides use *)
Definition ipc_msg_ring (depth : Z) : msg_ring :=
  ring_layout [] (-1) 0 false {| opt_owner := true; opt_tx_max_buf_size := 12; opt_tx_depth := depth;
    opt_rx_max_buf_size := 12; opt_rx_depth := depth; opt_addr := None |}.

Lemma create_ring pow depth fd addr name m : ring_fits pow depth -> zlen m = post_size pow depth ->
  exists m', msg_ring_create (ring_os all_ok) [] 0 (ipc_ring_option (ri_set_map fd addr (ring_sizes pow depth name true)) true m) =
      Some (Some (ipc_msg_ring depth, m'), []) /\ offset_rings (ipc_msg_ring depth) m' [] [].
Proof.
  intros Hf Hm. pose proof (rf_header _ _ Hf) as Hh. fold (post_size pow depth) in Hh. pose proof (rf_depth _ _ Hf).
  pose proof (rf_size _ _ Hf). pose proof (pow_range pow (rf_pow _ _ Hf)). unfold SIZEOF_UMQ_BUF in *.
  destruct (init_ring_hdrs_pair [] (-1) 0 false _ m (ring_option_ok pow depth true m Hf)) as (m' & E & Hp).
  { unfold ring_layout. cbn [shm_rx_ring_hdr opt_tx_depth opt_tx_max_buf_size opt_rx_depth opt_rx_max_buf_size].
    unfold SHM_RING_HDR_SIZE. rewrite u32_small by nia. lia. }
  exists m'. split; [|exact Hp]. unfold msg_ring_create. cbn [ring_os os_calloc all_ok ha_ring negb].
  change (MAX_MSG_RING_NAME <? 0) with false. cbv iota. change (read_bytes [] 0 0) with (Some (@nil Z)). cbn [mbind option_bind].
  unfold ipc_ring_option. cbn [opt_addr opt_owner ri_set_map ri_tx_depth ring_sizes]. rewrite E. done.
Qed.

Lemma fresh_inv s ring bp g : shm_geo g -> ss_pool s = sp_set_block_pool bp g ->
  (forall wd, pool_rep wd (ss_mem s) bp (reverse (ipc_headers g wd))) -> offset_rings ring (ss_ring s) [] [] ->
  ipc_inv (ss_pool s) ring (fresh s) [] [].
Proof.
  intros Hg Ep Hl Hr. assert (Hg' : shm_geo (ss_pool s)) by (rewrite Ep; by apply geo_set_block_pool).
  assert (Ev : view (sp_data_buffer (ss_pool s)) (y_shm (t_region (fresh s))) = ss_mem s).
  { simpl. rewrite view_view, Z.add_opp_diag_r. apply view_0. }
  constructor; [done|done|constructor|apply NoDup_nil_2|intros o Ho; by apply elem_of_nil in Ho|apply disjoint_empty_r|..].
  - intros o [Ho|Ho]; [|by apply not_elem_of_empty in Ho]. by apply elem_of_all_offsets.
  - exists (fun wd => reverse (ipc_headers g wd)). split_and!.
    + intros wd. rewrite Ev. simpl. unfold ss_global. rewrite Ep. apply Hl.
    + rewrite !reverse_Permutation. by apply ipc_headers_NoDup.
    + intros wd x Hx. rewrite elem_of_reverse in Hx. destruct (ipc_headers_valid g wd x Hg Hx) as (o & H0 & Hv & ->).
      apply elem_of_all_offsets; [done|]. rewrite Ep. simpl. replace (sp_data_buffer g + o - sp_data_buffer g) with o by lia. done.
Qed.

Lemma create_ok w opt fd addr handle P n id ids' m h :
  setup_ok w opt -> mapped_at addr -> fd <> -1 -> g_ipc_ctx P = Some n ->
  util_id_allocator_get (g_umq_id_allocator P) = Some (id, ids') -> zlen m = post_size (g_pow w) (opt_depth opt) ->
  (forall x, pool_header (local_geometry w opt fd addr handle id) x -> is_Some (h !! x)) ->
  exists tp s P' bp, umq_ipc_create_impl w (maps_at fd addr) all_ok true handle opt P m h = Some (Some (tp, s), P', []) /\
    ipc_trans_mode tp = UMQ_TRANS_MODE_IPC /\ ipc_bind_ctx tp = None /\ ipc_local_msg_ring tp = ipc_msg_ring (opt_depth opt) /\
    ipc_local_ring tp = ri_set_map fd addr (ring_sizes (g_pow w) (opt_depth opt) (co_name opt) true) /\
    ss_pool s = sp_set_block_pool bp (local_geometry w opt fd addr handle id) /\
    ipc_inv (ss_pool s) (ipc_msg_ring (opt_depth opt)) (fresh s) [] [].
Proof.
  intros [Hf Hbm Hn Hq Htr] Ha Hfd Hctx Hid Hm Hmap. unfold umq_ipc_create_impl. cbn [negb].
  unfold UMQ_MODE_MAX in *. rewrite (proj2 (Z.ltb_ge _ _)), (proj2 (Z.leb_gt _ _)) by lia. cbn [orb]. rewrite Hctx. cbn [mbind option_bind all_ok ha_tp negb].
  unfold fill_ring_info. rewrite (proj2 (Z.ltb_ge _ _)) by lia. fold (opt_depth opt).
  unfold umq_ipc_map_memory. cbn [maps_at ma_shm_open ma_ftruncate ma_mmap]. rewrite (proj2 (Z.eqb_neq fd (-1))) by done.
  change (0 =? 0) with true. rewrite andb_false_r.
  destruct (create_ring (g_pow w) (opt_depth opt) fd addr (co_name opt) m Hf Hm) as (m' & E & Hrings).
  change {| ha_tp := true; ha_ring := true; ha_pool := true |} with all_ok. rewrite E. cbn [mbind option_bind].
  rewrite Hid. cbn [mbind option_bind umq_qbuf_config_get cfg_headroom_size cfg_mode].
  set (cfg := ipc_pool_cfg _ _ _ _ _ _).
  destruct (ipc_pool_cfg_sizes (g_pow w) (opt_depth opt) fd addr (co_name opt) true (pl_headroom_size (g_qbuf_pool w))
    (pl_mode (g_qbuf_pool w)) SHM_QBUF_POOL_TYPE_LOCAL handle id Hf Ha) as [Eb Et]. fold cfg in Eb, Et.
  pose proof (geometry_ok (g_pow w) (opt_depth opt) addr cfg Hf Ha Et Hbm) as Hg.
  destruct (pool_init_local (g_pow w) (opt_depth opt) addr cfg Hf Ha Eb Et Hbm h eq_refl) as (h' & bp & Ei & Hl).
  { intros wd x Hx. apply Hmap. by eapply ipc_headers_valid. }
  change (ha_pool all_ok) with true. rewrite Ei. cbn [mbind option_bind]. eexists _, _, _, bp. split; [done|].
  split_and!; [done..|]. by eapply fresh_inv.
Qed.

(** ** A bound queue *)

Definition remote_geometry (w : world) (opt : umq_create_option) (fd addr : Z) : shm_pool :=
  ipc_geometry (g_pow w) (opt_depth opt) addr
    (ipc_pool_cfg (ri_set_map fd addr (ring_sizes (g_pow w) (opt_depth opt) (co_name opt) false))
       (u32 (pl_headroom_size (g_qbuf_pool w))) (pl_mode (g_qbuf_pool w)) SHM_QBUF_POOL_TYPE_REMOTE 0 0).

Lemma bind_ok w w' opt tp fd addr fd' addr' tp' m h :
  setup_ok w opt -> mapped_at addr' -> fd' <> -1 -> g_pow w' = g_pow w ->
  ipc_trans_mode tp = UMQ_TRANS_MODE_IPC -> ipc_bind_ctx tp = None ->
  ipc_local_ring tp = ri_set_map fd addr (ring_sizes (g_pow w) (opt_depth opt) (co_name opt) true) -> ipc_bind_ctx tp' = None ->
  exists info, umq_ipc_bind_info_get_impl w tp SIZEOF_BIND_INFO = (SIZEOF_BIND_INFO, Some info) /\
    umq_ipc_bind_impl w' (maps_at fd' addr') all_ok tp' info SIZEOF_BIND_INFO m h =
      Some (UMQ_SUCCESS,
        set_bind_ctx (Some (ri_set_map fd' addr' (ring_sizes (g_pow w) (opt_depth opt) (co_name opt) false), ipc_msg_ring (opt_depth opt))) tp',
        Some {| ss_mem := h; ss_pool := remote_geometry w opt fd' addr'; ss_cache := ∅; ss_ring := m |}, []).
Proof.
  intros [Hf Hbm Hn Hq Htr] Ha Hfd Hw Ht Hb Er Hb'. unfold umq_ipc_bind_info_get_impl, umq_ipc_bind_impl. rewrite Z.ltb_irrefl.
  eexists. split; [done|]. cbn [bi_is_binded bi_trans_mode bi_tx_depth bi_rx_depth bi_shm_total_size bi_transmit_queue_buf_size
    bi_shm_qbuf_pool_headroom_size bi_shm_qbuf_pool_mode bi_ipc_name].
  rewrite Hb, Hb'. cbn [all_ok ha_tp negb orb]. rewrite bool_decide_eq_false_2 by naive_solver. rewrite Ht.
  change (UMQ_TRANS_MODE_IPC =? UMQ_TRANS_MODE_IPC) with true. cbn [orb negb]. rewrite Er.
  destruct (sizes_ok (g_pow w) (opt_depth opt) (co_name opt) true Hf) as (E1 & E2 & H1 & H2 & H3).
  pose proof (rf_depth _ _ Hf). pose proof (pow_range _ (rf_pow _ _ Hf)). unfold SIZEOF_UMQ_BUF in *.
  set (ring := {| ri_addr := 0 |}).
  assert (Ering : ring = ring_sizes (g_pow w) (opt_depth opt) (co_name opt) false).
  { assert (Es : s32 (u32 (ri_shm_size (ring_sizes (g_pow w) (opt_depth opt) (co_name opt) true))) =
      ri_shm_size (ring_sizes (g_pow w) (opt_depth opt) (co_name opt) true)).
    { rewrite E1. rewrite u32_small by nia. unfold s32. rewrite Z.mod_small by nia. lia. }
    unfold ring. cbn [ri_set_map ri_shm_size ri_ipc_name ri_tx_depth ri_rx_depth ri_transmit_queue_buf_size]. rewrite Es. done. }
  rewrite Ering. unfold umq_ipc_map_memory. cbn [maps_at ma_shm_open ma_ftruncate ma_mmap].
  rewrite (proj2 (Z.eqb_neq fd' (-1))) by done. change (ri_owner (ring_sizes _ _ _ false)) with false. cbn [andb].
  change {| ha_tp := true; ha_ring := true; ha_pool := true |} with all_ok.
  unfold msg_ring_create. cbn [ring_os os_calloc all_ok ha_ring negb]. change (MAX_MSG_RING_NAME <? 0) with false. cbv iota.
  change (read_bytes [] 0 0) with (Some (@nil Z)). cbn [mbind option_bind ipc_ring_option opt_addr opt_owner].
  unfold init_ring_hdrs. cbn [mbind option_bind]. rewrite Hw. cbn [umq_qbuf_config_get cfg_headroom_size cfg_mode].
  change (ha_pool all_ok) with true. set (cfg := ipc_pool_cfg _ _ _ _ _ _).
  destruct (ipc_pool_cfg_sizes (g_pow w) (opt_depth opt) fd' addr' (co_name opt) false (u32 (pl_headroom_size (g_qbuf_pool w)))
    (pl_mode (g_qbuf_pool w)) SHM_QBUF_POOL_TYPE_REMOTE 0 0 Hf Ha) as [Eb Et]. fold cfg in Eb, Et.
  rewrite (pool_init_remote (g_pow w) (opt_depth opt) addr' cfg Hf Ha Eb Et Hbm h eq_refl). done.
Qed.

(** ** Connected queues *)

(** the headers of a pool lie inside the mapping of its region *)
Lemma header_in_ring pow depth fd addr name owner cfg g x :
  ring_fits pow depth -> mapped_at addr -> scfg_total_size cfg = region_size pow depth - post_size pow depth ->
  scfg_mode cfg <> UMQ_BUF_OTHER -> g = ipc_geometry pow depth addr cfg -> pool_header g x ->
  in_ring (ri_set_map fd addr (ring_sizes pow depth name owner)) x = true.
Proof.
  intros Hf Ha Et Hm -> (off & H0 & Hv & ->). destruct (sizes_ok pow depth name owner Hf) as (E1 & E2 & H1 & H2 & H3).
  pose proof (geometry_ok pow depth addr cfg Hf Ha Et Hm) as Hg. apply (valid_qbuf_range _ Hg) in Hv.
  assert (Ed : sp_data_buffer (ipc_geometry pow depth addr cfg) = addr + post_size pow depth) by (unfold ipc_geometry; by case_decide).
  assert (Es : sp_total_size (ipc_geometry pow depth addr cfg) = scfg_total_size cfg) by (unfold ipc_geometry; by case_decide).
  rewrite Es, Et in Hv. rewrite Ed. pose proof (rf_depth _ _ Hf). unfold mapped_at, SIZEOF_UMQ_BUF in *.
  unfold in_ring. cbn [ri_set_map ri_addr ri_shm_size]. rewrite E1, u64_small by lia.
  rewrite (proj2 (Z.leb_le _ _)), (proj2 (Z.ltb_lt _ _)) by lia. done.
Qed.

Lemma geometry_twins pow depth a a' cfg cfg' bp :
  scfg_mode cfg' = scfg_mode cfg -> scfg_total_size cfg' = scfg_total_size cfg ->
  twins (sp_set_block_pool bp (ipc_geometry pow depth a cfg)) (ipc_geometry pow depth a' cfg').
Proof.
  intros Em Et. unfold ipc_geometry. rewrite Em.
  constructor; cbn [sp_set_block_pool sp_mode sp_total_size sp_block_size sp_total_block_num]; by destruct (decide _).
Qed.

Lemma setup_linked w opt fd addr handle id bp fd' addr' tp tp' c :
  setup_ok w opt -> mapped_at addr -> mapped_at addr' ->
  ipc_local_msg_ring tp = ipc_msg_ring (opt_depth opt) ->
  ipc_local_ring tp = ri_set_map fd addr (ring_sizes (g_pow w) (opt_depth opt) (co_name opt) true) ->
  ipc_bind_ctx tp' = Some (ri_set_map fd' addr' (ring_sizes (g_pow w) (opt_depth opt) (co_name opt) false), ipc_msg_ring (opt_depth opt)) ->
  linked (sp_set_block_pool bp (local_geometry w opt fd addr handle id)) (remote_geometry w opt fd' addr')
    (set_bind_ctx (Some c) tp) tp' (ipc_msg_ring (opt_depth opt)).
Proof.
  intros [Hf Hbm Hn Hq Htr] Ha Ha' Em Er Eb. unfold local_geometry, remote_geometry.
  set (cfg := ipc_pool_cfg _ _ _ _ handle id). set (cfg' := ipc_pool_cfg _ _ _ _ 0 0).
  assert (Et : scfg_total_size cfg = region_size (g_pow w) (opt_depth opt) - post_size (g_pow w) (opt_depth opt)) by (by apply ipc_pool_cfg_sizes).
  assert (Et' : scfg_total_size cfg' = region_size (g_pow w) (opt_depth opt) - post_size (g_pow w) (opt_depth opt)) by (by apply ipc_pool_cfg_sizes).
  pose proof (geometry_ok _ _ _ cfg Hf Ha Et Hbm) as Hg. pose proof (geometry_ok _ _ _ cfg' Hf Ha' Et' Hbm) as Hg'.
  pose proof (sizes_ok _ _ (co_name opt) true Hf) as (_ & _ & H1 & H2 & H3). pose proof (rf_depth _ _ Hf).
  assert (Es : sp_total_size (ipc_geometry (g_pow w) (opt_depth opt) addr cfg) = scfg_total_size cfg) by (unfold ipc_geometry; by case_decide).
  constructor.
  - by apply geo_set_block_pool.
  - done.
  - apply geometry_twins; [done|congruence].
  - cbn [sp_set_block_pool sp_total_size]. rewrite Es, Et. lia.
  - unfold ipc_geometry. by case_decide.
  - done.
  - done.
  - done.
  - eexists. split; [exact Eb|]. intros x Hx. by apply (header_in_ring _ _ _ _ _ _ cfg' _ x Hf Ha' Et' Hbm eq_refl).
  - intros x Hx. unfold is_local_addr. cbn [set_bind_ctx ipc_local_ring]. rewrite Er. apply (header_in_ring _ _ _ _ _ _ cfg _ x Hf Ha Et Hbm eq_refl). exact Hx.
Qed.

(** C3: a queue that one process creates and another binds works. With sizes
    the code serves, creating the queue succeeds; the information it gives to
    the peer makes binding succeed, at any other address; and from there on,
    once the owner is bound too, no interleaving of the two sides faults, the
    messages received are always a prefix of those sent, and the next one is
    received as long as one is missing. *)
Theorem ipc_queue_connects w w' opt fd addr handle P n id ids' m shm fd' addr' tpB :
  setup_ok w opt -> mapped_at addr -> mapped_at addr' -> fd <> -1 -> fd' <> -1 -> g_pow w' = g_pow w ->
  g_ipc_ctx P = Some n -> util_id_allocator_get (g_umq_id_allocator P) = Some (id, ids') ->
  zlen m = post_size (g_pow w) (opt_depth opt) ->
  (forall o, 0 <= o -> valid_qbuf (local_geometry w opt fd addr handle id) o = true -> is_Some (shm !! o)) ->
  ipc_bind_ctx tpB = None ->
  let data a := a + post_size (g_pow w) (opt_depth opt) in
  exists tpA sA P' info tpB' sB,
    umq_ipc_create_impl w (maps_at fd addr) all_ok true handle opt P m (view (data addr) shm) = Some (Some (tpA, sA), P', []) /\
    umq_ipc_bind_info_get_impl w tpA SIZEOF_BIND_INFO = (SIZEOF_BIND_INFO, Some info) /\
    umq_ipc_bind_impl w' (maps_at fd' addr') all_ok tpB info SIZEOF_BIND_INFO (ss_ring sA)
      (view (data addr') (y_shm (t_region (fresh sA)))) = Some (UMQ_SUCCESS, tpB', Some sB, []) /\
    forall c peer_local calloc t evs T,
      let exec := ipc_exec (ss_pool sA) (ss_pool sB) (set_bind_ctx (Some c) tpA) tpB' (ipc_local_msg_ring tpA) peer_local calloc t in
      ipc_run (ss_pool sA) (ss_pool sB) (set_bind_ctx (Some c) tpA) tpB' (ipc_local_msg_ring tpA) peer_local calloc t (fresh sA) evs T ->
      (forall ev, ipc_enabled (ss_pool sA) (ss_pool sB) ev T -> exists T', exec ev T = Some T') /\
      exists q, t_sent T = t_received T ++ q /\ exists T', exec IRecv T = Some T' /\ t_received T' = t_received T ++ take 1 q.
Proof.
  intros Hs Ha Ha' Hfd Hfd' Hw Hctx Hid Hm Hmap HbB data.
  destruct (create_ok w opt fd addr handle P n id ids' m (view (data addr) shm) Hs Ha Hfd Hctx Hid Hm)
    as (tp & s & P' & bp & Ec & Ht & Hb & Em & Er & Ep & Hinv).
  { intros x (o & H0 & Hv & ->). rewrite lookup_view.
    replace (sp_data_buffer (local_geometry w opt fd addr handle id)) with (data addr) by (unfold local_geometry, ipc_geometry; by case_decide).
    replace (data addr + o - data addr) with o by lia. by apply Hmap. }
  destruct (bind_ok w w' opt tp fd addr fd' addr' tpB (ss_ring s) (view (data addr') (y_shm (t_region (fresh s)))) Hs Ha' Hfd' Hw Ht Hb Er HbB)
    as (info & Ei & Eb).
  eexists tp, s, P', info, _, _. split; [exact Ec|]. split; [exact Ei|]. split; [exact Eb|]. clear Ec Ei Eb.
  intros c peer_local calloc t evs T exec Hr. subst exec. rewrite Em in *. rewrite Ep in *. cbn [ss_pool] in *.
  assert (Hlink : linked (sp_set_block_pool bp (local_geometry w opt fd addr handle id)) (remote_geometry w opt fd' addr')
    (set_bind_ctx (Some c) tp) (set_bind_ctx (Some (ri_set_map fd' addr' (ring_sizes (g_pow w) (opt_depth opt) (co_name opt) false),
      ipc_msg_ring (opt_depth opt))) tpB) (ipc_msg_ring (opt_depth opt))) by (by apply setup_linked).
  destruct (ipc_run_inv _ _ _ _ _ _ _ _ Hlink _ _ _ _ _ Hinv Hr) as (q & r & HI). split.
  - intros ev He. destruct (ipc_step _ _ _ _ _ peer_local calloc t Hlink ev T q r HI He) as (T' & q' & r' & E & _). by exists T'.
  - exists q. split; [apply HI|]. destruct (recv_inv _ _ _ _ _ peer_local calloc t Hlink T q r HI) as (T1 & E1 & _ & _ & _ & Hrecv). eauto.
Qed.

(** ** Example: a queue of four slots *)

Definition demo_opt (depth : Z) : umq_create_option :=
  {| co_name := [97]; co_trans_mode := UMQ_TRANS_MODE_IPC; co_tx_depth := Some depth; co_mode := 0; co_mode_flag := false |}.
Definition demo_world (pow : Z) : world := {| mem := ∅; g_qbuf_pool := zero_pool; g_thread_cache := ∅; g_pow := pow |}.
Definition demo_process (next : Z) : ipc_process :=
  {| g_ipc_ctx := Some 1; g_queues := ∅;
     g_umq_id_allocator := {| available_ids := Some []; num_available := 0; next_id := next; max_num := UMQ_MAX_QUEUE_NUMBER |} |}.

Lemma demo_setup : setup_ok (demo_world 13) (demo_opt 4).
Proof. constructor; [constructor|..]; vm_compute; intuition congruence. Qed.

Lemma demo_headers o : 0 <= o -> valid_qbuf (local_geometry (demo_world 13) (demo_opt 4) 3 (2 ^ 40) 77 0) o = true -> is_Some (demo_shm0 !! o).
Proof.
  intros H0 Hv. change ((32768 <=? o) && (o + 128 <=? 41472) && ((o - 32768) mod 128 =? 0) = true) in Hv.
  apply andb_true_iff in Hv as [Hv H3]. apply andb_true_iff in Hv as [H1 H2]. breflect.
  apply Z.mod_divide in H3 as [k Hk]; [|lia]. unfold demo_shm0. apply elem_of_dom. rewrite dom_list_to_map_L, elem_of_list_to_set.
  rewrite <- list_fmap_compose. apply list_elem_of_fmap. exists o. split; [done|].
  apply list_elem_of_fmap. exists k. split; [lia|]. apply elem_of_seqZ. lia.
Qed.

Lemma ipc_queue_connects_witness :
  exists tpA sA P' info tpB' sB,
    umq_ipc_create_impl (demo_world 13) (maps_at 3 (2 ^ 40)) all_ok true 77 (demo_opt 4) (demo_process 0) (replicate (Z.to_nat 8192) 0)
      (view (2 ^ 40 + 8192) demo_shm0) = Some (Some (tpA, sA), P', []) /\
    umq_ipc_bind_info_get_impl (demo_world 13) tpA SIZEOF_BIND_INFO = (SIZEOF_BIND_INFO, Some info) /\
    umq_ipc_bind_impl (demo_world 13) (maps_at 4 (2 ^ 41)) all_ok (set_bind_ctx None demo_tpB) info SIZEOF_BIND_INFO (ss_ring sA)
      (view (2 ^ 41 + 8192) (y_shm (t_region (fresh sA)))) = Some (UMQ_SUCCESS, tpB', Some sB, []) /\
    exists q, t_sent (fresh sA) = t_received (fresh sA) ++ q.
Proof.
  destruct (ipc_queue_connects (demo_world 13) (demo_world 13) (demo_opt 4) 3 (2 ^ 40) 77 (demo_process 0) 1 0
    (g_umq_id_allocator (demo_process 1)) (replicate (Z.to_nat 8192) 0) demo_shm0 4 (2 ^ 41) (set_bind_ctx None demo_tpB))
    as (tpA & sA & P' & info & tpB' & sB & E1 & E2 & E3 & H).
  - exact demo_setup.
  - unfold mapped_at; lia.
  - unfold mapped_at; lia.
  - lia.
  - lia.
  - reflexivity.
  - reflexivity.
  - reflexivity.
  - by vm_compute.
  - exact demo_headers.
  - reflexivity.
  - exists tpA, sA, P', info, tpB', sB. split; [exact E1|]. split; [exact E2|]. split; [exact E3|].
    destruct (H (demo_info 0, demo_ring) demo_other true 0%nat [] (fresh sA) (ipc_nil _ _ _ _ _ _ _ _ _)) as [_ (q & Hq & _)].
    exists q. exact Hq.
Defined.

(** ** Calls that leave the contract *)

(** the same region with headers inside the blocks *)
Definition comb_shm0 : heap := list_to_map ((fun i => (8192 * i, raw_header)) <$> seqZ 0 6).
Definition comb_cfg (addr : Z) (type : shm_qbuf_pool_type) := ipc_pool_cfg (demo_info addr) 64 UMQ_BUF_COMBINE type 77 0.
Definition comb_init (addr : Z) (type : shm_qbuf_pool_type) : option (heap * option shm_pool) :=
  umq_shm_global_pool_init true 13 (comb_cfg addr type) (view (scfg_buf_addr (comb_cfg addr type)) comb_shm0).
Definition comb_pool (addr : Z) (type : shm_qbuf_pool_type) : shm_pool :=
  match comb_init addr type with Some (_, Some g) => g | _ => shm_geometry (comb_cfg addr type) 0 0 0 0 0 zero_block_pool end.
Definition comb_gA : shm_pool := comb_pool (2 ^ 40) SHM_QBUF_POOL_TYPE_LOCAL.
Definition comb_gB : shm_pool := comb_pool (2 ^ 41) SHM_QBUF_POOL_TYPE_REMOTE.
Definition comb_owner : shm_state :=
  {| ss_mem := match comb_init (2 ^ 40) SHM_QBUF_POOL_TYPE_LOCAL with Some (h, _) => h | None => ∅ end;
     ss_pool := comb_gA; ss_cache := ∅; ss_ring := demo_ring_bytes |}.

(** the owner allocates a buffer and sends it, the peer receives and releases
    it, the owner takes it back: the address and the header the owner sent,
    those the peer got, and the pool at the end *)
Definition comb_exchange : option (umq_buf * umq_buf * block_pool) :=
  '(s, p) ← umq_ipc_buf_alloc_impl true 13 0 100 1 demo_tpA None comb_owner;
  sent ← ss_mem s !! p;
  '(_, _, s) ← umq_ipc_enqueue_impl demo_tpA p s;
  let y := of_owner comb_gA s in
  '(q, r) ← umq_ipc_dequeue_impl demo_tpB (peer_view comb_gB y);
  got ← ss_mem r !! q;
  '(_, r) ← umq_tp_ipc_buf_free_impl true 0 q demo_tpB demo_other r;
  s ← umq_shm_poll_and_fill_global demo_ring (owner_view comb_gA (of_peer comb_gB y r));
  Some (sent, got, ss_global s).

(** the header of a queue while an acknowledgement of one event is under way:
    the last load before the notification, the clearing after it *)
Definition ack_during_notify (nevents : Z) (e : event_hdr) : event_hdr :=
  let e := ack_sub nevents e in
  let seen := pending_events e in
  ack_clear seen (foldl (fun e f => f e) e umq_ipc_notify_impl).


(** a process whose queue with identifier 0 has buffers in the cache of thread 0 *)
Definition busy_process : ipc_process :=
  set_queues (match demo_alloc with Some (s, _) => {[ 0 := s ]} | None => ∅ end) (demo_process 2).
Definition cached_by (t : nat) (P : ipc_process) : option Z :=
  s ← g_queues P !! 0; lp ← ss_cache s !! t; Some (pool_cnt true lp).

(** Where the transport leaves its contract. With headers inside the
    blocks and a headroom, a message arrives without its data, and the
    released buffer comes back to the list of headers without data, where no
    allocation of data finds it. With 340 slots the header of the return ring
    lies past the area of the rings, inside the first data block of the pool;
    with 262144 slots the size of the region is a negative int. A notification
    during an acknowledgement is lost: the event is counted and the flag is
    clear. When the identifiers are used up, creating a queue succeeds with an
    identifier past the table of thread caches. Unbinding any queue takes away
    the caches that threads have for the queue with identifier 0. Binding
    ignores the block size the owner announces. *)
Theorem ipc_calls_fault :
  (exists sent got pool, comb_exchange = Some (sent, got, pool) /\
    buf_data sent = sp_data_buffer comb_gA + 5 * 8192 + SIZEOF_UMQ_BUF + 64 /\ data_size sent = 100 /\
    buf_data got = 0 /\ data_size got = 100 /\ buf_cnt_without_data pool = 1) /\
  (let info := ring_sizes 13 340 [97] true in
   let ring := ring_layout [] 0 0 true (ipc_ring_option info true []) in
   ri_transmit_queue_buf_size info <= shm_rx_ring_hdr ring < ri_transmit_queue_buf_size info + 8192 /\
   scfg_buf_addr (ipc_pool_cfg info 64 UMQ_BUF_SPLIT SHM_QBUF_POOL_TYPE_LOCAL 77 0) = ri_transmit_queue_buf_size info) /\
  ri_shm_size (ring_sizes 13 262144 [97] true) < 0 /\
  ack_during_notify 1 {| cq_event_flag := 1; pending_events := 1 |} = {| cq_event_flag := 0; pending_events := 1 |} /\
  (r ← umq_ipc_create_impl (demo_world 13) (maps_at 3 (2 ^ 40)) all_ok true 77 (demo_opt 4) (demo_process UMQ_MAX_QUEUE_NUMBER)
     (replicate (Z.to_nat 8192) 0) (view (2 ^ 40 + 8192) demo_shm0); tp ← r.1.1; Some (ipc_umq_id tp.1)) = Some UMQ_MAX_QUEUE_NUMBER /\
  (cached_by 0 busy_process = Some 3 /\
   ('(_, _, P, _) ← umq_ipc_unbind_impl [0%nat] demo_tpB demo_gB busy_process; Some (cached_by 0 P)) = Some None) /\
  (let info := (umq_ipc_bind_info_get_impl (demo_world 13) (set_bind_ctx None demo_tpA) SIZEOF_BIND_INFO).2 in
   info ← info; '(ret, _, s, _) ← umq_ipc_bind_impl (demo_world 14) (maps_at 3 (2 ^ 40)) all_ok (set_bind_ctx None demo_tpB) info
     SIZEOF_BIND_INFO demo_ring_bytes ∅; s ← s; Some (bi_shm_qbuf_pool_data_size info, ret, sp_block_size (ss_pool s))) =
   Some (8192, UMQ_SUCCESS, 16384).
Proof. split; [eexists _, _, _; split; [by vm_compute|done]|split_and!; by vm_compute]. Qed.
