(* ===== verification/Slab.v ===== *)
(** * Slabs of objects (urpc_slab.h, urpc_slab.c)

    A buffer is cut into objects of one size; the free objects are linked
    through their own first four bytes by index. The buffer is the list of its
    bytes ([Memory]), the users of the objects write into them freely, and an
    access outside the buffer is [None]. The spin lock makes each operation
    one step.

    The theorem: under any sequence of allocations, releases and writes of the
    users to the objects they hold, the objects held are distinct, an
    allocation fails only when all of them are held, and the first object in
    use is found. *)

From S2P Require Import Prelude Memory.

Implicit Types (m : list Z) (l : list Z) (id buf : Z).

Definition URPC_ERR_ENOMEM : Z := 690.
Definition URPC_ERR_EPERM : Z := 688.

Record eslab := { slab_addr : Z; obj_size : Z; total : Z; next_free : Z }.

Definition set_next_free (n : Z) (s : eslab) : eslab :=
  {| slab_addr := slab_addr s; obj_size := obj_size s; total := total s; next_free := n |}.

(** [next_free * obj_size] is a product of two 32-bit integers *)
Definition obj_off (s : eslab) id : Z := u32 (id * obj_size s).

(** [for (i = 0; i < total - 1; i++)] *)
Fixpoint init_loop (k : nat) (i next size : Z) m : option (list Z * Z) :=
  match k with
  | O => Some (m, next)
  | S k => m ← store32 m next (i + 1); init_loop k (i + 1) (next + size) size m
  end.

(** [next] counts from the start of the buffer *)
Definition eslab_init (addr size num : Z) m : option (eslab * list Z) :=
  '(m, next) ← init_loop (Z.to_nat (u32 (num - 1))) 0 0 size m;
  m ← store32 m next UINT32_MAX;
  Some ({| slab_addr := addr; obj_size := size; total := num; next_free := 0 |}, m).

(** the index and the address of the object, or the errno of a NULL *)
Definition eslab_alloc_lockless (s : eslab) m : option ((Z + Z * Z) * eslab) :=
  if next_free s =? UINT32_MAX then Some (inl URPC_ERR_ENOMEM, s)
  else
    let id := next_free s in
    next ← load32 m (obj_off s id);
    Some (inr (id, u64 (slab_addr s + obj_off s id)), set_next_free next s).

Definition eslab_alloc (s : eslab) m : option ((Z + Z * Z) * eslab) :=
  if next_free s =? UINT32_MAX then Some (inl URPC_ERR_ENOMEM, s)
  else if total s <=? next_free s then Some (inl URPC_ERR_EPERM, s)
  else
    let id := next_free s in
    next ← load32 m (obj_off s id);
    let buf := u64 (slab_addr s + obj_off s id) in
    let s := set_next_free next s in
    if (total s <=? next) && negb (next =? UINT32_MAX) then Some (inl URPC_ERR_EPERM, s)
    else Some (inr (id, buf), s).

(** the locked and the lock-free variant have the same text *)
Definition eslab_free (s : eslab) id buf m : option (eslab * list Z) :=
  m ← store32 m (buf - slab_addr s) (next_free s);
  Some (set_next_free id s, m).

Definition eslab_addr_to_id (s : eslab) addr : Z := u32 (u64 (addr - slab_addr s) / obj_size s).
Definition eslab_id_to_addr (s : eslab) id : Z := u64 (slab_addr s + id * obj_size s).

Definition eslab_get_buf (s : eslab) m : option (option Z * eslab) :=
  '(r, s) ← eslab_alloc s m; Some (match r with inl _ => None | inr (_, buf) => Some buf end, s).

Definition eslab_put_buf (s : eslab) buf m : option (eslab * list Z) :=
  eslab_free s (eslab_addr_to_id s buf) buf m.

Definition eslab_validate_addr (s : eslab) addr : bool :=
  (slab_addr s <=? addr) && (addr <=? slab_addr s + obj_size s * total s).

(** marks the free objects; [None] inside is a cycle *)
Fixpoint idle_loop (fuel : nat) (s : eslab) m (next : Z) (idle : list bool) : option (option (list bool)) :=
  match fuel with
  | O => None
  | S fuel =>
    if (next =? UINT32_MAX) || (total s <=? next) then Some (Some idle)
    else
      b ← zget idle next;
      if (b : bool) then Some None
      else
        idle ← zset idle next true;
        next ← load32 m (obj_off s next);
        idle_loop fuel s m next idle
  end.

Fixpoint first_busy (i : Z) (idle : list bool) : option Z :=
  match idle with
  | [] => None
  | b :: idle => if (b : bool) then first_busy (i + 1) idle else Some i
  end.

(** every turn of the loop marks another object, so [total + 1] turns are enough *)
Definition eslab_get_first_used_object_lockless (s : eslab) m : option (option Z) :=
  r ← idle_loop (S (Z.to_nat (total s))) s m (next_free s) (replicate (Z.to_nat (total s)) false);
  Some (idle ← r; i ← first_busy 0 idle; Some (u64 (slab_addr s + obj_off s i))).

(** ** The free list *)

(** a slab whose indices and addresses do not wrap *)
Record slab_ok (s : eslab) m : Prop := {
  so_size : 4 <= obj_size s;
  so_total : 0 < total s;
  so_area : total s * obj_size s < 2 ^ 32;
  so_bytes : total s * obj_size s <= zlen m;
  so_addr : 0 <= slab_addr s;
  so_end : slab_addr s + total s * obj_size s < 2 ^ 64
}.

Fixpoint free_list (s : eslab) m (p : Z) l : Prop :=
  match l with
  | [] => p = UINT32_MAX
  | id :: l => p = id /\ 0 <= id < total s /\ exists next, load32 m (id * obj_size s) = Some next /\ free_list s m next l
  end.

(** every object is free or held *)
Definition slab_inv (s : eslab) m (held : gset Z) : Prop :=
  slab_ok s m /\ exists l, free_list s m (next_free s) l /\ NoDup l /\
    forall id, 0 <= id < total s <-> (id ∈ l \/ id ∈ held) /\ ~ (id ∈ l /\ id ∈ held).

Lemma total_bound s m : slab_ok s m -> total s < UINT32_MAX.
Proof. intros [? ? ? ? ? ?]. unfold UINT32_MAX. nia. Qed.

Lemma obj_off_eq s m id : slab_ok s m -> 0 <= id < total s -> obj_off s id = id * obj_size s /\ 0 <= id * obj_size s /\ (id + 1) * obj_size s <= total s * obj_size s.
Proof. intros [? ? ? ? ? ?] Hid. split; [apply u32_small; nia|nia]. Qed.

Lemma free_list_frame s s' m m' l : forall p,
  total s' = total s -> obj_size s' = obj_size s ->
  (forall id, id ∈ l -> load32 m' (id * obj_size s) = load32 m (id * obj_size s)) -> free_list s m p l -> free_list s' m' p l.
Proof.
  induction l as [|id l IH]; intros p Et Eo Hf H; [done|]. destruct H as (-> & Hid & next & Hl & H).
  rewrite <- Et in Hid. split; [done|]. split; [done|]. exists next. rewrite Eo, Hf by (by left). split; [done|].
  apply IH; [done..| |done]. intros id' Hid'. apply Hf. by right.
Qed.

Lemma free_list_elem s m l : forall p id, free_list s m p l -> id ∈ l -> 0 <= id < total s.
Proof.
  induction l as [|x l IH]; intros p id H Hid; [by apply elem_of_nil in Hid|]. destruct H as (-> & Hx & next & _ & H).
  apply elem_of_cons in Hid as [->|Hid]; [done|]. by eapply IH.
Qed.

Lemma init_loop_spec size : 4 <= size -> forall (k : nat) i m,
  0 <= i -> i + Z.of_nat k + 1 < 2 ^ 32 -> (i + Z.of_nat k) * size <= zlen m ->
  exists m', init_loop k i (i * size) size m = Some (m', (i + Z.of_nat k) * size) /\ zlen m' = zlen m /\
    (forall off, off + 4 <= i * size -> load32 m' off = load32 m off) /\
    (forall j, i <= j < i + Z.of_nat k -> load32 m' (j * size) = Some (j + 1)).
Proof.
  intros Hs. induction k as [|k IH]; intros i m Hi Hk Hm.
  { exists m. rewrite Z.add_0_r. split_and!; [done..|]. intros j Hj. lia. }
  rewrite Nat2Z.inj_succ in *. cbn [init_loop]. destruct (store32_in m (i * size) (i + 1)) as [m1 E1]; [nia|nia|]. rewrite E1. cbn [mbind option_bind].
  pose proof (store32_len _ _ _ _ E1) as L1. replace (i * size + size) with ((i + 1) * size) by lia.
  destruct (IH (i + 1) m1) as (m' & E & L & Hb & Ha); [lia|lia|rewrite L1; nia|].
  exists m'. replace (i + Z.succ (Z.of_nat k)) with (i + 1 + Z.of_nat k) by lia. split; [done|]. split; [lia|]. split.
  - intros off Ho. rewrite Hb by nia. eapply load_store_disjoint; [done|]. left. done.
  - intros j Hj. destruct (decide (j = i)) as [->|]; [|apply Ha; lia]. rewrite Hb by nia. eapply load_store32; [lia|done].
Qed.

Lemma free_list_seq s m (k : nat) : forall i, 0 <= i -> i + Z.of_nat k = total s - 1 ->
  (forall j, i <= j < total s - 1 -> load32 m (j * obj_size s) = Some (j + 1)) ->
  load32 m ((total s - 1) * obj_size s) = Some UINT32_MAX -> free_list s m i (seqZ i (Z.of_nat k + 1)).
Proof.
  induction k as [|k IH]; intros i Hi Hk Hj Hl.
  - replace i with (total s - 1) in * by lia. simpl. split; [done|]. split; [lia|]. by exists UINT32_MAX.
  - replace (Z.of_nat (S k) + 1) with (Z.succ (Z.of_nat k + 1)) by lia. rewrite seqZ_cons by lia.
    replace (Z.pred (Z.succ (Z.of_nat k + 1))) with (Z.of_nat k + 1) by lia. split; [done|]. split; [lia|].
    exists (i + 1). split; [apply Hj; lia|]. replace (Z.succ i) with (i + 1) by lia. apply IH; [lia|lia| |done]. intros j Hj'. apply Hj. lia.
Qed.

(** ** The operations *)

(** what never changes *)
Definition same_slab (s s' : eslab) : Prop := slab_addr s' = slab_addr s /\ obj_size s' = obj_size s /\ total s' = total s.

Lemma same_slab_ok s s' m m' : same_slab s s' -> zlen m' = zlen m -> slab_ok s m -> slab_ok s' m'.
Proof. intros (E1 & E2 & E3) El [? ? ? ? ? ?]. constructor; rewrite ?E1, ?E2, ?E3, ?El; done. Qed.

Lemma eslab_init_inv addr size num m :
  4 <= size -> 0 < num -> num * size < 2 ^ 32 -> num * size <= zlen m -> 0 <= addr -> addr + num * size < 2 ^ 64 ->
  exists m', eslab_init addr size num m = Some ({| slab_addr := addr; obj_size := size; total := num; next_free := 0 |}, m') /\
    slab_inv {| slab_addr := addr; obj_size := size; total := num; next_free := 0 |} m' ∅.
Proof.
  intros Hs Hn Hw Hm Ha He. unfold eslab_init. rewrite u32_small by nia.
  destruct (init_loop_spec size Hs (Z.to_nat (num - 1)) 0 m) as (m1 & E1 & L1 & _ & H1); rewrite ?Z2Nat.id in * by lia; [lia|nia|nia|].
  replace (0 * size) with 0 in E1 by lia. rewrite E1. cbn [mbind option_bind].
  destruct (store32_in m1 ((0 + (num - 1)) * size) UINT32_MAX) as [m2 E2]; [nia|nia|]. rewrite E2. cbn [mbind option_bind].
  exists m2. split; [done|]. pose proof (store32_len _ _ _ _ E2) as L2.
  set (s := {| slab_addr := addr |}). split; [constructor; simpl; lia|]. exists (seqZ 0 num). split_and!.
  - replace num with (Z.of_nat (Z.to_nat (num - 1)) + 1) at 1 by lia. apply (free_list_seq s); [done|simpl; lia| |].
    + intros j Hj. simpl in *. erewrite load_store_disjoint; [apply H1; lia|done|]. left. nia.
    + simpl. replace (0 + (num - 1)) with (num - 1) in E2 by lia. eapply load_store32; [|done]. unfold UINT32_MAX. lia.
  - apply NoDup_seqZ.
  - intros id. simpl. rewrite elem_of_seqZ. set_solver by lia.
Qed.

Lemma eslab_alloc_spec s m held : slab_inv s m held ->
  exists r s', eslab_alloc s m = Some (r, s') /\ eslab_alloc_lockless s m = Some (r, s') /\ same_slab s s' /\
    match r with
    | inl e => e = URPC_ERR_ENOMEM /\ s' = s /\ forall id, 0 <= id < total s -> id ∈ held
    | inr (id, buf) => (id ∉ held) /\ 0 <= id < total s /\ buf = eslab_id_to_addr s id /\ slab_inv s' m ({[id]} ∪ held)
    end.
Proof.
  intros [Hok (l & Hl & Hnd & Hp)]. pose proof (total_bound s m Hok) as Ht. unfold eslab_alloc, eslab_alloc_lockless.
  destruct l as [|id l].
  { simpl in Hl. rewrite Hl, Z.eqb_refl. exists (inl URPC_ERR_ENOMEM), s. do 5 (split; [done|]). intros id Hid. apply Hp in Hid. set_solver. }
  destruct Hl as (-> & Hid & next & Hload & Hl). destruct (obj_off_eq s m _ Hok Hid) as (Eo & H0 & H1).
  rewrite (proj2 (Z.eqb_neq _ _)), (proj2 (Z.leb_gt _ _)), Eo, Hload by lia. cbn [mbind option_bind set_next_free total].
  assert (Hchk : (total s <=? next) && negb (next =? UINT32_MAX) = false).
  { destruct l as [|x l]; [simpl in Hl; subst; by rewrite Z.eqb_refl, andb_false_r|]. destruct Hl as (-> & Hx & _).
    by rewrite (proj2 (Z.leb_gt _ _)) by lia. }
  rewrite Hchk. eexists (inr _), _. split; [done|]. split; [done|]. split; [done|]. apply NoDup_cons in Hnd as [Hni Hnd].
  split; [|split; [done|split; [done|]]].
  - intros Hh. destruct (proj1 (Hp id) Hid) as [_ Hn]. apply Hn. split; [by left|done].
  - split; [by apply (same_slab_ok s _ m m)|]. exists l. split_and!; [|done|].
    + by eapply (free_list_frame s).
    + intros x. simpl. rewrite Hp. destruct (decide (x = id)) as [->|]; set_solver.
Qed.

Lemma eslab_addr_to_id_inv s m id : slab_ok s m -> 0 <= id < total s -> eslab_addr_to_id s (eslab_id_to_addr s id) = id.
Proof.
  intros Hok Hid. pose proof Hok as [? ? ? ? ? ?]. destruct (obj_off_eq s m _ Hok Hid) as (_ & H0 & H1).
  unfold eslab_addr_to_id, eslab_id_to_addr. rewrite (u64_small (slab_addr s + _)), u64_small by nia.
  replace (slab_addr s + id * obj_size s - slab_addr s) with (id * obj_size s) by lia. rewrite Z.div_mul by lia. apply u32_small. nia.
Qed.

Lemma eslab_free_spec s m held id : slab_inv s m held -> id ∈ held -> 0 <= next_free s < 2 ^ 32 ->
  exists s' m', eslab_free s id (eslab_id_to_addr s id) m = Some (s', m') /\
    eslab_put_buf s (eslab_id_to_addr s id) m = Some (s', m') /\ same_slab s s' /\ next_free s' = id /\ slab_inv s' m' (held ∖ {[id]}).
Proof.
  intros [Hok (l & Hl & Hnd & Hp)] Hh Hnf. assert (Hid : 0 <= id < total s).
  { destruct (decide (0 <= id < total s)) as [|Hn]; [done|]. exfalso. apply Hn, Hp. split; [by right|]. intros [Hx _].
    apply Hn. by eapply free_list_elem. }
  destruct (obj_off_eq s m _ Hok Hid) as (_ & H0 & H1). pose proof Hok as [? ? ? Hb ? ?].
  unfold eslab_put_buf. rewrite (eslab_addr_to_id_inv s m) by done. unfold eslab_free, eslab_id_to_addr. rewrite u64_small by nia.
  replace (slab_addr s + id * obj_size s - slab_addr s) with (id * obj_size s) by lia.
  destruct (store32_in m (id * obj_size s) (next_free s)) as [m' E]; [lia|nia|]. rewrite E. cbn [mbind option_bind].
  eexists _, m'. split; [done|]. split; [done|]. split; [done|]. split; [done|].
  assert (Hni : id ∉ l) by (intros Hx; destruct (proj1 (Hp id) Hid) as [_ Hn]; tauto).
  split; [apply (same_slab_ok s _ m); [done|by eapply store32_len|done]|]. exists (id :: l). split_and!.
  - split; [done|]. split; [done|]. exists (next_free s). split; [by eapply load_store32|].
    eapply (free_list_frame s); [done..| |done]. intros x Hx. eapply load_store_disjoint; [done|].
    pose proof (free_list_elem _ _ _ _ _ Hl Hx) as Hx'. assert (x <> id) by congruence. simpl. nia.
  - by apply NoDup_cons.
  - intros x. simpl. rewrite Hp. destruct (decide (x = id)) as [->|]; set_solver.
Qed.

(** the user of an object writes into it *)
Lemma slab_write s m held id off bs : slab_inv s m held -> id ∈ held -> 0 <= id < total s -> 0 <= off -> off + zlen bs <= obj_size s ->
  exists m', write_bytes m (id * obj_size s + off) bs = Some m' /\ slab_inv s m' held.
Proof.
  intros [Hok (l & Hl & Hnd & Hp)] Hh Hid H0 Ho. destruct (obj_off_eq s m _ Hok Hid) as (_ & H1 & H2). pose proof Hok as [? ? ? ? ? ?].
  destruct (write_bytes_in m (id * obj_size s + off) bs) as [m' E]; [lia|nia|]. exists m'. split; [done|].
  split; [apply (same_slab_ok s _ m); [done|by eapply write_bytes_len|done]|]. exists l. split_and!; [|done|done].
  eapply (free_list_frame s); [done..| |done]. intros x Hx. eapply load_write_disjoint; [done|].
  pose proof (free_list_elem _ _ _ _ _ Hl Hx) as Hx'. assert (x <> id) by (intros ->; destruct (proj1 (Hp id) Hid) as [_ Hn]; tauto). nia.
Qed.

(** ** The first object in use *)

Lemma idle_loop_spec s m : slab_ok s m -> forall l p idle fuel,
  free_list s m p l -> NoDup l -> zlen idle = total s -> (forall x, x ∈ l -> zget idle x = Some false) -> (length l < fuel)%nat ->
  exists idle', idle_loop fuel s m p idle = Some (Some idle') /\ zlen idle' = total s /\
    forall i, 0 <= i < total s -> zget idle' i = if decide (i ∈ l) then Some true else zget idle i.
Proof.
  intros Hok. pose proof (total_bound s m Hok) as Ht. induction l as [|id l IH]; intros p idle fuel Hl Hnd Hlen Hidle Hf.
  - simpl in Hl. subst p. destruct fuel as [|fuel]; [lia|]. cbn [idle_loop]. rewrite Z.eqb_refl. cbn [orb]. exists idle. split_and!; [done..|].
    intros i Hi. by rewrite decide_False by apply not_elem_of_nil.
  - destruct fuel as [|fuel]; [simpl in Hf; lia|]. destruct Hl as (-> & Hid & next & Hload & Hl). cbn [idle_loop].
    destruct (obj_off_eq s m _ Hok Hid) as (Eo & _ & _).
    rewrite (proj2 (Z.eqb_neq _ _)), (proj2 (Z.leb_gt _ _)) by lia. cbn [orb]. rewrite Hidle by (by left). cbn [mbind option_bind].
    destruct (zset_in_range idle id true) as [idle1 E1]; [lia|]. rewrite E1. cbn [mbind option_bind]. rewrite Eo, Hload. cbn [mbind option_bind].
    apply NoDup_cons in Hnd as [Hni Hnd]. destruct (IH next idle1 fuel) as (idle' & E & L & H); [done..| | |simpl in Hf; lia|].
    { rewrite (zset_len _ _ _ _ E1). done. }
    { intros x Hx. rewrite (zget_zset_ne _ _ _ _ _ E1) by congruence. apply Hidle. by right. }
    exists idle'. split_and!; [done..|]. intros i Hi. rewrite H by done. destruct (decide (i = id)) as [->|Hne].
    + rewrite decide_False, decide_True by (done || by left). by eapply zget_zset_eq.
    + rewrite (zget_zset_ne _ _ _ _ _ E1) by done. destruct (decide (i ∈ l)); [by rewrite decide_True by (by right)|].
      by rewrite decide_False by set_solver.
Qed.

Lemma first_busy_spec idle : forall i,
  match first_busy i idle with
  | Some j => i <= j /\ zget idle (j - i) = Some false /\ forall k, 0 <= k < j - i -> zget idle k = Some true
  | None => forall k, zget idle k <> Some false
  end.
Proof.
  induction idle as [|b idle IH]; intros i; cbn [first_busy]; [intros k; by rewrite zget_nil|]. destruct b.
  - specialize (IH (i + 1)). destruct (first_busy (i + 1) idle) as [j|].
    + destruct IH as (H1 & H2 & H3). split_and!; [lia| |].
      * change (true :: idle) with ([true] ++ idle). rewrite zget_app_r by (change (zlen [true]) with 1; lia).
        change (zlen [true]) with 1. by replace (j - i - 1) with (j - (i + 1)) by lia.
      * intros k Hk. destruct (decide (k = 0)) as [->|]; [done|]. change (true :: idle) with ([true] ++ idle).
        rewrite zget_app_r by (change (zlen [true]) with 1; lia). apply H3. change (zlen [true]) with 1. lia.
    + intros k Hk. destruct (decide (k = 0)) as [->|]; [done|]. destruct (decide (k < 0)).
      * unfold zget in Hk. by rewrite (proj2 (Z.leb_gt _ _)) in Hk by lia.
      * change (true :: idle) with ([true] ++ idle) in Hk. rewrite zget_app_r in Hk by (change (zlen [true]) with 1; lia). by apply IH in Hk.
  - split_and!; [lia|by rewrite Z.sub_diag|lia].
Qed.

Lemma nodup_range l n : NoDup l -> (forall x, x ∈ l -> 0 <= x < n) -> (length l <= Z.to_nat n)%nat.
Proof.
  intros Hnd Hl. rewrite <- (length_seqZ 0 n). apply submseteq_length, NoDup_submseteq; [done|].
  intros x Hx. apply elem_of_seqZ. specialize (Hl x Hx). lia.
Qed.

(** the least object held *)
Lemma first_used_spec s m held : slab_inv s m held -> (forall id, id ∈ held -> 0 <= id < total s) ->
  exists r, eslab_get_first_used_object_lockless s m = Some r /\
    match r with
    | None => held = ∅
    | Some buf => exists id, id ∈ held /\ buf = eslab_id_to_addr s id /\ forall id', id' ∈ held -> id <= id'
    end.
Proof.
  intros [Hok (l & Hl & Hnd & Hp)] Hh. unfold eslab_get_first_used_object_lockless.
  pose proof (nodup_range l (total s) Hnd (fun x Hx => free_list_elem _ _ _ _ _ Hl Hx)) as Hlen. pose proof (so_total _ _ Hok) as H0.
  destruct (idle_loop_spec s m Hok l (next_free s) (replicate (Z.to_nat (total s)) false) (S (Z.to_nat (total s))) Hl Hnd)
    as (idle & E & L & Hi); [rewrite zlen_replicate; lia| |lia|].
  { intros x Hx. pose proof (free_list_elem _ _ _ _ _ Hl Hx). unfold zget. rewrite (proj2 (Z.leb_le 0 _)) by lia.
    apply lookup_replicate_2. lia. }
  rewrite E. cbn [mbind option_bind]. eexists. split; [done|]. pose proof (first_busy_spec idle 0) as Hb.
  assert (Hbusy : forall i, 0 <= i < total s -> zget idle i = Some (bool_decide (i ∈ l))).
  { intros i Hii. rewrite Hi by done. case_decide as Hx; [by rewrite bool_decide_eq_true_2|]. rewrite bool_decide_eq_false_2 by done.
    unfold zget. rewrite (proj2 (Z.leb_le 0 _)) by lia. apply lookup_replicate_2. lia. }
  destruct (first_busy 0 idle) as [j|]; cbn [mbind option_bind].
  - destruct Hb as (H1 & H2 & H3). rewrite Z.sub_0_r in *. assert (Hj : 0 <= j < total s) by (rewrite <- L; by eapply zget_Some_range).
    rewrite Hbusy in H2 by done. injection H2 as H2. apply bool_decide_eq_false in H2. exists j. split_and!.
    + destruct (proj1 (Hp j) Hj) as [[?|?] _]; done.
    + unfold eslab_id_to_addr. by rewrite (proj1 (obj_off_eq s m j Hok Hj)).
    + intros id' Hid'. destruct (Z.le_gt_cases j id'); [done|]. specialize (Hh id' Hid'). specialize (H3 id' ltac:(lia)).
      rewrite Hbusy in H3 by done. injection H3 as H3. apply bool_decide_eq_true in H3. destruct (proj1 (Hp id') Hh) as [_ Hn]. tauto.
  - apply set_eq. intros id. split; [|set_solver]. intros Hid. exfalso. specialize (Hh id Hid). apply (Hb id). rewrite Hbusy by done.
    f_equal. apply bool_decide_eq_false. intros Hx. destruct (proj1 (Hp id) Hh) as [_ Hn]. tauto.
Qed.

(** ** Users of a slab *)

Record slab_state := { u_slab : eslab; u_bytes : list Z; u_held : gset Z }.

Inductive slab_event :=
  | SAlloc | SAllocLockless | SFree (id : Z) | SPut (buf : Z) | SWrite (id off : Z) (bs : list Z).

Definition taken_by (u : slab_state) (r : Z + Z * Z) (s : eslab) : slab_state :=
  {| u_slab := s; u_bytes := u_bytes u; u_held := match r with inl _ => u_held u | inr (id, _) => {[id]} ∪ u_held u end |}.

Definition slab_exec (ev : slab_event) (u : slab_state) : option slab_state :=
  let s := u_slab u in
  match ev with
  | SAlloc => '(r, s') ← eslab_alloc s (u_bytes u); Some (taken_by u r s')
  | SAllocLockless => '(r, s') ← eslab_alloc_lockless s (u_bytes u); Some (taken_by u r s')
  | SFree id =>
    '(s', m) ← eslab_free s id (eslab_id_to_addr s id) (u_bytes u);
    Some {| u_slab := s'; u_bytes := m; u_held := u_held u ∖ {[id]} |}
  | SPut buf =>
    '(s', m) ← eslab_put_buf s buf (u_bytes u);
    Some {| u_slab := s'; u_bytes := m; u_held := u_held u ∖ {[eslab_addr_to_id s buf]} |}
  | SWrite id off bs =>
    m ← write_bytes (u_bytes u) (id * obj_size s + off) bs;
    Some {| u_slab := s; u_bytes := m; u_held := u_held u |}
  end.

(** objects are released by who holds them, once, and written inside *)
Definition slab_enabled (ev : slab_event) (u : slab_state) : Prop :=
  match ev with
  | SAlloc | SAllocLockless => True
  | SFree id => id ∈ u_held u
  | SPut buf => exists id, id ∈ u_held u /\ buf = eslab_id_to_addr (u_slab u) id
  | SWrite id off bs => id ∈ u_held u /\ 0 <= off /\ off + zlen bs <= obj_size (u_slab u)
  end.

Inductive slab_run : slab_state -> list slab_event -> slab_state -> Prop :=
  | slab_nil u : slab_run u [] u
  | slab_cons u ev u1 evs u2 :
      slab_enabled ev u -> slab_exec ev u = Some u1 -> slab_run u1 evs u2 -> slab_run u (ev :: evs) u2.

Definition slab_safe (u : slab_state) : Prop :=
  slab_inv (u_slab u) (u_bytes u) (u_held u) /\ 0 <= next_free (u_slab u) < 2 ^ 32.

Lemma held_range s m held id : slab_inv s m held -> id ∈ held -> 0 <= id < total s.
Proof.
  intros [_ (l & Hl & _ & Hp)] Hid. destruct (decide (id ∈ l)) as [Hx|Hx]; [by eapply free_list_elem|]. apply Hp. tauto.
Qed.

Lemma next_free_range s m held : slab_inv s m held -> 0 <= next_free s < 2 ^ 32.
Proof.
  intros [Hok (l & Hl & _)]. pose proof (total_bound s m Hok). unfold UINT32_MAX in *.
  destruct l as [|id l]; [simpl in Hl; rewrite Hl; unfold UINT32_MAX; lia|]. destruct Hl as (-> & ? & _). lia.
Qed.

Lemma slab_step ev u : slab_safe u -> slab_enabled ev u ->
  exists u', slab_exec ev u = Some u' /\ slab_safe u' /\ same_slab (u_slab u) (u_slab u').
Proof.
  intros [HI Hn] He. destruct u as [s m held]. simpl in *.
  assert (Hdone : forall s' m' held', slab_inv s' m' held' -> slab_safe {| u_slab := s'; u_bytes := m'; u_held := held' |})
    by (intros s' m' held' H; split; [done|by eapply next_free_range]).
  destruct ev as [| |id|buf|id off bs]; simpl in He |- *.
  1, 2: destruct (eslab_alloc_spec s m held HI) as (r & s' & E1 & E2 & Hs & Hr); rewrite ?E1, ?E2; cbn [mbind option_bind];
    (eexists; split; [done|]; split; [apply Hdone|done]; destruct r as [e|[id buf]]; [by destruct Hr as (_ & -> & _)|apply Hr]).
  - destruct (eslab_free_spec s m held id HI He Hn) as (s' & m' & E1 & _ & Hs & _ & HI'). rewrite E1. cbn [mbind option_bind]. eauto.
  - destruct He as (id & Hid & ->). destruct (eslab_free_spec s m held id HI Hid Hn) as (s' & m' & _ & E2 & Hs & _ & HI').
    rewrite E2. cbn [mbind option_bind]. rewrite (eslab_addr_to_id_inv s m id) by (apply HI || by eapply held_range). eauto.
  - destruct He as (Hid & H0 & H1). destruct (slab_write s m held id off bs HI Hid) as (m' & E & HI'); [by eapply held_range|done..|].
    rewrite E. cbn [mbind option_bind]. eexists. split; [done|]. split; [by apply Hdone|done].
Qed.

(** C28: after a slab is set up on a buffer that holds its objects, no sequence
    of allocations, releases and writes of the users to the objects they hold
    leaves the buffer. In every state an allocation gives an object that
    nobody holds, at its own address, or fails because all are held; and the
    search for an object in use finds the first one held. *)
Theorem slab_objects_distinct addr size num m :
  4 <= size -> 0 < num -> num * size < 2 ^ 32 -> num * size <= zlen m -> 0 <= addr -> addr + num * size < 2 ^ 64 ->
  exists s m', eslab_init addr size num m = Some (s, m') /\
    forall evs u, slab_run {| u_slab := s; u_bytes := m'; u_held := ∅ |} evs u ->
      (forall id, id ∈ u_held u -> 0 <= id < num) /\
      (forall ev, slab_enabled ev u -> exists u', slab_exec ev u = Some u') /\
      (exists r s', eslab_alloc (u_slab u) (u_bytes u) = Some (r, s') /\
         match r with
         | inl e => e = URPC_ERR_ENOMEM /\ forall id, 0 <= id < num -> id ∈ u_held u
         | inr (id, buf) => (id ∉ u_held u) /\ 0 <= id < num /\ buf = addr + id * size
         end) /\
      (exists r, eslab_get_first_used_object_lockless (u_slab u) (u_bytes u) = Some r /\
         match r with
         | None => u_held u = ∅
         | Some buf => exists id, id ∈ u_held u /\ buf = addr + id * size /\ forall id', id' ∈ u_held u -> id <= id'
         end).
Proof.
  intros Hs Hn Hw Hm Ha He. destruct (eslab_init_inv addr size num m Hs Hn Hw Hm Ha He) as (m' & E & HI).
  eexists _, m'. split; [exact E|]. set (s0 := {| slab_addr := addr |}) in *. intros evs u Hr.
  assert (Hu : slab_safe u /\ same_slab s0 (u_slab u)).
  { assert (H0 : slab_safe {| u_slab := s0; u_bytes := m'; u_held := ∅ |}) by (split; [done|by eapply next_free_range]).
    assert (H1 : same_slab s0 (u_slab {| u_slab := s0; u_bytes := m'; u_held := ∅ |})) by done.
    revert H0 H1. induction Hr as [u|u ev u1 evs u2 Hen Ex Hr IH]; intros H0 H1; [done|].
    destruct (slab_step ev u H0 Hen) as (u1' & Ex' & Hu1 & Hs1). assert (u1' = u1) as -> by congruence. apply IH; [done|].
    destruct H1 as (? & ? & ?), Hs1 as (? & ? & ?). unfold same_slab. split_and!; congruence. }
  destruct Hu as [[HIu Hnu] (E1 & E2 & E3)]. simpl in E1, E2, E3.
  assert (Hid : forall id, 0 <= id < num -> eslab_id_to_addr (u_slab u) id = addr + id * size).
  { intros id Hid. unfold eslab_id_to_addr. rewrite E1, E2. apply u64_small. nia. }
  assert (Hh : forall id, id ∈ u_held u -> 0 <= id < num) by (intros id Hx; rewrite <- E3; by eapply held_range).
  split; [done|]. split; [|split].
  - intros ev Hen. destruct (slab_step ev u) as (u' & Ex & _); [done..|]. by exists u'.
  - destruct (eslab_alloc_spec _ _ _ HIu) as (r & s' & Ex & _ & _ & H). exists r, s'. split; [done|]. rewrite E3 in H.
    destruct r as [e|[id buf]]; [by destruct H as (? & _ & ?)|]. destruct H as (? & ? & -> & _). split_and!; [done|lia|lia|]. by apply Hid.
  - destruct (first_used_spec _ _ _ HIu) as (r & Ex & H); [intros id Hx; rewrite E3; by apply Hh|]. exists r. split; [done|].
    destruct r as [buf|]; [|done]. destruct H as (id & Hx & -> & Hmin). exists id. split_and!; [done| |done]. by apply Hid, Hh.
Qed.

Lemma slab_objects_distinct_witness :
  exists s m', eslab_init 4096 16 3 (replicate 48 7) = Some (s, m') /\
    exists r s', eslab_alloc s m' = Some (r, s') /\
      match r with
      | inl e => e = URPC_ERR_ENOMEM /\ forall id, 0 <= id < 3 -> id ∈ (∅ : gset Z)
      | inr (id, buf) => (id ∉ (∅ : gset Z)) /\ 0 <= id < 3 /\ buf = 4096 + id * 16
      end.
Proof.
  destruct (slab_objects_distinct 4096 16 3 (replicate 48 7)) as (s & m' & E & H); [lia|lia|lia|by vm_compute|lia|lia|].
  exists s, m'. split; [exact E|]. exact (proj1 (proj2 (proj2 (H [] _ (slab_nil _))))).
Defined.

(** Uses outside these conditions: the address one past the end is accepted as
    an address of the slab; and objects beyond 4 GiB alias, because the offset
    of an allocated object is a 32-bit product while [eslab_id_to_addr] computes
    it in 64 bits. *)
Theorem slab_limits :
  (let s := {| slab_addr := 4096; obj_size := 16; total := 3; next_free := 0 |} in
   eslab_validate_addr s (4096 + 48) = true /\ eslab_addr_to_id s (4096 + 48) = 3) /\
  (let s := {| slab_addr := 4096; obj_size := 2 ^ 20; total := 2 ^ 13; next_free := 2 ^ 12 |} in
   obj_off s (2 ^ 12) = obj_off s 0 /\ eslab_id_to_addr s (2 ^ 12) = 4096 + 2 ^ 32).
Proof. by vm_compute. Qed.
