(* ===== verification/UrpcPool.v ===== *)
(** * Pools of elements with thread caches (urpc_pool.c)

    A pool hands out elements of one size. Every thread keeps a stack of free
    elements; when it is empty it takes over a full container of the pool or a
    newly allocated block, when it is full it gives a copy of the stack to the
    pool. The pool's lists are under a mutex, so a call is one step, and
    threads interleave between calls. The answers of the allocator are
    arguments; NULL is [None] inside a result, and a fault is [None].

    The theorem: every element of the blocks allocated so far is in exactly
    one place, so that what is handed out is never held by somebody else, and
    an element is lost only by a release for which memory ran out. *)

From S2P Require Import Prelude IdGenerator.

Implicit Types (t : nat) (e : Z).

Definition ENOMEM : Z := 12.
Definition EINVAL : Z := 22.
Definition URPC_POOL_BLOCK_MAX : Z := 65536.
Definition URPC_POOL_ELEMENT_MAX : Z := 65536.
Definition URPC_POOL_ELEMENT_SIZE_MAX : Z := 8388608.
Definition URPC_POOL_LOCAL_MAX : Z := 1024.
Definition SIZEOF_POOL_BLOCK : Z := 24.

Record urpc_pool_config := { element_size : Z; element_num_per_block : Z; block_num : Z }.

(** a container: the first [free_num] pointers are free elements *)
Record urpc_pool_block := { free_num : Z; data_ptr : list Z }.

(** [global_group] has [block_num] entries; those in use are listed *)
Record urpc_pool := {
  global_free : list urpc_pool_block;
  global_free_container : list urpc_pool_block;
  global_group : option (list Z);
  cfg : urpc_pool_config;
  block_size : Z;
  container_size : Z;
  pool_id : Z
}.

(** what a thread keeps for a pool identifier: the pool, by its address, and
    the stack *)
Record urpc_pool_context := { ctx_global_pool : Z; ctx_local : urpc_pool_block }.

(** the pools by address, the contexts by identifier and thread, and the
    generator of identifiers *)
Record pool_world := {
  pools : gmap Z urpc_pool;
  g_urpc_pool_ctx : gmap Z (gmap nat urpc_pool_context);
  g_urpc_pool_id : option urpc_id_generator
}.

Definition set_pools (ps : gmap Z urpc_pool) (w : pool_world) : pool_world :=
  {| pools := ps; g_urpc_pool_ctx := g_urpc_pool_ctx w; g_urpc_pool_id := g_urpc_pool_id w |}.
Definition set_gen (g : option urpc_id_generator) (w : pool_world) : pool_world :=
  {| pools := pools w; g_urpc_pool_ctx := g_urpc_pool_ctx w; g_urpc_pool_id := g |}.
Definition contexts (id : Z) (w : pool_world) : gmap nat urpc_pool_context := default ∅ (g_urpc_pool_ctx w !! id).
Definition set_contexts (id : Z) (cs : gmap nat urpc_pool_context) (w : pool_world) : pool_world :=
  {| pools := pools w; g_urpc_pool_ctx := <[id := cs]> (g_urpc_pool_ctx w); g_urpc_pool_id := g_urpc_pool_id w |}.
Definition set_local (id : Z) t (addr : Z) (b : urpc_pool_block) (w : pool_world) : pool_world :=
  set_contexts id (<[t := {| ctx_global_pool := addr; ctx_local := b |}]> (contexts id w)) w.
Definition put_pool (addr : Z) (p : urpc_pool) (w : pool_world) : pool_world := set_pools (<[addr := p]> (pools w)) w.

Definition set_lists (full empty : list urpc_pool_block) (p : urpc_pool) : urpc_pool :=
  {| global_free := full; global_free_container := empty; global_group := global_group p; cfg := cfg p;
     block_size := block_size p; container_size := container_size p; pool_id := pool_id p |}.
Definition set_group (g : option (list Z)) (p : urpc_pool) : urpc_pool :=
  {| global_free := global_free p; global_free_container := global_free_container p; global_group := g; cfg := cfg p;
     block_size := block_size p; container_size := container_size p; pool_id := pool_id p |}.

(** ** Identifiers, set-up and release *)

(** the flags: whether the allocations of the generator succeed *)
Definition urpc_pool_id_get (gen_ok private_ok bitmap_ok : bool) (w : pool_world) : option (Z * option Z * pool_world) :=
  let alloc g :=
    '(rc, id, g) ← urpc_id_generator_alloc g 0; Some (rc, id, set_gen (Some g) w) in
  match g_urpc_pool_id w with
  | Some g => alloc g
  | None =>
    if negb gen_ok then Some (- ENOMEM, None, w)
    else
      let '(rc, g) := urpc_id_generator_init {| ops := None; private_data := None |} private_ok bitmap_ok
                        URPC_ID_GENERATOR_TYPE_BITMAP URPC_POOL_LOCAL_MAX in
      if negb (rc =? 0) then Some (- ENOMEM, None, w) else alloc g
  end.

Definition urpc_pool_id_put (id : Z) (w : pool_world) : option pool_world :=
  match g_urpc_pool_id w with
  | None => Some w
  | Some g => if URPC_POOL_LOCAL_MAX <=? id then Some w else g ← urpc_id_generator_free g id; Some (set_gen (Some g) w)
  end.

Definition urpc_pool_init (gen_ok private_ok bitmap_ok group_ok : bool) (c : urpc_pool_config) (addr : Z) (w : pool_world) :
    option (Z * pool_world) :=
  if (URPC_POOL_ELEMENT_SIZE_MAX <? element_size c) || (URPC_POOL_ELEMENT_MAX <? element_num_per_block c) ||
     (URPC_POOL_BLOCK_MAX <? block_num c) then Some (- EINVAL, w)
  else
    '(rc, id, w) ← urpc_pool_id_get gen_ok private_ok bitmap_ok w;
    if negb (rc =? 0) then Some (- ENOMEM, w)
    else
      id ← id;
      if negb group_ok then w ← urpc_pool_id_put id w; Some (- ENOMEM, w)
      else
        Some (0, put_pool addr
          {| global_free := []; global_free_container := []; global_group := Some []; cfg := c;
             block_size := u32 (SIZEOF_POOL_BLOCK + element_num_per_block c * element_size c);
             container_size := u32 (SIZEOF_POOL_BLOCK + element_num_per_block c * 8); pool_id := u16 id |} w).

(** everything is freed; the contexts of the threads are not touched *)
Definition urpc_pool_uninit (addr : Z) (w : pool_world) : option pool_world :=
  p ← pools w !! addr;
  w ← urpc_pool_id_put (pool_id p) w;
  Some (put_pool addr
    {| global_free := []; global_free_container := []; global_group := None;
       cfg := {| element_size := 0; element_num_per_block := 0; block_num := 0 |};
       block_size := block_size p; container_size := container_size p; pool_id := pool_id p |} w).

(** ** Elements *)

(** the stack of the thread, new and empty if it had none (the pointers of a
    new one are undefined and not read); [None] inside when memory ran out *)
Definition urpc_pool_local_init (local_ok : bool) t (addr : Z) (p : urpc_pool) (w : pool_world) : option urpc_pool_block * pool_world :=
  match contexts (pool_id p) w !! t with
  | Some c => (Some (ctx_local c), w)
  | None =>
    if negb local_ok then (None, w)
    else
      let b := {| free_num := 0; data_ptr := replicate (Z.to_nat (element_num_per_block (cfg p))) 0 |} in
      (Some b, set_local (pool_id p) t addr b w)
  end.

(** [local->data_ptr[--local->free_num]] *)
Definition pop_local (b : urpc_pool_block) : option (Z * urpc_pool_block) :=
  let n := u32 (free_num b - 1) in
  e ← zget (data_ptr b) n;
  Some (e, {| free_num := n; data_ptr := data_ptr b |}).

(** [local->data_ptr[local->free_num++] = element] *)
Definition push_local e (b : urpc_pool_block) : option urpc_pool_block :=
  ptrs ← zset (data_ptr b) (free_num b) e;
  Some {| free_num := u32 (free_num b + 1); data_ptr := ptrs |}.

(** the pointers into a new block; [i * element_size] is a 32-bit product *)
Definition block_elements (c : urpc_pool_config) (mem : Z) : list Z :=
  (fun i => u64 (mem + SIZEOF_POOL_BLOCK + u32 (i * element_size c))) <$> seqZ 0 (element_num_per_block c).

(** [mem]: the answer of the allocator when a block is needed. The context
    keeps the pool it was created with. *)
Definition urpc_pool_element_get (local_ok : bool) (mem : option Z) t (addr : Z) (w : pool_world) : option (option Z * pool_world) :=
  p ← pools w !! addr;
  match urpc_pool_local_init local_ok t addr p w with
  | (None, w) => Some (None, w)
  | (Some local, w) =>
    let save b w :=
      let owner := match contexts (pool_id p) w !! t with Some c => ctx_global_pool c | None => addr end in
      set_local (pool_id p) t owner b w in
    if 0 <? free_num local then '(e, local) ← pop_local local; Some (Some e, save local w)
    else match global_free p with
      | block :: rest =>
        let w := put_pool addr (set_lists rest (block :: global_free_container p) p) w in
        '(e, local) ← pop_local block; Some (Some e, save local w)
      | [] =>
        group ← global_group p;
        if block_num (cfg p) <=? zlen group then Some (None, w)
        else match mem with
          | None => Some (None, w)
          | Some a =>
            let w := put_pool addr (set_group (Some (group ++ [a])) p) w in
            '(e, local) ← pop_local {| free_num := element_num_per_block (cfg p); data_ptr := block_elements (cfg p) a |};
            Some (Some e, save local w)
          end
      end
  end.

(** the result says whether the element was taken back *)
Definition urpc_pool_element_put (local_ok container_ok : bool) e t (addr : Z) (w : pool_world) : option (bool * pool_world) :=
  p ← pools w !! addr;
  match urpc_pool_local_init local_ok t addr p w with
  | (None, w) => Some (false, w)
  | (Some local, w) =>
    let save b w :=
      let owner := match contexts (pool_id p) w !! t with Some c => ctx_global_pool c | None => addr end in
      set_local (pool_id p) t owner b w in
    if free_num local <? element_num_per_block (cfg p) then local ← push_local e local; Some (true, save local w)
    else
      let containers := match global_free_container p with _ :: rest => Some rest | [] => if container_ok then Some [] else None end in
      match containers with
      | None => Some (false, w)
      | Some containers =>
        let w := put_pool addr (set_lists (local :: global_free p) containers p) w in
        local ← push_local e {| free_num := 0; data_ptr := data_ptr local |};
        Some (true, save local w)
      end
  end.

(** a thread ends: its stack for one identifier goes to the pool the context
    names; the closure does this for every identifier *)
Definition close_context t (id : Z) (w : pool_world) : option pool_world :=
  match contexts id w !! t with
  | None => Some w
  | Some c =>
    p ← pools w !! ctx_global_pool c;
    let b := ctx_local c in
    let p := if 0 <? free_num b then set_lists (b :: global_free p) (global_free_container p) p
             else set_lists (global_free p) (b :: global_free_container p) p in
    Some (set_contexts id (delete t (contexts id w)) (put_pool (ctx_global_pool c) p w))
  end.

Fixpoint close_from (k : nat) t (id : Z) (w : pool_world) : option pool_world :=
  match k with
  | O => Some w
  | S k => w ← close_context t id w; close_from k t (id + 1) w
  end.

Definition urpc_pool_thread_closure t (w : pool_world) : option pool_world :=
  close_from (Z.to_nat URPC_POOL_LOCAL_MAX) t 0 w.

(** ** Where the elements are *)

Definition elems_of (b : urpc_pool_block) : list Z := take (Z.to_nat (free_num b)) (data_ptr b).
Definition cached (cs : gmap nat urpc_pool_context) : list Z := mjoin ((fun c => elems_of (ctx_local c.2)) <$> map_to_list cs).
Definition listed (p : urpc_pool) : list Z := mjoin (elems_of <$> global_free p).
Definition all_elements (c : urpc_pool_config) (group : list Z) : list Z := mjoin (block_elements c <$> group).

(** an element is free, held by a user, or lost, and in one place only *)
Definition partition (free : list Z) (held lost : gset Z) (all : list Z) : Prop :=
  NoDup free /\ (forall e, e ∈ all <-> e ∈ free \/ e ∈ held \/ e ∈ lost) /\
  (forall e, e ∈ free -> (e ∉ held) /\ (e ∉ lost)) /\ held ## lost.

#[export] Instance partition_perm : Proper ((≡ₚ) ==> (=) ==> (=) ==> (≡ₚ) ==> iff) partition.
Proof.
  intros f f' Hf h ? <- l ? <- a a' Ha. unfold partition. rewrite Hf. setoid_rewrite Hf. by setoid_rewrite Ha.
Qed.

Lemma partition_take e free held lost all : partition (e :: free) held lost all -> (e ∉ held) /\ e ∈ all /\ partition free ({[e]} ∪ held) lost all.
Proof.
  intros (Hnd & Hall & Hd & Hl). apply NoDup_cons in Hnd as [He Hnd]. destruct (Hd e ltac:(by left)) as [H1 H2].
  split; [done|]. split; [apply Hall; left; by left|]. split_and!; [done| | |set_solver].
  - intros x. rewrite Hall. set_solver.
  - intros x Hx. destruct (Hd x ltac:(by right)). set_solver.
Qed.

Lemma partition_give e free held lost all : partition free held lost all -> e ∈ held -> partition (e :: free) (held ∖ {[e]}) lost all.
Proof.
  intros (Hnd & Hall & Hd & Hl) He. split_and!; [| | |set_solver].
  - apply NoDup_cons. split; [|done]. intros Hx. by destruct (Hd e Hx).
  - intros x. rewrite Hall. destruct (decide (x = e)) as [->|]; set_solver.
  - intros x [->|Hx]%elem_of_cons; [set_solver|]. destruct (Hd x Hx). set_solver.
Qed.

Lemma partition_lose e free held lost all : partition free held lost all -> e ∈ held -> partition free (held ∖ {[e]}) ({[e]} ∪ lost) all.
Proof.
  intros (Hnd & Hall & Hd & Hl) He. split_and!; [done| | |set_solver].
  - intros x. rewrite Hall. destruct (decide (x = e)) as [->|]; set_solver.
  - intros x Hx. destruct (Hd x Hx). set_solver.
Qed.

Lemma partition_grow new free held lost all : NoDup new -> (forall e, e ∈ new -> e ∉ all) ->
  partition free held lost all -> partition (new ++ free) held lost (all ++ new).
Proof.
  intros Hn Hnew (Hnd & Hall & Hd & Hl). split_and!; [| | |done].
  - apply NoDup_app. split_and!; [done| |done]. intros e He Hf. apply (Hnew e He), Hall. by left.
  - intros e. rewrite !elem_of_app, Hall. tauto.
  - intros e [He|He]%elem_of_app; [|by apply Hd]. pose proof (Hnew e He) as Hx. rewrite Hall in Hx. tauto.
Qed.

Section pool.
Context (addr : Z) (c : urpc_pool_config) (id : Z).
Hypothesis Hnum : 0 < element_num_per_block c <= URPC_POOL_ELEMENT_MAX.
Hypothesis Hsize : 0 < element_size c.
Hypothesis Hblock : SIZEOF_POOL_BLOCK + element_num_per_block c * element_size c < 2 ^ 32.

Definition bytes_of_block : Z := SIZEOF_POOL_BLOCK + element_num_per_block c * element_size c.

Definition block_wf (b : urpc_pool_block) : Prop :=
  zlen (data_ptr b) = element_num_per_block c /\ 0 <= free_num b <= element_num_per_block c.

Lemma pop_local_spec b : block_wf b -> 0 < free_num b ->
  exists e b', pop_local b = Some (e, b') /\ block_wf b' /\ elems_of b = elems_of b' ++ [e].
Proof.
  intros [Hl Hf] H0. unfold pop_local, URPC_POOL_ELEMENT_MAX in *. rewrite u32_small by lia.
  destruct (zget_in_range (data_ptr b) (free_num b - 1)) as [e E]; [lia|]. rewrite E. cbn [mbind option_bind].
  eexists _, _. split; [done|]. split; [split; [done|simpl; lia]|]. unfold elems_of. simpl. unfold zget in E.
  rewrite (proj2 (Z.leb_le 0 _)) in E by lia. replace (Z.to_nat (free_num b)) with (S (Z.to_nat (free_num b - 1))) by lia.
  by apply take_S_r.
Qed.

Lemma push_local_spec e b : block_wf b -> free_num b < element_num_per_block c ->
  exists b', push_local e b = Some b' /\ block_wf b' /\ elems_of b' = elems_of b ++ [e].
Proof.
  intros [Hl Hf] H0. unfold push_local, URPC_POOL_ELEMENT_MAX in *.
  destruct (zset_in_range (data_ptr b) (free_num b) e) as [ptrs E]; [lia|]. rewrite E. cbn [mbind option_bind].
  rewrite u32_small by lia. eexists. split; [done|]. pose proof (zset_len _ _ _ _ E) as El.
  split; [split; [simpl; lia|simpl; lia]|]. unfold elems_of. simpl. apply zset_Some in E as [_ ->].
  replace (Z.to_nat (free_num b + 1)) with (S (Z.to_nat (free_num b))) by lia. unfold zlen in Hl.
  rewrite (take_S_r _ _ e) by (apply list_lookup_insert_eq; lia). by rewrite take_insert_ge by lia.
Qed.

(** the stacks of the threads *)
Lemma cached_delete t x cs : cs !! t = Some x -> cached cs ≡ₚ elems_of (ctx_local x) ++ cached (delete t cs).
Proof.
  intros Ht. unfold cached. rewrite <- (map_to_list_delete cs t x Ht). done.
Qed.

Lemma cached_insert t x cs : cached (<[t := x]> cs) ≡ₚ elems_of (ctx_local x) ++ cached (delete t cs).
Proof. rewrite (cached_delete t x) by apply lookup_insert_eq. by rewrite delete_insert_eq. Qed.


(** ** The blocks *)

Definition disjoint_from (a a' : Z) : Prop := a + bytes_of_block <= a' \/ a' + bytes_of_block <= a.
Definition blocks_ok (group : list Z) : Prop :=
  NoDup group /\ (forall a, a ∈ group -> 0 < a /\ a + bytes_of_block < 2 ^ 64) /\
  (forall a a', a ∈ group -> a' ∈ group -> a <> a' -> disjoint_from a a').

(** what [malloc] promises: a region of its own *)
Definition fresh_block (group : list Z) (a : Z) : Prop :=
  0 < a /\ a + bytes_of_block < 2 ^ 64 /\ forall a', a' ∈ group -> disjoint_from a a'.

Definition element_at (a i : Z) : Z := a + SIZEOF_POOL_BLOCK + i * element_size c.

Lemma block_elements_eq a : 0 < a -> a + bytes_of_block < 2 ^ 64 ->
  block_elements c a = element_at a <$> seqZ 0 (element_num_per_block c).
Proof.
  intros Ha Hb. apply list_fmap_ext. intros k i Hi. apply lookup_seqZ in Hi as [-> Hk].
  unfold element_at, bytes_of_block, SIZEOF_POOL_BLOCK in *. simpl Z.add at 3.
  assert (Z.of_nat k * element_size c + element_size c <= element_num_per_block c * element_size c) by nia.
  rewrite u32_small by nia. rewrite u64_small; nia.
Qed.

Lemma elem_of_block e a : 0 < a -> a + bytes_of_block < 2 ^ 64 ->
  e ∈ block_elements c a <-> exists i, 0 <= i < element_num_per_block c /\ e = element_at a i.
Proof.
  intros Ha Hb. rewrite block_elements_eq, list_elem_of_fmap by done. setoid_rewrite elem_of_seqZ.
  split; intros (i & H1 & H2); exists i; split; lia || done.
Qed.

Lemma element_inside a i : 0 <= i < element_num_per_block c ->
  a + SIZEOF_POOL_BLOCK <= element_at a i /\ element_at a i + element_size c <= a + bytes_of_block.
Proof. unfold element_at, bytes_of_block. intros. nia. Qed.

Lemma block_elements_NoDup a : 0 < a -> a + bytes_of_block < 2 ^ 64 -> NoDup (block_elements c a).
Proof.
  intros Ha Hb. rewrite block_elements_eq by done. apply NoDup_fmap_2_strong; [|apply NoDup_seqZ].
  intros i j _ _. unfold element_at. nia.
Qed.

Lemma block_elements_len a : zlen (block_elements c a) = element_num_per_block c.
Proof. unfold zlen, block_elements. rewrite length_fmap, length_seqZ. lia. Qed.

Lemma element_blocks_apart e a a' : fresh_block [a'] a -> 0 < a' -> a' + bytes_of_block < 2 ^ 64 ->
  e ∈ block_elements c a -> e ∉ block_elements c a'.
Proof.
  intros (Ha & Hb & Hd) Ha' Hb'. rewrite !elem_of_block by done. intros (i & Hi & ->) (j & Hj & E).
  pose proof (element_inside a i Hi). pose proof (element_inside a' j Hj).
  destruct (Hd a' ltac:(by left)); unfold SIZEOF_POOL_BLOCK in *; lia.
Qed.

Lemma elem_of_all e group : e ∈ all_elements c group <-> exists a, a ∈ group /\ e ∈ block_elements c a.
Proof.
  unfold all_elements. rewrite list_elem_of_join. split.
  - intros (l & He & (a & -> & Ha)%list_elem_of_fmap). eauto.
  - intros (a & Ha & He). exists (block_elements c a). split; [done|]. by apply list_elem_of_fmap_2.
Qed.

Lemma all_elements_snoc group a : all_elements c (group ++ [a]) = all_elements c group ++ block_elements c a.
Proof. unfold all_elements. rewrite fmap_app, join_app. simpl. by rewrite app_nil_r. Qed.

Lemma all_elements_len group : zlen (all_elements c group) = zlen group * element_num_per_block c.
Proof.
  induction group as [|a group IH]; [done|].
  change (all_elements c (a :: group)) with (block_elements c a ++ all_elements c group).
  rewrite zlen_app, block_elements_len, IH. unfold zlen. simpl. lia.
Qed.

Lemma fresh_new_elements group a e : blocks_ok group -> fresh_block group a -> e ∈ block_elements c a -> e ∉ all_elements c group.
Proof.
  intros (_ & Hr & _) (Ha & Hb & Hd) He (a' & Ha' & He')%elem_of_all. destruct (Hr a' Ha').
  revert He'. apply (element_blocks_apart e a a'); [|done|done|done]. split; [done|]. split; [done|].
  intros x ->%list_elem_of_singleton. by apply Hd.
Qed.

Lemma bytes_of_block_pos : 0 < bytes_of_block.
Proof. unfold bytes_of_block, SIZEOF_POOL_BLOCK. nia. Qed.

Lemma blocks_ok_snoc group a : blocks_ok group -> fresh_block group a -> blocks_ok (group ++ [a]).
Proof.
  intros (Hn & Hr & Hp) (Ha & Hb & Hd). pose proof bytes_of_block_pos as Hpos. split; [|split].
  - apply NoDup_app. split; [done|]. split; [|apply NoDup_singleton].
    intros x Hx ->%list_elem_of_singleton. destruct (Hd a Hx); lia.
  - intros x [Hx| ->%list_elem_of_singleton]%elem_of_app; [by apply Hr|done].
  - intros x y [Hx| ->%list_elem_of_singleton]%elem_of_app [Hy| ->%list_elem_of_singleton]%elem_of_app Hne; [by apply Hp| |by apply Hd|done].
    destruct (Hd x Hx); [by right|by left].
Qed.

Lemma all_elements_NoDup group : blocks_ok group -> NoDup (all_elements c group).
Proof.
  induction group as [|a group IH] using rev_ind; intros (Hn & Hr & Hp); [constructor|].
  apply NoDup_app in Hn as (Hn & Hx & _). rewrite all_elements_snoc.
  assert (Hok : blocks_ok group) by (split_and!; [done| |]; intros; [apply Hr|apply Hp]; set_solver).
  assert (Ha : a ∈ group ++ [a]) by set_solver. destruct (Hr a Ha) as [H1 H2].
  apply NoDup_app. split; [by apply IH|]. split; [|by apply block_elements_NoDup].
  intros e He Hb. refine (fresh_new_elements group a e Hok _ Hb He). split; [done|]. split; [done|].
  intros a' Ha'. apply Hp; set_solver.
Qed.

(** ** The invariant *)

Definition pool_ok (p : urpc_pool) (group : list Z) : Prop :=
  cfg p = c /\ pool_id p = id /\ global_group p = Some group /\ block_size p = bytes_of_block /\
  Forall (fun b => block_wf b /\ 0 < free_num b) (global_free p) /\ blocks_ok group /\ zlen group <= block_num c.

(** the contexts of this identifier name the pool, those of others do not *)
Definition contexts_ok (w : pool_world) : Prop :=
  (forall t x, contexts id w !! t = Some x -> block_wf (ctx_local x) /\ ctx_global_pool x = addr) /\
  (forall id' t x, id' <> id -> contexts id' w !! t = Some x ->
     ctx_global_pool x <> addr /\ is_Some (pools w !! ctx_global_pool x)).

Definition pool_inv (p : urpc_pool) (group : list Z) (w : pool_world) (held lost : gset Z) : Prop :=
  pools w !! addr = Some p /\ pool_ok p group /\ contexts_ok w /\
  partition (cached (contexts id w) ++ listed p) held lost (all_elements c group).

Lemma contexts_set_local t b w : contexts id (set_local id t addr b w) = <[t := {| ctx_global_pool := addr; ctx_local := b |}]> (contexts id w).
Proof. unfold contexts at 1. simpl. by rewrite lookup_insert_eq. Qed.

Lemma contexts_set_contexts_ne id' cs w : id' <> id -> contexts id' (set_contexts id cs w) = contexts id' w.
Proof. intros Hne. unfold contexts. simpl. by rewrite lookup_insert_ne. Qed.

Lemma contexts_ok_update t b p w : contexts_ok w -> block_wf b -> contexts_ok (set_local id t addr b (put_pool addr p w)).
Proof.
  intros [H1 H2] Hb. split.
  - intros t' x. rewrite contexts_set_local. intros [[<- <-]|[_ Hx]]%lookup_insert_Some; [done|]. by apply (H1 t').
  - intros id' t' x Hne Hx. unfold set_local in Hx. rewrite contexts_set_contexts_ne in Hx by done.
    destruct (H2 id' t' x Hne Hx) as [Ha Hp]. split; [done|]. simpl. by rewrite lookup_insert_ne.
Qed.

Lemma pool_inv_update t b p' group' w held lost : contexts_ok w -> block_wf b -> pool_ok p' group' ->
  partition (elems_of b ++ cached (delete t (contexts id w)) ++ listed p') held lost (all_elements c group') ->
  pool_inv p' group' (set_local id t addr b (put_pool addr p' w)) held lost.
Proof.
  intros Hc Hb Hp Hpart. split; [apply lookup_insert_eq|]. split; [done|]. split; [by apply contexts_ok_update|].
  rewrite contexts_set_local, cached_insert. simpl. by rewrite <- app_assoc.
Qed.

Lemma put_pool_same p w : pools w !! addr = Some p -> put_pool addr p w = w.
Proof. intros Hp. unfold put_pool, set_pools. rewrite insert_id by done. by destruct w. Qed.

(** the stack of the thread, after [urpc_pool_local_init] *)
Lemma local_init_spec local_ok t p group w held lost : pool_inv p group w held lost ->
  match urpc_pool_local_init local_ok t addr p w with
  | (None, w') => w' = w /\ local_ok = false /\ contexts id w !! t = None
  | (Some b, w') => pool_inv p group w' held lost /\ block_wf b /\
      contexts id w' !! t = Some {| ctx_global_pool := addr; ctx_local := b |} /\
      (forall x, contexts id w !! t = Some x -> ctx_local x = b)
  end.
Proof.
  intros (Hp & Hpok & Hc & Hpart). pose proof Hpok as (Hcfg & Hid & _). unfold urpc_pool_local_init. rewrite Hid, Hcfg.
  destruct (contexts id w !! t) as [[own b]|] eqn:E.
  - destruct (proj1 Hc _ _ E) as [Hb Ha]. simpl in Hb, Ha. subst own. split; [done|]. split; [done|]. split; [done|]. by intros x [= <-].
  - destruct local_ok; simpl; [|done].
    set (b := {| free_num := 0; data_ptr := _ |}).
    assert (Hb : block_wf b) by (split; simpl; [rewrite zlen_replicate|]; lia).
    split; [|split; [done|split; [rewrite contexts_set_local; apply lookup_insert_eq|done]]].
    rewrite <- (put_pool_same p w Hp). apply pool_inv_update; [done|done|done|].
    rewrite delete_id by done. exact Hpart.
Qed.

Lemma partition_local t b p group w held lost : pool_inv p group w held lost ->
  contexts id w !! t = Some {| ctx_global_pool := addr; ctx_local := b |} ->
  partition (elems_of b ++ cached (delete t (contexts id w)) ++ listed p) held lost (all_elements c group).
Proof. intros (_ & _ & _ & Hpart) Ht. rewrite (cached_delete t _ _ Ht) in Hpart. by rewrite app_assoc. Qed.

(** taking the last element of a stack that, with [rest], holds what is free *)
Lemma pop_update t b p' group' w held lost : contexts_ok w -> block_wf b -> 0 < free_num b -> pool_ok p' group' ->
  partition (elems_of b ++ cached (delete t (contexts id w)) ++ listed p') held lost (all_elements c group') ->
  exists e b', pop_local b = Some (e, b') /\ (e ∉ held) /\
    pool_inv p' group' (set_local id t addr b' (put_pool addr p' w)) ({[e]} ∪ held) lost.
Proof.
  intros Hc Hb H0 Hp Hpart. destruct (pop_local_spec b Hb H0) as (e & b' & E & Hb' & Eb). exists e, b'. split; [done|].
  rewrite Eb, <- app_assoc in Hpart. simpl in Hpart. rewrite <- Permutation_middle in Hpart.
  apply partition_take in Hpart as (Hh & _ & Hpart). split; [done|]. by apply pool_inv_update.
Qed.

Lemma push_update t e b p' group' w held lost : contexts_ok w -> block_wf b -> free_num b < element_num_per_block c ->
  pool_ok p' group' -> e ∈ held ->
  partition (elems_of b ++ cached (delete t (contexts id w)) ++ listed p') held lost (all_elements c group') ->
  exists b', push_local e b = Some b' /\
    pool_inv p' group' (set_local id t addr b' (put_pool addr p' w)) (held ∖ {[e]}) lost.
Proof.
  intros Hc Hb H0 Hp He Hpart. destruct (push_local_spec e b Hb H0) as (b' & E & Hb' & Eb). exists b'. split; [done|].
  apply pool_inv_update; [done|done|done|]. rewrite Eb, <- app_assoc. simpl. rewrite <- Permutation_middle.
  by apply partition_give.
Qed.

(** why a request for an element fails *)
Definition get_refused (local_ok : bool) (mem : option Z) t (p : urpc_pool) (group : list Z) (w : pool_world) : Prop :=
  (local_ok = false /\ contexts id w !! t = None) \/
  ((forall x, contexts id w !! t = Some x -> free_num (ctx_local x) = 0) /\ global_free p = [] /\
   (block_num c <= zlen group \/ mem = None)).

Lemma elems_of_empty b : free_num b = 0 -> elems_of b = [].
Proof. intros E. unfold elems_of. by rewrite E. Qed.

Lemma pool_ok_lists full empty p group : pool_ok p group ->
  Forall (fun b => block_wf b /\ 0 < free_num b) full -> pool_ok (set_lists full empty p) group.
Proof. intros (H1 & H2 & H3 & H4 & H5 & H6 & H7) Hf. by repeat split; try apply H6. Qed.

(** taking an element of a new block *)
Lemma pop_new_block t a p group w held lost : contexts_ok w -> pool_ok p group -> global_free p = [] ->
  fresh_block group a -> zlen group < block_num c ->
  partition (cached (delete t (contexts id w)) ++ listed p) held lost (all_elements c group) ->
  let p' := set_group (Some (group ++ [a])) p in
  exists e b', pop_local {| free_num := element_num_per_block c; data_ptr := block_elements c a |} = Some (e, b') /\
    (e ∉ held) /\ pool_inv p' (group ++ [a]) (set_local id t addr b' (put_pool addr p' w)) ({[e]} ∪ held) lost.
Proof.
  intros Hc (Hcfg & Hid & Hg & Hbs & Hfree & Hblk & Hn) Ef Hmem Hlt Hpart. apply pop_update; [done| |simpl; lia| |].
  - split; simpl; [apply block_elements_len|lia].
  - split_and!; try done; [by apply blocks_ok_snoc|]. rewrite zlen_app. unfold zlen in *. simpl. lia.
  - rewrite all_elements_snoc. unfold elems_of at 1. simpl.
    rewrite take_ge by (pose proof (block_elements_len a) as El; unfold zlen in El; lia).
    pose proof Hmem as (Ha & Hend & Hd). apply partition_grow; [by apply block_elements_NoDup| |exact Hpart].
    intros x Hx. by apply (fresh_new_elements group a).
Qed.

Lemma get_spec local_ok mem t p group w held lost : pool_inv p group w held lost ->
  (forall a, mem = Some a -> fresh_block group a) ->
  exists r p' group' w', urpc_pool_element_get local_ok mem t addr w = Some (r, w') /\
    match r with
    | Some e => (e ∉ held) /\ pool_inv p' group' w' ({[e]} ∪ held) lost
    | None => pool_inv p' group' w' held lost /\ get_refused local_ok mem t p group w
    end.
Proof.
  intros Hinv Hmem. pose proof Hinv as (Hp & _). unfold urpc_pool_element_get. rewrite Hp. cbn [mbind option_bind].
  pose proof (local_init_spec local_ok t p group w held lost Hinv) as Hl.
  destruct (urpc_pool_local_init local_ok t addr p w) as [[b|] w1].
  2:{ destruct Hl as (-> & Hok & Ht). exists None, p, group, w. split; [done|]. split; [done|]. by left. }
  destruct Hl as (Hinv1 & Hb & Ht & Hold). pose proof (partition_local _ _ _ _ _ _ _ Hinv1 Ht) as Hpart.
  destruct Hinv1 as (Hp1 & Hpok & Hc & Hp0). pose proof Hpok as (Hcfg & Hid & Hg & Hbs & Hfree & Hblk & Hnum').
  rewrite Hid, Hcfg, Hg. cbn [mbind option_bind]. destruct (Z.ltb_spec 0 (free_num b)) as [H0|H0].
  { destruct (pop_update t b p group w1 held lost Hc Hb H0 Hpok Hpart) as (e & b' & E & He & Hi).
    rewrite E, Ht. rewrite put_pool_same in Hi by done. exists (Some e), p, group. eauto. }
  assert (E0 : free_num b = 0) by (destruct Hb; lia). rewrite (elems_of_empty b E0) in Hpart. simpl in Hpart.
  destruct (global_free p) as [|block rest] eqn:Ef.
  - destruct (Z.leb_spec (block_num c) (zlen group)) as [Hn|Hn].
    { exists None, p, group, w1. split; [done|]. split; [done|]. right. split; [|tauto].
      intros x Hx. by rewrite (Hold x Hx). }
    destruct mem as [a|]; [|exists None, p, group, w1; split; [done|]; split; [done|]; right; split; [|tauto];
      intros x Hx; by rewrite (Hold x Hx)].
    destruct (pop_new_block t a p group w1 held lost Hc Hpok Ef (Hmem a eq_refl) Hn Hpart) as (e & b' & E & He & Hi).
    rewrite E. cbn [mbind option_bind]. eexists (Some e), _, _, _. split; [done|].
    change (contexts id (put_pool ?a ?q w1)) with (contexts id w1). rewrite Ht. simpl. done.
  - apply Forall_cons in Hfree as [[Hbw Hb0] Hrest].
    destruct (pop_update t block (set_lists rest (block :: global_free_container p) p) group w1 held lost) as (e & b' & E & He & Hi);
      [done|done|done|by apply pool_ok_lists| |].
    + unfold listed in Hpart |- *. rewrite Ef in Hpart. cbn [fmap list_fmap mjoin list_join] in Hpart.
      simpl global_free. by rewrite (Permutation_app_swap_app (elems_of block)).
    + rewrite E. cbn [mbind option_bind]. eexists (Some e), _, _, _. split; [done|].
      change (contexts id (put_pool ?a ?q w1)) with (contexts id w1). rewrite Ht. simpl. done.
Qed.

Lemma put_spec local_ok container_ok e t p group w held lost : pool_inv p group w held lost -> e ∈ held ->
  exists ok p' w', urpc_pool_element_put local_ok container_ok e t addr w = Some (ok, w') /\
    (ok = false -> local_ok = false \/ container_ok = false) /\
    pool_inv p' group w' (held ∖ {[e]}) (if (ok : bool) then lost else {[e]} ∪ lost).
Proof.
  intros Hinv He. pose proof Hinv as (Hp & _). unfold urpc_pool_element_put. rewrite Hp. cbn [mbind option_bind].
  pose proof (local_init_spec local_ok t p group w held lost Hinv) as Hl.
  assert (Hlose : forall w', pool_inv p group w' held lost -> pool_inv p group w' (held ∖ {[e]}) ({[e]} ∪ lost))
    by (intros w' (H1 & H2 & H3 & H4); split_and!; [done..|by apply partition_lose]).
  destruct (urpc_pool_local_init local_ok t addr p w) as [[b|] w1].
  2:{ destruct Hl as (-> & Hok & Ht). exists false, p, w. split; [done|]. split; [by left|]. by apply Hlose. }
  destruct Hl as (Hinv1 & Hb & Ht & _). pose proof (partition_local _ _ _ _ _ _ _ Hinv1 Ht) as Hpart.
  pose proof Hinv1 as (Hp1 & Hpok & Hc & _). pose proof Hpok as (Hcfg & Hid & Hg & Hbs & Hfree & Hblk & Hnum').
  rewrite Hid, Hcfg. destruct (Z.ltb_spec (free_num b) (element_num_per_block c)) as [H0|H0].
  { destruct (push_update t e b p group w1 held lost Hc Hb H0 Hpok He Hpart) as (b' & E & Hi).
    rewrite E. cbn [mbind option_bind]. rewrite Ht. rewrite put_pool_same in Hi by done. exists true, p. by eexists. }
  assert (Hput : forall containers, exists b',
    push_local e {| free_num := 0; data_ptr := data_ptr b |} = Some b' /\
    pool_inv (set_lists (b :: global_free p) containers p) group
      (set_local id t addr b' (put_pool addr (set_lists (b :: global_free p) containers p) w1)) (held ∖ {[e]}) lost).
  { intros containers.
    destruct (push_update t e {| free_num := 0; data_ptr := data_ptr b |} (set_lists (b :: global_free p) containers p) group w1 held lost)
      as (b' & E & Hi); [done|destruct Hb; split; simpl; lia|simpl; lia| |done| |by exists b'].
    - apply pool_ok_lists; [done|]. apply Forall_cons. split; [split; [done|destruct Hb; lia]|done].
    - simpl. unfold listed at 1. cbn [set_lists global_free fmap list_fmap mjoin list_join].
      by rewrite (Permutation_app_swap_app _ (elems_of b)). }
  destruct (global_free_container p) as [|c0 rest]; [destruct container_ok|].
  2:{ exists false, p, w1. split; [done|]. split; [by right|]. by apply Hlose. }
  1: destruct (Hput []) as (b' & E & Hi). 2: destruct (Hput rest) as (b' & E & Hi).
  all: rewrite E; cbn [mbind option_bind]; eexists true, _, _; split; [done|]; split; [done|];
    change (contexts id (put_pool ?a ?q w1)) with (contexts id w1); rewrite Ht; exact Hi.
Qed.

(** the end of a thread *)
Lemma contexts_set_contexts i j cs w : contexts i (set_contexts j cs w) = if decide (i = j) then cs else contexts i w.
Proof. unfold contexts, set_contexts. simpl. case_decide; subst; [by rewrite lookup_insert_eq|by rewrite lookup_insert_ne]. Qed.

Lemma close_context_spec t id' p group w held lost : pool_inv p group w held lost ->
  exists p' w', close_context t id' w = Some w' /\ pool_inv p' group w' held lost /\
    contexts id w' = if decide (id' = id) then delete t (contexts id w) else contexts id w.
Proof.
  intros (Hp & Hpok & [Hc1 Hc2] & Hpart). unfold close_context. destruct (contexts id' w !! t) as [x|] eqn:E.
  2:{ exists p, w. split; [done|]. split; [done|]. case_decide; subst; [by rewrite delete_id|done]. }
  destruct (decide (id' = id)) as [->|Hne].
  - destruct (Hc1 t x E) as [Hb Hx]. rewrite Hx, Hp. cbn [mbind option_bind]. eexists _, _. split; [done|].
    rewrite contexts_set_contexts, decide_True by done. split; [|done]. split; [apply lookup_insert_eq|].
    pose proof Hpok as (_ & _ & _ & _ & Hfree & _). split; [|split; [split|]].
    + destruct (Z.ltb_spec 0 (free_num (ctx_local x))); apply pool_ok_lists; try done. by apply Forall_cons.
    + intros t' y. rewrite contexts_set_contexts, decide_True by done. intros [_ Hy]%lookup_delete_Some. by apply (Hc1 t').
    + intros i t' y Hi. rewrite contexts_set_contexts, decide_False by done. intros Hy. destruct (Hc2 i t' y Hi Hy).
      split; [done|]. simpl. by rewrite lookup_insert_ne.
    + rewrite contexts_set_contexts, decide_True by done. rewrite (cached_delete t x _ E) in Hpart.
      destruct (Z.ltb_spec 0 (free_num (ctx_local x))) as [H0|H0].
      * unfold listed. cbn [set_lists global_free fmap list_fmap mjoin list_join].
        by rewrite (Permutation_app_swap_app _ (elems_of _)), app_assoc.
      * rewrite elems_of_empty in Hpart by (destruct Hb; lia). exact Hpart.
  - destruct (Hc2 id' t x Hne E) as [Hx [q Hq]]. rewrite Hq. cbn [mbind option_bind]. eexists p, _. split; [done|].
    rewrite contexts_set_contexts, decide_False by done. split; [|done]. split; [simpl; by rewrite lookup_insert_ne|].
    split; [done|]. split; [split|by rewrite contexts_set_contexts, decide_False].
    + intros t' y. rewrite contexts_set_contexts, decide_False by done. apply Hc1.
    + intros i t' y Hi Hy. assert (Hy' : contexts i w !! t' = Some y).
      { rewrite contexts_set_contexts in Hy. case_decide; subst; [by apply lookup_delete_Some in Hy as [_ ?]|done]. }
      destruct (Hc2 i t' y Hi Hy') as [Ha [r Hr]]. split; [done|]. simpl.
      destruct (decide (ctx_global_pool x = ctx_global_pool y)) as [->|Hn];
        [rewrite lookup_insert_eq|rewrite lookup_insert_ne by done]; eauto.
Qed.

Lemma close_from_spec k t i p group w held lost : pool_inv p group w held lost ->
  exists p' w', close_from k t i w = Some w' /\ pool_inv p' group w' held lost /\
    (i <= id < i + Z.of_nat k \/ contexts id w !! t = None -> contexts id w' !! t = None).
Proof.
  revert i p w. induction k as [|k IH]; intros i p w Hinv.
  - exists p, w. split; [done|]. split; [done|]. intros [?|?]; [lia|done].
  - destruct (close_context_spec t i p group w held lost Hinv) as (p1 & w1 & E1 & Hi1 & Hc1).
    destruct (IH (i + 1) p1 w1 Hi1) as (p2 & w2 & E2 & Hi2 & Hc2). exists p2, w2. split; [|split; [done|]].
    + simpl. rewrite E1. exact E2.
    + intros Ht. apply Hc2. rewrite Hc1. case_decide as Ei; [right; apply lookup_delete_eq|].
      destruct Ht as [Ht|Ht]; [left; lia|by right].
Qed.

(** ** Runs *)

Inductive pool_event :=
| PGet (t : nat) (local_ok : bool) (mem : option Z)
| PPut (t : nat) (e : Z) (local_ok container_ok : bool)
| PExit (t : nat).

Record pool_sys := { sys_world : pool_world; sys_held : gset Z; sys_lost : gset Z }.

Definition pool_exec (ev : pool_event) (s : pool_sys) : option pool_sys :=
  match ev with
  | PGet t local_ok mem =>
    '(r, w) ← urpc_pool_element_get local_ok mem t addr (sys_world s);
    Some {| sys_world := w; sys_held := match r with Some e => {[e]} ∪ sys_held s | None => sys_held s end; sys_lost := sys_lost s |}
  | PPut t e local_ok container_ok =>
    '(ok, w) ← urpc_pool_element_put local_ok container_ok e t addr (sys_world s);
    Some {| sys_world := w; sys_held := sys_held s ∖ {[e]}; sys_lost := if (ok : bool) then sys_lost s else {[e]} ∪ sys_lost s |}
  | PExit t =>
    w ← urpc_pool_thread_closure t (sys_world s);
    Some {| sys_world := w; sys_held := sys_held s; sys_lost := sys_lost s |}
  end.

Definition group_of (w : pool_world) : list Z := default [] (pools w !! addr ≫= global_group).

Definition fresh_blockb (group : list Z) (a : Z) : bool :=
  (0 <? a) && (a + bytes_of_block <? 2 ^ 64) &&
  forallb (fun a' => (a + bytes_of_block <=? a') || (a' + bytes_of_block <=? a)) group.

Lemma fresh_blockb_spec group a : fresh_blockb group a = true -> fresh_block group a.
Proof.
  unfold fresh_blockb, fresh_block, disjoint_from. rewrite !andb_true_iff, forallb_forall. intros [[H1 H2] H3].
  split; [lia|]. split; [lia|]. intros a' Ha. specialize (H3 a' (proj1 (list_elem_of_In _ _) Ha)). lia.
Qed.

(** what callers and the allocator keep to: an element is given back by
    somebody who holds it, and a new block overlaps no block of the pool *)
Definition pool_legal (ev : pool_event) (s : pool_sys) : bool :=
  match ev with
  | PGet _ _ (Some a) => fresh_blockb (group_of (sys_world s)) a
  | PGet _ _ None => true
  | PPut _ e _ _ => bool_decide (e ∈ sys_held s)
  | PExit _ => true
  end.

Fixpoint pool_run (evs : list pool_event) (s : pool_sys) : option pool_sys :=
  match evs with
  | [] => Some s
  | ev :: evs => s ← pool_exec ev s; pool_run evs s
  end.

(** the events are legal one after the other *)
Fixpoint legal_run (evs : list pool_event) (s : pool_sys) : bool :=
  match evs with
  | [] => true
  | ev :: evs => pool_legal ev s && match pool_exec ev s with Some s => legal_run evs s | None => true end
  end.

Definition sys_inv (s : pool_sys) : Prop := exists p group, pool_inv p group (sys_world s) (sys_held s) (sys_lost s).

Lemma group_of_eq p group w held lost : pool_inv p group w held lost -> group_of w = group.
Proof. intros (Hp & (_ & _ & Hg & _) & _). unfold group_of. rewrite Hp. simpl. by rewrite Hg. Qed.

Lemma pool_exec_inv ev s : sys_inv s -> pool_legal ev s = true -> exists s', pool_exec ev s = Some s' /\ sys_inv s'.
Proof.
  intros (p & group & Hinv) Hl. destruct ev as [t lo mem|t e lo co|t]; simpl in Hl |- *.
  - rewrite (group_of_eq _ _ _ _ _ Hinv) in Hl.
    assert (Hm : forall a, mem = Some a -> fresh_block group a) by (intros a ->; by apply fresh_blockb_spec).
    destruct (get_spec lo mem t p group _ _ _ Hinv Hm) as (r & p' & g' & w' & E & Hr). rewrite E. cbn [mbind option_bind].
    eexists. split; [done|]. exists p', g'. destruct r; apply Hr.
  - apply bool_decide_eq_true in Hl. destruct (put_spec lo co e t p group _ _ _ Hinv Hl) as (ok & p' & w' & E & _ & Hi). rewrite E. cbn [mbind option_bind].
    eexists. split; [done|]. by exists p', group.
  - destruct (close_from_spec (Z.to_nat URPC_POOL_LOCAL_MAX) t 0 p group _ _ _ Hinv) as (p' & w' & E & Hi & _).
    unfold urpc_pool_thread_closure. rewrite E. cbn [mbind option_bind]. eexists. split; [done|]. by exists p', group.
Qed.

Lemma pool_run_inv evs s : sys_inv s -> legal_run evs s = true -> exists s', pool_run evs s = Some s' /\ sys_inv s'.
Proof.
  revert s. induction evs as [|ev evs IH]; intros s Hs Hl; [eauto|]. simpl in Hl. apply andb_true_iff in Hl as [Hev Hl].
  destruct (pool_exec_inv ev s Hs Hev) as (s1 & E & Hs1). simpl. rewrite E in Hl |- *. by apply IH.
Qed.

Lemma urpc_pool_init_inv gen_ok private_ok bitmap_ok group_ok w0 w p :
  urpc_pool_init gen_ok private_ok bitmap_ok group_ok c addr w0 = Some (0, w) ->
  pools w !! addr = Some p -> pool_id p = id -> 0 <= block_num c -> contexts id w = ∅ -> contexts_ok w -> pool_inv p [] w ∅ ∅.
Proof.
  intros E Hp Hid Hn Hcs Hc. assert (Hpok : pool_ok p [] /\ listed p = []).
  { unfold urpc_pool_init in E. case_match; [done|]. destruct (urpc_pool_id_get _ _ _ _) as [[[rc i] w1]|]; [|done].
    cbn [mbind option_bind] in E. case_match; [done|]. destruct i as [i|]; [|done]. cbn [mbind option_bind] in E.
    destruct group_ok; simpl in E; [|destruct (urpc_pool_id_put i w1); done].
    injection E as <-. simpl in Hp. rewrite lookup_insert_eq in Hp. injection Hp as <-. split; [|done].
    split_and!; simpl; try done. apply u32_small. pose proof bytes_of_block_pos. unfold bytes_of_block in *. lia.
    split; [constructor|]. split; intros; set_solver. }
  destruct Hpok as [Hpok Hl]. split; [done|]. split; [done|]. split; [done|]. rewrite Hcs, Hl.
  split; [constructor|]. split; [set_solver|]. split; [set_solver|done].
Qed.

(** the elements out of the pool are parts of its blocks that do not overlap *)
Definition elements_apart (group : list Z) (held : gset Z) : Prop :=
  (forall e, e ∈ held -> exists a i, a ∈ group /\ 0 <= i < element_num_per_block c /\ e = element_at a i) /\
  (forall e e', e ∈ held -> e' ∈ held -> e <> e' -> e + element_size c <= e' \/ e' + element_size c <= e).

Lemma inv_elements_apart p group w held lost : pool_inv p group w held lost -> elements_apart group held.
Proof.
  intros (_ & (_ & _ & _ & _ & _ & (Hnd & Hr & Hd) & _) & _ & (_ & Hall & _)).
  assert (H1 : forall e, e ∈ held -> exists a i, a ∈ group /\ 0 <= i < element_num_per_block c /\ e = element_at a i).
  { intros e He. destruct (proj1 (elem_of_all e group)) as (a & Ha & Hb); [apply Hall; tauto|]. destruct (Hr a Ha).
    apply elem_of_block in Hb as (i & Hi & ->); eauto. }
  split; [done|]. intros e e' He He' Hne. destruct (H1 e He) as (a & i & Ha & Hi & ->), (H1 e' He') as (a' & i' & Ha' & Hi' & ->).
  destruct (decide (a = a')) as [->|Ha0].
  - assert (i <> i') by congruence. unfold element_at. nia.
  - pose proof (element_inside a i Hi). pose proof (element_inside a' i' Hi'). unfold SIZEOF_POOL_BLOCK in *.
    destruct (Hd a a' Ha Ha' Ha0); lia.
Qed.

Lemma inv_count p group w held lost : pool_inv p group w held lost ->
  zlen group * element_num_per_block c = zlen (cached (contexts id w)) + zlen (listed p) + Z.of_nat (size held) + Z.of_nat (size lost).
Proof.
  intros (_ & (_ & _ & _ & _ & _ & Hb & _) & _ & (Hn & Hall & Hd & Hl)). rewrite <- all_elements_len.
  set (free := cached (contexts id w) ++ listed p) in Hn, Hall, Hd |- *.
  assert (E : all_elements c group ≡ₚ free ++ elements held ++ elements lost).
  { apply NoDup_Permutation; [by apply all_elements_NoDup| |].
    - apply NoDup_app. split; [done|]. split; [intros e He; specialize (Hd e He); set_solver|].
      apply NoDup_app. split; [apply NoDup_elements|]. split; [set_solver|apply NoDup_elements].
    - intros e. rewrite Hall. set_solver. }
  unfold zlen at 1. rewrite (Permutation_length E), !length_app. unfold free, size, set_size, zlen. rewrite length_app. simpl. lia.
Qed.
End pool.

(** ** The theorem *)

(** the answer to a request: an element nobody holds, or NULL for a reason *)
Definition get_answers (addr : Z) (c : urpc_pool_config) (id : Z) (p : urpc_pool) (group : list Z) (s : pool_sys) : Prop :=
  forall t local_ok mem, (forall a, mem = Some a -> fresh_block c group a) ->
  exists r w, urpc_pool_element_get local_ok mem t addr (sys_world s) = Some (r, w) /\
    match r with
    | Some e => e ∉ sys_held s
    | None => get_refused c id local_ok mem t p group (sys_world s)
    end.

(** C27: In any run of gets, puts and thread exits on an initialised pool,
    threads interleaved, with blocks of at least one element of at least one
    byte whose size fits 32 bits, and no thread context left from an earlier
    pool with the same identifier or at the same address: no call reads or
    writes outside a stack; the number of blocks stays within [block_num]; the
    elements held by callers lie inside the blocks of the pool and do not
    overlap; every element of every block is free, held or lost by a put for
    which memory ran out, and counted once; and a further get answers with an
    element that nobody holds, or NULL because memory ran out or all blocks
    are in use with none free for this thread. *)
Theorem pool_elements_have_one_place gen_ok private_ok bitmap_ok group_ok c addr w0 w p evs :
  0 < element_num_per_block c <= URPC_POOL_ELEMENT_MAX -> 0 < element_size c -> 0 <= block_num c ->
  SIZEOF_POOL_BLOCK + element_num_per_block c * element_size c < 2 ^ 32 ->
  urpc_pool_init gen_ok private_ok bitmap_ok group_ok c addr w0 = Some (0, w) -> pools w !! addr = Some p ->
  contexts (pool_id p) w = ∅ -> contexts_ok addr c (pool_id p) w ->
  let s0 := {| sys_world := w; sys_held := ∅; sys_lost := ∅ |} in
  legal_run addr c evs s0 = true ->
  exists s p' group, pool_run addr evs s0 = Some s /\ pools (sys_world s) !! addr = Some p' /\
    global_group p' = Some group /\ zlen group <= block_num c /\ elements_apart c group (sys_held s) /\
    zlen group * element_num_per_block c =
      zlen (cached (contexts (pool_id p) (sys_world s))) + zlen (listed p') +
      Z.of_nat (size (sys_held s)) + Z.of_nat (size (sys_lost s)) /\
    get_answers addr c (pool_id p) p' group s.
Proof.
  intros Hnum Hsize Hn Hblock Hinit Hp Hcs Hc s0 Hl.
  pose proof (urpc_pool_init_inv addr c (pool_id p) Hnum Hsize Hblock _ _ _ _ _ _ _ Hinit Hp eq_refl Hn Hcs Hc) as Hinv.
  destruct (pool_run_inv addr c (pool_id p) Hnum Hsize Hblock evs s0) as (s & E & p' & group & Hi); [by exists p, []|done|].
  exists s, p', group. split; [exact E|]. pose proof Hi as (Hp' & (_ & _ & Hg & _ & _ & _ & Hle) & _).
  split; [done|]. split; [done|]. split; [done|]. split; [by eapply (inv_elements_apart addr c (pool_id p))|].
  split; [by eapply (inv_count addr c (pool_id p))|]. intros t lo mem Hm.
  destruct (get_spec addr c (pool_id p) Hnum Hsize Hblock lo mem t p' group _ _ _ Hi Hm) as (r & p2 & g2 & w2 & Er & Hr).
  exists r, w2. split; [done|]. destruct r; apply Hr.
Qed.

(** two threads, two blocks of two elements, an element given back by the
    other thread, a full stack given to the pool, and a thread that ends *)
Definition demo_config : urpc_pool_config := {| element_size := 64; element_num_per_block := 2; block_num := 2 |}.
Definition demo_world0 : pool_world := {| pools := ∅; g_urpc_pool_ctx := ∅; g_urpc_pool_id := None |}.
Definition demo_init := urpc_pool_init true true true true demo_config 4096 demo_world0.
Definition world_of {A} (r : option (A * pool_world)) : pool_world := match r with Some (_, w) => w | None => demo_world0 end.
Definition demo_world : pool_world := world_of demo_init.
Definition demo_events : list pool_event :=
  [PGet 0 true (Some 10000); PGet 0 true None; PGet 1 true (Some 20000); PPut 1 10024 true true;
   PPut 1 10088 true true; PPut 1 20088 true false; PGet 0 true None; PExit 1; PGet 1 false None].

Definition demo_pool : urpc_pool :=
  {| global_free := []; global_free_container := []; global_group := Some []; cfg := demo_config;
     block_size := 152; container_size := 40; pool_id := 0 |}.

Lemma pool_elements_have_one_place_witness : exists s p' group,
  pool_run 4096 demo_events {| sys_world := demo_world; sys_held := ∅; sys_lost := ∅ |} = Some s /\
  pools (sys_world s) !! (4096 : Z) = Some p' /\ global_group p' = Some group /\ zlen group <= 2 /\
  elements_apart demo_config group (sys_held s) /\
  zlen group * 2 = zlen (cached (contexts 0 (sys_world s))) + zlen (listed p') +
    Z.of_nat (size (sys_held s)) + Z.of_nat (size (sys_lost s)) /\
  get_answers 4096 demo_config 0 p' group s.
Proof.
  apply (pool_elements_have_one_place true true true true demo_config 4096 demo_world0 demo_world demo_pool demo_events).
  - split; vm_compute; congruence.
  - reflexivity.
  - vm_compute. congruence.
  - reflexivity.
  - vm_compute. reflexivity.
  - vm_compute. reflexivity.
  - vm_compute. reflexivity.
  - split; [intros t x|intros id' t x _]; change (contexts ?i demo_world) with (∅ : gmap nat urpc_pool_context); by rewrite lookup_empty.
  - vm_compute. reflexivity.
Defined.

(** ** Where the limits of [urpc_pool_init] are too wide *)

(** a block without elements is accepted, and a get that allocates one reads
    outside the stack *)
Lemma empty_block_faults local_ok a t addr p w :
  pools w !! addr = Some p -> element_num_per_block (cfg p) = 0 -> global_free p = [] -> global_group p = Some [] ->
  0 < block_num (cfg p) -> contexts (pool_id p) w !! t = None -> local_ok = true ->
  urpc_pool_element_get local_ok (Some a) t addr w = None.
Proof.
  intros Hp Hn Hf Hg Hb Ht ->. unfold urpc_pool_element_get, urpc_pool_local_init.
  rewrite Hp. cbn [mbind option_bind]. rewrite Ht, Hf, Hg, Hn. cbn [negb free_num mbind option_bind].
  rewrite (proj2 (Z.ltb_ge 0 0)), (proj2 (Z.leb_gt _ _)) by (unfold zlen; simpl; lia).
  unfold pop_local at 1. cbn [free_num data_ptr].
  destruct (zget (block_elements (cfg p) a) (u32 (0 - 1))) as [x|] eqn:E; [|done].
  apply zget_Some_range in E. unfold zlen, block_elements in E. rewrite length_fmap, length_seqZ, Hn in E. simpl in E. lia.
Qed.

(** within the accepted limits the size of a block wraps: 512 elements of
    8 MiB are allocated as the 24 bytes of the block header *)
Definition wide_config : urpc_pool_config := {| element_size := 8388608; element_num_per_block := 512; block_num := 1 |}.

Definition wide_world : pool_world := world_of (urpc_pool_init true true true true wide_config 4096 demo_world0).

Lemma block_size_wraps : urpc_pool_init true true true true wide_config 4096 demo_world0 = Some (0, wide_world) /\
  option_map block_size (pools wide_world !! (4096 : Z)) = Some 24 /\
  option_map fst (urpc_pool_element_get true (Some 65536) 0 4096 wide_world) = Some (Some (65536 + 24 + 511 * 8388608)).
Proof. split; [|split]; vm_compute; reflexivity. Qed.

(** the contexts of the threads outlive the pool: a later pool with the same
    identifier hands out an element of the freed block *)
Definition stale_get : option (option Z) :=
  '(_, w) ← urpc_pool_element_get true (Some 10000) 0 4096 demo_world;
  w ← urpc_pool_uninit 4096 w;
  '(_, w) ← urpc_pool_init true true true true demo_config 8192 w;
  '(e, _) ← urpc_pool_element_get true (Some 30000) 0 8192 w;
  Some e.

Lemma stale_context_survives : stale_get = Some (Some 10024).
Proof. vm_compute. reflexivity. Qed.
